(* ===== verification/_CoqProject ===== *)
-Q . S2P
Prelude.v
Bytes.v
Address.v
FrameAllocator.v
PageTable.v
BlockCache.v
DiskLogic.v
Bitmap.v
Layout.v
InodeMap.v
InodeGrow.v
InodeData.v
Efs.v
Vfs.v
FsData.v
FsDir.v
FsOps.v
FsTree.v
FsSpec.v
MemorySet.v
AddressSpace.v
Load.v
IdAlloc.v
Pipe.v
Sched.v
SchedSafe.v
Threads.v
UserSync.v
Peterson.v
Semaphores.v
Mpsc.v
Barrier.v
Mmap.v
Signal.v
UPCell.v
UserMem.v
Net.v
Plic.v
Devices.v
Abi.v
Trap.v
Asm.v
Flows.v
OpenFiles.v
DiskFiles.v
Paths.v
Image.v
PathCalls.v
Shell.v
Pipeline.v
Process.v
ProcTree.v
Fork.v
Argv.v
Reap.v
UserLib.v
