(* ===== verification/Prelude.v ===== *)
(** * Verification of rcore-os

    rcore-os is a small operating system in Rust: a RISC-V kernel (os/), the
    file system it mounts (easy-fs/), and user programs.  This library
    translates the kernel's and the file system's own logic into executable
    definitions and proves what makes each part correct.

    ** How the program is put together

    - [os/src/mm] hands out physical frames, builds SV39 page tables in them,
      and keeps the areas of each address space.  System calls reach user
      memory only by walking the user's page table in software.
    - [os/src/task] keeps processes and threads: ids, kernel and user stacks, a
      ready queue, signals, memory mappings.  [os/src/sync] and [os/src/timer.rs]
      put threads to sleep and wake them.
    - [os/src/fs] is what is behind a descriptor: files on disk, pipes, consoles.
    - [os/src/net] keeps sockets and ports for the frames the network card
      receives.  [os/src/trap] and [os/src/syscall] are the way in from user
      programs.
    - [easy-fs/src] is the file system: a cache of 16 blocks over the device,
      two allocation bitmaps, inodes with direct, indirect and doubly indirect
      blocks, directories as arrays of 32-byte entries.
    - [user/src] is the library programs are linked with, and the shell.

    ** Files

    - [Prelude]: outcomes, the state-and-error monad, machine integers,
      notations and automation.  [Bytes]: little-endian and UTF-8 encodings,
      slices of byte strings.
    - [Address] (mm/address.rs): addresses, page numbers, page ranges.
    - [FrameAllocator] (mm/frame_allocator.rs, drivers/bus/virtio.rs).
    - [PageTable] (mm/page_table.rs): page tables as pages of entries in
      physical memory; translation of user buffers and strings.
    - [BlockCache] (easy-fs/src/block_cache.rs, block_dev.rs): programs of block
      accesses with two meanings, on a plain disk and through the cache.
      [DiskLogic]: a weakest-precondition calculus for the first meaning, in
      which the rest of the file system is verified.
    - [Bitmap], [Layout], [Efs], [Vfs] (bitmap.rs, layout.rs, efs.rs, vfs.rs):
      the operations.  [InodeMap], [InodeGrow], [InodeData]: the block tree of an
      inode, growing and clearing it, reading and writing through it.
      [FsData]: files on an allocated file system.  [FsDir]: directories as a
      tree.  [FsOps], [FsTree], [FsSpec]: the tree of files a disk represents
      ([fs_rel]), each operation on the disk as an operation on the tree, and
      formatting.
    - [MemorySet], [AddressSpace] (mm/memory_set.rs): operations and theorems on
      address spaces, fork's copy included.  [Load]: the space of a new program,
      from the segments of its image.
    - [IdAlloc] (task/id.rs): recycling ids, kernel stacks, user resources.
    - [Pipe] (fs/pipe.rs).
    - [Sched], [SchedSafe] (task/manager.rs, processor.rs, mod.rs, sync/*,
      timer.rs, syscall/sync.rs): the scheduler with mutexes, semaphores,
      condition variables and timers as a step relation.
    - [Mmap] (task/mem.rs, syscall/mem.rs, the mappings of task/process.rs).
    - [Signal] (task/signal.rs, action.rs, the handlers of task/mod.rs, the calls
      of syscall/process.rs).
    - [UPCell] (sync/up.rs): borrows with interrupts masked.
    - [UserMem], [OpenFiles] (fs/inode.rs, the descriptor calls of
      syscall/fs.rs): reads and writes between files and user buffers.  What the
      calls need of the file system is the class [InodeLaws]; [DiskFiles] proves
      that the disk of [FsTree] is an instance.
    - [Paths], [PathCalls] (fs/inode.rs, the path and directory calls of
      syscall/fs.rs): opening, creating, removing and naming files by path.
    - [Process], [ProcTree] (task/process.rs, task/mod.rs, syscall/process.rs,
      syscall/thread.rs): processes with the memory they own; the abstract tree
      of processes they implement.  [Fork]: the whole of [sys_fork], on a machine
      no frame of which has two owners.  [Reap]: what the last reference to an
      exited process frees.
    - [Net] (net/*, syscall/net.rs): the socket and port tables, the interrupt
      handler, connect, listen, accept, reads and writes of sockets.
    - [Plic] (drivers/plic.rs, boards/qemu.rs): the registers of the interrupt
      controller, its configuration, the dispatch of an external interrupt.
      [Devices] (drivers/chardev/ns16550a.rs, input/mod.rs, block/virtio_blk.rs,
      fs/stdio.rs, syscall/input.rs): drivers that fill a buffer from interrupts
      and block their readers.  The devices themselves are the classes [Uart],
      [Input] and [Blk].
    - [Abi] (syscall/mod.rs, user/src/syscall.rs): calls packed into registers by
      the library and unpacked by the kernel; the clock.  [Trap] (trap/mod.rs,
      trap.S): saving registers, the dispatch on the cause, the return.  What the
      two need of the rest of the kernel are the classes [KernelCalls] and
      [TrapOps].
    - [Asm] (task/switch.S, trap/trap.S, task/context.rs): the instructions of the
      context switch and of the trap entries and exits, on registers and memory.
      [Flows] (task/processor.rs): the flows of control of threads and of the
      idle loop, which the scheduler of [Sched] makes with that switch.
    - [UserLib], [Argv] (user/src/lib.rs): the library's functions, waiting for
      children, and the arguments of a program from [exec] to [main].
    - [Image] (easy-fs-fuse/src/main.rs): the host tool that formats a device and
      copies the programs into it.
    - [Threads]: user programs of several threads over the scheduler of [Sched],
      with preemption between any two steps; threads that take mutexes in order.
      [UserSync] (user/src/bin/adder_mutex_*.rs, phil_din_mutex.rs): programs of
      that form.  [Semaphores]: the same for programs with semaphores, and what
      the counts of semaphores mean for them; [Mpsc] (user/src/bin/mpsc_sem.rs):
      producers and a consumer over a ring buffer.  [Barrier]
      (user/src/bin/barrier_condvar.rs): phases of printing with a barrier of a
      mutex and a condition variable between them.  [Peterson]
      (user/src/bin/adder_peterson_*.rs): a lock made of plain memory.
    - [Shell], [Pipeline] (user/src/bin/user_shell.rs): the line editor and its
      terminal, the parser, and running a chain of commands over the descriptor
      and path calls (class [UserCalls]).

    ** What the theorems show

    - End to end: a program the host packs into the image is what the kernel
      reads after booting from it, through both block caches.
    - Refinement of an abstract object: page tables are finite maps; the block
      cache is a plain disk (and [sync_all] makes it durable); pipes are bounded
      queues; descriptors are a map with lowest-free allocation; the file system
      is a tree of named files with contents; processes form a tree.
    - Functional behaviour, with frame conditions: growing, clearing, reading and
      writing an inode; bitmaps; address-space insertion, removal and copy;
      loading a program; the whole of fork; page faults; read, write and open
      system calls; formatting a device; the descriptors of each process of a
      pipe chain.
    - Down to the instructions: a thread continues after a context switch with
      the registers it left with; the trap entry and exit do what [Trap] says.
    - From the program to the kernel and back: a system call changes one
      register, arguments reach [main], a signal handler's return restores every
      register, a bad access ends the process.
    - From the devices: the interrupts delivered are exactly those with a
      handler; a reader receives what the device sent, in order.
    - Invariants of all reachable states: frames, ids, reserved pages are never
      shared; no thread is lost; mutual exclusion and semaphore counts; what a
      thread is handling and its saved context go together, so that it is known
      which signal calls fail; interrupts find every cell free.
    - Programs on the kernel: counters under mutexes end with the right value on
      every schedule, philosophers whose forks exist do not deadlock, a consumer prints what the
      producers put, in order, no thread leaves a barrier before all have reached
      it, and the programs do not get stuck.
    - Termination and liveness: ready threads run in turn; a transfer through a
      pipe completes; a stopped process continues; [accept] returns when a request
      arrives; [wait] returns when the child has exited.
    - Where the code's behaviour is surprising (a panic on an unusual call, a
      resource that is not given back) a lemma evaluates the definitions on such
      an input.

    ** Integers, loops, fuel

    Integers are [Z]; [u32] and [u64] write out the wrap-around of release
    builds, which have no overflow checks.  Loops over ranges and lists are
    structural recursions.  Loops without such a bound take fuel that is
    computed from their input: one unit per block or page the loop can touch
    (a read or write of [n] bytes touches at most [n + 1] blocks; a string
    walk, one page of the address space per turn; the path of a directory, one
    step per level).  Running out is the outcome
    [Diverged]; the theorems give a result, hence exclude it.

    ** Not modelled

    The virtio-drivers package, whose operations the drivers take as classes, and
    the display, which is only that package; the packet formats of
    the lose-net-stack package, which are the class [NetLib]; console, logging,
    start-up, which are calls of the firmware and of other packages in a fixed
    order; user programs other than those named above.  In [Sched] a context
    switch is the step that changes the current thread; [Flows] says what it does
    to registers.  The translation of addresses by the hardware is a parameter of
    [Asm].  ELF parsing (the xmas-elf package) is a parameter: the list of
    segments of a program. *)

From stdpp Require Export base tactics option list numbers gmap sets strings.
From stdpp Require Export fin_maps relations.
From Stdlib Require Export ZifyNat.

#[global] Set Default Goal Selector "!".
#[global] Open Scope Z_scope.

(** ** Outcomes

    The code under verification is built in release mode, where arithmetic
    wraps and the only abnormal ends are explicit ones.  [Panicked] is a failed
    [assert!], [unwrap], [expect], array index or [panic!]; [Deadlocked] is a
    spin lock taken twice by the single running thread; [Diverged] is a loop
    that was cut because its fuel ran out. *)
Inductive fault := Panicked | Deadlocked | Diverged.

#[global] Instance fault_eq_dec : EqDecision fault.
Proof. solve_decision. Defined.

Inductive outcome (A : Type) :=
| Ok (a : A)
| Err (e : fault).
Arguments Ok {A} a.
Arguments Err {A} e.

#[global] Instance outcome_ret : MRet outcome := λ A a, Ok a.
#[global] Instance outcome_bind : MBind outcome := λ A B f m,
  match m with Ok a => f a | Err e => Err e end.
#[global] Instance outcome_fmap : FMap outcome := λ A B f m,
  match m with Ok a => Ok (f a) | Err e => Err e end.

(** [unwrap]/[expect] of an option, [assert!] of a condition. *)
Definition unwrap {A} (o : option A) : outcome A :=
  match o with Some a => Ok a | None => Err Panicked end.
Definition assert (b : bool) : outcome () :=
  if b then Ok () else Err Panicked.

Lemma outcome_bind_Ok {A B} (m : outcome A) (f : A → outcome B) b :
  m ≫= f = Ok b ↔ ∃ a, m = Ok a ∧ f a = Ok b.
Proof.
  destruct m as [a|e]; simpl; split.
  - intros H; exists a; auto.
  - intros (a' & [= <-] & H); exact H.
  - discriminate.
  - intros (a' & ? & ?); discriminate.
Qed.

(** ** State-passing computations that may fail *)
Definition M (S A : Type) : Type := S → outcome (A * S).
#[global] Instance M_ret S : MRet (M S) := λ A a s, Ok (a, s).
#[global] Instance M_bind S : MBind (M S) := λ A B f m s,
  match m s with Ok (a, s') => f a s' | Err e => Err e end.

Lemma M_bind_Ok {S A B} (m : M S A) (f : A → M S B) s a s' :
  m s = Ok (a, s') → (m ≫= f) s = f a s'.
Proof. intros H. unfold mbind, M_bind. by rewrite H. Qed.
Lemma M_bind_Err {S A B} (m : M S A) (f : A → M S B) s e :
  m s = Err e → (m ≫= f) s = Err e.
Proof. intros H. unfold mbind, M_bind. by rewrite H. Qed.

Definition get {S} : M S S := λ s, Ok (s, s).
Definition put {S} (s' : S) : M S () := λ _, Ok ((), s').
Definition lift {S A} (o : outcome A) : M S A := λ s,
  match o with Ok a => Ok (a, s) | Err e => Err e end.
Definition panic {S A} : M S A := λ _, Err Panicked.

(** Inversion of a run. *)
Lemma bind_inv {S A B} (m : M S A) (f : A → M S B) s b s'' :
  (m ≫= f) s = Ok (b, s'') → ∃ a s', m s = Ok (a, s') ∧ f a s' = Ok (b, s'').
Proof. unfold mbind, M_bind. destruct (m s) as [[a s']|]; [eauto|done]. Qed.
Lemma lift_inv {S A} (o : outcome A) (s : S) a s' : lift o s = Ok (a, s') → o = Ok a ∧ s' = s.
Proof. unfold lift. destruct o; [intros [= <- <-]|]; done. Qed.

(** ** Machine integers: [usize]/[u64] and [u32] as [Z] with explicit wrap *)
Definition u64 (z : Z) : Z := z mod 2 ^ 64.
Definition u32 (z : Z) : Z := z mod 2 ^ 32.
Definition u8 (z : Z) : Z := z mod 2 ^ 8.
Definition U64_MAX : Z := 2 ^ 64 - 1.
Definition is_u64 (z : Z) : Prop := 0 ≤ z < 2 ^ 64.
Definition is_u32 (z : Z) : Prop := 0 ≤ z < 2 ^ 32.
Definition is_byte (z : Z) : Prop := 0 ≤ z < 256.

(** [x as isize]: two's complement reading of a 64-bit pattern. *)
Definition as_isize (z : Z) : Z := if u64 z <? 2 ^ 63 then u64 z else u64 z - 2 ^ 64.

Lemma u64_id z : is_u64 z → u64 z = z.
Proof. unfold is_u64, u64. intros; apply Z.mod_small; lia. Qed.
Lemma u32_id z : is_u32 z → u32 z = z.
Proof. unfold is_u32, u32. intros; apply Z.mod_small; lia. Qed.
Lemma u64_range z : is_u64 (u64 z).
Proof. unfold is_u64, u64. apply Z.mod_pos_bound; lia. Qed.
Lemma u32_range z : is_u32 (u32 z).
Proof. unfold is_u32, u32. apply Z.mod_pos_bound; lia. Qed.

Create HintDb rcore.
Create Rewrite HintDb rcore.
#[export] Hint Resolve u64_range u32_range : rcore.
#[export] Hint Unfold is_u64 is_u32 is_byte : rcore.

(** ** Bit fields *)

(** A field placed above [k] low bits is added, not mixed. *)
Lemma lor_shiftl_add a b k : 0 ≤ k → 0 ≤ b < 2 ^ k → Z.lor (Z.shiftl a k) b = a * 2 ^ k + b.
Proof.
  intros Hk Hb. rewrite <- Z.shiftl_mul_pow2 by done. symmetry.
  apply Z.add_nocarry_lor. apply Z.bits_inj'. intros n Hn.
  rewrite Z.land_spec, Z.bits_0. destruct (decide (n < k)) as [Hlt|Hge].
  - by rewrite Z.shiftl_spec_low.
  - destruct (decide (b = 0)) as [->|]; [by rewrite Z.bits_0, andb_false_r|].
    rewrite (Z.bits_above_log2 b n); [apply andb_false_r|lia|].
    apply Z.log2_lt_pow2; [lia|]. apply Z.lt_le_trans with (2 ^ k); [lia|].
    apply Z.pow_le_mono_r; lia.
Qed.

(** Bounds from bits and back. *)
Lemma lt_pow2_bits x n : 0 ≤ n → 0 ≤ x → (∀ k, n ≤ k → Z.testbit x k = false) → x < 2 ^ n.
Proof.
  intros Hn Hx Hbits. assert (x mod 2 ^ n = x) as <-; [|apply Z.mod_pos_bound; lia].
  apply Z.bits_inj'. intros k Hk. destruct (decide (k < n)).
  - by rewrite Z.mod_pow2_bits_low by lia.
  - rewrite Z.mod_pow2_bits_high by lia. symmetry. apply Hbits. lia.
Qed.
Lemma bits_above x n k : 0 ≤ x < 2 ^ n → n ≤ k → Z.testbit x k = false.
Proof.
  intros Hx Hk. destruct (decide (0 ≤ n)) as [Hn|Hn]; [|rewrite Z.pow_neg_r in Hx by lia; lia].
  rewrite <- (Z.mod_small x (2 ^ n)) by done. by apply Z.mod_pow2_bits_high.
Qed.

(** [bitflags::contains] *)
Definition flags_contain (fl bits : Z) : bool := Z.land fl bits =? bits.

Lemma flags_contain_bit fl k : 0 ≤ k → flags_contain fl (2 ^ k) = Z.testbit fl k.
Proof.
  intros Hk. unfold flags_contain. destruct (Z.testbit fl k) eqn:E.
  - apply Z.eqb_eq, Z.bits_inj'. intros n Hn. rewrite Z.land_spec, Z.pow2_bits_eqb by done.
    destruct (Z.eqb_spec k n) as [->|]; [by rewrite E|by rewrite andb_false_r].
  - apply Z.eqb_neq. intros H. apply (f_equal (λ z, Z.testbit z k)) in H.
    rewrite Z.land_spec, E, Z.pow2_bits_true in H by done. done.
Qed.

(** ** Reachability *)
Lemma rtc_invariant {S} (R : relation S) (I : S → Prop) s s' :
  (∀ x y, I x → R x y → I y) → I s → rtc R s s' → I s'.
Proof. intros Hstep Hs. induction 1; eauto. Qed.

(** ** Tactics *)

(** Linear arithmetic with division and modulo by constants. *)
Ltac dlia := zify; Z.to_euclidean_division_equations; lia.

(** Case analysis on the scrutinee of a [match] in the goal or a hypothesis. *)
Ltac destr_match :=
  match goal with
  | |- context [match ?x with _ => _ end] => destruct x eqn:?
  | H : context [match ?x with _ => _ end] |- _ => destruct x eqn:?
  end.
