(* ===== verification/Bytes.v ===== *)
(** * Byte buffers

    A memory page or a disk block is a list of bytes (as [Z]).  [slice] is
    [&buf[off..off+len]], [splice] is [buf[off..].copy_from_slice(new)].
    [get_le]/[set_le] are the typed accesses the code makes through pointer
    casts: element [i] of a little-endian array of [w]-byte integers. *)
From S2P Require Import Prelude.

Section lists.
Context {A : Type}.
Implicit Types l new : list A.

Definition slice (off len : nat) (l : list A) : list A := take len (drop off l).
Definition splice (off : nat) (new l : list A) : list A :=
  take off l ++ new ++ drop (off + length new) l.

Lemma length_slice off len l : (off + len ≤ length l)%nat → length (slice off len l) = len.
Proof. intros. unfold slice. rewrite length_take, length_drop. lia. Qed.

Lemma lookup_slice off len l i :
  (i < len)%nat → slice off len l !! i = l !! (off + i)%nat.
Proof. intros. unfold slice. rewrite lookup_take_lt by done. by rewrite lookup_drop. Qed.

Lemma length_splice off new l :
  (off + length new ≤ length l)%nat → length (splice off new l) = length l.
Proof. intros. unfold splice. rewrite !length_app, length_take, length_drop. lia. Qed.

Lemma lookup_splice_in off new l i :
  (off + length new ≤ length l)%nat → (off ≤ i < off + length new)%nat →
  splice off new l !! i = new !! (i - off)%nat.
Proof.
  intros Hl Hi. unfold splice.
  rewrite lookup_app_r; rewrite length_take; [|lia].
  rewrite lookup_app_l by lia. f_equal. lia.
Qed.

Lemma lookup_splice_out off new l i :
  (off + length new ≤ length l)%nat → (i < off ∨ off + length new ≤ i)%nat →
  splice off new l !! i = l !! i.
Proof.
  intros Hl [Hi|Hi]; unfold splice.
  - rewrite lookup_app_l; [by rewrite lookup_take_lt|]. rewrite length_take. lia.
  - rewrite !lookup_app_r; rewrite ?length_take; [|lia|lia].
    rewrite lookup_drop. f_equal. lia.
Qed.

Lemma slice_splice_same off new l :
  (off + length new ≤ length l)%nat → slice off (length new) (splice off new l) = new.
Proof.
  intros Hl. unfold slice, splice.
  rewrite drop_app_ge; rewrite length_take; [|lia].
  replace (off - off `min` length l)%nat with 0%nat by lia. rewrite drop_0.
  apply take_app_length.
Qed.

Lemma slice_splice_disjoint off new l off' len :
  (off + length new ≤ length l)%nat → (off' + len ≤ length l)%nat →
  (off' + len ≤ off ∨ off + length new ≤ off')%nat →
  slice off' len (splice off new l) = slice off' len l.
Proof.
  intros Hl Hl' Hd. apply list_eq. intros i. destruct (decide (i < len)%nat) as [Hi|Hi].
  - rewrite !lookup_slice by done. apply lookup_splice_out; lia.
  - rewrite !lookup_ge_None_2; [done| |]; rewrite length_slice; rewrite ?length_splice; lia.
Qed.

Lemma splice_splice_same off n1 n2 l :
  length n1 = length n2 → (off + length n1 ≤ length l)%nat →
  splice off n2 (splice off n1 l) = splice off n2 l.
Proof.
  intros Hn Hl. apply list_eq. intros i.
  destruct (decide (off ≤ i < off + length n2)%nat).
  - rewrite !lookup_splice_in; rewrite ?length_splice; try done; lia.
  - rewrite !lookup_splice_out; rewrite ?length_splice; try done; lia.
Qed.

Lemma splice_slice_id off len l :
  (off + len ≤ length l)%nat → splice off (slice off len l) l = l.
Proof.
  intros Hl. apply list_eq. intros i.
  destruct (decide (off ≤ i < off + len)%nat).
  - rewrite lookup_splice_in; rewrite ?length_slice; try lia.
    rewrite lookup_slice by lia. f_equal. lia.
  - rewrite lookup_splice_out; rewrite ?length_slice; try lia. done.
Qed.

Lemma Forall_slice (P : A → Prop) off len l : Forall P l → Forall P (slice off len l).
Proof. intros. by apply Forall_take, Forall_drop. Qed.
Lemma Forall_splice (P : A → Prop) off new l :
  Forall P l → Forall P new → Forall P (splice off new l).
Proof.
  intros. repeat apply Forall_app_2; [by apply Forall_take|done|by apply Forall_drop].
Qed.

Lemma slice_app off a b l : slice off (a + b) l = slice off a l ++ slice (off + a) b l.
Proof. unfold slice. by rewrite <- (drop_drop l a off), take_take_drop. Qed.

Lemma splice_app off a b l :
  (off + length a + length b ≤ length l)%nat →
  splice (off + length a) b (splice off a l) = splice off (a ++ b) l.
Proof.
  intros Hl. apply list_eq. intros i. destruct (decide (off ≤ i < off + length a)%nat).
  - rewrite lookup_splice_out, lookup_splice_in, lookup_splice_in; rewrite ?length_splice, ?length_app; try lia.
    by rewrite lookup_app_l by lia.
  - destruct (decide (off + length a ≤ i < off + length a + length b)%nat).
    + rewrite !lookup_splice_in; rewrite ?length_splice, ?length_app; try lia.
      rewrite lookup_app_r by lia. f_equal. lia.
    + rewrite !lookup_splice_out; rewrite ?length_splice, ?length_app; lia || done.
Qed.

(** Equal-sized chunks laid end to end. *)
Section chunks.
Context (w : nat) (ls : list (list A)) (Hw : Forall (λ c, length c = w) ls).

Lemma length_concat_chunks : length (concat ls) = (w * length ls)%nat.
Proof. induction Hw as [|c ls' Hc _ IH]; simpl; [lia|]. rewrite length_app, IH; [lia|]. by inversion Hw. Qed.
End chunks.

Lemma chunk_split w (ls : list (list A)) k c :
  Forall (λ c, length c = w) ls → ls !! k = Some c →
  ∃ pre post, concat ls = pre ++ c ++ post ∧ length pre = (w * k)%nat ∧ length c = w ∧
    ∀ c', concat (<[k := c']> ls) = pre ++ c' ++ post.
Proof.
  intros Hw Hk. exists (concat (take k ls)), (concat (drop (S k) ls)). pose proof (lookup_lt_Some _ _ _ Hk).
  assert (length (take k ls) = k) as Hl by (rewrite length_take; lia). split_and!.
  - rewrite <- (take_drop_middle _ _ _ Hk) at 1. rewrite concat_app. done.
  - rewrite (length_concat_chunks w) by (by apply Forall_take). by rewrite Hl.
  - by eapply (Forall_lookup_1 _ _ _ _ Hw).
  - intros c'. rewrite insert_take_drop by done. by rewrite concat_app.
Qed.

Lemma slice_chunk w (ls : list (list A)) k c o len :
  Forall (λ c, length c = w) ls → ls !! k = Some c → (o + len ≤ w)%nat →
  slice (w * k + o) len (concat ls) = slice o len c.
Proof.
  intros Hw Hk Ho. destruct (chunk_split w ls k c Hw Hk) as (pre & post & -> & Hp & Hc & _).
  unfold slice. rewrite drop_app_ge by lia. replace (w * k + o - length pre)%nat with o by lia.
  rewrite drop_app_le by lia. rewrite take_app_le; [done|]. rewrite length_drop. lia.
Qed.

Lemma splice_chunk w (ls : list (list A)) k c o new :
  Forall (λ c, length c = w) ls → ls !! k = Some c → (o + length new ≤ w)%nat →
  concat (<[k := splice o new c]> ls) = splice (w * k + o) new (concat ls).
Proof.
  intros Hw Hk Ho. destruct (chunk_split w ls k c Hw Hk) as (pre & post & -> & Hp & Hc & ->).
  unfold splice. rewrite take_app_ge by lia. replace (w * k + o - length pre)%nat with o by lia.
  rewrite take_app_le by lia. rewrite <- !app_assoc. do 3 f_equal.
  rewrite drop_app_ge by lia. replace (w * k + o + length new - length pre)%nat with (o + length new)%nat by lia.
  by rewrite drop_app_le by lia.
Qed.

Lemma slice_all l : slice 0 (length l) l = l.
Proof. unfold slice. by rewrite drop_0, firstn_all. Qed.
End lists.

(** The contents after writing [bs] at [off]; past the end the gap is [gap]. *)
Definition overwrite (off : nat) (gap bs old : list Z) : list Z :=
  take off old ++ gap ++ bs ++ drop (off + length bs) old.


(** ** Little-endian integers *)
Fixpoint le_enc (n : nat) (z : Z) : list Z :=
  match n with O => [] | S n' => z mod 256 :: le_enc n' (z / 256) end.
Fixpoint le_dec (l : list Z) : Z :=
  match l with [] => 0 | b :: l' => b + 256 * le_dec l' end.

Lemma length_le_enc n z : length (le_enc n z) = n.
Proof. revert z; induction n as [|n IH]; intros z; simpl; [done|by rewrite IH]. Qed.

Lemma le_enc_bytes n z : Forall is_byte (le_enc n z).
Proof.
  revert z; induction n as [|n IH]; intros z; simpl; constructor; [|apply IH].
  apply Z.mod_pos_bound. lia.
Qed.

Lemma le_dec_range l : Forall is_byte l → 0 ≤ le_dec l < 256 ^ Z.of_nat (length l).
Proof.
  induction 1 as [|b l Hb _ IH]; simpl; [lia|]. unfold is_byte in Hb.
  replace (Z.of_nat (S (length l))) with (Z.succ (Z.of_nat (length l))) by lia.
  rewrite Z.pow_succ_r by lia. lia.
Qed.

Lemma le_dec_enc n z : 0 ≤ z < 256 ^ Z.of_nat n → le_dec (le_enc n z) = z.
Proof.
  revert z; induction n as [|n IH]; intros z Hz; [simpl in *; lia|].
  rewrite Nat2Z.inj_succ, Z.pow_succ_r in Hz by lia. cbn [le_enc le_dec].
  rewrite IH; dlia.
Qed.

Lemma le_enc_dec l : Forall is_byte l → le_enc (length l) (le_dec l) = l.
Proof.
  induction 1 as [|b l Hb _ IH]; simpl; [done|]. unfold is_byte in Hb.
  rewrite Z.add_comm, Z.mul_comm.
  replace ((le_dec l * 256 + b) `mod` 256) with b by dlia.
  replace ((le_dec l * 256 + b) `div` 256) with (le_dec l) by dlia.
  by rewrite IH.
Qed.

Definition get_le (w : nat) (bs : list Z) (i : nat) : Z := le_dec (slice (w * i) w bs).
Definition set_le (w : nat) (bs : list Z) (i : nat) (v : Z) : list Z :=
  splice (w * i) (le_enc w v) bs.

Section le.
Context (w : nat) (bs : list Z).

Lemma length_set_le i v : (w * i + w ≤ length bs)%nat → length (set_le w bs i v) = length bs.
Proof. intros. apply length_splice. by rewrite length_le_enc. Qed.

Lemma set_le_bytes i v : Forall is_byte bs → Forall is_byte (set_le w bs i v).
Proof. intros. apply Forall_splice; [done|apply le_enc_bytes]. Qed.

Lemma get_set_le_same i v :
  (w * i + w ≤ length bs)%nat → 0 ≤ v < 256 ^ Z.of_nat w → get_le w (set_le w bs i v) i = v.
Proof.
  intros Hl Hv. unfold get_le, set_le.
  replace w with (length (le_enc w v)) at 2 by apply length_le_enc.
  rewrite slice_splice_same by (by rewrite length_le_enc). by apply le_dec_enc.
Qed.

Lemma get_set_le_ne i j v :
  (w * i + w ≤ length bs)%nat → (w * j + w ≤ length bs)%nat → i ≠ j →
  get_le w (set_le w bs i v) j = get_le w bs j.
Proof.
  intros Hi Hj Hne. unfold get_le, set_le.
  rewrite slice_splice_disjoint; rewrite ?length_le_enc; try done. nia.
Qed.

Lemma get_le_range i :
  Forall is_byte bs → (w * i + w ≤ length bs)%nat → 0 ≤ get_le w bs i < 256 ^ Z.of_nat w.
Proof.
  intros Hb Hl. unfold get_le. pose proof (le_dec_range (slice (w * i) w bs)) as H.
  rewrite length_slice in H by done. apply H. by apply Forall_slice.
Qed.
End le.

Lemma get_le_zero w n i : get_le w (replicate n 0) i = 0.
Proof.
  unfold get_le, slice. rewrite drop_replicate, take_replicate.
  generalize (w `min` (n - w * i))%nat as k. induction k as [|k IH]; simpl; lia.
Qed.

(** ** Arrays of little-endian words: [\[u32; n\]] and [\[u64; n\]] in memory *)
Fixpoint words_dec (w n : nat) (bs : list Z) : list Z :=
  match n with
  | O => []
  | S n' => le_dec (take w bs) :: words_dec w n' (drop w bs)
  end.
Definition words_enc (w : nat) (ws : list Z) : list Z := concat (le_enc w <$> ws).

Section words.
Context (w : nat).
Implicit Types (ws bs : list Z).

Lemma words_enc_cons v ws : words_enc w (v :: ws) = le_enc w v ++ words_enc w ws.
Proof. reflexivity. Qed.

Lemma length_words_dec n bs : length (words_dec w n bs) = n.
Proof. revert bs; induction n as [|n IH]; intros bs; simpl; [done|by rewrite IH]. Qed.

Lemma length_words_enc ws : length (words_enc w ws) = (w * length ws)%nat.
Proof.
  induction ws as [|v ws IH]; [simpl; lia|].
  rewrite words_enc_cons, length_app, length_le_enc, IH. simpl. lia.
Qed.

Lemma words_enc_bytes ws : Forall is_byte (words_enc w ws).
Proof.
  induction ws as [|v ws IH]; [constructor|]. rewrite words_enc_cons.
  apply Forall_app_2; [apply le_enc_bytes|done].
Qed.

Lemma words_dec_enc ws r :
  Forall (λ v, 0 ≤ v < 256 ^ Z.of_nat w) ws → words_dec w (length ws) (words_enc w ws ++ r) = ws.
Proof.
  induction 1 as [|v ws Hv _ IH]; simpl; [done|].
  rewrite words_enc_cons, <- app_assoc.
  rewrite take_app_length' by (by rewrite length_le_enc). rewrite drop_app_length' by (by rewrite length_le_enc).
  by rewrite le_dec_enc, IH.
Qed.

Lemma words_enc_dec n bs :
  Forall is_byte bs → length bs = (w * n)%nat → words_enc w (words_dec w n bs) = bs.
Proof.
  revert bs; induction n as [|n IH]; intros bs Hb Hl; simpl.
  { destruct bs; simpl in *; [done|lia]. }
  rewrite words_enc_cons, IH; [|by apply Forall_drop|rewrite length_drop; lia].
  assert (length (take w bs) = w) as Hw by (rewrite length_take; lia).
  rewrite <- Hw at 1. rewrite le_enc_dec by (by apply Forall_take). by rewrite take_drop.
Qed.

Lemma words_dec_range n bs :
  Forall is_byte bs → length bs = (w * n)%nat →
  Forall (λ v, 0 ≤ v < 256 ^ Z.of_nat w) (words_dec w n bs).
Proof.
  revert bs; induction n as [|n IH]; intros bs Hb Hl; simpl; [constructor|].
  constructor; [|apply IH; [by apply Forall_drop|rewrite length_drop; lia]].
  assert (length (take w bs) = w) as Hw by (rewrite length_take; lia).
  pose proof (le_dec_range (take w bs)) as Hr. rewrite Hw in Hr. apply Hr. by apply Forall_take.
Qed.
End words.

Lemma words_dec_zero w n k : words_dec w n (replicate k 0) = replicate n 0.
Proof.
  revert k; induction n as [|n IH]; intros k; simpl; [done|].
  rewrite take_replicate, drop_replicate, IH. f_equal.
  generalize (w `min` k)%nat as j. induction j as [|j IHj]; simpl; lia.
Qed.

(** ** [core::str::from_utf8]: is a byte string well-formed UTF-8? *)
Definition in_range (lo hi b : Z) : bool := (lo <=? b) && (b <=? hi).
Definition utf8_cont : Z → bool := in_range 128 191.

Definition utf8_two (b0 b1 : Z) : bool := in_range 194 223 b0 && utf8_cont b1.
Definition utf8_three (b0 b1 b2 : Z) : bool :=
  (((b0 =? 224) && in_range 160 191 b1) || (in_range 225 236 b0 && utf8_cont b1) ||
   ((b0 =? 237) && in_range 128 159 b1) || (in_range 238 239 b0 && utf8_cont b1)) && utf8_cont b2.
Definition utf8_four (b0 b1 b2 b3 : Z) : bool :=
  (((b0 =? 240) && in_range 144 191 b1) || (in_range 241 243 b0 && utf8_cont b1) ||
   ((b0 =? 244) && in_range 128 143 b1)) && utf8_cont b2 && utf8_cont b3.

Fixpoint utf8_ok (bs : list Z) : bool :=
  match bs with
  | [] => true
  | b0 :: r0 =>
      if b0 <? 128 then utf8_ok r0 else
      match r0 with
      | [] => false
      | b1 :: r1 =>
          if utf8_two b0 b1 then utf8_ok r1 else
          match r1 with
          | [] => false
          | b2 :: r2 =>
              if utf8_three b0 b1 b2 then utf8_ok r2 else
              match r2 with
              | [] => false
              | b3 :: r3 => if utf8_four b0 b1 b2 b3 then utf8_ok r3 else false
              end
          end
      end
  end.

Lemma utf8_ok_ascii bs : Forall (λ b, b < 128) bs → utf8_ok bs = true.
Proof. induction 1 as [|b bs Hb _ IH]; simpl; [done|]. by rewrite (proj2 (Z.ltb_lt _ _)). Qed.

#[export] Hint Resolve words_enc_bytes le_enc_bytes set_le_bytes Forall_slice Forall_splice : rcore.
