(* ===== verification/Address.v ===== *)
(** * Addresses and page numbers (os/src/mm/address.rs, os/src/config.rs)

    The newtypes [PhysAddr], [VirtAddr], [PhysPageNum] and [VirtPageNum] wrap a
    [usize]; they are modelled by the wrapped value in [Z].  Conversions mask
    exactly as the [From] impls do, [usize] arithmetic wraps modulo 2^64. *)
From S2P Require Import Prelude.

Definition PAGE_SIZE : Z := 0x1000.
Definition PAGE_SIZE_BITS : Z := 12.
Definition TRAMPOLINE : Z := U64_MAX - PAGE_SIZE + 1.
Definition TRAP_CONTEXT : Z := TRAMPOLINE - PAGE_SIZE.
Definition USER_STACK_SIZE : Z := 4096 * 2.
Definition KERNEL_STACK_SIZE : Z := 4096 * 2.
Definition MMAP_AREA_BASE : Z := 0x100000000.
Definition MEMORY_END : Z := 0x88000000.

Definition PA_WIDTH_SV39 : Z := 56.
Definition VA_WIDTH_SV39 : Z := 39.
Definition PPN_WIDTH_SV39 : Z := PA_WIDTH_SV39 - PAGE_SIZE_BITS.
Definition VPN_WIDTH_SV39 : Z := VA_WIDTH_SV39 - PAGE_SIZE_BITS.
Definition PA_MASK : Z := Z.shiftl 1 PA_WIDTH_SV39 - 1.
Definition VA_MASK : Z := Z.shiftl 1 VA_WIDTH_SV39 - 1.
Definition PPN_MASK : Z := Z.shiftl 1 PPN_WIDTH_SV39 - 1.
Definition VPN_MASK : Z := Z.shiftl 1 VPN_WIDTH_SV39 - 1.
Definition PG_OFS_MASK : Z := PAGE_SIZE - 1.

Definition phys_addr (v : Z) : Z := Z.land v PA_MASK.
Definition virt_addr (v : Z) : Z := Z.land v VA_MASK.
Definition phys_page_num (v : Z) : Z := Z.land v PPN_MASK.
Definition virt_page_num (v : Z) : Z := Z.land v VPN_MASK.

Definition page_offset (a : Z) : Z := Z.land a PG_OFS_MASK.
Definition floor (a : Z) : Z := a / PAGE_SIZE.
Definition ceil (a : Z) : Z := u64 (a + PAGE_SIZE - 1) / PAGE_SIZE.
Definition aligned (a : Z) : bool := page_offset a =? 0.

(** [From<PhysPageNum> for PhysAddr] and [From<VirtPageNum> for VirtAddr]. *)
Definition addr_of_page (n : Z) : Z := u64 (Z.shiftl n PAGE_SIZE_BITS).
(** [From<PhysAddr> for PhysPageNum] and [From<VirtAddr> for VirtPageNum]. *)
Definition page_of_addr (a : Z) : outcome Z :=
  assert (page_offset a =? 0) ≫= λ _, Ok (floor a).

(** [StepByOne::step] of both page-number types. *)
Definition step (n : Z) : Z := u64 (n + 1).

(** [for i in (0..3).rev() { idx[i] = vpn & 0x1ff; vpn >>= 9 }] *)
Fixpoint indexes_loop (n : nat) (vpn : Z) (idx : list Z) : list Z :=
  match n with
  | O => idx
  | S i => indexes_loop i (Z.shiftr vpn 9) (<[i := Z.land vpn 0x1ff]> idx)
  end.
Definition indexes (vpn : Z) : list Z := indexes_loop 3 vpn [0; 0; 0].

(** ** [SimpleRange<T>] at page numbers, and its iterator *)
Record SimpleRange := mkRange { range_l : Z; range_r : Z }.

#[global] Instance SimpleRange_eq_dec : EqDecision SimpleRange.
Proof. solve_decision. Defined.

Definition range_new (s e : Z) : outcome SimpleRange :=
  assert (s <=? e) ≫= λ _, Ok (mkRange s e).
Definition get_start (rg : SimpleRange) : Z := range_l rg.
Definition get_end (rg : SimpleRange) : Z := range_r rg.
Definition contains (rg : SimpleRange) (v : Z) : bool :=
  (range_l rg <=? v) && (v <? range_r rg).
Definition overlap_with (self other : SimpleRange) : bool :=
  (step (get_start other) <=? range_r self) && (step (range_l self) <=? get_end other).

Record SimpleRangeIterator := mkIter { it_current : Z; it_end : Z }.
Definition into_iter (rg : SimpleRange) : SimpleRangeIterator :=
  mkIter (range_l rg) (range_r rg).
Definition iter_next (it : SimpleRangeIterator) : option Z * SimpleRangeIterator :=
  if it_current it =? it_end it then (None, it)
  else (Some (it_current it), mkIter (step (it_current it)) (it_end it)).

(** The items a [for] loop over the iterator sees; [None] when [fuel] calls of
    [next] do not reach the end. *)
Fixpoint iter_collect (fuel : nat) (it : SimpleRangeIterator) : option (list Z) :=
  match fuel with
  | O => None
  | S fuel' =>
      match iter_next it with
      | (None, _) => Some []
      | (Some v, it') => cons v <$> iter_collect fuel' it'
      end
  end.

(** ** Facts about masks *)
Lemma land_mask v k : 0 ≤ k → Z.land v (Z.shiftl 1 k - 1) = v mod 2 ^ k.
Proof.
  intros Hk. rewrite Z.shiftl_1_l.
  replace (2 ^ k - 1) with (Z.ones k) by (rewrite Z.ones_equiv; lia).
  by apply Z.land_ones.
Qed.

Lemma page_offset_mod a : page_offset a = a mod PAGE_SIZE.
Proof. apply (land_mask a 12). lia. Qed.

Lemma virt_addr_mod v : virt_addr v = v mod 2 ^ 39.
Proof. apply (land_mask v 39). lia. Qed.
Lemma phys_addr_mod v : phys_addr v = v mod 2 ^ 56.
Proof. apply (land_mask v 56). lia. Qed.
Lemma phys_page_num_mod v : phys_page_num v = v mod 2 ^ 44.
Proof. apply (land_mask v 44). lia. Qed.

Lemma virt_addr_range v : 0 ≤ virt_addr v < 2 ^ 39.
Proof. rewrite virt_addr_mod. apply Z.mod_pos_bound. lia. Qed.

Lemma virt_addr_id v : 0 ≤ v < 2 ^ 39 → virt_addr v = v.
Proof. intros. rewrite virt_addr_mod. apply Z.mod_small. lia. Qed.

Lemma phys_page_num_id v : 0 ≤ v < 2 ^ 44 → phys_page_num v = v.
Proof. intros. rewrite phys_page_num_mod. apply Z.mod_small. lia. Qed.

Lemma addr_of_page_eq n : 0 ≤ n < 2 ^ 52 → addr_of_page n = n * PAGE_SIZE.
Proof.
  intros Hn. unfold addr_of_page, PAGE_SIZE_BITS, PAGE_SIZE.
  rewrite Z.shiftl_mul_pow2 by lia. apply u64_id. unfold is_u64. lia.
Qed.

Lemma ceil_eq a : 0 ≤ a ≤ 2 ^ 64 - PAGE_SIZE → ceil a = (a + PAGE_SIZE - 1) / PAGE_SIZE.
Proof.
  unfold ceil, PAGE_SIZE. intros Ha. rewrite u64_id; [done|]. unfold is_u64. lia.
Qed.

#[export] Hint Rewrite page_offset_mod virt_addr_mod phys_addr_mod phys_page_num_mod : rcore.

(** ** Page arithmetic *)
Lemma floor_bounds a : floor a * PAGE_SIZE ≤ a < (floor a + 1) * PAGE_SIZE.
Proof. unfold floor, PAGE_SIZE. dlia. Qed.

Lemma floor_split a : a = floor a * PAGE_SIZE + page_offset a.
Proof.
  rewrite page_offset_mod. unfold floor, PAGE_SIZE. dlia.
Qed.

Lemma ceil_bounds a :
  0 ≤ a ≤ 2 ^ 64 - PAGE_SIZE → (ceil a - 1) * PAGE_SIZE < a ≤ ceil a * PAGE_SIZE.
Proof.
  intros Ha. rewrite ceil_eq by done. unfold PAGE_SIZE in *.
  dlia.
Qed.

Lemma page_of_addr_of_page n :
  0 ≤ n < 2 ^ 52 → page_of_addr (addr_of_page n) = Ok n.
Proof.
  intros Hn. rewrite addr_of_page_eq by done. unfold page_of_addr.
  rewrite page_offset_mod, Z_mod_mult. simpl.
  unfold floor. rewrite Z_div_mult; [done|]. unfold PAGE_SIZE; lia.
Qed.

Lemma indexes_eq vpn :
  indexes vpn = [Z.shiftr vpn 18 `mod` 512; Z.shiftr vpn 9 `mod` 512; vpn `mod` 512].
Proof.
  unfold indexes. simpl. rewrite Z.shiftr_shiftr by lia.
  by rewrite !(land_mask _ 9) by lia.
Qed.

Lemma indexes_recompose vpn :
  0 ≤ vpn < 2 ^ 27 →
  ∃ i0 i1 i2, indexes vpn = [i0; i1; i2] ∧
    0 ≤ i0 < 512 ∧ 0 ≤ i1 < 512 ∧ 0 ≤ i2 < 512 ∧
    vpn = i0 * 2 ^ 18 + i1 * 2 ^ 9 + i2.
Proof.
  intros Hv. rewrite indexes_eq. do 3 eexists. split; [done|].
  rewrite !Z.shiftr_div_pow2 by lia.
  dlia.
Qed.

(** ** Ranges *)
Lemma iter_collect_seqZ n l :
  0 ≤ l → l + Z.of_nat n < 2 ^ 64 →
  iter_collect (S n) (mkIter l (l + Z.of_nat n)) = Some (seqZ l (Z.of_nat n)).
Proof.
  revert l; induction n as [|n IH]; intros l Hl Hr.
  - simpl. unfold iter_next; simpl. by rewrite Z.add_0_r, Z.eqb_refl.
  - change (iter_collect (S (S n)) ?it) with
      (match iter_next it with (None, _) => Some []
       | (Some v, it') => cons v <$> iter_collect (S n) it' end).
    unfold iter_next; cbn [it_current it_end].
    rewrite (proj2 (Z.eqb_neq l _)) by lia.
    assert (step l = l + 1) as -> by (apply u64_id; unfold is_u64; lia).
    replace (l + Z.of_nat (S n)) with ((l + 1) + Z.of_nat n) by lia.
    rewrite IH by lia. rewrite (seqZ_cons l) by lia. simpl.
    do 2 f_equal. f_equal; lia.
Qed.

(** The iterator of a well-formed range visits its page numbers in order,
    once each, and ends. *)
Theorem range_iter_complete rg :
  0 ≤ range_l rg → range_l rg ≤ range_r rg → range_r rg < 2 ^ 64 →
  ∃ fuel, iter_collect fuel (into_iter rg) = Some (seqZ (range_l rg) (range_r rg - range_l rg)) ∧
    ∀ v, contains rg v = true ↔ v ∈ seqZ (range_l rg) (range_r rg - range_l rg).
Proof.
  intros H0 H1 H2. exists (S (Z.to_nat (range_r rg - range_l rg))). split.
  - unfold into_iter.
    pose proof (iter_collect_seqZ (Z.to_nat (range_r rg - range_l rg)) (range_l rg)) as Hc.
    rewrite Z2Nat.id in Hc by lia.
    replace (range_l rg + (range_r rg - range_l rg)) with (range_r rg) in Hc by lia.
    apply Hc; lia.
  - intros v. unfold contains. rewrite elem_of_seqZ.
    rewrite andb_true_iff, Z.leb_le, Z.ltb_lt. lia.
Qed.

(** Two non-empty ranges overlap exactly when some page number lies in both. *)
Theorem overlap_with_spec a b :
  0 ≤ range_l a < range_r a → 0 ≤ range_l b < range_r b →
  range_r a < 2 ^ 64 → range_r b < 2 ^ 64 →
  overlap_with a b = true ↔ ∃ v, contains a v = true ∧ contains b v = true.
Proof.
  intros Ha Hb Hra Hrb. unfold overlap_with, get_start, get_end, step, contains.
  rewrite !u64_id by (unfold is_u64; lia).
  rewrite andb_true_iff, !Z.leb_le. split.
  - intros [H1 H2]. exists (Z.max (range_l a) (range_l b)).
    rewrite !andb_true_iff, !Z.leb_le, !Z.ltb_lt. lia.
  - intros (v & H1 & H2). rewrite !andb_true_iff, !Z.leb_le, !Z.ltb_lt in *. lia.
Qed.

Lemma range_iter_complete_witness :
  ∃ fuel, iter_collect fuel (into_iter (mkRange 3 7)) = Some (seqZ 3 4) ∧
    ∀ v, contains (mkRange 3 7) v = true ↔ v ∈ seqZ 3 4.
Proof. apply (range_iter_complete (mkRange 3 7)); simpl; lia. Defined.

Lemma overlap_with_spec_witness :
  overlap_with (mkRange 3 7) (mkRange 6 9) = true ↔
  ∃ v, contains (mkRange 3 7) v = true ∧ contains (mkRange 6 9) v = true.
Proof. apply (overlap_with_spec (mkRange 3 7) (mkRange 6 9)); simpl; lia. Defined.
