(* ===== verification/FrameAllocator.v ===== *)
(** * The physical frame allocator (os/src/mm/frame_allocator.rs,
      os/src/drivers/bus/virtio.rs)

    [StackFrameAllocator] hands out page numbers from the idle range
    [[current, end)] and from a stack of recycled ones.  The [Vec] used as a
    stack is a list whose head is the top.  [kmem] pairs the allocator with the
    physical memory, because [FrameTracker::new] clears the page it owns. *)
From S2P Require Import Prelude Address.

Record StackFrameAllocator := mkFA {
  current : Z;
  end_ : Z;
  recycled : list Z;
}.

Definition fa_new : StackFrameAllocator := mkFA 0 0 [].

Definition fa_init (a : StackFrameAllocator) (l r : Z) : StackFrameAllocator :=
  mkFA l r (recycled a).

Definition alloc (a : StackFrameAllocator) : option Z * StackFrameAllocator :=
  match recycled a with
  | ppn :: rest => (Some (phys_page_num ppn), mkFA (current a) (end_ a) rest)
  | [] =>
      if current a =? end_ a then (None, a)
      else (Some (phys_page_num (current a)), mkFA (u64 (current a + 1)) (end_ a) [])
  end.

Definition alloc_more (a : StackFrameAllocator) (pages : Z)
    : option (list Z) * StackFrameAllocator :=
  if end_ a <=? u64 (current a + pages) then (None, a)
  else
    let cur' := u64 (current a + pages) in
    let arr := seqZ 1 (u64 (pages + 1) - 1) in (* 1..pages + 1 *)
    (Some ((λ x, phys_page_num (u64 (cur' - x))) <$> arr), mkFA cur' (end_ a) (recycled a)).

Definition dealloc (a : StackFrameAllocator) (ppn : Z) : outcome StackFrameAllocator :=
  if (current a <=? ppn) || bool_decide (ppn ∈ recycled a) then Err Panicked
  else Ok (mkFA (current a) (end_ a) (ppn :: recycled a)).

(** ** Physical memory and the tracked frames *)
Abbreviation page := (list Z) (only parsing).
Definition zero_page : page := replicate (Z.to_nat PAGE_SIZE) 0.

Record kmem := mkMem {
  fa : StackFrameAllocator;
  mem : gmap Z page;
}.

(** [frame_alloc], with the clearing done by [FrameTracker::new]. *)
Definition frame_alloc : M kmem (option Z) := λ s,
  match alloc (fa s) with
  | (None, a) => Ok (None, mkMem a (mem s))
  | (Some ppn, a) => Ok (Some ppn, mkMem a (<[ppn := zero_page]> (mem s)))
  end.

Definition frame_alloc_more (num : Z) : M kmem (option (list Z)) := λ s,
  match alloc_more (fa s) num with
  | (None, a) => Ok (None, mkMem a (mem s))
  | (Some v, a) => Ok (Some v, mkMem a (foldl (λ m ppn, <[ppn := zero_page]> m) (mem s) v))
  end.

(** [frame_dealloc]; also what dropping a [FrameTracker] runs. *)
Definition frame_dealloc (ppn : Z) : M kmem () := λ s,
  match dealloc (fa s) ppn with
  | Ok a => Ok ((), mkMem a (mem s))
  | Err e => Err e
  end.

(** [VirtioHal::dma_alloc]: the trackers are appended to [QUEUE_FRAMES]. *)
Definition dma_alloc (pages : Z) : M (kmem * list Z) Z := λ '(s, queue_frames),
  match frame_alloc_more pages s with
  | Ok (Some trackers, s') =>
      match last trackers with
      | Some ppn_base => Ok (addr_of_page ppn_base, (s', queue_frames ++ trackers))
      | None => Err Panicked
      end
  | Ok (None, _) => Err Panicked
  | Err e => Err e
  end.

Fixpoint dma_dealloc_loop (n : nat) (ppn_base : Z) : M kmem () :=
  match n with
  | O => mret ()
  | S n' => frame_dealloc ppn_base ≫= λ _, dma_dealloc_loop n' (step ppn_base)
  end.
Definition dma_dealloc (paddr pages : Z) : M kmem Z :=
  lift (page_of_addr (phys_addr paddr)) ≫= λ ppn_base,
  dma_dealloc_loop (Z.to_nat pages) ppn_base ≫= λ _, mret 0.

(** ** Abstract state: which frames are free, which are handed out *)
Definition is_free (a : StackFrameAllocator) (p : Z) : Prop :=
  p ∈ recycled a ∨ current a ≤ p < end_ a.
Definition is_allocated (l0 : Z) (a : StackFrameAllocator) (p : Z) : Prop :=
  l0 ≤ p < current a ∧ p ∉ recycled a.

Record fa_wf (l0 : Z) (a : StackFrameAllocator) : Prop := {
  wf_lo : 0 ≤ l0 ≤ current a;
  wf_hi : current a ≤ end_ a < 2 ^ 44;
  wf_nodup : NoDup (recycled a);
  wf_rec : ∀ p, p ∈ recycled a → l0 ≤ p < current a;
}.

Lemma fa_init_wf l r : 0 ≤ l ≤ r → r < 2 ^ 44 → fa_wf l (fa_init fa_new l r).
Proof. intros; split; simpl; try lia; [constructor|]. intros p Hp. set_solver. Qed.

Section fa.
Context (l0 : Z) (a : StackFrameAllocator) (Hwf : fa_wf l0 a).

Lemma free_allocated_disjoint p : is_free a p → is_allocated l0 a p → False.
Proof. destruct Hwf. intros [Hp|Hp] [Hq Hn]; [done|lia]. Qed.

Lemma alloc_Some p a' :
  alloc a = (Some p, a') →
  is_free a p ∧ fa_wf l0 a' ∧
  (∀ q, is_allocated l0 a' q ↔ q = p ∨ is_allocated l0 a q) ∧
  (∀ q, is_free a' q ↔ is_free a q ∧ q ≠ p).
Proof.
  destruct a as [cur e rec], Hwf as [Hlo Hhi Hnd Hrec].
  unfold alloc, is_free, is_allocated; simpl in *.
  destruct rec as [|x rest]; [case_match eqn:E; [done|]|]; intros [= <- <-]; simpl.
  - apply Z.eqb_neq in E.
    rewrite phys_page_num_id, u64_id by (unfold is_u64; lia).
    split_and!; [right; lia| split; simpl; try lia; [done|set_solver] | |].
    + intros q. split; [|intros [->|]]; [|split; [lia|set_solver]|lia || (split; [lia|set_solver])].
      intros [? _]. destruct (decide (q = cur)); [by left|right]. split; [lia|set_solver].
    + intros q. split; [intros [?|?]; [set_solver|] | intros [[?|?] ?]; [set_solver|]]; [split; [right|]; lia|right; lia].
  - assert (l0 ≤ x < cur) as Hx by (apply Hrec; set_solver).
    apply NoDup_cons in Hnd as [Hnx Hnd].
    rewrite phys_page_num_id by lia.
    split_and!; [left; set_solver| split; simpl; try lia; [done|set_solver] | |].
    + intros q. rewrite not_elem_of_cons. split; [|intros [->|(?&?&?)]; [|tauto]]; [|done].
      intros [? ?]. destruct (decide (q = x)); tauto.
    + intros q. rewrite elem_of_cons. split.
      * intros [?|?]; (split; [tauto|]); [congruence|lia].
      * intros [[[->|?]|?] ?]; tauto.
Qed.

Lemma alloc_None a' : alloc a = (None, a') → a' = a ∧ ∀ p, ¬ is_free a p.
Proof.
  destruct a as [cur e rec], Hwf as [Hlo Hhi Hnd Hrec].
  unfold alloc, is_free; simpl in *. destruct rec as [|x rest]; [|done].
  case_match eqn:E; [|done]. apply Z.eqb_eq in E. intros [= <-].
  split; [done|]. intros p [?|?]; [set_solver|lia].
Qed.

Lemma dealloc_allocated p :
  is_allocated l0 a p →
  ∃ a', dealloc a p = Ok a' ∧ fa_wf l0 a' ∧
    (∀ q, is_allocated l0 a' q ↔ is_allocated l0 a q ∧ q ≠ p) ∧
    (∀ q, is_free a' q ↔ q = p ∨ is_free a q).
Proof.
  intros [Hp Hn]. destruct a as [cur e rec], Hwf as [Hlo Hhi Hnd Hrec]; simpl in *.
  unfold dealloc, is_allocated, is_free; simpl.
  rewrite (proj2 (Z.leb_gt _ _)), bool_decide_eq_false_2 by (done || lia).
  eexists; split; [done|]; split_and!; simpl.
  - split; simpl; try lia; [by constructor|].
    intros q [->|?]%elem_of_cons; [lia|by apply Hrec].
  - intros q. rewrite not_elem_of_cons. tauto.
  - intros q. rewrite elem_of_cons. tauto.
Qed.

(** Freeing a frame that is idle or already recycled panics, and so does
    nothing else to a well-formed allocator. *)
Lemma dealloc_panics p : is_free a p → dealloc a p = Err Panicked.
Proof.
  unfold is_free, dealloc. intros [Hp|Hp].
  - by rewrite (bool_decide_eq_true_2 _ Hp), orb_true_r.
  - by rewrite (proj2 (Z.leb_le _ _)) by lia.
Qed.

Lemma alloc_more_Some n ps a' :
  0 < n < 2 ^ 44 →
  alloc_more a n = (Some ps, a') →
  fa_wf l0 a' ∧ ps = reverse (seqZ (current a) n) ∧
  (∀ q, is_allocated l0 a' q ↔ q ∈ ps ∨ is_allocated l0 a q).
Proof.
  destruct a as [cur e rec], Hwf as [Hlo Hhi Hnd Hrec]; simpl in *.
  intros Hn. unfold alloc_more; simpl. rewrite (u64_id (n + 1)), (u64_id (cur + n)) by (unfold is_u64; lia).
  replace (n + 1 - 1) with n by lia.
  case_match eqn:E; [done|]. apply Z.leb_gt in E. intros [= <- <-].
  assert (((λ x, phys_page_num (u64 (cur + n - x))) <$> seqZ 1 n) = reverse (seqZ cur n)) as ->.
  { apply list_eq. intros i. rewrite list_lookup_fmap.
    destruct (decide (Z.of_nat i < n)) as [Hi|Hi].
    - rewrite lookup_seqZ_lt by lia. simpl.
      rewrite reverse_lookup by (rewrite length_seqZ; lia). rewrite length_seqZ.
      rewrite lookup_seqZ_lt by lia. f_equal.
      rewrite u64_id by (unfold is_u64; lia). rewrite phys_page_num_id by lia. lia.
    - rewrite lookup_seqZ_ge by lia. simpl. symmetry. apply lookup_ge_None.
      rewrite length_reverse, length_seqZ. lia. }
  split_and!; [|done|].
  - split; simpl; try lia; [done|]. intros p Hp. specialize (Hrec p Hp). lia.
  - intros q. unfold is_allocated; simpl. rewrite elem_of_reverse, elem_of_seqZ.
    destruct (decide (cur ≤ q)).
    + assert (q ∉ rec) by (intros Hq%Hrec; lia). split; [left; lia|].
      intros [|[]]; (split; [lia|done]).
    + split; [intros []; right; split; [lia|done]|]. intros [|[]]; [lia|]. split; [lia|done].
Qed.
End fa.

(** ** The allocator and its clients as a transition system

    [live] is the multiset of frames clients hold (the live [FrameTracker]s);
    a client may only return a frame it holds. *)
Inductive fstep : StackFrameAllocator * list Z → StackFrameAllocator * list Z → Prop :=
| step_alloc a live p a' :
    alloc a = (Some p, a') → fstep (a, live) (a', p :: live)
| step_alloc_more a live n ps a' :
    0 < n < 2 ^ 44 → alloc_more a n = (Some ps, a') → fstep (a, live) (a', ps ++ live)
| step_dealloc a l1 p l2 a' :
    dealloc a p = Ok a' → fstep (a, l1 ++ p :: l2) (a', l1 ++ l2).

Definition finv (l0 r : Z) (s : StackFrameAllocator * list Z) : Prop :=
  fa_wf l0 s.1 ∧ end_ s.1 = r ∧ NoDup s.2 ∧ ∀ p, p ∈ s.2 ↔ is_allocated l0 s.1 p.

Lemma alloc_end a : end_ (alloc a).2 = end_ a.
Proof. unfold alloc. by repeat case_match. Qed.
Lemma alloc_more_end a n : end_ (alloc_more a n).2 = end_ a.
Proof. unfold alloc_more. by case_match. Qed.

Lemma finv_step l0 r s s' : finv l0 r s → fstep s s' → finv l0 r s'.
Proof.
  intros (Hwf & Hend & Hnd & Hlive) Hs;
    inversion Hs as [a live p a' Ha|a live n ps a' Hn Ha|a l1 p l2 a' Ha]; subst; simpl in *.
  - pose proof (alloc_end a) as He. rewrite Ha in He.
    destruct (alloc_Some l0 a Hwf p a' Ha) as (Hfree & Hwf' & Hal & _).
    split_and!; simpl; [done|done| |].
    + constructor; [|done]. rewrite Hlive. intros ?. by apply (free_allocated_disjoint l0 a Hwf p).
    + intros q. by rewrite elem_of_cons, Hal, Hlive.
  - pose proof (alloc_more_end a n) as He. rewrite Ha in He.
    destruct (alloc_more_Some l0 a Hwf n ps a' Hn Ha) as (Hwf' & -> & Hal).
    split_and!; simpl; [done|done| |].
    + apply NoDup_app; split_and!; [rewrite reverse_Permutation; apply NoDup_seqZ| |done].
      intros q Hq%elem_of_reverse%elem_of_seqZ. rewrite Hlive. intros [? _]. lia.
    + intros q. by rewrite elem_of_app, Hal, Hlive.
  - assert (is_allocated l0 a p) as Hp by (apply Hlive; set_solver).
    assert (end_ a' = end_ a) as He by (revert Ha; unfold dealloc; destruct (_ || _); [done|]; by intros [= <-]).
    destruct (dealloc_allocated l0 a Hwf p Hp) as (a'' & Ha' & Hwf' & Hal & _).
    rewrite Ha in Ha'. injection Ha' as <-.
    assert (l1 ++ p :: l2 ≡ₚ p :: l1 ++ l2) as Hperm by (by rewrite Permutation_middle).
    rewrite Hperm in Hnd. apply NoDup_cons in Hnd as [Hnp Hnd].
    split_and!; simpl; [done|done|done|]. intros q. rewrite Hal, <- Hlive, Hperm, elem_of_cons.
    split; [intros Hq; split; [by right|congruence]|]. by intros [[->|?] ?].
Qed.

(** C8 No frame is ever owned twice.  From an initialised allocator, whatever
    clients do, the live frames are pairwise distinct, lie in [[l, r)] and are
    not free, and returning any of them succeeds. *)
Theorem frames_never_shared l r s :
  0 ≤ l ≤ r → r < 2 ^ 44 →
  rtc fstep (fa_init fa_new l r, []) s →
  NoDup s.2 ∧ (∀ p, p ∈ s.2 → l ≤ p < r ∧ ¬ is_free s.1 p) ∧
  ∀ p, p ∈ s.2 → ∃ a', dealloc s.1 p = Ok a'.
Proof.
  intros Hl Hr Hrtc.
  apply (rtc_invariant _ (finv l r)) in Hrtc as (Hwf & Hend & Hnd & Hlive); [|apply finv_step|].
  - split_and!; [done| |].
    + intros p Hp%Hlive. split; [|intros Hf; by apply (free_allocated_disjoint l s.1 Hwf p)].
      destruct Hp, Hwf. lia.
    + intros p Hp%Hlive. destruct (dealloc_allocated l _ Hwf p Hp) as (a' & ? & _). eauto.
  - split_and!; simpl; [by apply fa_init_wf|done|constructor|].
    intros p. unfold is_allocated; simpl. split; [set_solver|lia].
Qed.

(** Two allocations and the release of the first. *)
Example frames_trace :
  rtc fstep (fa_init fa_new 5 9, []) (mkFA 7 9 [5], [6]).
Proof.
  eapply rtc_l; [by apply step_alloc|].
  eapply rtc_l; [by apply step_alloc|].
  eapply rtc_l; [by apply (step_dealloc _ [6] 5 [])|]. apply rtc_refl.
Qed.

Lemma frames_never_shared_witness : NoDup [6] ∧ ∃ a', dealloc (mkFA 7 9 [5]) 6 = Ok a'.
Proof.
  destruct (frames_never_shared 5 9 (mkFA 7 9 [5], [6])) as (H1 & _ & H2);
    [lia|lia|apply frames_trace|].
  split; [exact H1|]. apply H2. constructor.
Defined.

(** [alloc] hands out a frame exactly when one is free, and then moves that
    frame, and no other, from the free set to the allocated set. *)
Theorem alloc_refines l0 a :
  fa_wf l0 a →
  match alloc a with
  | (Some p, a') =>
      is_free a p ∧ fa_wf l0 a' ∧
      (∀ q, is_allocated l0 a' q ↔ q = p ∨ is_allocated l0 a q) ∧
      (∀ q, is_free a' q ↔ is_free a q ∧ q ≠ p)
  | (None, a') => a' = a ∧ ∀ p, ¬ is_free a p
  end.
Proof.
  intros Hwf. destruct (alloc a) as [[p|] a'] eqn:E.
  - by apply alloc_Some.
  - by eapply alloc_None.
Qed.

Lemma alloc_refines_witness :
  ∃ a', alloc (mkFA 7 9 [5]) = (Some 5, a') ∧ is_free (mkFA 7 9 [5]) 5 ∧ fa_wf 5 a'.
Proof.
  assert (fa_wf 5 (mkFA 7 9 [5])) as Hwf.
  { split; simpl; try lia; [by apply NoDup_singleton|]. intros p ->%list_elem_of_singleton; lia. }
  pose proof (alloc_refines 5 (mkFA 7 9 [5]) Hwf) as H.
  eexists. split; [reflexivity|]. exact (conj (proj1 H) (proj1 (proj2 H))).
Defined.

(** The frames of a DMA allocation are the consecutive page numbers that
    start at the returned physical address, all cleared, and none of them was
    handed out before. *)
Theorem dma_alloc_contiguous l0 s q n pa s' q' :
  fa_wf l0 (fa s) → 0 < n < 2 ^ 44 → dma_alloc n (s, q) = Ok (pa, (s', q')) →
  fa_wf l0 (fa s') ∧ pa = current (fa s) * PAGE_SIZE ∧
  q' = q ++ reverse (seqZ (current (fa s)) n) ∧
  (∀ p, current (fa s) ≤ p < current (fa s) + n →
     mem s' !! p = Some zero_page ∧ ¬ is_allocated l0 (fa s) p ∧ is_allocated l0 (fa s') p).
Proof.
  intros Hwf Hn. unfold dma_alloc, frame_alloc_more.
  destruct (alloc_more (fa s) n) as [[ps|] a'] eqn:Ha; [|done].
  destruct (alloc_more_Some l0 _ Hwf n ps a' Hn Ha) as (Hwf' & -> & Hal).
  rewrite last_reverse, (seqZ_cons (current (fa s)) n) by lia. cbn [head].
  intros [= <- <- <-]. rewrite <- (seqZ_cons (current (fa s)) n) by lia. simpl.
  destruct Hwf as [Hlo Hhi _ _]. split_and!; [done|apply addr_of_page_eq; lia|done|].
  intros p Hp.
  assert (p ∈ reverse (seqZ (current (fa s)) n)) as Hin by (rewrite elem_of_reverse, elem_of_seqZ; lia).
  split_and!; [|intros []; lia|apply Hal; by left].
  revert Hin. generalize (reverse (seqZ (current (fa s)) n)) as l. generalize (mem s) as m.
  intros m l. revert m. induction l as [|x l IH] using rev_ind; intros m; [set_solver|].
  rewrite foldl_snoc, elem_of_app, list_elem_of_singleton. destruct (decide (p = x)) as [->|Hne].
  - intros _. apply lookup_insert_eq.
  - intros [?|?]; [|done]. rewrite lookup_insert_ne by done. by apply IH.
Qed.

Lemma dma_alloc_contiguous_witness :
  ∃ s', dma_alloc 2 (mkMem (mkFA 5 9 []) ∅, []) = Ok (5 * PAGE_SIZE, (s', [6; 5])) ∧
        mem s' !! 6 = Some zero_page.
Proof.
  eexists. split; [reflexivity|].
  refine (proj1 (proj2 (proj2 (proj2 (dma_alloc_contiguous 5 (mkMem (mkFA 5 9 []) ∅) [] 2 _ _ _ _ _ eq_refl))) 6 _));
    [|lia|simpl; lia].
  split; simpl; try lia; [constructor|set_solver].
Defined.

(** An allocation that would use the idle range up completely is refused. *)
Lemma alloc_more_refuses_exact_fit a n :
  is_u64 (current a + n) → current a + n = end_ a → alloc_more a n = (None, a).
Proof. intros Hu He. unfold alloc_more. by rewrite u64_id, He, Z.leb_refl. Qed.
