(* ===== verification/PageTable.v ===== *)
(** * SV39 page tables (os/src/mm/page_table.rs)

    A page-table entry is its 64-bit pattern.  A reference to an entry
    ([&mut PageTableEntry]) is the pair of the page number of the table page and
    the index in it; tables live in the physical memory of [FrameAllocator.kmem]
    as little-endian 64-bit arrays. *)
From S2P Require Import Prelude Bytes Address FrameAllocator.

Definition PTE_V : Z := Z.shiftl 1 0.
Definition PTE_R : Z := Z.shiftl 1 1.
Definition PTE_W : Z := Z.shiftl 1 2.
Definition PTE_X : Z := Z.shiftl 1 3.
Definition PTE_U : Z := Z.shiftl 1 4.
Definition PTE_D : Z := Z.shiftl 1 7.

Definition pte_new (ppn flags : Z) : Z := Z.lor (u64 (Z.shiftl ppn 10)) flags.
Definition pte_empty : Z := 0.
Definition pte_ppn (bits : Z) : Z :=
  phys_page_num (Z.land (Z.shiftr bits 10) (Z.shiftl 1 44 - 1)).
Definition pte_flags (bits : Z) : Z := Z.land bits (Z.shiftl 1 8 - 1).
Definition pte_is_valid (bits : Z) : bool := flags_contain (pte_flags bits) PTE_V.
Definition pte_readable (bits : Z) : bool := flags_contain (pte_flags bits) PTE_R.
Definition pte_writable (bits : Z) : bool := flags_contain (pte_flags bits) PTE_W.
Definition pte_executable (bits : Z) : bool := flags_contain (pte_flags bits) PTE_X.
Definition pte_is_dirty (bits : Z) : bool := flags_contain (pte_flags bits) PTE_D.

(** [ppn.get_pte_array()[i]], read and written. *)
Definition read_pte (ppn i : Z) : M kmem Z := λ s,
  match mem s !! ppn with
  | Some pg => Ok (get_le 8 pg (Z.to_nat i), s)
  | None => Err Panicked
  end.
Definition write_pte (ppn i v : Z) : M kmem () := λ s,
  match mem s !! ppn with
  | Some pg => Ok ((), mkMem (fa s) (<[ppn := set_le 8 pg (Z.to_nat i) v]> (mem s)))
  | None => Err Panicked
  end.

Record PageTable := mkPT { root_ppn : Z; frames : list Z }.

Definition pt_new : M kmem PageTable :=
  frame_alloc ≫= λ o, lift (unwrap o) ≫= λ frame, mret (mkPT frame [frame]).

Definition from_token (satp : Z) : PageTable := mkPT (phys_page_num (Z.land satp PPN_MASK)) [].
Definition token (pt : PageTable) : Z := Z.lor (Z.shiftl 8 60) (root_ppn pt).

(** The loop of [find_pte]: the last index is the leaf ([i == 2]). *)
Fixpoint find_pte_loop (idx : list Z) (ppn : Z) : M kmem (option (Z * Z)) :=
  match idx with
  | [] => mret None
  | [i] => mret (Some (ppn, i))
  | i :: rest =>
      read_pte ppn i ≫= λ pte,
      if pte_is_valid pte then find_pte_loop rest (pte_ppn pte) else mret None
  end.
Definition find_pte (pt : PageTable) (vpn : Z) : M kmem (option (Z * Z)) :=
  find_pte_loop (indexes vpn) (root_ppn pt).

(** The loop of [find_pte_create]; it also returns the frames it pushed. *)
Fixpoint find_pte_create_loop (idx : list Z) (ppn : Z) (frs : list Z)
    : M kmem (option (Z * Z) * list Z) :=
  match idx with
  | [] => mret (None, frs)
  | [i] => mret (Some (ppn, i), frs)
  | i :: rest =>
      read_pte ppn i ≫= λ pte,
      if pte_is_valid pte then find_pte_create_loop rest (pte_ppn pte) frs
      else
        frame_alloc ≫= λ o, lift (unwrap o) ≫= λ frame,
        write_pte ppn i (pte_new frame PTE_V) ≫= λ _,
        find_pte_create_loop rest (pte_ppn (pte_new frame PTE_V)) (frs ++ [frame])
  end.
Definition find_pte_create (pt : PageTable) (vpn : Z) : M kmem (option (Z * Z) * PageTable) :=
  find_pte_create_loop (indexes vpn) (root_ppn pt) (frames pt) ≫= λ '(r, frs),
  mret (r, mkPT (root_ppn pt) frs).

Definition translate (pt : PageTable) (vpn : Z) : M kmem (option Z) :=
  find_pte pt vpn ≫= λ r,
  match r with
  | Some (ppn, i) => read_pte ppn i ≫= λ pte, mret (Some pte)
  | None => mret None
  end.

Definition translate_va (pt : PageTable) (va : Z) : M kmem (option Z) :=
  translate pt (floor va) ≫= λ r,
  mret ((λ pte, phys_addr (u64 (addr_of_page (pte_ppn pte) + page_offset va))) <$> r).

Definition map (pt : PageTable) (vpn ppn flags : Z) : M kmem PageTable :=
  find_pte_create pt vpn ≫= λ '(r, pt'),
  lift (unwrap r) ≫= λ '(p, i),
  read_pte p i ≫= λ pte,
  lift (assert (negb (pte_is_valid pte))) ≫= λ _,
  write_pte p i (pte_new ppn (Z.lor flags PTE_V)) ≫= λ _,
  mret pt'.

Definition unmap (pt : PageTable) (vpn : Z) : M kmem () :=
  find_pte pt vpn ≫= λ r,
  lift (unwrap r) ≫= λ '(p, i),
  read_pte p i ≫= λ pte,
  lift (assert (pte_is_valid pte)) ≫= λ _,
  write_pte p i pte_empty.

(** ** User buffers: a slice [&mut ppn.get_bytes_array()[s..e]] is [(ppn, s, e)] *)
Definition uslice : Type := Z * Z * Z.

Fixpoint translated_byte_buffer_loop (fuel : nat) (pt : PageTable) (start end_ : Z)
    : M kmem (list uslice) :=
  match fuel with
  | O => λ _, Err Diverged
  | S fuel' =>
      if start <? end_ then
        let start_va := virt_addr start in
        let vpn := floor start_va in
        translate pt vpn ≫= λ o, lift (unwrap o) ≫= λ pte,
        let ppn := pte_ppn pte in
        let vpn' := step vpn in
        let end_va := Z.min (addr_of_page vpn') (virt_addr end_) in
        let sl := if page_offset end_va =? 0 then (ppn, page_offset start_va, PAGE_SIZE)
                  else (ppn, page_offset start_va, page_offset end_va) in
        (* slicing [s..e] panics when [s > e] *)
        lift (assert (sl.1.2 <=? sl.2)) ≫= λ _,
        translated_byte_buffer_loop fuel' pt end_va end_ ≫= λ v, mret (sl :: v)
      else mret []
  end.
Definition translated_byte_buffer (fuel : nat) (tok ptr len : Z) : M kmem (list uslice) :=
  translated_byte_buffer_loop fuel (from_token tok) ptr (u64 (ptr + len)).

(** [bytes.split_once(|c| c == 0)]: the bytes before the first NUL. *)
Fixpoint before_nul (bs : list Z) : list Z :=
  match bs with
  | [] => []
  | b :: bs' => if b =? 0 then [] else b :: before_nul bs'
  end.

Fixpoint translated_str_loop (fuel : nat) (pt : PageTable)
    (start_va vpn : Z) (acc : list Z) : M kmem (list Z) :=
  match fuel with
  | O => λ _, Err Diverged
  | S fuel' =>
      translate pt vpn ≫= λ o, lift (unwrap o) ≫= λ pte,
      get ≫= λ s, lift (unwrap (mem s !! pte_ppn pte)) ≫= λ pg,
      let bytes := drop (Z.to_nat (page_offset start_va)) pg in
      let sl := before_nul bytes in
      lift (assert (utf8_ok sl)) ≫= λ _,
      if (length sl <? length bytes)%nat then mret (acc ++ sl)
      else
        let vpn' := step vpn in
        translated_str_loop fuel' pt (addr_of_page vpn') vpn' (acc ++ sl)
  end.
Definition translated_str (fuel : nat) (tok ptr : Z) : M kmem (list Z) :=
  let start_va := virt_addr ptr in
  translated_str_loop fuel (from_token tok) start_va (floor start_va) [].

(** [translate_ref] and [translated_refmut]: the physical address referred to. *)
Definition translated_ref (tok ptr : Z) : M kmem Z :=
  translate_va (from_token tok) (virt_addr ptr) ≫= λ o, lift (unwrap o).

Definition user_buffer_len (bufs : list uslice) : Z :=
  foldr (λ '(_, s, e) acc, (e - s) + acc) 0 bufs.

(** [UserBufferIterator]: yields the physical location of each byte. *)
Record UserBufferIterator := mkUBI { ubi_bufs : list uslice; curr_buf : nat; pos_in_buf : Z }.
Definition ubi_into_iter (bufs : list uslice) : UserBufferIterator := mkUBI bufs 0 0.
Definition ubi_next (it : UserBufferIterator) : outcome (option (Z * Z) * UserBufferIterator) :=
  match ubi_bufs it !! curr_buf it with
  | None => Ok (None, it)
  | Some (ppn, s, e) =>
      (* indexing an empty slice panics *)
      assert (pos_in_buf it <? e - s) ≫= λ _,
      let it' := if pos_in_buf it + 1 =? e - s then mkUBI (ubi_bufs it) (S (curr_buf it)) 0
                 else mkUBI (ubi_bufs it) (curr_buf it) (pos_in_buf it + 1) in
      Ok (Some (ppn, s + pos_in_buf it), it')
  end.

(** ** Entry encoding *)
Section pte.
Context (ppn fl : Z) (Hppn : 0 ≤ ppn < 2 ^ 44) (Hfl : 0 ≤ fl < 2 ^ 8).

Lemma pte_new_eq : pte_new ppn fl = ppn * 2 ^ 10 + fl.
Proof.
  unfold pte_new. rewrite u64_id.
  - apply lor_shiftl_add; lia.
  - unfold is_u64. rewrite Z.shiftl_mul_pow2 by lia. lia.
Qed.

Lemma pte_new_range : 0 ≤ pte_new ppn fl < 2 ^ 64.
Proof. rewrite pte_new_eq. lia. Qed.

Lemma pte_ppn_new : pte_ppn (pte_new ppn fl) = ppn.
Proof.
  rewrite pte_new_eq. unfold pte_ppn.
  rewrite (land_mask _ 44), phys_page_num_mod, Z.shiftr_div_pow2 by lia. dlia.
Qed.

Lemma pte_flags_new : pte_flags (pte_new ppn fl) = fl.
Proof. rewrite pte_new_eq. unfold pte_flags. rewrite (land_mask _ 8) by lia. dlia. Qed.
End pte.

(** ** The tree a table denotes

    [walk m root path] follows valid directory entries; [mapping] is the
    abstract contents of the table, from virtual page numbers to valid leaf
    entries. *)
Definition pte_at (m : gmap Z page) (n i : Z) : option Z :=
  (λ pg, get_le 8 pg (Z.to_nat i)) <$> m !! n.

Fixpoint walk (m : gmap Z page) (n : Z) (path : list Z) : option Z :=
  match path with
  | [] => Some n
  | i :: rest =>
      match pte_at m n i with
      | Some e => if pte_is_valid e then walk m (pte_ppn e) rest else None
      | None => None
      end
  end.

Definition only_valid (e : Z) : option Z := if pte_is_valid e then Some e else None.

Definition mapping (m : gmap Z page) (root vpn : Z) : option Z :=
  match indexes vpn with
  | [i0; i1; i2] => walk m root [i0; i1] ≫= λ n, pte_at m n i2 ≫= only_valid
  | _ => None
  end.

Definition idx_ok (i : Z) : Prop := 0 ≤ i < 512.
Definition page_ok (pg : page) : Prop := length pg = Z.to_nat PAGE_SIZE ∧ Forall is_byte pg.

(** A well-formed table: its nodes are pages of its own, no node is reached
    along two paths, and every path of at most two valid entries stays inside. *)
Record pt_wf (m : gmap Z page) (root : Z) (frs : list Z) : Prop := {
  ptwf_page : ∀ n, n ∈ frs → 0 ≤ n < 2 ^ 44 ∧ ∃ pg, m !! n = Some pg ∧ page_ok pg;
  ptwf_root : root ∈ frs;
  ptwf_node : ∀ p n, (length p ≤ 2)%nat → Forall idx_ok p → walk m root p = Some n → n ∈ frs;
  ptwf_inj : ∀ p q n, (length p ≤ 2)%nat → (length q ≤ 2)%nat → Forall idx_ok p → Forall idx_ok q →
    walk m root p = Some n → walk m root q = Some n → p = q;
}.

Lemma zero_page_ok : page_ok zero_page.
Proof.
  split; [apply length_replicate|]. apply Forall_replicate. unfold is_byte; lia.
Qed.

Lemma page_ok_set pg i v : page_ok pg → idx_ok i → page_ok (set_le 8 pg (Z.to_nat i) v).
Proof.
  intros [Hl Hb] Hi. unfold idx_ok, PAGE_SIZE in *. split; [|by apply set_le_bytes].
  rewrite length_set_le; [done|]. lia.
Qed.

Lemma pte_at_write m n i v pg n' j :
  m !! n = Some pg → page_ok pg → idx_ok i → idx_ok j → 0 ≤ v < 2 ^ 64 →
  pte_at (<[n := set_le 8 pg (Z.to_nat i) v]> m) n' j =
    if decide (n = n' ∧ i = j) then Some v else pte_at m n' j.
Proof.
  intros Hn [Hl _] Hi Hj Hv. unfold pte_at, idx_ok, PAGE_SIZE in *.
  destruct (decide (n = n')) as [->|Hne].
  - rewrite lookup_insert_eq. simpl. case_decide as Hd.
    + destruct Hd as [_ ->]. rewrite get_set_le_same; [done|lia|lia].
    + rewrite get_set_le_ne by lia. by rewrite Hn.
  - rewrite lookup_insert_ne by done. rewrite decide_False; [done|naive_solver].
Qed.

Lemma pte_at_insert_other m n pg n' j : n' ≠ n → pte_at (<[n := pg]> m) n' j = pte_at m n' j.
Proof. intros. unfold pte_at. by rewrite lookup_insert_ne. Qed.

Lemma pte_invalid_0 : pte_is_valid 0 = false.
Proof. reflexivity. Qed.

Lemma pte_at_zero m n j : pte_at (<[n := zero_page]> m) n j = Some 0.
Proof. unfold pte_at. rewrite lookup_insert_eq. simpl. unfold zero_page. by rewrite get_le_zero. Qed.

Lemma walk_app m n p q : walk m n (p ++ q) = walk m n p ≫= λ k, walk m k q.
Proof.
  revert n. induction p as [|i p IH]; intros n; simpl; [done|].
  destruct (pte_at m n i) as [e|]; simpl; [|done]. by destruct (pte_is_valid e).
Qed.

Lemma walk_snoc m n p i :
  walk m n (p ++ [i]) =
  walk m n p ≫= λ k, pte_at m k i ≫= λ e, if pte_is_valid e then Some (pte_ppn e) else None.
Proof.
  rewrite walk_app. destruct (walk m n p) as [k|]; simpl; [|done].
  by destruct (pte_at m k i).
Qed.

(** A walk only depends on the entries it crosses. *)
Lemma walk_ext m m' r q :
  (∀ p j rest n, q = p ++ j :: rest → walk m r p = Some n → pte_at m' n j = pte_at m n j) →
  walk m' r q = walk m r q.
Proof.
  revert r. induction q as [|j q IH]; intros r Hext; simpl; [done|].
  rewrite (Hext [] j q r eq_refl eq_refl).
  destruct (pte_at m r j) as [e|] eqn:He; [|done].
  destruct (pte_is_valid e) eqn:Hv; [|done].
  apply IH. intros p j' rest n -> Hw. apply (Hext (j :: p) j' rest n); [done|].
  simpl. by rewrite He, Hv.
Qed.

Lemma walk_cons m n i q :
  walk m n (i :: q) = pte_at m n i ≫= λ e, if pte_is_valid e then walk m (pte_ppn e) q else None.
Proof. simpl. by destruct (pte_at m n i). Qed.
Lemma walk_nil m n : walk m n [] = Some n.
Proof. reflexivity. Qed.
#[global] Arguments walk : simpl never.

Lemma path2_ok i0 i1 : idx_ok i0 → idx_ok i1 → Forall idx_ok [i0; i1].
Proof. intros. by repeat apply Forall_cons_2; [..|apply Forall_nil_2]. Qed.
#[local] Hint Resolve path2_ok : core.

Section tree.
Context (m : gmap Z page) (root : Z) (frs : list Z) (Hwf : pt_wf m root frs).

(** Writing a valid directory entry that points to a fresh cleared page. *)
Section link.
Context (p : list Z) (i n f : Z) (pg : page).
Context (Hp : (length p ≤ 1)%nat) (Hpi : Forall idx_ok p) (Hi : idx_ok i).
Context (Hw : walk m root p = Some n) (Hpg : m !! n = Some pg).
Context (Hinv : pte_at m n i ≫= only_valid = None).
Context (Hf : f ∉ frs) (Hfr : 0 ≤ f < 2 ^ 44).

Let e := pte_new f PTE_V.
Let m' := <[n := set_le 8 pg (Z.to_nat i) e]> (<[f := zero_page]> m).

Lemma link_node_in : n ∈ frs.
Proof. apply (ptwf_node _ _ _ Hwf p); [lia|done|done]. Qed.

Lemma link_page_ok : page_ok pg.
Proof.
  destruct (ptwf_page _ _ _ Hwf n link_node_in) as (_ & pg' & Hpg' & Hok).
  rewrite Hpg in Hpg'. by injection Hpg' as ->.
Qed.

Lemma link_entry : pte_is_valid e = true ∧ pte_ppn e = f ∧ 0 ≤ e < 2 ^ 64.
Proof.
  unfold e, pte_is_valid. rewrite pte_flags_new, pte_ppn_new; [|done|done|done|done].
  split_and!; [done|done|apply pte_new_range; done|apply pte_new_range; done].
Qed.

Lemma link_pte_at n' j : idx_ok j →
  pte_at m' n' j = if decide (n = n' ∧ i = j) then Some e
                   else if decide (n' = f) then Some 0 else pte_at m n' j.
Proof.
  intros Hj. pose proof link_node_in as Hin. pose proof link_page_ok as Hok.
  destruct link_entry as (_ & _ & He).
  unfold m'. rewrite pte_at_write; [|rewrite lookup_insert_ne; [done|naive_solver]|done|done|done|done].
  case_decide; [done|]. case_decide; [subst; apply pte_at_zero|].
  by apply pte_at_insert_other.
Qed.

Lemma link_below q : q ≠ [] → walk m root (p ++ i :: q) = None.
Proof.
  intros _. rewrite walk_app, Hw. simpl. rewrite walk_cons.
  destruct (pte_at m n i) as [e'|]; simpl in *; [|done].
  unfold only_valid in Hinv. by destruct (pte_is_valid e').
Qed.

Lemma link_walk q : (length q ≤ 2)%nat → Forall idx_ok q →
  walk m' root q = if decide (q = p ++ [i]) then Some f else walk m root q.
Proof.
  intros Hql Hqi. destruct link_entry as (Hv & Hpf & _).
  assert (∀ q, (length q ≤ 2)%nat → Forall idx_ok q →
          (∀ rest, q ≠ p ++ i :: rest) → walk m' root q = walk m root q) as Hext.
  { intros q' Hl' Hi' Hnp. apply walk_ext. intros p' j rest n' -> Hw'.
    apply Forall_app in Hi' as [Hi1 Hi2]. apply Forall_cons in Hi2 as [Hj _].
    rewrite length_app in Hl'. simpl in Hl'. rewrite link_pte_at by done.
    assert (n' ∈ frs) by (apply (ptwf_node _ _ _ Hwf p'); [lia|done|done]).
    case_decide as Hd; [|rewrite decide_False; [done|naive_solver]].
    destruct Hd as [<- <-]. destruct (Hnp rest). f_equal.
    apply (ptwf_inj _ _ _ Hwf p' p n); try done; lia. }
  assert (walk m' root p = Some n) as Hwp.
  { rewrite Hext; [done|lia|done|]. intros rest Heq%(f_equal length).
    rewrite length_app in Heq. simpl in Heq. lia. }
  assert (walk m' root (p ++ [i]) = Some f) as Hwpi.
  { rewrite walk_snoc, Hwp. simpl. rewrite link_pte_at by done.
    rewrite decide_True by done. simpl. by rewrite Hv, Hpf. }
  case_decide as Hd; [by rewrite Hd|].
  destruct (decide (p ++ [i] `prefix_of` q)) as [[[|j rest] Hq]|Hn].
  - by rewrite app_nil_r in Hq.
  - subst q. rewrite walk_app, Hwpi. simpl. rewrite walk_cons.
    apply Forall_app in Hqi as [_ Hqi]. apply Forall_cons in Hqi as [Hj _].
    rewrite link_pte_at by done. rewrite decide_False, decide_True; [|done|].
    + simpl. rewrite <- app_assoc. symmetry. by apply (link_below (j :: rest)).
    + intros [Heq _]. apply Hf. rewrite <- Heq. apply link_node_in.
  - apply Hext; [done|done|]. intros rest ->. apply Hn. exists rest. by rewrite <- app_assoc.
Qed.

Lemma link_wf : pt_wf m' root (frs ++ [f]).
Proof.
  pose proof link_node_in as Hin. pose proof link_page_ok as Hok.
  assert (∀ q, (length q ≤ 2)%nat → Forall idx_ok q → walk m root q = Some f → False) as Hnf.
  { intros q Hq Hqi Hwq. by apply Hf, (ptwf_node _ _ _ Hwf q). }
  destruct Hwf as [Hpage Hroot Hnode Hinj]. split.
  - intros k [Hk| ->%list_elem_of_singleton]%elem_of_app.
    + destruct (Hpage k Hk) as (Hr & pgk & Hpgk & Hokk). split; [done|]. unfold m'.
      destruct (decide (n = k)) as [<-|Hne].
      * rewrite lookup_insert_eq. eexists; split; [done|]. by apply page_ok_set.
      * rewrite !lookup_insert_ne; [by exists pgk|naive_solver|done].
    + split; [done|]. unfold m'. rewrite lookup_insert_ne, lookup_insert_eq by naive_solver.
      eexists; split; [done|apply zero_page_ok].
  - set_solver.
  - intros q k Hq Hqi. rewrite link_walk by done. case_decide.
    + intros [= <-]. set_solver.
    + intros Hk. apply elem_of_app. left. by apply (Hnode q).
  - intros q1 q2 k H1 H2 Hi1 Hi2. rewrite !link_walk by done.
    repeat case_decide; intros Hk1 Hk2; try congruence.
    + injection Hk1 as <-. destruct (Hnf q2); done.
    + injection Hk2 as <-. destruct (Hnf q1); done.
    + by apply (Hinj q1 q2 k).
Qed.

Lemma link_mapping vpn : 0 ≤ vpn < 2 ^ 27 → mapping m' root vpn = mapping m root vpn.
Proof.
  intros Hvpn. destruct (indexes_recompose vpn Hvpn) as (i0 & i1 & i2 & Hidx & H0 & H1 & H2 & _).
  unfold mapping. rewrite Hidx. rewrite link_walk by (simpl; auto).
  destruct link_entry as (Hv & _ & _). case_decide as Hd.
  - simpl. rewrite link_pte_at, decide_False, decide_True; [|done| |done].
    2: { intros [Heq _]. apply Hf. rewrite <- Heq. apply link_node_in. }
    rewrite Hd, walk_snoc, Hw. simpl.
    destruct (pte_at m n i) as [e'|] eqn:He; [|done]. simpl in *.
    unfold only_valid in Hinv. by destruct (pte_is_valid e').
  - destruct (walk m root [i0; i1]) as [k|] eqn:Hk; simpl; [|done].
    assert (k ∈ frs) by (apply (ptwf_node _ _ _ Hwf [i0; i1]); [simpl; lia|by auto|done]).
    rewrite link_pte_at by done. rewrite decide_False; [rewrite decide_False; [done|naive_solver]|].
    intros [<- <-].
    assert (p = [i0; i1]) as Hpe by (apply (ptwf_inj _ _ _ Hwf p [i0; i1] n); [lia|simpl; lia|done|by auto|done|done]).
    rewrite Hpe in Hp. simpl in Hp. lia.
Qed.
End link.

(** Writing a leaf entry. *)
Section leaf.
Context (i0 i1 i2 n e : Z) (pg : page).
Context (H0 : idx_ok i0) (H1 : idx_ok i1) (H2 : idx_ok i2) (He : 0 ≤ e < 2 ^ 64).
Context (Hw : walk m root [i0; i1] = Some n) (Hpg : m !! n = Some pg).
Let m' := <[n := set_le 8 pg (Z.to_nat i2) e]> m.

Lemma leaf_node_in : n ∈ frs.
Proof. apply (ptwf_node _ _ _ Hwf [i0; i1]); [simpl; lia|by auto|done]. Qed.

Lemma leaf_page_ok : page_ok pg.
Proof.
  destruct (ptwf_page _ _ _ Hwf n leaf_node_in) as (_ & pg' & Hpg' & Hok).
  rewrite Hpg in Hpg'. by injection Hpg' as ->.
Qed.

Lemma leaf_walk q : (length q ≤ 2)%nat → Forall idx_ok q → walk m' root q = walk m root q.
Proof.
  intros Hl Hi. apply walk_ext. intros p j rest k -> Hk.
  apply Forall_app in Hi as [Hp Hi]. apply Forall_cons in Hi as [Hj _].
  rewrite length_app in Hl. simpl in Hl. unfold m'.
  rewrite pte_at_write; [|done|apply leaf_page_ok|done|done|done].
  rewrite decide_False; [done|]. intros [<- _].
  assert (p = [i0; i1]) as -> by (apply (ptwf_inj _ _ _ Hwf p [i0; i1] n); [lia|simpl; lia|done|by auto|done|done]).
  simpl in Hl. lia.
Qed.

Lemma leaf_wf : pt_wf m' root frs.
Proof.
  destruct Hwf as [Hpage Hroot Hnode Hinj]. split; [|done| |].
  - intros k Hk. destruct (Hpage k Hk) as (Hr & pgk & Hpgk & Hok). split; [done|].
    unfold m'. destruct (decide (n = k)) as [<-|Hne].
    + rewrite lookup_insert_eq. eexists; split; [done|]. apply page_ok_set; [apply leaf_page_ok|done].
    + rewrite lookup_insert_ne by done. by exists pgk.
  - intros q k Hq Hqi. rewrite leaf_walk by done. by apply Hnode.
  - intros q1 q2 k ? ? ? ?. rewrite !leaf_walk by done. by apply Hinj.
Qed.

Lemma leaf_mapping vpn vpn' :
  0 ≤ vpn < 2 ^ 27 → 0 ≤ vpn' < 2 ^ 27 → indexes vpn = [i0; i1; i2] →
  mapping m' root vpn' = if decide (vpn' = vpn) then only_valid e else mapping m root vpn'.
Proof.
  intros Hv Hv' Hidx.
  destruct (indexes_recompose vpn Hv) as (a0 & a1 & a2 & Ha & Ha0 & Ha1 & Ha2 & Hva).
  rewrite Hidx in Ha. injection Ha as <- <- <-.
  destruct (indexes_recompose vpn' Hv') as (b0 & b1 & b2 & Hb & Hb0 & Hb1 & Hb2 & Hvb).
  unfold mapping. rewrite Hb. rewrite leaf_walk by (simpl; auto).
  case_decide as Hd.
  - assert (b0 = i0 ∧ b1 = i1 ∧ b2 = i2) as (-> & -> & ->) by lia.
    rewrite Hw. simpl. unfold m'. rewrite pte_at_write; [|done|apply leaf_page_ok|done|done|done].
    by rewrite decide_True.
  - destruct (walk m root [b0; b1]) as [k|] eqn:Hk; simpl; [|done]. unfold m'.
    rewrite pte_at_write; [|done|apply leaf_page_ok|done|done|done].
    rewrite decide_False; [done|]. intros [<- <-].
    assert ([b0; b1] = [i0; i1]) as [= -> ->]; [|lia].
    apply (ptwf_inj _ _ _ Hwf _ _ n); simpl; by auto.
Qed.
End leaf.
End tree.

(** ** The operations implement the abstract table *)

(** At least [k] frames are free. *)
Definition nfree (k : nat) (a : StackFrameAllocator) : Prop :=
  ∃ l, NoDup l ∧ length l = k ∧ ∀ p, p ∈ l → is_free a p.

(** A table in a machine state: its tree is well formed and its nodes are
    frames the allocator has handed out. *)
Record pt_inv (l0 : Z) (pt : PageTable) (s : kmem) : Prop := {
  inv_fa : fa_wf l0 (fa s);
  inv_tree : pt_wf (mem s) (root_ppn pt) (frames pt);
  inv_owned : ∀ n, n ∈ frames pt → is_allocated l0 (fa s) n;
}.

Lemma nfree_mono k k' a : (k' ≤ k)%nat → nfree k a → nfree k' a.
Proof.
  intros Hk (l & Hnd & Hl & Hf). exists (take k' l). split_and!.
  - eapply sublist_NoDup; [done|apply sublist_take].
  - rewrite length_take. lia.
  - intros p Hp. apply Hf. rewrite <- (take_drop k' l). apply elem_of_app. by left.
Qed.

Lemma frame_alloc_spec l0 k s :
  fa_wf l0 (fa s) → nfree (S k) (fa s) →
  ∃ f a', frame_alloc s = Ok (Some f, mkMem a' (<[f := zero_page]> (mem s))) ∧
    is_free (fa s) f ∧ fa_wf l0 a' ∧ 0 ≤ f < 2 ^ 44 ∧ nfree k a' ∧
    ∀ q, is_allocated l0 a' q ↔ q = f ∨ is_allocated l0 (fa s) q.
Proof.
  intros Hwf (l & Hnd & Hl & Hfree). unfold frame_alloc.
  destruct (alloc (fa s)) as [[f|] a'] eqn:Ha.
  - destruct (alloc_Some l0 _ Hwf f a' Ha) as (Hf & Hwf' & Hal & Hfr).
    exists f, a'. split_and!; try done.
    + destruct Hf as [Hf|Hf]; [apply (wf_rec _ _ Hwf) in Hf|]; destruct Hwf; lia.
    + destruct Hf as [Hf|Hf]; [apply (wf_rec _ _ Hwf) in Hf|]; destruct Hwf; lia.
    + destruct (decide (f ∈ l)) as [Hin|Hnin].
      * apply list_elem_of_split in Hin as (l1 & l2 & ->).
        exists (l1 ++ l2). rewrite length_app in *. simpl in Hl.
        assert (l1 ++ f :: l2 ≡ₚ f :: l1 ++ l2) as Hperm by (by rewrite Permutation_middle).
        rewrite Hperm in Hnd. apply NoDup_cons in Hnd as [Hn Hnd].
        split_and!; [done|lia|]. intros q Hq. apply Hfr. split; [|by intros ->].
        apply Hfree. rewrite Hperm. by right.
      * destruct l as [|x l]; [done|]. exists l. apply NoDup_cons in Hnd as [_ Hnd].
        split_and!; [done|simpl in Hl; lia|]. intros q Hq. apply Hfr.
        split; [apply Hfree; by right|]. intros ->. apply Hnin. by right.
  - destruct (alloc_None l0 _ Hwf a' Ha) as [_ Hno].
    destruct l as [|x l]; [done|]. destruct (Hno x). apply Hfree. by left.
Qed.

Lemma read_pte_spec root frs s n i :
  pt_wf (mem s) root frs → n ∈ frs →
  ∃ e, read_pte n i s = Ok (e, s) ∧ pte_at (mem s) n i = Some e.
Proof.
  intros Hwf Hn. destruct (ptwf_page _ _ _ Hwf n Hn) as (_ & pg & Hpg & _).
  unfold read_pte, pte_at. rewrite Hpg. eauto.
Qed.

Lemma find_pte_spec frs pt vpn s i0 i1 i2 :
  pt_wf (mem s) (root_ppn pt) frs → indexes vpn = [i0; i1; i2] →
  idx_ok i0 → idx_ok i1 →
  find_pte pt vpn s = Ok ((λ n, (n, i2)) <$> walk (mem s) (root_ppn pt) [i0; i1], s).
Proof.
  intros Hwf Hidx H0 H1. unfold find_pte. rewrite Hidx. cbn [find_pte_loop].
  unfold mbind, M_bind, mret, M_ret.
  destruct (read_pte_spec _ _ s _ i0 Hwf (ptwf_root _ _ _ Hwf)) as (e & -> & He).
  rewrite walk_cons, He. simpl. destruct (pte_is_valid e) eqn:Hv; [|done].
  assert (pte_ppn e ∈ frs) as Hin.
  { apply (ptwf_node _ _ _ Hwf [i0]); [simpl; lia|by constructor|].
    rewrite walk_cons, He. simpl. by rewrite Hv. }
  destruct (read_pte_spec _ _ s _ i1 Hwf Hin) as (e1 & -> & He1).
  rewrite walk_cons, He1. simpl. by destruct (pte_is_valid e1).
Qed.

Lemma translate_spec frs pt vpn s i0 i1 i2 :
  pt_wf (mem s) (root_ppn pt) frs → indexes vpn = [i0; i1; i2] →
  idx_ok i0 → idx_ok i1 →
  translate pt vpn s =
    Ok (walk (mem s) (root_ppn pt) [i0; i1] ≫= λ n, pte_at (mem s) n i2, s).
Proof.
  intros Hwf Hidx H0 H1. unfold translate, mbind, M_bind, mret, M_ret.
  rewrite (find_pte_spec frs _ _ _ i0 i1 i2) by done.
  destruct (walk _ _ _) as [n|] eqn:Hw; simpl; [|done].
  assert (n ∈ frs) as Hin by (apply (ptwf_node _ _ _ Hwf [i0; i1]); [simpl; lia|auto|done]).
  by destruct (read_pte_spec _ _ s _ i2 Hwf Hin) as (e & -> & ->).
Qed.

(** What building directories changes: nothing that was mapped, owned or
    outside the table. *)
Record grown (l0 root : Z) (frs : list Z) (s : kmem) (frs' : list Z) (s' : kmem) : Prop := {
  grown_mapping : ∀ v, 0 ≤ v < 2 ^ 27 → mapping (mem s') root v = mapping (mem s) root v;
  grown_alloc : ∀ k, is_allocated l0 (fa s) k → is_allocated l0 (fa s') k;
  grown_frames : ∀ k, k ∈ frs → k ∈ frs';
  grown_fresh : ∀ k, k ∈ frs' → k ∈ frs ∨ ¬ is_allocated l0 (fa s) k;
  grown_frame : ∀ k, k ∉ frs' → mem s' !! k = mem s !! k;
}.

Lemma grown_refl l0 root frs s : grown l0 root frs s frs s.
Proof. split; auto. Qed.
Lemma grown_trans l0 root f1 s1 f2 s2 f3 s3 :
  grown l0 root f1 s1 f2 s2 → grown l0 root f2 s2 f3 s3 → grown l0 root f1 s1 f3 s3.
Proof.
  intros [M1 A1 F1 N1 O1] [M2 A2 F2 N2 O2]. split; [|by auto|by auto| |].
  - intros v Hv. by rewrite M2, M1.
  - intros k [?|?]%N2; [auto|]. right. intros ?%A1. done.
  - intros k Hk. rewrite O2 by done. apply O1. by intros ?%F2.
Qed.

Section create.
Context (l0 root : Z).
Implicit Types (frs : list Z) (s : kmem).

(** One missing directory: a cleared frame is linked in. *)
Lemma link_step k p i n frs s :
  pt_inv l0 (mkPT root frs) s → (length p ≤ 1)%nat → Forall idx_ok p → idx_ok i →
  walk (mem s) root p = Some n → pte_at (mem s) n i ≫= only_valid = None → nfree (S k) (fa s) →
  ∃ f s0 s1, frame_alloc s = Ok (Some f, s0) ∧ write_pte n i (pte_new f PTE_V) s0 = Ok ((), s1) ∧
    pte_ppn (pte_new f PTE_V) = f ∧ pt_inv l0 (mkPT root (frs ++ [f])) s1 ∧
    walk (mem s1) root (p ++ [i]) = Some f ∧ grown l0 root frs s (frs ++ [f]) s1 ∧ nfree k (fa s1).
Proof.
  intros [Hfa Hwf Hown] Hp Hpi Hi Hw Hinv Hfree. simpl in Hwf, Hown.
  destruct (frame_alloc_spec l0 k s Hfa Hfree) as (f & a' & Hal & Hff & Hfa' & Hfr & Hfree' & Hall).
  assert (f ∉ frs) as Hnf by (intros Hin; by apply (free_allocated_disjoint l0 _ Hfa f Hff), Hown).
  assert (n ∈ frs) as Hn by (apply (ptwf_node _ _ _ Hwf p); [lia|done|done]).
  destruct (ptwf_page _ _ _ Hwf n Hn) as (_ & pg & Hpg & Hok).
  eexists f, _, (mkMem a' (<[n := set_le 8 pg (Z.to_nat i) (pte_new f PTE_V)]> (<[f := zero_page]> (mem s)))).
  split; [exact Hal|]. split.
  { unfold write_pte. simpl. by rewrite lookup_insert_ne, Hpg by (intros ->; done). }
  split; [by apply pte_ppn_new|]. split_and!; [split|..]; simpl; try done.
  - by apply (link_wf _ _ _ Hwf p).
  - intros q [Hq| ->%list_elem_of_singleton]%elem_of_app; apply Hall; [right; auto|by left].
  - rewrite (link_walk _ _ _ Hwf p i n f pg); try done; [by rewrite decide_True|rewrite length_app; simpl; lia|].
    by apply Forall_app_2; [|apply Forall_singleton].
  - split; simpl.
    + intros v Hv. by apply (link_mapping _ _ _ Hwf p i n f pg).
    + intros q Hq. apply Hall. by right.
    + set_solver.
    + intros q [?| ->%list_elem_of_singleton]%elem_of_app; [by left|]. right.
      exact (free_allocated_disjoint l0 _ Hfa f Hff).
    + intros q Hq. rewrite !lookup_insert_ne; [done|intros ->; set_solver|intros ->; set_solver].
Qed.

Lemma create_loop_spec k0 idx p n frs s :
  idx ≠ [] → (length p + length idx = 3)%nat → Forall idx_ok p → Forall idx_ok idx →
  pt_inv l0 (mkPT root frs) s →
  walk (mem s) root p = Some n → nfree (length idx - 1 + k0) (fa s) →
  ∃ s' frs' n' i', find_pte_create_loop idx n frs s = Ok ((Some (n', i'), frs'), s') ∧
    (∃ q, idx = q ++ [i'] ∧ walk (mem s') root (p ++ q) = Some n') ∧
    pt_inv l0 (mkPT root frs') s' ∧ grown l0 root frs s frs' s' ∧ nfree k0 (fa s').
Proof.
  revert p n frs s. induction idx as [|i rest IH]; intros p n frs s Hne Hlen Hp Hidx Hinv Hw Hfree; [done|].
  apply Forall_cons in Hidx as [Hi Hrest].
  destruct rest as [|j rest].
  { exists s, frs, n, i. split; [done|]. split; [exists []; by rewrite app_nil_r|].
    split_and!; [done|apply grown_refl|done]. }
  assert ((length p ≤ 1)%nat) as Hp1 by (simpl in Hlen; lia).
  pose proof (inv_tree _ _ _ Hinv) as Hwf. simpl in Hwf.
  assert (n ∈ frs) as Hn by (apply (ptwf_node _ _ _ Hwf p); [lia|done|done]).
  destruct (read_pte_spec _ _ s _ i Hwf Hn) as (e & Hread & He).
  assert (∃ s1 frs1 c, walk (mem s1) root (p ++ [i]) = Some c ∧ pt_inv l0 (mkPT root frs1) s1 ∧
            grown l0 root frs s frs1 s1 ∧ nfree (length (j :: rest) - 1 + k0) (fa s1) ∧
            find_pte_create_loop (i :: j :: rest) n frs s = find_pte_create_loop (j :: rest) c frs1 s1)
    as (s1 & frs1 & c & Hwc & Hinv1 & Hg1 & Hfree1 & ->).
  { change (find_pte_create_loop (i :: j :: rest) n frs) with
      (read_pte n i ≫= λ pte,
       if pte_is_valid pte then find_pte_create_loop (j :: rest) (pte_ppn pte) frs
       else frame_alloc ≫= λ o, lift (unwrap o) ≫= λ frame,
         write_pte n i (pte_new frame PTE_V) ≫= λ _,
         find_pte_create_loop (j :: rest) (pte_ppn (pte_new frame PTE_V)) (frs ++ [frame])).
    rewrite (M_bind_Ok _ _ _ _ _ Hread). destruct (pte_is_valid e) eqn:Hv.
    - exists s, frs, (pte_ppn e). split_and!; [|done|apply grown_refl| |done].
      + rewrite walk_snoc, Hw. simpl. rewrite He. simpl. by rewrite Hv.
      + eapply nfree_mono; [|done]. simpl. lia.
    - destruct (link_step (length rest + k0) p i n frs s) as
        (f & s0 & s1 & Hal & Hwr & Hpf & Hinv1 & Hwc & Hg1 & Hfree1); try done.
      { rewrite He. simpl. unfold only_valid. by rewrite Hv. }
      exists s1, (frs ++ [f]), f. split_and!; try done.
      + simpl. by rewrite Nat.sub_0_r.
      + rewrite (M_bind_Ok _ _ _ _ _ Hal), (M_bind_Ok _ _ _ f s0 eq_refl), (M_bind_Ok _ _ _ _ _ Hwr).
        by rewrite Hpf. }
  destruct (IH (p ++ [i]) c frs1 s1) as (s' & frs' & n' & i' & Hr & (q & Hq & Hwq) & Hinv' & Hg' & Hf'); try done.
  { rewrite length_app. simpl in *. lia. }
  { by apply Forall_app_2; [|apply Forall_singleton]. }
  exists s', frs', n', i'. split; [done|]. split.
  { exists (i :: q). rewrite Hq. split; [done|]. by rewrite <- app_assoc in Hwq. }
  split_and!; [done|by eapply grown_trans|done].
Qed.
End create.

Lemma pte_new_valid ppn fl :
  0 ≤ ppn < 2 ^ 44 → 0 ≤ fl < 2 ^ 8 →
  0 ≤ Z.lor fl PTE_V < 2 ^ 8 ∧ only_valid (pte_new ppn (Z.lor fl PTE_V)) = Some (pte_new ppn (Z.lor fl PTE_V)).
Proof.
  intros Hp Hf.
  assert (0 ≤ Z.lor fl PTE_V < 2 ^ 8) as Hr.
  { change PTE_V with 1. assert (0 ≤ Z.lor fl 1) by (apply Z.lor_nonneg; lia).
    split; [done|]. destruct (decide (Z.lor fl 1 = 0)) as [->|]; [lia|].
    apply Z.log2_lt_pow2; [lia|]. rewrite Z.log2_lor by lia. change (Z.log2 1) with 0.
    destruct (decide (fl = 0)) as [->|]; [simpl; lia|].
    assert (Z.log2 fl < 8) by (apply Z.log2_lt_pow2; lia). lia. }
  split; [done|]. unfold only_valid, pte_is_valid. rewrite pte_flags_new by done.
  change PTE_V with (2 ^ 0). rewrite flags_contain_bit, Z.lor_spec by done.
  by rewrite (Z.pow2_bits_true 0), orb_true_r.
Qed.

(** A table that grows: everything the allocator had handed out to others keeps
    its contents. *)
Record extends (l0 : Z) (pt : PageTable) (s : kmem) (pt' : PageTable) (s' : kmem) : Prop := {
  ext_root : root_ppn pt' = root_ppn pt;
  ext_alloc : ∀ k, is_allocated l0 (fa s) k → is_allocated l0 (fa s') k;
  ext_frames : ∀ k, k ∈ frames pt → k ∈ frames pt';
  ext_fresh : ∀ k, k ∈ frames pt' → k ∈ frames pt ∨ ¬ is_allocated l0 (fa s) k;
  ext_mem : ∀ k, is_allocated l0 (fa s) k → k ∉ frames pt → mem s' !! k = mem s !! k;
}.

Lemma extends_refl l0 pt s : extends l0 pt s pt s.
Proof. split; auto. Qed.
Lemma extends_trans l0 pt1 s1 pt2 s2 pt3 s3 :
  extends l0 pt1 s1 pt2 s2 → extends l0 pt2 s2 pt3 s3 → extends l0 pt1 s1 pt3 s3.
Proof.
  intros [R1 A1 F1 N1 O1] [R2 A2 F2 N2 O2]. split; [congruence|by auto|by auto| |].
  - intros k [?|?]%N2; [auto|]. right. intros ?%A1. done.
  - intros k Hk Hn. rewrite O2; [by apply O1|by auto|]. by intros [?|?]%N1.
Qed.

(** What [map] does, in full: it finds or builds the directories, then writes
    the leaf if there is no valid one. *)
Lemma map_correct l0 k0 pt vpn ppn fl s :
  pt_inv l0 pt s → 0 ≤ vpn < 2 ^ 27 → 0 ≤ ppn < 2 ^ 44 → 0 ≤ fl < 2 ^ 8 →
  nfree (2 + k0) (fa s) →
  match mapping (mem s) (root_ppn pt) vpn with
  | Some _ => map pt vpn ppn fl s = Err Panicked
  | None =>
      ∃ pt' s', map pt vpn ppn fl s = Ok (pt', s') ∧ pt_inv l0 pt' s' ∧
        extends l0 pt s pt' s' ∧
        (∀ v, 0 ≤ v < 2 ^ 27 → mapping (mem s') (root_ppn pt) v =
           if decide (v = vpn) then Some (pte_new ppn (Z.lor fl PTE_V))
           else mapping (mem s) (root_ppn pt) v) ∧ nfree k0 (fa s')
  end.
Proof.
  intros [Hfa Hwf Hown] Hvpn Hppn Hfl Hfree.
  destruct (indexes_recompose vpn Hvpn) as (i0 & i1 & i2 & Hidx & H0 & H1 & H2 & _).
  destruct (create_loop_spec l0 (root_ppn pt) k0 [i0; i1; i2] [] (root_ppn pt) (frames pt) s) as
    (s1 & frs & n & i & Hr & (q & Hq & Hwq) & [Hfa1 Hwf1 Hown1] & [Hmap1 Hal1 Hsub1 Hnew1 Hfr1] & Hnf1); try done.
  { repeat apply Forall_cons_2; done || apply Forall_nil_2. }
  apply (app_inj_2 [i0; i1] q [i2] [i]) in Hq as [<- [= <-]]; [|done]. simpl in Hwq.
  unfold map, find_pte_create, mbind, M_bind, mret, M_ret. rewrite Hidx, Hr. cbn [lift unwrap].
  assert (n ∈ frs) as Hn by (apply (ptwf_node _ _ _ Hwf1 [i0; i1]); [simpl; lia|auto|done]).
  destruct (ptwf_page _ _ _ Hwf1 n Hn) as (_ & pg & Hpg & Hok).
  destruct (read_pte_spec _ _ s1 _ i2 Hwf1 Hn) as (e & -> & He).
  rewrite <- Hmap1 by done.
  assert (mapping (mem s1) (root_ppn pt) vpn = only_valid e) as Hme.
  { unfold mapping. rewrite Hidx, Hwq. simpl. by rewrite He. }
  rewrite Hme. unfold only_valid. destruct (pte_is_valid e); [done|].
  cbn [lift assert negb]. unfold write_pte. rewrite Hpg.
  destruct (pte_new_valid ppn fl Hppn Hfl) as [Hflr Hnv].
  assert (0 ≤ pte_new ppn (Z.lor fl PTE_V) < 2 ^ 64) as Hbits by (by apply pte_new_range).
  eexists _, _. split; [done|]. split_and!; simpl; try done.
  - split; simpl; [done| |done]. by apply (leaf_wf _ _ _ Hwf1 i0 i1 i2).
  - split; simpl; try done. intros k Hk Hnk.
    assert (k ∉ frs) as Hkf by (by intros [?|?]%Hnew1).
    rewrite lookup_insert_ne by (intros ->; done). by apply Hfr1.
  - intros v Hv. rewrite (leaf_mapping _ _ _ Hwf1 i0 i1 i2 n _ pg) with (vpn := vpn); try done.
    case_decide; [done|]. by apply Hmap1.
Qed.

Lemma unmap_correct l0 pt vpn s :
  pt_inv l0 pt s → 0 ≤ vpn < 2 ^ 27 →
  match mapping (mem s) (root_ppn pt) vpn with
  | None => unmap pt vpn s = Err Panicked
  | Some _ =>
      ∃ s', unmap pt vpn s = Ok ((), s') ∧ pt_inv l0 pt s' ∧ fa s' = fa s ∧
        (∀ v, 0 ≤ v < 2 ^ 27 → mapping (mem s') (root_ppn pt) v =
           if decide (v = vpn) then None else mapping (mem s) (root_ppn pt) v) ∧
        (∀ k, k ∉ frames pt → mem s' !! k = mem s !! k)
  end.
Proof.
  intros [Hfa Hwf Hown] Hvpn.
  destruct (indexes_recompose vpn Hvpn) as (i0 & i1 & i2 & Hidx & H0 & H1 & H2 & _).
  unfold unmap, mbind, M_bind. rewrite (find_pte_spec (frames pt) _ _ _ i0 i1 i2) by done.
  unfold mapping at 1. rewrite Hidx.
  destruct (walk (mem s) (root_ppn pt) [i0; i1]) as [n|] eqn:Hw; cbn [fmap option_fmap option_map mbind option_bind lift unwrap]; [|done].
  assert (n ∈ frames pt) as Hn by (apply (ptwf_node _ _ _ Hwf [i0; i1]); [simpl; lia|auto|done]).
  destruct (ptwf_page _ _ _ Hwf n Hn) as (_ & pg & Hpg & Hok).
  destruct (read_pte_spec _ _ s _ i2 Hwf Hn) as (e & -> & ->). simpl.
  unfold only_valid. destruct (pte_is_valid e); [|done].
  unfold write_pte. simpl. rewrite Hpg. eexists. split; [done|].
  assert (0 ≤ pte_empty < 2 ^ 64) as Hr by (unfold pte_empty; lia).
  split_and!; simpl; [|done| |].
  - split; simpl; [done| |done]. by apply (leaf_wf _ _ _ Hwf i0 i1 i2).
  - intros v Hv. by rewrite (leaf_mapping _ _ _ Hwf i0 i1 i2 n _ pg) with (vpn := vpn).
  - intros k Hk. by rewrite lookup_insert_ne by (intros ->; done).
Qed.

Lemma pt_new_correct l0 k0 s :
  fa_wf l0 (fa s) → nfree (1 + k0) (fa s) →
  ∃ pt s', pt_new s = Ok (pt, s') ∧ pt_inv l0 pt s' ∧ nfree k0 (fa s') ∧
    (∀ v, mapping (mem s') (root_ppn pt) v = None) ∧ extends l0 (mkPT (root_ppn pt) []) s pt s'.
Proof.
  intros Hfa Hfree.
  destruct (frame_alloc_spec l0 k0 s Hfa Hfree) as (f & a' & Hal & Hff & Hfa' & Hfr & Hnf & Hall).
  unfold pt_new, mbind, M_bind. rewrite Hal. cbn [lift unwrap]. eexists _, _. split; [done|].
  set (m' := <[f := zero_page]> (mem s)).
  assert (∀ q, walk m' f q = match q with [] => Some f | _ => None end) as Hwalk.
  { intros [|i q]; [done|]. rewrite walk_cons. unfold m'. by rewrite pte_at_zero. }
  split_and!; [|done|..].
  - split; simpl; [done| |intros n ->%list_elem_of_singleton; apply Hall; by left].
    fold m'. split.
    + intros n ->%list_elem_of_singleton. split; [done|]. exists zero_page.
      split; [apply lookup_insert_eq|apply zero_page_ok].
    + by apply list_elem_of_singleton.
    + intros q n _ _. rewrite Hwalk. destruct q; [|done]. intros [= <-]. by apply list_elem_of_singleton.
    + intros p q n _ _ _ _. rewrite !Hwalk. by destruct p, q.
  - intros v. unfold mapping. rewrite indexes_eq. simpl. fold m'. by rewrite Hwalk.
  - pose proof (free_allocated_disjoint l0 _ Hfa f Hff) as Hn. split; simpl; [done| |set_solver| |].
    + intros k Hk. apply Hall. by right.
    + intros k ->%list_elem_of_singleton. by right.
    + intros k Hk _. unfold m'. by rewrite lookup_insert_ne by (intros ->; done).
Qed.

(** *** Simulation by a finite map *)
Inductive ptop := OpMap (vpn ppn flags : Z) | OpUnmap (vpn : Z).

Definition op_ok (o : ptop) : Prop :=
  match o with
  | OpMap vpn ppn fl => 0 ≤ vpn < 2 ^ 27 ∧ 0 ≤ ppn < 2 ^ 44 ∧ 0 ≤ fl < 2 ^ 8
  | OpUnmap vpn => 0 ≤ vpn < 2 ^ 27
  end.

Definition pt_step (pt : PageTable) (o : ptop) : M kmem PageTable :=
  match o with
  | OpMap vpn ppn fl => map pt vpn ppn fl
  | OpUnmap vpn => unmap pt vpn ≫= λ _, mret pt
  end.
Fixpoint pt_run (pt : PageTable) (os : list ptop) : M kmem PageTable :=
  match os with
  | [] => mret pt
  | o :: os' => pt_step pt o ≫= λ pt', pt_run pt' os'
  end.

(** The specification: a dictionary in which mapping twice and unmapping
    nothing are errors. *)
Definition dict_step (d : gmap Z Z) (o : ptop) : outcome (gmap Z Z) :=
  match o with
  | OpMap vpn ppn fl =>
      match d !! vpn with
      | Some _ => Err Panicked
      | None => Ok (<[vpn := pte_new ppn (Z.lor fl PTE_V)]> d)
      end
  | OpUnmap vpn =>
      match d !! vpn with
      | Some _ => Ok (delete vpn d)
      | None => Err Panicked
      end
  end.
Fixpoint dict_run (d : gmap Z Z) (os : list ptop) : outcome (gmap Z Z) :=
  match os with
  | [] => Ok d
  | o :: os' => dict_step d o ≫= λ d', dict_run d' os'
  end.

Definition represents (s : kmem) (pt : PageTable) (d : gmap Z Z) : Prop :=
  ∀ v, 0 ≤ v < 2 ^ 27 → mapping (mem s) (root_ppn pt) v = d !! v.

Lemma pt_step_sim l0 k0 pt s d o :
  pt_inv l0 pt s → represents s pt d → op_ok o → nfree (2 + k0) (fa s) →
  match dict_step d o with
  | Ok d' => ∃ pt' s', pt_step pt o s = Ok (pt', s') ∧ pt_inv l0 pt' s' ∧
               represents s' pt' d' ∧ nfree k0 (fa s')
  | Err e => pt_step pt o s = Err e
  end.
Proof.
  intros Hinv Hrep Hok Hfree. destruct o as [vpn ppn fl|vpn]; simpl in *.
  - destruct Hok as (Hv & Hp & Hf). pose proof (map_correct l0 k0 pt vpn ppn fl s Hinv Hv Hp Hf Hfree) as Hm.
    rewrite Hrep in Hm by done. destruct (d !! vpn); [done|].
    destruct Hm as (pt' & s' & Hr & Hinv' & [Hroot _ _ _ _] & Hmap & Hnf).
    exists pt', s'. split_and!; [done|done| |done]. intros v Hvr. rewrite Hroot, Hmap by done.
    case_decide as Hd; [by rewrite Hd, lookup_insert_eq|]. rewrite lookup_insert_ne by done. by apply Hrep.
  - pose proof (unmap_correct l0 pt vpn s Hinv Hok) as Hm.
    rewrite Hrep in Hm by done. unfold mbind, M_bind. destruct (d !! vpn); [|by rewrite Hm].
    destruct Hm as (s' & -> & Hinv' & Hfa & Hmap & _). exists pt, s'.
    split_and!; [done|done| |rewrite Hfa; eapply nfree_mono; [|done]; lia].
    intros v Hvr. rewrite Hmap by done.
    case_decide as Hd; [by rewrite Hd, lookup_delete_eq|]. rewrite lookup_delete_ne by done. by apply Hrep.
Qed.

Lemma translate_represents l0 pt s d v :
  pt_inv l0 pt s → represents s pt d → 0 ≤ v < 2 ^ 27 →
  ∃ o, translate pt v s = Ok (o, s) ∧ o ≫= only_valid = d !! v.
Proof.
  intros Hinv Hrep Hv.
  destruct (indexes_recompose v Hv) as (i0 & i1 & i2 & Hidx & H0 & H1 & H2 & _).
  eexists. split; [by apply (translate_spec (frames pt)); [apply Hinv| | |]|].
  rewrite <- Hrep by done. unfold mapping. rewrite Hidx. by destruct (walk _ _ _).
Qed.

Lemma pt_run_sim l0 os pt s d :
  pt_inv l0 pt s → represents s pt d → Forall op_ok os → nfree (2 * length os) (fa s) →
  match dict_run d os with
  | Ok d' => ∃ pt' s', pt_run pt os s = Ok (pt', s') ∧ pt_inv l0 pt' s' ∧ represents s' pt' d'
  | Err e => pt_run pt os s = Err e
  end.
Proof.
  intros Hinv Hrep Hok Hnf. revert pt s d Hinv Hrep Hnf.
  induction Hok as [|o os Ho _ IH]; intros pt s d Hinv Hrep Hnf; [by exists pt, s|].
  pose proof (pt_step_sim l0 (2 * length os) pt s d o Hinv Hrep Ho) as Hs.
  simpl. unfold mbind, M_bind, outcome_bind.
  destruct (dict_step d o) as [d'|e].
  - destruct Hs as (pt' & s' & -> & Hinv' & Hrep' & Hnf'); [|by apply IH].
    eapply nfree_mono; [|done]. simpl. lia.
  - rewrite Hs; [done|]. eapply nfree_mono; [|done]. simpl. lia.
Qed.

(** C2 The three-level table is a dictionary.  Any sequence of [map] and [unmap]
    calls on a new table behaves as on a finite map from virtual page numbers to
    entries: it panics exactly when the dictionary does, and afterwards
    [translate] of every page returns the dictionary's entry (an absent or
    invalid one when the dictionary has none). *)
Theorem page_table_is_dictionary l0 s os :
  fa_wf l0 (fa s) → nfree (1 + 2 * length os) (fa s) → Forall op_ok os →
  match dict_run ∅ os with
  | Err e => (pt_new ≫= λ pt, pt_run pt os) s = Err e
  | Ok d =>
      ∃ pt s', (pt_new ≫= λ pt, pt_run pt os) s = Ok (pt, s') ∧ pt_inv l0 pt s' ∧
        ∀ v, 0 ≤ v < 2 ^ 27 →
          ∃ o, translate pt v s' = Ok (o, s') ∧ o ≫= only_valid = d !! v
  end.
Proof.
  intros Hfa Hfree Hok.
  destruct (pt_new_correct l0 _ s Hfa Hfree) as (pt & s1 & Hnew & Hinv & Hnf & Hempty & _).
  assert ((pt_new ≫= λ pt, pt_run pt os) s = pt_run pt os s1) as ->
    by (unfold mbind, M_bind; by rewrite Hnew).
  assert (represents s1 pt ∅) as Hrep by (intros v _; by rewrite Hempty, lookup_empty).
  pose proof (pt_run_sim l0 os pt s1 ∅ Hinv Hrep Hok Hnf) as Hs.
  destruct (dict_run ∅ os) as [d|e]; [|done]. destruct Hs as (pt' & s' & Hr & Hinv' & Hrep').
  exists pt', s'. split_and!; [done|done|]. intros v Hv. by eapply translate_represents.
Qed.

(** A fresh machine whose frames [5..105) are free. *)
Definition boot_mem : kmem := mkMem (mkFA 5 105 []) ∅.

Lemma boot_mem_wf : fa_wf 5 (fa boot_mem).
Proof. split; simpl; try lia; [constructor|set_solver]. Qed.

Lemma boot_mem_free k : (k ≤ 100)%nat → nfree k (fa boot_mem).
Proof.
  intros Hk. exists (seqZ 5 (Z.of_nat k)). split_and!; [apply NoDup_seqZ|rewrite length_seqZ; lia|].
  intros p Hp%elem_of_seqZ. right. simpl. lia.
Qed.

Lemma page_table_is_dictionary_witness :
  ∃ pt s', (pt_new ≫= λ pt, pt_run pt [OpMap 3 77 6; OpMap 600 78 2; OpUnmap 3]) boot_mem = Ok (pt, s') ∧
    ∃ o, translate pt 600 s' = Ok (o, s') ∧ o ≫= only_valid = Some (pte_new 78 3).
Proof.
  destruct (page_table_is_dictionary 5 boot_mem [OpMap 3 77 6; OpMap 600 78 2; OpUnmap 3])
    as (pt & s' & Hr & _ & Ht).
  - apply boot_mem_wf.
  - apply boot_mem_free. simpl. lia.
  - repeat apply Forall_cons_2; simpl; try lia. apply Forall_nil_2.
  - exists pt, s'. split; [exact Hr|]. destruct (Ht 600 ltac:(lia)) as (o & Ho & Hv).
    exists o. split; [exact Ho|]. exact Hv.
Defined.


(** *** Reaching user memory from the kernel *)

(** Where a virtual address lives: the page and the offset in it. *)
Definition phys_loc (m : gmap Z page) (root va : Z) : option (Z * Z) :=
  (λ e, (pte_ppn e, page_offset va)) <$> mapping m root (floor va).

Definition slice_locs (sl : uslice) : list (Z * Z) :=
  let '(ppn, s, e) := sl in (λ o, (ppn, o)) <$> seqZ s (e - s).
Definition buffer_locs (v : list uslice) : list (Z * Z) := concat (slice_locs <$> v).

Lemma token_roundtrip pt : 0 ≤ root_ppn pt < 2 ^ 44 → root_ppn (from_token (token pt)) = root_ppn pt.
Proof.
  intros Hr. unfold from_token, token. simpl. rewrite lor_shiftl_add by lia.
  unfold PPN_MASK. rewrite (land_mask _ 44) by lia. rewrite phys_page_num_mod. dlia.
Qed.

Lemma translate_mapping frs pt s vpn e :
  pt_wf (mem s) (root_ppn pt) frs → 0 ≤ vpn < 2 ^ 27 →
  mapping (mem s) (root_ppn pt) vpn = Some e → translate pt vpn s = Ok (Some e, s).
Proof.
  intros Hwf Hv. destruct (indexes_recompose vpn Hv) as (i0 & i1 & i2 & Hidx & H0 & H1 & H2 & _).
  rewrite (translate_spec frs _ _ _ i0 i1 i2) by done. unfold mapping. rewrite Hidx.
  destruct (walk _ _ _) as [n|]; simpl; [|done]. destruct (pte_at _ n i2) as [e'|]; simpl; [|done].
  unfold only_valid. by case_match; intros [= <-].
Qed.

Lemma slice_locs_mapping m root e start n :
  mapping m root (floor start) = Some e → 0 ≤ n → page_offset start + n ≤ PAGE_SIZE →
  Some <$> slice_locs (pte_ppn e, page_offset start, page_offset start + n) =
  phys_loc m root <$> seqZ start n.
Proof.
  intros Hm Hn Hp. unfold slice_locs. replace (_ + n - _) with n by lia.
  apply list_eq. intros i. rewrite !list_lookup_fmap.
  destruct (decide (Z.of_nat i < n)); [|by rewrite !lookup_seqZ_ge by lia].
  rewrite !lookup_seqZ_lt by lia. simpl. unfold phys_loc.
  rewrite page_offset_mod in *. unfold floor, PAGE_SIZE in *.
  replace ((start + Z.of_nat i) `div` 4096) with (start `div` 4096) by dlia.
  rewrite Hm. simpl. rewrite page_offset_mod. unfold PAGE_SIZE. do 3 f_equal. dlia.
Qed.

Lemma translated_byte_buffer_loop_spec frs pt s start fin fuel :
  pt_wf (mem s) (root_ppn pt) frs → 0 ≤ start → fin < 2 ^ 39 →
  (∀ va, start ≤ va < fin → is_Some (mapping (mem s) (root_ppn pt) (floor va))) →
  (0 < fuel)%nat → (start < fin → (fin + 4095) / 4096 - start / 4096 < Z.of_nat fuel) →
  ∃ v, translated_byte_buffer_loop fuel pt start fin s = Ok (v, s) ∧
    Some <$> buffer_locs v = phys_loc (mem s) (root_ppn pt) <$> seqZ start (fin - start) ∧
    Forall (λ '(_, a, b), a < b) v.
Proof.
  intros Hwf. revert start. induction fuel as [|fuel IH]; intros start H0 Hfin Hmap Hf0 Hfuel; [lia|].
  cbn [translated_byte_buffer_loop]. destruct (Z.ltb_spec start fin) as [Hlt|Hge].
  2: { exists []. split_and!; [done| |constructor]. rewrite seqZ_nil by lia. done. }
  rewrite !virt_addr_id by lia. destruct (Hmap start ltac:(lia)) as [e He].
  assert (0 ≤ floor start < 2 ^ 27) as Hfl by (unfold floor, PAGE_SIZE; dlia).
  unfold mbind, M_bind. rewrite (translate_mapping frs pt s _ e) by done. cbn [lift unwrap].
  assert (step (floor start) = floor start + 1) as -> by (apply u64_id; unfold is_u64; lia).
  rewrite addr_of_page_eq by lia.
  set (end_va := Z.min ((floor start + 1) * PAGE_SIZE) fin).
  assert (start < end_va ≤ fin ∧ page_offset start + (end_va - start) ≤ PAGE_SIZE) as [Hend Hpo].
  { unfold end_va. pose proof (floor_bounds start). rewrite page_offset_mod.
    unfold floor, PAGE_SIZE in *. dlia. }
  assert ((if page_offset end_va =? 0 then (pte_ppn e, page_offset start, PAGE_SIZE)
           else (pte_ppn e, page_offset start, page_offset end_va)) =
          (pte_ppn e, page_offset start, page_offset start + (end_va - start))) as ->.
  { unfold end_va in *. rewrite !page_offset_mod in *. unfold floor, PAGE_SIZE in *.
    case_match eqn:E; [apply Z.eqb_eq in E|apply Z.eqb_neq in E]; f_equal; dlia. }
  cbn [fst snd]. rewrite (proj2 (Z.leb_le _ _)) by lia. cbn [lift assert].
  destruct (IH end_va) as (v & -> & Hv & Hne); [lia|done|intros va ?; apply Hmap; lia| | |].
  { specialize (Hfuel Hlt). clear -Hfuel Hlt. dlia. }
  { specialize (Hfuel Hlt). unfold end_va, floor, PAGE_SIZE. clear -Hfuel Hlt. dlia. }
  exists ((pte_ppn e, page_offset start, page_offset start + (end_va - start)) :: v).
  split_and!; [done| |constructor; [lia|done]].
  unfold buffer_locs in *. cbn [fmap list_fmap concat]. rewrite fmap_app, Hv.
  rewrite (slice_locs_mapping _ _ e) by (done || lia).
  rewrite <- fmap_app. f_equal.
  replace (fin - start) with ((end_va - start) + (fin - end_va)) by lia.
  rewrite seqZ_app by lia. do 2 f_equal. lia.
Qed.

Lemma translated_byte_buffer_spec l0 pt s ptr len fuel :
  pt_inv l0 pt s → 0 ≤ ptr → 0 ≤ len → ptr + len < 2 ^ 39 →
  (∀ va, ptr ≤ va < ptr + len → is_Some (mapping (mem s) (root_ppn pt) (floor va))) →
  len / 4096 + 3 ≤ Z.of_nat fuel →
  ∃ v, translated_byte_buffer fuel (token pt) ptr len s = Ok (v, s) ∧
    Some <$> buffer_locs v = phys_loc (mem s) (root_ppn pt) <$> seqZ ptr len ∧
    Forall (λ '(_, a, b), a < b) v.
Proof.
  intros [Hfa Hwf _] Hp Hl Hend Hmap Hfuel. unfold translated_byte_buffer.
  rewrite u64_id by (unfold is_u64; lia).
  assert (root_ppn (from_token (token pt)) = root_ppn pt) as Hroot.
  { apply token_roundtrip. by destruct (ptwf_page _ _ _ Hwf _ (ptwf_root _ _ _ Hwf)). }
  rewrite <- Hroot in *.
  destruct (translated_byte_buffer_loop_spec (frames pt) _ s ptr (ptr + len) fuel Hwf Hp Hend Hmap)
    as (v & Hv & Hlocs & Hne); [dlia|intros _; dlia|].
  exists v. replace (ptr + len - ptr) with len in Hlocs by lia. done.
Qed.

(** A user buffer whose pages are all mapped is translated to slices that
    are, byte for byte and in order, the physical locations of
    [[ptr, ptr+len)], for any buffer below the 39-bit limit; one iteration per
    page touched and one to leave the loop are enough. *)
Theorem translated_byte_buffer_correct l0 pt s ptr len fuel :
  pt_inv l0 pt s → 0 ≤ ptr → 0 ≤ len → ptr + len < 2 ^ 39 →
  (∀ va, ptr ≤ va < ptr + len → is_Some (mapping (mem s) (root_ppn pt) (floor va))) →
  len / 4096 + 3 ≤ Z.of_nat fuel →
  ∃ v, translated_byte_buffer fuel (token pt) ptr len s = Ok (v, s) ∧
    Some <$> buffer_locs v = phys_loc (mem s) (root_ppn pt) <$> seqZ ptr len ∧
    Forall (λ '(_, a, b), a < b) v.
Proof. apply translated_byte_buffer_spec. Qed.

(** *** The byte iterator of a user buffer *)
Fixpoint ubi_collect (fuel : nat) (it : UserBufferIterator) : outcome (list (Z * Z)) :=
  match fuel with
  | O => Err Diverged
  | S fuel' =>
      ubi_next it ≫= λ '(o, it'),
      match o with
      | None => Ok []
      | Some r => ubi_collect fuel' it' ≫= λ v, Ok (r :: v)
      end
  end.

Lemma ubi_collect_slice bufs c ppn a b rest pos n fuel :
  bufs !! c = Some (ppn, a, b) → 0 ≤ pos → pos + Z.of_nat (S n) = b - a →
  (∀ f, (f ≥ fuel)%nat → ubi_collect f (mkUBI bufs (S c) 0) = Ok rest) →
  ∀ f, (f ≥ fuel + S n)%nat →
  ubi_collect f (mkUBI bufs c pos) = Ok (((λ o, (ppn, o)) <$> seqZ (a + pos) (Z.of_nat (S n))) ++ rest).
Proof.
  intros Hb. revert pos. induction n as [|n IH]; intros pos Hpos Hn Hrest f Hf;
    (destruct f as [|f]; [lia|]); cbn [ubi_collect]; unfold ubi_next; cbn [ubi_bufs curr_buf pos_in_buf];
    rewrite Hb; rewrite (proj2 (Z.ltb_lt _ _)) by lia; simpl assert; simpl mbind.
  - rewrite (proj2 (Z.eqb_eq _ _)) by lia. rewrite Hrest by lia. done.
  - rewrite (proj2 (Z.eqb_neq _ _)) by lia. rewrite (IH (pos + 1)) by (try done; lia).
    rewrite (seqZ_cons (a + pos)) by lia. simpl.
    replace (Z.succ (a + pos)) with (a + (pos + 1)) by lia.
    by replace (Z.pred (Z.of_nat (S (S n)))) with (Z.of_nat (S n)) by lia.
Qed.

(** Iterating over a user buffer visits every byte of every slice once, in
    order, and then ends; there is no empty slice to trip over in the buffers
    [translated_byte_buffer] builds. *)
Theorem user_buffer_iter_complete bufs :
  Forall (λ '(_, a, b), a < b) bufs →
  ∃ fuel, ubi_collect fuel (ubi_into_iter bufs) = Ok (buffer_locs bufs) ∧
    Z.of_nat (length (buffer_locs bufs)) = user_buffer_len bufs.
Proof.
  intros Hne.
  assert (∀ c, (c ≤ length bufs)%nat → ∃ fuel, ∀ f, (f ≥ fuel)%nat →
    ubi_collect f (mkUBI bufs c 0) = Ok (buffer_locs (drop c bufs))) as Hc.
  { intros c Hc. remember (length bufs - c)%nat as k eqn:Hk. revert c Hc Hk.
    induction k as [|k IH]; intros c Hc Hk.
    - exists 1%nat. intros [|f] Hf; [lia|]. rewrite drop_ge by lia. cbn [ubi_collect].
      unfold ubi_next; simpl. by rewrite lookup_ge_None_2 by lia.
    - destruct (lookup_lt_is_Some_2 bufs c) as [[[ppn a] b] Hb]; [lia|].
      assert (a < b) as Hab by (by apply (Forall_lookup_1 _ _ _ _ Hne Hb)).
      destruct (IH (S c)) as [fuel Hfuel]; [lia|lia|].
      exists (fuel + S (Z.to_nat (b - a - 1)))%nat. intros f Hf.
      rewrite (ubi_collect_slice bufs c ppn a b (buffer_locs (drop (S c) bufs)) 0
                 (Z.to_nat (b - a - 1)) fuel Hb) by (done || lia).
      rewrite (drop_S _ _ _ Hb). unfold buffer_locs. simpl. do 2 f_equal.
      rewrite Z.add_0_r. do 2 f_equal. lia. }
  destruct (Hc 0%nat ltac:(lia)) as [fuel Hf]. exists fuel. split; [apply Hf; lia|].
  clear Hc Hf. induction Hne as [|[[ppn a] b] bufs Hab _ IH]; [done|].
  unfold user_buffer_len, buffer_locs in *. rewrite fmap_cons. cbn [concat foldr].
  rewrite length_app. unfold slice_locs at 1. rewrite length_fmap, length_seqZ. lia.
Qed.

(** *** Strings in user memory *)

(** The byte at a virtual address. *)
Definition vbyte (m : gmap Z page) (root va : Z) : option Z :=
  phys_loc m root va ≫= λ '(p, o), m !! p ≫= λ pg, pg !! Z.to_nat o.

(** [str] is stored at [va] and followed by a NUL. *)
Definition cstr_at (m : gmap Z page) (root va : Z) (str : list Z) : Prop :=
  Forall (λ b, b ≠ 0) str ∧
  ∀ i, (i ≤ length str)%nat → vbyte m root (va + Z.of_nat i) = (str ++ [0]) !! i.

Lemma before_nul_all l : Forall (λ b, b ≠ 0) l → before_nul l = l.
Proof.
  induction 1 as [|b l Hb _ IH]; simpl; [done|]. rewrite (proj2 (Z.eqb_neq b 0)) by done. by rewrite IH.
Qed.
Lemma before_nul_app l r : Forall (λ b, b ≠ 0) l → before_nul (l ++ 0 :: r) = l.
Proof.
  induction 1 as [|b l Hb _ IH]; simpl; [done|]. rewrite (proj2 (Z.eqb_neq b 0)) by done. by rewrite IH.
Qed.

(** The rest of the page at [va] holds the next bytes of the string. *)
Lemma cstr_page m root va str e pg :
  0 ≤ va → cstr_at m root va str → mapping m root (floor va) = Some e →
  m !! pte_ppn e = Some pg → length pg = Z.to_nat PAGE_SIZE →
  let bytes := drop (Z.to_nat (page_offset va)) pg in
  if (length str <? length bytes)%nat
  then ∃ r, bytes = str ++ 0 :: r
  else bytes = take (length bytes) str ∧
       cstr_at m root ((floor va + 1) * PAGE_SIZE) (drop (length bytes) str).
Proof.
  intros Hva [Hnz Hat] Hm Hpg Hlen bytes.
  pose proof (floor_split va) as Hsplit. pose proof (floor_bounds va) as Hfb.
  assert (length bytes = Z.to_nat (PAGE_SIZE - page_offset va)) as Hbl.
  { unfold bytes. rewrite length_drop, Hlen. unfold PAGE_SIZE in *. lia. }
  assert (∀ i, (i < length bytes)%nat → vbyte m root (va + Z.of_nat i) = bytes !! i) as Hb.
  { intros i Hi. unfold vbyte, phys_loc.
    assert (floor (va + Z.of_nat i) = floor va) as -> by (unfold floor, PAGE_SIZE in *; dlia).
    rewrite Hm. simpl. rewrite Hpg. simpl. unfold bytes. rewrite lookup_drop. f_equal.
    rewrite !page_offset_mod in *. unfold floor, PAGE_SIZE in *. dlia. }
  destruct (Nat.ltb_spec (length str) (length bytes)) as [Hlt|Hge].
  - exists (drop (S (length str)) bytes).
    rewrite <- (take_drop (S (length str)) bytes) at 1. replace (0 :: drop _ _) with ([0] ++ drop (S (length str)) bytes) by done.
    rewrite app_assoc. f_equal. apply list_eq. intros i. destruct (decide (i < S (length str))%nat).
    + rewrite lookup_take_lt by done. rewrite <- Hb by lia. apply Hat. lia.
    + rewrite !lookup_ge_None_2; [done|rewrite length_app; simpl; lia|rewrite length_take; lia].
  - split.
    + apply list_eq. intros i. destruct (decide (i < length bytes)%nat).
      * rewrite <- Hb, lookup_take_lt by done. rewrite Hat by lia. by rewrite lookup_app_l by lia.
      * rewrite !lookup_ge_None_2; [done|rewrite length_take; lia|lia].
    + split; [by apply Forall_drop|]. intros i Hi. rewrite length_drop in Hi.
      replace ((floor va + 1) * PAGE_SIZE + Z.of_nat i) with (va + Z.of_nat (length bytes + i)) by (unfold PAGE_SIZE in *; lia).
      rewrite Hat by lia. replace (drop (length bytes) str ++ [0]) with (drop (length bytes) (str ++ [0])).
      * by rewrite lookup_drop.
      * by rewrite drop_app_le by lia.
Qed.

Lemma translated_str_loop_spec frs pt s fuel va str acc :
  pt_wf (mem s) (root_ppn pt) frs → (∀ p pg, mem s !! p = Some pg → length pg = Z.to_nat PAGE_SIZE) →
  Forall (λ b, b < 128) str →
  0 ≤ va → va + Z.of_nat (length str) < 2 ^ 39 - PAGE_SIZE → cstr_at (mem s) (root_ppn pt) va str →
  (length str < fuel)%nat →
  translated_str_loop fuel pt va (floor va) acc s = Ok (acc ++ str, s).
Proof.
  intros Hwf Hpages. revert va str acc.
  induction fuel as [|fuel IH]; intros va str acc Hasc Hva Hend Hcstr Hfuel; [lia|].
  assert (∃ e pg, mapping (mem s) (root_ppn pt) (floor va) = Some e ∧ mem s !! pte_ppn e = Some pg) as (e & pg & Hm & Hpg).
  { destruct Hcstr as [_ Hat]. specialize (Hat 0%nat ltac:(lia)). revert Hat.
    unfold vbyte, phys_loc. rewrite Z.add_0_r. destruct (mapping _ _ _) as [e|]; simpl; [|by destruct str].
    destruct (mem s !! pte_ppn e) as [pg|] eqn:Hpg; simpl; [|by destruct str]. eauto. }
  assert (0 ≤ floor va < 2 ^ 27 - 1) as Hfl by (unfold floor, PAGE_SIZE in *; dlia).
  pose proof (cstr_page _ _ va str e pg Hva Hcstr Hm Hpg (Hpages _ _ Hpg)) as Hcp. simpl in Hcp.
  cbn [translated_str_loop]. unfold mbind, M_bind, get.
  rewrite (translate_mapping frs pt s _ e) by (done || lia). cbn [lift unwrap]. rewrite Hpg. cbn [lift unwrap].
  set (bytes := drop _ pg) in *.
  destruct (Nat.ltb_spec (length str) (length bytes)) as [Hlt|Hge].
  - destruct Hcp as [r Hr]. rewrite Hr, before_nul_app by apply Hcstr.
    rewrite utf8_ok_ascii by done. cbn [lift assert].
    rewrite (proj2 (Nat.ltb_lt _ _)) by (rewrite length_app; simpl; lia). done.
  - destruct Hcp as [Hbt Hrest].
    assert (before_nul bytes = bytes) as ->.
    { apply before_nul_all. rewrite Hbt. apply Forall_take, Hcstr. }
    rewrite utf8_ok_ascii by (rewrite Hbt; by apply Forall_take). cbn [lift assert].
    rewrite Nat.ltb_irrefl.
    assert (step (floor va) = floor va + 1) as -> by (apply u64_id; unfold is_u64; lia).
    rewrite addr_of_page_eq by lia.
    assert (floor ((floor va + 1) * PAGE_SIZE) = floor va + 1) as Hff
      by (unfold floor at 1; apply Z_div_mult; unfold PAGE_SIZE; lia).
    rewrite <- Hff at 2. rewrite (IH _ (drop (length bytes) str)).
    + rewrite <- app_assoc. do 3 f_equal. rewrite Hbt at 1. apply take_drop.
    + by apply Forall_drop.
    + unfold PAGE_SIZE. lia.
    + assert (Z.of_nat (length bytes) = 4096 - page_offset va) as Hl.
      { unfold bytes. rewrite length_drop, (Hpages _ _ Hpg). unfold PAGE_SIZE.
        rewrite page_offset_mod. unfold PAGE_SIZE. dlia. }
      rewrite length_drop. pose proof (floor_split va). unfold PAGE_SIZE in *. lia.
    + done.
    + rewrite length_drop.
      assert (0 < length bytes)%nat; [|lia]. unfold bytes. rewrite length_drop, (Hpages _ _ Hpg).
      rewrite page_offset_mod. unfold PAGE_SIZE. dlia.
Qed.

Lemma translated_str_spec l0 pt s ptr str fuel :
  pt_inv l0 pt s → (∀ p pg, mem s !! p = Some pg → length pg = Z.to_nat PAGE_SIZE) →
  Forall (λ b, b < 128) str → 0 ≤ ptr → ptr + Z.of_nat (length str) < 2 ^ 39 - PAGE_SIZE →
  cstr_at (mem s) (root_ppn pt) ptr str → (length str < fuel)%nat →
  translated_str fuel (token pt) ptr s = Ok (str, s).
Proof.
  intros [Hfa Hwf _] Hpages Hasc Hp Hend Hstr Hfuel. unfold translated_str.
  assert (root_ppn (from_token (token pt)) = root_ppn pt) as Hroot.
  { apply token_roundtrip. by destruct (ptwf_page _ _ _ Hwf _ (ptwf_root _ _ _ Hwf)). }
  rewrite <- Hroot in *. rewrite virt_addr_id by (unfold PAGE_SIZE in *; lia).
  by rewrite (translated_str_loop_spec (frames pt) _ s fuel ptr str []).
Qed.

(** A NUL-terminated ASCII string in mapped user memory is read back exactly,
    however many pages it spans: [translated_str] returns the bytes before the
    first NUL and leaves memory unchanged. *)
Theorem translated_str_correct l0 pt s ptr str fuel :
  pt_inv l0 pt s → (∀ p pg, mem s !! p = Some pg → length pg = Z.to_nat PAGE_SIZE) →
  Forall (λ b, b < 128) str → 0 ≤ ptr → ptr + Z.of_nat (length str) < 2 ^ 39 - PAGE_SIZE →
  cstr_at (mem s) (root_ppn pt) ptr str → (length str < fuel)%nat →
  translated_str fuel (token pt) ptr s = Ok (str, s).
Proof. apply translated_str_spec. Qed.

(** *** A concrete address space

    Two data pages, mapped at virtual pages 0 and 1, hold the string [abc]
    across their boundary. *)
Module Demo.
Definition data0 : page := replicate 4094 0 ++ [97; 98].
Definition data1 : page := 99 :: replicate 4095 0.
Definition user_mem : kmem := mkMem (mkFA 5 105 []) (<[200 := data0]> (<[201 := data1]> ∅)).
Definition ops : list ptop := [OpMap 0 200 (Z.lor PTE_R PTE_U); OpMap 1 201 (Z.lor PTE_R PTE_U)].
Definition booted : PageTable * kmem :=
  match (pt_new ≫= λ pt, pt_run pt ops) user_mem with
  | Ok r => r
  | Err _ => (mkPT 0 [], user_mem)
  end.
Definition pt : PageTable := booted.1.
Definition st : kmem := booted.2.

Lemma demo_inv : pt_inv 5 pt st.
Proof.
  destruct (pt_new_correct 5 4 user_mem) as (pt0 & s1 & Hnew & Hinv & Hnf & Hempty & _).
  { apply boot_mem_wf. }
  { apply (boot_mem_free 5). lia. }
  assert (represents s1 pt0 ∅) as Hrep by (intros v _; by rewrite Hempty, lookup_empty).
  pose proof (pt_run_sim 5 ops pt0 s1 ∅ Hinv Hrep) as Hs.
  destruct Hs as (pt' & s' & Hr & Hinv' & _).
  { repeat apply Forall_cons_2; [..|apply Forall_nil_2]; vm_compute; intuition discriminate. }
  { done. }
  unfold pt, st, booted. by rewrite (M_bind_Ok _ _ _ _ _ Hnew), Hr.
Qed.

Lemma demo_pages p pg : mem st !! p = Some pg → length pg = Z.to_nat PAGE_SIZE.
Proof.
  assert (map_Forall (λ _ pg, length pg = Z.to_nat PAGE_SIZE) (mem st)) as H; [|by apply (H p)].
  apply (bool_decide_unpack _). vm_compute. exact I.
Qed.

Lemma demo_mapped va : 0 ≤ va < 8192 → is_Some (mapping (mem st) (root_ppn pt) (floor va)).
Proof.
  intros Hva. assert (floor va = 0 ∨ floor va = 1) as [-> | ->] by (unfold floor, PAGE_SIZE; dlia);
    vm_compute; by eexists.
Qed.
End Demo.

Lemma translated_byte_buffer_correct_witness :
  ∃ v, translated_byte_buffer 4 (token Demo.pt) 4090 20 Demo.st = Ok (v, Demo.st) ∧
    Some <$> buffer_locs v = phys_loc (mem Demo.st) (root_ppn Demo.pt) <$> seqZ 4090 20 ∧
    Forall (λ '(_, a, b), a < b) v.
Proof.
  apply (translated_byte_buffer_correct 5 Demo.pt Demo.st 4090 20 4); try lia.
  - apply Demo.demo_inv.
  - intros va Hva. apply Demo.demo_mapped. lia.
Defined.

Lemma user_buffer_iter_complete_witness :
  ∃ fuel, ubi_collect fuel (ubi_into_iter [(7, 4090, 4096); (9, 0, 3)]) =
      Ok (buffer_locs [(7, 4090, 4096); (9, 0, 3)]) ∧
    Z.of_nat (length (buffer_locs [(7, 4090, 4096); (9, 0, 3)])) =
      user_buffer_len [(7, 4090, 4096); (9, 0, 3)].
Proof.
  apply (user_buffer_iter_complete [(7, 4090, 4096); (9, 0, 3)]).
  repeat apply Forall_cons_2; [lia|lia|apply Forall_nil_2].
Defined.

Lemma translated_str_correct_witness :
  translated_str 4 (token Demo.pt) 4094 Demo.st = Ok ([97; 98; 99], Demo.st).
Proof.
  apply (translated_str_correct 5 Demo.pt Demo.st 4094 [97; 98; 99] 4).
  - apply Demo.demo_inv.
  - apply Demo.demo_pages.
  - repeat apply Forall_cons_2; try lia. apply Forall_nil_2.
  - lia.
  - unfold PAGE_SIZE. simpl. lia.
  - split; [repeat apply Forall_cons_2; try lia; apply Forall_nil_2|].
    intros i Hi. simpl in Hi. do 4 (destruct i as [|i]; [vm_compute; reflexivity|]). lia.
  - simpl. lia.
Defined.

(** A buffer page without a leaf entry is not refused when its directories
    exist: the walk returns the empty entry and the slice is taken from
    physical page 0. *)
Example translated_byte_buffer_ignores_valid_bit :
  mapping (mem Demo.st) (root_ppn Demo.pt) 2 = None ∧
  (λ r, fst r) <$> translated_byte_buffer 4 (token Demo.pt) 8192 1 Demo.st = Ok [(0, 0, 1)].
Proof. split; vm_compute; reflexivity. Qed.

(** A two-byte UTF-8 character that straddles a page boundary panics the
    kernel: each page's bytes are validated on their own. *)
Example translated_str_splits_characters :
  utf8_ok [195; 169] = true ∧
  translated_str 4 (token Demo.pt) 4095
    (mkMem (fa Demo.st) (<[200 := replicate 4095 0 ++ [195]]> (<[201 := 169 :: replicate 4095 0]> (mem Demo.st))))
  = Err Panicked.
Proof. split; vm_compute; reflexivity. Qed.
