(* ===== verification/BlockCache.v ===== *)
(** * Block devices and the block cache
      (easy-fs/src/block_dev.rs, easy-fs/src/block_cache.rs,
       easy-fs-fuse/src/main.rs)

    A [BlockDevice] stores blocks of 512 bytes; its trait is a class whose laws
    state what the cache relies on.  [CacheState] is the device together with
    the queue of the global [BLOCK_CACHE_MANAGER].

    The file system touches the disk only through
    [get_block_cache(id, dev).lock().read/modify(..)] and
    [block_cache_sync_all()].  Its code is therefore written once, as a [prog]:
    a tree of [Lock]/[Unlock]/[SyncAll] steps.  [run_cache] executes a [prog]
    with the queue, eviction, reference counts, spin locks and write-back of the
    source; [run_disk] executes it on a plain map from block numbers to blocks.
    The simulation theorem says the cache is transparent. *)
From S2P Require Import Prelude Bytes.

Definition BLOCK_SZ : Z := 512.
Abbreviation block := (list Z) (only parsing).
Definition block_ok (b : block) : Prop := length b = Z.to_nat BLOCK_SZ.
#[global] Instance block_ok_dec b : Decision (block_ok b).
Proof. unfold block_ok. apply _. Defined.

(** ** Devices *)
Class BlockDevice (D : Type) := {
  dev_read_block : D → Z → option block;
  dev_write_block : D → Z → block → option D;
}.

(** The laws: a device is a map of blocks; blocks that can be read can be
    overwritten, and nothing else changes. *)
Class BlockDeviceLaws (D : Type) `{BlockDevice D} := {
  dev_blocks : D → gmap Z block;
  dev_blocks_ok : ∀ d id b, dev_blocks d !! id = Some b → block_ok b;
  dev_read_spec : ∀ d id b, dev_blocks d !! id = Some b → dev_read_block d id = Some b;
  dev_write_spec : ∀ d id b, is_Some (dev_blocks d !! id) → block_ok b →
    ∃ d', dev_write_block d id b = Some d' ∧ dev_blocks d' = <[id := b]> (dev_blocks d);
}.

(** [BlockFile]: a file holds the blocks one after the other.  [None] is the
    panic of [assert_matches!] on a short read or write. *)
Record BlockFile := mkFile { file_bytes : list Z }.

Definition file_read (f : list Z) (pos : Z) (n : nat) : list Z := slice (Z.to_nat pos) n f.
Definition file_write (f : list Z) (pos : Z) (new : list Z) : list Z :=
  let p := Z.to_nat pos in
  take p (f ++ replicate (p - length f) 0) ++ new ++ drop (p + length new) f.

#[global] Instance BlockFile_dev : BlockDevice BlockFile := {
  dev_read_block d block_id :=
    let buf := file_read (file_bytes d) (u64 (block_id * BLOCK_SZ)) (Z.to_nat BLOCK_SZ) in
    if decide (block_ok buf) then Some buf else None;
  dev_write_block d block_id buf :=
    if decide (block_ok buf) then
      Some (mkFile (file_write (file_bytes d) (u64 (block_id * BLOCK_SZ)) buf))
    else None;
}.

(** ** The cache *)
Record BlockCache := mkBC { cache : block; block_id : Z; modified : bool }.

(** One element of the queue: its key, the block, [Arc::strong_count] and
    whether its spin lock is taken. *)
Record QEntry := mkQ { q_id : Z; q_cache : BlockCache; q_strong : nat; q_locked : bool }.

Definition BLOCK_CACHE_SIZE : nat := 16.

Record CacheState (D : Type) := mkCS { dev : D; queue : list QEntry }.
Arguments mkCS {D} dev queue.
Arguments dev {D} _.
Arguments queue {D} _.

Definition add_strong (n : nat) (e : QEntry) : QEntry :=
  mkQ (q_id e) (q_cache e) n (q_locked e).

(** Apply [f] to the entries filed under [id]. *)
Definition q_update (id : Z) (f : QEntry → QEntry) (q : list QEntry) : list QEntry :=
  (λ e, if decide (q_id e = id) then f e else e) <$> q.

Section cache.
Context {D : Type} `{BlockDevice D}.
Abbreviation C := (M (CacheState D)).

Definition block_cache_new (d : D) (id : Z) : outcome BlockCache :=
  b ← unwrap (dev_read_block d id); Ok (mkBC b id false).

(** [BlockCache::sync]; also what dropping a cache runs. *)
Definition sync (d : D) (bc : BlockCache) : outcome (D * BlockCache) :=
  if modified bc then
    d' ← unwrap (dev_write_block d (block_id bc) (cache bc));
    Ok (d', mkBC (cache bc) (block_id bc) false)
  else Ok (d, bc).

Definition get_block_cache (id : Z) : C () := λ s,
  match list_find (λ e, q_id e = id) (queue s) with
  | Some (_, e) => Ok ((), mkCS (dev s) (q_update id (λ e, add_strong (S (q_strong e)) e) (queue s)))
  | None =>
      s' ← (if (length (queue s) =? BLOCK_CACHE_SIZE)%nat then
              match list_find (λ e, q_strong e = 1%nat) (queue s) with
              | Some (idx, e) =>
                  '(d', _) ← sync (dev s) (q_cache e);
                  Ok (mkCS d' (delete idx (queue s)))
              | None => Err Panicked
              end
            else Ok s);
      bc ← block_cache_new (dev s') id;
      (* one reference in the queue, one returned *)
      Ok ((), mkCS (dev s') (queue s' ++ [mkQ id bc 2 false]))
  end.

Definition spin_lock (id : Z) : C block := λ s,
  match list_find (λ e, q_id e = id) (queue s) with
  | Some (_, e) =>
      if q_locked e then Err Deadlocked
      else Ok (cache (q_cache e),
               mkCS (dev s) (q_update id (λ e, mkQ (q_id e) (q_cache e) (q_strong e) true) (queue s)))
  | None => Err Panicked
  end.
(** [get_block_cache(id, dev).lock()] *)
Definition lock_block (id : Z) : C block := get_block_cache id ≫= λ _, spin_lock id.

(** The guard and the [Arc] are dropped at the end of the statement; a
    [modify] has replaced the contents and set [modified]. *)
Definition release (new : option block) (e : QEntry) : QEntry :=
  let bc := match new with
            | Some b => mkBC b (block_id (q_cache e)) true
            | None => q_cache e
            end in
  mkQ (q_id e) bc (q_strong e - 1) false.
Definition unlock_block (id : Z) (new : option block) : C () := λ s,
  Ok ((), mkCS (dev s) (q_update id (release new) (queue s))).

Fixpoint sync_loop (d : D) (q : list QEntry) : outcome (D * list QEntry) :=
  match q with
  | [] => Ok (d, [])
  | e :: q' =>
      if q_locked e then Err Deadlocked
      else
        '(d', bc) ← sync d (q_cache e);
        '(d'', q'') ← sync_loop d' q';
        Ok (d'', mkQ (q_id e) bc (q_strong e) (q_locked e) :: q'')
  end.
Definition block_cache_sync_all : C () := λ s,
  '(d, q) ← sync_loop (dev s) (queue s); Ok ((), mkCS d q).
End cache.

(** ** Programs over blocks *)
Inductive prog (A : Type) :=
| Ret (a : A)
| Fail (e : fault)
| Lock (id : Z) (k : block → prog A)
| Unlock (id : Z) (new : option block) (k : prog A)
| SyncAll (k : prog A).
Arguments Ret {A} a.
Arguments Fail {A} e.
Arguments Lock {A} id k.
Arguments Unlock {A} id new k.
Arguments SyncAll {A} k.

#[global] Instance prog_ret : MRet prog := @Ret.
#[global] Instance prog_bind : MBind prog :=
  fix go A B f (p : prog A) {struct p} := let _ : MBind prog := go in
  match p with
  | Ret a => f a
  | Fail e => Fail e
  | Lock id k => Lock id (λ b, k b ≫= f)
  | Unlock id new k => Unlock id new (k ≫= f)
  | SyncAll k => SyncAll (k ≫= f)
  end.
Definition liftp {A} (o : outcome A) : prog A :=
  match o with Ok a => Ret a | Err e => Fail e end.

(** [get_block_cache(id).lock().read(offset, f)] for a [T] of [size] bytes. *)
Definition in_block (offset size : Z) : outcome () := assert (u64 (offset + size) <=? BLOCK_SZ).
Definition bytes_at (offset size : Z) (b : block) : list Z := slice (Z.to_nat offset) (Z.to_nat size) b.

Definition read {A} (id offset size : Z) (f : list Z → prog A) : prog A :=
  Lock id (λ b,
    liftp (in_block offset size) ≫= λ _,
    f (bytes_at offset size b) ≫= λ v, Unlock id None (Ret v)).

(** [get_block_cache(id).lock().modify(offset, f)]: [f] returns the new bytes. *)
Definition modify {A} (id offset size : Z) (f : list Z → prog (A * list Z)) : prog A :=
  Lock id (λ b,
    liftp (in_block offset size) ≫= λ _,
    f (bytes_at offset size b) ≫= λ '(v, new),
    Unlock id (Some (splice (Z.to_nat offset) new b)) (Ret v)).

Definition sync_all : prog () := SyncAll (Ret ()).

(** ** Running a program with the cache *)
Fixpoint run_cache {D} `{BlockDevice D} {A} (p : prog A) : M (CacheState D) A :=
  match p with
  | Ret a => mret a
  | Fail e => λ _, Err e
  | Lock id k => lock_block id ≫= λ b, run_cache (k b)
  | Unlock id new k => unlock_block id new ≫= λ _, run_cache k
  | SyncAll k => block_cache_sync_all ≫= λ _, run_cache k
  end.

(** ** The specification: a map of blocks and the set of locked ones *)
Record Disk := mkDisk { blocks : gmap Z block; held : gset Z }.

Fixpoint run_disk {A} (p : prog A) : M Disk A :=
  match p with
  | Ret a => mret a
  | Fail e => λ _, Err e
  | Lock id k => λ s,
      if decide (id ∈ held s) then Err Deadlocked
      else if decide (size (held s) < BLOCK_CACHE_SIZE)%nat then
        match blocks s !! id with
        | Some b => run_disk (k b) (mkDisk (blocks s) ({[id]} ∪ held s))
        | None => Err Panicked
        end
      else Err Panicked
  | Unlock id None k => λ s,
      if decide (id ∈ held s) then run_disk k (mkDisk (blocks s) (held s ∖ {[id]}))
      else Err Panicked
  | Unlock id (Some b) k => λ s,
      if decide (block_ok b ∧ id ∈ held s) then
        run_disk k (mkDisk (<[id := b]> (blocks s)) (held s ∖ {[id]}))
      else Err Panicked
  | SyncAll k => λ s, if decide (held s = ∅) then run_disk k s else Err Deadlocked
  end.

(** ** The cache implements the disk *)
Section queue.
Implicit Types (q : list QEntry) (e : QEntry).

Lemma find_by_id q i e :
  NoDup (q_id <$> q) → q !! i = Some e → list_find (λ e', q_id e' = q_id e) q = Some (i, e).
Proof.
  intros Hnd Hi. apply list_find_Some. split_and!; [done|done|].
  intros j e' Hj Hlt Heq. assert (j = i); [|lia].
  apply (NoDup_lookup _ j i (q_id e) Hnd); rewrite list_lookup_fmap; [rewrite Hj|by rewrite Hi].
  simpl. congruence.
Qed.

Lemma find_id_None q id : list_find (λ e, q_id e = id) q = None ↔ id ∉ q_id <$> q.
Proof.
  rewrite list_find_None, Forall_forall, list_elem_of_fmap. naive_solver.
Qed.

Section update.
Context (id : Z) (f : QEntry → QEntry) (Hf : ∀ e, q_id (f e) = q_id e).

Lemma q_update_ids q : q_id <$> q_update id f q = q_id <$> q.
Proof.
  unfold q_update. rewrite <- list_fmap_compose. apply list_fmap_ext.
  intros i e _. simpl. by case_decide.
Qed.

Lemma q_update_compose g q : q_update id g (q_update id f q) = q_update id (λ e, g (f e)) q.
Proof.
  unfold q_update. rewrite <- list_fmap_compose. apply list_fmap_ext. intros i e _. simpl.
  destruct (decide (q_id e = id)) as [He|He]; [by rewrite Hf, decide_True|by rewrite decide_False].
Qed.

Lemma q_update_lookup q i e : q !! i = Some e → q_id e = id → q_update id f q !! i = Some (f e).
Proof. intros Hi He. unfold q_update. rewrite list_lookup_fmap, Hi. simpl. by rewrite decide_True. Qed.

Lemma elem_of_q_update q e :
  e ∈ q_update id f q → (∃ e0, e0 ∈ q ∧ q_id e0 = id ∧ e = f e0) ∨ (e ∈ q ∧ q_id e ≠ id).
Proof. intros (e0 & -> & He)%list_elem_of_fmap. case_decide; [left|right]; eauto. Qed.
End update.
End queue.

Section refinement.
Context {D : Type} `{BlockDeviceLaws D}.
Implicit Types (s : CacheState D) (a : Disk).

Record entry_ok (d : D) a (e : QEntry) : Prop := {
  eo_id : block_id (q_cache e) = q_id e;
  eo_strong : q_strong e = if decide (q_id e ∈ held a) then 2%nat else 1%nat;
  eo_locked : q_locked e = bool_decide (q_id e ∈ held a);
  eo_block : block_ok (cache (q_cache e));
  eo_view : blocks a !! q_id e = Some (cache (q_cache e));
  eo_dev : is_Some (dev_blocks d !! q_id e);
  eo_clean : modified (q_cache e) = false → dev_blocks d !! q_id e = Some (cache (q_cache e));
}.

Record cache_rel s a : Prop := {
  cr_nodup : NoDup (q_id <$> queue s);
  cr_len : (length (queue s) ≤ BLOCK_CACHE_SIZE)%nat;
  cr_entry : ∀ e, e ∈ queue s → entry_ok (dev s) a e;
  cr_held : ∀ id, id ∈ held a → id ∈ q_id <$> queue s;
  cr_miss : ∀ id, id ∉ q_id <$> queue s → blocks a !! id = dev_blocks (dev s) !! id;
}.

(** An empty cache shows the device. *)
Lemma cache_rel_init d : cache_rel (mkCS d []) (mkDisk (dev_blocks d) ∅).
Proof. split; simpl; [constructor|lia|set_solver|set_solver|done]. Qed.

Lemma cache_rel_update s a id f a' :
  cache_rel s a → (∀ e, q_id (f e) = q_id e) →
  (∀ e, e ∈ queue s → q_id e = id → entry_ok (dev s) a e → entry_ok (dev s) a' (f e)) →
  (∀ j, j ≠ id → blocks a' !! j = blocks a !! j ∧ (j ∈ held a' ↔ j ∈ held a)) →
  id ∈ q_id <$> queue s → cache_rel (mkCS (dev s) (q_update id f (queue s))) a'.
Proof.
  intros [Hnd Hlen Hent Hheld Hmiss] Hf Hnew Hother Hin.
  split; simpl; rewrite ?q_update_ids by done; try done.
  - unfold q_update. by rewrite length_fmap.
  - intros e [(e0 & He0 & Hid & ->)|[He Hid]]%elem_of_q_update; [by apply Hnew; [..|apply Hent]|].
    destruct (Hother _ Hid) as [Hb Hh]. destruct (Hent e He). split; rewrite ?Hb; try done.
    + rewrite eo_strong0. repeat case_decide; tauto.
    + rewrite eo_locked0. by apply bool_decide_ext.
  - intros j Hj. destruct (decide (j = id)) as [->|Hne]; [done|]. by apply Hheld, Hother.
  - intros j Hj. destruct (decide (j = id)) as [->|Hne]; [done|].
    destruct (Hother _ Hne) as [-> _]. by apply Hmiss.
Qed.

(** Writing back a block changes the device only where the cache hides it. *)
Lemma sync_spec d a e :
  entry_ok d a e → ∃ d', sync d (q_cache e) = Ok (d', mkBC (cache (q_cache e)) (q_id e) false) ∧
    dev_blocks d' = <[q_id e := cache (q_cache e)]> (dev_blocks d).
Proof.
  intros [Hid _ _ Hblk _ Hdev Hcl]. unfold sync. destruct (q_cache e) as [c bid m]; simpl in *. subst bid.
  destruct m.
  - destruct (dev_write_spec d (q_id e) c Hdev Hblk) as (d' & -> & Hd'). eauto.
  - exists d. split; [done|]. rewrite insert_id; [done|]. by apply Hcl.
Qed.

Lemma entry_ok_dev d d' a e id c :
  entry_ok d a e → q_id e ≠ id → dev_blocks d' = <[id := c]> (dev_blocks d) → entry_ok d' a e.
Proof.
  intros [] Hne Hd. split; try done; rewrite Hd, lookup_insert_ne by done; done.
Qed.

Lemma evict_sim s a :
  cache_rel s a → (size (held a) < BLOCK_CACHE_SIZE)%nat →
  ∃ s', (if (length (queue s) =? BLOCK_CACHE_SIZE)%nat then
           match list_find (λ e, q_strong e = 1%nat) (queue s) with
           | Some (idx, e) =>
               '(d', _) ← sync (dev s) (q_cache e);
               Ok (mkCS d' (delete idx (queue s)))
           | None => Err Panicked
           end
         else Ok s) = Ok s' ∧
    cache_rel s' a ∧ (length (queue s') < BLOCK_CACHE_SIZE)%nat ∧
    (∀ id, id ∉ q_id <$> queue s → id ∉ q_id <$> queue s').
Proof.
  intros Hrel Hsz. pose proof Hrel as [Hnd Hlen Hent Hheld Hmiss].
  destruct (Nat.eqb_spec (length (queue s)) BLOCK_CACHE_SIZE) as [Hfull|Hnf].
  2: { exists s. split_and!; [done|done|lia|done]. }
  destruct (list_find _ _) as [[i e]|] eqn:Hfind.
  - apply list_find_Some in Hfind as (Hi & Hone & _).
    pose proof (list_elem_of_lookup_2 _ _ _ Hi) as Hin.
    pose proof (Hent e Hin) as Hok. destruct (sync_spec _ _ _ Hok) as (d' & -> & Hd').
    simpl. eexists. split; [done|].
    assert (queue s ≡ₚ e :: delete i (queue s)) as Hperm by (by apply delete_Permutation).
    pose proof Hnd as Hnd'. rewrite Hperm in Hnd'. simpl in Hnd'. apply NoDup_cons in Hnd' as [Hnew Hnd'].
    assert (∀ e', e' ∈ delete i (queue s) → e' ∈ queue s) as Hsub by (intros e' ?; rewrite Hperm; by right).
    split_and!; simpl.
    + split; simpl; [done| | | |].
      * rewrite length_delete by (by eexists). lia.
      * intros e' He'. eapply entry_ok_dev; [by apply Hent, Hsub| |done].
        intros Heq. apply Hnew. rewrite <- Heq. by apply list_elem_of_fmap_2.
      * intros id Hid. specialize (Hheld id Hid). rewrite Hperm in Hheld. simpl in Hheld.
        apply elem_of_cons in Hheld as [-> |]; [|done]. destruct Hok. rewrite decide_True in eo_strong0 by done.
        congruence.
      * intros id Hid. rewrite Hd'. destruct (decide (q_id e = id)) as [<-|Hne].
        { rewrite lookup_insert_eq. apply Hok. }
        rewrite lookup_insert_ne by done. apply Hmiss. rewrite Hperm. simpl. by apply not_elem_of_cons.
    + rewrite length_delete by (by eexists). lia.
    + intros id Hid Hin'. apply Hid. rewrite Hperm. simpl. by right.
  - (* sixteen entries, all referenced, but fewer than sixteen blocks held *)
    exfalso. apply list_find_None in Hfind. rewrite Forall_forall in Hfind.
    assert (size (list_to_set (q_id <$> queue s) : gset Z) ≤ size (held a))%nat as Hle.
    { apply subseteq_size. intros id Hid. apply elem_of_list_to_set, list_elem_of_fmap in Hid as (e & -> & He).
      specialize (Hfind e He). destruct (Hent e He). case_decide; [done|congruence]. }
    rewrite size_list_to_set, length_fmap in Hle by done. lia.
Qed.

Lemma lock_sim s a id b :
  cache_rel s a → id ∉ held a → (size (held a) < BLOCK_CACHE_SIZE)%nat → blocks a !! id = Some b →
  ∃ s', lock_block id s = Ok (b, s') ∧ cache_rel s' (mkDisk (blocks a) ({[id]} ∪ held a)).
Proof.
  intros Hrel Hnh Hsz Hb.
  assert (∃ d q i e, get_block_cache id s = Ok ((), mkCS d (q_update id (λ e, add_strong (S (q_strong e)) e) q)) ∧
            cache_rel (mkCS d q) a ∧ q !! i = Some e ∧ q_id e = id) as (d & q & i & e & Hget & Hrel' & Hi & Hid).
  { unfold get_block_cache. destruct (list_find _ _) as [[i e]|] eqn:Hfind.
    - apply list_find_Some in Hfind as (Hi & Hid & _). exists (dev s), (queue s), i, e. by destruct s.
    - apply find_id_None in Hfind.
      destruct (evict_sim s a Hrel Hsz) as (s1 & Hs1 & Hrel1 & Hlen1 & Hmiss1).
      change (λ e, q_strong e = 1%nat) with (λ x : QEntry, q_strong x = 1%nat) in Hs1.
      rewrite Hs1. cbn [mbind outcome_bind]. specialize (Hmiss1 _ Hfind).
      pose proof (cr_miss _ _ Hrel1 id Hmiss1) as Hdev. rewrite Hb in Hdev. symmetry in Hdev.
      unfold block_cache_new. rewrite (dev_read_spec _ _ _ Hdev). cbn [mbind outcome_bind unwrap].
      exists (dev s1), (queue s1 ++ [mkQ id (mkBC b id false) 1 false]), (length (queue s1)), (mkQ id (mkBC b id false) 1 false).
      split_and!; [| |by apply list_lookup_middle|done].
      + do 3 f_equal. unfold q_update. rewrite fmap_app. simpl. rewrite decide_True by done.
        f_equal. rewrite <- (list_fmap_id (queue s1)) at 1. apply list_fmap_ext. intros j e' He'. simpl.
        rewrite decide_False; [done|]. intros <-. apply Hmiss1, list_elem_of_fmap_2. by eapply list_elem_of_lookup_2.
      + pose proof Hrel1 as [Hnd Hlen Hent Hheld Hmiss]. split; simpl.
        * rewrite fmap_app. apply NoDup_app. split_and!; [done| |apply NoDup_singleton].
          intros j Hj ->%list_elem_of_singleton. done.
        * rewrite length_app. simpl. lia.
        * intros e' [He'| ->%list_elem_of_singleton]%elem_of_app; [by apply Hent|].
          split; simpl; try done; [by rewrite decide_False|by rewrite bool_decide_eq_false_2|by eapply dev_blocks_ok].
        * intros j Hj. rewrite fmap_app. apply elem_of_app. left. by apply Hheld.
        * intros j Hj. apply Hmiss. intros ?. apply Hj. rewrite fmap_app. apply elem_of_app. by left. }
  unfold lock_block. rewrite (M_bind_Ok _ _ _ _ _ Hget). unfold spin_lock. cbn [queue dev].
  pose proof (cr_nodup _ _ Hrel') as Hnd. cbn [queue] in Hnd.
  pose proof (list_elem_of_lookup_2 _ _ _ Hi) as Hin.
  destruct (cr_entry _ _ Hrel' e Hin) as [_ _ Hlk _ Hview _ _]. rewrite Hid in Hlk, Hview.
  set (f := λ e, add_strong (S (q_strong e)) e).
  assert (list_find (λ e', q_id e' = id) (q_update id f q) = Some (i, f e)) as ->.
  { pose proof (find_by_id (q_update id f q) i (f e)) as Hfe. change (q_id (f e)) with (q_id e) in Hfe.
    rewrite Hid in Hfe. apply Hfe; [by rewrite q_update_ids|by apply q_update_lookup]. }
  simpl. rewrite Hlk, bool_decide_eq_false_2 by done.
  assert (cache (q_cache e) = b) as -> by congruence.
  eexists. split; [done|]. rewrite q_update_compose by done.
  apply (cache_rel_update (mkCS d q) a id _ (mkDisk (blocks a) ({[id]} ∪ held a)) Hrel'); [done| | |].
  - intros e' He' Hid' []. split; simpl; rewrite ?Hid' in *; try done.
    + rewrite decide_True by set_solver. rewrite eo_strong0. by rewrite decide_False.
    + symmetry. apply bool_decide_eq_true. set_solver.
  - intros j Hj. simpl. set_solver.
  - rewrite <- Hid. by apply list_elem_of_fmap_2.
Qed.

Lemma unlock_read_sim s a id :
  cache_rel s a → id ∈ held a → ∃ s', unlock_block id None s = Ok ((), s') ∧
    cache_rel s' (mkDisk (blocks a) (held a ∖ {[id]})).
Proof.
  intros Hrel Hh. eexists. split; [done|].
  apply (cache_rel_update s a id _ (mkDisk (blocks a) (held a ∖ {[id]})) Hrel); [done| | |by apply Hrel].
  - intros e He Hid []. split; simpl; rewrite ?Hid in *; try done.
    + rewrite decide_False by set_solver. rewrite eo_strong0. by rewrite decide_True.
    + symmetry. apply bool_decide_eq_false. set_solver.
  - intros j Hj. simpl. set_solver.
Qed.

Lemma unlock_write_sim s a id b :
  cache_rel s a → id ∈ held a → block_ok b → ∃ s', unlock_block id (Some b) s = Ok ((), s') ∧
    cache_rel s' (mkDisk (<[id := b]> (blocks a)) (held a ∖ {[id]})).
Proof.
  intros Hrel Hh Hb. eexists. split; [done|].
  apply (cache_rel_update s a id _ (mkDisk (<[id := b]> (blocks a)) (held a ∖ {[id]})) Hrel);
    [done| | |by apply Hrel].
  - intros e He Hid []. split; simpl; rewrite ?Hid in *; try done.
    + rewrite decide_False by set_solver. rewrite eo_strong0. by rewrite decide_True.
    + symmetry. apply bool_decide_eq_false. set_solver.
    + apply lookup_insert_eq.
  - intros j Hj. simpl. rewrite lookup_insert_ne by done. set_solver.
Qed.

(** After a write-back every cached block is on the device. *)
Lemma sync_loop_sim a d q :
  held a = ∅ → NoDup (q_id <$> q) → (∀ e, e ∈ q → entry_ok d a e) →
  ∃ d' q', sync_loop d q = Ok (d', q') ∧ q_id <$> q' = q_id <$> q ∧
    (∀ e, e ∈ q' → entry_ok d' a e ∧ dev_blocks d' !! q_id e = Some (cache (q_cache e))) ∧
    (∀ id, id ∉ q_id <$> q → dev_blocks d' !! id = dev_blocks d !! id).
Proof.
  intros Hh. revert d. induction q as [|e q IH]; intros d Hnd Hent; simpl.
  { exists d, []. split_and!; set_solver. }
  apply NoDup_cons in Hnd as [Hnew Hnd]. assert (entry_ok d a e) as He by (apply Hent; by left).
  rewrite (eo_locked _ _ _ He), bool_decide_eq_false_2 by set_solver.
  destruct (sync_spec _ _ _ He) as (d1 & -> & Hd1). simpl.
  destruct (IH d1 Hnd) as (d' & q' & -> & Hids & Hq' & Hout).
  { intros e' He'. eapply entry_ok_dev; [apply Hent; by right| |done].
    intros Heq. apply Hnew. rewrite <- Heq. by apply list_elem_of_fmap_2. }
  assert (dev_blocks d' !! q_id e = Some (cache (q_cache e))) as Hdev
    by (by rewrite Hout, Hd1, lookup_insert_eq by done).
  simpl. eexists _, _. split; [done|]. rewrite !fmap_cons, Hids. split_and!; [done| |].
  - intros e' [->|He']%elem_of_cons; [simpl|by apply Hq']. split; [|done]. destruct He.
    split; simpl; try done; symmetry; apply bool_decide_eq_false; set_solver.
  - intros id [Hne Hid]%not_elem_of_cons. rewrite Hout by done. by rewrite Hd1, lookup_insert_ne.
Qed.

Lemma sync_all_sim s a :
  cache_rel s a → held a = ∅ → ∃ s', block_cache_sync_all s = Ok ((), s') ∧ cache_rel s' a ∧
    ∀ id, dev_blocks (dev s') !! id = blocks a !! id.
Proof.
  intros [Hnd Hlen Hent Hheld Hmiss] Hh. unfold block_cache_sync_all.
  destruct (sync_loop_sim a (dev s) (queue s) Hh Hnd Hent) as (d' & q' & -> & Hids & Hq' & Hout).
  simpl. eexists. split; [done|]. split; [split|]; simpl; rewrite ?Hids; try done.
  - rewrite <- (length_fmap q_id), Hids, length_fmap. done.
  - intros e He. by apply Hq'.
  - intros id Hid. rewrite Hout by done. by apply Hmiss.
  - intros id. destruct (decide (id ∈ q_id <$> q')) as [Hin|Hin].
    + apply list_elem_of_fmap in Hin as (e & -> & He). destruct (Hq' e He) as [Hok ->]. symmetry. apply Hok.
    + rewrite Hids in Hin. rewrite Hout by done. symmetry. by apply Hmiss.
Qed.

Lemma run_cache_sim {A} (p : prog A) s a v a' :
  cache_rel s a → run_disk p a = Ok (v, a') →
  ∃ s', run_cache p s = Ok (v, s') ∧ cache_rel s' a'.
Proof.
  revert s a. induction p as [v0|e|id k IH|id new k IH|k IH]; intros s a Hrel Hrun; simpl in *.
  - injection Hrun as <- <-. by exists s.
  - done.
  - case_decide as Hh; [done|]. case_decide as Hsz; [|done].
    destruct (blocks a !! id) as [b|] eqn:Hb; [|done].
    destruct (lock_sim s a id b Hrel Hh Hsz Hb) as (s1 & Hl & Hrel1).
    rewrite (M_bind_Ok _ _ _ _ _ Hl). by eapply IH.
  - destruct new as [b|].
    + case_decide as Hc; [destruct Hc as [Hb Hin]|done].
      destruct (unlock_write_sim s a id b Hrel Hin Hb) as (s1 & Hu & Hrel1).
      rewrite (M_bind_Ok _ _ _ _ _ Hu). by eapply IH.
    + case_decide as Hin; [|done]. destruct (unlock_read_sim s a id Hrel Hin) as (s1 & Hu & Hrel1).
      rewrite (M_bind_Ok _ _ _ _ _ Hu). by eapply IH.
  - case_decide as Hh; [|done]. destruct (sync_all_sim s a Hrel Hh) as (s1 & Hs & Hrel1 & _).
    rewrite (M_bind_Ok _ _ _ _ _ Hs). by eapply IH.
Qed.
End refinement.

(** ** A file is a block device *)
Section file.
Implicit Types (f : list Z) (id : Z).

(** Whole blocks of a file, up to the point where [block_id * 512] wraps. *)
Definition file_nblocks f : Z := Z.min (Z.of_nat (length f) / BLOCK_SZ) (2 ^ 55).
Definition file_blocks f : gmap Z block :=
  map_seqZ 0 ((λ i, slice (512 * i) 512 f) <$> seq 0 (Z.to_nat (file_nblocks f))).

Lemma lookup_file_blocks f id :
  file_blocks f !! id =
    if decide (0 ≤ id < file_nblocks f) then Some (slice (Z.to_nat (id * BLOCK_SZ)) 512 f) else None.
Proof.
  unfold file_blocks. case_decide as Hid.
  - rewrite lookup_map_seqZ_0, list_lookup_fmap, lookup_seq_lt by lia. simpl.
    do 2 f_equal. unfold BLOCK_SZ. lia.
  - apply lookup_map_seqZ_None. rewrite length_fmap, length_seq. lia.
Qed.

Lemma file_block_inside f id :
  0 ≤ id < file_nblocks f →
  u64 (id * BLOCK_SZ) = id * BLOCK_SZ ∧ (Z.to_nat (id * BLOCK_SZ) + 512 ≤ length f)%nat.
Proof. unfold file_nblocks, BLOCK_SZ. intros Hid. split; [apply u64_id; unfold is_u64|]; dlia. Qed.

Lemma file_write_splice f pos new :
  (Z.to_nat pos + length new ≤ length f)%nat → file_write f pos new = splice (Z.to_nat pos) new f.
Proof.
  intros Hl. unfold file_write, splice. f_equal.
  replace (Z.to_nat pos - length f)%nat with 0%nat by lia. by rewrite app_nil_r.
Qed.

Lemma file_blocks_write f id b :
  0 ≤ id < file_nblocks f → block_ok b →
  file_blocks (splice (Z.to_nat (id * BLOCK_SZ)) b f) = <[id := b]> (file_blocks f).
Proof.
  intros Hid Hb. destruct (file_block_inside f id Hid) as [_ Hin].
  unfold block_ok in Hb. change (Z.to_nat BLOCK_SZ) with 512%nat in Hb.
  assert (file_nblocks (splice (Z.to_nat (id * BLOCK_SZ)) b f) = file_nblocks f) as Hn.
  { unfold file_nblocks. rewrite length_splice by lia. done. }
  apply map_eq. intros j. rewrite lookup_file_blocks, Hn. destruct (decide (id = j)) as [<-|Hne].
  - rewrite decide_True, lookup_insert_eq by done. f_equal. rewrite <- Hb.
    apply slice_splice_same. lia.
  - rewrite lookup_insert_ne, lookup_file_blocks by done. case_decide as Hj; [|done]. f_equal.
    destruct (file_block_inside f j Hj) as [_ Hinj].
    apply slice_splice_disjoint; unfold BLOCK_SZ in *; lia.
Qed.

#[global, program] Instance BlockFile_laws : BlockDeviceLaws BlockFile := {
  dev_blocks d := file_blocks (file_bytes d);
}.
Next Obligation.
  intros d id b. simpl. rewrite lookup_file_blocks. case_decide as Hid; [|done]. intros [= <-].
  apply length_slice, (file_block_inside _ _ Hid).
Qed.
Next Obligation.
  intros d id b. simpl. rewrite lookup_file_blocks. case_decide as Hid; [|done]. intros [= <-].
  destruct (file_block_inside _ _ Hid) as [-> Hin]. unfold file_read.
  rewrite decide_True; [done|]. by apply length_slice.
Qed.
Next Obligation.
  intros d id b [b' Hb'] Hb. simpl in *. rewrite lookup_file_blocks in Hb'. case_decide as Hid; [|done].
  destruct (file_block_inside _ _ Hid) as [-> Hin]. rewrite decide_True by done. eexists. split; [done|].
  simpl. rewrite file_write_splice; [by apply file_blocks_write|]. unfold block_ok in Hb. rewrite Hb. done.
Qed.
End file.

(** C3 The cache is transparent.  On any device that obeys the block-device
    laws, a program of block accesses that succeeds on the plain map of blocks
    succeeds when run through the 16-entry cache with eviction, reference counts
    and spin locks, returns the same value and shows the same blocks; there is
    always an unreferenced entry to evict while fewer than 16 blocks are locked. *)
Theorem cache_transparent `{BlockDeviceLaws D} {A} (p : prog A) (d : D) v a' :
  run_disk p (mkDisk (dev_blocks d) ∅) = Ok (v, a') →
  ∃ s', run_cache p (mkCS d []) = Ok (v, s') ∧ cache_rel s' a'.
Proof. intros Hrun. eapply run_cache_sim; [apply cache_rel_init|done]. Qed.

Lemma run_disk_bind {A B} (p : prog A) (f : A → prog B) s :
  run_disk (p ≫= f) s = (run_disk p ≫= λ a, run_disk (f a)) s.
Proof.
  revert s. induction p as [a|e|id k IH|id new k IH|k IH]; intros s; [done|done| | |].
  - cbn [run_disk mbind prog_bind]. unfold mbind, M_bind. repeat case_decide; try done.
    destruct (blocks s !! id); [|done]. apply IH.
  - cbn [run_disk mbind prog_bind]. unfold mbind, M_bind.
    destruct new as [b|]; case_decide; try done; apply IH.
  - cbn [run_disk mbind prog_bind]. unfold mbind, M_bind. case_decide; [apply IH|done].
Qed.

Lemma run_cache_bind `{BlockDevice D} {A B} (p : prog A) (f : A → prog B) (s : CacheState D) :
  run_cache (p ≫= f) s = (run_cache p ≫= λ a, run_cache (f a)) s.
Proof.
  revert s. induction p as [a|e|id k IH|id new k IH|k IH]; intros s; [done|done| | |];
    cbn [run_cache mbind prog_bind]; unfold mbind, M_bind.
  - destruct (lock_block id s) as [[b s']|]; [apply IH|done].
  - destruct (unlock_block id new s) as [[u s']|]; [apply IH|done].
  - destruct (block_cache_sync_all s) as [[u s']|]; [apply IH|done].
Qed.

(** C6 Nothing is lost across a restart once the caches are synced: after a
    program followed by [block_cache_sync_all] the device itself holds exactly
    the blocks the program left, so a new, empty cache over it sees them. *)
Theorem sync_all_durable `{BlockDeviceLaws D} {A} (p : prog A) (d : D) v a' :
  run_disk p (mkDisk (dev_blocks d) ∅) = Ok (v, a') → held a' = ∅ →
  ∃ s', run_cache (p ≫= λ v, SyncAll (Ret v)) (mkCS d []) = Ok (v, s') ∧
    dev_blocks (dev s') = blocks a' ∧ cache_rel (mkCS (dev s') []) a'.
Proof.
  intros Hrun Hh.
  destruct (run_cache_sim p _ _ _ _ (cache_rel_init d) Hrun) as (s1 & Hp & Hrel).
  destruct (sync_all_sim s1 a' Hrel Hh) as (s2 & Hs & Hrel2 & Hdev).
  exists s2. assert (dev_blocks (dev s2) = blocks a') as Hd by (apply map_eq, Hdev).
  split_and!; [|done|].
  - rewrite run_cache_bind, (M_bind_Ok _ _ _ _ _ Hp). simpl. by rewrite (M_bind_Ok _ _ _ _ _ Hs).
  - destruct a' as [bl h]; simpl in *. subst bl h. apply cache_rel_init.
Qed.

(** A file of twenty blocks, and a program that dirties more blocks than the
    cache holds, so that eviction writes back. *)
Definition sample_file : BlockFile := mkFile (replicate (20 * 512) 7).
Fixpoint fill_blocks (n : nat) (v : Z) : prog () :=
  match n with
  | O => Ret ()
  | S n' => modify (Z.of_nat n') 0 512 (λ b, Ret ((), replicate 512 v)) ≫= λ _, fill_blocks n' v
  end.

Lemma cache_transparent_witness :
  ∃ s', run_cache (fill_blocks 20 9) (mkCS sample_file []) = Ok ((), s') ∧
    ∃ a', run_disk (fill_blocks 20 9) (mkDisk (dev_blocks sample_file) ∅) = Ok ((), a') ∧ cache_rel s' a'.
Proof.
  destruct (run_disk (fill_blocks 20 9) (mkDisk (dev_blocks sample_file) ∅)) as [[v a']|e] eqn:E.
  - destruct (cache_transparent (fill_blocks 20 9) sample_file v a' E) as (s' & Hs & Hr).
    destruct v. exists s'. split; [exact Hs|]. exists a'. split; [reflexivity|exact Hr].
  - exfalso. revert E. vm_compute. discriminate.
Defined.

Lemma sync_all_durable_witness :
  ∃ s', run_cache (fill_blocks 20 9 ≫= λ v, SyncAll (Ret v)) (mkCS sample_file []) = Ok ((), s') ∧
    dev_blocks (dev s') !! 3 = Some (replicate 512 9).
Proof.
  destruct (run_disk (fill_blocks 20 9) (mkDisk (dev_blocks sample_file) ∅)) as [[v a']|e] eqn:E.
  - destruct (sync_all_durable (fill_blocks 20 9) sample_file v a' E) as (s' & Hs & Hd & _).
    + assert (Some (held a') = Some ∅) as [= H]; [|exact H].
      transitivity (match run_disk (fill_blocks 20 9) (mkDisk (dev_blocks sample_file) ∅) with
                    | Ok (_, a) => Some (held a) | Err _ => None end); [by rewrite E|vm_compute; reflexivity].
    + destruct v. exists s'. split; [exact Hs|]. rewrite Hd.
      transitivity (match run_disk (fill_blocks 20 9) (mkDisk (dev_blocks sample_file) ∅) with
                    | Ok (_, a) => blocks a !! 3 | Err _ => None end); [by rewrite E|vm_compute; reflexivity].
  - exfalso. revert E. vm_compute. discriminate.
Defined.
