(* ===== verification/DiskLogic.v ===== *)
(** * Reasoning about block programs

    [wp p h m Q]: run on the block map [m] while the blocks [h] are locked, the
    program [p] ends normally, releases every lock it took and leaves a result
    and a block map that satisfy [Q].  This is total correctness: no panic, no
    deadlock.  The lemmas are the proof rules for the [read]/[modify] idiom. *)
From S2P Require Import Prelude Bytes BlockCache.

Abbreviation bmap := (gmap Z (list Z)) (only parsing).

Definition wp {A} (p : prog A) (h : gset Z) (m : bmap) (Q : A → bmap → Prop) : Prop :=
  ∃ a m', run_disk p (mkDisk m h) = Ok (a, mkDisk m' h) ∧ Q a m'.

(** Every block has 512 bytes. *)
Definition disk_ok (m : bmap) : Prop := ∀ id b, m !! id = Some b → block_ok b ∧ Forall is_byte b.

(** Block [id] may be locked and holds [b]. *)
Definition lockable (h : gset Z) (m : bmap) (id : Z) (b : block) : Prop :=
  m !! id = Some b ∧ id ∉ h ∧ (size h < BLOCK_CACHE_SIZE)%nat.

Lemma wp_mono {A} (p : prog A) h m (Q Q' : A → bmap → Prop) :
  wp p h m Q → (∀ a m', Q a m' → Q' a m') → wp p h m Q'.
Proof. intros (a & m' & Hr & HQ) Himp. exists a, m'. auto. Qed.

(** Runs are deterministic. *)
Lemma wp_and {A} (p : prog A) h m (Q Q' : A → bmap → Prop) :
  wp p h m Q → wp p h m Q' → wp p h m (λ a m', Q a m' ∧ Q' a m').
Proof. intros (a & m' & Hr & HQ) (a' & m'' & Hr' & HQ'). exists a, m'. rewrite Hr in Hr'. by injection Hr' as <- <-. Qed.

Section rules.
Context {A : Type}.
Implicit Types (p : prog A) (h : gset Z) (m : bmap) (Q : A → bmap → Prop).

Lemma wp_ret a h m Q : Q a m → wp (mret a) h m Q.
Proof. intros HQ. by exists a, m. Qed.

Lemma wp_bind {B} (p : prog B) (f : B → prog A) h m Q :
  wp p h m (λ b m', wp (f b) h m' Q) → wp (p ≫= f) h m Q.
Proof.
  intros (b & m1 & Hr & a & m2 & Hf & HQ). exists a, m2. split; [|done].
  rewrite run_disk_bind, (M_bind_Ok _ _ _ _ _ Hr). done.
Qed.

Lemma wp_liftp {B} (o : outcome B) b (f : B → prog A) h m Q :
  o = Ok b → wp (f b) h m Q → wp (liftp o ≫= f) h m Q.
Proof. intros -> Hf. done. Qed.

Lemma wp_sync h m : h = ∅ → wp sync_all h m (λ _ m', m' = m).
Proof. intros ->. exists (), m. split; [|done]. simpl. by rewrite decide_True. Qed.

Lemma held_release id h : id ∉ h → ({[id]} ∪ h) ∖ {[id]} = h.
Proof. set_solver. Qed.

Lemma in_block_ok offset sz : 0 ≤ offset → 0 ≤ sz → offset + sz ≤ BLOCK_SZ → in_block offset sz = Ok ().
Proof.
  intros Ho Hs Hb. unfold in_block. rewrite u64_id by (unfold is_u64, BLOCK_SZ in *; lia).
  by rewrite (proj2 (Z.leb_le _ _)).
Qed.

Lemma wp_read id offset sz b (f : list Z → prog A) h m Q :
  lockable h m id b → 0 ≤ offset → 0 ≤ sz → offset + sz ≤ BLOCK_SZ →
  wp (f (bytes_at offset sz b)) ({[id]} ∪ h) m Q → wp (read id offset sz f) h m Q.
Proof.
  intros (Hm & Hh & Hsz) Ho Hs Hb (a & m' & Hf & HQ). exists a, m'. split; [|done].
  unfold read. cbn [run_disk blocks held]. rewrite decide_False, decide_True, Hm by done.
  rewrite in_block_ok by done. rewrite run_disk_bind. cbn [liftp].
  rewrite (M_bind_Ok _ _ _ () _ eq_refl), run_disk_bind, (M_bind_Ok _ _ _ _ _ Hf).
  cbn [run_disk blocks held]. rewrite decide_True by set_solver. by rewrite held_release.
Qed.

Lemma wp_modify id offset sz b (f : list Z → prog (A * list Z)) h m Q :
  lockable h m id b → block_ok b → 0 ≤ offset → 0 ≤ sz → offset + sz ≤ BLOCK_SZ →
  wp (f (bytes_at offset sz b)) ({[id]} ∪ h) m (λ '(v, new) m',
    length new = Z.to_nat sz ∧ Q v (<[id := splice (Z.to_nat offset) new b]> m')) →
  wp (modify id offset sz f) h m Q.
Proof.
  intros (Hm & Hh & Hsz) Hblk Ho Hs Hb ([v new] & m' & Hf & Hlen & HQ). eexists v, _. split; [|exact HQ].
  unfold modify. cbn [run_disk blocks held]. rewrite decide_False, decide_True, Hm by done.
  rewrite in_block_ok by done. rewrite run_disk_bind. cbn [liftp].
  rewrite (M_bind_Ok _ _ _ () _ eq_refl), run_disk_bind, (M_bind_Ok _ _ _ _ _ Hf).
  cbn [run_disk blocks held]. rewrite decide_True.
  - by rewrite held_release.
  - split; [|set_solver]. unfold block_ok, BLOCK_SZ in *. rewrite length_splice; lia.
Qed.

(** The common case: the whole block is read, or replaced. *)
Lemma bytes_at_whole b : block_ok b → bytes_at 0 BLOCK_SZ b = b.
Proof. intros Hb. unfold bytes_at. unfold block_ok in Hb. rewrite <- Hb. apply slice_all. Qed.

Lemma splice_whole b new : block_ok b → length new = length b → splice 0 new b = new.
Proof.
  intros Hb Hl. unfold splice. rewrite take_0. simpl. rewrite drop_ge by lia. apply app_nil_r.
Qed.

Lemma wp_read_block id b (f : list Z → prog A) h m Q :
  lockable h m id b → block_ok b →
  wp (f b) ({[id]} ∪ h) m Q → wp (read id 0 BLOCK_SZ f) h m Q.
Proof.
  intros Hl Hb Hf. eapply wp_read; [exact Hl|done|done|done|]. by rewrite bytes_at_whole.
Qed.

Lemma wp_modify_block id b (f : list Z → prog (A * list Z)) h m Q :
  lockable h m id b → block_ok b →
  wp (f b) ({[id]} ∪ h) m (λ '(v, new) m', block_ok new ∧ Q v (<[id := new]> m')) →
  wp (modify id 0 BLOCK_SZ f) h m Q.
Proof.
  intros Hl Hb Hf. eapply wp_modify; [exact Hl|done|done|done|done|].
  rewrite bytes_at_whole by done. eapply wp_mono; [exact Hf|].
  intros [v new] m' [Hn HQ]. split; [done|]. change (Z.to_nat 0) with 0%nat.
  rewrite splice_whole; [done|done|]. unfold block_ok in *. lia.
Qed.
End rules.

Lemma disk_ok_insert m id b : disk_ok m → block_ok b → Forall is_byte b → disk_ok (<[id := b]> m).
Proof.
  intros Hd Hb Hbytes j b' [[-> <-]|[_ Hj]]%lookup_insert_Some; [done|]. by eapply Hd.
Qed.

Lemma held_add_size id (h : gset Z) : (size ({[id]} ∪ h) ≤ S (size h))%nat.
Proof. rewrite size_union_alt, size_singleton. pose proof (subseteq_size (h ∖ {[id]}) h ltac:(set_solver)). lia. Qed.

#[export] Hint Resolve disk_ok_insert : rcore.

(** A disk of [n] zero blocks numbered from [start]. *)
Definition zero_block : block := replicate (Z.to_nat BLOCK_SZ) 0.
Definition zero_disk (start : Z) (n : nat) : bmap := map_seqZ start (replicate n zero_block).

Lemma zero_block_ok : block_ok zero_block ∧ Forall is_byte zero_block.
Proof. split; [apply length_replicate|]. apply Forall_replicate. unfold is_byte. lia. Qed.

Lemma zero_disk_lookup start n id b :
  zero_disk start n !! id = Some b ↔ start ≤ id < start + Z.of_nat n ∧ b = zero_block.
Proof.
  unfold zero_disk. rewrite lookup_map_seqZ_Some, lookup_replicate. split; [lia || intuition lia|].
  intros [Hid ->]. split; [lia|]. split; [done|lia].
Qed.

Lemma zero_disk_ok start n : disk_ok (zero_disk start n).
Proof. intros id b [_ ->]%zero_disk_lookup. apply zero_block_ok. Qed.
