(* ===== verification/Bitmap.v ===== *)
(** * Allocation bitmaps (easy-fs/src/bitmap.rs)

    A bitmap occupies consecutive blocks, each seen as 64 words of 64 bits.
    [bm_bit] is its abstract contents, a set of bit numbers; [bitmap_alloc]
    takes the least number not in the set and [bitmap_dealloc] removes one. *)
From S2P Require Import Prelude Bytes BlockCache DiskLogic.

Definition BLOCK_BITS : Z := BLOCK_SZ * 8.

Record Bitmap := mkBitmap { start_block_id : Z; bm_blocks : Z }.

(** [u64::trailing_ones] *)
Fixpoint trailing_ones_loop (fuel : nat) (w : Z) : Z :=
  match fuel with
  | O => 0
  | S fuel' => if Z.odd w then 1 + trailing_ones_loop fuel' (w / 2) else 0
  end.
Definition trailing_ones (w : Z) : Z := trailing_ones_loop 64 w.

(** The closure [alloc] runs on one bitmap block. *)
Definition alloc_in_block (idx : Z) (b : block) : option Z * block :=
  let bitmap_block := words_dec 8 64 b in
  match list_find (λ bits64, bits64 ≠ U64_MAX) bitmap_block with
  | Some (bits64_pos, bits64) =>
      let inner_pos := trailing_ones bits64 in
      (Some (u64 (idx * BLOCK_BITS + Z.of_nat bits64_pos * 64 + inner_pos)),
       words_enc 8 (<[bits64_pos := Z.lor bits64 (u64 (Z.shiftl 1 inner_pos))]> bitmap_block))
  | None => (None, b)
  end.

Fixpoint bitmap_alloc_loop (bm : Bitmap) (n : nat) (idx : Z) : prog (option Z) :=
  match n with
  | O => mret None
  | S n' =>
      modify (u64 (idx + start_block_id bm)) 0 BLOCK_SZ (λ b, mret (alloc_in_block idx b)) ≫= λ pos,
      match pos with
      | Some _ => mret pos
      | None => bitmap_alloc_loop bm n' (idx + 1)
      end
  end.
Definition bitmap_alloc (bm : Bitmap) : prog (option Z) :=
  bitmap_alloc_loop bm (Z.to_nat (bm_blocks bm)) 0.

Definition decompsition (bit : Z) : Z * Z * Z :=
  let block_pos := bit / BLOCK_BITS in
  let bit := bit mod BLOCK_BITS in
  (block_pos, bit / 64, bit mod 64).

Definition clear_in_block (bits64_pos inner_pos : Z) (b : block) : outcome block :=
  let bitmap_block := words_dec 8 64 b in
  w ← unwrap (bitmap_block !! Z.to_nat bits64_pos);
  _ ← assert (0 <? Z.land w (Z.shiftl 1 inner_pos));
  Ok (words_enc 8 (<[Z.to_nat bits64_pos := Z.ldiff w (Z.shiftl 1 inner_pos)]> bitmap_block)).

Definition bitmap_dealloc (bm : Bitmap) (bit : Z) : prog () :=
  let '(block_pos, bits64_pos, inner_pos) := decompsition bit in
  modify (u64 (block_pos + start_block_id bm)) 0 BLOCK_SZ (λ b,
    liftp (clear_in_block bits64_pos inner_pos b) ≫= λ b', mret ((), b')).

Definition maxmium (bm : Bitmap) : Z := u64 (bm_blocks bm * BLOCK_BITS).

(** ** Words *)
Lemma testbit_half w k : 0 ≤ k → Z.testbit (w / 2) k = Z.testbit w (k + 1).
Proof. intros Hk. change 2 with (2 ^ 1) at 1. by rewrite Z.div_pow2_bits. Qed.

Lemma trailing_ones_loop_bits fuel w k :
  0 ≤ k < trailing_ones_loop fuel w → Z.testbit w k = true.
Proof.
  revert w k. induction fuel as [|fuel IH]; intros w k Hk; simpl in Hk; [lia|].
  destruct (Z.odd w) eqn:Ho; [|lia]. destruct (decide (k = 0)) as [->|Hne]; [by rewrite Z.bit0_odd|].
  replace k with ((k - 1) + 1) by lia. rewrite <- testbit_half by lia. apply IH. lia.
Qed.

Lemma trailing_ones_loop_range fuel w : 0 ≤ trailing_ones_loop fuel w ≤ Z.of_nat fuel.
Proof.
  revert w. induction fuel as [|fuel IH]; intros w; simpl; [lia|].
  specialize (IH (w / 2)). case_match; lia.
Qed.

Lemma trailing_ones_loop_stop fuel w :
  trailing_ones_loop fuel w < Z.of_nat fuel → Z.testbit w (trailing_ones_loop fuel w) = false.
Proof.
  revert w. induction fuel as [|fuel IH]; intros w Hlt; simpl in *; [lia|].
  destruct (Z.odd w) eqn:Ho; [|by rewrite Z.bit0_odd].
  pose proof (trailing_ones_loop_range fuel (w / 2)).
  rewrite Z.add_comm, <- testbit_half by lia. apply IH. lia.
Qed.

Lemma all_ones w : is_u64 w → (∀ k, 0 ≤ k < 64 → Z.testbit w k = true) → w = U64_MAX.
Proof.
  intros Hw Hall. unfold U64_MAX. change (2 ^ 64 - 1) with (Z.ones 64).
  apply Z.bits_inj'. intros k Hk. destruct (decide (k < 64)).
  - rewrite Z.ones_spec_low by lia. apply Hall. lia.
  - rewrite Z.ones_spec_high by lia. unfold is_u64 in Hw.
    apply (bits_above w 64); [done|lia].
Qed.

Lemma trailing_ones_spec w :
  is_u64 w → w ≠ U64_MAX →
  0 ≤ trailing_ones w < 64 ∧ Z.testbit w (trailing_ones w) = false ∧
  ∀ k, 0 ≤ k < trailing_ones w → Z.testbit w k = true.
Proof.
  intros Hw Hne. unfold trailing_ones. pose proof (trailing_ones_loop_range 64 w) as Hr.
  assert (trailing_ones_loop 64 w < 64) as Hlt.
  { destruct (decide (trailing_ones_loop 64 w < 64)); [done|]. destruct Hne. apply all_ones; [done|].
    intros k Hk. apply (trailing_ones_loop_bits 64). lia. }
  split_and!; [lia|lia| |].
  - apply trailing_ones_loop_stop. lia.
  - intros k Hk. by apply (trailing_ones_loop_bits 64).
Qed.

Lemma u64_max_bits k : 0 ≤ k < 64 → Z.testbit U64_MAX k = true.
Proof. intros. unfold U64_MAX. change (2 ^ 64 - 1) with (Z.ones 64). apply Z.ones_spec_low. lia. Qed.

Lemma lor_bit_range w k : is_u64 w → 0 ≤ k < 64 → is_u64 (Z.lor w (u64 (Z.shiftl 1 k))).
Proof.
  unfold is_u64. intros Hw Hk. rewrite Z.shiftl_1_l. rewrite u64_id.
  - assert (0 ≤ Z.lor w (2 ^ k)) by (apply Z.lor_nonneg; lia). split; [done|].
    apply lt_pow2_bits; [lia|done|]. intros j Hj.
    rewrite Z.lor_spec, Z.pow2_bits_false by lia. by rewrite (bits_above w 64).
  - split; [lia|]. apply Z.pow_lt_mono_r; lia.
Qed.

Lemma lor_bit_testbit w k j : 0 ≤ k < 64 → 0 ≤ j →
  Z.testbit (Z.lor w (u64 (Z.shiftl 1 k))) j = (j =? k) || Z.testbit w j.
Proof.
  intros Hk Hj. rewrite Z.shiftl_1_l, u64_id; [|split; [lia|apply Z.pow_lt_mono_r; lia]].
  rewrite Z.lor_spec, Z.pow2_bits_eqb by lia. rewrite orb_comm. f_equal. apply Z.eqb_sym.
Qed.

Lemma ldiff_bit_testbit w k j : 0 ≤ k → 0 ≤ j →
  Z.testbit (Z.ldiff w (Z.shiftl 1 k)) j = negb (j =? k) && Z.testbit w j.
Proof.
  intros Hk Hj. rewrite Z.shiftl_1_l, Z.ldiff_spec, Z.pow2_bits_eqb by lia.
  rewrite andb_comm. do 2 f_equal. apply Z.eqb_sym.
Qed.

Lemma ldiff_range w v : is_u64 w → 0 ≤ v → is_u64 (Z.ldiff w v).
Proof.
  unfold is_u64. intros Hw Hv. assert (0 ≤ Z.ldiff w v) by (apply Z.ldiff_nonneg; lia).
  split; [done|]. apply lt_pow2_bits; [lia|done|]. intros k Hk.
  by rewrite Z.ldiff_spec, (bits_above w 64) by done.
Qed.

Lemma land_bit_pos w k : is_u64 w → 0 ≤ k → (0 <? Z.land w (Z.shiftl 1 k)) = Z.testbit w k.
Proof.
  intros Hw Hk. rewrite Z.shiftl_1_l.
  assert (Z.land w (2 ^ k) = if Z.testbit w k then 2 ^ k else 0) as ->.
  { apply Z.bits_inj'. intros j Hj. rewrite Z.land_spec, Z.pow2_bits_eqb by lia.
    destruct (Z.eqb_spec k j) as [->|Hne].
    - destruct (Z.testbit w j) eqn:E; [by rewrite Z.pow2_bits_true|by rewrite Z.bits_0].
    - rewrite andb_false_r. destruct (Z.testbit w k); [by rewrite Z.pow2_bits_false|by rewrite Z.bits_0]. }
  destruct (Z.testbit w k); [apply Z.ltb_lt; lia|done].
Qed.

(** ** Bits of a block *)
Definition word_bit (ws : list Z) (k : Z) : bool :=
  match ws !! Z.to_nat (k / 64) with Some w => Z.testbit w (k mod 64) | None => false end.
Definition block_bit (b : block) (k : Z) : bool := word_bit (words_dec 8 64 b) k.

Lemma word_bit_insert ws i w k :
  (i < length ws)%nat → 0 ≤ k →
  word_bit (<[i := w]> ws) k = if decide (k / 64 = Z.of_nat i) then Z.testbit w (k mod 64) else word_bit ws k.
Proof.
  intros Hi Hk. unfold word_bit. case_decide as Hd.
  - rewrite Hd, Nat2Z.id. by rewrite list_lookup_insert_eq.
  - rewrite list_lookup_insert_ne; [done|]. intros ->. apply Hd. rewrite Z2Nat.id; dlia.
Qed.

Section block_bits.
Context (b : block) (Hb : block_ok b) (Hbytes : Forall is_byte b).
Let ws := words_dec 8 64 b.

Lemma bitmap_words_u64 i w : ws !! i = Some w → is_u64 w ∧ (i < 64)%nat.
Proof.
  intros Hi. split.
  - assert (Forall (λ v, 0 ≤ v < 256 ^ Z.of_nat 8) ws) as Hf by (by apply words_dec_range).
    rewrite Forall_lookup in Hf. apply (Hf i w Hi).
  - apply lookup_lt_Some in Hi. unfold ws in Hi. by rewrite length_words_dec in Hi.
Qed.

Lemma block_bit_update i w k :
  (i < 64)%nat → is_u64 w → 0 ≤ k →
  block_ok (words_enc 8 (<[i := w]> ws)) ∧ Forall is_byte (words_enc 8 (<[i := w]> ws)) ∧
  block_bit (words_enc 8 (<[i := w]> ws)) k =
    if decide (k / 64 = Z.of_nat i) then Z.testbit w (k mod 64) else block_bit b k.
Proof.
  intros Hi Hw Hk. assert (length ws = 64%nat) as Hl by apply length_words_dec.
  split_and!; [|apply words_enc_bytes|].
  - unfold block_ok. rewrite length_words_enc, length_insert, Hl. done.
  - unfold block_bit. pose proof (words_dec_enc 8 (<[i := w]> ws) []) as Hd.
    rewrite app_nil_r, length_insert, Hl in Hd. rewrite Hd.
    + unfold block_bit. fold ws. apply word_bit_insert; [by rewrite Hl|done].
    + apply Forall_insert; [by apply words_dec_range|]. exact Hw.
Qed.

Lemma alloc_in_block_spec idx :
  0 ≤ idx < 2 ^ 32 →
  match alloc_in_block idx b with
  | (Some n, b') =>
      ∃ k, n = idx * BLOCK_BITS + k ∧ 0 ≤ k < BLOCK_BITS ∧ block_bit b k = false ∧
        (∀ j, 0 ≤ j < k → block_bit b j = true) ∧ block_ok b' ∧ Forall is_byte b' ∧
        ∀ j, 0 ≤ j → block_bit b' j = (j =? k) || block_bit b j
  | (None, b') => b' = b ∧ ∀ j, 0 ≤ j < BLOCK_BITS → block_bit b j = true
  end.
Proof.
  intros Hidx. unfold alloc_in_block, BLOCK_BITS, BLOCK_SZ in *. fold ws.
  destruct (list_find _ ws) as [[i w]|] eqn:Hfind.
  - apply list_find_Some in Hfind as (Hi & Hne & Hbefore).
    destruct (bitmap_words_u64 i w Hi) as [Hw Hi64].
    destruct (trailing_ones_spec w Hw Hne) as (Ht & Hclear & Hset).
    set (t := trailing_ones w) in *. exists (Z.of_nat i * 64 + t).
    rewrite u64_id by (unfold is_u64; lia).
    assert (∀ j, 0 ≤ j → j / 64 = Z.of_nat i → block_bit b j = Z.testbit w (j mod 64)) as Hword.
    { intros j Hj Hji. unfold block_bit, word_bit. fold ws. by rewrite Hji, Nat2Z.id, Hi. }
    split_and!; [lia|lia|lia| | |apply (block_bit_update i _ 0); [done|by apply lor_bit_range|lia] |
                  apply (block_bit_update i _ 0); [done|by apply lor_bit_range|lia] |].
    + rewrite Hword by (clear -Ht; dlia). replace (_ mod 64) with t by (clear -Ht; dlia). done.
    + intros j Hj. destruct (decide (j / 64 = Z.of_nat i)) as [Hd|Hd].
      { rewrite Hword by (done || lia). apply Hset. clear -Hd Hj Ht. dlia. }
      unfold block_bit, word_bit. fold ws. assert (j / 64 < Z.of_nat i) as Hlt by (clear -Hd Hj Ht; dlia).
      destruct (lookup_lt_is_Some_2 ws (Z.to_nat (j / 64))) as [w' Hw'].
      { unfold ws. rewrite length_words_dec. lia. }
      rewrite Hw'. assert (¬ w' ≠ U64_MAX) as Hmax%dec_stable.
      { apply (Hbefore _ _ Hw'). clear -Hlt Hj. dlia. }
      rewrite Hmax. apply u64_max_bits. dlia.
    + intros j Hj. destruct (block_bit_update i (Z.lor w (u64 (Z.shiftl 1 t))) j) as (_ & _ & ->);
        [done|by apply lor_bit_range|done|].
      case_decide as Hd.
      * rewrite lor_bit_testbit, Hword by (done || dlia). f_equal.
        destruct (Z.eqb_spec (j mod 64) t), (Z.eqb_spec j (Z.of_nat i * 64 + t)); try done; dlia.
      * destruct (Z.eqb_spec j (Z.of_nat i * 64 + t)); [|done]. destruct Hd. subst j. clear -Ht. dlia.
  - split; [done|]. intros j Hj. apply list_find_None in Hfind. rewrite Forall_forall in Hfind.
    unfold block_bit, word_bit. fold ws. destruct (lookup_lt_is_Some_2 ws (Z.to_nat (j / 64))) as [w Hw].
    { unfold ws. rewrite length_words_dec. dlia. }
    rewrite Hw. assert (¬ w ≠ U64_MAX) as ->%dec_stable; [|apply u64_max_bits; dlia].
    apply Hfind. by eapply list_elem_of_lookup_2.
Qed.

Lemma clear_in_block_spec k :
  0 ≤ k < BLOCK_BITS →
  if block_bit b k then
    ∃ b', clear_in_block (k / 64) (k mod 64) b = Ok b' ∧ block_ok b' ∧ Forall is_byte b' ∧
      ∀ j, 0 ≤ j → block_bit b' j = negb (j =? k) && block_bit b j
  else clear_in_block (k / 64) (k mod 64) b = Err Panicked.
Proof.
  unfold BLOCK_BITS, BLOCK_SZ. intros Hk. unfold clear_in_block. fold ws.
  destruct (lookup_lt_is_Some_2 ws (Z.to_nat (k / 64))) as [w Hw].
  { unfold ws. rewrite length_words_dec. dlia. }
  destruct (bitmap_words_u64 _ w Hw) as [Hr Hi].
  assert (block_bit b k = Z.testbit w (k mod 64)) as -> by (unfold block_bit, word_bit; fold ws; by rewrite Hw).
  rewrite Hw. cbn [unwrap mbind outcome_bind]. rewrite land_bit_pos by (done || dlia).
  destruct (Z.testbit w (k mod 64)) eqn:Hbit; [|done]. cbn [assert mbind outcome_bind].
  assert (is_u64 (Z.ldiff w (Z.shiftl 1 (k mod 64)))) as Hr'.
  { apply ldiff_range; [done|]. rewrite Z.shiftl_nonneg. lia. }
  eexists. split; [done|]. split_and!; [by apply (block_bit_update _ _ 0)|by apply (block_bit_update _ _ 0)|].
  intros j Hj. destruct (block_bit_update (Z.to_nat (k / 64)) (Z.ldiff w (Z.shiftl 1 (k mod 64))) j) as (_ & _ & ->);
    [done|done|done|].
  rewrite Z2Nat.id by dlia. case_decide as Hd.
  - rewrite ldiff_bit_testbit by dlia.
    assert (block_bit b j = Z.testbit w (j mod 64)) as ->
      by (unfold block_bit, word_bit; fold ws; by rewrite Hd, Hw).
    do 2 f_equal. destruct (Z.eqb_spec (j mod 64) (k mod 64)), (Z.eqb_spec j k); try done; dlia.
  - destruct (Z.eqb_spec j k); [congruence|done].
Qed.
End block_bits.

(** ** The bitmap as a set of numbers *)
Definition bm_bit (m : bmap) (bm : Bitmap) (n : Z) : bool :=
  match m !! (start_block_id bm + n / BLOCK_BITS) with
  | Some b => block_bit b (n mod BLOCK_BITS)
  | None => false
  end.
Definition bm_range (bm : Bitmap) (n : Z) : Prop := 0 ≤ n < bm_blocks bm * BLOCK_BITS.
Definition in_bitmap (bm : Bitmap) (id : Z) : Prop :=
  start_block_id bm ≤ id < start_block_id bm + bm_blocks bm.

(** The blocks of the bitmap exist and none of them is locked. *)
Record bitmap_ok (h : gset Z) (m : bmap) (bm : Bitmap) : Prop := {
  bo_start : 0 ≤ start_block_id bm;
  bo_blocks : 0 ≤ bm_blocks bm;
  bo_hi : start_block_id bm + bm_blocks bm < 2 ^ 32;
  bo_present : ∀ id, in_bitmap bm id → is_Some (m !! id);
  bo_held : ∀ id, in_bitmap bm id → id ∉ h;
  bo_depth : (size h < BLOCK_CACHE_SIZE)%nat;
}.

(** What an update of one bit means for the whole disk. *)
Record bit_updated (bm : Bitmap) (n : Z) (v : bool) (m m' : bmap) : Prop := {
  bu_bits : ∀ k, bm_range bm k → bm_bit m' bm k = if k =? n then v else bm_bit m bm k;
  bu_frame : ∀ id, ¬ in_bitmap bm id → m' !! id = m !! id;
  bu_dom : ∀ id, is_Some (m' !! id) ↔ is_Some (m !! id);
  bu_ok : disk_ok m';
}.

Section bitmap.
Context (h : gset Z) (m : bmap) (bm : Bitmap) (Hok : bitmap_ok h m bm) (Hdisk : disk_ok m).

Lemma bitmap_block i :
  0 ≤ i < bm_blocks bm →
  ∃ b, m !! (start_block_id bm + i) = Some b ∧ block_ok b ∧ Forall is_byte b ∧
    lockable h m (u64 (i + start_block_id bm)) b ∧ u64 (i + start_block_id bm) = start_block_id bm + i.
Proof.
  destruct Hok as [H0 H1 H2 Hp Hh Hd]. intros Hi.
  assert (in_bitmap bm (start_block_id bm + i)) as Hin by (unfold in_bitmap; lia).
  destruct (Hp _ Hin) as [b Hb]. exists b. destruct (Hdisk _ _ Hb).
  rewrite u64_id by (unfold is_u64; lia). rewrite (Z.add_comm i).
  split_and!; try done. unfold lockable. auto.
Qed.

(** Replacing one bitmap block in which only bit [n] differs. *)
Lemma bit_updated_block n v b b' :
  bm_range bm n → m !! (start_block_id bm + n / BLOCK_BITS) = Some b →
  block_ok b' → Forall is_byte b' →
  (∀ j, 0 ≤ j → block_bit b' j = if j =? n mod BLOCK_BITS then v else block_bit b j) →
  bit_updated bm n v m (<[start_block_id bm + n / BLOCK_BITS := b']> m).
Proof.
  unfold bm_range, BLOCK_BITS, BLOCK_SZ. intros Hn Hb Hok' Hby' Hbits. split.
  - intros k Hk. unfold bm_bit, BLOCK_BITS, BLOCK_SZ.
    destruct (decide (n / (512 * 8) = k / (512 * 8))) as [Heq|Hne].
    + rewrite <- Heq, lookup_insert_eq, Hb, Hbits by dlia.
      destruct (Z.eqb_spec (k mod (512 * 8)) (n mod (512 * 8))), (Z.eqb_spec k n); try done; dlia.
    + rewrite lookup_insert_ne by lia. destruct (Z.eqb_spec k n); [congruence|done].
  - intros id Hid. apply lookup_insert_ne. unfold in_bitmap, bm_range, BLOCK_BITS, BLOCK_SZ in *. dlia.
  - intros id. destruct (decide (start_block_id bm + n / (512 * 8) = id)) as [<-|Hne].
    + rewrite lookup_insert_eq, Hb. split; by eexists.
    + by rewrite lookup_insert_ne.
  - by apply disk_ok_insert.
Qed.

Lemma bitmap_alloc_loop_spec n idx :
  0 ≤ idx → idx + Z.of_nat n = bm_blocks bm → (∀ k, 0 ≤ k < idx * BLOCK_BITS → bm_bit m bm k = true) →
  wp (bitmap_alloc_loop bm n idx) h m (λ r m',
    match r with
    | Some k => bm_range bm k ∧ bm_bit m bm k = false ∧ (∀ j, 0 ≤ j < k → bm_bit m bm j = true) ∧
                bit_updated bm k true m m'
    | None => m' = m ∧ ∀ k, bm_range bm k → bm_bit m bm k = true
    end).
Proof.
  revert idx. induction n as [|n IH]; intros idx Hidx Hn Hbelow; cbn [bitmap_alloc_loop].
  { apply wp_ret. split; [done|]. unfold bm_range. intros k Hk. apply Hbelow. unfold BLOCK_BITS, BLOCK_SZ in *. lia. }
  destruct (bitmap_block idx) as (b & Hb & Hbo & Hby & Hl & Hid); [lia|].
  pose proof (alloc_in_block_spec b Hbo Hby idx) as Hspec. destruct Hok as [H0 H1 H2 _ _ _].
  apply wp_bind. eapply wp_modify_block; [exact Hl|done|]. apply wp_ret.
  destruct (alloc_in_block idx b) as [[k|] b'].
  - destruct Hspec as (j & -> & Hj & Hclear & Hset & Hok' & Hby' & Hbits); [lia|]. split; [done|]. apply wp_ret.
    unfold BLOCK_BITS, BLOCK_SZ in *.
    assert ((idx * (512 * 8) + j) / (512 * 8) = idx) as Hdiv by (clear -Hj; dlia).
    assert ((idx * (512 * 8) + j) mod (512 * 8) = j) as Hmod by (clear -Hj; dlia).
    assert (bm_range bm (idx * (512 * 8) + j)) as Hrange by (unfold bm_range, BLOCK_BITS, BLOCK_SZ; nia).
    split_and!; [done| | |].
    + unfold bm_bit, BLOCK_BITS, BLOCK_SZ. rewrite Hdiv, Hmod, Hb. done.
    + intros q Hq. destruct (decide (q < idx * (512 * 8))); [apply Hbelow; lia|].
      unfold bm_bit, BLOCK_BITS, BLOCK_SZ. replace (q / (512 * 8)) with idx by (clear -Hj Hq n0; dlia).
      rewrite Hb. apply Hset. clear -Hj Hq n0. dlia.
    + rewrite Hid. replace idx with ((idx * (512 * 8) + j) / BLOCK_BITS) at 2 by (unfold BLOCK_BITS, BLOCK_SZ; done).
      eapply bit_updated_block; [done|unfold BLOCK_BITS, BLOCK_SZ; rewrite Hdiv; exact Hb|done|done|].
      intros q Hq. unfold BLOCK_BITS, BLOCK_SZ. rewrite Hmod, Hbits by done. by destruct (q =? j).
  - destruct Hspec as [-> Hfull]; [lia|]. split; [done|]. rewrite insert_id by (by rewrite Hid).
    apply IH; [lia|lia|]. intros k Hk. destruct (decide (k < idx * BLOCK_BITS)); [apply Hbelow; lia|].
    unfold bm_bit, BLOCK_BITS, BLOCK_SZ in *. replace (k / (512 * 8)) with idx by (clear -Hk n0; dlia).
    rewrite Hb. apply Hfull. clear. dlia.
Qed.
End bitmap.

Lemma bitmap_alloc_spec h m bm :
  bitmap_ok h m bm → disk_ok m →
  wp (bitmap_alloc bm) h m (λ r m',
    match r with
    | Some k => bm_range bm k ∧ bm_bit m bm k = false ∧ (∀ j, 0 ≤ j < k → bm_bit m bm j = true) ∧
                bit_updated bm k true m m'
    | None => m' = m ∧ ∀ k, bm_range bm k → bm_bit m bm k = true
    end).
Proof.
  intros Hok Hd. pose proof (bo_blocks _ _ _ Hok).
  apply bitmap_alloc_loop_spec; [done|done|lia|lia|]. intros k Hk. lia.
Qed.

(** [Bitmap::alloc] returns the least free bit of the whole bitmap, sets that
    bit and no other, and leaves every block outside the bitmap alone; it
    returns [None], changing nothing, only when every bit is taken. *)
Theorem bitmap_alloc_least h m bm :
  bitmap_ok h m bm → disk_ok m →
  wp (bitmap_alloc bm) h m (λ r m',
    match r with
    | Some k => bm_range bm k ∧ bm_bit m bm k = false ∧ (∀ j, 0 ≤ j < k → bm_bit m bm j = true) ∧
                bit_updated bm k true m m'
    | None => m' = m ∧ ∀ k, bm_range bm k → bm_bit m bm k = true
    end).
Proof. apply bitmap_alloc_spec. Qed.

Lemma bitmap_dealloc_spec h m bm n :
  bitmap_ok h m bm → disk_ok m → bm_range bm n →
  if bm_bit m bm n
  then wp (bitmap_dealloc bm n) h m (λ _ m', bit_updated bm n false m m')
  else run_disk (bitmap_dealloc bm n) (mkDisk m h) = Err Panicked.
Proof.
  intros Hok Hd Hn. unfold bitmap_dealloc, decompsition.
  assert (0 ≤ n / BLOCK_BITS < bm_blocks bm) as Hi by (unfold bm_range, BLOCK_BITS, BLOCK_SZ in *; dlia).
  destruct (bitmap_block h m bm Hok Hd _ Hi) as (b & Hb & Hbo & Hby & Hl & Hid).
  pose proof (clear_in_block_spec b Hbo Hby (n mod BLOCK_BITS)) as Hspec. unfold bm_bit. rewrite Hb.
  assert (0 ≤ n mod BLOCK_BITS < BLOCK_BITS) as Hr by (apply Z.mod_pos_bound; done). specialize (Hspec Hr).
  destruct (block_bit b (n mod BLOCK_BITS)).
  - destruct Hspec as (b' & Hc & Hok' & Hby' & Hbits).
    eapply wp_modify_block; [exact Hl|done|]. eapply wp_liftp; [exact Hc|]. apply wp_ret. split; [done|].
    rewrite Hid. eapply bit_updated_block; [done|done|done|done|done|].
    intros j Hj. rewrite Hbits by done. by destruct (j =? _).
  - unfold modify. destruct Hl as (Hm & Hh & Hs). cbn [run_disk blocks held].
    rewrite decide_False, decide_True, Hm by done. rewrite run_disk_bind, in_block_ok by done. cbn [liftp].
    rewrite (M_bind_Ok _ _ _ () _ eq_refl), run_disk_bind, bytes_at_whole by done. by rewrite Hspec.
Qed.

(** [Bitmap::dealloc] clears exactly the bit it is given when that bit is
    set, and panics when the bit is already clear (a double free). *)
Theorem bitmap_dealloc_exact h m bm n :
  bitmap_ok h m bm → disk_ok m → bm_range bm n →
  if bm_bit m bm n
  then wp (bitmap_dealloc bm n) h m (λ _ m', bit_updated bm n false m m')
  else run_disk (bitmap_dealloc bm n) (mkDisk m h) = Err Panicked.
Proof. apply bitmap_dealloc_spec. Qed.

(** A one-block bitmap whose first two bits are taken. *)
Definition sample_bitmap : Bitmap := mkBitmap 1 1.
Definition sample_bits : bmap := <[1 := 3 :: replicate 511 0]> ∅.

Lemma sample_bits_ok : bitmap_ok ∅ sample_bits sample_bitmap ∧ disk_ok sample_bits.
Proof.
  split.
  - split; simpl; try done; [|apply Nat.ltb_lt; reflexivity].
    intros id Hid. unfold in_bitmap in Hid. simpl in Hid. replace id with 1 by lia. by eexists.
  - apply disk_ok_insert; [intros ? ? ?; set_solver|done|].
    constructor; [unfold is_byte; lia|]. apply Forall_replicate. unfold is_byte. lia.
Qed.

Lemma bitmap_alloc_least_witness :
  wp (bitmap_alloc sample_bitmap) ∅ sample_bits (λ r m',
    match r with
    | Some k => bm_range sample_bitmap k ∧ bm_bit sample_bits sample_bitmap k = false ∧
                (∀ j, 0 ≤ j < k → bm_bit sample_bits sample_bitmap j = true) ∧
                bit_updated sample_bitmap k true sample_bits m'
    | None => m' = sample_bits ∧ ∀ k, bm_range sample_bitmap k → bm_bit sample_bits sample_bitmap k = true
    end).
Proof. apply (bitmap_alloc_least ∅ sample_bits sample_bitmap); apply sample_bits_ok. Defined.

Lemma bitmap_dealloc_exact_witness :
  wp (bitmap_dealloc sample_bitmap 1) ∅ sample_bits
    (λ _ m', bit_updated sample_bitmap 1 false sample_bits m') ∧
  run_disk (bitmap_dealloc sample_bitmap 2) (mkDisk sample_bits ∅) = Err Panicked.
Proof.
  split.
  - apply (bitmap_dealloc_exact ∅ sample_bits sample_bitmap 1); [apply sample_bits_ok..|].
    unfold bm_range. simpl. unfold BLOCK_BITS, BLOCK_SZ. lia.
  - apply (bitmap_dealloc_exact ∅ sample_bits sample_bitmap 2); [apply sample_bits_ok..|].
    unfold bm_range. simpl. unfold BLOCK_BITS, BLOCK_SZ. lia.
Defined.

Example bitmap_alloc_sample :
  (λ r, fst r) <$> run_disk (bitmap_alloc sample_bitmap) (mkDisk sample_bits ∅) = Ok (Some 2).
Proof. vm_compute. reflexivity. Qed.
