(* ===== verification/Layout.v ===== *)
(** * On-disk structures (easy-fs/src/layout.rs)

    A [DiskInode] is 128 bytes: 31 little-endian words of 32 bits, the type
    byte, and three bytes of padding that no field assignment writes.  The
    methods that walk or change the index blocks are block programs. *)
From S2P Require Import Prelude Bytes BlockCache DiskLogic.

Definition EFS_MAGIC : Z := 0x3b800001.
Definition INODE_DIRECT_COUNT : Z := 26.
Definition NAME_LENGTH_LIMIT : Z := 27.
Definition INODE_INDIRECT1_COUNT : Z := BLOCK_SZ / 4.
Definition INODE_INDIRECT2_COUNT : Z := INODE_INDIRECT1_COUNT * INODE_INDIRECT1_COUNT.
Definition DIRECT_BOUND : Z := INODE_DIRECT_COUNT.
Definition INDIRECT1_BOUND : Z := DIRECT_BOUND + INODE_INDIRECT1_COUNT.
Definition DIRENT_SZ : Z := 32.
Definition INODE_SIZE : Z := 128.

(** ** The super block *)
Record SuperBlock := mkSB {
  magic : Z;
  sb_total_blocks : Z;
  inode_bitmap_blocks : Z;
  inode_area_blocks : Z;
  data_bitmap_blocks : Z;
  data_area_blocks : Z;
}.
Definition SUPERBLOCK_SZ : Z := 24.

Definition sb_initialize (total ib ia db da : Z) : SuperBlock := mkSB EFS_MAGIC total ib ia db da.
Definition sb_is_valid (sb : SuperBlock) : bool := magic sb =? EFS_MAGIC.

Definition sb_enc (sb : SuperBlock) : list Z :=
  words_enc 4 [magic sb; sb_total_blocks sb; inode_bitmap_blocks sb; inode_area_blocks sb;
               data_bitmap_blocks sb; data_area_blocks sb].
Definition sb_dec (bs : list Z) : SuperBlock :=
  let w i := nth i (words_dec 4 6 bs) 0 in
  mkSB (w 0%nat) (w 1%nat) (w 2%nat) (w 3%nat) (w 4%nat) (w 5%nat).

(** ** Inodes *)
Inductive DiskInodeType := File | Directory.
Definition type_code (t : DiskInodeType) : Z := match t with File => 0 | Directory => 1 end.

(** [type_] is kept as the byte in memory. *)
Record DiskInode := mkInode {
  di_size : Z;
  nlink : Z;
  rsv : Z;
  direct : list Z;
  indirect1 : Z;
  indirect2 : Z;
  type_ : Z;
}.

Definition set_size (n : Z) (di : DiskInode) : DiskInode :=
  mkInode n (nlink di) (rsv di) (direct di) (indirect1 di) (indirect2 di) (type_ di).
Definition set_nlink (n : Z) (di : DiskInode) : DiskInode :=
  mkInode (di_size di) n (rsv di) (direct di) (indirect1 di) (indirect2 di) (type_ di).
Definition set_direct (d : list Z) (di : DiskInode) : DiskInode :=
  mkInode (di_size di) (nlink di) (rsv di) d (indirect1 di) (indirect2 di) (type_ di).
Definition set_indirect1 (i : Z) (di : DiskInode) : DiskInode :=
  mkInode (di_size di) (nlink di) (rsv di) (direct di) i (indirect2 di) (type_ di).
Definition set_indirect2 (i : Z) (di : DiskInode) : DiskInode :=
  mkInode (di_size di) (nlink di) (rsv di) (direct di) (indirect1 di) i (type_ di).

Definition inode_dec (bs : list Z) : DiskInode :=
  let ws := words_dec 4 31 bs in
  mkInode (nth 0 ws 0) (nth 1 ws 0) (nth 2 ws 0) (slice 3 26 ws) (nth 29 ws 0) (nth 30 ws 0) (nth 124 bs 0).
Definition inode_enc (old : list Z) (di : DiskInode) : list Z :=
  words_enc 4 (di_size di :: nlink di :: rsv di :: direct di ++ [indirect1 di; indirect2 di])
  ++ type_ di :: drop 125 old.

Definition initialize (t : DiskInodeType) (di : DiskInode) : DiskInode :=
  mkInode 0 1 (rsv di) (replicate (length (direct di)) 0) 0 0 (type_code t).
Definition is_dir (di : DiskInode) : bool := type_ di =? type_code Directory.
Definition is_file (di : DiskInode) : bool := type_ di =? type_code File.

(** [indirect[i]] of an index block *)
Definition index_words (b : block) : list Z := words_dec 4 (Z.to_nat INODE_INDIRECT1_COUNT) b.
Definition read_index (id i : Z) : prog Z :=
  read id 0 BLOCK_SZ (λ b, liftp (unwrap (index_words b !! Z.to_nat i))).

Definition get_block_id (di : DiskInode) (inner_id : Z) : prog Z :=
  if inner_id <? DIRECT_BOUND then liftp (unwrap (direct di !! Z.to_nat inner_id))
  else if inner_id <? INDIRECT1_BOUND then read_index (indirect1 di) (inner_id - INODE_DIRECT_COUNT)
  else
    let last := inner_id - INDIRECT1_BOUND in
    read_index (indirect2 di) (last / INODE_INDIRECT1_COUNT) ≫= λ i1,
    read_index i1 (last mod INODE_INDIRECT1_COUNT).

Definition data_blocks_of (size : Z) : Z := u32 (size + BLOCK_SZ - 1) / BLOCK_SZ.
Definition data_blocks (di : DiskInode) : Z := data_blocks_of (di_size di).

Definition total_blocks (size : Z) : Z :=
  let data := data_blocks_of size in
  let total := data in
  let total := if DIRECT_BOUND <? data then total + 1 else total in
  let total := if INDIRECT1_BOUND <? data
               then total + 1 + (data - INDIRECT1_BOUND + INODE_INDIRECT1_COUNT - 1) / INODE_INDIRECT1_COUNT
               else total in
  u32 total.

Definition blocks_num_needed (di : DiskInode) (new_size : Z) : outcome Z :=
  _ ← assert (di_size di <=? new_size);
  Ok (u32 (total_blocks new_size - total_blocks (di_size di))).

(** [while i < i + n { arr[i] = iter.next().unwrap(); i += 1 }] *)
Fixpoint fill (n : nat) (arr : list Z) (i : nat) (iter_new : list Z) : outcome (list Z * list Z) :=
  match n with
  | O => Ok (arr, iter_new)
  | S n' =>
      match iter_new with
      | [] => Err Panicked
      | x :: iter' => if (i <? length arr)%nat then fill n' (<[i := x]> arr) (S i) iter' else Err Panicked
      end
  end.

Definition next (iter_new : list Z) : outcome (Z * list Z) :=
  match iter_new with x :: r => Ok (x, r) | [] => Err Panicked end.

(** Fill [indirect[i..i+n]] of index block [id]; returns the rest of the iterator. *)
Definition fill_index (id : Z) (n i : nat) (iter_new : list Z) : prog (list Z) :=
  modify id 0 BLOCK_SZ (λ b,
    liftp (fill n (index_words b) i iter_new) ≫= λ '(ws, it), mret (it, words_enc 4 ws)).

(** The loop over the second-level blocks, run while [indirect2] is locked.
    Each round fills at least one slot, so [new_total - curr_total] rounds are
    enough. *)
Fixpoint indirect2_loop (fuel : nat) (curr_total new_total : Z) (ind2 iter_new : list Z) : prog (list Z) :=
  if curr_total <? new_total then
    match fuel with
    | O => Fail Diverged
    | S fuel' =>
        let a1 := new_total / INODE_INDIRECT1_COUNT in
        let b1 := new_total mod INODE_INDIRECT1_COUNT in
        let a0 := curr_total / INODE_INDIRECT1_COUNT in
        let b0 := curr_total mod INODE_INDIRECT1_COUNT in
        liftp (if b0 =? 0 then
                 '(x, it) ← next iter_new;
                 _ ← assert (Z.to_nat a0 <? length ind2)%nat;
                 Ok (<[Z.to_nat a0 := x]> ind2, it)
               else Ok (ind2, iter_new)) ≫= λ '(ind2', it),
        liftp (unwrap (ind2' !! Z.to_nat a0)) ≫= λ i1,
        let end_ := if a0 <? a1 then INODE_INDIRECT1_COUNT else b1 in
        fill_index i1 (Z.to_nat (end_ - b0)) (Z.to_nat b0) it ≫= λ it',
        indirect2_loop fuel' (curr_total + Z.max 0 (end_ - b0)) new_total ind2' it'
    end
  else mret ind2.

Definition increase_size (di : DiskInode) (new_size : Z) (new_blocks : list Z) : prog DiskInode :=
  liftp (assert (di_size di <? new_size)) ≫= λ _,
  liftp (blocks_num_needed di new_size) ≫= λ needed,
  liftp (assert (needed <=? Z.of_nat (length new_blocks))) ≫= λ _,
  let curr_total := data_blocks di in
  let di := set_size new_size di in
  let new_total := data_blocks di in
  let bound := Z.min INODE_DIRECT_COUNT new_total in
  liftp (fill (Z.to_nat (bound - curr_total)) (direct di) (Z.to_nat curr_total) new_blocks) ≫= λ '(d, it),
  let di := set_direct d di in
  let curr_total := Z.max curr_total bound in
  if negb (INODE_DIRECT_COUNT <? new_total) then mret di
  else
    liftp (if curr_total =? INODE_DIRECT_COUNT
           then '(x, it) ← next it; Ok (set_indirect1 x di, it) else Ok (di, it)) ≫= λ '(di, it),
    let curr_total := curr_total - INODE_DIRECT_COUNT in
    let new_total := new_total - INODE_DIRECT_COUNT in
    let bound := Z.min INODE_INDIRECT1_COUNT new_total in
    fill_index (indirect1 di) (Z.to_nat (bound - curr_total)) (Z.to_nat curr_total) it ≫= λ it,
    let curr_total := Z.max curr_total bound in
    if negb (INODE_INDIRECT1_COUNT <? new_total) then mret di
    else
      liftp (if curr_total =? INODE_INDIRECT1_COUNT
             then '(x, it) ← next it; Ok (set_indirect2 x di, it) else Ok (di, it)) ≫= λ '(di, it),
      let curr_total := curr_total - INODE_INDIRECT1_COUNT in
      let new_total := new_total - INODE_INDIRECT1_COUNT in
      modify (indirect2 di) 0 BLOCK_SZ (λ b,
        indirect2_loop (Z.to_nat (new_total - curr_total)) curr_total new_total (index_words b) it ≫= λ ind2,
        mret ((), words_enc 4 ind2)) ≫= λ _,
      mret di.

(** Push the first [n] entries of index block [id]; [modify] leaves it as it is. *)
Definition push_index (id : Z) (n : nat) : prog (list Z) :=
  modify id 0 BLOCK_SZ (λ b, mret (take n (index_words b), b)).

Fixpoint clear_full (entries : list Z) : prog (list Z) :=
  match entries with
  | [] => mret []
  | e :: rest =>
      push_index e (Z.to_nat INODE_INDIRECT1_COUNT) ≫= λ v,
      clear_full rest ≫= λ v', mret (e :: v ++ v')
  end.

Definition clear_size (di : DiskInode) : prog (list Z * DiskInode) :=
  let data := data_blocks di in
  let di := set_size 0 di in
  let k := Z.to_nat (Z.min data INODE_DIRECT_COUNT) in
  let v := take k (direct di) in
  let di := set_direct (replicate (length v) 0 ++ drop k (direct di)) di in
  if negb (INODE_DIRECT_COUNT <? data) then mret (v, di)
  else
    let v := v ++ [indirect1 di] in
    let data := data - INODE_DIRECT_COUNT in
    push_index (indirect1 di) (Z.to_nat (Z.min data INODE_INDIRECT1_COUNT)) ≫= λ v1,
    let v := v ++ v1 in
    let di := set_indirect1 0 di in
    if negb (INODE_INDIRECT1_COUNT <? data) then mret (v, di)
    else
      let v := v ++ [indirect2 di] in
      let data := data - INODE_INDIRECT1_COUNT in
      liftp (assert (data <=? INODE_INDIRECT2_COUNT)) ≫= λ _,
      let a1 := data / INODE_INDIRECT1_COUNT in
      let b1 := data mod INODE_INDIRECT1_COUNT in
      modify (indirect2 di) 0 BLOCK_SZ (λ b,
        let ind2 := index_words b in
        clear_full (take (Z.to_nat a1) ind2) ≫= λ v2,
        (if 0 <? b1 then
           liftp (unwrap (ind2 !! Z.to_nat a1)) ≫= λ e,
           push_index e (Z.to_nat b1) ≫= λ v3, mret (e :: v3)
         else mret []) ≫= λ v3,
        mret (v2 ++ v3, b)) ≫= λ v2,
      mret (v ++ v2, set_indirect2 0 di).

(** [read_at] fills a prefix of the buffer: the bytes read are returned.  One
    round per block touched; [end - start] rounds are enough. *)
Fixpoint read_at_loop (fuel : nat) (di : DiskInode) (start end_ start_block : Z) : prog (list Z) :=
  match fuel with
  | O => Fail Diverged
  | S fuel' =>
      let end_of_current_block := Z.min ((start / BLOCK_SZ + 1) * BLOCK_SZ) end_ in
      let block_read_size := end_of_current_block - start in
      get_block_id di (u32 start_block) ≫= λ id,
      read id 0 BLOCK_SZ (λ data_block, mret (bytes_at (start mod BLOCK_SZ) block_read_size data_block)) ≫= λ src,
      if end_of_current_block =? end_ then mret src
      else read_at_loop fuel' di end_of_current_block end_ (start_block + 1) ≫= λ rest, mret (src ++ rest)
  end.
Definition read_at (di : DiskInode) (offset buf_len : Z) : prog (list Z) :=
  let start := offset in
  let end_ := Z.min (u64 (offset + buf_len)) (di_size di) in
  if end_ <=? start then mret []
  else read_at_loop (Z.to_nat (end_ - start)) di start end_ (start / BLOCK_SZ).

Fixpoint write_at_loop (fuel : nat) (di : DiskInode) (start end_ start_block : Z) (buf : list Z) : prog Z :=
  match fuel with
  | O => Fail Diverged
  | S fuel' =>
      let end_of_current_block := Z.min ((start / BLOCK_SZ + 1) * BLOCK_SZ) end_ in
      let block_write_size := end_of_current_block - start in
      let src := take (Z.to_nat block_write_size) buf in
      get_block_id di (u32 start_block) ≫= λ id,
      modify id 0 BLOCK_SZ (λ data_block, mret ((), splice (Z.to_nat (start mod BLOCK_SZ)) src data_block)) ≫= λ _,
      if end_of_current_block =? end_ then mret block_write_size
      else write_at_loop fuel' di end_of_current_block end_ (start_block + 1)
             (drop (Z.to_nat block_write_size) buf) ≫= λ n, mret (block_write_size + n)
  end.
Definition write_at (di : DiskInode) (offset : Z) (buf : list Z) : prog Z :=
  let start := offset in
  let end_ := Z.min (u64 (offset + Z.of_nat (length buf))) (di_size di) in
  liftp (assert (start <=? end_)) ≫= λ _,
  write_at_loop (S (Z.to_nat (end_ - start))) di start end_ (start / BLOCK_SZ) buf.

(** ** Directory entries *)
Record DirEntry := mkDE { de_name : list Z; inode_number : Z }.

Definition de_new_empty : DirEntry := mkDE (replicate (Z.to_nat (NAME_LENGTH_LIMIT + 1)) 0) 0.
Definition de_new (name : list Z) (ino : Z) : outcome DirEntry :=
  _ ← assert (Z.of_nat (length name) <=? NAME_LENGTH_LIMIT);
  Ok (mkDE (splice 0 name (replicate (Z.to_nat (NAME_LENGTH_LIMIT + 1)) 0)) ino).
Definition as_bytes (de : DirEntry) : list Z := de_name de ++ le_enc 4 (inode_number de).
(** Writing [DIRENT_SZ] bytes through [as_bytes_mut]. *)
Definition de_of_bytes (bs : list Z) : DirEntry := mkDE (slice 0 28 bs) (le_dec (slice 28 4 bs)).

Definition name (de : DirEntry) : outcome (list Z) :=
  match list_find (λ c, c = 0) (de_name de) with
  | Some (len, _) => let s := take len (de_name de) in _ ← assert (utf8_ok s); Ok s
  | None => Err Panicked
  end.

(** [initialize_dir]: [data_alloc] is the allocation closure. *)
Fixpoint alloc_blocks (n : nat) (data_alloc : prog Z) : prog (list Z) :=
  match n with
  | O => mret []
  | S n' => data_alloc ≫= λ b, alloc_blocks n' data_alloc ≫= λ bs, mret (b :: bs)
  end.
Definition initialize_dir (di : DiskInode) (self_inode parent_inode : Z) (data_alloc : prog Z) : prog DiskInode :=
  liftp (assert (is_dir di)) ≫= λ _,
  let file_count := di_size di / DIRENT_SZ in
  let new_size := u32 ((file_count + 2) * DIRENT_SZ) in
  liftp (blocks_num_needed di new_size) ≫= λ blocks_needed,
  alloc_blocks (Z.to_nat blocks_needed) data_alloc ≫= λ new_blocks,
  increase_size di new_size new_blocks ≫= λ di,
  liftp (d1 ← de_new [46] self_inode; d2 ← de_new [46; 46] parent_inode;
         Ok (as_bytes d1 ++ as_bytes d2)) ≫= λ buf,
  write_at di (file_count * DIRENT_SZ) buf ≫= λ _, mret di.

(** ** Encodings *)
Record inode_ok (di : DiskInode) : Prop := {
  io_size : is_u32 (di_size di);
  io_nlink : is_u32 (nlink di);
  io_rsv : is_u32 (rsv di);
  io_direct : length (direct di) = 26%nat;
  io_direct_u32 : Forall is_u32 (direct di);
  io_indirect1 : is_u32 (indirect1 di);
  io_indirect2 : is_u32 (indirect2 di);
  io_type : is_byte (type_ di);
}.

Lemma length_inode_enc old di :
  length (direct di) = 26%nat → length old = 128%nat → length (inode_enc old di) = 128%nat.
Proof.
  intros Hd Ho. unfold inode_enc. rewrite length_app, length_words_enc. cbn [length].
  rewrite length_app, length_drop, Hd, Ho. done.
Qed.

Lemma inode_enc_bytes old di :
  is_byte (type_ di) → Forall is_byte old → Forall is_byte (inode_enc old di).
Proof.
  intros Ht Ho. unfold inode_enc. apply Forall_app_2; [apply words_enc_bytes|].
  constructor; [done|by apply Forall_drop].
Qed.

Lemma inode_dec_enc old di : inode_ok di → inode_dec (inode_enc old di) = di.
Proof.
  intros [Hs Hn Hr Hl Hd H1 H2 Ht]. unfold inode_dec, inode_enc.
  set (ws := di_size di :: nlink di :: rsv di :: direct di ++ [indirect1 di; indirect2 di]).
  assert (length ws = 31%nat) as Hlen by (unfold ws; simpl; rewrite length_app, Hl; done).
  pose proof (words_dec_enc 4 ws (type_ di :: drop 125 old)) as Hdec. rewrite Hlen in Hdec. rewrite Hdec.
  - unfold ws. cbn [nth].
    assert (nth 29 ws 0 = indirect1 di ∧ nth 30 ws 0 = indirect2 di) as [E1 E2].
    { unfold ws. cbn [nth]. rewrite !app_nth2 by lia. by rewrite Hl. }
    unfold ws in E1, E2. cbn [nth] in E1, E2. rewrite E1, E2.
    assert (slice 3 26 ws = direct di) as Esl.
    { unfold slice. change (drop 3 ws) with (direct di ++ [indirect1 di; indirect2 di]).
      by apply take_app_length'. }
    unfold ws in Esl. rewrite Esl. rewrite app_nth2; rewrite length_words_enc; fold ws; rewrite Hlen; [|lia].
    simpl. by destruct di.
  - unfold ws. apply Forall_cons_2; [exact Hs|]. apply Forall_cons_2; [exact Hn|]. apply Forall_cons_2; [exact Hr|].
    apply Forall_app_2; [exact Hd|]. apply Forall_cons_2; [exact H1|]. apply Forall_cons_2; [exact H2|constructor].
Qed.

Lemma inode_dec_ok bs : length bs = 128%nat → Forall is_byte bs → inode_ok (inode_dec bs).
Proof.
  intros Hl Hb. unfold inode_dec.
  assert (words_dec 4 31 bs = words_dec 4 31 (take 124 bs)) as ->.
  { rewrite <- (take_drop 124 bs) at 1.
    rewrite <- (words_enc_dec 4 31 (take 124 bs)) at 1; [|by apply Forall_take|rewrite length_take; lia].
    rewrite <- (length_words_dec 4 31 (take 124 bs)) at 1. apply words_dec_enc.
    apply words_dec_range; [by apply Forall_take|rewrite length_take; lia]. }
  assert (Forall is_u32 (words_dec 4 31 (take 124 bs))) as Hf.
  { apply (words_dec_range 4); [by apply Forall_take|rewrite length_take; lia]. }
  assert (length (words_dec 4 31 (take 124 bs)) = 31%nat) as Hw by apply length_words_dec.
  assert (∀ i, (i < 31)%nat → is_u32 (nth i (words_dec 4 31 (take 124 bs)) 0)) as Hnth.
  { intros i Hi. rewrite Forall_forall in Hf. apply Hf. apply list_elem_of_In, nth_In. lia. }
  split; cbn [di_size nlink rsv direct indirect1 indirect2 type_]; try (apply Hnth; lia).
  - by rewrite length_slice by lia.
  - by apply Forall_slice.
  - rewrite Forall_forall in Hb. apply Hb, list_elem_of_In, nth_In. lia.
Qed.

(** The on-disk inode format loses nothing: decoding the 128 bytes written
    for an inode gives that inode back, whatever the padding held. *)
Theorem inode_codec_roundtrip old di :
  length old = 128%nat → Forall is_byte old → inode_ok di →
  inode_dec (inode_enc old di) = di ∧ length (inode_enc old di) = 128%nat ∧
  Forall is_byte (inode_enc old di) ∧ drop 125 (inode_enc old di) = drop 125 old.
Proof.
  intros Hl Hb Hok. split_and!.
  - by apply inode_dec_enc.
  - apply length_inode_enc; [apply Hok|done].
  - apply inode_enc_bytes; [apply Hok|done].
  - unfold inode_enc. rewrite drop_app_ge; rewrite length_words_enc; cbn [length]; rewrite length_app, (io_direct _ Hok);
      [done|simpl; lia].
Qed.

Lemma inode_codec_roundtrip_witness :
  inode_dec (inode_enc (replicate 128 255) (mkInode 1000 1 0 (replicate 26 9) 77 0 1)) =
  mkInode 1000 1 0 (replicate 26 9) 77 0 1.
Proof.
  apply (inode_codec_roundtrip (replicate 128 255) (mkInode 1000 1 0 (replicate 26 9) 77 0 1)).
  - reflexivity.
  - apply Forall_replicate. unfold is_byte. lia.
  - split; simpl; try (unfold is_u32, is_byte; lia).
    repeat apply Forall_cons_2; try (unfold is_u32; lia). apply Forall_nil_2.
Defined.

Lemma sb_dec_enc sb :
  is_u32 (magic sb) → is_u32 (sb_total_blocks sb) → is_u32 (inode_bitmap_blocks sb) →
  is_u32 (inode_area_blocks sb) → is_u32 (data_bitmap_blocks sb) → is_u32 (data_area_blocks sb) →
  sb_dec (sb_enc sb) = sb.
Proof.
  intros. unfold sb_dec, sb_enc.
  set (ws := [magic sb; _; _; _; _; _]).
  pose proof (words_dec_enc 4 ws []) as Hd. rewrite app_nil_r in Hd. change (length ws) with 6%nat in Hd.
  rewrite Hd; [by destruct sb|]. unfold ws.
  repeat (apply Forall_cons_2; [assumption|]). apply Forall_nil_2.
Qed.

Lemma list_find_nul nm r : Forall (λ c, c ≠ 0) nm → list_find (λ c, c = 0) (nm ++ 0 :: r) = Some (length nm, 0).
Proof.
  intros Hnz. apply list_find_Some. split_and!; [by apply list_lookup_middle|done|].
  intros j y Hj Hlt. rewrite lookup_app_l in Hj by done. by eapply (Forall_lookup_1 _ _ _ _ Hnz).
Qed.

(** A directory entry reads back: a name of at most 27 non-NUL bytes of valid
    UTF-8 stored in the 32 bytes of an entry is returned by [name], together
    with the inode number; a longer name panics. *)
Theorem dirent_roundtrip nm ino :
  Forall (λ c, c ≠ 0) nm → utf8_ok nm = true → is_u32 ino →
  if decide (length nm ≤ 27)%nat then
    ∃ de, de_new nm ino = Ok de ∧ length (as_bytes de) = Z.to_nat DIRENT_SZ ∧
      inode_number (de_of_bytes (as_bytes de)) = ino ∧ name (de_of_bytes (as_bytes de)) = Ok nm
  else de_new nm ino = Err Panicked.
Proof.
  intros Hnz Hutf Hino. unfold de_new. change NAME_LENGTH_LIMIT with 27. case_decide as Hl.
  2: { rewrite (proj2 (Z.leb_gt _ _)) by lia. done. }
  rewrite (proj2 (Z.leb_le _ _)) by lia. cbn [assert mbind outcome_bind]. eexists. split; [done|].
  change (Z.to_nat (27 + 1)) with 28%nat.
  assert (splice 0 nm (replicate 28 0) = nm ++ replicate (28 - length nm) 0) as ->.
  { unfold splice. by rewrite take_0, drop_replicate. }
  set (nb := nm ++ replicate (28 - length nm) 0).
  assert (length nb = 28%nat) as Hnb by (unfold nb; rewrite length_app, length_replicate; lia).
  unfold as_bytes, de_of_bytes. cbn [de_name inode_number].
  assert (slice 0 28 (nb ++ le_enc 4 ino) = nb) as ->.
  { unfold slice. rewrite drop_0. by rewrite take_app_length' by lia. }
  assert (slice 28 4 (nb ++ le_enc 4 ino) = le_enc 4 ino) as ->.
  { unfold slice. rewrite drop_app_length' by lia. by rewrite take_ge by (by rewrite length_le_enc). }
  split_and!.
  - rewrite length_app, length_le_enc, Hnb. done.
  - apply le_dec_enc. exact Hino.
  - unfold name. cbn [de_name]. unfold nb.
    replace (28 - length nm)%nat with (S (27 - length nm)) by lia. simpl replicate.
    rewrite list_find_nul by done. by rewrite take_app_length, Hutf.
Qed.

Lemma dirent_roundtrip_witness :
  ∃ de, de_new [104; 105] 5 = Ok de ∧ length (as_bytes de) = Z.to_nat DIRENT_SZ ∧
    inode_number (de_of_bytes (as_bytes de)) = 5 ∧ name (de_of_bytes (as_bytes de)) = Ok [104; 105].
Proof.
  apply (dirent_roundtrip [104; 105] 5).
  - repeat apply Forall_cons_2; try lia. apply Forall_nil_2.
  - reflexivity.
  - unfold is_u32. lia.
Defined.
