(* ===== verification/InodeMap.v ===== *)
(** * The block map of an inode
      (easy-fs/src/layout.rs: get_block_id, total_blocks, increase_size, clear_size)

    [tree m di ids l1s]: on the disk [m], the direct slots, the first indirect
    block and the two-level indirect block of [di] together name the data blocks
    [ids], in order; [l1s] are the second-level index blocks.  [get_block_id]
    indexes [ids], [increase_size] appends to it, [clear_size] lists every
    block of the tree. *)
From S2P Require Import Prelude Bytes BlockCache DiskLogic Layout.

Local Open Scope nat_scope.

(** ** Counting blocks *)
Definition l1_count (n : nat) : nat := (n - 154 + 127) / 128.
Definition tot (n : nat) : nat :=
  n + (if 26 <? n then 1 else 0) + (if 154 <? n then 1 + l1_count n else 0).
Definition max_blocks : nat := 154 + 128 * 128.

Definition nblocks (size : Z) : nat := Z.to_nat (data_blocks_of size).

Lemma data_blocks_nblocks size : (0 ≤ size)%Z → data_blocks_of size = Z.of_nat (nblocks size).
Proof.
  intros Hs. unfold nblocks. rewrite Z2Nat.id; [done|]. unfold data_blocks_of, BLOCK_SZ.
  apply Z.div_pos; [|lia]. apply u32_range.
Qed.

Lemma nblocks_bounds size :
  (0 ≤ size ≤ 2 ^ 32 - 512)%Z →
  (size ≤ 512 * Z.of_nat (nblocks size) ∧ ((0 < nblocks size)%nat → 512 * (Z.of_nat (nblocks size) - 1) < size))%Z.
Proof.
  intros Hs. rewrite <- data_blocks_nblocks by lia. unfold data_blocks_of, BLOCK_SZ.
  rewrite u32_id by (unfold is_u32; lia). unfold nblocks, data_blocks_of, BLOCK_SZ.
  rewrite u32_id by (unfold is_u32; lia). dlia.
Qed.

(** The arithmetic of [total_blocks] counts the blocks of the tree. *)
Lemma total_blocks_tot size :
  (0 ≤ size ≤ 2 ^ 32 - 512)%Z → total_blocks size = Z.of_nat (tot (nblocks size)).
Proof.
  intros Hs. unfold total_blocks. rewrite data_blocks_nblocks by lia.
  assert (Z.of_nat (nblocks size) < 2 ^ 23)%Z as Hn.
  { rewrite <- data_blocks_nblocks by lia. unfold data_blocks_of, BLOCK_SZ.
    rewrite u32_id by (unfold is_u32; lia). dlia. }
  unfold tot, l1_count, INDIRECT1_BOUND, DIRECT_BOUND, INODE_DIRECT_COUNT, INODE_INDIRECT1_COUNT, BLOCK_SZ.
  change (512 / 4)%Z with 128%Z.
  generalize dependent (nblocks size). intros n Hn.
  destruct (Nat.ltb_spec 154 n) as [H2|H2].
  - rewrite (proj2 (Z.ltb_lt 26 _)) by lia. rewrite (proj2 (Z.ltb_lt (26 + 128) _)) by lia.
    destruct (Nat.ltb_spec 26 n); [|lia]. rewrite !Nat2Z.inj_add, Nat2Z.inj_div.
    rewrite u32_id by (unfold is_u32; dlia).
    replace (Z.of_nat n - (26 + 128) + 128 - 1)%Z with (Z.of_nat (n - 154 + 127)) by lia.
    change (Z.of_nat 128) with 128%Z. lia.
  - rewrite (proj2 (Z.ltb_ge (26 + 128) _)) by lia.
    destruct (Nat.ltb_spec 26 n).
    + rewrite (proj2 (Z.ltb_lt 26 _)) by lia. rewrite u32_id by (unfold is_u32; lia). lia.
    + rewrite (proj2 (Z.ltb_ge 26 _)) by lia. rewrite u32_id by (unfold is_u32; lia). lia.
Qed.

(** ** The tree *)
Definition leaf_ok (m : bmap) (ids l1s : list Z) : Prop :=
  ∀ a id1, l1s !! a = Some id1 →
    ∃ b, m !! id1 = Some b ∧
      ∀ j, j < 128 → 154 + 128 * a + j < length ids → index_words b !! j = ids !! (154 + 128 * a + j).

Record tree (m : bmap) (di : DiskInode) (ids l1s : list Z) : Prop := {
  tr_direct : ∀ j, j < 26 → j < length ids → direct di !! j = ids !! j;
  tr_ind1 : 26 < length ids → ∃ b, m !! indirect1 di = Some b ∧
    ∀ j, j < 128 → 26 + j < length ids → index_words b !! j = ids !! (26 + j);
  tr_l1 : length l1s = l1_count (length ids);
  tr_ind2 : 154 < length ids → ∃ b, m !! indirect2 di = Some b ∧
    ∀ a, a < length l1s → index_words b !! a = l1s !! a;
  tr_leaf : leaf_ok m ids l1s;
  tr_max : length ids ≤ max_blocks;
}.

(** The index blocks a tree of this size occupies. *)
Definition index_blocks (di : DiskInode) (n : nat) (l1s : list Z) : list Z :=
  (if 26 <? n then [indirect1 di] else []) ++ (if 154 <? n then indirect2 di :: l1s else []).

Lemma l1_count_range n a : a < l1_count n → 154 + 128 * a < n.
Proof. unfold l1_count. intros Ha. dlia. Qed.

Lemma l1_count_index n i : 154 ≤ i < n → (i - 154) / 128 < l1_count n.
Proof. unfold l1_count. intros Hi. dlia. Qed.

Lemma length_index_blocks m di ids l1s :
  tree m di ids l1s → length (index_blocks di (length ids) l1s) + length ids = tot (length ids).
Proof.
  intros Ht. unfold index_blocks, tot. rewrite length_app.
  destruct (26 <? length ids), (154 <? length ids); simpl; rewrite ?(tr_l1 _ _ _ _ Ht); lia.
Qed.

(** The blocks [l] may be locked. *)
Definition free_of (h : gset Z) (l : list Z) : Prop :=
  (∀ id, id ∈ l → id ∉ h) ∧ size h < BLOCK_CACHE_SIZE - 2.

Lemma index_words_length b : length (index_words b) = 128.
Proof. apply length_words_dec. Qed.

Lemma wp_read_index id i h m b v :
  m !! id = Some b → disk_ok m → id ∉ h → size h < BLOCK_CACHE_SIZE → (0 ≤ i)%Z →
  index_words b !! Z.to_nat i = Some v → wp (read_index id i) h m (λ r m', r = v ∧ m' = m).
Proof.
  intros Hm Hd Hh Hs Hi Hv. unfold read_index. destruct (Hd _ _ Hm) as [Hb _].
  eapply wp_read_block; [by split_and!|done|]. rewrite Hv. simpl. by apply wp_ret.
Qed.

(** [get_block_id] indexes the list of data blocks. *)
Lemma get_block_id_spec m di ids l1s h i id :
  tree m di ids l1s → disk_ok m → free_of h (index_blocks di (length ids) l1s) →
  (0 ≤ i)%Z → ids !! Z.to_nat i = Some id →
  wp (get_block_id di i) h m (λ r m', r = id ∧ m' = m).
Proof.
  intros [Hd H1 Hl H2 Hlf Hmax] Hdisk [Hfree Hsz] Hi Hid.
  pose proof (lookup_lt_Some _ _ _ Hid) as Hlt. unfold get_block_id, index_blocks in *.
  unfold INDIRECT1_BOUND, DIRECT_BOUND, INODE_DIRECT_COUNT, INODE_INDIRECT1_COUNT, BLOCK_SZ.
  change (512 / 4)%Z with 128%Z. change (26 + 128)%Z with 154%Z.
  destruct (Z.ltb_spec i 26) as [Hlt1|Hge1].
  { rewrite Hd, Hid by lia. simpl. by apply wp_ret. }
  destruct (Z.ltb_spec i 154) as [Hlt2|Hge2].
  { destruct (H1 ltac:(lia)) as (b & Hb & Hw).
    eapply wp_read_index; [exact Hb|done| |lia|lia|].
    - apply Hfree. destruct (Nat.ltb_spec 26 (length ids)); [by left|lia].
    - rewrite Hw by lia. rewrite <- Hid. f_equal. lia. }
  destruct (H2 ltac:(lia)) as (b2 & Hb2 & Hw2).
  set (a := (Z.to_nat i - 154) / 128).
  assert (a < length l1s) as Ha by (rewrite Hl; apply l1_count_index; lia).
  destruct (lookup_lt_is_Some_2 l1s a Ha) as [id1 Hid1].
  destruct (Hlf a id1 Hid1) as (b1 & Hb1 & Hw1).
  assert (Z.to_nat ((i - 154) / 128) = a ∧ Z.to_nat ((i - 154) mod 128) = Z.to_nat i - 154 - 128 * a) as [Ea Ej].
  { unfold a. clear -Hge2. dlia. }
  assert ((154 <? length ids) = true) as E2 by (apply Nat.ltb_lt; lia). rewrite E2 in Hfree.
  apply wp_bind. eapply wp_mono.
  { eapply wp_read_index; [exact Hb2|done| |lia| |].
    - apply Hfree. apply elem_of_app. right. by left.
    - clear -Hge2. dlia.
    - rewrite Ea, Hw2 by done. exact Hid1. }
  intros ? ? [-> ->]. eapply wp_read_index; [exact Hb1|done| |lia| |].
  - apply Hfree. apply elem_of_app. right. right. by eapply list_elem_of_lookup_2.
  - clear -Hge2. dlia.
  - rewrite Ej, Hw1, <- Hid by (unfold a; clear -Hge2 Hlt; dlia).
    f_equal. unfold a. clear -Hge2. dlia.
Qed.

(** ** Filling index arrays *)
Lemma fill_spec n arr i it :
  n ≤ length it → i + n ≤ length arr → fill n arr i it = Ok (splice i (take n it) arr, drop n it).
Proof.
  revert arr i it. induction n as [|n IH]; intros arr i it Hn Hi.
  { simpl. rewrite take_0, drop_0. unfold splice. simpl. by rewrite Nat.add_0_r, take_drop. }
  destruct it as [|x it]; simpl in Hn; [lia|]. cbn [fill].
  rewrite (proj2 (Nat.ltb_lt _ _)) by lia. rewrite IH by (rewrite ?length_insert; lia).
  do 2 f_equal. apply list_eq. intros j. cbn [take].
  assert (length (take n it) = n) as Hl by (rewrite length_take; lia).
  destruct (decide (j = i)) as [->|Hne].
  - rewrite lookup_splice_out by (rewrite ?Hl, ?length_insert; lia).
    rewrite list_lookup_insert_eq by lia. rewrite lookup_splice_in by (simpl; rewrite Hl; lia).
    by rewrite Nat.sub_diag.
  - destruct (decide (S i ≤ j < S i + n)).
    + rewrite lookup_splice_in by (rewrite ?Hl, ?length_insert; lia).
      rewrite lookup_splice_in by (simpl; rewrite Hl; lia).
      replace (j - i) with (S (j - S i)) by lia. done.
    + rewrite lookup_splice_out by (rewrite ?Hl, ?length_insert; lia).
      rewrite list_lookup_insert_ne by done. by rewrite lookup_splice_out by (simpl; rewrite Hl; lia).
Qed.

Lemma index_words_enc ws : length ws = 128 → Forall is_u32 ws → index_words (words_enc 4 ws) = ws.
Proof.
  intros Hl Hu. unfold index_words. pose proof (words_dec_enc 4 ws []) as Hd.
  rewrite app_nil_r, Hl in Hd. by apply Hd.
Qed.

Lemma index_words_u32 b : block_ok b → Forall is_byte b → Forall is_u32 (index_words b).
Proof. intros Hb Hy. apply (words_dec_range 4); done. Qed.

Lemma words_enc_block ws : length ws = 128 → block_ok (words_enc 4 ws).
Proof. intros Hl. unfold block_ok. rewrite length_words_enc, Hl. done. Qed.

Lemma fill_index_spec id k i it b h m :
  m !! id = Some b → disk_ok m → id ∉ h → size h < BLOCK_CACHE_SIZE →
  i + k ≤ 128 → k ≤ length it → Forall is_u32 it →
  wp (fill_index id k i it) h m (λ r m', r = drop k it ∧
    ∃ b', m' = <[id := b']> m ∧ block_ok b' ∧ Forall is_byte b' ∧
      index_words b' = splice i (take k it) (index_words b)).
Proof.
  intros Hm Hd Hh Hs Hik Hk Hu. destruct (Hd _ _ Hm) as [Hb Hy].
  eapply wp_modify_block; [by split_and!|done|].
  rewrite fill_spec by (rewrite ?index_words_length; lia). cbn [liftp mbind prog_bind].
  apply wp_ret. assert (length (splice i (take k it) (index_words b)) = 128) as Hl.
  { rewrite length_splice; rewrite ?index_words_length, ?length_take; lia. }
  split; [by apply words_enc_block|]. split; [done|]. eexists. split; [done|].
  split_and!; [by apply words_enc_block|apply words_enc_bytes|]. apply index_words_enc; [done|].
  apply Forall_splice; [by apply index_words_u32|by apply Forall_take].
Qed.

(** ** One round of the second-level loop *)
Lemma leaf_ok_ext m m' ids l1s : leaf_ok m ids l1s → (∀ id, id ∈ l1s → m' !! id = m !! id) → leaf_ok m' ids l1s.
Proof.
  intros Hl Hext a id1 Ha. destruct (Hl a id1 Ha) as (b & Hb & Hw). exists b.
  rewrite Hext; [done|]. by eapply list_elem_of_lookup_2.
Qed.

(** A second-level block that only covers positions past the end is fine. *)
Lemma leaf_ok_snoc m ids l1s x :
  leaf_ok m ids l1s → is_Some (m !! x) → length ids ≤ 154 + 128 * length l1s → leaf_ok m ids (l1s ++ [x]).
Proof.
  intros Hl [b Hb] Hlen a id1 Ha. apply lookup_app_Some in Ha as [Ha|[Hge Ha]]; [by apply Hl|].
  apply list_lookup_singleton_Some in Ha as [Ha <-]. exists b. split; [done|]. intros j Hj Hlt. lia.
Qed.

Lemma leaf_ok_fill m ids l1s a i1 b b' xs :
  leaf_ok m ids l1s → NoDup l1s → l1s !! a = Some i1 → length l1s = S a → m !! i1 = Some b →
  154 + 128 * a ≤ length ids → length ids - (154 + 128 * a) + length xs ≤ 128 →
  index_words b' = splice (length ids - (154 + 128 * a)) xs (index_words b) →
  leaf_ok (<[i1 := b']> m) (ids ++ xs) l1s.
Proof.
  intros Hl Hnd Ha Hlen Hb Hge Hfit Hw' a' id' Ha'.
  destruct (Hl a' id' Ha') as (b0 & Hb0 & Hw0).
  pose proof (lookup_lt_Some _ _ _ Ha') as Hlt.
  destruct (decide (a' = a)) as [->|Hne].
  - assert (id' = i1) as -> by congruence. rewrite Hb in Hb0. injection Hb0 as <-.
    exists b'. rewrite lookup_insert_eq. split; [done|]. intros j Hj Hjl. rewrite length_app in Hjl. rewrite Hw'.
    destruct (decide (j < length ids - (154 + 128 * a))) as [Hold|Hnew].
    + rewrite lookup_splice_out by (rewrite ?index_words_length; lia). rewrite Hw0 by lia.
      by rewrite lookup_app_l by lia.
    + rewrite lookup_splice_in by (rewrite ?index_words_length; lia). rewrite lookup_app_r by lia. f_equal. lia.
  - exists b0. split.
    + rewrite lookup_insert_ne; [done|]. intros ->. apply Hne. by eapply NoDup_lookup.
    + intros j Hj Hjl. rewrite Hw0 by lia. by rewrite lookup_app_l by lia.
Qed.

(** ** The second-level loop *)
Definition cnt (n : nat) : nat := n + l1_count n.

(** Blocks that exist, fit an index slot and are not locked. *)
Definition avail (h : gset Z) (m : bmap) (l : list Z) : Prop :=
  ∀ id, id ∈ l → id ∉ h ∧ is_Some (m !! id) ∧ is_u32 id.

Lemma avail_sub h m l l' : avail h m l → (∀ id, id ∈ l' → id ∈ l) → avail h m l'.
Proof. unfold avail. auto. Qed.
Lemma avail_dom h m m' l :
  avail h m l → (∀ id, is_Some (m' !! id) ↔ is_Some (m !! id)) → avail h m' l.
Proof. intros Ha Hd id Hid. destruct (Ha id Hid) as (? & ? & ?). by rewrite Hd. Qed.
Lemma avail_u32 h m l : avail h m l → Forall is_u32 l.
Proof. intros Ha. apply Forall_forall. intros id Hid. by apply Ha. Qed.
Lemma dom_insert (m : bmap) id (b b' : block) :
  m !! id = Some b → ∀ j, is_Some (<[id := b']> m !! j) ↔ is_Some (m !! j).
Proof.
  intros Hb j. destruct (decide (id = j)) as [<-|Hne].
  - rewrite lookup_insert_eq, Hb. split; by eexists.
  - by rewrite lookup_insert_ne.
Qed.

Record ind2_state (h : gset Z) (m : bmap) (ids l1s ws2 it : list Z) : Prop := {
  is_leaf : leaf_ok m ids l1s;
  is_len : length ws2 = 128;
  is_words : Forall is_u32 ws2;
  is_match : ∀ a, a < length l1s → ws2 !! a = l1s !! a;
  is_nodup : NoDup (l1s ++ it);
  is_avail : avail h m (l1s ++ it);
  is_disk : disk_ok m;
}.

Section round.
Context (h : gset Z) (m : bmap) (ids l1s ws2 it : list Z) (N : nat).
Context (Hst : ind2_state h m ids l1s ws2 it).
Context (Hn : 154 ≤ length ids < N) (HN : N ≤ max_blocks) (Hl : length l1s = l1_count (length ids)).
Context (Hit : cnt N ≤ cnt (length ids) + length it).
Let a0 := (length ids - 154) / 128.
Let b0 := (length ids - 154) mod 128.

(** The [if b0 == 0] step: the block for slot [a0] is in place afterwards. *)
Lemma round_alloc :
  ∃ ls1 ws2' it', (if (Z.of_nat b0 =? 0)%Z then
            '(x, it) ← next it;
            _ ← assert (a0 <? length ws2);
            Ok (<[a0 := x]> ws2, it)
          else Ok (ws2, it)) = Ok (ws2', it') ∧
    it = ls1 ++ it' ∧ length (l1s ++ ls1) = S a0 ∧ ind2_state h m ids (l1s ++ ls1) ws2' it'.
Proof.
  destruct Hst as [Hlf Hlw Hu Hm Hnd Hav Hd]. unfold cnt, max_blocks, l1_count in *.
  destruct (Z.eqb_spec (Z.of_nat b0) 0) as [Hb|Hb].
  - destruct it as [|x it']; cbn [length] in Hit; [exfalso; clear -Hit Hn; dlia|].
    exists [x], (<[a0 := x]> ws2), it'.
    assert (a0 = length l1s) as Ha by (subst a0 b0; dlia).
    cbn [next mbind outcome_bind]. rewrite (proj2 (Nat.ltb_lt _ _)) by (subst a0; dlia).
    split; [done|]. split; [done|]. split; [rewrite length_app; simpl; lia|].
    split; rewrite <- ?app_assoc; try done.
    + apply leaf_ok_snoc; [done| |subst a0 b0; dlia]. apply Hav. apply elem_of_app. right. by left.
    + by rewrite length_insert.
    + apply Forall_insert; [done|]. apply Hav, elem_of_app. right. by left.
    + intros a Hlt. rewrite length_app in Hlt. simpl in Hlt. destruct (decide (a = a0)) as [->|Hne].
      * rewrite list_lookup_insert_eq by (subst a0; dlia). rewrite Ha. by rewrite list_lookup_middle.
      * rewrite list_lookup_insert_ne by done. rewrite lookup_app_l by lia. apply Hm. lia.
  - exists [], ws2, it. rewrite app_nil_r. split_and!; try done. subst a0 b0. dlia.
Qed.
End round.

Section fill_round.
Context (h : gset Z) (m : bmap) (ids l1s ws2 it : list Z) (N : nat).
Context (Hst : ind2_state h m ids l1s ws2 it) (Hh : size h < BLOCK_CACHE_SIZE).
Context (Hn : 154 ≤ length ids < N).
Let a0 := (length ids - 154) / 128.
Let b0 := (length ids - 154) mod 128.
Context (Hl : length l1s = S a0).
Let k := (128 `min` (N - 154 - 128 * a0)) - b0.
Context (Hit : k ≤ length it).

Lemma round_fill :
  ∃ i1, ws2 !! a0 = Some i1 ∧
    wp (fill_index i1 k b0 it) h m (λ r m', r = drop k it ∧
      ind2_state h m' (ids ++ take k it) l1s ws2 (drop k it) ∧
      (∀ id, id ∉ l1s → m' !! id = m !! id) ∧ (∀ id, is_Some (m' !! id) ↔ is_Some (m !! id))).
Proof.
  destruct Hst as [Hlf Hlw Hu Hm Hnd Hav Hd].
  destruct (lookup_lt_is_Some_2 l1s a0) as [i1 Hi1]; [lia|]. exists i1.
  split; [rewrite Hm by lia; done|].
  assert (i1 ∈ l1s) as Hin by (by eapply list_elem_of_lookup_2).
  destruct (Hav i1) as (Hih & [b Hb] & _); [apply elem_of_app; by left|].
  eapply wp_mono.
  { eapply fill_index_spec; [exact Hb|done|done|done|subst k b0; dlia|done|].
    eapply avail_u32, avail_sub; [exact Hav|]. intros id Hid. apply elem_of_app. by right. }
  intros r m' (-> & b' & -> & Hbo & Hby & Hw). split; [done|]. split_and!.
  - apply NoDup_app in Hnd as (Hnd1 & Hdis & Hnd2). split; try done.
    + eapply leaf_ok_fill; [done|done|exact Hi1|done|exact Hb|subst a0; dlia| |].
      * rewrite length_take. subst a0 b0 k. dlia.
      * rewrite Hw. f_equal. subst a0 b0. dlia.
    + apply NoDup_app. split_and!; [done| |].
      * intros id Hid Hdr. apply (Hdis id Hid). rewrite <- (take_drop k it). apply elem_of_app. by right.
      * rewrite <- (take_drop k it) in Hnd2. by apply NoDup_app in Hnd2 as (_ & _ & ?).
    + eapply avail_dom; [|by eapply dom_insert]. eapply avail_sub; [exact Hav|].
      intros id [Hid|Hid]%elem_of_app; apply elem_of_app; [by left|right].
      rewrite <- (take_drop k it). apply elem_of_app. by right.
    + by apply disk_ok_insert.
  - intros id Hid. apply lookup_insert_ne. intros ->. done.
  - by eapply dom_insert.
Qed.
End fill_round.

(** The outcome of the loop: [xs] are the new data blocks, [ls] the new
    second-level blocks. *)
Record ind2_grown (h : gset Z) (m : bmap) (ids l1s it : list Z) (N : nat)
    (ws2' : list Z) (m' : bmap) (xs ls : list Z) : Prop := {
  ig_len : length (ids ++ xs) = N;
  ig_perm : xs ++ ls ≡ₚ take (cnt N - cnt (length ids)) it;
  ig_l1 : length (l1s ++ ls) = l1_count N;
  ig_state : ∃ it', ind2_state h m' (ids ++ xs) (l1s ++ ls) ws2' it';
  ig_frame : ∀ id, id ∉ l1s ++ ls → m' !! id = m !! id;
  ig_dom : ∀ id, is_Some (m' !! id) ↔ is_Some (m !! id);
}.

Lemma ind2_grown_trans h m m1 m' ids l1s it ls1 k it1 N ws2' xs ls :
  it = ls1 ++ it1 → k ≤ length it1 → length ids + k ≤ N →
  cnt (length ids + k) = cnt (length ids) + length ls1 + k → cnt N ≤ cnt (length ids) + length it →
  (∀ id, id ∉ l1s ++ ls1 → m1 !! id = m !! id) → (∀ id, is_Some (m1 !! id) ↔ is_Some (m !! id)) →
  ind2_grown h m1 (ids ++ take k it1) (l1s ++ ls1) (drop k it1) N ws2' m' xs ls →
  ind2_grown h m ids l1s it N ws2' m' (take k it1 ++ xs) (ls1 ++ ls).
Proof.
  intros -> Hk HkN Hcnt Hroom Hfr Hdom [Hlen Hperm Hl1 Hst Hframe Hdom'].
  assert (length (take k it1) = k) as Hlt by (rewrite length_take; lia).
  rewrite length_app, Hlt in Hperm. split.
  - by rewrite app_assoc.
  - rewrite (Permutation_app_comm ls1 ls), app_assoc, <- (app_assoc (take k it1)), Hperm, Permutation_app_comm.
    rewrite Hcnt. assert (cnt (length ids + k) ≤ cnt N) by (unfold cnt, l1_count; dlia).
    rewrite take_app_ge by lia.
    replace (cnt N - cnt (length ids) - length ls1) with (k + (cnt N - (cnt (length ids) + length ls1 + k))) by lia.
    by rewrite take_take_drop.
  - by rewrite app_assoc.
  - by rewrite !app_assoc.
  - intros id Hid. rewrite app_assoc in Hid. rewrite Hframe by done. apply Hfr.
    intros ?. apply Hid, elem_of_app. by left.
  - intros id. by rewrite Hdom', Hdom.
Qed.

Lemma indirect2_loop_spec h N fuel m ids l1s ws2 it :
  size h < BLOCK_CACHE_SIZE → N ≤ max_blocks → 154 ≤ length ids ≤ N → N - length ids ≤ fuel →
  length l1s = l1_count (length ids) → ind2_state h m ids l1s ws2 it →
  cnt N ≤ cnt (length ids) + length it →
  wp (indirect2_loop fuel (Z.of_nat (length ids - 154)) (Z.of_nat (N - 154)) ws2 it) h m
    (λ ws2' m', ∃ xs ls, ind2_grown h m ids l1s it N ws2' m' xs ls).
Proof.
  intros Hh HN. revert m ids l1s ws2 it. induction fuel as [|fuel IH]; intros m ids l1s ws2 it Hn Hf Hl Hst Hit.
  all: cbn [indirect2_loop];
    destruct (Z.ltb_spec (Z.of_nat (length ids - 154)) (Z.of_nat (N - 154))) as [Hlt|Hge]; [try (exfalso; clear -Hlt Hf; lia)|].
  1, 3: apply wp_ret; assert (N = length ids) as -> by lia; exists [], [];
    split; rewrite ?app_nil_r, ?Nat.sub_diag; try done; by exists it.
  unfold INODE_INDIRECT1_COUNT, BLOCK_SZ. change (512 / 4)%Z with 128%Z.
  set (n := length ids) in *. set (a0 := (n - 154) / 128). set (b0 := (n - 154) mod 128).
  replace (Z.of_nat (n - 154) / 128)%Z with (Z.of_nat a0) by (subst a0; rewrite Nat2Z.inj_div; done).
  replace (Z.of_nat (n - 154) mod 128)%Z with (Z.of_nat b0) by (subst b0; rewrite Nat2Z.inj_mod; done).
  rewrite !Nat2Z.id.
  destruct (round_alloc h m ids l1s ws2 it N Hst) as (ls1 & ws2' & it' & Hal & Hits & Hl1 & Hst1); [lia|done|done|done|].
  fold n in Hal, Hl1. fold a0 b0 in Hal, Hl1. rewrite Hal. cbn [liftp mbind prog_bind].
  set (k := (128 `min` (N - 154 - 128 * a0)) - b0).
  assert (cnt (n + k) = cnt n + length ls1 + k ∧ n + k ≤ N ∧ 0 < k) as (Hcnt & HkN & Hk0).
  { rewrite length_app in Hl1. unfold cnt, l1_count in *. subst k a0 b0. clear -Hl1 Hl Hlt Hn. dlia. }
  assert (cnt (n + k) ≤ cnt N) as Hmono by (unfold cnt, l1_count; clear -HkN; dlia).
  assert (k ≤ length it') as Hkit.
  { apply (f_equal length) in Hits. rewrite length_app in Hits. lia. }
  destruct (round_fill h m ids (l1s ++ ls1) ws2' it' N Hst1 Hh) as (i1 & Hi1 & Hfill); [lia|done|done|].
  fold n in Hi1, Hfill. fold a0 b0 in Hi1, Hfill. fold k in Hfill. rewrite Hi1. cbn [unwrap liftp mbind prog_bind].
  assert ((if (Z.of_nat a0 <? Z.of_nat (N - 154) / 128)%Z then 128%Z else (Z.of_nat (N - 154) mod 128)%Z)
          = Z.of_nat b0 + Z.of_nat k)%Z as ->.
  { subst k a0 b0. clear -Hlt Hn. destruct (Z.ltb_spec (Z.of_nat ((n - 154) / 128)) (Z.of_nat (N - 154) / 128)); dlia. }
  replace (Z.of_nat b0 + Z.of_nat k - Z.of_nat b0)%Z with (Z.of_nat k) by lia. rewrite Nat2Z.id.
  apply wp_bind. eapply wp_mono; [exact Hfill|]. intros r m1 (-> & Hst2 & Hfr & Hdom).
  assert (length (ids ++ take k it') = n + k) as Hlen by (rewrite length_app, length_take; lia).
  replace (Z.of_nat (n - 154) + Z.max 0 (Z.of_nat k))%Z with (Z.of_nat (length (ids ++ take k it') - 154)) by lia.
  eapply wp_mono; [apply (IH m1 (ids ++ take k it') (l1s ++ ls1) ws2' (drop k it'))|].
  - lia.
  - lia.
  - rewrite Hlen, Hl1. unfold l1_count. subst k a0 b0. clear -Hlt Hn. dlia.
  - done.
  - rewrite Hlen, length_drop. apply (f_equal length) in Hits. rewrite length_app in Hits. lia.
  - intros w m' (xs & ls & Hg). exists (take k it' ++ xs), (ls1 ++ ls). by eapply ind2_grown_trans.
Qed.
