(* ===== verification/InodeGrow.v ===== *)
(** * Growing and clearing an inode
      (easy-fs/src/layout.rs: increase_size, clear_size)

    [increase_size] runs in three phases: the direct slots, the first indirect
    block, the second-level blocks.  Each phase is a step of [grew], a relation
    that accounts for every block: what was in the tree or in the list of new
    blocks is afterwards in the tree or still in the list. *)
From S2P Require Import Prelude Bytes BlockCache DiskLogic Layout InodeMap.

Local Open Scope nat_scope.

Record grow_state (h : gset Z) (m : bmap) (di : DiskInode) (ids l1s it : list Z) : Prop := {
  gs_tree : tree m di ids l1s;
  gs_inode : inode_ok di;
  gs_nodup : NoDup (index_blocks di (length ids) l1s ++ it);
  gs_avail : avail h m (index_blocks di (length ids) l1s ++ it);
  gs_disk : disk_ok m;
}.

(** From [(m, di, ids, l1s)] with the new blocks [it] to
    [(m', di', ids ++ xs, l1s ++ ls)] with [it'] left over. *)
Record grew (h : gset Z) (m : bmap) (di : DiskInode) (ids l1s it : list Z)
    (m' : bmap) (di' : DiskInode) (xs ls it' : list Z) : Prop := {
  g_state : grow_state h m' di' (ids ++ xs) (l1s ++ ls) it';
  g_perm : index_blocks di' (length (ids ++ xs)) (l1s ++ ls) ++ xs ++ it' ≡ₚ
           index_blocks di (length ids) l1s ++ it;
  g_index : ∀ id, id ∈ index_blocks di (length ids) l1s →
            id ∈ index_blocks di' (length (ids ++ xs)) (l1s ++ ls);
  g_frame : ∀ id, id ∉ index_blocks di' (length (ids ++ xs)) (l1s ++ ls) → m' !! id = m !! id;
  g_dom : ∀ id, is_Some (m' !! id) ↔ is_Some (m !! id);
  g_same : di_size di' = di_size di ∧ nlink di' = nlink di ∧ type_ di' = type_ di;
}.

Lemma grew_refl h m di ids l1s it : grow_state h m di ids l1s it → grew h m di ids l1s it m di [] [] it.
Proof. intros Hs. split; rewrite ?app_nil_r; done. Qed.

Lemma perm_account (I0 I1 I2 x1 x2 i0 i1 i2 : list Z) :
  I1 ++ x1 ++ i1 ≡ₚ I0 ++ i0 → I2 ++ x2 ++ i2 ≡ₚ I1 ++ i1 → I2 ++ (x1 ++ x2) ++ i2 ≡ₚ I0 ++ i0.
Proof.
  intros P1 P2. rewrite <- P1, (Permutation_app_swap_app I1 x1 i1), <- P2.
  rewrite (Permutation_app_swap_app x1 I2). by rewrite <- app_assoc.
Qed.

Lemma grew_trans h m di ids l1s it m1 di1 xs1 ls1 it1 m2 di2 xs2 ls2 it2 :
  grew h m di ids l1s it m1 di1 xs1 ls1 it1 →
  grew h m1 di1 (ids ++ xs1) (l1s ++ ls1) it1 m2 di2 xs2 ls2 it2 →
  grew h m di ids l1s it m2 di2 (xs1 ++ xs2) (ls1 ++ ls2) it2.
Proof.
  intros [S1 P1 I1 F1 D1 (E1 & E2 & E3)] [S2 P2 I2 F2 D2 (E4 & E5 & E6)].
  rewrite <- !app_assoc in S2, P2, I2, F2. split; [done| | | | |].
  - eapply perm_account; [exact P1|exact P2].
  - auto.
  - intros id Hid. rewrite F2 by done. apply F1. intros Hin. by apply Hid, I2.
  - intros id. by rewrite D2, D1.
  - split_and!; congruence.
Qed.

Lemma grew_tot h m di ids l1s it m' di' xs ls it' :
  grow_state h m di ids l1s it → grew h m di ids l1s it m' di' xs ls it' →
  tot (length (ids ++ xs)) + length it' = tot (length ids) + length it.
Proof.
  intros S [S' P _ _ _ _]. apply Permutation_length in P.
  pose proof (length_index_blocks _ _ _ _ (gs_tree _ _ _ _ _ _ S)).
  pose proof (length_index_blocks _ _ _ _ (gs_tree _ _ _ _ _ _ S')) as H'.
  assert (length (ids ++ xs) = length ids + length xs) as Hn by apply length_app.
  set (n' := length (ids ++ xs)) in *. rewrite !length_app in P. lia.
Qed.

(** The side conditions of the new state follow from the accounting. *)
Lemma grew_intro h m di ids l1s it m' di' xs ls it' :
  grow_state h m di ids l1s it →
  tree m' di' (ids ++ xs) (l1s ++ ls) → inode_ok di' → disk_ok m' →
  index_blocks di' (length (ids ++ xs)) (l1s ++ ls) ++ xs ++ it' ≡ₚ index_blocks di (length ids) l1s ++ it →
  (∀ id, id ∈ index_blocks di (length ids) l1s → id ∈ index_blocks di' (length (ids ++ xs)) (l1s ++ ls)) →
  (∀ id, id ∉ index_blocks di' (length (ids ++ xs)) (l1s ++ ls) → m' !! id = m !! id) →
  (∀ id, is_Some (m' !! id) ↔ is_Some (m !! id)) →
  di_size di' = di_size di ∧ nlink di' = nlink di ∧ type_ di' = type_ di →
  grew h m di ids l1s it m' di' xs ls it'.
Proof.
  intros [_ _ Hnd Hav _] Ht Hi Hd Hperm Hsub Hfr Hdom Hsame.
  rewrite <- Hperm in Hnd. rewrite (Permutation_app_comm xs) in Hnd. rewrite app_assoc in Hnd.
  split; try done. split; try done.
  - by apply NoDup_app in Hnd as (? & _ & _).
  - eapply avail_dom; [|done]. eapply avail_sub; [exact Hav|]. intros id Hid. rewrite <- Hperm.
    set_solver.
Qed.

(** ** Phase 1: direct slots *)
Lemma index_blocks_small di n l1s : n ≤ 26 → index_blocks di n l1s = [].
Proof. intros Hn. unfold index_blocks. by destruct (Nat.ltb_spec 26 n), (Nat.ltb_spec 154 n); try lia. Qed.

Lemma l1_count_small n : n ≤ 154 → l1_count n = 0.
Proof. unfold l1_count. intros. dlia. Qed.

Lemma tree_small_l1 m di ids l1s : tree m di ids l1s → length ids ≤ 154 → l1s = [].
Proof.
  intros Ht Hn. apply length_zero_iff_nil. rewrite (tr_l1 _ _ _ _ Ht). by apply l1_count_small.
Qed.

Lemma phase1 h m di ids l1s it k :
  grow_state h m di ids l1s it → length ids + k ≤ 26 → k ≤ length it →
  fill k (direct di) (length ids) it = Ok (splice (length ids) (take k it) (direct di), drop k it) ∧
  grew h m di ids l1s it m (set_direct (splice (length ids) (take k it) (direct di)) di) (take k it) [] (drop k it).
Proof.
  intros Hs Hk Hit. pose proof Hs as [Ht Hi Hnd Hav Hd].
  assert (length (take k it) = k) as Hlk by (rewrite length_take; lia).
  pose proof (io_direct _ Hi) as Hld.
  split; [apply fill_spec; lia|].
  assert (l1s = []) as -> by (eapply tree_small_l1; [done|lia]).
  eapply grew_intro; [done| | |done| | | |done|done].
  - split; cbn [direct indirect1 indirect2 set_direct]; rewrite ?length_app, ?Hlk; try lia.
    + intros j Hj Hjl. destruct (decide (j < length ids)).
      * rewrite lookup_splice_out by lia. rewrite lookup_app_l by done. apply Ht; lia.
      * rewrite lookup_splice_in by lia. rewrite lookup_app_r by lia. done.
    + rewrite l1_count_small by lia. done.
    + intros a id1 Ha. simpl in Ha. set_solver.
    + unfold max_blocks. lia.
  - destruct Hi. split; cbn [di_size nlink rsv direct indirect1 indirect2 type_ set_direct]; try done.
    + rewrite length_splice; lia.
    + apply Forall_splice; [done|]. apply Forall_take. eapply avail_u32, avail_sub; [exact Hav|].
      intros id Hid. apply elem_of_app. by right.
  - rewrite !index_blocks_small by (rewrite ?length_app; lia). simpl. by rewrite take_drop.
  - rewrite !index_blocks_small by (rewrite ?length_app; lia). done.
  - done.
Qed.

(** ** Phase 2: the first indirect block *)
Lemma index_blocks_mid di n l1s : 26 < n ≤ 154 → index_blocks di n l1s = [indirect1 di].
Proof.
  intros Hn. unfold index_blocks. destruct (Nat.ltb_spec 26 n), (Nat.ltb_spec 154 n); try lia. done.
Qed.
Lemma index_blocks_large di n l1s : 154 < n → index_blocks di n l1s = indirect1 di :: indirect2 di :: l1s.
Proof.
  intros Hn. unfold index_blocks. destruct (Nat.ltb_spec 26 n), (Nat.ltb_spec 154 n); try lia. done.
Qed.

Lemma phase2_alloc h m di ids l1s it k :
  grow_state h m di ids l1s it → 26 ≤ length ids → length ids + k ≤ 154 → 0 < k →
  tot (length ids + k) ≤ tot (length ids) + length it →
  ∃ di1 it1 b, (if (Z.of_nat (length ids) =? 26)%Z
              then '(x, it) ← next it; Ok (set_indirect1 x di, it) else Ok (di, it)) = Ok (di1, it1) ∧
    index_blocks di (length ids) l1s ++ it = indirect1 di1 :: it1 ∧ k ≤ length it1 ∧ m !! indirect1 di1 = Some b ∧
    (∀ j, j < 128 → 26 + j < length ids → index_words b !! j = ids !! (26 + j)) ∧
    direct di1 = direct di ∧ inode_ok di1 ∧
    di_size di1 = di_size di ∧ nlink di1 = nlink di ∧ type_ di1 = type_ di.
Proof.
  intros [Ht Hi Hnd Hav Hd] Hn Hk Hk0 Htot. unfold tot in Htot.
  rewrite (proj2 (Nat.ltb_lt 26 (_ + k))), (proj2 (Nat.ltb_ge 154 (_ + k))), (proj2 (Nat.ltb_ge 154 (length ids))) in Htot by lia.
  destruct (Z.eqb_spec (Z.of_nat (length ids)) 26) as [He|He].
  - rewrite (proj2 (Nat.ltb_ge 26 _)) in Htot by lia.
    destruct it as [|x it]; [simpl in Htot; lia|]. rewrite index_blocks_small in * by lia.
    destruct (Hav x) as (Hh & [b Hb] & Hx); [by left|]. exists (set_indirect1 x di), it, b.
    split; [done|]. split; [done|]. split; [simpl in Htot; lia|]. split; [done|].
    split; [intros; lia|]. destruct Hi. by split_and!.
  - rewrite (proj2 (Nat.ltb_lt 26 _)) in Htot by lia. rewrite index_blocks_mid in * by lia.
    destruct (tr_ind1 _ _ _ _ Ht) as (b & Hb & Hw); [lia|].
    exists di, it, b. split_and!; try done. lia.
Qed.

Lemma phase2 h m di ids l1s it k :
  grow_state h m di ids l1s it → size h < BLOCK_CACHE_SIZE →
  26 ≤ length ids → length ids + k ≤ 154 → 0 < k →
  tot (length ids + k) ≤ tot (length ids) + length it →
  ∃ di1 it1, (if (Z.of_nat (length ids) =? 26)%Z
              then '(x, it) ← next it; Ok (set_indirect1 x di, it) else Ok (di, it)) = Ok (di1, it1) ∧
    wp (fill_index (indirect1 di1) k (length ids - 26) it1) h m
      (λ r m', ∃ xs, length xs = k ∧ grew h m di ids l1s it m' di1 xs [] r).
Proof.
  intros Hs Hh Hn Hk Hk0 Htot. pose proof Hs as [Ht Hi Hnd Hav Hd].
  destruct (phase2_alloc h m di ids l1s it k Hs Hn Hk Hk0 Htot)
    as (di1 & it1 & b & Hal & Hlist & Hkl & Hb & Hw & Hdir & Hi1 & Hsame).
  exists di1, it1. split; [exact Hal|]. rewrite Hlist in Hnd, Hav.
  assert (l1s = []) as -> by (eapply tree_small_l1; [done|lia]).
  assert (length (take k it1) = k) as Hlk by (rewrite length_take; lia).
  eapply wp_mono.
  { eapply fill_index_spec; [exact Hb|done|apply Hav; by left|done|lia|done|].
    eapply avail_u32, avail_sub; [exact Hav|]. intros id Hid. by right. }
  intros r m' (-> & b' & -> & Hbo & Hby & Hw'). exists (take k it1). split; [done|].
  assert (length (ids ++ take k it1) = length ids + k) as Hlen by (rewrite length_app; lia).
  eapply grew_intro; [done| |done|by apply disk_ok_insert| | | |by eapply dom_insert|done].
  - split; rewrite ?Hlen, ?app_nil_r; try lia.
    + intros j Hj Hjl. rewrite Hdir, (tr_direct _ _ _ _ Ht) by lia. by rewrite lookup_app_l by lia.
    + intros _. exists b'. rewrite lookup_insert_eq. split; [done|]. intros j Hj Hjl. rewrite Hw'.
      destruct (decide (j < length ids - 26)).
      * rewrite lookup_splice_out by (rewrite ?Hlk, ?index_words_length; lia).
        rewrite Hw by lia. by rewrite lookup_app_l by lia.
      * rewrite lookup_splice_in by (rewrite ?Hlk, ?index_words_length; lia).
        rewrite lookup_app_r by lia. f_equal. lia.
    + rewrite l1_count_small by lia. done.
    + intros a id1 Ha. set_solver.
    + unfold max_blocks. lia.
  - rewrite Hlen, index_blocks_mid by lia. rewrite Hlist. simpl. by rewrite take_drop.
  - rewrite Hlen, (index_blocks_mid di1) by lia. intros id Hid.
    destruct (decide (26 < length ids)).
    + rewrite index_blocks_mid in Hid, Hlist by lia. injection Hlist as Hx _. set_solver.
    + rewrite index_blocks_small in Hid by lia. set_solver.
  - rewrite Hlen, index_blocks_mid by lia. intros id Hid. apply lookup_insert_ne. set_solver.
Qed.

(** Past the first indirect block the phase does nothing. *)
Lemma fill_index_nop id i it b h m :
  m !! id = Some b → disk_ok m → id ∉ h → size h < BLOCK_CACHE_SIZE →
  wp (fill_index id 0 i it) h m (λ r m', r = it ∧ m' = m).
Proof.
  intros Hm Hd Hh Hs. destruct (Hd _ _ Hm) as [Hb Hy].
  eapply wp_modify_block; [by split_and!|done|]. cbn [fill liftp mbind prog_bind]. apply wp_ret.
  assert (words_enc 4 (index_words b) = b) as -> by (by apply words_enc_dec).
  split; [done|]. split; [done|]. by apply insert_id.
Qed.

(** ** Phase 3: the second-level blocks *)
Lemma phase3_alloc h m di ids l1s it N :
  grow_state h m di ids l1s it → 154 ≤ length ids < N → N ≤ max_blocks →
  tot N ≤ tot (length ids) + length it →
  ∃ di1 it1 b, (if (Z.of_nat (length ids) - 26 =? 128)%Z
              then '(x, it) ← next it; Ok (set_indirect2 x di, it) else Ok (di, it)) = Ok (di1, it1) ∧
    index_blocks di (length ids) l1s ++ it = indirect1 di1 :: indirect2 di1 :: l1s ++ it1 ∧
    cnt N ≤ cnt (length ids) + length it1 ∧ m !! indirect2 di1 = Some b ∧
    (∀ a, a < length l1s → index_words b !! a = l1s !! a) ∧
    direct di1 = direct di ∧ indirect1 di1 = indirect1 di ∧ inode_ok di1 ∧
    di_size di1 = di_size di ∧ nlink di1 = nlink di ∧ type_ di1 = type_ di.
Proof.
  intros [Ht Hi Hnd Hav Hd] Hn HN Htot. unfold cnt. unfold tot in Htot.
  rewrite !(proj2 (Nat.ltb_lt 26 _)), (proj2 (Nat.ltb_lt 154 N)) in Htot by lia.
  destruct (Z.eqb_spec (Z.of_nat (length ids) - 26) 128) as [He|He].
  - rewrite (proj2 (Nat.ltb_ge 154 _)) in Htot by lia.
    destruct it as [|x it]; [simpl in Htot; lia|]. rewrite index_blocks_mid in * by lia.
    assert (l1s = []) as -> by (eapply tree_small_l1; [done|lia]).
    destruct (Hav x) as (Hh & [b Hb] & Hx); [by right; left|]. exists (set_indirect2 x di), it, b.
    split; [done|]. split; [done|]. split; [simpl in Htot; lia|]. split; [done|].
    split; [simpl; lia|]. destruct Hi. by split_and!.
  - rewrite (proj2 (Nat.ltb_lt 154 _)) in Htot by lia. rewrite index_blocks_large in * by lia.
    destruct (tr_ind2 _ _ _ _ Ht) as (b & Hb & Hw); [lia|].
    exists di, it, b. split_and!; try done. lia.
Qed.

Lemma phase3_tree h m di di1 ids l1s it1 N ws2' m' xs ls b' :
  tree m di ids l1s → 154 ≤ length ids < N → N ≤ max_blocks →
  NoDup (indirect1 di1 :: indirect2 di1 :: l1s ++ it1) →
  direct di1 = direct di → indirect1 di1 = indirect1 di →
  ind2_grown h m ids l1s it1 N ws2' m' xs ls → index_words b' = ws2' →
  tree (<[indirect2 di1 := b']> m') di1 (ids ++ xs) (l1s ++ ls).
Proof.
  intros Ht Hn HN Hnd Hdir H1 [Hlen Hperm Hl1 [it' Hst] Hfr Hdom] Hb'.
  apply NoDup_cons in Hnd as [Hn1 Hnd]. apply NoDup_cons in Hnd as [Hn2 Hnd].
  assert (∀ id, id ∈ l1s ++ ls → id ∈ l1s ++ it1) as Hsub.
  { intros id [Hid|Hid]%elem_of_app; apply elem_of_app; [by left|right].
    assert (id ∈ take (cnt N - cnt (length ids)) it1) as Hin by (rewrite <- Hperm; apply elem_of_app; by right).
    rewrite <- (take_drop (cnt N - cnt (length ids)) it1). apply elem_of_app. by left. }
  split; rewrite ?Hlen; try done.
  - intros j Hj _. rewrite Hdir, (tr_direct _ _ _ _ Ht) by lia. by rewrite lookup_app_l by lia.
  - intros _. destruct (tr_ind1 _ _ _ _ Ht) as (b & Hb & Hw); [lia|]. exists b. split.
    + rewrite lookup_insert_ne by (intros Heq; apply Hn1; rewrite Heq; by left). rewrite H1 in Hn1 |- *.
      rewrite Hfr; [done|]. intros Hin%Hsub. apply Hn1. by right.
    + intros j Hj _. rewrite Hw by lia. by rewrite lookup_app_l by lia.
  - intros _. exists b'. rewrite lookup_insert_eq. split; [done|]. rewrite Hb'. apply Hst.
  - eapply leaf_ok_ext; [apply Hst|]. intros id Hin%Hsub. apply lookup_insert_ne. by intros <-.
Qed.

Lemma phase3 h m di ids l1s it N :
  grow_state h m di ids l1s it → size h < BLOCK_CACHE_SIZE - 2 → 154 ≤ length ids < N → N ≤ max_blocks →
  tot N ≤ tot (length ids) + length it →
  ∃ di1 it1, (if (Z.of_nat (length ids) - 26 =? 128)%Z
              then '(x, it) ← next it; Ok (set_indirect2 x di, it) else Ok (di, it)) = Ok (di1, it1) ∧
    wp (modify (indirect2 di1) 0 BLOCK_SZ (λ b,
          indirect2_loop (N - length ids) (Z.of_nat (length ids - 154)) (Z.of_nat (N - 154)) (index_words b) it1 ≫= λ ind2,
          mret ((), words_enc 4 ind2))) h m
      (λ _ m', ∃ xs ls r, length (ids ++ xs) = N ∧ grew h m di ids l1s it m' di1 xs ls r).
Proof.
  intros Hs Hh Hn HN Htot. pose proof Hs as [Ht Hi Hnd Hav Hd].
  destruct (phase3_alloc h m di ids l1s it N Hs Hn HN Htot)
    as (di1 & it1 & b & Hal & Hlist & Hcnt & Hb & Hw & Hdir & H1 & Hi1 & Hsame).
  exists di1, it1. split; [exact Hal|]. rewrite Hlist in Hnd, Hav.
  destruct (Hd _ _ Hb) as [Hbo Hby]. assert (indirect2 di1 ∉ h) as Hh2 by (apply Hav; set_solver).
  pose proof Hnd as Hnd0. apply NoDup_cons in Hnd as [Hn1 Hnd]. apply NoDup_cons in Hnd as [Hn2 Hnd].
  eapply wp_modify_block; [split_and!; [exact Hb|done|lia]|done|]. apply wp_bind.
  eapply wp_mono; [apply indirect2_loop_spec with (l1s := l1s)|].
  - pose proof (held_add_size (indirect2 di1) h). unfold BLOCK_CACHE_SIZE in *. lia.
  - done.
  - lia.
  - lia.
  - apply Ht.
  - split; [apply Ht|apply index_words_length|by apply index_words_u32|done|done| |done].
    intros id Hid. destruct (Hav id) as (? & ? & ?); [by right; right|]. split_and!; try done.
    intros [->%elem_of_singleton|]%elem_of_union; done.
  - lia.
  - intros ws2' m' (xs & ls & Hg). apply wp_ret. pose proof Hg as [Hlen Hperm Hl1 [it' Hst] Hfr Hdom].
    split; [apply words_enc_block, Hst|]. exists xs, ls, (drop (cnt N - cnt (length ids)) it1).
    split; [done|].
    assert (index_words (words_enc 4 ws2') = ws2') as Hws by (apply index_words_enc; apply Hst).
    assert (is_Some (m' !! indirect2 di1)) as [b2 Hb2] by (rewrite Hdom; eauto).
    assert (index_blocks di1 N (l1s ++ ls) = indirect1 di1 :: indirect2 di1 :: l1s ++ ls) as Hidx
      by (apply index_blocks_large; lia).
    eapply grew_intro; [done|by eapply phase3_tree|done| | | | | |done].
    + apply disk_ok_insert; [apply Hst|apply words_enc_block, Hst|apply words_enc_bytes].
    + rewrite Hlen, Hidx, Hlist. simpl. do 2 f_equiv. rewrite <- app_assoc. f_equiv.
      rewrite app_assoc, (Permutation_app_comm ls xs), Hperm. by rewrite take_drop.
    + rewrite Hlen, Hidx. intros id Hid. unfold index_blocks in Hid, Hlist.
      rewrite (proj2 (Nat.ltb_lt 26 _)) in Hid by lia. rewrite H1.
      destruct (Nat.ltb_spec 154 (length ids)); [|set_solver].
      destruct (Nat.ltb_spec 26 (length ids)); [|lia]. injection Hlist as _ Hi2 _. set_solver.
    + rewrite Hlen, Hidx. intros id Hid. rewrite lookup_insert_ne by set_solver. apply Hfr. set_solver.
    + intros id. rewrite (dom_insert m' _ b2) by done. apply Hdom.
Qed.

(** ** The whole operation *)
Lemma grow_state_set_size h m di ids l1s it n :
  is_u32 n → grow_state h m di ids l1s it → grow_state h m (set_size n di) ids l1s it.
Proof.
  intros Hn [Ht Hi Hnd Hav Hd]. split; try done.
  - by destruct Ht.
  - by destruct Hi.
Qed.

Section increase.
Context (h : gset Z) (N : nat) (Hh : size h < BLOCK_CACHE_SIZE - 2) (HN : N ≤ max_blocks).

Lemma phase1_any m di ids l1s it :
  grow_state h m di ids l1s it → length ids ≤ N → tot N ≤ tot (length ids) + length it →
  ∃ d it1 xs, fill (Z.to_nat (Z.min 26 (Z.of_nat N) - Z.of_nat (length ids))) (direct di)
                (Z.to_nat (Z.of_nat (length ids))) it = Ok (d, it1) ∧
    grew h m di ids l1s it m (set_direct d di) xs [] it1 ∧
    length (ids ++ xs) = length ids `max` (26 `min` N).
Proof.
  intros Hs Hn Htot. rewrite Nat2Z.id. destruct (decide (length ids ≤ 26)).
  - replace (Z.to_nat _) with ((26 `min` N) - length ids) by lia.
    set (k := (26 `min` N) - length ids).
    assert (k ≤ length it) as Hk.
    { unfold tot in Htot. rewrite (proj2 (Nat.ltb_ge 26 (length ids))), (proj2 (Nat.ltb_ge 154 (length ids))) in Htot by lia.
      subst k. destruct (26 <? N), (154 <? N); lia. }
    destruct (phase1 h m di ids l1s it k Hs) as [Hf Hg]; [subst k; lia|done|].
    eexists _, _, _. split; [exact Hf|]. split; [exact Hg|]. rewrite length_app, length_take. subst k. lia.
  - replace (Z.to_nat _) with 0 by lia. exists (direct di), it, []. split; [done|]. split.
    + destruct di. by apply grew_refl.
    + rewrite app_nil_r. lia.
Qed.

Lemma phase2_any m di ids l1s it :
  grow_state h m di ids l1s it → 26 < N → 26 ≤ length ids ≤ N → tot N ≤ tot (length ids) + length it →
  ∃ di1 it1, (if (Z.of_nat (length ids) =? 26)%Z
            then '(x, it) ← next it; Ok (set_indirect1 x di, it) else Ok (di, it)) = Ok (di1, it1) ∧
    wp (fill_index (indirect1 di1) (Z.to_nat (Z.min 128 (Z.of_nat N - 26) - (Z.of_nat (length ids) - 26)))
          (Z.to_nat (Z.of_nat (length ids) - 26)) it1) h m
      (λ r m', ∃ xs, length (ids ++ xs) = length ids `max` (154 `min` N) ∧
                     grew h m di ids l1s it m' di1 xs [] r).
Proof.
  intros Hs H26 Hn Htot. set (k := (154 `min` N) - length ids).
  replace (Z.to_nat (Z.min _ _ - _)) with k by (subst k; lia).
  replace (Z.to_nat (Z.of_nat (length ids) - 26)) with (length ids - 26) by lia.
  destruct (decide (k = 0)) as [Hk|Hk].
  - assert (26 < length ids) as Hn26 by (subst k; lia).
    rewrite (proj2 (Z.eqb_neq _ _)) by lia. exists di, it. split; [done|]. rewrite Hk.
    pose proof Hs as [Ht Hi Hnd Hav Hd].
    destruct (tr_ind1 _ _ _ _ Ht Hn26) as (b & Hb & _).
    eapply wp_mono; [eapply fill_index_nop; [exact Hb|done| |lia]|].
    + apply Hav. unfold index_blocks. rewrite (proj2 (Nat.ltb_lt 26 _)) by lia. by left.
    + intros r m' [-> ->]. exists []. rewrite app_nil_r. split; [subst k; lia|by apply grew_refl].
  - destruct (phase2 h m di ids l1s it k Hs) as (di1 & it1 & Hal & Hwp); try (subst k; lia).
    { assert (tot (length ids + k) ≤ tot N) as Hm; [|lia].
      unfold tot. rewrite (proj2 (Nat.ltb_lt 26 (length ids + k))), (proj2 (Nat.ltb_lt 26 N)) by (subst k; lia).
      rewrite (proj2 (Nat.ltb_ge 154 (length ids + k))) by (subst k; lia). subst k. lia. }
    exists di1, it1. split; [exact Hal|]. eapply wp_mono; [exact Hwp|].
    intros r m' (xs & Hx & Hg). exists xs. split; [|done]. rewrite length_app. subst k. lia.
Qed.

Lemma phase3_any m di ids l1s it :
  grow_state h m di ids l1s it → 154 < N → 154 ≤ length ids ≤ N → tot N ≤ tot (length ids) + length it →
  ∃ di1 it1, (if (Z.of_nat (length ids) - 26 =? 128)%Z
            then '(x, it) ← next it; Ok (set_indirect2 x di, it) else Ok (di, it)) = Ok (di1, it1) ∧
    wp (modify (indirect2 di1) 0 BLOCK_SZ (λ b,
          indirect2_loop (N - length ids) (Z.of_nat (length ids - 154)) (Z.of_nat (N - 154)) (index_words b) it1 ≫= λ ind2,
          mret ((), words_enc 4 ind2))) h m
      (λ _ m', ∃ xs ls r, length (ids ++ xs) = N ∧ grew h m di ids l1s it m' di1 xs ls r).
Proof.
  intros Hs H154 Hn Htot. destruct (decide (length ids = N)) as [He|He].
  - rewrite (proj2 (Z.eqb_neq _ _)) by lia. exists di, it. split; [done|].
    pose proof Hs as [Ht Hi Hnd Hav Hd].
    destruct (tr_ind2 _ _ _ _ Ht) as (b & Hb & _); [lia|]. destruct (Hd _ _ Hb) as [Hbo Hby].
    eapply wp_modify_block; [split_and!; [exact Hb| |lia]|done|].
    + apply Hav. rewrite index_blocks_large by lia. by right; left.
    + rewrite He. destruct (N - N); cbn [indirect2_loop]; rewrite Z.ltb_irrefl; apply wp_ret;
        (assert (words_enc 4 (index_words b) = b) as -> by (by apply words_enc_dec));
        (split; [done|]); rewrite insert_id by done; exists [], [], it; rewrite app_nil_r;
        (split; [done|by apply grew_refl]).
  - apply phase3; try done. lia.
Qed.
End increase.

(** What growing an inode to [N] data blocks means. *)
Record extended (h : gset Z) (m : bmap) (di : DiskInode) (ids l1s nb : list Z) (new_size : Z)
    (di' : DiskInode) (m' : bmap) (xs ls : list Z) : Prop := {
  ex_size : di_size di' = new_size ∧ nlink di' = nlink di ∧ type_ di' = type_ di ∧ inode_ok di';
  ex_tree : tree m' di' (ids ++ xs) (l1s ++ ls);
  ex_len : length (ids ++ xs) = nblocks new_size;
  ex_perm : index_blocks di' (length (ids ++ xs)) (l1s ++ ls) ++ xs ≡ₚ index_blocks di (length ids) l1s ++ nb;
  ex_frame : ∀ id, id ∉ index_blocks di' (length (ids ++ xs)) (l1s ++ ls) → m' !! id = m !! id;
  ex_dom : ∀ id, is_Some (m' !! id) ↔ is_Some (m !! id);
  ex_disk : disk_ok m';
}.

Lemma nblocks_mono a b : (0 ≤ a ≤ b)%Z → (b ≤ 2 ^ 32 - 512)%Z → nblocks a ≤ nblocks b.
Proof.
  intros Hab Hb. unfold nblocks, data_blocks_of, BLOCK_SZ. rewrite !u32_id by (unfold is_u32; lia).
  apply Z2Nat.inj_le; dlia.
Qed.

Lemma tot_mono a b : a ≤ b → tot a ≤ tot b.
Proof.
  intros Hab. unfold tot, l1_count.
  destruct (Nat.ltb_spec 26 a), (Nat.ltb_spec 26 b), (Nat.ltb_spec 154 a), (Nat.ltb_spec 154 b); dlia.
Qed.

Lemma blocks_num_needed_spec di new_size :
  (0 ≤ di_size di ≤ new_size)%Z → (new_size ≤ 2 ^ 32 - 512)%Z →
  blocks_num_needed di new_size = Ok (Z.of_nat (tot (nblocks new_size) - tot (nblocks (di_size di)))).
Proof.
  intros Hs Hn. unfold blocks_num_needed. rewrite (proj2 (Z.leb_le _ _)) by lia. cbn [assert mbind outcome_bind].
  f_equal. pose proof (tot_mono (nblocks (di_size di)) (nblocks new_size)) as Hm.
  rewrite <- (u32_id (Z.of_nat (tot (nblocks new_size) - _))).
  - rewrite !total_blocks_tot by lia. f_equal. pose proof (nblocks_mono (di_size di) new_size). lia.
  - assert (is_u32 (total_blocks new_size)) as Hr by apply u32_range.
    rewrite total_blocks_tot in Hr by lia. unfold is_u32 in *. lia.
Qed.

Lemma grew_extended h m di ids l1s nb new_size m' di' xs ls r :
  grow_state h m di ids l1s nb → is_u32 new_size →
  grew h m (set_size new_size di) ids l1s nb m' di' xs ls r →
  length (ids ++ xs) = nblocks new_size → length nb = tot (nblocks new_size) - tot (length ids) →
  length ids ≤ nblocks new_size →
  extended h m di ids l1s nb new_size di' m' xs ls.
Proof.
  intros Hs Hu Hg Hlen Hnb Hle.
  pose proof (grew_tot _ _ _ _ _ _ _ _ _ _ _ (grow_state_set_size _ _ _ _ _ _ new_size Hu Hs) Hg) as Htot.
  pose proof (tot_mono _ _ Hle). rewrite Hlen in Htot.
  assert (r = []) as -> by (apply length_zero_iff_nil; lia).
  destruct Hg as [[Ht Hi _ _ Hd] Hp _ Hfr Hdom (Hsz & Hnl & Hty)]. rewrite app_nil_r in Hp.
  split; try done.
Qed.

Lemma increase_size_spec h m di ids l1s nb new_size :
  grow_state h m di ids l1s nb → (size h < BLOCK_CACHE_SIZE - 2) →
  length ids = nblocks (di_size di) → (di_size di < new_size ≤ 2 ^ 32 - 512)%Z →
  nblocks new_size ≤ max_blocks → length nb = tot (nblocks new_size) - tot (nblocks (di_size di)) →
  wp (increase_size di new_size nb) h m (λ di' m', ∃ xs ls, extended h m di ids l1s nb new_size di' m' xs ls).
Proof.
  intros Hs Hh Hids Hsize HN Hnb. pose proof (io_size _ (gs_inode _ _ _ _ _ _ Hs)) as Hu.
  assert (is_u32 new_size) as Hu' by (unfold is_u32 in *; lia).
  unfold increase_size. rewrite (proj2 (Z.ltb_lt (di_size di) new_size)) by lia. cbn [assert liftp mbind prog_bind].
  assert (0 ≤ di_size di)%Z as Hds by (unfold is_u32 in Hu; lia).
  rewrite blocks_num_needed_spec by lia. cbn [liftp mbind prog_bind].
  rewrite (proj2 (Z.leb_le _ (Z.of_nat (length nb)))) by lia. cbn [assert liftp mbind prog_bind].
  set (N := nblocks new_size) in *.
  assert (data_blocks di = Z.of_nat (length ids)) as -> by (unfold data_blocks; rewrite data_blocks_nblocks, Hids; done).
  assert (data_blocks (set_size new_size di) = Z.of_nat N) as ->
    by (unfold data_blocks; cbn [di_size set_size]; apply data_blocks_nblocks; lia).
  assert (length ids ≤ N) as HnN by (rewrite Hids; apply nblocks_mono; lia).
  pose proof (grow_state_set_size h m di ids l1s nb new_size Hu' Hs) as Hs0.
  assert (∀ m' di' xs ls r, grew h m (set_size new_size di) ids l1s nb m' di' xs ls r →
    length (ids ++ xs) = N → ∃ xs ls, extended h m di ids l1s nb new_size di' m' xs ls) as Hexit.
  { intros m' di' xs ls r Hg Hl. exists xs, ls. eapply grew_extended; try done. by rewrite Hids. }
  assert (tot N ≤ tot (length ids) + length nb) as Htot by (rewrite Hids; lia).
  change INODE_DIRECT_COUNT with 26%Z. change INODE_INDIRECT1_COUNT with 128%Z.
  destruct (phase1_any h N Hh HN m _ ids l1s nb Hs0 HnN Htot) as (d & it1 & xs1 & Hf & Hg1 & Hl1).
  rewrite Hf. cbn [liftp mbind prog_bind].
  pose proof (grew_tot _ _ _ _ _ _ _ _ _ _ _ Hs0 Hg1) as Ht1. pose proof (g_state _ _ _ _ _ _ _ _ _ _ _ Hg1) as Hs1.
  rewrite app_nil_r in Hs1.
  destruct (Z.ltb_spec 26 (Z.of_nat N)) as [H26|H26]; cbn [negb].
  2: { apply wp_ret. eapply Hexit; [exact Hg1|lia]. }
  replace (Z.max (Z.of_nat (length ids)) (Z.min 26 (Z.of_nat N))) with (Z.of_nat (length (ids ++ xs1))) by lia.
  destruct (phase2_any h N Hh HN m _ _ l1s it1 Hs1) as (di2 & it2 & Hal2 & Hwp2); [lia|lia|lia|].
  rewrite Hal2. cbn [liftp mbind prog_bind]. apply wp_bind. eapply wp_mono; [exact Hwp2|].
  intros it3 m2 (xs2 & Hl2 & Hg2).
  pose proof (g_state _ _ _ _ _ _ _ _ _ _ _ Hg2) as Hs2. pose proof (grew_tot _ _ _ _ _ _ _ _ _ _ _ Hs1 Hg2) as Ht2.
  rewrite <- (app_nil_r l1s) in Hg2. pose proof (grew_trans _ _ _ _ _ _ _ _ _ _ _ _ _ _ _ _ Hg1 Hg2) as Hg12.
  rewrite app_nil_r in Hs2.
  destruct (Z.ltb_spec 128 (Z.of_nat N - 26)) as [H154|H154]; cbn [negb].
  2: { apply wp_ret. eapply Hexit; [exact Hg12|]. rewrite app_assoc. lia. }
  replace (Z.max (Z.of_nat (length (ids ++ xs1)) - 26) (Z.min 128 (Z.of_nat N - 26)))
    with (Z.of_nat (length ((ids ++ xs1) ++ xs2)) - 26)%Z by lia.
  destruct (phase3_any h N Hh HN m2 _ _ l1s it3 Hs2) as (di3 & it4 & Hal3 & Hwp3); [lia|lia|lia|].
  rewrite Hal3. cbn [liftp mbind prog_bind].
  replace (Z.to_nat _) with (N - length ((ids ++ xs1) ++ xs2)) by lia.
  replace (Z.of_nat (length ((ids ++ xs1) ++ xs2)) - 26 - 128)%Z with (Z.of_nat (length ((ids ++ xs1) ++ xs2) - 154)) by lia.
  replace (Z.of_nat N - 26 - 128)%Z with (Z.of_nat (N - 154)) by lia.
  apply wp_bind. eapply wp_mono; [exact Hwp3|]. intros [] m3 (xs3 & ls3 & r & Hl3 & Hg3). apply wp_ret.
  rewrite <- (app_assoc ids) in Hg3. rewrite <- (app_nil_r l1s) in Hg3.
  pose proof (grew_trans _ _ _ _ _ _ _ _ _ _ _ _ _ _ _ _ Hg12 Hg3) as Hg.
  eapply Hexit; [exact Hg|]. rewrite <- Hl3. f_equal. by rewrite !app_assoc.
Qed.

(** Growing a file.  Given exactly the blocks [total_blocks] asks for, distinct
    from each other and from the index blocks in use, [increase_size] returns
    normally from any size to any larger size up to the 16538-block limit, keeps
    the old data blocks in place, appends new ones, uses every new block exactly
    once (as a data or as an index block), and writes to no block outside the
    inode's own index blocks. *)
Theorem increase_size_correct h m di ids l1s nb new_size :
  grow_state h m di ids l1s nb → (size h < BLOCK_CACHE_SIZE - 2) →
  length ids = nblocks (di_size di) → (di_size di < new_size ≤ 2 ^ 32 - 512)%Z →
  nblocks new_size ≤ max_blocks → length nb = tot (nblocks new_size) - tot (nblocks (di_size di)) →
  wp (increase_size di new_size nb) h m (λ di' m', ∃ xs ls, extended h m di ids l1s nb new_size di' m' xs ls).
Proof. apply increase_size_spec. Qed.

(** ** Clearing *)
Lemma take_index_words b ids off k :
  off + k ≤ length ids → k ≤ 128 → (∀ j, j < k → index_words b !! j = ids !! (off + j)) →
  take k (index_words b) = slice off k ids.
Proof.
  intros Hk H128 Hw. apply list_eq. intros j. destruct (decide (j < k)).
  - rewrite lookup_take_lt, lookup_slice by done. by apply Hw.
  - rewrite !lookup_ge_None_2; [done|rewrite length_slice by done; lia|].
    rewrite length_take, index_words_length. lia.
Qed.

Lemma push_index_spec id k b h m :
  m !! id = Some b → disk_ok m → id ∉ h → size h < BLOCK_CACHE_SIZE →
  wp (push_index id k) h m (λ v m', v = take k (index_words b) ∧ m' = m).
Proof.
  intros Hm Hd Hh Hs. destruct (Hd _ _ Hm) as [Hb _].
  eapply wp_modify_block; [by split_and!|done|]. apply wp_ret. split; [done|]. split; [done|]. by apply insert_id.
Qed.

Section clear.
Context (h : gset Z) (m : bmap) (ids : list Z) (Hd : disk_ok m) (Hh : size h < BLOCK_CACHE_SIZE).

(** [e] is the [a]-th second-level block. *)
Definition leaf_at (a : nat) (e : Z) : Prop :=
  e ∉ h ∧ ∃ b, m !! e = Some b ∧
    ∀ j, j < 128 → 154 + 128 * a + j < length ids → index_words b !! j = ids !! (154 + 128 * a + j).

Lemma push_leaf a e k :
  leaf_at a e → k ≤ 128 → 154 + 128 * a + k ≤ length ids →
  wp (push_index e k) h m (λ v m', v = slice (154 + 128 * a) k ids ∧ m' = m).
Proof.
  intros (Heh & b & Hb & Hw) Hk Hlen. eapply wp_mono; [by eapply push_index_spec|].
  intros v m' [-> ->]. split; [|done]. apply take_index_words; [done|done|]. intros j Hj. apply Hw; lia.
Qed.

Lemma clear_full_spec es a :
  (∀ i e, es !! i = Some e → leaf_at (a + i) e) → 154 + 128 * (a + length es) ≤ length ids →
  wp (clear_full es) h m (λ v m', v ≡ₚ es ++ slice (154 + 128 * a) (128 * length es) ids ∧ m' = m).
Proof.
  revert a. induction es as [|e es IH]; intros a Hes Hlen; cbn [clear_full].
  { apply wp_ret. done. }
  cbn [length] in Hlen. apply wp_bind. change (Z.to_nat INODE_INDIRECT1_COUNT) with 128.
  eapply wp_mono; [apply (push_leaf a e 128)|].
  { specialize (Hes 0 e eq_refl). by rewrite Nat.add_0_r in Hes. }
  { done. }
  { lia. }
  intros v m' [-> ->]. apply wp_bind. eapply wp_mono; [apply (IH (S a))|].
  { intros i e' Hi. replace (S a + i) with (a + S i) by lia. by apply Hes. }
  { lia. }
  intros v' m' [Hv ->]. apply wp_ret. split; [|done]. cbn [length app]. f_equiv.
  replace (128 * S (length es)) with (128 + 128 * length es) by lia. unfold slice.
  rewrite <- take_take_drop, drop_drop.
  rewrite Hv. unfold slice. replace (154 + 128 * a + 128) with (154 + 128 * S a) by lia.
  by rewrite Permutation_app_swap_app.
Qed.
End clear.

Lemma clear_ind2_spec h m di ids l1s :
  tree m di ids l1s → disk_ok m → 154 < length ids → size h < BLOCK_CACHE_SIZE - 2 →
  indirect2 di ∉ l1s → (∀ id, id ∈ indirect2 di :: l1s → id ∉ h) →
  let a1 := (length ids - 154) / 128 in
  let b1 := (length ids - 154) mod 128 in
  wp (modify (indirect2 di) 0 BLOCK_SZ (λ b,
        let ind2 := index_words b in
        clear_full (take a1 ind2) ≫= λ v2,
        (if (0 <? Z.of_nat b1)%Z then
           liftp (unwrap (ind2 !! a1)) ≫= λ e, push_index e b1 ≫= λ v3, mret (e :: v3)
         else mret []) ≫= λ v3,
        mret (v2 ++ v3, b))) h m (λ v m', v ≡ₚ l1s ++ drop 154 ids ∧ m' = m).
Proof.
  intros Ht Hd Hn Hh Hni Hfree a1 b1. destruct (tr_ind2 _ _ _ _ Ht Hn) as (b2 & Hb2 & Hw2).
  destruct (Hd _ _ Hb2) as [Hbo2 _]. set (h' := {[indirect2 di]} ∪ h).
  assert (size h' < BLOCK_CACHE_SIZE) as Hh'.
  { pose proof (held_add_size (indirect2 di) h). unfold h', BLOCK_CACHE_SIZE in *. lia. }
  assert (∀ a e, l1s !! a = Some e → leaf_at h' m ids a e) as Hleaf.
  { intros a e Ha. pose proof (list_elem_of_lookup_2 _ _ _ Ha) as Hin. split; [|by apply (tr_leaf _ _ _ _ Ht)].
    intros [->%elem_of_singleton|He]%elem_of_union; [done|]. eapply Hfree; [by right|done]. }
  pose proof (tr_l1 _ _ _ _ Ht) as Hl1. pose proof (tr_max _ _ _ _ Ht) as Hmax. unfold l1_count, max_blocks in *.
  assert (take a1 (index_words b2) = take a1 l1s) as Hta.
  { apply list_eq. intros j. destruct (decide (j < a1)).
    - rewrite !lookup_take_lt by done. apply Hw2. subst a1. dlia.
    - rewrite !lookup_ge_None_2; [done|rewrite length_take; lia|rewrite length_take; lia]. }
  assert (length (take a1 l1s) = a1) as Hla by (rewrite length_take; subst a1; dlia).
  eapply wp_modify_block; [split_and!; [exact Hb2|apply Hfree; by left|lia]|done|]. cbn zeta.
  apply wp_bind. rewrite Hta. eapply wp_mono; [apply (clear_full_spec h' m ids Hd Hh' _ 0)|].
  { intros i e Hi. apply Hleaf. apply lookup_take_Some in Hi as [? _]. done. }
  { rewrite Hla. subst a1. dlia. }
  intros v2 m' [Hv2 ->]. rewrite Hla in Hv2. replace (154 + 128 * 0) with 154 in Hv2 by lia. apply wp_bind.
  destruct (Z.ltb_spec 0 (Z.of_nat b1)) as [Hb|Hb].
  - destruct (lookup_lt_is_Some_2 l1s a1) as [e He]; [subst a1 b1; dlia|].
    rewrite Hw2, He by (by apply lookup_lt_Some in He). cbn [unwrap liftp mbind prog_bind].
    apply wp_bind. eapply wp_mono; [apply (push_leaf h' m ids Hd Hh' a1 e b1); [by apply Hleaf| |]|].
    { subst b1. dlia. }
    { subst a1 b1. dlia. }
    intros v3 m' [-> ->]. do 2 apply wp_ret. split; [done|]. split; [|by apply insert_id].
    assert (l1s = take a1 l1s ++ [e]) as Hl.
    { rewrite <- (take_drop a1 l1s) at 1. f_equal. rewrite (drop_S _ _ _ He). f_equal.
      apply drop_ge. subst a1 b1. dlia. }
    assert (drop 154 ids = slice 154 (128 * a1) ids ++ slice (154 + 128 * a1) b1 ids) as ->.
    { unfold slice. rewrite <- (drop_drop ids (128 * a1) 154), take_take_drop. symmetry. apply take_ge.
      rewrite length_drop. subst a1 b1. dlia. }
    set (t := take a1 l1s) in *. clearbody t. rewrite Hv2, Hl. solve_Permutation.
  - do 2 apply wp_ret. split; [done|]. split; [|by apply insert_id]. rewrite app_nil_r, Hv2.
    rewrite take_ge by (subst a1 b1; dlia). f_equiv. unfold slice. rewrite take_ge; [done|].
    rewrite length_drop. subst a1 b1. dlia.
Qed.

Lemma clear_direct m di ids l1s :
  tree m di ids l1s → inode_ok di → take (length ids `min` 26) (direct di) = take 26 ids.
Proof.
  intros Ht Hi. apply list_eq. intros j. destruct (decide (j < length ids `min` 26)).
  - rewrite !lookup_take_lt by lia. apply (tr_direct _ _ _ _ Ht); lia.
  - rewrite !lookup_ge_None_2; [done|rewrite length_take; lia|rewrite length_take, (io_direct _ Hi); lia].
Qed.

(** The list [v] of blocks to free and the inode left behind. *)
Definition cleared (di : DiskInode) (ids l1s v : list Z) (di' : DiskInode) : Prop :=
  v ≡ₚ index_blocks di (length ids) l1s ++ ids ∧ Z.of_nat (length v) = total_blocks (di_size di) ∧
  di_size di' = 0%Z ∧ inode_ok di' ∧ nlink di' = nlink di ∧ type_ di' = type_ di.

Lemma clear_size_spec h m di ids l1s :
  tree m di ids l1s → disk_ok m → inode_ok di → length ids = nblocks (di_size di) →
  (di_size di ≤ 2 ^ 32 - 512)%Z → size h < BLOCK_CACHE_SIZE - 2 → NoDup (index_blocks di (length ids) l1s) →
  (∀ id, id ∈ index_blocks di (length ids) l1s → id ∉ h) →
  wp (clear_size di) h m (λ '(v, di') m', m' = m ∧ cleared di ids l1s v di').
Proof.
  unfold cleared.
  intros Ht Hd Hi Hids Hsz Hh Hnd Hfree. pose proof (io_size _ Hi) as Hu. unfold is_u32 in Hu.
  assert (∀ v, v ≡ₚ index_blocks di (length ids) l1s ++ ids → Z.of_nat (length v) = total_blocks (di_size di)) as Hcount.
  { intros v Hv. rewrite Hv, length_app, (length_index_blocks _ _ _ _ Ht), Hids. rewrite total_blocks_tot by lia. done. }
  unfold clear_size. assert (data_blocks di = Z.of_nat (length ids)) as ->
    by (unfold data_blocks; rewrite data_blocks_nblocks, Hids; [done|lia]).
  change INODE_DIRECT_COUNT with 26%Z. change INODE_INDIRECT1_COUNT with 128%Z.
  set (n := length ids) in *. cbn [direct set_size].
  replace (Z.to_nat (Z.min (Z.of_nat n) 26)) with (n `min` 26) by lia.
  pose proof (clear_direct _ _ _ _ Ht Hi) as Hdir. fold n in Hdir. rewrite Hdir. set (d' := replicate _ 0%Z ++ drop _ _).
  assert (length d' = 26 ∧ Forall is_u32 d') as [Hld Hud].
  { subst d'. rewrite length_app, length_replicate, length_drop, length_take, (io_direct _ Hi). split; [lia|].
    apply Forall_app_2; [apply Forall_replicate; unfold is_u32; lia|apply Forall_drop, Hi]. }
  destruct (Z.ltb_spec 26 (Z.of_nat n)) as [H26|H26]; cbn [negb].
  2: { apply wp_ret. rewrite index_blocks_small by lia. cbn [app].
       assert (take 26 ids = ids) as Hta by (apply take_ge; lia). rewrite Hta. split_and!; try done.
       - apply Hcount. by rewrite index_blocks_small by lia.
       - by destruct Hi; split. }
  destruct (tr_ind1 _ _ _ _ Ht) as (b1 & Hb1 & Hw1); [lia|].
  apply wp_bind. eapply wp_mono.
  { eapply push_index_spec; [exact Hb1|done| |lia]. apply Hfree. unfold index_blocks.
    rewrite (proj2 (Nat.ltb_lt 26 n)) by lia. by left. }
  intros v m' [-> ->]. replace (Z.to_nat (Z.min (Z.of_nat n - 26) 128)) with ((n - 26) `min` 128) by lia.
  rewrite (take_index_words b1 ids 26) by (try (intros; apply Hw1); lia).
  destruct (Z.ltb_spec 128 (Z.of_nat n - 26)) as [H154|H154]; cbn [negb].
  2: { apply wp_ret. rewrite index_blocks_mid by lia.
       assert ((take 26 ids ++ [indirect1 di]) ++ slice 26 ((n - 26) `min` 128) ids ≡ₚ [indirect1 di] ++ ids) as Hp.
       { rewrite <- app_assoc, Permutation_app_swap_app. unfold slice. rewrite (take_ge (drop 26 ids)) by (rewrite length_drop; lia).
         by rewrite take_drop. }
       split_and!; try done.
       - apply Hcount. by rewrite index_blocks_mid by lia.
       - by destruct Hi; split. }
  pose proof (tr_max _ _ _ _ Ht) as Hmax. fold n in Hmax. unfold max_blocks in Hmax.
  rewrite (proj2 (Z.leb_le _ INODE_INDIRECT2_COUNT)) by (unfold INODE_INDIRECT2_COUNT; change INODE_INDIRECT1_COUNT with 128%Z; lia).
  cbn [assert liftp mbind prog_bind]. cbn [indirect2 set_indirect1 set_direct set_size].
  replace ((Z.of_nat n - 26 - 128) / 128)%Z with (Z.of_nat ((n - 154) / 128)) by dlia.
  replace ((Z.of_nat n - 26 - 128) mod 128)%Z with (Z.of_nat ((n - 154) mod 128)) by dlia. rewrite !Nat2Z.id.
  rewrite index_blocks_large in * by lia. apply NoDup_cons in Hnd as [_ Hnd]. apply NoDup_cons in Hnd as [Hn2 _].
  apply wp_bind. eapply wp_mono; [apply (clear_ind2_spec h m di ids l1s Ht Hd); [lia|done|done|]|].
  { intros id Hid. apply Hfree. by right. }
  intros v2 m' [Hv2 ->]. apply wp_ret.
  assert ((((take 26 ids ++ [indirect1 di]) ++ slice 26 ((n - 26) `min` 128) ids) ++ [indirect2 di]) ++ v2 ≡ₚ
          (indirect1 di :: indirect2 di :: l1s) ++ ids) as Hp.
  { rewrite Hv2. rewrite <- (take_drop 26 ids) at 4. rewrite <- (take_drop 128 (drop 26 ids)), drop_drop.
    unfold slice. replace ((n - 26) `min` 128) with 128 by lia. simpl. solve_Permutation. }
  split_and!; try done.
  - by apply Hcount.
  - by destruct Hi; split.
Qed.

(** Clearing a file gives everything back: [clear_size] returns each block of
    the inode, data and index blocks alike, exactly once (the list
    [clear_locked] frees, whose length [total_blocks] predicts), leaves the disk
    alone and an inode of size 0. *)
Theorem clear_size_complete h m di ids l1s :
  tree m di ids l1s → disk_ok m → inode_ok di → length ids = nblocks (di_size di) →
  (di_size di ≤ 2 ^ 32 - 512)%Z → size h < BLOCK_CACHE_SIZE - 2 → NoDup (index_blocks di (length ids) l1s) →
  (∀ id, id ∈ index_blocks di (length ids) l1s → id ∉ h) →
  wp (clear_size di) h m (λ '(v, di') m', m' = m ∧ cleared di ids l1s v di').
Proof. apply clear_size_spec. Qed.

Lemma empty_grow_state h m di nb :
  inode_ok di → NoDup nb → avail h m nb → disk_ok m → grow_state h m di [] [] nb.
Proof.
  intros Hi Hnd Hav Hd. split; try done. split; simpl; try lia.
  - done.
  - intros a id1 Ha. set_solver.
Qed.

Definition empty_inode : DiskInode := mkInode 0 1 0 (replicate 26 0%Z) 0 0 0.
Lemma empty_inode_ok : inode_ok empty_inode.
Proof.
  split; simpl; try (unfold is_u32, is_byte; lia). by apply (Forall_replicate is_u32 26 0%Z).
Qed.

(** From empty to 28 data blocks, past the direct slots: 29 new blocks. *)
Lemma increase_size_correct_witness :
  wp (increase_size empty_inode 14000 (seqZ 100 29)) ∅ (zero_disk 100 29) (λ di' m',
    ∃ xs ls, extended ∅ (zero_disk 100 29) empty_inode [] [] (seqZ 100 29) 14000 di' m' xs ls).
Proof.
  apply (increase_size_correct ∅ (zero_disk 100 29) empty_inode [] [] (seqZ 100 29) 14000).
  - apply empty_grow_state; [apply empty_inode_ok|apply NoDup_seqZ| |apply zero_disk_ok].
    intros id Hid%elem_of_seqZ. split_and!; [set_solver| |unfold is_u32; lia].
    eexists. by apply zero_disk_lookup.
  - apply Nat.ltb_lt. reflexivity.
  - reflexivity.
  - simpl. lia.
  - apply Nat.leb_le. reflexivity.
  - reflexivity.
Defined.

Definition two_block_inode : DiskInode := mkInode 1000 1 0 (100 :: 101 :: replicate 24 0)%Z 0 0 0.

Lemma clear_size_complete_witness :
  wp (clear_size two_block_inode) ∅ (zero_disk 100 2) (λ '(v, di') m', m' = zero_disk 100 2 ∧
    cleared two_block_inode [100; 101]%Z [] v di').
Proof.
  apply (clear_size_complete ∅ (zero_disk 100 2) two_block_inode [100; 101]%Z []).
  - split; simpl; try lia.
    + intros [|[|j]] _ Hj; [done|done|lia].
    + reflexivity.
    + intros a id1 Ha. set_solver.
    + unfold max_blocks. lia.
  - apply zero_disk_ok.
  - split; simpl; try (unfold is_u32, is_byte; lia).
    repeat apply Forall_cons_2; try (unfold is_u32; lia). apply Forall_nil_2.
  - reflexivity.
  - simpl. lia.
  - apply Nat.ltb_lt. reflexivity.
  - constructor.
  - simpl. intros id Hid. set_solver.
Defined.
