(* ===== verification/InodeData.v ===== *)
(** * The data of an inode (easy-fs/src/layout.rs: read_at, write_at)

    Through its block map an inode is an array of bytes: [content m ids] lays
    its data blocks end to end.  [read_at] is a slice of the array cut at the
    file size, [write_at] overwrites a range of it. *)
From S2P Require Import Prelude Bytes BlockCache DiskLogic Layout InodeMap.

Local Open Scope nat_scope.

Definition blocks_of (m : bmap) (ids : list Z) : list block := (λ id, default [] (m !! id)) <$> ids.
Definition content (m : bmap) (ids : list Z) : list Z := concat (blocks_of m ids).

(** An inode whose blocks can be reached while [h] is locked. *)
Record inode_file (h : gset Z) (m : bmap) (di : DiskInode) (ids l1s : list Z) : Prop := {
  if_tree : tree m di ids l1s;
  if_disk : disk_ok m;
  if_depth : size h < BLOCK_CACHE_SIZE - 2;
  if_index : ∀ id, id ∈ index_blocks di (length ids) l1s → id ∉ h;
  if_data : ∀ id, id ∈ ids → id ∉ h ∧ is_Some (m !! id);
  if_size : (0 ≤ di_size di ≤ 512 * Z.of_nat (length ids))%Z;
}.

Section data.
Context (h : gset Z) (m : bmap) (di : DiskInode) (ids l1s : list Z) (Hf : inode_file h m di ids l1s).

Lemma blocks_of_chunks : Forall (λ b, length b = 512) (blocks_of m ids).
Proof.
  apply Forall_fmap, Forall_forall. intros id Hid. destruct (if_data _ _ _ _ _ Hf id Hid) as [_ [b Hb]].
  simpl. rewrite Hb. simpl. by destruct (if_disk _ _ _ _ _ Hf _ _ Hb).
Qed.

Lemma length_content : length (content m ids) = 512 * length ids.
Proof. unfold content. rewrite (length_concat_chunks 512) by apply blocks_of_chunks. unfold blocks_of. by rewrite length_fmap. Qed.

(** The block that holds position [start]. *)
Lemma block_at_pos start :
  start < 512 * length ids →
  ∃ id b, ids !! (start / 512) = Some id ∧ m !! id = Some b ∧ block_ok b ∧
    blocks_of m ids !! (start / 512) = Some b ∧ lockable h m id b ∧
    wp (get_block_id di (u32 (Z.of_nat (start / 512)))) h m (λ r m', r = id ∧ m' = m).
Proof.
  intros Hs. destruct (lookup_lt_is_Some_2 ids (start / 512)) as [id Hid]; [dlia|].
  destruct (if_data _ _ _ _ _ Hf id) as [Hh [b Hb]]; [by eapply list_elem_of_lookup_2|].
  exists id, b. pose proof (if_depth _ _ _ _ _ Hf). split_and!; try done.
  - by destruct (if_disk _ _ _ _ _ Hf _ _ Hb).
  - unfold blocks_of. rewrite list_lookup_fmap, Hid. simpl. by rewrite Hb.
  - split_and!; [done|done|lia].
  - pose proof (tr_max _ _ _ _ (if_tree _ _ _ _ _ Hf)) as Hmax. unfold max_blocks in Hmax.
    rewrite u32_id by (unfold is_u32; dlia). eapply get_block_id_spec; [apply Hf|apply Hf| |lia|].
    + split; [apply Hf|done].
    + by rewrite Nat2Z.id.
Qed.

Lemma read_at_loop_spec fuel start fin :
  start < fin ≤ 512 * length ids → fin - start ≤ fuel →
  wp (read_at_loop fuel di (Z.of_nat start) (Z.of_nat fin) (Z.of_nat (start / 512))) h m
    (λ v m', v = slice start (fin - start) (content m ids) ∧ m' = m).
Proof.
  revert start. induction fuel as [|fuel IH]; intros start Hs Hfuel; [lia|].
  cbn [read_at_loop]. destruct (block_at_pos start) as (id & b & Hid & Hb & Hbo & Hbs & Hl & Hget); [lia|].
  change BLOCK_SZ with 512%Z. set (e := ((start / 512 + 1) * 512) `min` fin).
  replace (Z.min ((Z.of_nat start / 512 + 1) * 512) (Z.of_nat fin))%Z with (Z.of_nat e) by (subst e; dlia).
  assert (start < e ≤ fin ∧ start mod 512 + (e - start) ≤ 512) as [He Hin] by (subst e; dlia).
  apply wp_bind. eapply wp_mono; [exact Hget|]. intros r m' [-> ->].
  apply wp_bind. eapply wp_read_block; [exact Hl|done|]. apply wp_ret.
  assert (bytes_at (Z.of_nat start mod 512) (Z.of_nat e - Z.of_nat start) b =
          slice start (e - start) (content m ids)) as ->.
  { unfold bytes_at. replace (Z.to_nat _) with (start mod 512) by dlia.
    replace (Z.to_nat (Z.of_nat e - Z.of_nat start)) with (e - start) by lia.
    rewrite <- (slice_chunk 512 (blocks_of m ids) (start / 512)) by (done || apply blocks_of_chunks).
    unfold content. f_equal. pose proof (Nat.div_mod_eq start 512). lia. }
  destruct (Z.eqb_spec (Z.of_nat e) (Z.of_nat fin)) as [Heq|Hne].
  - apply wp_ret. by replace e with fin by lia.
  - apply wp_bind. assert (e / 512 = start / 512 + 1) as Hnext by (subst e; dlia).
    replace (Z.of_nat (start / 512) + 1)%Z with (Z.of_nat (e / 512)) by lia.
    eapply wp_mono; [apply IH; lia|]. intros v m' [-> ->]. apply wp_ret. split; [|done].
    replace (fin - start) with ((e - start) + (fin - e)) by lia. rewrite slice_app. do 2 f_equal. lia.
Qed.
End data.

Lemma read_at_spec h m di ids l1s (offset len : nat) :
  inode_file h m di ids l1s → (Z.of_nat offset + Z.of_nat len < 2 ^ 64)%Z →
  wp (read_at di (Z.of_nat offset) (Z.of_nat len)) h m
    (λ v m', v = slice offset len (take (Z.to_nat (di_size di)) (content m ids)) ∧ m' = m).
Proof.
  intros Hf Hlen. pose proof (if_size _ _ _ _ _ Hf) as Hsz. unfold read_at.
  rewrite u64_id by (unfold is_u64; lia). set (sz := Z.to_nat (di_size di)).
  replace (Z.min (Z.of_nat offset + Z.of_nat len) (di_size di)) with (Z.of_nat ((offset + len) `min` sz)) by lia.
  destruct (Z.leb_spec (Z.of_nat ((offset + len) `min` sz)) (Z.of_nat offset)) as [Hle|Hgt].
  - apply wp_ret. split; [|done]. symmetry. unfold slice. destruct (decide (len = 0)) as [->|]; [done|].
    rewrite (drop_ge (take sz _)); [by rewrite take_nil|]. rewrite length_take. lia.
  - replace (Z.of_nat offset / BLOCK_SZ)%Z with (Z.of_nat (offset / 512)) by (unfold BLOCK_SZ; dlia).
    eapply wp_mono; [eapply read_at_loop_spec; [done|lia|lia]|]. intros v m' [-> ->]. split; [|done].
    unfold slice. rewrite skipn_firstn_comm, take_take. f_equal. lia.
Qed.

(** Reading a file.  [read_at] returns exactly the bytes of the file from
    [offset], cut at the end of the file (none when [offset] is past it),
    whatever mix of direct, indirect and doubly indirect blocks they lie in, and
    changes nothing on the disk. *)
Theorem read_at_correct h m di ids l1s (offset len : nat) :
  inode_file h m di ids l1s → (Z.of_nat offset + Z.of_nat len < 2 ^ 64)%Z →
  wp (read_at di (Z.of_nat offset) (Z.of_nat len)) h m
    (λ v m', v = slice offset len (take (Z.to_nat (di_size di)) (content m ids)) ∧ m' = m).
Proof. apply read_at_spec. Qed.

(** ** Writing *)
Lemma blocks_of_insert m ids k id b :
  NoDup ids → ids !! k = Some id → blocks_of (<[id := b]> m) ids = <[k := b]> (blocks_of m ids).
Proof.
  intros Hnd Hk. apply list_eq. intros j. pose proof (lookup_lt_Some _ _ _ Hk).
  unfold blocks_of. destruct (decide (k = j)) as [<-|Hne].
  - rewrite list_lookup_insert_eq by (by rewrite length_fmap). rewrite list_lookup_fmap, Hk. simpl.
    by rewrite lookup_insert_eq.
  - rewrite list_lookup_insert_ne by done. rewrite !list_lookup_fmap.
    destruct (ids !! j) as [id'|] eqn:Hj; simpl; [|done]. do 2 f_equal. apply lookup_insert_ne.
    intros ->. apply Hne. by eapply NoDup_lookup.
Qed.

(** A tree does not look at its data blocks. *)
Lemma tree_frame m m' di ids l1s :
  tree m di ids l1s → (∀ id, id ∈ index_blocks di (length ids) l1s → m' !! id = m !! id) → tree m' di ids l1s.
Proof.
  intros [Hd H1 Hl H2 Hlf Hm] Hfr. split; try done.
  - intros Hn. destruct (H1 Hn) as (b & Hb & Hw). exists b. split; [|done]. rewrite Hfr; [done|].
    unfold index_blocks. rewrite (proj2 (Nat.ltb_lt _ _)) by done. by left.
  - intros Hn. destruct (H2 Hn) as (b & Hb & Hw). exists b. split; [|done]. rewrite Hfr; [done|].
    unfold index_blocks. rewrite (proj2 (Nat.ltb_lt 154 _)) by done. apply elem_of_app. right. by left.
  - eapply leaf_ok_ext; [done|]. intros id Hid. apply Hfr. unfold index_blocks.
    assert (154 < length ids) as Hn.
    { destruct l1s; [set_solver|]. simpl in Hl. pose proof (l1_count_range (length ids) 0). lia. }
    rewrite (proj2 (Nat.ltb_lt 154 _)) by done. apply elem_of_app. right. by right.
Qed.

Lemma inode_file_frame h m m' di ids l1s :
  inode_file h m di ids l1s → disk_ok m' → (∀ id, is_Some (m' !! id) ↔ is_Some (m !! id)) →
  (∀ id, id ∈ index_blocks di (length ids) l1s → m' !! id = m !! id) → inode_file h m' di ids l1s.
Proof.
  intros [Ht Hd Hs Hi Hda Hsz] Hd' Hdom Hfr. split; try done; [by eapply tree_frame|].
  intros id Hid. rewrite Hdom. by apply Hda.
Qed.

(** What a write of [new] at [off] leaves behind. *)
Record wrote (h : gset Z) (m : bmap) (di : DiskInode) (ids l1s : list Z) (off : nat) (new : list Z) (m' : bmap) : Prop := {
  wr_content : content m' ids = splice off new (content m ids);
  wr_file : inode_file h m' di ids l1s;
  wr_frame : ∀ id, id ∉ ids → m' !! id = m !! id;
  wr_dom : ∀ id, is_Some (m' !! id) ↔ is_Some (m !! id);
}.

Section write.
Context (h : gset Z) (di : DiskInode) (ids l1s : list Z) (Hnd : NoDup ids).
Context (Hdis : ∀ id, id ∈ ids → id ∉ index_blocks di (length ids) l1s).

Lemma write_block m k id b o new :
  inode_file h m di ids l1s → ids !! k = Some id → m !! id = Some b → block_ok b →
  o + length new ≤ 512 → Forall is_byte new →
  wrote h m di ids l1s (512 * k + o) new (<[id := splice o new b]> m).
Proof.
  intros Hf Hk Hb Hbo Ho Hn. pose proof (list_elem_of_lookup_2 _ _ _ Hk) as Hin.
  assert (block_ok (splice o new b)) as Hbo'.
  { unfold block_ok in *. change (Z.to_nat BLOCK_SZ) with 512 in *. rewrite length_splice; lia. }
  assert (∀ j, is_Some (<[id := splice o new b]> m !! j) ↔ is_Some (m !! j)) as Hdom by (by eapply dom_insert).
  assert (disk_ok (<[id := splice o new b]> m)) as Hd'.
  { apply disk_ok_insert; [apply Hf|done|]. apply Forall_splice; [|done].
    by destruct (if_disk _ _ _ _ _ Hf _ _ Hb). }
  split; [| |intros j Hj; apply lookup_insert_ne; by intros -> |done].
  - unfold content. rewrite (blocks_of_insert _ _ k) by done.
    eapply splice_chunk; [by eapply blocks_of_chunks| |done].
    unfold blocks_of. rewrite list_lookup_fmap, Hk. simpl. by rewrite Hb.
  - eapply inode_file_frame; [done|done|done|]. intros j Hj. apply lookup_insert_ne. intros <-. by apply (Hdis id).
Qed.

Lemma wrote_app m m1 m2 off a b :
  inode_file h m di ids l1s → off + length a + length b ≤ 512 * length ids →
  wrote h m di ids l1s off a m1 → wrote h m1 di ids l1s (off + length a) b m2 →
  wrote h m di ids l1s off (a ++ b) m2.
Proof.
  intros Hf Hl [C1 F1 O1 D1] [C2 F2 O2 D2]. split; [|done| |].
  - rewrite C2, C1. apply splice_app. by rewrite (length_content _ _ _ _ _ Hf).
  - intros id Hid. by rewrite O2, O1.
  - intros id. by rewrite D2, D1.
Qed.

Lemma write_at_loop_spec fuel m start fin buf :
  inode_file h m di ids l1s → Forall is_byte buf →
  start < fin ≤ 512 * length ids → fin - start ≤ length buf → fin - start ≤ fuel →
  wp (write_at_loop fuel di (Z.of_nat start) (Z.of_nat fin) (Z.of_nat (start / 512)) buf) h m
    (λ n m', n = Z.of_nat (fin - start) ∧ wrote h m di ids l1s start (take (fin - start) buf) m').
Proof.
  revert m start buf. induction fuel as [|fuel IH]; intros m start buf Hf Hbuf Hs Hlen Hfuel; [lia|].
  cbn [write_at_loop]. destruct (block_at_pos h m di ids l1s Hf start) as (id & b & Hid & Hb & Hbo & Hbs & Hl & Hget); [lia|].
  change BLOCK_SZ with 512%Z. set (e := ((start / 512 + 1) * 512) `min` fin).
  replace (Z.min ((Z.of_nat start / 512 + 1) * 512) (Z.of_nat fin))%Z with (Z.of_nat e) by (subst e; dlia).
  assert (start < e ≤ fin ∧ start mod 512 + (e - start) ≤ 512) as [He Hin] by (subst e; dlia).
  replace (Z.to_nat (Z.of_nat e - Z.of_nat start)) with (e - start) by lia.
  replace (Z.to_nat (Z.of_nat start mod 512)) with (start mod 512) by dlia.
  assert (length (take (e - start) buf) = e - start) as Hlt by (rewrite length_take; lia).
  apply wp_bind. eapply wp_mono; [exact Hget|]. intros r m' [-> ->].
  apply wp_bind. eapply wp_modify_block; [exact Hl|done|]. apply wp_ret.
  assert (wrote h m di ids l1s start (take (e - start) buf) (<[id := splice (start mod 512) (take (e - start) buf) b]> m)) as Hw.
  { pose proof (write_block m (start / 512) id b (start mod 512) (take (e - start) buf) Hf Hid Hb Hbo) as Hw.
    pose proof (Nat.div_mod_eq start 512) as Hdm. rewrite <- Hdm in Hw. apply Hw; [lia|by apply Forall_take]. }
  split; [unfold block_ok in *; change (Z.to_nat BLOCK_SZ) with 512 in *; rewrite length_splice; lia|].
  destruct (Z.eqb_spec (Z.of_nat e) (Z.of_nat fin)) as [Heq|Hne].
  - apply wp_ret. replace (fin - start) with (e - start) by lia. split; [lia|done].
  - apply wp_bind. assert (e / 512 = start / 512 + 1) as Hnext by (subst e; dlia).
    replace (Z.of_nat (start / 512) + 1)%Z with (Z.of_nat (e / 512)) by lia.
    eapply wp_mono; [apply IH; [apply Hw|by apply Forall_drop|lia|rewrite length_drop; lia|lia]|].
    intros n m' [-> Hw']. apply wp_ret. split; [lia|].
    replace (fin - start) with ((e - start) + (fin - e)) by lia. rewrite <- take_take_drop.
    eapply wrote_app; [done| |done|].
    + rewrite !length_take, length_drop. lia.
    + rewrite Hlt. by replace (start + (e - start)) with e by lia.
Qed.
End write.

Lemma write_at_spec h m di ids l1s offset buf :
  inode_file h m di ids l1s → NoDup ids → (∀ id, id ∈ ids → id ∉ index_blocks di (length ids) l1s) →
  Forall is_byte buf → 0 < length buf → (Z.of_nat offset < di_size di)%Z →
  (Z.of_nat offset + Z.of_nat (length buf) < 2 ^ 64)%Z →
  let n := length buf `min` (Z.to_nat (di_size di) - offset) in
  wp (write_at di (Z.of_nat offset) buf) h m
    (λ r m', r = Z.of_nat n ∧ wrote h m di ids l1s offset (take n buf) m').
Proof.
  intros Hf Hnd Hdis Hby Hb0 Hoff Hlen n. pose proof (if_size _ _ _ _ _ Hf) as Hsz. unfold write_at.
  rewrite u64_id by (unfold is_u64; lia).
  replace (Z.min (Z.of_nat offset + Z.of_nat (length buf)) (di_size di)) with (Z.of_nat (offset + n)) by lia.
  rewrite (proj2 (Z.leb_le _ _)) by lia. cbn [assert liftp mbind prog_bind].
  replace (Z.of_nat offset / BLOCK_SZ)%Z with (Z.of_nat (offset / 512)) by (unfold BLOCK_SZ; dlia).
  eapply wp_mono; [eapply write_at_loop_spec; try done; lia|].
  intros r m' [-> Hw]. replace (offset + n - offset) with n in * by lia. done.
Qed.

(** C5 Writing a file.  On a file already extended past [offset], [write_at]
    stores the buffer (up to the end of the file) at [offset] and reports its
    length; every other byte of the file, the block map and every block of the
    disk that is not a data block of this file keep their value. *)
Theorem write_at_correct h m di ids l1s offset buf :
  inode_file h m di ids l1s → NoDup ids → (∀ id, id ∈ ids → id ∉ index_blocks di (length ids) l1s) →
  Forall is_byte buf → 0 < length buf → (Z.of_nat offset < di_size di)%Z →
  (Z.of_nat offset + Z.of_nat (length buf) < 2 ^ 64)%Z →
  let n := length buf `min` (Z.to_nat (di_size di) - offset) in
  wp (write_at di (Z.of_nat offset) buf) h m
    (λ r m', r = Z.of_nat n ∧ wrote h m di ids l1s offset (take n buf) m').
Proof. apply write_at_spec. Qed.

(** Write then read: what was just written is what is read back. *)
Theorem write_then_read h m di ids l1s offset buf :
  inode_file h m di ids l1s → NoDup ids → (∀ id, id ∈ ids → id ∉ index_blocks di (length ids) l1s) →
  Forall is_byte buf → 0 < length buf → (Z.of_nat offset + Z.of_nat (length buf) ≤ di_size di)%Z →
  (Z.of_nat offset + Z.of_nat (length buf) < 2 ^ 64)%Z →
  wp (write_at di (Z.of_nat offset) buf ≫= λ n, read_at di (Z.of_nat offset) n) h m (λ v _, v = buf).
Proof.
  intros Hf Hnd Hdis Hby Hb0 Hoff Hlen. pose proof (if_size _ _ _ _ _ Hf) as Hsz.
  apply wp_bind. eapply wp_mono; [apply (write_at_spec h m di ids l1s offset buf); try done; lia|].
  replace (length buf `min` (Z.to_nat (di_size di) - offset)) with (length buf) by lia. rewrite take_ge by lia.
  intros r m1 [-> [Hc Hf1 _ _]]. eapply wp_mono; [apply (read_at_spec h m1 di ids l1s); done|].
  intros v m' [-> _]. rewrite Hc. unfold slice. rewrite skipn_firstn_comm, take_take.
  replace (length buf `min` (Z.to_nat (di_size di) - offset)) with (length buf) by lia.
  apply slice_splice_same. rewrite (length_content _ _ _ _ _ Hf). lia.
Qed.

(** ** A file of two blocks *)
Definition sample_inode : DiskInode := mkInode 1000 1 0 (100 :: 101 :: replicate 24 0)%Z 0 0 0.

Lemma sample_inode_file : inode_file ∅ (zero_disk 100 2) sample_inode [100; 101]%Z [].
Proof.
  split; [split|..]; simpl; try lia.
  - intros [|[|j]] _ Hj; [done|done|lia].
  - reflexivity.
  - intros a id1 Ha. set_solver.
  - unfold max_blocks. lia.
  - apply zero_disk_ok.
  - apply Nat.ltb_lt. reflexivity.
  - set_solver.
  - intros id Hid. split; [set_solver|]. eexists. apply zero_disk_lookup. split; [set_solver by lia|done].
Qed.

Lemma read_at_correct_witness :
  wp (read_at sample_inode (Z.of_nat 500) (Z.of_nat 20)) ∅ (zero_disk 100 2)
    (λ v m', v = slice 500 20 (take (Z.to_nat 1000) (content (zero_disk 100 2) [100; 101]%Z)) ∧ m' = zero_disk 100 2).
Proof. apply (read_at_correct ∅ _ _ _ _ 500 20 sample_inode_file). lia. Defined.

Lemma sample_disjoint : NoDup [100; 101]%Z ∧ (∀ id : Z, id ∈ [100; 101]%Z → id ∉ index_blocks sample_inode 2 []).
Proof. split; [apply (NoDup_seqZ 100 2)|]. simpl. set_solver. Qed.

Lemma write_at_correct_witness :
  wp (write_at sample_inode (Z.of_nat 510) [1; 2; 3; 4]%Z) ∅ (zero_disk 100 2) (λ r m', r = 4%Z ∧
    wrote ∅ (zero_disk 100 2) sample_inode [100; 101]%Z [] 510 [1; 2; 3; 4]%Z m').
Proof.
  apply (write_at_correct ∅ _ _ _ _ 510 [1; 2; 3; 4]%Z sample_inode_file); try apply sample_disjoint.
  - repeat apply Forall_cons_2; try (unfold is_byte; lia). apply Forall_nil_2.
  - simpl. lia.
  - simpl. lia.
  - simpl. lia.
Defined.

Lemma write_then_read_witness :
  wp (write_at sample_inode (Z.of_nat 510) [1; 2; 3; 4]%Z ≫= λ n, read_at sample_inode (Z.of_nat 510) n)
    ∅ (zero_disk 100 2) (λ v _, v = [1; 2; 3; 4]%Z).
Proof.
  apply (write_then_read ∅ _ _ _ _ 510 [1; 2; 3; 4]%Z sample_inode_file); try apply sample_disjoint.
  - repeat apply Forall_cons_2; try (unfold is_byte; lia). apply Forall_nil_2.
  - simpl. lia.
  - simpl. lia.
  - simpl. lia.
Defined.
