(* ===== verification/Efs.v ===== *)
(** * The file system on a device (easy-fs/src/efs.rs)

    Super block, inode bitmap, inode area, data bitmap, data area, in this
    order.  [create] formats a device, [open] reads the layout back. *)
From S2P Require Import Prelude Bytes BlockCache DiskLogic Bitmap Layout.

Record EasyFileSystem := mkEfs {
  inode_bitmap : Bitmap;
  data_bitmap : Bitmap;
  inode_area_start_block : Z;
  data_area_start_block : Z;
}.

(** Get inode by id: (block_id, offset). *)
Definition get_disk_inode_pos (fs : EasyFileSystem) (inode_id : Z) : Z * Z :=
  let inodes_per_block := BLOCK_SZ / INODE_SIZE in
  (u32 (inode_area_start_block fs + inode_id / inodes_per_block),
   (inode_id mod inodes_per_block) * INODE_SIZE).

Definition get_data_block_id (fs : EasyFileSystem) (data_block_id : Z) : Z :=
  u32 (data_area_start_block fs + data_block_id).

Definition alloc_inode (fs : EasyFileSystem) : prog Z :=
  bitmap_alloc (inode_bitmap fs) ≫= λ o, liftp (unwrap o) ≫= λ n, mret (u32 n).

Definition alloc_data (fs : EasyFileSystem) : prog Z :=
  bitmap_alloc (data_bitmap fs) ≫= λ o, liftp (unwrap o) ≫= λ n,
  mret (u32 (data_area_start_block fs + u32 n)).

Definition dealloc_data (fs : EasyFileSystem) (block_id : Z) : prog () :=
  modify block_id 0 BLOCK_SZ (λ b, mret ((), replicate (length b) 0)) ≫= λ _,
  bitmap_dealloc (data_bitmap fs) (u32 (block_id - data_area_start_block fs)).

(** The layout [create] computes from the two sizes, in 32-bit arithmetic. *)
Definition layout (total ib : Z) : SuperBlock * EasyFileSystem :=
  let inode_bitmap := mkBitmap 1 ib in
  let inode_num := maxmium inode_bitmap in
  let inode_area_blocks := u32 (u64 (u64 (inode_num * INODE_SIZE) + BLOCK_SZ - 1) / BLOCK_SZ) in
  let inode_total_blocks := u32 (ib + inode_area_blocks) in
  let data_total_blocks := u32 (total - 1 - inode_total_blocks) in
  let data_bitmap_blocks := u32 (data_total_blocks + 4096) / 4097 in
  let data_area_blocks := u32 (data_total_blocks - data_bitmap_blocks) in
  (sb_initialize total ib inode_area_blocks data_bitmap_blocks data_area_blocks,
   mkEfs inode_bitmap (mkBitmap (1 + inode_total_blocks) data_bitmap_blocks)
     (u32 (1 + ib)) (u32 (1 + inode_total_blocks + data_bitmap_blocks))).

Fixpoint clear_blocks (n : nat) (i : Z) : prog () :=
  match n with
  | O => mret ()
  | S n' =>
      modify i 0 BLOCK_SZ (λ b, mret ((), replicate (length b) 0)) ≫= λ _, clear_blocks n' (i + 1)
  end.

Definition modify_inode {A} (id offset : Z) (f : DiskInode → prog (A * DiskInode)) : prog A :=
  modify id offset INODE_SIZE (λ bs, f (inode_dec bs) ≫= λ '(v, di), mret (v, inode_enc bs di)).

Definition create (total ib : Z) : prog EasyFileSystem :=
  let '(sb, efs) := layout total ib in
  clear_blocks (Z.to_nat total) 0 ≫= λ _,
  modify 0 0 SUPERBLOCK_SZ (λ _, mret ((), sb_enc sb)) ≫= λ _,
  alloc_inode efs ≫= λ root,
  liftp (assert (root =? 0)) ≫= λ _,
  let '(root_inode_block_id, root_inode_offset) := get_disk_inode_pos efs 0 in
  liftp (assert (root_inode_block_id =? inode_area_start_block efs)) ≫= λ _,
  liftp (assert (root_inode_offset =? 0)) ≫= λ _,
  modify_inode root_inode_block_id root_inode_offset (λ root_inode,
    initialize_dir (initialize Directory root_inode) 0 0 (alloc_data efs) ≫= λ di, mret ((), di)) ≫= λ _,
  sync_all ≫= λ _,
  mret efs.

Definition open : prog EasyFileSystem :=
  read 0 0 SUPERBLOCK_SZ (λ bs,
    let sb := sb_dec bs in
    liftp (assert (sb_is_valid sb)) ≫= λ _,
    let inode_total_blocks := u32 (inode_bitmap_blocks sb + inode_area_blocks sb) in
    mret (mkEfs (mkBitmap 1 (inode_bitmap_blocks sb)) (mkBitmap (1 + inode_total_blocks) (data_bitmap_blocks sb))
            (u32 (1 + inode_bitmap_blocks sb)) (u32 (1 + inode_total_blocks + data_bitmap_blocks sb)))).

(** ** The layout is right *)
Record layout_ok (total ib : Z) (sb : SuperBlock) (fs : EasyFileSystem) : Prop := {
  lo_inode_bitmap : inode_bitmap fs = mkBitmap 1 ib;
  lo_inode_area : inode_area_start_block fs = 1 + ib ∧ inode_area_blocks sb = ib * 1024;
  lo_data_bitmap : start_block_id (data_bitmap fs) = inode_area_start_block fs + inode_area_blocks sb;
  lo_data_area : data_area_start_block fs = start_block_id (data_bitmap fs) + bm_blocks (data_bitmap fs);
  lo_total : data_area_start_block fs + data_area_blocks sb = total;
  lo_covered : data_area_blocks sb ≤ bm_blocks (data_bitmap fs) * BLOCK_BITS;
  lo_minimal : 0 < bm_blocks (data_bitmap fs) →
    (bm_blocks (data_bitmap fs) - 1) * BLOCK_BITS < data_area_blocks sb + 1;
  lo_sizes : 0 ≤ data_area_blocks sb ∧ 0 ≤ bm_blocks (data_bitmap fs) ∧
    bm_blocks (data_bitmap fs) = data_bitmap_blocks sb;
  lo_inodes : inode_area_blocks sb * (BLOCK_SZ / INODE_SIZE) = ib * BLOCK_BITS;
}.

Lemma layout_ok_create total ib :
  0 < ib → 1 + ib * 1025 ≤ total < 2 ^ 32 - 4096 → layout_ok total ib (layout total ib).1 (layout total ib).2.
Proof.
  intros Hib Htot. unfold layout, maxmium. cbn [bm_blocks start_block_id].
  unfold BLOCK_BITS, BLOCK_SZ, INODE_SIZE.
  assert (u32 (u64 (u64 (u64 (ib * (512 * 8)) * 128) + 512 - 1) / 512) = ib * 1024) as ->.
  { rewrite !(u64_id (ib * _)) by (unfold is_u64; lia). rewrite (u64_id (ib * (512 * 8) * 128)) by (unfold is_u64; lia).
    rewrite u64_id by (unfold is_u64; lia). rewrite u32_id; [dlia|unfold is_u32; dlia]. }
  rewrite !(u32_id (ib + _)) by (unfold is_u32; lia).
  rewrite !(u32_id (total - 1 - _)) by (unfold is_u32; lia).
  set (dt := total - 1 - (ib + ib * 1024)).
  rewrite !(u32_id (dt + 4096)) by (unfold is_u32; lia).
  assert (0 ≤ (dt + 4096) / 4097 ≤ dt) as Hdb by (subst dt; dlia).
  rewrite !(u32_id (dt - _)) by (unfold is_u32; subst dt; lia).
  rewrite (u32_id (1 + ib)) by (unfold is_u32; lia).
  rewrite (u32_id (1 + (ib + ib * 1024) + _)) by (unfold is_u32; subst dt; lia).
  split; cbn [fst snd inode_bitmap data_bitmap inode_area_start_block data_area_start_block start_block_id
    bm_blocks inode_area_blocks data_area_blocks data_bitmap_blocks sb_initialize];
    unfold BLOCK_BITS, BLOCK_SZ, INODE_SIZE; try done; change (512 / 128) with 4; subst dt; dlia.
Qed.

(** C19 The regions [create] lays out follow each other without overlap and fill
    the device exactly; the inode area holds one slot per inode bit, the data
    bitmap has a bit for every data block, and one bitmap block fewer would not
    do. *)
Theorem layout_correct total ib :
  0 < ib → 1 + ib * 1025 ≤ total < 2 ^ 32 - 4096 → layout_ok total ib (layout total ib).1 (layout total ib).2.
Proof. apply layout_ok_create. Qed.

Lemma layout_correct_witness : layout_ok 32768 1 (layout 32768 1).1 (layout 32768 1).2.
Proof. apply (layout_correct 32768 1); lia. Defined.
