(* ===== verification/Vfs.v ===== *)
(** * The virtual file system layer (easy-fs/src/vfs.rs)

    An [Inode] locates a [DiskInode].  The file-system lock [fs.lock()] is taken
    once at the entry of the public operations and never nested, so it has no
    step of its own; names and paths are byte strings. *)
From S2P Require Import Prelude Bytes BlockCache DiskLogic Bitmap Layout Efs.

Record Inode := mkVInode { inode_id : Z; i_block_id : Z; block_offset : Z }.

Definition read_disk_inode {A} (self : Inode) (f : DiskInode → prog A) : prog A :=
  read (i_block_id self) (block_offset self) INODE_SIZE (λ bs, f (inode_dec bs)).
Definition modify_disk_inode {A} (self : Inode) (f : DiskInode → prog (A * DiskInode)) : prog A :=
  modify_inode (i_block_id self) (block_offset self) f.

Section vfs.
Context (fs : EasyFileSystem).

(** [Inode::new] at the position of an inode number *)
Definition inode_at (ino : Z) : Inode :=
  let '(b, off) := get_disk_inode_pos fs ino in mkVInode ino b off.
Definition root_inode : Inode := inode_at 0.

(** Read the [i]-th entry; [assert_eq!(read_at(..), DIRENT_SZ)]. *)
Definition read_dirent_at (di : DiskInode) (i : Z) : prog DirEntry :=
  read_at di (i * DIRENT_SZ) DIRENT_SZ ≫= λ bs,
  liftp (assert (Z.of_nat (length bs) =? DIRENT_SZ)) ≫= λ _, mret (de_of_bytes bs).

Definition file_count (di : DiskInode) : Z := di_size di / DIRENT_SZ.

Fixpoint get_dirent_loop (di : DiskInode) (n : nat) (i : Z) (pred : DirEntry → outcome bool)
    : prog (option (Z * DirEntry)) :=
  match n with
  | O => mret None
  | S n' =>
      read_dirent_at di i ≫= λ de,
      liftp (pred de) ≫= λ ok : bool,
      if ok then mret (Some (i, de)) else get_dirent_loop di n' (i + 1) pred
  end.

Definition has_name (nm : list Z) (de : DirEntry) : outcome bool :=
  n ← name de; Ok (bool_decide (n = nm)).

Definition find_inode_id (nm : list Z) (di : DiskInode) : prog (option Z) :=
  liftp (assert (is_dir di)) ≫= λ _,
  get_dirent_loop di (Z.to_nat (file_count di)) 0 (has_name nm) ≫= λ o,
  mret (match o with Some (_, de) => Some (inode_number de) | None => None end).

Definition get_dirent (di : DiskInode) (pred : DirEntry → bool) : prog (option DirEntry) :=
  liftp (assert (is_dir di)) ≫= λ _,
  get_dirent_loop di (Z.to_nat (file_count di)) 0 (λ de, Ok (pred de)) ≫= λ o,
  mret (match o with Some (_, de) => Some de | None => None end).

Definition read_dirent (self : Inode) (ino : Z) : prog (option DirEntry) :=
  read_disk_inode self (λ di, get_dirent di (λ d, inode_number d =? ino)).

Fixpoint dirents_loop (di : DiskInode) (n : nat) (i : Z) : prog (list (list Z * Inode)) :=
  match n with
  | O => mret []
  | S n' =>
      read_dirent_at di i ≫= λ de,
      liftp (name de) ≫= λ nm,
      dirents_loop di n' (i + 1) ≫= λ v, mret ((nm, inode_at (inode_number de)) :: v)
  end.
Definition dirents (self : Inode) (cursor : Z) : prog (list (list Z * Inode)) :=
  read_disk_inode self (λ di,
    liftp (assert (is_dir di)) ≫= λ _,
    if file_count di <=? cursor then mret []
    else dirents_loop di (Z.to_nat (file_count di - cursor)) cursor).

Definition ls (self : Inode) : prog (list (list Z)) :=
  read_disk_inode self (λ di,
    if is_file di then mret []
    else dirents_loop di (Z.to_nat (file_count di)) 0 ≫= λ v : list (list Z * Inode), mret (fst <$> v)).

(** [path.split('/').filter(|s| !s.is_empty())] *)
Fixpoint split_path_loop (path cur : list Z) : list (list Z) :=
  match path with
  | [] => [cur]
  | c :: rest => if c =? 47 then cur :: split_path_loop rest [] else split_path_loop rest (cur ++ [c])
  end.
Definition split_path (path : list Z) : list (list Z) :=
  filter (λ s, s ≠ []) (split_path_loop path []).

Fixpoint find_loop (cur : Inode) (names : list (list Z)) : prog (option Inode) :=
  match names with
  | [] => mret (Some cur)
  | nm :: rest =>
      read_disk_inode cur (λ di, if is_file di then mret None else find_inode_id nm di) ≫= λ o,
      match o with
      | Some v => find_loop (inode_at v) rest
      | None => mret None
      end
  end.
Definition find (self : Inode) (path : list Z) : prog (option Inode) :=
  find_loop self (split_path path).

Definition increase_size (new_size : Z) (di : DiskInode) : prog DiskInode :=
  if new_size <=? di_size di then mret di
  else
    liftp (blocks_num_needed di new_size) ≫= λ blocks_needed,
    alloc_blocks (Z.to_nat blocks_needed) (alloc_data fs) ≫= λ new_blocks,
    Layout.increase_size di new_size new_blocks.

(** Append an entry to a directory. *)
Definition append_dirent (nm : list Z) (ino : Z) (di : DiskInode) : prog DiskInode :=
  let fc := file_count di in
  let new_size := u32 ((fc + 1) * DIRENT_SZ) in
  increase_size new_size di ≫= λ di,
  liftp (de_new nm ino) ≫= λ de,
  Layout.write_at di (fc * DIRENT_SZ) (as_bytes de) ≫= λ _, mret di.

Definition create_inode (self : Inode) (nm : list Z) (t : DiskInodeType) : prog (option Inode) :=
  read_disk_inode self (λ di, liftp (assert (is_dir di)) ≫= λ _, find_inode_id nm di) ≫= λ o,
  match o with
  | Some _ => mret None
  | None =>
      alloc_inode fs ≫= λ new_inode_id,
      let inode := inode_at new_inode_id in
      modify_disk_inode inode (λ di, mret ((), initialize t di)) ≫= λ _,
      modify_disk_inode self (λ di, append_dirent nm new_inode_id di ≫= λ di, mret ((), di)) ≫= λ _,
      (match t with
       | Directory =>
           modify_disk_inode inode (λ di,
             initialize_dir di new_inode_id (inode_id self) (alloc_data fs) ≫= λ di, mret ((), di))
       | File => mret ()
       end) ≫= λ _,
      sync_all ≫= λ _,
      mret (Some inode)
  end.
Definition create_file (self : Inode) (nm : list Z) : prog (option Inode) := create_inode self nm File.
Definition create_dir (self : Inode) (nm : list Z) : prog (option Inode) := create_inode self nm Directory.

Fixpoint dealloc_all (v : list Z) : prog () :=
  match v with
  | [] => mret ()
  | b :: rest => dealloc_data fs b ≫= λ _, dealloc_all rest
  end.
Definition clear_locked (self : Inode) : prog () :=
  modify_disk_inode self (λ di,
    let size := di_size di in
    clear_size di ≫= λ '(data_blocks_dealloc, di),
    liftp (assert (Z.of_nat (length data_blocks_dealloc) =? total_blocks size)) ≫= λ _,
    dealloc_all data_blocks_dealloc ≫= λ _, mret ((), di)) ≫= λ _,
  sync_all.
Definition clear (self : Inode) : prog () := clear_locked self.

Definition read_at (self : Inode) (offset len : Z) : prog (list Z) :=
  read_disk_inode self (λ di, Layout.read_at di offset len).

Definition write_at (self : Inode) (offset : Z) (buf : list Z) : prog Z :=
  modify_disk_inode self (λ di,
    liftp (assert (is_file di)) ≫= λ _,
    increase_size (u32 (u64 (offset + Z.of_nat (length buf)))) di ≫= λ di,
    Layout.write_at di offset buf ≫= λ n, mret (n, di)) ≫= λ n,
  sync_all ≫= λ _, mret n.

Definition get_size (self : Inode) : prog Z := read_disk_inode self (λ di, mret (di_size di)).
Definition vfs_is_dir (self : Inode) : prog bool := read_disk_inode self (λ di, mret (is_dir di)).
Definition vfs_is_file (self : Inode) : prog bool := read_disk_inode self (λ di, mret (is_file di)).
Definition vfs_nlink (self : Inode) : prog Z := read_disk_inode self (λ di, mret (nlink di)).

Definition link (self : Inode) (nm : list Z) (src : Inode) : prog (option Inode) :=
  read_disk_inode self (λ di, liftp (assert (is_dir di)) ≫= λ _, find_inode_id nm di) ≫= λ o,
  match o with
  | Some _ => mret None
  | None =>
      modify_disk_inode self (λ di, append_dirent nm (inode_id src) di ≫= λ di, mret ((), di)) ≫= λ _,
      modify_disk_inode src (λ di, mret ((), set_nlink (u32 (nlink di + 1)) di)) ≫= λ _,
      mret (Some src)
  end.

(** The closure of [unlink]: drop the entry, filling the gap with the last one. *)
Definition unlink_entry (nm : list Z) (di : DiskInode) : prog (option Inode * DiskInode) :=
  if negb (is_dir di) then mret (None, di)
  else
    let fc := file_count di in
    get_dirent_loop di (Z.to_nat fc) 0 (has_name nm) ≫= λ o,
    match o with
    | Some (i, de) =>
        let target := inode_at (inode_number de) in
        Layout.read_at di ((fc - 1) * DIRENT_SZ) DIRENT_SZ ≫= λ swap,
        Layout.write_at di (i * DIRENT_SZ) (swap ++ drop (length swap) (as_bytes de_new_empty)) ≫= λ _,
        mret (Some target, set_size (u32 (di_size di - DIRENT_SZ)) di)
    | None => mret (None, di)
    end.
Definition unlink (self : Inode) (nm : list Z) : prog bool :=
  modify_disk_inode self (unlink_entry nm) ≫= λ target,
  match target with
  | Some target =>
      modify_disk_inode target (λ di,
        let n := u32 (nlink di - 1) in mret (n, set_nlink n di)) ≫= λ n,
      (if n =? 0 then clear_locked target else mret ()) ≫= λ _,
      mret true
  | None => mret false
  end.
End vfs.
