(* ===== verification/FsData.v ===== *)
(** * Files on the file system (easy-fs/src/efs.rs: alloc_data;
      easy-fs/src/vfs.rs: increase_size, read_at, write_at)

    [fs_wf] says that the data bitmap and the data area are where the
    [EasyFileSystem] record says.  [file_at] says that an [Inode] locates a
    well-formed file all of whose blocks are distinct and marked in the bitmap.
    Writing through the virtual file system layer preserves both, for the file
    written and for every other file. *)
From S2P Require Import Prelude Bytes BlockCache DiskLogic Bitmap Layout InodeMap InodeGrow InodeData Efs Vfs.

Record fs_wf (h : gset Z) (m : bmap) (fs : EasyFileSystem) (nd : Z) : Prop := {
  fw_bitmap : bitmap_ok h m (data_bitmap fs);
  fw_disk : disk_ok m;
  fw_nd : 0 ≤ nd ≤ bm_blocks (data_bitmap fs) * BLOCK_BITS;
  fw_order : start_block_id (data_bitmap fs) + bm_blocks (data_bitmap fs) ≤ data_area_start_block fs;
  fw_hi : data_area_start_block fs + nd < 2 ^ 32;
  fw_area : ∀ k, 0 ≤ k < nd → is_Some (m !! (data_area_start_block fs + k));
  fw_held : ∀ k, 0 ≤ k < nd → data_area_start_block fs + k ∉ h;
}.

(** The number of free data blocks. *)
Definition nfree (m : bmap) (fs : EasyFileSystem) (nd : Z) : nat :=
  length (filter (λ k, bm_bit m (data_bitmap fs) k = false) (seqZ 0 nd)).
Definition free_bits (m : bmap) (fs : EasyFileSystem) (nd : Z) (n : nat) : Prop := (n ≤ nfree m fs nd)%nat.

Lemma filter_ext_length (P Q : Z → Prop) `{!∀ x, Decision (P x), !∀ x, Decision (Q x)} l :
  (∀ x, x ∈ l → P x ↔ Q x) → length (filter P l) = length (filter Q l).
Proof.
  induction l as [|x l IH]; intros Hpq; [done|]. rewrite !filter_cons.
  pose proof (Hpq x ltac:(by left)). assert (length (filter P l) = length (filter Q l)) as IH'
    by (apply IH; intros; apply Hpq; by right).
  destruct (decide (P x)), (decide (Q x)); simpl; rewrite ?IH'; tauto || done.
Qed.

(** Two predicates that differ at one element. *)
Lemma filter_flip_length (P Q : Z → Prop) `{!∀ x, Decision (P x), !∀ x, Decision (Q x)} l k :
  NoDup l → k ∈ l → P k → ¬ Q k → (∀ x, x ∈ l → x ≠ k → P x ↔ Q x) → length (filter P l) = S (length (filter Q l)).
Proof.
  induction l as [|x l IH]; intros Hnd Hin HP HQ Hpq; [set_solver|]. apply NoDup_cons in Hnd as [Hx Hnd].
  rewrite !filter_cons. apply elem_of_cons in Hin as [->|Hin].
  - rewrite decide_True, decide_False by done. simpl. f_equal. apply filter_ext_length.
    intros y Hy. apply Hpq; [by right|]. by intros ->.
  - assert (x ≠ k) as Hne by (by intros ->). pose proof (Hpq x ltac:(by left) Hne).
    assert (length (filter P l) = S (length (filter Q l))) as IH' by (apply IH; try done; intros; apply Hpq; [by right|done]).
    destruct (decide (P x)), (decide (Q x)); simpl; rewrite ?IH'; tauto || done.
Qed.

(** Block [b] is a data block in use, or a free one. *)
Definition data_block (m : bmap) (fs : EasyFileSystem) (nd : Z) (v : bool) (b : Z) : Prop :=
  0 ≤ b - data_area_start_block fs < nd ∧ bm_bit m (data_bitmap fs) (b - data_area_start_block fs) = v.

Section fs.
Context (fs : EasyFileSystem) (nd : Z).

Lemma data_block_not_bitmap h m v b :
  fs_wf h m fs nd → data_block m fs nd v b → ¬ in_bitmap (data_bitmap fs) b.
Proof. intros Hf [Hb _] Hin. destruct Hf. unfold in_bitmap in Hin. lia. Qed.

Lemma fs_wf_update h m m' :
  fs_wf h m fs nd → disk_ok m' → (∀ id, is_Some (m' !! id) ↔ is_Some (m !! id)) → fs_wf h m' fs nd.
Proof.
  intros [[] Hd Hn Ho Hh Ha Hhd] Hd' Hdom. split; try done; [split; try done|].
  - intros id Hid. rewrite Hdom. auto.
  - intros k Hk. rewrite Hdom. auto.
Qed.

Lemma fs_wf_held h m id :
  fs_wf h m fs nd → (size h < BLOCK_CACHE_SIZE - 1)%nat → id < start_block_id (data_bitmap fs) →
  fs_wf ({[id]} ∪ h) m fs nd.
Proof.
  intros [[B1 B2 B3 B4 B5 B6] Hd Hn Ho Hh Ha Hhd] Hs Hid. pose proof (held_add_size id h).
  split; try done; [split; try done|].
  - intros j Hj Hin. unfold in_bitmap in Hj. apply elem_of_union in Hin as [->%elem_of_singleton|Hin]; [lia|].
    by apply (B5 j).
  - unfold BLOCK_CACHE_SIZE in *. lia.
  - intros k Hk Hin. apply elem_of_union in Hin as [Hin%elem_of_singleton|Hin]; [lia|]. by apply (Hhd k).
Qed.

Lemma free_exists m n :
  free_bits m fs nd (S n) → ∃ x, 0 ≤ x < nd ∧ bm_bit m (data_bitmap fs) x = false.
Proof.
  unfold free_bits, nfree. destruct (filter _ (seqZ 0 nd)) as [|x l] eqn:E; simpl; [lia|]. intros _. exists x.
  assert (x ∈ filter (λ k, bm_bit m (data_bitmap fs) k = false) (seqZ 0 nd)) as [Hb Hx]%list_elem_of_filter
    by (rewrite E; by left).
  apply elem_of_seqZ in Hx. split; [lia|done].
Qed.

(** The count depends on the bits alone. *)
Lemma nfree_same m m' :
  (∀ k, 0 ≤ k < nd → bm_bit m' (data_bitmap fs) k = bm_bit m (data_bitmap fs) k) → nfree m' fs nd = nfree m fs nd.
Proof. intros Hb. apply filter_ext_length. intros k Hk%elem_of_seqZ. rewrite Hb by lia. done. Qed.

Lemma data_bits_nfree m m' :
  (∀ v x, data_block m fs nd v x → data_block m' fs nd v x) → nfree m' fs nd = nfree m fs nd.
Proof.
  intros Hbits. apply nfree_same. intros k Hk. destruct (Hbits (bm_bit m (data_bitmap fs) k) (data_area_start_block fs + k)) as [_ Hb].
  - unfold data_block. by replace (data_area_start_block fs + k - data_area_start_block fs) with k by lia.
  - by replace (data_area_start_block fs + k - data_area_start_block fs) with k in Hb by lia.
Qed.

Lemma alloc_data_spec h m n :
  fs_wf h m fs nd → free_bits m fs nd (S n) →
  wp (alloc_data fs) h m (λ b m', data_block m fs nd false b ∧
    bit_updated (data_bitmap fs) (b - data_area_start_block fs) true m m' ∧
    fs_wf h m' fs nd ∧ nfree m fs nd = S (nfree m' fs nd)).
Proof.
  intros Hf Hfree. unfold alloc_data. apply wp_bind. destruct (free_exists m n Hfree) as (x & Hx & Hbx).
  eapply wp_mono; [apply bitmap_alloc_spec; apply Hf|]. intros [k|] m'; cbn [unwrap liftp mbind prog_bind].
  - intros (Hr & Hc & Hleast & Hup).
    assert (k < nd) as Hk by (destruct (decide (k ≤ x)); [lia|]; rewrite Hleast in Hbx by lia; done).
    pose proof Hf as [[] Hd Hn Ho Hh Ha Hhd]. unfold bm_range in Hr.
    assert (u32 (data_area_start_block fs + u32 k) = data_area_start_block fs + k) as ->.
    { rewrite (u32_id k) by (unfold is_u32; lia). apply u32_id. unfold is_u32. lia. }
    apply wp_ret. replace (data_area_start_block fs + k - data_area_start_block fs) with k by lia.
    split; [split; [lia|by replace (data_area_start_block fs + k - data_area_start_block fs) with k by lia]|].
    split_and!; [done|eapply fs_wf_update; [done|apply Hup|apply Hup]|].
    apply (filter_flip_length _ _ _ k); [apply NoDup_seqZ|apply elem_of_seqZ; lia|done| |].
    + rewrite (bu_bits _ _ _ _ _ Hup), Z.eqb_refl by done. done.
    + intros j Hj Hjk. apply elem_of_seqZ in Hj. rewrite (bu_bits _ _ _ _ _ Hup) by (unfold bm_range; lia).
      by rewrite (proj2 (Z.eqb_neq _ _)).
  - intros [-> Hfull]. rewrite Hfull in Hbx; [done|]. unfold bm_range. destruct Hf. lia.
Qed.

(** What an allocation of the blocks [bs] changes. *)
Record allocated (h : gset Z) (m : bmap) (bs : list Z) (m' : bmap) : Prop := {
  al_nodup : NoDup bs;
  al_free : ∀ b, b ∈ bs → data_block m fs nd false b;
  al_used : ∀ b, b ∈ bs → data_block m' fs nd true b;
  al_keep : ∀ b, data_block m fs nd true b → data_block m' fs nd true b;
  al_frame : ∀ id, ¬ in_bitmap (data_bitmap fs) id → m' !! id = m !! id;
  al_dom : ∀ id, is_Some (m' !! id) ↔ is_Some (m !! id);
  al_wf : fs_wf h m' fs nd;
  al_count : nfree m fs nd = (length bs + nfree m' fs nd)%nat;
}.

Lemma alloc_blocks_spec h m n :
  fs_wf h m fs nd → free_bits m fs nd n →
  wp (alloc_blocks n (alloc_data fs)) h m (λ bs m', length bs = n ∧ allocated h m bs m').
Proof.
  revert m. induction n as [|n IH]; intros m Hf Hfree; cbn [alloc_blocks].
  { apply wp_ret. split; [done|]. split; try done; [constructor|set_solver|set_solver]. }
  apply wp_bind. eapply wp_mono; [by eapply alloc_data_spec|].
  intros b m1 ([Hb Hbf] & [Hbits Hfr Hdom _] & Hf1 & Hcount).
  apply wp_bind. eapply wp_mono; [apply IH; [done|unfold free_bits in *; lia]|].
  intros bs m2 [Hl [Hnd Hfr2 Hus Hkeep Hframe Hdom2 Hwf2 Hcount2]]. apply wp_ret. split; [simpl; lia|].
  assert (∀ k, 0 ≤ k < nd → bm_range (data_bitmap fs) k) as Hrange
    by (unfold bm_range; destruct Hf as [_ _ ? _ _ _ _]; lia).
  assert (data_block m1 fs nd true b) as Hb1.
  { split; [done|]. rewrite Hbits by (by apply Hrange). by rewrite Z.eqb_refl. }
  assert (∀ c, data_block m1 fs nd false c → data_block m fs nd false c ∧ c ≠ b) as Hback.
  { intros c [Hc Hcf]. rewrite Hbits in Hcf by (by apply Hrange).
    destruct (Z.eqb_spec (c - data_area_start_block fs) (b - data_area_start_block fs)); [done|].
    split; [by split|]. intros ->. lia. }
  split; try done.
  - apply NoDup_cons. split; [|done]. intros Hin. by destruct (Hback b (Hfr2 b Hin)).
  - intros c [->|Hc]%elem_of_cons; [by split|]. by apply Hback, Hfr2.
  - intros c [->|Hc]%elem_of_cons; [by apply Hkeep|by apply Hus].
  - intros c [Hc Hcb]. apply Hkeep. split; [done|]. rewrite Hbits by (by apply Hrange). by case_match.
  - intros id Hid. by rewrite Hframe, Hfr.
  - intros id. by rewrite Hdom2, Hdom.
  - simpl. lia.
Qed.
End fs.

(** ** Files *)
Definition owned_blocks (di : DiskInode) (ids l1s : list Z) : list Z :=
  index_blocks di (length ids) l1s ++ ids.

(** The 128 bytes of an inode on the disk. *)
Record inode_loc (fs : EasyFileSystem) (m : bmap) (self : Inode) (di : DiskInode) : Prop := {
  il_block : ∃ b, m !! i_block_id self = Some b ∧ inode_dec (bytes_at (block_offset self) INODE_SIZE b) = di;
  il_offset : 0 ≤ block_offset self ∧ block_offset self + INODE_SIZE ≤ BLOCK_SZ;
  il_area : i_block_id self < start_block_id (data_bitmap fs);
}.

Record file_at (fs : EasyFileSystem) (nd : Z) (m : bmap) (self : Inode) (di : DiskInode) (ids l1s : list Z) : Prop := {
  fi_loc : inode_loc fs m self di;
  fi_tree : tree m di ids l1s;
  fi_len : length ids = nblocks (di_size di);
  fi_size : di_size di ≤ 2 ^ 32 - 512;
  fi_nodup : NoDup (owned_blocks di ids l1s);
  fi_owned : ∀ b, b ∈ owned_blocks di ids l1s → data_block m fs nd true b;
}.

Section files.
Context (fs : EasyFileSystem) (nd : Z).
Implicit Types (self : Inode) (di : DiskInode) (ids l1s : list Z).

Lemma inode_loc_ok m self di : disk_ok m → inode_loc fs m self di → inode_ok di.
Proof.
  intros Hd [(b & Hb & <-) Ho Ha]. destruct (Hd _ _ Hb) as [Hbo Hby]. apply inode_dec_ok.
  - unfold bytes_at. rewrite length_slice; [done|]. unfold block_ok, BLOCK_SZ, INODE_SIZE in *. lia.
  - by apply Forall_slice.
Qed.

(** A write elsewhere leaves a file as it is. *)
Lemma file_at_frame m m' self di ids l1s :
  file_at fs nd m self di ids l1s →
  m' !! i_block_id self = m !! i_block_id self →
  (∀ b, b ∈ index_blocks di (length ids) l1s → m' !! b = m !! b) →
  (∀ b, data_block m fs nd true b → data_block m' fs nd true b) →
  file_at fs nd m' self di ids l1s.
Proof.
  intros [[Hb Ho Ha] Ht Hl Hs Hn Hw] Hi Hfr Hkeep. split; try done.
  - split; try done. by rewrite Hi.
  - by eapply tree_frame.
  - intros b Hb'. by apply Hkeep, Hw.
Qed.

Lemma content_frame m m' ids : (∀ b, b ∈ ids → m' !! b = m !! b) → content m' ids = content m ids.
Proof.
  intros Hfr. unfold content, blocks_of. f_equal. apply list_fmap_ext. intros i b Hb. simpl.
  rewrite Hfr; [done|]. by eapply list_elem_of_lookup_2.
Qed.

Lemma held_one_size (id : Z) : (size ({[id]} ∪ ∅ : gset Z) < BLOCK_CACHE_SIZE - 2)%nat.
Proof. pose proof (held_add_size id ∅) as Hs. rewrite size_empty in Hs. unfold BLOCK_CACHE_SIZE. lia. Qed.

Lemma length_content_present m ids :
  disk_ok m → (∀ b, b ∈ ids → is_Some (m !! b)) → length (content m ids) = (512 * length ids)%nat.
Proof.
  intros Hd Hp. unfold content. rewrite (length_concat_chunks 512); [unfold blocks_of; by rewrite length_fmap|].
  apply Forall_fmap, Forall_forall. intros id Hid. destruct (Hp id Hid) as [b Hb]. simpl. rewrite Hb.
  by destruct (Hd _ _ Hb).
Qed.

(** The file while its inode block is locked. *)
Lemma file_at_open m self di ids l1s :
  fs_wf ∅ m fs nd → file_at fs nd m self di ids l1s →
  inode_file ({[i_block_id self]} ∪ ∅) m di ids l1s.
Proof.
  intros Hf [[Hb Ho Ha] Ht Hl Hs Hn Hw].
  assert (∀ b, b ∈ owned_blocks di ids l1s → b ∉ ({[i_block_id self]} ∪ ∅ : gset Z)) as Hh.
  { intros b Hb' Hin. destruct (Hw b Hb') as [Hr _]. destruct Hf as [[] _ _ ? _ _ _].
    assert (b = i_block_id self) as -> by set_solver. lia. }
  assert (inode_ok di) as Hi by (eapply inode_loc_ok; [apply Hf|by split]).
  split; try done.
  - apply Hf.
  - apply held_one_size.
  - intros b Hb'. apply Hh, elem_of_app. by left.
  - intros b Hb'. split; [apply Hh, elem_of_app; by right|]. destruct (Hw b) as [Hr _]; [apply elem_of_app; by right|].
    replace b with (data_area_start_block fs + (b - data_area_start_block fs)) by lia.
    by apply (fw_area _ _ _ _ Hf).
  - pose proof (io_size _ Hi) as Hu. unfold is_u32 in Hu. rewrite Hl. split; [lia|]. apply nblocks_bounds. lia.
Qed.

Lemma owned_avail h m' di ids l1s nb :
  fs_wf h m' fs nd → (∀ b, b ∈ owned_blocks di ids l1s → data_block m' fs nd true b) →
  (∀ b, b ∈ nb → data_block m' fs nd true b) → avail h m' (index_blocks di (length ids) l1s ++ nb).
Proof.
  intros Hf Hown Hnb b Hb. assert (data_block m' fs nd true b) as [Hr _].
  { apply elem_of_app in Hb as [Hb|Hb]; [apply Hown, elem_of_app; by left|by apply Hnb]. }
  destruct Hf as [[B0 B1 B2 _ _ _] _ _ Ho Hh Ha Hhd].
  replace b with (data_area_start_block fs + (b - data_area_start_block fs)) by lia.
  split_and!; [by apply Hhd|by apply Ha|unfold is_u32; lia].
Qed.
End files.

(** What growing a file to [new_size] (or leaving it alone) gives, with the
    inode block locked and not yet written back. *)
Record file_grown (fs : EasyFileSystem) (nd : Z) (h : gset Z) (m : bmap) (di : DiskInode) (ids l1s : list Z)
    (new_size : Z) (di' : DiskInode) (m' : bmap) (xs ls : list Z) : Prop := {
  fg_inode : inode_ok di' ∧ di_size di' = Z.max (di_size di) new_size ∧ type_ di' = type_ di ∧ nlink di' = nlink di;
  fg_tree : tree m' di' (ids ++ xs) (l1s ++ ls);
  fg_len : length (ids ++ xs) = nblocks (di_size di');
  fg_nodup : NoDup (owned_blocks di' (ids ++ xs) (l1s ++ ls));
  fg_owned : ∀ b, b ∈ owned_blocks di' (ids ++ xs) (l1s ++ ls) → data_block m' fs nd true b;
  fg_fresh : ∀ b, b ∈ owned_blocks di' (ids ++ xs) (l1s ++ ls) →
    b ∈ owned_blocks di ids l1s ∨ data_block m fs nd false b;
  fg_keep : ∀ b, data_block m fs nd true b → data_block m' fs nd true b;
  fg_frame : ∀ id, ¬ in_bitmap (data_bitmap fs) id → id ∉ index_blocks di' (length (ids ++ xs)) (l1s ++ ls) →
    m' !! id = m !! id;
  fg_wf : fs_wf h m' fs nd;
  fg_dom : ∀ id, is_Some (m' !! id) ↔ is_Some (m !! id);
  fg_count : (nfree m fs nd + length (owned_blocks di ids l1s) =
    nfree m' fs nd + length (owned_blocks di' (ids ++ xs) (l1s ++ ls)))%nat;
}.

Section grow.
Context (fs : EasyFileSystem) (nd : Z) (h : gset Z) (m : bmap) (di : DiskInode) (ids l1s : list Z).
Context (Hf : fs_wf h m fs nd) (Hh : (size h < BLOCK_CACHE_SIZE - 2)%nat) (Hi : inode_ok di).
Context (Ht : tree m di ids l1s) (Hlen : length ids = nblocks (di_size di)).
Context (Hnd : NoDup (owned_blocks di ids l1s)).
Context (Hown : ∀ b, b ∈ owned_blocks di ids l1s → data_block m fs nd true b).

Lemma vfs_increase_size_spec new_size :
  0 ≤ new_size ≤ 2 ^ 32 - 512 → di_size di ≤ 2 ^ 32 - 512 → (nblocks new_size ≤ max_blocks)%nat →
  free_bits m fs nd (tot (nblocks new_size) - tot (nblocks (di_size di))) →
  wp (increase_size fs new_size di) h m (λ di' m', ∃ xs ls, file_grown fs nd h m di ids l1s new_size di' m' xs ls).
Proof.
  intros Hnew Hsz Hmax Hfree. unfold increase_size. pose proof (io_size _ Hi) as Hu. unfold is_u32 in Hu.
  destruct (Z.leb_spec new_size (di_size di)) as [Hle|Hgt].
  { apply wp_ret. exists [], []. split; rewrite ?app_nil_r; try done; [by rewrite Z.max_l|auto]. }
  rewrite blocks_num_needed_spec by lia. cbn [liftp mbind prog_bind]. rewrite Nat2Z.id.
  apply wp_bind. eapply wp_mono; [by apply (alloc_blocks_spec fs nd)|].
  intros nb m1 [Hl [Hnb Hbf Hbu Hkeep Hfr Hdom Hwf1 Hcount]].
  assert (∀ b, b ∈ owned_blocks di ids l1s → b ∉ nb) as Hdis.
  { intros b Hb Hin. destruct (Hown b Hb) as [_ Ht1]. destruct (Hbf b Hin) as [_ Ht2]. congruence. }
  assert (grow_state h m1 di ids l1s nb) as Hgs.
  { split; [|done| |eapply owned_avail; eauto|apply Hwf1].
    - eapply tree_frame; [done|]. intros b Hb. apply Hfr. eapply data_block_not_bitmap; [exact Hf|].
      apply Hown, elem_of_app. by left.
    - apply NoDup_app in Hnd as (Hnd1 & _ & _). apply NoDup_app. split_and!; [done| |done].
      intros b Hb. apply Hdis, elem_of_app. by left. }
  eapply wp_mono; [apply (increase_size_spec h m1 di ids l1s nb new_size); try done; lia|].
  intros di' m2 (xs & ls & [Hs2 Ht2 Hl2 Hp2 Hf2 Hd2 Hdk2]). exists xs, ls.
  destruct Hs2 as (Es & En & Ety & Hi2).
  assert (owned_blocks di' (ids ++ xs) (l1s ++ ls) ≡ₚ owned_blocks di ids l1s ++ nb) as Hperm.
  { unfold owned_blocks. revert Hp2. generalize (index_blocks di' (length (ids ++ xs)) (l1s ++ ls)) as I'. intros I' Hp2.
    rewrite (Permutation_app_comm ids xs), app_assoc, Hp2. solve_Permutation. }
  assert (∀ b, b ∈ owned_blocks di' (ids ++ xs) (l1s ++ ls) → data_block m1 fs nd true b) as Hall.
  { intros b Hb. rewrite Hperm in Hb. apply elem_of_app in Hb as [Hb|Hb]; [by apply Hkeep, Hown|by apply Hbu]. }
  assert (∀ v b, data_block m1 fs nd v b → data_block m2 fs nd v b) as Hbits.
  { intros v b [Hr Hb]. split; [done|]. rewrite <- Hb. unfold bm_bit. rewrite Hf2; [done|].
    intros Hin. destruct (Hall (start_block_id (data_bitmap fs) + (b - data_area_start_block fs) / BLOCK_BITS)) as [Hx _].
    - apply elem_of_app. by left.
    - destruct Hwf1 as [[] _ Hnn Ho _ _ _]. clear -Hx Hr Hnn Ho. unfold BLOCK_BITS, BLOCK_SZ in *. dlia. }
  split; try done.
  - split_and!; [done|lia|done|done].
  - by rewrite Es.
  - rewrite Hperm. apply NoDup_app. split_and!; [done|done|done].
  - intros b Hb. by apply Hbits, Hall.
  - intros b Hb. rewrite Hperm in Hb. apply elem_of_app in Hb as [Hb|Hb]; [by left|right; by apply Hbf].
  - intros b Hb. by apply Hbits, Hkeep.
  - intros id Hid Hid2. rewrite Hf2 by done. by apply Hfr.
  - by eapply fs_wf_update.
  - intros id. by rewrite Hd2, Hdom.
  - rewrite Hperm, length_app, Hcount, (data_bits_nfree _ _ m1 m2 Hbits). lia.
Qed.
End grow.

(** ** Writing through the virtual file system layer *)

(** Two inodes that do not share bytes. *)
Definition apart (a b : Inode) : Prop :=
  i_block_id a ≠ i_block_id b ∨ block_offset a + INODE_SIZE ≤ block_offset b ∨
  block_offset b + INODE_SIZE ≤ block_offset a.

(** A change of one inode and of data blocks: afterwards [self] is the file
    given by [di], [ids] and [l1s], whose blocks are some of the blocks [own] it
    had and blocks that were free.  Every other file is as before, and so is
    every block before the data bitmap, except that of the inode. *)
Record inode_step (fs : EasyFileSystem) (nd : Z) (m : bmap) (self : Inode) (own : list Z)
    (m' : bmap) (di : DiskInode) (ids l1s : list Z) : Prop := {
  is_at : file_at fs nd m' self di ids l1s;
  is_wf : fs_wf ∅ m' fs nd;
  is_fresh : ∀ b, b ∈ owned_blocks di ids l1s → b ∈ own ∨ data_block m fs nd false b;
  is_others : ∀ other dio idso lo, file_at fs nd m other dio idso lo → apart self other →
    (∀ x, x ∈ own → x ∉ owned_blocks dio idso lo) →
    file_at fs nd m' other dio idso lo ∧ content m' idso = content m idso;
  is_low : ∀ id, id < start_block_id (data_bitmap fs) → id ≠ i_block_id self → m' !! id = m !! id;
  is_dom : ∀ id, is_Some (m' !! id) ↔ is_Some (m !! id);
  is_count : (nfree m fs nd ≤ nfree m' fs nd + (length (owned_blocks di ids l1s) - length own))%nat;
}.

Record vfs_wrote (fs : EasyFileSystem) (nd : Z) (m : bmap) (self : Inode) (di : DiskInode) (ids l1s : list Z)
    (offset : nat) (buf : list Z) (m' : bmap) (di' : DiskInode) (xs ls : list Z) : Prop := {
  vw_step : inode_step fs nd m self (owned_blocks di ids l1s) m' di' (ids ++ xs) (l1s ++ ls);
  vw_inode : di_size di' = Z.max (di_size di) (Z.of_nat (offset + length buf)) ∧
    type_ di' = type_ di ∧ nlink di' = nlink di;
  vw_content : content m' (ids ++ xs) = splice offset buf (content m (ids ++ xs));
}.

Lemma inode_roundtrip_at off b di :
  block_ok b → 0 ≤ off ∧ off + INODE_SIZE ≤ BLOCK_SZ → inode_ok di →
  let new := inode_enc (bytes_at off INODE_SIZE b) di in
  length new = Z.to_nat INODE_SIZE ∧
  inode_dec (bytes_at off INODE_SIZE (splice (Z.to_nat off) new b)) = di ∧
  ∀ off2, 0 ≤ off2 ∧ off2 + INODE_SIZE ≤ BLOCK_SZ → off + INODE_SIZE ≤ off2 ∨ off2 + INODE_SIZE ≤ off →
    bytes_at off2 INODE_SIZE (splice (Z.to_nat off) new b) = bytes_at off2 INODE_SIZE b.
Proof.
  intros Hb Ho Hi new. unfold block_ok, INODE_SIZE, BLOCK_SZ in *.
  assert (length new = 128%nat) as Hl.
  { apply length_inode_enc; [apply Hi|]. unfold bytes_at. apply length_slice. lia. }
  split; [done|]. unfold bytes_at. split.
  - change (Z.to_nat 128) with 128%nat. rewrite <- Hl at 1. rewrite slice_splice_same by lia. by apply inode_dec_enc.
  - intros off2 Ho2 Hd. apply slice_splice_disjoint; lia.
Qed.

Lemma file_grown_open fs nd h m di ids l1s new_size di' m' xs ls :
  (size h < BLOCK_CACHE_SIZE - 2)%nat → 0 ≤ new_size ≤ 2 ^ 32 - 512 → 0 ≤ di_size di ≤ 2 ^ 32 - 512 →
  file_grown fs nd h m di ids l1s new_size di' m' xs ls → inode_file h m' di' (ids ++ xs) (l1s ++ ls).
Proof.
  intros Hh Hn Hs [(Hi & Hsz & _) Ht Hl Hnd Hown _ _ _ Hwf _ _].
  assert (∀ b, b ∈ owned_blocks di' (ids ++ xs) (l1s ++ ls) → b ∉ h ∧ is_Some (m' !! b)) as Hb.
  { intros b Hb. destruct (Hown b Hb) as [Hr _].
    replace b with (data_area_start_block fs + (b - data_area_start_block fs)) by lia.
    split; [by apply (fw_held _ _ _ _ Hwf)|by apply (fw_area _ _ _ _ Hwf)]. }
  split; try done; [apply Hwf| | |].
  - intros b Hin. apply Hb, elem_of_app. by left.
  - intros b Hin. apply Hb, elem_of_app. by right.
  - rewrite Hl. split; [lia|]. apply nblocks_bounds. lia.
Qed.

(** What an update of an inode does to the other blocks while the block of the
    inode itself is locked: [di] is to be written back. *)
Record inode_change (fs : EasyFileSystem) (nd : Z) (m : bmap) (own : list Z)
    (m' : bmap) (di : DiskInode) (ids l1s : list Z) : Prop := {
  ic_inode : inode_ok di;
  ic_tree : tree m' di ids l1s;
  ic_len : length ids = nblocks (di_size di);
  ic_size : di_size di ≤ 2 ^ 32 - 512;
  ic_nodup : NoDup (owned_blocks di ids l1s);
  ic_owned : ∀ b, b ∈ owned_blocks di ids l1s → data_block m' fs nd true b;
  ic_fresh : ∀ b, b ∈ owned_blocks di ids l1s → b ∈ own ∨ data_block m fs nd false b;
  ic_keep : ∀ b, data_block m fs nd true b → b ∉ own → data_block m' fs nd true b;
  ic_frame : ∀ id, ¬ in_bitmap (data_bitmap fs) id → id ∉ own → ¬ data_block m fs nd false id → m' !! id = m !! id;
  ic_dom : ∀ id, is_Some (m' !! id) ↔ is_Some (m !! id);
  ic_disk : disk_ok m';
  ic_count : (nfree m fs nd ≤ nfree m' fs nd + (length (owned_blocks di ids l1s) - length own))%nat;
}.

Section change.
Context (fs : EasyFileSystem) (nd : Z) (m : bmap) (self : Inode) (own : list Z).
Context (Hf : fs_wf ∅ m fs nd) (Hown : ∀ x, x ∈ own → data_block m fs nd true x).

Lemma data_not_low v x : data_block m fs nd v x → start_block_id (data_bitmap fs) ≤ x.
Proof. intros [Hx _]. destruct Hf as [[] _ _ Hord _ _ _]. lia. Qed.

Lemma change_low m2 di' ids' l1s' id :
  inode_change fs nd m own m2 di' ids' l1s' → id < start_block_id (data_bitmap fs) → m2 !! id = m !! id.
Proof.
  intros Hc Hid. apply (ic_frame _ _ _ _ _ _ _ _ Hc); [unfold in_bitmap; lia| |].
  - intros Hin%Hown%data_not_low. lia.
  - intros Hx%data_not_low. lia.
Qed.

(** Writing the inode back. *)
Lemma change_step m2 di' ids' l1s' b :
  m !! i_block_id self = Some b → 0 ≤ block_offset self ∧ block_offset self + INODE_SIZE ≤ BLOCK_SZ →
  i_block_id self < start_block_id (data_bitmap fs) → inode_change fs nd m own m2 di' ids' l1s' →
  let m3 := <[i_block_id self := splice (Z.to_nat (block_offset self))
    (inode_enc (bytes_at (block_offset self) INODE_SIZE b) di') b]> m2 in
  inode_step fs nd m self own m3 di' ids' l1s' ∧ content m3 ids' = content m2 ids'.
Proof.
  intros Hb Ho Ha Hc. pose proof Hc as [Hi Ht Hl Hs Hnd Hus Hfresh Hkeep Hfr Hdom Hdk Hcount].
  destruct (fw_disk _ _ _ _ Hf _ _ Hb) as [Hbo Hby].
  destruct (inode_roundtrip_at (block_offset self) b di' Hbo Ho Hi) as (Hlen & Hdec & Hother).
  set (new := splice _ _ b) in *. intros m3.
  assert (∀ v x, data_block m fs nd v x → x ≠ i_block_id self) as Hne
    by (intros v x Hx%data_not_low ->; lia).
  assert (∀ x, x ∈ owned_blocks di' ids' l1s' → m3 !! x = m2 !! x) as H32.
  { intros x Hx. apply lookup_insert_ne, not_eq_sym.
    destruct (Hfresh x Hx) as [Hx'|Hx']; [by eapply Hne, Hown|by eapply Hne]. }
  assert (∀ k, 0 ≤ k < nd → bm_bit m3 (data_bitmap fs) k = bm_bit m2 (data_bitmap fs) k) as Hbit3.
  { intros k Hr. unfold bm_bit, m3. rewrite lookup_insert_ne; [done|].
    destruct Hf as [[] _ Hnn _ _ _ _]. clear -Hr Hnn bo_blocks Ha. unfold BLOCK_BITS, BLOCK_SZ in *. dlia. }
  assert (∀ v x, data_block m2 fs nd v x → data_block m3 fs nd v x) as Hbits
    by (intros v x [Hr Hx]; split; [done|by rewrite Hbit3]).
  assert (is_Some (m2 !! i_block_id self)) as [b2 Hb2] by (apply Hdom; eauto).
  assert (disk_ok m3) as Hd3.
  { apply disk_ok_insert; [done| |].
    - unfold block_ok in *. subst new. rewrite length_splice; rewrite ?Hlen; unfold INODE_SIZE, BLOCK_SZ in *; lia.
    - subst new. apply Forall_splice; [done|]. apply inode_enc_bytes; [apply Hi|by apply Forall_slice]. }
  assert (∀ id, is_Some (m3 !! id) ↔ is_Some (m !! id)) as Hdom3.
  { intros id. unfold m3. rewrite (dom_insert m2 _ b2) by done. by rewrite Hdom. }
  split; [split|apply content_frame; intros x Hx; apply H32, elem_of_app; by right].
  - split; [|eapply tree_frame; [exact Ht|]| | |done|]; try done.
    + split; [|done|done]. exists new. unfold m3. by rewrite lookup_insert_eq.
    + intros x Hx. apply H32, elem_of_app. by left.
    + intros x Hx. by apply Hbits, Hus.
  - by eapply fs_wf_update.
  - done.
  - intros other dio idso lo Hoth Hsep Hdisj. pose proof Hoth as [[(bo & Hbo' & Hdo) Hoo Hoa] _ _ _ _ Hown2].
    assert (∀ x, x ∈ owned_blocks dio idso lo → m3 !! x = m !! x) as Hsame.
    { intros x Hx. pose proof (Hown2 x Hx) as Hx2.
      unfold m3. rewrite lookup_insert_ne by (by eapply not_eq_sym, Hne). apply Hfr.
      - by eapply data_block_not_bitmap.
      - intros Hin. by apply (Hdisj x).
      - intros [_ Hx3]. destruct Hx2 as [_ Hx2]. congruence. }
    split; [|apply content_frame; intros x Hx; apply Hsame, elem_of_app; by right].
    split; try apply Hoth.
    + split; [|done|done]. destruct (decide (i_block_id self = i_block_id other)) as [He|He].
      * exists new. unfold m3. rewrite <- He, lookup_insert_eq. split; [done|]. rewrite <- Hdo.
        rewrite <- He, Hb in Hbo'. injection Hbo' as <-. f_equal. apply Hother; [done|]. unfold apart in Hsep. naive_solver.
      * exists bo. unfold m3. rewrite lookup_insert_ne by done. by rewrite (change_low _ _ _ _ _ Hc).
    + eapply tree_frame; [apply Hoth|]. intros x Hx. apply Hsame, elem_of_app. by left.
    + intros x Hx. apply Hbits, Hkeep; [by apply Hown2|]. intros Hin. by apply (Hdisj x).
  - intros id Hid Hne2. unfold m3. rewrite lookup_insert_ne by done. by eapply change_low.
  - done.
  - by rewrite (nfree_same _ _ m2 m3).
Qed.

(** The proof rule for [modify_disk_inode]. *)
Lemma wp_modify_inode {A} di (f : DiskInode → prog (A * DiskInode))
    (R : A → bmap → DiskInode → list Z → list Z → Prop) :
  inode_loc fs m self di →
  wp (f di) ({[i_block_id self]} ∪ ∅) m (λ '(v, di') m2, ∃ ids' l1s',
    inode_change fs nd m own m2 di' ids' l1s' ∧ R v m2 di' ids' l1s') →
  wp (modify_disk_inode self f) ∅ m (λ v m', ∃ m2 di' ids' l1s',
    (inode_step fs nd m self own m' di' ids' l1s' ∧ content m' ids' = content m2 ids') ∧ R v m2 di' ids' l1s').
Proof.
  intros [(b & Hb & <-) Ho Ha] Hwp. unfold modify_disk_inode, modify_inode.
  destruct (fw_disk _ _ _ _ Hf _ _ Hb) as [Hbo Hby].
  eapply wp_modify; [split_and!; [exact Hb|set_solver|by apply Nat.ltb_lt]|done|apply Ho|done|apply Ho|].
  apply wp_bind. eapply wp_mono; [exact Hwp|]. intros [v di'] m2 (ids' & l1s' & Hc & HR). apply wp_ret.
  destruct (inode_roundtrip_at (block_offset self) b di' Hbo Ho) as (Hlen & _); [by eapply ic_inode|].
  split; [done|]. exists m2, di', ids', l1s'. split; [|done]. by apply change_step.
Qed.
End change.

(** Growing a file and writing into it. *)
Lemma wrote_change fs nd h m di ids l1s offset buf di' m1 m2 xs ls :
  fs_wf ∅ m fs nd → di_size di ≤ 2 ^ 32 - 512 → Z.of_nat (offset + length buf) ≤ 2 ^ 32 - 512 →
  (∀ b, b ∈ owned_blocks di ids l1s → data_block m fs nd true b) →
  file_grown fs nd h m di ids l1s (Z.of_nat (offset + length buf)) di' m1 xs ls →
  wrote h m1 di' (ids ++ xs) (l1s ++ ls) offset buf m2 →
  inode_change fs nd m (owned_blocks di ids l1s) m2 di' (ids ++ xs) (l1s ++ ls) ∧
  content m2 (ids ++ xs) = splice offset buf (content m (ids ++ xs)).
Proof.
  intros Hf Hs Hend Hold [(Hi & Hsz & Hty & Hnl) Ht Hl Hnd Hown Hfresh Hkeep Hfr Hwf Hdom Hcount] [Wc Wf Wfr Wdom].
  assert (∀ v x, data_block m1 fs nd v x → data_block m2 fs nd v x) as Hbits.
  { intros v x [Hr Hx]. split; [done|]. rewrite <- Hx. unfold bm_bit. rewrite Wfr; [done|].
    intros Hx'. destruct (Hown _ (proj2 (elem_of_app _ _ _) (or_intror Hx'))) as [Hy _].
    destruct Hwf as [[] _ Hnn Hord _ _ _]. clear -Hy Hr Hnn Hord. unfold BLOCK_BITS, BLOCK_SZ in *. dlia. }
  split; [split; try done|].
  - apply Wf.
  - lia.
  - intros x Hx. by apply Hbits, Hown.
  - intros x Hx Hno. by apply Hbits, Hkeep.
  - intros id Hid Hno Hnf. assert (id ∉ owned_blocks di' (ids ++ xs) (l1s ++ ls)) as Hni
      by (intros Hin; by destruct (Hfresh id Hin)).
    rewrite Wfr, Hfr; [done|done| |]; intros Hin; apply Hni, elem_of_app; auto.
  - intros id. by rewrite Wdom, Hdom.
  - apply Wf.
  - rewrite (data_bits_nfree _ _ m1 m2 Hbits). lia.
  - rewrite Wc. f_equal. apply content_frame. intros x Hx.
    assert (x ∈ owned_blocks di' (ids ++ xs) (l1s ++ ls)) as Hx' by (apply elem_of_app; by right).
    apply Hfr; [eapply data_block_not_bitmap; [exact Hwf|by apply Hown]|].
    intros Hin. apply NoDup_app in Hnd as (_ & Hdis & _). by apply (Hdis x).
Qed.

(** [increase_size] then [write_at], with the block [blk] of the inode locked. *)
Section grow_write.
Context (fs : EasyFileSystem) (nd : Z) (m : bmap) (blk : Z) (di : DiskInode) (ids l1s : list Z).
Context (Hf : fs_wf ∅ m fs nd) (Ha : blk < start_block_id (data_bitmap fs)) (Hi : inode_ok di).
Context (Ht : tree m di ids l1s) (Hl : length ids = nblocks (di_size di)) (Hs : di_size di ≤ 2 ^ 32 - 512).
Context (Hnd : NoDup (owned_blocks di ids l1s)).
Context (Hown : ∀ b, b ∈ owned_blocks di ids l1s → data_block m fs nd true b).

Lemma grow_write_spec {A} offset buf (k : DiskInode → Z → A) (mid : DiskInode → outcome (list Z)) :
  Forall is_byte buf → (0 < length buf)%nat → Z.of_nat (offset + length buf) ≤ 2 ^ 32 - 512 →
  (nblocks (Z.of_nat (offset + length buf)) ≤ max_blocks)%nat →
  free_bits m fs nd (tot (nblocks (Z.of_nat (offset + length buf))) - tot (nblocks (di_size di))) →
  (∀ d, mid d = Ok buf) →
  wp (increase_size fs (Z.of_nat (offset + length buf)) di ≫= λ d, liftp (mid d) ≫= λ bs,
      Layout.write_at d (Z.of_nat offset) bs ≫= λ n, mret (k d n)) ({[blk]} ∪ ∅) m
    (λ r m2, ∃ di' xs ls, r = k di' (Z.of_nat (length buf)) ∧
      inode_change fs nd m (owned_blocks di ids l1s) m2 di' (ids ++ xs) (l1s ++ ls) ∧
      (di_size di' = Z.max (di_size di) (Z.of_nat (offset + length buf)) ∧ type_ di' = type_ di ∧ nlink di' = nlink di) ∧
      content m2 (ids ++ xs) = splice offset buf (content m (ids ++ xs))).
Proof.
  intros Hbuf Hb0 Hend Hmax Hfree Hmid.
  pose proof (io_size _ Hi) as Hu. unfold is_u32 in Hu. pose proof (held_one_size blk) as Hh.
  apply wp_bind. eapply wp_mono.
  { apply (vfs_increase_size_spec fs nd _ m di ids l1s); try done; [|lia].
    apply fs_wf_held; [done|by apply Nat.ltb_lt|done]. }
  intros di' m1 (xs & ls & Hg). pose proof Hg as [(Hi' & Hsz & Hty & Hnl) _ _ Hnd' _ _ _ _ _ _ _].
  assert (inode_file ({[blk]} ∪ ∅) m1 di' (ids ++ xs) (l1s ++ ls)) as Hif
    by (eapply file_grown_open; [done| | |exact Hg]; lia).
  unfold owned_blocks in Hnd'. apply NoDup_app in Hnd' as (_ & Hdis & Hndi).
  rewrite Hmid. cbn [liftp mbind prog_bind]. apply wp_bind. eapply wp_mono.
  { apply (write_at_spec _ m1 di' (ids ++ xs) (l1s ++ ls) offset buf); try done; [|lia|lia].
    intros x Hx Hin. by apply (Hdis x). }
  replace (length buf `min` (Z.to_nat (di_size di') - offset))%nat with (length buf) by lia.
  rewrite take_ge by lia. intros n m2 [-> Hw]. apply wp_ret. exists di', xs, ls.
  destruct (wrote_change fs nd _ m di ids l1s offset buf di' m1 m2 xs ls Hf Hs Hend Hown Hg Hw) as [Hch Hct].
  done.
Qed.
End grow_write.

Section write_file.
Context (fs : EasyFileSystem) (nd : Z) (m : bmap) (self : Inode) (di : DiskInode) (ids l1s : list Z).
Context (Hf : fs_wf ∅ m fs nd) (Hfile : file_at fs nd m self di ids l1s).

Lemma file_at_ok : inode_ok di.
Proof. eapply inode_loc_ok; [apply Hf|by eapply fi_loc]. Qed.
Context (Hreg : is_file di = true).

Lemma vfs_write_at_spec offset buf :
  Forall is_byte buf → (0 < length buf)%nat → Z.of_nat (offset + length buf) ≤ 2 ^ 32 - 512 →
  (nblocks (Z.of_nat (offset + length buf)) ≤ max_blocks)%nat →
  free_bits m fs nd (tot (nblocks (Z.of_nat (offset + length buf))) - tot (nblocks (di_size di))) →
  wp (write_at fs self (Z.of_nat offset) buf) ∅ m (λ n m', n = Z.of_nat (length buf) ∧
    ∃ di' xs ls, vfs_wrote fs nd m self di ids l1s offset buf m' di' xs ls).
Proof.
  intros Hbuf Hb0 Hend Hmax Hfree. unfold write_at. apply wp_bind. eapply wp_mono.
  { eapply (wp_modify_inode fs nd m self (owned_blocks di ids l1s) Hf (fi_owned _ _ _ _ _ _ _ Hfile) di _
      (λ n m2 di' ids' l1s', n = Z.of_nat (length buf) ∧ ∃ xs ls, ids' = ids ++ xs ∧ l1s' = l1s ++ ls ∧
        (di_size di' = Z.max (di_size di) (Z.of_nat (offset + length buf)) ∧ type_ di' = type_ di ∧ nlink di' = nlink di) ∧
        content m2 ids' = splice offset buf (content m ids'))); [by eapply fi_loc|].
    rewrite Hreg. cbn [assert liftp mbind prog_bind].
    assert (u32 (u64 (Z.of_nat offset + Z.of_nat (length buf))) = Z.of_nat (offset + length buf)) as ->.
    { rewrite u64_id, u32_id by (unfold is_u64, is_u32; lia). lia. }
    eapply wp_mono.
    { pose proof file_at_ok. destruct Hfile as [[_ _ Ha] Ht Hl Hs Hnd Hown].
      by apply (grow_write_spec fs nd m _ di ids l1s Hf Ha) with (k := λ d n, (n, d)) (mid := λ _, Ok buf). }
    intros [n d] m2 (di' & xs & ls & [= -> ->] & Hch & Hst & Hct). exists (ids ++ xs), (l1s ++ ls).
    split; [done|]. split; [done|]. by exists xs, ls. }
  intros n m' (m2 & di' & ids' & l1s' & [Hstep Heq] & -> & xs & ls & -> & -> & Hst & Hct).
  apply wp_bind. eapply wp_mono; [by apply wp_sync|]. intros [] m'' ->. apply wp_ret.
  split; [done|]. exists di', xs, ls. split; [done|done|]. by rewrite Heq.
Qed.

Lemma vfs_read_at_spec offset len :
  Z.of_nat offset + Z.of_nat len < 2 ^ 64 →
  wp (read_at self (Z.of_nat offset) (Z.of_nat len)) ∅ m
    (λ v m', v = slice offset len (take (Z.to_nat (di_size di)) (content m ids)) ∧ m' = m).
Proof.
  clear Hreg. intros Hlen. pose proof Hfile as [[(b & Hb & Hdec) Ho Ha] _ _ _ _ _].
  unfold read_at, read_disk_inode.
  eapply wp_read; [split_and!; [exact Hb|set_solver|by apply Nat.ltb_lt]|apply Ho|done|apply Ho|].
  rewrite Hdec. apply (read_at_spec _ m di ids l1s); [|done]. by eapply file_at_open.
Qed.
End write_file.

(** Writing a file through the virtual file system layer, allocation
    included.  With enough free data blocks, [Inode::write_at] on a regular file
    writes the whole buffer at any offset, growing the file as needed; the file
    stays well formed, its other bytes are unchanged, and every other file of
    the file system keeps its inode and its contents. *)
Theorem vfs_write_at_correct fs nd m self di ids l1s offset buf :
  fs_wf ∅ m fs nd → file_at fs nd m self di ids l1s → is_file di = true →
  Forall is_byte buf → (0 < length buf)%nat → Z.of_nat (offset + length buf) ≤ 2 ^ 32 - 512 →
  (nblocks (Z.of_nat (offset + length buf)) ≤ max_blocks)%nat →
  free_bits m fs nd (tot (nblocks (Z.of_nat (offset + length buf))) - tot (nblocks (di_size di))) →
  wp (write_at fs self (Z.of_nat offset) buf) ∅ m (λ n m', n = Z.of_nat (length buf) ∧
    ∃ di' xs ls, vfs_wrote fs nd m self di ids l1s offset buf m' di' xs ls).
Proof. intros. by apply vfs_write_at_spec. Qed.

(** What is written to a file is read back from it, across block boundaries,
    growth and allocation. *)
Theorem vfs_write_then_read fs nd m self di ids l1s offset buf :
  fs_wf ∅ m fs nd → file_at fs nd m self di ids l1s → is_file di = true →
  Forall is_byte buf → (0 < length buf)%nat → Z.of_nat (offset + length buf) ≤ 2 ^ 32 - 512 →
  (nblocks (Z.of_nat (offset + length buf)) ≤ max_blocks)%nat →
  free_bits m fs nd (tot (nblocks (Z.of_nat (offset + length buf))) - tot (nblocks (di_size di))) →
  wp (write_at fs self (Z.of_nat offset) buf ≫= λ n, read_at self (Z.of_nat offset) n) ∅ m (λ v _, v = buf).
Proof.
  intros Hf Hfile Hreg Hbuf Hb0 Hend Hmax Hfree. apply wp_bind.
  eapply wp_mono; [by eapply vfs_write_at_spec|].
  intros n m' [-> (di' & xs & ls & [[Hfile' Hwf' _ _ _ _ _] (Hsz & _) Hc])].
  eapply wp_mono; [eapply vfs_read_at_spec; [exact Hwf'|exact Hfile'|lia]|].
  intros v m2 [-> _]. rewrite Hc.
  assert (length (content m (ids ++ xs)) = 512 * length (ids ++ xs))%nat as Hlen.
  { apply length_content_present; [apply Hf|]. intros x Hx.
    destruct (fi_owned _ _ _ _ _ _ _ Hfile' x) as [Hr _]; [apply elem_of_app; by right|].
    replace x with (data_area_start_block fs + (x - data_area_start_block fs)) by lia.
    by apply (fw_area _ _ _ _ Hf). }
  pose proof (if_size _ _ _ _ _ (file_at_open _ _ _ _ _ _ _ Hwf' Hfile')).
  unfold slice. rewrite skipn_firstn_comm, take_take.
  replace (length buf `min` (Z.to_nat (di_size di') - offset))%nat with (length buf) by lia.
  apply slice_splice_same. lia.
Qed.

(** ** A small file system: an empty file in inode slot 0 *)
Definition small_fs : EasyFileSystem := mkEfs (mkBitmap 1 1) (mkBitmap 4 1) 2 5.
Definition small_disk : bmap := zero_disk 0 40.
Definition small_file : Inode := mkVInode 0 2 0.
Definition blank_inode : DiskInode := mkInode 0 0 0 (replicate 26 0) 0 0 0.

Lemma small_fs_wf : fs_wf ∅ small_disk small_fs 30.
Proof.
  assert (∀ id, 0 ≤ id < 40 → is_Some (small_disk !! id)) as Hp.
  { intros id Hid. exists zero_block. apply zero_disk_lookup. split; [lia|done]. }
  split; [split|..]; unfold in_bitmap; simpl; unfold BLOCK_BITS, BLOCK_SZ; try lia.
  - intros id Hid. apply Hp. lia.
  - set_solver.
  - by apply Nat.ltb_lt.
  - apply zero_disk_ok.
  - intros k Hk. apply Hp. lia.
  - set_solver.
Qed.

Lemma small_file_at : file_at small_fs 30 small_disk small_file blank_inode [] [].
Proof.
  split; [split|split|..].
  - exists zero_block. split; [apply zero_disk_lookup; split; [simpl; lia|done]|vm_compute; reflexivity].
  - simpl. unfold INODE_SIZE, BLOCK_SZ. lia.
  - simpl. lia.
  - intros j _ Hj. simpl in Hj. lia.
  - intros Hj. simpl in Hj. lia.
  - reflexivity.
  - intros Hj. simpl in Hj. lia.
  - intros a id1 Ha. set_solver.
  - unfold max_blocks. cbn [length]. lia.
  - reflexivity.
  - cbn [di_size blank_inode]. lia.
  - constructor.
  - intros b Hb. unfold owned_blocks, index_blocks in Hb. simpl in Hb. set_solver.
Qed.

Lemma small_free : free_bits small_disk small_fs 30 2.
Proof. apply Nat.leb_le. vm_compute. reflexivity. Qed.

Lemma vfs_write_at_correct_witness :
  wp (write_at small_fs small_file (Z.of_nat 510) [1; 2; 3; 4]) ∅ small_disk (λ n m', n = 4 ∧
    ∃ di' xs ls, vfs_wrote small_fs 30 small_disk small_file blank_inode [] [] 510 [1; 2; 3; 4] m' di' xs ls).
Proof.
  apply (vfs_write_at_correct small_fs 30 small_disk small_file blank_inode [] [] 510 [1; 2; 3; 4]).
  - apply small_fs_wf.
  - apply small_file_at.
  - reflexivity.
  - repeat apply Forall_cons_2; try (unfold is_byte; lia). apply Forall_nil_2.
  - simpl. lia.
  - simpl. lia.
  - apply Nat.leb_le. reflexivity.
  - apply small_free.
Defined.

Lemma vfs_write_then_read_witness :
  wp (write_at small_fs small_file (Z.of_nat 510) [1; 2; 3; 4] ≫= λ n, read_at small_file (Z.of_nat 510) n)
    ∅ small_disk (λ v _, v = [1; 2; 3; 4]).
Proof.
  apply (vfs_write_then_read small_fs 30 small_disk small_file blank_inode [] [] 510 [1; 2; 3; 4]).
  - apply small_fs_wf.
  - apply small_file_at.
  - reflexivity.
  - repeat apply Forall_cons_2; try (unfold is_byte; lia). apply Forall_nil_2.
  - simpl. lia.
  - simpl. lia.
  - apply Nat.leb_le. reflexivity.
  - apply small_free.
Defined.
