(* ===== verification/FsDir.v ===== *)
(** * Directories and paths (easy-fs/src/vfs.rs: find_inode_id, get_dirent, dirents, ls, find)

    The bytes of a directory file are an array of 32-byte entries.  [dir_repr]
    relates them to a list of (name, inode number) pairs; name lookup is the
    first match in the list and path resolution walks these lists. *)
From S2P Require Import Prelude Bytes BlockCache DiskLogic Bitmap Layout InodeMap InodeData Efs Vfs.

Abbreviation entries := (list (list Z * Z)) (only parsing).

Definition dir_repr (bytes : list Z) (ents : entries) : Prop :=
  length bytes = (32 * length ents)%nat ∧
  ∀ i nm ino, ents !! i = Some (nm, ino) →
    name (de_of_bytes (slice (32 * i) 32 bytes)) = Ok nm ∧
    inode_number (de_of_bytes (slice (32 * i) 32 bytes)) = ino.

(** The inode number a directory gives to a name. *)
Definition lookup_name (ents : entries) (nm : list Z) : option Z :=
  match list_find (λ e, e.1 = nm) ents with Some (_, e) => Some e.2 | None => None end.

(** A directory whose inode is locked by the caller. *)
Record dir_open (h : gset Z) (m : bmap) (di : DiskInode) (ids l1s : list Z) (ents : entries) : Prop := {
  do_file : inode_file h m di ids l1s;
  do_type : is_dir di = true;
  do_repr : dir_repr (take (Z.to_nat (di_size di)) (content m ids)) ents;
}.

Section dir.
Context (h : gset Z) (m : bmap) (di : DiskInode) (ids l1s : list Z) (ents : entries).
Context (Hd : dir_open h m di ids l1s ents).

Lemma dir_size : Z.to_nat (di_size di) = (32 * length ents)%nat ∧ file_count di = Z.of_nat (length ents).
Proof.
  destruct Hd as [Hf _ [Hl _]]. pose proof (if_size _ _ _ _ _ Hf) as Hs.
  rewrite length_take, (length_content _ _ _ _ _ Hf) in Hl. unfold file_count, DIRENT_SZ. split; [lia|].
  replace (di_size di) with (Z.of_nat (length ents) * 32) by lia. by rewrite Z_div_mult.
Qed.

Lemma read_dirent_at_spec i nm ino :
  ents !! i = Some (nm, ino) →
  wp (read_dirent_at di (Z.of_nat i)) h m (λ de m', (name de = Ok nm ∧ inode_number de = ino) ∧ m' = m).
Proof.
  intros Hi. destruct dir_size as [Hs _]. pose proof (lookup_lt_Some _ _ _ Hi) as Hlt.
  destruct Hd as [Hf _ [Hl Hents]]. unfold read_dirent_at, DIRENT_SZ. apply wp_bind.
  replace (Z.of_nat i * 32) with (Z.of_nat (32 * i)) by lia. change 32 with (Z.of_nat 32) at 1.
  pose proof (if_size _ _ _ _ _ Hf). pose proof (tr_max _ _ _ _ (if_tree _ _ _ _ _ Hf)) as Hmax. unfold max_blocks in Hmax.
  eapply wp_mono; [apply (read_at_spec h m di ids l1s (32 * i) 32 Hf); lia|].
  intros v m' [-> ->]. rewrite length_slice by lia. change (assert (Z.of_nat 32 =? 32)) with (Ok ()).
  cbn [liftp mbind prog_bind]. apply wp_ret. split; [|done]. by apply Hents.
Qed.

(** The scan stops at the first entry that satisfies the predicate. *)
Lemma get_dirent_loop_spec (pred : DirEntry → outcome bool) (p : list Z * Z → bool) n i :
  (∀ de nm ino, name de = Ok nm → inode_number de = ino → pred de = Ok (p (nm, ino))) →
  (i + n = length ents)%nat →
  wp (get_dirent_loop di n (Z.of_nat i) pred) h m (λ r m',
    match list_find (λ e, p e = true) (drop i ents) with
    | Some (j, (nm, ino)) => ∃ de, r = Some (Z.of_nat (i + j), de) ∧ name de = Ok nm ∧ inode_number de = ino
    | None => r = None
    end ∧ m' = m).
Proof.
  intros Hpred. revert i. induction n as [|n IH]; intros i Hi; cbn [get_dirent_loop].
  { apply wp_ret. rewrite drop_ge by lia. done. }
  destruct (lookup_lt_is_Some_2 ents i) as [[nm ino] He]; [lia|].
  apply wp_bind. eapply wp_mono; [by eapply read_dirent_at_spec|]. intros de m' [[Hn Hino] ->].
  rewrite (Hpred de nm ino Hn Hino). cbn [liftp mbind prog_bind]. rewrite (drop_S _ _ _ He).
  cbn [list_find]. destruct (p (nm, ino)) eqn:Hp.
  - rewrite decide_True by done. apply wp_ret. split; [|done]. exists de. by rewrite Nat.add_0_r.
  - rewrite decide_False by congruence. replace (Z.of_nat i + 1) with (Z.of_nat (S i)) by lia.
    eapply wp_mono; [apply IH; lia|]. intros r m' [Hr ->]. split; [|done].
    destruct (list_find _ (drop (S i) ents)) as [[j [nm' ino']]|]; [|done].
    simpl. by replace (i + S j)%nat with (S i + j)%nat by lia.
Qed.

Lemma find_inode_id_spec nm :
  wp (find_inode_id nm di) h m (λ r m', r = lookup_name ents nm ∧ m' = m).
Proof.
  destruct dir_size as [_ Hc]. unfold find_inode_id. rewrite (do_type _ _ _ _ _ _ Hd).
  cbn [assert liftp mbind prog_bind]. rewrite Hc, Nat2Z.id. apply wp_bind.
  eapply wp_mono.
  { apply (get_dirent_loop_spec (has_name nm) (λ e, bool_decide (e.1 = nm)) (length ents) 0); [|lia].
    intros de n ino Hn Hi. unfold has_name. by rewrite Hn. }
  intros r m' [Hr ->]. apply wp_ret. split; [|done]. unfold lookup_name. rewrite drop_0 in Hr.
  rewrite (list_find_ext (λ e, e.1 = nm) (λ e, bool_decide (e.1 = nm) = true)).
  - destruct (list_find _ ents) as [[j [nm' ino']]|]; [|by rewrite Hr].
    destruct Hr as (de & -> & _ & <-). done.
  - intros e. by rewrite bool_decide_eq_true.
Qed.

Lemma dirents_loop_spec fs n i :
  (i + n = length ents)%nat →
  wp (dirents_loop fs di n (Z.of_nat i)) h m (λ v m', v = (λ e, (e.1, inode_at fs e.2)) <$> drop i ents ∧ m' = m).
Proof.
  revert i. induction n as [|n IH]; intros i Hi; cbn [dirents_loop].
  { apply wp_ret. by rewrite drop_ge by lia. }
  destruct (lookup_lt_is_Some_2 ents i) as [[nm ino] He]; [lia|].
  apply wp_bind. eapply wp_mono; [by eapply read_dirent_at_spec|]. intros de m' [[Hn Hino] ->].
  rewrite Hn. cbn [liftp mbind prog_bind]. apply wp_bind. replace (Z.of_nat i + 1) with (Z.of_nat (S i)) by lia.
  eapply wp_mono; [apply IH; lia|]. intros v m' [-> ->]. apply wp_ret. split; [|done].
  rewrite (drop_S _ _ _ He), fmap_cons. simpl. by rewrite Hino.
Qed.
End dir.

(** ** The tree of directories *)

(** [view] gives, for each inode number, [None] for a file and the entries for
    a directory. *)
Abbreviation fs_view := (gmap Z (option (list (list Z * Z)))) (only parsing).

Definition node_ok (fs : EasyFileSystem) (m : bmap) (view : fs_view) (ino : Z) (k : option entries) : Prop :=
  ∃ b di, let self := inode_at fs ino in
    m !! i_block_id self = Some b ∧ block_ok b ∧ inode_dec (bytes_at (block_offset self) INODE_SIZE b) = di ∧
    match k with
    | None => is_file di = true
    | Some ents =>
        (∃ ids l1s, dir_open ({[i_block_id self]} ∪ ∅) m di ids l1s ents) ∧
        ∀ nm c, (nm, c) ∈ ents → is_Some (view !! c)
    end.
Definition view_ok (fs : EasyFileSystem) (m : bmap) (view : fs_view) : Prop :=
  ∀ ino k, view !! ino = Some k → node_ok fs m view ino k.

(** Path resolution on the abstract tree. *)
Fixpoint resolve (view : fs_view) (cur : Z) (names : list (list Z)) : option Z :=
  match names with
  | [] => Some cur
  | nm :: rest =>
      match view !! cur with
      | Some (Some ents) => match lookup_name ents nm with Some c => resolve view c rest | None => None end
      | _ => None
      end
  end.

(** A string without ['/'] is at most one component. *)
Lemma split_path_one nm : 47 ∉ nm → split_path nm = filter (λ s, s ≠ []) [nm].
Proof.
  intros Hns. unfold split_path. assert (∀ cur, split_path_loop nm cur = [cur ++ nm]) as H; [|by rewrite H].
  revert Hns. induction nm as [|c nm IH]; intros Hns cur; simpl; [by rewrite app_nil_r|].
  apply not_elem_of_cons in Hns as [Hc Hns]. rewrite (proj2 (Z.eqb_neq c 47)) by congruence.
  rewrite IH by done. by rewrite <- app_assoc.
Qed.

Lemma dir_not_file di : is_dir di = true → is_file di = false.
Proof. unfold is_dir, is_file. intros ->%Z.eqb_eq. done. Qed.

Lemma inode_at_offset fs ino :
  0 ≤ block_offset (inode_at fs ino) ∧ block_offset (inode_at fs ino) + INODE_SIZE ≤ BLOCK_SZ.
Proof.
  unfold inode_at, get_disk_inode_pos. cbn [block_offset]. unfold BLOCK_SZ, INODE_SIZE.
  change (512 / 128) with 4. dlia.
Qed.

Lemma lookup_name_in ents nm c : lookup_name ents nm = Some c → ∃ n, (n, c) ∈ ents.
Proof.
  unfold lookup_name. destruct (list_find _ ents) as [[j [n c']]|] eqn:Hf; [|done]. intros [= <-].
  apply list_find_Some in Hf as (Hj & _ & _). exists n. by eapply list_elem_of_lookup_2.
Qed.

Lemma read_node fs m view ino k A (f : DiskInode → prog A) (Q : A → bmap → Prop) :
  view_ok fs m view → view !! ino = Some k →
  (∀ di, match k with
         | None => is_file di = true
         | Some ents => (∃ ids l1s, dir_open ({[i_block_id (inode_at fs ino)]} ∪ ∅) m di ids l1s ents) ∧
                        ∀ nm c, (nm, c) ∈ ents → is_Some (view !! c)
         end → wp (f di) ({[i_block_id (inode_at fs ino)]} ∪ ∅) m Q) →
  wp (read_disk_inode (inode_at fs ino) f) ∅ m Q.
Proof.
  intros Hv Hk Hf. destruct (Hv ino k Hk) as (b & di & Hb & Hbo & Hdec & Hkind).
  pose proof (inode_at_offset fs ino) as [Ho1 Ho2].
  eapply wp_read; [split_and!; [exact Hb|set_solver|by apply Nat.ltb_lt]|done|done|done|].
  rewrite Hdec. by apply Hf.
Qed.

Lemma find_loop_spec fs m view names ino :
  view_ok fs m view → is_Some (view !! ino) →
  wp (find_loop fs (inode_at fs ino) names) ∅ m
    (λ r m', r = inode_at fs <$> resolve view ino names ∧ m' = m).
Proof.
  intros Hv. revert ino. induction names as [|nm rest IH]; intros ino [k Hk]; cbn [find_loop resolve].
  { by apply wp_ret. }
  apply wp_bind. eapply read_node; [done|exact Hk|]. intros di. rewrite Hk. destruct k as [ents|].
  - intros [(ids & l1s & Hd) Hin]. rewrite (dir_not_file di) by apply Hd.
    eapply wp_mono; [by eapply find_inode_id_spec|]. intros r m' [-> ->].
    destruct (lookup_name ents nm) as [c|] eqn:Hc; [|by apply wp_ret].
    apply IH. destruct (lookup_name_in _ _ _ Hc) as [n Hn]. by apply (Hin n).
  - intros ->. apply wp_ret. by apply wp_ret.
Qed.

(** Path lookup.  On a disk whose directories form the tree [view],
    [Inode::find] resolves a path exactly as the tree does, component by
    component with empty components ignored: it returns the inode reached, or
    [None] when a component is missing or crosses a regular file, and changes
    nothing. *)
Theorem find_resolves fs m view ino path :
  view_ok fs m view → is_Some (view !! ino) →
  wp (find fs (inode_at fs ino) path) ∅ m
    (λ r m', r = inode_at fs <$> resolve view ino (split_path path) ∧ m' = m).
Proof. intros. by apply find_loop_spec. Qed.

(** Listing a directory gives its names in order; listing a file gives
    nothing. *)
Lemma ls_lists fs m view ino k :
  view_ok fs m view → view !! ino = Some k →
  wp (ls fs (inode_at fs ino)) ∅ m
    (λ v m', v = match k with Some ents => fst <$> ents | None => [] end ∧ m' = m).
Proof.
  intros Hv Hk. unfold ls. eapply read_node; [done|exact Hk|]. intros di. destruct k as [ents|].
  - intros [(ids & l1s & Hd) _]. rewrite (dir_not_file di) by apply Hd.
    destruct (dir_size _ _ _ _ _ _ Hd) as [_ ->]. rewrite Nat2Z.id. apply wp_bind.
    eapply wp_mono; [apply (dirents_loop_spec _ _ _ _ _ _ Hd fs (length ents) 0); lia|].
    intros v m' [-> ->]. apply wp_ret. split; [|done]. rewrite drop_0, <- list_fmap_compose. done.
  - intros ->. by apply wp_ret.
Qed.

(** ** A small tree: a root directory with one file, ["hi"] *)
Definition tree_fs : EasyFileSystem := mkEfs (mkBitmap 1 1) (mkBitmap 4 1) 2 5.
Definition root_di : DiskInode := mkInode 32 1 0 (5 :: replicate 25 0) 0 0 1.
Definition pad_block (bs : list Z) : block := bs ++ replicate (512 - length bs) 0.
Definition tree_disk : bmap :=
  <[2 := pad_block (inode_enc (replicate 128 0) root_di)]>
  (<[5 := pad_block (104 :: 105 :: replicate 26 0 ++ [1; 0; 0; 0])]> (zero_disk 0 16)).
Definition tree_view : fs_view := <[0 := Some [([104; 105], 1)]]> {[1 := None]}.

Lemma tree_disk_ok : disk_ok tree_disk.
Proof.
  intros id b. unfold tree_disk. rewrite !lookup_insert_Some.
  intros [[_ <-]|(_ & [[_ <-]|(_ & Hb)])]; [..|by apply (zero_disk_ok 0 16 id)];
    (split; [vm_compute; reflexivity|]).
  all: unfold is_byte; apply (bool_decide_unpack _); vm_compute; exact I.
Qed.

Lemma tree_view_ok : view_ok tree_fs tree_disk tree_view.
Proof.
  intros ino k. unfold tree_view. rewrite lookup_insert_Some, lookup_singleton_Some.
  intros [[<- <-]|(_ & <- & <-)]; eexists _, _; split_and!.
  1,6: vm_compute; reflexivity.
  1,5: vm_compute; reflexivity.
  1,4: reflexivity.
  - exists [5], []. split; [|vm_compute; reflexivity|].
    + split; [| apply tree_disk_ok | | | |].
      * split; [intros [|j] H1 H2; [reflexivity|cbn in H2; lia]|cbn [length]; lia|reflexivity|cbn [length]; lia| |].
        -- intros a id1 Ha. set_solver.
        -- unfold max_blocks. simpl. lia.
      * rewrite size_union_alt, size_singleton. vm_compute. lia.
      * intros id Hid. vm_compute in Hid. set_solver.
      * intros id ->%list_elem_of_singleton. split; [vm_compute; set_solver|vm_compute; by eexists].
      * vm_compute. split; discriminate.
    + split; [vm_compute; reflexivity|]. intros [|[|i]] nm ino Hi; [|done..].
      injection Hi as <- <-. vm_compute. done.
  - intros nm c [= _ ->]%list_elem_of_singleton. vm_compute. by eexists.
  - vm_compute. reflexivity.
Qed.

(** The path ["/hi"] and the listing of the root. *)
Lemma find_resolves_witness :
  wp (find tree_fs (inode_at tree_fs 0) [47; 104; 105]) ∅ tree_disk
    (λ r m', r = inode_at tree_fs <$> resolve tree_view 0 (split_path [47; 104; 105]) ∧ m' = tree_disk).
Proof. apply (find_resolves tree_fs tree_disk tree_view 0 [47; 104; 105] tree_view_ok). by eexists. Defined.

Lemma ls_lists_witness :
  wp (ls tree_fs (inode_at tree_fs 0)) ∅ tree_disk (λ v m', v = [[104; 105]] ∧ m' = tree_disk).
Proof. apply (ls_lists tree_fs tree_disk tree_view 0 (Some [([104; 105], 1)]) tree_view_ok). reflexivity. Defined.
