(* ===== verification/FsOps.v ===== *)
(** * Updates of one inode (easy-fs/src/vfs.rs: the closures given to
      modify_disk_inode by create_inode, link, unlink and clear_locked)

    Each is shown to be an [inode_step]: it changes one inode and data blocks
    that were its own or free.  [FsTree] composes them into the operations on
    the tree of files. *)
From S2P Require Import Prelude Bytes BlockCache DiskLogic Bitmap Layout InodeMap InodeGrow InodeData Efs Vfs FsData FsDir.

(** The bytes of a file: its contents cut at its size. *)
Definition file_bytes (m : bmap) (di : DiskInode) (ids : list Z) : list Z :=
  take (Z.to_nat (di_size di)) (content m ids).

Lemma wp_assoc {A B C} (p : prog A) (q : A → prog B) (f : B → prog C) h m Q :
  wp ((p ≫= q) ≫= f) h m Q → wp (p ≫= λ a, q a ≫= f) h m Q.
Proof.
  intros (a & m' & Hr & HQ). exists a, m'. split; [|done]. rewrite <- Hr, !run_disk_bind.
  unfold mbind, M_bind. rewrite run_disk_bind. unfold mbind, M_bind.
  destruct (run_disk p _) as [[x s]|e]; [|done]. by rewrite run_disk_bind.
Qed.

(** ** Metadata *)

(** Two inodes with the same size and blocks. *)
Definition same_blocks (di di' : DiskInode) : Prop :=
  di_size di' = di_size di ∧ direct di' = direct di ∧ indirect1 di' = indirect1 di ∧ indirect2 di' = indirect2 di.

Section meta.
Context (fs : EasyFileSystem) (nd : Z) (m : bmap) (self : Inode) (di : DiskInode) (ids l1s : list Z).
Context (Hf : fs_wf ∅ m fs nd) (Hfile : file_at fs nd m self di ids l1s).

Lemma tree_same di' : same_blocks di di' → tree m di' ids l1s.
Proof.
  intros (_ & Hd & H1 & H2). destruct (fi_tree _ _ _ _ _ _ _ Hfile). split; rewrite ?Hd, ?H1, ?H2; done.
Qed.

Lemma change_same di' :
  same_blocks di di' → inode_ok di' → inode_change fs nd m (owned_blocks di ids l1s) m di' ids l1s.
Proof.
  intros Hs Hi. pose proof (tree_same _ Hs) as Ht. pose proof Hs as (Hsz & _ & H1 & H2).
  assert (owned_blocks di' ids l1s = owned_blocks di ids l1s) as Ho
    by (unfold owned_blocks, index_blocks; by rewrite H1, H2).
  destruct Hfile. split; rewrite ?Ho, ?Hsz; try done; [auto|apply Hf|lia].
Qed.

(** A change of the metadata alone. *)
Lemma modify_meta_spec {A} (g : DiskInode → A) (u : DiskInode → DiskInode) :
  same_blocks di (u di) → inode_ok (u di) →
  wp (modify_disk_inode self (λ d, mret (g d, u d))) ∅ m (λ v m', v = g di ∧
    inode_step fs nd m self (owned_blocks di ids l1s) m' (u di) ids l1s ∧ content m' ids = content m ids).
Proof.
  intros Hs Hi. eapply wp_mono.
  { eapply (wp_modify_inode fs nd m self (owned_blocks di ids l1s) Hf (fi_owned _ _ _ _ _ _ _ Hfile) di _
      (λ v m2 di' ids' l1s', v = g di ∧ m2 = m ∧ di' = u di ∧ ids' = ids ∧ l1s' = l1s)); [by eapply fi_loc|].
    apply wp_ret. exists ids, l1s. split; [by apply change_same|done]. }
  intros v m' (m2 & di' & ids' & l1s' & [Hst Hc] & -> & -> & -> & -> & ->). done.
Qed.
End meta.

(** An inode slot that is given to a new file: [initialize]. *)
Lemma empty_tree m di : tree m di [] [].
Proof. split; simpl; try (lia || done). Qed.

Lemma initialize_ok t di : inode_ok di → inode_ok (initialize t di).
Proof.
  intros []. split; simpl; rewrite ?length_replicate; try done.
  - apply Forall_replicate. done.
  - by destruct t.
Qed.

Lemma initialize_spec fs nd m self di t :
  fs_wf ∅ m fs nd → inode_loc fs m self di →
  wp (modify_disk_inode self (λ d, mret ((), initialize t d))) ∅ m (λ _ m',
    inode_step fs nd m self [] m' (initialize t di) [] []).
Proof.
  intros Hf Hloc. pose proof (inode_loc_ok _ _ _ _ (fw_disk _ _ _ _ Hf) Hloc) as Hi. eapply wp_mono.
  { eapply (wp_modify_inode fs nd m self [] Hf ltac:(set_solver) di _
      (λ v m2 di' ids' l1s', di' = initialize t di ∧ ids' = [] ∧ l1s' = [])); [done|].
    apply wp_ret. exists [], []. split; [|done]. split; simpl; try (set_solver || lia || done).
    - by apply initialize_ok.
    - apply empty_tree.
    - constructor.
    - apply Hf. }
  intros v m' (m2 & di' & ids' & l1s' & [Hst Hc] & -> & -> & ->). done.
Qed.

(** ** Directories *)

(** A name that fits an entry. *)
Record name_ok (nm : list Z) : Prop := {
  no_bytes : Forall is_byte nm;
  no_nul : Forall (λ c, c ≠ 0) nm;
  no_utf8 : utf8_ok nm = true;
  no_len : (length nm ≤ 27)%nat;
}.

(** The blocks a file needs to grow from [size] to [new_size] bytes; there is
    room for it. *)
Definition growth (size new_size : Z) : nat := tot (nblocks new_size) - tot (nblocks size).
Definition room (fs : EasyFileSystem) (nd : Z) (m : bmap) (size new_size : Z) : Prop :=
  new_size ≤ 2 ^ 32 - 512 ∧ (nblocks new_size ≤ max_blocks)%nat ∧ (growth size new_size ≤ nfree m fs nd)%nat.

Lemma entry_bytes nm c :
  name_ok nm → is_u32 c → ∃ de, de_new nm c = Ok de ∧ length (as_bytes de) = 32%nat ∧
    Forall is_byte (as_bytes de) ∧ name (de_of_bytes (as_bytes de)) = Ok nm ∧
    inode_number (de_of_bytes (as_bytes de)) = c.
Proof.
  intros [Hby Hnz Hutf Hl] Hc. pose proof (dirent_roundtrip nm c Hnz Hutf Hc) as Hrt.
  rewrite decide_True in Hrt by done. destruct Hrt as (de & Hde & Hlen & Hino & Hname).
  exists de. split_and!; try done. unfold de_new in Hde.
  rewrite (proj2 (Z.leb_le _ NAME_LENGTH_LIMIT)) in Hde by (change NAME_LENGTH_LIMIT with 27; lia).
  apply (f_equal (λ o, match o with Ok d => d | Err _ => de end)) in Hde. cbn beta iota in Hde. rewrite <- Hde.
  unfold as_bytes. cbn [de_name inode_number]. apply Forall_app_2; [|apply le_enc_bytes].
  apply Forall_splice; [|done]. apply Forall_replicate. done.
Qed.

Lemma dir_repr_nil : dir_repr [] [].
Proof. split; [done|]. intros i nm ino Hi. done. Qed.

Lemma dir_repr_snoc bytes ents bs nm c :
  dir_repr bytes ents → length bs = 32%nat → name (de_of_bytes bs) = Ok nm → inode_number (de_of_bytes bs) = c →
  dir_repr (bytes ++ bs) (ents ++ [(nm, c)]).
Proof.
  intros [Hl He] Hb Hn Hc. split; [rewrite !length_app; simpl; lia|].
  intros i nm' ino Hi. apply lookup_app_Some in Hi as [Hi|[Hge Hi]].
  - pose proof (lookup_lt_Some _ _ _ Hi). unfold slice. rewrite skipn_app, take_app_le by (rewrite length_drop; lia).
    by apply He.
  - apply list_lookup_singleton_Some in Hi as [Hi [= <- <-]]. replace i with (length ents) by lia.
    unfold slice. rewrite drop_app_ge, <- Hl, Nat.sub_diag, drop_0, take_ge by lia. done.
Qed.

Lemma content_app m ids xs : content m (ids ++ xs) = content m ids ++ content m xs.
Proof. unfold content, blocks_of. by rewrite fmap_app, concat_app. Qed.

(** Appending to a file, seen on its bytes. *)
Lemma append_bytes m m' di di' ids xs buf n :
  Z.to_nat (di_size di) = n → (n ≤ length (content m ids))%nat →
  di_size di' = Z.max (di_size di) (Z.of_nat (n + length buf)) →
  content m' (ids ++ xs) = splice n buf (content m (ids ++ xs)) →
  file_bytes m' di' (ids ++ xs) = file_bytes m di ids ++ buf.
Proof.
  intros Hn Hle Hsz Hc. unfold file_bytes. rewrite Hc, Hn. unfold splice. rewrite content_app.
  rewrite (take_app_le _ (content m xs)) by lia.
  replace (Z.to_nat (di_size di')) with (n + length buf)%nat by lia.
  rewrite app_assoc, take_app_le by (rewrite length_app, length_take; lia).
  apply take_ge. rewrite length_app, length_take. lia.
Qed.

Section dirs.
Context (fs : EasyFileSystem) (nd : Z) (m : bmap) (self : Inode) (di : DiskInode) (ids l1s : list Z) (ents : entries).
Context (Hf : fs_wf ∅ m fs nd) (Hfile : file_at fs nd m self di ids l1s).

Lemma file_length : length (content m ids) = (512 * length ids)%nat ∧ (Z.to_nat (di_size di) ≤ 512 * length ids)%nat.
Proof.
  pose proof (file_at_open _ _ _ _ _ _ _ Hf Hfile) as Ho. pose proof (if_size _ _ _ _ _ Ho).
  split; [by eapply length_content|lia].
Qed.

Context (Hdir : is_dir di = true) (Hents : dir_repr (file_bytes m di ids) ents).

Lemma dir_at_open : dir_open ({[i_block_id self]} ∪ ∅) m di ids l1s ents.
Proof. split; [by eapply file_at_open|done|done]. Qed.

Lemma dir_at_size : di_size di = Z.of_nat (32 * length ents) ∧ file_count di = Z.of_nat (length ents).
Proof.
  destruct (dir_size _ _ _ _ _ _ dir_at_open) as [Hs Hc]. split; [|done].
  pose proof (if_size _ _ _ _ _ (file_at_open _ _ _ _ _ _ _ Hf Hfile)). lia.
Qed.

(** One more entry at the end of a directory. *)
Lemma append_dirent_step nm c :
  name_ok nm → is_u32 c → room fs nd m (di_size di) (Z.of_nat (32 * S (length ents))) →
  wp (modify_disk_inode self (λ di, append_dirent fs nm c di ≫= λ di, mret ((), di))) ∅ m (λ _ m', ∃ di' ids' l1s',
    inode_step fs nd m self (owned_blocks di ids l1s) m' di' ids' l1s' ∧ type_ di' = type_ di ∧ nlink di' = nlink di ∧
    dir_repr (file_bytes m' di' ids') (ents ++ [(nm, c)])).
Proof.
  intros Hnm Hc (Hend & Hmax & Hfree). destruct (entry_bytes nm c Hnm Hc) as (de & Hde & Hlen & Hby & Hname & Hino).
  destruct dir_at_size as [Hsz Hcnt]. destruct file_length as [Hlc Hle]. eapply wp_mono.
  { eapply (wp_modify_inode fs nd m self (owned_blocks di ids l1s) Hf (fi_owned _ _ _ _ _ _ _ Hfile) di _
      (λ _ m2 di' ids' l1s', type_ di' = type_ di ∧ nlink di' = nlink di ∧
        file_bytes m2 di' ids' = file_bytes m di ids ++ as_bytes de)); [by eapply fi_loc|].
    unfold append_dirent. rewrite Hcnt, Hde. apply wp_bind.
    assert (u32 ((Z.of_nat (length ents) + 1) * DIRENT_SZ) = Z.of_nat (32 * length ents + length (as_bytes de))) as ->.
    { rewrite u32_id by (unfold is_u32, DIRENT_SZ; lia). unfold DIRENT_SZ. lia. }
    replace (Z.of_nat (length ents) * DIRENT_SZ) with (Z.of_nat (32 * length ents)) by (unfold DIRENT_SZ; lia).
    replace (32 * S (length ents))%nat with (32 * length ents + length (as_bytes de))%nat in * by lia.
    eapply wp_mono.
    { pose proof (file_at_ok _ _ _ _ _ _ _ Hf Hfile). destruct Hfile as [[_ _ Ha] Ht Hl Hs Hnd Hown].
      apply (grow_write_spec fs nd m _ di ids l1s Hf Ha) with (k := λ d n, d) (mid := λ _, Ok (as_bytes de)); try done.
      lia. }
    intros d m2 (di' & xs & ls & -> & Hch & (Hs' & Ht & Hn) & Hct). apply wp_ret.
    exists (ids ++ xs), (l1s ++ ls). split; [done|]. split_and!; [done|done|].
    apply (append_bytes m m2 di di' ids xs (as_bytes de) (32 * length ents)); [lia|lia|done|done]. }
  intros _ m' (m2 & di' & ids' & l1s' & [Hst Heq] & Ht & Hn & Hb). exists di', ids', l1s'. split_and!; try done.
  unfold file_bytes. rewrite Heq. fold (file_bytes m2 di' ids'). rewrite Hb. by apply dir_repr_snoc.
Qed.
End dirs.

(** ** New directories *)
Section new_dir.
Context (fs : EasyFileSystem) (nd : Z) (m : bmap) (di : DiskInode) (Hf : fs_wf ∅ m fs nd).
Context (Hi : inode_ok di) (Hsize : di_size di = 0) (Hdir : is_dir di = true).

(** The entries ["."] and [".."] of an empty directory, with the block [blk] of
    its inode locked. *)
Lemma initialize_dir_change blk s p :
  blk < start_block_id (data_bitmap fs) → is_u32 s → is_u32 p → free_bits m fs nd 1 →
  wp (initialize_dir di s p (alloc_data fs)) ({[blk]} ∪ ∅) m
    (λ di' m2, ∃ ids' l1s', inode_change fs nd m [] m2 di' ids' l1s' ∧ type_ di' = type_ di ∧
      nlink di' = nlink di ∧ dir_repr (file_bytes m2 di' ids') [([46], s); ([46; 46], p)]).
Proof.
  intros Ha Hs Hp Hfree.
  destruct (entry_bytes [46] s) as (d1 & Hd1 & Hl1 & Hby1 & Hn1 & Hi1); [by repeat constructor|done|].
  destruct (entry_bytes [46; 46] p) as (d2 & Hd2 & Hl2 & Hby2 & Hn2 & Hi2); [by repeat constructor|done|].
  set (buf := as_bytes d1 ++ as_bytes d2). assert (length buf = 64%nat) as Hlen by (unfold buf; rewrite length_app; lia).
  unfold initialize_dir. rewrite Hdir, Hsize, Hd1, Hd2. cbn [assert liftp mbind prog_bind].
  change (u32 ((0 / DIRENT_SZ + 2) * DIRENT_SZ)) with (Z.of_nat (0 + 64)).
  change (0 / DIRENT_SZ * DIRENT_SZ) with (Z.of_nat 0).
  assert (wp (increase_size fs (Z.of_nat (0 + 64)) di ≫= λ d, liftp (Ok buf) ≫= λ bs,
      Layout.write_at d (Z.of_nat 0) bs ≫= λ n, mret d) ({[blk]} ∪ ∅) m (λ d m2, ∃ ids' l1s',
      inode_change fs nd m [] m2 d ids' l1s' ∧ type_ d = type_ di ∧
      nlink d = nlink di ∧ dir_repr (file_bytes m2 d ids') [([46], s); ([46; 46], p)])) as Hg.
  { rewrite <- Hlen. eapply wp_mono.
    { apply (grow_write_spec fs nd m blk di [] [] Hf Ha Hi) with (k := λ d n, d) (mid := λ _, Ok buf);
        rewrite ?Hsize, ?Hlen; try done; try lia.
      - apply empty_tree.
      - constructor.
      - intros b Hb%elem_of_nil. done.
      - by apply Forall_app_2.
      - apply Nat.leb_le. reflexivity. }
    intros d m2 (di' & xs & ls & -> & Hch & (Hs' & Ht & Hn) & Hct). exists xs, ls. split_and!; [done..|].
    assert (file_bytes m2 di' xs = file_bytes m di [] ++ buf) as ->.
    { apply (append_bytes m m2 di di' [] xs buf 0); [lia|simpl; lia|done|done]. }
    assert (file_bytes m di [] = []) as -> by (unfold file_bytes; by rewrite Hsize).
    apply (dir_repr_snoc ([] ++ as_bytes d1) [([46], s)]); try done.
    apply (dir_repr_snoc [] [] (as_bytes d1) [46] s); done. }
  unfold increase_size in Hg. rewrite Hsize in Hg. change (Z.of_nat (0 + 64) <=? 0) with false in Hg. cbv iota in Hg.
  rewrite blocks_num_needed_spec in Hg |- * by lia. cbn [liftp mbind prog_bind] in Hg |- *. by apply wp_assoc.
Qed.

Lemma initialize_dir_step self s p :
  file_at fs nd m self di [] [] → is_u32 s → is_u32 p → free_bits m fs nd 1 →
  wp (modify_disk_inode self (λ di, initialize_dir di s p (alloc_data fs) ≫= λ di, mret ((), di))) ∅ m
    (λ _ m', ∃ di' ids' l1s', inode_step fs nd m self [] m' di' ids' l1s' ∧ type_ di' = type_ di ∧
      nlink di' = nlink di ∧ dir_repr (file_bytes m' di' ids') [([46], s); ([46; 46], p)]).
Proof.
  intros Hfile Hs Hp Hfree. eapply wp_mono.
  { eapply (wp_modify_inode fs nd m self [] Hf ltac:(set_solver) di _
      (λ _ m2 di' ids' l1s', type_ di' = type_ di ∧ nlink di' = nlink di ∧
        dir_repr (file_bytes m2 di' ids') [([46], s); ([46; 46], p)])); [by eapply fi_loc|].
    apply wp_bind. eapply wp_mono; [apply initialize_dir_change; try done; apply Hfile|].
    intros d m2 (ids' & l1s' & Hch & Hr). apply wp_ret. by exists ids', l1s'. }
  intros [] m' (m2 & di' & ids' & l1s' & [Hst Heq] & Ht & Hn & Hb). exists di', ids', l1s'. split_and!; try done.
  unfold file_bytes. by rewrite Heq.
Qed.
End new_dir.

(** ** Giving blocks back *)
Record deallocated (fs : EasyFileSystem) (nd : Z) (h : gset Z) (m : bmap) (bs : list Z) (m' : bmap) : Prop := {
  dl_keep : ∀ b, data_block m fs nd true b → b ∉ bs → data_block m' fs nd true b;
  dl_freed : ∀ b, b ∈ bs → data_block m' fs nd false b;
  dl_free : ∀ b, data_block m fs nd false b → data_block m' fs nd false b;
  dl_frame : ∀ id, ¬ in_bitmap (data_bitmap fs) id → id ∉ bs → m' !! id = m !! id;
  dl_dom : ∀ id, is_Some (m' !! id) ↔ is_Some (m !! id);
  dl_wf : fs_wf h m' fs nd;
  dl_count : nfree m' fs nd = (length bs + nfree m fs nd)%nat;
}.

Section dealloc.
Context (fs : EasyFileSystem) (nd : Z) (h : gset Z).

(** A block is cleared, then its bit. *)
Lemma dealloc_data_spec m b :
  fs_wf h m fs nd → data_block m fs nd true b →
  wp (dealloc_data fs b) h m (λ _ m', deallocated fs nd h m [b] m').
Proof.
  intros Hf [Hr Hbit]. pose proof Hf as [Hbm Hd Hn Ho Hh Ha Hhd]. set (k := b - data_area_start_block fs) in *.
  destruct (Ha k Hr) as [blk Hblk]. pose proof (Hhd k Hr) as Hnh.
  replace (data_area_start_block fs + k) with b in * by lia. destruct (Hd _ _ Hblk) as [Hbo Hby].
  unfold dealloc_data. apply wp_bind. eapply wp_modify_block; [split_and!; [exact Hblk|done|apply Hbm]|done|].
  apply wp_ret. split; [unfold block_ok in *; by rewrite length_replicate|]. set (m1 := <[b := _]> m).
  pose proof Hbm as [B0 B1 B2 _ _ _].
  assert (∀ j, 0 ≤ j < nd → bm_bit m1 (data_bitmap fs) j = bm_bit m (data_bitmap fs) j) as Hbits.
  { intros j Hj. unfold bm_bit, m1. rewrite lookup_insert_ne; [done|].
    clear -Hj Ho Hn Hr. subst k. unfold BLOCK_BITS, BLOCK_SZ in *. dlia. }
  assert (disk_ok m1) as Hd1.
  { apply disk_ok_insert; [done|unfold block_ok in *; by rewrite length_replicate|]. by apply Forall_replicate. }
  assert (∀ id, is_Some (m1 !! id) ↔ is_Some (m !! id)) as Hdom1 by (intros id; by apply (dom_insert m b blk)).
  assert (fs_wf h m1 fs nd) as Hf1 by (by eapply fs_wf_update).
  assert (u32 (b - data_area_start_block fs) = k) as -> by (apply u32_id; unfold is_u32; lia).
  assert (bm_range (data_bitmap fs) k) as Hrange by (unfold bm_range; lia).
  pose proof (bitmap_dealloc_spec h m1 (data_bitmap fs) k (fw_bitmap _ _ _ _ Hf1) Hd1 Hrange) as Hspec.
  rewrite Hbits, Hbit in Hspec by done. eapply wp_mono; [exact Hspec|]. intros _ m2 [Bb Bf Bd Bk].
  assert (∀ c, 0 ≤ c - data_area_start_block fs < nd → bm_bit m2 (data_bitmap fs) (c - data_area_start_block fs) =
    if c =? b then false else bm_bit m (data_bitmap fs) (c - data_area_start_block fs)) as Hnew.
  { intros c Hc. rewrite Bb, Hbits by (unfold bm_range; lia). subst k. do 2 case_match; try done; lia. }
  split.
  - intros c [Hc Hcb] Hne. split; [done|]. rewrite Hnew by done. case_match; [set_solver by lia|done].
  - intros c ->%list_elem_of_singleton. split; [done|]. rewrite Hnew by done. by rewrite Z.eqb_refl.
  - intros c [Hc Hcb]. split; [done|]. rewrite Hnew by done. by case_match.
  - intros id Hid Hne. rewrite Bf by done. apply lookup_insert_ne. set_solver.
  - intros id. by rewrite Bd, Hdom1.
  - eapply fs_wf_update; [exact Hf1|done|done].
  - apply (filter_flip_length _ _ _ k); [apply NoDup_seqZ|apply elem_of_seqZ; lia| |congruence|].
    + rewrite Bb, Z.eqb_refl by done. done.
    + intros j Hj Hjk. apply elem_of_seqZ in Hj. rewrite Bb, Hbits by (unfold bm_range; lia).
      by rewrite (proj2 (Z.eqb_neq _ _)).
Qed.

Lemma dealloc_all_spec m v :
  fs_wf h m fs nd → NoDup v → (∀ b, b ∈ v → data_block m fs nd true b) →
  wp (dealloc_all fs v) h m (λ _ m', deallocated fs nd h m v m').
Proof.
  revert m. induction v as [|b v IH]; intros m Hf Hnd Hv; cbn [dealloc_all].
  { apply wp_ret. split; try done; set_solver. }
  apply NoDup_cons in Hnd as [Hni Hnd]. apply wp_bind.
  eapply wp_mono; [apply dealloc_data_spec; [done|apply Hv; by left]|]. intros _ m1 [K1 F1 R1 Fr1 D1 W1 C1].
  eapply wp_mono; [apply IH; [done|done|]|].
  { intros c Hc. apply K1; [apply Hv; by right|]. intros ->%list_elem_of_singleton. done. }
  intros _ m2 [K2 F2 R2 Fr2 D2 W2 C2]. split.
  - intros c Hc [Hn1 Hn2]%not_elem_of_cons. apply K2; [|done]. apply K1; [done|]. by intros ->%list_elem_of_singleton.
  - intros c [->|Hc]%elem_of_cons; [apply R2, F1; by left|by apply F2].
  - intros c Hc. by apply R2, R1.
  - intros id Hid [Hn1 Hn2]%not_elem_of_cons. rewrite Fr2 by done. apply Fr1; [done|]. by intros ->%list_elem_of_singleton.
  - intros id. by rewrite D2, D1.
  - done.
  - rewrite C2, C1. simpl. lia.
Qed.
End dealloc.

(** [clear_locked]: the file is empty and all its blocks are free. *)
Lemma clear_locked_step fs nd m self di ids l1s :
  fs_wf ∅ m fs nd → file_at fs nd m self di ids l1s →
  wp (clear_locked fs self) ∅ m (λ _ m', ∃ di',
    inode_step fs nd m self (owned_blocks di ids l1s) m' di' [] [] ∧
    di_size di' = 0 ∧ type_ di' = type_ di ∧ nlink di' = nlink di).
Proof.
  intros Hf Hfile. pose proof Hfile as [Hloc Ht Hl Hs Hnd Hown].
  pose proof (inode_loc_ok _ _ _ _ (fw_disk _ _ _ _ Hf) Hloc) as Hi.
  assert (fs_wf ({[i_block_id self]} ∪ ∅) m fs nd) as Hfh
    by (apply fs_wf_held; [done|by apply Nat.ltb_lt|apply Hloc]).
  unfold clear_locked. apply wp_bind. eapply wp_mono.
  { eapply (wp_modify_inode fs nd m self (owned_blocks di ids l1s) Hf Hown di _
      (λ _ m2 di' ids' l1s', ids' = [] ∧ l1s' = [] ∧ di_size di' = 0 ∧ type_ di' = type_ di ∧ nlink di' = nlink di)); [done|].
    cbv zeta. apply wp_bind. eapply wp_mono.
    { apply (clear_size_spec _ m di ids l1s Ht); try done; [apply Hf|apply held_one_size| |].
      - by apply NoDup_app in Hnd as (? & _ & _).
      - apply (if_index _ _ _ _ _ (file_at_open _ _ _ _ _ _ _ Hf Hfile)). }
    intros [v di'] m1 (-> & Hv & Hcnt & Hz & Hi' & Hn & Hty). rewrite (proj2 (Z.eqb_eq _ _) Hcnt).
    cbn [assert liftp mbind prog_bind]. apply wp_bind.
    eapply wp_mono; [apply (dealloc_all_spec fs nd); [done|by rewrite Hv|]|].
    { intros b Hb. apply Hown. unfold owned_blocks. by rewrite <- Hv. }
    intros _ m2 [K F R Fr D W C]. apply wp_ret. exists [], []. split; [|done].
    assert (∀ b, b ∈ v ↔ b ∈ owned_blocks di ids l1s) as Hin by (intros b; unfold owned_blocks; by rewrite <- Hv).
    split; rewrite ?Hz; try done.
    - apply empty_tree.
    - constructor.
    - intros b Hb%elem_of_nil. done.
    - intros b Hb%elem_of_nil. done.
    - intros b Hb Hno. apply K; [done|]. by rewrite Hin.
    - intros id Hid Hno _. apply Fr; [done|]. by rewrite Hin.
    - apply W.
    - rewrite C. lia. }
  intros _ m' (m2 & di' & ids' & l1s' & [Hst _] & -> & -> & Hz & Hty & Hn). eapply wp_mono; [by apply wp_sync|].
  intros _ m'' ->. by exists di'.
Qed.

(** ** Removing an entry *)
Definition swap_remove (i : nat) (ents : entries) : entries :=
  match last ents with
  | Some e => take (length ents - 1) (<[i := e]> ents)
  | None => []
  end.

Lemma slice_take {A} o l k (x : list A) : (o + l ≤ k)%nat → slice o l (take k x) = slice o l x.
Proof. intros Hk. unfold slice. rewrite skipn_firstn_comm, take_take. by replace (l `min` (k - o))%nat with l by lia. Qed.

Lemma take_splice {A} o (b x : list A) k q :
  (k ≤ q)%nat → (q ≤ length x)%nat → (o + length b ≤ q)%nat → take k (splice o b (take q x)) = take k (splice o b x).
Proof.
  intros Hk Hq Hb. rewrite <- (take_drop q x) at 2. unfold splice.
  rewrite (take_app_le (take q x)), drop_app_le by (rewrite length_take; lia).
  rewrite !app_assoc. symmetry. apply take_app_le. rewrite !length_app, !length_take, length_drop, length_take. lia.
Qed.

Lemma dir_repr_swap bytes ents i e n :
  dir_repr bytes ents → last ents = Some e → (i < length ents)%nat → n = (length ents - 1)%nat →
  dir_repr (take (32 * n) (splice (32 * i) (slice (32 * n) 32 bytes) bytes)) (swap_remove i ents).
Proof.
  intros [Hl He] Hlast Hi ->. unfold swap_remove. rewrite Hlast. rewrite last_lookup in Hlast.
  replace (pred (length ents)) with (length ents - 1)%nat in Hlast by lia.
  assert (length (slice (32 * (length ents - 1)) 32 bytes) = 32%nat) as Hs by (apply length_slice; lia).
  split; [rewrite !length_take, length_splice, length_insert; lia|].
  intros j nm ino Hj. apply lookup_take_Some in Hj as [Hj Hlt].
  rewrite slice_take by lia. destruct (decide (j = i)) as [->|Hne].
  - rewrite list_lookup_insert_eq in Hj by done. injection Hj as ->.
    pose proof (slice_splice_same (32 * i) (slice (32 * (length ents - 1)) 32 bytes) bytes) as Hss.
    rewrite Hs in Hss. rewrite Hss by lia. by apply He.
  - rewrite list_lookup_insert_ne in Hj by done. rewrite slice_splice_disjoint by lia. by apply He.
Qed.

(** The block tree of a prefix of the file. *)
Lemma tree_take m di di' ids l1s n :
  tree m di ids l1s → direct di' = direct di → indirect1 di' = indirect1 di → indirect2 di' = indirect2 di →
  (n ≤ length ids)%nat → tree m di' (take n ids) (take (l1_count n) l1s).
Proof.
  intros [Hd H1 Hl H2 Hlf Hm] Ed E1 E2 Hn.
  assert (l1_count n ≤ length l1s)%nat as Hln by (rewrite Hl; unfold l1_count; dlia).
  assert (length (take n ids) = n) as Hlen by (rewrite length_take; lia).
  split; rewrite ?Hlen, ?Ed, ?E1, ?E2.
  - intros j Hj Hjn. rewrite lookup_take_lt by lia. apply Hd; lia.
  - intros H26. destruct H1 as (b & Hb & Hw); [lia|]. exists b. split; [done|].
    intros j Hj Hjn. rewrite lookup_take_lt by lia. apply Hw; lia.
  - rewrite length_take. lia.
  - intros H154. destruct H2 as (b & Hb & Hw); [lia|]. exists b. split; [done|].
    intros a Ha. rewrite length_take in Ha. rewrite lookup_take_lt by lia. apply Hw. lia.
  - intros a id1 Ha. apply lookup_take_Some in Ha as [Ha Hlt]. destruct (Hlf a id1 Ha) as (b & Hb & Hw).
    exists b. split; [done|]. rewrite Hlen. intros j Hj Hjn. rewrite lookup_take_lt by lia. apply Hw; lia.
  - lia.
Qed.

Lemma owned_take di di' ids l1s n k :
  indirect1 di' = indirect1 di → indirect2 di' = indirect2 di → (n ≤ length ids)%nat →
  owned_blocks di' (take n ids) (take k l1s) `sublist_of` owned_blocks di ids l1s.
Proof.
  intros E1 E2 Hn. unfold owned_blocks, index_blocks. rewrite E1, E2, length_take, Nat.min_l by done.
  apply sublist_app; [apply sublist_app|apply sublist_take].
  - destruct (Nat.ltb_spec 26 n); [|apply sublist_nil_l]. by rewrite (proj2 (Nat.ltb_lt 26 _)) by lia.
  - destruct (Nat.ltb_spec 154 n); [|apply sublist_nil_l]. rewrite (proj2 (Nat.ltb_lt 154 _)) by lia.
    apply sublist_skip, sublist_take.
Qed.

Lemma content_take m ids n :
  disk_ok m → (∀ b, b ∈ ids → is_Some (m !! b)) → content m (take n ids) = take (512 * n) (content m ids).
Proof.
  intros Hd Hp. destruct (decide (n ≤ length ids)%nat) as [Hn|Hn].
  - rewrite <- (take_drop n ids) at 2. rewrite content_app.
    assert (length (content m (take n ids)) = (512 * n)%nat) as Hl.
    { rewrite length_content_present, length_take; [lia|done|]. intros b Hb. apply Hp.
      by eapply elem_of_sublist, sublist_take. }
    rewrite <- Hl. by rewrite take_app_length.
  - rewrite (take_ge ids) by lia. rewrite take_ge; [done|]. rewrite length_content_present by done. lia.
Qed.

Lemma content_is_bytes m ids : disk_ok m → Forall is_byte (content m ids).
Proof.
  intros Hd. unfold content, blocks_of. apply Forall_concat, Forall_fmap, Forall_forall. intros b _. simpl.
  destruct (m !! b) as [x|] eqn:Hx; [by destruct (Hd _ _ Hx)|constructor].
Qed.

Section remove.
Context (fs : EasyFileSystem) (nd : Z) (m : bmap) (self : Inode) (di : DiskInode) (ids l1s : list Z) (ents : entries).
Context (Hf : fs_wf ∅ m fs nd) (Hfile : file_at fs nd m self di ids l1s).
Context (Hdir : is_dir di = true) (Hents : dir_repr (file_bytes m di ids) ents).

(** A write inside the file and a smaller size. *)
Lemma shrink_change h off buf m2 new_size :
  wrote h m di ids l1s off buf m2 → 0 ≤ new_size ≤ di_size di →
  inode_change fs nd m (owned_blocks di ids l1s) m2 (set_size new_size di)
    (take (nblocks new_size) ids) (take (l1_count (nblocks new_size)) l1s).
Proof.
  intros [_ Wf Wfr Wdom] Hn. pose proof Hfile as [Hloc Ht Hl Hs Hnd Hown].
  pose proof (inode_loc_ok _ _ _ _ (fw_disk _ _ _ _ Hf) Hloc) as Hi.
  assert (nblocks new_size ≤ length ids)%nat as Hle by (rewrite Hl; by apply nblocks_mono).
  pose proof (owned_take di (set_size new_size di) ids l1s (nblocks new_size) (l1_count (nblocks new_size))
    eq_refl eq_refl Hle) as Hsub.
  assert (∀ v x, data_block m fs nd v x → data_block m2 fs nd v x) as Hbits.
  { intros v x [Hr Hx]. split; [done|]. rewrite <- Hx. unfold bm_bit. rewrite Wfr; [done|]. intros Hx'.
    destruct (Hown _ (proj2 (elem_of_app _ _ _) (or_intror Hx'))) as [Hy _].
    destruct Hf as [[] _ Hnn Hord _ _ _]. clear -Hy Hr Hnn Hord. unfold BLOCK_BITS, BLOCK_SZ in *. dlia. }
  split; try done.
  - destruct Hi. split; try done. simpl. unfold is_u32 in *. lia.
  - eapply tree_take; [apply Wf|done..].
  - rewrite length_take. simpl. lia.
  - simpl. lia.
  - by eapply sublist_NoDup.
  - intros b Hb. apply Hbits, Hown. by eapply elem_of_sublist.
  - intros b Hb. left. by eapply elem_of_sublist.
  - intros b Hb _. by apply Hbits.
  - intros id _ Hno _. apply Wfr. intros Hin. apply Hno, elem_of_app. by right.
  - apply Wf.
  - rewrite (data_bits_nfree _ _ m m2 Hbits). lia.
Qed.

(** The last entry is written over entry [i], and the size reduced. *)
Lemma swap_last_spec (r : option Inode) i :
  (i < length ents)%nat →
  wp (Layout.read_at di ((Z.of_nat (length ents) - 1) * DIRENT_SZ) DIRENT_SZ ≫= λ swap,
      Layout.write_at di (Z.of_nat i * DIRENT_SZ) (swap ++ drop (length swap) (as_bytes de_new_empty)) ≫= λ _,
      mret (r, set_size (u32 (di_size di - DIRENT_SZ)) di)) ({[i_block_id self]} ∪ ∅) m
    (λ '(r', di') m2, ∃ ids' l1s', inode_change fs nd m (owned_blocks di ids l1s) m2 di' ids' l1s' ∧
      r' = r ∧ type_ di' = type_ di ∧ nlink di' = nlink di ∧
      dir_repr (file_bytes m2 di' ids') (swap_remove i ents)).
Proof.
  intros Hlt. pose proof (file_at_open _ _ _ _ _ _ _ Hf Hfile) as Hif.
  destruct (dir_at_size fs nd m self di ids l1s ents Hf Hfile Hdir Hents) as [Hsz _].
  destruct (file_length fs nd m self di ids l1s Hf Hfile) as [Hlc Hle].
  pose proof (fi_size _ _ _ _ _ _ _ Hfile) as Hmax.
  destruct (last ents) as [e|] eqn:Hlast; [|apply last_None in Hlast as Hnil; rewrite Hnil in Hlt; simpl in Hlt; lia].
  set (n := (length ents - 1)%nat). set (bytes := file_bytes m di ids) in *.
  replace ((Z.of_nat (length ents) - 1) * DIRENT_SZ) with (Z.of_nat (32 * n)) by (unfold DIRENT_SZ; lia).
  replace (Z.of_nat i * DIRENT_SZ) with (Z.of_nat (32 * i)) by (unfold DIRENT_SZ; lia).
  change DIRENT_SZ with (Z.of_nat 32).
  apply wp_bind. eapply wp_mono; [apply (read_at_spec _ m di ids l1s (32 * n) 32 Hif); lia|].
  intros v m1 [-> ->]. fold (file_bytes m di ids). fold bytes. pose proof Hents as [Hlb _].
  assert (length (slice (32 * n) 32 bytes) = 32%nat) as Hlsl by (apply length_slice; lia).
  rewrite drop_ge, app_nil_r by (rewrite Hlsl; vm_compute; lia).
  pose proof (fi_nodup _ _ _ _ _ _ _ Hfile) as Hnd. apply NoDup_app in Hnd as (_ & Hdis & Hndi).
  apply wp_bind. eapply wp_mono.
  { apply (write_at_spec _ m di ids l1s (32 * i) (slice (32 * n) 32 bytes) Hif); rewrite ?Hlsl; try done; try lia.
    - intros x Hx Hin. by apply (Hdis x).
    - apply Forall_slice, Forall_take, content_is_bytes, Hf. }
  rewrite Hlsl. replace (32 `min` (Z.to_nat (di_size di) - 32 * i))%nat with 32%nat by lia.
  rewrite take_ge by lia. intros k m2 [_ Hw]. apply wp_ret.
  assert (u32 (di_size di - Z.of_nat 32) = Z.of_nat (32 * n)) as ->.
  { rewrite u32_id by (unfold is_u32; lia). lia. }
  eexists _, _. split; [eapply shrink_change; [exact Hw|lia]|]. split_and!; try done.
  unfold file_bytes. cbn [di_size set_size]. rewrite content_take.
  - rewrite take_take, Nat2Z.id, Nat.min_l by (pose proof (nblocks_bounds (Z.of_nat (32 * n))); lia).
    rewrite (wr_content _ _ _ _ _ _ _ _ Hw), <- (take_splice _ _ (content m ids) (32 * n) (Z.to_nat (di_size di))) by lia.
    by apply (dir_repr_swap bytes ents i e).
  - apply Hw.
  - intros b Hb. apply (wr_dom _ _ _ _ _ _ _ _ Hw). by apply (if_data _ _ _ _ _ Hif).
Qed.

Lemma unlink_entry_step nm :
  wp (modify_disk_inode self (unlink_entry fs nm)) ∅ m (λ r m',
    match list_find (λ e, e.1 = nm) ents with
    | Some (i, (_, c)) => r = Some (inode_at fs c) ∧ ∃ di' ids' l1s',
        inode_step fs nd m self (owned_blocks di ids l1s) m' di' ids' l1s' ∧ type_ di' = type_ di ∧ nlink di' = nlink di ∧
        dir_repr (file_bytes m' di' ids') (swap_remove i ents)
    | None => r = None ∧
        inode_step fs nd m self (owned_blocks di ids l1s) m' di ids l1s ∧ content m' ids = content m ids
    end).
Proof.
  pose proof (dir_at_open fs nd m self di ids l1s ents Hf Hfile Hdir Hents) as Hopen.
  destruct (dir_at_size fs nd m self di ids l1s ents Hf Hfile Hdir Hents) as [_ Hcnt].
  assert (inode_ok di) as Hi by (eapply inode_loc_ok; [apply Hf|by eapply fi_loc]).
  eapply wp_mono.
  { eapply (wp_modify_inode fs nd m self (owned_blocks di ids l1s) Hf (fi_owned _ _ _ _ _ _ _ Hfile) di _
      (λ r m2 di' ids' l1s', match list_find (λ e, e.1 = nm) ents with
       | Some (i, (_, c)) => r = Some (inode_at fs c) ∧ type_ di' = type_ di ∧ nlink di' = nlink di ∧
           dir_repr (file_bytes m2 di' ids') (swap_remove i ents)
       | None => r = None ∧ m2 = m ∧ di' = di ∧ ids' = ids ∧ l1s' = l1s
       end)); [by eapply fi_loc|].
    unfold unlink_entry. rewrite Hdir. cbn [negb]. cbv zeta. rewrite Hcnt, Nat2Z.id. apply wp_bind.
    eapply wp_mono.
    { apply (get_dirent_loop_spec _ _ _ _ _ _ Hopen (has_name nm) (λ e, bool_decide (e.1 = nm)) (length ents) 0); [|lia].
      intros de n ino Hn Hino. unfold has_name. by rewrite Hn. }
    intros r m1 [Hr ->]. rewrite drop_0 in Hr.
    rewrite (list_find_ext _ (λ e, e.1 = nm)) in Hr by (intros e; by rewrite bool_decide_eq_true).
    destruct (list_find (λ e, e.1 = nm) ents) as [[i [nm' c]]|] eqn:Hfind.
    - destruct Hr as (de & -> & _ & <-). apply list_find_Some in Hfind as (Hlook & _ & _).
      apply swap_last_spec. by eapply lookup_lt_Some.
    - subst r. apply wp_ret. exists ids, l1s. split; [|done]. by eapply change_same. }
  intros r m' (m2 & di' & ids' & l1s' & [Hst Heq] & Hr). destruct (list_find _ ents) as [[i [nm' c]]|].
  - destruct Hr as (-> & Ht & Hn & Hd). split; [done|]. exists di', ids', l1s'. split_and!; try done.
    unfold file_bytes. by rewrite Heq.
  - by destruct Hr as (-> & -> & -> & -> & ->).
Qed.
End remove.
