(* ===== verification/FsTree.v ===== *)
(** * The file system as a tree of files (easy-fs/src/vfs.rs, efs.rs)

    The abstract file system is a map from inode numbers to files and
    directories.  [fs_rel] relates it to a disk: every node is a well-formed
    file whose blocks no other node uses, the bitmaps mark what is in use, and
    directory entries lead to nodes.  The operations of the virtual file system
    layer refine the operations on the map. *)
From S2P Require Import Prelude Bytes BlockCache DiskLogic Bitmap Layout InodeMap InodeGrow InodeData Efs Vfs FsData FsDir FsOps.

(** ** Abstract file systems *)
Inductive fdata := FileData (bytes : list Z) | DirData (ents : list (list Z * Z)).
Record fnode := mkNode { n_data : fdata; n_links : Z }.
Abbreviation ftree := (gmap Z fnode) (only parsing).

#[global] Instance fdata_eq_dec : EqDecision fdata.
Proof. solve_decision. Defined.
#[global] Instance fnode_eq_dec : EqDecision fnode.
Proof. solve_decision. Defined.

Definition dir_of (tr : ftree) (d : Z) : option (list (list Z * Z)) :=
  match tr !! d with Some (mkNode (DirData ents) _) => Some ents | _ => None end.
Definition set_data (k : fdata) (n : fnode) : fnode := mkNode k (n_links n).
Definition set_links (l : Z) (n : fnode) : fnode := mkNode (n_data n) l.

(** An empty node of the same kind. *)
Definition emptied (n : fnode) : fnode :=
  set_data (match n_data n with FileData _ => FileData [] | DirData _ => DirData [] end) n.

(** ** Representation *)
Record ilay := mkLay { l_di : DiskInode; l_ids : list Z; l_l1s : list Z }.
Definition l_owned (l : ilay) : list Z := owned_blocks (l_di l) (l_ids l) (l_l1s l).
Definition l_at (fs : EasyFileSystem) (nd : Z) (m : bmap) (ino : Z) (l : ilay) : Prop :=
  file_at fs nd m (inode_at fs ino) (l_di l) (l_ids l) (l_l1s l).

Definition node_rel (m : bmap) (l : ilay) (n : fnode) : Prop :=
  nlink (l_di l) = n_links n ∧
  match n_data n with
  | FileData bs => is_file (l_di l) = true ∧ file_bytes m (l_di l) (l_ids l) = bs
  | DirData ents => is_dir (l_di l) = true ∧ dir_repr (file_bytes m (l_di l) (l_ids l)) ents
  end.

(** The inode bitmap, then the inode area with room for [ni] inodes, then the
    data bitmap. *)
Record geometry (fs : EasyFileSystem) (ni : Z) (m : bmap) : Prop := {
  ge_bitmap : bitmap_ok ∅ m (inode_bitmap fs);
  ge_ni : 0 ≤ ni ≤ bm_blocks (inode_bitmap fs) * BLOCK_BITS;
  ge_u32 : ni ≤ 2 ^ 32;
  ge_low : start_block_id (inode_bitmap fs) + bm_blocks (inode_bitmap fs) ≤ inode_area_start_block fs;
  ge_high : inode_area_start_block fs + (ni + 3) / 4 ≤ start_block_id (data_bitmap fs);
  ge_area : ∀ ino, 0 ≤ ino < ni → is_Some (m !! (inode_area_start_block fs + ino / 4));
}.

Definition entries_in (tr : ftree) (k : fdata) : Prop :=
  match k with DirData ents => ∀ nm c, (nm, c) ∈ ents → is_Some (tr !! c) | FileData _ => True end.

Record fs_rel (fs : EasyFileSystem) (nd ni : Z) (m : bmap) (lay : gmap Z ilay) (tr : ftree) : Prop := {
  fr_wf : fs_wf ∅ m fs nd;
  fr_geo : geometry fs ni m;
  fr_dom : ∀ ino, is_Some (lay !! ino) ↔ is_Some (tr !! ino);
  fr_at : ∀ ino l, lay !! ino = Some l → l_at fs nd m ino l;
  fr_node : ∀ ino l n, lay !! ino = Some l → tr !! ino = Some n → node_rel m l n;
  fr_used : ∀ ino, is_Some (tr !! ino) → 0 ≤ ino < ni ∧ bm_bit m (inode_bitmap fs) ino = true;
  fr_sep : ∀ i j li lj x, i ≠ j → lay !! i = Some li → lay !! j = Some lj → x ∈ l_owned li → x ∉ l_owned lj;
  fr_closed : ∀ ino n, tr !! ino = Some n → entries_in tr (n_data n);
}.

Section rel.
Context (fs : EasyFileSystem) (nd ni : Z).
Implicit Types (m : bmap) (lay : gmap Z ilay) (tr : ftree).

(** Positions of inodes. *)
Lemma slot_eq m ino :
  fs_wf ∅ m fs nd → geometry fs ni m → 0 ≤ ino < ni →
  i_block_id (inode_at fs ino) = inode_area_start_block fs + ino / 4 ∧
  block_offset (inode_at fs ino) = (ino mod 4) * 128 ∧
  inode_area_start_block fs ≤ i_block_id (inode_at fs ino) < start_block_id (data_bitmap fs).
Proof.
  intros Hf [[] Hni Hu Hlo Hhi Har] Hino. destruct Hf as [[] _ _ Ho Hh _ _]. unfold inode_at, get_disk_inode_pos.
  cbn [i_block_id block_offset]. change (BLOCK_SZ / INODE_SIZE) with 4. unfold INODE_SIZE.
  rewrite u32_id by (unfold is_u32; dlia). split_and!; try done; dlia.
Qed.

Lemma slots_apart m i j :
  fs_wf ∅ m fs nd → geometry fs ni m → 0 ≤ i < ni → 0 ≤ j < ni → i ≠ j → apart (inode_at fs i) (inode_at fs j).
Proof.
  intros Hf Hg Hi Hj Hne. destruct (slot_eq m i Hf Hg Hi) as (Hbi & Hoi & _).
  destruct (slot_eq m j Hf Hg Hj) as (Hbj & Hoj & _). unfold apart, INODE_SIZE. rewrite Hbi, Hbj, Hoi, Hoj. dlia.
Qed.

Lemma slot_present m ino :
  fs_wf ∅ m fs nd → geometry fs ni m → 0 ≤ ino < ni → ∃ di, inode_loc fs m (inode_at fs ino) di.
Proof.
  intros Hf Hg Hi. destruct (slot_eq m ino Hf Hg Hi) as (Hb & Ho & Hr). destruct (ge_area _ _ _ Hg ino Hi) as [b Hb'].
  eexists. split; [exists b; split; [by rewrite Hb|done]|apply inode_at_offset|lia].
Qed.

Lemma geometry_update m m' :
  geometry fs ni m → (∀ id, is_Some (m' !! id) ↔ is_Some (m !! id)) → geometry fs ni m'.
Proof.
  intros [[] Hni Hu Hlo Hhi Har] Hdom. split; try done; [split; try done|].
  - intros id Hid. rewrite Hdom. auto.
  - intros ino Hino. rewrite Hdom. auto.
Qed.

(** The inode bitmap is not touched by a step of an inode. *)
Lemma step_ibits m ino own m' di ids l1s k :
  fs_wf ∅ m fs nd → geometry fs ni m → 0 ≤ ino < ni → 0 ≤ k < ni →
  inode_step fs nd m (inode_at fs ino) own m' di ids l1s →
  bm_bit m' (inode_bitmap fs) k = bm_bit m (inode_bitmap fs) k.
Proof.
  intros Hf Hg Hi Hk Hst. destruct (slot_eq m ino Hf Hg Hi) as (Hb & _ & Hr).
  destruct Hg as [[] Hni Hu Hlo Hhi _]. unfold bm_bit. rewrite (is_low _ _ _ _ _ _ _ _ _ Hst); [done| |];
    clear -Hk Hni Hlo Hhi Hr Hi; unfold BLOCK_BITS, BLOCK_SZ in *; dlia.
Qed.

(** Nor is any other block before the inodes. *)
Definition low_same (m m' : bmap) : Prop := ∀ id, id < inode_area_start_block fs → m' !! id = m !! id.
Lemma step_low m ino own m' di ids l1s :
  fs_wf ∅ m fs nd → geometry fs ni m → 0 ≤ ino < ni →
  inode_step fs nd m (inode_at fs ino) own m' di ids l1s → low_same m m'.
Proof.
  intros Hf Hg Hi Hst id Hid. destruct (slot_eq m ino Hf Hg Hi) as (_ & _ & Hr). apply (is_low _ _ _ _ _ _ _ _ _ Hst); lia.
Qed.
Lemma low_ibits m m' k : geometry fs ni m → low_same m m' → 0 ≤ k < ni →
  bm_bit m' (inode_bitmap fs) k = bm_bit m (inode_bitmap fs) k.
Proof.
  intros [[] Hni Hu Hlo Hhi _] Hs Hk. unfold bm_bit. rewrite Hs; [done|].
  clear -Hk Hni Hlo Hhi. unfold BLOCK_BITS, BLOCK_SZ in *. dlia.
Qed.

(** A step of one inode, new or old, is a change of one node. *)
Lemma rel_step m lay tr ino own m' di ids l1s n :
  fs_rel fs nd ni m lay tr → 0 ≤ ino < ni → bm_bit m (inode_bitmap fs) ino = true →
  (∀ x, x ∈ own → ∃ l, lay !! ino = Some l ∧ x ∈ l_owned l) →
  (∀ x, x ∈ own → data_block m fs nd true x) →
  inode_step fs nd m (inode_at fs ino) own m' di ids l1s →
  node_rel m' (mkLay di ids l1s) n → entries_in (<[ino := n]> tr) (n_data n) →
  fs_rel fs nd ni m' (<[ino := mkLay di ids l1s]> lay) (<[ino := n]> tr).
Proof.
  intros [Hf Hg Hdom Hat Hnode Hused Hsep Hcl] Hi Hbit Hown Hdata Hst Hn Hent.
  assert (∀ j l, ino ≠ j → lay !! j = Some l →
    l_at fs nd m' j l ∧ content m' (l_ids l) = content m (l_ids l)) as Hoth.
  { intros j l Hne Hl. assert (0 ≤ j < ni) as Hj by (apply Hused, Hdom; eauto).
    apply (is_others _ _ _ _ _ _ _ _ _ Hst); [by apply Hat|by apply (slots_apart m)|].
    intros x Hx Hin. destruct (Hown x Hx) as (li & Hli & Hx'). by apply (Hsep ino j li l x). }
  assert (∀ j l x, ino ≠ j → lay !! j = Some l → x ∈ owned_blocks di ids l1s → x ∉ l_owned l) as Hdis.
  { intros j l x Hne Hl Hx Hin. destruct (is_fresh _ _ _ _ _ _ _ _ _ Hst x Hx) as [Hxo|[_ Hfree]].
    - destruct (Hown x Hxo) as (li & Hli & Hx'). by apply (Hsep ino j li l x).
    - destruct (fi_owned _ _ _ _ _ _ _ (Hat j l Hl) x Hin) as [_ Hus]. congruence. }
  split.
  - apply Hst.
  - eapply geometry_update; [done|apply Hst].
  - intros j. destruct (decide (ino = j)) as [<-|Hne]; [by rewrite !lookup_insert_eq|by rewrite !lookup_insert_ne].
  - intros j l [[<- <-]|[Hne Hl]]%lookup_insert_Some; [apply Hst|by apply Hoth].
  - intros j l n' [[<- <-]|[Hne Hl]]%lookup_insert_Some; [rewrite lookup_insert_eq; by intros [= <-]|].
    rewrite lookup_insert_ne by done. intros Hn'. destruct (Hnode j l n' Hl Hn') as [Hlk Hk].
    split; [done|]. destruct (Hoth j l Hne Hl) as [_ Hc]. unfold file_bytes in *. by rewrite Hc.
  - intros j Hj. assert (0 ≤ j < ni ∧ bm_bit m (inode_bitmap fs) j = true) as [Hjr Hjb].
    { destruct (decide (ino = j)) as [<-|Hne]; [done|]. rewrite lookup_insert_ne in Hj by done. by apply Hused. }
    split; [done|]. by rewrite (step_ibits m ino own m' di ids l1s).
  - intros i j li lj x Hij. rewrite !lookup_insert_Some.
    intros [[<- <-]|[Hni Hli]] [[<- <-]|[Hnj Hlj]] Hx; [done|by apply (Hdis j lj x)| |by apply (Hsep i j li lj x)].
    intros Hin. by apply (Hdis i li x).
  - intros j n' Hj. assert (∀ k, entries_in tr k → entries_in (<[ino:=n]> tr) k) as Hmono.
    { intros [bs|ents] Hk; [done|]. intros nm c Hin. destruct (Hk nm c Hin). rewrite lookup_insert_is_Some'. eauto. }
    apply lookup_insert_Some in Hj as [[<- <-]|[Hne Hj]]; [done|]. by apply Hmono, (Hcl j).
Qed.

(** Taking an inode number. *)
Lemma rel_alloc_inode m lay tr :
  fs_rel fs nd ni m lay tr → (∃ k, 0 ≤ k < ni ∧ bm_bit m (inode_bitmap fs) k = false) →
  wp (alloc_inode fs) ∅ m (λ c m', tr !! c = None ∧ 0 ≤ c < ni ∧ bm_bit m' (inode_bitmap fs) c = true ∧
    nfree m' fs nd = nfree m fs nd ∧ fs_rel fs nd ni m' lay tr ∧ (∀ j, 0 ≤ j < c → bm_bit m (inode_bitmap fs) j = true) ∧
    (∀ id, ¬ in_bitmap (inode_bitmap fs) id → m' !! id = m !! id) ∧
    (∀ j, 0 ≤ j < ni → bm_bit m' (inode_bitmap fs) j = if j =? c then true else bm_bit m (inode_bitmap fs) j)).
Proof.
  intros [Hf Hg Hdom Hat Hnode Hused Hsep Hcl] (k & Hk & Hkf). unfold alloc_inode. apply wp_bind.
  eapply wp_mono; [apply bitmap_alloc_spec; [apply Hg|apply Hf]|]. pose proof Hg as [[B0 B1 B2 _ _ _] Hni Hu Hlo Hhi _].
  assert (∀ j, 0 ≤ j < ni → bm_range (inode_bitmap fs) j) as Hrange by (unfold bm_range; lia).
  intros [c|] m'; cbn [unwrap liftp mbind prog_bind].
  2: { intros [_ Hfull]. rewrite Hfull in Hkf by (by apply Hrange). done. }
  intros (Hr & Hc & Hleast & [Bb Bf Bd Bk]).
  assert (c ≤ k) as Hck by (destruct (decide (c ≤ k)); [done|rewrite Hleast in Hkf by lia; done]).
  unfold bm_range in Hr. rewrite u32_id by (unfold is_u32; lia).
  assert (∀ id, inode_area_start_block fs ≤ id → m' !! id = m !! id) as Hhigh
    by (intros id Hid; apply Bf; unfold in_bitmap; lia).
  assert (inode_area_start_block fs ≤ start_block_id (data_bitmap fs)) as Hord by (clear -Hhi Hni; dlia).
  assert (∀ v b, data_block m fs nd v b → data_block m' fs nd v b) as Hbits.
  { intros v b [Hb Hbv]. split; [done|]. rewrite <- Hbv. unfold bm_bit. rewrite Hhigh; [done|].
    clear -Hord Hb. unfold BLOCK_BITS, BLOCK_SZ. dlia. }
  assert (∀ b, data_block m fs nd true b → m' !! b = m !! b) as Hsame.
  { intros b [Hb _]. apply Hhigh. destruct Hf as [[] _ _ ? _ _ _]. lia. }
  apply wp_ret. split; [|split; [lia|split; [|split; [by apply data_bits_nfree|split; [|split; [done|split; [done|]]]]]]].
  { destruct (tr !! c) eqn:Htr; [|done]. destruct (Hused c) as [_ Hx]; [eauto|]. congruence. }
  { rewrite Bb by (by unfold bm_range). by rewrite Z.eqb_refl. }
  2: { intros j Hj. by rewrite Bb by (by apply Hrange). }
  split; try done.
  - by eapply fs_wf_update.
  - by eapply geometry_update.
  - intros ino l Hl. pose proof (Hat ino l Hl) as Ha. eapply file_at_frame; [exact Ha| | |by apply Hbits].
    + apply Hhigh, (slot_eq m); [done|done|]. apply Hused, Hdom. eauto.
    + intros b Hb. apply Hsame, Ha, elem_of_app. by left.
  - intros ino l n Hl Hn. destruct (Hnode ino l n Hl Hn) as [Hlk Hkd]. split; [done|].
    unfold file_bytes in *. rewrite (content_frame m m'); [done|]. intros b Hb. apply Hsame, (Hat ino l Hl), elem_of_app. by right.
  - intros ino Hino. destruct (Hused ino Hino) as [Hi Hb]. split; [done|]. rewrite Bb by (by apply Hrange). by case_match.
Qed.
End rel.

(** ** Operations on the abstract file system *)
Definition t_add (d : Z) (nm : list Z) (c : Z) (tr : ftree) : ftree :=
  alter (λ n, match n_data n with DirData ents => set_data (DirData (ents ++ [(nm, c)])) n | _ => n end) d tr.

Definition new_data (t : DiskInodeType) (c d : Z) : fdata :=
  match t with File => FileData [] | Directory => DirData [([46], c); ([46; 46], d)] end.
Definition t_create (t : DiskInodeType) (d : Z) (nm : list Z) (c : Z) (tr : ftree) : ftree :=
  <[c := mkNode (new_data t c d) 1]> (t_add d nm c tr).

Definition t_link (d : Z) (nm : list Z) (c : Z) (tr : ftree) : ftree :=
  alter (λ n, set_links (u32 (n_links n + 1)) n) c (t_add d nm c tr).

(** Drop a link; the last one takes the data with it. *)
Definition drop_link (n : fnode) : fnode :=
  let l := u32 (n_links n - 1) in if l =? 0 then emptied (set_links l n) else set_links l n.
Definition t_unlink (d : Z) (nm : list Z) (tr : ftree) : bool * ftree :=
  match dir_of tr d with
  | Some ents =>
      match list_find (λ e, e.1 = nm) ents with
      | Some (i, (_, c)) => (true, alter drop_link c (alter (set_data (DirData (swap_remove i ents))) d tr))
      | None => (false, tr)
      end
  | None => (false, tr)
  end.

Definition t_clear (ino : Z) (tr : ftree) : ftree := alter emptied ino tr.
Definition t_write (ino : Z) (off : nat) (gap bs : list Z) (tr : ftree) : ftree :=
  alter (λ n, match n_data n with FileData old => set_data (FileData (overwrite off gap bs old)) n | _ => n end) ino tr.

Section ops.
Context (fs : EasyFileSystem) (nd ni : Z).
Implicit Types (m : bmap) (lay : gmap Z ilay) (tr : ftree).

Lemma dir_of_Some tr d ents :
  dir_of tr d = Some ents ↔ ∃ k, tr !! d = Some (mkNode (DirData ents) k).
Proof.
  unfold dir_of. split.
  - destruct (tr !! d) as [[[bs|e] k]|]; try done. intros [= ->]. by exists k.
  - by intros [k ->].
Qed.

Lemma rel_get m lay tr ino n :
  fs_rel fs nd ni m lay tr → tr !! ino = Some n → ∃ l, lay !! ino = Some l ∧ l_at fs nd m ino l ∧ node_rel m l n.
Proof.
  intros Hr Hn. destruct (proj2 (fr_dom _ _ _ _ _ _ Hr ino)) as [l Hl]; [eauto|]. exists l.
  split_and!; [done|by apply Hr|by eapply Hr].
Qed.

(** Changing a node that is there. *)
Lemma rel_update m lay tr ino l m' di ids l1s n :
  fs_rel fs nd ni m lay tr → lay !! ino = Some l →
  inode_step fs nd m (inode_at fs ino) (l_owned l) m' di ids l1s →
  node_rel m' (mkLay di ids l1s) n → entries_in (<[ino := n]> tr) (n_data n) →
  fs_rel fs nd ni m' (<[ino := mkLay di ids l1s]> lay) (<[ino := n]> tr).
Proof.
  intros Hr Hl Hst Hn He. destruct (fr_used _ _ _ _ _ _ Hr ino) as [Hi Hb]; [apply Hr; eauto|].
  eapply rel_step; try done; [intros x Hx; by exists l|]. apply (fr_at _ _ _ _ _ _ Hr ino l Hl).
Qed.

Lemma used_step_low m lay tr ino n own m' di ids l1s :
  fs_rel fs nd ni m lay tr → tr !! ino = Some n → inode_step fs nd m (inode_at fs ino) own m' di ids l1s → low_same fs m m'.
Proof. intros Hr Hn Hst. eapply (step_low fs nd ni); [apply Hr|apply Hr|apply Hr; eauto|exact Hst]. Qed.

Lemma owned_length m self di ids l1s :
  file_at fs nd m self di ids l1s → length (owned_blocks di ids l1s) = tot (nblocks (di_size di)).
Proof.
  intros [_ Ht Hl _ _ _]. unfold owned_blocks. rewrite length_app, (length_index_blocks _ _ _ _ Ht), <- Hl. done.
Qed.

Lemma entries_in_mono tr tr' k :
  (∀ c, is_Some (tr !! c) → is_Some (tr' !! c)) → entries_in tr k → entries_in tr' k.
Proof. destruct k as [bs|ents]; [done|]. intros Hm Hk nm c Hin. by eapply Hm, Hk. Qed.

Lemma insert_keeps tr ino n c : is_Some (tr !! c) → is_Some (<[ino := n]> tr !! c).
Proof. intros [x Hx]. rewrite lookup_insert_is_Some'. eauto. Qed.

(** Looking a name up in a directory. *)
Lemma rel_lookup m lay tr d ents nm :
  fs_rel fs nd ni m lay tr → dir_of tr d = Some ents →
  wp (read_disk_inode (inode_at fs d) (λ di, liftp (assert (is_dir di)) ≫= λ _, find_inode_id nm di)) ∅ m
    (λ r m', r = lookup_name ents nm ∧ m' = m).
Proof.
  intros Hr [k Hd]%dir_of_Some. destruct (rel_get m lay tr d _ Hr Hd) as (l & Hl & Hat & _ & Hdir & Hents).
  pose proof Hat as [[(b & Hb & Hdec) Ho _] _ _ _ _ _]. unfold read_disk_inode.
  eapply wp_read; [split_and!; [exact Hb|set_solver|by apply Nat.ltb_lt]|apply Ho|done|apply Ho|].
  rewrite Hdec, Hdir. cbn [assert liftp mbind prog_bind].
  eapply find_inode_id_spec, dir_at_open; [apply Hr|exact Hat|done|done].
Qed.

(** A new entry. *)
Lemma rel_append m lay tr d ents nm c :
  fs_rel fs nd ni m lay tr → dir_of tr d = Some ents → is_Some (tr !! c) → name_ok nm →
  room fs nd m (Z.of_nat (32 * length ents)) (Z.of_nat (32 * S (length ents))) →
  wp (modify_disk_inode (inode_at fs d) (λ di, append_dirent fs nm c di ≫= λ di, mret ((), di))) ∅ m
    (λ _ m', ∃ l, fs_rel fs nd ni m' (<[d := l]> lay) (t_add d nm c tr) ∧
      (nfree m fs nd ≤ nfree m' fs nd + growth (Z.of_nat (32 * length ents)) (Z.of_nat (32 * S (length ents))))%nat ∧
      low_same fs m m').
Proof.
  intros Hr [k Hd]%dir_of_Some Hc Hnm Hroom.
  destruct (rel_get m lay tr d _ Hr Hd) as (l & Hl & Hat & Hlk & Hdir & Hents).
  pose proof (fr_wf _ _ _ _ _ _ Hr) as Hf. pose proof Hat as Hfile.
  destruct (dir_at_size fs nd m _ _ _ _ ents Hf Hfile Hdir Hents) as [Hsz _].
  destruct (fr_used _ _ _ _ _ _ Hr c Hc) as [Hcr _]. pose proof (ge_u32 _ _ _ (fr_geo _ _ _ _ _ _ Hr)) as Hu.
  eapply wp_mono.
  { apply (append_dirent_step fs nd m _ _ _ _ ents Hf Hfile Hdir Hents nm c Hnm); [unfold is_u32; lia|by rewrite Hsz]. }
  intros _ m' (di' & ids' & l1s' & Hst & Hty & Hnl & Hrep). exists (mkLay di' ids' l1s').
  assert (is_dir di' = true) as Hdir' by (unfold is_dir in *; by rewrite Hty).
  assert (t_add d nm c tr = <[d := mkNode (DirData (ents ++ [(nm, c)])) k]> tr) as ->.
  { unfold t_add. by rewrite (alter_alt_Some _ _ _ _ Hd). }
  split_and!.
  - eapply rel_update; [done|exact Hl|exact Hst| |].
    + split; [cbn; by rewrite Hnl|done].
    + apply (entries_in_mono tr); [apply insert_keeps|]. intros nm' c' [Hin|[= _ ->]%list_elem_of_singleton]%elem_of_app; [|done].
      by apply (fr_closed _ _ _ _ _ _ Hr d _ Hd nm').
  - destruct (dir_at_size fs nd m' _ _ _ _ _ (is_wf _ _ _ _ _ _ _ _ _ Hst) (is_at _ _ _ _ _ _ _ _ _ Hst) Hdir' Hrep) as [Hsz' _].
    pose proof (is_count _ _ _ _ _ _ _ _ _ Hst) as Hcnt. unfold l_owned in Hcnt.
    rewrite (owned_length _ _ _ _ _ Hat), (owned_length _ _ _ _ _ (is_at _ _ _ _ _ _ _ _ _ Hst)), Hsz, Hsz' in Hcnt.
    rewrite length_app, (Nat.add_comm (length ents)) in Hcnt. exact Hcnt.
  - by eapply used_step_low.
Qed.

(** A new inode, empty. *)
Definition empty_data (t : DiskInodeType) : fdata := match t with File => FileData [] | Directory => DirData [] end.

Lemma rel_initialize m lay tr c t :
  fs_rel fs nd ni m lay tr → tr !! c = None → 0 ≤ c < ni → bm_bit m (inode_bitmap fs) c = true →
  wp (modify_disk_inode (inode_at fs c) (λ di, mret ((), initialize t di))) ∅ m (λ _ m', ∃ di,
    di_size di = 0 ∧ (t = Directory → is_dir di = true) ∧
    fs_rel fs nd ni m' (<[c := mkLay di [] []]> lay) (<[c := mkNode (empty_data t) 1]> tr) ∧
    (nfree m fs nd ≤ nfree m' fs nd)%nat ∧ low_same fs m m').
Proof.
  intros Hr Hc Hci Hcb. pose proof (fr_wf _ _ _ _ _ _ Hr) as Hf.
  destruct (slot_present fs nd ni m c Hf (fr_geo _ _ _ _ _ _ Hr) Hci) as [di Hloc].
  eapply wp_mono; [by apply (initialize_spec fs nd)|]. intros [] m' Hst. exists (initialize t di).
  split_and!; [done|intros Ht; by rewrite Ht| | |].
  - eapply rel_step; try done; [set_solver|set_solver| |].
    + split; [done|]. clear Hst. destruct t; simpl; [done|]. split; [done|apply dir_repr_nil].
    + clear Hst. destruct t; simpl; [done|]. intros nm x Hx. set_solver.
  - pose proof (is_count _ _ _ _ _ _ _ _ _ Hst). simpl in *. lia.
  - eapply (step_low fs nd ni); [done|apply Hr|done|exact Hst].
Qed.

Lemma t_add_insert d nm c x tr : c ≠ d → t_add d nm c (<[c := x]> tr) = <[c := x]> (t_add d nm c tr).
Proof. intros Hne. unfold t_add. by rewrite alter_insert_ne. Qed.

(** The entries of a new directory. *)
Lemma rel_new_dir m lay tr c d k di :
  fs_rel fs nd ni m lay tr → lay !! c = Some (mkLay di [] []) → di_size di = 0 → is_dir di = true →
  tr !! c = Some (mkNode (DirData []) k) → is_Some (tr !! d) → (1 ≤ nfree m fs nd)%nat →
  wp (modify_disk_inode (inode_at fs c) (λ di, initialize_dir di c d (alloc_data fs) ≫= λ di, mret ((), di))) ∅ m
    (λ _ m', ∃ l, fs_rel fs nd ni m' (<[c := l]> lay) (<[c := mkNode (new_data Directory c d) k]> tr) ∧ low_same fs m m').
Proof.
  intros Hr Hl Hz Hdir Hc Hd Hfree. pose proof (ge_u32 _ _ _ (fr_geo _ _ _ _ _ _ Hr)) as Hu.
  destruct (fr_used _ _ _ _ _ _ Hr c) as [Hci _]; [eauto|]. destruct (fr_used _ _ _ _ _ _ Hr d Hd) as [Hdi _].
  pose proof (fr_at _ _ _ _ _ _ Hr c _ Hl) as Hat. pose proof (fr_node _ _ _ _ _ _ Hr c _ _ Hl Hc) as [Hlk _].
  eapply wp_mono.
  { pose proof (fr_wf _ _ _ _ _ _ Hr) as Hf. pose proof (file_at_ok _ _ _ _ _ _ _ Hf Hat) as Hi.
    apply (initialize_dir_step fs nd m di Hf Hi Hz Hdir (inode_at fs c) c d Hat); [unfold is_u32; lia..|done]. }
  intros _ m' (di' & ids' & l1s' & Hst & Hty & Hnl & Hrep). exists (mkLay di' ids' l1s').
  split; [|by eapply used_step_low]. eapply rel_update; [done|exact Hl|exact Hst| |].
  - split; [cbn in *; by rewrite Hnl|]. cbn. split; [unfold is_dir in *; by rewrite Hty|done].
  - intros nm x [[= _ ->]|[= _ ->]%list_elem_of_singleton]%elem_of_cons; [rewrite lookup_insert_eq; eauto|by apply insert_keeps].
Qed.

(** [create_inode]: what it needs, and what it does. *)
Definition create_room (m : bmap) (ents : list (list Z * Z)) (t : DiskInodeType) : Prop :=
  let old := Z.of_nat (32 * length ents) in let new := Z.of_nat (32 * S (length ents)) in
  room fs nd m old new ∧
  (growth old new + (match t with File => 0 | Directory => 1 end) ≤ nfree m fs nd)%nat ∧
  ∃ k, 0 ≤ k < ni ∧ bm_bit m (inode_bitmap fs) k = false.

(** What [create_inode] takes of the free inodes and blocks; the rest of the
    blocks before the inodes stays as it was. *)
Record created (m : bmap) (ents : list (list Z * Z)) (t : DiskInodeType) (c : Z) (m' : bmap) : Prop := {
  cr_range : 0 ≤ c < ni;
  cr_least : ∀ j, 0 ≤ j < c → bm_bit m (inode_bitmap fs) j = true;
  cr_bits : ∀ j, 0 ≤ j < ni → bm_bit m' (inode_bitmap fs) j = if j =? c then true else bm_bit m (inode_bitmap fs) j;
  cr_blocks : t = File → (nfree m fs nd ≤ nfree m' fs nd + growth (Z.of_nat (32 * length ents)) (Z.of_nat (32 * S (length ents))))%nat;
  cr_low : ∀ id, id < inode_area_start_block fs → ¬ in_bitmap (inode_bitmap fs) id → m' !! id = m !! id;
}.

Lemma create_inode_full m lay tr d ents nm t :
  fs_rel fs nd ni m lay tr → dir_of tr d = Some ents → name_ok nm →
  (lookup_name ents nm = None → create_room m ents t) →
  wp (create_inode fs (inode_at fs d) nm t) ∅ m (λ r m',
    match lookup_name ents nm with
    | Some _ => r = None ∧ m' = m
    | None => ∃ c lay', tr !! c = None ∧ r = Some (inode_at fs c) ∧ fs_rel fs nd ni m' lay' (t_create t d nm c tr) ∧
        created m ents t c m'
    end).
Proof.
  intros Hr Hd Hnm Hroom. unfold create_inode. apply wp_bind. eapply wp_mono; [by eapply rel_lookup|].
  intros r m0 [-> ->]. destruct (lookup_name ents nm) as [x|]; [by apply wp_ret|].
  destruct (Hroom eq_refl) as ((Hmax & Hblk & Hfree) & Hfree2 & Hino). clear Hroom.
  pose proof Hd as [k Hdk]%dir_of_Some.
  apply wp_bind. eapply wp_mono; [by eapply rel_alloc_inode|]. intros c m1 (Hc & Hci & Hcb & Hn1 & Hr1 & Hlst & Hnb & Hbits).
  assert (c ≠ d) as Hcd by (intros ->; congruence).
  apply wp_bind. eapply wp_mono; [by eapply rel_initialize|]. intros _ m2 (di & Hz & Hdir & Hr2 & Hn2 & Hlo2).
  assert (dir_of (<[c := mkNode (empty_data t) 1]> tr) d = Some ents) as Hd2
    by (apply dir_of_Some; exists k; by rewrite lookup_insert_ne).
  apply wp_bind. eapply wp_mono.
  { eapply rel_append; [exact Hr2|exact Hd2|rewrite lookup_insert_eq; eauto|done|]. split_and!; [done|done|lia]. }
  intros _ m3 (l & Hr3 & Hn3 & Hlo3). rewrite t_add_insert in Hr3 by done.
  assert (∀ m', low_same fs m1 m' → (t = File → (nfree m3 fs nd ≤ nfree m' fs nd)%nat) → created m ents t c m') as Hfin.
  { intros m' Hlo Hn. split; [done|done| | |].
    - intros j Hj. rewrite (low_ibits fs ni m1) by (done || apply Hr1). by apply Hbits.
    - intros Ht. specialize (Hn Ht). lia.
    - intros id Hid Hnbm. rewrite Hlo by done. by apply Hnb. }
  assert (low_same fs m1 m3) as Hlo13 by (intros id Hid; rewrite Hlo3, Hlo2 by done; done).
  apply wp_bind. destruct t.
  { apply wp_ret. apply wp_bind. eapply wp_mono; [by apply wp_sync|]. intros _ m4 ->. apply wp_ret. eauto 10. }
  eapply wp_mono.
  { eapply (rel_new_dir m3 _ _ c d 1 di Hr3); [by rewrite lookup_insert_ne, lookup_insert_eq by done|done|by apply Hdir| | |lia].
    - by rewrite lookup_insert_eq.
    - apply insert_keeps. unfold t_add. rewrite lookup_alter_is_Some. eauto. }
  intros _ m4 (l' & Hr4 & Hlo4). rewrite insert_insert_eq in Hr4.
  apply wp_bind. eapply wp_mono; [by apply wp_sync|]. intros _ m5 ->. apply wp_ret. exists c, (<[c := l']> (<[d := l]> (<[c := mkLay di [] []]> lay))).
  split_and!; [done|done|done|]. apply Hfin; [|done]. intros id Hid. rewrite Hlo4, Hlo13 by done. done.
Qed.

Lemma create_inode_spec m lay tr d ents nm t :
  fs_rel fs nd ni m lay tr → dir_of tr d = Some ents → name_ok nm →
  (lookup_name ents nm = None → create_room m ents t) →
  wp (create_inode fs (inode_at fs d) nm t) ∅ m (λ r m',
    match lookup_name ents nm with
    | Some _ => r = None ∧ m' = m
    | None => ∃ c lay', tr !! c = None ∧ r = Some (inode_at fs c) ∧ fs_rel fs nd ni m' lay' (t_create t d nm c tr)
    end).
Proof.
  intros Hr Hd Hnm Hroom. eapply wp_mono; [by eapply create_inode_full|]. intros r m'.
  destruct (lookup_name ents nm); [done|]. intros (c & lay' & ? & ? & ? & _). eauto.
Qed.

(** Changing the links of a node. *)
Lemma rel_set_links {A} m lay tr ino n (g : DiskInode → A) (u : Z → Z) :
  fs_rel fs nd ni m lay tr → tr !! ino = Some n → (∀ z, is_u32 (u z)) →
  wp (modify_disk_inode (inode_at fs ino) (λ di, mret (g di, set_nlink (u (nlink di)) di))) ∅ m (λ v m',
    (∃ di, v = g di ∧ nlink di = n_links n) ∧
    ∃ lay', fs_rel fs nd ni m' lay' (<[ino := set_links (u (n_links n)) n]> tr)).
Proof.
  intros Hr Hn Hu. destruct (rel_get m lay tr ino n Hr Hn) as (l & Hl & Hat & Hlk & Hk).
  pose proof (fr_wf _ _ _ _ _ _ Hr) as Hf.
  assert (inode_ok (l_di l)) as Hi by (eapply inode_loc_ok; [apply Hf|by eapply fi_loc]).
  eapply wp_mono.
  { apply (modify_meta_spec fs nd m _ _ _ _ Hf Hat g (λ di, set_nlink (u (nlink di)) di)); [done|]. destruct Hi; split; try done; apply Hu. }
  intros v m' (-> & Hst & Hc). split; [by exists (l_di l)|]. eexists. eapply rel_update; [done|exact Hl|exact Hst| |].
  - split; [cbn; by rewrite Hlk|]. cbn. unfold file_bytes in *. cbn. by rewrite Hc.
  - apply (entries_in_mono tr); [apply insert_keeps|]. by apply (fr_closed _ _ _ _ _ _ Hr ino n).
Qed.

Definition link_room (m : bmap) (ents : list (list Z * Z)) : Prop :=
  room fs nd m (Z.of_nat (32 * length ents)) (Z.of_nat (32 * S (length ents))).

Lemma link_spec m lay tr d ents nm c :
  fs_rel fs nd ni m lay tr → dir_of tr d = Some ents → is_Some (tr !! c) → name_ok nm →
  (lookup_name ents nm = None → link_room m ents) →
  wp (link fs (inode_at fs d) nm (inode_at fs c)) ∅ m (λ r m',
    match lookup_name ents nm with
    | Some _ => r = None ∧ m' = m
    | None => r = Some (inode_at fs c) ∧ ∃ lay', fs_rel fs nd ni m' lay' (t_link d nm c tr)
    end).
Proof.
  intros Hr Hd Hc Hnm Hroom. unfold link. apply wp_bind. eapply wp_mono; [by eapply rel_lookup|].
  intros r m0 [-> ->]. destruct (lookup_name ents nm) as [x|]; [by apply wp_ret|]. specialize (Hroom eq_refl).
  apply wp_bind. eapply wp_mono; [by eapply rel_append|]. intros [] m1 (l & Hr1 & _ & _).
  assert (is_Some (t_add d nm c tr !! c)) as [n Hn] by (unfold t_add; by rewrite lookup_alter_is_Some).
  apply wp_bind. eapply wp_mono.
  { apply (rel_set_links m1 _ _ c n (λ _, ()) (λ z, u32 (z + 1)) Hr1 Hn). intros z. apply u32_range. }
  intros [] m2 (_ & lay' & Hr2). apply wp_ret. split; [done|]. exists lay'.
  unfold t_link. by rewrite (alter_alt_Some _ _ _ _ Hn).
Qed.

Lemma rel_clear m lay tr ino n :
  fs_rel fs nd ni m lay tr → tr !! ino = Some n →
  wp (clear_locked fs (inode_at fs ino)) ∅ m (λ _ m', ∃ lay', fs_rel fs nd ni m' lay' (<[ino := emptied n]> tr)).
Proof.
  intros Hr Hn. destruct (rel_get m lay tr ino n Hr Hn) as (l & Hl & Hat & Hlk & Hk).
  eapply wp_mono; [apply (clear_locked_step fs nd m _ _ _ _ (fr_wf _ _ _ _ _ _ Hr) Hat)|].
  intros [] m' (di' & Hst & Hz & Hty & Hnl). eexists. eapply rel_update; [done|exact Hl|exact Hst| |].
  - split; [cbn; by rewrite Hnl|]. unfold emptied. destruct (n_data n); cbn in *; destruct Hk as [Hk _];
      unfold is_file, is_dir, file_bytes in *; rewrite Hty, Hz; [done|]. split; [done|apply dir_repr_nil].
  - unfold emptied. destruct (n_data n); cbn; [done|]. intros nm c Hin. set_solver.
Qed.

(** Rewriting a directory inode without an entry. *)
Lemma rel_drop_link m lay tr c n :
  fs_rel fs nd ni m lay tr → tr !! c = Some n →
  wp (modify_disk_inode (inode_at fs c) (λ di, let k := u32 (nlink di - 1) in mret (k, set_nlink k di)) ≫= λ k,
      if k =? 0 then clear_locked fs (inode_at fs c) else mret ()) ∅ m
    (λ _ m', ∃ lay', fs_rel fs nd ni m' lay' (<[c := drop_link n]> tr)).
Proof.
  intros Hr Hn. apply wp_bind. eapply wp_mono.
  { apply (rel_set_links m lay tr c n (λ di, u32 (nlink di - 1)) (λ z, u32 (z - 1)) Hr Hn). intros z. apply u32_range. }
  intros k m1 ((di & -> & ->) & lay1 & Hr1). unfold drop_link. case_match.
  - eapply wp_mono; [eapply (rel_clear m1 _ _ c); [done|by rewrite lookup_insert_eq]|].
    intros [] m2 (lay2 & Hr2). rewrite insert_insert_eq in Hr2. by exists lay2.
  - apply wp_ret. by exists lay1.
Qed.

Lemma swap_remove_in i ents e x : ents !! i = Some x → e ∈ swap_remove i ents → e ∈ ents.
Proof.
  intros Hx. unfold swap_remove. destruct (last ents) as [y|] eqn:Hy; [|set_solver].
  intros (j & Hj & _)%elem_of_take.
  apply list_lookup_insert_Some in Hj as [(_ & <- & _)|[_ Hj]].
  - rewrite last_lookup in Hy. by eapply list_elem_of_lookup_2.
  - by eapply list_elem_of_lookup_2.
Qed.

(** An inode that is written back as it was. *)
Lemma rel_same m lay tr d l n m' :
  fs_rel fs nd ni m lay tr → tr !! d = Some n → lay !! d = Some l → node_rel m l n →
  inode_step fs nd m (inode_at fs d) (l_owned l) m' (l_di l) (l_ids l) (l_l1s l) →
  content m' (l_ids l) = content m (l_ids l) → ∃ lay', fs_rel fs nd ni m' lay' tr.
Proof.
  intros Hr Hd Hl [Hlk Hk] Hst Hc. eexists. rewrite <- (insert_id tr d _ Hd).
  eapply rel_update; [done|exact Hl|exact Hst| |].
  - split; [done|]. cbn in *. unfold file_bytes in *. cbn. by rewrite Hc.
  - rewrite insert_id by done. by apply (fr_closed _ _ _ _ _ _ Hr d _ Hd).
Qed.

Lemma unlink_spec m lay tr d nm :
  fs_rel fs nd ni m lay tr → is_Some (tr !! d) →
  wp (unlink fs (inode_at fs d) nm) ∅ m (λ r m',
    r = (t_unlink d nm tr).1 ∧ ∃ lay', fs_rel fs nd ni m' lay' (t_unlink d nm tr).2).
Proof.
  intros Hr [[k lk] Hd]. destruct (rel_get m lay tr d _ Hr Hd) as (l & Hl & Hat & Hlk & Hk).
  pose proof (fr_wf _ _ _ _ _ _ Hr) as Hf.
  assert (inode_ok (l_di l)) as Hi by (eapply inode_loc_ok; [apply Hf|by eapply fi_loc]).
  pose proof (λ m', rel_same m lay tr d l _ m' Hr Hd Hl (conj Hlk Hk)) as Hsame.
  unfold unlink, t_unlink, dir_of. rewrite Hd. apply wp_bind. destruct k as [bs|ents]; cbn in Hk.
  { eapply wp_mono.
    { eapply (wp_modify_inode fs nd m _ (l_owned l) Hf (fi_owned _ _ _ _ _ _ _ Hat) (l_di l) _
        (λ r m2 di ids l1s, r = None ∧ m2 = m ∧ di = l_di l ∧ ids = l_ids l ∧ l1s = l_l1s l)); [by eapply fi_loc|].
      unfold unlink_entry. assert (is_dir (l_di l) = false) as ->.
      { destruct (is_dir (l_di l)) eqn:Hdir; [|done]. apply dir_not_file in Hdir. destruct Hk. congruence. }
      apply wp_ret. eexists _, _. split; [by eapply change_same|done]. }
    intros r m' (m2 & di & ids & l1s & [Hst Hc] & -> & -> & -> & -> & ->). apply wp_ret. split; [done|]. by apply Hsame. }
  destruct Hk as [Hdir Hents].
  eapply wp_mono; [apply (unlink_entry_step fs nd m _ _ _ _ ents Hf Hat Hdir Hents)|]. intros r m1.
  destruct (list_find (λ e, e.1 = nm) ents) as [[i [nm' c]]|] eqn:Hfind.
  2: { intros (-> & Hst & Hc). apply wp_ret. split; [done|]. by apply Hsame. }
  intros (-> & di' & ids' & l1s' & Hst & Hty & Hnl & Hrep). apply list_find_Some in Hfind as (Hlook & _ & _).
  set (n1 := mkNode (DirData (swap_remove i ents)) lk). pose proof (fr_closed _ _ _ _ _ _ Hr d _ Hd) as Hcl. cbn in Hcl.
  assert (fs_rel fs nd ni m1 (<[d := mkLay di' ids' l1s']> lay) (<[d := n1]> tr)) as Hr1.
  { eapply rel_update; [done|exact Hl|exact Hst| |].
    - split; [cbn; by rewrite Hnl|]. cbn. split; [unfold is_dir in *; by rewrite Hty|done].
    - intros nm2 c2 Hin. apply insert_keeps. eapply Hcl. by eapply swap_remove_in. }
  rewrite (alter_alt_Some _ tr d _ Hd). fold n1.
  assert (is_Some (<[d := n1]> tr !! c)) as [nc Hnc] by (eapply insert_keeps, Hcl, list_elem_of_lookup_2; exact Hlook).
  apply wp_assoc, wp_bind. eapply wp_mono; [by eapply rel_drop_link|].
  intros [] m2 (lay2 & Hr2). apply wp_ret. split; [done|]. exists lay2. cbn. by rewrite (alter_alt_Some _ _ c _ Hnc).
Qed.

(** ** Contents *)
Lemma take_overwrite {A} (x b : list A) (sz off e : nat) :
  (sz ≤ length x)%nat → e = (sz `max` (off + length b))%nat → (e ≤ length x)%nat →
  take e (splice off b x) = take off (take sz x) ++ slice sz (off - sz) x ++ b ++ drop (off + length b) (take sz x).
Proof.
  intros Hs He Hle. unfold splice, slice.
  assert (take off (take sz x) ++ take (off - sz) (drop sz x) = take off x) as Hpre.
  { rewrite take_take. destruct (decide (off ≤ sz)%nat).
    - rewrite Nat.min_l by done. by rewrite (proj2 (Nat.sub_0_le off sz)), take_0, app_nil_r by done.
    - rewrite Nat.min_r by lia. rewrite take_take_drop. f_equal. lia. }
  rewrite (app_assoc (take off (take sz x))), Hpre. rewrite firstn_app, take_ge by (rewrite length_take; lia).
  f_equal. rewrite firstn_app, length_take, (Nat.min_l off) by lia. rewrite take_ge by lia. f_equal.
  rewrite skipn_firstn_comm. f_equal. lia.
Qed.

Lemma rel_file_size m lay tr ino l old k :
  fs_rel fs nd ni m lay tr → lay !! ino = Some l → tr !! ino = Some (mkNode (FileData old) k) →
  di_size (l_di l) = Z.of_nat (length old).
Proof.
  intros Hr Hl Hn. pose proof (fr_at _ _ _ _ _ _ Hr ino l Hl) as Hat.
  destruct (fr_node _ _ _ _ _ _ Hr ino l _ Hl Hn) as (_ & _ & <-).
  destruct (file_length fs nd m _ _ _ _ (fr_wf _ _ _ _ _ _ Hr) Hat) as [Hlc Hle].
  pose proof (if_size _ _ _ _ _ (file_at_open _ _ _ _ _ _ _ (fr_wf _ _ _ _ _ _ Hr) Hat)).
  unfold file_bytes. rewrite length_take. lia.
Qed.

Lemma write_spec m lay tr ino old k off buf :
  fs_rel fs nd ni m lay tr → tr !! ino = Some (mkNode (FileData old) k) →
  Forall is_byte buf → (0 < length buf)%nat →
  room fs nd m (Z.of_nat (length old)) (Z.of_nat (off + length buf)) →
  wp (write_at fs (inode_at fs ino) (Z.of_nat off) buf) ∅ m (λ n m', n = Z.of_nat (length buf) ∧
    ∃ gap lay', length gap = (off - length old)%nat ∧ fs_rel fs nd ni m' lay' (t_write ino off gap buf tr) ∧
      (nfree m fs nd ≤ nfree m' fs nd +
        growth (Z.of_nat (length old)) (Z.of_nat (length old `max` (off + length buf))))%nat ∧ low_same fs m m').
Proof.
  intros Hr Hn Hby Hb0 (Hmax & Hblk & Hfree). destruct (rel_get m lay tr ino _ Hr Hn) as (l & Hl & Hat & Hlk & Hreg & Hold).
  pose proof (rel_file_size _ _ _ _ _ _ _ Hr Hl Hn) as Hsz. pose proof (fr_wf _ _ _ _ _ _ Hr) as Hf.
  eapply wp_mono.
  { apply (vfs_write_at_spec fs nd m _ _ _ _ Hf Hat Hreg off buf); try done. by rewrite Hsz. }
  intros n m' (-> & di' & xs & ls & [Hst (Hsz' & Hty & Hnl) Hct]). split; [done|].
  pose proof (file_length fs nd m' _ _ _ _ (is_wf _ _ _ _ _ _ _ _ _ Hst) (is_at _ _ _ _ _ _ _ _ _ Hst)) as [Hlc' Hle'].
  destruct (file_length fs nd m _ _ _ _ Hf Hat) as [Hlc Hle].
  set (x := content m (l_ids l ++ xs)) in *. assert (length x = (512 * length (l_ids l ++ xs))%nat) as Hlx.
  { apply length_content_present; [apply Hf|]. intros b Hb. apply (is_dom _ _ _ _ _ _ _ _ _ Hst).
    apply (if_data _ _ _ _ _ (file_at_open _ _ _ _ _ _ _ (is_wf _ _ _ _ _ _ _ _ _ Hst) (is_at _ _ _ _ _ _ _ _ _ Hst)) b Hb). }
  assert (old = take (length old) x) as Hox.
  { rewrite <- Hold at 1. unfold file_bytes, x. rewrite Hsz, Nat2Z.id, content_app, take_app_le by lia. done. }
  exists (slice (length old) (off - length old) x). eexists. split_and!.
  - apply length_slice. lia.
  - unfold t_write. rewrite (alter_alt_Some _ _ _ _ Hn). eapply rel_update; [done|exact Hl|exact Hst| |done].
    split; [cbn; by rewrite Hnl|]. cbn. split; [unfold is_file in *; by rewrite Hty|].
    unfold file_bytes. rewrite Hct. rewrite (take_overwrite x buf (length old) off) by lia. by rewrite <- Hox.
  - pose proof (is_count _ _ _ _ _ _ _ _ _ Hst) as Hcnt. unfold l_owned in Hcnt.
    rewrite (owned_length _ _ _ _ _ Hat), (owned_length _ _ _ _ _ (is_at _ _ _ _ _ _ _ _ _ Hst)), Hsz, Hsz', Hsz in Hcnt.
    unfold growth. by rewrite Nat2Z.inj_max.
  - by eapply used_step_low.
Qed.

Lemma read_spec m lay tr ino bs k off len :
  fs_rel fs nd ni m lay tr → tr !! ino = Some (mkNode (FileData bs) k) → Z.of_nat off + Z.of_nat len < 2 ^ 64 →
  wp (read_at (inode_at fs ino) (Z.of_nat off) (Z.of_nat len)) ∅ m (λ v m', v = slice off len bs ∧ m' = m).
Proof.
  intros Hr Hn Hle. destruct (rel_get m lay tr ino _ Hr Hn) as (l & Hl & Hat & Hlk & Hreg & Hold).
  eapply wp_mono; [by apply (vfs_read_at_spec fs nd m _ _ _ _ (fr_wf _ _ _ _ _ _ Hr) Hat)|].
  intros v m' [-> ->]. split; [|done]. by rewrite <- Hold.
Qed.

(** Names, seen by path lookup. *)
Definition kind_of (n : fnode) : option (list (list Z * Z)) :=
  match n_data n with FileData _ => None | DirData ents => Some ents end.
Definition view_of (tr : ftree) : gmap Z (option (list (list Z * Z))) := kind_of <$> tr.

Lemma rel_view m lay tr : fs_rel fs nd ni m lay tr → view_ok fs m (view_of tr).
Proof.
  intros Hr ino k Hk. unfold view_of in Hk. rewrite lookup_fmap in Hk.
  destruct (tr !! ino) as [n|] eqn:Hn; [|done]. injection Hk as <-.
  destruct (rel_get m lay tr ino n Hr Hn) as (l & Hl & Hat & Hlk & Hkd). pose proof Hat as [[(b & Hb & Hdec) _ _] _ _ _ _ _].
  exists b, (l_di l). pose proof (fr_wf _ _ _ _ _ _ Hr) as Hf. split_and!; [done|by destruct (fw_disk _ _ _ _ Hf _ _ Hb)|done|].
  unfold kind_of. pose proof (fr_closed _ _ _ _ _ _ Hr ino n Hn) as Hcl. destruct (n_data n) as [bs|ents]; cbn in *; [apply Hkd|].
  destruct Hkd as [Hdir Hents]. split; [eexists _, _; exact (dir_at_open fs nd m (inode_at fs ino) _ _ _ ents Hf Hat Hdir Hents)|].
  intros nm c Hin. unfold view_of. rewrite lookup_fmap, fmap_is_Some. by eapply Hcl.
Qed.
End ops.
