(* ===== verification/FsSpec.v ===== *)
(** * The file system refines a tree of files (easy-fs/src/efs.rs: create, open;
      easy-fs/src/vfs.rs: the public operations of Inode)

    [create] makes a file system with an empty root directory, [open] reads it
    back, and every operation on inodes acts on the tree of files as its
    abstract counterpart.  Operations on names then satisfy the laws users rely
    on. *)
From S2P Require Import Prelude Bytes BlockCache DiskLogic Bitmap Layout InodeMap InodeGrow InodeData Efs Vfs FsData FsDir FsOps FsTree.

(** ** Formatting a device *)
Lemma clear_blocks_spec n i m :
  disk_ok m → (∀ id, i ≤ id < i + Z.of_nat n → is_Some (m !! id)) →
  wp (clear_blocks n i) ∅ m (λ _ m', ∀ id, m' !! id = if decide (i ≤ id < i + Z.of_nat n) then Some zero_block else m !! id).
Proof.
  revert i m. induction n as [|n IH]; intros i m Hd Hp; cbn [clear_blocks].
  { apply wp_ret. intros id. rewrite decide_False by lia. done. }
  destruct (Hp i) as [b Hb]; [lia|]. destruct (Hd _ _ Hb) as [Hbo _]. apply wp_bind.
  eapply wp_modify_block; [split_and!; [exact Hb|set_solver|by apply Nat.ltb_lt]|done|]. apply wp_ret.
  assert (replicate (length b) 0 = zero_block) as -> by (unfold zero_block, block_ok in *; f_equal; lia).
  split; [apply zero_block_ok|]. eapply wp_mono; [apply IH|].
  - apply disk_ok_insert; [done|apply zero_block_ok..].
  - intros id Hid. apply lookup_insert_is_Some'. right. apply Hp. lia.
  - intros [] m' Hm id. rewrite Hm. destruct (decide (id = i)) as [->|Hne].
    + rewrite decide_False, decide_True, lookup_insert_eq by lia. done.
    + rewrite lookup_insert_ne by done. do 2 case_decide; try done; lia.
Qed.

Lemma filter_all_length (P : Z → Prop) `{!∀ x, Decision (P x)} l : (∀ x, x ∈ l → P x) → length (filter P l) = length l.
Proof.
  induction l as [|x l IH]; intros Hl; [done|]. rewrite filter_cons, decide_True by (apply Hl; by left).
  simpl. f_equal. apply IH. intros y Hy. apply Hl. by right.
Qed.

(** The map of files [create] leaves: the root directory, its own parent. *)
Definition root_tree : gmap Z fnode := {[0 := mkNode (new_data Directory 0 0) 1]}.

Lemma bm_bit_zero m bm k : m !! (start_block_id bm + k / BLOCK_BITS) = Some zero_block → bm_bit m bm k = false.
Proof.
  intros Hz. unfold bm_bit. rewrite Hz. assert (∀ j, block_bit zero_block j = false) as H; [|apply H].
  intros j. unfold block_bit, word_bit. assert (words_dec 8 64 zero_block = replicate 64 0) as -> by (vm_compute; reflexivity).
  destruct (replicate 64 0 !! Z.to_nat (j / 64)) as [w|] eqn:Hw; [|done]. apply lookup_replicate in Hw as [-> _]. apply Z.bits_0.
Qed.

Section format.
Context (total ib : Z) (Hib : 0 < ib ≤ 2 ^ 20) (Htot : 3 + ib * 1025 ≤ total < 2 ^ 32 - 4096).
#[local] Abbreviation sb := (layout total ib).1.
#[local] Abbreviation fs := (layout total ib).2.
#[local] Abbreviation nd := (data_area_blocks sb).
#[local] Abbreviation ni := (ib * BLOCK_BITS).

Lemma layout_facts : layout_ok total ib sb fs.
Proof. apply layout_ok_create; lia. Qed.

(** The regions are there when the blocks are. *)
Lemma format_empty m :
  disk_ok m → (∀ id, 0 ≤ id < total → is_Some (m !! id)) → fs_rel fs nd ni m ∅ ∅.
Proof.
  intros Hd Hp. destruct layout_facts as [L1 [L2 L3] L4 L5 L6 L7 _ (L8 & L9 & L10) L11].
  assert (∀ id : Z, id ∉ (∅ : gset Z)) as He by (intros id; apply not_elem_of_empty).
  split; try done.
  - split; try done; [split; unfold in_bitmap; auto|..]; try lia.
    + intros id Hid. apply Hp. lia.
    + by apply Nat.ltb_lt.
    + intros k Hk. apply Hp. lia.
  - split; rewrite ?L1; [split|..]; unfold in_bitmap; cbn [start_block_id bm_blocks]; auto; try lia.
    + intros id Hid. apply Hp. lia.
    + by apply Nat.ltb_lt.
    + unfold BLOCK_BITS, BLOCK_SZ. lia.
    + unfold BLOCK_BITS, BLOCK_SZ. lia.
    + unfold BLOCK_BITS, BLOCK_SZ. dlia.
    + intros ino Hino. apply Hp. unfold BLOCK_BITS, BLOCK_SZ in Hino. dlia.
  - intros ino. by rewrite !lookup_empty.
  - intros ino [x Hx]. by rewrite lookup_empty in Hx.
Qed.

(** The root directory: [initialize] and [initialize_dir] in one update. *)
Lemma root_step m :
  fs_rel fs nd ni m ∅ ∅ → bm_bit m (inode_bitmap fs) 0 = true → (1 ≤ nfree m fs nd)%nat →
  wp (modify_disk_inode (inode_at fs 0) (λ di,
        initialize_dir (initialize Directory di) 0 0 (alloc_data fs) ≫= λ di, mret ((), di))) ∅ m
    (λ _ m', (∃ lay, fs_rel fs nd ni m' lay root_tree) ∧ low_same fs m m' ∧ (nfree m fs nd ≤ S (nfree m' fs nd))%nat).
Proof.
  intros Hr Hb Hn. pose proof (fr_wf _ _ _ _ _ _ Hr) as Hf. pose proof (fr_geo _ _ _ _ _ _ Hr) as Hg.
  assert (0 ≤ 0 < ni) as H0 by (unfold BLOCK_BITS, BLOCK_SZ; lia).
  destruct (slot_present fs nd ni m 0 Hf Hg H0) as [di Hloc].
  destruct (slot_eq fs nd ni m 0 Hf Hg H0) as (_ & _ & Hlow & Hhigh).
  pose proof (inode_loc_ok _ _ _ _ (fw_disk _ _ _ _ Hf) Hloc) as Hi. eapply wp_mono.
  { eapply (wp_modify_inode fs nd m _ [] Hf ltac:(set_solver) di _
      (λ _ m2 di' ids' l1s', type_ di' = 1 ∧ nlink di' = 1 ∧
        dir_repr (file_bytes m2 di' ids') [([46], 0); ([46; 46], 0)])); [done|].
    apply wp_bind. eapply wp_mono.
    { apply (initialize_dir_change fs nd m (initialize Directory di) Hf); try done. by apply initialize_ok. }
    intros d m2 (ids' & l1s' & Hch & Hr'). apply wp_ret. by exists ids', l1s'. }
  intros [] m' (m2 & di' & ids' & l1s' & [Hst Heq] & Ht & Hl & Hd). split_and!.
  - eexists. eapply (rel_step fs nd ni m ∅ ∅ 0 [] m' di' ids' l1s' (mkNode (new_data Directory 0 0) 1)); try done.
    + set_solver.
    + set_solver.
    + split; [done|]. cbn. unfold is_dir, file_bytes in *. rewrite Ht, Heq. done.
    + intros nm c [[= _ ->]|[= _ ->]%list_elem_of_singleton]%elem_of_cons; rewrite lookup_insert_eq; eauto.
  - intros id Hid. apply (is_low _ _ _ _ _ _ _ _ _ Hst); lia.
  - pose proof (is_count _ _ _ _ _ _ _ _ _ Hst) as Hcnt. pose proof (is_at _ _ _ _ _ _ _ _ _ Hst) as Hat.
    assert (file_bytes m2 di' ids' = file_bytes m' di' ids') as He by (unfold file_bytes; by rewrite Heq). rewrite He in Hd.
    destruct (dir_at_size fs nd m' _ _ _ _ _ (is_wf _ _ _ _ _ _ _ _ _ Hst) Hat (proj2 (Z.eqb_eq _ _) Ht) Hd) as [Hsz _].
    rewrite (owned_length _ _ _ _ _ _ _ Hat), Hsz in Hcnt. change (tot (nblocks (Z.of_nat (32 * length [([46], 0); ([46; 46], 0)])))) with 1%nat in Hcnt.
    cbn [length] in Hcnt. lia.
Qed.

(** All data blocks are free. *)
Lemma format_free m :
  (∀ k, 0 ≤ k < nd → m !! (start_block_id (data_bitmap fs) + k / BLOCK_BITS) = Some zero_block) → nfree m fs nd = Z.to_nat nd.
Proof.
  intros Hz. unfold nfree. rewrite filter_all_length; [apply length_seqZ|].
  intros k Hk%elem_of_seqZ. apply bm_bit_zero, Hz. lia.
Qed.
Lemma format_room m :
  (∀ k, 0 ≤ k < nd → m !! (start_block_id (data_bitmap fs) + k / BLOCK_BITS) = Some zero_block) → (1 ≤ nfree m fs nd)%nat.
Proof.
  intros Hz. destruct layout_facts as [L1 [L2 L3] L4 L5 L6 L7 L7' (L8 & L9 & L10) L11].
  assert (0 < nd) as Hnd.
  { destruct (decide (0 < bm_blocks (data_bitmap fs))) as [Hb|Hb]; [|lia].
    specialize (L7' Hb). unfold BLOCK_BITS, BLOCK_SZ in *. lia. }
  unfold nfree. replace nd with (1 + (nd - 1)) by lia. rewrite seqZ_app by lia. rewrite filter_app, length_app.
  change (seqZ 0 1) with [0]. rewrite filter_cons, decide_True; [simpl; lia|]. apply bm_bit_zero, Hz. lia.
Qed.

Lemma superblock_roundtrip b :
  block_ok b → bytes_at 0 SUPERBLOCK_SZ (splice (Z.to_nat 0) (sb_enc sb) b) = sb_enc sb ∧
  length (sb_enc sb) = Z.to_nat SUPERBLOCK_SZ ∧ sb_dec (sb_enc sb) = sb ∧ Forall is_byte (sb_enc sb).
Proof.
  intros Hb. assert (length (sb_enc sb) = Z.to_nat SUPERBLOCK_SZ) as Hl by (unfold sb_enc; rewrite length_words_enc; done).
  split_and!; [|done| |apply words_enc_bytes].
  - unfold bytes_at. rewrite <- Hl. apply slice_splice_same. rewrite Hl. unfold block_ok, SUPERBLOCK_SZ, BLOCK_SZ in *. lia.
  - destruct layout_facts as [L1 [L2 L3] L4 L5 L6 L7 _ (L8 & L9 & L10) L11].
    apply sb_dec_enc; unfold is_u32; rewrite <- ?L10; try lia.
    + change (magic sb) with EFS_MAGIC. unfold EFS_MAGIC. lia.
    + change (sb_total_blocks sb) with total. lia.
    + change (inode_bitmap_blocks sb) with ib. lia.
Qed.

(** The device after clearing it and writing the super block. *)
Record formatted (m : bmap) : Prop := {
  fo_rel : fs_rel fs nd ni m ∅ ∅;
  fo_zero : ∀ id, 0 < id < total → m !! id = Some zero_block;
  fo_super : ∃ b, m !! 0 = Some b ∧ bytes_at 0 SUPERBLOCK_SZ b = sb_enc sb;
}.

Lemma format_start m :
  disk_ok m → (∀ id, 0 ≤ id < total → is_Some (m !! id)) →
  wp (clear_blocks (Z.to_nat total) 0 ≫= λ _, modify 0 0 SUPERBLOCK_SZ (λ _, mret ((), sb_enc sb))) ∅ m
    (λ _ m', formatted m').
Proof.
  intros Hd Hp. apply wp_bind.
  eapply wp_mono; [apply clear_blocks_spec; [done|intros id Hid; apply Hp; lia]|]. intros [] m1 Hm1.
  rewrite Z2Nat.id in Hm1 by lia. destruct (superblock_roundtrip zero_block (proj1 zero_block_ok)) as (S1 & S2 & S3 & S4).
  assert (m1 !! 0 = Some zero_block) as H0 by (rewrite Hm1, decide_True by lia; done).
  eapply wp_modify; [split_and!; [exact H0|set_solver|by apply Nat.ltb_lt]|apply zero_block_ok|done|done|done|].
  apply wp_ret. split; [done|]. set (b0 := splice (Z.to_nat 0) (sb_enc sb) zero_block) in *. set (m2 := <[0 := b0]> m1).
  assert (block_ok b0 ∧ Forall is_byte b0) as [Hb0 Hb0'].
  { split; [unfold block_ok, b0; rewrite length_splice; [apply zero_block_ok|rewrite S2; apply Nat.leb_le; reflexivity]|].
    apply Forall_splice; [apply zero_block_ok|done]. }
  assert (∀ id, 0 < id < total → m2 !! id = Some zero_block) as Hz
    by (intros id Hid; unfold m2; rewrite lookup_insert_ne, Hm1, decide_True by lia; done).
  split; [|done|exists b0; split; [apply lookup_insert_eq|done]]. apply format_empty.
  - apply disk_ok_insert; [|done|done]. intros id b. rewrite Hm1. case_decide; [intros [= <-]; apply zero_block_ok|apply Hd].
  - intros id Hid. destruct (decide (id = 0)) as [->|Hne].
    + unfold m2. rewrite lookup_insert_eq. eauto.
    + rewrite Hz by lia. eauto.
Qed.

(** A new file system: its tree, what is free, and that [open] finds it as long
    as the super block stays. *)
Record fresh_fs (m : bmap) : Prop := {
  ff_rel : ∃ lay, fs_rel fs nd ni m lay root_tree;
  ff_free : (Z.to_nat nd ≤ S (nfree m fs nd))%nat;
  ff_inodes : ∀ j, 0 ≤ j < ni → bm_bit m (inode_bitmap fs) j = (j =? 0);
  ff_open : ∀ m', m' !! 0 = m !! 0 → wp open ∅ m' (λ fs' m'', fs' = fs ∧ m'' = m');
}.

Lemma format_spec m :
  disk_ok m → (∀ id, 0 ≤ id < total → is_Some (m !! id)) →
  wp (create total ib) ∅ m (λ fs' m', fs' = fs ∧ fresh_fs m').
Proof.
  intros Hd Hp. unfold create. rewrite (surjective_pairing (layout total ib)) at 1.
  pose proof layout_facts as [L1 [L2 L3] L4 L5 L6 L7 _ (L8 & L9 & L10) L11].
  apply wp_assoc, wp_bind. eapply wp_mono; [by apply format_start|]. intros [] m2 [Hr2 Hz (b0 & Hb0 & Hsb)].
  assert (bm_bit m2 (inode_bitmap fs) 0 = false) as Hbit0
    by (apply bm_bit_zero; rewrite L1; change (0 / BLOCK_BITS) with 0; apply Hz; cbn [start_block_id]; lia).
  apply wp_bind. eapply wp_mono.
  { eapply (rel_alloc_inode fs nd ni m2 ∅ ∅ Hr2). exists 0. split; [unfold BLOCK_BITS, BLOCK_SZ; lia|done]. }
  intros c m3 (_ & Hc & Hcb & Hn3 & Hr3 & Hleast & Hfr & Hbits).
  assert (c = 0) as -> by (destruct (decide (c = 0)); [done|]; rewrite Hleast in Hbit0 by lia; done).
  assert (∀ k, 0 ≤ k < nd → m2 !! (start_block_id (data_bitmap fs) + k / BLOCK_BITS) = Some zero_block) as Hzd
    by (intros k Hk; apply Hz; unfold BLOCK_BITS, BLOCK_SZ in *; dlia).
  assert (1 ≤ nfree m3 fs nd)%nat as Hfree by (rewrite Hn3; by apply format_room).
  change (assert (0 =? 0)) with (Ok ()). cbn [liftp mbind prog_bind].
  assert (get_disk_inode_pos fs 0 = (i_block_id (inode_at fs 0), block_offset (inode_at fs 0))) as -> by done.
  destruct (slot_eq fs nd ni m3 0 (fr_wf _ _ _ _ _ _ Hr3) (fr_geo _ _ _ _ _ _ Hr3)) as (Eb & Eo & _);
    [unfold BLOCK_BITS, BLOCK_SZ; lia|].
  rewrite (proj2 (Z.eqb_eq (i_block_id (inode_at fs 0)) (inode_area_start_block fs))) by (rewrite Eb; dlia).
  rewrite (proj2 (Z.eqb_eq (block_offset (inode_at fs 0)) 0)) by (by rewrite Eo).
  cbn [assert liftp mbind prog_bind]. apply wp_bind. eapply wp_mono; [by apply root_step|].
  intros [] m4 (Hr4 & Hlow & Hcnt). apply wp_bind. eapply wp_mono; [by apply wp_sync|]. intros [] m5 ->. apply wp_ret.
  split; [done|]. split; [done| | |].
  - rewrite Hn3, (format_free m2 Hzd) in Hcnt. exact Hcnt.
  - intros j Hj. rewrite (low_ibits fs ni m3) by (done || apply Hr3). rewrite Hbits by done. destruct (Z.eqb_spec j 0); [done|].
    apply bm_bit_zero, Hz. rewrite L1. cbn [start_block_id]. unfold BLOCK_BITS, BLOCK_SZ in *. dlia.
  - intros m' Hm'. unfold open. eapply wp_read; [split_and!; [|set_solver|by apply Nat.ltb_lt]|done|done|done|].
    { rewrite Hm', Hlow by lia. rewrite Hfr by (unfold in_bitmap; rewrite L1; cbn; lia). exact Hb0. }
    destruct (superblock_roundtrip zero_block (proj1 zero_block_ok)) as (_ & _ & S3 & _).
    rewrite Hsb, S3. change (sb_is_valid sb) with true. cbn [assert liftp mbind prog_bind]. apply wp_ret. done.
Qed.
End format.

(** Formatting.  On a device that has the blocks, [create] makes a file system
    that holds exactly a root directory with the entries ["."] and [".."], and
    a later [open] finds the same layout. *)
Theorem create_correct total ib m :
  0 < ib ≤ 2 ^ 20 → 3 + ib * 1025 ≤ total < 2 ^ 32 - 4096 →
  disk_ok m → (∀ id, 0 ≤ id < total → is_Some (m !! id)) →
  wp (create total ib) ∅ m (λ fs m', fs = (layout total ib).2 ∧
    (∃ lay, fs_rel fs (data_area_blocks (layout total ib).1) (ib * BLOCK_BITS) m' lay root_tree) ∧
    wp open ∅ m' (λ fs' m'', fs' = fs ∧ m'' = m')).
Proof.
  intros Hib Htot Hd Hp. eapply wp_mono; [by apply format_spec|]. intros fs m' (-> & [Hr _ _ Ho]). split_and!; [done|done|by apply Ho].
Qed.

Lemma create_correct_witness :
  wp (create 1030 1) ∅ (zero_disk 0 1030) (λ fs m', fs = (layout 1030 1).2 ∧
    (∃ lay, fs_rel fs (data_area_blocks (layout 1030 1).1) (1 * BLOCK_BITS) m' lay root_tree) ∧
    wp open ∅ m' (λ fs' m'', fs' = fs ∧ m'' = m')).
Proof.
  apply (create_correct 1030 1); [lia|lia|apply zero_disk_ok|].
  intros id Hid. exists zero_block. apply zero_disk_lookup. split; [lia|done].
Defined.

(** ** Operations *)
Inductive fsop :=
| OpFind (ino : Z) (path : list Z)
| OpCreate (t : DiskInodeType) (d : Z) (nm : list Z)
| OpLink (d : Z) (nm : list Z) (c : Z)
| OpUnlink (d : Z) (nm : list Z)
| OpRead (ino : Z) (off len : nat)
| OpWrite (ino : Z) (off : nat) (buf : list Z)
| OpClear (ino : Z)
| OpLs (ino : Z).
Inductive fsres := RInode (o : option Inode) | RDone (b : bool) | RBytes (bs : list Z) | RNum (n : Z) | RNames (l : list (list Z)).

Section refinement.
Context (fs : EasyFileSystem) (nd ni : Z).

Definition run_op (op : fsop) : prog fsres :=
  match op with
  | OpFind ino path => find fs (inode_at fs ino) path ≫= λ o, mret (RInode o)
  | OpCreate t d nm => create_inode fs (inode_at fs d) nm t ≫= λ o, mret (RInode o)
  | OpLink d nm c => link fs (inode_at fs d) nm (inode_at fs c) ≫= λ o, mret (RInode o)
  | OpUnlink d nm => unlink fs (inode_at fs d) nm ≫= λ b, mret (RDone b)
  | OpRead ino off len => read_at (inode_at fs ino) (Z.of_nat off) (Z.of_nat len) ≫= λ bs, mret (RBytes bs)
  | OpWrite ino off buf => write_at fs (inode_at fs ino) (Z.of_nat off) buf ≫= λ n, mret (RNum n)
  | OpClear ino => clear fs (inode_at fs ino) ≫= λ _, mret (RDone true)
  | OpLs ino => ls fs (inode_at fs ino) ≫= λ l, mret (RNames l)
  end.

(** What an operation needs: nodes of the right kind, names that fit an entry,
    and free blocks for what it adds. *)
Definition op_ok (m : bmap) (tr : gmap Z fnode) (op : fsop) : Prop :=
  match op with
  | OpFind ino _ | OpUnlink ino _ | OpClear ino | OpLs ino => is_Some (tr !! ino)
  | OpCreate t d nm => name_ok nm ∧ ∃ ents, dir_of tr d = Some ents ∧
      (lookup_name ents nm = None → create_room fs nd ni m ents t)
  | OpLink d nm c => name_ok nm ∧ is_Some (tr !! c) ∧ ∃ ents, dir_of tr d = Some ents ∧
      (lookup_name ents nm = None → link_room fs nd m ents)
  | OpRead ino off len => (∃ bs k, tr !! ino = Some (mkNode (FileData bs) k)) ∧ Z.of_nat off + Z.of_nat len < 2 ^ 64
  | OpWrite ino off buf => Forall is_byte buf ∧ (0 < length buf)%nat ∧
      ∃ old k, tr !! ino = Some (mkNode (FileData old) k) ∧
        room fs nd m (Z.of_nat (length old)) (Z.of_nat (off + length buf))
  end.

(** What it does to the tree.  A new file may take any inode number that is not
    in use; a write past the end leaves unspecified bytes in the gap. *)
Definition op_spec (tr : gmap Z fnode) (op : fsop) (r : fsres) (tr' : gmap Z fnode) : Prop :=
  match op with
  | OpFind ino path => r = RInode (inode_at fs <$> resolve (view_of tr) ino (split_path path)) ∧ tr' = tr
  | OpCreate t d nm =>
      match dir_of tr d ≫= λ ents, lookup_name ents nm with
      | Some _ => r = RInode None ∧ tr' = tr
      | None => ∃ c, tr !! c = None ∧ r = RInode (Some (inode_at fs c)) ∧ tr' = t_create t d nm c tr
      end
  | OpLink d nm c =>
      match dir_of tr d ≫= λ ents, lookup_name ents nm with
      | Some _ => r = RInode None ∧ tr' = tr
      | None => r = RInode (Some (inode_at fs c)) ∧ tr' = t_link d nm c tr
      end
  | OpUnlink d nm => r = RDone (t_unlink d nm tr).1 ∧ tr' = (t_unlink d nm tr).2
  | OpRead ino off len => ∃ bs k, tr !! ino = Some (mkNode (FileData bs) k) ∧ r = RBytes (slice off len bs) ∧ tr' = tr
  | OpWrite ino off buf => ∃ old k gap, tr !! ino = Some (mkNode (FileData old) k) ∧
      length gap = (off - length old)%nat ∧ r = RNum (Z.of_nat (length buf)) ∧ tr' = t_write ino off gap buf tr
  | OpClear ino => r = RDone true ∧ tr' = t_clear ino tr
  | OpLs ino => r = RNames (match dir_of tr ino with Some ents => ents.*1 | None => [] end) ∧ tr' = tr
  end.

(** One operation, simulated. *)
Lemma op_simulated m lay tr op :
  fs_rel fs nd ni m lay tr → op_ok m tr op →
  wp (run_op op) ∅ m (λ r m', ∃ lay' tr', op_spec tr op r tr' ∧ fs_rel fs nd ni m' lay' tr').
Proof.
  intros Hr Hok. destruct op as [ino path|t d nm|d nm c|d nm|ino off len|ino off buf|ino|ino]; cbn [run_op op_ok op_spec] in *;
    apply wp_bind.
  - eapply wp_mono; [eapply find_loop_spec; [by eapply rel_view|]|].
    { unfold view_of. by rewrite lookup_fmap, fmap_is_Some. }
    intros r m' [-> ->]. apply wp_ret. eauto.
  - destruct Hok as (Hnm & ents & Hd & Hroom). rewrite Hd. cbn [mbind option_bind].
    eapply wp_mono; [by eapply create_inode_spec|]. intros r m'. destruct (lookup_name ents nm) as [x|].
    + intros [-> ->]. apply wp_ret. eauto.
    + intros (c & lay' & Hc & -> & Hr'). apply wp_ret. exists lay', (t_create t d nm c tr). split; [by exists c|done].
  - destruct Hok as (Hnm & Hc & ents & Hd & Hroom). rewrite Hd. cbn [mbind option_bind].
    eapply wp_mono; [by eapply link_spec|]. intros r m'. destruct (lookup_name ents nm) as [x|].
    + intros [-> ->]. apply wp_ret. eauto.
    + intros (-> & lay' & Hr'). apply wp_ret. eauto.
  - eapply wp_mono; [by eapply unlink_spec|]. intros r m' (-> & lay' & Hr'). apply wp_ret. eauto.
  - destruct Hok as [(bs & k & Hn) Hlen]. eapply wp_mono; [by eapply read_spec|].
    intros r m' [-> ->]. apply wp_ret. exists lay, tr. split; [by exists bs, k|done].
  - destruct Hok as (Hby & Hb0 & old & k & Hn & Hroom). eapply wp_mono; [by eapply write_spec|].
    intros r m' (-> & gap & lay' & Hg & Hr' & _). apply wp_ret. exists lay', (t_write ino off gap buf tr).
    split; [by exists old, k, gap|done].
  - destruct Hok as [n Hn]. eapply wp_mono; [by eapply rel_clear|]. intros [] m' (lay' & Hr'). apply wp_ret.
    exists lay', (t_clear ino tr). split; [done|]. unfold t_clear. by rewrite (alter_alt_Some _ _ _ _ Hn).
  - destruct Hok as [n Hn]. eapply wp_mono.
    { eapply ls_lists; [by eapply rel_view|]. unfold view_of. rewrite lookup_fmap, Hn. done. }
    intros r m' [-> ->]. apply wp_ret. exists lay, tr. split; [|done]. split; [|done].
    unfold dir_of, kind_of. rewrite Hn. by destruct n as [[bs|ents] k].
Qed.
End refinement.

(** C1 The file system refines the tree of files.  On a disk that represents the
    tree [tr], each operation that has what it needs succeeds, returns what the
    operation on the tree returns, and leaves a disk that represents the new
    tree: names, links, contents, and the separation of all files. *)
Theorem filesystem_refines_tree fs nd ni m lay tr op :
  fs_rel fs nd ni m lay tr → op_ok fs nd ni m tr op →
  wp (run_op fs op) ∅ m (λ r m', ∃ lay' tr', op_spec fs tr op r tr' ∧ fs_rel fs nd ni m' lay' tr').
Proof. apply op_simulated. Qed.

(** ** Laws of names *)

(** A name without ['/'] is a path of one component. *)
Lemma split_path_name nm : nm ≠ [] → 47 ∉ nm → split_path nm = [nm].
Proof. intros Hne Hns. rewrite split_path_one by done. by rewrite filter_cons, decide_True. Qed.

Lemma lookup_name_snoc ents nm c : lookup_name ents nm = None → lookup_name (ents ++ [(nm, c)]) nm = Some c.
Proof.
  unfold lookup_name. destruct (list_find _ ents) as [[i e]|] eqn:Hf; [done|]. intros _.
  rewrite list_find_app_r by done. simpl. rewrite decide_True by done. done.
Qed.

(** A new name leads to the new file: after a successful [create] or
    [create_dir] in a directory, looking the name up there gives the inode that
    was returned. *)
Theorem create_then_find fs nd ni m lay tr d ents nm t :
  fs_rel fs nd ni m lay tr → dir_of tr d = Some ents → name_ok nm → nm ≠ [] → 47 ∉ nm →
  lookup_name ents nm = None → create_room fs nd ni m ents t →
  wp (create_inode fs (inode_at fs d) nm t ≫= λ o, find fs (inode_at fs d) nm ≫= λ o', mret (o, o')) ∅ m
    (λ '(o, o') _, is_Some o ∧ o' = o).
Proof.
  intros Hr Hd Hnm Hne Hns Hl Hroom. apply wp_bind. eapply wp_mono; [by eapply create_inode_spec|].
  intros o m'. rewrite Hl. intros (c & lay' & Hc & -> & Hr'). apply dir_of_Some in Hd as [k Hd].
  assert (c ≠ d) as Hcd by (intros ->; congruence).
  assert (t_create t d nm c tr !! d = Some (mkNode (DirData (ents ++ [(nm, c)])) k)) as Hd'.
  { unfold t_create, t_add. by rewrite lookup_insert_ne, lookup_alter_eq, Hd by done. }
  apply wp_bind. eapply wp_mono.
  { eapply find_loop_spec; [by eapply rel_view|]. unfold view_of. rewrite lookup_fmap, Hd'. eauto. }
  intros o' m'' [-> ->]. apply wp_ret. split; [eauto|]. rewrite split_path_name by done. cbn [resolve].
  unfold view_of. rewrite lookup_fmap, Hd'. cbn. by rewrite lookup_name_snoc.
Qed.

(** ** A small file system: an empty directory in inode slot 0 *)
Module FsDemo.

Definition dir_inode : DiskInode := mkInode 0 1 0 (replicate 26 0) 0 0 1.
Definition disk : bmap :=
  <[1 := pad_block [1]]> (<[2 := pad_block (inode_enc (replicate 128 0) dir_inode)]> (zero_disk 0 40)).
Definition lay : gmap Z ilay := {[0 := mkLay dir_inode [] []]}.
Definition tr : gmap Z fnode := {[0 := mkNode (DirData []) 1]}.

Lemma disk_is_ok : disk_ok disk.
Proof.
  intros id b. unfold disk. rewrite !lookup_insert_Some.
  intros [[_ <-]|(_ & [[_ <-]|(_ & Hb)])]; [..|by apply (zero_disk_ok 0 40 id)];
    (split; [vm_compute; reflexivity|]).
  all: unfold is_byte; apply (bool_decide_unpack _); vm_compute; exact I.
Qed.

Lemma disk_present id : 0 ≤ id < 40 → is_Some (disk !! id).
Proof.
  intros Hid. unfold disk. rewrite !lookup_insert_is_Some'. do 2 right. exists zero_block.
  apply zero_disk_lookup. split; [lia|done].
Qed.

Lemma small_rel : fs_rel small_fs 30 8 disk lay tr.
Proof.
  assert (∀ id : Z, id ∉ (∅ : gset Z)) as He by (intros id; apply not_elem_of_empty).
  pose proof disk_is_ok as Hd. unfold lay, tr. split.
  - split; [split|..]; unfold in_bitmap; simpl; unfold BLOCK_BITS, BLOCK_SZ; auto; try lia.
    + intros id Hid. apply disk_present. lia.
    + by apply Nat.ltb_lt.
    + intros k Hk. apply disk_present. lia.
  - split; [split|..]; unfold in_bitmap; simpl; unfold BLOCK_BITS, BLOCK_SZ; auto; try lia.
    + intros id Hid. apply disk_present. lia.
    + by apply Nat.ltb_lt.
    + intros ino Hino. apply disk_present. dlia.
  - intros ino. by rewrite !lookup_singleton_is_Some.
  - intros ino l [<- <-]%lookup_singleton_Some. split; try done.
    + split; [eexists; split; [vm_compute; reflexivity|vm_compute; reflexivity]|apply inode_at_offset|vm_compute; reflexivity].
    + apply empty_tree.
    + constructor.
    + intros b Hb%elem_of_nil. done.
  - intros ino l n [<- <-]%lookup_singleton_Some [_ <-]%lookup_singleton_Some. split; [done|]. split; [done|apply dir_repr_nil].
  - intros ino [n [<- _]%lookup_singleton_Some]. split; [lia|vm_compute; reflexivity].
  - intros i j li lj x Hij [<- _]%lookup_singleton_Some [<- _]%lookup_singleton_Some. done.
  - intros ino n [<- <-]%lookup_singleton_Some nm c Hin. by apply elem_of_nil in Hin.
Qed.

Lemma small_name : name_ok [104; 105].
Proof. split; [by repeat constructor|by repeat constructor|reflexivity|simpl; lia]. Qed.

Lemma small_room t : create_room small_fs 30 8 disk [] t.
Proof.
  split_and!.
  - split_and!; [simpl; lia|apply Nat.leb_le; reflexivity|apply Nat.leb_le; vm_compute; reflexivity].
  - apply Nat.leb_le. destruct t; vm_compute; reflexivity.
  - exists 1. split; [lia|vm_compute; reflexivity].
Qed.

Lemma filesystem_refines_tree_witness :
  wp (run_op small_fs (OpCreate File 0 [104; 105])) ∅ disk (λ r m', ∃ lay' tr',
    op_spec small_fs tr (OpCreate File 0 [104; 105]) r tr' ∧ fs_rel small_fs 30 8 m' lay' tr').
Proof.
  apply (filesystem_refines_tree small_fs 30 8 disk lay tr (OpCreate File 0 [104; 105]) small_rel).
  split; [apply small_name|]. exists []. split; [reflexivity|]. intros _. apply small_room.
Defined.

Lemma create_then_find_witness :
  wp (create_inode small_fs (inode_at small_fs 0) [104; 105] Directory ≫= λ o,
      find small_fs (inode_at small_fs 0) [104; 105] ≫= λ o', mret (o, o')) ∅ disk (λ '(o, o') _, is_Some o ∧ o' = o).
Proof.
  apply (create_then_find small_fs 30 8 disk lay tr 0 [] [104; 105] Directory small_rel).
  - reflexivity.
  - apply small_name.
  - discriminate.
  - apply (bool_decide_unpack _). vm_compute. exact I.
  - reflexivity.
  - apply small_room.
Defined.

End FsDemo.
