(* ===== verification/MemorySet.v ===== *)
(** * Address spaces (os/src/mm/memory_set.rs)

    A [MemorySet] is a page table with the areas mapped in it; an area owns the
    frames of its pages ([data_frames], ordered by page number as a
    [BTreeMap] is).  Dropping a [FrameTracker] is [frame_dealloc].  What the
    linker and the ELF reader provide are parameters. *)
From stdpp Require Import sorting.
From S2P Require Import Prelude Bytes Address FrameAllocator PageTable.

Inductive MapType := Identical | Framed | Linear (pn_offset : Z).
#[global] Instance MapType_eq_dec : EqDecision MapType.
Proof. solve_decision. Defined.

Definition MP_R : Z := Z.shiftl 1 1.
Definition MP_W : Z := Z.shiftl 1 2.
Definition MP_X : Z := Z.shiftl 1 3.
Definition MP_U : Z := Z.shiftl 1 4.

Record MapArea := mkArea {
  vpn_range : SimpleRange;
  data_frames : gmap Z Z;
  map_type : MapType;
  map_perm : Z;
}.
Definition set_frames (a : MapArea) (df : gmap Z Z) : MapArea :=
  mkArea (vpn_range a) df (map_type a) (map_perm a).

(** The pages a [for] loop over a range visits ([Address.range_iter_complete]). *)
Definition range_pages (rg : SimpleRange) : list Z := seqZ (get_start rg) (get_end rg - get_start rg).

Definition area_new (start_va end_va : Z) (t : MapType) (perm : Z) : outcome MapArea :=
  rg ← range_new (floor start_va) (ceil end_va); Ok (mkArea rg ∅ t perm).
Definition from_another (a : MapArea) : MapArea := set_frames a ∅.

Definition drop_opt (o : option Z) : M kmem () :=
  match o with Some f => frame_dealloc f | None => mret () end.
Fixpoint drop_frames (fs : list Z) : M kmem () :=
  match fs with
  | [] => mret ()
  | f :: rest => frame_dealloc f ≫= λ _, drop_frames rest
  end.
(** The frames of an area in the order a [BTreeMap] drops them. *)
Definition key_le (x y : Z * Z) : Prop := x.1 ≤ y.1.
#[global] Instance key_le_dec x y : Decision (key_le x y).
Proof. unfold key_le. apply _. Defined.
Definition frames_in_order (df : gmap Z Z) : list Z := snd <$> merge_sort key_le (map_to_list df).
Definition drop_area (a : MapArea) : M kmem () := drop_frames (frames_in_order (data_frames a)).

Definition map_one (a : MapArea) (pt : PageTable) (vpn : Z) : M kmem (MapArea * PageTable) :=
  (match map_type a with
   | Identical => mret (vpn, a)
   | Framed =>
       frame_alloc ≫= λ o, lift (unwrap o) ≫= λ frame,
       drop_opt (data_frames a !! vpn) ≫= λ _,
       mret (frame, set_frames a (<[vpn := frame]> (data_frames a)))
   | Linear pn_offset =>
       lift (assert (vpn <? Z.shiftl 1 27)) ≫= λ _, mret (u64 (vpn + pn_offset), a)
   end) ≫= λ '(ppn, a'),
  PageTable.map pt vpn ppn (map_perm a) ≫= λ pt', mret (a', pt').

Definition unmap_one (a : MapArea) (pt : PageTable) (vpn : Z) : M kmem MapArea :=
  (match map_type a with
   | Framed => drop_opt (data_frames a !! vpn) ≫= λ _, mret (set_frames a (delete vpn (data_frames a)))
   | _ => mret a
   end) ≫= λ a',
  PageTable.unmap pt vpn ≫= λ _, mret a'.

Fixpoint map_pages (vs : list Z) (a : MapArea) (pt : PageTable) : M kmem (MapArea * PageTable) :=
  match vs with
  | [] => mret (a, pt)
  | v :: rest => map_one a pt v ≫= λ '(a', pt'), map_pages rest a' pt'
  end.
Definition area_map (a : MapArea) (pt : PageTable) : M kmem (MapArea * PageTable) :=
  map_pages (range_pages (vpn_range a)) a pt.

Fixpoint unmap_pages (vs : list Z) (a : MapArea) (pt : PageTable) : M kmem MapArea :=
  match vs with
  | [] => mret a
  | v :: rest => unmap_one a pt v ≫= λ a', unmap_pages rest a' pt
  end.
Definition area_unmap (a : MapArea) (pt : PageTable) : M kmem MapArea :=
  unmap_pages (range_pages (vpn_range a)) a pt.

(** [ppn.get_bytes_array()[..src.len()].copy_from_slice(src)] *)
Definition copy_to (ppn : Z) (src : list Z) : M kmem () := λ s,
  match mem s !! ppn with
  | Some pg =>
      if (length src <=? length pg)%nat
      then Ok ((), mkMem (fa s) (<[ppn := src ++ drop (length src) pg]> (mem s)))
      else Err Panicked
  | None => Err Panicked
  end.
Definition read_page (ppn : Z) : M kmem page := λ s,
  match mem s !! ppn with Some pg => Ok (pg, s) | None => Err Panicked end.

Fixpoint copy_data_loop (fuel : nat) (a : MapArea) (data : list Z) (start vpn : Z) : M kmem () :=
  match fuel with
  | O => λ _, Err Diverged
  | S fuel' =>
      let len := Z.of_nat (length data) in
      let src := take (Z.to_nat (Z.min len (start + PAGE_SIZE) - start)) (drop (Z.to_nat start) data) in
      lift (unwrap (data_frames a !! vpn)) ≫= λ ppn,
      copy_to ppn src ≫= λ _,
      let start' := start + PAGE_SIZE in
      if len <=? start' then mret () else copy_data_loop fuel' a data start' (step vpn)
  end.
Definition copy_data (a : MapArea) (data : list Z) : M kmem () :=
  lift (assert (bool_decide (map_type a = Framed))) ≫= λ _,
  copy_data_loop (S (length data / Z.to_nat PAGE_SIZE)) a data 0 (get_start (vpn_range a)).

Record MemorySet := mkMS { page_table : PageTable; areas : list MapArea }.

Definition new_bare : M kmem MemorySet := pt_new ≫= λ pt, mret (mkMS pt []).

Definition ms_push (ms : MemorySet) (a : MapArea) (data : option (list Z)) : M kmem MemorySet :=
  area_map a (page_table ms) ≫= λ '(a', pt'),
  (match data with Some d => copy_data a' d | None => mret () end) ≫= λ _,
  mret (mkMS pt' (areas ms ++ [a'])).

Definition map_trampoline (strampoline : Z) (ms : MemorySet) : M kmem MemorySet :=
  lift (page_of_addr (virt_addr TRAMPOLINE)) ≫= λ vpn,
  lift (page_of_addr (phys_addr strampoline)) ≫= λ ppn,
  PageTable.map (page_table ms) vpn ppn (Z.lor PTE_R PTE_X) ≫= λ pt', mret (mkMS pt' (areas ms)).

Definition ms_translate (ms : MemorySet) (vpn : Z) : M kmem (option Z) := PageTable.translate (page_table ms) vpn.
Definition ms_token (ms : MemorySet) : Z := token (page_table ms).

Definition insert_framed_area (ms : MemorySet) (start_va end_va perm : Z) : M kmem MemorySet :=
  lift (area_new start_va end_va Framed perm) ≫= λ a, ms_push ms a None.

Definition remove_area_with_start_vpn (ms : MemorySet) (start_vpn : Z) : M kmem MemorySet :=
  match list_find (λ a, get_start (vpn_range a) = start_vpn) (areas ms) with
  | Some (idx, a) =>
      area_unmap a (page_table ms) ≫= λ a',
      drop_area a' ≫= λ _, mret (mkMS (page_table ms) (delete idx (areas ms)))
  | None => mret ms
  end.

Fixpoint drop_areas (l : list MapArea) : M kmem () :=
  match l with
  | [] => mret ()
  | a :: rest => drop_area a ≫= λ _, drop_areas rest
  end.
Definition recycle_data_pages (ms : MemorySet) : M kmem MemorySet :=
  drop_areas (areas ms) ≫= λ _, mret (mkMS (page_table ms) []).

Definition ms_map (ms : MemorySet) (vpn ppn perm : Z) : M kmem MemorySet :=
  PageTable.map (page_table ms) vpn ppn (Z.land perm 255) ≫= λ pt', mret (mkMS pt' (areas ms)).
Definition ms_unmap (ms : MemorySet) (vpn : Z) : M kmem () := PageTable.unmap (page_table ms) vpn.

(** Fork: map the same areas and copy their pages. *)
Fixpoint copy_pages (vs : list Z) (user_space memory_set : MemorySet) : M kmem () :=
  match vs with
  | [] => mret ()
  | v :: rest =>
      ms_translate user_space v ≫= λ o, lift (unwrap o) ≫= λ e,
      ms_translate memory_set v ≫= λ o', lift (unwrap o') ≫= λ e',
      read_page (pte_ppn e) ≫= λ src,
      copy_to (pte_ppn e') src ≫= λ _,
      copy_pages rest user_space memory_set
  end.
Fixpoint copy_areas (l : list MapArea) (user_space memory_set : MemorySet) : M kmem MemorySet :=
  match l with
  | [] => mret memory_set
  | a :: rest =>
      ms_push memory_set (from_another a) None ≫= λ ms',
      copy_pages (range_pages (vpn_range a)) user_space ms' ≫= λ _,
      copy_areas rest user_space ms'
  end.
Definition from_existed_user (strampoline : Z) (user_space : MemorySet) : M kmem MemorySet :=
  new_bare ≫= λ ms, map_trampoline strampoline ms ≫= λ ms,
  copy_areas (areas user_space) user_space ms.

(** The kernel's own space: the section symbols come from the linker. *)
Record Symbols := mkSyms {
  stext : Z; etext : Z; srodata : Z; erodata : Z; sdata : Z; edata : Z;
  sbss_with_stack : Z; ebss : Z; ekernel : Z; strampoline : Z;
}.
Definition push_identical (start end_ perm : Z) (ms : MemorySet) : M kmem MemorySet :=
  lift (area_new (virt_addr start) (virt_addr end_) Identical perm) ≫= λ a, ms_push ms a None.
Fixpoint push_mmio (l : list (Z * Z)) (ms : MemorySet) : M kmem MemorySet :=
  match l with
  | [] => mret ms
  | (start, size) :: rest =>
      push_identical start (u64 (start + size)) (Z.lor MP_R MP_W) ms ≫= λ ms', push_mmio rest ms'
  end.
Definition new_kernel (sy : Symbols) (mmio : list (Z * Z)) : M kmem MemorySet :=
  new_bare ≫= λ ms, map_trampoline (strampoline sy) ms ≫= λ ms,
  push_identical (stext sy) (etext sy) (Z.lor MP_R MP_X) ms ≫= λ ms,
  push_identical (srodata sy) (erodata sy) MP_R ms ≫= λ ms,
  push_identical (sdata sy) (edata sy) (Z.lor MP_R MP_W) ms ≫= λ ms,
  push_identical (sbss_with_stack sy) (ebss sy) (Z.lor MP_R MP_W) ms ≫= λ ms,
  push_identical (ekernel sy) MEMORY_END (Z.lor MP_R MP_W) ms ≫= λ ms,
  push_mmio mmio ms.

(** What the ELF reader reports about a program. *)
Record ProgramHeader := mkPH {
  ph_load : bool; ph_vaddr : Z; ph_memsz : Z; ph_offset : Z; ph_filesz : Z;
  ph_r : bool; ph_w : bool; ph_x : bool;
}.
Record Elf := mkElf { elf_magic : list Z; elf_phs : list ProgramHeader; elf_entry : Z }.

Definition ph_perm (ph : ProgramHeader) : Z :=
  let p := MP_U in
  let p := if ph_r ph then Z.lor p MP_R else p in
  let p := if ph_w ph then Z.lor p MP_W else p in
  if ph_x ph then Z.lor p MP_X else p.

Fixpoint load_segments (input : list Z) (phs : list ProgramHeader) (ms : MemorySet) (max_end_vpn : Z)
    : M kmem (MemorySet * Z) :=
  match phs with
  | [] => mret (ms, max_end_vpn)
  | ph :: rest =>
      if ph_load ph then
        lift (area_new (virt_addr (ph_vaddr ph)) (virt_addr (u64 (ph_vaddr ph + ph_memsz ph))) Framed (ph_perm ph)) ≫= λ a,
        (* [&elf.input[offset .. offset + file_size]] *)
        let e := u64 (ph_offset ph + ph_filesz ph) in
        lift (assert ((ph_offset ph <=? e) && (e <=? Z.of_nat (length input)))) ≫= λ _,
        ms_push ms a (Some (slice (Z.to_nat (ph_offset ph)) (Z.to_nat (e - ph_offset ph)) input)) ≫= λ ms',
        load_segments input rest ms' (get_end (vpn_range a))
      else load_segments input rest ms max_end_vpn
  end.

(** The result: the space, the base of the user stacks and the entry point. *)
Definition from_elf (elf_new : list Z → option Elf) (strampoline : Z) (elf_data : list Z)
    : M kmem (MemorySet * Z * Z) :=
  new_bare ≫= λ ms, map_trampoline strampoline ms ≫= λ ms,
  lift (unwrap (elf_new elf_data)) ≫= λ elf,
  lift (assert (bool_decide (elf_magic elf = [0x7f; 0x45; 0x4c; 0x46]))) ≫= λ _,
  load_segments elf_data (elf_phs elf) ms 0 ≫= λ '(ms, max_end_vpn),
  mret (ms, u64 (addr_of_page max_end_vpn + PAGE_SIZE), elf_entry elf).
