(* ===== verification/AddressSpace.v ===== *)
(** * What address spaces guarantee (os/src/mm/memory_set.rs)

    [space_ok] is the invariant of a user address space: its table is well
    formed, every page of every area is mapped to a frame the area owns, and no
    frame is shared.  Building areas, removing them and forking keep it. *)
From S2P Require Import Prelude Bytes Address FrameAllocator PageTable MemorySet.

Abbreviation pt_map s ms := (mapping (mem s) (root_ppn (page_table ms))) (only parsing).

Definition leaf_entry (perm f : Z) : Z := pte_new f (Z.lor perm PTE_V).
Definition perm_ok (perm : Z) : Prop := 0 ≤ perm < 2 ^ 8.

Lemma leaf_entry_ppn perm f : perm_ok perm → 0 ≤ f < 2 ^ 44 → pte_ppn (leaf_entry perm f) = f.
Proof. intros Hp Hf. apply pte_ppn_new; [done|]. by apply (pte_new_valid f perm). Qed.

(** Frames obtained for the pages [vs] by a computation from [s] to [s'] that
    builds the table [pt'] and the frame map [df]. *)
Record framed (l0 : Z) (perm : Z) (vs : list Z) (s : kmem) (pt' : PageTable) (df : gmap Z Z) (s' : kmem) : Prop := {
  fr_frame : ∀ v, v ∈ vs → ∃ f, df !! v = Some f ∧ ¬ is_allocated l0 (fa s) f ∧ is_allocated l0 (fa s') f ∧
    f ∉ frames pt' ∧ mem s' !! f = Some zero_page ∧ mapping (mem s') (root_ppn pt') v = Some (leaf_entry perm f);
  fr_inj : ∀ v w f, v ∈ vs → w ∈ vs → df !! v = Some f → df !! w = Some f → v = w;
}.

Section map_pages.
Context (l0 : Z).

Lemma is_allocated_range a k : fa_wf l0 a → is_allocated l0 a k → 0 ≤ k < 2 ^ 44.
Proof. intros [] []. lia. Qed.

(** A table only depends on the contents of its own frames. *)
Lemma table_frame pt s s' :
  pt_inv l0 pt s → fa_wf l0 (fa s') → (∀ n, n ∈ frames pt → mem s' !! n = mem s !! n) →
  (∀ n, n ∈ frames pt → is_allocated l0 (fa s') n) →
  pt_inv l0 pt s' ∧ ∀ w, 0 ≤ w < 2 ^ 27 → mapping (mem s') (root_ppn pt) w = mapping (mem s) (root_ppn pt) w.
Proof.
  intros [Hfa Hwf Hown] Hfa' Hmem Hal.
  assert (∀ n j, n ∈ frames pt → pte_at (mem s') n j = pte_at (mem s) n j) as Hpte
    by (intros n j Hn; unfold pte_at; by rewrite Hmem).
  assert (∀ q, (length q ≤ 2)%nat → Forall idx_ok q →
    walk (mem s') (root_ppn pt) q = walk (mem s) (root_ppn pt) q) as Hwalk.
  { intros q Hq Hqi. apply walk_ext. intros p j rest n -> Hw. apply Hpte.
    rewrite length_app in Hq. simpl in Hq. apply Forall_app in Hqi as [Hqi _].
    apply (ptwf_node _ _ _ Hwf p); [lia|done|done]. }
  split.
  - split; [done| |done]. destruct Hwf as [W1 W2 W3 W4]. split; [|done|..].
    + intros n Hn. rewrite Hmem by done. by apply W1.
    + intros p n Hl Hi. rewrite Hwalk by done. by apply W3.
    + intros p q n Hl Hl' Hi Hi'. rewrite !Hwalk by done. by apply W4.
  - intros w Hw. destruct (indexes_recompose w Hw) as (i0 & i1 & i2 & Hidx & H0 & H1 & H2 & _).
    unfold mapping. rewrite Hidx, Hwalk by (simpl; lia || by apply path2_ok).
    destruct (walk (mem s) _ _) as [n|] eqn:Hn; [|done]. simpl. f_equal. apply Hpte.
    apply (ptwf_node _ _ _ Hwf [i0; i1]); [simpl; lia|by apply path2_ok|done].
Qed.

(** A fresh cleared frame is mapped at a free page and nothing else changes. *)
Lemma alloc_and_map k pt v perm s :
  pt_inv l0 pt s → perm_ok perm → 0 ≤ v < 2 ^ 27 → mapping (mem s) (root_ppn pt) v = None → nfree (3 + k) (fa s) →
  ∃ f a' pt' s', let s1 := mkMem a' (<[f := zero_page]> (mem s)) in
    frame_alloc s = Ok (Some f, s1) ∧ PageTable.map pt v f perm s1 = Ok (pt', s') ∧
    fa_wf l0 a' ∧ (∀ q, is_allocated l0 a' q ↔ q = f ∨ is_allocated l0 (fa s) q) ∧
    pt_inv l0 pt' s' ∧ extends l0 pt s pt' s' ∧ nfree k (fa s') ∧
    (∀ w, 0 ≤ w < 2 ^ 27 → mapping (mem s') (root_ppn pt) w =
       if decide (w = v) then Some (leaf_entry perm f) else mapping (mem s) (root_ppn pt) w) ∧
    ¬ is_allocated l0 (fa s) f ∧ is_allocated l0 (fa s') f ∧ f ∉ frames pt' ∧ mem s' !! f = Some zero_page.
Proof.
  intros Hinv Hp Hv Hm Hfree. pose proof Hinv as [Hfa Hwf Hown].
  destruct (frame_alloc_spec l0 (2 + k) s Hfa Hfree) as (f & a' & Hal & Hff & Hfa' & Hfr & Hnf & Hall).
  set (s1 := mkMem a' (<[f := zero_page]> (mem s))) in *.
  assert (¬ is_allocated l0 (fa s) f) as Hna by exact (free_allocated_disjoint l0 _ Hfa f Hff).
  assert (f ∉ frames pt) as Hnf0 by (intros ?%Hown; done).
  destruct (table_frame pt s s1) as [Hinv1 Hmap]; [done|done| |intros n Hn; apply Hall; right; auto|].
  { intros n Hn. simpl. by rewrite lookup_insert_ne by (intros ->; done). }
  pose proof (map_correct l0 k pt v f perm s1 Hinv1 Hv Hfr Hp Hnf) as Hmc.
  rewrite Hmap, Hm in Hmc by done. destruct Hmc as (pt' & s' & Hr & Hinv' & He & Hmap' & Hnf').
  exists f, a', pt', s'. fold s1. do 2 (split; [done|]).
  pose proof (ext_alloc _ _ _ _ _ He) as Hal'. assert (is_allocated l0 (fa s1) f) as Hf1 by (apply Hall; by left).
  split_and!; [done|done|done| |done| |done|by apply Hal'| |].
  - destruct He as [R A F N O]. split; [done| |done| |].
    + intros q Hq. apply A, Hall. by right.
    + intros q [?|Hn]%N; [by left|right]. intros Hq. apply Hn, Hall. by right.
    + intros q Hq Hqn. rewrite O; [|apply Hall; by right|done]. simpl.
      by rewrite lookup_insert_ne by (intros ->; done).
  - intros w Hw. rewrite Hmap', Hmap by done. done.
  - intros [?|?]%(ext_fresh _ _ _ _ _ He); done.
  - rewrite (ext_mem _ _ _ _ _ He); [apply lookup_insert_eq|done|done].
Qed.

(** One page of an area. *)
Lemma map_one_framed k a pt v s :
  pt_inv l0 pt s → map_type a = Framed → perm_ok (map_perm a) → data_frames a !! v = None →
  0 ≤ v < 2 ^ 27 → mapping (mem s) (root_ppn pt) v = None → nfree (3 + k) (fa s) →
  ∃ f pt' s', map_one a pt v s = Ok ((set_frames a (<[v := f]> (data_frames a)), pt'), s') ∧
    pt_inv l0 pt' s' ∧ extends l0 pt s pt' s' ∧ nfree k (fa s') ∧
    (∀ w, 0 ≤ w < 2 ^ 27 → mapping (mem s') (root_ppn pt) w =
       if decide (w = v) then Some (leaf_entry (map_perm a) f) else mapping (mem s) (root_ppn pt) w) ∧
    ¬ is_allocated l0 (fa s) f ∧ is_allocated l0 (fa s') f ∧ f ∉ frames pt' ∧ mem s' !! f = Some zero_page.
Proof.
  intros Hinv Ht Hp Hdf Hv Hm Hfree.
  destruct (alloc_and_map k pt v (map_perm a) s) as (f & a' & pt' & s' & Hal & Hr & _ & _ & H); [done..|].
  exists f, pt', s'. split; [|exact H]. unfold map_one. rewrite Ht.
  rewrite (M_bind_Ok _ _ s (f, set_frames a (<[v := f]> (data_frames a))) (mkMem a' (<[f := zero_page]> (mem s)))).
  - by rewrite (M_bind_Ok _ _ _ _ _ Hr).
  - rewrite (M_bind_Ok _ _ _ _ _ Hal), (M_bind_Ok _ _ _ f _ eq_refl). by rewrite Hdf.
Qed.

(** All the pages of an area. *)
Lemma map_pages_framed k vs a pt s :
  pt_inv l0 pt s → map_type a = Framed → perm_ok (map_perm a) → NoDup vs →
  (∀ v, v ∈ vs → 0 ≤ v < 2 ^ 27 ∧ mapping (mem s) (root_ppn pt) v = None ∧ data_frames a !! v = None) →
  nfree (3 * length vs + k) (fa s) →
  ∃ df pt' s', map_pages vs a pt s = Ok ((set_frames a df, pt'), s') ∧
    pt_inv l0 pt' s' ∧ extends l0 pt s pt' s' ∧ nfree k (fa s') ∧ framed l0 (map_perm a) vs s pt' df s' ∧
    (∀ w, w ∉ vs → df !! w = data_frames a !! w) ∧
    (∀ w, 0 ≤ w < 2 ^ 27 → w ∉ vs → mapping (mem s') (root_ppn pt) w = mapping (mem s) (root_ppn pt) w).
Proof.
  intros Hinv Ht Hp Hnd. revert a pt s Hinv Ht Hp.
  induction Hnd as [|v vs Hv Hnd IH]; intros a pt s Hinv Ht Hp Hvs Hfree.
  { exists (data_frames a), pt, s. split; [by destruct a|].
    split_and!; [done|apply extends_refl|done| |done|done]. split; intros; set_solver. }
  destruct (Hvs v) as (Hvr & Hvm & Hvd); [by left|].
  destruct (map_one_framed (3 * length vs + k) a pt v s) as
    (f & pt1 & s1 & Hr1 & Hinv1 & He1 & Hn1 & Hm1 & Hf1 & Hf2 & Hf3 & Hf4); try done.
  { eapply nfree_mono; [|done]. simpl. lia. }
  pose proof (ext_root _ _ _ _ _ He1) as HR1.
  set (a1 := set_frames a (<[v := f]> (data_frames a))) in *.
  destruct (IH a1 pt1 s1) as (df & pt' & s' & Hr & Hinv' & He & Hn & [Hfr Hinj] & Hdf & Hm); try done.
  { intros w Hw. assert (w ≠ v) by (intros ->; done). destruct (Hvs w) as (Hwr & Hwm & Hwd); [by right|].
    split_and!; [lia|lia| |simpl; by rewrite lookup_insert_ne].
    rewrite HR1, Hm1 by done. by rewrite decide_False. }
  exists df, pt', s'. cbn [map_pages]. rewrite (M_bind_Ok _ _ _ _ _ Hr1). split; [done|].
  assert (df !! v = Some f) as Hdv by (rewrite Hdf by done; apply lookup_insert_eq).
  assert (∀ w g, w ∈ vs → df !! w = Some g → g ≠ f) as Hfne.
  { intros w g Hw Hg ->. destruct (Hfr w Hw) as (f' & Hf' & Hn' & _). congruence. }
  split_and!; [done|by eapply extends_trans|done| | |].
  - split.
    + intros w [->|Hw]%elem_of_cons.
      * exists f. split_and!; [done|done|by apply He| | |].
        -- by intros [?|?]%(ext_fresh _ _ _ _ _ He).
        -- by rewrite (ext_mem _ _ _ _ _ He).
        -- rewrite (ext_root _ _ _ _ _ He), Hm by done. rewrite HR1, Hm1 by done. by rewrite decide_True.
      * destruct (Hfr w Hw) as (g & G1 & G2 & G3). exists g. split; [done|]. split; [|done].
        intros ?%(ext_alloc _ _ _ _ _ He1). done.
    + intros x y g [->|Hx]%elem_of_cons [->|Hy]%elem_of_cons Hgx Hgy; [done|..|by eapply Hinj].
      * destruct (Hfne y g); [done|done|congruence].
      * destruct (Hfne x g); [done|done|congruence].
  - intros w [Hne Hw]%not_elem_of_cons. rewrite Hdf by done. simpl. by rewrite lookup_insert_ne.
  - intros w Hwr [Hne Hw]%not_elem_of_cons. rewrite <- HR1, Hm, HR1, Hm1 by done. by rewrite decide_False.
Qed.

(** Mapping over a page that is already mapped is a panic. *)
Lemma map_pages_conflict k vs a pt s :
  pt_inv l0 pt s → map_type a = Framed → perm_ok (map_perm a) → NoDup vs →
  (∀ v, v ∈ vs → 0 ≤ v < 2 ^ 27 ∧ data_frames a !! v = None) →
  nfree (3 * length vs + k) (fa s) → (∃ v, v ∈ vs ∧ mapping (mem s) (root_ppn pt) v ≠ None) →
  map_pages vs a pt s = Err Panicked.
Proof.
  intros Hinv Ht Hp Hnd. revert a pt s Hinv Ht Hp.
  induction Hnd as [|v vs Hv Hnd IH]; intros a pt s Hinv Ht Hp Hvs Hfree (w & Hw & Hwm); [set_solver|].
  destruct (Hvs v) as (Hvr & Hvd); [by left|]. cbn [map_pages].
  destruct (mapping (mem s) (root_ppn pt) v) as [e|] eqn:Hmv.
  - apply M_bind_Err.
    destruct (frame_alloc_spec l0 (2 + (3 * length vs + k)) s (inv_fa _ _ _ Hinv)) as
      (f & a' & Hal & Hff & Hfa' & Hfr & Hnf & Hall); [eapply nfree_mono; [|done]; simpl; lia|].
    assert (¬ is_allocated l0 (fa s) f) as Hna by exact (free_allocated_disjoint l0 _ (inv_fa _ _ _ Hinv) f Hff).
    destruct (table_frame pt s (mkMem a' (<[f := zero_page]> (mem s)))) as [Hinv1 Hmap]; [done|done|..].
    { intros n Hn. simpl. rewrite lookup_insert_ne; [done|]. intros ->. by apply Hna, (inv_owned _ _ _ Hinv). }
    { intros n Hn. apply Hall. right. by apply (inv_owned _ _ _ Hinv). }
    pose proof (map_correct l0 _ pt v f (map_perm a) _ Hinv1 Hvr Hfr Hp Hnf) as Hmc.
    rewrite Hmap, Hmv in Hmc by done. unfold map_one. rewrite Ht.
    rewrite (M_bind_Ok _ _ s (f, set_frames a (<[v := f]> (data_frames a))) (mkMem a' (<[f := zero_page]> (mem s)))).
    + by rewrite (M_bind_Err _ _ _ _ Hmc).
    + rewrite (M_bind_Ok _ _ _ _ _ Hal), (M_bind_Ok _ _ _ f _ eq_refl). by rewrite Hvd.
  - destruct (map_one_framed (3 * length vs + k) a pt v s) as
      (f & pt1 & s1 & Hr1 & Hinv1 & He1 & Hn1 & Hm1 & _); try done.
    { eapply nfree_mono; [|done]. simpl. lia. }
    rewrite (M_bind_Ok _ _ _ _ _ Hr1). apply IH; try done.
    + intros x Hx. destruct (Hvs x) as [Hxr Hxd]; [by right|]. split; [done|]. simpl.
      rewrite lookup_insert_ne; [done|]. intros ->. done.
    + apply elem_of_cons in Hw as [->|Hw]; [congruence|]. exists w. split; [done|].
      destruct (Hvs w) as [Hwr _]; [by right|].
      rewrite (ext_root _ _ _ _ _ He1), Hm1 by done. rewrite decide_False; [done|]. intros ->. done.
Qed.
End map_pages.

(** ** The invariant of a user address space *)
Definition pages_of (a : MapArea) : list Z := range_pages (vpn_range a).

(** Page [v] of area [a] is mapped to a frame the area owns. *)
Definition page_owned (l0 : Z) (pt : PageTable) (s : kmem) (a : MapArea) (v : Z) : Prop :=
  ∃ f pg, data_frames a !! v = Some f ∧ is_allocated l0 (fa s) f ∧ f ∉ frames pt ∧
    mem s !! f = Some pg ∧ page_ok pg ∧ mapping (mem s) (root_ppn pt) v = Some (leaf_entry (map_perm a) f).

Record area_ok (a : MapArea) : Prop := {
  ao_type : map_type a = Framed;
  ao_perm : perm_ok (map_perm a);
  ao_range : 0 ≤ range_l (vpn_range a) ∧ range_r (vpn_range a) ≤ 2 ^ 27;
  ao_dom : ∀ v, is_Some (data_frames a !! v) → v ∈ pages_of a;
}.

Record space_ok (l0 : Z) (ms : MemorySet) (s : kmem) : Prop := {
  sp_pt : pt_inv l0 (page_table ms) s;
  sp_area : ∀ a, a ∈ areas ms → area_ok a;
  sp_page : ∀ a v, a ∈ areas ms → v ∈ pages_of a → page_owned l0 (page_table ms) s a v;
  sp_inj : ∀ a b v w f, a ∈ areas ms → b ∈ areas ms →
    data_frames a !! v = Some f → data_frames b !! w = Some f → v = w;
  sp_disjoint : ∀ i j a b v, areas ms !! i = Some a → areas ms !! j = Some b →
    v ∈ pages_of a → v ∈ pages_of b → i = j;
}.

Lemma pages_of_range a v : area_ok a → v ∈ pages_of a → 0 ≤ v < 2 ^ 27.
Proof. intros [_ _ Hr _]. unfold pages_of, range_pages, get_start, get_end. rewrite elem_of_seqZ. lia. Qed.

Lemma NoDup_pages a : NoDup (pages_of a).
Proof. apply NoDup_seqZ. Qed.

Lemma zero_page_is_page : page_ok zero_page.
Proof. apply zero_page_ok. Qed.

(** A page stays owned while the table grows elsewhere. *)
Lemma page_owned_extends l0 pt s pt' s' a v :
  extends l0 pt s pt' s' →
  mapping (mem s') (root_ppn pt) v = mapping (mem s) (root_ppn pt) v →
  page_owned l0 pt s a v → page_owned l0 pt' s' a v.
Proof.
  intros He Hm (f & pg & Hd & Hal & Hn & Hpg & Hok & Hmap). exists f, pg. split_and!; [done| | | |done|].
  - by apply He.
  - by intros [?|?]%(ext_fresh _ _ _ _ _ He).
  - by rewrite (ext_mem _ _ _ _ _ He).
  - by rewrite (ext_root _ _ _ _ _ He), Hm.
Qed.

(** What a new framed area adds. *)
Record area_added (l0 : Z) (ms : MemorySet) (s : kmem) (rg : SimpleRange) (perm : Z)
    (ms' : MemorySet) (s' : kmem) : Prop := {
  aa_areas : ∃ a, areas ms' = areas ms ++ [a] ∧ vpn_range a = rg ∧ map_perm a = perm ∧
    ∀ v f, data_frames a !! v = Some f → ¬ is_allocated l0 (fa s) f;
  aa_pages : ∀ v, v ∈ range_pages rg → ∃ f, pt_map s' ms' v = Some (leaf_entry perm f) ∧
    mem s' !! f = Some zero_page ∧ ¬ is_allocated l0 (fa s) f ∧ is_allocated l0 (fa s') f ∧
    f ∉ frames (page_table ms');
  aa_inj : ∀ v w f, v ∈ range_pages rg → w ∈ range_pages rg →
    pt_map s' ms' v = Some (leaf_entry perm f) → pt_map s' ms' w = Some (leaf_entry perm f) → v = w;
  aa_other : ∀ v, 0 ≤ v < 2 ^ 27 → v ∉ range_pages rg → pt_map s' ms' v = pt_map s ms v;
  aa_keeps : extends l0 (page_table ms) s (page_table ms') s';
}.

Lemma framed_leaf_inj l0 perm vs s pt' df s' v w f :
  perm_ok perm → fa_wf l0 (fa s') → framed l0 perm vs s pt' df s' → v ∈ vs → w ∈ vs →
  mapping (mem s') (root_ppn pt') v = Some (leaf_entry perm f) →
  mapping (mem s') (root_ppn pt') w = Some (leaf_entry perm f) → v = w.
Proof.
  intros Hp Hfa [Hfr Hinj] Hv Hw Hmv Hmw.
  destruct (Hfr v Hv) as (f1 & D1 & _ & A1 & _ & _ & M1). destruct (Hfr w Hw) as (f2 & D2 & _ & A2 & _ & _ & M2).
  assert (leaf_entry perm f1 = leaf_entry perm f2) as He by congruence.
  apply (f_equal pte_ppn) in He. rewrite !leaf_entry_ppn in He; eauto using is_allocated_range.
  subst f2. by eapply Hinj.
Qed.

Lemma ms_push_framed l0 k ms s rg perm :
  space_ok l0 ms s → perm_ok perm → 0 ≤ range_l rg → range_r rg ≤ 2 ^ 27 →
  (∀ v, v ∈ range_pages rg → pt_map s ms v = None) →
  nfree (3 * length (range_pages rg) + k) (fa s) →
  ∃ ms' s', ms_push ms (mkArea rg ∅ Framed perm) None s = Ok (ms', s') ∧
    space_ok l0 ms' s' ∧ area_added l0 ms s rg perm ms' s' ∧ nfree k (fa s').
Proof.
  intros Hsp Hp Hl Hr Hfreev Hnf. pose proof Hsp as [Hpt Har Hpg Hinj Hdis].
  set (a0 := mkArea rg ∅ Framed perm).
  destruct (map_pages_framed l0 k (range_pages rg) a0 (page_table ms) s) as
    (df & pt' & s' & Hrun & Hinv' & He & Hnf' & Hframed & Hdf & Hm); try done.
  { apply NoDup_seqZ. }
  { intros v Hv. split_and!; [| |by apply Hfreev|done];
      unfold range_pages, get_start, get_end in Hv; apply elem_of_seqZ in Hv; lia. }
  set (a := set_frames a0 df). exists (mkMS pt' (areas ms ++ [a])), s'.
  assert (∀ b v, b ∈ areas ms → v ∈ pages_of b → v ∉ range_pages rg) as Hsep.
  { intros b v Hb Hv Hin. destruct (Hpg b v Hb Hv) as (f & pg & _ & _ & _ & _ & _ & Hmb).
    rewrite Hfreev in Hmb by done. done. }
  assert (∀ v f, df !! v = Some f → v ∈ range_pages rg) as Hdom.
  { intros v f Hv. destruct (decide (v ∈ range_pages rg)) as [|Hn]; [done|].
    rewrite Hdf in Hv by done. simpl in Hv. by rewrite lookup_empty in Hv. }
  assert (∀ b v w f, b ∈ areas ms → data_frames b !! v = Some f → df !! w = Some f → False) as Hcross.
  { intros b v w f Hb Hbv Hw. destruct (fr_frame _ _ _ _ _ _ _ Hframed w (Hdom w f Hw)) as (g & G1 & G2 & _).
    destruct (Hpg b v Hb) as (g' & pg & B1 & B2 & _); [apply (ao_dom _ (Har b Hb)); eauto|]. congruence. }
  split_and!; [| |split|done].
  - unfold ms_push. rewrite (M_bind_Ok _ _ _ _ _ Hrun). reflexivity.
  - split; simpl.
    + done.
    + intros b [Hb| ->%list_elem_of_singleton]%elem_of_app; [by apply Har|].
      split; simpl; [done|done|lia|]. intros v [f Hf]. by eapply Hdom.
    + intros b v [Hb| ->%list_elem_of_singleton]%elem_of_app Hv.
      * apply (page_owned_extends l0 (page_table ms) s); [done| |by apply Hpg].
        apply Hm; [by eapply pages_of_range; [apply Har|]|by eapply Hsep].
      * destruct (fr_frame _ _ _ _ _ _ _ Hframed v Hv) as (f & F1 & F2 & F3 & F4 & F5 & F6).
        exists f, zero_page. split_and!; try done; apply zero_page_is_page.
    + intros b c v w f [Hb| ->%list_elem_of_singleton]%elem_of_app [Hc| ->%list_elem_of_singleton]%elem_of_app Hbv Hcw.
      * by eapply (Hinj b c).
      * by destruct (Hcross b v w f).
      * by destruct (Hcross c w v f).
      * eapply (fr_inj _ _ _ _ _ _ _ Hframed); eauto.
    + intros i j b c v Hi Hj Hbv Hcv. rewrite lookup_app_Some in Hi, Hj.
      destruct Hi as [Hi|[Hil Hi]], Hj as [Hj|[Hjl Hj]]; [by eapply Hdis|..].
      * apply list_lookup_singleton_Some in Hj as [_ <-]. destruct (Hsep b v); [by eapply list_elem_of_lookup_2|done..].
      * apply list_lookup_singleton_Some in Hi as [_ <-]. destruct (Hsep c v); [by eapply list_elem_of_lookup_2|done..].
      * apply list_lookup_singleton_Some in Hi as [? _], Hj as [? _]. lia.
  - exists a. split_and!; [done..|]. intros v f Hv.
    destruct (fr_frame _ _ _ _ _ _ _ Hframed v (Hdom v f Hv)) as (g & G1 & G2 & _). simpl in Hv. congruence.
  - intros v Hv. destruct (fr_frame _ _ _ _ _ _ _ Hframed v Hv) as (f & F1 & F2 & F3 & F4 & F5 & F6). by exists f.
  - intros v w f Hv Hw. by apply (framed_leaf_inj l0 perm _ s pt' df s' v w f Hp (inv_fa _ _ _ Hinv') Hframed).
  - intros v Hv Hn. simpl. rewrite (ext_root _ _ _ _ _ He). by apply Hm.
  - done.
Qed.

Lemma ms_push_area ms a s ms' s' : ms_push ms a None s = Ok (ms', s') →
  ∃ a' pt', area_map a (page_table ms) s = Ok ((a', pt'), s') ∧ ms' = mkMS pt' (areas ms ++ [a']).
Proof.
  intros H. unfold ms_push in H. apply bind_inv in H as ([a' pt'] & s1 & Hr & H). injection H as <- <-. by exists a', pt'.
Qed.

(** *** The part of a space that owns frames

    The kernel's own space also has areas mapped to the frames of the same
    number, which own nothing. *)
Definition framed_part (ms : MemorySet) : MemorySet := mkMS (page_table ms) (filter (λ a, map_type a = Framed) (areas ms)).
Lemma push_framed_part l0 ms a s ms1 s' :
  ms_push (framed_part ms) a None s = Ok (ms1, s') → space_ok l0 ms1 s' →
  ∃ ms', ms_push ms a None s = Ok (ms', s') ∧ framed_part ms' = ms1.
Proof.
  intros Hr Hsp. destruct (ms_push_area _ _ _ _ _ Hr) as (a' & pt' & Hm & ->). exists (mkMS pt' (areas ms ++ [a'])). split.
  - unfold ms_push. by rewrite (M_bind_Ok _ _ _ _ _ Hm).
  - unfold framed_part. cbn [page_table areas]. rewrite filter_app. do 2 f_equal.
    rewrite filter_cons_True; [done|]. apply (sp_area _ _ _ Hsp). cbn. apply elem_of_app. right. by left.
Qed.

Lemma insert_framed_part l0 ms start_va end_va perm s ms1 s' :
  insert_framed_area (framed_part ms) start_va end_va perm s = Ok (ms1, s') → space_ok l0 ms1 s' →
  ∃ ms', insert_framed_area ms start_va end_va perm s = Ok (ms', s') ∧ framed_part ms' = ms1.
Proof.
  unfold insert_framed_area. intros (a & s1 & [Ha ->]%lift_inv & Hr)%bind_inv Hsp. rewrite Ha.
  destruct (push_framed_part l0 ms a s ms1 s' Hr Hsp) as (ms' & Hr' & He). by exists ms'.
Qed.

Lemma ms_push_conflict l0 k ms s rg perm v :
  space_ok l0 ms s → perm_ok perm → 0 ≤ range_l rg → range_r rg ≤ 2 ^ 27 →
  v ∈ range_pages rg → pt_map s ms v ≠ None →
  nfree (3 * length (range_pages rg) + k) (fa s) →
  ms_push ms (mkArea rg ∅ Framed perm) None s = Err Panicked.
Proof.
  intros Hsp Hp Hl Hr Hv Hm Hnf. unfold ms_push. apply M_bind_Err.
  apply (map_pages_conflict l0 k); try done; [apply Hsp|apply NoDup_seqZ| |by exists v].
  intros w Hw. split; [|done]. unfold range_pages, get_start, get_end in Hw. simpl in Hw.
  apply elem_of_seqZ in Hw. lia.
Qed.

Lemma insert_framed_area_spec l0 k ms s start_va end_va perm :
  space_ok l0 ms s → perm_ok perm → 0 ≤ start_va → floor start_va ≤ ceil end_va → 0 ≤ end_va < 2 ^ 39 →
  let rg := mkRange (floor start_va) (ceil end_va) in
  nfree (3 * length (range_pages rg) + k) (fa s) →
  ((∀ v, v ∈ range_pages rg → pt_map s ms v = None) →
   ∃ ms' s', insert_framed_area ms start_va end_va perm s = Ok (ms', s') ∧
     space_ok l0 ms' s' ∧ area_added l0 ms s rg perm ms' s' ∧ nfree k (fa s')) ∧
  ((∃ v, v ∈ range_pages rg ∧ pt_map s ms v ≠ None) →
   insert_framed_area ms start_va end_va perm s = Err Panicked).
Proof.
  intros Hsp Hp Hs Hle He rg Hnf.
  assert (area_new start_va end_va Framed perm = Ok (mkArea rg ∅ Framed perm)) as Ha.
  { unfold area_new, range_new. by rewrite (proj2 (Z.leb_le _ _)). }
  assert (0 ≤ range_l rg ∧ range_r rg ≤ 2 ^ 27) as [Hl Hr].
  { subst rg. simpl. rewrite ceil_eq by (unfold PAGE_SIZE; lia). unfold floor, PAGE_SIZE. dlia. }
  unfold insert_framed_area. rewrite Ha. split.
  - intros Hv. by apply ms_push_framed.
  - intros (v & Hv & Hm). by apply (ms_push_conflict l0 k ms s rg perm v).
Qed.

(** Mapping a framed area.  With frames available, [insert_framed_area] maps
    every page of the range to a fresh cleared frame of its own with the given
    permissions, leaves every other page and every frame in use as it was, and
    keeps the invariant of the space; if any page of the range is already
    mapped it panics. *)
Theorem insert_framed_area_correct l0 k ms s start_va end_va perm :
  space_ok l0 ms s → perm_ok perm → 0 ≤ start_va → floor start_va ≤ ceil end_va → 0 ≤ end_va < 2 ^ 39 →
  let rg := mkRange (floor start_va) (ceil end_va) in
  nfree (3 * length (range_pages rg) + k) (fa s) →
  ((∀ v, v ∈ range_pages rg → pt_map s ms v = None) →
   ∃ ms' s', insert_framed_area ms start_va end_va perm s = Ok (ms', s') ∧
     space_ok l0 ms' s' ∧ area_added l0 ms s rg perm ms' s' ∧ nfree k (fa s')) ∧
  ((∃ v, v ∈ range_pages rg ∧ pt_map s ms v ≠ None) →
   insert_framed_area ms start_va end_va perm s = Err Panicked).
Proof. apply insert_framed_area_spec. Qed.

(** ** Removing an area *)

(** The position in the original list of the [j]-th element left after removing
    the [i]-th. *)
Definition skip (i j : nat) : nat := if decide (j < i)%nat then j else S j.
Lemma delete_lookup_inv {A} (l : list A) i j x :
  delete i l !! j = Some x → l !! skip i j = Some x ∧ skip i j ≠ i.
Proof.
  unfold skip. case_decide.
  - rewrite list_lookup_delete_lt by done. split; [done|lia].
  - rewrite list_lookup_delete_ge by lia. split; [done|lia].
Qed.

(** The frames that satisfy [P] have been given back and nothing else. *)
Definition released (l0 : Z) (s s' : kmem) (P : Z → Prop) : Prop :=
  fa_wf l0 (fa s') ∧ ∀ k, is_allocated l0 (fa s') k ↔ is_allocated l0 (fa s) k ∧ ¬ P k.

Lemma unmap_pages_spec l0 vs a pt s :
  pt_inv l0 pt s → map_type a = Framed → NoDup vs →
  (∀ v, v ∈ vs → 0 ≤ v < 2 ^ 27 ∧ mapping (mem s) (root_ppn pt) v ≠ None ∧
     ∃ f, data_frames a !! v = Some f ∧ is_allocated l0 (fa s) f ∧ f ∉ frames pt) →
  (∀ v w f, v ∈ vs → w ∈ vs → data_frames a !! v = Some f → data_frames a !! w = Some f → v = w) →
  ∃ df s', unmap_pages vs a pt s = Ok (set_frames a df, s') ∧ pt_inv l0 pt s' ∧
    released l0 s s' (λ k, ∃ v, v ∈ vs ∧ data_frames a !! v = Some k) ∧
    (∀ w, 0 ≤ w < 2 ^ 27 → mapping (mem s') (root_ppn pt) w =
       if decide (w ∈ vs) then None else mapping (mem s) (root_ppn pt) w) ∧
    (∀ k, k ∉ frames pt → mem s' !! k = mem s !! k) ∧
    (∀ w, df !! w = if decide (w ∈ vs) then None else data_frames a !! w).
Proof.
  intros Hinv Ht Hnd. revert a s Hinv Ht.
  induction Hnd as [|v vs Hv Hnd IH]; intros a s Hinv Ht Hvs Hinj.
  { exists (data_frames a), s. split; [by destruct a|]. split_and!; try done.
    split; [apply Hinv|]. intros k. split; [|tauto]. intros Hk. split; [done|]. intros (v & ? & _). set_solver. }
  destruct (Hvs v) as (Hvr & Hvm & f & Hf & Hfal & Hff); [by left|].
  destruct (dealloc_allocated l0 _ (inv_fa _ _ _ Hinv) f Hfal) as (a1 & Hd & Hwf1 & Hal1 & Hfree1).
  set (s1 := mkMem a1 (mem s)).
  destruct (table_frame l0 pt s s1) as [Hinv1 _]; [done|done|done| |].
  { intros n Hn. apply Hal1. split; [by apply (inv_owned _ _ _ Hinv)|]. intros ->. done. }
  pose proof (unmap_correct l0 pt v s1 Hinv1 Hvr) as Hu. simpl in Hu.
  destruct (mapping (mem s) (root_ppn pt) v) as [e|] eqn:Hme; [|done].
  destruct Hu as (s2 & Hu & Hinv2 & Hfa2 & Hm2 & Hmem2). simpl in Hfa2, Hm2, Hmem2.
  set (a' := set_frames a (delete v (data_frames a))).
  assert (∀ w, w ∈ vs → delete v (data_frames a) !! w = data_frames a !! w) as Hdel.
  { intros w Hw. apply lookup_delete_ne. intros ->. done. }
  destruct (IH a' s2) as (df & s' & Hr & Hinv' & [Hwf' Hal'] & Hm' & Hmem' & Hdf); try done.
  { intros w Hw. destruct (Hvs w) as (Hwr & Hwm & g & Hg & Hgal & Hgf); [by right|].
    split; [done|]. rewrite Hm2 by done. rewrite decide_False by (intros ->; done). split; [done|].
    exists g. split_and!; [simpl; by rewrite Hdel| |done]. rewrite Hfa2. apply Hal1. split; [done|].
    intros ->. assert (w = v) as -> by (eapply Hinj; [by right|by left|done|done]). done. }
  { intros w x g Hw Hx. simpl. rewrite !Hdel by done. apply Hinj; by right. }
  exists df, s'. split.
  { cbn [unmap_pages]. rewrite (M_bind_Ok _ _ s a' s2); [done|]. unfold unmap_one. rewrite Ht.
    rewrite (M_bind_Ok _ _ s a' s1).
    - by rewrite (M_bind_Ok _ _ _ _ _ Hu).
    - rewrite Hf. cbn [drop_opt]. rewrite (M_bind_Ok _ _ s () s1); [done|]. unfold frame_dealloc. by rewrite Hd. }
  split_and!; [done|split; [done|]|..].
  - intros k. rewrite Hal', Hfa2, Hal1. split.
    + intros [[Hk Hkf] Hn]. split; [done|]. intros (w & [->|Hw]%elem_of_cons & Hwk); [congruence|].
      apply Hn. exists w. simpl. by rewrite Hdel.
    + intros [Hk Hn]. split_and!; [done| |].
      * intros ->. apply Hn. exists v. split; [by left|done].
      * intros (w & Hw & Hwk). apply Hn. exists w. split; [by right|]. simpl in Hwk. by rewrite Hdel in Hwk.
  - intros w Hw. rewrite Hm' by done. destruct (decide (w ∈ vs)) as [Hin|Hnin].
    + by rewrite decide_True by (by right).
    + rewrite Hm2 by done. destruct (decide (w = v)) as [->|Hne]; [by rewrite decide_True by (by left)|].
      rewrite decide_False; [done|]. by intros [?|?]%elem_of_cons.
  - intros k Hk. rewrite Hmem', Hmem2 by done. done.
  - intros w. rewrite Hdf. destruct (decide (w ∈ vs)) as [Hin|Hnin].
    + by rewrite decide_True by (by right).
    + simpl. destruct (decide (w = v)) as [->|Hne].
      * rewrite lookup_delete_eq. by rewrite decide_True by (by left).
      * rewrite lookup_delete_ne by done. rewrite decide_False; [done|]. by intros [?|?]%elem_of_cons.
Qed.

Lemma remove_area_spec l0 ms s start_vpn idx a :
  space_ok l0 ms s → areas ms !! idx = Some a → get_start (vpn_range a) = start_vpn →
  (∀ j b, areas ms !! j = Some b → get_start (vpn_range b) = start_vpn → (idx ≤ j)%nat) →
  ∃ s', let ms' := mkMS (page_table ms) (delete idx (areas ms)) in
    remove_area_with_start_vpn ms start_vpn s = Ok (ms', s') ∧ space_ok l0 ms' s' ∧
    released l0 s s' (λ k, ∃ v, data_frames a !! v = Some k) ∧
    (∀ v, 0 ≤ v < 2 ^ 27 → pt_map s' ms' v = if decide (v ∈ pages_of a) then None else pt_map s ms v) ∧
    (∀ k, k ∉ frames (page_table ms) → mem s' !! k = mem s !! k).
Proof.
  intros Hsp Hidx Hst Hfirst. pose proof Hsp as [Hpt Har Hpg Hinj Hdis].
  assert (a ∈ areas ms) as Hain by (by eapply list_elem_of_lookup_2). pose proof (Har a Hain) as Hao.
  destruct (unmap_pages_spec l0 (pages_of a) a (page_table ms) s) as
    (df & s' & Hr & Hinv' & [Hwf' Hal'] & Hm & Hmem & Hdf); [done|apply Hao|apply NoDup_pages|..].
  { intros v Hv. destruct (Hpg a v Hain Hv) as (f & pg & D & A & N & _ & _ & M).
    split; [by eapply pages_of_range|]. split; [by rewrite M|]. by exists f. }
  { intros v w f _ _. by apply (Hinj a a). }
  assert (df = ∅) as ->.
  { apply map_eq. intros w. rewrite Hdf, lookup_empty. case_decide as Hw; [done|].
    apply eq_None_not_Some. intros ?%(ao_dom _ Hao). done. }
  exists s'. simpl. split_and!.
  - unfold remove_area_with_start_vpn.
    assert (list_find (λ a, get_start (vpn_range a) = start_vpn) (areas ms) = Some (idx, a)) as ->.
    { apply list_find_Some. split_and!; [done|done|]. intros j b Hb Hj Hs. specialize (Hfirst j b Hb Hs). lia. }
    rewrite (M_bind_Ok _ _ _ _ _ Hr). reflexivity.
  - split; simpl.
    + done.
    + intros b Hb. apply Har. by eapply list_elem_of_delete_inv.
    + intros b v Hb Hv. apply list_elem_of_lookup in Hb as [j Hj].
      apply delete_lookup_inv in Hj as [Hj' Hne].
      assert (b ∈ areas ms) as Hb by (by eapply list_elem_of_lookup_2).
      destruct (Hpg b v Hb Hv) as (f & pg & D & A & N & P & O & M). exists f, pg. split_and!; try done.
      * apply Hal'. split; [done|]. intros (w & Hw & Hf).
        assert (v = w) as <- by (by eapply (Hinj b a)). destruct Hne. by eapply (Hdis _ _ b a v).
      * by rewrite Hmem.
      * rewrite Hm by (by eapply pages_of_range; [apply Har|]). rewrite decide_False; [done|].
        intros Hva. destruct Hne. by eapply (Hdis _ _ b a v).
    + intros b c v w f Hb%list_elem_of_delete_inv Hc%list_elem_of_delete_inv. by apply Hinj.
    + intros i j b c v [Hi _]%delete_lookup_inv [Hj _]%delete_lookup_inv Hbv Hcv.
      pose proof (Hdis _ _ b c v Hi Hj Hbv Hcv). unfold skip in *. repeat case_decide; lia.
  - split; [done|]. intros k. rewrite Hal'. split; intros [Hk Hn]; (split; [done|]).
    + intros (v & Hv). apply Hn. exists v. split; [|done]. apply (ao_dom _ Hao). by eexists.
    + intros (v & _ & Hv). apply Hn. by exists v.
  - intros v Hv. by apply Hm.
  - done.
Qed.

(** Removing an area.  [remove_area_with_start_vpn] takes out the first area
    that starts at the given page: its pages become unmapped, its frames are
    given back, every other page of the space keeps its entry and contents, and
    the invariant holds of what remains. *)
Theorem remove_area_correct l0 ms s start_vpn idx a :
  space_ok l0 ms s → areas ms !! idx = Some a → get_start (vpn_range a) = start_vpn →
  (∀ j b, areas ms !! j = Some b → get_start (vpn_range b) = start_vpn → (idx ≤ j)%nat) →
  ∃ s', let ms' := mkMS (page_table ms) (delete idx (areas ms)) in
    remove_area_with_start_vpn ms start_vpn s = Ok (ms', s') ∧ space_ok l0 ms' s' ∧
    released l0 s s' (λ k, ∃ v, data_frames a !! v = Some k) ∧
    (∀ v, 0 ≤ v < 2 ^ 27 → pt_map s' ms' v = if decide (v ∈ pages_of a) then None else pt_map s ms v) ∧
    (∀ k, k ∉ frames (page_table ms) → mem s' !! k = mem s !! k).
Proof. apply remove_area_spec. Qed.

(** ** Fork *)
Lemma copy_to_page s ppn src pg :
  mem s !! ppn = Some pg → length src = length pg →
  copy_to ppn src s = Ok ((), mkMem (fa s) (<[ppn := src]> (mem s))).
Proof.
  intros Hpg Hl. unfold copy_to. rewrite Hpg, (proj2 (Nat.leb_le _ _)) by lia.
  by rewrite drop_ge, app_nil_r by lia.
Qed.

(** Copying the pages [vs] from the frames [src] to the frames [dst]. *)
Lemma copy_pages_spec l0 (src dst : Z → Z) vs us ms s :
  pt_inv l0 (page_table us) s → pt_inv l0 (page_table ms) s → NoDup vs →
  (∀ v, v ∈ vs → 0 ≤ v < 2 ^ 27 ∧
     (∃ e, pt_map s us v = Some e ∧ pte_ppn e = src v) ∧ (∃ e, pt_map s ms v = Some e ∧ pte_ppn e = dst v) ∧
     dst v ∉ frames (page_table us) ∧ dst v ∉ frames (page_table ms) ∧
     (∃ pg, mem s !! src v = Some pg ∧ page_ok pg) ∧ (∃ pg, mem s !! dst v = Some pg ∧ page_ok pg)) →
  (∀ v w, v ∈ vs → w ∈ vs → dst v ≠ src w) → (∀ v w, v ∈ vs → w ∈ vs → dst v = dst w → v = w) →
  ∃ m', copy_pages vs us ms s = Ok ((), mkMem (fa s) m') ∧
    (∀ v, v ∈ vs → m' !! dst v = mem s !! src v) ∧ (∀ k, (∀ v, v ∈ vs → k ≠ dst v) → m' !! k = mem s !! k).
Proof.
  intros Hu Hc Hnd. revert s Hu Hc. induction Hnd as [|v vs Hv Hnd IH]; intros s Hu Hc Hvs Hsep Hinj.
  { exists (mem s). split; [by destruct s|]. split; [set_solver|done]. }
  destruct (Hvs v) as (Hvr & (e & Hme & Hpe) & (e' & Hme' & Hpe') & Hd1 & Hd2 & (pg & Hpg & [Hpl Hpb]) & (pg' & Hpg' & [Hpl' _]));
    [by left|].
  set (s1 := mkMem (fa s) (<[dst v := pg]> (mem s))).
  assert (∀ k, k ≠ dst v → mem s1 !! k = mem s !! k) as Hmem1 by (intros; by apply lookup_insert_ne).
  destruct (table_frame l0 (page_table us) s s1) as [Hu1 Hum]; [done|apply Hu| |apply Hu|];
    [intros n Hn; apply Hmem1; by intros ->|].
  destruct (table_frame l0 (page_table ms) s s1) as [Hc1 Hcm]; [done|apply Hc| |apply Hc|];
    [intros n Hn; apply Hmem1; by intros ->|].
  assert (∀ w, w ∈ vs → dst w ≠ dst v) as Hdne.
  { intros w Hw Heq. assert (w = v) as -> by (apply Hinj; [by right|by left|done]). done. }
  destruct (IH s1) as (m' & Hr & Hm1 & Hm2); try done.
  { intros w Hw. destruct (Hvs w) as (Hwr & He & He' & Hw1 & Hw2 & Hp1 & Hp2); [by right|].
    rewrite Hum, Hcm by done. rewrite !Hmem1; [done|by apply Hdne|].
    intros Heq. eapply (Hsep v w); [by left|by right|done]. }
  { intros x y Hx Hy. apply Hsep; by right. }
  { intros x y Hx Hy. apply Hinj; by right. }
  exists m'. split_and!.
  - cbn [copy_pages]. unfold ms_translate.
    rewrite (M_bind_Ok _ _ _ _ _ (translate_mapping _ _ _ _ _ (inv_tree _ _ _ Hu) Hvr Hme)).
    rewrite (M_bind_Ok _ _ _ e s eq_refl).
    rewrite (M_bind_Ok _ _ _ _ _ (translate_mapping _ _ _ _ _ (inv_tree _ _ _ Hc) Hvr Hme')).
    rewrite (M_bind_Ok _ _ _ e' s eq_refl), Hpe, Hpe'.
    rewrite (M_bind_Ok _ _ s pg s) by (unfold read_page; by rewrite Hpg).
    rewrite (M_bind_Ok _ _ s () s1); [done|]. eapply copy_to_page; [done|congruence].
  - intros w [->|Hw]%elem_of_cons.
    + rewrite Hm2; [|intros w Hw; by apply not_eq_sym, Hdne]. simpl. by rewrite lookup_insert_eq, Hpg.
    + rewrite Hm1 by done. apply Hmem1. intros Heq. eapply (Hsep v w); [by left|by right|done].
  - intros k Hk. rewrite Hm2; [|intros w Hw; apply Hk; by right]. apply Hmem1, Hk. by left.
Qed.

(** Page [v] of the space [us] in state [s0] has its copy in [ms]: same
    permissions, same bytes, a frame that was not in use. *)
Definition page_copied (l0 : Z) (us : MemorySet) (s0 : kmem) (ms : MemorySet) (s : kmem) (v : Z) : Prop :=
  ∃ perm f f' pg, perm_ok perm ∧ pt_map s0 us v = Some (leaf_entry perm f) ∧ pt_map s ms v = Some (leaf_entry perm f') ∧
    mem s0 !! f = Some pg ∧ mem s !! f' = Some pg ∧
    ¬ is_allocated l0 (fa s0) f' ∧ is_allocated l0 (fa s) f' ∧ f' ∉ frames (page_table ms).

(** The child [ms] under construction beside the parent. *)
Record child_ok (l0 : Z) (s0 : kmem) (ms : MemorySet) (s : kmem) : Prop := {
  ch_space : space_ok l0 ms s;
  ch_frames : ∀ k, k ∈ frames (page_table ms) → ¬ is_allocated l0 (fa s0) k;
  ch_data : ∀ a v f, a ∈ areas ms → data_frames a !! v = Some f → ¬ is_allocated l0 (fa s0) f;
  ch_alloc : ∀ k, is_allocated l0 (fa s0) k → is_allocated l0 (fa s) k;
  ch_mem : ∀ k, is_allocated l0 (fa s0) k → mem s !! k = mem s0 !! k;
}.

Lemma page_copied_extends l0 us s0 ms s ms' s' v :
  extends l0 (page_table ms) s (page_table ms') s' → pt_map s' ms' v = pt_map s ms v →
  page_copied l0 us s0 ms s v → page_copied l0 us s0 ms' s' v.
Proof.
  intros He Hm (perm & f & f' & pg & H0 & H1 & H2 & H3 & H4 & H5 & H6 & H7). exists perm, f, f', pg.
  split_and!; [done|done|by rewrite Hm|done| |done|by apply He|].
  - by rewrite (ext_mem _ _ _ _ _ He).
  - by intros [?|?]%(ext_fresh _ _ _ _ _ He).
Qed.

Lemma child_ok_extends l0 s0 ms s ms' s' :
  child_ok l0 s0 ms s → space_ok l0 ms' s' → extends l0 (page_table ms) s (page_table ms') s' →
  (∀ a, a ∈ areas ms' → a ∈ areas ms ∨ ∀ v f, data_frames a !! v = Some f → ¬ is_allocated l0 (fa s) f) →
  child_ok l0 s0 ms' s'.
Proof.
  intros [Hs Hf Hd Ha Hm] Hs' He Har. split; [done|..].
  - intros k [?|Hn]%(ext_fresh _ _ _ _ _ He); [by apply Hf|]. by intros ?%Ha.
  - intros a v f [Hin|Hn]%Har Hv; [by eapply Hd|]. intros ?%Ha. by eapply Hn.
  - intros k Hk. by apply He, Ha.
  - intros k Hk. rewrite (ext_mem _ _ _ _ _ He); [by apply Hm|by apply Ha|]. by intros ?%Hf.
Qed.

(** The parent's table read beside the child. *)
Lemma parent_table l0 us s0 ms s :
  space_ok l0 us s0 → child_ok l0 s0 ms s →
  pt_inv l0 (page_table us) s ∧ ∀ v, 0 ≤ v < 2 ^ 27 → pt_map s us v = pt_map s0 us v.
Proof.
  intros [Hpt _ _ _ _] [Hs Hf _ Ha Hm]. apply table_frame; [done|apply Hs|..].
  - intros n Hn. by apply Hm, (inv_owned _ _ _ Hpt).
  - intros n Hn. by apply Ha, (inv_owned _ _ _ Hpt).
Qed.

(** The frames of a space, and that a space depends on nothing else. *)
Definition space_owns (ms : MemorySet) (k : Z) : Prop :=
  k ∈ frames (page_table ms) ∨ ∃ a v, a ∈ areas ms ∧ data_frames a !! v = Some k.

Lemma space_owns_allocated l0 ms s k : space_ok l0 ms s → space_owns ms k → is_allocated l0 (fa s) k.
Proof.
  intros [Hpt Har Hpg _ _] [Hk|(a & v & Ha & Hv)]; [by apply Hpt|].
  destruct (Hpg a v Ha) as (f & pg & D & A & _); [apply (ao_dom _ (Har a Ha)); eauto|]. congruence.
Qed.

Lemma space_ok_frame l0 ms s s' :
  space_ok l0 ms s → fa_wf l0 (fa s') →
  (∀ k, space_owns ms k → is_allocated l0 (fa s') k ∧ mem s' !! k = mem s !! k) →
  space_ok l0 ms s' ∧ ∀ v, 0 ≤ v < 2 ^ 27 → pt_map s' ms v = pt_map s ms v.
Proof.
  intros [Hpt Har Hpg Hinj Hdis] Hfa Hk.
  destruct (table_frame l0 (page_table ms) s s') as [Hpt' Hm]; [done|done|..].
  { intros n Hn. apply Hk. by left. }
  { intros n Hn. apply Hk. by left. }
  split; [|done]. split; [done|done| |done|done].
  intros a v Ha Hv. destruct (Hpg a v Ha Hv) as (f & pg & D & A & N & P & O & M).
  destruct (Hk f) as [A' P']; [right; eauto|]. exists f, pg. split_and!; [done|done|done|by rewrite P'|done|].
  rewrite Hm; [done|]. by eapply pages_of_range; [apply Har|].
Qed.

(** A space whose table has grown outside its areas. *)
Lemma space_ok_extends l0 ms s pt' s' :
  space_ok l0 ms s → pt_inv l0 pt' s' → extends l0 (page_table ms) s pt' s' →
  (∀ a v, a ∈ areas ms → v ∈ pages_of a → mapping (mem s') (root_ppn (page_table ms)) v = pt_map s ms v) →
  space_ok l0 (mkMS pt' (areas ms)) s'.
Proof.
  intros [Hpt Har Hpg Hinj Hdis] Hpt' He Hm. split; [done|done| |done|done].
  intros a v Ha Hv. apply (page_owned_extends l0 (page_table ms) s); [done|by apply (Hm a)|by apply Hpg].
Qed.

(** Rewriting the contents of data pages keeps the invariant. *)
Lemma space_ok_contents l0 ms s m' :
  space_ok l0 ms s → (∀ k, k ∈ frames (page_table ms) → m' !! k = mem s !! k) →
  (∀ k pg, mem s !! k = Some pg → page_ok pg → ∃ pg', m' !! k = Some pg' ∧ page_ok pg') →
  space_ok l0 ms (mkMem (fa s) m') ∧
  ∀ v, 0 ≤ v < 2 ^ 27 → mapping m' (root_ppn (page_table ms)) v = pt_map s ms v.
Proof.
  intros [Hpt Har Hpg Hinj Hdis] Hk Hc.
  destruct (table_frame l0 (page_table ms) s (mkMem (fa s) m')) as [Hpt' Hm]; [done|apply Hpt|done|apply Hpt|].
  split; [|done]. split; [done|done| |done|done].
  intros a v Ha Hv. destruct (Hpg a v Ha Hv) as (f & pg & D & A & N & P & O & M).
  destruct (Hc f pg P O) as (pg' & P' & O'). exists f, pg'. split_and!; try done.
  rewrite Hm; [done|]. by eapply pages_of_range; [apply Har|].
Qed.

Section fork.
Context (l0 : Z) (us : MemorySet) (s0 : kmem) (Hus : space_ok l0 us s0).

Lemma copy_area_step k ms s a :
  child_ok l0 s0 ms s → a ∈ areas us → (∀ v, v ∈ pages_of a → pt_map s ms v = None) →
  nfree (3 * length (pages_of a) + k) (fa s) →
  ∃ ms' s1 s', ms_push ms (from_another a) None s = Ok (ms', s1) ∧
    copy_pages (pages_of a) us ms' s1 = Ok ((), s') ∧ child_ok l0 s0 ms' s' ∧
    extends l0 (page_table ms) s (page_table ms') s' ∧ nfree k (fa s') ∧
    (∃ a', areas ms' = areas ms ++ [a'] ∧ vpn_range a' = vpn_range a ∧ map_perm a' = map_perm a) ∧
    (∀ v, v ∈ pages_of a → page_copied l0 us s0 ms' s' v) ∧
    (∀ v, 0 ≤ v < 2 ^ 27 → v ∉ pages_of a → pt_map s' ms' v = pt_map s ms v).
Proof.
  intros Hch Ha Hnone Hnf. pose proof (sp_area _ _ _ Hus a Ha) as Hao.
  destruct (ms_push_framed l0 k ms s (vpn_range a) (map_perm a)) as (ms' & s1 & Hr & Hsp1 & [Har Hap Hai Hao' Hae] & Hnf1);
    [apply Hch|apply Hao|apply Hao|apply Hao|done|done|].
  assert (∀ b, b ∈ areas ms' → b ∈ areas ms ∨ ∀ v f, data_frames b !! v = Some f → ¬ is_allocated l0 (fa s) f) as Hnew.
  { destruct Har as (a' & -> & _ & _ & Hn). intros b [?| ->%list_elem_of_singleton]%elem_of_app; auto. }
  assert (child_ok l0 s0 ms' s1) as Hch1 by (by eapply child_ok_extends).
  destruct (parent_table l0 us s0 ms' s1 Hus Hch1) as [Hu1 Hum].
  assert (from_another a = mkArea (vpn_range a) ∅ Framed (map_perm a)) as Hfa
    by (unfold from_another, set_frames; by rewrite (ao_type _ Hao)).
  set (src v := default 0 (pte_ppn <$> pt_map s0 us v)). set (dst v := default 0 (pte_ppn <$> pt_map s1 ms' v)).
  assert (∀ v, v ∈ pages_of a → ∃ f f' pg, src v = f ∧ dst v = f' ∧ pt_map s0 us v = Some (leaf_entry (map_perm a) f) ∧
    pt_map s1 ms' v = Some (leaf_entry (map_perm a) f') ∧ is_allocated l0 (fa s0) f ∧ mem s0 !! f = Some pg ∧ page_ok pg ∧
    mem s1 !! f' = Some zero_page ∧ ¬ is_allocated l0 (fa s) f' ∧ is_allocated l0 (fa s1) f' ∧
    f' ∉ frames (page_table ms')) as Hpages.
  { intros v Hv. destruct (sp_page _ _ _ Hus a v Ha Hv) as (f & pg & D & A & N & P & O & M).
    destruct (Hap v Hv) as (f' & M' & Z' & N' & A' & F'). exists f, f', pg. subst src dst. simpl. rewrite M, M'. simpl.
    rewrite !leaf_entry_ppn; [|apply Hao|by eapply is_allocated_range; [apply Hsp1|]|apply Hao|by eapply is_allocated_range; [apply Hus|]].
    done. }
  destruct (copy_pages_spec l0 src dst (pages_of a) us ms' s1) as (m' & Hcp & Hm1 & Hm2);
    [done|apply Hsp1|apply NoDup_pages|..].
  { intros v Hv. pose proof (pages_of_range a v Hao Hv) as Hvr.
    destruct (Hpages v Hv) as (f & f' & pg & Hs & Hd & M & M' & A & P & O & Z' & N' & A' & F').
    rewrite Hum by done. split; [done|]. split; [eexists; split; [exact M|]; subst src; simpl; by rewrite M|].
    split; [eexists; split; [exact M'|]; subst dst; simpl; by rewrite M'|]. rewrite Hs, Hd. split_and!; [|done| |exists zero_page; split; [done|apply zero_page_ok]].
    - intros Hin. apply N', (ch_alloc _ _ _ _ Hch), (inv_owned _ _ _ (sp_pt _ _ _ Hus)), Hin.
    - exists pg. by rewrite (ch_mem _ _ _ _ Hch1). }
  { intros v w Hv Hw Heq. destruct (Hpages v Hv) as (f & f' & pg & Hs & Hd & _ & _ & _ & _ & _ & _ & N' & _).
    destruct (Hpages w Hw) as (g & g' & pg2 & Hs2 & Hd2 & _ & _ & A & _).
    apply N'. rewrite <- Hd, Heq, Hs2. by apply (ch_alloc _ _ _ _ Hch). }
  { intros v w Hv Hw Heq. destruct (Hpages v Hv) as (f & f' & pg & Hs & Hd & M & M' & _).
    destruct (Hpages w Hw) as (g & g' & pg2 & Hs2 & Hd2 & M2 & M2' & _). rewrite Hd, Hd2 in Heq. subst g'.
    by eapply Hai. }
  assert (∀ k, is_allocated l0 (fa s) k ∨ k ∈ frames (page_table ms') → m' !! k = mem s1 !! k) as Hkeep.
  { intros q Hq. apply Hm2. intros v Hv. destruct (Hpages v Hv) as (f & f' & pg & Hs & -> & M & M' & A & P & O & Z' & N' & A' & F').
    intros ->. by destruct Hq. }
  destruct (space_ok_contents l0 ms' s1 m') as [Hsp' Hmm]; [done|by auto|..].
  { intros q pg Hq Hok. destruct (decide (Exists (λ v, q = dst v) (pages_of a))) as [[v [Hv ->]]%Exists_exists|Hn].
    - destruct (Hpages v Hv) as (f & f' & pg2 & Hs & Hd & M & M' & A & P & O & _). exists pg2. split; [|done].
      rewrite Hm1, Hs by done. by rewrite (ch_mem _ _ _ _ Hch1).
    - exists pg. rewrite Hm2; [done|]. intros v Hv ->. apply Hn, Exists_exists. by exists v. }
  assert (extends l0 (page_table ms) s (page_table ms') (mkMem (fa s1) m')) as He.
  { destruct Hae as [R A F N O]. split; [done|done|done|done|]. intros q Hq Hqn. simpl.
    rewrite Hkeep by (by left). by apply O. }
  eexists ms', s1, _. rewrite Hfa. split; [done|]. split; [done|].
  split_and!; [exact (child_ok_extends l0 s0 ms s ms' _ Hch Hsp' He Hnew)|done|done| | |].
  - destruct Har as (a' & ? & ? & ? & _). by exists a'.
  - intros v Hv. destruct (Hpages v Hv) as (f & f' & pg & Hs & Hd & M & M' & A & P & O & Z' & N' & A' & F').
    exists (map_perm a), f, f', pg. simpl. rewrite Hmm by (by eapply pages_of_range). split_and!; try done; [apply Hao|..].
    + rewrite <- Hd, Hm1, Hs by done. by rewrite (ch_mem _ _ _ _ Hch1).
    + by intros ?%(ch_alloc _ _ _ _ Hch).
  - intros v Hv Hn. simpl. rewrite Hmm by done. by apply Hao'.
Qed.

Definition area_shape (a : MapArea) : SimpleRange * Z := (vpn_range a, map_perm a).
Definition total_pages (l : list MapArea) : nat := foldr (λ a n, length (pages_of a) + n)%nat 0%nat l.

Lemma copy_areas_spec k l ms s :
  child_ok l0 s0 ms s → (∀ a, a ∈ l → a ∈ areas us) →
  (∀ i j a b v, l !! i = Some a → l !! j = Some b → v ∈ pages_of a → v ∈ pages_of b → i = j) →
  (∀ a v, a ∈ l → v ∈ pages_of a → pt_map s ms v = None) → nfree (3 * total_pages l + k) (fa s) →
  ∃ ms' s', copy_areas l us ms s = Ok (ms', s') ∧ child_ok l0 s0 ms' s' ∧
    extends l0 (page_table ms) s (page_table ms') s' ∧ nfree k (fa s') ∧
    area_shape <$> areas ms' = (area_shape <$> areas ms) ++ (area_shape <$> l) ∧
    (∀ a v, a ∈ l → v ∈ pages_of a → page_copied l0 us s0 ms' s' v) ∧
    (∀ v, 0 ≤ v < 2 ^ 27 → (∀ a, a ∈ l → v ∉ pages_of a) → pt_map s' ms' v = pt_map s ms v).
Proof.
  revert ms s. induction l as [|a l IH]; intros ms s Hch Hl Hdis Hnone Hnf.
  { exists ms, s. split; [done|]. split_and!; [done|apply extends_refl|done|by rewrite app_nil_r|set_solver|done]. }
  assert (∀ b v, b ∈ l → v ∈ pages_of b → v ∉ pages_of a) as Hsep.
  { intros b v [j Hj]%list_elem_of_lookup Hvb Hva. by pose proof (Hdis 0%nat (S j) a b v eq_refl Hj Hva Hvb). }
  assert (∀ b v, b ∈ l → v ∈ pages_of b → 0 ≤ v < 2 ^ 27) as Hrange.
  { intros b v Hb Hv. apply (pages_of_range b v); [|done]. apply (sp_area _ _ _ Hus), Hl. by right. }
  destruct (copy_area_step (3 * total_pages l + k) ms s a) as
    (ms1 & s1 & s2 & Hpush & Hcopy & Hch1 & He1 & Hnf1 & (a' & Har & Hrg & Hpm) & Hcp1 & Hother1); [done|..].
  { apply Hl. by left. }
  { intros v Hv. apply (Hnone a); [by left|done]. }
  { eapply nfree_mono; [|done]. simpl. lia. }
  destruct (IH ms1 s2) as (ms' & s' & Hr & Hch' & He & Hnf' & Hsh & Hcp & Hother); [done|by auto using list_elem_of_further|..].
  { intros i j b c v Hi Hj Hb Hc. by pose proof (Hdis (S i) (S j) b c v Hi Hj Hb Hc) as [= ?]. }
  { intros b v Hb Hv. rewrite Hother1; [apply (Hnone b); [by right|done]|by eapply Hrange|by eapply Hsep]. }
  { done. }
  exists ms', s'. split_and!; [|done|by eapply extends_trans|done|..].
  - cbn [copy_areas]. rewrite (M_bind_Ok _ _ _ _ _ Hpush), (M_bind_Ok _ _ _ _ _ Hcopy). done.
  - rewrite Hsh, Har, fmap_app, <- app_assoc. simpl. unfold area_shape at 2. by rewrite Hrg, Hpm.
  - intros b v [->|Hb]%elem_of_cons Hv; [|by eapply Hcp].
    eapply page_copied_extends; [done| |by apply Hcp1]. apply Hother.
    + apply (pages_of_range a v); [|done]. apply (sp_area _ _ _ Hus), Hl. by left.
    + intros b Hb Hvb. by destruct (Hsep b v Hb Hvb).
  - intros v Hv Hn. rewrite Hother, Hother1; [done|done|..].
    + apply Hn. by left.
    + done.
    + intros b Hb. apply Hn. by right.
Qed.
End fork.

Definition TRAMPOLINE_VPN : Z := 2 ^ 27 - 1.

(** A new space holds the trampoline and nothing else. *)
Lemma trampoline_space l0 s k strampoline ppn :
  fa_wf l0 (fa s) → page_of_addr (phys_addr strampoline) = Ok ppn → 0 ≤ ppn < 2 ^ 44 → nfree (3 + k) (fa s) →
  ∃ ms1 s1 ms s', new_bare s = Ok (ms1, s1) ∧ map_trampoline strampoline ms1 s1 = Ok (ms, s') ∧
    child_ok l0 s ms s' ∧ areas ms = [] ∧ nfree k (fa s') ∧
    pt_map s' ms TRAMPOLINE_VPN = Some (leaf_entry (Z.lor PTE_R PTE_X) ppn) ∧
    (∀ v, 0 ≤ v < 2 ^ 27 → v ≠ TRAMPOLINE_VPN → pt_map s' ms v = None).
Proof.
  intros Hfa Hst Hppn Hnf.
  destruct (pt_new_correct l0 (2 + k) s) as (pt & s1 & Hnew & Hinv1 & Hnf1 & Hempty & He1); [done|done|].
  pose proof (map_correct l0 k pt TRAMPOLINE_VPN ppn (Z.lor PTE_R PTE_X) s1 Hinv1) as Hm.
  rewrite Hempty in Hm. destruct Hm as (pt2 & s2 & Hmap & Hinv2 & He2 & Hm2 & Hnf2); [unfold TRAMPOLINE_VPN; lia|done|done|done|].
  pose proof (extends_trans _ _ _ _ _ _ _ He1 He2) as He.
  exists (mkMS pt []), s1, (mkMS pt2 []), s2. split_and!.
  - unfold new_bare. by rewrite (M_bind_Ok _ _ _ _ _ Hnew).
  - unfold map_trampoline. rewrite (M_bind_Ok _ _ s1 TRAMPOLINE_VPN s1) by (vm_compute; reflexivity).
    rewrite Hst, (M_bind_Ok _ _ s1 ppn s1 eq_refl). by rewrite (M_bind_Ok _ _ _ _ _ Hmap).
  - destruct He as [_ A _ N O]. split.
    + split; simpl; [done|by intros ? ?%elem_of_nil|by intros ? ? ?%elem_of_nil|by intros ? ? ? ? ? ?%elem_of_nil|done].
    + intros n Hn. apply N in Hn as [?|?]; [set_solver|done].
    + by intros ? ? ? ?%elem_of_nil.
    + done.
    + intros n Hn. apply O; [done|set_solver].
  - done.
  - done.
  - simpl. rewrite (ext_root _ _ _ _ _ He2), Hm2 by (unfold TRAMPOLINE_VPN; lia). by rewrite decide_True.
  - intros v Hv Hne. simpl. rewrite (ext_root _ _ _ _ _ He2), Hm2 by done. rewrite decide_False by done. apply Hempty.
Qed.

Lemma from_existed_user_spec l0 us s k strampoline ppn :
  space_ok l0 us s → (∀ a, a ∈ areas us → TRAMPOLINE_VPN ∉ pages_of a) →
  page_of_addr (phys_addr strampoline) = Ok ppn → 0 ≤ ppn < 2 ^ 44 →
  nfree (3 + 3 * total_pages (areas us) + k) (fa s) →
  ∃ child s', from_existed_user strampoline us s = Ok (child, s') ∧ space_ok l0 child s' ∧
    area_shape <$> areas child = area_shape <$> areas us ∧
    (∀ a v, a ∈ areas us → v ∈ pages_of a → page_copied l0 us s child s' v) ∧
    pt_map s' child TRAMPOLINE_VPN = Some (leaf_entry (Z.lor PTE_R PTE_X) ppn) ∧
    (∀ v, 0 ≤ v < 2 ^ 27 → v ≠ TRAMPOLINE_VPN → (∀ a, a ∈ areas us → v ∉ pages_of a) → pt_map s' child v = None) ∧
    child_ok l0 s child s' ∧ nfree k (fa s').
Proof.
  intros Hus Htr Hst Hppn Hnf.
  destruct (trampoline_space l0 s (3 * total_pages (areas us) + k) strampoline ppn) as
    (ms1 & s1 & ms2 & s2 & Hnew & Hmap & Hch & Hem & Hnf2 & Htramp & Hnone); [apply Hus|done..|].
  destruct (copy_areas_spec l0 us s Hus k (areas us) ms2 s2) as
    (child & s' & Hr & Hch' & He' & Hnf' & Hsh & Hcp & Hother); [done|done|apply Hus| |done|].
  { intros a v Ha Hv. apply Hnone; [by eapply pages_of_range; [apply (sp_area _ _ _ Hus)|]|].
    intros ->. by destruct (Htr a Ha). }
  exists child, s'. split_and!.
  - unfold from_existed_user. by rewrite (M_bind_Ok _ _ _ _ _ Hnew), (M_bind_Ok _ _ _ _ _ Hmap).
  - apply Hch'.
  - by rewrite Hsh, Hem.
  - done.
  - rewrite Hother; [done|unfold TRAMPOLINE_VPN; lia|done].
  - intros v Hv Hne Hn. rewrite Hother by done. by apply Hnone.
  - done.
  - done.
Qed.

(** Fork.  With enough free frames, [from_existed_user] succeeds on any user
    space that satisfies the invariant.  The child has the same areas with the
    same permissions; each of their pages is mapped to a frame that was free
    before and holds a copy of the parent's page; the trampoline is mapped and
    nothing else is; the child satisfies the invariant, and no frame in use
    before the fork, the parent's table and pages included, has changed. *)
Theorem from_existed_user_correct l0 us s k strampoline ppn :
  space_ok l0 us s → (∀ a, a ∈ areas us → TRAMPOLINE_VPN ∉ pages_of a) →
  page_of_addr (phys_addr strampoline) = Ok ppn → 0 ≤ ppn < 2 ^ 44 →
  nfree (3 + 3 * total_pages (areas us) + k) (fa s) →
  ∃ child s', from_existed_user strampoline us s = Ok (child, s') ∧ space_ok l0 child s' ∧
    area_shape <$> areas child = area_shape <$> areas us ∧
    (∀ a v, a ∈ areas us → v ∈ pages_of a → page_copied l0 us s child s' v) ∧
    pt_map s' child TRAMPOLINE_VPN = Some (leaf_entry (Z.lor PTE_R PTE_X) ppn) ∧
    (∀ v, 0 ≤ v < 2 ^ 27 → v ≠ TRAMPOLINE_VPN → (∀ a, a ∈ areas us → v ∉ pages_of a) → pt_map s' child v = None) ∧
    (∀ n, is_allocated l0 (fa s) n → is_allocated l0 (fa s') n ∧ mem s' !! n = mem s !! n).
Proof.
  intros Hus Htr Hst Hp Hnf.
  destruct (from_existed_user_spec l0 us s k strampoline ppn Hus Htr Hst Hp Hnf)
    as (child & s' & Hr & Hsp & Hsh & Hcp & Ht & Hn & Hch & _).
  exists child, s'. split_and!; try done. intros n Hn'. split; [by apply (ch_alloc _ _ _ _ Hch)|by apply (ch_mem _ _ _ _ Hch)].
Qed.

(** ** A space with one area of two pages, built from the fresh machine *)
Module SpaceDemo.
Definition dummy : MemorySet := mkMS (mkPT 0 []) [].
Definition run {A} (c : M kmem A) (s : kmem) (d : A) : A * kmem := match c s with Ok r => r | Err _ => (d, s) end.
Definition bare : MemorySet * kmem := run new_bare boot_mem dummy.
Definition rw_u : Z := Z.lor (Z.lor MP_R MP_W) MP_U.
Definition one : MemorySet * kmem := run (insert_framed_area bare.1 0x1000 0x3000 rw_u) bare.2 dummy.
Definition the_area : MapArea := default (mkArea (mkRange 0 0) ∅ Framed 0) (areas one.1 !! 0%nat).

Lemma bare_ok : space_ok 5 bare.1 bare.2 ∧ (∀ v, pt_map bare.2 bare.1 v = None) ∧ nfree 99 (fa bare.2).
Proof.
  destruct (pt_new_correct 5 99 boot_mem) as (pt & s & Hnew & Hinv & Hnf & Hempty & _).
  { apply boot_mem_wf. }
  { apply (boot_mem_free 100). lia. }
  unfold bare, run, new_bare. rewrite (M_bind_Ok _ _ _ _ _ Hnew). simpl. split_and!; [|done|done].
  split; simpl; [done|by intros ? ?%elem_of_nil|by intros ? ? ?%elem_of_nil|by intros ? ? ? ? ? ?%elem_of_nil|done].
Qed.

Lemma one_ok : space_ok 5 one.1 one.2 ∧ nfree 93 (fa one.2).
Proof.
  destruct bare_ok as (Hsp & Hempty & Hnf).
  destruct (ms_push_framed 5 93 bare.1 bare.2 (mkRange 1 3) rw_u) as (ms' & s' & Hr & Hsp' & _ & Hnf');
    [exact Hsp|split; [discriminate|reflexivity]|simpl; lia|simpl; lia|intros v _; apply Hempty|exact Hnf|].
  unfold one, run. change (insert_framed_area bare.1 0x1000 0x3000 rw_u bare.2) with
    (ms_push bare.1 (mkArea (mkRange 1 3) ∅ Framed rw_u) None bare.2). by rewrite Hr.
Qed.

Lemma insert_framed_area_correct_witness :
  ∃ ms' s', insert_framed_area bare.1 0x1000 0x3000 rw_u bare.2 = Ok (ms', s') ∧
    space_ok 5 ms' s' ∧ area_added 5 bare.1 bare.2 (mkRange 1 3) rw_u ms' s' ∧ nfree 90 (fa s').
Proof.
  destruct bare_ok as (Hsp & Hempty & Hnf).
  apply (insert_framed_area_correct 5 90 bare.1 bare.2 0x1000 0x3000 rw_u).
  - exact Hsp.
  - split; [discriminate|reflexivity].
  - lia.
  - discriminate.
  - lia.
  - eapply nfree_mono; [|exact Hnf]. apply Nat.leb_le. reflexivity.
  - intros v _. apply Hempty.
Defined.

Lemma remove_area_correct_witness :
  ∃ s', remove_area_with_start_vpn one.1 1 one.2 = Ok (mkMS (page_table one.1) [], s') ∧
    ∀ v, 0 ≤ v < 2 ^ 27 → mapping (mem s') (root_ppn (page_table one.1)) v =
      if decide (v ∈ pages_of the_area) then None else pt_map one.2 one.1 v.
Proof.
  destruct (remove_area_correct 5 one.1 one.2 1 0 the_area) as (s' & Hr & _ & _ & Hm & _).
  - apply one_ok.
  - vm_compute. reflexivity.
  - vm_compute. reflexivity.
  - intros. lia.
  - exists s'. split; [exact Hr|exact Hm].
Defined.

Lemma from_existed_user_correct_witness :
  ∃ child s', from_existed_user 0x80200000 one.1 one.2 = Ok (child, s') ∧ space_ok 5 child s' ∧
    page_copied 5 one.1 one.2 child s' 2.
Proof.
  destruct (from_existed_user_correct 5 one.1 one.2 0 0x80200000 0x80200) as (child & s' & Hr & Hsp & _ & Hcp & _).
  - apply one_ok.
  - apply Forall_forall, (bool_decide_unpack _). vm_compute. exact I.
  - vm_compute. reflexivity.
  - lia.
  - eapply nfree_mono; [|apply one_ok]. apply Nat.leb_le. vm_compute. reflexivity.
  - exists child, s'. split_and!; [done|done|]. apply (Hcp the_area).
    + vm_compute. by left.
    + apply (bool_decide_unpack _). vm_compute. exact I.
Defined.

(** The forked page really is there: both spaces, run. *)
Example fork_runs :
  match from_existed_user 0x80200000 one.1 one.2 with
  | Ok (child, s') => bool_decide (pt_map s' child 2 ≠ pt_map one.2 one.1 2)
  | Err _ => false
  end = true.
Proof. vm_compute. reflexivity. Qed.
End SpaceDemo.
