(* ===== verification/Load.v ===== *)
(** * Loading a program (os/src/mm/memory_set.rs: copy_data, push, from_elf)

    The address space of a new program: every segment of its image in pages of
    its own, with the rights of the segment, and nothing else but the trampoline.
    What the ELF reader reports is the list of program headers, as in
    MemorySet.v. *)
From S2P Require Import Prelude Bytes Address FrameAllocator PageTable MemorySet AddressSpace.

(** ** The pages of a segment *)
Definition PG : nat := Z.to_nat PAGE_SIZE.
Lemma PG_eq : Z.of_nat PG = PAGE_SIZE.
Proof. done. Qed.
Lemma PG_pos : (0 < PG)%nat.
Proof. unfold PG, PAGE_SIZE. lia. Qed.
#[local] Opaque PG.

(** Page [j] of the bytes [data], filled up with zeros. *)
Definition page_at (data : list Z) (j : nat) : page :=
  let c := take PG (drop (PG * j) data) in c ++ drop (length c) zero_page.

Lemma length_zero_page : length zero_page = PG.
Proof. apply length_replicate. Qed.
Lemma page_at_ok data j : Forall is_byte data → page_ok (page_at data j).
Proof.
  intros Hd. unfold page_at. set (c := take PG (drop (PG * j) data)). destruct zero_page_ok as [_ Hz].
  assert (length c ≤ PG)%nat by (unfold c; rewrite length_take; lia). split.
  - rewrite length_app, length_drop, length_zero_page. change (Z.to_nat PAGE_SIZE) with PG. lia.
  - apply Forall_app. split; [by apply Forall_take, Forall_drop|by apply Forall_drop].
Qed.
Lemma page_at_end data j : (length data ≤ PG * j)%nat → page_at data j = zero_page.
Proof. intros H. unfold page_at. rewrite (drop_ge data) by done. by rewrite take_nil. Qed.
(** The byte at offset [i] of the pages is byte [i] of the data, or zero. *)
Lemma page_at_byte data i : page_at data (i / PG) !! (i mod PG)%nat = Some (default 0 (data !! i)).
Proof.
  pose proof PG_pos. pose proof (Nat.div_mod i PG ltac:(lia)) as Hi. pose proof (Nat.mod_upper_bound i PG ltac:(lia)) as Hm.
  unfold page_at. set (c := take PG _). assert (c !! (i mod PG)%nat = data !! i) as Hc.
  { unfold c. rewrite lookup_take_lt by done. rewrite lookup_drop. f_equal. lia. }
  destruct (data !! i) as [b|] eqn:Hb; cbn [default].
  - rewrite lookup_app_l; [done|]. by eapply lookup_lt_Some.
  - apply lookup_ge_None in Hc. rewrite lookup_app_r by done. rewrite lookup_drop. unfold zero_page.
    apply lookup_replicate_2. change (Z.to_nat PAGE_SIZE) with PG. lia.
Qed.

(** ** [copy_data] *)
Section copy_data.
Context (a : MapArea) (data : list Z) (l : Z) (fr : nat → Z) (np : nat).
Context (Hfr : ∀ j, (j < np)%nat → data_frames a !! (l + Z.of_nat j) = Some (fr j)).
Context (Hinj : ∀ i j, (i < np)%nat → (j < np)%nat → fr i = fr j → i = j).
Context (Hl : 0 ≤ l ∧ l + Z.of_nat np ≤ 2 ^ 27) (Hlen : (length data ≤ PG * np)%nat).

Lemma copy_data_loop_spec fuel j s :
  (j < np)%nat → (j = 0 ∨ PG * j < length data)%nat → (length data < PG * (j + fuel))%nat → (0 < fuel)%nat →
  (∀ i, (j ≤ i < np)%nat → mem s !! fr i = Some zero_page) →
  ∃ m', copy_data_loop fuel a data (Z.of_nat (PG * j)) (l + Z.of_nat j) s = Ok ((), mkMem (fa s) m') ∧
    (∀ i, (j ≤ i < np)%nat → m' !! fr i = Some (page_at data i)) ∧
    (∀ k, (∀ i, (j ≤ i < np)%nat → k ≠ fr i) → m' !! k = mem s !! k).
Proof.
  revert j s. induction fuel as [|fuel IH]; intros j s Hj Hst Hf Hpos Hz; [lia|]. cbn [copy_data_loop].
  pose proof PG_eq. pose proof PG_pos. set (m1 := <[fr j := page_at data j]> (mem s)).
  assert (take (Z.to_nat (Z.min (Z.of_nat (length data)) (Z.of_nat (PG * j) + PAGE_SIZE) - Z.of_nat (PG * j))) (drop (Z.to_nat (Z.of_nat (PG * j))) data) = take PG (drop (PG * j) data)) as Hsrc.
  { rewrite Nat2Z.id. destruct (Z.min_spec (Z.of_nat (length data)) (Z.of_nat (PG * j) + PAGE_SIZE)) as [[Hlt ->]|[Hle ->]].
    - rewrite !take_ge; [done|rewrite length_drop; lia..].
    - f_equal. lia. }
  rewrite Hfr by done. rewrite (M_bind_Ok _ _ s (fr j) s) by done. rewrite Hsrc.
  rewrite (M_bind_Ok _ _ s () (mkMem (fa s) m1)).
  2: { unfold copy_to. rewrite (Hz j) by lia. rewrite (proj2 (Nat.leb_le _ _)); [done|]. rewrite length_take, length_zero_page. lia. }
  destruct (Z.leb_spec (Z.of_nat (length data)) (Z.of_nat (PG * j) + PAGE_SIZE)) as [Hend|Hmore].
  - exists m1. split; [done|]. split.
    + intros i Hi. destruct (decide (i = j)) as [->|Hne]; [apply lookup_insert_eq|].
      unfold m1. rewrite lookup_insert_ne by (intros He; apply Hne; apply Hinj; [lia|lia|done]).
      rewrite Hz by lia. by rewrite page_at_end by nia.
    + intros k Hk. unfold m1. rewrite lookup_insert_ne; [done|]. apply not_eq_sym, Hk. lia.
  - assert (step (l + Z.of_nat j) = l + Z.of_nat (S j)) as -> by (unfold step; rewrite u64_id by (unfold is_u64; lia); lia).
    replace (Z.of_nat (PG * j) + PAGE_SIZE) with (Z.of_nat (PG * S j)) by lia.
    destruct (IH (S j) (mkMem (fa s) m1)) as (m' & Hr & H1 & H2); [nia|right; lia|lia|nia| |].
    { intros i Hi. cbn. unfold m1. rewrite lookup_insert_ne by (intros He; apply Hinj in He; lia). apply Hz. lia. }
    exists m'. split; [exact Hr|]. split.
    + intros i Hi. destruct (decide (i = j)) as [->|Hne]; [|apply H1; lia].
      rewrite H2; [apply lookup_insert_eq|]. intros i Hi' He. apply Hinj in He; lia.
    + intros k Hk. rewrite H2 by (intros i Hi'; apply Hk; lia). cbn. unfold m1. rewrite lookup_insert_ne; [done|]. apply not_eq_sym, Hk. lia.
Qed.

Lemma copy_data_spec s : map_type a = Framed → get_start (vpn_range a) = l → (0 < np)%nat →
  (∀ i, (i < np)%nat → mem s !! fr i = Some zero_page) →
  ∃ m', copy_data a data s = Ok ((), mkMem (fa s) m') ∧
    (∀ i, (i < np)%nat → m' !! fr i = Some (page_at data i)) ∧ (∀ k, (∀ i, (i < np)%nat → k ≠ fr i) → m' !! k = mem s !! k).
Proof.
  intros Ht Hs Hnp Hz. pose proof PG_pos. pose proof (Nat.div_mod (length data) PG ltac:(lia)). pose proof (Nat.mod_upper_bound (length data) PG ltac:(lia)).
  destruct (copy_data_loop_spec (S (length data / PG)) 0 s) as (m' & Hr & Hin & Hout); [lia|by left|lia|lia|intros i Hi; apply Hz; lia|].
  exists m'. split; [|split; [intros i Hi; apply Hin; lia|intros k Hk; apply Hout; intros i Hi; apply Hk; lia]].
  unfold copy_data. rewrite Ht, bool_decide_true by done. rewrite (M_bind_Ok _ _ s () s) by done. rewrite Hs.
  replace (Z.of_nat (PG * 0)) with 0 in Hr by lia. rewrite Z.add_0_r in Hr. exact Hr.
Qed.
End copy_data.

(** ** A segment in its pages *)
Definition page_loaded (l0 : Z) (ms : MemorySet) (s : kmem) (v perm : Z) (pg : page) : Prop :=
  ∃ f, pt_map s ms v = Some (leaf_entry perm f) ∧ mem s !! f = Some pg ∧ is_allocated l0 (fa s) f ∧ f ∉ frames (page_table ms).
Lemma page_loaded_extends l0 ms s ms' s' v perm pg :
  extends l0 (page_table ms) s (page_table ms') s' → pt_map s' ms' v = pt_map s ms v →
  page_loaded l0 ms s v perm pg → page_loaded l0 ms' s' v perm pg.
Proof.
  intros He Hm (f & M & P & A & N). exists f. split_and!; [by rewrite Hm|by rewrite (ext_mem _ _ _ _ _ He)|by apply He|].
  by intros [?|?]%(ext_fresh _ _ _ _ _ He).
Qed.

Section push_data.
Context (l0 : Z) (s0 : kmem).
Lemma ms_push_data k ms s rg perm data :
  child_ok l0 s0 ms s → perm_ok perm → 0 ≤ range_l rg → range_l rg < range_r rg → range_r rg ≤ 2 ^ 27 →
  (∀ v, v ∈ range_pages rg → pt_map s ms v = None) → Forall is_byte data →
  Z.of_nat (length data) ≤ PAGE_SIZE * (range_r rg - range_l rg) → nfree (3 * length (range_pages rg) + k) (fa s) →
  ∃ ms' s' a', ms_push ms (mkArea rg ∅ Framed perm) (Some data) s = Ok (ms', s') ∧ child_ok l0 s0 ms' s' ∧
    extends l0 (page_table ms) s (page_table ms') s' ∧ nfree k (fa s') ∧
    areas ms' = areas ms ++ [a'] ∧ area_shape a' = (rg, perm) ∧
    (∀ j, Z.of_nat j < range_r rg - range_l rg → page_loaded l0 ms' s' (range_l rg + Z.of_nat j) perm (page_at data j)) ∧
    (∀ v, 0 ≤ v < 2 ^ 27 → v ∉ range_pages rg → pt_map s' ms' v = pt_map s ms v).
Proof.
  intros Hch Hp Hl Hlr Hr Hnone Hb Hlen Hnf.
  destruct (ms_push_framed l0 k ms s rg perm) as (ms' & s1 & Hrun & Hsp & [Har Hap Hai Hot Hae] & Hnf1); [apply Hch|done..|].
  destruct (ms_push_area _ _ _ _ _ Hrun) as (a' & pt' & Hmap & ->). destruct Har as (b & Hab & Hrg & Hperm & Hnew).
  apply app_inj_tail in Hab as [_ <-]. set (ms' := mkMS pt' (areas ms ++ [a'])) in *.
  assert (a' ∈ areas ms') as Hin by (cbn; apply elem_of_app; right; by left).
  set (np := Z.to_nat (range_r rg - range_l rg)). set (fr j := default 0 (data_frames a' !! (range_l rg + Z.of_nat j))).
  assert (∀ v, v ∈ range_pages rg ↔ range_l rg ≤ v < range_r rg) as Hpg.
  { intros v. unfold range_pages, get_start, get_end. rewrite elem_of_seqZ. lia. }
  assert (∀ j, (j < np)%nat → data_frames a' !! (range_l rg + Z.of_nat j) = Some (fr j) ∧
    pt_map s1 ms' (range_l rg + Z.of_nat j) = Some (leaf_entry perm (fr j)) ∧ mem s1 !! fr j = Some zero_page ∧
    ¬ is_allocated l0 (fa s) (fr j) ∧ is_allocated l0 (fa s1) (fr j) ∧ fr j ∉ frames (page_table ms')) as Hfr.
  { intros j Hj. assert (range_l rg + Z.of_nat j ∈ range_pages rg) as Hv by (apply Hpg; unfold np in Hj; lia).
    destruct (sp_page _ _ _ Hsp a' _ Hin ltac:(unfold pages_of; by rewrite Hrg)) as (f & pg & D & A & N & _ & _ & M).
    destruct (Hap _ Hv) as (f' & M' & Z' & N' & A' & F'). rewrite Hperm in M.
    assert (f' = f) as ->.
    { assert (leaf_entry perm f' = leaf_entry perm f) as He by (change (pt_map s1 ms' (range_l rg + Z.of_nat j) = Some (leaf_entry perm f)) in M; congruence).
      apply (f_equal pte_ppn) in He. by rewrite !leaf_entry_ppn in He by (done || (by eapply is_allocated_range; [apply Hsp|])). }
    unfold fr. rewrite D. done. }
  assert (∀ i j, (i < np)%nat → (j < np)%nat → fr i = fr j → i = j) as Hinj.
  { intros i j Hi Hj He. destruct (Hfr i Hi) as (Di & _), (Hfr j Hj) as (Dj & _). rewrite He in Di.
    pose proof (sp_inj _ _ _ Hsp a' a' _ _ _ Hin Hin Di Dj). lia. }
  pose proof PG_eq. destruct (copy_data_spec a' data (range_l rg) fr np) with (s := s1) as (m' & Hcp & Hm1 & Hm2);
    [intros j Hj; by apply Hfr|done|unfold np; lia|unfold np; nia|by apply (ao_type _ (sp_area _ _ _ Hsp a' Hin))|by rewrite Hrg|unfold np; lia|intros i Hi; by apply Hfr|].
  assert (∀ q, is_allocated l0 (fa s) q ∨ q ∈ frames (page_table ms') → m' !! q = mem s1 !! q) as Hkeep.
  { intros q Hq. apply Hm2. intros i Hi ->. destruct (Hfr i Hi) as (_ & _ & _ & N & _ & F). by destruct Hq. }
  destruct (space_ok_contents l0 ms' s1 m') as [Hsp' Hmm]; [done|by auto|..].
  { intros q pg Hq Hok. destruct (decide (Exists (λ i, q = fr i) (seq 0 np))) as [(i & Hi%elem_of_seq & ->)%Exists_exists|Hn].
    - exists (page_at data i). rewrite Hm1 by lia. split; [done|by apply page_at_ok].
    - exists pg. rewrite Hm2; [done|]. intros i Hi ->. apply Hn, Exists_exists. exists i. split; [apply elem_of_seq; lia|done]. }
  assert (extends l0 (page_table ms) s (page_table ms') (mkMem (fa s1) m')) as He.
  { destruct Hae as [R A F N O]. split; [done|done|done|done|]. intros q Hq Hqn. cbn. rewrite Hkeep by (by left). by apply O. }
  exists ms', (mkMem (fa s1) m'), a'. split.
  { unfold ms_push. rewrite (M_bind_Ok _ _ _ _ _ Hmap). by rewrite (M_bind_Ok _ _ _ _ _ Hcp). }
  split_and!; [|done|done|done|unfold area_shape; by rewrite Hrg, Hperm|..].
  - eapply child_ok_extends; [done|done|done|]. intros c [?| ->%list_elem_of_singleton]%elem_of_app; [by left|by right].
  - intros j Hj. assert (j < np)%nat as Hj' by (unfold np; lia). destruct (Hfr j Hj') as (D & M & _ & _ & A & F). exists (fr j).
    split_and!; [|by apply Hm1|done|done]. change (mapping m' (root_ppn (page_table ms')) (range_l rg + Z.of_nat j) = Some (leaf_entry perm (fr j))).
    rewrite Hmm by lia. done.
  - intros v Hv Hn. change (mapping m' (root_ppn (page_table ms')) v = pt_map s ms v). rewrite Hmm by done. by apply Hot.
Qed.
End push_data.

(** ** The segments of an image *)
Definition seg_range (ph : ProgramHeader) : SimpleRange :=
  mkRange (ph_vaddr ph / PAGE_SIZE) ((ph_vaddr ph + ph_memsz ph + PAGE_SIZE - 1) / PAGE_SIZE).
Definition seg_data (input : list Z) (ph : ProgramHeader) : list Z := slice (Z.to_nat (ph_offset ph)) (Z.to_nat (ph_filesz ph)) input.
(** A segment in the lower half of memory, whose bytes are in the image. *)
Record seg_ok (input : list Z) (ph : ProgramHeader) : Prop := {
  so_addr : 0 ≤ ph_vaddr ph ∧ 0 < ph_memsz ph ∧ ph_vaddr ph + ph_memsz ph ≤ 2 ^ 38;
  so_file : 0 ≤ ph_offset ph ∧ 0 ≤ ph_filesz ph ≤ ph_memsz ph ∧ ph_offset ph + ph_filesz ph ≤ Z.of_nat (length input);
}.
Definition load_phs (phs : list ProgramHeader) : list ProgramHeader := filter (λ ph, ph_load ph = true) phs.
Definition last_end (mx : Z) (phs : list ProgramHeader) : Z :=
  foldl (λ m ph, if ph_load ph then range_r (seg_range ph) else m) mx phs.
Definition seg_pages (phs : list ProgramHeader) : nat :=
  foldr (λ ph n, length (range_pages (seg_range ph)) + n)%nat 0%nat (load_phs phs).
Definition seg_loaded (l0 : Z) (input : list Z) (ms : MemorySet) (s : kmem) (ph : ProgramHeader) : Prop :=
  ∀ j, Z.of_nat j < range_r (seg_range ph) - range_l (seg_range ph) →
    page_loaded l0 ms s (range_l (seg_range ph) + Z.of_nat j) (ph_perm ph) (page_at (seg_data input ph) j).

Lemma ph_perm_ok ph : perm_ok (ph_perm ph).
Proof. unfold ph_perm, perm_ok. destruct (ph_r ph), (ph_w ph), (ph_x ph); vm_compute; split; discriminate || reflexivity. Qed.
Lemma seg_range_ok input ph : seg_ok input ph →
  0 ≤ range_l (seg_range ph) < range_r (seg_range ph) ∧ range_r (seg_range ph) ≤ 2 ^ 26 ∧
  ph_memsz ph ≤ PAGE_SIZE * (range_r (seg_range ph) - range_l (seg_range ph)).
Proof.
  intros [Ha _]. cbn. unfold PAGE_SIZE in *. pose proof (Z.div_mod (ph_vaddr ph) 4096 ltac:(lia)). pose proof (Z.mod_pos_bound (ph_vaddr ph) 4096 ltac:(lia)).
  set (e := ph_vaddr ph + ph_memsz ph + 4096 - 1) in *. pose proof (Z.div_mod e 4096 ltac:(lia)). pose proof (Z.mod_pos_bound e 4096 ltac:(lia)). lia.
Qed.
Lemma seg_area_new input ph : seg_ok input ph →
  area_new (virt_addr (ph_vaddr ph)) (virt_addr (u64 (ph_vaddr ph + ph_memsz ph))) Framed (ph_perm ph) = Ok (mkArea (seg_range ph) ∅ Framed (ph_perm ph)).
Proof.
  intros Hs. pose proof (seg_range_ok input ph Hs) as (Hr & _). destruct Hs as [Ha _]. rewrite u64_id by (unfold is_u64; lia). rewrite !virt_addr_id by lia.
  unfold area_new, range_new. rewrite ceil_eq by (unfold PAGE_SIZE; lia). change (floor (ph_vaddr ph)) with (range_l (seg_range ph)).
  change ((ph_vaddr ph + ph_memsz ph + PAGE_SIZE - 1) / PAGE_SIZE) with (range_r (seg_range ph)).
  rewrite (proj2 (Z.leb_le _ _)) by lia. done.
Qed.

Section load_segments.
Context (l0 : Z) (s0 : kmem) (input : list Z) (Hbytes : Forall is_byte input) (Hinput : Z.of_nat (length input) < 2 ^ 64).

Lemma load_segments_spec k phs ms s mx :
  child_ok l0 s0 ms s → (∀ ph, ph ∈ load_phs phs → seg_ok input ph) →
  (∀ i j p q v, load_phs phs !! i = Some p → load_phs phs !! j = Some q → v ∈ range_pages (seg_range p) → v ∈ range_pages (seg_range q) → i = j) →
  (∀ ph v, ph ∈ load_phs phs → v ∈ range_pages (seg_range ph) → pt_map s ms v = None) →
  nfree (3 * seg_pages phs + k) (fa s) →
  ∃ ms' s', load_segments input phs ms mx s = Ok ((ms', last_end mx phs), s') ∧ child_ok l0 s0 ms' s' ∧
    extends l0 (page_table ms) s (page_table ms') s' ∧ nfree k (fa s') ∧
    area_shape <$> areas ms' = (area_shape <$> areas ms) ++ ((λ ph, (seg_range ph, ph_perm ph)) <$> load_phs phs) ∧
    (∀ ph, ph ∈ load_phs phs → seg_loaded l0 input ms' s' ph) ∧
    (∀ v, 0 ≤ v < 2 ^ 27 → (∀ ph, ph ∈ load_phs phs → v ∉ range_pages (seg_range ph)) → pt_map s' ms' v = pt_map s ms v).
Proof.
  revert ms s mx. induction phs as [|ph phs IH]; intros ms s mx Hch Hok Hdis Hnone Hnf.
  { exists ms, s. split; [done|]. split_and!; [done|apply extends_refl|done|by rewrite app_nil_r|by intros ? ?%elem_of_nil|done]. }
  cbn [load_segments]. assert (load_phs (ph :: phs) = if ph_load ph then ph :: load_phs phs else load_phs phs) as Hph by (unfold load_phs; rewrite filter_cons; by destruct (ph_load ph)).
  unfold seg_pages in Hnf. unfold last_end. cbn [foldl]. rewrite Hph in *. destruct (ph_load ph) eqn:Hload; [clear Hph|exact (IH ms s mx Hch Hok Hdis Hnone Hnf)].
  assert (seg_ok input ph) as Hph by (apply Hok; by left). pose proof (seg_range_ok input ph Hph) as (Hrg & Hhi & Hsz). destruct (so_file _ _ Hph) as (Ho & Hf & Hof).
  rewrite (seg_area_new input ph Hph). rewrite (M_bind_Ok _ _ s (mkArea (seg_range ph) ∅ Framed (ph_perm ph)) s) by done.
  rewrite u64_id by (unfold is_u64; lia). rewrite (proj2 (Z.leb_le _ _)) by lia. rewrite (proj2 (Z.leb_le _ _)) by lia.
  rewrite (M_bind_Ok _ _ s () s) by done. replace (ph_offset ph + ph_filesz ph - ph_offset ph) with (ph_filesz ph) by lia. fold (seg_data input ph).
  assert (∀ p v, p ∈ load_phs phs → v ∈ range_pages (seg_range p) → v ∉ range_pages (seg_range ph)) as Hsep.
  { intros p v [j Hj]%list_elem_of_lookup Hvp Hva. by pose proof (Hdis 0%nat (S j) ph p v eq_refl Hj Hva Hvp). }
  assert (∀ p v, seg_ok input p → v ∈ range_pages (seg_range p) → 0 ≤ v < 2 ^ 27) as Hrange.
  { intros p v Hp Hv. pose proof (seg_range_ok input p Hp). unfold range_pages, get_start, get_end in Hv. apply elem_of_seqZ in Hv. lia. }
  destruct (ms_push_data l0 s0 (3 * seg_pages phs + k) ms s (seg_range ph) (ph_perm ph) (seg_data input ph)) as
    (ms1 & s1 & a' & Hpush & Hch1 & He1 & Hnf1 & Har & Hsh1 & Hld & Hot1); [done|apply ph_perm_ok|lia|lia|lia| | | | |].
  { intros v Hv. apply (Hnone ph); [by left|done]. }
  { by apply Forall_take, Forall_drop. }
  { unfold seg_data, slice. rewrite length_take, length_drop. unfold PAGE_SIZE in *. lia. }
  { eapply nfree_mono; [|exact Hnf]. unfold seg_pages. cbn [foldr]. lia. }
  rewrite (M_bind_Ok _ _ _ _ _ Hpush).
  destruct (IH ms1 s1 (range_r (seg_range ph))) as (ms' & s' & Hr & Hch' & He' & Hnf' & Hsh & Hld' & Hot); [done|intros p Hp; apply Hok; by right|..].
  { intros i j p q v Hi Hj Hp Hq. by pose proof (Hdis (S i) (S j) p q v Hi Hj Hp Hq) as [= ?]. }
  { intros p v Hp Hv. rewrite Hot1; [apply (Hnone p); [by right|done]|apply (Hrange p v); [apply Hok; by right|done]|by apply (Hsep p)]. }
  { done. }
  exists ms', s'. split_and!; [|done|by eapply extends_trans|done|..].
  - exact Hr.
  - rewrite Hsh, Har, fmap_app, <- app_assoc. cbn. by rewrite Hsh1.
  - intros p [->|Hp]%elem_of_cons; [|by apply Hld']. intros j Hj. eapply page_loaded_extends; [done| |by apply Hld].
    assert (range_l (seg_range ph) + Z.of_nat j ∈ range_pages (seg_range ph)) as Hin by (unfold range_pages, get_start, get_end; rewrite elem_of_seqZ; lia).
    apply Hot; [by apply (Hrange ph)|]. intros q Hq Hvq. by apply (Hsep q _ Hq Hvq).
  - intros v Hv Hn. rewrite Hot, Hot1; [done|done| |done|].
    + apply Hn. by left.
    + intros p Hp. apply Hn. by right.
Qed.
End load_segments.

(** ** The whole image *)
(** The byte at a virtual address of a space. *)
Definition user_byte (s : kmem) (ms : MemorySet) (a : Z) : option Z :=
  match pt_map s ms (a / PAGE_SIZE) with
  | Some e => match mem s !! pte_ppn e with Some pg => pg !! Z.to_nat (a mod PAGE_SIZE) | None => None end
  | None => None
  end.
(** Segments in the order of their addresses, on different pages. *)
Definition ascending (phs : list ProgramHeader) : Prop :=
  ∀ i j p q, phs !! i = Some p → phs !! j = Some q → (i < j)%nat → range_r (seg_range p) ≤ range_l (seg_range q).

Lemma ascending_disjoint input phs i j p q v :
  ascending phs → (∀ ph, ph ∈ phs → seg_ok input ph) → phs !! i = Some p → phs !! j = Some q →
  v ∈ range_pages (seg_range p) → v ∈ range_pages (seg_range q) → i = j.
Proof.
  intros Ha Hok Hi Hj Hp Hq. unfold range_pages, get_start, get_end in *. rewrite elem_of_seqZ in *.
  destruct (Nat.lt_total i j) as [Hlt|[?|Hlt]]; [|done|]; [pose proof (Ha i j p q Hi Hj Hlt)|pose proof (Ha j i q p Hj Hi Hlt)]; lia.
Qed.
Lemma last_end_load mx phs : last_end mx phs = foldl (λ _ ph, range_r (seg_range ph)) mx (load_phs phs).
Proof.
  unfold last_end, load_phs. revert mx. induction phs as [|ph phs IH]; intros mx; [done|]. rewrite filter_cons. cbn [foldl].
  destruct (ph_load ph); [rewrite decide_True by done|rewrite decide_False by done]; cbn [foldl]; apply IH.
Qed.
Lemma last_end_above input mx phs ph :
  ascending (load_phs phs) → (∀ ph, ph ∈ load_phs phs → seg_ok input ph) → ph ∈ load_phs phs → range_r (seg_range ph) ≤ last_end mx phs ≤ 2 ^ 26.
Proof.
  rewrite last_end_load. generalize (load_phs phs). intros l Ha Hok Hin. destruct (exists_last (l := l)) as (l' & q & ->); [by intros ->; apply elem_of_nil in Hin|].
  rewrite foldl_snoc. assert (q ∈ l' ++ [q]) as Hq by (apply elem_of_app; right; by left).
  pose proof (seg_range_ok input q (Hok q Hq)) as (? & ? & _). split; [|done].
  apply elem_of_app in Hin as [[i Hi]%list_elem_of_lookup| ->%list_elem_of_singleton]; [|done].
  assert (range_r (seg_range ph) ≤ range_l (seg_range q)); [|lia].
  apply (Ha i (length l')); [rewrite lookup_app_l by (by eapply lookup_lt_Some); done|by rewrite lookup_app_r, Nat.sub_diag by lia|by eapply lookup_lt_Some].
Qed.

Lemma loaded_byte l0 input ms s ph i : space_ok l0 ms s → seg_ok input ph → seg_loaded l0 input ms s ph →
  Z.of_nat i < PAGE_SIZE * (range_r (seg_range ph) - range_l (seg_range ph)) →
  user_byte s ms (PAGE_SIZE * range_l (seg_range ph) + Z.of_nat i) = Some (default 0 (seg_data input ph !! i)).
Proof.
  intros Hsp Hok Hld Hi. pose proof PG_pos as Hpos. pose proof PG_eq as HPG. pose proof (seg_range_ok input ph Hok) as (Hr & _).
  set (l := range_l (seg_range ph)) in *. assert (Z.of_nat (i / PG) = Z.of_nat i / PAGE_SIZE ∧ Z.of_nat (i mod PG) = Z.of_nat i mod PAGE_SIZE) as [Hd Hm]
    by (rewrite <- HPG; split; [apply Nat2Z.inj_div|apply Nat2Z.inj_mod]).
  assert (PAGE_SIZE * l + Z.of_nat i = Z.of_nat i + l * PAGE_SIZE) as -> by lia.
  unfold user_byte. rewrite Z.div_add, Z.mod_add by (unfold PAGE_SIZE; lia).
  destruct (Hld (i / PG)%nat) as (f & M & P & A & N).
  { rewrite Hd. fold l. apply Z.div_lt_upper_bound; unfold PAGE_SIZE in *; lia. }
  fold l in M. rewrite Hd, Z.add_comm in M. rewrite M. rewrite leaf_entry_ppn; [|apply ph_perm_ok|by eapply is_allocated_range; [apply Hsp|]].
  rewrite P, <- Hm, Nat2Z.id. apply page_at_byte.
Qed.

Section from_elf.
Context (elf_new : list Z → option Elf) (strampoline : Z) (l0 : Z) (s : kmem) (input : list Z) (elf : Elf) (ppn : Z) (k : nat).
Abbreviation segs := (load_phs (elf_phs elf)).
(** An image the kernel can load, and the frames it takes. *)
Record loadable : Prop := {
  ld_elf : elf_new input = Some elf ∧ elf_magic elf = [0x7f; 0x45; 0x4c; 0x46];
  ld_bytes : Forall is_byte input ∧ Z.of_nat (length input) < 2 ^ 64;
  ld_segs : ∀ ph, ph ∈ segs → seg_ok input ph;
  ld_order : ascending segs;
  ld_tramp : page_of_addr (phys_addr strampoline) = Ok ppn ∧ 0 ≤ ppn < 2 ^ 44;
  ld_free : fa_wf l0 (fa s) ∧ nfree (3 + (3 * seg_pages (elf_phs elf) + k)) (fa s);
}.
Lemma from_elf_spec : loadable →
  ∃ ms s', from_elf elf_new strampoline input s = Ok ((ms, PAGE_SIZE * (last_end 0 (elf_phs elf) + 1), elf_entry elf), s') ∧
    child_ok l0 s ms s' ∧ nfree k (fa s') ∧
    area_shape <$> areas ms = (λ ph, (seg_range ph, ph_perm ph)) <$> segs ∧
    (∀ ph, ph ∈ segs → seg_loaded l0 input ms s' ph) ∧
    pt_map s' ms TRAMPOLINE_VPN = Some (leaf_entry (Z.lor PTE_R PTE_X) ppn) ∧
    (∀ v, 0 ≤ v < 2 ^ 27 → v ≠ TRAMPOLINE_VPN → (∀ ph, ph ∈ segs → v ∉ range_pages (seg_range ph)) → pt_map s' ms v = None).
Proof.
  intros [[Helf Hmag] [Hb Hlen] Hok Hord [Hst Hppn] [Hfa Hnf]].
  destruct (trampoline_space l0 s (3 * seg_pages (elf_phs elf) + k) strampoline ppn) as
    (ms1 & s1 & ms2 & s2 & Hnew & Hmap & Hch & Hem & Hnf2 & Htramp & Hnone); [done..|].
  assert (∀ ph v, ph ∈ segs → v ∈ range_pages (seg_range ph) → 0 ≤ v < 2 ^ 26) as Hlow.
  { intros ph v Hph Hv. pose proof (seg_range_ok input ph (Hok ph Hph)). unfold range_pages, get_start, get_end in Hv. apply elem_of_seqZ in Hv. lia. }
  destruct (load_segments_spec l0 s input Hb Hlen k (elf_phs elf) ms2 s2 0) as (ms & s' & Hr & Hch' & _ & Hnf' & Hsh & Hld & Hot); [done|done| | |done|].
  { intros i j p q v Hi Hj. by apply (ascending_disjoint input segs). }
  { intros ph v Hph Hv. pose proof (Hlow ph v Hph Hv). apply Hnone; unfold TRAMPOLINE_VPN; lia. }
  exists ms, s'. split_and!; [|done|done|by rewrite Hsh, Hem|done| |].
  - unfold from_elf. rewrite (M_bind_Ok _ _ _ _ _ Hnew), (M_bind_Ok _ _ _ _ _ Hmap), Helf.
    rewrite (M_bind_Ok _ _ s2 elf s2) by done. rewrite bool_decide_true by done. rewrite (M_bind_Ok _ _ s2 () s2) by done.
    rewrite (M_bind_Ok _ _ _ _ _ Hr).
    assert (0 ≤ last_end 0 (elf_phs elf) ≤ 2 ^ 26) as Hle.
    { destruct segs as [|ph l] eqn:Hsegs; [rewrite last_end_load, Hsegs; cbn; lia|].
      assert (ph ∈ segs) as Hph by (rewrite Hsegs; by left). rewrite <- Hsegs in Hok, Hord.
      pose proof (last_end_above input 0 (elf_phs elf) ph Hord Hok Hph). pose proof (seg_range_ok input ph (Hok ph Hph)). lia. }
    assert (u64 (addr_of_page (last_end 0 (elf_phs elf)) + PAGE_SIZE) = PAGE_SIZE * (last_end 0 (elf_phs elf) + 1)) as ->; [|done].
    unfold addr_of_page, PAGE_SIZE_BITS, PAGE_SIZE. rewrite Z.shiftl_mul_pow2 by lia.
    rewrite (u64_id (_ * _)) by (unfold is_u64; lia). rewrite u64_id by (unfold is_u64; lia). lia.
  - rewrite Hot; [done|unfold TRAMPOLINE_VPN; lia|]. intros ph Hph Hv. pose proof (Hlow ph _ Hph Hv). unfold TRAMPOLINE_VPN in *. lia.
  - intros v Hv Hne Hn. rewrite Hot by done. by apply Hnone.
Qed.
End from_elf.


Module LoadDemo.
Definition image : list Z := [0x7f; 0x45; 0x4c; 0x46; 10; 11; 12; 13; 14; 15; 16; 17].
Definition text : ProgramHeader := mkPH true 0x10000 5000 4 5 true false true.
Definition note : ProgramHeader := mkPH false 0 0 0 0 true false false.
Definition data : ProgramHeader := mkPH true 0x12000 8 9 3 true true false.
Definition elf : Elf := mkElf [0x7f; 0x45; 0x4c; 0x46] [text; note; data] 0x10000.
Definition reader (l : list Z) : option Elf := if bool_decide (l = image) then Some elf else None.

Lemma demo_loadable : loadable reader 0x80200000 5 boot_mem image elf 0x80200 10.
Proof.
  split.
  - split; reflexivity.
  - split; [apply (bool_decide_unpack _); vm_compute; exact I|vm_compute; reflexivity].
  - intros ph [->|[->|[]%elem_of_nil]%elem_of_cons]%elem_of_cons; split; cbn; lia.
  - intros i j p q Hi Hj Hlt. destruct i as [|[|i]], j as [|[|j]]; cbn in Hi, Hj; try lia; try done.
    injection Hi as <-. injection Hj as <-. vm_compute. discriminate.
  - split; [vm_compute; reflexivity|lia].
  - split; [apply boot_mem_wf|]. apply (boot_mem_free 22). lia.
Qed.

(** A segment that does not start a page is put at the start of its page. *)
Definition shifted : Elf := mkElf [0x7f; 0x45; 0x4c; 0x46] [mkPH true 0x10010 16 4 5 true false true] 0x10010.
Example misaligned_segment :
  match from_elf (λ _, Some shifted) 0x80200000 image boot_mem with
  | Ok ((ms, _, entry), s') => Some (entry, user_byte s' ms 0x10000, user_byte s' ms 0x10010)
  | Err _ => None
  end = Some (0x10010, Some 10, Some 0).
Proof. vm_compute. reflexivity. Qed.
(** Two segments that share a page stop the kernel. *)
Example shared_page_panics :
  match from_elf (λ _, Some (mkElf [0x7f; 0x45; 0x4c; 0x46] [mkPH true 0x10000 16 4 5 true false true; mkPH true 0x10800 16 9 3 true true false] 0x10000))
          0x80200000 image boot_mem with
  | Err e => Some e
  | Ok _ => None
  end = Some Panicked.
Proof. vm_compute. reflexivity. Qed.
(** So does a file that is no program. *)
Example not_elf_panics : from_elf (λ _, None) 0x80200000 [104; 105; 10] boot_mem = Err Panicked.
Proof. vm_compute. reflexivity. Qed.
End LoadDemo.
