(* ===== verification/IdAlloc.v ===== *)
(** * Identifiers, kernel stacks and the user resources of threads
      (os/src/task/id.rs)

    [RecycleAllocator] gives out process ids, kernel-stack slots and thread
    ids.  The [Vec] of recycled ids is a list whose head is the top. *)
From S2P Require Import Prelude Address FrameAllocator PageTable MemorySet AddressSpace.

Record RecycleAllocator := mkRA { ra_current : Z; ra_recycled : list Z }.

Definition ra_new : RecycleAllocator := mkRA 0 [].
Definition ra_alloc (a : RecycleAllocator) : Z * RecycleAllocator :=
  match ra_recycled a with
  | v :: rest => (v, mkRA (ra_current a) rest)
  | [] => (ra_current a, mkRA (u64 (ra_current a + 1)) [])
  end.
Definition ra_dealloc (a : RecycleAllocator) (id : Z) : outcome RecycleAllocator :=
  _ ← assert (id <? ra_current a);
  _ ← assert (bool_decide (id ∉ ra_recycled a));
  Ok (mkRA (ra_current a) (id :: ra_recycled a)).

(** (bottom, top) of a kernel stack *)
Definition kernel_stack_position (kstack_id : Z) : Z * Z :=
  let top := u64 (TRAMPOLINE - kstack_id * (KERNEL_STACK_SIZE + PAGE_SIZE)) in
  (u64 (top - KERNEL_STACK_SIZE), top).

(** The kernel state these operations share: the slot allocator, the kernel's
    own address space and physical memory. *)
Record KState := mkKS { kstack_allocator : RecycleAllocator; kernel_space : MemorySet; kmem_of : kmem }.

Definition kstack_alloc : M KState Z := λ ks,
  let '(id, ra) := ra_alloc (kstack_allocator ks) in
  let '(bottom, top) := kernel_stack_position id in
  match insert_framed_area (kernel_space ks) (virt_addr bottom) (virt_addr top) (Z.lor MP_R MP_W) (kmem_of ks) with
  | Ok (ms, s) => Ok (id, mkKS ra ms s)
  | Err e => Err e
  end.
(** [Drop for KernelStack] *)
Definition kstack_drop (id : Z) : M KState () := λ ks,
  let '(bottom, _) := kernel_stack_position id in
  match page_of_addr (virt_addr bottom) with
  | Ok vpn =>
      match remove_area_with_start_vpn (kernel_space ks) vpn (kmem_of ks) with
      | Ok (ms, s) => Ok ((), mkKS (kstack_allocator ks) ms s)
      | Err e => Err e
      end
  | Err e => Err e
  end.
Definition get_top (id : Z) : Z := (kernel_stack_position id).2.

(** ** User stacks and trap contexts *)
Definition trap_cx_bottom_from_tid (tid : Z) : Z := u64 (TRAP_CONTEXT - tid * PAGE_SIZE).
Definition ustack_bottom_from_tid (ustack_base tid : Z) : Z := u64 (ustack_base + tid * (PAGE_SIZE + USER_STACK_SIZE)).

Record TaskUserRes := mkRes { tid : Z; ustack_base : Z }.

Definition alloc_user_res (r : TaskUserRes) (ms : MemorySet) : M kmem MemorySet :=
  let ustack_bottom := ustack_bottom_from_tid (ustack_base r) (tid r) in
  let ustack_top := u64 (ustack_bottom + USER_STACK_SIZE) in
  insert_framed_area ms (virt_addr ustack_bottom) (virt_addr ustack_top) (Z.lor (Z.lor MP_R MP_W) MP_U) ≫= λ ms,
  let trap_cx_bottom := trap_cx_bottom_from_tid (tid r) in
  let trap_cx_top := u64 (trap_cx_bottom + PAGE_SIZE) in
  insert_framed_area ms (virt_addr trap_cx_bottom) (virt_addr trap_cx_top) (Z.lor MP_R MP_W).

(** Run when the [TaskUserRes] is dropped. *)
Definition dealloc_user_res (r : TaskUserRes) (ms : MemorySet) : M kmem MemorySet :=
  lift (page_of_addr (virt_addr (ustack_bottom_from_tid (ustack_base r) (tid r)))) ≫= λ vpn,
  remove_area_with_start_vpn ms vpn ≫= λ ms,
  lift (page_of_addr (virt_addr (trap_cx_bottom_from_tid (tid r)))) ≫= λ vpn,
  remove_area_with_start_vpn ms vpn.

Definition trap_cx_user_va (r : TaskUserRes) : Z := trap_cx_bottom_from_tid (tid r).
Definition trap_cx_ppn (r : TaskUserRes) (ms : MemorySet) : M kmem Z :=
  lift (page_of_addr (virt_addr (trap_cx_bottom_from_tid (tid r)))) ≫= λ vpn,
  ms_translate ms vpn ≫= λ o, lift (unwrap o) ≫= λ e, mret (pte_ppn e).
Definition ustack_top (r : TaskUserRes) : Z :=
  u64 (ustack_bottom_from_tid (ustack_base r) (tid r) + USER_STACK_SIZE).

(** [TaskUserRes::new]: the thread id comes from the process's own allocator. *)
Definition task_user_res_new (tids : RecycleAllocator) (ms : MemorySet) (base : Z) (allow_user_res : bool)
    : M kmem (TaskUserRes * RecycleAllocator * MemorySet) :=
  let '(id, tids') := ra_alloc tids in
  let r := mkRes id base in
  (if allow_user_res then alloc_user_res r ms else mret ms) ≫= λ ms', mret (r, tids', ms').

(** ** The allocator keeps a set of live identifiers *)
Inductive ra_step : RecycleAllocator * gset Z → RecycleAllocator * gset Z → Prop :=
| ra_step_alloc a L id a' : ra_alloc a = (id, a') → ra_current a' < 2 ^ 64 - 1 →
    ra_step (a, L) (a', {[id]} ∪ L)
| ra_step_dealloc a L id a' : id ∈ L → ra_dealloc a id = Ok a' → ra_step (a, L) (a', L ∖ {[id]}).

Record ra_inv (s : RecycleAllocator * gset Z) : Prop := {
  ri_cur : 0 ≤ ra_current s.1 < 2 ^ 64 - 1;
  ri_nodup : NoDup (ra_recycled s.1);
  ri_split : ∀ i, 0 ≤ i < ra_current s.1 ↔ i ∈ ra_recycled s.1 ∨ i ∈ s.2;
  ri_disjoint : ∀ i, i ∈ ra_recycled s.1 → i ∉ s.2;
}.

Lemma ra_inv_init : ra_inv (ra_new, ∅).
Proof. split; simpl; [lia|constructor| |set_solver]. intros i. set_solver by lia. Qed.

Lemma ra_alloc_spec a L id a' :
  ra_inv (a, L) → ra_alloc a = (id, a') → ra_current a' < 2 ^ 64 - 1 →
  id ∉ L ∧ ra_inv (a', {[id]} ∪ L).
Proof.
  intros [Hc Hnd Hs Hd] Ha Hb. destruct a as [cur [|v rec]]; unfold ra_alloc in Ha; simpl in *; injection Ha as <- <-; simpl in *.
  - rewrite u64_id in * by (unfold is_u64; lia). split; [intros Hin; assert (0 ≤ cur < cur) by (apply Hs; by right); lia|].
    split; simpl; [lia|constructor| |set_solver]. intros i. rewrite elem_of_union, elem_of_singleton.
    destruct (decide (i = cur)) as [->|Hne]; [split; [auto|lia]|]. specialize (Hs i). split.
    + intros Hi. destruct Hs as [[?|?] _]; [lia|set_solver|auto].
    + intros [?|[?|Hin]]; [set_solver|done|]. destruct Hs as [_ Hs]. specialize (Hs (or_intror Hin)). lia.
  - apply NoDup_cons in Hnd as [Hv Hnd]. split; [apply Hd; by left|].
    split; simpl; [lia|done| |].
    + intros i. rewrite Hs. set_solver.
    + intros i Hi. rewrite elem_of_union, elem_of_singleton. intros [->|?]; [done|]. by apply (Hd i); [right|].
Qed.

Lemma ra_dealloc_live a L id :
  ra_inv (a, L) → id ∈ L → ∃ a', ra_dealloc a id = Ok a' ∧ ra_inv (a', L ∖ {[id]}).
Proof.
  intros [Hc Hnd Hs Hd] Hin. simpl in *. assert (id ∉ ra_recycled a) as Hn by (intros ?%Hd; done).
  assert (0 ≤ id < ra_current a) as Hr by (apply Hs; by right).
  unfold ra_dealloc. rewrite (proj2 (Z.ltb_lt _ _)), bool_decide_eq_true_2 by (done || lia).
  eexists. split; [done|]. split; simpl; [lia|by constructor| |set_solver].
  intros i. rewrite Hs, elem_of_cons, elem_of_difference, elem_of_singleton.
  destruct (decide (i = id)) as [->|]; [naive_solver|]. tauto.
Qed.

Lemma ra_dealloc_dead a L id : ra_inv (a, L) → 0 ≤ id → id ∉ L → ra_dealloc a id = Err Panicked.
Proof.
  intros [Hc Hnd Hs Hd] H0 Hin. simpl in *. unfold ra_dealloc.
  destruct (Z.ltb_spec id (ra_current a)) as [Hlt|]; [|done]. simpl.
  rewrite bool_decide_eq_false_2; [done|]. intros Hn. assert (id ∈ ra_recycled a ∨ id ∈ L) as [?|?] by (apply Hs; lia); done.
Qed.

Lemma ra_inv_step s s' : ra_inv s → ra_step s s' → ra_inv s'.
Proof.
  intros Hi Hs. destruct Hs as [a L id a' Ha Hb|a L id a' Hin Hd].
  - by apply (ra_alloc_spec a L).
  - destruct (ra_dealloc_live a L id Hi Hin) as (a1 & Hd1 & Hi1). rewrite Hd in Hd1. by injection Hd1 as <-.
Qed.

(** Process, thread and kernel-stack ids.  In every reachable state of the
    allocator a new id is not in use, giving back an id in use succeeds, and
    giving back one that is not in use (twice, or never allocated) panics. *)
Theorem ids_unique s :
  rtc ra_step (ra_new, ∅) s → ra_current (ra_alloc s.1).2 < 2 ^ 64 - 1 →
  (ra_alloc s.1).1 ∉ s.2 ∧
  ∀ id, 0 ≤ id → if decide (id ∈ s.2) then ∃ a', ra_dealloc s.1 id = Ok a' else ra_dealloc s.1 id = Err Panicked.
Proof.
  intros Hr Hb. assert (ra_inv s) as Hi by (eapply rtc_invariant; [apply ra_inv_step|apply ra_inv_init|done]).
  destruct s as [a L]; simpl in *. split.
  - destruct (ra_alloc a) as [id a'] eqn:Ha. by apply (ra_alloc_spec a L id a').
  - intros id H0. case_decide as Hin.
    + destruct (ra_dealloc_live a L id Hi Hin) as (a' & Ha & _). by exists a'.
    + by apply (ra_dealloc_dead a L).
Qed.

Lemma ids_unique_witness : (ra_alloc (mkRA 2 [0])).1 ∉ ({[1]} : gset Z).
Proof.
  destruct (ids_unique (mkRA 2 [0], {[1]})) as [H _]; [|vm_compute; reflexivity|exact H].
  eapply rtc_l; [apply (ra_step_alloc ra_new ∅ 0 (mkRA 1 [])); [reflexivity|simpl; lia]|].
  eapply rtc_l; [apply (ra_step_alloc _ _ 1 (mkRA 2 [])); [reflexivity|simpl; lia]|].
  eapply rtc_l; [apply (ra_step_dealloc _ _ 0 (mkRA 2 [0])); [set_solver|reflexivity]|].
  replace (({[1]} ∪ ({[0]} ∪ ∅)) ∖ {[0]}) with ({[1]} : gset Z) by (by vm_compute). apply rtc_refl.
Defined.

(** ** Where stacks and trap contexts are *)
Lemma trampoline_eq : TRAMPOLINE = 2 ^ 64 - 4096 ∧ TRAP_CONTEXT = 2 ^ 64 - 8192.
Proof. done. Qed.

Lemma kernel_stack_eq i : 0 ≤ i → (i + 1) * 12288 ≤ 2 ^ 38 - 4096 →
  kernel_stack_position i = (2 ^ 64 - 4096 - i * 12288 - 8192, 2 ^ 64 - 4096 - i * 12288).
Proof.
  intros Hi Hb. unfold kernel_stack_position, KERNEL_STACK_SIZE, PAGE_SIZE. rewrite (proj1 trampoline_eq).
  change (4096 * 2 + 0x1000) with 12288. change (4096 * 2) with 8192.
  rewrite (u64_id (2 ^ 64 - 4096 - i * 12288)) by (unfold is_u64; lia).
  rewrite u64_id by (unfold is_u64; lia). done.
Qed.

(** Kernel stacks.  The stacks of two ids are apart by at least a guard page,
    also as 39-bit virtual addresses; each is page aligned, lies below the
    trampoline and above the identity-mapped physical memory. *)
Theorem kernel_stacks_disjoint i j :
  0 ≤ i < j → (j + 1) * (KERNEL_STACK_SIZE + PAGE_SIZE) ≤ 2 ^ 38 - PAGE_SIZE →
  let '(bi, ti) := kernel_stack_position i in
  let '(bj, tj) := kernel_stack_position j in
  ti = bi + KERNEL_STACK_SIZE ∧ tj = bj + KERNEL_STACK_SIZE ∧ tj + PAGE_SIZE ≤ bi ∧
  virt_addr ti = virt_addr bi + KERNEL_STACK_SIZE ∧ virt_addr tj + PAGE_SIZE ≤ virt_addr bi ∧
  virt_addr ti ≤ virt_addr TRAMPOLINE ∧ MEMORY_END < virt_addr bj ∧
  aligned (virt_addr bi) = true ∧ aligned (virt_addr ti) = true.
Proof.
  unfold KERNEL_STACK_SIZE, PAGE_SIZE. intros Hij Hb. rewrite !kernel_stack_eq by lia.
  unfold aligned. rewrite !page_offset_mod, !virt_addr_mod, !Z.eqb_eq. unfold PAGE_SIZE, MEMORY_END, TRAMPOLINE, U64_MAX, PAGE_SIZE.
  assert (∀ x, 2 ^ 64 - 2 ^ 38 ≤ x < 2 ^ 64 → x mod 2 ^ 39 = x - (2 ^ 64 - 2 ^ 39)) as Hm by (intros x Hx; dlia).
  rewrite !Hm by lia. split_and!; try lia; dlia.
Qed.

Lemma kernel_stacks_disjoint_witness :
  let '(bi, ti) := kernel_stack_position 0 in let '(bj, tj) := kernel_stack_position 3 in tj + PAGE_SIZE ≤ bi.
Proof. apply (kernel_stacks_disjoint 0 3); [lia|vm_compute; discriminate]. Defined.

(** ** The user resources of a thread *)
Lemma page_aligned n : page_of_addr (n * PAGE_SIZE) = Ok n.
Proof.
  unfold page_of_addr. rewrite page_offset_mod, Z_mod_mult. simpl. f_equal. unfold floor. by rewrite Z_div_mult.
Qed.

Lemma virt_addr_page n : virt_addr (n * PAGE_SIZE) = (n mod 2 ^ 27) * PAGE_SIZE.
Proof. rewrite virt_addr_mod. unfold PAGE_SIZE. dlia. Qed.

Lemma insert_pages l0 k ms s l u perm :
  space_ok l0 ms s → perm_ok perm → 0 ≤ l ≤ u → u < 2 ^ 27 →
  (∀ v, v ∈ range_pages (mkRange l u) → pt_map s ms v = None) →
  nfree (3 * length (range_pages (mkRange l u)) + k) (fa s) →
  ∃ ms' s', insert_framed_area ms (l * PAGE_SIZE) (u * PAGE_SIZE) perm s = Ok (ms', s') ∧
    space_ok l0 ms' s' ∧ area_added l0 ms s (mkRange l u) perm ms' s' ∧ nfree k (fa s').
Proof.
  intros Hsp Hp Hlu Hu Hv Hnf.
  assert (floor (l * PAGE_SIZE) = l) as Hf by (unfold floor; by rewrite Z_div_mult).
  assert (ceil (u * PAGE_SIZE) = u) as Hc.
  { rewrite ceil_eq by (unfold PAGE_SIZE; lia). unfold PAGE_SIZE. dlia. }
  pose proof (insert_framed_area_spec l0 k ms s (l * PAGE_SIZE) (u * PAGE_SIZE) perm Hsp Hp) as Hi.
  rewrite Hf, Hc in Hi. apply Hi; [unfold PAGE_SIZE; lia|lia|unfold PAGE_SIZE; lia|done|done].
Qed.

(** Non-empty areas are told apart by their first page. *)
Lemma start_unique l0 ms s i j a b :
  space_ok l0 ms s → areas ms !! i = Some a → areas ms !! j = Some b →
  range_l (vpn_range a) < range_r (vpn_range a) → range_l (vpn_range b) < range_r (vpn_range b) →
  range_l (vpn_range a) = range_l (vpn_range b) → i = j.
Proof.
  intros Hsp Hi Hj Ha Hb Hs. apply (sp_disjoint _ _ _ Hsp i j a b (range_l (vpn_range a)) Hi Hj);
    unfold pages_of, range_pages, get_start, get_end; rewrite elem_of_seqZ; lia.
Qed.

Definition nonempty (a : MapArea) : Prop := range_l (vpn_range a) < range_r (vpn_range a).

Lemma remove_nonempty l0 ms s i a :
  space_ok l0 ms s → areas ms !! i = Some a → Forall nonempty (areas ms) →
  ∃ s', let ms' := mkMS (page_table ms) (delete i (areas ms)) in
    remove_area_with_start_vpn ms (range_l (vpn_range a)) s = Ok (ms', s') ∧ space_ok l0 ms' s' ∧
    released l0 s s' (λ k, ∃ v, data_frames a !! v = Some k) ∧
    (∀ v, 0 ≤ v < 2 ^ 27 → pt_map s' ms' v = if decide (v ∈ pages_of a) then None else pt_map s ms v) ∧
    (∀ k, k ∉ frames (page_table ms) → mem s' !! k = mem s !! k).
Proof.
  intros Hsp Hi Hne. apply remove_area_spec; [done|done|done|]. intros j b Hj Hs.
  assert (i = j) as ->; [|lia]. rewrite Forall_lookup in Hne.
  apply (start_unique l0 ms s i j a b); [done|done|done|by apply (Hne i)|by apply (Hne j)|]. symmetry. apply Hs.
Qed.

Section user_res.
Context (r : TaskUserRes) (Ht : 0 ≤ tid r) (Hb : 0 ≤ ustack_base r) (Hal : ustack_base r mod PAGE_SIZE = 0).
Context (Hbound : ustack_base r + (tid r + 1) * (PAGE_SIZE + USER_STACK_SIZE) ≤ 2 ^ 38).
Context (Htid : (tid r + 2) * PAGE_SIZE ≤ 2 ^ 38).

Definition stack_pages : SimpleRange :=
  let b := (ustack_base r + tid r * (PAGE_SIZE + USER_STACK_SIZE)) / PAGE_SIZE in mkRange b (b + 2).
Definition cx_page : Z := 2 ^ 27 - 2 - tid r.

Lemma ustack_eq :
  ustack_bottom_from_tid (ustack_base r) (tid r) = range_l stack_pages * PAGE_SIZE ∧
  0 ≤ range_l stack_pages ∧ range_r stack_pages ≤ 2 ^ 26.
Proof.
  unfold ustack_bottom_from_tid, stack_pages, USER_STACK_SIZE, PAGE_SIZE in *. simpl.
  rewrite u64_id by (unfold is_u64; lia). dlia.
Qed.

Lemma trap_cx_eq : trap_cx_bottom_from_tid (tid r) = (cx_page + (2 ^ 52 - 2 ^ 27)) * PAGE_SIZE ∧ 2 ^ 26 ≤ cx_page < 2 ^ 27 - 1.
Proof.
  clear Hb Hal Hbound. unfold trap_cx_bottom_from_tid, cx_page. rewrite (proj2 trampoline_eq). unfold PAGE_SIZE in *.
  rewrite u64_id by (unfold is_u64; lia). lia.
Qed.

Lemma stack_va : virt_addr (ustack_bottom_from_tid (ustack_base r) (tid r)) = range_l stack_pages * PAGE_SIZE ∧
  virt_addr (u64 (ustack_bottom_from_tid (ustack_base r) (tid r) + USER_STACK_SIZE)) = range_r stack_pages * PAGE_SIZE.
Proof.
  destruct ustack_eq as (He & H0 & H1). rewrite He.
  assert (range_r stack_pages = range_l stack_pages + 2) as Hrr by done.
  replace (range_l stack_pages * PAGE_SIZE + USER_STACK_SIZE) with (range_r stack_pages * PAGE_SIZE)
    by (rewrite Hrr; unfold USER_STACK_SIZE, PAGE_SIZE; lia).
  rewrite u64_id by (unfold is_u64, PAGE_SIZE; lia).
  rewrite !virt_addr_page, !Z.mod_small; [done|lia..].
Qed.

Lemma cx_va : virt_addr (trap_cx_bottom_from_tid (tid r)) = cx_page * PAGE_SIZE ∧
  virt_addr (u64 (trap_cx_bottom_from_tid (tid r) + PAGE_SIZE)) = (cx_page + 1) * PAGE_SIZE.
Proof.
  clear Hb Hal Hbound. destruct trap_cx_eq as (He & H0 & H1). rewrite He.
  replace ((cx_page + (2 ^ 52 - 2 ^ 27)) * PAGE_SIZE + PAGE_SIZE) with ((cx_page + 1 + (2 ^ 52 - 2 ^ 27)) * PAGE_SIZE) by lia.
  rewrite u64_id by (unfold is_u64, PAGE_SIZE; lia).
  rewrite !virt_addr_page. change (2 ^ 52 - 2 ^ 27) with ((2 ^ 25 - 1) * 2 ^ 27).
  rewrite !Z_mod_plus_full, !Z.mod_small by lia. done.
Qed.

Definition res_free (ms : MemorySet) (s : kmem) : Prop :=
  (∀ v, v ∈ range_pages stack_pages → pt_map s ms v = None) ∧ pt_map s ms cx_page = None.

Lemma alloc_user_res_spec l0 k ms s :
  space_ok l0 ms s → res_free ms s → nfree (9 + k) (fa s) →
  ∃ ms1 s1 ms2 s2, alloc_user_res r ms s = Ok (ms2, s2) ∧ space_ok l0 ms2 s2 ∧ nfree k (fa s2) ∧
    area_added l0 ms s stack_pages (Z.lor (Z.lor MP_R MP_W) MP_U) ms1 s1 ∧
    area_added l0 ms1 s1 (mkRange cx_page (cx_page + 1)) (Z.lor MP_R MP_W) ms2 s2.
Proof.
  intros Hsp [Hst Hcx] Hnf. assert (range_r stack_pages = range_l stack_pages + 2) as Hrr by done.
  destruct ustack_eq as (_ & H0 & H1), trap_cx_eq as (_ & H2 & H3).
  destruct (insert_pages l0 (3 + k) ms s (range_l stack_pages) (range_r stack_pages) (Z.lor (Z.lor MP_R MP_W) MP_U))
    as (ms1 & s1 & Hr1 & Hsp1 & Ha1 & Hnf1); [done|done|lia|lia|done| |].
  { eapply nfree_mono; [|done]. unfold range_pages, get_start, get_end. cbn [range_l range_r].
    rewrite length_seqZ, Hrr. lia. }
  assert (mkRange (range_l stack_pages) (range_r stack_pages) = stack_pages) as Heta by done. rewrite Heta in *.
  destruct (insert_pages l0 k ms1 s1 cx_page (cx_page + 1) (Z.lor MP_R MP_W))
    as (ms2 & s2 & Hr2 & Hsp2 & Ha2 & Hnf2); [done|done|lia|lia| | |].
  { intros v Hv. apply elem_of_seqZ in Hv. simpl in Hv. assert (v = cx_page) as -> by lia.
    rewrite (aa_other _ _ _ _ _ _ _ Ha1); [done|lia|]. unfold range_pages, get_start, get_end. rewrite elem_of_seqZ. lia. }
  { unfold range_pages, get_start, get_end. rewrite length_seqZ. simpl.
    replace (cx_page + 1 - cx_page) with 1 by lia. done. }
  exists ms1, s1, ms2, s2. split_and!; try done.
  unfold alloc_user_res. rewrite (proj1 stack_va), (proj2 stack_va), (M_bind_Ok _ _ _ _ _ Hr1).
  by rewrite (proj1 cx_va), (proj2 cx_va).
Qed.

Lemma dealloc_user_res_spec l0 ms pre a1 a2 s :
  space_ok l0 ms s → areas ms = pre ++ [a1; a2] → Forall nonempty pre →
  vpn_range a1 = stack_pages → vpn_range a2 = mkRange cx_page (cx_page + 1) →
  ∃ s', dealloc_user_res r ms s = Ok (mkMS (page_table ms) pre, s') ∧ space_ok l0 (mkMS (page_table ms) pre) s' ∧
    released l0 s s' (λ k, ∃ v, data_frames a1 !! v = Some k ∨ data_frames a2 !! v = Some k) ∧
    (∀ v, 0 ≤ v < 2 ^ 27 → mapping (mem s') (root_ppn (page_table ms)) v =
       if decide (v ∈ range_pages stack_pages ∨ v = cx_page) then None else pt_map s ms v) ∧
    (∀ k, k ∉ frames (page_table ms) → mem s' !! k = mem s !! k).
Proof.
  intros Hsp Hars Hne Hr1 Hr2.
  assert (nonempty a1) as Hn1 by (unfold nonempty; rewrite Hr1; simpl; lia).
  assert (nonempty a2) as Hn2 by (unfold nonempty; rewrite Hr2; simpl; lia).
  assert (delete (length pre) (areas ms) = pre ++ [a2]) as Hd1 by (rewrite Hars; apply delete_middle).
  destruct (remove_nonempty l0 ms s (length pre) a1) as (s1 & Hrm1 & Hsp1 & [_ Hal1] & Hm1 & Hk1); [done|..].
  { rewrite Hars, lookup_app_r, Nat.sub_diag by lia. done. }
  { rewrite Hars. apply Forall_app. split; [done|]. by repeat constructor. }
  rewrite Hd1 in *. set (ms1 := mkMS (page_table ms) (pre ++ [a2])) in *.
  destruct (remove_nonempty l0 ms1 s1 (length pre) a2) as (s2 & Hrm2 & Hsp2 & [Hw2 Hal2] & Hm2 & Hk2); [done|..].
  { simpl. by rewrite lookup_app_r, Nat.sub_diag by lia. }
  { apply Forall_app. split; [done|]. by repeat constructor. }
  simpl in Hrm2, Hsp2, Hm1, Hm2. rewrite delete_middle, app_nil_r in *.
  exists s2. split_and!; [|done|split; [done|]|..].
  - unfold dealloc_user_res. rewrite (proj1 stack_va), page_aligned, (M_bind_Ok _ _ s _ s eq_refl).
    rewrite Hr1 in Hrm1. rewrite (M_bind_Ok _ _ _ _ _ Hrm1), (proj1 cx_va), page_aligned, (M_bind_Ok _ _ s1 _ s1 eq_refl).
    rewrite Hr2 in Hrm2. done.
  - intros k. rewrite Hal2, Hal1. naive_solver.
  - intros v Hv. rewrite Hm2, Hm1 by done. unfold pages_of. rewrite Hr1, Hr2.
    assert (v ∈ range_pages (mkRange cx_page (cx_page + 1)) ↔ v = cx_page) as Hc
      by (unfold range_pages, get_start, get_end; rewrite elem_of_seqZ; simpl; lia).
    repeat case_decide; tauto.
  - intros k Hk. rewrite Hk2, Hk1 by done. done.
Qed.
End user_res.

(** A thread's user stack and trap context.  Allocating them maps the stack
    and the context page to cleared frames; dropping the thread's resources
    afterwards removes exactly the two areas: the space has its old areas and
    its old mapping, and every frame in use before keeps its contents. *)
Theorem user_res_roundtrip l0 k r ms s :
  0 ≤ tid r → 0 ≤ ustack_base r → ustack_base r mod PAGE_SIZE = 0 →
  ustack_base r + (tid r + 1) * (PAGE_SIZE + USER_STACK_SIZE) ≤ 2 ^ 38 → (tid r + 2) * PAGE_SIZE ≤ 2 ^ 38 →
  space_ok l0 ms s → Forall nonempty (areas ms) → res_free r ms s → nfree (9 + k) (fa s) →
  ∃ ms1 s1 ppn s2, alloc_user_res r ms s = Ok (ms1, s1) ∧ space_ok l0 ms1 s1 ∧
    trap_cx_ppn r ms1 s1 = Ok (ppn, s1) ∧ mem s1 !! ppn = Some zero_page ∧
    dealloc_user_res r ms1 s1 = Ok (mkMS (page_table ms1) (areas ms), s2) ∧
    space_ok l0 (mkMS (page_table ms1) (areas ms)) s2 ∧
    (∀ v, 0 ≤ v < 2 ^ 27 → mapping (mem s2) (root_ppn (page_table ms1)) v = pt_map s ms v) ∧
    (∀ n, is_allocated l0 (fa s) n → n ∉ frames (page_table ms) →
       is_allocated l0 (fa s2) n ∧ mem s2 !! n = mem s !! n).
Proof.
  intros Ht Hb Hal Hbound Htid Hsp Hne Hfree Hnf.
  destruct (alloc_user_res_spec r Ht Hb Hal Hbound Htid l0 k ms s Hsp Hfree Hnf) as
    (ms1 & s1 & ms2 & s2 & Hr & Hsp2 & Hnf2 & A1 & A2).
  destruct (aa_areas _ _ _ _ _ _ _ A1) as (a1 & Har1 & Hrg1 & _ & Hfr1).
  destruct (aa_areas _ _ _ _ _ _ _ A2) as (a2 & Har2 & Hrg2 & _ & Hfr2).
  rewrite Har1, <- app_assoc in Har2. simpl in Har2.
  destruct (dealloc_user_res_spec r Ht Hb Hal Hbound Htid l0 ms2 (areas ms) a1 a2 s2 Hsp2 Har2 Hne Hrg1 Hrg2) as
    (s3 & Hd & Hsp3 & [_ Hal3] & Hm3 & Hk3).
  destruct (trap_cx_eq r Ht Htid) as (_ & H2 & H3).
  assert (0 ≤ cx_page r < 2 ^ 27) as Hcxr by lia.
  assert (cx_page r ∈ range_pages (mkRange (cx_page r) (cx_page r + 1))) as Hcx
    by (unfold range_pages, get_start, get_end; rewrite elem_of_seqZ; simpl; lia).
  destruct (aa_pages _ _ _ _ _ _ _ A2 _ Hcx) as (f & Hf & Hz & _ & Hfal & _).
  pose proof (extends_trans _ _ _ _ _ _ _ (aa_keeps _ _ _ _ _ _ _ A1) (aa_keeps _ _ _ _ _ _ _ A2)) as He.
  exists ms2, s2, f, s3. split_and!; try done.
  - unfold trap_cx_ppn. rewrite (proj1 (cx_va r Ht Htid)), page_aligned, (M_bind_Ok _ _ s2 _ s2 eq_refl).
    rewrite (M_bind_Ok _ _ _ _ _ (translate_mapping _ _ _ _ _ (inv_tree _ _ _ (sp_pt _ _ _ Hsp2)) Hcxr Hf)).
    rewrite (M_bind_Ok _ _ s2 _ s2 eq_refl). unfold mret, M_ret. rewrite leaf_entry_ppn; [done|done|].
    by eapply is_allocated_range; [apply Hsp2|].
  - intros v Hv. rewrite Hm3 by done. destruct Hfree as [F1 F2]. case_decide as Hd'.
    + destruct Hd' as [Hv'| ->]; [by rewrite F1|by rewrite F2].
    + rewrite (aa_other _ _ _ _ _ _ _ A2), (aa_other _ _ _ _ _ _ _ A1); [done|done|tauto|done|].
      unfold range_pages, get_start, get_end. rewrite elem_of_seqZ. simpl. lia.
  - intros n Hn Hnf'. assert (n ∉ frames (page_table ms2)) as Hn2 by (by intros [?|?]%(ext_fresh _ _ _ _ _ He)).
    rewrite Hk3, (ext_mem _ _ _ _ _ He) by done. split; [|done]. apply Hal3. split; [by apply He|].
    intros (v & [Hv|Hv]); [by eapply Hfr1|]. eapply Hfr2; [done|]. by apply A1.
Qed.

Lemma user_res_roundtrip_witness :
  let ms := SpaceDemo.one.1 in let s := SpaceDemo.one.2 in let r := mkRes 0 0x4000 in
  ∃ ms1 s1 s2, alloc_user_res r ms s = Ok (ms1, s1) ∧
    dealloc_user_res r ms1 s1 = Ok (mkMS (page_table ms1) (areas ms), s2).
Proof.
  destruct (user_res_roundtrip 5 0 (mkRes 0 0x4000) SpaceDemo.one.1 SpaceDemo.one.2) as
    (ms1 & s1 & ppn & s2 & Hr & _ & _ & _ & Hd & _).
  - simpl. lia.
  - simpl. lia.
  - reflexivity.
  - vm_compute. discriminate.
  - vm_compute. discriminate.
  - apply SpaceDemo.one_ok.
  - repeat constructor.
  - split; [|vm_compute; reflexivity]. apply Forall_forall. repeat apply Forall_cons_2; [..|apply Forall_nil_2];
      vm_compute; reflexivity.
  - eapply nfree_mono; [|apply SpaceDemo.one_ok]. lia.
  - exists ms1, s1, s2. split; [exact Hr|exact Hd].
Defined.

(** Dropping a kernel stack gives its pages back but not its slot: the next
    stack takes a new slot. *)
Example kstack_drop_keeps_slot ks ks' id :
  kstack_drop id ks = Ok ((), ks') → kstack_allocator ks' = kstack_allocator ks.
Proof.
  unfold kstack_drop. destruct (kernel_stack_position id) as [b t]. destruct (page_of_addr _); [|done].
  destruct (remove_area_with_start_vpn _ _ _) as [[ms s]|]; [|done]. by intros [= <-].
Qed.
