(* ===== verification/Pipe.v ===== *)
(** * Pipes (os/src/fs/pipe.rs)

    A ring buffer of 32 bytes between readers and writers.  A call of [read] or
    [write] runs until it returns or suspends; between two such turns other
    threads run.  The buffer's weak reference to the write end is live while the
    number [strong] of handles on it is positive. *)
From S2P Require Import Prelude.

Definition RING_BUFFER_SIZE : nat := 32.

Inductive RingBufferStatus := FULL | EMPTY | NORMAL.
#[global] Arguments Nat.modulo : simpl never.
#[global] Instance RingBufferStatus_eq_dec : EqDecision RingBufferStatus.
Proof. solve_decision. Defined.

Record PipeRingBuffer := mkRB {
  arr : list Z;
  head : nat;
  tail : nat;
  status : RingBufferStatus;
  write_end : bool;
}.

Definition rb_new : PipeRingBuffer := mkRB (replicate RING_BUFFER_SIZE 0) 0 0 EMPTY false.
Definition set_write_end (rb : PipeRingBuffer) : PipeRingBuffer :=
  mkRB (arr rb) (head rb) (tail rb) (status rb) true.

Definition read_byte (rb : PipeRingBuffer) : Z * PipeRingBuffer :=
  let c := arr rb !!! head rb in
  let head' := ((head rb + 1) mod RING_BUFFER_SIZE)%nat in
  (c, mkRB (arr rb) head' (tail rb) (if (head' =? tail rb)%nat then EMPTY else NORMAL) (write_end rb)).

Definition write_byte (rb : PipeRingBuffer) (byte : Z) : PipeRingBuffer :=
  let arr' := <[tail rb := byte]> (arr rb) in
  let tail' := ((tail rb + 1) mod RING_BUFFER_SIZE)%nat in
  mkRB arr' (head rb) tail' (if (head rb =? tail')%nat then FULL else NORMAL) (write_end rb).

Definition available_read (rb : PipeRingBuffer) : nat :=
  if decide (status rb = EMPTY) then 0
  else if (head rb <? tail rb)%nat then tail rb - head rb
  else tail rb + RING_BUFFER_SIZE - head rb.

Definition available_write (rb : PipeRingBuffer) : nat :=
  if decide (status rb = FULL) then 0 else RING_BUFFER_SIZE - available_read rb.

Definition all_write_ends_closed (rb : PipeRingBuffer) (strong : nat) : outcome bool :=
  if write_end rb then Ok (strong =? 0)%nat else Err Panicked.

Record Pipe := mkPipe { readable : bool; writable : bool }.
Definition read_end_with_buffer : Pipe := mkPipe true false.
Definition write_end_with_buffer : Pipe := mkPipe false true.
(** (read end, write end, shared buffer) *)
Definition make_pipe : Pipe * Pipe * PipeRingBuffer :=
  (read_end_with_buffer, write_end_with_buffer, set_write_end rb_new).

Inductive turn (A : Type) := Return (a : A) | Suspend (a : A).
Arguments Return {A} a.
Arguments Suspend {A} a.
Definition turn_val {A} (t : turn A) : A := match t with Return a | Suspend a => a end.

(** The [for _ in 0..loop_read] of [read]: [got] are the bytes stored so far, the
    iterator over the user buffer has [want - length got] places left.  The flag
    says whether [read] returned. *)
Fixpoint read_for (n : nat) (rb : PipeRingBuffer) (want : nat) (got : list Z)
    : PipeRingBuffer * list Z * bool :=
  match n with
  | O => (rb, got, false)
  | S n' =>
      if (length got <? want)%nat then
        let '(c, rb') := read_byte rb in
        let got' := got ++ [c] in
        if (length got' =? want)%nat then (rb', got', true) else read_for n' rb' want got'
      else (rb, got, true)
  end.
Fixpoint read_loop (fuel : nat) (rb : PipeRingBuffer) (strong want : nat) (got : list Z)
    : outcome (turn (list Z) * PipeRingBuffer) :=
  match fuel with
  | O => Err Diverged
  | S fuel' =>
      let loop_read := available_read rb in
      if (loop_read =? 0)%nat then
        all_write_ends_closed rb strong ≫= λ closed : bool,
        Ok (if closed then Return got else Suspend got, rb)
      else
        match read_for loop_read rb want got with
        | (rb', got', true) => Ok (Return got', rb')
        | (rb', got', false) => read_loop fuel' rb' strong want got'
        end
  end.
(** One turn of [read] into a buffer of [want] bytes. *)
Definition read_turn (self : Pipe) (rb : PipeRingBuffer) (strong want : nat) (got : list Z)
    : outcome (turn (list Z) * PipeRingBuffer) :=
  _ ← assert (readable self); read_loop 2 rb strong want got.

Fixpoint write_for (n : nat) (rb : PipeRingBuffer) (buf : list Z) (already : nat)
    : PipeRingBuffer * nat * bool :=
  match n with
  | O => (rb, already, false)
  | S n' =>
      match buf !! already with
      | Some byte =>
          let rb' := write_byte rb byte in
          let already' := S already in
          if (already' =? length buf)%nat then (rb', already', true) else write_for n' rb' buf already'
      | None => (rb, already, true)
      end
  end.
Fixpoint write_loop (fuel : nat) (rb : PipeRingBuffer) (buf : list Z) (already : nat)
    : outcome (turn nat * PipeRingBuffer) :=
  match fuel with
  | O => Err Diverged
  | S fuel' =>
      let loop_write := available_write rb in
      if (loop_write =? 0)%nat then Ok (Suspend already, rb)
      else
        match write_for loop_write rb buf already with
        | (rb', n, true) => Ok (Return n, rb')
        | (rb', n, false) => write_loop fuel' rb' buf n
        end
  end.
Definition write_turn (self : Pipe) (rb : PipeRingBuffer) (buf : list Z) (already : nat)
    : outcome (turn nat * PipeRingBuffer) :=
  _ ← assert (writable self); write_loop 2 rb buf already.

(** ** The ring buffer is a bounded queue *)
Definition contents (rb : PipeRingBuffer) : list Z :=
  (λ i, arr rb !!! ((head rb + i) mod RING_BUFFER_SIZE)%nat) <$> seq 0 (available_read rb).

Record rb_wf (rb : PipeRingBuffer) : Prop := {
  rb_len : length (arr rb) = RING_BUFFER_SIZE;
  rb_head : (head rb < RING_BUFFER_SIZE)%nat;
  rb_tail : (tail rb < RING_BUFFER_SIZE)%nat;
  rb_status : status rb = NORMAL ↔ head rb ≠ tail rb;
}.

Lemma rb_new_wf : rb_wf (set_write_end rb_new).
Proof. split; simpl; unfold RING_BUFFER_SIZE; [done|lia|lia|]. split; [done|lia]. Qed.

Lemma length_contents rb : length (contents rb) = available_read rb.
Proof. unfold contents. by rewrite length_fmap, length_seq. Qed.

(** The four shapes of a well-formed buffer. *)
Lemma status_cases rb : rb_wf rb →
  (status rb = EMPTY ∧ head rb = tail rb ∧ available_read rb = 0%nat) ∨
  (status rb = FULL ∧ head rb = tail rb ∧ available_read rb = RING_BUFFER_SIZE) ∨
  (status rb = NORMAL ∧ (head rb < tail rb)%nat ∧ available_read rb = (tail rb - head rb)%nat) ∨
  (status rb = NORMAL ∧ (tail rb < head rb)%nat ∧ available_read rb = (tail rb + RING_BUFFER_SIZE - head rb)%nat).
Proof.
  intros [_ Hh Ht Hs]. unfold available_read, RING_BUFFER_SIZE in *. destruct (status rb) eqn:E.
  - assert (head rb = tail rb) as -> by (destruct (decide (head rb = tail rb)) as [|H%Hs]; done).
    right; left. rewrite decide_False, (proj2 (Nat.ltb_ge _ _)) by (done || lia). split_and!; [done|done|lia].
  - assert (head rb = tail rb) as -> by (destruct (decide (head rb = tail rb)) as [|H%Hs]; done). by left.
  - pose proof (proj1 Hs eq_refl). right; right. rewrite decide_False by done.
    destruct (Nat.ltb_spec (head rb) (tail rb)); [left|right]; split_and!; done || lia.
Qed.

Lemma available_bounds rb : rb_wf rb →
  (available_read rb + available_write rb = RING_BUFFER_SIZE)%nat.
Proof.
  intros Hwf. pose proof (rb_head _ Hwf). pose proof (rb_tail _ Hwf). unfold available_write.
  destruct (status_cases rb Hwf) as [(-> & ? & ?)|[(-> & ? & ?)|[(-> & ? & ?)|(-> & ? & ?)]]];
    case_decide; done || lia.
Qed.

Lemma contents_lookup rb i : (i < available_read rb)%nat →
  contents rb !! i = Some (arr rb !!! ((head rb + i) mod RING_BUFFER_SIZE)%nat).
Proof. intros Hi. unfold contents. rewrite list_lookup_fmap, lookup_seq_lt by done. done. Qed.

(** The place of the next write is just behind the contents. *)
Lemma tail_pos rb : rb_wf rb → (tail rb = (head rb + available_read rb) mod RING_BUFFER_SIZE)%nat.
Proof.
  intros Hwf. pose proof (rb_head _ Hwf). pose proof (rb_tail _ Hwf). unfold RING_BUFFER_SIZE in *.
  destruct (status_cases rb Hwf) as [(_ & ? & ->)|[(_ & ? & ->)|[(_ & ? & ->)|(_ & ? & ->)]]]; unfold RING_BUFFER_SIZE; dlia.
Qed.

Lemma write_byte_spec rb b : rb_wf rb → (available_read rb < RING_BUFFER_SIZE)%nat →
  rb_wf (write_byte rb b) ∧ contents (write_byte rb b) = contents rb ++ [b] ∧
  available_read (write_byte rb b) = S (available_read rb) ∧ write_end (write_byte rb b) = write_end rb.
Proof.
  intros Hwf Hav. pose proof (rb_head _ Hwf) as Hh. pose proof (rb_tail _ Hwf) as Ht. pose proof (tail_pos rb Hwf) as Htp.
  assert (rb_wf (write_byte rb b)) as Hwf'.
  { split; cbn [write_byte arr head tail status]; [rewrite length_insert; apply Hwf|done|unfold RING_BUFFER_SIZE; dlia|].
    destruct (Nat.eqb_spec (head rb) ((tail rb + 1) mod RING_BUFFER_SIZE)); (split; [done || lia|]; intros; done || lia). }
  assert (available_read (write_byte rb b) = S (available_read rb)) as Hav'.
  { pose proof (available_bounds _ Hwf') as Hb. pose proof (tail_pos _ Hwf') as Htp'.
    assert (available_read (write_byte rb b) ≠ 0%nat) as Hne.
    { destruct (status_cases _ Hwf') as [(Hs & _)|[(_ & _ & ->)|[(_ & ? & ->)|(_ & Hlt & ->)]]];
        [simpl in Hs; by case_match|unfold RING_BUFFER_SIZE; lia|lia|pose proof (rb_head _ Hwf'); unfold RING_BUFFER_SIZE in *; lia]. }
    change (head (write_byte rb b)) with (head rb) in Htp'.
    change (tail (write_byte rb b)) with ((tail rb + 1) mod RING_BUFFER_SIZE)%nat in Htp'.
    unfold RING_BUFFER_SIZE in *. revert Hb Htp' Hne. generalize (available_read (write_byte rb b)), (available_write (write_byte rb b)).
    intros av aw. dlia. }
  split_and!; [done| |done|done]. apply list_eq. intros i.
  destruct (decide (i < available_read rb)%nat) as [Hi|Hi].
  - rewrite lookup_app_l, !contents_lookup by (rewrite ?length_contents; lia). simpl. f_equal.
    apply list_lookup_total_insert_ne. rewrite Htp. unfold RING_BUFFER_SIZE in *. dlia.
  - rewrite lookup_app_r by (rewrite length_contents; lia). rewrite length_contents.
    destruct (decide (i = available_read rb)) as [->|Hne].
    + rewrite Nat.sub_diag, contents_lookup by lia. simpl. rewrite <- Htp.
      f_equal. apply list_lookup_total_insert_eq. rewrite (rb_len _ Hwf). done.
    + rewrite !lookup_ge_None_2; [done|simpl; lia|rewrite length_contents; lia].
Qed.

Lemma read_byte_spec rb : rb_wf rb → (0 < available_read rb)%nat →
  let '(c, rb') := read_byte rb in
  rb_wf rb' ∧ contents rb = c :: contents rb' ∧ S (available_read rb') = available_read rb ∧ write_end rb' = write_end rb.
Proof.
  intros Hwf Hav. pose proof (rb_head _ Hwf) as Hh. pose proof (rb_tail _ Hwf) as Ht.
  destruct (read_byte rb) as [c rb'] eqn:Hr. unfold read_byte in Hr. injection Hr as Hc Hrb.
  assert (rb_wf rb') as Hwf'.
  { subst rb'. split; cbn [arr head tail status]; [apply Hwf|unfold RING_BUFFER_SIZE; dlia|done|].
    destruct (Nat.eqb_spec ((head rb + 1) mod RING_BUFFER_SIZE) (tail rb)); (split; [done || lia|]; intros; done || lia). }
  assert (S (available_read rb') = available_read rb) as Hav'.
  { pose proof (tail_pos _ Hwf) as Htp. pose proof (tail_pos _ Hwf') as Htp'.
    pose proof (available_bounds _ Hwf) as Hb. pose proof (available_bounds _ Hwf') as Hb'.
    assert (available_read rb' ≠ RING_BUFFER_SIZE) as Hne.
    { destruct (status_cases rb' Hwf') as [(? & ? & ?)|[(Hs & ? & ?)|[(? & ? & ?)|(? & ? & ?)]]];
        [unfold RING_BUFFER_SIZE; lia| |unfold RING_BUFFER_SIZE in *; subst rb'; simpl in *; lia..].
      subst rb'. simpl in Hs. by case_match. }
    assert (head rb' = (head rb + 1) mod RING_BUFFER_SIZE)%nat as Hhd by (by subst rb').
    assert (tail rb' = tail rb) as Htl by (by subst rb'). rewrite Hhd, Htl in Htp'.
    unfold RING_BUFFER_SIZE in *. revert Hb' Htp' Hne. generalize (available_read rb'), (available_write rb').
    intros av aw. dlia. }
  split_and!; [done| |done|by subst rb'].
  assert (∀ i, contents rb' !! i = contents rb !! S i) as Htl.
  { intros i. destruct (decide (i < available_read rb')%nat) as [Hi|Hi].
    - rewrite !contents_lookup by lia. subst rb'. simpl. do 2 f_equal. unfold RING_BUFFER_SIZE. dlia.
    - rewrite !lookup_ge_None_2; rewrite ?length_contents; [done|lia|lia]. }
  apply list_eq. intros [|i]; [|simpl; by rewrite Htl].
  rewrite contents_lookup by lia. simpl. rewrite <- Hc. do 2 f_equal. unfold RING_BUFFER_SIZE in *. dlia.
Qed.

(** ** Turns *)
Definition rb_ok (rb : PipeRingBuffer) : Prop := rb_wf rb ∧ write_end rb = true.
Definition mk_turn {A} (returned : bool) (a : A) : turn A := if returned then Return a else Suspend a.

(** After one byte the loop still returns exactly when it would have. *)
Lemma returns_step n m m' : m = S m' → m' ≠ 0%nat →
  ((0 <? n) && (m' <=? n))%nat = ((0 <? S n) && (m <=? S n))%nat.
Proof. intros -> Hm. apply eq_bool_prop_intro. rewrite !andb_True, !Is_true_true, !Nat.ltb_lt, !Nat.leb_le. lia. Qed.

Lemma read_for_spec n rb want got :
  rb_ok rb → (n ≤ length (contents rb))%nat → (length got ≤ want)%nat →
  let k := Nat.min n (want - length got) in
  ∃ rb', read_for n rb want got = (rb', got ++ take k (contents rb), (0 <? n)%nat && (want - length got <=? n)%nat) ∧
    rb_ok rb' ∧ contents rb' = drop k (contents rb).
Proof.
  revert rb got. induction n as [|n IH]; intros rb got [Hwf He] Hn Hg; cbn [read_for].
  { exists rb. by rewrite take_0, drop_0, app_nil_r. }
  destruct (Nat.ltb_spec (length got) want) as [Hlt|Hge].
  2: { exists rb. replace (want - length got)%nat with 0%nat by lia. rewrite take_0, drop_0, app_nil_r.
       by rewrite (proj2 (Nat.ltb_lt _ _)) by lia. }
  pose proof (read_byte_spec rb Hwf) as Hb. rewrite length_contents in Hn.
  destruct (read_byte rb) as [c rb1]. destruct Hb as (Hwf1 & Hc & Hav & He1); [lia|].
  rewrite length_app. cbn [length]. cbn zeta. destruct (Nat.eqb_spec (length got + 1) want) as [Heq|Hne].
  - exists rb1. replace (want - length got)%nat with 1%nat by lia. rewrite Nat.min_r by lia. rewrite Hc. simpl.
    rewrite take_0. split; [done|]. split; [split; [done|congruence]|]. by rewrite drop_0.
  - destruct (IH rb1 (got ++ [c])) as (rb' & Hr & Hok & Hcont); [split; [done|congruence]|rewrite length_contents; lia|rewrite length_app; simpl; lia|].
    rewrite length_app in Hr, Hcont. simpl in Hr, Hcont. exists rb'.
    replace (Nat.min (S n) (want - length got)) with (S (Nat.min n (want - (length got + 1)))) by lia.
    rewrite Hc. cbn [take drop]. split; [|done]. rewrite Hr, <- app_assoc. f_equal. by apply returns_step; lia.
Qed.

(** What one turn of [read] does: it takes what is there, up to the size of the
    buffer; it returns when the buffer is full or all writers are gone. *)
Lemma read_turn_spec rb strong want got :
  rb_ok rb → (length got ≤ want)%nat →
  ∃ rb', read_turn read_end_with_buffer rb strong want got =
      Ok (mk_turn ((negb (length (contents rb) =? 0)%nat && (want - length got <=? length (contents rb))%nat)
                   || (strong =? 0)%nat)
            (got ++ take (want - length got) (contents rb)), rb') ∧
    rb_ok rb' ∧ contents rb' = drop (want - length got) (contents rb).
Proof.
  intros Hok Hg. unfold read_turn. cbn [readable read_end_with_buffer assert mbind outcome_bind read_loop].
  rewrite <- length_contents. destruct (Nat.eqb_spec (length (contents rb)) 0) as [H0|Hne].
  { apply nil_length_inv in H0. unfold all_write_ends_closed. rewrite (proj2 Hok). exists rb.
    rewrite H0, take_nil, drop_nil, app_nil_r. by destruct (strong =? 0)%nat. }
  destruct (read_for_spec (length (contents rb)) rb want got Hok) as (rb1 & -> & Hok1 & Hc1); [lia|done|].
  rewrite (proj2 (Nat.ltb_lt _ _)) by lia. cbn [andb negb].
  destruct (Nat.leb_spec (want - length got) (length (contents rb))) as [Hle|Hgt].
  - exists rb1. rewrite Nat.min_r in * by lia. done.
  - rewrite Nat.min_l in * by lia. rewrite drop_all in Hc1. rewrite <- (length_contents rb1), Hc1. cbn [length Nat.eqb].
    unfold all_write_ends_closed. rewrite (proj2 Hok1). exists rb1.
    rewrite !take_ge, drop_ge by lia. by destruct (strong =? 0)%nat.
Qed.

Lemma write_for_spec n rb buf already :
  rb_ok rb → (length (contents rb) + n ≤ RING_BUFFER_SIZE)%nat → (already ≤ length buf)%nat →
  let k := Nat.min n (length buf - already) in
  ∃ rb', write_for n rb buf already = (rb', already + k, (0 <? n)%nat && (length buf - already <=? n)%nat)%nat ∧
    rb_ok rb' ∧ contents rb' = contents rb ++ take k (drop already buf).
Proof.
  revert rb already. induction n as [|n IH]; intros rb already [Hwf He] Hn Ha; cbn [write_for].
  { exists rb. simpl. by rewrite Nat.add_0_r, take_0, app_nil_r. }
  destruct (buf !! already) as [b|] eqn:Hb.
  2: { apply lookup_ge_None in Hb. exists rb. replace (length buf - already)%nat with 0%nat by lia.
       rewrite Nat.min_r by lia. by rewrite Nat.add_0_r, take_0, app_nil_r, (proj2 (Nat.ltb_lt _ _)) by lia. }
  pose proof (lookup_lt_Some _ _ _ Hb) as Hlt. rewrite length_contents in Hn.
  destruct (write_byte_spec rb b Hwf) as (Hwf1 & Hc & Hav & He1); [lia|]. rewrite (drop_S _ _ _ Hb).
  destruct (Nat.eqb_spec (S already) (length buf)) as [Heq|Hne].
  - exists (write_byte rb b). replace (length buf - already)%nat with 1%nat by lia. rewrite Nat.min_r by lia. simpl.
    rewrite take_0. split; [f_equal; f_equal; lia|]. split; [split; [done|congruence]|done].
  - destruct (IH (write_byte rb b) (S already)) as (rb' & Hr & Hok & Hcont);
      [split; [done|congruence]|rewrite length_contents; lia|lia|].
    exists rb'. replace (Nat.min (S n) (length buf - already)) with (S (Nat.min n (length buf - S already))) by lia.
    rewrite Hcont, Hc, <- app_assoc. split; [|done]. rewrite Hr. f_equal; [f_equal; lia|]. by apply returns_step; lia.
Qed.

(** One turn of [write]: it fills the free space; it returns when all the bytes
    are in. *)
Lemma write_turn_spec rb buf already :
  rb_ok rb → (already ≤ length buf)%nat →
  let room := (RING_BUFFER_SIZE - length (contents rb))%nat in
  let k := Nat.min room (length buf - already) in
  ∃ rb', write_turn write_end_with_buffer rb buf already =
      Ok (mk_turn (negb (room =? 0)%nat && (length buf - already <=? room)%nat) (already + k)%nat, rb') ∧
    rb_ok rb' ∧ contents rb' = contents rb ++ take k (drop already buf).
Proof.
  intros Hok Ha. unfold write_turn. cbn [writable write_end_with_buffer assert mbind outcome_bind write_loop].
  pose proof (available_bounds rb (proj1 Hok)) as Hb. rewrite <- length_contents in Hb.
  replace (available_write rb) with (RING_BUFFER_SIZE - length (contents rb))%nat by lia.
  set (room := (RING_BUFFER_SIZE - length (contents rb))%nat). simpl.
  destruct (Nat.eqb_spec room 0) as [H0|Hne].
  { exists rb. rewrite H0. simpl. by rewrite Nat.add_0_r, take_0, app_nil_r. }
  destruct (write_for_spec room rb buf already Hok) as (rb1 & -> & Hok1 & Hc1); [lia|done|].
  rewrite (proj2 (Nat.ltb_lt _ _)) by lia. cbn [andb negb].
  destruct (Nat.leb_spec (length buf - already) room) as [Hle|Hgt]; [by exists rb1|].
  exists rb1. rewrite Nat.min_l in * by lia. pose proof (available_bounds rb1 (proj1 Hok1)) as Hb1.
  assert (available_write rb1 = 0%nat) as ->; [|done]. rewrite <- length_contents, Hc1, length_app, length_take, length_drop in Hb1. lia.
Qed.

(** ** Any interleaving of readers and writers *)
Record psys := mkPS { p_rb : PipeRingBuffer; p_strong : nat; p_sent : list Z; p_recv : list Z }.

(** One turn of some reader or writer of the pipe, or a change in the number of
    handles on the write end. *)
Inductive pstep : psys → psys → Prop :=
| p_read rb st sent recv want got t rb' new :
    (length got ≤ want)%nat → read_turn read_end_with_buffer rb st want got = Ok (t, rb') → turn_val t = got ++ new →
    pstep (mkPS rb st sent recv) (mkPS rb' st sent (recv ++ new))
| p_write rb st sent recv buf already t rb' :
    (0 < st)%nat → (already ≤ length buf)%nat → write_turn write_end_with_buffer rb buf already = Ok (t, rb') →
    pstep (mkPS rb st sent recv) (mkPS rb' st (sent ++ take (turn_val t - already) (drop already buf)) recv)
| p_handles rb st sent recv st' :
    (0 < st)%nat → pstep (mkPS rb st sent recv) (mkPS rb st' sent recv).

Definition pinv (s : psys) : Prop := rb_ok (p_rb s) ∧ p_sent s = p_recv s ++ contents (p_rb s).

Lemma turn_val_mk {A} b (a : A) : turn_val (mk_turn b a) = a.
Proof. by destruct b. Qed.

Lemma pinv_step s s' : pinv s → pstep s s' → pinv s'.
Proof.
  intros [Hok Hs] Hst. destruct Hst as [rb st sent recv want got t rb' new Hg Hr Hnew|rb st sent recv buf al t rb' _ Ha Hw|];
    simpl in *; [..|done].
  - destruct (read_turn_spec rb st want got Hok Hg) as (rb1 & Hr1 & Hok1 & Hc1). rewrite Hr in Hr1.
    injection Hr1 as -> ->. rewrite turn_val_mk in Hnew. apply app_inv_head in Hnew as <-.
    split; [done|]. simpl. by rewrite Hs, Hc1, <- app_assoc, take_drop.
  - destruct (write_turn_spec rb buf al Hok Ha) as (rb1 & Hw1 & Hok1 & Hc1). rewrite Hw in Hw1.
    injection Hw1 as -> ->. rewrite turn_val_mk. split; [done|]. simpl.
    rewrite Hc1, Hs, <- app_assoc. do 3 f_equal. lia.
Qed.

(** C25 A pipe is a first-in first-out channel.  However the turns of any number
    of readers and writers interleave, the bytes read so far are, in order, the
    first of the bytes written, and at most 32 bytes are in flight. *)
Theorem pipe_fifo s :
  rtc pstep (mkPS (make_pipe).2 1 [] []) s →
  ∃ inflight, p_sent s = p_recv s ++ inflight ∧ inflight = contents (p_rb s) ∧ (length inflight ≤ 32)%nat.
Proof.
  intros Hr. assert (pinv s) as [Hok Hs].
  { eapply rtc_invariant; [apply pinv_step| |done]. split; [|done]. split; [apply rb_new_wf|done]. }
  exists (contents (p_rb s)). split_and!; [done|done|].
  pose proof (available_bounds _ (proj1 Hok)). rewrite length_contents. unfold RING_BUFFER_SIZE in *. lia.
Qed.

(** ** A complete transfer

    A writer with [buf] and a reader of [want] bytes take turns; the writer
    closes its end when its [write] returns. *)
Fixpoint transfer (rounds : nat) (rb : PipeRingBuffer) (buf : list Z) (already want : nat) (got : list Z)
    : outcome (option (list Z)) :=
  match rounds with
  | O => Ok None
  | S r =>
      '(tw, rb1) ← write_turn write_end_with_buffer rb buf already;
      let strong := match tw with Return _ => 0 | Suspend _ => 1 end%nat in
      '(tr, rb2) ← read_turn read_end_with_buffer rb1 strong want got;
      match tr with
      | Return g => Ok (Some g)
      | Suspend g => transfer r rb2 buf (turn_val tw) want g
      end
  end.

Lemma transfer_spec rounds rb buf al want :
  rb_ok rb → contents rb = [] → (al ≤ length buf)%nat → (al ≤ want)%nat → (length buf - al < rounds)%nat →
  transfer rounds rb buf al want (take al buf) = Ok (Some (take want buf)).
Proof.
  revert rb al. induction rounds as [|r IH]; intros rb al Hok Hc Ha Hw Hr; [lia|]. cbn [transfer].
  destruct (write_turn_spec rb buf al Hok Ha) as (rb1 & -> & Hok1 & Hc1). rewrite Hc in *. cbn [length app] in *.
  rewrite Nat.sub_0_r in *. change (negb (RING_BUFFER_SIZE =? 0)%nat) with true. cbn [andb mbind outcome_bind].
  assert (length (take al buf) = al) as Hl by (rewrite length_take; lia).
  assert (take al buf ++ take (want - al) (drop al buf) = take want buf) as Hall.
  { rewrite take_take_drop. f_equal. lia. }
  set (k := Nat.min RING_BUFFER_SIZE (length buf - al)) in *.
  assert (length (contents rb1) = k) as Hlc by (rewrite Hc1, length_take, length_drop; subst k; lia).
  set (strong := match mk_turn _ _ with Return _ => _ | Suspend _ => _ end).
  destruct (read_turn_spec rb1 strong want (take al buf) Hok1) as (rb2 & -> & Hok2 & Hc2); [lia|].
  cbn [mbind outcome_bind]. rewrite Hl, Hlc in *. rewrite Hc1 in Hc2 |- *.
  destruct (Nat.leb_spec (length buf - al) RING_BUFFER_SIZE) as [Hle|Hgt].
  - subst strong. simpl. rewrite orb_true_r. simpl. do 2 f_equal. rewrite <- Hall. f_equal.
    rewrite (take_ge (drop al buf)); [done|rewrite length_drop; subst k; lia].
  - subst strong. assert (k = RING_BUFFER_SIZE) as -> by (subst k; lia). simpl. rewrite orb_false_r.
    destruct (Nat.leb_spec (want - al) RING_BUFFER_SIZE) as [Hle'|Hgt'].
    + change (negb (RING_BUFFER_SIZE =? 0)%nat) with true. simpl. do 2 f_equal. rewrite <- Hall. f_equal.
      rewrite take_take. by rewrite Nat.min_l by lia.
    + simpl.
      rewrite (take_ge (take _ _)) by (rewrite length_take; lia).
      replace (take al buf ++ take RING_BUFFER_SIZE (drop al buf)) with (take (al + RING_BUFFER_SIZE) buf).
      * apply IH; [done| |lia|lia|unfold RING_BUFFER_SIZE in *; lia].
        rewrite Hc2. apply drop_ge. rewrite length_take. lia.
      * by rewrite take_take_drop.
Qed.

(** Data arrives.  When a writer of [buf] and a reader of [want] bytes take
    turns on a new pipe, the reader's call returns, with the first [want] bytes
    (or all of them when there are fewer, once the writer has closed), within
    [length buf + 1] rounds. *)
Theorem pipe_transfer buf want :
  transfer (S (length buf)) (make_pipe).2 buf 0 want [] = Ok (Some (take want buf)).
Proof.
  apply (transfer_spec (S (length buf)) (make_pipe).2 buf 0 want); [split; [apply rb_new_wf|done]|done|lia|lia|lia].
Qed.

Lemma pipe_fifo_witness :
  ∃ inflight, [1; 2; 3] = [1] ++ inflight ∧ inflight = [2; 3] ∧ (length inflight ≤ 32)%nat.
Proof.
  set (w := write_turn write_end_with_buffer (make_pipe).2 [1; 2; 3] 0).
  assert (∃ t rb rb', w = Ok (t, rb) ∧ turn_val t = 3%nat ∧
    read_turn read_end_with_buffer rb 1 1 [] = Ok (Return [1], rb') ∧ contents rb' = [2; 3])
    as (t & rb & rb' & Hw & Ht & Hr & Hc) by (do 3 eexists; repeat split; vm_compute; reflexivity).
  destruct (pipe_fifo (mkPS rb' 1 [1; 2; 3] [1])) as (fl & H1 & H2 & H3).
  - eapply rtc_l; [apply (p_write _ _ _ _ [1; 2; 3] 0 t rb); [lia|simpl; lia|exact Hw]|]. rewrite Ht.
    eapply rtc_l; [|apply rtc_refl]. by apply (p_read rb 1 [1; 2; 3] [] 1 [] (Return [1]) rb' [1]); [simpl; lia|..].
  - exists fl. simpl in H1, H2. split_and!; [done|congruence|done].
Defined.
