(* ===== verification/Sched.v ===== *)
(** * Scheduling and blocking synchronisation (os/src/task/{processor,manager,mod}.rs,
      os/src/sync/{mutex,semaphore,condvar}.rs, os/src/timer.rs,
      os/src/syscall/sync.rs)

    The single processor, the FIFO ready queue and the synchronisation objects of
    a process.  A thread is an identifier.  A kernel call runs until it returns
    to the thread or gives the processor away; [Cont] is what a thread that gave
    it away still has to do when it is dispatched again.  [__switch] to the idle
    flow is [current := None]. *)
From S2P Require Import Prelude.

Inductive TaskStatus := Ready | Running | Blocked.
#[global] Instance TaskStatus_eq_dec : EqDecision TaskStatus.
Proof. solve_decision. Defined.

Inductive Mutex :=
| MutexSpin (locked : bool)
| MutexBlocking (locked : bool) (wait_queue : list Z).
Record Semaphore := mkSem { sem_count : Z; sem_queue : list Z }.
Record Condvar := mkCV { cv_queue : list Z }.
Record TimerCondVar := mkTimer { expire_ms : Z; timer_task : Z }.

Inductive Cont :=
| CReturn             (* return to the caller *)
| CSpin (m : nat)     (* retry the loop of [MutexSpin::lock] *)
| CLocked (m : nat)   (* return from [MutexBlocking::lock] *)
| CRelock (m : nat).  (* [Condvar::wait]: call [mutex.lock()] *)
#[global] Instance Cont_eq_dec : EqDecision Cont.
Proof. solve_decision. Defined.

Record kst := mkK {
  current : option Z;
  ready_queue : list Z;
  status : gmap Z TaskStatus;
  conts : gmap Z Cont;
  mutex_list : list (option Mutex);
  semaphore_list : list (option Semaphore);
  condvar_list : list (option Condvar);
  timers : list TimerCondVar;
}.

Definition set_current (c : option Z) (s : kst) : kst :=
  mkK c (ready_queue s) (status s) (conts s) (mutex_list s) (semaphore_list s) (condvar_list s) (timers s).
Definition set_ready (q : list Z) (s : kst) : kst :=
  mkK (current s) q (status s) (conts s) (mutex_list s) (semaphore_list s) (condvar_list s) (timers s).
Definition set_task_status (t : Z) (st : TaskStatus) (s : kst) : kst :=
  mkK (current s) (ready_queue s) (<[t := st]> (status s)) (conts s) (mutex_list s) (semaphore_list s) (condvar_list s) (timers s).
Definition set_cont (t : Z) (c : Cont) (s : kst) : kst :=
  mkK (current s) (ready_queue s) (status s) (<[t := c]> (conts s)) (mutex_list s) (semaphore_list s) (condvar_list s) (timers s).
Definition set_mutexes (l : list (option Mutex)) (s : kst) : kst :=
  mkK (current s) (ready_queue s) (status s) (conts s) l (semaphore_list s) (condvar_list s) (timers s).
Definition set_sems (l : list (option Semaphore)) (s : kst) : kst :=
  mkK (current s) (ready_queue s) (status s) (conts s) (mutex_list s) l (condvar_list s) (timers s).
Definition set_condvars (l : list (option Condvar)) (s : kst) : kst :=
  mkK (current s) (ready_queue s) (status s) (conts s) (mutex_list s) (semaphore_list s) l (timers s).
Definition set_timers (l : list TimerCondVar) (s : kst) : kst :=
  mkK (current s) (ready_queue s) (status s) (conts s) (mutex_list s) (semaphore_list s) (condvar_list s) l.

(** ** The task manager and the processor *)
Definition add_task (t : Z) (s : kst) : kst := set_ready (ready_queue s ++ [t]) s.
Definition fetch_task (s : kst) : option Z * kst :=
  match ready_queue s with
  | t :: q => (Some t, set_ready q s)
  | [] => (None, s)
  end.
Definition wakeup_task (t : Z) (s : kst) : kst := add_task t (set_task_status t Ready s).

Definition take_current_task (s : kst) : outcome (Z * kst) :=
  t ← unwrap (current s); Ok (t, set_current None s).
Definition current_task (s : kst) : outcome Z := unwrap (current s).

Definition suspend_current_and_run_next (c : Cont) (s : kst) : outcome kst :=
  '(t, s) ← take_current_task s;
  Ok (add_task t (set_task_status t Ready (set_cont t c s))).
Definition block_current_and_run_next (c : Cont) (s : kst) : outcome kst :=
  '(t, s) ← take_current_task s;
  Ok (set_task_status t Blocked (set_cont t c s)).

(** One iteration of [run_tasks] that finds a task. *)
Definition run_task (s : kst) : option (Z * kst) :=
  match fetch_task s with
  | (Some t, s') => Some (t, set_current (Some t) (set_task_status t Running s'))
  | (None, _) => None
  end.

(** ** Mutexes *)
Definition spin_lock (m : nat) (locked : bool) (s : kst) : outcome kst :=
  if locked then suspend_current_and_run_next (CSpin m) s
  else Ok (set_mutexes (<[m := Some (MutexSpin true)]> (mutex_list s)) s).
Definition spin_unlock (m : nat) (s : kst) : outcome kst :=
  Ok (set_mutexes (<[m := Some (MutexSpin false)]> (mutex_list s)) s).
Definition blocking_lock (m : nat) (locked : bool) (q : list Z) (s : kst) : outcome kst :=
  if locked then
    t ← current_task s;
    block_current_and_run_next (CLocked m)
      (set_mutexes (<[m := Some (MutexBlocking locked (q ++ [t]))]> (mutex_list s)) s)
  else Ok (set_mutexes (<[m := Some (MutexBlocking true q)]> (mutex_list s)) s).
Definition blocking_unlock (m : nat) (locked : bool) (q : list Z) (s : kst) : outcome kst :=
  _ ← assert locked;
  match q with
  | t :: q' => Ok (wakeup_task t (set_mutexes (<[m := Some (MutexBlocking locked q')]> (mutex_list s)) s))
  | [] => Ok (set_mutexes (<[m := Some (MutexBlocking false [])]> (mutex_list s)) s)
  end.
(** Calls through [dyn Mutex]. *)
Definition mutex_lock (m : nat) (s : kst) : outcome kst :=
  match mutex_list s !! m with
  | Some (Some (MutexSpin locked)) => spin_lock m locked s
  | Some (Some (MutexBlocking locked q)) => blocking_lock m locked q s
  | _ => Err Panicked
  end.
Definition mutex_unlock (m : nat) (s : kst) : outcome kst :=
  match mutex_list s !! m with
  | Some (Some (MutexSpin _)) => spin_unlock m s
  | Some (Some (MutexBlocking locked q)) => blocking_unlock m locked q s
  | _ => Err Panicked
  end.

(** ** Semaphores: [count] is an [isize] *)
Definition semaphore_new (res_count : Z) : Semaphore := mkSem (as_isize res_count) [].
Definition semaphore_up (i : nat) (s : kst) : outcome kst :=
  match semaphore_list s !! i with
  | Some (Some (mkSem n q)) =>
      let n' := as_isize (n + 1) in
      match q with
      | t :: q' => Ok (wakeup_task t (set_sems (<[i := Some (mkSem n' q')]> (semaphore_list s)) s))
      | [] => Ok (set_sems (<[i := Some (mkSem n' [])]> (semaphore_list s)) s)
      end
  | _ => Err Panicked
  end.
Definition semaphore_down (i : nat) (s : kst) : outcome kst :=
  match semaphore_list s !! i with
  | Some (Some (mkSem n q)) =>
      let n' := as_isize (n - 1) in
      if n' <? 0 then
        t ← current_task s;
        block_current_and_run_next CReturn (set_sems (<[i := Some (mkSem n' (q ++ [t]))]> (semaphore_list s)) s)
      else Ok (set_sems (<[i := Some (mkSem n' q)]> (semaphore_list s)) s)
  | _ => Err Panicked
  end.

(** ** Condition variables *)
Definition condvar_signal (c : nat) (s : kst) : outcome kst :=
  match condvar_list s !! c with
  | Some (Some (mkCV (t :: q))) => Ok (wakeup_task t (set_condvars (<[c := Some (mkCV q)]> (condvar_list s)) s))
  | Some (Some (mkCV [])) => Ok s
  | _ => Err Panicked
  end.
(** [wait] up to the switch; the final [mutex.lock()] is the continuation. *)
Definition condvar_wait (c m : nat) (s : kst) : outcome kst :=
  s ← mutex_unlock m s;
  match condvar_list s !! c with
  | Some (Some (mkCV q)) =>
      t ← current_task s;
      block_current_and_run_next (CRelock m) (set_condvars (<[c := Some (mkCV (q ++ [t]))]> (condvar_list s)) s)
  | _ => Err Panicked
  end.

(** What a dispatched thread does first. *)
Definition resume (t : Z) (s : kst) : outcome kst :=
  match conts s !! t with
  | Some (CSpin m) | Some (CRelock m) => mutex_lock m s
  | _ => Ok s
  end.

(** ** Timers: [push], [peek] and [pop] of the binary heap on a list with the
    greatest element first, in the order of [Ord for TimerCondVar] *)
Definition timer_key (x : TimerCondVar) : Z := as_isize (- as_isize (expire_ms x)).
Fixpoint timer_push (x : TimerCondVar) (l : list TimerCondVar) : list TimerCondVar :=
  match l with
  | [] => [x]
  | y :: l' => if timer_key x <=? timer_key y then y :: timer_push x l' else x :: l
  end.
Definition add_timer (expire t : Z) (s : kst) : kst := set_timers (timer_push (mkTimer expire t) (timers s)) s.

Fixpoint check_timer_loop (l : list TimerCondVar) (current_ms : Z) (s : kst) : kst :=
  match l with
  | timer :: rest =>
      if expire_ms timer <=? current_ms
      then check_timer_loop rest current_ms (set_timers rest (wakeup_task (timer_task timer) s))
      else s
  | [] => s
  end.
Definition check_timer (current_ms : Z) (s : kst) : kst := check_timer_loop (timers s) current_ms s.

(** ** System calls *)
Definition sys_sleep (now ms : Z) (s : kst) : outcome kst :=
  t ← current_task s;
  block_current_and_run_next CReturn (add_timer (u64 (now + ms)) t s).

(** The first free slot, or a new one at the end. *)
Definition first_free {A} (l : list (option A)) (x : A) : nat * list (option A) :=
  match list_find (λ v, v = None) l with
  | Some (idx, _) => (idx, <[idx := Some x]> l)
  | None => (length l, l ++ [Some x])
  end.
Definition sys_mutex_create (blocking : bool) (s : kst) : Z * kst :=
  let '(i, l) := first_free (mutex_list s) (if blocking then MutexBlocking false [] else MutexSpin false) in
  (Z.of_nat i, set_mutexes l s).
Definition sys_semaphore_create (res_count : Z) (s : kst) : Z * kst :=
  let '(i, l) := first_free (semaphore_list s) (semaphore_new res_count) in (Z.of_nat i, set_sems l s).
Definition sys_condvar_create (s : kst) : Z * kst :=
  let '(i, l) := first_free (condvar_list s) (mkCV []) in (Z.of_nat i, set_condvars l s).

Definition has {A} (l : list (option A)) (i : Z) : bool :=
  match l !! Z.to_nat i with Some (Some _) => true | _ => false end.
Definition sys_mutex_lock (i : Z) (s : kst) : outcome (Z * kst) :=
  if has (mutex_list s) i then s' ← mutex_lock (Z.to_nat i) s; Ok (0, s') else Ok (-1, s).
Definition sys_mutex_unlock (i : Z) (s : kst) : outcome (Z * kst) :=
  if has (mutex_list s) i then s' ← mutex_unlock (Z.to_nat i) s; Ok (0, s') else Ok (-1, s).
Definition sys_semaphore_up (i : Z) (s : kst) : outcome (Z * kst) :=
  if has (semaphore_list s) i then s' ← semaphore_up (Z.to_nat i) s; Ok (0, s') else Ok (-1, s).
Definition sys_semaphore_down (i : Z) (s : kst) : outcome (Z * kst) :=
  if has (semaphore_list s) i then s' ← semaphore_down (Z.to_nat i) s; Ok (0, s') else Ok (-1, s).
Definition sys_condvar_signal (i : Z) (s : kst) : outcome (Z * kst) :=
  if has (condvar_list s) i then s' ← condvar_signal (Z.to_nat i) s; Ok (0, s') else Ok (-1, s).
Definition sys_condvar_wait (c m : Z) (s : kst) : outcome (Z * kst) :=
  if negb (has (mutex_list s) m) then Ok (-1, s)
  else if negb (has (condvar_list s) c) then Ok (-1, s)
  else s' ← condvar_wait (Z.to_nat c) (Z.to_nat m) s; Ok (0, s').

(** ** Where each thread is *)
Definition queue_m (o : option Mutex) : list Z := match o with Some (MutexBlocking _ q) => q | _ => [] end.
Definition queue_s (o : option Semaphore) : list Z := match o with Some x => sem_queue x | None => [] end.
Definition queue_c (o : option Condvar) : list Z := match o with Some x => cv_queue x | None => [] end.
Definition waiters (s : kst) : list Z :=
  concat (queue_m <$> mutex_list s) ++ concat (queue_s <$> semaphore_list s) ++
  concat (queue_c <$> condvar_list s) ++ (timer_task <$> timers s).
Definition places (s : kst) : list Z := option_list (current s) ++ ready_queue s ++ waiters s.

(** Every thread is in one place, and its status says which. *)
Record placed (s : kst) : Prop := {
  pl_nodup : NoDup (places s);
  pl_current : ∀ t, current s = Some t → status s !! t = Some Running;
  pl_ready : ∀ t, t ∈ ready_queue s → status s !! t = Some Ready;
  pl_waiting : ∀ t, t ∈ waiters s → status s !! t = Some Blocked;
  pl_all : ∀ t, is_Some (status s !! t) → t ∈ places s;
}.

Lemma concat_insert {A} (f : A → list Z) (l : list A) i x y :
  l !! i = Some x → concat (f <$> <[i := y]> l) ++ f x ≡ₚ concat (f <$> l) ++ f y.
Proof.
  intros Hi. pose proof (lookup_lt_Some _ _ _ Hi) as Hlt.
  rewrite insert_take_drop by done. rewrite <- (take_drop_middle l i x Hi) at 3.
  rewrite !fmap_app, !fmap_cons, !concat_app. simpl. rewrite <- !app_assoc.
  apply Permutation_app_head. rewrite (Permutation_app_comm (concat (f <$> drop (S i) l)) (f x)).
  rewrite (Permutation_app_comm (concat (f <$> drop (S i) l)) (f y)). rewrite !app_assoc.
  apply Permutation_app_tail, Permutation_app_comm.
Qed.

(** ** Wait queues *)
Inductive qid := QM (m : nat) | QS (i : nat) | QC (c : nat) | QT.

Definition queue_of (s : kst) (q : qid) : list Z :=
  match q with
  | QM m => default [] (queue_m <$> mutex_list s !! m)
  | QS i => default [] (queue_s <$> semaphore_list s !! i)
  | QC c => default [] (queue_c <$> condvar_list s !! c)
  | QT => timer_task <$> timers s
  end.

Definition mutex_exists (s : kst) (m : nat) : Prop := ∃ x, mutex_list s !! m = Some (Some x).
Definition locked_of (s : kst) (m : nat) : bool :=
  match mutex_list s !! m with
  | Some (Some (MutexSpin l)) | Some (Some (MutexBlocking l _)) => l
  | _ => false
  end.

(** What a thread blocked in a queue will do when it runs again. *)
Definition fits (s : kst) (q : qid) (c : Cont) : Prop :=
  match q with
  | QM m => c = CLocked m ∧ mutex_exists s m
  | QS _ | QT => c = CReturn
  | QC _ => ∃ m, c = CRelock m ∧ mutex_exists s m
  end.
Definition cont_ok (s : kst) (c : Cont) : Prop :=
  match c with CReturn => True | CSpin m | CLocked m | CRelock m => mutex_exists s m end.

(** Ghost state: [cs] holds the pairs (thread, mutex) for which [lock] has
    returned and [unlock] has not been called.  A woken waiter owns the mutex
    before it runs. *)
Definition owns (s : kst) (cs : gset (Z * nat)) (t : Z) (m : nat) : Prop :=
  (t, m) ∈ cs ∨ (t ∈ ready_queue s ∧ conts s !! t = Some (CLocked m)).

Record inv (s : kst) (cs : gset (Z * nat)) : Prop := {
  in_placed : placed s;
  in_queues : ∀ q t, t ∈ queue_of s q → ∃ c, conts s !! t = Some c ∧ fits s q c;
  in_ready : ∀ t, t ∈ ready_queue s → ∃ c, conts s !! t = Some c ∧ cont_ok s c;
  in_excl : ∀ m t t', owns s cs t m → owns s cs t' m → t = t';
  in_locked : ∀ m, (∃ t, owns s cs t m) ↔ locked_of s m = true;
}.

Lemma elem_of_queues {A} (f : A → list Z) l t :
  t ∈ concat (f <$> l) ↔ ∃ i, t ∈ default [] (f <$> l !! i).
Proof.
  rewrite list_elem_of_In, in_concat. setoid_rewrite <- list_elem_of_In. split.
  - intros (q & Hq & Ht). apply list_elem_of_fmap in Hq as (x & -> & Hx). apply list_elem_of_lookup in Hx as [i Hi].
    exists i. by rewrite Hi.
  - intros [i Hi]. destruct (l !! i) as [x|] eqn:Hx; simpl in Hi; [|set_solver].
    exists (f x). split; [|done]. apply list_elem_of_fmap_2. by eapply list_elem_of_lookup_2.
Qed.

Lemma waiting_in_queue s t : t ∈ waiters s ↔ ∃ q, t ∈ queue_of s q.
Proof.
  unfold waiters. rewrite !elem_of_app, !elem_of_queues. split.
  - intros [[i Hi]|[[i Hi]|[[i Hi]|Hi]]]; [by exists (QM i)|by exists (QS i)|by exists (QC i)|by exists QT].
  - intros [[m|i|c|] Hq]; simpl in Hq; eauto.
Qed.

Lemma current_elsewhere s t : placed s → current s = Some t → t ∉ ready_queue s ∧ t ∉ waiters s.
Proof.
  intros [Hnd _ _ _ _] Hc. unfold places in Hnd. rewrite Hc in Hnd. simpl in Hnd.
  apply NoDup_cons in Hnd as [Hn _]. rewrite elem_of_app in Hn. tauto.
Qed.

(** *** The four moves of a thread *)
Lemma placed_all_insert s t st t' :
  (∀ x, is_Some (status s !! x) → x ∈ places s) → is_Some (status s !! t) →
  is_Some (<[t := st]> (status s) !! t') → t' ∈ places s.
Proof.
  intros Ha Ht Ht'. apply Ha. destruct (decide (t' = t)) as [->|Hne]; [done|]. by rewrite lookup_insert_ne in Ht'.
Qed.

Lemma placed_suspend s s' t :
  placed s → current s = Some t → current s' = None → ready_queue s' = ready_queue s ++ [t] →
  waiters s' = waiters s → status s' = <[t := Ready]> (status s) → placed s'.
Proof.
  intros Hp Hc Hc' Hr Hw Hs. destruct (current_elsewhere s t Hp Hc) as [Hn1 Hn2]. destruct Hp as [Hnd Hpc Hpr Hpw Hpa].
  assert (places s' ≡ₚ places s) as Hperm.
  { unfold places. rewrite Hc, Hc', Hr, Hw. simpl. rewrite <- app_assoc. simpl. by rewrite <- Permutation_middle. }
  split; [by rewrite Hperm| | | |intros t' Ht'; rewrite Hperm; rewrite Hs in Ht'; by eapply placed_all_insert; [|eexists; by apply Hpc|]];
    rewrite ?Hc', ?Hr, ?Hw, ?Hs.
  - done.
  - intros t' [Ht'| ->%list_elem_of_singleton]%elem_of_app; [|apply lookup_insert_eq].
    rewrite lookup_insert_ne by (intros ->; done). by apply Hpr.
  - intros t' Ht'. rewrite lookup_insert_ne by (intros ->; done). by apply Hpw.
Qed.

Lemma placed_block s s' t :
  placed s → current s = Some t → current s' = None → ready_queue s' = ready_queue s →
  waiters s' ≡ₚ t :: waiters s → status s' = <[t := Blocked]> (status s) → placed s'.
Proof.
  intros Hp Hc Hc' Hr Hw Hs. destruct (current_elsewhere s t Hp Hc) as [Hn1 Hn2]. destruct Hp as [Hnd Hpc Hpr Hpw Hpa].
  assert (places s' ≡ₚ places s) as Hperm.
  { unfold places. rewrite Hc, Hc', Hr, Hw. simpl. by rewrite <- Permutation_middle. }
  split; [by rewrite Hperm| | | |intros t' Ht'; rewrite Hperm; rewrite Hs in Ht'; by eapply placed_all_insert; [|eexists; by apply Hpc|]];
    rewrite ?Hc', ?Hr, ?Hs.
  - done.
  - intros t' Ht'. rewrite lookup_insert_ne by (intros ->; done). by apply Hpr.
  - intros t'. rewrite Hw. intros [->|Ht']%elem_of_cons; [apply lookup_insert_eq|].
    rewrite lookup_insert_ne by (intros ->; done). by apply Hpw.
Qed.

Lemma placed_wake s s' t :
  placed s → waiters s ≡ₚ t :: waiters s' → current s' = current s → ready_queue s' = ready_queue s ++ [t] →
  status s' = <[t := Ready]> (status s) → placed s'.
Proof.
  intros [Hnd Hpc Hpr Hpw Hpa] Hw Hc Hr Hs.
  assert (places s' ≡ₚ places s) as Hperm by (unfold places; by rewrite Hw, Hc, Hr, <- app_assoc).
  assert (NoDup (places s')) as Hnd' by (by rewrite Hperm).
  unfold places in Hnd. rewrite Hw in Hnd.
  rewrite (app_assoc (option_list (current s))), <- Permutation_middle in Hnd. apply NoDup_cons in Hnd as [Hn _].
  rewrite !elem_of_app in Hn.
  assert (is_Some (status s !! t)) as Hst by (exists Blocked; apply Hpw; rewrite Hw; by left).
  split; [done| | | |intros t' Ht'; rewrite Hperm; rewrite Hs in Ht'; by eapply placed_all_insert]; rewrite ?Hc, ?Hr, ?Hs.
  - intros t' Ht'. rewrite lookup_insert_ne; [by apply Hpc|]. intros ->. apply Hn. rewrite Ht'. simpl. set_solver.
  - intros t' [Ht'| ->%list_elem_of_singleton]%elem_of_app; [|apply lookup_insert_eq].
    rewrite lookup_insert_ne; [by apply Hpr|]. intros ->. apply Hn. auto.
  - intros t' Ht'. rewrite lookup_insert_ne; [apply Hpw; rewrite Hw; by right|]. intros ->. apply Hn. auto.
Qed.

Lemma placed_dispatch s s' t :
  placed s → current s = None → ready_queue s = t :: ready_queue s' → current s' = Some t →
  waiters s' = waiters s → status s' = <[t := Running]> (status s) → placed s'.
Proof.
  intros [Hnd Hpc Hpr Hpw Hpa] Hc Hr Hc' Hw Hs.
  assert (places s' = places s) as Hpl by (unfold places; by rewrite Hc, Hr, Hc', Hw).
  pose proof Hnd as Hnd0. unfold places in Hnd. rewrite Hc, Hr in Hnd. simpl in Hnd.
  apply NoDup_cons in Hnd as [Hn Hnd]. rewrite elem_of_app in Hn.
  assert (is_Some (status s !! t)) as Hst by (exists Ready; apply Hpr; rewrite Hr; by left).
  split; [by rewrite Hpl| | | |intros t' Ht'; rewrite Hpl; rewrite Hs in Ht'; by eapply placed_all_insert];
    rewrite ?Hc', ?Hw, ?Hs.
  - intros t' [= ->]. apply lookup_insert_eq.
  - intros t' Ht'. rewrite lookup_insert_ne by (intros ->; tauto). apply Hpr. rewrite Hr. by right.
  - intros t' Ht'. rewrite lookup_insert_ne by (intros ->; tauto). by apply Hpw.
Qed.

(** *** The moves keep the invariant *)
Section moves.
Context (s s' : kst) (cs : gset (Z * nat)).
Context (Hinv : inv s cs).

Definition same_mutexes : Prop :=
  (∀ m, locked_of s' m = locked_of s m) ∧ (∀ m, mutex_exists s m → mutex_exists s' m).

Lemma fits_mono q c : (∀ m, mutex_exists s m → mutex_exists s' m) → fits s q c → fits s' q c.
Proof. intros H. destruct q; simpl; naive_solver. Qed.
Lemma cont_ok_mono c : (∀ m, mutex_exists s m → mutex_exists s' m) → cont_ok s c → cont_ok s' c.
Proof. intros H. destruct c; simpl; naive_solver. Qed.

(** If the owners and the locked flags are the same, so is exclusion. *)
Lemma inv_owners cs' :
  placed s' → (∀ q t, t ∈ queue_of s' q → ∃ c, conts s' !! t = Some c ∧ fits s' q c) →
  (∀ t, t ∈ ready_queue s' → ∃ c, conts s' !! t = Some c ∧ cont_ok s' c) →
  (∀ t m, owns s' cs' t m ↔ owns s cs t m) → (∀ m, locked_of s' m = locked_of s m) → inv s' cs'.
Proof.
  intros Hp Hq Hr Ho Hl. destruct Hinv as [_ _ _ He Hk]. split; [done|done|done|..].
  - intros m t t'. rewrite !Ho. apply He.
  - intros m. rewrite Hl, <- Hk. split; intros [t Ht]; exists t; by apply Ho.
Qed.

Context (t : Z).

Lemma inv_suspend c :
  current s = Some t → current s' = None → ready_queue s' = ready_queue s ++ [t] → waiters s' = waiters s →
  (∀ q, queue_of s' q = queue_of s q) → status s' = <[t := Ready]> (status s) → conts s' = <[t := c]> (conts s) →
  same_mutexes → (∀ m, c ≠ CLocked m) → cont_ok s c → inv s' cs.
Proof.
  intros Hc Hc' Hr Hw Hq Hs Hk [Hl He] Hnl Hok.
  destruct (current_elsewhere s t (in_placed _ _ Hinv) Hc) as [Hn1 Hn2].
  apply inv_owners; [by eapply placed_suspend; try done; apply Hinv|..|done].
  - intros q t' Ht'. rewrite Hq in Ht'. destruct (in_queues _ _ Hinv q t' Ht') as (c' & Hc1 & Hf).
    exists c'. split; [|by apply fits_mono]. rewrite Hk, lookup_insert_ne; [done|].
    intros ->. apply Hn2, waiting_in_queue. by exists q.
  - intros t'. rewrite Hr, Hk. intros [Ht'| ->%list_elem_of_singleton]%elem_of_app.
    + destruct (in_ready _ _ Hinv t' Ht') as (c' & Hc1 & Hf). exists c'.
      rewrite lookup_insert_ne by (intros ->; done). split; [done|by apply cont_ok_mono].
    + exists c. rewrite lookup_insert_eq. split; [done|by apply cont_ok_mono].
  - intros t' m. unfold owns. rewrite Hr, Hk, elem_of_app, list_elem_of_singleton.
    destruct (decide (t' = t)) as [->|Hne]; [rewrite lookup_insert_eq|rewrite lookup_insert_ne by done].
    + split; [|tauto]. intros [?|[_ [= ->]]]; [by left|]. by destruct (Hnl m).
    + tauto.
Qed.

Lemma inv_block q c :
  current s = Some t → current s' = None → ready_queue s' = ready_queue s → waiters s' ≡ₚ t :: waiters s →
  (∀ q' t', t' ∈ queue_of s' q' → t' ∈ queue_of s q' ∨ (q' = q ∧ t' = t)) →
  status s' = <[t := Blocked]> (status s) → conts s' = <[t := c]> (conts s) →
  same_mutexes → fits s q c → inv s' cs.
Proof.
  intros Hc Hc' Hr Hw Hq Hs Hk [Hl He] Hfit.
  destruct (current_elsewhere s t (in_placed _ _ Hinv) Hc) as [Hn1 Hn2].
  apply inv_owners; [by eapply placed_block; try done; apply Hinv|..|done].
  - intros q' t' [Ht'|[-> ->]]%Hq.
    + destruct (in_queues _ _ Hinv q' t' Ht') as (c' & Hc1 & Hf). exists c'. split; [|by apply fits_mono].
      rewrite Hk, lookup_insert_ne; [done|]. intros ->. apply Hn2, waiting_in_queue. by exists q'.
    + exists c. rewrite Hk, lookup_insert_eq. split; [done|by apply fits_mono].
  - intros t'. rewrite Hr, Hk. intros Ht'. destruct (in_ready _ _ Hinv t' Ht') as (c' & Hc1 & Hf). exists c'.
    rewrite lookup_insert_ne by (intros ->; done). split; [done|by apply cont_ok_mono].
  - intros t' m. unfold owns. rewrite Hr, Hk.
    destruct (decide (t' = t)) as [->|Hne]; [tauto|]. by rewrite lookup_insert_ne.
Qed.

(** A woken thread leaves its queue for the ready queue. *)
Section wake.
Context (q : qid) (Hq : t ∈ queue_of s q) (Hw : waiters s ≡ₚ t :: waiters s').
Context (Hc : current s' = current s) (Hr : ready_queue s' = ready_queue s ++ [t]).
Context (Hqs : ∀ q' t', t' ∈ queue_of s' q' → t' ∈ queue_of s q').
Context (Hs : status s' = <[t := Ready]> (status s)) (Hk : conts s' = conts s) (Hm : same_mutexes).

Lemma wake_facts : placed s' ∧ (∀ q t, t ∈ queue_of s' q → ∃ c, conts s' !! t = Some c ∧ fits s' q c) ∧
  (∀ t, t ∈ ready_queue s' → ∃ c, conts s' !! t = Some c ∧ cont_ok s' c) ∧ t ∉ ready_queue s.
Proof.
  destruct Hm as [_ He]. split_and!.
  - by eapply placed_wake; try done; apply Hinv.
  - intros q' t' Ht'%Hqs. destruct (in_queues _ _ Hinv q' t' Ht') as (c & Hc1 & Hf). exists c.
    rewrite Hk. split; [done|by apply fits_mono].
  - intros t'. rewrite Hr, Hk. intros [Ht'| ->%list_elem_of_singleton]%elem_of_app.
    + destruct (in_ready _ _ Hinv t' Ht') as (c & Hc1 & Hf). exists c. split; [done|by apply cont_ok_mono].
    + destruct (in_queues _ _ Hinv q t Hq) as (c & Hc1 & Hf). exists c. split; [done|]. apply cont_ok_mono; [done|].
      destruct q; simpl in Hf; naive_solver.
  - pose proof (pl_nodup _ (in_placed _ _ Hinv)) as Hnd. unfold places in Hnd. rewrite Hw in Hnd.
    rewrite (app_assoc (option_list _)), <- Permutation_middle in Hnd. apply NoDup_cons in Hnd as [Hn _]. set_solver.
Qed.

Lemma inv_wake : (∀ m, q ≠ QM m) → inv s' cs.
Proof.
  intros Hne. destruct wake_facts as (Hp & H1 & H2 & Hn). apply inv_owners; [done|done|done| |apply Hm].
  intros t' m. unfold owns. rewrite Hr, Hk, elem_of_app, list_elem_of_singleton. split; [|tauto].
  intros [?|[[?| ->] Hcont]]; [by left|by right|]. destruct (in_queues _ _ Hinv q t Hq) as (c & Hc1 & Hf).
  rewrite Hcont in Hc1. injection Hc1 as <-. destruct q as [m'| | |]; simpl in Hf; [by destruct (Hne m')|naive_solver..].
Qed.

(** Hand-off: the owner leaves and the woken waiter owns the mutex. *)
Lemma inv_handoff m t0 :
  q = QM m → current s = Some t0 → (t0, m) ∈ cs → inv s' (cs ∖ {[(t0, m)]}).
Proof.
  intros Heq Hcur Hin. destruct wake_facts as (Hp & H1 & H2 & Hn).
  destruct (current_elsewhere s t0 (in_placed _ _ Hinv) Hcur) as [Hn0 _].
  destruct (in_queues _ _ Hinv q t Hq) as (c & Hcont & Hf). rewrite Heq in Hf. destruct Hf as [-> _].
  assert (∀ x n, owns s' (cs ∖ {[(t0, m)]}) x n ↔ (n ≠ m ∧ owns s cs x n) ∨ (n = m ∧ x = t)) as Ho.
  { intros x n. unfold owns. rewrite Hr, Hk, elem_of_app, list_elem_of_singleton, elem_of_difference, elem_of_singleton.
    destruct (decide (n = m)) as [->|Hne].
    - split; [|naive_solver]. intros [[Hx Hx']|[[Hx| ->] Hxc]]; [..|naive_solver].
      + assert (x = t0) as -> by (eapply (in_excl _ _ Hinv m); left; done). by destruct Hx'.
      + assert (x = t0) as -> by (eapply (in_excl _ _ Hinv m); [right; done|by left]). done.
    - split; [|naive_solver]. intros [[Hx _]|[[Hx| ->] Hxc]]; [naive_solver..|]. congruence. }
  destruct Hinv as [_ _ _ He Hlk]. split; [done|done|done|..].
  - intros n x y Hx%Ho Hy%Ho. destruct Hx as [[? Hx]|[-> ->]], Hy as [[? Hy]|[? ->]]; naive_solver.
  - intros n. rewrite (proj1 Hm), <- Hlk. destruct (decide (n = m)) as [->|Hne].
    + split; intros _; [exists t0; by left|exists t; apply Ho; by right].
    + split; intros [x Hx]; exists x; [apply Ho in Hx|apply Ho]; naive_solver.
Qed.
End wake.

(** Nothing moves but the locked flag of [m] and its owner. *)
Section flag.
Context (m : nat) (Hcur : current s = Some t).
Context (Hp : placed s') (Hr : ready_queue s' = ready_queue s) (Hk : conts s' = conts s).
Context (Hqs : ∀ q, queue_of s' q = queue_of s q) (He : ∀ n, mutex_exists s n → mutex_exists s' n).
Context (Hl : ∀ n, n ≠ m → locked_of s' n = locked_of s n).

Lemma flag_facts : (∀ q t, t ∈ queue_of s' q → ∃ c, conts s' !! t = Some c ∧ fits s' q c) ∧
  (∀ t, t ∈ ready_queue s' → ∃ c, conts s' !! t = Some c ∧ cont_ok s' c).
Proof.
  rewrite Hr, Hk. split.
  - intros q t' Ht'. rewrite Hqs in Ht'. destruct (in_queues _ _ Hinv q t' Ht') as (c & ? & ?). exists c.
    split; [done|by apply fits_mono].
  - intros t' Ht'. destruct (in_ready _ _ Hinv t' Ht') as (c & ? & ?). exists c. split; [done|by apply cont_ok_mono].
Qed.

Lemma inv_acquire : locked_of s m = false → locked_of s' m = true → inv s' ({[(t, m)]} ∪ cs).
Proof.
  intros Hl0 Hl1. destruct flag_facts as [H1 H2]. pose proof (in_excl _ _ Hinv) as Hex. pose proof (in_locked _ _ Hinv) as Hlk.
  assert (∀ x, ¬ owns s cs x m) as Hno.
  { intros x Hx. assert (locked_of s m = true) by (apply Hlk; by exists x). congruence. }
  assert (∀ x n, owns s' ({[(t, m)]} ∪ cs) x n ↔ (n = m ∧ x = t) ∨ owns s cs x n) as Ho.
  { intros x n. unfold owns. rewrite Hr, Hk. set_solver. }
  split; [done|done|done|..].
  - intros n x y Hx%Ho Hy%Ho. destruct Hx as [[-> ->]|Hx], Hy as [[? ->]|Hy]; [done|naive_solver..].
  - intros n. destruct (decide (n = m)) as [->|Hne].
    + rewrite Hl1. split; [done|]. intros _. exists t. apply Ho. by left.
    + rewrite Hl by done. rewrite <- Hlk. split; intros [x Hx]; exists x; [apply Ho in Hx|apply Ho]; naive_solver.
Qed.

Lemma inv_release : (t, m) ∈ cs → locked_of s' m = false → inv s' (cs ∖ {[(t, m)]}).
Proof.
  intros Hin Hl1. destruct flag_facts as [H1 H2]. pose proof (in_excl _ _ Hinv) as Hex. pose proof (in_locked _ _ Hinv) as Hlk.
  destruct (current_elsewhere s t (in_placed _ _ Hinv) Hcur) as [Hn0 _].
  assert (∀ x n, owns s' (cs ∖ {[(t, m)]}) x n ↔ n ≠ m ∧ owns s cs x n) as Ho.
  { intros x n. destruct (decide (n = m)) as [->|Hne]; [|unfold owns; rewrite Hr, Hk; set_solver].
    split; [|tauto]. intros Hx. assert (owns s cs x m) as Hx' by (unfold owns in *; rewrite Hr, Hk in Hx; set_solver).
    assert (x = t) as -> by (eapply (Hex m); [done|by left]).
    unfold owns in Hx. rewrite Hr, Hk in Hx. set_solver. }
  split; [done|done|done|..].
  - intros n x y Hx%Ho Hy%Ho. naive_solver.
  - intros n. destruct (decide (n = m)) as [->|Hne].
    + rewrite Hl1. split; [|done]. intros [x Hx%Ho]. naive_solver.
    + rewrite Hl by done. rewrite <- Hlk. split; intros [x Hx]; exists x; [apply Ho in Hx|apply Ho]; naive_solver.
Qed.
End flag.
End moves.

(** *** Queues of updated objects *)
Section objects.
Context {A : Type} (f : A → list Z) (l : list A) (i : nat) (x y : A) (Hi : l !! i = Some x).

Lemma concat_push t : f y = f x ++ [t] → concat (f <$> <[i := y]> l) ≡ₚ t :: concat (f <$> l).
Proof.
  intros Hy. pose proof (concat_insert f l i x y Hi) as H. rewrite Hy, app_assoc in H.
  rewrite (Permutation_app_comm _ [t]) in H. simpl in H. by apply (Permutation_app_inv_r (f x)).
Qed.
Lemma concat_pop t : f x = t :: f y → concat (f <$> l) ≡ₚ t :: concat (f <$> <[i := y]> l).
Proof.
  intros Hy. pose proof (concat_insert f l i x y Hi) as H. rewrite Hy in H.
  rewrite <- Permutation_middle in H. symmetry. by apply (Permutation_app_inv_r (f y)).
Qed.
Lemma fmap_same : f y = f x → f <$> <[i := y]> l = f <$> l.
Proof. intros Hy. rewrite list_fmap_insert, Hy. apply list_insert_id. by rewrite list_lookup_fmap, Hi. Qed.
Lemma queue_insert j : default [] (f <$> <[i := y]> l !! j) = if decide (j = i) then f y else default [] (f <$> l !! j).
Proof.
  case_decide as Hj; [|by rewrite list_lookup_insert_ne].
  rewrite Hj, list_lookup_insert_eq by (by eapply lookup_lt_Some). done.
Qed.
Lemma queue_old : default [] (f <$> l !! i) = f x.
Proof. by rewrite Hi. Qed.
End objects.

Lemma mutex_update s m x y :
  mutex_list s !! m = Some (Some x) → let s' := set_mutexes (<[m := Some y]> (mutex_list s)) s in
  (∀ n, mutex_exists s n → mutex_exists s' n) ∧
  (∀ n, n ≠ m → locked_of s' n = locked_of s n) ∧
  locked_of s' m = match y with MutexSpin l | MutexBlocking l _ => l end.
Proof.
  intros Hx. simpl. unfold mutex_exists, locked_of. simpl.
  assert (∀ n, n ≠ m → <[m := Some y]> (mutex_list s) !! n = mutex_list s !! n) as Hne
    by (intros n Hn; by rewrite list_lookup_insert_ne).
  assert (<[m := Some y]> (mutex_list s) !! m = Some (Some y)) as Heq
    by (apply list_lookup_insert_eq; by eapply lookup_lt_Some).
  split_and!.
  - intros n [z Hz]. destruct (decide (n = m)) as [->|Hn]; [by exists y|]. exists z. by rewrite Hne.
  - intros n Hn. by rewrite Hne.
  - by rewrite Heq.
Qed.

(** Placement only looks at these fields. *)
Lemma placed_same s s' :
  placed s → current s' = current s → ready_queue s' = ready_queue s → waiters s' = waiters s →
  status s' = status s → placed s'.
Proof. intros [H1 H2 H3 H4 H5] Hc Hr Hw Hs. split; unfold places; rewrite ?Hc, ?Hr, ?Hw, ?Hs; done. Qed.

Definition acquired (s' : kst) (t : Z) (m : nat) : gset (Z * nat) :=
  if decide (current s' = Some t) then {[(t, m)]} else ∅.

Lemma acquired_none s' t m cs : current s' = None → acquired s' t m ∪ cs = cs.
Proof. unfold acquired. intros ->. rewrite decide_False by done. by rewrite union_empty_l_L. Qed.
Lemma acquired_some s' t m : current s' = Some t → acquired s' t m = {[(t, m)]}.
Proof. unfold acquired. intros ->. by rewrite decide_True. Qed.

Lemma mutex_lock_inv s cs t m :
  inv s cs → current s = Some t → mutex_exists s m →
  ∃ s', mutex_lock m s = Ok s' ∧ inv s' (acquired s' t m ∪ cs).
Proof.
  intros Hinv Hc [x Hx]. unfold mutex_lock, spin_lock, blocking_lock. rewrite Hx. destruct x as [[]|[] q].
  - unfold suspend_current_and_run_next, take_current_task. rewrite Hc. eexists. split; [done|]. rewrite acquired_none by done.
    eapply (inv_suspend s _ cs Hinv t (CSpin m)); try done. by exists (MutexSpin true).
  - eexists. split; [done|]. rewrite (acquired_some _ t m) by done. destruct (mutex_update s m _ (MutexSpin true) Hx) as (He & Hl & Hlm).
    assert (queue_m <$> <[m := Some (MutexSpin true)]> (mutex_list s) = queue_m <$> mutex_list s) as Hq
      by (by apply (fmap_same queue_m _ m (Some (MutexSpin false)))).
    apply (inv_acquire s _ cs Hinv t m); try done.
    + apply (placed_same s); [apply Hinv|done|done| |done]. unfold waiters. simpl. by rewrite Hq.
    + intros [n|n|n|]; try done. simpl. rewrite <- !list_lookup_fmap. by rewrite Hq.
    + unfold locked_of. by rewrite Hx.
  - unfold current_task, block_current_and_run_next, take_current_task. simpl. rewrite Hc. simpl. eexists. split; [done|]. rewrite acquired_none by done.
    destruct (mutex_update s m _ (MutexBlocking true (q ++ [t])) Hx) as (He & Hl & Hlm).
    eapply (inv_block s _ cs Hinv t (QM m) (CLocked m)); try done.
    + unfold waiters. simpl. by rewrite (concat_push queue_m _ m (Some (MutexBlocking true q)) _ Hx t).
    + intros [n|n|n|] t'; simpl; try (by left). rewrite (queue_insert queue_m _ m _ _ Hx n).
      case_decide as Hn; [|by left]. subst n. simpl. rewrite Hx. simpl.
      intros [?| ->%list_elem_of_singleton]%elem_of_app; [by left|by right].
    + split; [|done]. intros n. destruct (decide (n = m)) as [->|Hn]; [|by apply Hl].
      etrans; [exact Hlm|]. unfold locked_of. by rewrite Hx.
    + split; [done|]. by eexists.
  - eexists. split; [done|]. rewrite (acquired_some _ t m) by done. destruct (mutex_update s m _ (MutexBlocking true q) Hx) as (He & Hl & Hlm).
    assert (queue_m <$> <[m := Some (MutexBlocking true q)]> (mutex_list s) = queue_m <$> mutex_list s) as Hq
      by (by apply (fmap_same queue_m _ m (Some (MutexBlocking false q)))).
    apply (inv_acquire s _ cs Hinv t m); try done.
    + apply (placed_same s); [apply Hinv|done|done| |done]. unfold waiters. simpl. by rewrite Hq.
    + intros [n|n|n|]; try done. simpl. rewrite <- !list_lookup_fmap. by rewrite Hq.
    + unfold locked_of. by rewrite Hx.
Qed.

Lemma mutex_unlock_inv s cs t m :
  inv s cs → current s = Some t → (t, m) ∈ cs →
  ∃ s', mutex_unlock m s = Ok s' ∧ inv s' (cs ∖ {[(t, m)]}) ∧ current s' = Some t ∧
    condvar_list s' = condvar_list s ∧ mutex_exists s' m.
Proof.
  intros Hinv Hc Hin. assert (locked_of s m = true) as Hlk by (apply (in_locked _ _ Hinv); exists t; by left).
  unfold locked_of in Hlk. destruct (mutex_list s !! m) as [[x|]|] eqn:Hx; [|done..]. unfold mutex_unlock, spin_unlock, blocking_unlock. rewrite Hx.
  destruct x as [l|l [|t' q]]; subst l.
  - eexists. split; [done|]. destruct (mutex_update s m _ (MutexSpin false) Hx) as (He & Hl & Hlm).
    split_and!; [|done|done|apply He; by eexists].
    assert (queue_m <$> <[m := Some (MutexSpin false)]> (mutex_list s) = queue_m <$> mutex_list s) as Hq
      by (by apply (fmap_same queue_m _ m (Some (MutexSpin true)))).
    apply (inv_release s _ cs Hinv t m); try done.
    + apply (placed_same s); [apply Hinv|done|done| |done]. unfold waiters. simpl. by rewrite Hq.
    + intros [n|n|n|]; try done. simpl. rewrite <- !list_lookup_fmap. by rewrite Hq.
  - eexists. split; [done|]. destruct (mutex_update s m _ (MutexBlocking false []) Hx) as (He & Hl & Hlm).
    split_and!; [|done|done|apply He; by eexists].
    assert (queue_m <$> <[m := Some (MutexBlocking false [])]> (mutex_list s) = queue_m <$> mutex_list s) as Hq
      by (by apply (fmap_same queue_m _ m (Some (MutexBlocking true [])))).
    apply (inv_release s _ cs Hinv t m); try done.
    + apply (placed_same s); [apply Hinv|done|done| |done]. unfold waiters. simpl. by rewrite Hq.
    + intros [n|n|n|]; try done. simpl. rewrite <- !list_lookup_fmap. by rewrite Hq.
  - eexists. split; [done|]. destruct (mutex_update s m _ (MutexBlocking true q) Hx) as (He & Hl & Hlm).
    split_and!; [|done|done|apply He; by eexists].
    eapply (inv_handoff s _ cs Hinv t' (QM m)); try done.
    + simpl. rewrite Hx. simpl. by left.
    + unfold waiters. simpl. by rewrite (concat_pop queue_m _ m (Some (MutexBlocking true (t' :: q))) (Some (MutexBlocking true q)) Hx t').
    + intros [n|n|n|] t2; simpl; try done. rewrite (queue_insert queue_m _ m _ _ Hx n).
      case_decide as Hn; [|done]. subst n. rewrite Hx. simpl. by right.
    + split; [|done]. intros n. destruct (decide (n = m)) as [->|Hn]; [|by apply Hl].
      etrans; [exact Hlm|]. unfold locked_of. by rewrite Hx.
Qed.

Lemma semaphore_up_inv s cs i x :
  inv s cs → semaphore_list s !! i = Some (Some x) →
  ∃ s', semaphore_up i s = Ok s' ∧ inv s' cs ∧ current s' = current s.
Proof.
  intros Hinv Hx. unfold semaphore_up. rewrite Hx. destruct x as [n [|t q]]; (eexists; split; [done|]; split; [|done]).
  - assert (queue_s <$> <[i := Some (mkSem (as_isize (n + 1)) [])]> (semaphore_list s) = queue_s <$> semaphore_list s) as Hq
      by (by apply (fmap_same queue_s _ i (Some (mkSem n [])))).
    apply (inv_owners s _ cs Hinv); try done.
    + apply (placed_same s); [apply Hinv|done|done| |done]. unfold waiters. simpl. by rewrite Hq.
    + intros qq t' Ht'. apply (in_queues _ _ Hinv qq). destruct qq; try exact Ht'. simpl in *.
      by rewrite <- list_lookup_fmap, Hq, list_lookup_fmap in Ht'.
    + apply Hinv.
  - eapply (inv_wake s _ cs Hinv t (QS i)); try done.
    + simpl. rewrite Hx. simpl. by left.
    + unfold waiters. simpl. rewrite (concat_pop queue_s _ i (Some (mkSem n (t :: q))) (Some (mkSem (as_isize (n + 1)) q)) Hx t) by done.
      simpl. by rewrite <- Permutation_middle.
    + intros [m|j|c|] t2; simpl; try done. rewrite (queue_insert queue_s _ i _ _ Hx j).
      case_decide as Hj; [|done]. subst j. rewrite Hx. simpl. by right.
Qed.

(** Blocking the current thread in a queue other than a mutex's. *)
Lemma block_inv s s1 cs t q c :
  inv s cs → current s = Some t → fits s q c → current s1 = Some t → ready_queue s1 = ready_queue s →
  status s1 = status s → conts s1 = conts s → mutex_list s1 = mutex_list s → waiters s1 ≡ₚ t :: waiters s →
  (∀ q' t', t' ∈ queue_of s1 q' → t' ∈ queue_of s q' ∨ (q' = q ∧ t' = t)) →
  ∃ s', block_current_and_run_next c s1 = Ok s' ∧ inv s' cs.
Proof.
  intros Hinv Hc Hf Hc1 Hr Hs Hk Hm Hw Hq. unfold block_current_and_run_next, take_current_task. rewrite Hc1. simpl.
  eexists. split; [done|]. eapply (inv_block s _ cs Hinv t q c); try done; simpl; [by rewrite Hs|by rewrite Hk|].
  unfold same_mutexes, locked_of, mutex_exists. simpl. by rewrite Hm.
Qed.

Lemma semaphore_down_inv s cs i x t :
  inv s cs → current s = Some t → semaphore_list s !! i = Some (Some x) →
  ∃ s', semaphore_down i s = Ok s' ∧ inv s' cs.
Proof.
  intros Hinv Hc Hx. unfold semaphore_down. rewrite Hx. destruct x as [n q]. case_match.
  - unfold current_task. rewrite Hc. simpl. apply (block_inv s _ cs t (QS i) CReturn); try done.
    + unfold waiters. simpl. rewrite (concat_push queue_s _ i (Some (mkSem n q)) _ Hx t) by done.
      simpl. by rewrite <- Permutation_middle.
    + intros [m|j|c|] t'; simpl; try (by left). rewrite (queue_insert queue_s _ i _ _ Hx j).
      case_decide as Hj; [|by left]. subst j. rewrite Hx. simpl.
      intros [?| ->%list_elem_of_singleton]%elem_of_app; [by left|by right].
  - eexists. split; [done|].
    assert (queue_s <$> <[i := Some (mkSem (as_isize (n - 1)) q)]> (semaphore_list s) = queue_s <$> semaphore_list s) as Hq
      by (by apply (fmap_same queue_s _ i (Some (mkSem n q)))).
    apply (inv_owners s _ cs Hinv); try done.
    + apply (placed_same s); [apply Hinv|done|done| |done]. unfold waiters. simpl. by rewrite Hq.
    + intros qq t' Ht'. apply (in_queues _ _ Hinv qq). destruct qq; try exact Ht'. simpl in *.
      by rewrite <- list_lookup_fmap, Hq, list_lookup_fmap in Ht'.
    + apply Hinv.
Qed.

Lemma condvar_signal_inv s cs c x :
  inv s cs → condvar_list s !! c = Some (Some x) →
  ∃ s', condvar_signal c s = Ok s' ∧ inv s' cs ∧ current s' = current s.
Proof.
  intros Hinv Hx. unfold condvar_signal. rewrite Hx. destruct x as [[|t q]]; [by eexists|].
  eexists. split; [done|]. split; [|done]. eapply (inv_wake s _ cs Hinv t (QC c)); try done.
  - simpl. rewrite Hx. simpl. by left.
  - unfold waiters. simpl. rewrite (concat_pop queue_c _ c (Some (mkCV (t :: q))) (Some (mkCV q)) Hx t) by done.
    simpl. by rewrite <- !Permutation_middle.
  - intros [m|j|c'|] t2; simpl; try done. rewrite (queue_insert queue_c _ c _ _ Hx c').
    case_decide as Hj; [|done]. subst c'. rewrite Hx. simpl. by right.
Qed.

Lemma condvar_wait_inv s cs t c m x :
  inv s cs → current s = Some t → (t, m) ∈ cs → condvar_list s !! c = Some (Some x) →
  ∃ s', condvar_wait c m s = Ok s' ∧ inv s' (cs ∖ {[(t, m)]}).
Proof.
  intros Hinv Hc Hin Hx. destruct (mutex_unlock_inv s cs t m Hinv Hc Hin) as (s1 & Hu & Hinv1 & Hc1 & Hcv & Hex).
  unfold condvar_wait. rewrite Hu. simpl. rewrite Hcv, Hx. destruct x as [q]. rewrite <- Hcv in Hx.
  unfold current_task. rewrite Hc1. simpl. rewrite <- Hcv.
  apply (block_inv s1 _ _ t (QC c) (CRelock m)); try done.
  - by exists m.
  - unfold waiters. simpl. rewrite (concat_push queue_c _ c (Some (mkCV q)) _ Hx t) by done.
    simpl. by rewrite <- !Permutation_middle.
  - intros [n|j|c'|] t'; simpl; try (by left). rewrite (queue_insert queue_c _ c _ _ Hx c').
    case_decide as Hj; [|by left]. subst c'. rewrite Hx. simpl.
    intros [?| ->%list_elem_of_singleton]%elem_of_app; [by left|by right].
Qed.

Lemma timer_push_perm x l : timer_push x l ≡ₚ x :: l.
Proof. induction l as [|y l IH]; simpl; [done|]. case_match; [|done]. rewrite IH. by constructor. Qed.

Lemma sys_sleep_inv s cs t now ms :
  inv s cs → current s = Some t → ∃ s', sys_sleep now ms s = Ok s' ∧ inv s' cs.
Proof.
  intros Hinv Hc. unfold sys_sleep, current_task. rewrite Hc. simpl.
  apply (block_inv s _ cs t QT CReturn); try done.
  - unfold waiters. simpl. rewrite timer_push_perm. simpl. by rewrite <- !Permutation_middle.
  - intros [n|j|c|] t'; simpl; try (by left). rewrite timer_push_perm. simpl. intros [->|?]%elem_of_cons; [by right|by left].
Qed.

Lemma check_timer_inv s cs now : inv s cs → inv (check_timer now s) cs ∧ current (check_timer now s) = current s.
Proof.
  unfold check_timer. remember (timers s) as l eqn:Hl. revert s Hl. induction l as [|x l IH]; intros s Hl Hinv; simpl; [done|].
  case_match; [|done]. destruct (IH (set_timers l (wakeup_task (timer_task x) s))) as [IH1 IH2]; [done| |done].
  eapply (inv_wake s _ cs Hinv (timer_task x) QT); try done.
  - simpl. rewrite <- Hl. simpl. by left.
  - unfold waiters. simpl. rewrite <- Hl. simpl. by rewrite <- !Permutation_middle.
  - intros [n|j|c|] t'; simpl; try done. rewrite <- Hl. simpl. by right.
Qed.

(** A dispatched thread first completes the call it was in. *)
Definition completed (t : Z) (s s' : kst) : gset (Z * nat) :=
  match conts s !! t with
  | Some (CLocked m) => {[(t, m)]}
  | Some (CSpin m) | Some (CRelock m) => acquired s' t m
  | _ => ∅
  end.

Lemma dispatch_inv s cs t s1 :
  inv s cs → current s = None → run_task s = Some (t, s1) →
  ∃ s2, resume t s1 = Ok s2 ∧ inv s2 (completed t s1 s2 ∪ cs).
Proof.
  intros Hinv Hc Hrun. unfold run_task, fetch_task in Hrun. destruct (ready_queue s) as [|t' q] eqn:Hr; [done|].
  injection Hrun as -> <-. set (s1 := set_current (Some t) _).
  destruct (in_ready _ _ Hinv t) as (c & Hcont & Hok); [rewrite Hr; by left|].
  assert (placed s1) as Hp by (by eapply (placed_dispatch s s1 t); try done; apply Hinv).
  assert (t ∉ q) as Hn.
  { pose proof (pl_nodup _ Hp) as Hnd. unfold places in Hnd. simpl in Hnd. apply NoDup_cons in Hnd as [Hn _]. set_solver. }
  assert (∀ d, (∀ m, c = CLocked m → (t, m) ∈ d) → (∀ x m, (x, m) ∈ d → x = t ∧ c = CLocked m) → inv s1 (d ∪ cs)) as Hinv1.
  { intros d Hd1 Hd2. apply (inv_owners s s1 cs Hinv); [done| | | |done].
    - intros qd x Hx. apply (in_queues _ _ Hinv qd x). by destruct qd.
    - intros x Hx. apply (in_ready _ _ Hinv x). rewrite Hr. by right.
    - intros x m. unfold owns. rewrite Hr, elem_of_union, elem_of_cons. simpl. split.
      + intros [[Hx|?]|[Hx ?]]; [|tauto|tauto]. destruct (Hd2 x m Hx) as [-> ->]. auto.
      + intros [?|[[->|?] Hx]]; [tauto| |tauto]. left. left. apply Hd1. congruence. }
  unfold resume, completed. change (conts s1) with (conts s). rewrite Hcont. destruct c as [|m|m|m].
  - exists s1. split; [done|]. apply Hinv1; [done|set_solver].
  - destruct (mutex_lock_inv s1 cs t m) as (s2 & Hl & Hi); [|done|done|by exists s2].
    rewrite <- (union_empty_l_L cs). apply Hinv1; [done|set_solver].
  - exists s1. split; [done|]. apply Hinv1; [intros ? [= ->]; set_solver|set_solver].
  - destruct (mutex_lock_inv s1 cs t m) as (s2 & Hl & Hi); [|done|done|by exists s2].
    rewrite <- (union_empty_l_L cs). apply Hinv1; [done|set_solver].
Qed.
