(* ===== verification/SchedSafe.v ===== *)
(** * Safety and fairness of the scheduler and of blocking synchronisation

    [step] is one kernel activity: a dispatch from the idle flow, a call made by
    the running thread, or a timer interrupt.  Its second component is the ghost
    set of (thread, mutex) pairs inside the critical section. *)
From S2P Require Import Prelude Sched.

Definition boot : kst := mkK None [] ∅ ∅ [] [] [] [].

(** [exit_current_and_run_next] as the scheduler sees it: the thread is in no
    queue any more and its status is never read again. *)
Definition exit_current (s : kst) : outcome kst :=
  '(t, s) ← take_current_task s;
  Ok (mkK (current s) (ready_queue s) (delete t (status s)) (conts s) (mutex_list s) (semaphore_list s)
        (condvar_list s) (timers s)).
(** A new thread is [Ready] and queued. *)
Definition spawn (t : Z) (s : kst) : kst := add_task t (set_task_status t Ready (set_cont t CReturn s)).

Definition no_wrap (s : kst) : Prop :=
  ∀ i x, semaphore_list s !! i = Some (Some x) → - 2 ^ 62 < sem_count x < 2 ^ 62.

(** The label of a step is the thread it dispatches, if any.  An unlock and a
    condition-variable wait are steps of a thread that holds the mutex; the code
    (sync/mutex.rs) would do them for any thread. *)
Inductive lstep : option Z → kst * gset (Z * nat) → kst * gset (Z * nat) → Prop :=
| st_dispatch s cs t s1 s2 :
    current s = None → run_task s = Some (t, s1) → resume t s1 = Ok s2 → lstep (Some t) (s, cs) (s2, completed t s1 s2 ∪ cs)
| st_yield s cs t s' :
    current s = Some t → suspend_current_and_run_next CReturn s = Ok s' → lstep None (s, cs) (s', cs)
| st_exit s cs t s' : current s = Some t → exit_current s = Ok s' → lstep None (s, cs) (s', cs)
| st_spawn s cs t : (∀ m, (t, m) ∉ cs) → status s !! t = None → lstep None (s, cs) (spawn t s, cs)
| st_lock s cs t m s' :
    current s = Some t → mutex_exists s m → mutex_lock m s = Ok s' → lstep None (s, cs) (s', acquired s' t m ∪ cs)
| st_unlock s cs t m s' :
    current s = Some t → (t, m) ∈ cs → mutex_unlock m s = Ok s' → lstep None (s, cs) (s', cs ∖ {[(t, m)]})
| st_up s cs t i s' : current s = Some t → no_wrap s → semaphore_up i s = Ok s' → lstep None (s, cs) (s', cs)
| st_down s cs t i s' : current s = Some t → no_wrap s → semaphore_down i s = Ok s' → lstep None (s, cs) (s', cs)
| st_signal s cs t c s' : current s = Some t → condvar_signal c s = Ok s' → lstep None (s, cs) (s', cs)
| st_wait s cs t c m s' :
    current s = Some t → (t, m) ∈ cs → condvar_wait c m s = Ok s' → lstep None (s, cs) (s', cs ∖ {[(t, m)]})
| st_sleep s cs t now ms s' : current s = Some t → sys_sleep now ms s = Ok s' → lstep None (s, cs) (s', cs)
| st_timer s cs now : lstep None (s, cs) (check_timer now s, cs)
| st_mutex_create s cs b : lstep None (s, cs) ((sys_mutex_create b s).2, cs)
| st_sem_create s cs n : 0 ≤ n < 2 ^ 62 → lstep None (s, cs) ((sys_semaphore_create n s).2, cs)
| st_condvar_create s cs : lstep None (s, cs) ((sys_condvar_create s).2, cs).

Definition step (x y : kst * gset (Z * nat)) : Prop := ∃ l, lstep l x y.

(** *** New objects have empty queues *)
Lemma first_free_spec {A} (l : list (option A)) x :
  let '(i, l') := first_free l x in
  l' !! i = Some (Some x) ∧ (∀ j y, l !! j = Some (Some y) → l' !! j = Some (Some y)) ∧
  (∀ j, j ≠ i → l' !! j = l !! j ∨ l' !! j = None) ∧ (∀ y, l !! i ≠ Some (Some y)).
Proof.
  unfold first_free. destruct (list_find _ l) as [[i o]|] eqn:Hf.
  - apply list_find_Some in Hf as (Hi & -> & _). split_and!.
    + apply list_lookup_insert_eq. by eapply lookup_lt_Some.
    + intros j y Hj. rewrite list_lookup_insert_ne; [done|]. intros ->. congruence.
    + intros j Hj. left. by rewrite list_lookup_insert_ne.
    + intros y Hy. congruence.
  - split_and!.
    + by rewrite lookup_app_r, Nat.sub_diag by lia.
    + intros j y Hj. rewrite lookup_app_l; [done|]. by eapply lookup_lt_Some.
    + intros j Hj. destruct (decide (j < length l)%nat); [left; by rewrite lookup_app_l|right].
      apply lookup_ge_None. rewrite length_app. simpl. lia.
    + intros y Hy. apply lookup_lt_Some in Hy. lia.
Qed.

Lemma first_free_queues {A} (f : option A → list Z) (l : list (option A)) x :
  f None = [] → f (Some x) = [] → concat (f <$> (first_free l x).2) = concat (f <$> l) ∧
  ∀ j, default [] (f <$> (first_free l x).2 !! j) = default [] (f <$> l !! j).
Proof.
  intros Hn Hx. unfold first_free. destruct (list_find _ l) as [[i o]|] eqn:Hf.
  - apply list_find_Some in Hf as (Hi & -> & _). simpl. split.
    + by rewrite (fmap_same f l i None (Some x)) by congruence.
    + intros j. rewrite (queue_insert f l i None (Some x) Hi j). case_decide as Hj; [|done]. subst j. rewrite Hi. simpl. congruence.
  - simpl. split.
    + rewrite fmap_app, concat_app. simpl. by rewrite Hx, app_nil_r.
    + intros j. destruct (decide (j < length l)%nat) as [Hlt|Hge]; [by rewrite lookup_app_l|].
      rewrite (lookup_ge_None_2 l j) by lia. rewrite lookup_app_r by lia.
      destruct (j - length l)%nat as [|k]; simpl; [by rewrite Hx|done].
Qed.

(** Adding an object changes no queue, no owner and no locked flag. *)
Lemma inv_create s s' cs :
  inv s cs → current s' = current s → ready_queue s' = ready_queue s → status s' = status s → conts s' = conts s →
  waiters s' = waiters s → (∀ q, queue_of s' q = queue_of s q) →
  (∀ m, mutex_exists s m → mutex_exists s' m) → (∀ m, locked_of s' m = locked_of s m) → inv s' cs.
Proof.
  intros Hinv Hc Hr Hs Hk Hw Hq He Hl. apply (inv_owners s s' cs Hinv); [|rewrite ?Hr, ?Hk..|done].
  - apply (placed_same s); [apply Hinv|done..].
  - intros q t Ht. rewrite Hq in Ht. destruct (in_queues _ _ Hinv q t Ht) as (c & ? & ?). exists c.
    split; [done|by eapply fits_mono].
  - intros t Ht. destruct (in_ready _ _ Hinv t Ht) as (c & ? & ?). exists c. split; [done|by eapply cont_ok_mono].
  - intros t m. unfold owns. by rewrite Hr, Hk.
Qed.

Lemma inv_mutex_create s cs b : inv s cs → inv (sys_mutex_create b s).2 cs.
Proof.
  intros Hinv. unfold sys_mutex_create. set (x := if b then _ else _).
  pose proof (first_free_spec (mutex_list s) x) as Hs. pose proof (first_free_queues queue_m (mutex_list s) x) as [Hq1 Hq2]; [done|by destruct b|].
  destruct (first_free (mutex_list s) x) as [i l]. destruct Hs as (H1 & H2 & H3 & H4). simpl in *.
  apply (inv_create s); try done; simpl.
  - unfold waiters. simpl. by rewrite Hq1.
  - intros [m|j|c|]; simpl; try done.
  - intros m [y Hy]. exists y. by apply H2.
  - intros m. unfold locked_of. simpl. destruct (decide (m = i)) as [->|Hne].
    + rewrite H1. destruct (mutex_list s !! i) as [[y|]|] eqn:Hy; [by destruct (H4 y)|by destruct b..].
    + destruct (H3 m Hne) as [->|Hm]; [done|]. rewrite Hm.
      destruct (mutex_list s !! m) as [[y|]|] eqn:Hy; [|done..]. apply H2 in Hy. congruence.
Qed.

Lemma inv_sem_create s cs n : inv s cs → inv (sys_semaphore_create n s).2 cs.
Proof.
  intros Hinv. unfold sys_semaphore_create.
  pose proof (first_free_queues queue_s (semaphore_list s) (semaphore_new n)) as [Hq1 Hq2]; [done..|].
  destruct (first_free (semaphore_list s) (semaphore_new n)) as [i l]. simpl in *.
  apply (inv_create s); try done; simpl; [unfold waiters; simpl; by rewrite Hq1|]. intros [m|j|c|]; simpl; try done.
Qed.

Lemma inv_condvar_create s cs : inv s cs → inv (sys_condvar_create s).2 cs.
Proof.
  intros Hinv. unfold sys_condvar_create.
  pose proof (first_free_queues queue_c (condvar_list s) (mkCV [])) as [Hq1 Hq2]; [done..|].
  destruct (first_free (condvar_list s) (mkCV [])) as [i l]. simpl in *.
  apply (inv_create s); try done; simpl; [unfold waiters; simpl; by rewrite Hq1|]. intros [m|j|c|]; simpl; try done.
Qed.

Lemma inv_spawn s cs t : inv s cs → (∀ m, (t, m) ∉ cs) → status s !! t = None → inv (spawn t s) cs.
Proof.
  intros Hinv Hcs Hn. pose proof (in_placed _ _ Hinv) as [Hnd Hpc Hpr Hpw Hpa].
  assert (current s ≠ Some t) as N1 by (intros H%Hpc; congruence).
  assert (t ∉ ready_queue s) as N2 by (intros H%Hpr; congruence).
  assert (t ∉ waiters s) as N3 by (intros H%Hpw; congruence).
  assert (places (spawn t s) ≡ₚ t :: places s) as Hperm.
  { unfold places, spawn. simpl. rewrite <- app_assoc. simpl. by rewrite <- !Permutation_middle. }
  apply (inv_owners s _ cs Hinv); try done.
  - split; simpl.
    + rewrite Hperm. apply NoDup_cons. split; [|done]. unfold places. rewrite !elem_of_app.
      intros [H|[H|H]]; [|done|done]. destruct (current s); simpl in H; set_solver.
    + intros t' Ht'. rewrite lookup_insert_ne by (intros ->; done). by apply Hpc.
    + intros t' [Ht'| ->%list_elem_of_singleton]%elem_of_app; [|apply lookup_insert_eq].
      rewrite lookup_insert_ne by (intros ->; done). by apply Hpr.
    + intros t' Ht'. rewrite lookup_insert_ne by (intros ->; done). by apply Hpw.
    + intros t'. rewrite Hperm. destruct (decide (t' = t)) as [->|Hne]; [by left|].
      rewrite lookup_insert_ne by done. intros Ht'. right. by apply Hpa.
  - intros q t' Ht'. assert (t' ∈ queue_of s q) as Hq by (by destruct q).
    destruct (in_queues _ _ Hinv q t' Hq) as (c & Hc & Hf). exists c. simpl. split; [|done].
    rewrite lookup_insert_ne; [done|]. intros ->. apply N3, waiting_in_queue. by exists q.
  - intros t' [Ht'| ->%list_elem_of_singleton]%elem_of_app; simpl.
    + destruct (in_ready _ _ Hinv t' Ht') as (c & Hc & Hf). exists c. by rewrite lookup_insert_ne by (intros ->; done).
    + exists CReturn. by rewrite lookup_insert_eq.
  - intros t' m. unfold owns, spawn. simpl. rewrite elem_of_app, list_elem_of_singleton.
    destruct (decide (t' = t)) as [->|Hne]; [rewrite lookup_insert_eq|rewrite lookup_insert_ne by done].
    + split; [|tauto]. intros [?|[_ ?]]; [by left|done].
    + tauto.
Qed.

Lemma inv_exit s cs t s' : inv s cs → current s = Some t → exit_current s = Ok s' → inv s' cs.
Proof.
  intros Hinv Hc He. unfold exit_current, take_current_task in He. rewrite Hc in He. injection He as <-.
  destruct (current_elsewhere s t (in_placed _ _ Hinv) Hc) as [N1 N2].
  pose proof (in_placed _ _ Hinv) as [Hnd Hpc Hpr Hpw Hpa]. unfold places in Hnd, Hpa. rewrite Hc in Hnd, Hpa. simpl in Hnd, Hpa.
  apply NoDup_cons in Hnd as [_ Hnd].
  apply (inv_owners s _ cs Hinv); try done; [|intros q t' Ht'; apply (in_queues _ _ Hinv q); by destruct q|apply Hinv].
  split; simpl.
  - done.
  - done.
  - intros t' Ht'. rewrite lookup_delete_ne by (intros ->; done). by apply Hpr.
  - intros t' Ht'. rewrite lookup_delete_ne by (intros ->; done). by apply Hpw.
  - intros t'. destruct (decide (t' = t)) as [->|Hne]; [rewrite lookup_delete_eq; by intros [? ?]|].
    rewrite lookup_delete_ne by done. intros [->|?]%Hpa%elem_of_cons; done.
Qed.

(** *** Every step keeps the invariants *)
Definition sems_ok (s : kst) : Prop :=
  ∀ i x, semaphore_list s !! i = Some (Some x) → Z.of_nat (length (sem_queue x)) = Z.max 0 (- sem_count x).

Lemma inv_boot : inv boot ∅.
Proof.
  split.
  - split; simpl; [apply NoDup_nil_2|done|set_solver|set_solver|intros t [? ?]; done].
  - intros [m|i|c|] t; simpl; set_solver.
  - set_solver.
  - intros m t t' [?|[? _]]; set_solver.
  - intros m. split; [|done]. intros [t [?|[? _]]]; set_solver.
Qed.

Lemma inv_step s cs s' cs' : inv s cs → step (s, cs) (s', cs') → inv s' cs'.
Proof.
  intros Hinv [l Hst]. inversion Hst; subst; clear Hst.
  - destruct (dispatch_inv s cs t s1 Hinv) as (s3 & Hr & Hi); [done|done|]. congruence.
  - match goal with H : suspend_current_and_run_next _ _ = _ |- _ => unfold suspend_current_and_run_next, take_current_task in H end.
    simplify_option_eq. match goal with H : current s = Some _ |- _ => rewrite H in * end. simplify_eq/=.
    eapply (inv_suspend s _ cs' Hinv t CReturn); done.
  - by eapply inv_exit.
  - by apply inv_spawn.
  - destruct (mutex_lock_inv s cs t m Hinv) as (s1 & Hr & Hi); [done|done|]. congruence.
  - destruct (mutex_unlock_inv s cs t m Hinv) as (s1 & Hr & Hi & _); [done|done|]. congruence.
  - destruct (semaphore_list s !! i) as [[x|]|] eqn:Hx;
      [destruct (semaphore_up_inv s cs' i x Hinv Hx) as (s1 & Hr & Hi & _); congruence|unfold semaphore_up in *; rewrite Hx in *; done..].
  - destruct (semaphore_list s !! i) as [[x|]|] eqn:Hx;
      [destruct (semaphore_down_inv s cs' i x t Hinv) as (s1 & Hr & Hi); [done|done|congruence]|unfold semaphore_down in *; rewrite Hx in *; done..].
  - destruct (condvar_list s !! c) as [[x|]|] eqn:Hx;
      [destruct (condvar_signal_inv s cs' c x Hinv Hx) as (s1 & Hr & Hi & _); congruence|unfold condvar_signal in *; rewrite Hx in *; done..].
  - destruct (condvar_list s !! c) as [[x|]|] eqn:Hx;
      [destruct (condvar_wait_inv s cs t c m x Hinv) as (s1 & Hr & Hi); [done|done|done|congruence]|..].
    all: destruct (mutex_unlock_inv s cs t m Hinv) as (s1 & Hr & _ & _ & Hcv & _); [done|done|];
      unfold condvar_wait in *; rewrite Hr in *; cbn [mbind outcome_bind] in *; rewrite Hcv, Hx in *; done.
  - destruct (sys_sleep_inv s cs' t now ms Hinv) as (s1 & Hr & Hi); [done|]. congruence.
  - by apply check_timer_inv.
  - by apply inv_mutex_create.
  - by apply inv_sem_create.
  - by apply inv_condvar_create.
Qed.

Lemma inv_reachable s cs : rtc step (boot, ∅) (s, cs) → inv s cs.
Proof.
  intros Hr. assert (∀ x y, inv x.1 x.2 → step x y → inv y.1 y.2) as Hs.
  { intros [x cx] [y cy] Hi Hxy. by eapply inv_step. }
  apply (rtc_invariant step (λ x, inv x.1 x.2) (boot, ∅) (s, cs)); [done|apply inv_boot|done].
Qed.

(** C21 No thread is lost or duplicated.  In every reachable state each live
    thread is in exactly one place: on the processor, in the ready queue or in
    one wait queue, and its status says which.  (The steps are those of single
    threads; the end of a whole process, which drops its threads where they
    are, is not one of them.) *)
Theorem no_thread_lost s cs :
  rtc step (boot, ∅) (s, cs) →
  NoDup (option_list (current s) ++ ready_queue s ++ waiters s) ∧
  ∀ t st, status s !! t = Some st →
    match st with
    | Running => current s = Some t
    | Ready => t ∈ ready_queue s
    | Blocked => t ∈ waiters s
    end.
Proof.
  intros [[Hnd Hc Hr Hw Ha] _ _ _ _]%inv_reachable. split; [done|]. intros t st Ht.
  assert (t ∈ places s) as Hp by (apply Ha; by eexists). unfold places in Hp. rewrite !elem_of_app in Hp.
  destruct Hp as [Hp|[Hp|Hp]].
  - assert (current s = Some t) as Hct by (destruct (current s); simpl in Hp; set_solver).
    rewrite (Hc t Hct) in Ht. by injection Ht as <-.
  - rewrite (Hr t Hp) in Ht. by injection Ht as <-.
  - rewrite (Hw t Hp) in Ht. by injection Ht as <-.
Qed.

(** C22 Mutual exclusion.  Two threads are never inside the critical section of
    the same mutex, spinning or blocking, whatever the schedule; a mutex is
    locked exactly while some thread is inside or has been handed the lock.  This
    is for programs that unlock a mutex, or wait on a condition variable with it,
    only in the thread that holds it: the kernel does not check the holder. *)
Theorem mutual_exclusion s cs m :
  rtc step (boot, ∅) (s, cs) →
  (∀ t t', (t, m) ∈ cs → (t', m) ∈ cs → t = t') ∧ (locked_of s m = true ↔ ∃ t, owns s cs t m).
Proof.
  intros [_ _ _ Hex Hlk]%inv_reachable. split; [|by rewrite Hlk].
  intros t t' Ht Ht'. apply (Hex m); by left.
Qed.

(** The kernel does not panic.  In every reachable state the idle flow can
    dispatch any ready thread to the end of the call it was blocked in; the
    running thread can lock any existing mutex, unlock or wait with one it holds,
    and use any existing semaphore or condition variable. *)
Theorem sync_calls_succeed s cs :
  rtc step (boot, ∅) (s, cs) →
  (∀ t s1, current s = None → run_task s = Some (t, s1) → ∃ s2, resume t s1 = Ok s2) ∧
  (∀ t, current s = Some t →
    (∀ m, mutex_exists s m → ∃ s', mutex_lock m s = Ok s') ∧
    (∀ m, (t, m) ∈ cs → ∃ s', mutex_unlock m s = Ok s') ∧
    (∀ i x, semaphore_list s !! i = Some (Some x) → (∃ s', semaphore_up i s = Ok s') ∧ ∃ s', semaphore_down i s = Ok s') ∧
    (∀ c x, condvar_list s !! c = Some (Some x) → (∃ s', condvar_signal c s = Ok s') ∧
       ∀ m, (t, m) ∈ cs → ∃ s', condvar_wait c m s = Ok s')).
Proof.
  intros Hinv%inv_reachable. split; [|intros t Hc; split_and!].
  - intros t s1 Hc Hr. destruct (dispatch_inv s cs t s1 Hinv Hc Hr) as (s2 & ? & _). by exists s2.
  - intros m Hm. destruct (mutex_lock_inv s cs t m Hinv Hc Hm) as (s' & ? & _). by exists s'.
  - intros m Hm. destruct (mutex_unlock_inv s cs t m Hinv Hc Hm) as (s' & ? & _). by exists s'.
  - intros i x Hx. destruct (semaphore_up_inv s cs i x Hinv Hx) as (s' & ? & _).
    destruct (semaphore_down_inv s cs i x t Hinv Hc Hx) as (s2 & ? & _). eauto.
  - intros c x Hx. destruct (condvar_signal_inv s cs c x Hinv Hx) as (s' & ? & _). split; [by exists s'|].
    intros m Hm. destruct (condvar_wait_inv s cs t c m x Hinv Hc Hm Hx) as (s2 & ? & _). by exists s2.
Qed.

(** *** Semaphore counts *)
Lemma as_isize_id z : - 2 ^ 63 ≤ z < 2 ^ 63 → as_isize z = z.
Proof. intros Hz. unfold as_isize, u64. case_match eqn:E; rewrite ?Z.ltb_lt, ?Z.ltb_ge in E; dlia. Qed.

Lemma mutex_lock_keeps m s s' : mutex_lock m s = Ok s' →
  semaphore_list s' = semaphore_list s ∧ ∃ enq, ready_queue s' = ready_queue s ++ enq.
Proof.
  unfold mutex_lock, spin_lock, blocking_lock, suspend_current_and_run_next, block_current_and_run_next, take_current_task, current_task.
  intros H. repeat (case_match; simplify_eq/=); try (destruct (current s); simplify_eq/=);
    (split; [done|]); first [by exists []; rewrite app_nil_r|by eexists].
Qed.
Lemma mutex_unlock_keeps m s s' : mutex_unlock m s = Ok s' →
  semaphore_list s' = semaphore_list s ∧ ∃ enq, ready_queue s' = ready_queue s ++ enq.
Proof.
  unfold mutex_unlock, spin_unlock, blocking_unlock. intros H. repeat (case_match; simplify_eq/=); try (destruct locked; simplify_eq/=);
    (split; [done|]); first [by exists []; rewrite app_nil_r|by eexists].
Qed.
Lemma check_timer_keeps now s :
  semaphore_list (check_timer now s) = semaphore_list s ∧ ∃ enq, ready_queue (check_timer now s) = ready_queue s ++ enq.
Proof.
  unfold check_timer. generalize (timers s) as l. intros l. revert s. induction l as [|x l IH]; intros s; simpl.
  { split; [done|]. exists []. by rewrite app_nil_r. }
  case_match; [|split; [done|]; exists []; by rewrite app_nil_r].
  destruct (IH (set_timers l (wakeup_task (timer_task x) s))) as [H1 [enq H2]]. split; [done|].
  eexists. rewrite H2. simpl. by rewrite <- app_assoc.
Qed.

Lemma sems_ok_boot : sems_ok boot.
Proof. intros i x Hx. done. Qed.

Lemma sems_same s s' : sems_ok s → semaphore_list s' = semaphore_list s → sems_ok s'.
Proof. unfold sems_ok. by intros Hs ->. Qed.

Lemma sems_update s s' i x :
  sems_ok s → semaphore_list s' = <[i := Some x]> (semaphore_list s) →
  Z.of_nat (length (sem_queue x)) = Z.max 0 (- sem_count x) → sems_ok s'.
Proof.
  intros Hs Hl Hx j y. rewrite Hl. intros [(-> & [= <-] & _)|[_ Hj]]%list_lookup_insert_Some; [done|by apply (Hs j)].
Qed.

Lemma sems_ok_step x y : sems_ok x.1 → step x y → sems_ok y.1.
Proof.
  intros Hs [l Hst]. inversion Hst; subst; clear Hst; simpl in *.
  - unfold resume in *. unfold run_task, fetch_task in *. repeat (case_match; simplify_eq/=); try done;
      match goal with H : mutex_lock _ _ = _ |- _ => apply mutex_lock_keeps in H as [Hk _] end;
      by apply (sems_same s).
  - unfold suspend_current_and_run_next, take_current_task in *. destruct (current s); simplify_eq/=. done.
  - unfold exit_current, take_current_task in *. destruct (current s); simplify_eq/=. done.
  - done.
  - match goal with H : mutex_lock _ _ = _ |- _ => apply mutex_lock_keeps in H as [Hk _] end. by apply (sems_same s).
  - match goal with H : mutex_unlock _ _ = _ |- _ => apply mutex_unlock_keeps in H as [Hk _] end. by apply (sems_same s).
  - match goal with H : no_wrap _ |- _ => rename H into Hw end. unfold semaphore_up in *.
    destruct (semaphore_list s !! i) as [[[n q]|]|] eqn:Hx; [|done..]. pose proof (Hs _ _ Hx) as Hq. pose proof (Hw _ _ Hx) as Hn. simpl in *.
    destruct q as [|u q]; simplify_eq/=; (eapply (sems_update s); [done|simpl; done|]); simpl; rewrite as_isize_id by lia; simpl in Hq; lia.
  - match goal with H : no_wrap _ |- _ => rename H into Hw end. unfold semaphore_down, block_current_and_run_next, take_current_task, current_task in *.
    destruct (semaphore_list s !! i) as [[[n q]|]|] eqn:Hx; [|done..]. pose proof (Hs _ _ Hx) as Hq. pose proof (Hw _ _ Hx) as Hn. simpl in *.
    rewrite as_isize_id in * by lia. destruct (current s) as [u|] eqn:Hc; [|done]. simpl in *. rewrite ?Hc in *. simpl in *.
    case_match eqn:E; simplify_eq/=; rewrite ?Z.ltb_lt, ?Z.ltb_ge in E; (eapply (sems_update s); [done|simpl; done|]); simpl; rewrite ?length_app; simpl; lia.
  - unfold condvar_signal in *. repeat (case_match; simplify_eq/=); done.
  - unfold condvar_wait, block_current_and_run_next, take_current_task, current_task in *.
    destruct (mutex_unlock m s) as [s1|] eqn:Hu; [|done]. apply mutex_unlock_keeps in Hu as [Hu _]. simpl in *.
    repeat (case_match; simplify_eq/=); try done. destruct (current s1) eqn:Hc; simplify_eq/=. rewrite ?Hc in *. simplify_eq/=.
    by apply (sems_same s).
  - unfold sys_sleep, block_current_and_run_next, take_current_task, current_task in *.
    destruct (current s) eqn:Hc; simplify_eq/=. rewrite ?Hc in *. simplify_eq/=. done.
  - apply (sems_same s); [done|]. apply check_timer_keeps.
  - unfold sys_mutex_create. by destruct (first_free _ _).
  - unfold sys_semaphore_create. pose proof (first_free_spec (semaphore_list s) (semaphore_new n)) as Hf.
    destruct (first_free _ _) as [i l]. destruct Hf as (F1 & F2 & F3 & F4). simpl. intros j z Hj. simpl in Hj.
    destruct (decide (j = i)) as [->|Hne].
    + rewrite F1 in Hj. injection Hj as <-. simpl. rewrite as_isize_id by lia. lia.
    + destruct (F3 j Hne) as [Hl|Hl]; rewrite Hl in Hj; [by apply (Hs j)|done].
  - unfold sys_condvar_create. by destruct (first_free _ _).
Qed.

(** Semaphores.  In every reachable state the number of threads waiting on a
    semaphore is [max 0 (-count)]: nobody waits while a permit is left, and a
    negative count counts the waiters. *)
Theorem semaphore_counts s cs i x :
  rtc step (boot, ∅) (s, cs) → semaphore_list s !! i = Some (Some x) →
  Z.of_nat (length (sem_queue x)) = Z.max 0 (- sem_count x).
Proof.
  intros Hr Hx. assert (sems_ok s) as Hs; [|by apply (Hs i)].
  apply (rtc_invariant step (λ x, sems_ok x.1) (boot, ∅) (s, cs)); [apply sems_ok_step|apply sems_ok_boot|done].
Qed.

(** *** First come, first served *)
Inductive trace : list Z → kst * gset (Z * nat) → kst * gset (Z * nat) → Prop :=
| tr_nil x : trace [] x x
| tr_step ds l x y z : trace ds x y → lstep l y z → trace (ds ++ option_list l) x z.

Lemma lstep_ready l x y :
  lstep l x y → ∃ enq, ready_queue x.1 ++ enq = option_list l ++ ready_queue y.1.
Proof.
  intros Hst. inversion Hst; subst; clear Hst; simpl in *.
  - unfold run_task, fetch_task in *. destruct (ready_queue s) as [|u q] eqn:Hq; simplify_eq/=.
    assert (∃ enq, ready_queue s2 = q ++ enq) as [enq ->]; [|by exists enq]. unfold resume in *.
    repeat (case_match; simplify_eq/=); try (exists []; by rewrite app_nil_r);
      match goal with H : mutex_lock _ _ = _ |- _ => apply mutex_lock_keeps in H as [_ Hk] end; exact Hk.
  - unfold suspend_current_and_run_next, take_current_task in *. destruct (current s); simplify_eq/=. by eexists.
  - unfold exit_current, take_current_task in *. destruct (current s); simplify_eq/=. exists []. by rewrite app_nil_r.
  - by eexists.
  - match goal with H : mutex_lock _ _ = _ |- _ => apply mutex_lock_keeps in H as [_ [enq ->]] end. by exists enq.
  - match goal with H : mutex_unlock _ _ = _ |- _ => apply mutex_unlock_keeps in H as [_ [enq ->]] end. by exists enq.
  - unfold semaphore_up in *. repeat (case_match; simplify_eq/=); first [by exists []; rewrite app_nil_r|by eexists].
  - unfold semaphore_down, block_current_and_run_next, take_current_task, current_task in *.
    repeat (case_match; simplify_eq/=); try (destruct (current s) eqn:Hc; simplify_eq/=; rewrite ?Hc in *; simplify_eq/=);
      exists []; by rewrite app_nil_r.
  - unfold condvar_signal in *. repeat (case_match; simplify_eq/=); first [by exists []; rewrite app_nil_r|by eexists].
  - unfold condvar_wait, block_current_and_run_next, take_current_task, current_task in *.
    destruct (mutex_unlock m s) as [s1|] eqn:Hu; [|done]. apply mutex_unlock_keeps in Hu as [_ [enq Hu]]. simpl in *.
    repeat (case_match; simplify_eq/=); try done. destruct (current s1) eqn:Hc; simplify_eq/=. rewrite ?Hc in *. simplify_eq/=.
    exists enq. by rewrite Hu.
  - unfold sys_sleep, block_current_and_run_next, take_current_task, current_task in *.
    destruct (current s) eqn:Hc; simplify_eq/=. rewrite ?Hc in *. simplify_eq/=. exists []. by rewrite app_nil_r.
  - destruct (check_timer_keeps now s) as [_ [enq ->]]. by exists enq.
  - unfold sys_mutex_create. destruct (first_free _ _). exists []. by rewrite app_nil_r.
  - unfold sys_semaphore_create. destruct (first_free _ _). exists []. by rewrite app_nil_r.
  - unfold sys_condvar_create. destruct (first_free _ _). exists []. by rewrite app_nil_r.
Qed.

Lemma trace_fifo ds x y : trace ds x y → ∃ enq, ready_queue x.1 ++ enq = ds ++ ready_queue y.1.
Proof.
  induction 1 as [x|ds l x y z Ht [enq IH] Hs]; [exists []; by rewrite app_nil_r|].
  destruct (lstep_ready l y z Hs) as [e2 H2]. exists (enq ++ e2). by rewrite app_assoc, IH, <- !app_assoc, H2.
Qed.

(** Fairness.  Threads are dispatched in the order they became ready: a
    thread with [k] others before it in the ready queue is the next to run after
    the [k] next dispatches, whatever else happens in between. *)
Theorem ready_runs_in_turn ds x y k t :
  trace ds x y → ready_queue x.1 !! k = Some t →
  if (k <? length ds)%nat then ds !! k = Some t else ready_queue y.1 !! (k - length ds)%nat = Some t.
Proof.
  intros [enq He]%trace_fifo Hk.
  assert ((ready_queue x.1 ++ enq) !! k = Some t) as Ht by (by apply lookup_app_l_Some).
  rewrite He in Ht. destruct (Nat.ltb_spec k (length ds)).
  - by rewrite lookup_app_l in Ht.
  - by rewrite lookup_app_r in Ht.
Qed.

(** *** Timers *)
Definition sorted_timers (l : list TimerCondVar) : Prop :=
  ∀ i j x y, (i < j)%nat → l !! i = Some x → l !! j = Some y → expire_ms x ≤ expire_ms y.
Definition timers_wf (l : list TimerCondVar) : Prop := Forall (λ x, 0 ≤ expire_ms x < 2 ^ 63) l ∧ sorted_timers l.

Lemma timer_key_order x y : 0 ≤ expire_ms x < 2 ^ 63 → 0 ≤ expire_ms y < 2 ^ 63 →
  (timer_key x <=? timer_key y) = (expire_ms y <=? expire_ms x).
Proof.
  intros Hx Hy. unfold timer_key. rewrite !(as_isize_id (expire_ms _)) by lia. rewrite !as_isize_id by lia.
  apply eq_bool_prop_intro. rewrite !Is_true_true, !Z.leb_le. lia.
Qed.

Lemma timer_push_wf x l : 0 ≤ expire_ms x < 2 ^ 63 → timers_wf l → timers_wf (timer_push x l).
Proof.
  intros Hx [Hf Hs]. split; [rewrite timer_push_perm; by constructor|].
  induction l as [|y l IH]; simpl.
  { intros i j a b Hij Hi Hj. destruct i, j; simplify_eq/=; lia. }
  apply Forall_cons in Hf as [Hy Hf]. rewrite timer_key_order by done.
  assert (∀ z, z ∈ l → expire_ms y ≤ expire_ms z) as Hhd.
  { intros z [k Hk]%list_elem_of_lookup. apply (Hs 0%nat (S k) y z); [lia|done|done]. }
  assert (sorted_timers l) as Hsl by (intros i j a b Hij Hi Hj; apply (Hs (S i) (S j) a b); [lia|done|done]).
  destruct (Z.leb_spec (expire_ms y) (expire_ms x)) as [Hle|Hgt].
  - intros [|i] [|j] a b Hij Hi Hj; simplify_eq/=; [lia| |lia|by apply (IH Hf Hsl i j a b); [lia|..]].
    apply list_elem_of_lookup_2 in Hj. rewrite timer_push_perm in Hj. apply elem_of_cons in Hj as [->|Hj]; [done|by apply Hhd].
  - intros [|i] [|j] a b Hij Hi Hj; simplify_eq/=; [lia| |lia|].
    + apply list_elem_of_lookup_2 in Hj. apply elem_of_cons in Hj as [->|Hj]; [lia|]. specialize (Hhd b Hj). lia.
    + by apply (Hs i j a b); [lia|..].
Qed.

Lemma sorted_tail x l : sorted_timers (x :: l) → sorted_timers l ∧ ∀ y, y ∈ l → expire_ms x ≤ expire_ms y.
Proof.
  intros Hs. split.
  - intros i j a b Hij Hi Hj. apply (Hs (S i) (S j) a b); [lia|done|done].
  - intros y [k Hk]%list_elem_of_lookup. apply (Hs 0%nat (S k) x y); [lia|done|done].
Qed.

Lemma filter_none_all {A} (P : A → Prop) `{∀ x, Decision (P x)} l :
  (∀ x, x ∈ l → ¬ P x) → filter P l = [] ∧ filter (λ x, ¬ P x) l = l.
Proof.
  induction l as [|x l IH]; intros Hl; [done|]. destruct IH as [IH1 IH2]; [intros y Hy; apply Hl; by right|].
  rewrite filter_cons_False, filter_cons_True by (apply Hl; by left). by rewrite IH2.
Qed.

Lemma check_timer_loop_spec now l s :
  sorted_timers l → timers s = l →
  let due := filter (λ x, expire_ms x ≤ now) l in let r := check_timer_loop l now s in
  ready_queue r = ready_queue s ++ (timer_task <$> due) ∧ timers r = filter (λ x, ¬ expire_ms x ≤ now) l ∧
  (∀ t, t ∈ timer_task <$> due → status r !! t = Some Ready) ∧
  (∀ t, t ∉ timer_task <$> due → status r !! t = status s !! t).
Proof.
  revert s. induction l as [|x l IH]; intros s Hs Hl; cbn zeta; cbn [check_timer_loop].
  { rewrite app_nil_r. split_and!; [done|done|set_solver|done]. }
  destruct (sorted_tail x l Hs) as [Hsl Hhd]. destruct (Z.leb_spec (expire_ms x) now) as [Hle|Hgt].
  - rewrite filter_cons_True, filter_cons_False by (done || lia).
    destruct (IH (set_timers l (wakeup_task (timer_task x) s)) Hsl eq_refl) as (H1 & H2 & H3 & H4). split_and!.
    + rewrite H1. simpl. by rewrite <- app_assoc.
    + done.
    + intros t. rewrite fmap_cons. destruct (decide (t ∈ timer_task <$> filter (λ x, expire_ms x ≤ now) l)) as [Hin|Hn].
      * intros _. by apply H3.
      * intros [->|?]%elem_of_cons; [|done]. rewrite H4 by done. simpl. apply lookup_insert_eq.
    + intros t. rewrite fmap_cons. intros [Hne Hn]%not_elem_of_cons. rewrite H4 by done. simpl. by rewrite lookup_insert_ne.
  - destruct (filter_none_all (λ x, expire_ms x ≤ now) (x :: l)) as [-> ->].
    { intros y [->|Hy]%elem_of_cons; [lia|]. specialize (Hhd y Hy). lia. }
    rewrite app_nil_r. split_and!; [done|done|set_solver|done].
Qed.

(** Timers.  On a well-ordered heap, [check_timer] wakes exactly the threads
    whose time has come, each once and earliest first, appends them to the ready
    queue, and keeps the other timers; pushing a timer keeps the order. *)
Theorem check_timer_correct now s :
  timers_wf (timers s) →
  let due := filter (λ x, expire_ms x ≤ now) (timers s) in
  ready_queue (check_timer now s) = ready_queue s ++ (timer_task <$> due) ∧
  timers (check_timer now s) = filter (λ x, ¬ expire_ms x ≤ now) (timers s) ∧
  (∀ t, t ∈ timer_task <$> due → status (check_timer now s) !! t = Some Ready) ∧
  (∀ t, t ∉ timer_task <$> due → status (check_timer now s) !! t = status s !! t) ∧
  ∀ x, 0 ≤ expire_ms x < 2 ^ 63 → timers_wf (timer_push x (timers s)).
Proof.
  intros Hwf. destruct (check_timer_loop_spec now (timers s) s (proj2 Hwf) eq_refl) as (H1 & H2 & H3 & H4).
  split_and!; [done|done|done|done|]. intros x Hx. by apply timer_push_wf.
Qed.

(** ** Two threads and a blocking mutex, run *)
Definition two_threads : kst := spawn 2 (spawn 1 (sys_mutex_create true boot).2).
Definition with_mutex (m : Mutex) (c : option Z) (q : list Z) (st : gmap Z TaskStatus) (k : gmap Z Cont) : kst :=
  mkK c q st k [Some m] [] [] [].
Definition dispatched_1 : kst :=
  with_mutex (MutexBlocking false []) (Some 1) [2] (<[1 := Running]> (<[2 := Ready]> (<[1 := Ready]> ∅)))
    (<[2 := CReturn]> (<[1 := CReturn]> ∅)).
Definition locked_1 : kst :=
  with_mutex (MutexBlocking true []) (Some 1) [2] (<[1 := Running]> (<[2 := Ready]> (<[1 := Ready]> ∅)))
    (<[2 := CReturn]> (<[1 := CReturn]> ∅)).

Lemma demo_steps : rtc step (boot, ∅) (locked_1, {[(1, 0%nat)]}).
Proof.
  eapply rtc_l; [exists None; apply (st_mutex_create boot ∅ true)|].
  eapply rtc_l; [exists None; apply (st_spawn _ _ 1); [set_solver|done]|].
  eapply rtc_l; [exists None; apply (st_spawn _ _ 2); [set_solver|done]|].
  apply (rtc_l step _ (dispatched_1, ∅)); [|eapply rtc_l; [|apply rtc_refl]].
  - exists (Some 1). change (dispatched_1, ∅) with (dispatched_1, completed 1 dispatched_1 dispatched_1 ∪ (∅ : gset (Z * nat))).
    apply (st_dispatch two_threads ∅ 1 dispatched_1 dispatched_1); reflexivity.
  - exists None. change {[(1, 0%nat)]} with (acquired locked_1 1 0 ∪ (∅ : gset (Z * nat))).
    apply (st_lock dispatched_1 ∅ 1 0 locked_1); [done|by eexists|reflexivity].
Qed.

Lemma no_thread_lost_witness : NoDup (option_list (current locked_1) ++ ready_queue locked_1 ++ waiters locked_1).
Proof. apply (no_thread_lost locked_1 {[(1, 0%nat)]} demo_steps). Defined.

Lemma mutual_exclusion_witness : locked_of locked_1 0 = true ↔ ∃ t, owns locked_1 {[(1, 0%nat)]} t 0.
Proof. apply (mutual_exclusion locked_1 {[(1, 0%nat)]} 0 demo_steps). Defined.

Lemma sync_calls_succeed_witness : ∃ s', mutex_unlock 0 locked_1 = Ok s'.
Proof.
  destruct (sync_calls_succeed locked_1 {[(1, 0%nat)]} demo_steps) as [_ H].
  apply (H 1 eq_refl). set_solver.
Defined.

Definition one_semaphore : kst := (sys_semaphore_create 3 boot).2.
Lemma semaphore_counts_witness :
  ∃ x, semaphore_list one_semaphore !! 0%nat = Some (Some x) ∧ Z.of_nat (length (sem_queue x)) = Z.max 0 (- sem_count x).
Proof.
  eexists. split; [reflexivity|]. apply (semaphore_counts one_semaphore ∅ 0); [|reflexivity].
  eapply rtc_l; [|apply rtc_refl]. exists None. by apply (st_sem_create boot ∅ 3).
Defined.

Lemma ready_runs_in_turn_witness : [1] !! 0%nat = Some 1.
Proof.
  apply (ready_runs_in_turn [1] (two_threads, ∅) (dispatched_1, ∅) 0 1); [|reflexivity].
  apply (tr_step [] (Some 1) (two_threads, ∅) (two_threads, ∅)); [apply tr_nil|].
  change (dispatched_1, ∅) with (dispatched_1, (∅ : gset (Z * nat)) ∪ ∅).
  apply (st_dispatch two_threads ∅ 1 dispatched_1 dispatched_1); reflexivity.
Defined.

Lemma check_timer_correct_witness :
  let s := add_timer 20 7 (add_timer 10 8 boot) in
  ready_queue (check_timer 15 s) = [8] ∧ timers (check_timer 15 s) = [mkTimer 20 7].
Proof.
  destruct (check_timer_correct 15 (add_timer 20 7 (add_timer 10 8 boot))) as (H1 & H2 & _).
  - apply timer_push_wf; [simpl; lia|]. apply timer_push_wf; [simpl; lia|]. split; [constructor|]. intros i j x y _ H. done.
  - split; [exact H1|exact H2].
Defined.
