(* ===== verification/Threads.v ===== *)
(** * Programs of several threads over the kernel's scheduler

    A thread of a user program as the list of what it does: steps of its own on
    the shared memory, and calls of the library.  [ustep] runs such threads on
    the scheduler, mutexes and timers of Sched.v: which thread moves is the
    kernel's choice, a timer interrupt may preempt it between any two steps, and
    a call that blocks or spins ends when the kernel says so.  The invariant
    [tinv] relates the position of every thread to the mutexes it holds.  The
    library functions are those of user/src/lib.rs (mutex_lock, mutex_unlock,
    sleep, thread_create, waittid). *)
From S2P Require Import Prelude Sched SchedSafe.

(** [UWait] is the library's [waittid]: it yields while the thread runs.
    [UCreate b i] makes a mutex and asserts that its number is [i]. *)
Inductive uop (L : Type) :=
| ULocal (a : L)
| ULock (m : nat)
| UUnlock (m : nat)
| USleep (ms : Z)
| USpawn (t : Z)
| UWait (t : Z)
| UCreate (blocking : bool) (i : nat).
Arguments ULocal {L}.
Arguments ULock {L}.
Arguments UUnlock {L}.
Arguments USleep {L}.
Arguments USpawn {L}.
Arguments UWait {L}.
Arguments UCreate {L}.

(** The kernel with the ghost set of SchedSafe.v, the memory the threads share,
    and the position of each thread in its text. *)
Record ust (Mem : Type) := mkU { us_k : kst; us_cs : gset (Z * nat); us_mem : Mem; us_pc : gmap Z nat }.
Arguments mkU {Mem}.
Arguments us_k {Mem}.
Arguments us_cs {Mem}.
Arguments us_mem {Mem}.
Arguments us_pc {Mem}.

(** ** What a kernel activity of thread [t] leaves alone *)
Definition queues_locked (k : kst) : Prop := ∀ m b q, mutex_list k !! m = Some (Some (MutexBlocking b q)) → q ≠ [] → b = true.
Record moved (t : Z) (k k' : kst) : Prop := {
  mv_conts : ∀ x, x ≠ t → conts k' !! x = conts k !! x;
  mv_current : ∀ x, x ≠ t → current k' ≠ Some x;
  mv_live : ∀ x, is_Some (status k' !! x) ↔ is_Some (status k !! x);
  mv_exists : ∀ m, mutex_exists k m → mutex_exists k' m;
  mv_plain : semaphore_list k' = semaphore_list k ∧ condvar_list k' = condvar_list k;
  mv_queues : queues_locked k → queues_locked k';
}.
Lemma queues_update k m y : (∀ b q, y = MutexBlocking b q → q ≠ [] → b = true) → queues_locked k → queues_locked (set_mutexes (<[m := Some y]> (mutex_list k)) k).
Proof.
  intros Hy Hq n b q Hn. cbn in Hn. apply list_lookup_insert_Some in Hn as [(-> & [= ->] & _)|[_ Hn]]; [by apply Hy|by eapply Hq].
Qed.

Lemma live_insert (st : gmap Z TaskStatus) t v : is_Some (st !! t) → ∀ x, is_Some (<[t := v]> st !! x) ↔ is_Some (st !! x).
Proof. intros Ht x. destruct (decide (x = t)) as [->|]; [by rewrite lookup_insert_eq|by rewrite lookup_insert_ne]. Qed.

Lemma moved_set_mutexes k t m x y :
  current k = Some t → mutex_list k !! m = Some (Some x) → (∀ b q, y = MutexBlocking b q → q ≠ [] → b = true) →
  moved t k (set_mutexes (<[m := Some y]> (mutex_list k)) k).
Proof.
  intros Hc Hm Hy. destruct (mutex_update k m x y Hm) as (He & _). split; try done; [intros z Hz; cbn; congruence|by apply queues_update].
Qed.
Lemma lock_effect k t m k' :
  placed k → queues_locked k → current k = Some t → mutex_lock m k = Ok k' → moved t k k' ∧
    (current k' = Some t ∨ (current k' = None ∧ (conts k' !! t = Some (CSpin m) ∨ conts k' !! t = Some (CLocked m)))).
Proof.
  intros Hp Hql Hc. pose proof (pl_current _ Hp t Hc) as Hst.
  unfold mutex_lock, spin_lock, blocking_lock, suspend_current_and_run_next, block_current_and_run_next, take_current_task, current_task.
  destruct (mutex_list k !! m) as [[[l|l q]|]|] eqn:Hm; [| |done..]; destruct l; cbn [current set_mutexes]; rewrite ?Hc; cbn; intros [= <-].
  - split; [|right; split; [done|left; apply lookup_insert_eq]]. split; cbn; try done; [intros x Hx; by rewrite lookup_insert_ne|]. by apply live_insert.
  - split; [|by left]. by apply (moved_set_mutexes k t m (MutexSpin false) (MutexSpin true)).
  - split; [|right; split; [done|right; apply lookup_insert_eq]].
    destruct (moved_set_mutexes k t m (MutexBlocking true q) (MutexBlocking true (q ++ [t])) Hc Hm) as [? ? ? He ? Hq]; [by intros ? ? [= <- _]|].
    split; cbn; try done; [intros x Hx; by rewrite lookup_insert_ne|by apply live_insert].
  - split; [|by left]. apply (moved_set_mutexes k t m (MutexBlocking false q) (MutexBlocking true q)); [done|done|by intros ? ? [= <- _]].
Qed.

Lemma unlock_effect k cs t m k' :
  inv k cs → current k = Some t → mutex_unlock m k = Ok k' → moved t k k' ∧ current k' = Some t ∧ conts k' = conts k.
Proof.
  intros Hinv Hc. unfold mutex_unlock, spin_unlock, blocking_unlock.
  destruct (mutex_list k !! m) as [[[l|l q]|]|] eqn:Hm; [| |done..].
  - intros [= <-]. split; [|done]. by apply (moved_set_mutexes k t m (MutexSpin l) (MutexSpin false)).
  - destruct l; [|done]. destruct q as [|w q]; cbn; intros [= <-]; (split; [|done]).
    + apply (moved_set_mutexes k t m (MutexBlocking true []) (MutexBlocking false [])); [done|done|by intros ? ? [= _ <-]].
    + destruct (moved_set_mutexes k t m (MutexBlocking true (w :: q)) (MutexBlocking true q) Hc Hm) as [? ? ? He ? Hq]; [by intros ? ? [= <- _]|].
      split; try done; cbn. apply live_insert. exists Blocked. apply (pl_waiting _ (in_placed _ _ Hinv)), waiting_in_queue. exists (QM m). cbn. rewrite Hm. by left.
Qed.

Lemma suspend_effect k t c k' :
  placed k → current k = Some t → suspend_current_and_run_next c k = Ok k' → moved t k k' ∧ current k' = None ∧ conts k' !! t = Some c.
Proof.
  intros Hp Hc. pose proof (pl_current _ Hp t Hc) as Hst. unfold suspend_current_and_run_next, take_current_task. rewrite Hc. cbn. intros [= <-].
  split; [|split; [done|apply lookup_insert_eq]]. split; cbn; try done; [intros x Hx; by rewrite lookup_insert_ne|by apply live_insert].
Qed.
Lemma sleep_effect k t now ms k' :
  placed k → current k = Some t → sys_sleep now ms k = Ok k' → moved t k k' ∧ current k' = None ∧ conts k' !! t = Some CReturn.
Proof.
  intros Hp Hc. pose proof (pl_current _ Hp t Hc) as Hst. unfold sys_sleep, block_current_and_run_next, take_current_task, current_task, add_timer.
  rewrite Hc. cbn. rewrite Hc. cbn. intros [= <-].
  split; [|split; [done|apply lookup_insert_eq]]. split; cbn; try done; [intros x Hx; by rewrite lookup_insert_ne|by apply live_insert].
Qed.
Lemma timer_effect k cs now :
  inv k cs → conts (check_timer now k) = conts k ∧ mutex_list (check_timer now k) = mutex_list k ∧
    condvar_list (check_timer now k) = condvar_list k ∧ ∀ x, is_Some (status (check_timer now k) !! x) ↔ is_Some (status k !! x).
Proof.
  intros Hinv. assert (∀ x, x ∈ timers k → is_Some (status k !! timer_task x)) as Hw.
  { intros x Hx. exists Blocked. apply (pl_waiting _ (in_placed _ _ Hinv)), waiting_in_queue. exists QT. by apply list_elem_of_fmap_2. }
  clear Hinv. unfold check_timer. remember (timers k) as l eqn:Hl. clear Hl. revert k Hw. induction l as [|x l IH]; intros k Hw; cbn [check_timer_loop]; [done|].
  case_match; [|done]. pose proof (live_insert (status k) (timer_task x) Ready (Hw x ltac:(by left))) as Hli.
  destruct (IH (set_timers l (wakeup_task (timer_task x) k))) as (H1 & H2 & H3 & H4).
  { intros y Hy. cbn. apply Hli, Hw. by right. }
  split_and!; [done|done|done|]. intros y. rewrite H4. apply Hli.
Qed.

Lemma create_effect b k t i k' :
  current k = Some t → sys_mutex_create b k = (i, k') → moved t k k' ∧ current k' = Some t.
Proof.
  intros Hc. unfold sys_mutex_create, first_free. set (x := if b then _ else _).
  assert (∀ bb q, x = MutexBlocking bb q → q = []) as Hx by (intros bb q; unfold x; destruct b; [by intros [= _ <-]|done]).
  destruct (list_find _ _) as [[j o]|] eqn:Hf; intros [= _ <-]; (split; [|done]); (split; [done|intros y Hy; cbn; congruence|done| |done|]).
  - intros m [y Hm]. apply list_find_Some in Hf as (Hj & -> & _). exists y. cbn. rewrite list_lookup_insert_ne; [done|]. intros <-. by rewrite Hj in Hm.
  - intros Hq m bb q. cbn. intros [(_ & [= He] & _)|[_ Hm]]%list_lookup_insert_Some Hne; [by apply Hx in He|by eapply Hq].
  - intros m [y Hm]. exists y. cbn. by apply lookup_app_l_Some.
  - intros Hq m bb q. cbn. intros [Hm|[_ [_ [= He]]%list_lookup_singleton_Some]]%lookup_app_Some Hne; [by eapply Hq|by apply Hx in He].
Qed.

Section threads.
(** [local t a]: what step [a] of thread [t] may do to the memory. *)
Context {Mem L : Type} (local : Z → L → Mem → Mem → Prop) (text : Z → list (uop L)).

Inductive ustep : ust Mem → ust Mem → Prop :=
| us_local k cs mm pcs t pc a mm' :
    current k = Some t → pcs !! t = Some pc → text t !! pc = Some (ULocal a) → local t a mm mm' →
    ustep (mkU k cs mm pcs) (mkU k cs mm' (<[t := S pc]> pcs))
| us_lock k cs mm pcs t pc m k' :
    current k = Some t → pcs !! t = Some pc → text t !! pc = Some (ULock m) →
    sys_mutex_lock (Z.of_nat m) k = Ok (0, k') →
    ustep (mkU k cs mm pcs) (mkU k' (acquired k' t m ∪ cs) mm (<[t := S pc]> pcs))
| us_unlock k cs mm pcs t pc m k' :
    current k = Some t → pcs !! t = Some pc → text t !! pc = Some (UUnlock m) →
    sys_mutex_unlock (Z.of_nat m) k = Ok (0, k') →
    ustep (mkU k cs mm pcs) (mkU k' (cs ∖ {[(t, m)]}) mm (<[t := S pc]> pcs))
| us_sleep k cs mm pcs t pc now ms k' :
    current k = Some t → pcs !! t = Some pc → text t !! pc = Some (USleep ms) →
    sys_sleep now ms k = Ok k' → ustep (mkU k cs mm pcs) (mkU k' cs mm (<[t := S pc]> pcs))
| us_spawn k cs mm pcs t pc t' :
    current k = Some t → pcs !! t = Some pc → text t !! pc = Some (USpawn t') →
    status k !! t' = None → ustep (mkU k cs mm pcs) (mkU (spawn t' k) cs mm (<[t' := 0%nat]> (<[t := S pc]> pcs)))
| us_wait k cs mm pcs t pc t' :
    current k = Some t → pcs !! t = Some pc → text t !! pc = Some (UWait t') →
    pcs !! t' = None → ustep (mkU k cs mm pcs) (mkU k cs mm (<[t := S pc]> pcs))
| us_exit k cs mm pcs t k' :
    current k = Some t → pcs !! t = Some (length (text t)) → exit_current k = Ok k' →
    ustep (mkU k cs mm pcs) (mkU k' cs mm (delete t pcs))
(** Also what [waittid] does before it asks again. *)
| us_yield k cs mm pcs t k' :
    current k = Some t → suspend_current_and_run_next CReturn k = Ok k' → ustep (mkU k cs mm pcs) (mkU k' cs mm pcs)
| us_timer k cs mm pcs now : ustep (mkU k cs mm pcs) (mkU (check_timer now k) cs mm pcs)
| us_dispatch k cs mm pcs t k1 k2 :
    current k = None → run_task k = Some (t, k1) → resume t k1 = Ok k2 →
    ustep (mkU k cs mm pcs) (mkU k2 (completed t k1 k2 ∪ cs) mm pcs)
| us_create k cs mm pcs t pc b i k' :
    current k = Some t → pcs !! t = Some pc → text t !! pc = Some (UCreate b i) →
    sys_mutex_create b k = (Z.of_nat i, k') → ustep (mkU k cs mm pcs) (mkU k' cs mm (<[t := S pc]> pcs)).

(** The library does not look at the result of a call: a lock or unlock of a
    mutex that does not exist is skipped.  The flag tells that this happened. *)
Inductive ustep_any : ust Mem * bool → ust Mem * bool → Prop :=
| ua_step u u' bad : ustep u u' → ustep_any (u, bad) (u', bad)
| ua_missing k cs mm pcs bad t pc m op k' :
    current k = Some t → pcs !! t = Some pc → text t !! pc = Some op →
    (op = ULock m ∧ sys_mutex_lock (Z.of_nat m) k = Ok (-1, k') ∨ op = UUnlock m ∧ sys_mutex_unlock (Z.of_nat m) k = Ok (-1, k')) →
    ustep_any (mkU k cs mm pcs, bad) (mkU k' cs mm (<[t := S pc]> pcs), true).
Lemma none_missing u u' : rtc ustep_any (u, false) (u', false) → rtc ustep u u'.
Proof.
  intros Hr. remember (u, false) as x eqn:Hx. remember (u', false) as y eqn:Hy. revert u u' Hx Hy.
  induction Hr as [x|x z y Hxz Hzy IH]; intros u u' -> Hy; [injection Hy as ->; apply rtc_refl|]. subst y.
  destruct z as [v bad]. assert (bad = false) as ->.
  { clear -Hzy. remember (v, bad) as a eqn:Ha. remember (u', false) as b eqn:Hb. revert v bad Ha Hb.
    induction Hzy as [a|a c b Hac _ IH]; intros v bad -> Hb; [by injection Hb|].
    inversion Hac; subst; [by eapply IH|]. by specialize (IH _ true eq_refl eq_refl). }
  inversion Hxz; subst. eapply rtc_l; [done|by apply IH].
Qed.

(** ** Which mutexes a thread holds after a part of its text *)
Definition held_op (h : gset nat) (op : uop L) : gset nat :=
  match op with
  | ULock m => {[m]} ∪ h
  | UUnlock m => h ∖ {[m]}
  | _ => h
  end.
Definition held (l : list (uop L)) : gset nat := foldl held_op ∅ l.
Lemma held_S t pc op : text t !! pc = Some op → held (take (S pc) (text t)) = held_op (held (take pc (text t))) op.
Proof. intros Hop. rewrite (take_S_r _ _ op) by done. unfold held. by rewrite foldl_app. Qed.

(** Texts unlock what they hold, lock mutexes that exist, and end with none. *)
Record text_ok (nm : nat) (l : list (uop L)) : Prop := {
  to_lock : ∀ i m, l !! i = Some (ULock m) → (m < nm)%nat;
  to_unlock : ∀ i m, l !! i = Some (UUnlock m) → m ∈ held (take i l);
  to_end : held l = ∅;
}.

(** A thread is in its own text, or in the call of [lock] it last made. *)
Definition outside (k : kst) (cs : gset (Z * nat)) (t : Z) (pc : nat) : Prop :=
  (current k = Some t ∨ conts k !! t = Some CReturn) ∧ ∀ m, (t, m) ∈ cs ↔ m ∈ held (take pc (text t)).
Definition inside (k : kst) (cs : gset (Z * nat)) (t : Z) (pc : nat) : Prop :=
  ∃ i m, pc = S i ∧ text t !! i = Some (ULock m) ∧ current k ≠ Some t ∧
    (conts k !! t = Some (CSpin m) ∨ conts k !! t = Some (CLocked m)) ∧ ∀ m', (t, m') ∈ cs ↔ m' ∈ held (take i (text t)).

(** [made]: the mutexes below this number exist. *)
Record tinv (made : nat) (u : ust Mem) : Prop := {
  ti_kern : inv (us_k u) (us_cs u);
  ti_thread : ∀ t pc, us_pc u !! t = Some pc → outside (us_k u) (us_cs u) t pc ∨ inside (us_k u) (us_cs u) t pc;
  ti_only : ∀ t m, (t, m) ∈ us_cs u → is_Some (us_pc u !! t);
  ti_live : ∀ t, is_Some (us_pc u !! t) ↔ is_Some (status (us_k u) !! t);
  ti_exists : ∀ m, (m < made)%nat → mutex_exists (us_k u) m;
  ti_plain : semaphore_list (us_k u) = [] ∧ condvar_list (us_k u) = [];
  ti_queues : queues_locked (us_k u);
}.

(** ** The invariant is kept *)
Context (made nm : nat) (Hok : ∀ t, text_ok nm (text t)).

Lemma others_keep k k' cs cs' t x pc :
  moved t k k' → (current k = Some t ∨ current k = None) → x ≠ t → (∀ m, (x, m) ∈ cs' ↔ (x, m) ∈ cs) →
  outside k cs x pc ∨ inside k cs x pc → outside k' cs' x pc ∨ inside k' cs' x pc.
Proof.
  intros Hmv Hc Hx Hcs [[Hi Hh]|(i & m & -> & Hop & _ & Hcont & Hh)].
  - left. split; [|intros m; by rewrite Hcs]. right. rewrite (mv_conts _ _ _ Hmv x Hx). destruct Hi as [Hi|Hi]; [|done]. destruct Hc; congruence.
  - right. exists i, m. rewrite (mv_conts _ _ _ Hmv x Hx). split_and!; [done|done|by apply (mv_current _ _ _ Hmv)|done|]. intros m'. by rewrite Hcs.
Qed.

Lemma tinv_move k cs mm pcs t pc k' cs' mm' pc' :
  tinv made (mkU k cs mm pcs) → moved t k k' → (current k = Some t ∨ current k = None) → inv k' cs' →
  (∀ x m, x ≠ t → (x, m) ∈ cs' ↔ (x, m) ∈ cs) → pcs !! t = Some pc →
  outside k' cs' t pc' ∨ inside k' cs' t pc' → tinv made (mkU k' cs' mm' (<[t := pc']> pcs)).
Proof.
  intros [Hk Ht Ho Hl He Hp Hq] Hmv Hc Hk' Hcs Hpc Hnew. cbn in *. split; cbn.
  - done.
  - intros x px [[<- <-]|[Hne Hx]]%lookup_insert_Some; [done|]. eapply others_keep; [done|done|done|by intros m; apply Hcs|by apply Ht].
  - intros x m Hx. destruct (decide (x = t)) as [->|Hne]; [rewrite lookup_insert_eq; eauto|]. rewrite lookup_insert_ne by done. eapply Ho. by apply Hcs.
  - intros x. rewrite (mv_live _ _ _ Hmv), <- Hl. destruct (decide (x = t)) as [->|Hne]; [rewrite lookup_insert_eq; naive_solver|by rewrite lookup_insert_ne].
  - intros m Hm. by apply (mv_exists _ _ _ Hmv), He.
  - destruct (mv_plain _ _ _ Hmv) as [-> ->]. done.
  - by apply (mv_queues _ _ _ Hmv).
Qed.

(** The running thread is in its text. *)
Lemma running_outside u t pc : tinv made u → current (us_k u) = Some t → us_pc u !! t = Some pc → outside (us_k u) (us_cs u) t pc.
Proof. intros Hi Hc Hpc. destruct (ti_thread _ _ Hi t pc Hpc) as [H|(i & m & _ & _ & Hn & _)]; [done|congruence]. Qed.
Lemma running_pc u t : tinv made u → current (us_k u) = Some t → is_Some (us_pc u !! t).
Proof. intros Hi Hc. apply (ti_live _ _ Hi). exists Running. apply (pl_current _ (in_placed _ _ (ti_kern _ _ Hi))), Hc. Qed.

Lemma moved_refl t k : current k = Some t → moved t k k.
Proof. intros Hc. split; try done. intros x Hx. congruence. Qed.

Lemma sys_lock_inv m k k' : sys_mutex_lock (Z.of_nat m) k = Ok (0, k') → mutex_exists k m ∧ mutex_lock m k = Ok k'.
Proof.
  unfold sys_mutex_lock, has, mutex_exists. rewrite Nat2Z.id. destruct (mutex_list k !! m) as [[x|]|] eqn:Hm; [|done..].
  destruct (mutex_lock m k) eqn:Hl; [|done]. intros [= <-]. eauto.
Qed.
Lemma sys_unlock_inv m k k' : sys_mutex_unlock (Z.of_nat m) k = Ok (0, k') → mutex_unlock m k = Ok k'.
Proof.
  unfold sys_mutex_unlock, has. rewrite Nat2Z.id. destruct (mutex_list k !! m) as [[x|]|] eqn:Hm; [|done..].
  destruct (mutex_unlock m k) eqn:Hl; [|done]. by intros [= <-].
Qed.

Lemma lock_keeps k cs mm pcs t pc m k' :
  tinv made (mkU k cs mm pcs) → current k = Some t → pcs !! t = Some pc → text t !! pc = Some (ULock m) →
  sys_mutex_lock (Z.of_nat m) k = Ok (0, k') → tinv made (mkU k' (acquired k' t m ∪ cs) mm (<[t := S pc]> pcs)).
Proof.
  intros Hi Hc Hpc Hop [Hex Hl]%sys_lock_inv. pose proof (ti_kern _ _ Hi) as Hk. cbn in Hk.
  destruct (lock_effect k t m k' (in_placed _ _ Hk) (ti_queues _ _ Hi) Hc Hl) as [Hmv Hcase].
  destruct (running_outside _ t pc Hi Hc Hpc) as [_ Hh]. cbn in Hh.
  eapply tinv_move; [done|done|by left|eapply inv_step; [exact Hk|eexists; by eapply st_lock]| |done|].
  - intros x n Hx. unfold acquired. case_decide; set_solver.
  - destruct Hcase as [Hcur|[Hcur Hcont]].
    + left. split; [by left|]. intros n. rewrite (acquired_some _ _ _ Hcur), (held_S _ _ _ Hop). cbn. set_solver.
    + right. exists pc, m. rewrite (acquired_none _ _ _ _ Hcur), Hcur. done.
Qed.
Lemma unlock_keeps k cs mm pcs t pc m k' :
  tinv made (mkU k cs mm pcs) → current k = Some t → pcs !! t = Some pc → text t !! pc = Some (UUnlock m) →
  sys_mutex_unlock (Z.of_nat m) k = Ok (0, k') → tinv made (mkU k' (cs ∖ {[(t, m)]}) mm (<[t := S pc]> pcs)).
Proof.
  intros Hi Hc Hpc Hop Hl%sys_unlock_inv. pose proof (ti_kern _ _ Hi) as Hk. cbn in Hk.
  destruct (unlock_effect k cs t m k' Hk Hc Hl) as (Hmv & Hcur & Hct).
  destruct (running_outside _ t pc Hi Hc Hpc) as [_ Hh]. cbn in Hh. pose proof (to_unlock _ _ (Hok t) pc m Hop) as Hheld.
  eapply tinv_move; [done|done|by left|eapply inv_step; [exact Hk|eexists; eapply st_unlock; [done|by apply Hh|done]]| |done|].
  - intros x n Hx. set_solver.
  - left. split; [by left|]. intros n. rewrite (held_S _ _ _ Hop). cbn. set_solver.
Qed.
(** A call that does not touch mutexes. *)
Lemma plain_keeps k cs mm pcs t pc k' mm' pc' :
  tinv made (mkU k cs mm pcs) → current k = Some t → pcs !! t = Some pc → moved t k k' → inv k' cs →
  (current k' = Some t ∨ conts k' !! t = Some CReturn) → held (take pc' (text t)) = held (take pc (text t)) →
  tinv made (mkU k' cs mm' (<[t := pc']> pcs)).
Proof.
  intros Hi Hc Hpc Hmv Hk' Hcur Hh. destruct (running_outside _ t pc Hi Hc Hpc) as [_ Hheld]. cbn in Hheld.
  eapply tinv_move; [done|done|by left|done|done|done|]. left. split; [done|]. intros m. by rewrite Hheld, Hh.
Qed.

Lemma spawn_keeps k cs mm pcs t pc t' :
  tinv made (mkU k cs mm pcs) → current k = Some t → pcs !! t = Some pc → text t !! pc = Some (USpawn t') → status k !! t' = None →
  tinv made (mkU (spawn t' k) cs mm (<[t' := 0%nat]> (<[t := S pc]> pcs))).
Proof.
  intros Hi Hc Hpc Hop Hfree. pose proof (ti_kern _ _ Hi) as Hk. cbn in Hk.
  assert (pcs !! t' = None) as Hnew.
  { destruct (pcs !! t') eqn:E; [|done]. destruct (proj1 (ti_live _ _ Hi t')) as [st Hst]; cbn in *; [by rewrite E|congruence]. }
  assert (∀ m, (t', m) ∉ cs) as Hno.
  { intros m Hm. destruct (ti_only _ _ Hi t' m Hm) as [x Hx]. cbn in Hx. congruence. }
  assert (t ≠ t') as Hne by congruence. destruct Hi as [_ Ht Ho Hl He Hp Hq]. cbn in *. split; cbn.
  - eapply inv_step; [exact Hk|eexists; by eapply st_spawn].
  - intros x px [[<- <-]|[Hx Hpx]]%lookup_insert_Some.
    { left. split; [right; cbn; apply lookup_insert_eq|]. intros m. rewrite take_0. split; [by intros ?%Hno|set_solver]. }
    assert (outside k cs x px ∨ inside k cs x px) as [[Hi Hh]|(i & m & -> & Hopx & Hcx & Hcont & Hh)].
    { apply lookup_insert_Some in Hpx as [[<- <-]|[_ Hpx]]; [|by apply Ht]. left. split; [by left|].
      intros m. rewrite (held_S _ _ _ Hop). destruct (Ht t pc Hpc) as [[_ Hh]|(i & n & _ & _ & Hn & _)]; [apply Hh|congruence]. }
    + left. split; [|done]. cbn. by rewrite lookup_insert_ne.
    + right. exists i, m. cbn. by rewrite lookup_insert_ne.
  - intros x m Hx. rewrite !lookup_insert_is_Some'. destruct (Ho x m Hx). eauto.
  - intros x. rewrite !lookup_insert_is_Some', Hl. split; [|naive_solver].
    intros [->|[->|Hx]]; [by left|right|by right]. exists Running. by apply (pl_current _ (in_placed _ _ Hk)).
  - done.
  - done.
  - done.
Qed.

Lemma exit_keeps k cs mm pcs t k' :
  tinv made (mkU k cs mm pcs) → current k = Some t → pcs !! t = Some (length (text t)) → exit_current k = Ok k' →
  tinv made (mkU k' cs mm (delete t pcs)).
Proof.
  intros Hi Hc Hpc Hex. pose proof (ti_kern _ _ Hi) as Hk. cbn in Hk.
  destruct (running_outside _ t _ Hi Hc Hpc) as [_ Hh]. cbn in Hh. rewrite firstn_all, (to_end _ _ (Hok t)) in Hh.
  pose proof (inv_exit k cs t k' Hk Hc Hex) as Hk'. unfold exit_current, take_current_task in Hex. rewrite Hc in Hex. injection Hex as <-.
  destruct Hi as [_ Ht Ho Hl He Hp Hq]. cbn in *. split; cbn; [done| | | |done|done|done].
  - intros x px [Hne Hx]%lookup_delete_Some. destruct (Ht x px Hx) as [[Hi Hhx]|(i & m & Hr)].
    + left. split; [|done]. right. destruct Hi as [Hi|Hi]; [congruence|done].
    + right. exists i, m. naive_solver.
  - intros x m Hx. rewrite lookup_delete_ne; [by eapply Ho|]. intros <-. apply Hh in Hx. set_solver.
  - intros x. destruct (decide (x = t)) as [->|Hne]; [by rewrite !lookup_delete_eq|]. by rewrite !lookup_delete_ne.
Qed.

Lemma timer_keeps k cs mm pcs now : tinv made (mkU k cs mm pcs) → tinv made (mkU (check_timer now k) cs mm pcs).
Proof.
  intros [Hk Ht Ho Hl He [Hp1 Hp2] Hq]. cbn in *. destruct (check_timer_inv k cs now Hk) as [Hk' Hcur].
  destruct (timer_effect k cs now Hk) as (Hct & Hml & Hcv & Hst). destruct (check_timer_keeps now k) as [Hsem _]. split; cbn.
  - done.
  - intros t pc Hpc. unfold outside, inside. rewrite Hcur, Hct. by apply Ht.
  - done.
  - intros t. by rewrite Hl, Hst.
  - intros m Hm. unfold mutex_exists. rewrite Hml. by apply He.
  - by rewrite Hsem, Hcv.
  - unfold queues_locked. rewrite Hml. exact Hq.
Qed.

Lemma dispatch_keeps k cs mm pcs t k1 k2 :
  tinv made (mkU k cs mm pcs) → current k = None → run_task k = Some (t, k1) → resume t k1 = Ok k2 →
  tinv made (mkU k2 (completed t k1 k2 ∪ cs) mm pcs).
Proof.
  intros Hi Hc Hrun Hres. pose proof (ti_kern _ _ Hi) as Hk. cbn in Hk.
  assert (inv k2 (completed t k1 k2 ∪ cs)) as Hk2 by (eapply inv_step; [exact Hk|eexists; by eapply st_dispatch]).
  unfold run_task, fetch_task in Hrun. destruct (ready_queue k) as [|t' q] eqn:Hr; [done|]. injection Hrun as -> <-. set (k1 := set_current (Some t) _) in *.
  assert (is_Some (status k !! t)) as Hst by (exists Ready; apply (pl_ready _ (in_placed _ _ Hk)); rewrite Hr; by left).
  destruct (proj2 (ti_live _ _ Hi t) Hst) as [pc Hpc]. cbn in Hpc. rewrite <- (insert_id pcs t pc Hpc).
  assert (placed k1) as Hp1 by (by eapply (placed_dispatch k k1 t); try done; apply Hk).
  assert (moved t k k1) as Hm1 by (split; cbn; try done; [congruence|by apply live_insert]).
  unfold resume in Hres. unfold completed in *. change (conts k1) with (conts k) in *.
  destruct (ti_thread _ _ Hi t pc Hpc) as [[Hcr Hh]|(i & m & -> & Hop & _ & Hcont & Hh)]; cbn in *.
  { destruct Hcr as [Hcr|Hcr]; [congruence|]. rewrite Hcr in *. injection Hres as <-. eapply tinv_move; [exact Hi|exact Hm1|by right|done|set_solver|done|].
    left. split; [by left|]. set_solver. }
  assert (∀ k', moved t k k' → current k' = Some t → inv k' ({[(t, m)]} ∪ cs) → tinv made (mkU k' ({[(t, m)]} ∪ cs) mm (<[t := S i]> pcs))) as Hdone.
  { intros k' Hmv Hcur Hk'. eapply tinv_move; [exact Hi|exact Hmv|by right|done|set_solver|done|]. left. split; [by left|].
    intros n. rewrite (held_S _ _ _ Hop). cbn. set_solver. }
  destruct Hcont as [Hcont|Hcont]; rewrite Hcont in *; [|injection Hres as <-; by apply Hdone].
  destruct (lock_effect k1 t m k2 Hp1 (ti_queues _ _ Hi) eq_refl Hres) as [Hm2 Hcase].
  assert (moved t k k2) as Hmv.
  { destruct Hm1, Hm2. split; [intros x Hx; rewrite mv_conts1, mv_conts0 by done; done|done|intros x; by rewrite mv_live1, mv_live0|naive_solver| |naive_solver].
    destruct mv_plain1 as [-> ->]. done. }
  destruct Hcase as [Hcur|[Hcur Hcont2]].
  - rewrite (acquired_some _ _ _ Hcur) in *. by apply Hdone.
  - rewrite (acquired_none _ _ _ _ Hcur) in *. eapply tinv_move; [exact Hi|exact Hmv|by right|done|done|done|].
    right. exists i, m. rewrite Hcur. done.
Qed.

Lemma tinv_step u u' : tinv made u → ustep u u' → tinv made u'.
Proof.
  intros Hi Hs. pose proof (ti_kern _ _ Hi) as Hk. destruct Hs as [k cs mm pcs t pc a mm' Hc Hpc Hop Hloc|k cs mm pcs t pc m k' Hc Hpc Hop Hl|
    k cs mm pcs t pc m k' Hc Hpc Hop Hl|k cs mm pcs t pc now ms k' Hc Hpc Hop Hl|k cs mm pcs t pc t' Hc Hpc Hop Hf|
    k cs mm pcs t pc t' Hc Hpc Hop Hf|k cs mm pcs t k' Hc Hpc Hex|k cs mm pcs t k' Hc Hsu|k cs mm pcs now|k cs mm pcs t k1 k2 Hc Hr Hres|k cs mm pcs t pc b i k' Hc Hpc Hop Hcr]; cbn in Hk.
  - eapply plain_keeps; [done|done|done|by apply moved_refl|done|by left|by rewrite (held_S _ _ _ Hop)].
  - by eapply lock_keeps.
  - by eapply unlock_keeps.
  - destruct (sleep_effect k t now ms k' (in_placed _ _ Hk) Hc Hl) as (Hmv & _ & Hct).
    eapply plain_keeps; [done|done|done|done|eapply inv_step; [exact Hk|eexists; by eapply st_sleep]|by right|by rewrite (held_S _ _ _ Hop)].
  - by eapply spawn_keeps.
  - eapply plain_keeps; [done|done|done|by apply moved_refl|done|by left|by rewrite (held_S _ _ _ Hop)].
  - by eapply exit_keeps.
  - destruct (suspend_effect k t CReturn k' (in_placed _ _ Hk) Hc Hsu) as (Hmv & _ & Hct). destruct (running_pc _ t Hi Hc) as [pc Hpc]. cbn in Hpc.
    rewrite <- (insert_id pcs t pc Hpc).
    eapply plain_keeps; [done|done|done|done|eapply inv_step; [exact Hk|eexists; by eapply st_yield]|by right|done].
  - by apply timer_keeps.
  - by eapply dispatch_keeps.
  - destruct (create_effect b k t _ k' Hc Hcr) as [Hmv Hcur].
    eapply plain_keeps; [done|done|done|done| |by left|by rewrite (held_S _ _ _ Hop)].
    pose proof (inv_mutex_create k cs b Hk) as Hk'. by rewrite Hcr in Hk'.
Qed.
Lemma tinv_steps u u' : tinv made u → rtc ustep u u' → tinv made u'.
Proof. intros Hi Hr. apply (rtc_invariant ustep (tinv made) u u'); [|done|done]. intros x y Hx Hxy. by eapply tinv_step. Qed.

(** ** Locks taken in order *)
Definition ordered : Prop := ∀ t i m m', text t !! i = Some (ULock m) → m' ∈ held (take i (text t)) → (m' < m)%nat.
Definition can_go (k : kst) (t : Z) : Prop := current k = Some t ∨ t ∈ ready_queue k ∨ t ∈ timer_task <$> timers k.

(** Behind every thread that waits for a mutex is one that owns a mutex and is
    running, ready or asleep. *)
Lemma wait_chain_ends u t m :
  ordered → tinv made u → t ∈ queue_of (us_k u) (QM m) →
  ∃ t' m', (m ≤ m')%nat ∧ owns (us_k u) (us_cs u) t' m' ∧ can_go (us_k u) t'.
Proof.
  intros Hord Hi. remember (nm - m)%nat as fuel eqn:Hf. assert (nm - m ≤ fuel)%nat as Hle by lia. clear Hf.
  revert t m Hle. induction fuel as [fuel IH] using lt_wf_ind. intros t m Hle Hw.
  pose proof (ti_kern _ _ Hi) as Hk. destruct (in_locked _ _ Hk m) as [_ Hown].
  assert (locked_of (us_k u) m = true) as Hlk.
  { cbn in Hw. unfold locked_of. destruct (mutex_list (us_k u) !! m) as [[[b|b q]|]|] eqn:Hm; cbn in Hw; try by apply elem_of_nil in Hw.
    apply (ti_queues _ _ Hi m b q Hm). intros ->. by apply elem_of_nil in Hw. }
  destruct (Hown Hlk) as [t1 Ho]. destruct Ho as [Hcs|[Hrd Hct]]; [|exists t1, m; split; [done|split; [by right|right; by left]]].
  destruct (ti_only _ _ Hi t1 m Hcs) as [pc Hpc]. pose proof (proj1 (ti_live _ _ Hi t1) (ex_intro _ _ Hpc)) as Hst.
  pose proof (in_placed _ _ Hk) as Hpl. apply (pl_all _ Hpl) in Hst as Hin. unfold places in Hin. rewrite !elem_of_app in Hin.
  assert (can_go (us_k u) t1 ∨ t1 ∈ waiters (us_k u)) as [Hg|Hwt].
  { destruct Hin as [Hin|[Hin|Hin]]; [left; left; destruct (current (us_k u)); [by apply list_elem_of_singleton in Hin as ->|by apply elem_of_nil in Hin]|left; right; by left|by right]. }
  { exists t1, m. split; [done|]. split; [by left|done]. }
  pose proof Hwt as Hwt2. apply waiting_in_queue in Hwt as [[m1|j|c|] Hq]; cbn [queue_of] in Hq.
  2: { rewrite (proj1 (ti_plain _ _ Hi)), lookup_nil in Hq. by apply elem_of_nil in Hq. }
  2: { rewrite (proj2 (ti_plain _ _ Hi)), lookup_nil in Hq. by apply elem_of_nil in Hq. }
  2: { exists t1, m. split; [done|]. split; [by left|]. right. by right. }
  destruct (in_queues _ _ Hk (QM m1) _ Hq) as (c & Hcont & -> & _).
  destruct (ti_thread _ _ Hi t1 pc Hpc) as [[[Hcur|Hcr] _]|(i & m2 & -> & Hop & _ & Hcc & Hh)].
  - destruct (current_elsewhere _ _ Hpl Hcur) as [_ []]. done.
  - congruence.
  - assert (m2 = m1) as -> by (destruct Hcc; congruence). pose proof (Hord t1 i m1 m Hop (proj1 (Hh m) Hcs)) as Hlt.
    pose proof (to_lock _ _ (Hok t1) i m1 Hop) as Hnm. destruct (IH (nm - m1)%nat ltac:(lia) t1 m1 ltac:(lia) Hq) as (t' & m' & Hm' & Ho & Hg).
    exists t', m'. split; [lia|done].
Qed.
End threads.

(** ** Running a program on a given schedule *)
Inductive choice := Go (now : Z) | Preempt | Tick (now : Z) | Dispatch.
Section exec.
Context {Mem L : Type} (run : Z → L → Mem → Mem) (text : Z → list (uop L)).
Definition call_ok (o : outcome (Z * kst)) : option kst := match o with Ok (r, k') => if r =? 0 then Some k' else None | Err _ => None end.
Definition to_option {A} (o : outcome A) : option A := match o with Ok a => Some a | Err _ => None end.
Definition exec1 (c : choice) (u : ust Mem) : option (ust Mem) :=
  let '(mkU k cs mm pcs) := u in
  match c with
  | Go now =>
      t ← current k; pc ← pcs !! t;
      match text t !! pc with
      | Some (ULocal a) => Some (mkU k cs (run t a mm) (<[t := S pc]> pcs))
      | Some (ULock m) => k' ← call_ok (sys_mutex_lock (Z.of_nat m) k); Some (mkU k' (acquired k' t m ∪ cs) mm (<[t := S pc]> pcs))
      | Some (UUnlock m) => k' ← call_ok (sys_mutex_unlock (Z.of_nat m) k); Some (mkU k' (cs ∖ {[(t, m)]}) mm (<[t := S pc]> pcs))
      | Some (USleep ms) => k' ← to_option (sys_sleep now ms k); Some (mkU k' cs mm (<[t := S pc]> pcs))
      | Some (USpawn t') => if decide (status k !! t' = None) then Some (mkU (spawn t' k) cs mm (<[t' := 0%nat]> (<[t := S pc]> pcs))) else None
      | Some (UWait t') => if decide (pcs !! t' = None) then Some (mkU k cs mm (<[t := S pc]> pcs)) else None
      | Some (UCreate b i) => let '(r, k') := sys_mutex_create b k in if decide (r = Z.of_nat i) then Some (mkU k' cs mm (<[t := S pc]> pcs)) else None
      | None => if decide (pc = length (text t)) then k' ← to_option (exit_current k); Some (mkU k' cs mm (delete t pcs)) else None
      end
  | Preempt => _ ← current k; k' ← to_option (suspend_current_and_run_next CReturn k); Some (mkU k' cs mm pcs)
  | Tick now => Some (mkU (check_timer now k) cs mm pcs)
  | Dispatch =>
      if decide (current k = None) then '(t, k1) ← run_task k; k2 ← to_option (resume t k1); Some (mkU k2 (completed t k1 k2 ∪ cs) mm pcs) else None
  end.
Fixpoint exec (l : list choice) (u : ust Mem) : option (ust Mem) :=
  match l with [] => Some u | c :: l' => u' ← exec1 c u; exec l' u' end.

Lemma call_ok_inv o k : call_ok o = Some k → o = Ok (0, k).
Proof. unfold call_ok. destruct o as [[r k']|]; [|done]. destruct (Z.eqb_spec r 0) as [->|]; [by intros [= ->]|done]. Qed.
Lemma to_option_inv {A} (o : outcome A) a : to_option o = Some a → o = Ok a.
Proof. destruct o; [by intros [= ->]|done]. Qed.

Lemma exec1_sound local c u u' :
  (∀ t a mm, local t a mm (run t a mm)) → exec1 c u = Some u' → ustep local text u u'.
Proof.
  intros Hl. destruct u as [k cs mm pcs], c as [now| |now|]; unfold exec1.
  - intros (t & Hc & He)%bind_Some. apply bind_Some in He as (pc & Hpc & He). destruct (text t !! pc) as [[a|m|m|ms|t'|t'|b i]|] eqn:Hop.
    + injection He as <-. by eapply us_local.
    + apply bind_Some in He as (k' & Hk%call_ok_inv & [= <-]). by eapply us_lock.
    + apply bind_Some in He as (k' & Hk%call_ok_inv & [= <-]). by eapply us_unlock.
    + apply bind_Some in He as (k' & Hk%to_option_inv & [= <-]). by eapply us_sleep.
    + case_decide; [|done]. injection He as <-. by eapply us_spawn.
    + case_decide; [|done]. injection He as <-. by eapply us_wait.
    + destruct (sys_mutex_create b k) as [r k'] eqn:Hcr. case_decide; [|done]. subst r. injection He as <-. by eapply us_create.
    + case_decide; [|done]. subst pc. apply bind_Some in He as (k' & Hk%to_option_inv & [= <-]). by eapply us_exit.
  - intros (t & Hc & He)%bind_Some. apply bind_Some in He as (k' & Hk%to_option_inv & [= <-]). by eapply us_yield.
  - intros [= <-]. apply us_timer.
  - case_decide; [|done]. intros ([t k1] & Hr & He)%bind_Some. apply bind_Some in He as (k2 & Hk%to_option_inv & [= <-]). by eapply us_dispatch.
Qed.
Lemma exec_sound local l u u' :
  (∀ t a mm, local t a mm (run t a mm)) → exec l u = Some u' → rtc (ustep local text) u u'.
Proof.
  intros Hl. revert u. induction l as [|c l IH]; intros u; cbn [exec]; [intros [= <-]; apply rtc_refl|].
  intros (v & Hv & He)%bind_Some. eapply rtc_l; [by eapply exec1_sound|by apply IH].
Qed.
End exec.

(** ** Starting a program: the main thread runs and has made its mutexes *)
Definition main_running : kst := match run_task (spawn 0 boot) with Some (_, k) => k | None => boot end.
Definition new_mutex (blocking : bool) : Mutex := if blocking then MutexBlocking false [] else MutexSpin false.
Fixpoint with_mutexes (nm : nat) (blocking : bool) : kst :=
  match nm with
  | O => main_running
  | S n => (sys_mutex_create blocking (with_mutexes n blocking)).2
  end.
Definition start {Mem} (nm : nat) (blocking : bool) (mm : Mem) : ust Mem := mkU (with_mutexes nm blocking) ∅ mm {[0 := 0%nat]}.

Lemma with_mutexes_eq nm b : with_mutexes nm b = set_mutexes (replicate nm (Some (new_mutex b))) main_running.
Proof.
  induction nm as [|nm IH]; [done|]. cbn [with_mutexes]. rewrite IH. unfold sys_mutex_create, first_free.
  cbn [mutex_list set_mutexes]. destruct (list_find _ _) as [[i o]|] eqn:Hf.
  - apply list_find_Some in Hf as (Hi & -> & _). apply lookup_replicate in Hi as [? _]. done.
  - cbn [snd]. unfold set_mutexes. cbn. f_equal. change (if b then _ else _) with (new_mutex b). by rewrite <- replicate_S_end.
Qed.
Lemma start_tinv {Mem L} (text : Z → list (uop L)) nm b (mm : Mem) : tinv text nm (start nm b mm).
Proof.
  assert (inv main_running ∅) as Hmain.
  { destruct (dispatch_inv (spawn 0 boot) ∅ 0 main_running) as (k & [= <-] & Hk); [|done|done|].
    - apply inv_spawn; [apply inv_boot|set_solver|done].
    - by rewrite union_empty_r_L in Hk. }
  unfold start. rewrite with_mutexes_eq. split; cbn.
  - rewrite <- with_mutexes_eq. clear text. induction nm as [|nm IH]; [done|]. cbn [with_mutexes]. by apply inv_mutex_create.
  - intros t pc [<- <-]%lookup_singleton_Some. left. split; [by left|]. intros m. set_solver.
  - set_solver.
  - intros t. rewrite lookup_singleton_is_Some. split; [intros <-; eexists; reflexivity|].
    intros [st Hst]. destruct (decide (0 = t)) as [|Hne]; [done|]. exfalso.
    change (status main_running) with (<[0 := Running]> (<[0 := Ready]> (∅ : gmap Z TaskStatus))) in Hst. by rewrite !lookup_insert_ne, lookup_empty in Hst.
  - intros m Hm. exists (new_mutex b). cbn. by apply lookup_replicate.
  - done.
  - intros m bb q. cbn. intros Hm. apply lookup_replicate in Hm as [Hm _]. destruct b; cbn in Hm; [|done]. injection Hm as _ ->. intros Hq. by destruct Hq.
Qed.
