(* ===== verification/UserSync.v ===== *)
(** * User programs with mutexes (user/src/bin/adder_mutex_spin.rs,
      adder_mutex_blocking.rs, phil_din_mutex.rs)

    The threads of these programs as texts of Threads.v.  [adder]: threads that
    increment a shared counter under a mutex, a read and a write apart.
    [philosophers]: five threads that take two mutexes each, the smaller first.
    The memory is that of the process; a step between two calls is one access to
    it. *)
From S2P Require Import Prelude Sched SchedSafe Threads.

(** ** Loops: a text of bodies of one length, each releasing what it took *)
Section bodies.
Context {L : Type} (len : nat) (Hlen : (0 < len)%nat).
Implicit Types (bodies : list (list (uop L))).
Definition uniform bodies : Prop := Forall (λ b, length b = len ∧ held b = ∅) bodies.

Lemma length_bodies bodies : uniform bodies → length (concat bodies) = (len * length bodies)%nat.
Proof. induction 1 as [|b bodies [Hb _] _ IH]; cbn; [lia|]. rewrite length_app, IH. lia. Qed.
Lemma bodies_lookup bodies i j : uniform bodies → (j < len)%nat → concat bodies !! (len * i + j)%nat = bodies !! i ≫= λ b, b !! j.
Proof.
  intros Hu Hj. revert i. induction Hu as [|b bodies [Hb _] Hu IH]; intros i; [by rewrite !lookup_nil|].
  cbn [concat]. destruct i as [|i].
  - rewrite lookup_app_l by lia. cbn. f_equal. lia.
  - rewrite lookup_app_r by lia. replace (len * S i + j - length b)%nat with (len * i + j)%nat by lia. apply IH.
Qed.
Lemma bodies_held bodies i j b :
  uniform bodies → (j < len)%nat → bodies !! i = Some b → held (take (len * i + j) (concat bodies)) = held (take j b).
Proof.
  intros Hu Hj. revert i. induction Hu as [|b' bodies [Hb Hh] Hu IH]; intros i Hi; [by rewrite lookup_nil in Hi|].
  cbn [concat]. destruct i as [|i].
  - injection Hi as ->. rewrite take_app_le by lia. do 2 f_equal. lia.
  - rewrite take_app_ge by lia. replace (len * S i + j - length b')%nat with (len * i + j)%nat by lia.
    unfold held in *. rewrite foldl_app, Hh. by apply IH.
Qed.
Lemma bodies_end bodies : uniform bodies → held (concat bodies) = ∅.
Proof. induction 1 as [|b bodies [_ Hb] _ IH]; [done|]. unfold held in *. cbn. by rewrite foldl_app, Hb. Qed.
(** Where a position is. *)
Lemma bodies_at bodies pc op :
  uniform bodies → concat bodies !! pc = Some op →
  ∃ b, bodies !! (pc / len)%nat = Some b ∧ b !! (pc mod len)%nat = Some op ∧ held (take pc (concat bodies)) = held (take (pc mod len) b).
Proof.
  intros Hu Hop. pose proof (Nat.mod_upper_bound pc len ltac:(lia)) as Hm. pose proof (Nat.div_mod pc len ltac:(lia)) as Hd.
  pose proof (bodies_lookup bodies (pc / len) (pc mod len) Hu Hm) as Hl. rewrite <- Hd, Hop in Hl.
  destruct (bodies !! (pc / len)%nat) as [b|] eqn:Hb; [|done]. exists b. split_and!; [done|done|].
  rewrite Hd at 1. by apply bodies_held.
Qed.
Lemma bodies_ok nm bodies :
  uniform bodies → (∀ b i m, b ∈ bodies → b !! i = Some (ULock m) → (m < nm)%nat) →
  (∀ b i m, b ∈ bodies → b !! i = Some (UUnlock m) → m ∈ held (take i b)) → text_ok nm (concat bodies).
Proof.
  intros Hu Hl Hun. split; [| |by apply bodies_end].
  - intros i m Hop. destruct (bodies_at _ _ _ Hu Hop) as (b & Hb & Hb' & _). eapply Hl; [by eapply list_elem_of_lookup_2|done].
  - intros i m Hop. destruct (bodies_at _ _ _ Hu Hop) as (b & Hb & Hb' & ->). eapply Hun; [by eapply list_elem_of_lookup_2|done].
Qed.
End bodies.

(** A text without mutexes. *)
Definition lock_free {L} (l : list (uop L)) : Prop := ∀ m, ULock m ∉ l ∧ UUnlock m ∉ l.
Lemma lock_free_held {L} (l : list (uop L)) : lock_free l → ∀ i, held (take i l) = ∅.
Proof.
  intros Hl i. assert (∀ m, ULock m ∉ take i l ∧ UUnlock m ∉ take i l) as Ht.
  { intros m. destruct (Hl m) as [H1 H2]. split; intros (j & Hj & _)%elem_of_take; [apply H1|apply H2]; by eapply list_elem_of_lookup_2. }
  generalize dependent (take i l). intros k Hk. unfold held. assert (∀ op, op ∈ k → held_op (L := L) ∅ op = ∅) as Hop.
  { intros [a|m|m|ms|t|t|b j] Hin; try reflexivity; exfalso; [by apply (proj1 (Hk m))|by apply (proj2 (Hk m))]. }
  clear Hk. induction k as [|op k IH]; [done|]. cbn. rewrite Hop by (by left). apply IH. intros x Hx. apply Hop. by right.
Qed.
Lemma lock_free_ok {L} nm (l : list (uop L)) : lock_free l → text_ok nm l.
Proof.
  intros Hl. split.
  - intros i m Hi. destruct (proj1 (Hl m)). by eapply list_elem_of_lookup_2.
  - intros i m Hi. destruct (proj2 (Hl m)). by eapply list_elem_of_lookup_2.
  - rewrite <- (firstn_all l). by apply lock_free_held.
Qed.

(** [main] of these programs: a thread per number from 1 to [n], then a [waittid]
    for each. *)
Definition spawn_and_wait {L} (n : nat) : list (uop L) := (USpawn <$> seqZ 1 (Z.of_nat n)) ++ (UWait <$> seqZ 1 (Z.of_nat n)).
Lemma spawn_and_wait_free {L} n : lock_free (L := L) (spawn_and_wait n).
Proof. intros m. unfold spawn_and_wait. rewrite !elem_of_app, !list_elem_of_fmap. naive_solver. Qed.
Lemma spawn_at {L} n p t : spawn_and_wait (L := L) n !! p = Some (USpawn t) → (p < n)%nat ∧ t = 1 + Z.of_nat p.
Proof.
  unfold spawn_and_wait. rewrite lookup_app_Some, !list_lookup_fmap. intros [H|[_ H]].
  - destruct (seqZ _ _ !! p) as [x|] eqn:Hx; [|done]. injection H as ->. apply lookup_seqZ in Hx as [-> Hx]. lia.
  - by destruct (seqZ _ _ !! _).
Qed.
Lemma wait_at {L} n p t : spawn_and_wait (L := L) n !! p = Some (UWait t) → (n ≤ p < 2 * n)%nat ∧ t = 1 + Z.of_nat (p - n).
Proof.
  unfold spawn_and_wait. rewrite lookup_app_Some, !list_lookup_fmap, length_fmap, length_seqZ. intros [H|[Hp H]].
  - by destruct (seqZ _ _ !! _).
  - destruct (seqZ _ _ !! _) as [x|] eqn:Hx; [|done]. injection H as ->. apply lookup_seqZ in Hx as [-> Hx]. lia.
Qed.
Lemma spawn_and_wait_ops {L} n p op : spawn_and_wait (L := L) n !! p = Some op → ∃ t, op = USpawn t ∨ op = UWait t.
Proof.
  unfold spawn_and_wait. intros Hop%list_elem_of_lookup_2. rewrite elem_of_app, !list_elem_of_fmap in Hop. naive_solver.
Qed.

(** ** The adder *)
Module Adder.

(** The accesses of [critical_section]; [Work] is its loop of 500 squarings. *)
Inductive alocal := ReadA | Work | WriteA.
(** [A] and the variables [cur] and [t] of each thread; [writes], not in the
    program, counts the writes of each thread. *)
Record amem := mkA { A : Z; cur : gmap Z Z; tval : gmap Z Z; writes : gmap Z nat }.
Fixpoint squares (n : nat) (t : Z) : Z := match n with O => t | S n' => squares n' (u64 (t * t) mod 10007) end.
Definition critical_section (t : Z) (a : alocal) (mm : amem) : amem :=
  match a with
  | ReadA => mkA (A mm) (<[t := A mm]> (cur mm)) (tval mm) (writes mm)
  | Work => mkA (A mm) (cur mm) (<[t := squares 500 (default 2 (tval mm !! t))]> (tval mm)) (writes mm)
  | WriteA => mkA (u64 (default 0 (cur mm !! t) + 1)) (cur mm) (tval mm) (<[t := S (default 0%nat (writes mm !! t))]> (writes mm))
  end.
Definition alocal_step (t : Z) (a : alocal) (mm mm' : amem) : Prop := mm' = critical_section t a mm.

(** [f] and [main]. *)
Definition adder_body : list (uop alocal) := [ULock 0; ULocal ReadA; ULocal Work; ULocal WriteA; UUnlock 0].
Definition f (per_thread : nat) : list (uop alocal) := concat (replicate per_thread adder_body).
Definition adder_text (thread_count per_thread : nat) (t : Z) : list (uop alocal) :=
  if t =? 0 then spawn_and_wait thread_count else if (0 <? t) && (t <=? Z.of_nat thread_count) then f per_thread else [].
Definition adder_mem : amem := mkA 0 ∅ ∅ ∅.

Section adder.
Context (n per : nat).
#[local] Abbreviation txt := (adder_text n per).
#[local] Abbreviation W mm t := (default 0%nat (writes mm !! t)).
Definition total (mm : amem) : Z := Z.of_nat (sum_list_with (λ t, W mm t) (seqZ 1 (Z.of_nat n))).

Lemma bodies_uniform : uniform 5 (replicate per adder_body).
Proof. apply Forall_replicate. split; [done|]. vm_compute. reflexivity. Qed.
Lemma adder_texts_ok t : text_ok 1 (txt t).
Proof.
  unfold adder_text. destruct (t =? 0); [apply lock_free_ok, spawn_and_wait_free|]. destruct (_ && _); [|apply lock_free_ok; intros m; split; apply not_elem_of_nil].
  apply (bodies_ok 5); [lia|apply bodies_uniform|..]; intros b i m [-> _]%elem_of_replicate;
    do 5 (destruct i as [|i]; [cbn; intros [= <-]; first [lia|vm_compute; reflexivity|idtac]|]); try done.
Qed.
(** The adder_text of a worker, by position. *)
Lemma worker_at t pc op : 0 < t → txt t !! pc = Some op → t ≤ Z.of_nat n ∧ (pc < 5 * per)%nat ∧ adder_body !! (pc mod 5)%nat = Some op.
Proof.
  intros Ht. unfold adder_text. rewrite (proj2 (Z.eqb_neq t 0)) by lia. rewrite (proj2 (Z.ltb_lt 0 t)) by lia. cbn [andb].
  destruct (Z.leb_spec t (Z.of_nat n)); [|by rewrite lookup_nil]. intros Hop. split; [done|].
  pose proof (lookup_lt_Some _ _ _ Hop) as Hlt. unfold f in *. rewrite (length_bodies 5 ltac:(lia)) in Hlt by apply bodies_uniform. rewrite length_replicate in Hlt. split; [done|].
  destruct (bodies_at 5 ltac:(lia) _ _ _ bodies_uniform Hop) as (b & Hb & Hb' & _). apply lookup_replicate in Hb as [-> _]. done.
Qed.
Lemma worker_length t : 0 < t ≤ Z.of_nat n → length (txt t) = (5 * per)%nat.
Proof.
  intros Ht. unfold adder_text. rewrite (proj2 (Z.eqb_neq t 0)), (proj2 (Z.ltb_lt 0 t)), (proj2 (Z.leb_le t _)) by lia. cbn [andb].
  unfold f. rewrite (length_bodies 5 ltac:(lia)) by apply bodies_uniform. by rewrite length_replicate.
Qed.
(** Between the read and the write the mutex is held. *)
Lemma worker_holds t pc op : 0 < t → txt t !! pc = Some op → (pc mod 5 = 2 ∨ pc mod 5 = 3)%nat → held (take pc (txt t)) = {[0%nat]}.
Proof.
  intros Ht Hop Hpc. destruct (worker_at t pc op Ht Hop) as (Hn & Hlt & _). unfold adder_text, f in *.
  rewrite (proj2 (Z.eqb_neq t 0)), (proj2 (Z.ltb_lt 0 t)), (proj2 (Z.leb_le t _)) in * by lia. cbn [andb] in *.
  destruct (bodies_at 5 ltac:(lia) _ _ _ bodies_uniform Hop) as (b & Hb & _ & ->). apply lookup_replicate in Hb as [-> _].
  destruct Hpc as [-> | ->]; vm_compute; reflexivity.
Qed.

(** A thread at position [pc] has made [(pc + 1) / 5] writes, and between its read
    and its write its [cur] is [A]; [main] has started the threads up to its
    position, and waited for those up to its position less [n]. *)
Record ainv (u : ust amem) : Prop := {
  ai_t : tinv txt 1 u;
  ai_sum : A (us_mem u) = u64 (total (us_mem u));
  ai_worker : ∀ t pc, 0 < t → us_pc u !! t = Some pc → t ≤ Z.of_nat n ∧ (pc ≤ 5 * per)%nat ∧ W (us_mem u) t = ((pc + 1) / 5)%nat;
  ai_cur : ∀ t pc, 0 < t → us_pc u !! t = Some pc → (pc mod 5 = 2 ∨ pc mod 5 = 3)%nat → cur (us_mem u) !! t = Some (A (us_mem u));
  ai_fresh : ∀ p t, us_pc u !! 0 = Some p → Z.of_nat p < t → us_pc u !! t = None ∧ W (us_mem u) t = 0%nat;
  ai_done : ∀ p t, us_pc u !! 0 = Some p → 0 < t ≤ Z.of_nat p → t ≤ Z.of_nat n → us_pc u !! t = None → W (us_mem u) t = per;
  ai_waited : ∀ p t, us_pc u !! 0 = Some p → 0 < t ≤ Z.of_nat p - Z.of_nat n → us_pc u !! t = None;
}.

Lemma sum_ext (w w' : Z → nat) l : (∀ x, x ∈ l → w' x = w x) → sum_list_with w' l = sum_list_with w l.
Proof. intros Hw. induction l as [|x l IH]; [done|]. cbn. rewrite Hw by (by left). f_equal. apply IH. intros y Hy. apply Hw. by right. Qed.
Lemma sum_write (w w' : Z → nat) l t :
  NoDup l → t ∈ l → (∀ x, x ≠ t → w' x = w x) → w' t = S (w t) → sum_list_with w' l = S (sum_list_with w l).
Proof.
  intros Hnd Ht Hw Hwt. induction l as [|x l IH]; [set_solver|]. apply NoDup_cons in Hnd as [Hx Hnd]. cbn.
  destruct (decide (x = t)) as [->|Hne].
  - rewrite Hwt, (sum_ext w w' l); [done|]. intros y Hy. apply Hw. intros ->. done.
  - rewrite (Hw x Hne), IH by set_solver. lia.
Qed.
Lemma total_write mm t : 0 < t ≤ Z.of_nat n → total (critical_section t WriteA mm) = total mm + 1.
Proof.
  intros Ht. unfold total. cbn [writes critical_section]. rewrite (sum_write (λ x, W mm x) _ _ t); [lia|apply NoDup_seqZ|apply elem_of_seqZ; lia|..].
  - intros x Hx. by rewrite lookup_insert_ne.
  - by rewrite lookup_insert_eq.
Qed.

(** A thread between its read and its write is in the critical section. *)
Lemma ainv_in_cs (u : ust amem) t pc op :
  tinv txt 1 u → 0 < t → us_pc u !! t = Some pc → txt t !! pc = Some op → (pc mod 5 = 2 ∨ pc mod 5 = 3)%nat → (t, 0%nat) ∈ us_cs u.
Proof.
  intros Hi Ht Hpc Hop Hm. pose proof (worker_holds t pc op Ht Hop Hm) as Hh.
  destruct (ti_thread _ _ _ Hi t pc Hpc) as [[_ Ho]|(i & m & -> & Hl & _)]; [apply Ho; rewrite Hh; set_solver|].
  destruct (worker_at t i _ Ht Hl) as (_ & _ & Hb). assert (i mod 5 = 0)%nat as Hi0.
  { pose proof (Nat.mod_upper_bound i 5 ltac:(lia)). destruct (i mod 5)%nat as [|[|[|[|[|]]]]]; try done; lia. }
  exfalso. replace (S i mod 5)%nat with 1%nat in Hm; [lia|]. dlia.
Qed.

(** A worker moves on. *)
Lemma ainv_worker k cs mm pcs t pc k' cs' mm' :
  ainv (mkU k cs mm pcs) → 0 < t → pcs !! t = Some pc → (S pc ≤ 5 * per)%nat → tinv txt 1 (mkU k' cs' mm' (<[t := S pc]> pcs)) →
  A mm' = u64 (total mm') → W mm' t = ((S pc + 1) / 5)%nat → (∀ x, x ≠ t → W mm' x = W mm x) →
  ((S pc mod 5 = 2 ∨ S pc mod 5 = 3)%nat → cur mm' !! t = Some (A mm')) →
  (∀ x px, x ≠ t → 0 < x → pcs !! x = Some px → (px mod 5 = 2 ∨ px mod 5 = 3)%nat → cur mm' !! x = Some (A mm')) →
  ainv (mkU k' cs' mm' (<[t := S pc]> pcs)).
Proof.
  intros [_ _ Hw Hc Hf Hd Hwt] Ht Hpc Hle Hi Hsum HWt HW Hct Hcx. cbn in *. pose proof (Hw t pc Ht Hpc) as (Htn & _).
  split; cbn; [done|done|..].
  - intros x px Hx [[<- <-]|[Hne Hpx]]%lookup_insert_Some; [done|]. rewrite HW by done. by apply Hw.
  - intros x px Hx [[<- <-]|[Hne Hpx]]%lookup_insert_Some; [done|]. by apply Hcx.
  - intros p x. rewrite lookup_insert_ne by lia. intros Hp Hx. destruct (Hf p x Hp Hx) as [Hn0 Hw0]. assert (x ≠ t) as Hne by congruence.
    rewrite lookup_insert_ne, HW by done. done.
  - intros p x. rewrite lookup_insert_ne by lia. intros Hp Hx Hxn. destruct (decide (x = t)) as [->|Hne]; [by rewrite lookup_insert_eq|].
    rewrite lookup_insert_ne, HW by done. by eapply Hd.
  - intros p x. rewrite lookup_insert_ne by lia. intros Hp Hx. specialize (Hwt p x Hp Hx). assert (x ≠ t) as Hne by congruence. by rewrite lookup_insert_ne.
Qed.

(** A move that leaves the memory alone. *)
Lemma ainv_call k cs mm pcs t pc k' cs' op :
  ainv (mkU k cs mm pcs) → 0 < t → pcs !! t = Some pc → txt t !! pc = Some op → (∀ a, op ≠ ULocal a) →
  tinv txt 1 (mkU k' cs' mm (<[t := S pc]> pcs)) → ainv (mkU k' cs' mm (<[t := S pc]> pcs)).
Proof.
  intros Ha Ht Hpc Hop Hnl Hi. destruct (worker_at t pc op Ht Hop) as (Hn & Hlt & Hb). destruct (ai_worker _ Ha t pc Ht Hpc) as (_ & _ & HW). cbn [us_mem] in HW.
  assert (pc mod 5 = 0 ∨ pc mod 5 = 4)%nat as Hm.
  { pose proof (Nat.mod_upper_bound pc 5 ltac:(lia)). destruct (pc mod 5)%nat as [|[|[|[|[|]]]]]; cbn in Hb; auto; try lia; injection Hb as <-; by edestruct Hnl. }
  eapply ainv_worker; [exact Ha|done|done|lia|done|apply Ha| |done| |].
  - rewrite HW. clear -Hm. dlia.
  - clear -Hm. intros Hx. exfalso. dlia.
  - intros x px _ Hx Hpx Hm'. by eapply (ai_cur _ Ha).
Qed.

Lemma ainv_local k cs mm pcs t pc a :
  ainv (mkU k cs mm pcs) → 0 < t → current k = Some t → pcs !! t = Some pc → txt t !! pc = Some (ULocal a) →
  tinv txt 1 (mkU k cs (critical_section t a mm) (<[t := S pc]> pcs)) → ainv (mkU k cs (critical_section t a mm) (<[t := S pc]> pcs)).
Proof.
  intros Ha Ht Hcur Hpc Hop Hi. destruct (worker_at t pc _ Ht Hop) as (Hn & Hlt & Hb). destruct (ai_worker _ Ha t pc Ht Hpc) as (_ & _ & HW). cbn [us_mem] in HW.
  pose proof (Nat.mod_upper_bound pc 5 ltac:(lia)) as Hub.
  assert (∀ x px, x ≠ t → 0 < x → pcs !! x = Some px → (px mod 5 = 2 ∨ px mod 5 = 3)%nat → cur mm !! x = Some (A mm)) as Hothers
    by (intros x px _ Hx Hpx Hm; by eapply (ai_cur _ Ha)).
  destruct a.
  - assert (pc mod 5 = 1)%nat as Hm by (destruct (pc mod 5)%nat as [|[|[|[|[|]]]]]; cbn in Hb; done || lia).
    eapply ainv_worker; [exact Ha|done|done|lia|exact Hi|apply Ha| |done| |]; cbn [A cur writes critical_section].
    + rewrite HW. clear -Hm. dlia.
    + intros _. apply lookup_insert_eq.
    + intros x px Hx. rewrite lookup_insert_ne by done. by apply Hothers.
  - assert (pc mod 5 = 2)%nat as Hm by (destruct (pc mod 5)%nat as [|[|[|[|[|]]]]]; cbn in Hb; done || lia).
    eapply ainv_worker; [exact Ha|done|done|lia|exact Hi|apply Ha| |done| |exact Hothers]; cbn [A cur writes critical_section].
    + rewrite HW. clear -Hm. dlia.
    + intros _. apply (ai_cur _ Ha t pc Ht Hpc). by left.
  - assert (pc mod 5 = 3)%nat as Hm by (destruct (pc mod 5)%nat as [|[|[|[|[|]]]]]; cbn in Hb; done || lia).
    assert (A (critical_section t WriteA mm) = u64 (A mm + 1)) as HA.
    { pose proof (ai_cur _ Ha t pc Ht Hpc (or_intror Hm)) as Hc. cbn [us_mem] in Hc. cbn. by rewrite Hc. }
    eapply ainv_worker; [exact Ha|done|done|lia|exact Hi| | | | |].
    + rewrite HA, total_write by lia. pose proof (ai_sum _ Ha) as Hs. cbn in Hs. rewrite Hs. unfold u64. by rewrite Zplus_mod_idemp_l.
    + cbn [writes critical_section]. rewrite lookup_insert_eq. cbn [default from_option id]. rewrite HW. clear -Hm. dlia.
    + intros x Hx. cbn. by rewrite lookup_insert_ne.
    + clear -Hm. intros Hx. exfalso. dlia.
    + intros x px Hx Hx0 Hpx Hmx. exfalso. apply Hx.
      pose proof (ai_worker _ Ha x px Hx0 Hpx) as (Hxn & Hpl & _). pose proof (ai_t _ Ha) as Hti.
      assert (is_Some (txt x !! px)) as [opx Hopx] by (apply lookup_lt_is_Some; rewrite worker_length by lia; clear -Hpl Hmx; dlia).
      eapply (in_excl _ _ (ti_kern _ _ _ Hti) 0%nat); left; cbn.
      * exact (ainv_in_cs _ x px opx Hti Hx0 Hpx Hopx Hmx).
      * exact (ainv_in_cs _ t pc _ Hti Ht Hpc Hop (or_intror Hm)).
Qed.

(** The main thread moves on. *)
Lemma ainv_main k cs mm pcs p op k' pcs' :
  ainv (mkU k cs mm pcs) → pcs !! 0 = Some p → txt 0 !! p = Some op → tinv txt 1 (mkU k' cs mm pcs') →
  (∀ t, op = USpawn t → pcs' = <[t := 0%nat]> (<[0 := S p]> pcs)) → (∀ t, op = UWait t → pcs !! t = None ∧ pcs' = <[0 := S p]> pcs) →
  ainv (mkU k' cs mm pcs').
Proof.
  intros [_ Hsum Hw Hc Hf Hd Hwt] Hp Hop Hi Hsp Hwait. cbn in Hsum, Hw, Hc, Hf, Hd, Hwt. change (txt 0) with (spawn_and_wait (L := alocal) n) in Hop.
  destruct (spawn_and_wait_ops _ _ _ Hop) as (t & [-> | ->]).
  - specialize (Hsp t eq_refl). subst pcs'. destruct (spawn_at _ _ _ Hop) as [Hpn ->]. set (t := 1 + Z.of_nat p) in *.
    destruct (Hf p t Hp ltac:(lia)) as [Hnone Hzero]. assert (t ≠ 0) as Ht0 by lia.
    split; cbn [us_mem us_pc us_k us_cs]; [done|done|..].
    + intros x px Hx [[<- <-]|[Hne [[<- <-]|[_ Hpx]]%lookup_insert_Some]]%lookup_insert_Some; [|lia|by apply Hw]. split_and!; [lia|lia|by rewrite Hzero].
    + intros x px Hx [[<- <-]|[Hne [[<- <-]|[_ Hpx]]%lookup_insert_Some]]%lookup_insert_Some; [cbn; lia|lia|by apply Hc].
    + intros p' x. rewrite lookup_insert_ne, lookup_insert_eq by done. intros [= <-] Hx. rewrite !lookup_insert_ne by lia. apply (Hf p); [done|lia].
    + intros p' x. rewrite lookup_insert_ne, lookup_insert_eq by done. intros [= <-] Hx Hxn. destruct (decide (x = t)) as [->|Hne]; [by rewrite lookup_insert_eq|].
      rewrite !lookup_insert_ne by lia. apply (Hd p); [done|lia|done].
    + intros p' x. rewrite lookup_insert_ne, lookup_insert_eq by done. intros [= <-] Hx. lia.
  - destruct (Hwait t eq_refl) as [Hnone ->]. destruct (wait_at _ _ _ Hop) as [Hpn ->].
    split; cbn [us_mem us_pc us_k us_cs]; [done|done|..].
    + intros x px Hx [[<- <-]|[_ Hpx]]%lookup_insert_Some; [lia|by apply Hw].
    + intros x px Hx [[<- <-]|[_ Hpx]]%lookup_insert_Some; [lia|by apply Hc].
    + intros p' x. rewrite lookup_insert_eq. intros [= <-] Hx. rewrite lookup_insert_ne by lia. apply (Hf p); [done|lia].
    + intros p' x. rewrite lookup_insert_eq. intros [= <-] Hx Hxn. rewrite lookup_insert_ne by lia. apply (Hd p); [done|lia|done].
    + intros p' x. rewrite lookup_insert_eq. intros [= <-] Hx. rewrite lookup_insert_ne by lia.
      destruct (decide (x = 1 + Z.of_nat (p - n))) as [->|Hne]; [done|]. apply (Hwt p); [done|lia].
Qed.

(** A thread ends. *)
Lemma ainv_exit k cs mm pcs t k' :
  ainv (mkU k cs mm pcs) → pcs !! t = Some (length (txt t)) → tinv txt 1 (mkU k' cs mm (delete t pcs)) → ainv (mkU k' cs mm (delete t pcs)).
Proof.
  intros [_ Hsum Hw Hc Hf Hd Hwt] Hpc Hi. cbn [us_mem us_pc us_k us_cs] in *. split; cbn [us_mem us_pc us_k us_cs]; [done|done|..].
  - intros x px Hx [_ Hpx]%lookup_delete_Some. by apply Hw.
  - intros x px Hx [_ Hpx]%lookup_delete_Some. by apply Hc.
  - intros p x [_ Hp]%lookup_delete_Some Hx. destruct (Hf p x Hp Hx) as [Hn0 Hw0]. split; [|done]. apply lookup_delete_None. by right.
  - intros p x [_ Hp]%lookup_delete_Some Hx Hxn Hnone. apply lookup_delete_None in Hnone as [->|Hnone]; [|by eapply Hd].
    rewrite worker_length in Hpc by lia. destruct (Hw x _ ltac:(lia) Hpc) as (_ & _ & ->). clear. dlia.
  - intros p x [_ Hp]%lookup_delete_Some Hx. apply lookup_delete_None. right. by apply (Hwt p).
Qed.

Lemma ainv_kernel k cs mm pcs k' cs' : ainv (mkU k cs mm pcs) → tinv txt 1 (mkU k' cs' mm pcs) → ainv (mkU k' cs' mm pcs).
Proof. intros [_ ? ? ? ? ? ?] Hi. by split. Qed.

Lemma ainv_step u u' : ainv u → ustep alocal_step txt u u' → ainv u'.
Proof.
  intros Ha Hs. pose proof (tinv_step alocal_step txt 1 1 adder_texts_ok u u' (ai_t _ Ha) Hs) as Hi.
  assert (∀ t pc op, us_pc u !! t = Some pc → txt t !! pc = Some op → t ≠ 0 → 0 < t) as Hpos.
  { intros t pc op _ Hop Ht. unfold adder_text in Hop. rewrite (proj2 (Z.eqb_neq t 0)) in Hop by done. destruct (Z.ltb_spec 0 t); [done|]. cbn [andb] in Hop. by rewrite lookup_nil in Hop. }
  destruct Hs as [k cs mm pcs t pc a mm' Hc Hpc Hop Hloc|k cs mm pcs t pc m k' Hc Hpc Hop Hl|
    k cs mm pcs t pc m k' Hc Hpc Hop Hl|k cs mm pcs t pc now ms k' Hc Hpc Hop Hl|k cs mm pcs t pc t' Hc Hpc Hop Hf|
    k cs mm pcs t pc t' Hc Hpc Hop Hf|k cs mm pcs t k' Hc Hpc Hex|k cs mm pcs t k' Hc Hsu|k cs mm pcs now|k cs mm pcs t k1 k2 Hc Hr Hres|k cs mm pcs t pc b i k' Hc Hpc Hop Hcr];
    try (destruct (decide (t = 0)) as [->|Ht]; [|specialize (Hpos t pc _ Hpc Hop Ht)]).
  - by apply (spawn_and_wait_ops n) in Hop as (t & [? | ?]).
  - rewrite Hloc in *. by eapply ainv_local.
  - by apply (spawn_and_wait_ops n) in Hop as (t & [? | ?]).
  - by eapply ainv_call.
  - by apply (spawn_and_wait_ops n) in Hop as (t & [? | ?]).
  - by eapply ainv_call.
  - by apply (spawn_and_wait_ops n) in Hop as (t & [? | ?]).
  - by eapply ainv_call.
  - eapply ainv_main; [exact Ha|exact Hpc|exact Hop|exact Hi|by intros ? [= ->]|done].
  - destruct (worker_at t pc _ Hpos Hop) as (_ & _ & Hb). by destruct (pc mod 5)%nat as [|[|[|[|[|]]]]].
  - eapply ainv_main; [exact Ha|exact Hpc|exact Hop|exact Hi|done|by intros ? [= ->]].
  - by eapply ainv_call.
  - by eapply ainv_exit.
  - by eapply ainv_kernel.
  - by eapply ainv_kernel.
  - by eapply ainv_kernel.
  - by apply (spawn_and_wait_ops n) in Hop as (t & [? | ?]).
  - destruct (worker_at t pc _ Hpos Hop) as (_ & _ & Hb). by destruct (pc mod 5)%nat as [|[|[|[|[|]]]]].
Qed.

Lemma ainv_start b : ainv (start 1 b adder_mem).
Proof.
  split; cbn [us_mem us_pc start]; [apply start_tinv| |..].
  - unfold total. rewrite (sum_ext (λ _, 0%nat)); [|done]. assert (∀ l : list Z, sum_list_with (λ _, 0%nat) l = 0%nat) as -> by (by induction l). done.
  - intros t pc Ht [<- _]%lookup_singleton_Some. lia.
  - intros t pc Ht [<- _]%lookup_singleton_Some. lia.
  - intros p t [_ <-]%lookup_singleton_Some Ht. split; [|done]. apply lookup_singleton_None. lia.
  - intros p t [_ <-]%lookup_singleton_Some Ht. lia.
  - intros p t [_ <-]%lookup_singleton_Some Ht. lia.
Qed.
End adder.

(** The counter is right.  Whatever the kernel's schedule, with preemption
    between any two accesses, and with either kind of mutex: when [main] has
    waited for its threads, [A] is the number of threads times the number of
    increments of each, so the assertion at the end of [main] holds. *)
Theorem adder_counts thread_count per_thread blocking u :
  rtc (ustep alocal_step (adder_text thread_count per_thread)) (start 1 blocking adder_mem) u →
  us_pc u !! 0 = Some (2 * thread_count)%nat →
  A (us_mem u) = u64 (Z.of_nat per_thread * Z.of_nat thread_count).
Proof.
  intros Hr Hp. assert (ainv thread_count per_thread u) as Ha.
  { apply (rtc_invariant (ustep alocal_step (adder_text thread_count per_thread)) (ainv thread_count per_thread) (start 1 blocking adder_mem) u); [|apply ainv_start|done].
    intros x y Hx Hxy. by eapply ainv_step. }
  rewrite (ai_sum _ _ _ Ha). f_equal. unfold total.
  assert (sum_list_with (λ t, default 0%nat (writes (us_mem u) !! t)) (seqZ 1 (Z.of_nat thread_count)) =
    sum_list_with (λ _, per_thread) (seqZ 1 (Z.of_nat thread_count))) as ->.
  { apply sum_ext. intros t Ht%elem_of_seqZ. apply (ai_done _ _ _ Ha _ t Hp); [lia|lia|]. apply (ai_waited _ _ _ Ha _ t Hp). lia. }
  assert (∀ l : list Z, sum_list_with (λ _, per_thread) l = (length l * per_thread)%nat) as Hs by (induction l as [|x l IH]; cbn; [done|rewrite IH; lia]).
  rewrite Hs, length_seqZ. lia.
Qed.

(** Two threads, one increment each, the first preempted after its read. *)
Definition two_threads : list choice :=
  [Go 0; Go 0; Preempt; Dispatch; Go 0; Go 0; Preempt; Dispatch; Go 0; Dispatch; Preempt; Dispatch; Go 0; Go 0; Go 0; Go 0;
   Dispatch; Go 0; Preempt; Dispatch; Go 0; Go 0; Go 0; Go 0; Go 0; Dispatch; Go 0].
Lemma adder_counts_witness :
  ∃ u, rtc (ustep alocal_step (adder_text 2 1)) (start 1 true adder_mem) u ∧ A (us_mem u) = 2.
Proof.
  destruct (exec critical_section (adder_text 2 1) two_threads (start 1 true adder_mem)) as [u|] eqn:He; [|vm_compute in He; discriminate He].
  exists u. assert (rtc (ustep alocal_step (adder_text 2 1)) (start 1 true adder_mem) u) as Hr by (eapply exec_sound; [|exact He]; done).
  split; [exact Hr|]. apply (adder_counts 2 1 true u Hr).
  assert ((λ u, us_pc u !! 0) <$> exec critical_section (adder_text 2 1) two_threads (start 1 true adder_mem) = Some (Some 4%nat)) as Hp by (vm_compute; reflexivity).
  rewrite He in Hp. by injection Hp.
Defined.
End Adder.

(** ** The dining philosophers *)
Module Philosophers.

Definition N : nat := 5.
Definition ROUND : nat := 4.
Definition ARR : list (list Z) :=
  [[700; 800; 1000; 400; 500; 600; 200; 400];
   [300; 600; 200; 700; 1000; 100; 300; 600];
   [500; 200; 900; 200; 400; 600; 1200; 400];
   [500; 1000; 600; 500; 800; 600; 200; 900];
   [600; 100; 600; 600; 200; 500; 600; 200]].
Definition arr (id i : nat) : Z := default 0 (ARR !! id ≫= λ l, l !! i).

(** The times a philosopher writes down, at whatever time the clock shows. *)
Inductive plocal := Think (i : nat) | Eat (i : nat).
Record pmem := mkP { THINK : gmap (nat * nat) Z; EAT : gmap (nat * nat) Z }.
(** Thread [t] is the philosopher [t - 1]. *)
Definition phil (t : Z) : nat := Z.to_nat (t - 1).
Definition stamp (now : Z) (t : Z) (a : plocal) (mm : pmem) : pmem :=
  match a with
  | Think i => mkP (<[(phil t, i) := now]> (THINK mm)) (EAT mm)
  | Eat i => mkP (THINK mm) (<[(phil t, i) := now]> (EAT mm))
  end.
Definition plocal_step (t : Z) (a : plocal) (mm mm' : pmem) : Prop := ∃ now, mm' = stamp now t a mm.

Definition left_fork (id : nat) : nat := id.
Definition right_fork (id : nat) : nat := if (id =? N - 1)%nat then 0%nat else (id + 1)%nat.
Definition min_fork (id : nat) : nat := if (left_fork id <? right_fork id)%nat then left_fork id else right_fork id.
Definition max_fork (id : nat) : nat := (left_fork id + right_fork id - min_fork id)%nat.

Definition round_body (id round : nat) : list (uop plocal) :=
  [ULocal (Think (2 * round)); USleep (arr id (2 * round)); ULocal (Think (2 * round + 1));
   ULock (min_fork id); ULock (max_fork id);
   ULocal (Eat (2 * round)); USleep (arr id (2 * round + 1)); ULocal (Eat (2 * round + 1));
   UUnlock (max_fork id); UUnlock (min_fork id)].
Definition philosopher_dining_problem (id : nat) : list (uop plocal) := concat (round_body id <$> seq 0 ROUND).
(** [main]: a fork is made and a philosopher started in turn, then [main] waits
    for each philosopher. *)
Definition phil_main : list (uop plocal) :=
  concat ((λ i, [UCreate true i; USpawn (Z.of_nat i + 1)]) <$> seq 0 N) ++ (UWait <$> seqZ 1 (Z.of_nat N)).
Lemma phil_main_free : lock_free phil_main.
Proof.
  assert (Forall (λ op : uop plocal, match op with ULock _ | UUnlock _ => False | _ => True end) phil_main) as H
    by (vm_compute; repeat constructor).
  rewrite Forall_forall in H. intros m. split; intros Hin; by apply H in Hin.
Qed.
Definition phil_text (t : Z) : list (uop plocal) :=
  if t =? 0 then phil_main
  else if (0 <? t) && (t <=? Z.of_nat N) then philosopher_dining_problem (phil t) else [].
Definition phil_mem : pmem := mkP ∅ ∅.

Lemma forks_ordered id : (id < N)%nat → (min_fork id < max_fork id < N)%nat.
Proof. unfold N. intros Hid. do 5 (destruct id as [|id]; [vm_compute; lia|]). lia. Qed.

Lemma body_held id round j : (id < N)%nat → (j < 10)%nat → held (take j (round_body id round)) =
  if (j <? 4)%nat then ∅ else if (j <? 5)%nat then {[min_fork id]} else if (j <? 9)%nat then {[max_fork id; min_fork id]} else {[min_fork id]}.
Proof.
  intros Hid Hj. pose proof (forks_ordered id Hid) as Ho. unfold held, round_body.
  do 10 (destruct j as [|j]; [cbn [take foldl held_op Nat.ltb Nat.leb]; set_solver by lia|]). lia.
Qed.
Lemma rounds_uniform id : (id < N)%nat → uniform 10 (round_body id <$> seq 0 ROUND).
Proof.
  intros Hid. apply Forall_fmap, Forall_forall. intros r _. split; [done|]. pose proof (forks_ordered id Hid) as Ho.
  unfold held, round_body. cbn [foldl held_op]. set_solver by lia.
Qed.

Lemma phil_lt t : 0 < t ≤ Z.of_nat N → (phil t < N)%nat.
Proof. unfold phil, N. lia. Qed.
Lemma text_phil t : 0 < t ≤ Z.of_nat N → phil_text t = philosopher_dining_problem (phil t).
Proof. intros Ht. unfold phil_text. by rewrite (proj2 (Z.eqb_neq t 0)), (proj2 (Z.ltb_lt 0 t)), (proj2 (Z.leb_le t _)) by lia. Qed.
(** Only philosophers use mutexes. *)
Lemma text_cases t : 0 < t ≤ Z.of_nat N ∨ lock_free (phil_text t).
Proof.
  unfold phil_text. destruct (Z.eqb_spec t 0); [right; apply phil_main_free|].
  destruct (Z.ltb_spec 0 t), (Z.leb_spec t (Z.of_nat N)); cbn [andb]; [left; lia|right; intros m; split; apply not_elem_of_nil..].
Qed.
(** The mutexes a philosopher holds at a position. *)
Lemma held_at t pc op : 0 < t ≤ Z.of_nat N → phil_text t !! pc = Some op →
  ∃ r, round_body (phil t) r !! (pc mod 10)%nat = Some op ∧ held (take pc (phil_text t)) = held (take (pc mod 10) (round_body (phil t) r)).
Proof.
  intros Ht. rewrite text_phil by done. intros Hop. pose proof (rounds_uniform _ (phil_lt t Ht)) as Hu.
  destruct (bodies_at 10 ltac:(lia) _ _ _ Hu Hop) as (b & Hb & Hb' & Hh). rewrite list_lookup_fmap in Hb.
  destruct (seq 0 ROUND !! _) as [r|] eqn:Hr; [|done]. injection Hb as <-. by exists r.
Qed.
Lemma phil_texts_ok t : text_ok N (phil_text t).
Proof.
  destruct (text_cases t) as [Ht|Ht]; [|by apply lock_free_ok]. rewrite text_phil by done. pose proof (phil_lt t Ht) as Hid. pose proof (forks_ordered _ Hid) as Ho.
  apply (bodies_ok 10); [lia|by apply rounds_uniform|..]; intros b i m (r & -> & _)%list_elem_of_fmap.
  - do 10 (destruct i as [|i]; [cbn [lookup list_lookup round_body]; try (intros [= <-]); done || lia|]). done.
  - do 10 (destruct i as [|i]; [cbn [lookup list_lookup round_body]; try done; intros [= <-]; rewrite body_held by lia; cbn; set_solver|]). done.
Qed.
Lemma texts_ordered : ordered phil_text.
Proof.
  intros t i m m' Hop Hm'. destruct (text_cases t) as [Ht|Ht].
  2: { rewrite lock_free_held in Hm' by done. set_solver. }
  destruct (held_at t i _ Ht Hop) as (r & Hb & Hh). rewrite Hh in Hm'. pose proof (phil_lt t Ht) as Hid. pose proof (forks_ordered _ Hid) as Ho.
  pose proof (Nat.mod_upper_bound i 10 ltac:(lia)) as Hub. rewrite body_held in Hm' by done.
  clear Hh. revert Hb Hub Hm'. generalize (i mod 10)%nat. intros j Hb Hub Hm'.
  do 10 (destruct j as [|j]; [cbn [lookup list_lookup round_body] in Hb; cbn in Hm'; try discriminate Hb; injection Hb as <-; set_solver by lia|]). lia.
Qed.

(** A philosopher between its first and its last step with both forks. *)
Definition eating (u : ust pmem) (t : Z) : Prop :=
  ∃ pc, us_pc u !! t = Some pc ∧ (pc < length (phil_text t))%nat ∧ (6 ≤ pc mod 10 ≤ 8)%nat.
Definition forks (t : Z) : gset nat := {[min_fork (phil t); max_fork (phil t)]}.

Lemma eating_holds u t : tinv phil_text 0 u → 0 < t ≤ Z.of_nat N → eating u t → ∀ m, m ∈ forks t → (t, m) ∈ us_cs u.
Proof.
  intros Hi Ht (pc & Hpc & Hlt & Hm) m Hf. apply lookup_lt_is_Some in Hlt as [op Hop]. pose proof (phil_lt t Ht) as Hid.
  destruct (held_at t pc op Ht Hop) as (r & _ & Hh). rewrite body_held in Hh by lia.
  destruct (ti_thread _ _ _ Hi t pc Hpc) as [[_ Ho]|(i & n & -> & Hl & _)].
  - apply Ho. rewrite Hh. unfold forks in Hf. destruct (Nat.ltb_spec (pc mod 10) 4), (Nat.ltb_spec (pc mod 10) 5), (Nat.ltb_spec (pc mod 10) 9); try lia. set_solver.
  - exfalso. destruct (held_at t i _ Ht Hl) as (r' & Hb & _). assert (i mod 10 = 3 ∨ i mod 10 = 4)%nat as Hi34; [|clear -Hm Hi34; dlia].
    pose proof (Nat.mod_upper_bound i 10 ltac:(lia)) as Hub. clear -Hb Hub. revert Hb Hub. generalize (i mod 10)%nat. intros j Hb Hub.
    do 10 (destruct j as [|j]; [cbn [lookup list_lookup round_body] in Hb; by (discriminate Hb || auto)|]). lia.
Qed.
Lemma owner_is_phil (u : ust pmem) t m : tinv phil_text 0 u → owns (us_k u) (us_cs u) t m → 0 < t ≤ Z.of_nat N.
Proof.
  intros Hi Ho. destruct (text_cases t) as [|Hlf]; [done|exfalso].
  assert (∀ pc, us_pc u !! t = Some pc → outside phil_text (us_k u) (us_cs u) t pc) as Hout.
  { intros pc Hpc. destruct (ti_thread _ _ _ Hi t pc Hpc) as [H|(i & n & _ & Hl & _)]; [done|]. destruct (proj1 (Hlf n)). by eapply list_elem_of_lookup_2. }
  destruct Ho as [Hcs|[Hr Hct]].
  - destruct (ti_only _ _ _ Hi t m Hcs) as [pc Hpc]. destruct (Hout pc Hpc) as [_ Hh]. apply Hh in Hcs. rewrite lock_free_held in Hcs by done. set_solver.
  - pose proof (in_placed _ _ (ti_kern _ _ _ Hi)) as Hpl. destruct (proj2 (ti_live _ _ _ Hi t)) as [pc Hpc]; [eexists; by apply (pl_ready _ Hpl)|].
    destruct (Hout pc Hpc) as [[Hc|Hc] _]; [|congruence]. by destruct (current_elsewhere _ _ Hpl Hc).
Qed.

(** C37 Dinner goes well.  [main] makes a fork and starts a philosopher in turn, so
    a philosopher may ask for a fork before it is made; the call then fails
    unnoticed (see [early_philosopher]).  On every run of the program, whatever
    the schedule, in which this has not happened: two philosophers that eat at
    the same time have no fork in common; and as long as some philosopher that
    was started has not finished, some philosopher is running, ready or asleep,
    so they never all wait for forks. *)
Theorem dinner_goes_on u :
  rtc (ustep_any plocal_step phil_text) (start 0 true phil_mem, false) (u, false) →
  (∀ t t', 0 < t ≤ Z.of_nat N → 0 < t' ≤ Z.of_nat N → t ≠ t' → eating u t → eating u t' → forks t ## forks t') ∧
  (∀ t, 0 < t ≤ Z.of_nat N → is_Some (us_pc u !! t) → ∃ t', 0 < t' ≤ Z.of_nat N ∧ can_go (us_k u) t').
Proof.
  intros Hr%none_missing. pose proof (tinv_steps plocal_step phil_text 0 N phil_texts_ok _ _ (start_tinv phil_text 0 true phil_mem) Hr) as Hi.
  pose proof (ti_kern _ _ _ Hi) as Hk. split.
  - intros t t' Ht Ht' Hne He He' m Hm Hm'. apply Hne. eapply (in_excl _ _ Hk m); left; [by apply (eating_holds u t)|by apply (eating_holds u t')].
  - intros t Ht Hpc%(ti_live _ _ _ Hi). apply (pl_all _ (in_placed _ _ Hk)) in Hpc. unfold places in Hpc. rewrite !elem_of_app in Hpc.
    destruct Hpc as [Hc|[Hc|Hc]].
    + exists t. split; [done|]. left. destruct (current (us_k u)); [by apply list_elem_of_singleton in Hc as ->|by apply elem_of_nil in Hc].
    + exists t. split; [done|]. right. by left.
    + apply waiting_in_queue in Hc as [[m|j|c|] Hq].
      * destruct (wait_chain_ends plocal_step phil_text 0 N phil_texts_ok u t m texts_ordered Hi Hq) as (t' & m' & _ & Ho & Hg). exists t'. split; [by eapply owner_is_phil|done].
      * cbn in Hq. rewrite (proj1 (ti_plain _ _ _ Hi)), lookup_nil in Hq. by apply elem_of_nil in Hq.
      * cbn in Hq. rewrite (proj2 (ti_plain _ _ _ Hi)), lookup_nil in Hq. by apply elem_of_nil in Hq.
      * exists t. split; [done|]. right. by right.
Qed.

Lemma any_steps u u' bad : rtc (ustep plocal_step phil_text) u u' → rtc (ustep_any plocal_step phil_text) (u, bad) (u', bad).
Proof. intros Hr. induction Hr; [apply rtc_refl|eapply rtc_l; [by apply ua_step|done]]. Qed.
Lemma exec_steps l u u' : exec (stamp 0) phil_text l u = Some u' → rtc (ustep plocal_step phil_text) u u'.
Proof. intros He. eapply exec_sound; [|exact He]. intros t a mm. by exists 0. Qed.

(** All five started; the first two asleep, the third about to run. *)
Definition opening : list choice := replicate 10 (Go 0) ++ [Preempt; Dispatch; Go 5; Go 5; Dispatch; Go 6; Go 6].
Lemma dinner_goes_on_witness :
  ∃ u, rtc (ustep_any plocal_step phil_text) (start 0 true phil_mem, false) (u, false) ∧
    is_Some (us_pc u !! 1) ∧ ∃ t', 0 < t' ≤ 5 ∧ can_go (us_k u) t'.
Proof.
  destruct (exec (stamp 0) phil_text opening (start 0 true phil_mem)) as [u|] eqn:He; [|vm_compute in He; discriminate He].
  exists u. assert (rtc (ustep_any plocal_step phil_text) (start 0 true phil_mem, false) (u, false)) as Hr
    by (eapply any_steps, exec_steps, He).
  assert ((λ u, us_pc u !! 1) <$> exec (stamp 0) phil_text opening (start 0 true phil_mem) = Some (Some 2%nat)) as Hp by (vm_compute; reflexivity).
  rewrite He in Hp. assert (us_pc u !! 1 = Some 2%nat) as Hp1 by (by injection Hp).
  split; [exact Hr|]. split; [by rewrite Hp1|]. apply (proj2 (dinner_goes_on u Hr) 1); [unfold N; lia|by rewrite Hp1].
Defined.

(** [main] makes the first fork, starts the first philosopher and is preempted
    until that one has slept: it takes its first fork, and the lock of its
    second one, which does not exist, fails. *)
Definition early : list choice :=
  [Go 0; Go 0; Preempt; Dispatch; Go 0; Go 0; Tick 1000; Dispatch; Preempt; Dispatch; Go 0; Go 0].
Lemma early_philosopher : ∃ u, rtc (ustep_any plocal_step phil_text) (start 0 true phil_mem, false) (u, true).
Proof.
  destruct (exec (stamp 0) phil_text early (start 0 true phil_mem)) as [[k cs mm pcs]|] eqn:He; [|vm_compute in He; discriminate He].
  assert ((λ u, (current (us_k u), us_pc u !! 1, match sys_mutex_lock 1 (us_k u) with Ok (r, _) => r | Err _ => 0 end))
    <$> exec (stamp 0) phil_text early (start 0 true phil_mem) = Some (Some 1, Some 4%nat, -1)) as Hp by (vm_compute; reflexivity).
  rewrite He in Hp. injection Hp as Hc Hpc Hl. cbn in Hc, Hpc, Hl.
  destruct (sys_mutex_lock 1 k) as [[r k']|] eqn:Hlk; [subst r|discriminate Hl].
  eexists. eapply rtc_r; [apply any_steps, (exec_steps _ _ _ He)|].
  eapply (ua_missing _ _ k cs mm pcs false 1 4 1 (ULock 1)); [done|done|reflexivity|left]. split; [done|exact Hlk].
Qed.
End Philosophers.
