(* ===== verification/Peterson.v ===== *)
(** * Peterson's algorithm (user/src/bin/adder_peterson_spin.rs,
      adder_peterson_yield.rs)

    Two threads that increment a shared counter under a lock made of plain
    memory.  A step is one access to the shared variables [A], [FLAG], [TURN]; a
    schedule is any list of thread numbers, so a switch may come between any two
    accesses.  The two programs differ only in a [yield_] inside the waiting
    loop, which is a switch.  The numbers 0 and 1 of the threads are booleans. *)
From S2P Require Import Prelude.

(** Where a thread is: the next access it makes. *)
Inductive ppc := SetFlag | SetTurn | TestFlag | TestTurn | ReadA | Work | WriteA | ClearFlag | Exited.
#[global] Instance ppc_eq_dec : EqDecision ppc.
Proof. solve_decision. Defined.

(** [left] counts the iterations that have not begun. *)
Record thread := mkT { pc : ppc; left : nat; cur : Z; tval : Z }.
Record pst := mkS { A : Z; FLAG : bool → bool; TURN : bool; th : bool → thread }.

Definition set2 {X} (id : bool) (x : X) (f : bool → X) : bool → X := λ i, if Bool.eqb i id then x else f i.
Definition goto (p : ppc) (x : thread) : thread := mkT p (left x) (cur x) (tval x).
Definition put_thread (id : bool) (x : thread) (s : pst) : pst := mkS (A s) (FLAG s) (TURN s) (set2 id x (th s)).

Fixpoint squares (n : nat) (t : Z) : Z := match n with O => t | S n' => squares n' (u64 (t * t) mod 10007) end.

(** [lock], [critical_section] and [unlock] in the loop of [f], an access at a time. *)
Definition step (id : bool) (s : pst) : pst :=
  let x := th s id in
  let j := negb id in
  match pc x with
  | SetFlag =>
      match left x with
      | S n => mkS (A s) (set2 id true (FLAG s)) (TURN s) (set2 id (mkT SetTurn n (cur x) (tval x)) (th s))
      | O => put_thread id (goto Exited x) s
      end
  | SetTurn => mkS (A s) (FLAG s) j (set2 id (goto TestFlag x) (th s))
  | TestFlag => put_thread id (goto (if FLAG s j then TestTurn else ReadA) x) s
  | TestTurn => put_thread id (goto (if Bool.eqb (TURN s) j then TestFlag else ReadA) x) s
  | ReadA => put_thread id (mkT Work (left x) (A s) (tval x)) s
  | Work => put_thread id (mkT WriteA (left x) (cur x) (squares 500 (tval x))) s
  | WriteA => mkS (u64 (cur x + 1)) (FLAG s) (TURN s) (set2 id (goto ClearFlag x) (th s))
  | ClearFlag => mkS (A s) (set2 id false (FLAG s)) (TURN s) (set2 id (goto SetFlag x) (th s))
  | Exited => s
  end.
Definition run (sched : list bool) (s : pst) : pst := foldl (λ s id, step id s) s sched.
(** After [main] has created the threads. *)
Definition init (per_thread : nat) : pst := mkS 0 (λ _, false) false (λ _, mkT SetFlag per_thread 0 2).

(** ** The invariant *)
Definition critical (p : ppc) : bool := match p with ReadA | Work | WriteA | ClearFlag => true | _ => false end.
Definition asking (p : ppc) : bool := match p with TestFlag | TestTurn => true | _ => critical p end.
Definition flagged (p : ppc) : bool := match p with SetFlag | Exited => false | _ => true end.
(** The iteration a thread is in and has not yet counted. *)
Definition pending (p : ppc) : nat := match p with SetFlag | Exited | ClearFlag => 0 | _ => 1 end.

Record pinv (per_thread : nat) (s : pst) : Prop := {
  pi_flag : ∀ i, FLAG s i = flagged (pc (th s i));
  pi_turn : ∀ i, critical (pc (th s i)) = true → asking (pc (th s (negb i))) = true → TURN s = i;
  pi_left : ∀ i, (left (th s i) + pending (pc (th s i)) ≤ per_thread)%nat;
  pi_exit : ∀ i, pc (th s i) = Exited → left (th s i) = 0%nat;
  pi_cur : ∀ i, pc (th s i) = Work ∨ pc (th s i) = WriteA → cur (th s i) = A s;
  pi_sum : A s = u64 (2 * Z.of_nat per_thread - Z.of_nat (left (th s false) + pending (pc (th s false)))
                      - Z.of_nat (left (th s true) + pending (pc (th s true))));
}.

Lemma pinv_init n : pinv n (init n).
Proof. split; cbn; try done; try (by intros i [|]); [lia|]. replace (2 * Z.of_nat n - _ - _) with 0 by lia. done. Qed.

(** No two threads in the critical section. *)
Lemma exclusive n s i : pinv n s → critical (pc (th s i)) = true → critical (pc (th s (negb i))) = true → False.
Proof.
  intros Hi H1 H2. assert (∀ p, critical p = true → asking p = true) as Hca by (by intros []).
  pose proof (pi_turn _ _ Hi i H1 (Hca _ H2)) as T1. pose proof (pi_turn _ _ Hi (negb i) H2) as T2.
  rewrite negb_involutive in T2. specialize (T2 (Hca _ H1)). rewrite T1 in T2. by destruct i.
Qed.

(** The fields of a state for both threads. *)
Lemma set2_same {X} id (x : X) f : set2 id x f id = x.
Proof. unfold set2. by rewrite Bool.eqb_reflx. Qed.
Lemma set2_other {X} id (x : X) f : set2 id x f (negb id) = f (negb id).
Proof. unfold set2. by destruct id. Qed.

(** A step of thread [id], from the facts about it and the other thread. *)
Lemma pinv_update n s id x' A' F' T' :
  pinv n s → let x := th s id in let y := th s (negb id) in
  F' id = flagged (pc x') → F' (negb id) = FLAG s (negb id) → (critical (pc x') = true → asking (pc y) = true → T' = id) →
  (critical (pc y) = true → asking (pc x') = true → T' = negb id) →
  (left x' + pending (pc x') ≤ n)%nat → (pc x' = Exited → left x' = 0%nat) →
  (pc x' = Work ∨ pc x' = WriteA → cur x' = A') → (pc y = Work ∨ pc y = WriteA → cur y = A') →
  A' = u64 (A s + Z.of_nat (left x + pending (pc x)) - Z.of_nat (left x' + pending (pc x'))) →
  pinv n (mkS A' F' T' (set2 id x' (th s))).
Proof.
  intros Hi x y Hf Hfy Ht1 Ht2 Hl He Hc Hcy HA. assert (∀ i, i = id ∨ i = negb id) as Hids by (destruct id; intros []; auto).
  split; cbn [A FLAG TURN th].
  - intros i. destruct (Hids i) as [->| ->]; rewrite ?set2_same, ?set2_other; [done|]. rewrite Hfy. apply Hi.
  - intros i. destruct (Hids i) as [->| ->]; rewrite ?set2_same, ?set2_other, ?negb_involutive, ?set2_same; [done|].
    intros H1 H2. by apply Ht2.
  - intros i. destruct (Hids i) as [->| ->]; rewrite ?set2_same, ?set2_other; [done|apply Hi].
  - intros i. destruct (Hids i) as [->| ->]; rewrite ?set2_same, ?set2_other; [done|apply Hi].
  - intros i. destruct (Hids i) as [->| ->]; rewrite ?set2_same, ?set2_other; done.
  - rewrite HA. pose proof (pi_sum _ _ Hi) as Hs. rewrite Hs. unfold u64.
    subst x y. unfold Z.sub. rewrite <- Z.add_assoc, Zplus_mod_idemp_l. f_equal.
    destruct id; cbn [set2 Bool.eqb]; lia.
Qed.

Lemma pinv_kept n s id : pinv n s → pinv n (step id s).
Proof.
  intros Hi. pose proof (pi_left _ _ Hi id) as Hl. pose proof (pi_exit _ _ Hi id) as He. pose proof (pi_flag _ _ Hi id) as Hf.
  pose proof (pi_flag _ _ Hi (negb id)) as Hfj. pose proof (pi_cur _ _ Hi (negb id)) as Hcy. pose proof (pi_cur _ _ Hi id) as Hcx.
  pose proof (pi_turn _ _ Hi id) as Ht. pose proof (pi_turn _ _ Hi (negb id)) as Hty. rewrite negb_involutive in Hty.
  pose proof (exclusive _ _ id Hi) as Hex. pose proof (pi_sum _ _ Hi) as Hs.
  assert (A s = u64 (A s)) as HA by (rewrite Hs; unfold u64; by rewrite Z.mod_mod).
  assert (∀ p q, flagged p = false → asking p = q → q = false) as Hfa by (by intros []; intros; subst).
  assert (∀ k k', k = k' → A s = u64 (A s + Z.of_nat k - Z.of_nat k')) as Hsame by (intros k k' ->; rewrite HA at 1; f_equal; lia).
  assert (∀ p, p = true → p = false → False) as Hcon by (intros []; done).
  assert (eqb (TURN s) (negb id) = false → TURN s = id) as Hturn by (by destruct (TURN s), id).
  unfold step, put_thread. destruct (pc (th s id)) eqn:Hpc; [destruct (left (th s id)) as [|k] eqn:Hk| |
    destruct (FLAG s (negb id)) eqn:HF|destruct (eqb (TURN s) (negb id)) eqn:HT|..];
    try (apply pinv_update; unfold goto; cbn [pc left cur]; rewrite ?Hpc, ?Hk, ?set2_same, ?set2_other;
      cbn [critical asking flagged pending] in *; try done; try lia; try (apply Hsame; lia); try tauto; try (by intros [|])).
  - intros _ Hask. exfalso. by destruct (pc (th s (negb id))).
  - intros Hy. exfalso. apply Hex; [done|]. by destruct Hy as [-> | ->].
  - rewrite Hcx by auto. f_equal. lia.
  - done.
Qed.
Lemma pinv_run n sched s : pinv n s → pinv n (run sched s).
Proof. revert s. induction sched as [|id sched IH]; intros s Hi; [done|]. apply IH. by apply pinv_kept. Qed.

Lemma run_exclusive n sched : critical (pc (th (run sched (init n)) false)) && critical (pc (th (run sched (init n)) true)) = false.
Proof.
  pose proof (pinv_run n sched _ (pinv_init n)) as Hi. destruct (critical (pc (th _ false))) eqn:H0; [|done].
  destruct (critical (pc (th _ true))) eqn:H1; [|done]. by destruct (exclusive _ _ false Hi H0 H1).
Qed.
Lemma run_sum n sched : let s := run sched (init n) in pc (th s false) = Exited → pc (th s true) = Exited → A s = u64 (Z.of_nat n * 2).
Proof.
  intros s E0 E1. pose proof (pinv_run n sched _ (pinv_init n)) as Hi. fold s in Hi.
  rewrite (pi_sum _ _ Hi), (pi_exit _ _ Hi _ E0), (pi_exit _ _ Hi _ E1), E0, E1. f_equal. cbn. lia.
Qed.

(** ** Termination *)

(** The steps a thread still makes, not counting those of the waiting loop. *)
Definition rank (p : ppc) : nat :=
  match p with SetFlag => 1 | SetTurn => 8 | TestFlag | TestTurn => 7 | ReadA => 6 | Work => 5 | WriteA => 4 | ClearFlag => 3 | Exited => 0 end.
Definition work_left (x : thread) : nat := 8 * left x + rank (pc x).
Definition measure (s : pst) : nat := work_left (th s false) + work_left (th s true).

(** A step either does work, or it is a failed test, or the thread has exited. *)
Lemma step_measure id s :
  (measure (step id s) < measure s)%nat ∨
  (measure (step id s) = measure s ∧ FLAG (step id s) = FLAG s ∧ TURN (step id s) = TURN s ∧ th (step id s) (negb id) = th s (negb id) ∧
    ((pc (th s id) = TestFlag ∧ FLAG s (negb id) = true ∧ pc (th (step id s) id) = TestTurn) ∨
     (pc (th s id) = TestTurn ∧ TURN s = negb id ∧ pc (th (step id s) id) = TestFlag) ∨
     (pc (th s id) = Exited ∧ pc (th (step id s) id) = Exited))).
Proof.
  assert (∀ x, measure (mkS (A s) (FLAG s) (TURN s) (set2 id x (th s))) = (measure s - work_left (th s id) + work_left x)%nat ∧
    (work_left (th s id) ≤ measure s)%nat) as Hm.
  { intros x. unfold measure. cbn [th]. destruct id; unfold set2; cbn [Bool.eqb]; lia. }
  unfold step, put_thread. destruct (pc (th s id)) eqn:Hpc; [destruct (left (th s id)) as [|k] eqn:Hk| |
    destruct (FLAG s (negb id)) eqn:HF|destruct (Bool.eqb (TURN s) (negb id)) eqn:HT|..];
    try (left; match goal with |- context [set2 id ?x (th s)] => destruct (Hm x) as [H1 H2] end;
    unfold measure in *; cbn [th] in *; unfold goto, work_left in *; cbn [left pc rank] in *; rewrite ?Hpc, ?Hk in *; cbn [rank] in *; lia).
  - right. destruct (Hm (goto TestTurn (th s id))) as [H1 H2]. rewrite H1. unfold work_left, goto in *. cbn [left pc FLAG TURN th] in *. rewrite Hpc in *. cbn [rank] in *.
    rewrite set2_other, set2_same. split; [lia|]. split_and!; try done. left. done.
  - right. destruct (Hm (goto TestFlag (th s id))) as [H1 H2]. rewrite H1. unfold work_left, goto in *. cbn [left pc FLAG TURN th] in *. rewrite Hpc in *. cbn [rank] in *.
    rewrite set2_other, set2_same. split; [lia|]. split_and!; try done. right. left. split_and!; [done|by apply Bool.eqb_prop|done].
  - right. split_and!; try done. right. right. done.
Qed.

Lemma run_measure sched s : (measure (run sched s) ≤ measure s)%nat.
Proof.
  revert s. induction sched as [|id sched IH]; intros s; [done|]. change (run (id :: sched) s) with (run sched (step id s)).
  specialize (IH (step id s)). destruct (step_measure id s) as [|[Heq _]]; lia.
Qed.
Lemma exited_stays sched s i : pc (th s i) = Exited → pc (th (run sched s) i) = Exited.
Proof.
  revert s. induction sched as [|id sched IH]; intros s Hx; [done|]. change (run (id :: sched) s) with (run sched (step id s)). apply IH.
  destruct (decide (i = id)) as [->|Hne]; [unfold step; by rewrite Hx|]. assert (i = negb id) as -> by (by destruct i, id).
  unfold step, put_thread. destruct (pc (th s id)); [destruct (left (th s id))|..]; cbn [th]; rewrite ?set2_other; done.
Qed.

Definition turns (id : bool) (sched : list bool) : nat := length (filter (λ x, x = id) sched).
(** What a thread has seen after [k] turns without doing any work. *)
Definition seen (s : pst) (i : bool) (k : nat) : Prop :=
  match pc (th s i) with
  | TestFlag => ((1 ≤ k)%nat → FLAG s (negb i) = true) ∧ ((2 ≤ k)%nat → TURN s = negb i)
  | TestTurn => ((1 ≤ k)%nat → TURN s = negb i) ∧ ((2 ≤ k)%nat → FLAG s (negb i) = true)
  | Exited => True
  | _ => k = 0%nat
  end.
Lemma idle_run sched s i : measure (run sched s) = measure s → seen s i (turns i sched).
Proof.
  revert s. induction sched as [|id sched IH]; intros s Hm.
  { unfold seen. change (turns i []) with 0%nat. destruct (pc (th s i)); try done; split; lia. }
  change (run (id :: sched) s) with (run sched (step id s)) in Hm. pose proof (run_measure sched (step id s)) as Hle.
  destruct (step_measure id s) as [Hlt|(Heq & HF & HT & Ho & Hcase)]; [lia|]. specialize (IH (step id s) ltac:(lia)). unfold seen in *. rewrite HF, HT in IH.
  assert (turns i (id :: sched) = if decide (id = i) then S (turns i sched) else turns i sched) as Hn by (unfold turns; rewrite filter_cons; by case_decide).
  rewrite Hn. case_decide as Hid.
  - subst id. destruct Hcase as [(Hp & Hf & Hp')|[(Hp & Ht & Hp')|(Hp & Hp')]]; rewrite Hp, Hp' in *; [..|done]; destruct IH as [I1 I2]; split; intros; auto with lia.
  - assert (i = negb id) as -> by (by destruct i, id). by rewrite Ho in IH.
Qed.

Definition both_exited (s : pst) : bool := bool_decide (pc (th s false) = Exited) && bool_decide (pc (th s true) = Exited).
(** A round gives each thread at least two turns, in any order. *)
Definition fair_round (r : list bool) : Prop := (2 ≤ turns false r)%nat ∧ (2 ≤ turns true r)%nat.
Lemma round_progress n r s : pinv n s → fair_round r → both_exited s = false → (measure (run r s) < measure s)%nat.
Proof.
  intros Hi [H0 H1] Hb. pose proof (run_measure r s) as Hle. destruct (decide (measure (run r s) = measure s)) as [Heq|]; [|lia]. exfalso.
  assert (∀ i, pc (th s i) ≠ Exited → FLAG s (negb i) = true ∧ TURN s = negb i) as Hw.
  { intros i Hne. pose proof (idle_run r s i Heq) as Hs. assert (2 ≤ turns i r)%nat as Hk by (by destruct i). unfold seen in Hs.
    destruct (pc (th s i)); try done; try lia; destruct Hs as [S1 S2]; (split; [first [apply S1; lia|apply S2; lia]|first [apply S1; lia|apply S2; lia]]). }
  assert (∃ i, pc (th s i) ≠ Exited) as [i Hne].
  { unfold both_exited in Hb. apply andb_false_iff in Hb as [Hb|Hb]; apply bool_decide_eq_false in Hb; eauto. }
  destruct (Hw i Hne) as [Hf Ht]. rewrite (pi_flag _ _ Hi) in Hf. destruct (Hw (negb i)) as [_ Ht']; [by intros Hx; rewrite Hx in Hf|].
  rewrite Ht, negb_involutive in Ht'. by destruct i.
Qed.

Lemma fair_run_ends n rounds :
  Forall fair_round rounds → (16 * n + 2 ≤ length rounds)%nat → both_exited (run (concat rounds) (init n)) = true.
Proof.
  intros Hr Hlen. assert (measure (init n) ≤ length rounds)%nat as Hm by (unfold measure, work_left; cbn [init th pc left rank]; lia). clear Hlen.
  generalize (pinv_init n). revert Hm. generalize (init n) as s. induction Hr as [|r rounds Hf Hr IH]; intros s Hm Hi.
  - unfold both_exited. unfold measure, work_left in Hm. cbn in Hm. cbn [concat]. change (run [] s) with s.
    destruct (pc (th s false)), (pc (th s true)); cbn in *; lia || done.
  - cbn [concat]. unfold run. rewrite foldl_app. fold (run r s). fold (run (concat rounds) (run r s)). cbn [length] in Hm.
    destruct (both_exited s) eqn:Hb; [|apply IH; [pose proof (round_progress _ _ _ Hi Hf Hb); lia|by apply pinv_run]].
    unfold both_exited in *. apply andb_true_iff in Hb as [B0%bool_decide_eq_true B1%bool_decide_eq_true].
    apply andb_true_iff. split; apply bool_decide_eq_true; by apply exited_stays, exited_stays.
Qed.

(** C40 Peterson's lock works.  On every schedule the two threads are never both
    in the critical section; and if every round of the schedule has two turns for
    each thread, in any order, then after at most [16 * per_thread + 2] rounds
    both have left their loops, with [A] at twice the number of increments of
    each: nobody waits for ever and the assertion of [main] holds. *)
Theorem peterson_correct per_thread :
  (∀ sched, let s := run sched (init per_thread) in critical (pc (th s false)) && critical (pc (th s true)) = false) ∧
  (∀ rounds, Forall fair_round rounds → (16 * per_thread + 2 ≤ length rounds)%nat →
    let s := run (concat rounds) (init per_thread) in both_exited s = true ∧ A s = u64 (Z.of_nat per_thread * 2)).
Proof.
  split; [intros sched; apply run_exclusive|]. intros rounds Hr Hlen s. pose proof (fair_run_ends per_thread rounds Hr Hlen) as Hb. split; [done|].
  apply andb_true_iff in Hb as [B0%bool_decide_eq_true B1%bool_decide_eq_true]. by apply run_sum.
Qed.
Lemma peterson_correct_witness :
  A (run (concat (replicate 50 [false; true; true; false])) (init 3)) = 6.
Proof.
  apply (proj2 (peterson_correct 3) (replicate 50 [false; true; true; false])).
  - apply Forall_replicate. split; apply Nat.leb_le; reflexivity.
  - apply Nat.leb_le. reflexivity.
Defined.
