(* ===== verification/Semaphores.v ===== *)
(** * Programs of several threads with semaphores over the kernel's scheduler

    As Threads.v does for mutexes, [sstep] runs the texts of threads on the
    scheduler and semaphores of Sched.v, on every schedule.  The invariant
    [seminv] counts: the count of a semaphore is its first value, plus the calls
    of [semaphore_up] made, minus the calls of [semaphore_down] made, and each
    thread in its queue stands behind such a call.  What a program may conclude
    is [passed_le]: no more calls of [semaphore_down] return than there are
    permits.  (user/src/lib.rs: semaphore_create, semaphore_up, semaphore_down,
    thread_create, waittid; the scheduler is os/src/task/, os/src/sync/semaphore.rs) *)
From S2P Require Import Prelude Sched SchedSafe Threads.

Inductive sop (L : Type) :=
| SLocal (a : L)
| SUp (i : nat)
| SDown (i : nat)
| SSpawn (t : Z)
| SWait (t : Z).
Arguments SLocal {L}.
Arguments SUp {L}.
Arguments SDown {L}.
Arguments SSpawn {L}.
Arguments SWait {L}.

(** A thread that has exited keeps its position, at the end of its text. *)
Record semst (Mem : Type) := mkSt { ss_k : kst; ss_mem : Mem; ss_pc : gmap Z nat }.
Arguments mkSt {Mem}.
Arguments ss_k {Mem}.
Arguments ss_mem {Mem}.
Arguments ss_pc {Mem}.

(** ** Counting *)
Definition cnt {A} (P : A → bool) (l : list A) : nat := length (filter (λ x, P x = true) l).
Lemma cnt_app {A} (P : A → bool) l l' : cnt P (l ++ l') = (cnt P l + cnt P l')%nat.
Proof. unfold cnt. by rewrite filter_app, length_app. Qed.
Lemma cnt_take_S {A} (P : A → bool) l i x : l !! i = Some x → cnt P (take (S i) l) = (cnt P (take i l) + if P x then 1 else 0)%nat.
Proof.
  intros Hx. rewrite (take_S_r _ _ x) by done. rewrite cnt_app. f_equal. unfold cnt. rewrite filter_cons. by destruct (P x).
Qed.
Lemma cnt_le_length {A} (P : A → bool) l : (cnt P l ≤ length l)%nat.
Proof. apply length_filter. Qed.

Section sums.
Context {A : Type}.
Implicit Types (f g : A → nat) (l : list A).
Lemma sum_with_ext f g l : (∀ x, x ∈ l → f x = g x) → sum_list_with f l = sum_list_with g l.
Proof. induction l as [|x l IH]; intros H; [done|]. cbn. rewrite H by (by left). f_equal. apply IH. intros y Hy. apply H. by right. Qed.
Lemma sum_le f g l : (∀ x, x ∈ l → f x ≤ g x)%nat → (sum_list_with f l ≤ sum_list_with g l)%nat.
Proof.
  induction l as [|x l IH]; intros H; [done|]. cbn. pose proof (H x ltac:(by left)). pose proof (IH ltac:(intros y Hy; apply H; by right)). lia.
Qed.
Lemma sum_plus f g l : sum_list_with (λ x, f x + g x)%nat l = (sum_list_with f l + sum_list_with g l)%nat.
Proof. induction l as [|x l IH]; cbn; [done|]. lia. Qed.
Lemma sum_lt f g l x : x ∈ l → (∀ y, y ∈ l → f y ≤ g y)%nat → (f x < g x)%nat → (sum_list_with f l < sum_list_with g l)%nat.
Proof.
  intros Hx Hle Hlt. induction l as [|y l IH]; [by apply elem_of_nil in Hx|]. cbn. pose proof (Hle y ltac:(by left)).
  assert (∀ z, z ∈ l → f z ≤ g z)%nat as Hl by (intros z Hz; apply Hle; by right).
  apply elem_of_cons in Hx as [->|Hx]; [pose proof (sum_le f g l Hl); lia|]. specialize (IH Hx Hl). lia.
Qed.
Lemma sum_change f g l x d : NoDup l → x ∈ l → (∀ y, y ∈ l → y ≠ x → g y = f y) → g x = (f x + d)%nat →
  sum_list_with g l = (sum_list_with f l + d)%nat.
Proof.
  intros Hnd Hx Ho Hd. induction Hnd as [|y l Hy Hnd IH]; [by apply elem_of_nil in Hx|]. cbn.
  apply elem_of_cons in Hx as [->|Hx].
  - rewrite Hd, (sum_with_ext g f l); [lia|]. intros z Hz. apply Ho; [by right|by intros ->].
  - rewrite (Ho y) by ((by left) || by intros ->). rewrite IH; [lia|done|]. intros z Hz. apply Ho. by right.
Qed.
Lemma sum_two f l x y : NoDup l → x ∈ l → y ∈ l → x ≠ y → (f x + f y ≤ sum_list_with f l)%nat.
Proof.
  intros Hnd Hx Hy Hne. induction Hnd as [|z l Hz Hnd IH]; [by apply elem_of_nil in Hx|]. cbn.
  assert (∀ w, w ∈ l → f w ≤ sum_list_with f l)%nat as Hone.
  { clear. induction l as [|v l IH]; intros w Hw; [by apply elem_of_nil in Hw|]. cbn. apply elem_of_cons in Hw as [->|Hw]; [lia|]. specialize (IH w Hw). lia. }
  apply elem_of_cons in Hx as [->|Hx], Hy as [->|Hy]; [done|specialize (Hone y Hy); lia|specialize (Hone x Hx); lia|specialize (IH Hx Hy); lia].
Qed.
Lemma sum_in `{EqDecision A} l q : NoDup l → NoDup q → (∀ x, x ∈ q → x ∈ l) → sum_list_with (λ x, if decide (x ∈ q) then 1 else 0)%nat l = length q.
Proof.
  intros Hl Hq. revert l Hl. induction Hq as [|x q Hx Hq IH]; intros l Hl Hs.
  - rewrite (sum_with_ext _ (λ _, 0%nat)); [|intros y _; rewrite decide_False; [done|apply not_elem_of_nil]]. clear. induction l; [done|]. by cbn.
  - rewrite (sum_change (λ y, if decide (y ∈ q) then 1 else 0)%nat _ l x 1); [|done|apply Hs; by left|..].
    + rewrite IH; [cbn; lia|done|]. intros y Hy. apply Hs. by right.
    + intros y _ Hne. destruct (decide (y ∈ q)) as [Hy|Hy]; [by rewrite decide_True by (by right)|].
      rewrite decide_False; [done|]. by intros [->|?]%elem_of_cons.
    + rewrite decide_True by (by left). by rewrite decide_False.
Qed.
End sums.

Section steps.
Context {Mem L : Type} (local : Z → L → Mem → Mem → Prop) (text : Z → list (sop L)).

Inductive sstep : semst Mem → semst Mem → Prop :=
| s_local k mm pcs t pc a mm' :
    current k = Some t → pcs !! t = Some pc → text t !! pc = Some (SLocal a) → local t a mm mm' →
    sstep (mkSt k mm pcs) (mkSt k mm' (<[t := S pc]> pcs))
| s_up k mm pcs t pc i k' :
    current k = Some t → pcs !! t = Some pc → text t !! pc = Some (SUp i) →
    sys_semaphore_up (Z.of_nat i) k = Ok (0, k') → sstep (mkSt k mm pcs) (mkSt k' mm (<[t := S pc]> pcs))
| s_down k mm pcs t pc i k' :
    current k = Some t → pcs !! t = Some pc → text t !! pc = Some (SDown i) →
    sys_semaphore_down (Z.of_nat i) k = Ok (0, k') → sstep (mkSt k mm pcs) (mkSt k' mm (<[t := S pc]> pcs))
| s_spawn k mm pcs t pc t' :
    current k = Some t → pcs !! t = Some pc → text t !! pc = Some (SSpawn t') →
    status k !! t' = None → pcs !! t' = None →
    sstep (mkSt k mm pcs) (mkSt (spawn t' k) mm (<[t' := 0%nat]> (<[t := S pc]> pcs)))
| s_wait k mm pcs t pc t' :
    current k = Some t → pcs !! t = Some pc → text t !! pc = Some (SWait t') →
    is_Some (pcs !! t') → status k !! t' = None → sstep (mkSt k mm pcs) (mkSt k mm (<[t := S pc]> pcs))
| s_exit k mm pcs t k' :
    current k = Some t → pcs !! t = Some (length (text t)) → exit_current k = Ok k' → sstep (mkSt k mm pcs) (mkSt k' mm pcs)
(** Also what [waittid] does before it asks again. *)
| s_yield k mm pcs t k' :
    current k = Some t → suspend_current_and_run_next CReturn k = Ok k' → sstep (mkSt k mm pcs) (mkSt k' mm pcs)
| s_timer k mm pcs now : sstep (mkSt k mm pcs) (mkSt (check_timer now k) mm pcs)
| s_dispatch k mm pcs t k1 k2 :
    current k = None → run_task k = Some (t, k1) → resume t k1 = Ok k2 → sstep (mkSt k mm pcs) (mkSt k2 mm pcs).

End steps.

(** ** Calls made, over all threads *)
Section semaphores.
Context {L : Type} (text : Z → list (sop L)).
Context (threads : list Z) (Hthreads : NoDup threads) (Htext : ∀ t, text t ≠ [] → t ∈ threads).
Definition is_up (i : nat) (op : sop L) : bool := match op with SUp j => bool_decide (i = j) | _ => false end.
Definition is_down (i : nat) (op : sop L) : bool := match op with SDown j => bool_decide (i = j) | _ => false end.
Definition did (P : sop L → bool) (pcs : gmap Z nat) (t : Z) : nat := cnt P (take (default 0%nat (pcs !! t)) (text t)).
Definition total (P : sop L → bool) (pcs : gmap Z nat) : nat := sum_list_with (did P pcs) threads.

Lemma did_advance P pcs t pc op : pcs !! t = Some pc → text t !! pc = Some op →
  did P (<[t := S pc]> pcs) t = (did P pcs t + if P op then 1 else 0)%nat ∧ ∀ x, x ≠ t → did P (<[t := S pc]> pcs) x = did P pcs x.
Proof.
  intros Hpc Hop. split.
  - unfold did. rewrite lookup_insert_eq, Hpc. cbn. by apply cnt_take_S.
  - intros x Hx. unfold did. by rewrite lookup_insert_ne.
Qed.
Lemma total_advance P pcs t pc op : pcs !! t = Some pc → text t !! pc = Some op →
  total P (<[t := S pc]> pcs) = (total P pcs + if P op then 1 else 0)%nat.
Proof.
  intros Hpc Hop. destruct (did_advance P pcs t pc op Hpc Hop) as [H1 H2].
  apply (sum_change _ _ _ t); [done| |by auto|done]. apply Htext. intros Hn. by rewrite Hn, lookup_nil in Hop.
Qed.
Lemma did_spawn P pcs t x : pcs !! t = None → did P (<[t := 0%nat]> pcs) x = did P pcs x.
Proof. intros Hn. unfold did. destruct (decide (x = t)) as [->|Hne]; [by rewrite lookup_insert_eq, Hn|by rewrite lookup_insert_ne]. Qed.
Lemma total_spawn P pcs t : pcs !! t = None → total P (<[t := 0%nat]> pcs) = total P pcs.
Proof. intros Hn. apply sum_with_ext. intros x _. by apply did_spawn. Qed.

(** ** The invariant *)
Record seminv (inits : list Z) (k : kst) (pcs : gmap Z nat) : Prop := {
  si_kern : inv k ∅;
  si_plain : mutex_list k = [] ∧ condvar_list k = [] ∧ timers k = [];
  si_sem : ∀ i n, inits !! i = Some n → ∃ q,
    let c := n + Z.of_nat (total (is_up i) pcs) - Z.of_nat (total (is_down i) pcs) in
    semaphore_list k !! i = Some (Some (mkSem c q)) ∧ Z.of_nat (length q) = Z.max 0 (- c);
  si_len : length (semaphore_list k) = length inits;
  si_wait : ∀ i t, t ∈ queue_of k (QS i) → ∃ pc, pcs !! t = Some (S pc) ∧ text t !! pc = Some (SDown i);
  si_live : ∀ t, is_Some (status k !! t) → is_Some (pcs !! t);
  si_gone : ∀ t pc, pcs !! t = Some pc → status k !! t = None → pc = length (text t);
  si_bound : ∀ t pc, pcs !! t = Some pc → (pc ≤ length (text t))%nat;
}.

Context (inits : list Z) (Hsmall : Z.of_nat (sum_list_with (λ t, length (text t)) threads) < 2 ^ 61) (Hinits : Forall (λ n, 0 ≤ n < 2 ^ 61) inits).

Lemma total_small P pcs : Z.of_nat (total P pcs) < 2 ^ 61.
Proof.
  assert (total P pcs ≤ sum_list_with (λ t, length (text t)) threads)%nat as H; [|lia]. apply sum_le. intros t _.
  unfold did. etrans; [apply cnt_le_length|]. rewrite length_take. lia.
Qed.

Lemma seminv_no_wrap k pcs : seminv inits k pcs → no_wrap k.
Proof.
  intros Hi i x Hx. pose proof (lookup_lt_Some _ _ _ Hx) as Hlt. rewrite (si_len _ _ _ Hi) in Hlt.
  apply lookup_lt_is_Some_2 in Hlt as [n Hn]. destruct (si_sem _ _ _ Hi i n Hn) as (q & Hs & _). rewrite Hx in Hs. injection Hs as ->. cbn.
  rewrite Forall_lookup in Hinits. pose proof (Hinits i n Hn). pose proof (total_small (is_up i) pcs). pose proof (total_small (is_down i) pcs). lia.
Qed.

(** A step that leaves the semaphores alone. *)
Lemma seminv_same k k' pcs pcs' :
  seminv inits k pcs → inv k' ∅ → mutex_list k' = mutex_list k → condvar_list k' = condvar_list k → timers k' = timers k →
  semaphore_list k' = semaphore_list k → (∀ i, total (is_up i) pcs' = total (is_up i) pcs ∧ total (is_down i) pcs' = total (is_down i) pcs) →
  (∀ t pc, t ∈ waiters k → pcs !! t = Some pc → pcs' !! t = Some pc) →
  (∀ t, is_Some (status k' !! t) → is_Some (pcs' !! t)) →
  (∀ t pc, pcs' !! t = Some pc → status k' !! t = None → pc = length (text t)) →
  (∀ t pc, pcs' !! t = Some pc → pc ≤ length (text t))%nat → seminv inits k' pcs'.
Proof.
  intros Hi Hk Hm Hc Ht Hs Htot Hw Hl Hg Hb. split; [done|by rewrite Hm, Hc, Ht; apply Hi| | | |done|done|done].
  - intros i n Hn. destruct (si_sem _ _ _ Hi i n Hn) as (q & Hq). exists q. destruct (Htot i) as [-> ->]. by rewrite Hs.
  - rewrite Hs. apply Hi.
  - intros i t Hq. cbn in Hq. rewrite Hs in Hq. destruct (si_wait _ _ _ Hi i t Hq) as (pc & Hpc & Hop). exists pc. split; [|done].
    apply Hw; [|done]. apply waiting_in_queue. by exists (QS i).
Qed.

Lemma running_waits k pcs t : seminv inits k pcs → current k = Some t → t ∉ waiters k.
Proof. intros Hi Hc. by destruct (current_elsewhere k t (in_placed _ _ (si_kern _ _ _ Hi)) Hc). Qed.

(** Advancing a running thread keeps what the invariant says of threads. *)
Lemma advance_facts k pcs t pc op :
  seminv inits k pcs → current k = Some t → pcs !! t = Some pc → text t !! pc = Some op →
  (∀ x px, x ∈ waiters k → pcs !! x = Some px → <[t := S pc]> pcs !! x = Some px) ∧
  (∀ x, is_Some (status k !! x) → is_Some (<[t := S pc]> pcs !! x)) ∧
  (∀ x px, <[t := S pc]> pcs !! x = Some px → status k !! x = None → px = length (text x)) ∧
  (∀ x px, <[t := S pc]> pcs !! x = Some px → px ≤ length (text x))%nat.
Proof.
  intros Hi Hc Hpc Hop. pose proof (running_waits k pcs t Hi Hc) as Hw.
  pose proof (pl_current _ (in_placed _ _ (si_kern _ _ _ Hi)) t Hc) as Hst. split_and!.
  - intros x px Hx Hpx. by rewrite lookup_insert_ne by (by intros ->).
  - intros x Hx. rewrite lookup_insert_is_Some'. right. by apply Hi.
  - intros x px [[<- <-]|[Hne Hx]]%lookup_insert_Some Hn; [congruence|by eapply Hi].
  - intros x px [[<- <-]|[Hne Hx]]%lookup_insert_Some; [|by eapply Hi]. apply lookup_lt_Some in Hop. lia.
Qed.

Lemma plain_step k pcs t pc op : seminv inits k pcs → current k = Some t → pcs !! t = Some pc → text t !! pc = Some op →
  (∀ i, is_up i op = false ∧ is_down i op = false) → seminv inits k (<[t := S pc]> pcs).
Proof.
  intros Hi Hc Hpc Hop Hno. destruct (advance_facts k pcs t pc op Hi Hc Hpc Hop) as (H1 & H2 & H3 & H4).
  apply (seminv_same k k pcs); try done; [apply Hi|]. intros i. destruct (Hno i) as [E1 E2].
  rewrite !(total_advance _ pcs t pc op Hpc Hop), E1, E2. lia.
Qed.

Lemma spawn_step k pcs t pc t' : seminv inits k pcs → current k = Some t → pcs !! t = Some pc → text t !! pc = Some (SSpawn t') →
  status k !! t' = None → pcs !! t' = None → seminv inits (spawn t' k) (<[t' := 0%nat]> (<[t := S pc]> pcs)).
Proof.
  intros Hi Hc Hpc Hop Hst Hnew. pose proof (plain_step k pcs t pc _ Hi Hc Hpc Hop ltac:(done)) as Hi'.
  assert (t' ≠ t) as Hne by congruence. assert (<[t := S pc]> pcs !! t' = None) as Hn' by (by rewrite lookup_insert_ne).
  apply (seminv_same k (spawn t' k) (<[t := S pc]> pcs)); try done.
  - apply inv_spawn; [apply Hi|set_solver|done].
  - intros i. by rewrite !total_spawn.
  - intros x px _ Hx. rewrite lookup_insert_ne; [done|]. intros <-. congruence.
  - intros x Hx. cbn in Hx. rewrite lookup_insert_is_Some' in Hx. rewrite lookup_insert_is_Some'. destruct Hx as [->|Hx]; [by left|right]. by apply Hi'.
  - intros x px Hx Hs. cbn in Hs. apply lookup_insert_None in Hs as [Hs Hxt]. rewrite lookup_insert_ne in Hx by done. by eapply Hi'.
  - intros x px [[<- <-]|[_ Hx]]%lookup_insert_Some; [lia|by eapply Hi'].
Qed.

(** The calls on semaphores, on one that exists. *)
Lemma sem_call_up k i k' : sys_semaphore_up (Z.of_nat i) k = Ok (0, k') → semaphore_up i k = Ok k'.
Proof. unfold sys_semaphore_up. rewrite Nat2Z.id. case_match; [|done]. destruct (semaphore_up i k); cbn; [by intros [= ->]|done]. Qed.
Lemma sem_call_down k i k' : sys_semaphore_down (Z.of_nat i) k = Ok (0, k') → semaphore_down i k = Ok k'.
Proof. unfold sys_semaphore_down. rewrite Nat2Z.id. case_match; [|done]. destruct (semaphore_down i k); cbn; [by intros [= ->]|done]. Qed.

(** Updating semaphore [i] to what its new totals say. *)
Lemma seminv_update k k' pcs pcs' i n q c q' :
  seminv inits k pcs → inv k' ∅ → mutex_list k' = mutex_list k → condvar_list k' = condvar_list k → timers k' = timers k →
  inits !! i = Some n → semaphore_list k !! i = Some (Some (mkSem c q)) →
  semaphore_list k' = <[i := Some (mkSem (n + Z.of_nat (total (is_up i) pcs') - Z.of_nat (total (is_down i) pcs')) q')]> (semaphore_list k) →
  Z.of_nat (length q') = Z.max 0 (- (n + Z.of_nat (total (is_up i) pcs') - Z.of_nat (total (is_down i) pcs'))) →
  (∀ j, j ≠ i → total (is_up j) pcs' = total (is_up j) pcs ∧ total (is_down j) pcs' = total (is_down j) pcs) →
  (∀ x, x ∈ q' → x ∈ q ∨ ∃ pc, pcs' !! x = Some (S pc) ∧ text x !! pc = Some (SDown i)) →
  (∀ t pc, t ∈ waiters k → pcs !! t = Some pc → pcs' !! t = Some pc) →
  (∀ t, is_Some (status k' !! t) → is_Some (pcs' !! t)) →
  (∀ t pc, pcs' !! t = Some pc → status k' !! t = None → pc = length (text t)) →
  (∀ t pc, pcs' !! t = Some pc → pc ≤ length (text t))%nat → seminv inits k' pcs'.
Proof.
  intros Hi Hk Hm Hc Ht Hn Hs Hs' Hlen Htot Hq Hw Hl Hg Hb. pose proof (lookup_lt_Some _ _ _ Hs) as Hlt.
  split; [done|by rewrite Hm, Hc, Ht; apply Hi| | | |done|done|done].
  - intros j m Hj. destruct (decide (j = i)) as [->|Hne].
    + exists q'. rewrite Hn in Hj. injection Hj as <-. split; [|done]. rewrite Hs'. by apply list_lookup_insert_eq.
    + destruct (Htot j Hne) as [-> ->]. rewrite Hs', list_lookup_insert_ne by done. by apply Hi.
  - rewrite Hs', length_insert. apply Hi.
  - intros j t. cbn. rewrite Hs'. destruct (decide (j = i)) as [->|Hne].
    + rewrite list_lookup_insert_eq by done. cbn. intros [Hin|Hin]%Hq; [|done].
      assert (t ∈ queue_of k (QS i)) as Hin' by (cbn; by rewrite Hs).
      destruct (si_wait _ _ _ Hi i t Hin') as (pc & Hpc & Hop). exists pc. split; [|done]. apply Hw; [|done]. apply waiting_in_queue. by exists (QS i).
    + rewrite list_lookup_insert_ne by done. intros Hin. destruct (si_wait _ _ _ Hi j t Hin) as (pc & Hpc & Hop). exists pc. split; [|done].
      apply Hw; [|done]. apply waiting_in_queue. by exists (QS j).
Qed.

Lemma sem_exists k pcs i o : seminv inits k pcs → semaphore_list k !! i = Some o → ∃ n q,
  inits !! i = Some n ∧ o = Some (mkSem (n + Z.of_nat (total (is_up i) pcs) - Z.of_nat (total (is_down i) pcs)) q) ∧
  Z.of_nat (length q) = Z.max 0 (- (n + Z.of_nat (total (is_up i) pcs) - Z.of_nat (total (is_down i) pcs))) ∧ 0 ≤ n < 2 ^ 61.
Proof.
  intros Hi Ho. pose proof (lookup_lt_Some _ _ _ Ho) as Hlt. rewrite (si_len _ _ _ Hi) in Hlt. apply lookup_lt_is_Some_2 in Hlt as [n Hn].
  destruct (si_sem _ _ _ Hi i n Hn) as (q & Hs & Hq). rewrite Ho in Hs. injection Hs as ->. exists n, q.
  rewrite Forall_lookup in Hinits. pose proof (Hinits i n Hn). done.
Qed.

Lemma up_step k pcs t pc i k' : seminv inits k pcs → current k = Some t → pcs !! t = Some pc → text t !! pc = Some (SUp i) →
  semaphore_up i k = Ok k' → seminv inits k' (<[t := S pc]> pcs).
Proof.
  intros Hi Hc Hpc Hop Hr. destruct (advance_facts k pcs t pc _ Hi Hc Hpc Hop) as (H1 & H2 & H3 & H4).
  assert (inv k' ∅) as Hk' by (eapply inv_step; [apply Hi|eexists; eapply st_up; [done|by eapply seminv_no_wrap|done]]).
  pose proof Hr as Hr0. unfold semaphore_up in Hr. destruct (semaphore_list k !! i) as [o|] eqn:Ho; [|done].
  destruct (sem_exists k pcs i o Hi Ho) as (n & q & Hn & -> & Hq & Hb).
  assert (∀ j, total (is_up j) (<[t := S pc]> pcs) = (total (is_up j) pcs + if bool_decide (j = i) then 1 else 0)%nat ∧
               total (is_down j) (<[t := S pc]> pcs) = total (is_down j) pcs) as Htot
    by (intros j; rewrite !(total_advance _ pcs t pc _ Hpc Hop); cbn; lia).
  destruct (Htot i) as [Hu Hd]. rewrite bool_decide_true in Hu by done.
  assert (∀ j, j ≠ i → total (is_up j) (<[t := S pc]> pcs) = total (is_up j) pcs ∧ total (is_down j) (<[t := S pc]> pcs) = total (is_down j) pcs) as Hj.
  { intros j Hj. destruct (Htot j) as [-> ->]. rewrite bool_decide_false by done. lia. }
  pose proof (total_small (is_up i) pcs). pose proof (total_small (is_down i) pcs). rewrite as_isize_id in Hr by lia.
  destruct q as [|x q]; injection Hr as <-.
  - eapply (seminv_update k _ pcs) with (q' := []); [done|done|done|done|done|exact Hn|exact Ho| | |done| |done|done|done|done].
    + cbn. rewrite Hu, Hd. do 3 f_equal. lia.
    + cbn in Hq |- *. lia.
    + by left.
  - eapply (seminv_update k _ pcs) with (q' := q); [done|done|done|done|done|exact Hn|exact Ho| | |done| |done| | |done].
    + cbn. rewrite Hu, Hd. do 3 f_equal. lia.
    + cbn in Hq |- *. lia.
    + intros y Hy. left. by right.
    + intros y. cbn [status wakeup_task add_task set_ready set_task_status set_sems]. rewrite lookup_insert_is_Some'. intros [<-|Hy]; [|by apply H2]. apply H2. exists Blocked.
      apply (pl_waiting _ (in_placed _ _ (si_kern _ _ _ Hi))), waiting_in_queue. exists (QS i). cbn. rewrite Ho. by left.
    + intros y py Hy. cbn [status wakeup_task add_task set_ready set_task_status set_sems]. intros [Hs Hxy]%lookup_insert_None. by apply H3.
Qed.

Lemma down_step k pcs t pc i k' : seminv inits k pcs → current k = Some t → pcs !! t = Some pc → text t !! pc = Some (SDown i) →
  semaphore_down i k = Ok k' → seminv inits k' (<[t := S pc]> pcs).
Proof.
  intros Hi Hc Hpc Hop Hr. destruct (advance_facts k pcs t pc _ Hi Hc Hpc Hop) as (H1 & H2 & H3 & H4).
  assert (inv k' ∅) as Hk' by (eapply inv_step; [apply Hi|eexists; eapply st_down; [done|by eapply seminv_no_wrap|done]]).
  pose proof Hr as Hr0. unfold semaphore_down in Hr. destruct (semaphore_list k !! i) as [o|] eqn:Ho; [|done].
  destruct (sem_exists k pcs i o Hi Ho) as (n & q & Hn & -> & Hq & Hb).
  assert (∀ j, total (is_up j) (<[t := S pc]> pcs) = total (is_up j) pcs ∧
               total (is_down j) (<[t := S pc]> pcs) = (total (is_down j) pcs + if bool_decide (j = i) then 1 else 0)%nat) as Htot
    by (intros j; rewrite !(total_advance _ pcs t pc _ Hpc Hop); cbn; lia).
  destruct (Htot i) as [Hu Hd]. rewrite bool_decide_true in Hd by done.
  assert (∀ j, j ≠ i → total (is_up j) (<[t := S pc]> pcs) = total (is_up j) pcs ∧ total (is_down j) (<[t := S pc]> pcs) = total (is_down j) pcs) as Hj.
  { intros j Hj. destruct (Htot j) as [-> ->]. rewrite bool_decide_false by done. lia. }
  pose proof (total_small (is_up i) pcs). pose proof (total_small (is_down i) pcs). rewrite as_isize_id in Hr by lia.
  destruct (Z.ltb_spec (n + Z.of_nat (total (is_up i) pcs) - Z.of_nat (total (is_down i) pcs) - 1) 0) as [Hneg|Hpos].
  - unfold block_current_and_run_next, take_current_task, current_task in Hr. rewrite Hc in Hr. cbn in Hr. rewrite Hc in Hr. injection Hr as <-.
    eapply (seminv_update k _ pcs); [done|done|done|done|done|exact Hn|exact Ho| | |done| |done| | |done];
      rewrite ?Hu, ?Hd; cbn [semaphore_list set_sems set_task_status set_cont set_current status].
    + do 3 f_equal. lia.
    + rewrite length_app. cbn. lia.
    + intros y [Hy| ->%list_elem_of_singleton]%elem_of_app; [by left|right]. exists pc. split; [apply lookup_insert_eq|done].
    + intros y. rewrite lookup_insert_is_Some'. intros [<-|Hy]; [|by apply H2]. by rewrite lookup_insert_eq.
    + intros y py Hy [Hs Hxy]%lookup_insert_None. by apply H3.
  - injection Hr as <-. eapply (seminv_update k _ pcs); [done|done|done|done|done|exact Hn|exact Ho| | |done| |done|done|done|done];
      rewrite ?Hu, ?Hd; cbn [semaphore_list set_sems].
    + do 3 f_equal. lia.
    + lia.
    + by left.
Qed.

Lemma exit_step k pcs t k' : seminv inits k pcs → current k = Some t → pcs !! t = Some (length (text t)) → exit_current k = Ok k' →
  seminv inits k' pcs.
Proof.
  intros Hi Hc Hpc Hr. pose proof (inv_exit k ∅ t k' (si_kern _ _ _ Hi) Hc Hr) as Hk'.
  unfold exit_current, take_current_task in Hr. rewrite Hc in Hr. injection Hr as <-.
  apply (seminv_same k _ pcs); try done; cbn.
  - intros x. destruct (decide (x = t)) as [->|Hne]; [by rewrite lookup_delete_eq; intros [? ?]|]. rewrite lookup_delete_ne by done. apply Hi.
  - intros x px Hx. destruct (decide (x = t)) as [->|Hne]; [congruence|]. rewrite lookup_delete_ne by done. by apply Hi.
  - apply Hi.
Qed.

(** Moving a thread between places changes neither its position nor whether it lives. *)
Lemma seminv_status k k' pcs : seminv inits k pcs → inv k' ∅ → mutex_list k' = mutex_list k → condvar_list k' = condvar_list k →
  timers k' = timers k → semaphore_list k' = semaphore_list k → (∀ x, is_Some (status k' !! x) ↔ is_Some (status k !! x)) →
  seminv inits k' pcs.
Proof.
  intros Hi Hk Hm Hc Ht Hs Hst. apply (seminv_same k k' pcs); try done.
  - intros x Hx. by apply Hi, Hst.
  - intros x px Hx Hn. eapply (si_gone _ _ _ Hi); [done|]. apply eq_None_not_Some. intros Hsome%Hst. rewrite Hn in Hsome. by destruct Hsome.
  - apply Hi.
Qed.

Lemma yield_step k pcs t k' : seminv inits k pcs → current k = Some t → suspend_current_and_run_next CReturn k = Ok k' → seminv inits k' pcs.
Proof.
  intros Hi Hc Hr. assert (inv k' ∅) as Hk' by (eapply inv_step; [apply Hi|eexists; by eapply st_yield]).
  pose proof (pl_current _ (in_placed _ _ (si_kern _ _ _ Hi)) t Hc) as Hst.
  unfold suspend_current_and_run_next, take_current_task in Hr. rewrite Hc in Hr. injection Hr as <-.
  apply (seminv_status k); try done. cbn. apply live_insert. by eexists.
Qed.

(** Without mutexes a dispatched thread is back in its text. *)
Lemma dispatch_returns k pcs t k1 k2 : seminv inits k pcs → current k = None → run_task k = Some (t, k1) → resume t k1 = Ok k2 →
  k2 = k1 ∧ inv k1 ∅ ∧ is_Some (status k !! t).
Proof.
  intros Hi Hc Hr Hres. destruct (dispatch_inv k ∅ t k1 (si_kern _ _ _ Hi) Hc Hr) as (k3 & Hr3 & Hk3).
  assert (k2 = k3) as <- by congruence. unfold run_task, fetch_task in Hr. destruct (ready_queue k) as [|t' q] eqn:Hq; [done|]. injection Hr as -> <-.
  destruct (in_ready _ _ (si_kern _ _ _ Hi) t) as (c & Hct & Hok); [rewrite Hq; by left|].
  assert (c = CReturn) as ->.
  { destruct c as [|m|m|m]; [done|..]; destruct Hok as [x Hx]; rewrite (proj1 (si_plain _ _ _ Hi)), lookup_nil in Hx; done. }
  unfold resume, completed in *. cbn [conts set_current set_task_status set_ready] in *. rewrite Hct in *. injection Hres as <-.
  rewrite union_empty_l_L in Hk3. split; [done|]. split; [done|]. exists Ready. apply (pl_ready _ (in_placed _ _ (si_kern _ _ _ Hi))). rewrite Hq. by left.
Qed.

Lemma dispatch_step k pcs t k1 k2 : seminv inits k pcs → current k = None → run_task k = Some (t, k1) → resume t k1 = Ok k2 → seminv inits k2 pcs.
Proof.
  intros Hi Hc Hr Hres. destruct (dispatch_returns k pcs t k1 k2 Hi Hc Hr Hres) as (-> & Hk1 & Hst).
  unfold run_task, fetch_task in Hr. destruct (ready_queue k) as [|t' q] eqn:Hq; [done|]. injection Hr as -> <-.
  apply (seminv_status k); try done. cbn. by apply live_insert.
Qed.

Lemma seminv_step {Mem} local (u u' : semst Mem) : seminv inits (ss_k u) (ss_pc u) → sstep local text u u' → seminv inits (ss_k u') (ss_pc u').
Proof.
  intros Hi Hs. destruct Hs; cbn in *.
  - by eapply plain_step.
  - eapply up_step; [done..|]. by apply sem_call_up.
  - eapply down_step; [done..|]. by apply sem_call_down.
  - by eapply spawn_step.
  - by eapply plain_step.
  - by eapply exit_step.
  - by eapply yield_step.
  - unfold check_timer. destruct (si_plain _ _ _ Hi) as (_ & _ & ->). done.
  - by eapply dispatch_step.
Qed.

(** ** What the counts mean *)
Definition waits (k : kst) (i : nat) (t : Z) : bool := bool_decide (t ∈ queue_of k (QS i)).
(** Calls of [semaphore_down] that have returned or will when the thread runs. *)
Definition passed (k : kst) (pcs : gmap Z nat) (i : nat) (t : Z) : nat := (did (is_down i) pcs t - if waits k i t then 1 else 0)%nat.

Lemma waits_did k pcs i t : seminv inits k pcs → waits k i t = true →
  ∃ pc, pcs !! t = Some (S pc) ∧ text t !! pc = Some (SDown i) ∧ (0 < did (is_down i) pcs t)%nat.
Proof.
  intros Hi Hw%bool_decide_eq_true. destruct (si_wait _ _ _ Hi i t Hw) as (pc & Hpc & Hop). exists pc. split_and!; [done|done|].
  unfold did. rewrite Hpc. change (default 0%nat (Some (S pc))) with (S pc). rewrite (cnt_take_S _ _ _ _ Hop). cbn [is_down]. rewrite bool_decide_true by done. lia.
Qed.

Lemma queue_nodup k i : inv k ∅ → NoDup (queue_of k (QS i)).
Proof.
  intros Hk. pose proof (pl_nodup _ (in_placed _ _ Hk)) as Hnd. unfold places, waiters in Hnd.
  do 3 apply NoDup_app in Hnd as (_ & _ & Hnd). apply NoDup_app in Hnd as (Hnd & _ & _). cbn.
  destruct (semaphore_list k !! i) as [o|] eqn:Ho; cbn; [|constructor].
  rewrite <- (take_drop_middle _ _ _ Ho), fmap_app, concat_app in Hnd. apply NoDup_app in Hnd as (_ & _ & Hnd). cbn in Hnd.
  by apply NoDup_app in Hnd as (Hnd & _ & _).
Qed.

(** The calls passed are those made less the waiters: at most the permits, and
    exactly the permits while some thread waits. *)
Lemma passed_total k pcs i n : seminv inits k pcs → inits !! i = Some n →
  (Z.of_nat (sum_list_with (passed k pcs i) threads) ≤ n + Z.of_nat (total (is_up i) pcs)) ∧
  ((∃ t, waits k i t = true) → Z.of_nat (sum_list_with (passed k pcs i) threads) = n + Z.of_nat (total (is_up i) pcs)).
Proof.
  intros Hi Hn. destruct (si_sem _ _ _ Hi i n Hn) as (q & Hs & Hlen).
  assert (queue_of k (QS i) = q) as Hq by (cbn; by rewrite Hs).
  assert (sum_list_with (passed k pcs i) threads + length q = total (is_down i) pcs)%nat as Hsum.
  { rewrite <- (sum_in threads q), <- sum_plus; [|done|rewrite <- Hq; by apply queue_nodup; apply Hi|].
    - apply sum_with_ext. intros t _. unfold passed. cbv beta. destruct (waits k i t) eqn:Hw; cbv beta iota.
      + destruct (waits_did k pcs i t Hi Hw) as (_ & _ & _ & Hpos). apply bool_decide_eq_true in Hw. rewrite Hq in Hw. rewrite decide_True by done. lia.
      + apply bool_decide_eq_false in Hw. rewrite Hq in Hw. rewrite decide_False by done. lia.
    - intros t Ht. rewrite <- Hq in Ht. destruct (si_wait _ _ _ Hi i t Ht) as (pc & _ & Hop). apply Htext. intros He. by rewrite He, lookup_nil in Hop. }
  split; [lia|]. intros [t Hw%bool_decide_eq_true]. rewrite Hq in Hw. destruct q as [|x q]; [by apply elem_of_nil in Hw|].
  assert (0 < length (x :: q))%nat by (cbn; lia). lia.
Qed.

(** A thread that has started and not finished runs, is ready, or waits. *)
Lemma started_place k pcs t pc : seminv inits k pcs → pcs !! t = Some pc → pc ≠ length (text t) →
  current k = Some t ∨ t ∈ ready_queue k ∨ ∃ i, waits k i t = true.
Proof.
  intros Hi Hpc Hne. destruct (status k !! t) eqn:Hst; [|by destruct Hne; eapply Hi].
  assert (t ∈ places k) as Hp by (apply (pl_all _ (in_placed _ _ (si_kern _ _ _ Hi))); by eexists).
  unfold places in Hp. rewrite !elem_of_app in Hp. destruct Hp as [Hp|[Hp|Hp]].
  - left. destruct (current k); [by apply list_elem_of_singleton in Hp as ->|by apply elem_of_nil in Hp].
  - right. by left.
  - right. right. apply waiting_in_queue in Hp as [[m|i|c|] Hq]; cbn in Hq.
    + rewrite (proj1 (si_plain _ _ _ Hi)), lookup_nil in Hq. by apply elem_of_nil in Hq.
    + exists i. by apply bool_decide_eq_true.
    + rewrite (proj1 (proj2 (si_plain _ _ _ Hi))), lookup_nil in Hq. by apply elem_of_nil in Hq.
    + rewrite (proj2 (proj2 (si_plain _ _ _ Hi))) in Hq. by apply elem_of_nil in Hq.
Qed.
End semaphores.

(** ** Running a program on a given schedule *)
Section sexec.
Context {Mem L : Type} (run : Z → L → Mem → Mem) (text : Z → list (sop L)).
Definition sexec1 (c : choice) (u : semst Mem) : option (semst Mem) :=
  let '(mkSt k mm pcs) := u in
  match c with
  | Go _ =>
      t ← current k; pc ← pcs !! t;
      match text t !! pc with
      | Some (SLocal a) => Some (mkSt k (run t a mm) (<[t := S pc]> pcs))
      | Some (SUp i) => k' ← call_ok (sys_semaphore_up (Z.of_nat i) k); Some (mkSt k' mm (<[t := S pc]> pcs))
      | Some (SDown i) => k' ← call_ok (sys_semaphore_down (Z.of_nat i) k); Some (mkSt k' mm (<[t := S pc]> pcs))
      | Some (SSpawn t') =>
          if decide (status k !! t' = None ∧ pcs !! t' = None)
          then Some (mkSt (spawn t' k) mm (<[t' := 0%nat]> (<[t := S pc]> pcs))) else None
      | Some (SWait t') =>
          if decide (is_Some (pcs !! t') ∧ status k !! t' = None) then Some (mkSt k mm (<[t := S pc]> pcs)) else None
      | None => if decide (pc = length (text t)) then k' ← to_option (exit_current k); Some (mkSt k' mm pcs) else None
      end
  | Preempt => _ ← current k; k' ← to_option (suspend_current_and_run_next CReturn k); Some (mkSt k' mm pcs)
  | Tick now => Some (mkSt (check_timer now k) mm pcs)
  | Dispatch => if decide (current k = None) then '(t, k1) ← run_task k; k2 ← to_option (resume t k1); Some (mkSt k2 mm pcs) else None
  end.
Lemma sexec1_sound c u u' : sexec1 c u = Some u' → sstep (λ t a m m', m' = run t a m) text u u'.
Proof.
  destruct u as [k mm pcs], c as [now| |now|]; unfold sexec1.
  - intros (t & Hc & He)%bind_Some. apply bind_Some in He as (pc & Hpc & He). destruct (text t !! pc) as [[a|i|i|t'|t']|] eqn:Hop.
    + injection He as <-. by eapply s_local.
    + apply bind_Some in He as (k' & Hk%call_ok_inv & [= <-]). by eapply s_up.
    + apply bind_Some in He as (k' & Hk%call_ok_inv & [= <-]). by eapply s_down.
    + case_decide as Hd; [|done]. destruct Hd. injection He as <-. by eapply s_spawn.
    + case_decide as Hd; [|done]. destruct Hd. injection He as <-. by eapply s_wait.
    + case_decide; [|done]. subst pc. apply bind_Some in He as (k' & Hk%to_option_inv & [= <-]). by eapply s_exit.
  - intros (t & Hc & He)%bind_Some. apply bind_Some in He as (k' & Hk%to_option_inv & [= <-]). by eapply s_yield.
  - intros [= <-]. apply s_timer.
  - case_decide; [|done]. intros ([t k1] & Hr & He)%bind_Some. apply bind_Some in He as (k2 & Hk%to_option_inv & [= <-]). by eapply s_dispatch.
Qed.

(** The schedule of the kernel without preemption: a thread runs until it
    blocks, exits or has to wait, [fuel] steps in all. *)
Fixpoint srun (fuel : nat) (u : semst Mem) : semst Mem :=
  match fuel with
  | O => u
  | S fuel' =>
      match sexec1 (match current (ss_k u) with Some _ => Go 0 | None => Dispatch end) u with
      | Some u' => srun fuel' u'
      | None => match sexec1 Preempt u with Some u' => srun fuel' u' | None => u end
      end
  end.
Lemma srun_sound fuel u : rtc (sstep (λ t a m m', m' = run t a m) text) u (srun fuel u).
Proof.
  revert u. induction fuel as [|fuel IH]; intros u; cbn [srun]; [apply rtc_refl|].
  destruct (sexec1 _ u) eqn:E; [eapply rtc_l; [by eapply sexec1_sound|apply IH]|].
  destruct (sexec1 Preempt u) eqn:E2; [eapply rtc_l; [by eapply sexec1_sound|apply IH]|apply rtc_refl].
Qed.
End sexec.

Lemma main_running_inv : inv main_running ∅.
Proof. exact (ti_kern _ _ _ (start_tinv (λ _, [] : list (uop ())) 0 true ())). Qed.
