(* ===== verification/Mpsc.v ===== *)
(** * Producers and a consumer (user/src/bin/mpsc_sem.rs)

    Threads that put numbers into a ring buffer and one that prints them, with
    three semaphores of the kernel: one permit for the buffer itself, one for
    each empty slot, one for each number to print.  Texts of Semaphores.v; a
    step between two calls is one access to the memory of the process.  The
    numbers of producers, rounds and slots are parameters; the program has 4,
    100 and 8. *)
From S2P Require Import Prelude Sched SchedSafe Threads Semaphores.

Definition SEM_MUTEX : nat := 0.
Definition SEM_EMPTY : nat := 1.
Definition SEM_AVAIL : nat := 2.
Definition BUFFER_SIZE : nat := 8.
Definition PRODUCER_COUNT : nat := 4.
Definition NUMBER_PER_PRODUCER : nat := 100.

(** [BUFFER[TAIL] = id], and [TAIL = (TAIL + 1) % BUFFER_SIZE] as a load and a
    store; likewise for [print!("{} ", BUFFER[FRONT])] and [FRONT]. *)
Inductive act := Store (id : Z) | LoadTail | StoreTail (id : Z) | Print | LoadFront | StoreFront.
(** [reg]: what a thread has loaded.  [sent] is ghost: the numbers put, in order. *)
Record shared := mkSh { BUFFER : list Z; FRONT : nat; TAIL : nat; reg : gmap Z nat; printed : list Z; sent : list Z }.

Definition producer_body (id : Z) : list (sop act) :=
  [SDown SEM_EMPTY; SDown SEM_MUTEX; SLocal (Store id); SLocal LoadTail; SLocal (StoreTail id); SUp SEM_MUTEX; SUp SEM_AVAIL].
Definition consumer_body : list (sop act) :=
  [SDown SEM_AVAIL; SDown SEM_MUTEX; SLocal Print; SLocal LoadFront; SLocal StoreFront; SUp SEM_MUTEX; SUp SEM_EMPTY].
Definition loop (n : nat) (body : list (sop act)) : list (sop act) := concat (replicate n body).
Definition producer (n : nat) (id : Z) : list (sop act) := loop n (producer_body id).
Definition consumer (m : nat) : list (sop act) := loop m consumer_body.

(** ** Loops *)
Section loops.
Context (body : list (sop act)) (Hb : (0 < length body)%nat).
Lemma length_loop n : length (loop n body) = (length body * n)%nat.
Proof. unfold loop. induction n as [|n IH]; cbn; [lia|]. rewrite length_app, IH. lia. Qed.
Lemma loop_take n q r : (q < n)%nat → (r ≤ length body)%nat →
  take (length body * q + r) (loop n body) = loop q body ++ take r body.
Proof.
  revert q. induction n as [|n IH]; intros q Hq Hr; [lia|]. unfold loop. cbn [replicate concat].
  destruct q as [|q]; cbn [replicate concat].
  - rewrite take_app_le by lia. cbn. f_equal. lia.
  - rewrite take_app_ge by lia. rewrite <- app_assoc. f_equal.
    replace (length body * S q + r - length body)%nat with (length body * q + r)%nat by lia. apply IH; lia.
Qed.
Lemma cnt_loop P n : cnt P (loop n body) = (n * cnt P body)%nat.
Proof. induction n as [|n IH]; [done|]. unfold loop in *. cbn [replicate concat]. rewrite cnt_app, IH. lia. Qed.
Lemma loop_cnt P n pc : (pc ≤ length body * n)%nat →
  cnt P (take pc (loop n body)) = (pc / length body * cnt P body + cnt P (take (pc mod length body) body))%nat.
Proof.
  intros Hpc. pose proof (Nat.div_mod pc (length body) ltac:(lia)) as Hd. pose proof (Nat.mod_upper_bound pc (length body) ltac:(lia)) as Hm.
  destruct (decide (pc = n * length body)%nat) as [->|Hne].
  - rewrite take_ge by (rewrite length_loop; lia). rewrite Nat.div_mul, Nat.Div0.mod_mul, cnt_loop by lia. rewrite take_0. unfold cnt at 3. cbn. lia.
  - rewrite Hd at 1. rewrite loop_take by nia. by rewrite cnt_app, cnt_loop.
Qed.
Lemma loop_at n pc op : loop n body !! pc = Some op → body !! (pc mod length body)%nat = Some op ∧ (pc < length body * n)%nat.
Proof.
  intros Hop. pose proof (lookup_lt_Some _ _ _ Hop) as Hlt. rewrite length_loop in Hlt. split; [|done].
  pose proof (Nat.div_mod pc (length body) ltac:(lia)) as Hd. pose proof (Nat.mod_upper_bound pc (length body) ltac:(lia)) as Hm.
  assert (take (length body * (pc / length body) + S (pc mod length body)) (loop n body) !! pc = Some op) as Ht
    by (rewrite lookup_take_lt by lia; done).
  rewrite loop_take in Ht by nia. rewrite lookup_app_r in Ht by (rewrite length_loop; lia).
  rewrite length_loop, lookup_take_lt in Ht by lia. rewrite <- Ht. f_equal. lia.
Qed.
End loops.

(** ** The program *)
Section mpsc.
Context (np n slots : nat).

Definition CONSUMER : Z := Z.of_nat np + 1.
Definition is_producer (t : Z) : bool := (1 <=? t) && (t <=? Z.of_nat np).
Definition main_text : list (sop act) := (SSpawn <$> seqZ 1 (Z.of_nat np + 1)) ++ (SWait <$> seqZ 1 (Z.of_nat np + 1)).
Definition text (t : Z) : list (sop act) :=
  if t =? 0 then main_text
  else if is_producer t then producer n (t - 1)
  else if t =? CONSUMER then consumer (np * n)
  else [].
Definition threads : list Z := 0 :: seqZ 1 (Z.of_nat np) ++ [CONSUMER].

Definition run (t : Z) (a : act) (m : shared) : shared :=
  match a with
  | Store id => mkSh (<[TAIL m := id]> (BUFFER m)) (FRONT m) (TAIL m) (reg m) (printed m) (sent m)
  | LoadTail => mkSh (BUFFER m) (FRONT m) (TAIL m) (<[t := TAIL m]> (reg m)) (printed m) (sent m)
  | StoreTail id => mkSh (BUFFER m) (FRONT m) ((default 0%nat (reg m !! t) + 1) mod slots) (reg m) (printed m) (sent m ++ [id])
  | Print => mkSh (BUFFER m) (FRONT m) (TAIL m) (reg m) (printed m ++ [default 0 (BUFFER m !! FRONT m)]) (sent m)
  | LoadFront => mkSh (BUFFER m) (FRONT m) (TAIL m) (<[t := FRONT m]> (reg m)) (printed m) (sent m)
  | StoreFront => mkSh (BUFFER m) ((default 0%nat (reg m !! t) + 1) mod slots) (TAIL m) (reg m) (printed m) (sent m)
  end.
Definition mpsc_step : semst shared → semst shared → Prop := sstep (λ t a m m', m' = run t a m) text.

(** [main] up to the first [thread_create]. *)
Definition mpsc_inits : list Z := [1; Z.of_nat slots; 0].
Definition mpsc_start : semst shared :=
  mkSt (foldl (λ k c, (sys_semaphore_create c k).2) main_running mpsc_inits)
    (mkSh (replicate slots 0) 0 0 ∅ [] []) {[0 := 0%nat]}.

(** ** How far a thread is: rounds done and position in the round *)
Definition is_send (op : sop act) : bool := match op with SLocal (StoreTail _) => true | _ => false end.
Definition is_print (op : sop act) : bool := match op with SLocal Print => true | _ => false end.
Definition is_get (op : sop act) : bool := match op with SLocal StoreFront => true | _ => false end.
Definition rnd (pcs : gmap Z nat) (t : Z) : nat := (default 0 (pcs !! t) / 7)%nat.
Definition stg (pcs : gmap Z nat) (t : Z) : nat := (default 0 (pcs !! t) mod 7)%nat.
Definition past (k r : nat) : nat := if (k <=? r)%nat then 1%nat else 0%nat.
Abbreviation did := (Semaphores.did text).
Abbreviation total := (Semaphores.total text threads).

Lemma stg_lt pcs t : (stg pcs t < 7)%nat.
Proof. apply Nat.mod_upper_bound. lia. Qed.

Lemma is_producer_iff t : is_producer t = true ↔ 1 ≤ t ≤ Z.of_nat np.
Proof. unfold is_producer. by rewrite andb_true_iff, !Z.leb_le. Qed.
Lemma text_producer t : is_producer t = true → text t = producer n (t - 1).
Proof. intros Hp. unfold text. rewrite Hp. apply is_producer_iff in Hp. destruct (Z.eqb_spec t 0); [lia|done]. Qed.
Lemma not_producer t : is_producer t = true → t ≠ CONSUMER ∧ t ≠ 0.
Proof. intros Hp%is_producer_iff. unfold CONSUMER. lia. Qed.
Lemma text_consumer : text CONSUMER = consumer (np * n).
Proof.
  unfold text. destruct (Z.eqb_spec CONSUMER 0) as [E|_]; [unfold CONSUMER in E; lia|].
  destruct (is_producer CONSUMER) eqn:E; [by apply not_producer in E as []|]. by rewrite Z.eqb_refl.
Qed.
Lemma thread_kinds t : t ∈ threads ↔ t = 0 ∨ is_producer t = true ∨ t = CONSUMER.
Proof. unfold threads. rewrite is_producer_iff, elem_of_cons, elem_of_app, elem_of_seqZ, list_elem_of_singleton. lia. Qed.
Lemma threads_nodup : NoDup threads.
Proof.
  unfold threads, CONSUMER. apply NoDup_cons. split.
  - rewrite elem_of_app, elem_of_seqZ, list_elem_of_singleton. lia.
  - apply NoDup_app. split_and!; [apply NoDup_seqZ| |apply NoDup_singleton].
    intros x. rewrite elem_of_seqZ, list_elem_of_singleton. lia.
Qed.
Lemma texts_threads t : text t ≠ [] → t ∈ threads.
Proof. intros Ht. apply thread_kinds. unfold text in Ht. destruct (Z.eqb_spec t 0); [by left|].
  destruct (is_producer t); [by right; left|]. destruct (Z.eqb_spec t CONSUMER); [by right; right|done]. Qed.

Ltac body_counts := repeat match goal with
  | |- context [cnt ?P (producer_body ?x)] => let v := eval vm_compute in (cnt P (producer_body 0)) in change (cnt P (producer_body x)) with v
  | |- context [cnt ?P consumer_body] => let v := eval vm_compute in (cnt P consumer_body) in change (cnt P consumer_body) with v
  end.
Ltac stages r := do 7 (destruct r as [|r]; [by vm_compute|]); lia.

Lemma producer_table id r : (r < 7)%nat →
  let c P := cnt P (take r (producer_body id)) in
  c (is_down SEM_EMPTY) = past 1 r ∧ c (is_down SEM_MUTEX) = past 2 r ∧ c is_send = past 5 r ∧ c (is_up SEM_MUTEX) = past 6 r ∧
  c (is_up SEM_AVAIL) = 0%nat ∧ c (is_up SEM_EMPTY) = 0%nat ∧ c (is_down SEM_AVAIL) = 0%nat ∧ c is_print = 0%nat ∧ c is_get = 0%nat.
Proof. intros Hr. stages r. Qed.
Lemma consumer_table r : (r < 7)%nat →
  let c P := cnt P (take r consumer_body) in
  c (is_down SEM_AVAIL) = past 1 r ∧ c (is_down SEM_MUTEX) = past 2 r ∧ c is_print = past 3 r ∧ c is_get = past 5 r ∧
  c (is_up SEM_MUTEX) = past 6 r ∧ c (is_up SEM_EMPTY) = 0%nat ∧ c (is_up SEM_AVAIL) = 0%nat ∧ c (is_down SEM_EMPTY) = 0%nat ∧ c is_send = 0%nat.
Proof. intros Hr. stages r. Qed.

Lemma next_stage pc : ((pc mod 7 < 6)%nat → (S pc mod 7 = S (pc mod 7) ∧ S pc / 7 = pc / 7)%nat) ∧
  ((pc mod 7 = 6)%nat → (S pc mod 7 = 0 ∧ S pc / 7 = S (pc / 7))%nat).
Proof.
  pose proof (Nat.div_mod pc 7 ltac:(lia)) as Hd. pose proof (Nat.mod_upper_bound pc 7 ltac:(lia)) as Hm.
  pose proof (Nat.div_mod (S pc) 7 ltac:(lia)) as Hd'. pose proof (Nat.mod_upper_bound (S pc) 7 ltac:(lia)) as Hm'. lia.
Qed.

Definition pos_ok (pcs : gmap Z nat) : Prop := ∀ t pc, pcs !! t = Some pc → (pc ≤ length (text t))%nat.
Lemma pos_default pcs t : pos_ok pcs → (default 0%nat (pcs !! t) ≤ length (text t))%nat.
Proof. intros H. destruct (pcs !! t) eqn:E; cbn; [by apply H|lia]. Qed.

Section counts.
Context (pcs : gmap Z nat) (Hpos : pos_ok pcs).

Lemma main_did P : (∀ x, P (SSpawn x) = false) → (∀ x, P (SWait x) = false) → did P pcs 0 = 0%nat.
Proof.
  intros H1 H2. unfold did. assert (∀ l, (∀ op, op ∈ l → P op = false) → cnt P l = 0%nat) as Hz.
  { intros l Hl. unfold cnt. destruct (filter_none_all (λ x, P x = true) l) as [-> _]; [|done]. intros op Hop. by rewrite Hl. }
  apply Hz. intros op Hop. assert (op ∈ main_text) as Hin.
  { change (text 0) with main_text in Hop. apply list_elem_of_lookup in Hop as [i Hi]. rewrite lookup_take in Hi. case_decide; [|done]. by eapply list_elem_of_lookup_2. }
  apply elem_of_app in Hin as [(x & -> & _)%list_elem_of_fmap|(x & -> & _)%list_elem_of_fmap]; auto.
Qed.

Lemma producer_did t : is_producer t = true →
  did (is_down SEM_EMPTY) pcs t = (rnd pcs t + past 1 (stg pcs t))%nat ∧ did (is_down SEM_MUTEX) pcs t = (rnd pcs t + past 2 (stg pcs t))%nat ∧
  did is_send pcs t = (rnd pcs t + past 5 (stg pcs t))%nat ∧ did (is_up SEM_MUTEX) pcs t = (rnd pcs t + past 6 (stg pcs t))%nat ∧
  did (is_up SEM_AVAIL) pcs t = rnd pcs t ∧ did (is_up SEM_EMPTY) pcs t = 0%nat ∧ did (is_down SEM_AVAIL) pcs t = 0%nat ∧
  did is_print pcs t = 0%nat ∧ did is_get pcs t = 0%nat.
Proof.
  intros Hp. pose proof (pos_default pcs t Hpos) as Hl. rewrite text_producer in Hl by done. unfold producer in Hl. rewrite length_loop in Hl by (cbn; lia).
  destruct (producer_table (t - 1) (stg pcs t) (stg_lt pcs t)) as (T1 & T2 & T3 & T4 & T5 & T6 & T7 & T8 & T9).
  assert (∀ P, did P pcs t = (rnd pcs t * cnt P (producer_body (t - 1)) + cnt P (take (stg pcs t) (producer_body (t - 1))))%nat) as Hd.
  { intros P. unfold did. rewrite text_producer by done. unfold producer. by rewrite loop_cnt by (done || (cbn; lia)). }
  rewrite !Hd, T1, T2, T3, T4, T5, T6, T7, T8, T9. body_counts. lia.
Qed.
Lemma consumer_did :
  did (is_down SEM_AVAIL) pcs CONSUMER = (rnd pcs CONSUMER + past 1 (stg pcs CONSUMER))%nat ∧ did (is_down SEM_MUTEX) pcs CONSUMER = (rnd pcs CONSUMER + past 2 (stg pcs CONSUMER))%nat ∧
  did is_print pcs CONSUMER = (rnd pcs CONSUMER + past 3 (stg pcs CONSUMER))%nat ∧ did is_get pcs CONSUMER = (rnd pcs CONSUMER + past 5 (stg pcs CONSUMER))%nat ∧
  did (is_up SEM_MUTEX) pcs CONSUMER = (rnd pcs CONSUMER + past 6 (stg pcs CONSUMER))%nat ∧ did (is_up SEM_EMPTY) pcs CONSUMER = rnd pcs CONSUMER ∧
  did (is_up SEM_AVAIL) pcs CONSUMER = 0%nat ∧ did (is_down SEM_EMPTY) pcs CONSUMER = 0%nat ∧ did is_send pcs CONSUMER = 0%nat.
Proof.
  pose proof (pos_default pcs CONSUMER Hpos) as Hl. rewrite text_consumer in Hl. unfold consumer in Hl. rewrite length_loop in Hl by (cbn; lia).
  destruct (consumer_table (stg pcs CONSUMER) (stg_lt pcs CONSUMER)) as (T1 & T2 & T3 & T4 & T5 & T6 & T7 & T8 & T9).
  assert (∀ P, did P pcs CONSUMER = (rnd pcs CONSUMER * cnt P consumer_body + cnt P (take (stg pcs CONSUMER) consumer_body))%nat) as Hd.
  { intros P. unfold did. rewrite text_consumer. unfold consumer. by rewrite loop_cnt by (done || (cbn; lia)). }
  rewrite !Hd, T1, T2, T3, T4, T5, T6, T7, T8, T9. body_counts. lia.
Qed.
Lemma main_counts i : did (is_down i) pcs 0 = 0%nat ∧ did (is_up i) pcs 0 = 0%nat ∧ did is_send pcs 0 = 0%nat ∧ did is_print pcs 0 = 0%nat ∧ did is_get pcs 0 = 0%nat.
Proof. split_and!; by apply main_did. Qed.

(** The operation a worker is at. *)
Lemma producer_op t pc op : is_producer t = true → pcs !! t = Some pc → text t !! pc = Some op → producer_body (t - 1) !! stg pcs t = Some op.
Proof. intros Hp Hpc Hop. rewrite text_producer in Hop by done. apply loop_at in Hop as [Hop _]; [|cbn; lia]. unfold stg. by rewrite Hpc. Qed.
Lemma consumer_op pc op : pcs !! CONSUMER = Some pc → text CONSUMER !! pc = Some op → consumer_body !! stg pcs CONSUMER = Some op.
Proof. intros Hpc Hop. rewrite text_consumer in Hop. apply loop_at in Hop as [Hop _]; [|cbn; lia]. unfold stg. by rewrite Hpc. Qed.
End counts.

(** ** Who waits where, who is in the critical section *)
Abbreviation sinv := (seminv text threads (mpsc_inits)).
Abbreviation passed := (Semaphores.passed text).

Section facts.
Context (k : kst) (pcs : gmap Z nat) (Hi : sinv k pcs).
Lemma sinv_pos : pos_ok pcs.
Proof. exact (si_bound _ _ _ _ _ Hi). Qed.

Lemma waits_where i t : waits k i t = true →
  (is_producer t = true ∧ (i = SEM_EMPTY ∧ stg pcs t = 1 ∨ i = SEM_MUTEX ∧ stg pcs t = 2)%nat) ∨
  (t = CONSUMER ∧ (i = SEM_AVAIL ∧ stg pcs t = 1 ∨ i = SEM_MUTEX ∧ stg pcs t = 2)%nat).
Proof.
  intros Hw. destruct (waits_did text threads mpsc_inits k pcs i t Hi Hw) as (pc & Hpc & Hop & _).
  assert (t ∈ threads) as Ht by (apply texts_threads; intros E; by rewrite E, lookup_nil in Hop).
  unfold stg. rewrite Hpc. change (default 0%nat (Some (S pc))) with (S pc).
  destruct (next_stage pc) as [Hn _]. apply thread_kinds in Ht as [->|[Hp| ->]].
  - exfalso. change (text 0) with main_text in Hop. apply list_elem_of_lookup_2 in Hop.
    apply elem_of_app in Hop as [(x & ? & _)%list_elem_of_fmap|(x & ? & _)%list_elem_of_fmap]; done.
  - left. split; [done|]. rewrite text_producer in Hop by done. apply loop_at in Hop as [Hop _]; [|cbn; lia]. change (length _) with 7%nat in Hop.
    destruct (pc mod 7)%nat as [|[|[|[|[|[|[|r]]]]]]] eqn:Hr; cbn in Hop; try done; injection Hop as <-; rewrite (proj1 (Hn ltac:(lia))); auto.
  - right. split; [done|]. rewrite text_consumer in Hop. apply loop_at in Hop as [Hop _]; [|cbn; lia]. change (length _) with 7%nat in Hop.
    destruct (pc mod 7)%nat as [|[|[|[|[|[|[|r]]]]]]] eqn:Hr; cbn in Hop; try done; injection Hop as <-; rewrite (proj1 (Hn ltac:(lia))); auto.
Qed.

Definition worker (t : Z) : bool := is_producer t || (t =? CONSUMER).
Definition in_cs (t : Z) : bool := worker t && (2 <=? stg pcs t)%nat && (stg pcs t <=? 5)%nat && negb (waits k SEM_MUTEX t).

Lemma worker_kinds t : worker t = true ↔ is_producer t = true ∨ t = CONSUMER.
Proof. unfold worker. by rewrite orb_true_iff, Z.eqb_eq. Qed.
Lemma not_worker_main : worker 0 = false.
Proof. unfold worker. destruct (is_producer 0) eqn:E; [by apply not_producer in E as []|]. destruct (Z.eqb_spec 0 CONSUMER) as [E0|]; [unfold CONSUMER in E0; lia|done]. Qed.

Lemma not_waits i t : stg pcs t ≠ 1%nat → stg pcs t ≠ 2%nat → waits k i t = false.
Proof. intros H1 H2. destruct (waits k i t) eqn:Hw; [|done]. apply waits_where in Hw. naive_solver. Qed.
Lemma not_waits_ne i t : stg pcs t = 1%nat → i = SEM_MUTEX → waits k i t = false.
Proof. intros H1 ->. destruct (waits k SEM_MUTEX t) eqn:Hw; [|done]. apply waits_where in Hw. unfold SEM_MUTEX, SEM_EMPTY, SEM_AVAIL in *. naive_solver lia. Qed.
Lemma not_waits_first i t : stg pcs t = 2%nat → i ≠ SEM_MUTEX → waits k i t = false.
Proof. intros H1 Hne. destruct (waits k i t) eqn:Hw; [|done]. apply waits_where in Hw. naive_solver lia. Qed.

(** Passed calls and calls made, thread by thread. *)
Lemma mutex_balance t : t ∈ threads → passed k pcs SEM_MUTEX t = (did (is_up SEM_MUTEX) pcs t + if in_cs t then 1 else 0)%nat.
Proof.
  intros Ht. unfold Semaphores.passed, in_cs. pose proof (stg_lt pcs t) as Hlt.
  assert (worker t = true → did (is_down SEM_MUTEX) pcs t = (rnd pcs t + past 2 (stg pcs t))%nat ∧ did (is_up SEM_MUTEX) pcs t = (rnd pcs t + past 6 (stg pcs t))%nat) as Hw.
  { intros [Hp| ->]%worker_kinds; [pose proof (producer_did pcs sinv_pos t Hp)|pose proof (consumer_did pcs sinv_pos)]; tauto. }
  apply thread_kinds in Ht as [->|Ht].
  - destruct (main_counts pcs SEM_MUTEX) as (-> & -> & _). rewrite not_worker_main. done.
  - rewrite <- worker_kinds in Ht. destruct (Hw Ht) as [-> ->]. rewrite Ht. cbn [andb]. unfold past.
    destruct (decide (stg pcs t = 2)%nat) as [E|E].
    + rewrite E. cbn. destruct (waits k SEM_MUTEX t); cbn; lia.
    + assert (waits k SEM_MUTEX t = false) as -> by (destruct (decide (stg pcs t = 1)%nat); [by apply not_waits_ne|by apply not_waits]).
      destruct (Nat.leb_spec 2 (stg pcs t)), (Nat.leb_spec (stg pcs t) 5), (Nat.leb_spec 6 (stg pcs t)); cbn; lia.
Qed.

(** Between the two calls of [semaphore_down] a slot, or a number, is reserved. *)
Definition reserved (t : Z) : nat := if (2 <=? stg pcs t)%nat && (stg pcs t <=? 4)%nat then 1%nat else 0%nat.

Lemma empty_balance t : t ∈ threads →
  (did is_send pcs t + (if is_producer t then reserved t else 0) ≤ passed k pcs SEM_EMPTY t)%nat ∧
  (did (is_up SEM_AVAIL) pcs t ≤ did is_send pcs t)%nat.
Proof.
  intros Ht. unfold Semaphores.passed, reserved. pose proof (stg_lt pcs t) as Hlt. apply thread_kinds in Ht as [->|[Hp| ->]].
  - destruct (main_counts pcs SEM_AVAIL) as (_ & -> & -> & _). destruct (is_producer 0) eqn:E; [by apply not_producer in E as []|]. lia.
  - rewrite Hp. destruct (producer_did pcs sinv_pos t Hp) as (-> & _ & -> & _ & -> & _).
    destruct (decide (stg pcs t = 1)%nat) as [E|E]; [rewrite E; cbn; destruct (waits k SEM_EMPTY t); lia|].
    assert (waits k SEM_EMPTY t = false) as -> by (destruct (decide (stg pcs t = 2)%nat); [by apply not_waits_first|by apply not_waits]).
    unfold past. destruct (Nat.leb_spec 1 (stg pcs t)), (Nat.leb_spec 2 (stg pcs t)), (Nat.leb_spec (stg pcs t) 4), (Nat.leb_spec 5 (stg pcs t)); cbn; lia.
  - destruct (is_producer CONSUMER) eqn:E; [by apply not_producer in E as []|].
    destruct (consumer_did pcs sinv_pos) as (_ & _ & _ & _ & _ & _ & -> & _ & ->). lia.
Qed.

Lemma avail_balance t : t ∈ threads →
  (did is_get pcs t + (if (t =? CONSUMER)%Z then reserved t else 0) ≤ passed k pcs SEM_AVAIL t)%nat ∧
  (did (is_up SEM_EMPTY) pcs t ≤ did is_get pcs t)%nat ∧
  (did is_print pcs t ≤ passed k pcs SEM_AVAIL t)%nat ∧ (did is_get pcs t ≤ did is_print pcs t)%nat.
Proof.
  intros Ht. unfold Semaphores.passed, reserved. pose proof (stg_lt pcs t) as Hlt. apply thread_kinds in Ht as [->|[Hp| ->]].
  - destruct (main_counts pcs SEM_EMPTY) as (_ & -> & _ & -> & ->). destruct (Z.eqb_spec 0 CONSUMER) as [E|]; [unfold CONSUMER in E; lia|]. lia.
  - destruct (producer_did pcs sinv_pos t Hp) as (_ & _ & _ & _ & _ & -> & _ & -> & ->).
    destruct (Z.eqb_spec t CONSUMER) as [E|]; [by apply not_producer in Hp as []|]. lia.
  - rewrite Z.eqb_refl. destruct (consumer_did pcs sinv_pos) as (-> & _ & -> & -> & _ & -> & _).
    set (r := stg pcs CONSUMER) in *.
    destruct (decide (r = 1)%nat) as [E|E]; [rewrite E; cbn; destruct (waits k SEM_AVAIL CONSUMER); lia|].
    assert (waits k SEM_AVAIL CONSUMER = false) as -> by (destruct (decide (r = 2)%nat); [by apply not_waits_first|by apply not_waits]).
    unfold past. destruct (Nat.leb_spec 1 r), (Nat.leb_spec 2 r), (Nat.leb_spec 3 r), (Nat.leb_spec r 4), (Nat.leb_spec 5 r); cbn; lia.
Qed.

(** ** What the semaphores guarantee *)
Lemma one_in_cs t t' : in_cs t = true → in_cs t' = true → t = t'.
Proof.
  intros Ht Ht'. assert (∀ x, in_cs x = true → x ∈ threads) as Hin.
  { intros x Hx. apply thread_kinds. right. apply worker_kinds. unfold in_cs in Hx. by destruct (worker x). }
  destruct (passed_total text threads threads_nodup texts_threads mpsc_inits k pcs SEM_MUTEX 1 Hi eq_refl) as [Hle _].
  rewrite (sum_with_ext (passed k pcs SEM_MUTEX) _ threads mutex_balance), sum_plus in Hle. fold (total (is_up SEM_MUTEX) pcs) in Hle.
  destruct (decide (t = t')) as [|Hne]; [done|]. exfalso.
  pose proof (sum_two (λ x, if in_cs x then 1 else 0)%nat threads t t' threads_nodup (Hin t Ht) (Hin t' Ht') Hne) as H2. cbv beta in H2. rewrite Ht, Ht' in H2. lia.
Qed.

Lemma room t : is_producer t = true → (2 ≤ stg pcs t ≤ 4)%nat → (total is_send pcs < slots + total is_get pcs)%nat.
Proof.
  intros Hp Hr. destruct (passed_total text threads threads_nodup texts_threads mpsc_inits k pcs SEM_EMPTY (Z.of_nat slots) Hi eq_refl) as [Hle _].
  assert (total is_send pcs < sum_list_with (passed k pcs SEM_EMPTY) threads)%nat as Hlt.
  { apply (sum_lt _ _ _ t); [apply thread_kinds; by right; left|intros y Hy; destruct (empty_balance y Hy); lia|].
    destruct (empty_balance t) as [H _]; [apply thread_kinds; by right; left|]. rewrite Hp in H. unfold reserved in H.
    rewrite !(proj2 (Nat.leb_le _ _)) in H by lia. cbn in H. lia. }
  assert (total (is_up SEM_EMPTY) pcs ≤ total is_get pcs)%nat by (apply sum_le; intros y Hy; by apply avail_balance). lia.
Qed.
Lemma stock : (2 ≤ stg pcs CONSUMER ≤ 4)%nat → (total is_get pcs < total is_send pcs)%nat.
Proof.
  intros Hr. destruct (passed_total text threads threads_nodup texts_threads mpsc_inits k pcs SEM_AVAIL 0 Hi eq_refl) as [Hle _].
  assert (total is_get pcs < sum_list_with (passed k pcs SEM_AVAIL) threads)%nat as Hlt.
  { apply (sum_lt _ _ _ CONSUMER); [apply thread_kinds; by right; right|intros y Hy; destruct (avail_balance y Hy); lia|].
    destruct (avail_balance CONSUMER) as [H _]; [apply thread_kinds; by right; right|]. rewrite Z.eqb_refl in H. unfold reserved in H.
    rewrite !(proj2 (Nat.leb_le _ _)) in H by lia. cbn in H. lia. }
  assert (total (is_up SEM_AVAIL) pcs ≤ total is_send pcs)%nat by (apply sum_le; intros y Hy; by apply empty_balance). lia.
Qed.
Lemma buffered : (total is_send pcs ≤ slots + total is_get pcs)%nat ∧ (total is_get pcs ≤ total is_print pcs ≤ total is_send pcs)%nat.
Proof.
  destruct (passed_total text threads threads_nodup texts_threads mpsc_inits k pcs SEM_EMPTY (Z.of_nat slots) Hi eq_refl) as [HE _].
  destruct (passed_total text threads threads_nodup texts_threads mpsc_inits k pcs SEM_AVAIL 0 Hi eq_refl) as [HA _].
  assert (total is_send pcs ≤ sum_list_with (passed k pcs SEM_EMPTY) threads)%nat by (apply sum_le; intros y Hy; destruct (empty_balance y Hy); lia).
  assert (total (is_up SEM_EMPTY) pcs ≤ total is_get pcs)%nat by (apply sum_le; intros y Hy; by apply avail_balance).
  assert (total is_print pcs ≤ sum_list_with (passed k pcs SEM_AVAIL) threads)%nat by (apply sum_le; intros y Hy; by apply avail_balance).
  assert (total (is_up SEM_AVAIL) pcs ≤ total is_send pcs)%nat by (apply sum_le; intros y Hy; by apply empty_balance).
  assert (total is_get pcs ≤ total is_print pcs)%nat by (apply sum_le; intros y Hy; by apply avail_balance). lia.
Qed.

(** ** No deadlock *)
Definition quota (t : Z) : nat := if is_producer t then n else 0%nat.
Lemma sum_quota : sum_list_with quota threads = (np * n)%nat.
Proof.
  unfold threads. cbn [sum_list_with]. rewrite sum_list_with_app. cbn [sum_list_with]. unfold quota at 1 3.
  destruct (is_producer 0) eqn:E0; [by apply not_producer in E0 as []|]. destruct (is_producer CONSUMER) eqn:E1; [by apply not_producer in E1 as []|].
  rewrite (sum_with_ext quota (λ _, n)).
  - assert (∀ l : list Z, sum_list_with (λ _, n) l = (length l * n)%nat) as Hc by (intros l; induction l as [|x l IH]; cbn; [done|lia]).
    rewrite Hc, length_seqZ. lia.
  - intros x Hx. apply elem_of_seqZ in Hx. unfold quota. by rewrite (proj2 (is_producer_iff x)) by lia.
Qed.

Lemma finished_stage t : worker t = true → pcs !! t = Some (length (text t)) → stg pcs t = 0%nat ∧ rnd pcs t = if is_producer t then n else (np * n)%nat.
Proof.
  intros Hw Hpc. unfold stg, rnd. rewrite Hpc. change (default 0%nat (Some (length (text t)))) with (length (text t)).
  assert (length (text t) = (if is_producer t then n else np * n) * 7)%nat as ->.
  { apply worker_kinds in Hw as [Hp| ->]; [rewrite Hp, text_producer by done|].
    - unfold producer. rewrite length_loop by (cbn; lia). cbn. lia.
    - destruct (is_producer CONSUMER) eqn:E1; [by apply not_producer in E1 as []|]. rewrite text_consumer. unfold consumer. rewrite length_loop by (cbn; lia). cbn. lia. }
  by rewrite Nat.Div0.mod_mul, Nat.div_mul by lia.
Qed.
Lemma producer_rounds t : is_producer t = true → (rnd pcs t < n ∨ rnd pcs t = n ∧ stg pcs t = 0)%nat.
Proof.
  intros Hp. pose proof (pos_default pcs t sinv_pos) as Hl. rewrite text_producer in Hl by done. unfold producer in Hl. rewrite length_loop in Hl by (cbn; lia).
  change (length _) with 7%nat in Hl. unfold rnd, stg. set (x := default 0%nat (pcs !! t)) in *.
  pose proof (Nat.div_mod x 7 ltac:(lia)). pose proof (Nat.mod_upper_bound x 7 ltac:(lia)). lia.
Qed.
Lemma consumer_rounds : (rnd pcs CONSUMER < np * n ∨ rnd pcs CONSUMER = np * n ∧ stg pcs CONSUMER = 0)%nat.
Proof.
  pose proof (pos_default pcs CONSUMER sinv_pos) as Hl. rewrite text_consumer in Hl. unfold consumer in Hl. rewrite length_loop in Hl by (cbn; lia).
  change (length _) with 7%nat in Hl. unfold rnd, stg. set (x := default 0%nat (pcs !! CONSUMER)) in *.
  pose proof (Nat.div_mod x 7 ltac:(lia)). pose proof (Nat.mod_upper_bound x 7 ltac:(lia)). lia.
Qed.

Section stuck.
Context (Hslots : (0 < slots)%nat) (Hstarted : ∀ t, worker t = true → is_Some (pcs !! t)).
Context (Hno : ∀ t, worker t = true → current k ≠ Some t ∧ t ∉ ready_queue k).

Lemma stuck_cases t : worker t = true → (stg pcs t = 0%nat ∧ rnd pcs t = if is_producer t then n else (np * n)%nat) ∨ ∃ i, waits k i t = true.
Proof.
  intros Hw. destruct (Hstarted t Hw) as [pc Hpc]. destruct (decide (pc = length (text t))) as [->|Hne]; [left; by apply finished_stage|right].
  destruct (started_place text threads mpsc_inits k pcs t pc Hi Hpc Hne) as [Hc|[Hr|Hq]]; [by destruct (Hno t Hw)..|done].
Qed.
Lemma stuck_no_cs t : in_cs t = false.
Proof.
  destruct (in_cs t) eqn:Ht; [|done]. exfalso. unfold in_cs in Ht. rewrite !andb_true_iff, !Nat.leb_le, negb_true_iff in Ht. destruct Ht as (((Hw & H2) & H5) & Hm).
  destruct (stuck_cases t Hw) as [[H0 _]|[i Hq]]; [lia|]. pose proof (waits_where i t Hq) as Hwh. destruct (decide (i = SEM_MUTEX)) as [->|Hne]; [congruence|].
  destruct Hwh as [[_ [[_ ?]|[? _]]]|[_ [[_ ?]|[? _]]]]; try done; lia.
Qed.
Lemma stuck_no_mutex t : waits k SEM_MUTEX t = false.
Proof.
  destruct (waits k SEM_MUTEX t) eqn:Hq; [|done]. exfalso.
  destruct (passed_total text threads threads_nodup texts_threads mpsc_inits k pcs SEM_MUTEX 1 Hi eq_refl) as [_ He]. specialize (He (ex_intro _ t Hq)).
  rewrite (sum_with_ext _ (did (is_up SEM_MUTEX) pcs)) in He; [unfold Semaphores.total in He; lia|].
  intros x Hx. rewrite (mutex_balance x Hx), stuck_no_cs. lia.
Qed.
Lemma stuck_worker t : worker t = true →
  (stg pcs t = 0%nat ∧ rnd pcs t = if is_producer t then n else (np * n)%nat) ∨
  (stg pcs t = 1%nat ∧ waits k (if is_producer t then SEM_EMPTY else SEM_AVAIL) t = true).
Proof.
  intros Hw. destruct (stuck_cases t Hw) as [H|[i Hq]]; [by left|right]. pose proof Hq as Hq'. apply waits_where in Hq as [[Hp Hc]|[-> Hc]].
  - rewrite Hp. destruct Hc as [[-> ?]|[-> ?]]; [done|by rewrite stuck_no_mutex in Hq'].
  - destruct (is_producer CONSUMER) eqn:E1; [by apply not_producer in E1 as []|]. destruct Hc as [[-> ?]|[-> ?]]; [done|by rewrite stuck_no_mutex in Hq'].
Qed.

Lemma stuck_sums : sum_list_with (passed k pcs SEM_EMPTY) threads = total is_send pcs ∧ total (is_up SEM_AVAIL) pcs = total is_send pcs ∧
  sum_list_with (passed k pcs SEM_AVAIL) threads = total is_get pcs ∧ total (is_up SEM_EMPTY) pcs = total is_get pcs ∧ total is_get pcs = rnd pcs CONSUMER.
Proof.
  assert (∀ t, t ∈ threads → passed k pcs SEM_EMPTY t = did is_send pcs t ∧ did (is_up SEM_AVAIL) pcs t = did is_send pcs t ∧
    passed k pcs SEM_AVAIL t = did is_get pcs t ∧ did (is_up SEM_EMPTY) pcs t = did is_get pcs t ∧
    did is_get pcs t = if (t =? CONSUMER) then rnd pcs t else 0%nat) as Hall.
  { intros t Ht. unfold Semaphores.passed. apply thread_kinds in Ht as [->|[Hp| ->]].
    - destruct (main_counts pcs SEM_EMPTY) as (-> & -> & -> & _ & ->). destruct (main_counts pcs SEM_AVAIL) as (-> & -> & _).
      destruct (Z.eqb_spec 0 CONSUMER) as [E|]; [unfold CONSUMER in E; lia|]. lia.
    - destruct (producer_did pcs sinv_pos t Hp) as (-> & _ & -> & _ & -> & -> & -> & _ & ->).
      destruct (Z.eqb_spec t CONSUMER) as [E|]; [by apply not_producer in Hp as []|].
      destruct (stuck_worker t) as [[Hs _]|[Hs Hq]]; [apply worker_kinds; by left|rewrite Hs..]; cbn; [|rewrite Hp in Hq; rewrite Hq; lia].
      rewrite (not_waits SEM_EMPTY t) by lia. lia.
    - destruct (consumer_did pcs sinv_pos) as (-> & _ & _ & -> & _ & -> & -> & -> & ->). rewrite Z.eqb_refl.
      destruct (is_producer CONSUMER) eqn:E1; [by apply not_producer in E1 as []|].
      destruct (stuck_worker CONSUMER) as [[Hs _]|[Hs Hq]]; [apply worker_kinds; by right|rewrite Hs..]; cbn; [|rewrite E1 in Hq; rewrite Hq; lia].
      rewrite (not_waits SEM_AVAIL CONSUMER) by lia. lia. }
  split_and!; try (apply sum_with_ext; intros t Ht; by apply Hall).
  unfold Semaphores.total. rewrite (sum_with_ext _ (λ t, if decide (t ∈ [CONSUMER]) then rnd pcs CONSUMER else 0%nat)).
  - rewrite (sum_change (λ _, 0%nat) _ threads CONSUMER (rnd pcs CONSUMER)).
    + assert (∀ l : list Z, sum_list_with (λ _, 0%nat) l = 0%nat) as Hz by (intros l; induction l; done). rewrite Hz. lia.
    + apply threads_nodup.
    + apply thread_kinds. by right; right.
    + intros y _ Hne. rewrite decide_False; [done|]. by intros ->%list_elem_of_singleton.
    + by rewrite decide_True by (by left).
  - intros t Ht. destruct (Hall t Ht) as (_ & _ & _ & _ & ->). destruct (Z.eqb_spec t CONSUMER) as [->|Hne]; [by rewrite decide_True by (by left)|].
    rewrite decide_False; [done|]. by intros ->%list_elem_of_singleton.
Qed.

Lemma sends_quota t : t ∈ threads → (did is_send pcs t ≤ quota t)%nat.
Proof.
  intros Ht. unfold quota. apply thread_kinds in Ht as [->|[Hp| ->]].
  - destruct (main_counts pcs 0) as (_ & _ & -> & _). lia.
  - rewrite Hp. destruct (producer_did pcs sinv_pos t Hp) as (_ & _ & -> & _). unfold past.
    destruct (producer_rounds t Hp) as [|[? Hs]], (Nat.leb_spec 5 (stg pcs t)); lia.
  - destruct (consumer_did pcs sinv_pos) as (_ & _ & _ & _ & _ & _ & _ & _ & ->). lia.
Qed.

Lemma stuck_nobody_waits i t : waits k i t = false.
Proof.
  destruct (waits k i t) eqn:Hq; [exfalso|done].
  destruct stuck_sums as (HE & HuA & HA & HuE & HC).
  destruct (passed_total text threads threads_nodup texts_threads mpsc_inits k pcs SEM_EMPTY (Z.of_nat slots) Hi eq_refl) as [_ HeE].
  destruct (passed_total text threads threads_nodup texts_threads mpsc_inits k pcs SEM_AVAIL 0 Hi eq_refl) as [_ HeA].
  assert (worker CONSUMER = true) as HwC by (apply worker_kinds; by right).
  destruct (is_producer CONSUMER) eqn:E1; [by apply not_producer in E1 as []|].
  assert (∀ x, is_producer x = true → waits k SEM_EMPTY x = true → False) as Hnop.
  { intros x Hp Hx. specialize (HeE (ex_intro _ x Hx)). destruct (stuck_worker CONSUMER HwC) as [[_ HrC]|[HsC HqC]]; rewrite E1 in *.
    - assert (total is_send pcs ≤ np * n)%nat by (rewrite <- sum_quota; apply sum_le, sends_quota). lia.
    - specialize (HeA (ex_intro _ CONSUMER HqC)). lia. }
  assert (waits k SEM_AVAIL CONSUMER = true → False) as Hnoc.
  { intros Hx. specialize (HeA (ex_intro _ CONSUMER Hx)).
    assert (total is_send pcs = np * n)%nat as Hall.
    { rewrite <- sum_quota. apply sum_with_ext. intros x Hin. unfold quota. apply thread_kinds in Hin as [->|[Hp| ->]].
      - destruct (main_counts pcs 0) as (_ & _ & -> & _). by destruct (is_producer 0) eqn:E0; [apply not_producer in E0 as []|].
      - rewrite Hp. destruct (producer_did pcs sinv_pos x Hp) as (_ & _ & -> & _).
        destruct (stuck_worker x) as [[Hs Hr]|[_ Hqx]]; [apply worker_kinds; by left| |by rewrite Hp in Hqx; destruct (Hnop x Hp Hqx)].
        rewrite Hp in Hr. rewrite Hs, Hr. cbn. lia.
      - rewrite E1. by destruct (consumer_did pcs sinv_pos) as (_ & _ & _ & _ & _ & _ & _ & _ & ->). }
    destruct (stuck_worker CONSUMER HwC) as [[Hs _]|[Hs _]]; [by rewrite (not_waits SEM_AVAIL CONSUMER) in Hx by lia|].
    destruct consumer_rounds as [|[_ ?]]; lia. }
  pose proof Hq as Hq'. apply waits_where in Hq as [[Hp [[-> ?]|[-> ?]]]|[-> [[-> ?]|[-> ?]]]].
  - by apply (Hnop t Hp).
  - by rewrite stuck_no_mutex in Hq'.
  - by apply Hnoc.
  - by rewrite stuck_no_mutex in Hq'.
Qed.
Lemma stuck_finished t : worker t = true → pcs !! t = Some (length (text t)).
Proof.
  intros Hw. destruct (Hstarted t Hw) as [pc Hpc]. destruct (decide (pc = length (text t))) as [->|Hne]; [done|].
  destruct (started_place text threads mpsc_inits k pcs t pc Hi Hpc Hne) as [Hc|[Hr|[i Hq]]]; [by destruct (Hno t Hw)..|].
  by rewrite stuck_nobody_waits in Hq.
Qed.
End stuck.
End facts.

(** ** The buffer *)
Definition of_id (id x : Z) : bool := bool_decide (x = id).
Record minv (m : shared) (pcs : gmap Z nat) : Prop := {
  mm_len : length (BUFFER m) = slots;
  mm_sent : length (sent m) = total is_send pcs;
  mm_out : length (printed m) = total is_print pcs;
  mm_tail : TAIL m = (total is_send pcs mod slots)%nat;
  mm_front : FRONT m = (total is_get pcs mod slots)%nat;
  mm_data : ∀ i x, (total is_get pcs ≤ i)%nat → sent m !! i = Some x → BUFFER m !! (i mod slots)%nat = Some x;
  mm_prefix : printed m `prefix_of` sent m;
  mm_slot : ∀ t, is_producer t = true → (3 ≤ stg pcs t ≤ 4)%nat → BUFFER m !! TAIL m = Some (t - 1);
  mm_regp : ∀ t, is_producer t = true → stg pcs t = 4%nat → reg m !! t = Some (TAIL m);
  mm_regc : stg pcs CONSUMER = 4%nat → reg m !! CONSUMER = Some (FRONT m);
  mm_count : ∀ t, is_producer t = true → cnt (of_id (t - 1)) (sent m) = did is_send pcs t;
}.

Lemma advance_at pcs t pc op : pcs !! t = Some pc → text t !! pc = Some op →
  let pcs' := <[t := S pc]> pcs in
  (∀ P, total P pcs' = (total P pcs + if P op then 1 else 0)%nat) ∧ (∀ P, did P pcs' t = (did P pcs t + if P op then 1 else 0)%nat) ∧
  (∀ P x, x ≠ t → did P pcs' x = did P pcs x) ∧ (∀ x, x ≠ t → stg pcs' x = stg pcs x) ∧
  ((stg pcs t < 6)%nat → stg pcs' t = S (stg pcs t)) ∧ (stg pcs t = 6%nat → stg pcs' t = 0%nat).
Proof.
  intros Hpc Hop pcs'. split_and!.
  - intros P. by apply total_advance; [apply threads_nodup|apply texts_threads|..].
  - intros P. by apply did_advance.
  - intros P x Hx. by eapply did_advance.
  - intros x Hx. unfold stg, pcs'. by rewrite lookup_insert_ne.
  - unfold stg, pcs'. rewrite lookup_insert_eq, Hpc. cbn [default from_option id]. intros Hs. by apply next_stage.
  - unfold stg, pcs'. rewrite lookup_insert_eq, Hpc. cbn [default from_option id]. intros Hs. by apply next_stage.
Qed.

(** A step that is no access to the buffer. *)
Lemma minv_same m pcs pcs' : minv m pcs →
  (∀ P x, P = is_send ∨ P = is_print ∨ P = is_get → did P pcs' x = did P pcs x) →
  (∀ t, worker t = true → (3 ≤ stg pcs' t ≤ 4)%nat → stg pcs' t = stg pcs t) → minv m pcs'.
Proof.
  intros [M1 M2 M3 M4 M5 M6 M7 M8 M9 M10 M11] Hd Hs.
  assert (∀ P, P = is_send ∨ P = is_print ∨ P = is_get → total P pcs' = total P pcs) as Ht by (intros P HP; apply sum_with_ext; intros x _; by apply Hd).
  split; rewrite ?(Ht is_send), ?(Ht is_print), ?(Ht is_get) by auto; try done.
  - intros t Hp Hst. apply M8; [done|]. by rewrite <- Hs by (done || by apply worker_kinds; left).
  - intros t Hp Hst. apply M9; [done|]. by rewrite <- Hs by (lia || by apply worker_kinds; left).
  - intros Hst. apply M10. by rewrite <- Hs by (lia || by apply worker_kinds; right).
  - intros t Hp. rewrite (Hd is_send t) by auto. by apply M11.
Qed.

Section local_steps.
Context (k : kst) (pcs : gmap Z nat) (m : shared) (t : Z) (pc : nat).
Context (Hi : sinv k pcs) (Hm : minv m pcs) (Hc : current k = Some t) (Hpc : pcs !! t = Some pc) (Hslots : (0 < slots)%nat).

Lemma running_free i : waits k i t = false.
Proof.
  apply bool_decide_eq_false. intros Hq. apply (running_waits text threads mpsc_inits k pcs t Hi Hc), waiting_in_queue. by exists (QS i).
Qed.
(** While [t] is in the critical section no other worker is in the middle of an access. *)
Lemma others_out x : worker t = true → (2 ≤ stg pcs t ≤ 5)%nat → worker x = true → x ≠ t → ¬ (3 ≤ stg pcs x ≤ 4)%nat.
Proof.
  intros Hw Hs Hx Hne Hsx. apply Hne. apply (one_in_cs k pcs Hi); unfold in_cs.
  - rewrite Hx, (not_waits k pcs Hi SEM_MUTEX x) by lia. by rewrite !(proj2 (Nat.leb_le _ _)) by lia.
  - rewrite Hw, running_free. by rewrite !(proj2 (Nat.leb_le _ _)) by lia.
Qed.
Lemma worker_producer x : is_producer x = true → worker x = true.
Proof. intros Hp. apply worker_kinds. by left. Qed.
Lemma worker_consumer : worker CONSUMER = true.
Proof. apply worker_kinds. by right. Qed.

Lemma mod_ne a b : (a < b)%nat → (b < a + slots)%nat → (a mod slots ≠ b mod slots)%nat.
Proof.
  intros H1 H2 He. pose proof (Nat.div_mod a slots ltac:(lia)). pose proof (Nat.div_mod b slots ltac:(lia)).
  assert (slots * (b / slots - a / slots) = b - a)%nat by nia. destruct (b / slots - a / slots)%nat; nia.
Qed.
Lemma mod_S a : ((a mod slots + 1) mod slots = (a + 1) mod slots)%nat.
Proof. by rewrite Nat.Div0.add_mod_idemp_l. Qed.

Lemma store_step : is_producer t = true → stg pcs t = 2%nat → text t !! pc = Some (SLocal (Store (t - 1))) →
  minv (run t (Store (t - 1)) m) (<[t := S pc]> pcs).
Proof.
  intros Hp Hs Hop. destruct (advance_at pcs t pc _ Hpc Hop) as (Ht & Hd & Hdo & Hso & Hst & _). specialize (Hst ltac:(lia)).
  pose proof (room k pcs Hi t Hp ltac:(lia)) as Hroom. destruct Hm as [M1 M2 M3 M4 M5 M6 M7 M8 M9 M10 M11].
  assert (TAIL m < slots)%nat as Htl by (rewrite M4; apply Nat.mod_upper_bound; lia).
  split; cbn [run BUFFER FRONT TAIL reg printed sent]; rewrite ?Ht; cbn [is_send is_print is_get]; rewrite ?Nat.add_0_r; try done.
  - by rewrite length_insert.
  - intros i x Hgi Hx. rewrite list_lookup_insert_ne; [by apply M6|]. rewrite M4. apply lookup_lt_Some in Hx. intros He. symmetry in He. revert He. apply mod_ne; lia.
  - intros x Hx Hsx. destruct (decide (x = t)) as [->|Hne]; [apply list_lookup_insert_eq; lia|].
    rewrite Hso in Hsx by done. by destruct (others_out x (worker_producer t Hp) ltac:(lia) (worker_producer x Hx) Hne).
  - intros x Hx Hsx. destruct (decide (x = t)) as [->|Hne]; [lia|]. rewrite Hso in Hsx by done. by apply M9.
  - intros Hsx. destruct (decide (CONSUMER = t)) as [<-|Hne]; [lia|]. rewrite Hso in Hsx by done. by apply M10.
  - intros x Hx. destruct (decide (x = t)) as [->|Hne]; [rewrite Hd|rewrite Hdo by done]; cbn [is_send]; rewrite ?Nat.add_0_r; by apply M11.
Qed.

Ltac access := split; cbn [run BUFFER FRONT TAIL reg printed sent];
  repeat match goal with H : ∀ P, total P _ = _ |- _ => rewrite ?H end; cbn [is_send is_print is_get]; rewrite ?Nat.add_0_r; try done.

Lemma load_tail_step : is_producer t = true → stg pcs t = 3%nat → text t !! pc = Some (SLocal LoadTail) →
  minv (run t LoadTail m) (<[t := S pc]> pcs).
Proof.
  intros Hp Hs Hop. destruct (advance_at pcs t pc _ Hpc Hop) as (Ht & Hd & Hdo & Hso & Hst & _). specialize (Hst ltac:(lia)).
  destruct Hm as [M1 M2 M3 M4 M5 M6 M7 M8 M9 M10 M11]. destruct (not_producer t Hp) as [Hnc _]. access.
  - intros x Hx Hsx. destruct (decide (x = t)) as [->|Hne]; [apply M8; [done|lia]|].
    rewrite Hso in Hsx by done. by apply M8.
  - intros x Hx Hsx. destruct (decide (x = t)) as [->|Hne]; [apply lookup_insert_eq|]. rewrite Hso in Hsx by done. rewrite lookup_insert_ne by done. by apply M9.
  - intros Hsx. rewrite Hso in Hsx by done. rewrite lookup_insert_ne by done. by apply M10.
  - intros x Hx. destruct (decide (x = t)) as [->|Hne]; [rewrite Hd|rewrite Hdo by done]; cbn [is_send]; rewrite ?Nat.add_0_r; by apply M11.
Qed.

Lemma send_step : is_producer t = true → stg pcs t = 4%nat → text t !! pc = Some (SLocal (StoreTail (t - 1))) →
  minv (run t (StoreTail (t - 1)) m) (<[t := S pc]> pcs).
Proof.
  intros Hp Hs Hop. destruct (advance_at pcs t pc _ Hpc Hop) as (Ht & Hd & Hdo & Hso & Hst & _). specialize (Hst ltac:(lia)).
  destruct Hm as [M1 M2 M3 M4 M5 M6 M7 M8 M9 M10 M11]. destruct (not_producer t Hp) as [Hnc _]. access.
  - rewrite length_app, M2. done.
  - rewrite (M9 t Hp Hs). cbn [default from_option id]. rewrite M4. apply mod_S.
  - intros i x Hgi Hx. apply lookup_app_Some in Hx as [Hx|[Hge Hx]]; [by apply M6|].
    apply list_lookup_singleton_Some in Hx as [He <-]. assert (i = total is_send pcs) as -> by lia. rewrite <- M4. apply M8; [done|lia].
  - by apply prefix_app_r.
  - intros x Hx Hsx. destruct (decide (x = t)) as [->|Hne]; [lia|]. rewrite Hso in Hsx by done.
    by destruct (others_out x (worker_producer t Hp) ltac:(lia) (worker_producer x Hx) Hne).
  - intros x Hx Hsx. destruct (decide (x = t)) as [->|Hne]; [lia|]. rewrite Hso in Hsx by done.
    destruct (others_out x (worker_producer t Hp) ltac:(lia) (worker_producer x Hx) Hne). lia.
  - intros Hsx. rewrite Hso in Hsx by done. by apply M10.
  - intros x Hx. rewrite cnt_app, (M11 x Hx). unfold cnt, of_id. rewrite filter_cons.
    destruct (decide (x = t)) as [->|Hne]; [rewrite Hd, bool_decide_true, decide_True by done; done|].
    rewrite Hdo by done. rewrite bool_decide_false, decide_False by (done || lia). cbn. lia.
Qed.

Lemma print_step : t = CONSUMER → stg pcs t = 2%nat → text t !! pc = Some (SLocal Print) →
  minv (run t Print m) (<[t := S pc]> pcs).
Proof.
  intros -> Hs Hop. destruct (advance_at pcs CONSUMER pc _ Hpc Hop) as (Ht & Hd & Hdo & Hso & Hst & _). specialize (Hst ltac:(lia)).
  pose proof (stock k pcs Hi ltac:(lia)) as Hstock. destruct Hm as [M1 M2 M3 M4 M5 M6 M7 M8 M9 M10 M11].
  assert (total is_print pcs = total is_get pcs) as Heq.
  { apply sum_with_ext. intros x Hx. apply thread_kinds in Hx as [->|[Hx| ->]].
    - by destruct (main_counts pcs 0) as (_ & _ & _ & -> & ->).
    - by destruct (producer_did pcs (sinv_pos k pcs Hi) x Hx) as (_ & _ & _ & _ & _ & _ & _ & -> & ->).
    - destruct (consumer_did pcs (sinv_pos k pcs Hi)) as (_ & _ & -> & -> & _). by rewrite Hs. }
  access.
  - by rewrite length_app, M3.
  - destruct (lookup_lt_is_Some_2 (sent m) (total is_get pcs)) as [x Hx]; [lia|].
    rewrite M5, (M6 _ _ (le_n _) Hx). cbn [default from_option id]. destruct M7 as [rest Hrest]. rewrite Hrest in Hx |- *.
    rewrite lookup_app_r in Hx by lia. rewrite M3, Heq, Nat.sub_diag in Hx. destruct rest as [|y rest]; [done|]. injection Hx as ->.
    exists rest. by rewrite <- app_assoc.
  - intros x Hx Hsx. rewrite Hso in Hsx by (by apply not_producer). by apply M8.
  - intros x Hx Hsx. rewrite Hso in Hsx by (by apply not_producer). by apply M9.
  - intros Hsx. lia.
  - intros x Hx. rewrite Hdo by (by apply not_producer). by apply M11.
Qed.

Lemma load_front_step : t = CONSUMER → stg pcs t = 3%nat → text t !! pc = Some (SLocal LoadFront) →
  minv (run t LoadFront m) (<[t := S pc]> pcs).
Proof.
  intros -> Hs Hop. destruct (advance_at pcs CONSUMER pc _ Hpc Hop) as (Ht & Hd & Hdo & Hso & Hst & _). specialize (Hst ltac:(lia)).
  destruct Hm as [M1 M2 M3 M4 M5 M6 M7 M8 M9 M10 M11]. access.
  - intros x Hx Hsx. rewrite Hso in Hsx by (by apply not_producer). by apply M8.
  - intros x Hx Hsx. destruct (not_producer x Hx) as [Hne _]. rewrite Hso in Hsx by done. rewrite lookup_insert_ne by done. by apply M9.
  - intros Hsx. apply lookup_insert_eq.
  - intros x Hx. rewrite Hdo by (by apply not_producer). by apply M11.
Qed.

Lemma store_front_step : t = CONSUMER → stg pcs t = 4%nat → text t !! pc = Some (SLocal StoreFront) →
  minv (run t StoreFront m) (<[t := S pc]> pcs).
Proof.
  intros -> Hs Hop. destruct (advance_at pcs CONSUMER pc _ Hpc Hop) as (Ht & Hd & Hdo & Hso & Hst & _). specialize (Hst ltac:(lia)).
  destruct Hm as [M1 M2 M3 M4 M5 M6 M7 M8 M9 M10 M11]. access.
  - rewrite (M10 Hs). cbn [default from_option id]. rewrite M5. apply mod_S.
  - intros i x Hgi Hx. apply M6; [lia|done].
  - intros x Hx Hsx. rewrite Hso in Hsx by (by apply not_producer). by apply M8.
  - intros x Hx Hsx. rewrite Hso in Hsx by (by apply not_producer). by apply M9.
  - lia.
  - intros x Hx. rewrite Hdo by (by apply not_producer). by apply M11.
Qed.
End local_steps.

Context (Hslots : (0 < slots)%nat).
Definition plain_op (op : sop act) : Prop := match op with SLocal _ => False | _ => True end.

Lemma main_plain op : op ∈ main_text → plain_op op.
Proof. intros [(x & -> & _)%list_elem_of_fmap|(x & -> & _)%list_elem_of_fmap]%elem_of_app; done. Qed.

(** The accesses, each at its place in the round. *)
Lemma access_step k pcs m t pc a : sinv k pcs → minv m pcs → current k = Some t → pcs !! t = Some pc → text t !! pc = Some (SLocal a) →
  minv (run t a m) (<[t := S pc]> pcs).
Proof.
  intros Hi Hm Hc Hpc Hop. assert (t ∈ threads) as Ht by (apply texts_threads; intros E; by rewrite E, lookup_nil in Hop).
  apply thread_kinds in Ht as [->|[Hp| ->]].
  - by apply list_elem_of_lookup_2, main_plain in Hop.
  - pose proof (producer_op pcs t pc _ Hp Hpc Hop) as Hb.
    destruct (stg pcs t) as [|[|[|[|[|[|[|r]]]]]]] eqn:Hs; cbn in Hb; try done; injection Hb as <-;
      [by eapply store_step|by eapply load_tail_step|by eapply send_step].
  - pose proof (consumer_op pcs pc _ Hpc Hop) as Hb.
    destruct (stg pcs CONSUMER) as [|[|[|[|[|[|[|r]]]]]]] eqn:Hs; cbn in Hb; try done; injection Hb as <-;
      [by eapply print_step|by eapply load_front_step|by eapply store_front_step].
Qed.

Lemma plain_access m pcs t pc op : minv m pcs → pcs !! t = Some pc → text t !! pc = Some op → plain_op op → minv m (<[t := S pc]> pcs).
Proof.
  intros Hm Hpc Hop Hpl. destruct (advance_at pcs t pc op Hpc Hop) as (_ & Hd & Hdo & Hso & Hst & Hs6). apply (minv_same m pcs); [done|..].
  - intros P x HP. destruct (decide (x = t)) as [->|Hne]; [|by apply Hdo]. rewrite Hd.
    assert (P op = false) as -> by (destruct op, HP as [->|[->| ->]]; done). lia.
  - intros x Hw Hsx. destruct (decide (x = t)) as [->|Hne]; [|by apply Hso]. exfalso. pose proof (stg_lt pcs t).
    assert (stg pcs t = 2 ∨ stg pcs t = 3)%nat as Hold by (destruct (decide (stg pcs t = 6)%nat); [rewrite Hs6 in Hsx by done|rewrite Hst in Hsx by lia]; lia).
    apply worker_kinds in Hw as [Hp| ->]; [pose proof (producer_op pcs t pc op Hp Hpc Hop) as Hb|pose proof (consumer_op pcs pc op Hpc Hop) as Hb];
      destruct Hold as [E|E]; rewrite E in Hb; injection Hb as <-; done.
Qed.

Lemma minv_step u u' : sinv (ss_k u) (ss_pc u) → minv (ss_mem u) (ss_pc u) → mpsc_step u u' → minv (ss_mem u') (ss_pc u').
Proof.
  intros Hi Hm Hs. destruct Hs as [k mm pcs t pc a mm' Hc Hpc Hop ->|k mm pcs t pc i k' Hc Hpc Hop _|k mm pcs t pc i k' Hc Hpc Hop _|
    k mm pcs t pc t' Hc Hpc Hop Hst Hnew|k mm pcs t pc t' Hc Hpc Hop _ _|k mm pcs t k' Hc Hpc _|k mm pcs t k' _ _|k mm pcs now|k mm pcs t k1 k2 _ _ _]; cbn in *; try done.
  - by eapply access_step.
  - by eapply plain_access.
  - by eapply plain_access.
  - apply (minv_same mm (<[t := S pc]> pcs)); [by eapply plain_access|..].
    + intros P x _. apply did_spawn. rewrite lookup_insert_ne by congruence. done.
    + intros x _ Hsx. unfold stg in *. destruct (decide (x = t')) as [->|Hne]; [rewrite lookup_insert_eq in Hsx; cbn in Hsx; lia|by rewrite !(lookup_insert_ne _ t') by done].
  - by eapply plain_access.
Qed.

(** ** From the start *)
Context (Hslots2 : Z.of_nat slots < 2 ^ 61) (Hsize : Z.of_nat (2 * (np + 1) + 14 * (np * n)) < 2 ^ 61).

Lemma texts_small : Z.of_nat (sum_list_with (λ t, length (text t)) threads) < 2 ^ 61.
Proof.
  assert (sum_list_with (λ t, length (text t)) threads = 2 * (np + 1) + 14 * (np * n))%nat as ->; [|done].
  unfold threads. cbn [sum_list_with]. rewrite sum_list_with_app. cbn [sum_list_with].
  rewrite (sum_with_ext (λ t, length (text t)) (λ t, 7 * quota t)%nat (seqZ 1 (Z.of_nat np))).
  2: { intros x Hx. apply elem_of_seqZ in Hx. assert (is_producer x = true) as Hp by (apply is_producer_iff; lia).
       rewrite text_producer by done. unfold producer, quota. rewrite length_loop, Hp by (cbn; lia). done. }
  assert (∀ l : list Z, sum_list_with (λ t, 7 * quota t)%nat l = 7 * sum_list_with quota l)%nat as H7 by (intros l; induction l as [|x l IH]; cbn [sum_list_with]; [done|lia]).
  pose proof sum_quota as Hq. unfold threads in Hq. cbn [sum_list_with] in Hq. rewrite sum_list_with_app in Hq. cbn [sum_list_with] in Hq.
  assert (quota 0 = 0%nat) as Hq0 by (unfold quota; destruct (is_producer 0) eqn:E; [by apply not_producer in E as []|done]).
  assert (quota CONSUMER = 0%nat) as Hqc by (unfold quota; destruct (is_producer CONSUMER) eqn:E; [by apply not_producer in E as []|done]).
  change (text 0) with main_text. unfold main_text. rewrite H7, text_consumer, length_app, !length_fmap, length_seqZ. unfold consumer.
  rewrite length_loop by (cbn; lia). change (length consumer_body) with 7%nat. lia.
Qed.

Lemma total_start P : total P {[0 := 0%nat]} = 0%nat.
Proof.
  unfold Semaphores.total. rewrite (sum_with_ext _ (λ _, 0%nat)); [induction threads; done|]. intros t _. unfold did.
  destruct (decide (t = 0)) as [->|Hne]; [by rewrite lookup_singleton_eq|by rewrite lookup_singleton_ne].
Qed.

Lemma start_sinv : sinv (ss_k mpsc_start) (ss_pc mpsc_start).
Proof.
  assert (Forall (λ c, 0 ≤ c < 2 ^ 61) mpsc_inits) as Hin by (repeat constructor; lia).
  cbn [ss_k ss_pc mpsc_start]. split.
  - unfold mpsc_inits. cbn [foldl]. repeat apply inv_sem_create. apply main_running_inv.
  - done.
  - intros i c Hc. exists []. cbv zeta. rewrite !total_start, Z.add_0_r, Z.sub_0_r.
    assert (semaphore_list (foldl (λ k c, (sys_semaphore_create c k).2) main_running mpsc_inits) = (λ c, Some (semaphore_new c)) <$> mpsc_inits) as -> by done.
    rewrite list_lookup_fmap, Hc. cbn [fmap option_fmap option_map]. rewrite Forall_lookup in Hin. pose proof (Hin i c Hc).
    unfold semaphore_new. rewrite as_isize_id by lia. split; [done|cbn; lia].
  - done.
  - intros i t Hq. exfalso. cbn in Hq. destruct i as [|[|[|i]]]; cbn in Hq; rewrite ?lookup_nil in Hq; by apply elem_of_nil in Hq.
  - intros t [st Hst]. change (status _) with (status main_running) in Hst. destruct (decide (t = 0)) as [->|Hne]; [by rewrite lookup_singleton_eq|].
    change (status main_running) with (<[0 := Running]> (<[0 := Ready]> (∅ : gmap Z TaskStatus))) in Hst. by rewrite !lookup_insert_ne, lookup_empty in Hst.
  - intros t pc [<- <-]%lookup_singleton_Some Hst. done.
  - intros t pc [<- <-]%lookup_singleton_Some. lia.
Qed.

Lemma start_minv : minv (ss_mem mpsc_start) (ss_pc mpsc_start).
Proof.
  assert (∀ t, stg {[0 := 0%nat]} t = 0%nat) as Hs.
  { intros t. unfold stg. destruct (decide (t = 0)) as [->|Hne]; [by rewrite lookup_singleton_eq|by rewrite lookup_singleton_ne]. }
  split; cbn [mpsc_start ss_mem ss_pc BUFFER FRONT TAIL reg printed sent]; rewrite ?total_start, ?Nat.Div0.mod_0_l; try done.
  - apply length_replicate.
  - intros t _. rewrite Hs. lia.
  - intros t _. by rewrite Hs.
  - by rewrite Hs.
  - intros t Hp. unfold did. by rewrite lookup_singleton_ne by (symmetry; by apply not_producer).
Qed.

Lemma mpsc_inv u : rtc mpsc_step mpsc_start u → sinv (ss_k u) (ss_pc u) ∧ minv (ss_mem u) (ss_pc u).
Proof.
  intros Hr. apply (rtc_invariant mpsc_step (λ u, sinv (ss_k u) (ss_pc u) ∧ minv (ss_mem u) (ss_pc u)) mpsc_start u); [|split; [apply start_sinv|apply start_minv]|done].
  intros x y [Hi Hm] Hxy. split; [|by eapply minv_step]. eapply seminv_step; [apply threads_nodup|apply texts_threads|apply texts_small| |done|exact Hxy].
  repeat constructor; lia.
Qed.

(** ** What the program does *)
Definition finished (u : semst shared) (t : Z) : Prop := ss_pc u !! t = Some (length (text t)).
Definition runnable (u : semst shared) (t : Z) : Prop := current (ss_k u) = Some t ∨ t ∈ ready_queue (ss_k u).

Section reached.
Context (u : semst shared) (Hi : sinv (ss_k u) (ss_pc u)) (Hm : minv (ss_mem u) (ss_pc u)).

Lemma indices_in_buffer : (TAIL (ss_mem u) < slots ∧ FRONT (ss_mem u) < slots)%nat.
Proof. rewrite (mm_tail _ _ Hm), (mm_front _ _ Hm). split; apply Nat.mod_upper_bound; lia. Qed.

Lemma finished_producer id : (∀ t, worker t = true → finished u t) → 0 ≤ id < Z.of_nat np → cnt (of_id id) (sent (ss_mem u)) = n.
Proof.
  intros Hf Hid. assert (is_producer (id + 1) = true) as Hp by (apply is_producer_iff; lia).
  replace id with ((id + 1) - 1) at 1 by lia. rewrite (mm_count _ _ Hm) by done.
  destruct (finished_stage (ss_pc u) (id + 1)) as [Hs Hr]; [by apply worker_producer|apply Hf; by apply worker_producer|].
  destruct (producer_did (ss_pc u) (sinv_pos _ _ Hi) (id + 1) Hp) as (_ & _ & -> & _). rewrite Hs, Hr, Hp. cbn. lia.
Qed.
Lemma finished_all : (∀ t, worker t = true → finished u t) → printed (ss_mem u) = sent (ss_mem u).
Proof.
  intros Hf. destruct (mm_prefix _ _ Hm) as [rest Hrest]. destruct rest as [|x rest]; [by rewrite app_nil_r in Hrest|]. exfalso.
  assert (length (sent (ss_mem u)) ≤ np * n)%nat as Hle.
  { rewrite (mm_sent _ _ Hm), <- sum_quota. apply sum_le. intros t Ht. by eapply sends_quota. }
  assert (np * n ≤ length (printed (ss_mem u)))%nat as Hge.
  { rewrite (mm_out _ _ Hm). destruct (finished_stage (ss_pc u) CONSUMER worker_consumer (Hf _ worker_consumer)) as [Hs Hr].
    destruct (is_producer CONSUMER) eqn:E1; [by apply not_producer in E1 as []|].
    assert (did is_print (ss_pc u) CONSUMER = np * n)%nat as <-.
    { destruct (consumer_did (ss_pc u) (sinv_pos _ _ Hi)) as (_ & _ & -> & _). rewrite Hs, Hr. cbn. lia. }
    unfold Semaphores.total. assert (CONSUMER ∈ threads) as Hc by (apply thread_kinds; by right; right).
    clear -Hc. induction threads as [|y l IH]; [by apply elem_of_nil in Hc|]. cbn. apply elem_of_cons in Hc as [<-|Hc]; [lia|]. specialize (IH Hc). lia. }
  rewrite Hrest, length_app in Hle. cbn in Hle. lia.
Qed.
Lemma some_worker_moves t : (∀ t, worker t = true → is_Some (ss_pc u !! t)) → worker t = true → ¬ finished u t → ∃ t', worker t' = true ∧ runnable u t'.
Proof.
  intros Hst Hw Hnf. destruct (decide (Exists (λ x, worker x = true ∧ (current (ss_k u) = Some x ∨ x ∈ ready_queue (ss_k u))) threads)) as [He|He].
  - apply Exists_exists in He as (x & _ & Hx). by exists x.
  - destruct Hnf. apply (stuck_finished (ss_k u) (ss_pc u) Hi Hslots Hst); [|done]. intros x Hx. split; intros Hr; apply He, Exists_exists;
      (exists x; split; [apply thread_kinds; right; by apply worker_kinds|split; [done|by (left + right)]]).
Qed.
End reached.
End mpsc.

(** C23 Run by any schedule of the kernel, with any number of producers, rounds and
    slots that fit a machine word, the indices stay inside the buffer, the
    numbers printed are the first of those put, in the order they were put, and
    never lag by more than the slots; once every thread has finished, what was
    put has been printed and holds each producer's number as often as it went
    round; and as long as a thread has not finished, one of them can run. *)
Theorem mpsc_correct np n slots u :
  (0 < slots)%nat → Z.of_nat slots < 2 ^ 61 → Z.of_nat (2 * (np + 1) + 14 * (np * n)) < 2 ^ 61 →
  rtc (mpsc_step np n slots) (mpsc_start slots) u →
  let m := ss_mem u in
  (TAIL m < slots ∧ FRONT m < slots)%nat ∧
  printed m `prefix_of` sent m ∧ (length (sent m) ≤ length (printed m) + slots)%nat ∧
  ((∀ t, worker np t = true → finished np n u t) →
     printed m = sent m ∧ ∀ id, 0 ≤ id < Z.of_nat np → cnt (of_id id) (printed m) = n) ∧
  ((∀ t, worker np t = true → is_Some (ss_pc u !! t)) → ∀ t, worker np t = true → ¬ finished np n u t →
     ∃ t', worker np t' = true ∧ runnable u t').
Proof.
  intros H1 H2 H3 Hr m. destruct (mpsc_inv np n slots H1 H2 H3 u Hr) as [Hi Hm]. split_and!.
  - by eapply indices_in_buffer.
  - by eapply indices_in_buffer.
  - exact (mm_prefix _ _ _ _ _ Hm).
  - unfold m. rewrite (mm_sent _ _ _ _ _ Hm), (mm_out _ _ _ _ _ Hm). pose proof (buffered np n slots _ _ Hi). lia.
  - intros Hf. assert (printed m = sent m) as -> by (by eapply finished_all). split; [done|]. intros id Hid. by eapply finished_producer.
  - intros Hst t Hw Hnf. by eapply some_worker_moves.
Qed.

(** ** The program, on the schedule without preemption *)
Module MpscDemo.
Definition go (np n slots fuel : nat) : semst shared := srun (run slots) (text np n) fuel (mpsc_start slots).
Definition summary (u : semst shared) : nat * nat * list Z * bool * bool :=
  (length (sent (ss_mem u)), TAIL (ss_mem u), printed (ss_mem u), bool_decide (current (ss_k u) = None), bool_decide (ready_queue (ss_k u) = [])).
(** Two producers of two numbers and one slot; everybody has exited. *)
Example small_run_finishes : summary (go 2 2 1 100) = (4%nat, 0%nat, [0; 0; 1; 1], true, true).
Proof. vm_compute. reflexivity. Qed.

(** Witness: first both producers wait for the slot while the consumer prints, then the end. *)
Lemma mpsc_correct_witness :
  (∃ t, worker 2 t = true ∧ runnable (go 2 2 1 20) t) ∧
  (let m := ss_mem (go 2 2 1 100) in printed m = sent m ∧ ∀ id, 0 ≤ id < 2 → cnt (of_id id) (printed m) = 2%nat).
Proof.
  assert (∀ t, worker 2 t = true → t = 1 ∨ t = 2 ∨ t = 3) as Hw.
  { intros t [Hp%is_producer_iff| ->]%worker_kinds; unfold CONSUMER; lia. }
  split.
  - destruct (mpsc_correct 2 2 1 (go 2 2 1 20)) as (_ & _ & _ & _ & H); [lia|lia|lia|apply srun_sound|].
    apply (H ltac:(intros t [->|[->| ->]]%Hw; vm_compute; by eexists) 3); [done|vm_compute; discriminate].
  - destruct (mpsc_correct 2 2 1 (go 2 2 1 100)) as (_ & _ & _ & H & _); [lia|lia|lia|apply srun_sound|].
    apply H. intros t [->|[->| ->]]%Hw; vm_compute; reflexivity.
Defined.
End MpscDemo.
