(* ===== verification/Barrier.v ===== *)
(** * A barrier of a mutex and a condition variable (user/src/bin/barrier_condvar.rs)

    Threads that print letters in phases, with a barrier between two phases: the
    last to arrive signals the condition variable, and each thread it wakes
    signals the next.  The threads run on the scheduler, mutexes and condition
    variables of Sched.v, preempted anywhere.  The numbers of threads, letters
    and barriers are parameters; the program has 3, 300 and 2.

    [kinv] says where each thread is in the kernel, [pinv] what the barriers
    know; [barrier_correct] follows from the two. *)
From S2P Require Import Prelude Sched SchedSafe Threads Semaphores.

(** The positions of [Barrier::block], from the access to the lazy static to
    [mutex_unlock].  [*count = *count + 1] is a load and a store. *)
Inductive stage := Access | Creating | Lock | Load | Store (r : nat) | If | SignalLast | Wait | SignalNext | Unlock.
(** [Printing ph i]: in the loop of phase [ph], after [i] letters.  [MainSpawn]
    and [MainJoin] are the loops of [main]. *)
Inductive bpc := Printing (ph i : nat) | At (b : nat) (s : stage) | Done | MainSpawn (i : nat) | MainJoin (i : nat).
#[global] Instance stage_eq_dec : EqDecision stage.
Proof. solve_decision. Defined.
#[global] Instance bpc_eq_dec : EqDecision bpc.
Proof. solve_decision. Defined.

(** A lazy static, as the lazy_static package documents it: the first access runs
    the initialiser, here [Barrier::new], and other accesses wait for it.  [InProgress t (Some m)]: thread [t] has created
    the mutex. *)
Inductive once := Incomplete | InProgress (t : Z) (m : option nat) | Complete (mutex_id condvar_id : nat).
Record bmem := mkMem { statics : gmap nat once; counts : gmap nat nat; output : list Z }.
Record bst := mkB { bs_k : kst; bs_cs : gset (Z * nat); bs_mem : bmem; bs_pc : gmap Z bpc }.

Definition lazy (mm : bmem) (b : nat) : once := default Incomplete (statics mm !! b).
Definition count (mm : bmem) (b : nat) : nat := default 0%nat (counts mm !! b).
Definition set_lazy (b : nat) (o : once) (mm : bmem) : bmem := mkMem (<[b := o]> (statics mm)) (counts mm) (output mm).
Definition set_count (b n : nat) (mm : bmem) : bmem := mkMem (statics mm) (<[b := n]> (counts mm)) (output mm).
Definition print (c : Z) (mm : bmem) : bmem := mkMem (statics mm) (counts mm) (output mm ++ [c]).

Definition THREAD_NUM : nat := 3.
(** The letters are [a], [b], [c]. *)
Definition letter (ph : nat) : Z := 97 + Z.of_nat ph.

Section barrier.
Context (N R B : nat).

(** One step of [Barrier::new] and [Barrier::block] by the running thread. *)
Definition block (t : Z) (b : nat) (s : stage) (k : kst) (cs : gset (Z * nat)) (mm : bmem) :
    option (kst * gset (Z * nat) * bmem * bpc) :=
  match s, lazy mm b with
  | Access, Incomplete => Some (k, cs, set_lazy b (InProgress t None) mm, At b Creating)
  | Access, Complete _ _ => Some (k, cs, mm, At b Lock)
  | Creating, InProgress _ None =>
      let '(m, k') := sys_mutex_create false k in Some (k', cs, set_lazy b (InProgress t (Some (Z.to_nat m))) mm, At b Creating)
  | Creating, InProgress _ (Some m) =>
      let '(c, k') := sys_condvar_create k in Some (k', cs, set_lazy b (Complete m (Z.to_nat c)) mm, At b Lock)
  | Lock, Complete m _ => k' ← call_ok (sys_mutex_lock (Z.of_nat m) k); Some (k', acquired k' t m ∪ cs, mm, At b Load)
  | Load, Complete _ _ => Some (k, cs, mm, At b (Store (count mm b)))
  | Store r, Complete _ _ => Some (k, cs, set_count b (r + 1) mm, At b If)
  | If, Complete _ _ => Some (k, cs, mm, At b (if (count mm b =? N)%nat then SignalLast else Wait))
  | SignalLast, Complete _ c | SignalNext, Complete _ c =>
      k' ← call_ok (sys_condvar_signal (Z.of_nat c) k); Some (k', cs, mm, At b Unlock)
  | Wait, Complete m c =>
      k' ← call_ok (sys_condvar_wait (Z.of_nat c) (Z.of_nat m) k); Some (k', cs ∖ {[(t, m)]}, mm, At b SignalNext)
  | Unlock, Complete m _ => k' ← call_ok (sys_mutex_unlock (Z.of_nat m) k); Some (k', cs ∖ {[(t, m)]}, mm, Printing (S b) 0)
  | _, _ => None
  end.

(** One step of the running thread: [thread_fn], and [main] as thread 0.  There is
    none while an access or [waittid] waits. *)
Definition go (u : bst) : option bst :=
  let '(mkB k cs mm pcs) := u in
  t ← current k; p ← pcs !! t;
  match p with
  | Printing ph i =>
      if (i <? R)%nat then Some (mkB k cs (print (letter ph) mm) (<[t := Printing ph (S i)]> pcs))
      else Some (mkB k cs mm (<[t := if (ph <? B)%nat then At ph Access else Done]> pcs))
  | At b s => '(k', cs', mm', p') ← block t b s k cs mm; Some (mkB k' cs' mm' (<[t := p']> pcs))
  | Done => k' ← to_option (exit_current k); Some (mkB k' cs mm pcs)
  | MainSpawn i =>
      if (i <? N)%nat then
        let t' := Z.of_nat i + 1 in
        if decide (status k !! t' = None) then Some (mkB (spawn t' k) cs mm (<[t' := Printing 0 0]> (<[t := MainSpawn (S i)]> pcs))) else None
      else Some (mkB k cs mm (<[t := MainJoin 0]> pcs))
  | MainJoin i =>
      if (i <? N)%nat then
        if decide (status k !! (Z.of_nat i + 1) = None) then Some (mkB k cs mm (<[t := MainJoin (S i)]> pcs)) else None
      else None
  end.

Inductive bstep : bst → bst → Prop :=
| b_go u u' : go u = Some u' → bstep u u'
| b_yield k cs mm pcs t k' :
    current k = Some t → suspend_current_and_run_next CReturn k = Ok k' → bstep (mkB k cs mm pcs) (mkB k' cs mm pcs)
| b_timer k cs mm pcs now : bstep (mkB k cs mm pcs) (mkB (check_timer now k) cs mm pcs)
| b_dispatch k cs mm pcs t k1 k2 :
    current k = None → run_task k = Some (t, k1) → resume t k1 = Ok k2 →
    bstep (mkB k cs mm pcs) (mkB k2 (completed t k1 k2 ∪ cs) mm pcs).

Definition barrier_start : bst := mkB main_running ∅ (mkMem ∅ ∅ []) {[0 := MainSpawn 0]}.

(** The schedule without preemption; a thread that cannot move yields. *)
Fixpoint brun (fuel : nat) (u : bst) : bst :=
  match fuel with
  | O => u
  | S fuel' =>
      match current (bs_k u) with
      | Some _ =>
          match go u with
          | Some u' => brun fuel' u'
          | None =>
              match suspend_current_and_run_next CReturn (bs_k u) with
              | Ok k' => brun fuel' (mkB k' (bs_cs u) (bs_mem u) (bs_pc u))
              | Err _ => u
              end
          end
      | None =>
          match run_task (bs_k u) with
          | Some (t, k1) =>
              match resume t k1 with
              | Ok k2 => brun fuel' (mkB k2 (completed t k1 k2 ∪ bs_cs u) (bs_mem u) (bs_pc u))
              | Err _ => u
              end
          | None => u
          end
      end
  end.

(** ** What the positions of the threads say *)
Definition workers : list Z := seqZ 1 (Z.of_nat N).
Definition tot (f : bpc → nat) (pcs : gmap Z bpc) : nat :=
  sum_list_with (λ t, match pcs !! t with Some p => f p | None => 0%nat end) workers.
Definition b2n (x : bool) : nat := if x then 1%nat else 0%nat.

(** The thread has been counted by barrier [b]; it has left it, or will. *)
Definition arrived (b : nat) (p : bpc) : nat :=
  match p with
  | Printing ph _ => b2n (b <? ph)
  | At b' (Access | Creating | Lock | Load | Store _) => b2n (b <? b')
  | At b' _ => b2n (b <=? b')
  | Done => b2n (b <? B)
  | _ => 0
  end%nat.
Definition passed (b : nat) (p : bpc) : bool :=
  match p with
  | Printing ph _ => b <? ph
  | At b' (SignalLast | Unlock) => b <=? b'
  | At b' _ => b <? b'
  | Done => b <? B
  | _ => false
  end%nat.
(** The letters of phase [ph] it has printed. *)
Definition did (ph : nat) (p : bpc) : nat :=
  match p with
  | Printing ph' i => if ph <? ph' then R else if ph =? ph' then i else 0
  | At b' _ => if ph <=? b' then R else 0
  | Done => if ph <=? B then R else 0
  | _ => 0
  end%nat.
Definition is_main (p : bpc) : bool := match p with MainSpawn _ | MainJoin _ => true | _ => false end.
Definition shape (p : bpc) : Prop :=
  match p with Printing ph i => (ph ≤ B ∧ i ≤ R)%nat | At b _ => (b < B)%nat | MainSpawn i | MainJoin i => (i ≤ N)%nat | _ => True end.
(** A thread that is awake there will signal. *)
Definition pending (b : nat) (p : bpc) : Prop := p = At b If ∨ p = At b SignalLast ∨ p = At b SignalNext.

(** [A]: the threads in the queue of a condition variable. *)
Record pinv (mm : bmem) (pcs : gmap Z bpc) (A : Z → Prop) : Prop := {
  pv_count : ∀ b, count mm b = tot (arrived b) pcs;
  pv_store : ∀ t b r, pcs !! t = Some (At b (Store r)) → r = count mm b;
  pv_wait : ∀ t b, pcs !! t = Some (At b Wait) → count mm b ≠ N;
  pv_passed : ∀ t p b, pcs !! t = Some p → passed b p = true → count mm b = N;
  pv_woken : ∀ t b, pcs !! t = Some (At b SignalNext) → ¬ A t → count mm b = N;
  pv_chain : ∀ t b, A t → pcs !! t = Some (At b SignalNext) → count mm b = N → ∃ t' p, pcs !! t' = Some p ∧ ¬ A t' ∧ pending b p;
  pv_sleep : ∀ t, A t → ∃ b, pcs !! t = Some (At b SignalNext);
  pv_shape : ∀ t p, pcs !! t = Some p → shape p;
  pv_dom : ∀ t p, pcs !! t = Some p → 0 ≤ t ≤ Z.of_nat N ∧ is_main p = bool_decide (t = 0);
  pv_out : output mm = concat ((λ ph, replicate (tot (did ph) pcs) (letter ph)) <$> seq 0 (S B));
}.

Lemma in_workers t : t ∈ workers ↔ 1 ≤ t ≤ Z.of_nat N.
Proof. unfold workers. rewrite elem_of_seqZ. lia. Qed.
Lemma workers_nodup : NoDup workers.
Proof. apply NoDup_seqZ. Qed.

Lemma tot_same f pcs pcs' : (∀ t, t ∈ workers → match pcs' !! t with Some p => f p | None => 0%nat end = match pcs !! t with Some p => f p | None => 0%nat end) → tot f pcs' = tot f pcs.
Proof. intros H. by apply sum_with_ext. Qed.
Lemma tot_move f pcs t p p' : pcs !! t = Some p → f p' = f p → tot f (<[t := p']> pcs) = tot f pcs.
Proof. intros Hp Hf. apply tot_same. intros x _. destruct (decide (x = t)) as [->|Hne]; [by rewrite lookup_insert_eq, Hp|by rewrite lookup_insert_ne]. Qed.
Lemma tot_more f pcs t p p' d : t ∈ workers → pcs !! t = Some p → f p' = (f p + d)%nat → tot f (<[t := p']> pcs) = (tot f pcs + d)%nat.
Proof.
  intros Ht Hp Hf. apply (sum_change _ _ _ t); [apply workers_nodup|done|..].
  - intros x _ Hne. by rewrite lookup_insert_ne.
  - by rewrite lookup_insert_eq, Hp.
Qed.
Lemma tot_new f pcs t p : pcs !! t = None → f p = 0%nat → tot f (<[t := p]> pcs) = tot f pcs.
Proof. intros Hp Hf. apply tot_same. intros x _. destruct (decide (x = t)) as [->|Hne]; [by rewrite lookup_insert_eq, Hp|by rewrite lookup_insert_ne]. Qed.
Lemma sum_const {A} (c : nat) (l : list A) : sum_list_with (λ _, c) l = (length l * c)%nat.
Proof. induction l as [|x l IH]; cbn; [done|]. lia. Qed.
(** A sum of the greatest terms has only these. *)
Lemma tot_full f pcs c : (0 < c)%nat → (∀ p, f p ≤ c)%nat → tot f pcs = (N * c)%nat → ∀ t, t ∈ workers → ∃ p, pcs !! t = Some p ∧ f p = c.
Proof.
  intros Hc Hf Htot t Ht.
  destruct (decide (match pcs !! t with Some p => f p | None => 0%nat end = c)) as [He|He]; [destruct (pcs !! t) as [p|]; [by exists p|lia]|exfalso].
  assert (tot f pcs < sum_list_with (λ _, c) workers)%nat as Hlt.
  { apply (sum_lt _ _ _ t); [done|intros y _; destruct (pcs !! y); [apply Hf|lia]|]. destruct (pcs !! t) as [p|]; [pose proof (Hf p); lia|lia]. }
  rewrite sum_const in Hlt. unfold workers in Hlt. rewrite length_seqZ in Hlt. lia.
Qed.
Lemma tot_pos f pcs : (0 < tot f pcs)%nat → ∃ t p, t ∈ workers ∧ pcs !! t = Some p ∧ (0 < f p)%nat.
Proof.
  unfold tot. induction workers as [|x l IH]; cbn; [lia|]. intros H. destruct (pcs !! x) as [p|] eqn:Hp.
  - destruct (decide (0 < f p)%nat) as [Hpos|]; [exists x, p; split; [by left|done]|]. destruct IH as (t & q & Ht & Hq); [lia|]. exists t, q. split; [by right|done].
  - destruct IH as (t & q & Ht & Hq); [lia|]. exists t, q. split; [by right|done].
Qed.
Lemma tot_all f pcs c : (∀ t, t ∈ workers → ∃ p, pcs !! t = Some p ∧ f p = c) → tot f pcs = (N * c)%nat.
Proof.
  intros H. unfold tot. rewrite (sum_with_ext _ (λ _, c)); [rewrite sum_const; unfold workers; rewrite length_seqZ; lia|].
  intros t Ht. destruct (H t Ht) as (p & -> & <-). done.
Qed.

(** ** What follows from the invariant of the program *)
Ltac nat_tests := repeat match goal with
  | H : context [(?x <? ?y)%nat] |- _ => destruct (Nat.ltb_spec x y)
  | H : context [(?x <=? ?y)%nat] |- _ => destruct (Nat.leb_spec x y)
  | H : context [(?x =? ?y)%nat] |- _ => destruct (Nat.eqb_spec x y)
  | |- context [(?x <? ?y)%nat] => destruct (Nat.ltb_spec x y)
  | |- context [(?x <=? ?y)%nat] => destruct (Nat.leb_spec x y)
  | |- context [(?x =? ?y)%nat] => destruct (Nat.eqb_spec x y)
  end.
Ltac by_stage := unfold arrived, passed, did, shape, b2n in *; repeat case_match; nat_tests; simplify_eq/=; try lia; try done.

Lemma arrived_le b p : (arrived b p ≤ 1)%nat.
Proof. by_stage. Qed.
Lemma passed_arrived b p : passed b p = true → arrived b p = 1%nat.
Proof. by_stage. Qed.
(** A letter of a later phase comes from a thread that has passed. *)
Lemma did_passed b ph p : shape p → (b < ph)%nat → (b < B)%nat → (0 < did ph p)%nat → passed b p = true.
Proof. by_stage. Qed.
(** A thread that has arrived has printed the phase before. *)
Lemma arrived_did b p : shape p → (b < B)%nat → arrived b p = 1%nat → did b p = R.
Proof. by_stage. Qed.

Section known.
Context (mm : bmem) (pcs : gmap Z bpc) (A : Z → Prop) (Hi : pinv mm pcs A).

Lemma did_le_R ph t p : pcs !! t = Some p → (did ph p ≤ R)%nat.
Proof. intros Hp. pose proof (pv_shape _ _ _ Hi t p Hp). by_stage. Qed.
Lemma tot_did_le ph : (tot (did ph) pcs ≤ N * R)%nat.
Proof.
  unfold tot. etrans; [apply (sum_le _ (λ _, R))|rewrite sum_const; unfold workers; rewrite length_seqZ; lia].
  intros x _. destruct (pcs !! x) eqn:Hp; [by eapply did_le_R|lia].
Qed.
Lemma counted_all b : count mm b = N → ∀ t, t ∈ workers → ∃ p, pcs !! t = Some p ∧ arrived b p = 1%nat.
Proof. rewrite (pv_count _ _ _ Hi). intros Hc. apply tot_full; [lia|apply arrived_le|lia]. Qed.

(** While a thread has not arrived, nobody prints a letter of a later phase;
    when somebody does, the phases before are complete. *)
Lemma later_silent b t p ph : t ∈ workers → pcs !! t = Some p → arrived b p = 0%nat → (b < B)%nat → (b < ph)%nat → tot (did ph) pcs = 0%nat.
Proof.
  intros Ht Hp Ha Hb Hph. destruct (decide (tot (did ph) pcs = 0%nat)) as [|Hne]; [done|]. exfalso.
  destruct (tot_pos (did ph) pcs) as (x & q & _ & Hq & Hpos); [lia|].
  assert (count mm b = N) as Hc by (eapply (pv_passed _ _ _ Hi); [exact Hq|eapply (did_passed b ph); [by eapply (pv_shape _ _ _ Hi)|done..]]).
  destruct (counted_all b Hc t Ht) as (p' & Hp' & Ha'). congruence.
Qed.
Lemma earlier_complete b ph : (b < ph)%nat → (b < B)%nat → (0 < tot (did ph) pcs)%nat → tot (did b) pcs = (N * R)%nat.
Proof.
  intros Hph Hb Hpos. destruct (tot_pos _ _ Hpos) as (x & q & _ & Hq & Hd).
  assert (count mm b = N) as Hc by (eapply (pv_passed _ _ _ Hi); [exact Hq|eapply (did_passed b ph); [by eapply (pv_shape _ _ _ Hi)|done..]]).
  apply tot_all. intros t Ht. destruct (counted_all b Hc t Ht) as (p & Hp & Ha). exists p. split; [done|].
  apply arrived_did; [by eapply (pv_shape _ _ _ Hi)|done|done].
Qed.
End known.

(** ** The letters printed *)
Definition letters (f : nat → nat) (l : list nat) : list Z := concat ((λ ph, replicate (f ph) (letter ph)) <$> l).
Lemma letters_ext f g l : (∀ x, x ∈ l → f x = g x) → letters f l = letters g l.
Proof.
  unfold letters. induction l as [|x l IH]; intros H; [done|]. cbn. rewrite H by (by left). f_equal. apply IH. intros y Hy. apply H. by right.
Qed.
Lemma letters_app f l l' : letters f (l ++ l') = letters f l ++ letters f l'.
Proof. unfold letters. by rewrite fmap_app, concat_app. Qed.
Lemma letters_none f l : (∀ x, x ∈ l → f x = 0%nat) → letters f l = [].
Proof. intros H. rewrite (letters_ext f (λ _, 0%nat)) by done. clear H. unfold letters. induction l as [|x l IH]; [done|exact IH]. Qed.
Lemma letters_next f g ph n : (ph < n)%nat → (∀ x, (ph < x)%nat → g x = 0%nat ∧ f x = 0%nat) → (∀ x, (x < ph)%nat → g x = f x) → g ph = S (f ph) →
  letters g (seq 0 n) = letters f (seq 0 n) ++ [letter ph].
Proof.
  intros Hn Hl He Hp. replace n with (ph + (1 + (n - ph - 1)))%nat by lia. rewrite !seq_app, !letters_app.
  rewrite !(letters_none _ (seq (0 + ph + 1) _)); [|intros x Hx; apply elem_of_seq in Hx; apply Hl; lia..].
  rewrite !app_nil_r, <- app_assoc. f_equal; [apply letters_ext; intros x Hx; apply elem_of_seq in Hx; apply He; lia|].
  cbn. unfold letters. cbn. rewrite !app_nil_r, Hp. apply replicate_S_end.
Qed.
Lemma letters_prefix f M a n : (∀ x, f x ≤ M)%nat → (∀ x y, a ≤ x → x < y → y < a + n → 0 < f y → f x = M)%nat →
  letters f (seq a n) `prefix_of` letters (λ _, M) (seq a n).
Proof.
  intros Hle. revert a. induction n as [|n IH]; intros a Hm; [done|]. unfold letters. cbn [seq fmap list_fmap concat].
  fold (letters f (seq (S a) n)) (letters (λ _, M) (seq (S a) n)).
  destruct (decide (f a = M)) as [->|Hne].
  - apply prefix_app, IH. intros x y Hx Hxy Hy. apply Hm; lia.
  - rewrite (letters_none f (seq (S a) n)), app_nil_r.
    + replace M with (f a + (M - f a))%nat at 1 by (pose proof (Hle a); lia). rewrite replicate_add, <- app_assoc. by apply prefix_app_r.
    + intros x Hx. apply elem_of_seq in Hx. destruct (decide (f x = 0%nat)) as [|Hnz]; [done|]. destruct Hne. apply (Hm a x); lia.
Qed.

Definition whole_output : list Z := letters (λ _, N * R)%nat (seq 0 (S B)).
Lemma output_prefix mm pcs A : pinv mm pcs A → output mm `prefix_of` whole_output.
Proof.
  intros Hi. rewrite (pv_out _ _ _ Hi). apply (letters_prefix (λ ph, tot (did ph) pcs)).
  - intros x. by eapply tot_did_le.
  - intros x y _ Hxy Hy Hpos. eapply earlier_complete; [done|exact Hxy|lia|done].
Qed.
Lemma output_whole mm pcs A : pinv mm pcs A → (∀ t, t ∈ workers → pcs !! t = Some Done) → output mm = whole_output.
Proof.
  intros Hi Hd. rewrite (pv_out _ _ _ Hi). apply letters_ext. intros ph Hph. apply elem_of_seq in Hph. apply tot_all. intros t Ht. exists Done.
  split; [by apply Hd|]. cbn. by rewrite (proj2 (Nat.leb_le ph B)) by lia.
Qed.

(** ** The invariant of the program is kept *)
Section program_steps.
Context (mm : bmem) (pcs : gmap Z bpc) (A : Z → Prop) (Hi : pinv mm pcs A).
Context (t : Z) (p : bpc) (Hp : pcs !! t = Some p) (Hawake : ¬ A t).

Lemma not_at_sleeper x : A x → x ≠ t.
Proof. by intros Hx ->. Qed.
Lemma worker_of : is_main p = false → t ∈ workers.
Proof. intros Hm. destruct (pv_dom _ _ _ Hi t p Hp) as [Hd Hb]. apply in_workers. rewrite Hm in Hb. symmetry in Hb. apply bool_decide_eq_false in Hb. lia. Qed.

Lemma pinv_move p' mm' :
  (∀ b, count mm' b = count mm b) → output mm' = output mm → is_main p' = is_main p → shape p' →
  (∀ b, arrived b p' = arrived b p) → (∀ ph, did ph p' = did ph p) →
  (∀ b r, p' = At b (Store r) → r = count mm b) → (∀ b, p' = At b Wait → count mm b ≠ N) →
  (∀ b, passed b p' = true → passed b p = true ∨ count mm b = N) → (∀ b, p' ≠ At b SignalNext) →
  (∀ b, pending b p → pending b p' ∨ count mm b ≠ N) → pinv mm' (<[t := p']> pcs) A.
Proof.
  intros Hc Ho Hm Hs Ha Hd Hst Hw Hpa Hn Hpe. pose proof (pv_dom _ _ _ Hi t p Hp) as Hdom. destruct Hi as [I1 I2 I3 I4 I5 I6 I7 I8 I9 I10]. split.
  - intros b. by rewrite Hc, I1, (tot_move _ _ _ p).
  - intros x b r. rewrite Hc. intros [[<- ->]|[_ Hx]]%lookup_insert_Some; [by apply Hst|by eapply I2].
  - intros x b. rewrite Hc. intros [[<- ->]|[_ Hx]]%lookup_insert_Some; [by apply Hw|by eapply I3].
  - intros x q b. rewrite Hc. intros [[<- <-]|[_ Hx]]%lookup_insert_Some Hq; [destruct (Hpa b Hq); [by eapply I4|done]|by eapply I4].
  - intros x b. rewrite Hc. intros [[<- ->]|[_ Hx]]%lookup_insert_Some Hq; [by destruct (Hn b)|by eapply I5].
  - intros x b HA. rewrite lookup_insert_ne by (symmetry; by apply not_at_sleeper). rewrite Hc. intros Hx HN.
    destruct (I6 x b HA Hx HN) as (y & q & Hy & HAy & Hq). destruct (decide (y = t)) as [->|Hne].
    + exists t, p'. rewrite lookup_insert_eq. split_and!; [done|done|]. assert (q = p) as -> by congruence. destruct (Hpe b Hq); done.
    + exists y, q. by rewrite lookup_insert_ne.
  - intros x HA. rewrite lookup_insert_ne by (symmetry; by apply not_at_sleeper). by apply I7.
  - intros x q [[_ <-]|[_ Hx]]%lookup_insert_Some; [done|by eapply I8].
  - intros x q [[<- <-]|[_ Hx]]%lookup_insert_Some; [by rewrite Hm|by eapply I9].
  - rewrite Ho, I10. apply letters_ext. intros ph _. symmetry. by apply (tot_move _ _ _ p).
Qed.

Lemma pinv_print ph i : p = Printing ph i → (i < R)%nat → pinv (print (letter ph) mm) (<[t := Printing ph (S i)]> pcs) A.
Proof.
  intros Heq HR. assert (t ∈ workers) as Ht by (apply worker_of; by rewrite Heq). rewrite Heq in Hp. pose proof (pv_shape _ _ _ Hi t _ Hp) as [Hph _].
  pose proof Hi as [I1 I2 I3 I4 I5 I6 I7 I8 I9 I10]. split.
  - intros b. change (count (print _ mm) b) with (count mm b). by rewrite I1, (tot_move _ _ _ (Printing ph i)).
  - intros x b r [[_ ?]|[_ Hx]]%lookup_insert_Some; [done|by eapply I2].
  - intros x b [[_ ?]|[_ Hx]]%lookup_insert_Some; [done|by eapply I3].
  - intros x q b [[<- <-]|[_ Hx]]%lookup_insert_Some Hq; [by eapply I4|by eapply I4].
  - intros x b [[_ ?]|[_ Hx]]%lookup_insert_Some; [done|by eapply I5].
  - intros x b HA. rewrite lookup_insert_ne by (symmetry; by apply not_at_sleeper). intros Hx HN.
    destruct (I6 x b HA Hx HN) as (y & q & Hy & HAy & Hq). exists y, q. rewrite lookup_insert_ne; [done|]. intros <-. rewrite Hp in Hy. injection Hy as <-.
    destruct Hq as [|[|]]; done.
  - intros x HA. rewrite lookup_insert_ne by (symmetry; by apply not_at_sleeper). by apply I7.
  - intros x q [[_ <-]|[_ Hx]]%lookup_insert_Some; [cbn; lia|by eapply I8].
  - intros x q [[<- <-]|[_ Hx]]%lookup_insert_Some; [exact (I9 _ _ Hp)|by eapply I9].
  - cbn [output print]. rewrite I10. symmetry. apply letters_next; [lia| | |].
    + intros y Hy. assert (tot (did y) pcs = 0%nat) as H0.
      { destruct (decide (ph < B)%nat); [eapply (later_silent _ _ _ Hi ph t); [done|exact Hp| |done|done]; by_stage|].
        destruct (decide (tot (did y) pcs = 0%nat)) as [|Hnz]; [done|]. destruct (tot_pos (did y) pcs) as (x & q & _ & Hq & Hpos); [lia|].
        exfalso. apply I8 in Hq. by_stage. }
      split; [|done]. rewrite (tot_move _ _ _ (Printing ph i)); [done|done|]. by_stage.
    + intros y Hy. apply (tot_move _ _ _ (Printing ph i)); [done|]. by_stage.
    + rewrite (tot_more _ _ _ (Printing ph i) _ 1); [lia|done|done|]. by_stage.
Qed.

(** Counting the thread: nobody has left the barrier yet. *)
Lemma pinv_store b r : p = At b (Store r) →
  (∀ x q, x ≠ t → pcs !! x = Some q → q ≠ At b Wait ∧ ∀ r', q ≠ At b (Store r')) → pinv (set_count b (r + 1) mm) (<[t := At b If]> pcs) A.
Proof.
  intros Heq Hexcl. assert (t ∈ workers) as Ht by (apply worker_of; by rewrite Heq). rewrite Heq in Hp.
  pose proof (pv_shape _ _ _ Hi t _ Hp) as Hb. cbn in Hb. pose proof (pv_store _ _ _ Hi t b r Hp) as ->.
  assert (count mm b ≠ N) as Hnot.
  { intros HN. destruct (counted_all _ _ _ Hi b HN t Ht) as (q & Hq & Ha). rewrite Hp in Hq. injection Hq as <-. by_stage. }
  assert (∀ b', b' ≠ b → count (set_count b (count mm b + 1) mm) b' = count mm b') as Hne by (intros b' Hb'; unfold count; cbn; by rewrite lookup_insert_ne).
  assert (count (set_count b (count mm b + 1) mm) b = count mm b + 1)%nat as Heq1 by (unfold count at 1; cbn; by rewrite lookup_insert_eq).
  pose proof Hi as [I1 I2 I3 I4 I5 I6 I7 I8 I9 I10]. split.
  - intros b'. destruct (decide (b' = b)) as [->|Hb'].
    + rewrite Heq1, I1. symmetry. apply (tot_more _ _ _ (At b (Store (count mm b)))); [done|done|]. by_stage.
    + rewrite Hne, I1 by done. symmetry. apply (tot_move _ _ _ (At b (Store (count mm b)))); [done|]. by_stage.
  - intros x b' r' [[_ ?]|[Hx Hq]]%lookup_insert_Some; [done|]. destruct (decide (b' = b)) as [->|Hb']; [by destruct (proj2 (Hexcl x _ (not_eq_sym Hx) Hq) r')|].
    rewrite Hne by done. by eapply I2.
  - intros x b' [[_ ?]|[Hx Hq]]%lookup_insert_Some; [done|]. destruct (decide (b' = b)) as [->|Hb']; [by destruct (Hexcl x _ (not_eq_sym Hx) Hq) as [[] _]|].
    rewrite Hne by done. by eapply I3.
  - intros x q b' Hq Hpa. assert (count mm b' = N) as Hc.
    { apply lookup_insert_Some in Hq as [[<- <-]|[_ Hq]]; [eapply I4; [exact Hp|]; by_stage|by eapply I4]. }
    destruct (decide (b' = b)) as [->|]; [done|by rewrite Hne].
  - intros x b' [[_ ?]|[Hx Hq]]%lookup_insert_Some HA; [done|]. pose proof (I5 x b' Hq HA) as Hc. destruct (decide (b' = b)) as [->|]; [done|by rewrite Hne].
  - intros x b' HA. rewrite lookup_insert_ne by (symmetry; by apply not_at_sleeper). intros Hx HN. destruct (decide (b' = b)) as [->|Hb'].
    + exists t, (At b If). rewrite lookup_insert_eq. split_and!; [done|done|by left].
    + rewrite Hne in HN by done. destruct (I6 x b' HA Hx HN) as (y & q & Hy & HAy & Hq). exists y, q. rewrite lookup_insert_ne; [done|].
      intros <-. rewrite Hp in Hy. injection Hy as <-. destruct Hq as [|[|]]; done.
  - intros x HA. rewrite lookup_insert_ne by (symmetry; by apply not_at_sleeper). by apply I7.
  - intros x q [[_ <-]|[_ Hx]]%lookup_insert_Some; [done|by eapply I8].
  - intros x q [[<- <-]|[_ Hx]]%lookup_insert_Some; [exact (I9 _ _ Hp)|by eapply I9].
  - cbn [output set_count]. rewrite I10. apply letters_ext. intros ph _. symmetry. by apply (tot_move _ _ _ (At b (Store (count mm b)))).
Qed.

(** Going to sleep, before everybody has arrived. *)
Lemma pinv_wait b (A' : Z → Prop) : p = At b Wait → (∀ x, A' x ↔ A x ∨ x = t) → pinv mm (<[t := At b SignalNext]> pcs) A'.
Proof.
  intros Heq HA'. rewrite Heq in Hp. pose proof (pv_wait _ _ _ Hi t b Hp) as Hnot. pose proof Hi as [I1 I2 I3 I4 I5 I6 I7 I8 I9 I10]. split.
  - intros b'. rewrite I1. symmetry. apply (tot_move _ _ _ (At b Wait)); [done|]. by_stage.
  - intros x b' r [[_ ?]|[_ Hx]]%lookup_insert_Some; [done|by eapply I2].
  - intros x b' [[_ ?]|[_ Hx]]%lookup_insert_Some; [done|by eapply I3].
  - intros x q b' [[<- <-]|[_ Hx]]%lookup_insert_Some Hq; [eapply I4; [exact Hp|]; by_stage|by eapply I4].
  - intros x b' [[<- _]|[_ Hx]]%lookup_insert_Some HA; [destruct HA; apply HA'; by right|]. eapply I5; [exact Hx|]. intros Hx'. apply HA, HA'. by left.
  - intros x b' [HA| ->]%HA' Hx HN; [|rewrite lookup_insert_eq in Hx; by injection Hx as <-].
    rewrite lookup_insert_ne in Hx by (symmetry; by apply not_at_sleeper). destruct (I6 x b' HA Hx HN) as (y & q & Hy & HAy & Hq).
    assert (y ≠ t) as Hyt by (intros ->; rewrite Hp in Hy; injection Hy as <-; destruct Hq as [|[|]]; done).
    exists y, q. rewrite lookup_insert_ne by done. split_and!; [done| |done]. intros [?| ->]%HA'; done.
  - intros x [HA| ->]%HA'; [rewrite lookup_insert_ne by (symmetry; by apply not_at_sleeper); by apply I7|]. exists b. apply lookup_insert_eq.
  - intros x q [[_ <-]|[_ Hx]]%lookup_insert_Some; [exact (I8 _ _ Hp)|by eapply I8].
  - intros x q [[<- <-]|[_ Hx]]%lookup_insert_Some; [exact (I9 _ _ Hp)|by eapply I9].
  - rewrite I10. apply letters_ext. intros ph _. symmetry. by apply (tot_move _ _ _ (At b Wait)).
Qed.

(** Signalling: the thread woken, if any, is the next to signal. *)
Lemma pinv_signal b (A' : Z → Prop) (o : option Z) : p = At b SignalLast ∨ p = At b SignalNext →
  match o with
  | None => (∀ x, A x → pcs !! x ≠ Some (At b SignalNext)) ∧ ∀ x, A' x ↔ A x
  | Some y => A y ∧ pcs !! y = Some (At b SignalNext) ∧ ∀ x, A' x ↔ A x ∧ x ≠ y
  end → pinv mm (<[t := At b Unlock]> pcs) A'.
Proof.
  intros Heq Ho. assert (count mm b = N) as HN.
  { destruct Heq as [Heq|Heq]; rewrite Heq in Hp; [|by eapply (pv_woken _ _ _ Hi)]. eapply (pv_passed _ _ _ Hi); [exact Hp|]. cbn. apply Nat.leb_refl. }
  assert (∀ x, A' x → A x) as Hsub by (intros x; destruct o; destruct_and?; naive_solver).
  assert (∀ b', arrived b' (At b Unlock) = arrived b' p) as Ha by (intros b'; by destruct Heq as [->| ->]).
  assert (∀ ph, did ph (At b Unlock) = did ph p) as Hd by (intros ph; by destruct Heq as [->| ->]).
  pose proof Hi as [I1 I2 I3 I4 I5 I6 I7 I8 I9 I10]. split.
  - intros b'. rewrite I1. symmetry. by apply (tot_move _ _ _ p).
  - intros x b' r [[_ ?]|[_ Hx]]%lookup_insert_Some; [done|by eapply I2].
  - intros x b' [[_ ?]|[_ Hx]]%lookup_insert_Some; [done|by eapply I3].
  - intros x q b' [[<- <-]|[_ Hx]]%lookup_insert_Some Hq; [|by eapply I4]. destruct (decide (b' = b)) as [->|]; [done|].
    eapply I4; [exact Hp|]. destruct Heq as [->| ->]; by_stage.
  - intros x b' [[_ ?]|[Hne Hx]]%lookup_insert_Some HA; [done|]. destruct o as [y|]; [|eapply I5; [exact Hx|]; by rewrite <- (proj2 Ho x)].
    destruct Ho as (_ & Hy & Ho). destruct (decide (x = y)) as [->|Hxy]; [rewrite Hx in Hy; by injection Hy as ->|].
    eapply I5; [exact Hx|]. intros HAx. apply HA. by apply Ho.
  - intros x b' HA Hx HNb. rewrite lookup_insert_ne in Hx by (symmetry; by apply not_at_sleeper, Hsub).
    destruct (decide (b' = b)) as [->|Hb'].
    + destruct o as [y|]; [|destruct Ho as [Ho _]; by destruct (Ho x (Hsub x HA))]. destruct Ho as (HAy & Hy & Ho). exists y, (At b SignalNext).
      rewrite lookup_insert_ne by (symmetry; by apply not_at_sleeper). split_and!; [done|by intros []%Ho|by right; right].
    + destruct (I6 x b' (Hsub x HA) Hx HNb) as (y & q & Hy & HAy & Hq).
      assert (y ≠ t) by (intros ->; rewrite Hp in Hy; injection Hy as <-; destruct Heq as [E|E], Hq as [E'|[E'|E']]; rewrite E in E'; congruence).
      exists y, q. rewrite lookup_insert_ne by done. split_and!; [done|by intros ?%Hsub|done].
  - intros x HA. rewrite lookup_insert_ne by (symmetry; by apply not_at_sleeper, Hsub). by apply I7, Hsub.
  - intros x q [[_ <-]|[_ Hx]]%lookup_insert_Some; [|by eapply I8]. pose proof (I8 _ _ Hp) as Hs. by destruct Heq as [E|E]; rewrite E in Hs.
  - intros x q [[<- <-]|[_ Hx]]%lookup_insert_Some; [|by eapply I9]. pose proof (I9 _ _ Hp) as Hs. by destruct Heq as [E|E]; rewrite E in Hs.
  - rewrite I10. apply letters_ext. intros ph _. symmetry. by apply (tot_move _ _ _ p).
Qed.
End program_steps.

Lemma pinv_spawn mm pcs A t : pinv mm pcs A → pcs !! t = None → 1 ≤ t ≤ Z.of_nat N → pinv mm (<[t := Printing 0 0]> pcs) A.
Proof.
  intros [I1 I2 I3 I4 I5 I6 I7 I8 I9 I10] Hn Ht. assert (∀ x, is_Some (pcs !! x) → x ≠ t) as Hne by (intros x [? Hx] ->; congruence). split.
  - intros b. rewrite I1. symmetry. by apply tot_new.
  - intros x b r [[_ ?]|[_ Hx]]%lookup_insert_Some; [done|by eapply I2].
  - intros x b [[_ ?]|[_ Hx]]%lookup_insert_Some; [done|by eapply I3].
  - intros x q b [[_ <-]|[_ Hx]]%lookup_insert_Some Hq; [by_stage|by eapply I4].
  - intros x b [[_ ?]|[_ Hx]]%lookup_insert_Some; [done|by eapply I5].
  - intros x b HA. destruct (I7 x HA) as [b' Hb']. rewrite lookup_insert_ne by (symmetry; apply Hne; eauto). intros Hx HN.
    destruct (I6 x b HA Hx HN) as (y & q & Hy & ?). exists y, q. rewrite lookup_insert_ne by (symmetry; apply Hne; eauto). done.
  - intros x HA. destruct (I7 x HA) as [b' Hb']. exists b'. rewrite lookup_insert_ne by (symmetry; apply Hne; eauto). done.
  - intros x q [[_ <-]|[_ Hx]]%lookup_insert_Some; [cbn; lia|by eapply I8].
  - intros x q [[<- <-]|[_ Hx]]%lookup_insert_Some; [|by eapply I9]. split; [lia|]. cbn. symmetry. apply bool_decide_eq_false. lia.
  - rewrite I10. apply letters_ext. intros ph _. symmetry. apply tot_new; [done|]. by_stage.
Qed.
Lemma pinv_asleep mm pcs A A' : pinv mm pcs A → (∀ x, A' x ↔ A x) → pinv mm pcs A'.
Proof.
  intros [I1 I2 I3 I4 I5 I6 I7 I8 I9 I10] HA. split; try done.
  - intros x b Hx Hn. eapply I5; [exact Hx|]. by rewrite <- HA.
  - intros x b Hx%HA Hp HN. destruct (I6 x b Hx Hp HN) as (y & q & ? & ? & ?). exists y, q. by rewrite HA.
  - intros x Hx%HA. by apply I7.
Qed.

(** ** Where the threads are in the kernel *)
Definition asleep (k : kst) (t : Z) : Prop := ∃ c, t ∈ queue_of k (QC c).
Definition held (mm : bmem) (p : bpc) : option nat :=
  match p with
  | At b (Load | Store _ | If | SignalLast | Wait | SignalNext | Unlock) => match lazy mm b with Complete m _ => Some m | _ => None end
  | _ => None
  end.
(** A thread is in its own text, or in a call that takes the mutex. *)
Definition outside (k : kst) (cs : gset (Z * nat)) (mm : bmem) (t : Z) (p : bpc) : Prop :=
  (current k = Some t ∨ conts k !! t = Some CReturn) ∧ ∀ m, (t, m) ∈ cs ↔ held mm p = Some m.
Definition inside (k : kst) (cs : gset (Z * nat)) (mm : bmem) (t : Z) (p : bpc) : Prop :=
  current k ≠ Some t ∧ (∀ m, (t, m) ∉ cs) ∧ ∃ b m c, lazy mm b = Complete m c ∧
    (p = At b Load ∧ conts k !! t = Some (CSpin m) ∨
     p = At b SignalNext ∧ (conts k !! t = Some (CRelock m) ∨ conts k !! t = Some (CSpin m))).
(** Or it has exited. *)
Definition gone (k : kst) (cs : gset (Z * nat)) (t : Z) : Prop := status k !! t = None ∧ ∀ m, (t, m) ∉ cs.

Definition all_spin (k : kst) : Prop := ∀ i x, mutex_list k !! i = Some (Some x) → ∃ l, x = MutexSpin l.
Definition condvar_exists (k : kst) (c : nat) : Prop := ∃ q, condvar_list k !! c = Some (Some (mkCV q)).

Record kinv (k : kst) (cs : gset (Z * nat)) (mm : bmem) (pcs : gmap Z bpc) : Prop := {
  ki_kern : inv k cs;
  ki_thread : ∀ t p, pcs !! t = Some p → outside k cs mm t p ∨ inside k cs mm t p ∨ gone k cs t;
  ki_only : ∀ t m, (t, m) ∈ cs → is_Some (pcs !! t);
  ki_live : ∀ t, is_Some (status k !! t) → is_Some (pcs !! t);
  ki_gone : ∀ t p, pcs !! t = Some p → status k !! t = None → p = Done;
  ki_queue : ∀ t c, t ∈ queue_of k (QC c) → ∃ b m, lazy mm b = Complete m c ∧ pcs !! t = Some (At b SignalNext);
  ki_spin : all_spin k;
  ki_plain : semaphore_list k = [] ∧ timers k = [];
}.
(** The lazy statics. *)
Definition started (s : stage) : bool := match s with Access | Creating => false | _ => true end.
Record oinv (k : kst) (mm : bmem) (pcs : gmap Z bpc) : Prop := {
  oi_exists : ∀ b m c, lazy mm b = Complete m c → mutex_exists k m ∧ condvar_exists k c;
  oi_diff : ∀ b b' m m' c, lazy mm b = Complete m c → lazy mm b' = Complete m' c → b = b';
  oi_made : ∀ b t m, lazy mm b = InProgress t (Some m) → mutex_exists k m;
  oi_creator : ∀ b t o, lazy mm b = InProgress t o → pcs !! t = Some (At b Creating);
  oi_creating : ∀ b t, pcs !! t = Some (At b Creating) → ∃ o, lazy mm b = InProgress t o;
  oi_started : ∀ b t s, pcs !! t = Some (At b s) → started s = true → ∃ m c, lazy mm b = Complete m c;
}.

(** What an activity of thread [t] in the kernel leaves alone. *)
Record kmove (t : Z) (k k' : kst) : Prop := {
  km_conts : ∀ x, x ≠ t → conts k' !! x = conts k !! x;
  km_current : ∀ x, x ≠ t → current k' ≠ Some x;
  km_live : ∀ x, is_Some (status k' !! x) ↔ is_Some (status k !! x);
  km_mutexes : ∀ m, mutex_exists k m → mutex_exists k' m;
  km_spin : all_spin k → all_spin k';
  km_plain : semaphore_list k' = semaphore_list k ∧ timers k' = timers k;
  km_condvars : ∀ c, condvar_exists k c → condvar_exists k' c;
}.
Lemma kmove_trans t k k1 k2 : kmove t k k1 → kmove t k1 k2 → kmove t k k2.
Proof.
  intros [A1 A2 A3 A4 A5 [A6 A7] A8] [B1 B2 B3 B4 B5 [B6 B7] B8]. split; [|done| |by intros m ?%A4%B4|by intros ?%A5%B5| |by intros c ?%A8%B8].
  - intros x Hx. by rewrite B1, A1.
  - intros x. by rewrite B3, A3.
  - by rewrite B6, B7.
Qed.
Lemma kmove_refl t k : current k = Some t → kmove t k k.
Proof. intros Hc. split; try done. intros x Hx. congruence. Qed.
Lemma kmove_mutex t k m x l : current k = Some t → mutex_list k !! m = Some (Some x) →
  kmove t k (set_mutexes (<[m := Some (MutexSpin l)]> (mutex_list k)) k).
Proof.
  intros Hc Hm. destruct (mutex_update k m x (MutexSpin l) Hm) as (He & _). split; try done; [intros y Hy; cbn; congruence|].
  intros Hs i y. cbn. intros [(_ & [= <-] & _)|[_ Hi]]%list_lookup_insert_Some; [by exists l|by eapply Hs].
Qed.
Lemma kmove_suspend t k c k' : placed k → current k = Some t → suspend_current_and_run_next c k = Ok k' →
  kmove t k k' ∧ current k' = None ∧ conts k' !! t = Some c ∧ ∀ q, queue_of k' q = queue_of k q.
Proof.
  intros Hp Hc. pose proof (pl_current _ Hp t Hc) as Hst. unfold suspend_current_and_run_next, take_current_task. rewrite Hc. cbn. intros [= <-].
  split; [|split; [done|split; [apply lookup_insert_eq|done]]]. split; cbn; try done; [intros x Hx; by rewrite lookup_insert_ne|by apply live_insert].
Qed.
Lemma kmove_lock t k m k' : placed k → all_spin k → current k = Some t → mutex_lock m k = Ok k' →
  kmove t k k' ∧ (∀ c, queue_of k' (QC c) = queue_of k (QC c)) ∧
    (current k' = Some t ∨ current k' = None ∧ conts k' !! t = Some (CSpin m)).
Proof.
  intros Hp Hs Hc. unfold mutex_lock. destruct (mutex_list k !! m) as [[x|]|] eqn:Hm; [|done..]. destruct (Hs m x Hm) as [l ->]. unfold spin_lock. destruct l.
  - intros Hr. destruct (kmove_suspend t k _ k' Hp Hc Hr) as (H1 & H2 & H3 & H4). split; [done|]. split; [by intros c; apply H4|by right].
  - intros [= <-]. split; [by eapply kmove_mutex|]. split; [done|by left].
Qed.
Lemma kmove_unlock t k m k' : all_spin k → current k = Some t → mutex_unlock m k = Ok k' →
  kmove t k k' ∧ (∀ c, queue_of k' (QC c) = queue_of k (QC c)) ∧ current k' = Some t.
Proof.
  intros Hs Hc. unfold mutex_unlock. destruct (mutex_list k !! m) as [[x|]|] eqn:Hm; [|done..]. destruct (Hs m x Hm) as [l ->].
  intros [= <-]. split; [by eapply kmove_mutex|done].
Qed.
Lemma condvar_set k c q q' : condvar_list k !! c = Some (Some (mkCV q)) →
  let k' := set_condvars (<[c := Some (mkCV q')]> (condvar_list k)) k in
  (∀ d, condvar_exists k d → condvar_exists k' d) ∧ ∀ d, queue_of k' (QC d) = if decide (d = c) then q' else queue_of k (QC d).
Proof.
  intros Hc. cbn. split.
  - intros d [qd Hd]. unfold condvar_exists. cbn. destruct (decide (d = c)) as [->|Hne].
    + exists q'. apply list_lookup_insert_eq. by eapply lookup_lt_Some.
    + exists qd. by rewrite list_lookup_insert_ne.
  - intros d. by rewrite (queue_insert queue_c _ c _ _ Hc d).
Qed.
Lemma kmove_signal t k cs c q k' : inv k cs → current k = Some t → condvar_list k !! c = Some (Some (mkCV q)) → condvar_signal c k = Ok k' →
  kmove t k k' ∧ current k' = Some t ∧ ∀ d, queue_of k' (QC d) = if decide (d = c) then tail q else queue_of k (QC d).
Proof.
  intros Hi Hc Hcv. unfold condvar_signal. rewrite Hcv. destruct (condvar_set k c q (tail q) Hcv) as [He Hq]. destruct q as [|x q]; intros [= <-].
  - split; [by apply kmove_refl|]. split; [done|]. intros d. case_decide as Hd; [|done]. subst d. cbn. by rewrite Hcv.
  - split; [|done]. split; cbn; try done; [congruence|]. apply live_insert. exists Blocked.
    apply (pl_waiting _ (in_placed _ _ Hi)), waiting_in_queue. exists (QC c). cbn. rewrite Hcv. by left.
Qed.
Lemma kmove_wait t k cs c m q k' : inv k cs → all_spin k → current k = Some t → condvar_list k !! c = Some (Some (mkCV q)) → condvar_wait c m k = Ok k' →
  kmove t k k' ∧ current k' = None ∧ conts k' !! t = Some (CRelock m) ∧ ∀ d, queue_of k' (QC d) = if decide (d = c) then q ++ [t] else queue_of k (QC d).
Proof.
  intros Hi Hs Hc Hcv. unfold condvar_wait. destruct (mutex_unlock m k) as [k1|] eqn:Hu; [|done]. cbn.
  destruct (kmove_unlock t k m k1 Hs Hc Hu) as (Hm1 & Hq1 & Hc1).
  assert (condvar_list k1 = condvar_list k) as Hcl.
  { unfold mutex_unlock in Hu. destruct (mutex_list k !! m) as [[y|]|] eqn:Hm; [|done..]. destruct (Hs m y Hm) as [l ->]. by injection Hu as <-. }
  rewrite Hcl, Hcv. unfold current_task, block_current_and_run_next, take_current_task. rewrite Hc1. cbn. rewrite Hc1. intros [= <-].
  rewrite <- Hcl in Hcv. destruct (condvar_set k1 c q (q ++ [t]) Hcv) as [He Hq]. rewrite Hcl in He, Hq.
  split; [|split; [done|split; [apply lookup_insert_eq|intros d; etrans; [apply (Hq d)|]; case_decide; [done|apply Hq1]]]].
  eapply kmove_trans; [exact Hm1|]. split; cbn; try done; [intros x Hx; by rewrite lookup_insert_ne|]. apply live_insert.
  apply (km_live _ _ _ Hm1). exists Running. by apply (pl_current _ (in_placed _ _ Hi)).
Qed.

(** ** The invariant *)
Definition minv (k : kst) (pcs : gmap Z bpc) : Prop :=
  match pcs !! 0 with
  | Some (MainSpawn i) => ∀ t, is_Some (pcs !! t) ↔ 0 ≤ t ≤ Z.of_nat i
  | Some (MainJoin i) => (∀ t, 0 ≤ t ≤ Z.of_nat N → is_Some (pcs !! t)) ∧ ∀ t, 1 ≤ t ≤ Z.of_nat i → status k !! t = None
  | _ => False
  end.
Record binv (u : bst) : Prop := {
  bi_kernel : kinv (bs_k u) (bs_cs u) (bs_mem u) (bs_pc u);
  bi_once : oinv (bs_k u) (bs_mem u) (bs_pc u);
  bi_program : pinv (bs_mem u) (bs_pc u) (asleep (bs_k u));
  bi_main : minv (bs_k u) (bs_pc u);
}.
Definition grows (mm mm' : bmem) : Prop := ∀ b m c, lazy mm b = Complete m c → lazy mm' b = Complete m c.

Section kernel_steps.
Context (k : kst) (cs : gset (Z * nat)) (mm : bmem) (pcs : gmap Z bpc).
Context (Hk : kinv k cs mm pcs) (Ho : oinv k mm pcs) (t : Z) (p : bpc) (Hp : pcs !! t = Some p).

Lemma held_grows x q mm' : grows mm mm' → pcs !! x = Some q → held mm' q = held mm q.
Proof.
  intros Hg Hx. destruct q as [| b s | | | ]; try done. destruct (started s) eqn:Hs; [|by destruct s].
  destruct (oi_started _ _ _ Ho b x s Hx Hs) as (m & c & Hc). unfold held. by rewrite Hc, (Hg b m c Hc).
Qed.

Lemma kinv_move k' cs' mm' p' :
  kmove t k k' → current k = Some t ∨ current k = None → is_Some (status k !! t) → inv k' cs' →
  (∀ x m, x ≠ t → (x, m) ∈ cs' ↔ (x, m) ∈ cs) → grows mm mm' →
  (∀ x c, x ∈ queue_of k' (QC c) → (x ∈ queue_of k (QC c) ∧ x ≠ t) ∨ x = t ∧ ∃ b m, lazy mm' b = Complete m c ∧ p' = At b SignalNext) →
  outside k' cs' mm' t p' ∨ inside k' cs' mm' t p' → kinv k' cs' mm' (<[t := p']> pcs).
Proof.
  intros Hm Hc Hst Hi Hcs Hg Hq Hnew. split.
  - done.
  - intros x q [[<- <-]|[Hne Hx]]%lookup_insert_Some; [tauto|]. apply not_eq_sym in Hne.
    pose proof (km_conts _ _ _ Hm x Hne) as Hct. pose proof (km_current _ _ _ Hm x Hne) as Hcu.
    destruct (ki_thread _ _ _ _ Hk x q Hx) as [[Hin Hh]|[(Hn & Hno & b & m & c & Hl & Hr)|[Hg1 Hg2]]].
    + left. split; [right; rewrite Hct; destruct Hin as [Hin|]; [destruct Hc; congruence|done]|]. intros m. by rewrite Hcs, Hh, (held_grows x q mm').
    + right. left. split; [done|]. split; [intros m' Hm'; apply (Hno m'); by apply Hcs|]. exists b, m, c. rewrite Hct. split; [by apply Hg|done].
    + right. right. split; [|intros m Hin; apply (Hg2 m); by apply Hcs]. apply eq_None_not_Some. intros Hs%(km_live _ _ _ Hm). rewrite Hg1 in Hs. by destruct Hs.
  - intros x m Hx. rewrite lookup_insert_is_Some'. destruct (decide (x = t)) as [->|Hne]; [by left|right]. apply (ki_only _ _ _ _ Hk x m). by apply Hcs.
  - intros x Hx%(km_live _ _ _ Hm). rewrite lookup_insert_is_Some'. right. by apply (ki_live _ _ _ _ Hk).
  - intros x q Hx Hn. assert (¬ is_Some (status k !! x)) as Hno by (intros Hs%(km_live _ _ _ Hm); rewrite Hn in Hs; by destruct Hs).
    apply lookup_insert_Some in Hx as [[<- _]|[_ Hx]]; [done|]. eapply (ki_gone _ _ _ _ Hk); [exact Hx|]. by apply eq_None_not_Some.
  - intros x c Hx. destruct (Hq x c Hx) as [[Hin Hne]|[-> (b & m & Hl & ->)]].
    + destruct (ki_queue _ _ _ _ Hk x c Hin) as (b & m & Hl & Hx'). exists b, m. split; [by apply Hg|by rewrite lookup_insert_ne].
    + exists b, m. by rewrite lookup_insert_eq.
  - apply (km_spin _ _ _ Hm), Hk.
  - destruct (km_plain _ _ _ Hm) as [-> ->]. apply Hk.
Qed.

Lemma oinv_move k' mm' p' :
  kmove t k k' → (∀ b, lazy mm' b = lazy mm b) → (∀ b, p' = At b Creating ↔ p = At b Creating) →
  (∀ b s, p' = At b s → started s = true → ∃ m c, lazy mm b = Complete m c) → oinv k' mm' (<[t := p']> pcs).
Proof.
  intros Hm Hl Hcr Hst. destruct Ho as [O1 O2 O3 O4 O5 O6]. split.
  - intros b m c. rewrite Hl. intros [H1 H2]%O1. split; [by apply (km_mutexes _ _ _ Hm)|by apply (km_condvars _ _ _ Hm)].
  - intros b b' m m' c. rewrite !Hl. apply O2.
  - intros b x m. rewrite Hl. intros H%O3. by apply (km_mutexes _ _ _ Hm).
  - intros b x o. rewrite Hl. intros H%O4. destruct (decide (x = t)) as [->|Hne]; [|by rewrite lookup_insert_ne].
    rewrite lookup_insert_eq. f_equal. apply Hcr. congruence.
  - intros b x. rewrite Hl. intros [[<- H]|[_ H]]%lookup_insert_Some; [|by apply O5]. apply O5. rewrite Hp. f_equal. by apply Hcr.
  - intros b x s. rewrite Hl. intros [[<- H]|[_ H]]%lookup_insert_Some; [by apply Hst|intros Hs; by eapply O6].
Qed.

Lemma minv_move k' p' : kmove t k k' → is_main p = false → is_main p' = false → minv k pcs → minv k' (<[t := p']> pcs).
Proof.
  intros Hm Hmp Hmp' H. unfold minv in *. assert (t ≠ 0) as Ht by (intros ->; rewrite Hp in H; by destruct p).
  rewrite lookup_insert_ne by done.
  assert (∀ x, is_Some (<[t := p']> pcs !! x) ↔ is_Some (pcs !! x)) as Hd.
  { intros x. rewrite lookup_insert_is_Some'. split; [|by right]. intros [<-|]; [by eexists|done]. }
  destruct (pcs !! 0) as [[| | |i|i]|]; try done; [intros x; rewrite Hd; apply H|]. destruct H as [H1 H2]. split; [intros x Hx; by apply Hd, H1|].
  intros x Hx. apply eq_None_not_Some. intros Hs%(km_live _ _ _ Hm). rewrite H2 in Hs by done. by destruct Hs.
Qed.

Context (Hcur : current k = Some t).
Lemma running_status : is_Some (status k !! t).
Proof. exists Running. by apply (pl_current _ (in_placed _ _ (ki_kern _ _ _ _ Hk))). Qed.
Lemma running_awake : ¬ asleep k t.
Proof.
  intros [c Hc]. destruct (current_elsewhere k t (in_placed _ _ (ki_kern _ _ _ _ Hk)) Hcur) as [_ []]. apply waiting_in_queue. by exists (QC c).
Qed.
Lemma running_in_text : outside k cs mm t p.
Proof. destruct (ki_thread _ _ _ _ Hk t p Hp) as [H|[[Hn _]|[Hn _]]]; [done|by destruct Hn|]. destruct running_status. congruence. Qed.
(** A call that leaves the queues alone. *)
Lemma same_queues k' mm' p' : (∀ c, queue_of k' (QC c) = queue_of k (QC c)) → ∀ x c,
  x ∈ queue_of k' (QC c) → (x ∈ queue_of k (QC c) ∧ x ≠ t) ∨ x = t ∧ ∃ b m, lazy mm' b = Complete m c ∧ p' = At b SignalNext.
Proof. intros Hq x c Hx. rewrite Hq in Hx. left. split; [done|]. intros ->. apply running_awake. by exists c. Qed.
Lemma same_asleep k' : (∀ c, queue_of k' (QC c) = queue_of k (QC c)) → ∀ x, asleep k' x ↔ asleep k x.
Proof. intros Hq x. unfold asleep. by setoid_rewrite Hq. Qed.

(** A step of the thread outside the kernel. *)
Lemma kinv_local mm' p' : grows mm mm' → held mm' p' = held mm p → kinv k cs mm' (<[t := p']> pcs).
Proof.
  intros Hg Hh. destruct running_in_text as [_ Hcs]. apply kinv_move; [by apply kmove_refl|by left|apply running_status|apply Hk|done|done|by apply same_queues|].
  left. split; [by left|]. intros m. by rewrite Hh.
Qed.
(** Nobody else is between the calls of [mutex_lock] and [mutex_unlock]. *)
Lemma held_alone x q m : held mm p = Some m → pcs !! x = Some q → held mm q = Some m → (∀ b, q ≠ At b Load ∧ q ≠ At b SignalNext) → x = t.
Proof.
  intros Ht Hx Hq Hst. destruct running_in_text as [_ Hcs]. apply (in_excl _ _ (ki_kern _ _ _ _ Hk) m); left; [|by apply Hcs].
  destruct (ki_thread _ _ _ _ Hk x q Hx) as [[_ Hcs']|[(_ & _ & b & m' & c & _ & Hr)|[Hg _]]]; [by apply Hcs'|destruct (Hst b) as [H1 H2]; naive_solver|].
  by rewrite (ki_gone _ _ _ _ Hk x q Hx Hg) in Hq.
Qed.
End kernel_steps.

(** ** The lazy statics *)
Lemma lazy_set b o mm b' : lazy (set_lazy b o mm) b' = if decide (b' = b) then o else lazy mm b'.
Proof. unfold lazy, set_lazy. cbn. case_decide as Hb; [subst; by rewrite lookup_insert_eq|by rewrite lookup_insert_ne]. Qed.
Lemma kmove_create_mutex t k m k' : current k = Some t → sys_mutex_create false k = (m, k') →
  kmove t k k' ∧ (∀ c, queue_of k' (QC c) = queue_of k (QC c)) ∧ mutex_exists k' (Z.to_nat m).
Proof.
  unfold sys_mutex_create. intros Hc. pose proof (first_free_spec (mutex_list k) (MutexSpin false)) as Hs.
  destruct (first_free (mutex_list k) (MutexSpin false)) as [i l] eqn:Hf. destruct Hs as (H1 & H2 & H3 & H4). intros [= <- <-]. split_and!; [|done|].
  - split; cbn; try done; [intros x Hx; congruence|intros n [y Hy]; exists y; by apply H2|].
    intros Hsp j y. cbn. destruct (decide (j = i)) as [->|Hj]; [rewrite H1; intros [= <-]; by eexists|].
    destruct (H3 j Hj) as [E|E]; rewrite E; [apply Hsp|done].
  - exists (MutexSpin false). by rewrite Nat2Z.id.
Qed.
Lemma kmove_create_condvar t k c k' : current k = Some t → sys_condvar_create k = (c, k') →
  kmove t k k' ∧ (∀ d, queue_of k' (QC d) = queue_of k (QC d)) ∧ condvar_exists k' (Z.to_nat c) ∧ ¬ condvar_exists k (Z.to_nat c).
Proof.
  unfold sys_condvar_create. intros Hc. pose proof (first_free_spec (condvar_list k) (mkCV [])) as Hs.
  pose proof (first_free_queues queue_c (condvar_list k) (mkCV [])) as [Hq1 Hq2]; [done..|].
  destruct (first_free (condvar_list k) (mkCV [])) as [i l] eqn:Hf. destruct Hs as (H1 & H2 & H3 & H4). cbn in Hq1, Hq2. intros [= <- <-]. split_and!.
  - split; cbn; try done; [intros x Hx; congruence|]. intros d [q Hq]. exists q. by apply H2.
  - intros d. cbn. done.
  - exists []. by rewrite Nat2Z.id.
  - intros [q Hq]. rewrite Nat2Z.id in Hq. by destruct (H4 (mkCV q)).
Qed.

Section once_steps.
Context (k : kst) (mm : bmem) (pcs : gmap Z bpc) (Ho : oinv k mm pcs) (t : Z) (b : nat) (s : stage) (Hp : pcs !! t = Some (At b s)).

Lemma oinv_set k' o p' :
  kmove t k k' → started s = false → lazy mm b = Incomplete ∨ (∃ o', lazy mm b = InProgress t o') →
  match o with
  | Incomplete => False
  | InProgress t' om => t' = t ∧ p' = At b Creating ∧ ∀ m, om = Some m → mutex_exists k' m
  | Complete m c => p' = At b Lock ∧ mutex_exists k' m ∧ condvar_exists k' c ∧ ∀ b' m', lazy mm b' ≠ Complete m' c
  end → oinv k' (set_lazy b o mm) (<[t := p']> pcs).
Proof.
  intros Hm Hs Hold Hnew. destruct Ho as [O1 O2 O3 O4 O5 O6].
  assert (∀ x, x ≠ t → pcs !! x ≠ Some (At b Creating)) as Halone.
  { intros x Hx Hc. destruct (O5 b x Hc) as [o1 Ho1]. destruct Hold as [|[o2 ?]]; congruence. }
  assert (∀ x s', pcs !! x = Some (At b s') → started s' = false) as Hns.
  { intros x s' Hx. destruct (started s') eqn:E; [|done]. destruct (O6 b x s' Hx E) as (m & c & ?). destruct Hold as [|[o2 ?]]; congruence. }
  split.
  - intros b' m c. rewrite lazy_set. case_decide as Hb.
    + intros ->. by destruct Hnew as (_ & ? & ? & _).
    + intros [H1 H2]%O1. split; [by apply (km_mutexes _ _ _ Hm)|by apply (km_condvars _ _ _ Hm)].
  - intros b1 b2 m1 m2 c. rewrite !lazy_set. do 2 case_decide; subst; try done; [..|apply O2].
    + intros -> H2. destruct Hnew as (_ & _ & _ & Hd). by destruct (Hd b2 m2).
    + intros H2 ->. destruct Hnew as (_ & _ & _ & Hd). by destruct (Hd b1 m1).
  - intros b' x m. rewrite lazy_set. case_decide as Hb; [intros ->; by apply Hnew|]. intros H%O3. by apply (km_mutexes _ _ _ Hm).
  - intros b' x om. rewrite lazy_set. case_decide as Hb; [intros ->; destruct Hnew as (-> & -> & _); subst; apply lookup_insert_eq|].
    intros H%O4. destruct (decide (x = t)) as [->|Hne]; [congruence|by rewrite lookup_insert_ne].
  - intros b' x. rewrite lazy_set. intros [[<- H]|[Hne H]]%lookup_insert_Some.
    + destruct o as [|t' om|m c]; [done| |by destruct Hnew as (? & _); congruence]. destruct Hnew as (-> & Hn & _). rewrite Hn in H. injection H as <-.
      rewrite decide_True by done. by exists om.
    + case_decide as Hb; [subst; by destruct (Halone x (not_eq_sym Hne))|by apply O5].
  - intros b' x s'. rewrite lazy_set. intros [[<- H]|[Hne H]]%lookup_insert_Some Hs'.
    + destruct o as [|t' om|m c]; [done|destruct Hnew as (_ & Hn & _); rewrite Hn in H; by injection H as <- <-|].
      destruct Hnew as (Hn & _). rewrite Hn in H. injection H as <- <-. rewrite decide_True by done. by exists m, c.
    + case_decide as Hb; [subst; by rewrite (Hns x s' H) in Hs'|by eapply O6].
Qed.
End once_steps.

(** ** The steps of [Barrier::block] keep the invariant *)
Section block_steps.
Context (k : kst) (cs : gset (Z * nat)) (mm : bmem) (pcs : gmap Z bpc) (Hi : binv (mkB k cs mm pcs)).
Context (t : Z) (b : nat) (s : stage) (Hcur : current k = Some t) (Hp : pcs !! t = Some (At b s)).
Let Hk : kinv k cs mm pcs := bi_kernel _ Hi.
Let Ho : oinv k mm pcs := bi_once _ Hi.
Let Hpr : pinv mm pcs (asleep k) := bi_program _ Hi.
Let Hm : minv k pcs := bi_main _ Hi.

(** A step that changes neither the statics nor the counts of the barriers. *)
Lemma pinv_stage s' mm' : (∀ b', count mm' b' = count mm b') → output mm' = output mm → s' ≠ SignalNext →
  (∀ b0, arrived b0 (At b s') = arrived b0 (At b s)) → (∀ r, s' = Store r → r = count mm b) → (s' = Wait → count mm b ≠ N) →
  (∀ b0, passed b0 (At b s') = true → passed b0 (At b s) = true ∨ count mm b0 = N) →
  (∀ b0, pending b0 (At b s) → pending b0 (At b s') ∨ count mm b0 ≠ N) → pinv mm' (<[t := At b s']> pcs) (asleep k).
Proof.
  intros Hc Hout Hn Ha Hst Hw Hpa Hpe. pose proof (pv_shape _ _ _ Hpr t _ Hp) as Hsh.
  apply (pinv_move mm pcs (asleep k) Hpr t (At b s) Hp); try done; [by eapply running_awake|..].
  - intros b0 r [= <- ->]. by apply Hst.
  - intros b0 [= <- ->]. by apply Hw.
  - intros b0 [= _ ->]. done.
Qed.
Lemma pinv_leave : s = Unlock → pinv mm (<[t := Printing (S b) 0]> pcs) (asleep k).
Proof.
  intros Hs. pose proof (pv_shape _ _ _ Hpr t _ Hp) as Hsh. cbn in Hsh.
  apply (pinv_move mm pcs (asleep k) Hpr t (At b s) Hp); try done; rewrite ?Hs; [by eapply running_awake|cbn; lia|intros b0; by_stage..|].
  intros b0 [?|[?|?]]; done.
Qed.

Lemma local_keeps p' mm' : (∀ b', lazy mm' b' = lazy mm b') → held mm p' = held mm (At b s) → is_main p' = false →
  (∀ b0, p' = At b0 Creating ↔ At b s = At b0 Creating) → (∀ b0 s', p' = At b0 s' → started s' = true → ∃ m c, lazy mm b0 = Complete m c) →
  pinv mm' (<[t := p']> pcs) (asleep k) → binv (mkB k cs mm' (<[t := p']> pcs)).
Proof.
  intros Hl Hh Hmp Hcr Hst Hpi. assert (held mm' p' = held mm p') as Hhm by (destruct p' as [|b' s'| | | ]; cbn; rewrite ?Hl; done). split; cbn.
  - eapply kinv_local; [exact Hk|exact Ho|exact Hp|exact Hcur|intros ? ? ?; by rewrite Hl|congruence].
  - eapply oinv_move; [exact Ho|exact Hp|by apply kmove_refl|done|done|done].
  - done.
  - eapply minv_move; [exact Hp|by apply kmove_refl|done|done|exact Hm].
Qed.

(** A call that takes or gives back the mutex, with the queues of the condition
    variables as they are. *)
Lemma call_keeps k' cs' p' : kmove t k k' → (∀ c, queue_of k' (QC c) = queue_of k (QC c)) → inv k' cs' →
  (∀ x m, x ≠ t → (x, m) ∈ cs' ↔ (x, m) ∈ cs) → started s = true → is_main p' = false →
  (∀ b0 s', p' = At b0 s' → b0 = b ∧ started s' = true) →
  outside k' cs' mm t p' ∨ inside k' cs' mm t p' → pinv mm (<[t := p']> pcs) (asleep k) → binv (mkB k' cs' mm (<[t := p']> pcs)).
Proof.
  intros Hmv Hq Hinv Hcs Hs Hmp Hb Hout Hpi. destruct (oi_started _ _ _ Ho b t s Hp Hs) as (m & c & Hmc). split; cbn.
  - eapply kinv_move; [exact Hk|exact Ho|exact Hmv|by left|by eapply running_status|exact Hinv|exact Hcs|by intros ? ? ?|by eapply same_queues|done].
  - eapply oinv_move; [exact Ho|exact Hp|exact Hmv|done| |].
    + intros b0. split; [intros E; destruct (Hb _ _ E) as [_ ?]; done|intros [= _ ->]; done].
    + intros b0 s' E _. destruct (Hb _ _ E) as [-> _]. eauto.
  - eapply pinv_asleep; [exact Hpi|]. by apply same_asleep.
  - by eapply minv_move.
Qed.

End block_steps.

Lemma ready_awake k t : placed k → t ∈ ready_queue k → ¬ asleep k t.
Proof.
  intros Hp Ht [c Hc]. pose proof (pl_ready _ Hp t Ht). assert (t ∈ waiters k) as Hw by (apply waiting_in_queue; by exists (QC c)).
  pose proof (pl_waiting _ Hp t Hw). congruence.
Qed.

Section block_calls.
Context (k : kst) (cs : gset (Z * nat)) (mm : bmem) (pcs : gmap Z bpc) (Hi : binv (mkB k cs mm pcs)).
Context (t : Z) (b : nat) (Hcur : current k = Some t).
Let Hk : kinv k cs mm pcs := bi_kernel _ Hi.
Let Ho : oinv k mm pcs := bi_once _ Hi.
Let Hpr : pinv mm pcs (asleep k) := bi_program _ Hi.
Let Hm : minv k pcs := bi_main _ Hi.

Lemma access_keeps : pcs !! t = Some (At b Access) → lazy mm b = Incomplete →
  binv (mkB k cs (set_lazy b (InProgress t None) mm) (<[t := At b Creating]> pcs)).
Proof.
  intros Hp Hl. assert (grows mm (set_lazy b (InProgress t None) mm)) as Hg.
  { intros b' m c Hc. rewrite lazy_set. case_decide; [subst; congruence|done]. } split; cbn.
  - by eapply kinv_local.
  - eapply oinv_set; [exact Ho|exact Hp|by apply kmove_refl|done|by left|done].
  - eapply pinv_stage; [exact Hi|exact Hcur|exact Hp|done..| | ]; [by left|]. intros b0 [?|[?|?]]; done.
  - eapply minv_move; [exact Hp|by apply kmove_refl|done|done|exact Hm].
Qed.

Lemma creating_keeps k' o s' : pcs !! t = Some (At b Creating) → kmove t k k' → (∀ c, queue_of k' (QC c) = queue_of k (QC c)) → inv k' cs →
  current k' = Some t →
  match o with
  | Incomplete => False
  | InProgress t' om => t' = t ∧ s' = Creating ∧ ∀ m, om = Some m → mutex_exists k' m
  | Complete m c => s' = Lock ∧ mutex_exists k' m ∧ condvar_exists k' c ∧ ∀ b' m', lazy mm b' ≠ Complete m' c
  end → binv (mkB k' cs (set_lazy b o mm) (<[t := At b s']> pcs)).
Proof.
  intros Hp Hmv Hq Hinv Hc' Hnew. destruct (oi_creating _ _ _ Ho b t Hp) as [o' Hl]. assert (grows mm (set_lazy b o mm)) as Hg.
  { intros b' m c Hc. rewrite lazy_set. case_decide; [subst; congruence|done]. }
  assert (s' = Creating ∨ s' = Lock) as Hs' by (destruct o; naive_solver).
  destruct (running_in_text _ _ _ _ Hk t _ Hp Hcur) as [_ Hcs]. split; cbn.
  - eapply kinv_move; [exact Hk|exact Ho|exact Hmv|by left|by eapply running_status|exact Hinv|done|exact Hg|by eapply same_queues|].
    left. split; [by left|]. intros m. rewrite Hcs. by destruct Hs' as [->| ->].
  - eapply oinv_set; [exact Ho|exact Hp|exact Hmv|done|right; by exists o'|]. destruct o as [|t' om|m c]; [done|..]; naive_solver.
  - eapply pinv_asleep; [|by apply same_asleep].
    destruct Hs' as [->| ->]; (eapply pinv_stage; [exact Hi|exact Hcur|exact Hp|done..| |]; [by left|intros b0 [?|[?|?]]; done]).
  - by eapply minv_move.
Qed.

Context (m c : nat) (Hmc : lazy mm b = Complete m c).
Lemma held_stage s : started s = true → s ≠ Lock → held mm (At b s) = Some m.
Proof. intros Hs Hl. destruct s; try done; cbn; by rewrite Hmc. Qed.
Lemma sys_lock_ok i k' : call_ok (sys_mutex_lock (Z.of_nat i) k) = Some k' → mutex_exists k i ∧ mutex_lock i k = Ok k'.
Proof. intros H%call_ok_inv. by apply sys_lock_inv. Qed.

Lemma lock_step k' : pcs !! t = Some (At b Lock) → call_ok (sys_mutex_lock (Z.of_nat m) k) = Some k' →
  binv (mkB k' (acquired k' t m ∪ cs) mm (<[t := At b Load]> pcs)).
Proof.
  intros Hp [Hex Hl]%sys_lock_ok. pose proof (ki_kern _ _ _ _ Hk) as Hinv.
  destruct (kmove_lock t k m k' (in_placed _ _ Hinv) (ki_spin _ _ _ _ Hk) Hcur Hl) as (Hmv & Hq & Hcase).
  destruct (running_in_text _ _ _ _ Hk t _ Hp Hcur) as [_ Hcs].
  eapply call_keeps; [exact Hi|exact Hcur|exact Hp|exact Hmv|exact Hq|eapply inv_step; [exact Hinv|eexists; by eapply st_lock]| |done|done| | | ].
  - intros x n Hx. unfold acquired. case_decide; set_solver.
  - by intros b0 s' [= <- <-].
  - destruct Hcase as [Hc'|[Hc' Hct]].
    + left. split; [by left|]. intros n. rewrite (acquired_some _ _ _ Hc'), held_stage by done. rewrite elem_of_union, Hcs. cbn. set_solver.
    + right. rewrite (acquired_none _ _ _ _ Hc'). split; [by rewrite Hc'|]. split; [intros n Hn%Hcs; done|]. exists b, m, c. split; [done|by left].
  - eapply pinv_stage; [exact Hi|exact Hcur|exact Hp|done..| |]; [by left|intros b0 [?|[?|?]]; done].
Qed.

Lemma unlock_step k' : pcs !! t = Some (At b Unlock) → call_ok (sys_mutex_unlock (Z.of_nat m) k) = Some k' →
  binv (mkB k' (cs ∖ {[(t, m)]}) mm (<[t := Printing (S b) 0]> pcs)).
Proof.
  intros Hp Hl%call_ok_inv%sys_unlock_inv. pose proof (ki_kern _ _ _ _ Hk) as Hinv.
  destruct (kmove_unlock t k m k' (ki_spin _ _ _ _ Hk) Hcur Hl) as (Hmv & Hq & Hc').
  destruct (running_in_text _ _ _ _ Hk t _ Hp Hcur) as [_ Hcs].
  eapply call_keeps; [exact Hi|exact Hcur|exact Hp|exact Hmv|exact Hq|eapply inv_step; [exact Hinv|eexists; eapply st_unlock; [done| |done]]| |done|done|done| | ].
  - apply Hcs. by apply held_stage.
  - intros x n Hx. set_solver.
  - left. split; [by left|]. intros n. rewrite elem_of_difference, Hcs, held_stage by done. cbn. set_solver.
  - by eapply pinv_leave.
Qed.

Lemma stage_step s s' mm' : pcs !! t = Some (At b s) → started s = true → s ≠ Lock → started s' = true → s' ≠ Lock → (∀ b', lazy mm' b' = lazy mm b') →
  pinv mm' (<[t := At b s']> pcs) (asleep k) → binv (mkB k cs mm' (<[t := At b s']> pcs)).
Proof.
  intros Hp Hs Hsl Hs' Hsl' Hl Hpi. eapply local_keeps; [exact Hi|exact Hcur|exact Hp|exact Hl|by rewrite !held_stage|done| | |exact Hpi].
  - intros b0. split; intros [= _ ->]; done.
  - intros b0 s0 [= <- <-] _. eauto.
Qed.

Lemma count_step r : pcs !! t = Some (At b (Store r)) → binv (mkB k cs (set_count b (r + 1) mm) (<[t := At b If]> pcs)).
Proof.
  intros Hp. eapply stage_step; [exact Hp|done..|]. apply (pinv_store mm pcs _ Hpr t _ Hp); [by eapply running_awake|done|].
  intros x q Hx Hq. assert (∀ s, started s = true → s ≠ Lock → s ≠ Load → s ≠ SignalNext → q ≠ At b s) as Hall; [|split; [by apply Hall|intros r'; by apply Hall]].
  intros s H1 H2 H3 H4 ->. apply Hx. eapply (held_alone k cs mm pcs Hk t _ Hp Hcur x _ m); [by apply held_stage|exact Hq|by apply held_stage|].
  intros b0. split; congruence.
Qed.
Lemma if_step : pcs !! t = Some (At b If) → binv (mkB k cs mm (<[t := At b (if (count mm b =? N)%nat then SignalLast else Wait)]> pcs)).
Proof.
  intros Hp. destruct (Nat.eqb_spec (count mm b) N) as [He|He]; (eapply stage_step; [exact Hp|done..|]);
    (eapply pinv_stage; [exact Hi|exact Hcur|exact Hp|done..| | ]).
  - intros b0 Hb. destruct (decide (b0 = b)) as [->|]; [by right|left]. by_stage.
  - intros b0 [E|[E|E]]; [|done..]. injection E as <-. left. by right; left.
  - by left.
  - intros b0 [E|[E|E]]; [|done..]. injection E as <-. by right.
Qed.

Lemma signal_step s k' : s = SignalLast ∨ s = SignalNext → pcs !! t = Some (At b s) → call_ok (sys_condvar_signal (Z.of_nat c) k) = Some k' →
  binv (mkB k' cs mm (<[t := At b Unlock]> pcs)).
Proof.
  intros Hs Hp Hl%call_ok_inv. pose proof (ki_kern _ _ _ _ Hk) as Hinv. destruct (oi_exists _ _ _ Ho b m c Hmc) as [_ [q Hq]].
  unfold sys_condvar_signal in Hl. rewrite Nat2Z.id in Hl. case_match; [|done]. destruct (condvar_signal c k) as [k1|] eqn:Hsig; [|done]. cbn in Hl. injection Hl as ->.
  destruct (kmove_signal t k cs c q k' Hinv Hcur Hq Hsig) as (Hmv & Hc' & Hqs). assert (queue_of k (QC c) = q) as Hqc by (cbn; by rewrite Hq).
  destruct (running_in_text _ _ _ _ Hk t _ Hp Hcur) as [_ Hcs]. assert (started s = true) as Hst by (by destruct Hs as [->| ->]).
  assert (s ≠ Lock) as Hsl by (by destruct Hs as [->| ->]). assert (∀ d x, x ∈ queue_of k' (QC d) → x ∈ queue_of k (QC d)) as Hsub.
  { intros d x. rewrite Hqs. case_decide as Hd; [|done]. subst d. rewrite Hqc. destruct q; [done|by right]. }
  split; cbn [bs_k bs_cs bs_mem bs_pc].
  - eapply kinv_move; [exact Hk|exact Ho|exact Hmv|by left|by eapply running_status|eapply inv_step; [exact Hinv|eexists; by eapply st_signal]|done|by intros ? ? ?| |].
    + intros x d Hx%Hsub. left. split; [done|]. intros ->. eapply running_awake; [exact Hk|exact Hcur|by exists d].
    + left. split; [by left|]. intros n. by rewrite Hcs, !held_stage.
  - eapply oinv_move; [exact Ho|exact Hp|exact Hmv|done| |intros b0 s' [= <- <-] _; eauto]. intros b0. split; [done|]. intros [= _ ->]. done.
  - apply (pinv_signal mm pcs (asleep k) Hpr t _ Hp) with (o := head q); [by eapply running_awake|destruct Hs as [->| ->]; auto|].
    assert (∀ x, x ∈ q → pcs !! x = Some (At b SignalNext)) as Hat.
    { intros x Hx. rewrite <- Hqc in Hx. destruct (ki_queue _ _ _ _ Hk x c Hx) as (b' & m' & Hl' & Hx'). by rewrite (oi_diff _ _ _ Ho b b' m m' c Hmc Hl'). }
    assert (inv k' cs) as Hinv' by (eapply inv_step; [exact Hinv|eexists; by eapply st_signal]).
    assert (∀ d x, x ∈ queue_of k (QC d) → d ≠ c → x ∈ queue_of k' (QC d)) as Hkeep by (intros d x Hx Hd; rewrite Hqs; by rewrite decide_False).
    assert (∀ x, x ∈ tail q → x ∈ queue_of k' (QC c)) as Htail by (intros x Hx; rewrite Hqs; by rewrite decide_True).
    destruct q as [|y q]; cbn [head].
    + split; [|intros x; split; intros [d Hd]; exists d; [by apply Hsub|destruct (decide (d = c)) as [->|]; [by rewrite Hqc in Hd; apply elem_of_nil in Hd|by apply Hkeep]]].
      intros x [d Hd] Hx. destruct (ki_queue _ _ _ _ Hk x d Hd) as (b' & m' & Hl' & Hx'). rewrite Hx in Hx'. injection Hx' as <-.
      rewrite Hmc in Hl'. injection Hl' as <- <-. rewrite Hqc in Hd. by apply elem_of_nil in Hd.
    + split_and!; [exists c; rewrite Hqc; by left|apply Hat; by left|]. intros x. split.
      * intros Hx. split; [destruct Hx as [d Hd]; exists d; by apply Hsub|]. intros ->. revert Hx. apply ready_awake; [apply Hinv'|].
        unfold condvar_signal in Hsig. rewrite Hq in Hsig. injection Hsig as <-. cbn. apply elem_of_app. right. by left.
      * intros [[d Hd] Hne]. exists d. destruct (decide (d = c)) as [->|]; [|by apply Hkeep]. apply Htail. rewrite Hqc in Hd. by apply elem_of_cons in Hd as [->|Hd].
  - eapply minv_move; [exact Hp|exact Hmv|done|done|exact Hm].
Qed.

Lemma wait_step k' : pcs !! t = Some (At b Wait) → call_ok (sys_condvar_wait (Z.of_nat c) (Z.of_nat m) k) = Some k' →
  binv (mkB k' (cs ∖ {[(t, m)]}) mm (<[t := At b SignalNext]> pcs)).
Proof.
  intros Hp Hl%call_ok_inv. pose proof (ki_kern _ _ _ _ Hk) as Hinv. destruct (oi_exists _ _ _ Ho b m c Hmc) as [_ [q Hq]].
  unfold sys_condvar_wait in Hl. rewrite !Nat2Z.id in Hl. do 2 (case_match; [done|]). destruct (condvar_wait c m k) as [k1|] eqn:Hw; [|done]. cbn in Hl. injection Hl as ->.
  destruct (kmove_wait t k cs c m q k' Hinv (ki_spin _ _ _ _ Hk) Hcur Hq Hw) as (Hmv & Hc' & Hct & Hqs). assert (queue_of k (QC c) = q) as Hqc by (cbn; by rewrite Hq).
  destruct (running_in_text _ _ _ _ Hk t _ Hp Hcur) as [_ Hcs]. pose proof (running_awake _ _ _ _ Hk t Hcur) as Haw.
  assert (∀ d x, x ∈ queue_of k' (QC d) ↔ x ∈ queue_of k (QC d) ∨ x = t ∧ d = c) as Hin.
  { intros d x. rewrite Hqs. case_decide as Hd; [subst d; rewrite Hqc, elem_of_app, list_elem_of_singleton|]; naive_solver. }
  split; cbn [bs_k bs_cs bs_mem bs_pc].
  - eapply kinv_move; [exact Hk|exact Ho|exact Hmv|by left|by eapply running_status|eapply inv_step; [exact Hinv|eexists; eapply st_wait; [done| |done]]|set_solver|by intros ? ? ?| |].
    + apply Hcs. by apply held_stage.
    + intros x d [Hx|[-> ->]]%Hin; [left; split; [done|]; intros ->; apply Haw; by exists d|right; split; [done|]; by exists b, m].
    + right. split; [by rewrite Hc'|]. split.
      * intros n. rewrite elem_of_difference, Hcs, held_stage by done. set_solver.
      * exists b, m, c. split; [done|]. right. split; [done|by left].
  - eapply oinv_move; [exact Ho|exact Hp|exact Hmv|done|done|intros b0 s' [= <- <-] _; eauto].
  - apply (pinv_wait mm pcs (asleep k) Hpr t _ Hp); [done|done|]. intros x. unfold asleep. setoid_rewrite Hin. naive_solver.
  - eapply minv_move; [exact Hp|exact Hmv|done|done|exact Hm].
Qed.
End block_calls.

Lemma block_keeps k cs mm pcs t b s k' cs' mm' p' : binv (mkB k cs mm pcs) → current k = Some t → pcs !! t = Some (At b s) →
  block t b s k cs mm = Some (k', cs', mm', p') → binv (mkB k' cs' mm' (<[t := p']> pcs)).
Proof.
  intros Hi Hc Hp. pose proof (bi_kernel _ Hi) as Hk. pose proof (ki_kern _ _ _ _ Hk) as Hinv. pose proof (bi_once _ Hi) as Ho. cbn in Hk, Hinv, Ho.
  unfold block. destruct s, (lazy mm b) as [|t' [m|]|m c] eqn:Hl; try done.
  - intros [= <- <- <- <-]. by apply access_keeps.
  - intros [= <- <- <- <-]. eapply local_keeps; [exact Hi|exact Hc|exact Hp|done..|intros b0 s' [= <- <-] _; eauto|].
    eapply pinv_stage; [exact Hi|exact Hc|exact Hp|done..| |]; [by left|intros b0 [?|[?|?]]; done].
  - destruct (sys_condvar_create k) as [c k1] eqn:Hcr. intros [= <- <- <- <-]. destruct (kmove_create_condvar t k c k1 Hc Hcr) as (Hmv & Hq & Hex & Hnew).
    eapply creating_keeps; [exact Hi|exact Hc|exact Hp|exact Hmv|exact Hq| | | ].
    + change k1 with (c, k1).2. rewrite <- Hcr. by apply inv_condvar_create.
    + unfold sys_condvar_create in Hcr. destruct (first_free _ _). by injection Hcr as <- <-.
    + split_and!; [done|apply (km_mutexes _ _ _ Hmv); by eapply (oi_made _ _ _ Ho)|done|]. intros b' m' Hb'. by apply Hnew, (oi_exists _ _ _ Ho b' m').
  - destruct (sys_mutex_create false k) as [m k1] eqn:Hcr. intros [= <- <- <- <-]. destruct (kmove_create_mutex t k m k1 Hc Hcr) as (Hmv & Hq & Hex).
    eapply creating_keeps; [exact Hi|exact Hc|exact Hp|exact Hmv|exact Hq| | | ].
    + change k1 with (m, k1).2. rewrite <- Hcr. by apply inv_mutex_create.
    + unfold sys_mutex_create in Hcr. destruct (first_free _ _). by injection Hcr as <- <-.
    + split_and!; [done|done|]. by intros ? [= <-].
  - intros (k1 & Hk1 & [= <- <- <- <-])%bind_Some. by eapply lock_step.
  - intros [= <- <- <- <-]. eapply stage_step; [exact Hi|exact Hc|exact Hl|exact Hp|done..|].
    eapply pinv_stage; [exact Hi|exact Hc|exact Hp|done..| | | | ]; [by intros r0 [= ->]|done|by left|intros b0 [?|[?|?]]; done].
  - intros [= <- <- <- <-]. by eapply count_step.
  - intros [= <- <- <- <-]. by eapply if_step.
  - intros (k1 & Hk1 & [= <- <- <- <-])%bind_Some. eapply signal_step; [exact Hi|exact Hc|exact Hl|by left|exact Hp|exact Hk1].
  - intros (k1 & Hk1 & [= <- <- <- <-])%bind_Some. by eapply wait_step.
  - intros (k1 & Hk1 & [= <- <- <- <-])%bind_Some. eapply signal_step; [exact Hi|exact Hc|exact Hl|by right|exact Hp|exact Hk1].
  - intros (k1 & Hk1 & [= <- <- <- <-])%bind_Some. by eapply unlock_step.
Qed.

(** ** The other steps *)
Lemma minv_mono k k' pcs : minv k pcs → (∀ x, status k !! x = None → status k' !! x = None) → minv k' pcs.
Proof. unfold minv. intros H Hs. destruct (pcs !! 0) as [[| | |i|i]|]; try done. destruct H as [H1 H2]. split; [done|]. intros x Hx. by apply Hs, H2. Qed.
Section other_steps.
Context (k : kst) (cs : gset (Z * nat)) (mm : bmem) (pcs : gmap Z bpc) (Hi : binv (mkB k cs mm pcs)).
Let Hk : kinv k cs mm pcs := bi_kernel _ Hi.
Let Ho : oinv k mm pcs := bi_once _ Hi.
Let Hpr : pinv mm pcs (asleep k) := bi_program _ Hi.
Let Hm : minv k pcs := bi_main _ Hi.

(** A thread outside the barriers moves. *)
Lemma free_move t p p' mm' : current k = Some t → pcs !! t = Some p → (∀ b, lazy mm' b = lazy mm b) → held mm p = None →
  (∀ b s, p' = At b s → s = Access) → (∀ b s, p ≠ At b s) → pinv mm' (<[t := p']> pcs) (asleep k) → minv k (<[t := p']> pcs) → binv (mkB k cs mm' (<[t := p']> pcs)).
Proof.
  intros Hc Hp Hl Hh Hb' Hb Hpi Hmi. assert (held mm' p' = None) as Hh' by (destruct p' as [|b s| | | ]; try done; by rewrite (Hb' b s eq_refl)). split; cbn.
  - eapply kinv_local; [exact Hk|exact Ho|exact Hp|exact Hc|intros ? ? ?; by rewrite Hl|congruence].
  - eapply oinv_move; [exact Ho|exact Hp|by apply kmove_refl|done| |].
    + intros b. split; [intros E; by apply Hb' in E|intros E; by destruct (Hb b Creating)].
    + intros b s E. by rewrite (Hb' b s E).
  - done.
  - done.
Qed.

Lemma printing_keeps t ph i : current k = Some t → pcs !! t = Some (Printing ph i) →
  binv (if (i <? R)%nat then mkB k cs (print (letter ph) mm) (<[t := Printing ph (S i)]> pcs)
        else mkB k cs mm (<[t := if (ph <? B)%nat then At ph Access else Done]> pcs)).
Proof.
  intros Hc Hp. assert (¬ asleep k t) as Haw by (by eapply running_awake). pose proof (pv_shape _ _ _ Hpr t _ Hp) as Hsh. cbn in Hsh.
  assert (∀ p', is_main p' = false → minv k (<[t := p']> pcs)) as Hmi by (intros p' Hp'; eapply minv_move; [exact Hp|by apply kmove_refl|done|done|exact Hm]).
  destruct (Nat.ltb_spec i R) as [HR|HR].
  - eapply free_move; [exact Hc|exact Hp|done|done|done|done| |by apply Hmi]. by apply (pinv_print mm pcs _ Hpr t (Printing ph i)) with (i := i).
  - assert (i = R) as -> by lia. eapply free_move; [exact Hc|exact Hp|done|done|..|apply Hmi; by destruct (ph <? B)%nat].
    + intros b s. by destruct (ph <? B)%nat; intros [= _ <-].
    + done.
    + destruct (Nat.ltb_spec ph B) as [HB|HB];
        (apply (pinv_move mm pcs _ Hpr t (Printing ph R) Hp Haw); try done; first [solve [intros b [?|[?|?]]; done]|solve [intros b; by_stage; by left]]).
Qed.

Lemma join_keeps t p' : current k = Some t → minv k (<[t := p']> pcs) → shape p' →
  (∃ i, pcs !! t = Some (MainSpawn i) ∧ p' = MainJoin 0) ∨ (∃ i, pcs !! t = Some (MainJoin i) ∧ p' = MainJoin (S i)) → binv (mkB k cs mm (<[t := p']> pcs)).
Proof.
  intros Hc Hmi Hs Hcase. assert (∃ p, pcs !! t = Some p ∧ is_main p = true ∧ is_main p' = true) as (p & Hp & Hmp & Hmp') by naive_solver.
  eapply free_move; [exact Hc|exact Hp|done|by destruct p|by destruct p'|by destruct p| |done].
  apply (pinv_move mm pcs _ Hpr t p Hp); try done; [by eapply running_awake|by rewrite Hmp|by destruct p, p'|by destruct p, p'|by destruct p'..| ].
  intros b [->|[->| ->]]; done.
Qed.

Lemma spawn_keeps_binv t i : current k = Some t → pcs !! t = Some (MainSpawn i) → (i < N)%nat → status k !! (Z.of_nat i + 1) = None →
  binv (mkB (spawn (Z.of_nat i + 1) k) cs mm (<[Z.of_nat i + 1 := Printing 0 0]> (<[t := MainSpawn (S i)]> pcs))).
Proof.
  intros Hc Hp HN Hst. set (t' := Z.of_nat i + 1) in *. destruct (pv_dom _ _ _ Hpr t _ Hp) as [_ Hmain]. symmetry in Hmain. apply bool_decide_eq_true in Hmain. subst t.
  pose proof Hm as Hmi. unfold minv in Hmi. rewrite Hp in Hmi. assert (pcs !! t' = None) as Hnew.
  { apply eq_None_not_Some. rewrite Hmi. unfold t'. lia. }
  set (pcs1 := <[0 := MainSpawn (S i)]> pcs). assert (pcs1 !! t' = None) as Hnew1 by (unfold pcs1; rewrite lookup_insert_ne; [done|unfold t'; lia]).
  assert (kinv k cs mm pcs1) as Hk1 by (eapply kinv_local; [exact Hk|exact Ho|exact Hp|exact Hc|by intros ? ? ?|done]).
  assert (oinv k mm pcs1) as [O1 O2 O3 O4 O5 O6] by (eapply oinv_move; [exact Ho|exact Hp|by apply kmove_refl|done..]).
  assert (pinv mm pcs1 (asleep k)) as Hpi1.
  { apply (pinv_move mm pcs _ Hpr 0 _ Hp); try done; [by eapply running_awake|]. intros b [?|[?|?]]; done. }
  split; cbn [bs_k bs_cs bs_mem bs_pc].
  - destruct Hk1 as [I1 I2 I3 I4 I5 I6 I7 I8]. split; try done.
    + apply inv_spawn; [done| |done]. intros m Hin. destruct (I3 t' m Hin). congruence.
    + intros x q [[<- <-]|[Hne Hx]]%lookup_insert_Some.
      * left. split; [right; apply lookup_insert_eq|]. intros m. cbn. split; [intros Hin; destruct (I3 t' m Hin); congruence|done].
      * destruct (I2 x q Hx) as [[Hin Hh]|[(Hn & Hno & b & m & c & Hl & Hr)|[Hg1 Hg2]]].
        -- left. split; [|done]. cbn. by rewrite lookup_insert_ne.
        -- right. left. split; [done|]. split; [done|]. exists b, m, c. cbn. by rewrite lookup_insert_ne.
        -- right. right. split; [|done]. cbn. by rewrite lookup_insert_ne.
    + intros x m Hx. rewrite lookup_insert_is_Some'. right. by eapply I3.
    + intros x. cbn. rewrite !lookup_insert_is_Some'. intros [->|Hx]; [by left|right]. by apply I4.
    + intros x q [[<- <-]|[Hne Hx]]%lookup_insert_Some; cbn; [by rewrite lookup_insert_eq|rewrite lookup_insert_ne by done; by apply I5].
    + intros x c Hx. destruct (I6 x c Hx) as (b & m & Hl & Hx'). exists b, m. split; [done|]. rewrite lookup_insert_ne; [done|]. intros <-. congruence.
  - split; try done.
    + intros b x o Hl. rewrite lookup_insert_ne; [by eapply O4|]. intros <-. rewrite (O4 b t' o Hl) in Hnew1. done.
    + intros b x [[_ ?]|[_ H]]%lookup_insert_Some; [done|by apply O5].
    + intros b x s [[_ ?]|[_ H]]%lookup_insert_Some Hs; [done|by eapply O6].
  - apply pinv_spawn; [done|done|unfold t'; lia].
  - unfold minv. rewrite lookup_insert_ne by (unfold t'; lia). unfold pcs1. rewrite lookup_insert_eq. intros x.
    rewrite !lookup_insert_is_Some', Hmi. unfold t'. lia.
Qed.

Lemma exit_keeps_binv t k' : current k = Some t → pcs !! t = Some Done → exit_current k = Ok k' → binv (mkB k' cs mm pcs).
Proof.
  intros Hc Hp Hx. pose proof (inv_exit k cs t k' (ki_kern _ _ _ _ Hk) Hc Hx) as Hinv. unfold exit_current, take_current_task in Hx. rewrite Hc in Hx. injection Hx as <-.
  split; cbn [bs_k bs_cs bs_mem bs_pc].
  - pose proof (running_in_text _ _ _ _ Hk t _ Hp Hc) as [_ Hcs]. destruct Hk as [I1 I2 I3 I4 I5 I6 I7 I8]. split; try done.
    + intros x q Hq. destruct (decide (x = t)) as [->|Hne].
      * right. right. split; [apply lookup_delete_eq|]. by intros m Hin%Hcs.
      * destruct (I2 x q Hq) as [[Hin Hh]|[[Hn Hr]|[Hg1 Hg2]]]; [left; split; [right; destruct Hin; [congruence|done]|done]|right; left; by split|].
        right. right. split; [|done]. cbn. by rewrite lookup_delete_ne.
    + intros x. cbn. intros Hs. destruct (decide (x = t)) as [->|Hne]; [by rewrite lookup_delete_eq in Hs; destruct Hs|rewrite lookup_delete_ne in Hs by done; by apply I4].
    + intros x q Hq. cbn. destruct (decide (x = t)) as [->|Hne]; [intros _; congruence|rewrite lookup_delete_ne by done; by apply I5].
  - destruct Ho as [O1 O2 O3 O4 O5 O6]. by split.
  - exact Hpr.
  - eapply minv_mono; [exact Hm|]. intros x Hx. cbn. destruct (decide (x = t)) as [->|Hne]; [apply lookup_delete_eq|by rewrite lookup_delete_ne].
Qed.

(** A thread that only moves in the kernel. *)
Lemma kernel_keeps t p k' cs' : pcs !! t = Some p → current k = Some t ∨ current k = None → is_Some (status k !! t) → ¬ asleep k t →
  kmove t k k' → (∀ c, queue_of k' (QC c) = queue_of k (QC c)) → inv k' cs' → (∀ x m, x ≠ t → (x, m) ∈ cs' ↔ (x, m) ∈ cs) →
  outside k' cs' mm t p ∨ inside k' cs' mm t p → binv (mkB k' cs' mm pcs).
Proof.
  intros Hp Hc Hst Haw Hmv Hq Hinv Hcs Hnew. rewrite <- (insert_id pcs t p Hp). split; cbn [bs_k bs_cs bs_mem bs_pc].
  - eapply kinv_move; [exact Hk|exact Ho|exact Hmv|done|done|done|done|by intros ? ? ?| |done].
    intros x c Hx. rewrite Hq in Hx. left. split; [done|]. intros ->. apply Haw. by exists c.
  - eapply oinv_move; [exact Ho|exact Hp|exact Hmv|done|done|]. intros b s ->. by eapply (oi_started _ _ _ Ho).
  - rewrite insert_id by done. eapply pinv_asleep; [exact Hpr|]. by apply same_asleep.
  - rewrite insert_id by done. eapply minv_mono; [exact Hm|]. intros x Hx. apply eq_None_not_Some. intros Hs%(km_live _ _ _ Hmv). rewrite Hx in Hs. by destruct Hs.
Qed.

Lemma yield_keeps_binv t k' : current k = Some t → suspend_current_and_run_next CReturn k = Ok k' → binv (mkB k' cs mm pcs).
Proof.
  intros Hc Hs. destruct (kmove_suspend t k CReturn k' (in_placed _ _ (ki_kern _ _ _ _ Hk)) Hc Hs) as (Hmv & Hc' & Hct & Hq).
  assert (is_Some (status k !! t)) as Hst by (by eapply running_status). destruct (ki_live _ _ _ _ Hk t Hst) as [p Hp].
  destruct (running_in_text _ _ _ _ Hk t _ Hp Hc) as [_ Hcs].
  eapply kernel_keeps; [exact Hp|by left|done|by eapply running_awake|exact Hmv|by intros c; apply Hq|eapply inv_step; [apply Hk|eexists; by eapply st_yield]|done|].
  left. split; [by right|done].
Qed.

Lemma dispatch_keeps_binv t k1 k2 : current k = None → run_task k = Some (t, k1) → resume t k1 = Ok k2 →
  binv (mkB k2 (completed t k1 k2 ∪ cs) mm pcs).
Proof.
  intros Hc Hrun Hres. pose proof (ki_kern _ _ _ _ Hk) as Hinv.
  assert (inv k2 (completed t k1 k2 ∪ cs)) as Hinv2 by (eapply inv_step; [exact Hinv|eexists; by eapply st_dispatch]).
  unfold run_task, fetch_task in Hrun. destruct (ready_queue k) as [|t' q] eqn:Hr; [done|]. injection Hrun as -> <-. set (k1 := set_current (Some t) _) in *.
  assert (t ∈ ready_queue k) as Hin by (rewrite Hr; by left). assert (is_Some (status k !! t)) as Hst by (exists Ready; by apply (pl_ready _ (in_placed _ _ Hinv))).
  destruct (ki_live _ _ _ _ Hk t Hst) as [p Hp]. assert (¬ asleep k t) as Haw by (apply ready_awake; [apply Hinv|done]).
  assert (placed k1) as Hp1 by (by eapply (placed_dispatch k k1 t); try done; apply Hinv).
  assert (kmove t k k1) as Hm1 by (split; cbn; try done; [congruence|by apply live_insert]).
  assert (∀ k', kmove t k k' → (∀ c, queue_of k' (QC c) = queue_of k (QC c)) → k' = k2 →
    outside k2 (completed t k1 k2 ∪ cs) mm t p ∨ inside k2 (completed t k1 k2 ∪ cs) mm t p → binv (mkB k2 (completed t k1 k2 ∪ cs) mm pcs)) as Hdone.
  { intros k' Hmv Hq -> Hnew. eapply kernel_keeps; [exact Hp|by right|done|done|exact Hmv|exact Hq|exact Hinv2| |exact Hnew].
    intros x m Hx. unfold completed, acquired. repeat case_match; set_solver. }
  unfold resume in Hres. change (conts k1) with (conts k) in Hres.
  destruct (ki_thread _ _ _ _ Hk t p Hp) as [[[Hn|Hct] Hcs]|[(_ & Hno & b & m & c & Hl & Hr')|[Hg _]]]; [congruence| | |by rewrite Hg in Hst; destruct Hst].
  - rewrite Hct in Hres. injection Hres as <-. eapply Hdone; [exact Hm1|done|done|]. left. split; [by left|]. intros m. rewrite <- Hcs.
    unfold completed. change (conts k1) with (conts k). rewrite Hct. set_solver.
  - assert (conts k !! t = Some (CSpin m) ∨ conts k !! t = Some (CRelock m)) as Hcase by tauto.
    assert (mutex_lock m k1 = Ok k2) as Hlock by (destruct Hcase as [E|E]; by rewrite E in Hres).
    destruct (kmove_lock t k1 m k2 Hp1 (km_spin _ _ _ Hm1 (ki_spin _ _ _ _ Hk)) eq_refl Hlock) as (Hm2 & Hq2 & Hcur).
    assert (completed t k1 k2 = acquired k2 t m) as E by (unfold completed; change (conts k1) with (conts k); destruct Hcase as [E|E]; by rewrite E). rewrite E in *.
    eapply Hdone; [by eapply kmove_trans|exact Hq2|done|]. destruct Hcur as [Hcur|[Hcur Hct]].
    + left. split; [by left|]. intros n. rewrite (acquired_some _ _ _ Hcur).
      assert (held mm p = Some m) as -> by (destruct Hr' as [[-> _]|[-> _]]; cbn; by rewrite Hl). set_solver.
    + right. rewrite (acquired_none _ _ _ _ Hcur). split; [by rewrite Hcur|]. split; [done|]. exists b, m, c. split; [done|]. tauto.
Qed.
End other_steps.

Lemma go_keeps u u' : binv u → go u = Some u' → binv u'.
Proof.
  destruct u as [k cs mm pcs]. intros Hi. unfold go. intros (t & Hc & Hg)%bind_Some. apply bind_Some in Hg as (p & Hp & Hg).
  pose proof (bi_main _ Hi) as Hm. cbn in Hm. destruct p as [ph i|b s| |i|i].
  - pose proof (printing_keeps k cs mm pcs Hi t ph i Hc Hp) as H. by destruct (i <? R)%nat; injection Hg as <-.
  - apply bind_Some in Hg as ([[[k' cs'] mm'] p'] & Hb & [= <-]). by eapply block_keeps.
  - apply bind_Some in Hg as (k' & Hx%to_option_inv & [= <-]). by eapply exit_keeps_binv.
  - assert (t = 0) as -> by (pose proof (pv_dom _ _ _ (bi_program _ Hi) t _ Hp) as [_ H]; symmetry in H; by apply bool_decide_eq_true in H).
    destruct (Nat.ltb_spec i N) as [HN|HN].
    + case_decide; [|done]. injection Hg as <-. by apply spawn_keeps_binv.
    + injection Hg as <-. eapply join_keeps; [exact Hi|exact Hc| |cbn; lia|left; by exists i]. unfold minv in *. rewrite Hp in Hm. rewrite lookup_insert_eq. split; [|lia].
      intros x Hx. rewrite lookup_insert_is_Some'. right. apply Hm. lia.
  - assert (t = 0) as -> by (pose proof (pv_dom _ _ _ (bi_program _ Hi) t _ Hp) as [_ H]; symmetry in H; by apply bool_decide_eq_true in H).
    destruct (Nat.ltb_spec i N) as [HN|HN]; [|done]. case_decide as Hst; [|done]. injection Hg as <-.
    eapply join_keeps; [exact Hi|exact Hc| |cbn; lia|right; by exists i]. unfold minv in *. rewrite Hp in Hm. destruct Hm as [H1 H2]. rewrite lookup_insert_eq. split.
    + intros x Hx. rewrite lookup_insert_is_Some'. right. by apply H1.
    + intros x Hx. destruct (decide (x = Z.of_nat i + 1)) as [->|]; [done|apply H2; lia].
Qed.

Lemma binv_step u u' : binv u → bstep u u' → binv u'.
Proof.
  intros Hi Hs. destruct Hs as [u u' Hg|k cs mm pcs t k' Hc Hs|k cs mm pcs now|k cs mm pcs t k1 k2 Hc Hr Hres].
  - by eapply go_keeps.
  - by eapply yield_keeps_binv.
  - unfold check_timer. destruct (ki_plain _ _ _ _ (bi_kernel _ Hi)) as [_ Ht]. cbn in Ht. by rewrite Ht.
  - by eapply dispatch_keeps_binv.
Qed.
Lemma start_binv : binv barrier_start.
Proof.
  assert (∀ f, f (MainSpawn 0) = 0%nat → tot f {[0 := MainSpawn 0]} = 0%nat) as Htot.
  { intros f Hf. destruct (decide (tot f {[0 := MainSpawn 0]} = 0%nat)) as [|Hne]; [done|]. destruct (tot_pos f {[0 := MainSpawn 0]}) as (t & p & _ & Hp & Hpos); [lia|].
    apply lookup_singleton_Some in Hp as [<- <-]. lia. }
  assert (∀ c, queue_of main_running (QC c) = []) as Hq by done.
  split; cbn [barrier_start bs_k bs_cs bs_mem bs_pc].
  - split; try done.
    + apply main_running_inv.
    + intros t p [<- <-]%lookup_singleton_Some. left. split; [by left|]. intros m. cbn. set_solver.
    + intros t [st Hst]. change (status main_running) with (<[0 := Running]> (<[0 := Ready]> (∅ : gmap Z TaskStatus))) in Hst.
      destruct (decide (t = 0)) as [->|Hne]; [by rewrite lookup_singleton_eq|by rewrite !lookup_insert_ne, lookup_empty in Hst].
    + intros t p [<- <-]%lookup_singleton_Some. done.
    + intros t c. rewrite Hq. by intros ?%elem_of_nil.
  - split; try done; intros b t; [|intros s]; by intros [_ ?]%lookup_singleton_Some.
  - split; cbn [count output].
    + intros b. by rewrite Htot.
    + by intros t b r [_ ?]%lookup_singleton_Some.
    + by intros t b [_ ?]%lookup_singleton_Some.
    + by intros t p b [_ <-]%lookup_singleton_Some.
    + by intros t b [_ ?]%lookup_singleton_Some.
    + intros t b [c Hc]. rewrite Hq in Hc. by apply elem_of_nil in Hc.
    + intros t [c Hc]. rewrite Hq in Hc. by apply elem_of_nil in Hc.
    + intros t p [_ <-]%lookup_singleton_Some. cbn. lia.
    + intros t p [<- <-]%lookup_singleton_Some. split; [lia|done].
    + symmetry. apply letters_none. intros ph _. by apply Htot.
  - unfold minv. rewrite lookup_singleton_eq. intros t. rewrite lookup_singleton_is_Some. lia.
Qed.
Lemma binv_reached u : rtc bstep barrier_start u → binv u.
Proof. intros Hr. apply (rtc_invariant bstep binv barrier_start u); [|apply start_binv|done]. intros x y Hx Hxy. by eapply binv_step. Qed.

(** ** No deadlock *)
Definition finished (u : bst) : Prop := bs_pc u !! 0 = Some (MainJoin N).
Definition runnable (k : kst) (t : Z) : Prop := current k = Some t ∨ t ∈ ready_queue k.
(** What a thread that runs would have to wait for: a mutex, the initialiser of a
    barrier, the end of a thread. *)
Definition must_wait (u : bst) (t : Z) : bool :=
  let '(mkB k _ mm pcs) := u in
  match (if decide (current k = Some t) then None else conts k !! t) with
  | Some (CSpin m) | Some (CRelock m) => locked_of k m
  | _ =>
      match pcs !! t with
      | Some (At b Access) => match lazy mm b with InProgress _ _ => true | _ => false end
      | Some (At b Lock) => match lazy mm b with Complete m _ => locked_of k m | _ => false end
      | Some (MainJoin i) => bool_decide (is_Some (status k !! (Z.of_nat i + 1)))
      | _ => false
      end
  end.

Section progress.
Context (k : kst) (cs : gset (Z * nat)) (mm : bmem) (pcs : gmap Z bpc) (Hi : binv (mkB k cs mm pcs)).
Let Hk : kinv k cs mm pcs := bi_kernel _ Hi.
Let Ho : oinv k mm pcs := bi_once _ Hi.
Let Hpr : pinv mm pcs (asleep k) := bi_program _ Hi.
Let Hm : minv k pcs := bi_main _ Hi.
Definition goes (t : Z) : Prop := runnable k t ∧ must_wait (mkB k cs mm pcs) t = false.

Lemma live_place t : is_Some (status k !! t) → runnable k t ∨ asleep k t.
Proof.
  intros Hst. apply (pl_all _ (in_placed _ _ (ki_kern _ _ _ _ Hk))) in Hst. unfold places in Hst. rewrite !elem_of_app in Hst. destruct Hst as [Hc|[Hr|Hw]].
  - left. left. destruct (current k); [by apply list_elem_of_singleton in Hc as ->|by apply elem_of_nil in Hc].
  - left. by right.
  - right. apply waiting_in_queue in Hw as [[m|i|c|] Hq]; [|..|by exists c|]; cbn in Hq; exfalso.
    + destruct (mutex_list k !! m) as [[x|]|] eqn:E; cbn in Hq; [destruct (ki_spin _ _ _ _ Hk m x E) as [l ->]; by apply elem_of_nil in Hq|by apply elem_of_nil in Hq..].
    + rewrite (proj1 (ki_plain _ _ _ _ Hk)), lookup_nil in Hq. by apply elem_of_nil in Hq.
    + rewrite (proj2 (ki_plain _ _ _ _ Hk)) in Hq. by apply elem_of_nil in Hq.
Qed.
Lemma unfinished_live t p : pcs !! t = Some p → p ≠ Done → is_Some (status k !! t).
Proof. intros Hp Hne. destruct (status k !! t) eqn:E; [by eexists|]. by destruct Hne; eapply (ki_gone _ _ _ _ Hk). Qed.

(** A thread in its text that waits for nothing there. *)
Lemma in_text_goes t p : pcs !! t = Some p → outside k cs mm t p → p ≠ Done → (∀ b, p ≠ At b SignalNext ∨ ¬ asleep k t) →
  (match p with At _ (Access | Lock) | MainJoin _ => False | _ => True end) → goes t.
Proof.
  intros Hp [Hin _] Hne Hs Hw. destruct (live_place t (unfinished_live t p Hp Hne)) as [Hr|Ha].
  - split; [done|]. unfold must_wait. rewrite Hp. case_decide as Hd; [|destruct Hin as [|Hin]; [done|rewrite Hin]]; destruct p as [|b []| | |]; done.
  - exfalso. destruct (pv_sleep _ _ _ Hpr t Ha) as [b Hb]. rewrite Hp in Hb. injection Hb as ->. by destruct (Hs b).
Qed.
Lemma owner_goes m : locked_of k m = true → ∃ t, goes t.
Proof.
  intros Hl. apply (in_locked _ _ (ki_kern _ _ _ _ Hk)) in Hl as [t [Hcs|[Hr Hct]]]; exists t.
  - destruct (ki_only _ _ _ _ Hk t m Hcs) as [p Hp]. destruct (ki_thread _ _ _ _ Hk t p Hp) as [[Hin Hh]|[(_ & Hno & _)|[_ Hno]]]; [|by destruct (Hno m)..].
    apply Hh in Hcs as Hheld. assert (¬ asleep k t) as Haw.
    { intros [c Hc]. destruct (in_queues _ _ (ki_kern _ _ _ _ Hk) (QC c) t Hc) as (co & Hco & (m' & -> & _)).
      destruct Hin as [Hin|Hin]; [|congruence]. by eapply running_awake; [exact Hk|exact Hin|exists c]. }
    eapply in_text_goes; [exact Hp|by split|by intros ->|by right|]. by destruct p as [|b []| | |].
  - exfalso. assert (is_Some (status k !! t)) as Hst by (exists Ready; by apply (pl_ready _ (in_placed _ _ (ki_kern _ _ _ _ Hk)))).
    destruct (ki_live _ _ _ _ Hk t Hst) as [p Hp]. destruct (ki_thread _ _ _ _ Hk t p Hp) as [[[Hin|Hin] _]|[(_ & _ & b & m' & c & _ & Hcase)|[Hg _]]].
    + by destruct (current_elsewhere k t (in_placed _ _ (ki_kern _ _ _ _ Hk)) Hin).
    + congruence.
    + rewrite Hct in Hcase. naive_solver.
    + rewrite Hg in Hst. by destruct Hst.
Qed.
Lemma creator_goes b t o : lazy mm b = InProgress t o → goes t.
Proof.
  intros Hl. pose proof (oi_creator _ _ _ Ho b t o Hl) as Hp. eapply in_text_goes; [exact Hp| |done|by left|done].
  destruct (ki_thread _ _ _ _ Hk t _ Hp) as [H|[(_ & _ & b' & m & c & _ & Hcase)|[Hg _]]]; [done|naive_solver|].
  by pose proof (ki_gone _ _ _ _ Hk t _ Hp Hg).
Qed.
(** If some worker can run, some thread can go on. *)
Lemma runnable_goes t : runnable k t → (∀ i, pcs !! t ≠ Some (MainJoin i)) → ∃ t', goes t'.
Proof.
  intros Hr Hnm. destruct (must_wait (mkB k cs mm pcs) t) eqn:Hw; [|by exists t]. unfold must_wait in Hw.
  destruct (if decide _ then None else _) as [[|m|m|m]|]; try (by apply (owner_goes m));
    (destruct (pcs !! t) as [[|b []| |i|i]|] eqn:Hp; try done;
      [destruct (lazy mm b) as [|x o|] eqn:Hl; try done; exists x; by eapply creator_goes
      |destruct (lazy mm b) as [| |m0 c] eqn:Hl; try done; by apply (owner_goes m0)
      |by destruct (Hnm i)]).
Qed.
(** Behind a sleeper is a thread that will signal, or one that has not arrived. *)
Lemma sleeper_goes t b : asleep k t → pcs !! t = Some (At b SignalNext) → count mm b = N → ∃ t', goes t'.
Proof.
  intros Ha Hp HN. destruct (pv_chain _ _ _ Hpr t b Ha Hp HN) as (x & q & Hq & Haw & Hpe). apply (runnable_goes x).
  - destruct (live_place x) as [|]; [|done|done]. eapply unfinished_live; [exact Hq|]. by destruct Hpe as [->|[->| ->]].
  - intros i Hx. rewrite Hq in Hx. injection Hx as ->. by destruct Hpe as [|[|]].
Qed.
Lemma not_arrived b : count mm b ≠ N → ∃ t, t ∈ workers ∧ ∀ p, pcs !! t = Some p → arrived b p = 0%nat.
Proof.
  intros HN. destruct (decide (Forall (λ t, match pcs !! t with Some p => arrived b p | None => 0%nat end = 1%nat) workers)) as [Hf|Hf].
  - destruct HN. rewrite (pv_count _ _ _ Hpr), (tot_all _ _ 1); [lia|]. intros t Ht. rewrite Forall_forall in Hf. specialize (Hf t Ht). cbv beta in Hf.
    destruct (pcs !! t) as [p|]; [by exists p|done].
  - apply not_Forall_Exists in Hf; [|apply _]. apply Exists_exists in Hf as (t & Ht & Hne). exists t. split; [done|]. intros p Hp. cbn in Hne. rewrite Hp in Hne.
    pose proof (arrived_le b p). lia.
Qed.
Lemma worker_goes t : (∀ t, t ∈ workers → is_Some (pcs !! t)) → t ∈ workers → is_Some (status k !! t) → ∃ t', goes t'.
Proof.
  intros Hall Ht Hst.
  assert (∀ x, x ∈ workers → runnable k x → ∃ t', goes t') as Hrun.
  { intros x Hx Hr. apply (runnable_goes x Hr). intros i E. apply in_workers in Hx. destruct (pv_dom _ _ _ Hpr x _ E) as [_ Hd].
    symmetry in Hd. apply bool_decide_eq_true in Hd. lia. }
  destruct (live_place t Hst) as [Hr|Ha]; [by eapply Hrun|]. destruct (pv_sleep _ _ _ Hpr t Ha) as [b Hp].
  destruct (decide (count mm b = N)) as [HN|HN]; [by eapply sleeper_goes|]. pose proof (pv_shape _ _ _ Hpr t _ Hp) as Hb. cbn in Hb.
  destruct (not_arrived b HN) as (x & Hx & Hno). destruct (Hall x Hx) as [q Hq]. specialize (Hno q Hq).
  destruct (live_place x) as [Hr|Ha']; [eapply unfinished_live; [exact Hq|]; intros ->; by_stage|by eapply Hrun|].
  destruct (pv_sleep _ _ _ Hpr x Ha') as [b' Hb']. rewrite Hq in Hb'. injection Hb' as ->. apply (sleeper_goes x b' Ha' Hq).
  eapply (pv_passed _ _ _ Hpr); [exact Hp|]. by_stage.
Qed.
Lemma some_thread_goes : ¬ finished (mkB k cs mm pcs) → ∃ t, goes t.
Proof.
  intros Hnf. pose proof Hm as Hmi. unfold minv in Hmi. unfold finished in Hnf. cbn in Hnf. destruct (pcs !! 0) as [p|] eqn:Hp; [|done].
  assert (is_main p = true → outside k cs mm 0 p) as Hout.
  { intros Hmain. destruct (ki_thread _ _ _ _ Hk 0 p Hp) as [H|[(_ & _ & b & m & c & _ & Hcase)|[Hg _]]]; [done|naive_solver|]. by rewrite (ki_gone _ _ _ _ Hk 0 p Hp Hg) in Hmain. }
  destruct p as [| | |i|i]; try done.
  - exists 0. eapply in_text_goes; [exact Hp|by apply Hout|done|by left|done].
  - destruct Hmi as [Hall Hjoined]. pose proof (pv_shape _ _ _ Hpr 0 _ Hp) as Hs. cbn in Hs. assert (i ≠ N) as Hne by congruence.
    destruct (decide (is_Some (status k !! (Z.of_nat i + 1)))) as [Hst|Hst].
    + apply (worker_goes (Z.of_nat i + 1)); [intros x Hx; apply in_workers in Hx; apply Hall; lia|apply in_workers; lia|done].
    + exists 0. destruct (live_place 0 (unfinished_live 0 _ Hp ltac:(done))) as [Hr|Ha]; [|destruct (pv_sleep _ _ _ Hpr 0 Ha) as [b Hb]; congruence].
      split; [done|]. unfold must_wait. rewrite Hp. destruct (Hout eq_refl) as [Hin _].
      case_decide; [|destruct Hin as [|Hin]; [done|rewrite Hin]]; by apply bool_decide_eq_false.
Qed.

(** ** The calls of the running thread succeed *)
Lemma has_mutex m : mutex_exists k m → has (mutex_list k) (Z.of_nat m) = true.
Proof. intros [x Hx]. unfold has. by rewrite Nat2Z.id, Hx. Qed.
Lemma has_condvar c : condvar_exists k c → has (condvar_list k) (Z.of_nat c) = true.
Proof. intros [q Hq]. unfold has. by rewrite Nat2Z.id, Hq. Qed.

Lemma block_runs t b s : current k = Some t → pcs !! t = Some (At b s) → must_wait (mkB k cs mm pcs) t = false → is_Some (block t b s k cs mm).
Proof.
  intros Hc Hp Hw. unfold must_wait in Hw. rewrite decide_True, Hp in Hw by done. destruct (running_in_text _ _ _ _ Hk t _ Hp Hc) as [_ Hcs].
  pose proof (ki_kern _ _ _ _ Hk) as Hinv. destruct (started s) eqn:Hs.
  - destruct (oi_started _ _ _ Ho b t s Hp Hs) as (m & c & Hl). destruct (oi_exists _ _ _ Ho b m c Hl) as [Hm1 Hc1]. destruct Hc1 as [q Hq].
    pose proof (has_mutex m Hm1) as Hhm. pose proof (has_condvar c (ex_intro _ q Hq)) as Hhc. cbn in Hcs. rewrite Hl in Hcs.
    unfold block. rewrite Hl. destruct s; try done; try by eexists.
    + unfold sys_mutex_lock. rewrite Hhm, Nat2Z.id. destruct (mutex_lock_inv k cs t m Hinv Hc Hm1) as (k' & -> & _). by eexists.
    + unfold sys_condvar_signal. rewrite Hhc, Nat2Z.id. destruct (condvar_signal_inv k cs c _ Hinv Hq) as (k' & -> & _). by eexists.
    + unfold sys_condvar_wait. rewrite Hhm, Hhc, !Nat2Z.id. cbn [negb]. destruct (condvar_wait_inv k cs t c m _ Hinv Hc (proj2 (Hcs m) eq_refl) Hq) as (k' & -> & _). by eexists.
    + unfold sys_condvar_signal. rewrite Hhc, Nat2Z.id. destruct (condvar_signal_inv k cs c _ Hinv Hq) as (k' & -> & _). by eexists.
    + unfold sys_mutex_unlock. rewrite Hhm, Nat2Z.id. destruct (mutex_unlock_inv k cs t m Hinv Hc (proj2 (Hcs m) eq_refl)) as (k' & -> & _). by eexists.
  - destruct s; try done; unfold block.
    + destruct (lazy mm b); [by eexists|done|by eexists].
    + destruct (oi_creating _ _ _ Ho b t Hp) as [[m|] ->]; [destruct (sys_condvar_create k)|destruct (sys_mutex_create false k)]; by eexists.
Qed.
Lemma running_goes t : current k = Some t → must_wait (mkB k cs mm pcs) t = false → ¬ finished (mkB k cs mm pcs) ∨ t ≠ 0 → is_Some (go (mkB k cs mm pcs)).
Proof.
  intros Hc Hw Hnf. destruct (ki_live _ _ _ _ Hk t) as [p Hp]; [by eapply running_status|]. unfold go. rewrite Hc. cbn [mbind option_bind]. rewrite Hp. cbn [mbind option_bind].
  assert (is_main p = true → t = 0) as Hmain by (intros E; destruct (pv_dom _ _ _ Hpr t p Hp) as [_ Hd]; rewrite E in Hd; symmetry in Hd; by apply bool_decide_eq_true in Hd).
  pose proof Hw as Hw'. unfold must_wait in Hw'. rewrite decide_True, Hp in Hw' by done. pose proof Hm as Hmi. unfold minv in Hmi. destruct p as [ph i|b s| |i|i].
  - destruct (i <? R)%nat; by eexists.
  - destruct (block_runs t b s Hc Hp Hw) as [[[[k' cs'] mm'] p'] ->]. by eexists.
  - unfold exit_current, take_current_task. rewrite Hc. by eexists.
  - rewrite (Hmain eq_refl) in Hp. rewrite Hp in Hmi. destruct (Nat.ltb_spec i N) as [HN|]; [|by eexists]. rewrite decide_True; [by eexists|].
    destruct (status k !! (Z.of_nat i + 1)) eqn:E; [|done]. destruct (ki_live _ _ _ _ Hk (Z.of_nat i + 1) (ex_intro _ _ E)) as [q Hq].
    pose proof (proj1 (Hmi (Z.of_nat i + 1)) (ex_intro _ q Hq)). lia.
  - rewrite (Hmain eq_refl) in Hp, Hnf. pose proof (pv_shape _ _ _ Hpr 0 _ Hp) as Hs. cbn in Hs. destruct (Nat.ltb_spec i N) as [HN|HN].
    + apply bool_decide_eq_false in Hw'. rewrite decide_True; [by eexists|]. by apply eq_None_not_Some.
    + exfalso. unfold finished in Hnf. cbn in Hnf. rewrite Hp in Hnf. assert (i = N) as -> by lia. by destruct Hnf.
Qed.
Lemma finished_workers : finished (mkB k cs mm pcs) → ∀ t, t ∈ workers → pcs !! t = Some Done.
Proof.
  intros Hf t Ht%in_workers. unfold finished in Hf. cbn in Hf. pose proof Hm as Hmi. unfold minv in Hmi. rewrite Hf in Hmi. destruct Hmi as [H1 H2].
  destruct (H1 t ltac:(lia)) as [p Hp]. rewrite Hp. f_equal. eapply (ki_gone _ _ _ _ Hk); [exact Hp|by apply H2].
Qed.
End progress.
End barrier.

(** C29 The program on every schedule of the kernel, preempted anywhere, with any
    number of threads, letters and barriers: at every time what is printed is the
    beginning of all letters of the first phase, then all of the second, and so
    on, so that no thread leaves a barrier before all have reached it; when
    [main] has waited for all threads everything is printed; until then some
    thread is running or in the ready queue that waits for no mutex, initialiser
    or other thread; and the running thread, unless it waits so, makes its step:
    no call of the kernel fails. *)
Theorem barrier_correct N R B u :
  rtc (bstep N R B) barrier_start u →
  output (bs_mem u) `prefix_of` whole_output N R B ∧
  (finished N u → output (bs_mem u) = whole_output N R B) ∧
  (¬ finished N u → ∃ t, runnable (bs_k u) t ∧ must_wait u t = false) ∧
  (∀ t, current (bs_k u) = Some t → must_wait u t = false → ¬ finished N u → is_Some (go N R B u)).
Proof.
  intros Hr. pose proof (binv_reached N R B u Hr) as Hi. destruct u as [k cs mm pcs]. split_and!.
  - by eapply output_prefix, bi_program.
  - intros Hf. eapply output_whole; [apply (bi_program _ _ _ _ Hi)|by eapply finished_workers].
  - by eapply some_thread_goes.
  - intros t Hc Hw Hnf. eapply running_goes; [exact Hi|exact Hc|exact Hw|by left].
Qed.

(** ** The program on the schedule without preemption *)
Lemma brun_sound N R B fuel u : rtc (bstep N R B) u (brun N R B fuel u).
Proof.
  revert u. induction fuel as [|fuel IH]; intros [k cs mm pcs]; cbn [brun bs_k]; [apply rtc_refl|]. destruct (current k) as [t|] eqn:Hc.
  - destruct (go N R B (mkB k cs mm pcs)) as [u'|] eqn:Hg; [eapply rtc_l; [by apply b_go|apply IH]|].
    destruct (suspend_current_and_run_next CReturn k) as [k'|] eqn:Hs; [eapply rtc_l; [by eapply b_yield|apply IH]|apply rtc_refl].
  - destruct (run_task k) as [[t k1]|] eqn:Hr; [|apply rtc_refl].
    destruct (resume t k1) as [k2|] eqn:Hres; [eapply rtc_l; [by eapply b_dispatch|apply IH]|apply rtc_refl].
Qed.

Module BarrierDemo.
(** Two threads, one of which sleeps in the first barrier. *)
Definition sleeping : bst := brun 2 1 2 22 barrier_start.
Example one_sleeps : asleep (bs_k sleeping) 1 ∧ output (bs_mem sleeping) = [97; 97].
Proof. vm_compute. split; [|reflexivity]. exists 0%nat. left. Qed.

(** Witness: in that state a thread goes on, and at the end everything is printed. *)
Lemma barrier_correct_witness :
  (∃ t, runnable (bs_k sleeping) t ∧ must_wait sleeping t = false) ∧
  output (bs_mem (brun THREAD_NUM 2 2 160 barrier_start)) = [97; 97; 97; 97; 97; 97; 98; 98; 98; 98; 98; 98; 99; 99; 99; 99; 99; 99].
Proof.
  split.
  - destruct (barrier_correct 2 1 2 sleeping (brun_sound _ _ _ _ _)) as (_ & _ & H & _). apply H. vm_compute. discriminate.
  - destruct (barrier_correct THREAD_NUM 2 2 (brun THREAD_NUM 2 2 160 barrier_start) (brun_sound _ _ _ _ _)) as (_ & H & _).
    rewrite H; [reflexivity|]. vm_compute. reflexivity.
Defined.
End BarrierDemo.
