(* ===== verification/Mmap.v ===== *)
(** * Memory mappings and demand paging (os/src/task/process.rs: VirtAddressAllocator,
      MapRange, FileMapping, vpn_range_free; os/src/task/mem.rs; os/src/syscall/mem.rs)

    A process keeps the ranges it has reserved with [mmap]; pages are mapped on
    the first access.  An inode is its number; [files] gives the contents behind
    [get_size], [read_at] and [write_at] (what Vfs.v and FsData.v implement on
    disk). *)
From stdpp Require Import sorting.
From S2P Require Import Prelude Bytes Address FrameAllocator PageTable MemorySet AddressSpace.

Inductive MMapType := MMemory | MFile.
#[global] Instance MMapType_eq_dec : EqDecision MMapType.
Proof. solve_decision. Defined.

Record MMapReserve := mkReserve { mr_range : SimpleRange; mr_perm : Z; mr_ty : MMapType }.

(** [VirtAddressAllocator] is its [curr_va]. *)
Definition va_allocator_new (base : Z) : Z := virt_addr base.
(** (start, new [curr_va]) *)
Definition va_alloc (curr_va len : Z) : Z * Z :=
  let end_ := virt_addr (u64 (curr_va + len)) in
  (curr_va, addr_of_page (ceil end_)).

Record MapRange := mkMapRange { rg_start : Z; rg_end : Z; rg_len : Z; rg_offset : Z }.
Definition map_range_new (start len offset : Z) : MapRange :=
  mkMapRange (virt_addr start) (virt_addr (u64 (start + len))) len offset.
Definition contains_va (r : MapRange) (va : Z) : bool := (rg_start r <=? va) && (va <? rg_end r).
Definition contains_range (r : MapRange) (rng : SimpleRange) : bool :=
  (floor (rg_start r) <=? get_start rng) && (get_end rng <=? ceil (rg_end r)).
Definition equals_range (r : MapRange) (rng : SimpleRange) : bool :=
  (floor (rg_start r) =? get_start rng) && (ceil (rg_end r) =? get_end rng).
Definition file_offset (r : MapRange) (vpn : Z) : outcome Z :=
  let va := addr_of_page vpn in
  _ ← assert ((rg_start r <=? va) && (va <? rg_end r));
  Ok (u64 (rg_offset r + (va - rg_start r))).

Record FileMapping := mkFM {
  fm_file : Z;
  fm_ranges : list MapRange;
  fm_frames : list Z;
  fm_map : gmap Z (Z * Z);   (* file offset -> (vpn, ppn) *)
  fm_pt : PageTable;
}.
Definition fm_new_empty (file token : Z) : FileMapping := mkFM file [] [] ∅ (from_token token).
Definition fm_contains_va (fm : FileMapping) (va : Z) : bool := existsb (λ r, contains_va r va) (fm_ranges fm).
Definition set_ranges (rs : list MapRange) (fm : FileMapping) : FileMapping :=
  mkFM (fm_file fm) rs (fm_frames fm) (fm_map fm) (fm_pt fm).

(** What a descriptor refers to, as far as [mmap] asks. *)
Inductive FdInfo := FdInode (ino : Z) (is_file readable writable : bool) | FdOther.

Record mst := mkMst {
  km : kmem;
  files : gmap Z (list Z);
  memory_set : MemorySet;
  mmap_mapped : list MMapReserve;
  mmap_va_allocator : Z;
  file_mappings : list FileMapping;
  fds : list (option FdInfo);
}.
Definition set_km (k : kmem) (s : mst) : mst :=
  mkMst k (files s) (memory_set s) (mmap_mapped s) (mmap_va_allocator s) (file_mappings s) (fds s).
Definition set_files (f : gmap Z (list Z)) (s : mst) : mst :=
  mkMst (km s) f (memory_set s) (mmap_mapped s) (mmap_va_allocator s) (file_mappings s) (fds s).
Definition set_space (ms : MemorySet) (s : mst) : mst :=
  mkMst (km s) (files s) ms (mmap_mapped s) (mmap_va_allocator s) (file_mappings s) (fds s).
Definition set_mapped (l : list MMapReserve) (s : mst) : mst :=
  mkMst (km s) (files s) (memory_set s) l (mmap_va_allocator s) (file_mappings s) (fds s).
Definition set_va (v : Z) (s : mst) : mst :=
  mkMst (km s) (files s) (memory_set s) (mmap_mapped s) v (file_mappings s) (fds s).
Definition set_fms (l : list FileMapping) (s : mst) : mst :=
  mkMst (km s) (files s) (memory_set s) (mmap_mapped s) (mmap_va_allocator s) l (fds s).

(** A computation on physical memory. *)
Definition on_mem {A} (c : M kmem A) : M mst A := λ s,
  match c (km s) with Ok (a, k) => Ok (a, set_km k s) | Err e => Err e end.
Definition modify_st (f : mst → mst) : M mst () := λ s, Ok ((), f s).
Definition gets {A} (f : mst → A) : M mst A := λ s, Ok (f s, s).

(** [FileMapping::map]: the loop finds the first range with [va]. *)
Definition fm_map_va (fm : FileMapping) (va : Z) : M kmem (option (Z * MapRange * bool) * FileMapping) :=
  let vpn := floor va in
  match list_find (λ r, contains_va r va = true) (fm_ranges fm) with
  | None => mret (None, fm)
  | Some (_, range) =>
      lift (file_offset range vpn) ≫= λ offset,
      match fm_map fm !! offset with
      | Some (_, ppn) => mret (Some (ppn, range, true), fm)
      | None =>
          frame_alloc ≫= λ o, lift (unwrap o) ≫= λ ppn,
          mret (Some (ppn, range, false),
                mkFM (fm_file fm) (fm_ranges fm) (fm_frames fm ++ [ppn]) (<[offset := (vpn, ppn)]> (fm_map fm)) (fm_pt fm))
      end
  end.

(** [Inode::get_size] and [Inode::write_at] inside the file. *)
Definition file_size (s : mst) (ino : Z) : Z := Z.of_nat (length (default [] (files s !! ino))).
Definition file_write (ino offset : Z) (bs : list Z) (s : mst) : mst :=
  set_files (<[ino := splice (Z.to_nat offset) bs (default [] (files s !! ino))]> (files s)) s.

Definition fm_key_le (x y : Z * (Z * Z)) : Prop := x.1 ≤ y.1.
#[global] Instance fm_key_le_dec x y : Decision (fm_key_le x y).
Proof. unfold fm_key_le. apply _. Defined.
Definition fm_entries (fm : FileMapping) : list (Z * (Z * Z)) := merge_sort fm_key_le (map_to_list (fm_map fm)).

(** The bytes of the page at [offset] some range covers. *)
Definition va_len (fm : FileMapping) (offset : Z) : Z :=
  foldr Z.max 0 ((λ r, if (rg_offset r <=? offset) && (offset <? rg_offset r + rg_len r)
                       then Z.min PAGE_SIZE (rg_offset r + rg_len r - offset) else 0) <$> fm_ranges fm).

Fixpoint fm_sync_loop (fm : FileMapping) (size : Z) (es : list (Z * (Z * Z))) : M mst () :=
  match es with
  | [] => mret ()
  | (offset, (vpn, ppn)) :: rest =>
      on_mem (translate (fm_pt fm) vpn) ≫= λ o, lift (unwrap o) ≫= λ pte,
      (if negb (pte_is_dirty pte) then mret ()
       else if size <=? offset then mret ()
       else
         (* [max().unwrap()] of no ranges *)
         lift (assert (negb (bool_decide (fm_ranges fm = [])))) ≫= λ _,
         on_mem (read_page ppn) ≫= λ pg,
         let write_len := Z.min (va_len fm offset) (size - offset) in
         modify_st (file_write (fm_file fm) offset (take (Z.to_nat write_len) pg))) ≫= λ _,
      fm_sync_loop fm size rest
  end.
Definition fm_sync (fm : FileMapping) : M mst () :=
  gets (λ s, file_size s (fm_file fm)) ≫= λ size, fm_sync_loop fm size (fm_entries fm).

(** [FileMapping::copy_to_user], for fork: a private copy of every page loaded so far. *)
Fixpoint copy_entries (fm : FileMapping) (es : list (Z * (Z * Z))) (ms : MemorySet)
    (frs : list Z) (mp : gmap Z (Z * Z)) : M kmem (MemorySet * list Z * gmap Z (Z * Z)) :=
  match es with
  | [] => mret (ms, frs, mp)
  | (offset, (vpn, orig_ppn)) :: rest =>
      frame_alloc ≫= λ o, lift (unwrap o) ≫= λ ppn,
      translate (fm_pt fm) vpn ≫= λ o', lift (unwrap o') ≫= λ orig_pte,
      let perm := Z.land (pte_flags orig_pte) (Z.lor (Z.lor MP_R MP_W) (Z.lor MP_X MP_U)) in
      ms_map ms vpn ppn perm ≫= λ ms',
      read_page orig_ppn ≫= λ pg, copy_to ppn pg ≫= λ _,
      copy_entries fm rest ms' (frs ++ [ppn]) (<[offset := (vpn, ppn)]> mp)
  end.
Definition copy_to_user (fm : FileMapping) (ms : MemorySet) : M kmem (MemorySet * FileMapping) :=
  copy_entries fm (fm_entries fm) ms [] ∅ ≫= λ '(ms', frs, mp),
  mret (ms', mkFM (fm_file fm) (fm_ranges fm) frs mp (from_token (ms_token ms'))).
Fixpoint copy_file_mappings (fms : list FileMapping) (ms : MemorySet) : M kmem (MemorySet * list FileMapping) :=
  match fms with
  | [] => mret (ms, [])
  | fm :: rest =>
      copy_to_user fm ms ≫= λ '(ms', fm'),
      copy_file_mappings rest ms' ≫= λ '(ms'', fms'), mret (ms'', fm' :: fms')
  end.

(** [vpn_range_free] *)
Fixpoint pages_free (ms : MemorySet) (vs : list Z) : M kmem bool :=
  match vs with
  | [] => mret true
  | v :: rest =>
      ms_translate ms v ≫= λ o,
      match o with
      | Some pte => if pte_is_valid pte then mret false else pages_free ms rest
      | None => pages_free ms rest
      end
  end.
Definition vpn_range_free (rng : SimpleRange) : M mst bool :=
  gets mmap_mapped ≫= λ l, gets memory_set ≫= λ ms,
  if existsb (λ v, overlap_with rng (mr_range v)) l then mret false
  else on_mem (pages_free ms (range_pages rng)).

(** ** Page faults *)
Definition load_page (ino : Z) (ppn : Z) (range : MapRange) (fault_vpn : Z) : M mst () :=
  gets (λ s, file_size s ino) ≫= λ size,
  lift (file_offset range fault_vpn) ≫= λ offset,
  lift (assert (offset <? size)) ≫= λ _,
  let read_len := Z.min PAGE_SIZE (size - offset) in
  gets (λ s, slice (Z.to_nat offset) (Z.to_nat read_len) (default [] (files s !! ino))) ≫= λ bs,
  on_mem (copy_to ppn bs).

Definition handle_page_fault (fault_addr : Z) : M mst bool :=
  let fault_va := virt_addr fault_addr in
  let fault_vpn := floor fault_va in
  gets memory_set ≫= λ ms,
  on_mem (ms_translate ms fault_vpn) ≫= λ o,
  if match o with Some pte => pte_is_valid pte | None => false end then mret false
  else
    gets mmap_mapped ≫= λ l,
    match list_find (λ v, contains (mr_range v) fault_vpn = true) l with
    | None => mret false
    | Some (_, v) =>
        match mr_ty v with
        | MMemory =>
            on_mem (insert_framed_area ms (addr_of_page (get_start (mr_range v))) (addr_of_page (get_end (mr_range v))) (mr_perm v)) ≫= λ ms',
            modify_st (set_space ms') ≫= λ _, mret true
        | MFile =>
            gets file_mappings ≫= λ fms,
            match list_find (λ fm, fm_contains_va fm fault_va = true) fms with
            | None => mret false
            | Some (i, fm) =>
                on_mem (fm_map_va fm fault_va) ≫= λ '(r, fm'),
                modify_st (set_fms (<[i := fm']> fms)) ≫= λ _,
                lift (unwrap r) ≫= λ '(ppn, range, is_shared),
                on_mem (ms_map ms fault_vpn ppn (mr_perm v)) ≫= λ ms',
                modify_st (set_space ms') ≫= λ _,
                (if is_shared : bool then mret () else load_page (fm_file fm) ppn range fault_vpn) ≫= λ _, mret true
            end
        end
    end.

(** ** System calls *)
Definition VA_MAX : Z := U64_MAX.
Definition MAP_FILE : Z := Z.shiftl 1 0.
Definition MAP_FIXED : Z := Z.shiftl 1 1.

(** The start address and the pages of a mapping of [len] bytes. *)
Definition place (start len flags : Z) : M mst (Z * SimpleRange) :=
  (if flags_contain flags MAP_FIXED then mret (virt_addr start)
   else gets mmap_va_allocator ≫= λ cur,
        let '(st, cur') := va_alloc cur len in modify_st (set_va cur') ≫= λ _, mret st) ≫= λ start_va,
  lift (range_new (floor start_va) (ceil (virt_addr (u64 (start_va + len))))) ≫= λ rng, mret (start_va, rng).

Definition reserve (rng : SimpleRange) (perm : Z) (ty : MMapType) : M mst () :=
  gets mmap_mapped ≫= λ l, modify_st (set_mapped (l ++ [mkReserve rng perm ty])).

Definition do_mmap_memory (start len perm flags : Z) : M mst Z :=
  place start len flags ≫= λ '(_, rng),
  vpn_range_free rng ≫= λ free : bool,
  if negb free then mret (-1)
  else reserve rng perm MMemory ≫= λ _, mret (addr_of_page (get_start rng)).

Definition add_file_range (ino : Z) (r : MapRange) : M mst () :=
  gets file_mappings ≫= λ fms, gets memory_set ≫= λ ms,
  match list_find (λ fm, fm_file fm = ino) fms with
  | Some (i, fm) => modify_st (set_fms (<[i := set_ranges (fm_ranges fm ++ [r]) fm]> fms))
  | None => modify_st (set_fms (fms ++ [set_ranges [r] (fm_new_empty ino (ms_token ms))]))
  end.

Definition do_mmap_file (start len perm flags fd offset : Z) : M mst Z :=
  if fd <=? 2 then mret (-1)
  else
    gets fds ≫= λ fd_table,
    match fd_table !! Z.to_nat fd with
    | Some (Some (FdInode ino true readable writable)) =>
        if (flags_contain perm MP_R && negb readable) || (flags_contain perm MP_W && negb writable) then mret (-1)
        else
          gets (λ s, file_size s ino) ≫= λ size,
          if (size <? len) || (u64 (size - len) <? offset) then mret (-1)
          else
            place start len flags ≫= λ '(start_va, rng),
            vpn_range_free rng ≫= λ free : bool,
            if negb free then mret (-1)
            else
              reserve rng perm MFile ≫= λ _,
              add_file_range ino (map_range_new start_va len offset) ≫= λ _,
              mret (addr_of_page (get_start rng))
    | _ => mret (-1)
    end.

Definition prot_perm (prot : Z) : Z := Z.lor (Z.land (u8 (Z.shiftl prot 1)) 30) MP_U.
Definition sys_mmap (start len prot flags fd offset : Z) : M mst Z :=
  let mmap_flags := Z.land (u32 flags) 3 in
  if flags_contain mmap_flags MAP_FIXED &&
     (negb (Z.land start 0xfff =? 0) || (len =? 0) || (u64 (VA_MAX - len) <=? start)) then mret (-1)
  else if negb (Z.land prot (Z.lxor U64_MAX 7) =? 0) || (Z.land prot 7 =? 0) then mret (-1)
  else
    let map_perm := prot_perm prot in
    if flags_contain mmap_flags MAP_FILE then do_mmap_file start len map_perm mmap_flags fd offset
    else do_mmap_memory start len map_perm mmap_flags.

(** The unmapping loop of an anonymous range; [false] is the early [return -1]. *)
Fixpoint unmap_memory (vs : list Z) : M mst bool :=
  match vs with
  | [] => mret true
  | v :: rest =>
      gets memory_set ≫= λ ms,
      on_mem (ms_translate ms v) ≫= λ o,
      match o with
      | Some pte => if negb (pte_is_valid pte) then mret false
                    else on_mem (ms_unmap ms v) ≫= λ _, unmap_memory rest
      | None => unmap_memory rest
      end
  end.
Fixpoint unmap_file_pages (vs : list Z) : M mst () :=
  match vs with
  | [] => mret ()
  | v :: rest => gets memory_set ≫= λ ms, on_mem (ms_unmap ms v) ≫= λ _, unmap_file_pages rest
  end.

(** The (mapping, range) positions that contain the pages. *)
Definition range_positions (fms : list FileMapping) (rng : SimpleRange) : list (nat * nat) :=
  concat (imap (λ i fm, (λ j, (i, j)) <$> (fst <$> filter (λ p, contains_range p.2 rng = true) (imap pair (fm_ranges fm)))) fms).

Definition munmap_file (rng : SimpleRange) : M mst () :=
  gets file_mappings ≫= λ fms,
  match range_positions fms rng with
  | [(i, j)] =>
      lift (unwrap (fms !! i)) ≫= λ fm,
      fm_sync fm ≫= λ _,
      lift (unwrap (fm_ranges fm !! j)) ≫= λ rj,
      let fm' := if equals_range rj rng then set_ranges (delete j (fm_ranges fm)) fm else fm in
      (if bool_decide (fm_ranges fm' = []) then
         (* dropping the mapping drops its frames *)
         on_mem (drop_frames (fm_frames fm')) ≫= λ _, modify_st (set_fms (delete i fms))
       else modify_st (set_fms (<[i := fm']> fms))) ≫= λ _,
      unmap_file_pages (range_pages rng)
  | _ => panic  (* none: [unwrap] of an empty cell; several: [expect] of the second [set] *)
  end.

Definition sys_munmap (start len : Z) : M mst Z :=
  if negb (Z.land start 0xfff =? 0) || (u64 (VA_MAX - len) <=? start) then mret (-1)
  else
    lift (range_new (floor (virt_addr start)) (ceil (virt_addr (u64 (start + len))))) ≫= λ rng,
    gets mmap_mapped ≫= λ l,
    match list_find (λ v, mr_range v = rng) l with
    | None => mret (-1)
    | Some (idx, v) =>
        (match mr_ty v with
         | MMemory => unmap_memory (range_pages rng)
         | MFile => munmap_file rng ≫= λ _, mret true
         end) ≫= λ ok : bool,
        if negb ok then mret (-1)
        else modify_st (set_mapped (delete idx l)) ≫= λ _, mret 0
    end.

(** ** Reservations *)

(** Reserved ranges are pages of the 39-bit address space, both halves of it
    (a fixed mapping may be asked for in the upper half), and no page is
    reserved twice. *)
Definition range_ok (rg : SimpleRange) : Prop := 0 ≤ range_l rg ≤ range_r rg ∧ range_r rg ≤ 2 ^ 27.
Record reservations_ok (l : list MMapReserve) : Prop := {
  res_range : Forall (λ r, range_ok (mr_range r)) l;
  res_disjoint : ∀ i j a b v, l !! i = Some a → l !! j = Some b →
    contains (mr_range a) v = true → contains (mr_range b) v = true → i = j;
}.
Definition is_page_aligned (a : Z) : Prop := 0 ≤ a ∧ a mod PAGE_SIZE = 0.
Definition mst_ok (s : mst) : Prop := reservations_ok (mmap_mapped s) ∧ is_page_aligned (mmap_va_allocator s).

Lemma contains_spec rg v : contains rg v = true ↔ range_l rg ≤ v < range_r rg.
Proof. unfold contains. rewrite andb_true_iff, Z.leb_le, Z.ltb_lt. done. Qed.
Lemma elem_of_range_pages rg v : v ∈ range_pages rg ↔ range_l rg ≤ v < range_r rg.
Proof. unfold range_pages, get_start, get_end. rewrite elem_of_seqZ. lia. Qed.

Lemma overlap_false a b v :
  range_ok a → range_ok b → overlap_with a b = false → contains a v = true → contains b v = true → False.
Proof.
  intros [Ha Ha'] [Hb Hb']. unfold overlap_with, step, get_start, get_end.
  rewrite !u64_id by (unfold is_u64; lia). rewrite andb_false_iff, !Z.leb_gt, !contains_spec. lia.
Qed.

Lemma reserve_ok l r :
  reservations_ok l → range_ok (mr_range r) →
  existsb (λ v, overlap_with (mr_range r) (mr_range v)) l = false → reservations_ok (l ++ [r]).
Proof.
  intros [Hr Hd] Hok Hno. pose proof (proj1 (Forall_forall _ _) Hr) as Hr'.
  assert (∀ a v, a ∈ l → contains (mr_range r) v = true → contains (mr_range a) v = true → False) as Hne.
  { intros a v Ha. apply overlap_false; [done|by apply Hr'|].
    apply not_true_is_false. intros Ho. apply not_true_iff_false in Hno. apply Hno, existsb_exists.
    exists a. split; [by apply list_elem_of_In|done]. }
  split; [by apply Forall_app; split; [|constructor]|].
  intros i j a b v [Hi|[Hi Ha]]%lookup_app_Some [Hj|[Hj Hb]]%lookup_app_Some Hca Hcb.
  - by eapply Hd.
  - apply list_lookup_singleton_Some in Hb as [_ <-]. destruct (Hne a v); [by eapply list_elem_of_lookup_2|done|done].
  - apply list_lookup_singleton_Some in Ha as [_ <-]. destruct (Hne b v); [by eapply list_elem_of_lookup_2|done|done].
  - apply list_lookup_singleton_Some in Ha as [? _]. apply list_lookup_singleton_Some in Hb as [? _]. lia.
Qed.

Lemma delete_reservation l i : reservations_ok l → reservations_ok (delete i l).
Proof.
  intros [Hr Hd]. split; [by apply Forall_delete|].
  intros j k a b v [Hj Hji]%delete_lookup_inv [Hk Hki]%delete_lookup_inv Ha Hb.
  pose proof (Hd _ _ _ _ _ Hj Hk Ha Hb) as He. unfold skip in *. repeat case_decide; lia.
Qed.

(** Computations that leave the reservations alone. *)
Definition keeps {A} (c : M mst A) : Prop := ∀ s a s', c s = Ok (a, s') →
  mmap_mapped s' = mmap_mapped s ∧ mmap_va_allocator s' = mmap_va_allocator s.

Lemma keeps_bind {A B} (m : M mst A) (f : A → M mst B) : keeps m → (∀ a, keeps (f a)) → keeps (m ≫= f).
Proof. intros Hm Hf s b s'' (a & s' & H1 & H2)%bind_inv. apply Hm in H1 as []. apply Hf in H2 as []. split; congruence. Qed.
Lemma keeps_ret {A} (a : A) : keeps (mret a).
Proof. by intros s b s' [= <- <-]. Qed.
Lemma keeps_panic {A} : keeps (panic (A:=A)).
Proof. done. Qed.
Lemma keeps_lift {A} (o : outcome A) : keeps (lift o).
Proof. by intros s a s' [_ ->]%lift_inv. Qed.
Lemma keeps_on_mem {A} (c : M kmem A) : keeps (on_mem c).
Proof. intros s a s'. unfold on_mem. destruct (c (km s)) as [[? ?]|]; [intros [= <- <-]|]; done. Qed.
Lemma keeps_gets {A} (f : mst → A) : keeps (gets f).
Proof. by intros s b s' [= <- <-]. Qed.
Lemma keeps_modify f :
  (∀ s, mmap_mapped (f s) = mmap_mapped s ∧ mmap_va_allocator (f s) = mmap_va_allocator s) → keeps (modify_st f).
Proof. intros Hf s b s' [= <- <-]. apply Hf. Qed.

Create HintDb keeps.
#[export] Hint Resolve keeps_bind keeps_ret keeps_panic keeps_lift keeps_on_mem keeps_gets : keeps.
#[export] Hint Extern 1 (keeps (modify_st _)) => apply keeps_modify; done : keeps.
Ltac keeps := repeat first [progress intros | case_match | progress eauto 2 with keeps | apply keeps_bind].

Lemma unmap_memory_keeps vs : keeps (unmap_memory vs).
Proof. induction vs; simpl; keeps. Qed.
Lemma unmap_file_pages_keeps vs : keeps (unmap_file_pages vs).
Proof. induction vs; simpl; keeps. Qed.
Lemma fm_sync_loop_keeps fm size es : keeps (fm_sync_loop fm size es).
Proof. induction es as [|[? [? ?]]]; simpl; keeps. Qed.
#[export] Hint Resolve unmap_memory_keeps unmap_file_pages_keeps fm_sync_loop_keeps : keeps.
Lemma munmap_file_keeps rng : keeps (munmap_file rng).
Proof. unfold munmap_file, fm_sync. keeps. Qed.
Lemma handle_page_fault_keeps a : keeps (handle_page_fault a).
Proof. unfold handle_page_fault, load_page. keeps. Qed.
Lemma vpn_range_free_keeps rng : keeps (vpn_range_free rng).
Proof. unfold vpn_range_free. keeps. Qed.
Lemma add_file_range_keeps ino r : keeps (add_file_range ino r).
Proof. unfold add_file_range. keeps. Qed.
#[export] Hint Resolve munmap_file_keeps handle_page_fault_keeps vpn_range_free_keeps add_file_range_keeps : keeps.

Lemma keeps_ok {A} (c : M mst A) s a s' : keeps c → c s = Ok (a, s') → mst_ok s → mst_ok s'.
Proof. intros Hk H. unfold mst_ok. by destruct (Hk _ _ _ H) as [-> ->]. Qed.

(** Where a mapping goes: a range of the 39-bit space; only the allocator moves. *)
Lemma place_spec start len flags s va rng s' :
  is_page_aligned (mmap_va_allocator s) → place start len flags s = Ok ((va, rng), s') →
  range_ok rng ∧ range_l rng = floor va ∧ (0 ≤ va ∧ (flags_contain flags MAP_FIXED = false ∨ start mod PAGE_SIZE = 0 → is_page_aligned va)) ∧
  range_r rng = ceil (virt_addr (u64 (va + len))) ∧
  ∃ v, s' = set_va v s ∧ is_page_aligned v.
Proof.
  intros [Hva Hal]. unfold place. intros (a & s1 & H1 & H2)%bind_inv.
  assert ((0 ≤ a ∧ (flags_contain flags MAP_FIXED = false ∨ start mod PAGE_SIZE = 0 → is_page_aligned a)) ∧ ∃ v, s1 = set_va v s ∧ is_page_aligned v) as [Ha Hs].
  { destruct (flags_contain flags MAP_FIXED).
    - injection H1 as <- <-. pose proof (virt_addr_range start). split.
      { split; [lia|]. intros [?|Hst]; [done|]. split; [lia|]. rewrite virt_addr_mod. unfold PAGE_SIZE in *. dlia. }
      exists (mmap_va_allocator s). destruct s; done.
    - injection H1 as <- <-. split; [done|]. eexists. split; [done|]. unfold is_page_aligned.
      pose proof (virt_addr_range (u64 (mmap_va_allocator s + len))).
      rewrite ceil_eq by (unfold PAGE_SIZE; lia). unfold PAGE_SIZE. rewrite addr_of_page_eq; unfold PAGE_SIZE; dlia. }
  apply bind_inv in H2 as (r & s2 & [Hr ->]%lift_inv & [= -> -> ->]).
  unfold range_new in Hr. apply outcome_bind_Ok in Hr as (u & Hr & [= <-]).
  unfold assert in Hr. destruct (_ <=? _) eqn:Hle; [|done]. apply Z.leb_le in Hle.
  pose proof (virt_addr_range (u64 (va + len))) as Hv.
  assert (ceil (virt_addr (u64 (va + len))) ≤ 2 ^ 27) as Hc by (rewrite ceil_eq by (unfold PAGE_SIZE; lia); unfold PAGE_SIZE; dlia).
  assert (0 ≤ floor va) by (destruct Ha; unfold floor, PAGE_SIZE; dlia).
  split_and!; by destruct Ha.
Qed.

Lemma vpn_range_free_true rng s s' :
  vpn_range_free rng s = Ok (true, s') →
  existsb (λ v, overlap_with rng (mr_range v)) (mmap_mapped s) = false ∧
  ∃ k, s' = set_km k s ∧ pages_free (memory_set s) (range_pages rng) (km s) = Ok (true, k).
Proof.
  unfold vpn_range_free. intros (l & s1 & [= <- <-] & H)%bind_inv.
  apply bind_inv in H as (ms & s1 & [= <- <-] & H).
  destruct (existsb _ _); [by injection H|]. split; [done|].
  unfold on_mem in H. destruct (pages_free _ _ _) as [[b k]|]; [|done]. injection H as -> <-. by exists k.
Qed.

(** What both kinds of [mmap] do once the place is known. *)
Lemma place_reserve_ok start len flags perm ty s va rng s1 s2 :
  mst_ok s → place start len flags s = Ok ((va, rng), s1) → vpn_range_free rng s1 = Ok (true, s2) →
  mst_ok (set_mapped (mmap_mapped s2 ++ [mkReserve rng perm ty]) s2).
Proof.
  intros [Hr Hva] Hp Hf. destruct (place_spec _ _ _ _ _ _ _ Hva Hp) as (Hrng & _ & _ & _ & v & -> & Hv).
  apply vpn_range_free_true in Hf as (Hno & k & -> & _). split; [|done]. simpl. by apply reserve_ok.
Qed.

Lemma do_mmap_memory_ok start len perm flags s a s' :
  mst_ok s → do_mmap_memory start len perm flags s = Ok (a, s') → mst_ok s'.
Proof.
  intros Hok ([va rng] & s1 & Hp & H)%bind_inv. apply bind_inv in H as (b & s2 & Hf & H).
  destruct b; simpl in H.
  - injection H as _ <-. by eapply place_reserve_ok.
  - injection H as _ <-. eapply keeps_ok; [apply vpn_range_free_keeps|done|].
    destruct (place_spec _ _ _ _ _ _ _ (proj2 Hok) Hp) as (_ & _ & _ & _ & v & -> & Hv). by split; [apply Hok|].
Qed.

Lemma do_mmap_file_ok start len perm flags fd offset s a s' :
  mst_ok s → do_mmap_file start len perm flags fd offset s = Ok (a, s') → mst_ok s'.
Proof.
  intros Hok H. unfold do_mmap_file in H. case_match; [by injection H as _ <-|].
  apply bind_inv in H as (t & s0 & [= <- <-] & H).
  repeat (case_match; try by injection H as _ <-).
  apply bind_inv in H as (sz & s0 & [= <- <-] & H). case_match; [by injection H as _ <-|].
  apply bind_inv in H as ([va rng] & s1 & Hp & H). apply bind_inv in H as (b & s2 & Hf & H). destruct b; simpl in H.
  - apply bind_inv in H as ([] & s3 & Hr & H). injection Hr as <-.
    apply bind_inv in H as ([] & s4 & Ha & [= _ <-]).
    eapply keeps_ok; [apply add_file_range_keeps|done|]. by eapply place_reserve_ok.
  - injection H as _ <-. eapply keeps_ok; [apply vpn_range_free_keeps|done|].
    destruct (place_spec _ _ _ _ _ _ _ (proj2 Hok) Hp) as (_ & _ & _ & _ & v & -> & Hv). by split; [apply Hok|].
Qed.

Lemma sys_mmap_ok start len prot flags fd offset s a s' :
  mst_ok s → sys_mmap start len prot flags fd offset s = Ok (a, s') → mst_ok s'.
Proof.
  intros Hok H. unfold sys_mmap in H. repeat (case_match; try by injection H as _ <-).
  - by eapply do_mmap_file_ok.
  - by eapply do_mmap_memory_ok.
Qed.

Lemma sys_munmap_ok start len s a s' : mst_ok s → sys_munmap start len s = Ok (a, s') → mst_ok s'.
Proof.
  intros Hok H. unfold sys_munmap in H. case_match; [by injection H as _ <-|].
  apply bind_inv in H as (rng & s1 & [_ ->]%lift_inv & H). apply bind_inv in H as (l & s1 & [= <- <-] & H).
  case_match; [|by injection H as _ <-]. case_match.
  apply bind_inv in H as (b & s1 & Hc & H).
  assert (mst_ok s1 ∧ mmap_mapped s1 = mmap_mapped s) as [Hok1 Hm].
  { assert (keeps (match mr_ty m with MMemory => unmap_memory (range_pages rng) | MFile => munmap_file rng ≫= λ _, mret true end))
      as Hk by keeps. split; [by eapply keeps_ok|by eapply Hk]. }
  destruct b; simpl in H; injection H as _ <-; [|done]. split; [|apply Hok1].
  simpl. apply delete_reservation, Hok.
Qed.

Inductive mstep (s s' : mst) : Prop :=
| step_mmap start len prot flags fd offset a : sys_mmap start len prot flags fd offset s = Ok (a, s') → mstep s s'
| step_munmap start len a : sys_munmap start len s = Ok (a, s') → mstep s s'
| step_fault addr b : handle_page_fault addr s = Ok (b, s') → mstep s s'
| step_touch k f : s' = set_files f (set_km k s) → mstep s s'.

(** C28 Reservations stay disjoint.  Whatever sequence of [mmap], [munmap] and page
    faults a process makes, with memory and files changing in between, every
    range it has reserved consists of page numbers of the 39-bit address space
    and no page is reserved twice. *)
Theorem reservations_disjoint s0 s :
  mmap_mapped s0 = [] → mmap_va_allocator s0 = va_allocator_new MMAP_AREA_BASE → rtc mstep s0 s →
  reservations_ok (mmap_mapped s).
Proof.
  intros Hm Hv Hst. apply (rtc_invariant mstep mst_ok s0 s).
  - intros x y Hok [start len prot flags fd off a H|start len a H|addr b H|k f ->].
    + by eapply sys_mmap_ok.
    + by eapply sys_munmap_ok.
    + eapply keeps_ok; [apply handle_page_fault_keeps|done|done].
    + done.
  - split; [|rewrite Hv; done]. rewrite Hm. split; [constructor|done].
  - done.
Qed.

(** ** Demand paging of anonymous memory *)

Lemma ms_translate_spec l0 ms s v :
  pt_inv l0 (page_table ms) s → 0 ≤ v < 2 ^ 27 →
  ∃ o, ms_translate ms v s = Ok (o, s) ∧ o ≫= only_valid = pt_map s ms v.
Proof.
  intros Hinv Hv. destruct (indexes_recompose v Hv) as (i0 & i1 & i2 & Hidx & H0 & H1 & H2 & _).
  eexists. split; [by apply (translate_spec (frames (page_table ms))); [apply Hinv| | |]|].
  unfold mapping. rewrite Hidx. by destruct (walk _ _ _).
Qed.
Lemma translated_valid (o : option Z) (m : option Z) :
  o ≫= only_valid = m → (match o with Some pte => pte_is_valid pte | None => false end) = bool_decide (is_Some m).
Proof.
  intros <-. destruct o as [e|]; simpl; [|done]. unfold only_valid. destruct (pte_is_valid e).
  - by rewrite bool_decide_eq_true_2 by eauto.
  - rewrite bool_decide_eq_false_2; [done|by intros [? [=]]].
Qed.

Lemma pages_free_spec l0 ms vs s :
  pt_inv l0 (page_table ms) s → Forall (λ v, 0 ≤ v < 2 ^ 27) vs →
  pages_free ms vs s = Ok (bool_decide (Forall (λ v, pt_map s ms v = None) vs), s).
Proof.
  intros Hinv. induction 1 as [|v vs Hv Hvs IH]; simpl; [done|].
  destruct (ms_translate_spec l0 ms s v Hinv Hv) as (o & Ho & Hm). rewrite (M_bind_Ok _ _ _ _ _ Ho).
  destruct o as [e|]; simpl in Hm.
  - unfold only_valid in Hm. destruct (pte_is_valid e).
    + rewrite bool_decide_eq_false_2; [done|]. intros [Hn _]%Forall_cons. congruence.
    + rewrite IH. do 2 f_equal. apply bool_decide_ext. rewrite Forall_cons. naive_solver.
  - rewrite IH. do 2 f_equal. apply bool_decide_ext. rewrite Forall_cons. naive_solver.
Qed.

Lemma on_mem_Ok {A} (c : M kmem A) s a k : c (km s) = Ok (a, k) → on_mem c s = Ok (a, set_km k s).
Proof. intros H. unfold on_mem. by rewrite H. Qed.
Lemma set_km_id s : set_km (km s) s = s.
Proof. by destruct s. Qed.

(** A fault on a page that is mapped, or that nobody reserved, is not resolved. *)
Lemma fault_not_resolved l0 s a :
  space_ok l0 (memory_set s) (km s) →
  pt_map (km s) (memory_set s) (floor (virt_addr a)) ≠ None ∨
    (∀ r, r ∈ mmap_mapped s → contains (mr_range r) (floor (virt_addr a)) = false) →
  handle_page_fault a s = Ok (false, s).
Proof.
  intros Hsp Hc. pose proof (virt_addr_range a) as Hr.
  assert (0 ≤ floor (virt_addr a) < 2 ^ 27) as Hv by (unfold floor, PAGE_SIZE; dlia).
  destruct (ms_translate_spec l0 _ _ _ (sp_pt _ _ _ Hsp) Hv) as (o & Ho & Hm).
  unfold handle_page_fault. rewrite (M_bind_Ok _ _ _ _ _ eq_refl).
  rewrite (M_bind_Ok _ _ _ _ _ (on_mem_Ok _ _ _ _ Ho)), set_km_id, (translated_valid _ _ Hm).
  case_bool_decide as Hs; [done|]. destruct Hc as [Hc|Hc]; [by rewrite eq_None_not_Some in Hc|].
  rewrite (M_bind_Ok _ _ _ _ _ eq_refl).
  destruct (list_find _ _) as [[i r]|] eqn:Hf; [|done].
  apply list_find_Some in Hf as (Hl & Hcr & _). rewrite Hc in Hcr; [done|]. by eapply list_elem_of_lookup_2.
Qed.

(** A fault in an anonymous reservation maps all of it. *)
Lemma fault_anonymous l0 k s a i r :
  space_ok l0 (memory_set s) (km s) → reservations_ok (mmap_mapped s) →
  mmap_mapped s !! i = Some r → mr_ty r = MMemory → perm_ok (mr_perm r) →
  contains (mr_range r) (floor (virt_addr a)) = true → range_r (mr_range r) < 2 ^ 27 →
  (∀ v, v ∈ range_pages (mr_range r) → pt_map (km s) (memory_set s) v = None) →
  nfree (3 * length (range_pages (mr_range r)) + k) (fa (km s)) →
  ∃ ms' k', handle_page_fault a s = Ok (true, set_space ms' (set_km k' s)) ∧ space_ok l0 ms' k' ∧
    area_added l0 (memory_set s) (km s) (mr_range r) (mr_perm r) ms' k' ∧ nfree k (fa k').
Proof.
  intros Hsp [Hrr Hd] Hi Hty Hp Hc Hlt Hfree Hnf. pose proof (virt_addr_range a) as Hr.
  assert (0 ≤ floor (virt_addr a) < 2 ^ 27) as Hv by (unfold floor, PAGE_SIZE; dlia).
  destruct (proj1 (Forall_lookup _ _) Hrr _ _ Hi) as [[Hl Hle] _]. apply contains_spec in Hc as Hc'.
  destruct (ms_translate_spec l0 _ _ _ (sp_pt _ _ _ Hsp) Hv) as (o & Ho & Hm).
  destruct (mr_range r) as [rl rr] eqn:Hrg. simpl in *.
  assert (mkRange (floor (addr_of_page rl)) (ceil (addr_of_page rr)) = mkRange rl rr) as Hro.
  { rewrite !addr_of_page_eq by lia. rewrite ceil_eq by (unfold PAGE_SIZE; lia).
    f_equal; unfold floor, PAGE_SIZE; dlia. }
  destruct (insert_framed_area_spec l0 k (memory_set s) (km s) (addr_of_page rl) (addr_of_page rr) (mr_perm r))
    as [Hins _]; rewrite ?Hro; [done|done|rewrite addr_of_page_eq by lia; unfold PAGE_SIZE; lia| |
      rewrite addr_of_page_eq by lia; unfold PAGE_SIZE; lia|done|].
  { injection Hro as -> ->. done. }
  rewrite Hro in Hins. destruct (Hins Hfree) as (ms' & k' & Hrun & Hsp' & Hadd & Hnf').
  exists ms', k'. split_and!; [|done|done|done].
  unfold handle_page_fault. rewrite (M_bind_Ok _ _ _ _ _ eq_refl).
  rewrite (M_bind_Ok _ _ _ _ _ (on_mem_Ok _ _ _ _ Ho)), set_km_id, (translated_valid _ _ Hm).
  rewrite bool_decide_eq_false_2.
  2:{ rewrite Hfree; [by intros [? [=]]|]. rewrite elem_of_range_pages. simpl. done. }
  rewrite (M_bind_Ok _ _ _ _ _ eq_refl).
  rewrite (proj2 (list_find_Some _ _ i r)).
  2:{ rewrite Hrg. split_and!; [done|done|]. intros j y Hj Hlj Hcy.
      assert (j = i) by (eapply (Hd j i y r); [done|done|done|by rewrite Hrg]). lia. }
  rewrite Hty, Hrg. cbn [get_start get_end range_l range_r].
  by rewrite (M_bind_Ok _ _ _ _ _ (on_mem_Ok _ _ _ _ Hrun)).
Qed.

Lemma prot_perm_ok prot : perm_ok (prot_perm prot).
Proof.
  unfold prot_perm, perm_ok. split.
  - apply Z.lor_nonneg. split; [apply Z.land_nonneg; lia|done].
  - apply lt_pow2_bits; [lia|apply Z.lor_nonneg; split; [apply Z.land_nonneg; lia|done]|].
    intros b Hb. rewrite Z.lor_spec, Z.land_spec.
    by rewrite (bits_above 30 8 b), (bits_above MP_U 8 b), andb_false_r by (change MP_U with 16; lia).
Qed.

(** An anonymous [mmap] that succeeds: the memory is untouched, the pages are
    unmapped and reserved. *)
Lemma sys_mmap_anonymous l0 start len prot flags fd offset s addr s1 :
  space_ok l0 (memory_set s) (km s) → mst_ok s →
  flags_contain (Z.land (u32 flags) 3) MAP_FILE = false →
  sys_mmap start len prot flags fd offset s = Ok (addr, s1) → addr ≠ -1 →
  is_page_aligned addr ∧ km s1 = km s ∧ memory_set s1 = memory_set s ∧
  ∃ rng, mmap_mapped s1 = mmap_mapped s ++ [mkReserve rng (prot_perm prot) MMemory] ∧
    range_l rng = floor addr ∧ range_r rng = ceil (virt_addr (u64 (addr + len))) ∧
    ∀ v, v ∈ range_pages rng → pt_map (km s) (memory_set s) v = None.
Proof.
  intros Hsp Hok Hfl H Hne. unfold sys_mmap in H. rewrite Hfl in H.
  match type of H with (if ?c then _ else _) _ = _ => destruct c eqn:Hg end; [by injection H as <- _|].
  match type of H with (if ?c then _ else _) _ = _ => destruct c eqn:Hg2 end; [by injection H as <- _|].
  assert (flags_contain (Z.land (u32 flags) 3) MAP_FIXED = false ∨ start mod PAGE_SIZE = 0) as Hst.
  { apply andb_false_iff in Hg as [?|Hg]; [by left|]. right.
    apply orb_false_iff in Hg as [[Hg _]%orb_false_iff _]. apply negb_false_iff, Z.eqb_eq in Hg.
    change 0xfff with (Z.shiftl 1 12 - 1) in Hg. by rewrite land_mask in Hg by lia. }
  apply bind_inv in H as ([va rng] & s2 & Hp & H). apply bind_inv in H as (b & s3 & Hf & H).
  destruct b; [|by injection H as <- _]. simpl in H. injection H as <- <-.
  destruct (place_spec _ _ _ _ _ _ _ (proj2 Hok) Hp) as (Hrng & Hl & [_ Hva] & Hr & v & -> & _).
  destruct (Hva Hst) as [Hva0 Hvam].
  assert (addr_of_page (get_start rng) = va) as Hadr.
  { unfold get_start. destruct Hrng as [? ?]. rewrite addr_of_page_eq by lia. rewrite Hl.
    unfold floor, PAGE_SIZE in *. dlia. }
  rewrite Hadr. apply vpn_range_free_true in Hf as (_ & k & -> & Hf).
  assert (Forall (λ v, 0 ≤ v < 2 ^ 27) (range_pages rng)) as Hin.
  { apply Forall_forall. intros w [? ?]%elem_of_range_pages. destruct Hrng. lia. }
  cbn [memory_set km set_va] in Hf. rewrite (pages_free_spec l0 _ _ _ (sp_pt _ _ _ Hsp) Hin) in Hf.
  injection Hf as Hfree%bool_decide_eq_true <-.
  split_and!; [done|done|done|]. exists rng. split_and!; [done|done|done|]. by apply Forall_forall.
Qed.

(** C26 Demand paging.  When an anonymous [mmap] of [len] bytes returns an address,
    nothing is mapped yet; the first access anywhere in the mapping faults, the
    fault is resolved by mapping every page of it to a fresh cleared frame with
    the requested protection, everything else staying as it was, and a second
    fault on the same address (a protection error) is not resolved. *)
Theorem mmap_demand_paging l0 k s start len prot flags fd offset addr s1 a :
  space_ok l0 (memory_set s) (km s) → mst_ok s →
  flags_contain (Z.land (u32 flags) 3) MAP_FILE = false →
  sys_mmap start len prot flags fd offset s = Ok (addr, s1) → addr ≠ -1 →
  let rng := mkRange (floor addr) (ceil (addr + len)) in
  addr ≤ a < addr + len → addr + len ≤ 2 ^ 39 - PAGE_SIZE →
  nfree (3 * length (range_pages rng) + k) (fa (km s)) →
  km s1 = km s ∧ memory_set s1 = memory_set s ∧
  ∃ s2, handle_page_fault a s1 = Ok (true, s2) ∧ space_ok l0 (memory_set s2) (km s2) ∧
    area_added l0 (memory_set s) (km s) rng (prot_perm prot) (memory_set s2) (km s2) ∧
    handle_page_fault a s2 = Ok (false, s2).
Proof.
  intros Hsp Hok Hfl H Hne rng Ha Hlen Hnf.
  destruct (sys_mmap_anonymous _ _ _ _ _ _ _ _ _ _ Hsp Hok Hfl H Hne)
    as ([Ha0 Ham] & Hkm & Hms & rng' & Hmap & Hl & Hr & Hfree).
  pose proof (sys_mmap_ok _ _ _ _ _ _ _ _ _ Hok H) as [Hres _]. split_and!; [done|done|].
  unfold PAGE_SIZE in *. rewrite u64_id, virt_addr_id in Hr by (unfold is_u64; lia).
  assert (rng' = rng) as -> by (destruct rng'; simpl in *; by subst).
  assert (contains rng (floor (virt_addr a)) = true) as Hc.
  { rewrite virt_addr_id by lia. apply contains_spec. unfold rng; simpl. rewrite ceil_eq by (unfold PAGE_SIZE; lia).
    unfold floor, PAGE_SIZE. dlia. }
  destruct (fault_anonymous l0 k s1 a (length (mmap_mapped s)) (mkReserve rng (prot_perm prot) MMemory))
    as (ms' & k' & Hrun & Hsp' & Hadd & _); rewrite ?Hkm, ?Hms; try done.
  { by rewrite Hmap, lookup_app_r, Nat.sub_diag by done. }
  { apply prot_perm_ok. }
  { simpl. rewrite ceil_eq by (unfold PAGE_SIZE; lia). unfold PAGE_SIZE. dlia. }
  rewrite Hkm, Hms in Hadd. eexists. split; [exact Hrun|]. split_and!; [done|done|].
  apply (fault_not_resolved l0); [done|]. left. simpl.
  destruct (aa_pages _ _ _ _ _ _ _ Hadd (floor (virt_addr a))) as (f & Hf & _); [|by rewrite Hf].
  apply elem_of_range_pages, contains_spec, Hc.
Qed.

(** ** Demand paging of files *)

Lemma land_perm p : perm_ok p → Z.land p 255 = p.
Proof. intros Hp. change 255 with (Z.ones 8). rewrite Z.land_ones by lia. apply Z.mod_small. unfold perm_ok in Hp. lia. Qed.

(** Mapping one page of a space that nothing owns. *)
Lemma ms_map_spec l0 k ms s v ppn perm :
  space_ok l0 ms s → 0 ≤ v < 2 ^ 27 → 0 ≤ ppn < 2 ^ 44 → perm_ok perm → nfree (2 + k) (fa s) →
  pt_map s ms v = None →
  ∃ ms' s', ms_map ms v ppn perm s = Ok (ms', s') ∧ space_ok l0 ms' s' ∧ areas ms' = areas ms ∧
    extends l0 (page_table ms) s (page_table ms') s' ∧ nfree k (fa s') ∧
    ∀ w, 0 ≤ w < 2 ^ 27 → pt_map s' ms' w = if decide (w = v) then Some (leaf_entry perm ppn) else pt_map s ms w.
Proof.
  intros Hsp Hv Hppn Hp Hnf Hn. pose proof Hsp as [Hpt Har Hpg Hinj Hdis].
  pose proof (map_correct l0 k (page_table ms) v ppn perm s Hpt Hv Hppn Hp Hnf) as Hmc. rewrite Hn in Hmc.
  destruct Hmc as (pt' & s' & Hr & Hinv & Hext & Hm & Hnf').
  exists (mkMS pt' (areas ms)), s'. unfold ms_map. rewrite land_perm by done.
  rewrite (M_bind_Ok _ _ _ _ _ Hr). split_and!; try done.
  - split; try done. intros a w Ha Hw. eapply page_owned_extends; [done| |by apply Hpg].
    rewrite Hm by (by eapply pages_of_range; [apply Har|]). case_decide as Hd; [|done]. subst w.
    destruct (Hpg a v Ha Hw) as (f & pg & _ & _ & _ & _ & _ & Hmap). congruence.
  - intros w Hw. simpl. rewrite (ext_root _ _ _ _ _ Hext). by apply Hm.
Qed.

(** Giving out a frame does not disturb a space. *)
Lemma space_ok_alloc l0 ms s f a' :
  space_ok l0 ms s → is_free (fa s) f → fa_wf l0 a' →
  (∀ q, is_allocated l0 a' q ↔ q = f ∨ is_allocated l0 (fa s) q) →
  let s' := mkMem a' (<[f := zero_page]> (mem s)) in
  space_ok l0 ms s' ∧ ∀ v, 0 ≤ v < 2 ^ 27 → pt_map s' ms v = pt_map s ms v.
Proof.
  intros Hsp Hf Hfa Hal s'. pose proof Hsp as [Hpt Har Hpg Hinj Hdis].
  assert (∀ n, is_allocated l0 (fa s) n → mem s' !! n = mem s !! n) as Hmem.
  { intros n Hn. simpl. apply lookup_insert_ne. intros ->.
    eapply free_allocated_disjoint; [apply Hpt|exact Hf|exact Hn]. }
  destruct (table_frame l0 (page_table ms) s s') as [Hpt' Hm]; [done|done|..].
  { intros n Hn. by apply Hmem, Hpt. }
  { intros n Hn. apply Hal. right. by apply Hpt. }
  split; [|done]. split; try done.
  intros a v Ha Hv. destruct (Hpg a v Ha Hv) as (g & pg & Hd & Hga & Hn & Hgp & Hok & Hmap).
  exists g, pg. split_and!; [done|apply Hal; by right|done|by rewrite Hmem|done|].
  rewrite Hm; [done|]. by eapply pages_of_range; [apply Har|].
Qed.

(** The address [a] faults on a page of file [fm_file fm] at byte [off]: it lies
    in the reservation [r], the mapping [fm] and its range [range]. *)
Record file_fault (l0 : Z) (s : mst) (a : Z) (r : MMapReserve) (j : nat) (fm : FileMapping) (range : MapRange)
    (off : Z) : Prop := {
  ff_space : space_ok l0 (memory_set s) (km s);
  ff_res : ∃ i, list_find (λ v, contains (mr_range v) (floor (virt_addr a)) = true) (mmap_mapped s) = Some (i, r);
  ff_ty : mr_ty r = MFile;
  ff_perm : perm_ok (mr_perm r);
  ff_unmapped : pt_map (km s) (memory_set s) (floor (virt_addr a)) = None;
  ff_fm : list_find (λ fm, fm_contains_va fm (virt_addr a) = true) (file_mappings s) = Some (j, fm);
  ff_range : ∃ x, list_find (λ r, contains_va r (virt_addr a) = true) (fm_ranges fm) = Some (x, range);
  ff_off : file_offset range (floor (virt_addr a)) = Ok off;
}.

(** The page of the file at [off], padded with zeros. *)
Definition file_page (content : list Z) (off : Z) : list Z :=
  let bs := slice (Z.to_nat off) (Z.to_nat (Z.min PAGE_SIZE (Z.of_nat (length content) - off))) content in
  bs ++ drop (length bs) zero_page.

(** What the handler does once the file page is chosen. *)
Lemma file_fault_run l0 s a r j fm range off :
  file_fault l0 s a r j fm range off →
  handle_page_fault a s =
    (on_mem (fm_map_va fm (virt_addr a)) ≫= λ '(o, fm'),
     modify_st (set_fms (<[j := fm']> (file_mappings s))) ≫= λ _,
     lift (unwrap o) ≫= λ '(ppn, rg, is_shared),
     on_mem (ms_map (memory_set s) (floor (virt_addr a)) ppn (mr_perm r)) ≫= λ ms',
     modify_st (set_space ms') ≫= λ _,
     (if is_shared : bool then mret () else load_page (fm_file fm) ppn rg (floor (virt_addr a))) ≫= λ _, mret true) s.
Proof.
  intros [Hsp [i Hres] Hty Hp Hun Hfm [x Hrg] Hoff].
  pose proof (virt_addr_range a) as Hr.
  assert (0 ≤ floor (virt_addr a) < 2 ^ 27) as Hv by (unfold floor, PAGE_SIZE; dlia).
  destruct (ms_translate_spec l0 _ _ _ (sp_pt _ _ _ Hsp) Hv) as (o & Ho & Hm).
  unfold handle_page_fault. rewrite (M_bind_Ok _ _ _ _ _ eq_refl).
  rewrite (M_bind_Ok _ _ _ _ _ (on_mem_Ok _ _ _ _ Ho)), set_km_id, (translated_valid _ _ Hm).
  rewrite Hun, bool_decide_eq_false_2 by (by intros [? [=]]).
  rewrite (M_bind_Ok _ _ _ _ _ eq_refl), Hres, Hty, (M_bind_Ok _ _ _ _ _ eq_refl). by rewrite Hfm.
Qed.

Lemma fm_map_va_eq l0 s a r j fm range off k :
  file_fault l0 s a r j fm range off →
  fm_map_va fm (virt_addr a) k =
    (match fm_map fm !! off with
    | Some (_, ppn) => mret (Some (ppn, range, true), fm)
    | None =>
        frame_alloc ≫= λ o, lift (unwrap o) ≫= λ ppn,
        mret (Some (ppn, range, false),
              mkFM (fm_file fm) (fm_ranges fm) (fm_frames fm ++ [ppn]) (<[off := (floor (virt_addr a), ppn)]> (fm_map fm)) (fm_pt fm))
    end) k.
Proof.
  intros [_ _ _ _ _ _ [x Hrg] Hoff]. unfold fm_map_va. rewrite Hrg, Hoff. reflexivity.
Qed.

(** A page of the file already in memory is shared, not loaded again. *)
Lemma file_fault_shared l0 k s a r j fm range off w ppn :
  file_fault l0 s a r j fm range off → fm_map fm !! off = Some (w, ppn) → 0 ≤ ppn < 2 ^ 44 →
  nfree (2 + k) (fa (km s)) →
  ∃ s', handle_page_fault a s = Ok (true, s') ∧ space_ok l0 (memory_set s') (km s') ∧ file_mappings s' = file_mappings s ∧
    ∀ v, 0 ≤ v < 2 ^ 27 → pt_map (km s') (memory_set s') v =
      if decide (v = floor (virt_addr a)) then Some (leaf_entry (mr_perm r) ppn) else pt_map (km s) (memory_set s) v.
Proof.
  intros Hff Hw Hppn Hnf. rewrite (file_fault_run _ _ _ _ _ _ _ _ Hff).
  pose proof (fm_map_va_eq _ _ _ _ _ _ _ _ (km s) Hff) as Hmv. rewrite Hw in Hmv.
  destruct Hff as [Hsp _ _ Hp Hun Hfm _ _]. pose proof (virt_addr_range a) as Hr.
  assert (0 ≤ floor (virt_addr a) < 2 ^ 27) as Hv by (unfold floor, PAGE_SIZE; dlia).
  destruct (ms_map_spec l0 k (memory_set s) (km s) (floor (virt_addr a)) ppn (mr_perm r))
    as (ms' & k' & Hrun & Hsp' & _ & _ & _ & Hm); try done.
  rewrite (M_bind_Ok _ _ _ _ _ (on_mem_Ok _ s _ (km s) Hmv)), set_km_id.
  rewrite (M_bind_Ok _ _ _ _ _ eq_refl). apply list_find_Some in Hfm as (Hj & _ & _).
  rewrite list_insert_id by done. rewrite (M_bind_Ok _ _ _ _ _ eq_refl).
  rewrite (M_bind_Ok _ _ _ _ _ (on_mem_Ok _ (set_fms _ s) _ _ Hrun)).
  eexists. split; [reflexivity|]. done.
Qed.

Lemma file_page_ok content off : Forall is_byte content → 0 ≤ off < Z.of_nat (length content) → page_ok (file_page content off).
Proof.
  intros Hb Ho. unfold file_page. set (bs := slice _ _ _).
  assert (length bs ≤ Z.to_nat PAGE_SIZE)%nat as Hl by (unfold bs; rewrite length_slice; unfold PAGE_SIZE; lia).
  destruct zero_page_ok as [Hz Hzb]. split.
  - rewrite length_app, length_drop. lia.
  - apply Forall_app. split; [|by apply Forall_drop]. unfold bs, slice. by apply Forall_take, Forall_drop.
Qed.

(** Loading the page into a cleared frame. *)
Lemma load_page_spec ino ppn range vpn off s :
  file_offset range vpn = Ok off → 0 ≤ off < file_size s ino → mem (km s) !! ppn = Some zero_page →
  load_page ino ppn range vpn s =
    Ok ((), set_km (mkMem (fa (km s)) (<[ppn := file_page (default [] (files s !! ino)) off]> (mem (km s)))) s).
Proof.
  intros Hoff Hlt Hz. unfold load_page. rewrite (M_bind_Ok _ _ _ _ _ eq_refl), Hoff.
  rewrite (M_bind_Ok _ _ _ _ _ eq_refl), (proj2 (Z.ltb_lt _ _)) by lia.
  rewrite (M_bind_Ok _ _ _ _ _ eq_refl), (M_bind_Ok _ _ _ _ _ eq_refl).
  apply on_mem_Ok. unfold copy_to. rewrite Hz, (proj2 (Nat.leb_le _ _)); [done|].
  rewrite length_slice, (proj1 zero_page_ok); unfold file_size in *; unfold PAGE_SIZE; lia.
Qed.

Lemma file_fault_fresh l0 k s a r j fm range off :
  file_fault l0 s a r j fm range off → fm_map fm !! off = None →
  0 ≤ off < file_size s (fm_file fm) → Forall is_byte (default [] (files s !! fm_file fm)) →
  nfree (3 + k) (fa (km s)) →
  ∃ s' f, handle_page_fault a s = Ok (true, s') ∧ space_ok l0 (memory_set s') (km s') ∧
    ¬ is_allocated l0 (fa (km s)) f ∧ mem (km s') !! f = Some (file_page (default [] (files s !! fm_file fm)) off) ∧
    file_mappings s' !! j = Some (mkFM (fm_file fm) (fm_ranges fm) (fm_frames fm ++ [f]) (<[off := (floor (virt_addr a), f)]> (fm_map fm)) (fm_pt fm)) ∧
    (∀ v, 0 ≤ v < 2 ^ 27 → pt_map (km s') (memory_set s') v =
       if decide (v = floor (virt_addr a)) then Some (leaf_entry (mr_perm r) f) else pt_map (km s) (memory_set s) v) ∧
    (∀ n, is_allocated l0 (fa (km s)) n → n ∉ frames (page_table (memory_set s)) → mem (km s') !! n = mem (km s) !! n).
Proof.
  intros Hff Hn Hlt Hb Hnf. rewrite (file_fault_run _ _ _ _ _ _ _ _ Hff).
  pose proof (fm_map_va_eq _ _ _ _ _ _ _ _ (km s) Hff) as Hmv. rewrite Hn in Hmv.
  destruct Hff as [Hsp _ _ Hp Hun Hfm _ Hoff]. pose proof (virt_addr_range a) as Hr.
  assert (0 ≤ floor (virt_addr a) < 2 ^ 27) as Hv by (unfold floor, PAGE_SIZE; dlia).
  apply list_find_Some in Hfm as (Hj & _ & _). apply lookup_lt_Some in Hj as Hjl.
  destruct (frame_alloc_spec l0 (2 + k) (km s)) as (f & a' & Hal & Hff & Hfa & Hfr & Hnf' & Hall);
    [apply Hsp|done|].
  destruct (space_ok_alloc l0 (memory_set s) (km s) f a' Hsp Hff Hfa Hall) as [Hsp1 Hm1].
  set (k1 := mkMem a' (<[f := zero_page]> (mem (km s)))) in *.
  destruct (ms_map_spec l0 k (memory_set s) k1 (floor (virt_addr a)) f (mr_perm r))
    as (ms' & k2 & Hrun & Hsp2 & _ & Hext & _ & Hm2); try done.
  { by rewrite Hm1. }
  assert (f ∉ frames (page_table (memory_set s))) as Hfn.
  { intros Hin. eapply free_allocated_disjoint; [apply Hsp|exact Hff|]. by apply (sp_pt _ _ _ Hsp). }
  assert (¬ is_allocated l0 (fa (km s)) f) as Hnal by (intros ?; eapply free_allocated_disjoint; [apply Hsp|done|done]).
  assert (is_allocated l0 (fa k1) f) as Hal1 by (apply Hall; by left).
  assert (f ∉ frames (page_table ms')) as Hfn' by (by intros [?|?]%(ext_fresh _ _ _ _ _ Hext)).
  assert (mem k2 !! f = Some zero_page) as Hz.
  { rewrite (ext_mem _ _ _ _ _ Hext) by done. apply lookup_insert_eq. }
  set (pg := file_page (default [] (files s !! fm_file fm)) off).
  destruct (space_ok_contents l0 ms' k2 (<[f := pg]> (mem k2))) as [Hsp3 Hm3]; [done|..].
  { intros n Hin. apply lookup_insert_ne. congruence. }
  { intros n pg' Hpg' Hok. destruct (decide (n = f)) as [->|]; [|rewrite lookup_insert_ne by done; eauto].
    rewrite lookup_insert_eq. eexists. split; [done|]. by apply file_page_ok. }
  rewrite (M_bind_Ok _ _ _ _ _ (on_mem_Ok _ s (_, _) k1 (eq_trans Hmv (M_bind_Ok _ _ _ _ _ Hal)))).
  rewrite (M_bind_Ok _ _ _ _ _ eq_refl), (M_bind_Ok _ _ _ _ _ eq_refl).
  rewrite (M_bind_Ok _ _ _ _ _ (on_mem_Ok _ (set_fms _ (set_km k1 s)) _ _ Hrun)).
  rewrite (M_bind_Ok _ _ _ _ _ eq_refl).
  erewrite M_bind_Ok by (apply (load_page_spec _ _ _ _ off); done).
  eexists _, f. split; [reflexivity|]. cbn [set_km set_space set_fms km memory_set file_mappings mem fa files].
  split_and!; [exact Hsp3|done|apply lookup_insert_eq|by apply list_lookup_insert_eq| |].
  - intros v Hvr. rewrite Hm3, Hm2 by done. case_decide; [done|]. by apply Hm1.
  - intros n Hin Hnf2. rewrite lookup_insert_ne by congruence.
    rewrite (ext_mem _ _ _ _ _ Hext); [|apply Hall; by right|done]. apply lookup_insert_ne. congruence.
Qed.

(** C27 Demand paging of files.  The first access to a page of a file mapping is
    resolved by mapping a fresh frame that holds the bytes of the file at that
    page's offset, zeros after the end of the file, and by remembering the frame;
    no other page and no frame in use changes.  When another mapping of the same
    file already loaded the page, the very same frame is mapped. *)
Theorem file_page_fault_correct l0 k s a r j fm range off :
  file_fault l0 s a r j fm range off → 0 ≤ off < file_size s (fm_file fm) →
  Forall is_byte (default [] (files s !! fm_file fm)) → nfree (3 + k) (fa (km s)) →
  (∀ w ppn, fm_map fm !! off = Some (w, ppn) → 0 ≤ ppn < 2 ^ 44) →
  ∃ s' f, handle_page_fault a s = Ok (true, s') ∧ space_ok l0 (memory_set s') (km s') ∧
    (∀ v, 0 ≤ v < 2 ^ 27 → pt_map (km s') (memory_set s') v =
       if decide (v = floor (virt_addr a)) then Some (leaf_entry (mr_perm r) f) else pt_map (km s) (memory_set s) v) ∧
    match fm_map fm !! off with
    | Some (_, ppn) => f = ppn ∧ file_mappings s' = file_mappings s
    | None =>
        ¬ is_allocated l0 (fa (km s)) f ∧ mem (km s') !! f = Some (file_page (default [] (files s !! fm_file fm)) off) ∧
        (∃ fm', file_mappings s' !! j = Some fm' ∧ fm_map fm' = <[off := (floor (virt_addr a), f)]> (fm_map fm)) ∧
        ∀ n, is_allocated l0 (fa (km s)) n → n ∉ frames (page_table (memory_set s)) → mem (km s') !! n = mem (km s) !! n
    end.
Proof.
  intros Hff Ho Hb Hnf Hppn. destruct (fm_map fm !! off) as [[w ppn]|] eqn:Hm.
  - destruct (file_fault_shared l0 (1 + k) s a r j fm range off w ppn Hff Hm (Hppn _ _ eq_refl) Hnf)
      as (s' & Hr & Hsp & Hfms & Hmap). exists s', ppn. done.
  - destruct (file_fault_fresh l0 k s a r j fm range off Hff Hm Ho Hb Hnf)
      as (s' & f & Hr & Hsp & Hal & Hpg & Hj & Hmap & Hk).
    exists s', f. split_and!; try done. eexists. split; [exact Hj|done].
Qed.

(** ** A process with an empty space and an open file of 5000 bytes *)
Module MmapDemo.
Import SpaceDemo.
Definition content : list Z := replicate 4999 7 ++ [8].
Definition s0 : mst := mkMst bare.2 {[7 := content]} bare.1 [] (va_allocator_new MMAP_AREA_BASE) []
  [Some FdOther; Some FdOther; Some FdOther; Some (FdInode 7 true true true)].
Definition mrun {A} (c : M mst A) (s : mst) : mst := match c s with Ok (_, s') => s' | Err _ => s end.
Definition s_anon : mst := mrun (sys_mmap 0 5000 3 0 0 0) s0.
Definition s_file : mst := mrun (sys_mmap 0 5000 3 1 3 0) s0.

Lemma s0_ok : mst_ok s0.
Proof. split; [split; [constructor|done]|]. vm_compute. split; congruence. Qed.

Lemma reservations_disjoint_witness : reservations_ok (mmap_mapped s_file).
Proof.
  apply (reservations_disjoint s0 s_file).
  - reflexivity.
  - reflexivity.
  - apply rtc_once, (step_mmap _ _ 0 5000 3 1 3 0 0x100000000). vm_compute. reflexivity.
Defined.

(** A fixed mapping is accepted above the user half, at an address that is not a
    canonical one of SV39: no access of the program reaches the range it gets. *)
Lemma fixed_mmap_upper_half :
  match sys_mmap (2 ^ 38) 4096 3 2 0 0 s0 with
  | Ok (a, s') => a = 2 ^ 38 ∧ mr_range <$> mmap_mapped s' = [mkRange (2 ^ 26) (2 ^ 26 + 1)]
  | Err _ => False
  end.
Proof. vm_compute. split; reflexivity. Qed.

Lemma mmap_demand_paging_witness :
  sys_mmap 0 5000 3 0 0 0 s0 = Ok (0x100000000, s_anon) ∧
  ∃ s2, handle_page_fault 0x100001234 s_anon = Ok (true, s2).
Proof.
  assert (sys_mmap 0 5000 3 0 0 0 s0 = Ok (0x100000000, s_anon)) as Hrun by (vm_compute; reflexivity).
  split; [exact Hrun|].
  destruct (mmap_demand_paging 5 0 s0 0 5000 3 0 0 0 0x100000000 s_anon 0x100001234)
    as (_ & _ & s2 & H & _).
  - apply bare_ok.
  - apply s0_ok.
  - reflexivity.
  - exact Hrun.
  - discriminate.
  - lia.
  - unfold PAGE_SIZE. lia.
  - eapply nfree_mono; [|apply bare_ok]. apply Nat.leb_le. vm_compute. reflexivity.
  - exists s2. exact H.
Defined.

Lemma file_page_fault_correct_witness :
  ∃ s' f, handle_page_fault 0x100001002 s_file = Ok (true, s') ∧
    mem (km s') !! f = Some (file_page content 4096).
Proof.
  destruct bare_ok as (Hsp & Hempty & Hnf).
  assert (km s_file = km s0) as Hk by (vm_compute; reflexivity).
  assert (memory_set s_file = memory_set s0) as Hm by (vm_compute; reflexivity).
  assert (files s_file !! 7 = Some content) as Hfl by (vm_compute; reflexivity).
  destruct (file_page_fault_correct 5 0 s_file 0x100001002 (mkReserve (mkRange 0x100000 0x100002) 22 MFile) 0
    (set_ranges [map_range_new 0x100000000 5000 0] (fm_new_empty 7 (ms_token bare.1)))
    (map_range_new 0x100000000 5000 0) 4096) as (s' & f & Hr & _ & _ & Hmatch).
  - split.
    + rewrite Hk, Hm. exact Hsp.
    + exists 0%nat. vm_compute. reflexivity.
    + reflexivity.
    + split; [discriminate|reflexivity].
    + rewrite Hk, Hm. apply Hempty.
    + vm_compute. reflexivity.
    + exists 0%nat. vm_compute. reflexivity.
    + vm_compute. reflexivity.
  - unfold file_size. simpl fm_file. rewrite Hfl. vm_compute. split; congruence.
  - simpl fm_file. rewrite Hfl. simpl. apply Forall_app. split; [apply Forall_replicate|constructor; [|constructor]]; unfold is_byte; lia.
  - rewrite Hk. eapply nfree_mono; [|exact Hnf]. lia.
  - intros w ppn. simpl. by rewrite lookup_empty.
  - simpl in Hmatch. rewrite Hfl in Hmatch. exists s', f. split; [exact Hr|apply Hmatch].
Defined.

(** Unmapping a touched anonymous mapping leaves its area in the space: a fork
    then panics on the area's unmapped pages. *)
Definition s_unmapped : mst :=
  mrun (handle_page_fault 0x100001234 ≫= λ _, sys_munmap 0x100000000 5000) s_anon.
Lemma munmap_keeps_area :
  mmap_mapped s_unmapped = [] ∧ length (areas (memory_set s_unmapped)) = 1%nat ∧
  from_existed_user 0x80200000 (memory_set s_unmapped) (km s_unmapped) = Err Panicked.
Proof. vm_compute. done. Qed.

(** Unmapping a file mapping whose pages were not all touched panics. *)
Lemma munmap_untouched_file_panics : sys_munmap 0x100000000 5000 s_file = Err Panicked.
Proof. vm_compute. reflexivity. Qed.

(** A fixed mapping that runs past the top of the SV39 space panics. *)
Lemma mmap_past_top_panics : sys_mmap (2 ^ 39 - 4096) 8192 3 2 0 0 s0 = Err Panicked.
Proof. vm_compute. reflexivity. Qed.
End MmapDemo.
