(* ===== verification/Signal.v ===== *)
(** * Signals (os/src/task/signal.rs, action.rs, task.rs: SignalProcessor,
      task/mod.rs: current_handle_signals and below, syscall/process.rs: kill,
      sigprocmask, sigaction, sigreturn, trap/context.rs)

    A process has pending signals; each of its threads has a mask, a table of
    actions and at most one saved trap context.  A signal set is its 32 bits.
    The trap context of a thread, which lives in a page of its own, is a field
    of the thread here. *)
From S2P Require Import Prelude.

Definition MAX_SIG : Z := 31.
Definition SIGDEF : Z := 1.
Definition SIGINT : Z := Z.shiftl 1 2.
Definition SIGILL : Z := Z.shiftl 1 4.
Definition SIGABRT : Z := Z.shiftl 1 6.
Definition SIGFPE : Z := Z.shiftl 1 8.
Definition SIGKILL : Z := Z.shiftl 1 9.
Definition SIGSEGV : Z := Z.shiftl 1 11.
Definition SIGCONT : Z := Z.shiftl 1 18.
Definition SIGSTOP : Z := Z.shiftl 1 19.

Definition check_error (sigs : Z) : option Z :=
  if flags_contain sigs SIGINT then Some (-2)
  else if flags_contain sigs SIGILL then Some (-4)
  else if flags_contain sigs SIGABRT then Some (-6)
  else if flags_contain sigs SIGFPE then Some (-8)
  else if flags_contain sigs SIGKILL then Some (-9)
  else if flags_contain sigs SIGSEGV then Some (-11)
  else None.

Record TrapContext := mkTrap {
  tc_x : list Z;           (* x0 .. x31 *)
  sstatus : Z;
  sepc : Z;
  kernel_satp : Z;
  kernel_sp : Z;
  tc_trap_handler : Z;
}.
Definition set_x (i : nat) (v : Z) (c : TrapContext) : TrapContext :=
  mkTrap (<[i := v]> (tc_x c)) (sstatus c) (sepc c) (kernel_satp c) (kernel_sp c) (tc_trap_handler c).
Definition set_sepc (v : Z) (c : TrapContext) : TrapContext :=
  mkTrap (tc_x c) (sstatus c) v (kernel_satp c) (kernel_sp c) (tc_trap_handler c).
Definition set_sp (sp : Z) : TrapContext → TrapContext := set_x 2 sp.
(** [status] is [sstatus] as read, with SPP set to User. *)
Definition app_init_context (status entry sp satp ksp handler : Z) : TrapContext :=
  set_sp sp (mkTrap (replicate 32 0) status entry satp ksp handler).

Record SignalAction := mkAction { handler : Z; amask : Z }.
Definition default_action : SignalAction := mkAction 0 40.

Record SignalProcessor := mkSP {
  signal_handling : option Z;
  signal_mask : Z;
  signal_actions : list SignalAction;
  killed : bool;
  frozen : bool;
  trap_cx_backup : option TrapContext;
}.
Definition signal_processor_new : SignalProcessor :=
  mkSP None 0 (replicate (Z.to_nat (MAX_SIG + 1)) default_action) false false None.

(** [SignalActions]: the table access after its assertion. *)
Definition get_action (t : list SignalAction) (signum : Z) : outcome SignalAction :=
  _ ← assert (signum <=? MAX_SIG); unwrap (t !! Z.to_nat signum).
Definition is_masked (t : list SignalAction) (signum signal : Z) : outcome bool :=
  a ← get_action t signum; Ok (flags_contain (amask a) signal).
Definition get_handler (t : list SignalAction) (signum : Z) : outcome Z :=
  a ← get_action t signum; Ok (handler a).
Definition set_action (t : list SignalAction) (signum : Z) (a : SignalAction) : outcome (list SignalAction) :=
  _ ← get_action t signum; Ok (<[Z.to_nat signum := a]> t).

Definition is_global_masked (p : SignalProcessor) (signal : Z) : bool := flags_contain (signal_mask p) signal.
Definition is_handling_masked (p : SignalProcessor) (signal : Z) : outcome bool :=
  match signal_handling p with
  | Some signum => is_masked (signal_actions p) signum signal
  | None => Ok false
  end.
Definition handler_for_action (p : SignalProcessor) (signum : Z) : outcome Z := get_handler (signal_actions p) signum.

Definition set_handling (h : option Z) (b : option TrapContext) (p : SignalProcessor) : SignalProcessor :=
  mkSP h (signal_mask p) (signal_actions p) (killed p) (frozen p) b.
Definition set_frozen (b : bool) (p : SignalProcessor) : SignalProcessor :=
  mkSP (signal_handling p) (signal_mask p) (signal_actions p) (killed p) b (trap_cx_backup p).
Definition set_killed (p : SignalProcessor) : SignalProcessor :=
  mkSP (signal_handling p) (signal_mask p) (signal_actions p) true (frozen p) (trap_cx_backup p).
Definition set_mask (m : Z) (p : SignalProcessor) : SignalProcessor :=
  mkSP (signal_handling p) m (signal_actions p) (killed p) (frozen p) (trap_cx_backup p).
Definition set_actions (t : list SignalAction) (p : SignalProcessor) : SignalProcessor :=
  mkSP (signal_handling p) (signal_mask p) t (killed p) (frozen p) (trap_cx_backup p).

(** A thread as far as signals go, a process, and the processes by pid with the
    running thread. *)
Record thread := mkThread { sigp : SignalProcessor; trap_cx : TrapContext }.
Record proc := mkProc { signals : Z; tasks : list (option thread) }.
Record sst := mkSst { procs : gmap Z proc; cur_pid : Z; cur_tid : nat; user_actions : gmap Z SignalAction }.

Definition on_sigp (f : SignalProcessor → SignalProcessor) (t : thread) : thread := mkThread (f (sigp t)) (trap_cx t).
Definition put_proc (p : proc) (s : sst) : sst :=
  mkSst (<[cur_pid s := p]> (procs s)) (cur_pid s) (cur_tid s) (user_actions s).
Definition put_thread (t : thread) (p : proc) (n : nat) : proc := mkProc (signals p) (<[n := Some t]> (tasks p)).

Definition current_process : M sst proc := λ s,
  match procs s !! cur_pid s with Some p => Ok (p, s) | None => Err Panicked end.
Definition current_task : M sst thread := λ s,
  match procs s !! cur_pid s ≫= λ p, tasks p !! cur_tid s with
  | Some (Some t) => Ok (t, s)
  | _ => Err Panicked
  end.
Definition set_process (p : proc) : M sst () := λ s, Ok ((), put_proc p s).
Definition set_task (t : thread) : M sst () := λ s,
  match procs s !! cur_pid s with
  | Some p => Ok ((), put_proc (put_thread t p (cur_tid s)) s)
  | None => Err Panicked
  end.

Definition current_add_signal (signal : Z) : M sst () :=
  current_process ≫= λ p, set_process (mkProc (Z.lor (signals p) signal) (tasks p)).

Definition tasks_for_each (f : thread → thread) (p : proc) : proc := mkProc (signals p) ((λ o : option thread, f <$> o) <$> tasks p).
Definition toggle (signal : Z) (p : proc) : proc := mkProc (Z.lxor (signals p) signal) (tasks p).

Definition call_kernel_signal_handler (signal : Z) : M sst () :=
  current_process ≫= λ p,
  set_process
    (if signal =? SIGSTOP then toggle SIGSTOP (tasks_for_each (on_sigp (set_frozen true)) p)
     else if signal =? SIGCONT then toggle SIGCONT (tasks_for_each (on_sigp (set_frozen false)) p)
     else tasks_for_each (on_sigp set_killed) p).

Definition call_user_signal_handler (signum signal : Z) : M sst () :=
  current_task ≫= λ t,
  lift (handler_for_action (sigp t) signum) ≫= λ h,
  if h =? 0 then mret ()
  else
    current_process ≫= λ p, set_process (toggle signal p) ≫= λ _,
    set_task (mkThread (set_handling (Some signum) (Some (trap_cx t)) (sigp t))
                       (set_x 10 signum (set_sepc h (trap_cx t)))).

Definition is_kernel_signal (signal : Z) : bool :=
  (signal =? SIGKILL) || (signal =? SIGSTOP) || (signal =? SIGCONT) || (signal =? SIGDEF).

(** The loop of [check_pending_signals] over the signal numbers that are left. *)
Fixpoint check_pending_loop (ns : list Z) : M sst () :=
  match ns with
  | [] => mret ()
  | signum :: rest =>
      let signal := Z.shiftl 1 signum in
      current_task ≫= λ t, current_process ≫= λ p,
      if negb (flags_contain (signals p) signal) then check_pending_loop rest
      else if is_global_masked (sigp t) signal then check_pending_loop rest
      else
        lift (is_handling_masked (sigp t) signal) ≫= λ m : bool,
        if m then check_pending_loop rest
        else if is_kernel_signal signal then
          call_kernel_signal_handler signal ≫= λ _, check_pending_loop rest
        else call_user_signal_handler signum signal
  end.
Definition check_pending_signals : M sst () := check_pending_loop (seqZ 0 (MAX_SIG + 1)).

(** One turn of the loop of [current_handle_signals]: [true] leaves it, [false]
    suspends the thread before the next turn. *)
Definition handle_turn : M sst bool :=
  check_pending_signals ≫= λ _, current_task ≫= λ t,
  mret (negb (frozen (sigp t)) || killed (sigp t)).
Definition suspended {A} (o : sst → sst) (c : M sst A) : M sst A := λ s, c (o s).
(** [others] is what the rest of the system does in each suspension; [false]: still suspended. *)
Fixpoint current_handle_signals (others : list (sst → sst)) : M sst bool :=
  handle_turn ≫= λ done : bool,
  if done then mret true
  else match others with
       | [] => mret false
       | o :: rest => suspended o (current_handle_signals rest)
       end.

Definition check_signals_error_of_current : M sst (option Z) :=
  current_process ≫= λ p, mret (check_error (signals p)).

(** ** System calls *)

(** The shift amount of [1 << signum] wraps in a release build; every bit is a
    signal, so [SignalFlags::from_bits] always succeeds. *)
Definition sys_kill (pid signum : Z) : M sst Z := λ s,
  let flag := Z.shiftl 1 (Z.land signum 31) in
  match procs s !! pid with
  | None => Ok (-1, s)
  | Some p =>
      if flags_contain (signals p) flag then Ok (-1, s)
      else Ok (0, mkSst (<[pid := mkProc (Z.lor (signals p) flag) (tasks p)]> (procs s)) (cur_pid s) (cur_tid s) (user_actions s))
  end.

Definition sys_sigprocmask (mask : Z) : M sst Z :=
  current_task ≫= λ t, set_task (on_sigp (set_mask mask) t) ≫= λ _, mret (signal_mask (sigp t)).

Definition check_sigaction_error (signal action old_action : Z) : bool :=
  (action =? 0) || (old_action =? 0) || (signal =? SIGKILL) || (signal =? SIGSTOP).

(** The pointers are looked up in [user_actions]: the old action is written
    before the new one is read. *)
Definition write_action (ptr : Z) (a : SignalAction) : M sst () := λ s,
  match user_actions s !! ptr with
  | Some _ => Ok ((), mkSst (procs s) (cur_pid s) (cur_tid s) (<[ptr := a]> (user_actions s)))
  | None => Err Panicked
  end.
Definition read_action (ptr : Z) : M sst SignalAction := λ s,
  match user_actions s !! ptr with Some a => Ok (a, s) | None => Err Panicked end.

Definition sys_sigaction (signum action_ptr old_action_ptr : Z) : M sst Z :=
  let signum := u64 signum in
  if MAX_SIG <? signum then mret (-1)
  else if check_sigaction_error (Z.shiftl 1 signum) action_ptr old_action_ptr then mret (-1)
  else
    current_task ≫= λ t,
    lift (get_action (signal_actions (sigp t)) signum) ≫= λ prev_action,
    write_action old_action_ptr prev_action ≫= λ _,
    read_action action_ptr ≫= λ a,
    lift (set_action (signal_actions (sigp t)) signum a) ≫= λ table,
    set_task (on_sigp (set_actions table) t) ≫= λ _, mret 0.

Definition sys_sigreturn : M sst Z :=
  current_task ≫= λ t,
  lift (unwrap (trap_cx_backup (sigp t))) ≫= λ cx,
  lift (unwrap (tc_x cx !! 10%nat)) ≫= λ a0,
  set_task (mkThread (set_handling None None (sigp t)) cx) ≫= λ _, mret a0.

(** ** Well-formed signal state *)
Definition running (s : sst) (p : proc) (t : thread) : Prop :=
  procs s !! cur_pid s = Some p ∧ tasks p !! cur_tid s = Some (Some t).
Definition sp_wf (p : SignalProcessor) : Prop :=
  length (signal_actions p) = 32%nat ∧ ∀ n, signal_handling p = Some n → 0 ≤ n ≤ MAX_SIG.
(** What holds of the signal state of every thread of a reachable state: the
    handling of a signal that has a user handler and its saved context go
    together, the actions of SIGKILL and SIGSTOP are never replaced, and a
    thread is marked killed only while SIGKILL (or SIGDEF) is pending. *)
Record sp_inv (p : SignalProcessor) : Prop := {
  spi_table : length (signal_actions p) = 32%nat;
  spi_handling n : signal_handling p = Some n → 0 ≤ n ≤ MAX_SIG ∧ is_kernel_signal (2 ^ n) = false;
  spi_backup : is_Some (signal_handling p) ↔ is_Some (trap_cx_backup p);
  spi_regs cx : trap_cx_backup p = Some cx → length (tc_x cx) = 32%nat;
  spi_kill : signal_actions p !! 9%nat = Some default_action;
  spi_stop : signal_actions p !! 19%nat = Some default_action;
}.
Record thread_inv (pending : Z) (t : thread) : Prop := {
  ti_sp : sp_inv (sigp t);
  ti_regs : length (tc_x (trap_cx t)) = 32%nat;
  ti_killed : killed (sigp t) = true → Z.testbit pending 9 = true ∨ Z.testbit pending 0 = true;
}.
Definition proc_inv (p : proc) : Prop := ∀ i t, tasks p !! i = Some (Some t) → thread_inv (signals p) t.
Record st_inv (s : sst) : Prop := {
  inv_running : ∃ p t, running s p t;
  inv_procs : ∀ pid p, procs s !! pid = Some p → proc_inv p;
}.
Lemma sp_inv_wf p : sp_inv p → sp_wf p.
Proof. intros H. split; [apply H|]. intros n Hn. by apply (spi_handling _ H). Qed.

(** Signal [n] is pending, and masked neither by the thread nor by the action it
    is handling. *)
Definition handling_mask (sp : SignalProcessor) : Z :=
  match signal_handling sp with
  | Some n => default 0 (amask <$> signal_actions sp !! Z.to_nat n)
  | None => 0
  end.
Definition deliverable (p : proc) (t : thread) (n : Z) : bool :=
  Z.testbit (signals p) n && negb (Z.testbit (signal_mask (sigp t)) n) && negb (Z.testbit (handling_mask (sigp t)) n).

Lemma get_action_Ok t n : length t = 32%nat → 0 ≤ n ≤ MAX_SIG → ∃ a, t !! Z.to_nat n = Some a ∧ get_action t n = Ok a.
Proof.
  unfold MAX_SIG. intros Hl Hn. destruct (lookup_lt_is_Some_2 t (Z.to_nat n)) as [a Ha]; [lia|].
  exists a. split; [done|]. unfold get_action, MAX_SIG. rewrite (proj2 (Z.leb_le _ _)) by lia. by rewrite Ha.
Qed.
Lemma set_action_length t n a t' : set_action t n a = Ok t' → length t' = length t.
Proof. unfold set_action. intros (? & _ & [= <-])%outcome_bind_Ok. apply length_insert. Qed.
Lemma signal_bit n : 0 ≤ n → Z.shiftl 1 n = 2 ^ n.
Proof. intros. by rewrite Z.shiftl_1_l. Qed.

Lemma handling_masked_eq sp n :
  sp_wf sp → 0 ≤ n → is_handling_masked sp (2 ^ n) = Ok (Z.testbit (handling_mask sp) n).
Proof.
  intros [Hl Hh] Hn. unfold is_handling_masked, handling_mask. destruct (signal_handling sp) as [m|].
  - destruct (get_action_Ok (signal_actions sp) m) as (a & Ha & Hg); [done|by apply Hh|].
    unfold is_masked. rewrite Hg, Ha. simpl. by rewrite flags_contain_bit.
  - by rewrite Z.testbit_0_l.
Qed.

(** One number of the loop, with the three tests gathered. *)
Definition deliver_one (n : Z) (rest : list Z) : M sst () :=
  if is_kernel_signal (2 ^ n) then call_kernel_signal_handler (2 ^ n) ≫= λ _, check_pending_loop rest
  else call_user_signal_handler n (2 ^ n).

Lemma check_pending_step s p t n rest :
  running s p t → sp_wf (sigp t) → 0 ≤ n →
  check_pending_loop (n :: rest) s = if deliverable p t n then deliver_one n rest s else check_pending_loop rest s.
Proof.
  intros [Hp Ht] Hwf Hn. cbn [check_pending_loop]. rewrite signal_bit by done.
  rewrite (M_bind_Ok _ _ s t s) by (unfold current_task; by rewrite Hp; simpl; rewrite Ht).
  rewrite (M_bind_Ok _ _ s p s) by (unfold current_process; by rewrite Hp).
  unfold is_global_masked, deliverable, deliver_one. rewrite !flags_contain_bit by done.
  destruct (Z.testbit (signals p) n); [simpl|done]. destruct (Z.testbit (signal_mask (sigp t)) n); [done|simpl].
  rewrite handling_masked_eq by done. unfold lift, mbind, M_bind. simpl.
  by destruct (Z.testbit (handling_mask (sigp t)) n).
Qed.

Lemma check_pending_skip s p t ns rest :
  running s p t → sp_wf (sigp t) → Forall (λ n, 0 ≤ n ∧ deliverable p t n = false) ns →
  check_pending_loop (ns ++ rest) s = check_pending_loop rest s.
Proof.
  intros Hr Hwf. induction 1 as [|n ns [Hn Hd] _ IH]; [done|]. simpl app.
  rewrite (check_pending_step s p t) by done. by rewrite Hd.
Qed.

Lemma running_put s p t p' t' :
  running s p t → tasks p' !! cur_tid s = Some (Some t') → running (put_proc p' s) p' t'.
Proof. intros _ Ht. split; simpl; [apply lookup_insert_eq|done]. Qed.

(** Threads of a process after [tasks_for_each]. *)
Lemma for_each_lookup f p i t : tasks p !! i = Some (Some t) → tasks (tasks_for_each f p) !! i = Some (Some (f t)).
Proof. intros H. simpl. by rewrite list_lookup_fmap, H. Qed.
(** What a kernel signal does to the process. *)
Definition kernel_effect (n : Z) (p : proc) : proc :=
  if 2 ^ n =? SIGSTOP then toggle SIGSTOP (tasks_for_each (on_sigp (set_frozen true)) p)
  else if 2 ^ n =? SIGCONT then toggle SIGCONT (tasks_for_each (on_sigp (set_frozen false)) p)
  else tasks_for_each (on_sigp set_killed) p.
Definition kernel_thread (n : Z) : thread → thread :=
  on_sigp (if 2 ^ n =? SIGSTOP then set_frozen true else if 2 ^ n =? SIGCONT then set_frozen false else set_killed).

Lemma kernel_effect_running n p i t :
  tasks p !! i = Some (Some t) → tasks (kernel_effect n p) !! i = Some (Some (kernel_thread n t)).
Proof.
  intros H. unfold kernel_effect, kernel_thread.
  destruct (2 ^ n =? SIGSTOP); [|destruct (2 ^ n =? SIGCONT)]; by apply (for_each_lookup _ p).
Qed.
Lemma kernel_run s p t n : running s p t →
  call_kernel_signal_handler (2 ^ n) s = Ok ((), put_proc (kernel_effect n p) s).
Proof. intros [Hp _]. unfold call_kernel_signal_handler, mbind, M_bind, current_process. by rewrite Hp. Qed.

(** What a handled user signal does. *)
Definition user_effect (n h : Z) (t : thread) : thread :=
  mkThread (set_handling (Some n) (Some (trap_cx t)) (sigp t)) (set_x 10 n (set_sepc h (trap_cx t))).
Lemma user_run s p t n a :
  running s p t → sp_wf (sigp t) → 0 ≤ n ≤ MAX_SIG → signal_actions (sigp t) !! Z.to_nat n = Some a →
  call_user_signal_handler n (2 ^ n) s =
    Ok ((), if handler a =? 0 then s else put_proc (put_thread (user_effect n (handler a) t) (toggle (2 ^ n) p) (cur_tid s)) s).
Proof.
  intros [Hp Ht] [Hl _] Hn Ha. unfold call_user_signal_handler.
  rewrite (M_bind_Ok _ _ s t s) by (unfold current_task; by rewrite Hp; simpl; rewrite Ht).
  unfold handler_for_action, get_handler. destruct (get_action_Ok _ n Hl Hn) as (a' & Ha' & ->).
  rewrite Ha in Ha'. injection Ha' as <-. simpl.
  rewrite (M_bind_Ok _ _ s (handler a) s eq_refl). destruct (handler a =? 0); [done|].
  rewrite (M_bind_Ok _ _ s p s) by (unfold current_process; by rewrite Hp).
  rewrite (M_bind_Ok _ _ _ _ _ eq_refl). unfold set_task. simpl. rewrite lookup_insert_eq.
  unfold put_proc. simpl. by rewrite insert_insert_eq.
Qed.

Lemma current_task_run s p t : running s p t → current_task s = Ok (t, s).
Proof. intros [Hp Ht]. unfold current_task. rewrite Hp. simpl. by rewrite Ht. Qed.
Lemma set_task_puts s p t t' : running s p t → set_task t' s = Ok ((), put_proc (put_thread t' p (cur_tid s)) s).
Proof. intros [Hp _]. unfold set_task. by rewrite Hp. Qed.
Lemma put_proc_put p q s : put_proc p (put_proc q s) = put_proc p s.
Proof. unfold put_proc. simpl. by rewrite insert_insert_eq. Qed.
Lemma put_proc_id s p : procs s !! cur_pid s = Some p → put_proc p s = s.
Proof. intros Hp. unfold put_proc. rewrite insert_id by done. by destruct s. Qed.

Lemma signal_numbers : Forall (λ n, 0 ≤ n ≤ MAX_SIG) (seqZ 0 (MAX_SIG + 1)).
Proof. apply Forall_forall. intros n. rewrite elem_of_seqZ. unfold MAX_SIG. lia. Qed.
Lemma kernel_signal_number n : 0 ≤ n ≤ MAX_SIG → is_kernel_signal (2 ^ n) = bool_decide (n ∈ [0; 9; 18; 19]).
Proof.
  unfold MAX_SIG. intros Hn.
  assert (n ∈ seqZ 0 32) as Hin by (apply elem_of_seqZ; lia). clear Hn. revert n Hin.
  apply (Forall_forall (λ n, is_kernel_signal (2 ^ n) = bool_decide (n ∈ [0; 9; 18; 19]))).
  vm_compute. repeat constructor.
Qed.
(** The bits of SIGDEF and SIGKILL are never cleared by a toggle. *)
Lemma user_toggle sg n m :
  0 ≤ n ≤ MAX_SIG → is_kernel_signal (2 ^ n) = false → m ∈ [0; 9] → Z.testbit (Z.lxor sg (2 ^ n)) m = Z.testbit sg m.
Proof.
  intros Hn Hk Hm. rewrite kernel_signal_number in Hk by done. apply bool_decide_eq_false_1 in Hk.
  rewrite Z.lxor_spec, Z.pow2_bits_false, xorb_false_r; [done|]. intros ->. apply Hk. rewrite !elem_of_cons in *. tauto.
Qed.
Lemma kernel_effect_bit n p m : m ∈ [0; 9] → Z.testbit (signals (kernel_effect n p)) m = Z.testbit (signals p) m.
Proof.
  intros Hm. unfold kernel_effect. repeat case_match; simpl; try done; rewrite Z.lxor_spec;
    (rewrite !elem_of_cons, elem_of_nil in Hm; destruct Hm as [->|[->|[]]]; simpl; by rewrite xorb_false_r).
Qed.

(** ** What a turn of the handling loop delivers

    The signals that can be delivered when the turn starts, in ascending order:
    kernel signals take effect until the first signal left to the user, which is
    handled when it has a handler; what comes after it waits. *)
Fixpoint deliver_in_order (ns : list Z) (i : nat) (t : thread) (p : proc) : proc :=
  match ns with
  | [] => p
  | n :: rest =>
      if is_kernel_signal (2 ^ n) then deliver_in_order rest i (kernel_thread n t) (kernel_effect n p)
      else match signal_actions (sigp t) !! Z.to_nat n with
           | Some a => if handler a =? 0 then p else put_thread (user_effect n (handler a) t) (toggle (2 ^ n) p) i
           | None => p
           end
  end.
Definition delivered (i : nat) (t : thread) (p : proc) : proc :=
  deliver_in_order (filter (λ n, deliverable p t n = true) (seqZ 0 (MAX_SIG + 1))) i t p.

Lemma filter_agree (f g : Z → bool) (l : list Z) :
  (∀ x, x ∈ l → f x = g x) → filter (λ x, f x = true) l = filter (λ x, g x = true) l.
Proof.
  induction l as [|x l IH]; intros H; [done|]. rewrite !filter_cons, (H x), IH; [done| |set_solver].
  intros y Hy. apply H. set_solver.
Qed.
Lemma deliverable_kernel n p t m :
  m ≠ n → deliverable (kernel_effect n p) (kernel_thread n t) m = deliverable p t m.
Proof.
  intros Hne. unfold deliverable, kernel_effect, kernel_thread.
  destruct (2 ^ n =? SIGSTOP) eqn:E1; [|destruct (2 ^ n =? SIGCONT) eqn:E2]; simpl; [| |done].
  - apply Z.eqb_eq in E1. by rewrite <- E1, Z.lxor_spec, Z.pow2_bits_false, xorb_false_r by congruence.
  - apply Z.eqb_eq in E2. by rewrite <- E2, Z.lxor_spec, Z.pow2_bits_false, xorb_false_r by congruence.
Qed.
Lemma kernel_thread_wf n t : sp_wf (sigp t) → sp_wf (sigp (kernel_thread n t)).
Proof. intros [? ?]. unfold kernel_thread. by repeat case_match. Qed.

Lemma check_pending_delivers ns s p t :
  running s p t → sp_wf (sigp t) → NoDup ns → Forall (λ n, 0 ≤ n ≤ MAX_SIG) ns →
  check_pending_loop ns s =
    Ok ((), put_proc (deliver_in_order (filter (λ n, deliverable p t n = true) ns) (cur_tid s) t p) s).
Proof.
  intros Hr Hw Hnd Hns. revert s p t Hr Hw. induction ns as [|n ns IH]; intros s p t Hr Hw.
  { simpl. by rewrite put_proc_id by apply Hr. }
  apply Forall_cons in Hns as [Hn Hns]. apply NoDup_cons in Hnd as [Hni Hnd].
  rewrite (check_pending_step s p t) by (done || lia). rewrite filter_cons.
  destruct (deliverable p t n); [rewrite decide_True by done|by rewrite decide_False by done; apply IH].
  unfold deliver_one. cbn [deliver_in_order]. destruct (is_kernel_signal (2 ^ n)).
  - rewrite (M_bind_Ok _ _ _ _ _ (kernel_run s p t n Hr)), (IH Hnd Hns _ (kernel_effect n p) (kernel_thread n t)).
    + rewrite put_proc_put. do 4 f_equal. apply filter_agree. intros x Hx. apply deliverable_kernel. by intros ->.
    + apply (running_put s p t); [done|]. by apply kernel_effect_running, Hr.
    + by apply kernel_thread_wf.
  - destruct (get_action_Ok (signal_actions (sigp t)) n (proj1 Hw) Hn) as (a & Ha & _).
    rewrite (user_run s p t n a) by done. rewrite Ha. destruct (handler a =? 0); [|done].
    by rewrite put_proc_id by apply Hr.
Qed.

(** ** The invariant *)
Lemma thread_inv_bits sg sg' t :
  (∀ m, m ∈ [0; 9] → Z.testbit sg m = true → Z.testbit sg' m = true) → thread_inv sg t → thread_inv sg' t.
Proof.
  intros Hb [H1 H2 H3]. split; [done|done|]. intros Hk. destruct (H3 Hk) as [?|?]; [left|right]; apply Hb; set_solver.
Qed.
Lemma put_thread_inv p t i : proc_inv p → thread_inv (signals p) t → proc_inv (put_thread t p i).
Proof.
  intros Hp Ht j u. simpl. intros [(_ & [= <-] & _)|[_ Hj]]%list_lookup_insert_Some; [done|by eapply Hp].
Qed.
Lemma put_inv s p : st_inv s → proc_inv p → (∃ t, tasks p !! cur_tid s = Some (Some t)) → st_inv (put_proc p s).
Proof.
  intros Hs Hp [t Ht]. split.
  - exists p, t. split; [apply lookup_insert_eq|done].
  - intros pid q. simpl. intros [[_ <-]|[_ H]]%lookup_insert_Some; [done|by eapply (inv_procs _ Hs)].
Qed.
Lemma running_inv s p t : st_inv s → running s p t → proc_inv p ∧ thread_inv (signals p) t ∧ sp_wf (sigp t).
Proof.
  intros Hs [Hp Ht]. pose proof (inv_procs _ Hs _ _ Hp) as H. pose proof (H _ _ Ht) as H'.
  split_and!; [done|done|]. apply sp_inv_wf, H'.
Qed.
Lemma put_running_inv s p t t' :
  st_inv s → running s p t → thread_inv (signals p) t' → st_inv (put_proc (put_thread t' p (cur_tid s)) s).
Proof.
  intros Hs Hr Ht. apply put_inv; [done|apply put_thread_inv; [by eapply running_inv|done]|].
  exists t'. simpl. apply list_lookup_insert_eq. by eapply lookup_lt_Some, Hr.
Qed.

Lemma kernel_effect_inv n p :
  0 ≤ n ≤ MAX_SIG → is_kernel_signal (2 ^ n) = true → Z.testbit (signals p) n = true →
  proc_inv p → proc_inv (kernel_effect n p).
Proof.
  intros Hn Hk Hb Hp i t Hi.
  assert (∃ u, tasks p !! i = Some (Some u) ∧ t = kernel_thread n u) as (u & Hu & ->).
  { revert Hi. unfold kernel_effect, kernel_thread. repeat case_match; simpl; rewrite list_lookup_fmap;
      (destruct (tasks p !! i) as [[u|]|]; simpl; try done; intros [= <-]; by exists u). }
  pose proof (Hp _ _ Hu) as Ht.
  apply (thread_inv_bits (signals p)); [intros m Hm; by rewrite kernel_effect_bit|].
  destruct Ht as [H1 H2 H3]. rewrite kernel_signal_number in Hk by done. apply bool_decide_eq_true_1 in Hk.
  split; [by destruct H1; unfold kernel_thread; repeat case_match|done|].
  unfold kernel_thread. rewrite !elem_of_cons, elem_of_nil in Hk. destruct Hk as [->|[->|[->|[->|[]]]]]; simpl; auto.
Qed.
Lemma user_effect_inv n h t p i :
  0 ≤ n ≤ MAX_SIG → is_kernel_signal (2 ^ n) = false → proc_inv p → thread_inv (signals p) t →
  proc_inv (put_thread (user_effect n h t) (toggle (2 ^ n) p) i).
Proof.
  intros Hn Hk Hp Ht.
  assert (∀ u, thread_inv (signals p) u → thread_inv (signals (toggle (2 ^ n) p)) u) as Hb.
  { intros u. apply thread_inv_bits. intros m Hm. simpl. by rewrite user_toggle. }
  apply put_thread_inv; [intros j u Hj; by eapply Hb, Hp|]. apply Hb. destruct Ht as [H1 H2 H3]. split; simpl.
  - destruct H1. split; simpl; try done; [by intros m [= <-]|by intros cx [= <-]].
  - by rewrite length_insert.
  - done.
Qed.

Lemma deliver_inv ns i t p :
  NoDup ns → Forall (λ n, 0 ≤ n ≤ MAX_SIG ∧ Z.testbit (signals p) n = true) ns →
  tasks p !! i = Some (Some t) → proc_inv p →
  proc_inv (deliver_in_order ns i t p) ∧ ∃ t', tasks (deliver_in_order ns i t p) !! i = Some (Some t').
Proof.
  revert t p. induction ns as [|n ns IH]; intros t p Hnd Hns Ht Hp; [by eauto|].
  apply Forall_cons in Hns as [[Hn Hb] Hns]. apply NoDup_cons in Hnd as [Hni Hnd]. cbn [deliver_in_order].
  destruct (is_kernel_signal (2 ^ n)) eqn:Hk.
  - apply IH; [done| |by apply kernel_effect_running|by apply kernel_effect_inv].
    apply Forall_forall. intros m Hm. rewrite Forall_forall in Hns. destruct (Hns m Hm) as [? Hbm]. split; [done|].
    assert (m ≠ n) by (by intros ->). unfold kernel_effect.
    destruct (2 ^ n =? SIGSTOP) eqn:E1; [|destruct (2 ^ n =? SIGCONT) eqn:E2]; simpl; [| |done].
    + apply Z.eqb_eq in E1. by rewrite <- E1, Z.lxor_spec, Z.pow2_bits_false, xorb_false_r by congruence.
    + apply Z.eqb_eq in E2. by rewrite <- E2, Z.lxor_spec, Z.pow2_bits_false, xorb_false_r by congruence.
  - destruct (signal_actions (sigp t) !! Z.to_nat n) as [a|]; [|by eauto]. destruct (handler a =? 0); [by eauto|].
    split; [apply user_effect_inv; [done|done|done|by eapply Hp]|].
    eexists. simpl. apply list_lookup_insert_eq. by eapply lookup_lt_Some.
Qed.
Lemma deliver_keeps_bit ns i t p m :
  Forall (λ n, 0 ≤ n ≤ MAX_SIG) ns → m ∈ [0; 9] →
  Z.testbit (signals (deliver_in_order ns i t p)) m = Z.testbit (signals p) m.
Proof.
  intros Hns Hm. revert t p. induction Hns as [|n ns Hn _ IH]; intros t p; [done|]. cbn [deliver_in_order].
  destruct (is_kernel_signal (2 ^ n)) eqn:Hk; [by rewrite IH, kernel_effect_bit|].
  repeat case_match; simpl; [done| |done]. by apply user_toggle.
Qed.

(** The turn, as [delivered] describes it. *)
Lemma check_pending_run s p t :
  running s p t → sp_wf (sigp t) → check_pending_signals s = Ok ((), put_proc (delivered (cur_tid s) t p) s).
Proof. intros Hr Hw. apply check_pending_delivers; [done|done|apply NoDup_seqZ|apply signal_numbers]. Qed.
Lemma delivered_inv s p t :
  st_inv s → running s p t → st_inv (put_proc (delivered (cur_tid s) t p) s).
Proof.
  intros Hs Hr. destruct (running_inv s p t Hs Hr) as (Hp & _ & _).
  destruct (deliver_inv (filter (λ n, deliverable p t n = true) (seqZ 0 (MAX_SIG + 1))) (cur_tid s) t p) as [H1 H2];
    [apply NoDup_filter, NoDup_seqZ| |apply Hr|done|by apply put_inv].
  apply Forall_forall. intros n [Hd Hn]%list_elem_of_filter. apply elem_of_seqZ in Hn. split; [unfold MAX_SIG in *; lia|].
  unfold deliverable in Hd. by destruct (Z.testbit (signals p) n).
Qed.
Lemma handle_turn_run s p t :
  st_inv s → running s p t →
  ∃ b, handle_turn s = Ok (b, put_proc (delivered (cur_tid s) t p) s).
Proof.
  intros Hs Hr. destruct (running_inv s p t Hs Hr) as (_ & _ & Hw).
  pose proof (delivered_inv s p t Hs Hr) as [(p1 & t1 & Hr1) _]. unfold handle_turn.
  rewrite (M_bind_Ok _ _ _ _ _ (check_pending_run s p t Hr Hw)), (M_bind_Ok _ _ _ _ _ (current_task_run _ _ _ Hr1)).
  by eexists.
Qed.

(** ** The calls, and when they fail *)
Inductive scall :=
| CallKill (pid signum : Z)
| CallMask (mask : Z)
| CallAction (signum action_ptr old_action_ptr : Z)
| CallReturn.
Definition run_call (c : scall) : M sst Z :=
  match c with
  | CallKill pid signum => sys_kill pid signum
  | CallMask mask => sys_sigprocmask mask
  | CallAction signum a o => sys_sigaction signum a o
  | CallReturn => sys_sigreturn
  end.

(** [sigaction] answers -1 to a signal number out of range, a null pointer,
    and SIGKILL and SIGSTOP. *)
Definition action_refused (signum a o : Z) : bool :=
  (MAX_SIG <? u64 signum) || (a =? 0) || (o =? 0) || bool_decide (u64 signum ∈ [9; 19]).
(** The calls that stop the kernel: [sigreturn] of a thread that is in no
    handler, and [sigaction] with a pointer that is not mapped. *)
Definition call_panics (c : scall) (t : thread) (s : sst) : Prop :=
  match c with
  | CallKill _ _ | CallMask _ => False
  | CallAction n a o => action_refused n a o = false ∧ (user_actions s !! o = None ∨ user_actions s !! a = None)
  | CallReturn => signal_handling (sigp t) = None
  end.

Lemma check_sigaction_refused n a o :
  0 ≤ n ≤ MAX_SIG → check_sigaction_error (Z.shiftl 1 n) a o = ((a =? 0) || (o =? 0) || bool_decide (n ∈ [9; 19])).
Proof.
  unfold MAX_SIG. intros Hn. unfold check_sigaction_error.
  assert (((Z.shiftl 1 n =? SIGKILL) || (Z.shiftl 1 n =? SIGSTOP)) = bool_decide (n ∈ [9; 19])) as <-; [|by rewrite !orb_assoc].
  assert (n ∈ seqZ 0 32) as Hin by (apply elem_of_seqZ; lia). clear Hn. revert n Hin.
  apply (Forall_forall (λ n, ((Z.shiftl 1 n =? SIGKILL) || (Z.shiftl 1 n =? SIGSTOP)) = bool_decide (n ∈ [9; 19]))).
  vm_compute. repeat constructor.
Qed.

Lemma sys_sigaction_run s p t n a o :
  running s p t → sp_inv (sigp t) →
  if action_refused n a o then sys_sigaction n a o s = Ok (-1, s)
  else ∃ prev, signal_actions (sigp t) !! Z.to_nat (u64 n) = Some prev ∧ 0 ≤ u64 n ≤ MAX_SIG ∧ u64 n ∉ [9; 19] ∧
    sys_sigaction n a o s =
    match user_actions s !! o, <[o := prev]> (user_actions s) !! a with
    | Some _, Some act =>
        Ok (0, put_proc (put_thread (on_sigp (set_actions (<[Z.to_nat (u64 n) := act]> (signal_actions (sigp t)))) t) p (cur_tid s))
                 (mkSst (procs s) (cur_pid s) (cur_tid s) (<[o := prev]> (user_actions s))))
    | _, _ => Err Panicked
    end.
Proof.
  intros Hr Hw. unfold action_refused, sys_sigaction. pose proof (u64_range n) as H0. unfold is_u64 in H0.
  destruct (Z.ltb_spec MAX_SIG (u64 n)) as [|Hn]; [done|]. rewrite check_sigaction_refused by lia. simpl orb.
  destruct ((a =? 0) || (o =? 0)); [done|]. simpl orb. destruct (bool_decide_reflect (u64 n ∈ [9; 19])) as [|Hni]; [done|].
  destruct (get_action_Ok (signal_actions (sigp t)) (u64 n) (spi_table _ Hw)) as (prev & Hpr & Hg); [lia|].
  exists prev. split_and!; [done|lia|lia|done|]. cbn [orb]. cbv iota.
  rewrite (M_bind_Ok _ _ _ _ _ (current_task_run _ _ _ Hr)), Hg, (M_bind_Ok _ _ s prev s eq_refl).
  destruct (user_actions s !! o) as [old|] eqn:Ho; [|unfold write_action, mbind, M_bind; by rewrite Ho].
  erewrite M_bind_Ok by (unfold write_action; by rewrite Ho). set (s1 := mkSst _ _ _ _).
  destruct (<[o := prev]> (user_actions s) !! a) as [act|] eqn:Ha; [|unfold read_action, mbind, M_bind; simpl; by rewrite Ha].
  rewrite (M_bind_Ok _ _ s1 act s1) by (unfold read_action; simpl; by rewrite Ha).
  unfold set_action. rewrite Hg. simpl. erewrite M_bind_Ok by done.
  by rewrite (M_bind_Ok _ _ s1 _ _ (set_task_puts s1 p t _ Hr)).
Qed.

Lemma sys_sigreturn_run s p t :
  running s p t → sp_inv (sigp t) →
  sys_sigreturn s = match trap_cx_backup (sigp t) with
                    | Some cx => Ok (nth 10 (tc_x cx) 0, put_proc (put_thread (mkThread (set_handling None None (sigp t)) cx) p (cur_tid s)) s)
                    | None => Err Panicked
                    end.
Proof.
  intros Hr Hw. unfold sys_sigreturn. rewrite (M_bind_Ok _ _ _ _ _ (current_task_run _ _ _ Hr)).
  destruct (trap_cx_backup (sigp t)) as [cx|] eqn:Hb; [|done]. rewrite (M_bind_Ok _ _ s cx s eq_refl).
  destruct (lookup_lt_is_Some_2 (tc_x cx) 10) as [a0 Ha0]; [rewrite (spi_regs _ Hw _ Hb); lia|].
  rewrite Ha0, (M_bind_Ok _ _ s a0 s eq_refl), (M_bind_Ok _ _ _ _ _ (set_task_puts _ _ _ _ Hr)).
  by rewrite (nth_lookup_Some _ _ _ _ Ha0).
Qed.
Lemma sys_sigprocmask_run s p t m :
  running s p t →
  sys_sigprocmask m s = Ok (signal_mask (sigp t), put_proc (put_thread (on_sigp (set_mask m) t) p (cur_tid s)) s).
Proof.
  intros Hr. unfold sys_sigprocmask.
  by rewrite (M_bind_Ok _ _ _ _ _ (current_task_run _ _ _ Hr)), (M_bind_Ok _ _ _ _ _ (set_task_puts _ _ _ _ Hr)).
Qed.

Lemma run_call_fails c s p t e :
  running s p t → sp_inv (sigp t) → run_call c s = Err e ↔ e = Panicked ∧ call_panics c t s.
Proof.
  intros Hr Hw. destruct c as [pid n|m|n a o|]; simpl.
  - unfold sys_kill. repeat case_match; split; try done; by intros [_ []].
  - rewrite (sys_sigprocmask_run s p t) by done. split; [done|by intros [_ []]].
  - pose proof (sys_sigaction_run s p t n a o Hr Hw) as H. destruct (action_refused n a o).
    { rewrite H. split; [done|by intros [_ [? _]]]. }
    destruct H as (prev & _ & _ & _ & ->). rewrite lookup_insert. destruct (user_actions s !! o) eqn:Ho.
    + destruct (decide (o = a)) as [->|]; [split; [done|intros (_ & _ & [|]); congruence]|].
      destruct (user_actions s !! a) eqn:Ha; [split; [done|intros (_ & _ & [|]); congruence]|].
      split; [intros [= <-]; auto|by intros [-> _]].
    + split; [intros [= <-]; auto|by intros [-> _]].
  - rewrite (sys_sigreturn_run s p t) by done. pose proof (spi_backup _ Hw) as Hb.
    destruct (signal_handling (sigp t)) as [n|], (trap_cx_backup (sigp t)) as [cx|].
    + split; [done|by intros [_ ?]].
    + by destruct (proj1 Hb) as [? ?].
    + by destruct (proj2 Hb) as [? ?].
    + split; [by intros [= <-]|by intros [-> _]].
Qed.

(** ** Everything that happens to the signal state

    A turn of the handling loop, a call, a fault raising a signal, a thread
    running in user mode (its registers and the memory behind its pointers
    change), [thread_create], [waittid], [fork], the switch to another thread,
    and the end of the running process, which leaves the processor to another. *)
Definition add_slot (tid : nat) (t : thread) (ts : list (option thread)) : list (option thread) :=
  <[tid := Some t]> (ts ++ replicate (S tid - length ts) None).
Inductive sstep (s s' : sst) : Prop :=
| step_turn b : handle_turn s = Ok (b, s') → sstep s s'
| step_call c r : run_call c s = Ok (r, s') → sstep s s'
| step_add sig : current_add_signal sig s = Ok ((), s') → sstep s s'
| step_user p t cx ua : running s p t → length (tc_x cx) = 32%nat →
    s' = put_proc (put_thread (mkThread (sigp t) cx) p (cur_tid s)) (mkSst (procs s) (cur_pid s) (cur_tid s) ua) → sstep s s'
| step_spawn p tid cx : procs s !! cur_pid s = Some p → tid ≠ cur_tid s → length (tc_x cx) = 32%nat →
    s' = put_proc (mkProc (signals p) (add_slot tid (mkThread signal_processor_new cx) (tasks p))) s → sstep s s'
| step_waittid p tid : procs s !! cur_pid s = Some p → tid ≠ cur_tid s →
    s' = put_proc (mkProc (signals p) (<[tid := None]> (tasks p))) s → sstep s s'
| step_fork pid cx : procs s !! pid = None → length (tc_x cx) = 32%nat →
    s' = mkSst (<[pid := mkProc 0 [Some (mkThread signal_processor_new cx)]]> (procs s)) (cur_pid s) (cur_tid s) (user_actions s) →
    sstep s s'
| step_switch pid tid p t ua : procs s !! pid = Some p → tasks p !! tid = Some (Some t) →
    s' = mkSst (procs s) pid tid ua → sstep s s'
| step_exit pid tid p t ua : pid ≠ cur_pid s → procs s !! pid = Some p → tasks p !! tid = Some (Some t) →
    s' = mkSst (delete (cur_pid s) (procs s)) pid tid ua → sstep s s'.

(** The state when the first process starts. *)
Definition booted (s : sst) : Prop :=
  ∃ cx, length (tc_x cx) = 32%nat ∧ cur_tid s = 0%nat ∧
    procs s = {[cur_pid s := mkProc 0 [Some (mkThread signal_processor_new cx)]]}.

Lemma signal_processor_new_inv : sp_inv signal_processor_new.
Proof. split; try done. by split; intros [? ?]. Qed.
Lemma new_thread_inv sg cx : length (tc_x cx) = 32%nat → thread_inv sg (mkThread signal_processor_new cx).
Proof. intros Hl. split; [apply signal_processor_new_inv|done|done]. Qed.
Lemma new_process_inv cx : length (tc_x cx) = 32%nat → proc_inv (mkProc 0 [Some (mkThread signal_processor_new cx)]).
Proof. intros Hl i t [_ [= <-]]%list_lookup_singleton_Some. by apply new_thread_inv. Qed.
Lemma booted_inv s : booted s → st_inv s.
Proof.
  intros (cx & Hl & Ht & Hp). split.
  - eexists _, _. split; [rewrite Hp; apply lookup_singleton_eq|by rewrite Ht].
  - intros pid p. rewrite Hp, lookup_singleton_Some. intros [_ <-]. by apply new_process_inv.
Qed.

Lemma add_slot_lookup tid t ts i u : add_slot tid t ts !! i = Some (Some u) → u = t ∨ ts !! i = Some (Some u).
Proof.
  unfold add_slot. intros [(_ & [= <-] & _)|[_ H]]%list_lookup_insert_Some; [by left|right].
  apply lookup_app_Some in H as [H|[_ H]]; [done|]. by apply lookup_replicate in H as [? _].
Qed.
Lemma set_mask_inv sg m t : thread_inv sg t → thread_inv sg (on_sigp (set_mask m) t).
Proof. intros [[] H2 H3]. by split. Qed.
Lemma set_actions_inv sg n a t :
  0 ≤ n ≤ MAX_SIG → n ∉ [9; 19] → thread_inv sg t →
  thread_inv sg (on_sigp (set_actions (<[Z.to_nat n := a]> (signal_actions (sigp t)))) t).
Proof.
  intros Hn Hni [[] H2 H3]. split; [|done|done]. split; simpl; try done.
  - by rewrite length_insert.
  - rewrite list_lookup_insert_ne; [done|]. intros He. apply Hni. replace n with 9 by lia. set_solver.
  - rewrite list_lookup_insert_ne; [done|]. intros He. apply Hni. replace n with 19 by lia. set_solver.
Qed.
Lemma memory_inv s ua : st_inv s → st_inv (mkSst (procs s) (cur_pid s) (cur_tid s) ua).
Proof. intros [(p & t & Hr) Hp]. split; [by exists p, t|done]. Qed.

Lemma sys_kill_inv s pid signum r s' : st_inv s → sys_kill pid signum s = Ok (r, s') → st_inv s'.
Proof.
  intros Hs H. destruct (inv_running _ Hs) as (p & t & Hp & Ht).
  unfold sys_kill in H. destruct (procs s !! pid) as [q|] eqn:Hq; [|by injection H as _ <-].
  case_match; injection H as _ <-; [done|]. split.
  - destruct (decide (pid = cur_pid s)) as [->|Hne].
    + rewrite Hp in Hq. injection Hq as <-. eexists _, t. split; [apply lookup_insert_eq|done].
    + exists p, t. split; [simpl; by rewrite lookup_insert_ne|done].
  - intros pid' q'. simpl. intros [[_ <-]|[_ H]]%lookup_insert_Some; [|by eapply (inv_procs _ Hs)].
    intros i u Hu. apply (thread_inv_bits (signals q)); [|by eapply (inv_procs _ Hs)].
    intros m _ Hm. simpl. by rewrite Z.lor_spec, Hm.
Qed.
Lemma run_call_inv c s r s' : st_inv s → run_call c s = Ok (r, s') → st_inv s'.
Proof.
  intros Hs H. destruct (inv_running _ Hs) as (p & t & Hr). destruct (running_inv _ _ _ Hs Hr) as (Hp & Ht & _).
  destruct c as [pid n|m|n a o|]; simpl in H.
  - by eapply sys_kill_inv.
  - rewrite (sys_sigprocmask_run s p t) in H by done. injection H as _ <-.
    apply (put_running_inv s p t); [done|done|by apply set_mask_inv].
  - pose proof (sys_sigaction_run s p t n a o Hr (ti_sp _ _ Ht)) as Hc.
    destruct (action_refused n a o); [rewrite Hc in H; by injection H as _ <-|].
    destruct Hc as (prev & _ & Hn & Hni & Hc). rewrite Hc in H. repeat case_match; try done. injection H as _ <-.
    apply (put_running_inv (mkSst (procs s) _ _ _) p t); [by apply memory_inv|done|by apply set_actions_inv].
  - rewrite (sys_sigreturn_run s p t Hr (ti_sp _ _ Ht)) in H.
    destruct (trap_cx_backup (sigp t)) as [cx|] eqn:Hb; [|done]. injection H as _ <-.
    apply (put_running_inv s p t); [done|done|]. destruct Ht as [H1 H2 H3].
    split; [|exact (spi_regs _ H1 _ Hb)|done]. destruct H1; split; simpl; done.
Qed.

Lemma sstep_inv s s' : st_inv s → sstep s s' → st_inv s'.
Proof.
  intros Hs Hst. destruct (inv_running _ Hs) as (p & t & Hr). pose proof Hr as [Hp Ht].
  destruct (running_inv _ _ _ Hs Hr) as (Hpi & Hti & _).
  destruct Hst as [b H|c r H|sig H|p' t' cx ua Hr' Hl ->|p' tid cx Hp' Hne Hl ->|p' tid Hp' Hne ->|pid cx Hn Hl ->|pid tid p' t' ua Hp' Ht' ->|pid tid p' t' ua Hne Hp' Ht' ->].
  - destruct (handle_turn_run s p t Hs Hr) as (b' & H1). rewrite H in H1. injection H1 as _ ->. by apply delivered_inv.
  - by eapply run_call_inv.
  - unfold current_add_signal, mbind, M_bind, current_process in H. rewrite Hp in H. injection H as <-.
    apply put_inv; [done| |by exists t]. intros i u Hu. apply (thread_inv_bits (signals p)); [|by eapply Hpi].
    intros m _ Hm. simpl. by rewrite Z.lor_spec, Hm.
  - destruct (running_inv _ _ _ Hs Hr') as (_ & [H1 H2 H3] & _).
    apply (put_running_inv (mkSst (procs s) _ _ ua) p' t'); [by apply memory_inv|done|by split].
  - rewrite Hp in Hp'. injection Hp' as <-. apply put_inv; [done| |].
    + intros i u [->|Hu]%add_slot_lookup; [by apply new_thread_inv|by eapply Hpi].
    + exists t. simpl. unfold add_slot. rewrite list_lookup_insert_ne by done. by apply lookup_app_l_Some.
  - rewrite Hp in Hp'. injection Hp' as <-. apply put_inv; [done| |].
    + intros i u. simpl. intros [(_ & ? & _)|[_ Hu]]%list_lookup_insert_Some; [done|by eapply Hpi].
    + exists t. simpl. by rewrite list_lookup_insert_ne.
  - split; simpl.
    + exists p, t. split; [|done]. simpl. rewrite lookup_insert_ne by congruence. done.
    + intros pid' q [[_ <-]|[_ Hq]]%lookup_insert_Some; [by apply new_process_inv|by eapply (inv_procs _ Hs)].
  - split; [by exists p', t'|apply Hs].
  - split; simpl; [|intros pid' q [_ Hq]%lookup_delete_Some; by eapply (inv_procs _ Hs)].
    exists p', t'. split; [|done]. simpl. by rewrite lookup_delete_ne.
Qed.

(** SIGKILL stays pending. *)
Lemma put_keeps s p0 q pid p p' m :
  procs s !! cur_pid s = Some p0 → (Z.testbit (signals p0) m = true → Z.testbit (signals q) m = true) →
  procs s !! pid = Some p → procs (put_proc q s) !! pid = Some p' →
  Z.testbit (signals p) m = true → Z.testbit (signals p') m = true.
Proof.
  intros H0 Hq Hp. simpl. intros [[<- <-]|[_ Hp']]%lookup_insert_Some; [|congruence].
  rewrite H0 in Hp. by injection Hp as <-.
Qed.
Lemma run_call_keeps_kill c s r s' pid p p' :
  st_inv s → run_call c s = Ok (r, s') → procs s !! pid = Some p → procs s' !! pid = Some p' →
  Z.testbit (signals p) 9 = true → Z.testbit (signals p') 9 = true.
Proof.
  intros Hs H Hp Hp'. destruct (inv_running _ Hs) as (p0 & t & Hr). pose proof Hr as [Hp0 _].
  destruct (running_inv _ _ _ Hs Hr) as (_ & Ht & _). destruct c as [pid' n|m|n a o|]; simpl in H.
  - unfold sys_kill in H. destruct (procs s !! pid') as [q|] eqn:Hq; [|injection H as _ <-; congruence].
    case_match; injection H as _ <-; [congruence|]. simpl in Hp'.
    apply lookup_insert_Some in Hp' as [[-> <-]|[_ Hp']]; [|congruence]. rewrite Hq in Hp. injection Hp as ->.
    cbn [signals]. intros Hb. by rewrite Z.lor_spec, Hb.
  - rewrite (sys_sigprocmask_run s p0 t) in H by done. injection H as _ <-. refine (put_keeps s p0 _ pid p p' 9 Hp0 _ Hp Hp'); exact (λ x, x).
  - pose proof (sys_sigaction_run s p0 t n a o Hr (ti_sp _ _ Ht)) as Hc.
    destruct (action_refused n a o); [rewrite Hc in H; injection H as _ <-; congruence|].
    destruct Hc as (prev & _ & _ & _ & Hc). rewrite Hc in H. repeat case_match; try done. injection H as _ <-.
    refine (put_keeps (mkSst (procs s) _ _ _) p0 _ pid p p' 9 Hp0 _ Hp Hp'); exact (λ x, x).
  - rewrite (sys_sigreturn_run s p0 t Hr (ti_sp _ _ Ht)) in H.
    destruct (trap_cx_backup (sigp t)) as [cx|]; [|done]. injection H as _ <-.
    refine (put_keeps s p0 _ pid p p' 9 Hp0 _ Hp Hp'); exact (λ x, x).
Qed.
Lemma sstep_keeps_kill s s' pid p p' :
  st_inv s → sstep s s' → procs s !! pid = Some p → procs s' !! pid = Some p' →
  Z.testbit (signals p) 9 = true → Z.testbit (signals p') 9 = true.
Proof.
  intros Hs Hst Hp Hp'. destruct (inv_running _ Hs) as (p0 & t & Hr). pose proof Hr as [Hp0 _].
  destruct Hst as [b H|c r H|sig H|p1 t1 cx ua Hr' Hl ->|p1 tid cx Hp1 Hne Hl ->|p1 tid Hp1 Hne ->|pid1 cx Hn Hl ->|pid1 tid p1 t1 ua Hp1 Ht1 ->|pid1 tid p1 t1 ua Hne Hp1 Ht1 ->].
  - destruct (handle_turn_run s p0 t Hs Hr) as (b' & H1). rewrite H in H1. injection H1 as _ ->.
    refine (put_keeps s p0 _ pid p p' 9 Hp0 _ Hp Hp'). unfold delivered.
    rewrite deliver_keeps_bit; [done| |set_solver]. apply Forall_forall. intros n [_ Hn]%list_elem_of_filter. revert n Hn. apply Forall_forall, signal_numbers.
  - by eapply run_call_keeps_kill.
  - unfold current_add_signal, mbind, M_bind, current_process in H. rewrite Hp0 in H. injection H as <-.
    refine (put_keeps s p0 _ pid p p' 9 Hp0 _ Hp Hp'). intros Hb. cbn [signals]. by rewrite Z.lor_spec, Hb.
  - refine (put_keeps (mkSst (procs s) _ _ ua) p1 _ pid p p' 9 (proj1 Hr') _ Hp Hp'); exact (λ x, x).
  - refine (put_keeps s p1 _ pid p p' 9 Hp1 _ Hp Hp'); exact (λ x, x).
  - refine (put_keeps s p1 _ pid p p' 9 Hp1 _ Hp Hp'); exact (λ x, x).
  - simpl in Hp'. apply lookup_insert_Some in Hp' as [[-> _]|[_ ?]]; congruence.
  - simpl in Hp'. congruence.
  - simpl in Hp'. apply lookup_delete_Some in Hp' as [_ ?]. congruence.
Qed.

(** C30 Signals, from the start of the first process on.  Whatever calls,
    faults, turns of the handling loop, thread and process creations, ends and
    switches have led to a state:
    - in every thread a signal being handled and a saved context go together,
      the signal being one the kernel leaves to the user; the actions of SIGKILL
      and SIGSTOP are the default ones, and a thread is marked killed only while
      SIGKILL or SIGDEF is pending for its process;
    - a turn of the handling loop does not fail and delivers exactly the signals
      that are pending and not masked, kernel signals first to last up to the
      first that is left to the user, which gets its handler if it has one;
    - a call fails in two cases and no other: [sigreturn] of a thread that is
      handling no signal, and [sigaction], for a signal and pointers it does not
      refuse, with a pointer that is not mapped;
    - a process that was sent SIGKILL has it pending as long as it exists. *)
Theorem signal_calls_exact s0 s :
  booted s0 → rtc sstep s0 s →
  st_inv s ∧ ∃ p t, running s p t ∧
    (∃ b, handle_turn s = Ok (b, put_proc (delivered (cur_tid s) t p) s)) ∧
    (∀ c e, run_call c s = Err e ↔ e = Panicked ∧ call_panics c t s) ∧
    (∀ s' pid q q', sstep s s' → procs s !! pid = Some q → procs s' !! pid = Some q' →
       Z.testbit (signals q) 9 = true → Z.testbit (signals q') 9 = true).
Proof.
  intros H0 Hst. assert (st_inv s) as Hs by (eapply (rtc_invariant sstep st_inv); [exact sstep_inv|by apply booted_inv|exact Hst]).
  split; [done|]. destruct (inv_running _ Hs) as (p & t & Hr). exists p, t. destruct (running_inv _ _ _ Hs Hr) as (_ & Ht & _).
  split_and!; [done|by apply handle_turn_run| |].
  - intros c e. apply (run_call_fails c s p); [done|apply Ht].
  - intros s' pid q q'. by apply sstep_keeps_kill.
Qed.


(** ** Delivery to a user handler and the return from it *)
Lemma numbers_split n : 0 ≤ n ≤ MAX_SIG → seqZ 0 (MAX_SIG + 1) = seqZ 0 n ++ n :: seqZ (n + 1) (MAX_SIG - n).
Proof.
  intros Hn. replace (MAX_SIG + 1) with (n + (1 + (MAX_SIG - n))) by lia. rewrite seqZ_app by lia. f_equal.
  rewrite seqZ_cons by lia. f_equal. f_equal; lia.
Qed.

Lemma check_pending_first s p t n :
  running s p t → sp_wf (sigp t) → 0 ≤ n ≤ MAX_SIG → deliverable p t n = true →
  (∀ m, 0 ≤ m < n → deliverable p t m = false) →
  check_pending_signals s = deliver_one n (seqZ (n + 1) (MAX_SIG - n)) s.
Proof.
  intros Hr Hw Hn Hd Hlow. unfold check_pending_signals. rewrite (numbers_split n Hn).
  assert (Forall (λ m, 0 ≤ m ∧ deliverable p t m = false) (seqZ 0 n)) as Hskip.
  { apply Forall_forall. intros m [? ?]%elem_of_seqZ. split; [lia|apply Hlow; lia]. }
  rewrite (check_pending_skip s p t) by done.
  rewrite (check_pending_step s p t) by (done || lia). by rewrite Hd.
Qed.

(** Delivering a signal.  When the lowest deliverable signal is one with a user
    handler, the thread is made to return to the handler with the signal number
    in a0, the signal is no longer pending and all else of the process is as it
    was; when the handler later calls [sigreturn], whatever it did to the
    registers, the thread's trap context is exactly the interrupted one, its a0
    is the result of the call, and the thread is no longer handling a signal. *)
Theorem signal_roundtrip s p t n a :
  running s p t → sp_wf (sigp t) → 0 ≤ n ≤ MAX_SIG → is_kernel_signal (2 ^ n) = false →
  deliverable p t n = true → (∀ m, 0 ≤ m < n → deliverable p t m = false) →
  signal_actions (sigp t) !! Z.to_nat n = Some a → handler a ≠ 0 → length (tc_x (trap_cx t)) = 32%nat →
  ∃ s1 p1 t1, check_pending_signals s = Ok ((), s1) ∧ running s1 p1 t1 ∧
    sepc (trap_cx t1) = handler a ∧ tc_x (trap_cx t1) !! 10%nat = Some n ∧ signal_handling (sigp t1) = Some n ∧
    (∀ i, 0 ≤ i → Z.testbit (signals p1) i = Z.testbit (signals p) i && negb (i =? n)) ∧
    (∀ i, i ≠ cur_tid s → tasks p1 !! i = tasks p !! i) ∧
    ∀ s2 p2 cx, running s2 p2 (mkThread (sigp t1) cx) →
      ∃ a0 s3 p3 t3, sys_sigreturn s2 = Ok (a0, s3) ∧ running s3 p3 t3 ∧ trap_cx t3 = trap_cx t ∧
        tc_x (trap_cx t) !! 10%nat = Some a0 ∧ signal_handling (sigp t3) = None ∧ signals p3 = signals p2.
Proof.
  intros Hr Hw Hn Hk Hd Hlow Ha Hh Hx. rewrite (check_pending_first s p t n) by done.
  unfold deliver_one. rewrite Hk, (user_run s p t n a) by done. rewrite (proj2 (Z.eqb_neq _ _)) by done.
  eexists _, _, (user_effect n (handler a) t). split; [done|]. split.
  { destruct Hr as [Hp Ht]. split; simpl; [apply lookup_insert_eq|].
    apply list_lookup_insert_eq. by eapply lookup_lt_Some. }
  simpl. split_and!; [done|apply list_lookup_insert_eq; lia|done| | |].
  - intros i Hi. unfold deliverable in Hd. apply andb_true_iff in Hd as [[Hd _]%andb_true_iff _].
    rewrite Z.lxor_spec, Z.pow2_bits_eqb by lia. rewrite (Z.eqb_sym n i).
    destruct (Z.eqb_spec i n) as [->|]; [by rewrite Hd|by rewrite xorb_false_r, andb_true_r].
  - intros i Hi. by rewrite list_lookup_insert_ne.
  - intros s2 p2 cx [Hp2 Ht2]. destruct (lookup_lt_is_Some_2 (tc_x (trap_cx t)) 10) as [a0 Ha0]; [lia|].
    unfold sys_sigreturn. rewrite (M_bind_Ok _ _ s2 _ s2) by (unfold current_task; by rewrite Hp2; simpl; rewrite Ht2).
    rewrite (M_bind_Ok _ _ s2 (trap_cx t) s2 eq_refl). rewrite Ha0, (M_bind_Ok _ _ s2 a0 s2 eq_refl).
    erewrite M_bind_Ok by (unfold set_task; by rewrite Hp2).
    eexists a0, _, _, _. split; [done|]. split.
    { split; simpl; [apply lookup_insert_eq|]. apply list_lookup_insert_eq. by eapply lookup_lt_Some. }
    done.
Qed.

(** ** Stopping and continuing a process *)
(** Killing does not change what is deliverable. *)
Lemma deliverable_killed n p t m :
  n ∈ [0; 9] → deliverable (kernel_effect n p) (kernel_thread n t) m = deliverable p t m.
Proof. by intros [->|[->|?%elem_of_nil]%elem_of_cons]%elem_of_cons. Qed.
Lemma deliverable_cont p t m :
  0 ≤ m → m ≠ 18 → deliverable (kernel_effect 18 p) (kernel_thread 18 t) m = deliverable p t m.
Proof.
  intros Hm Hne. unfold deliverable. simpl. change SIGCONT with (2 ^ 18).
  by rewrite Z.lxor_spec, Z.pow2_bits_false, xorb_false_r by congruence.
Qed.

(** Signal numbers whose only deliverable ones kill the process. *)
Lemma check_pending_killers ns rest s p t :
  running s p t → sp_wf (sigp t) →
  Forall (λ n, 0 ≤ n ≤ MAX_SIG ∧ (deliverable p t n = true → n ∈ [0; 9])) ns →
  ∃ p' t', check_pending_loop (ns ++ rest) s = check_pending_loop rest (put_proc p' s) ∧
    running (put_proc p' s) p' t' ∧ sp_wf (sigp t') ∧ ∀ m, deliverable p' t' m = deliverable p t m.
Proof.
  intros Hr Hw Hns. revert s p t Hr Hw Hns. induction ns as [|n ns IH]; intros s p t Hr Hw Hns.
  { exists p, t. assert (put_proc p s = s) as ->; [|done].
    destruct Hr as [Hp _]. unfold put_proc. rewrite insert_id by done. by destruct s. }
  apply Forall_cons in Hns as [[Hn Hk] Hns]. simpl app. rewrite (check_pending_step s p t) by (done || lia).
  destruct (deliverable p t n) eqn:Hd; [|by apply IH].
  specialize (Hk eq_refl). unfold deliver_one.
  rewrite kernel_signal_number, bool_decide_eq_true_2 by (done || set_solver).
  rewrite (M_bind_Ok _ _ _ _ _ (kernel_run s p t n Hr)).
  destruct (IH (put_proc (kernel_effect n p) s) (kernel_effect n p) (kernel_thread n t)) as (p' & t' & H1 & H2 & H3 & H4).
  { apply (running_put s p t); [done|]. by apply kernel_effect_running, Hr. }
  { unfold kernel_thread. repeat case_match; exact Hw. }
  { eapply Forall_impl; [exact Hns|]. intros m [Hm Hi]. split; [done|]. by rewrite deliverable_killed. }
  rewrite put_proc_put in *. exists p', t'. split_and!; try done. intros m. by rewrite H4, deliverable_killed.
Qed.

Definition all_thawed (p : proc) : Prop := ∀ i t, tasks p !! i = Some (Some t) → frozen (sigp t) = false.

(** The signals above SIGCONT do not stop the process again. *)
Lemma check_pending_thawed ns s p t :
  running s p t → sp_wf (sigp t) → all_thawed p → deliverable p t 19 = false →
  Forall (λ n, 18 < n ≤ MAX_SIG) ns →
  ∃ s' p' t', check_pending_loop ns s = Ok ((), s') ∧ running s' p' t' ∧ all_thawed p'.
Proof.
  intros Hr Hw Hth Hd. induction 1 as [|n ns Hn _ IH]; [by exists s, p, t|].
  rewrite (check_pending_step s p t) by (done || lia). destruct (deliverable p t n) eqn:Hdn; [|done].
  unfold deliver_one. rewrite kernel_signal_number by lia. rewrite bool_decide_eq_false_2.
  2:{ rewrite !elem_of_cons, elem_of_nil. intros [|[|[|[->|[]]]]]; [lia..|congruence]. }
  destruct (get_action_Ok (signal_actions (sigp t)) n) as (a & Ha & _); [apply Hw|lia|].
  rewrite (user_run s p t n a) by (done || lia). destruct (handler a =? 0); [by exists s, p, t|].
  eexists _, _, (user_effect n (handler a) t). destruct Hr as [Hp Ht]. apply lookup_lt_Some in Ht as Hlt.
  split; [done|]. split; [split; simpl; [apply lookup_insert_eq|by apply list_lookup_insert_eq]|].
  intros i u. simpl. destruct (decide (i = cur_tid s)) as [->|].
  - rewrite list_lookup_insert_eq by done. intros [= <-]. simpl. by eapply Hth.
  - rewrite list_lookup_insert_ne by done. apply Hth.
Qed.

(** A stopped process that is sent SIGCONT resumes.  When SIGCONT can be
    delivered to the running thread, no SIGSTOP can, and no lower-numbered
    signal that has (or lacks) a user handler can, the next turn of the
    handling loop leaves the loop with every thread of the process thawed. *)
Theorem cont_resumes s p t others :
  running s p t → sp_wf (sigp t) → deliverable p t 18 = true → deliverable p t 19 = false →
  (∀ m, 0 ≤ m < 18 → deliverable p t m = true → m ∈ [0; 9]) →
  ∃ s' p' t', current_handle_signals others s = Ok (true, s') ∧ running s' p' t' ∧ all_thawed p'.
Proof.
  intros Hr Hw H18 H19 Hlow.
  destruct (check_pending_killers (seqZ 0 18) (18 :: seqZ 19 13) s p t Hr Hw) as (p1 & t1 & H1 & Hr1 & Hw1 & Hd1).
  { apply Forall_forall. intros m [? ?]%elem_of_seqZ. split; [unfold MAX_SIG; lia|apply Hlow; lia]. }
  set (s2 := put_proc (kernel_effect 18 p1) s).
  assert (running s2 (kernel_effect 18 p1) (kernel_thread 18 t1)) as Hr2.
  { split; simpl; [apply lookup_insert_eq|]. apply (kernel_effect_running 18 p1 (cur_tid s)), Hr1. }
  destruct (check_pending_thawed (seqZ 19 13) s2 (kernel_effect 18 p1) (kernel_thread 18 t1))
    as (s' & p' & t' & H3 & Hr3 & Hth); [done|exact Hw1| | | |].
  { intros i u. simpl. rewrite list_lookup_fmap. destruct (tasks p1 !! i) as [[v|]|]; simpl; try done. by intros [= <-]. }
  { rewrite deliverable_cont by lia. by rewrite Hd1. }
  { apply Forall_forall. intros m [? ?]%elem_of_seqZ. unfold MAX_SIG. lia. }
  exists s', p', t'. split_and!; [|done|done].
  assert (check_pending_signals s = Ok ((), s')) as Hrun.
  { unfold check_pending_signals. rewrite (numbers_split 18) by (unfold MAX_SIG; lia).
    change (18 + 1) with 19. change (MAX_SIG - 18) with 13. rewrite H1.
    rewrite (check_pending_step _ p1 t1) by (done || lia). rewrite Hd1, H18. unfold deliver_one.
    change (is_kernel_signal (2 ^ 18)) with true. cbv beta iota.
    rewrite (M_bind_Ok _ _ _ _ _ (kernel_run _ p1 t1 18 Hr1)), put_proc_put. exact H3. }
  assert (handle_turn s = Ok (true, s')) as Hturn.
  { unfold handle_turn. rewrite (M_bind_Ok _ _ _ _ _ Hrun), (M_bind_Ok _ _ _ _ _ (current_task_run _ _ _ Hr3)).
    by rewrite (Hth (cur_tid s') t') by apply Hr3. }
  destruct others; simpl; by rewrite (M_bind_Ok _ _ _ _ _ Hturn).
Qed.

(** ** One process with two threads; the running one handles signal 10 at 0x1000 *)
Module SignalDemo.
Definition cx0 : TrapContext := app_init_context 0 0x400 0x8000 1 2 3.
Definition sp0 : SignalProcessor := set_actions (<[10%nat := mkAction 0x1000 0]> (signal_actions signal_processor_new)) signal_processor_new.
Definition t0 : thread := mkThread sp0 cx0.
Definition t1 : thread := mkThread signal_processor_new cx0.
Definition st (sigs : Z) (t : thread) : sst := mkSst {[5 := mkProc sigs [Some t; Some t1]]} 5 0 {[0x100 := mkAction 0x2000 0; 0x200 := default_action]}.

Lemma sp0_wf : sp_wf sp0.
Proof. split; [reflexivity|discriminate]. Qed.

(** The first process installs a handler for signal 10 and is sent it: the turn
    is the delivery to the handler, and [sigreturn] cannot fail in the handler. *)
Definition boot : sst :=
  mkSst {[5 := mkProc 0 [Some t1]]} 5 0 {[0x100 := mkAction 0x1000 0; 0x200 := default_action]}.
Lemma boot_booted : booted boot.
Proof. by exists cx0. Qed.
Definition handled : sst :=
  mkSst {[5 := mkProc 0 [Some (user_effect 10 0x1000 t0)]]} 5 0 {[0x100 := mkAction 0x1000 0; 0x200 := default_action]}.
Lemma boot_handled : rtc sstep boot handled.
Proof.
  eapply rtc_l; [eapply (step_call _ _ (CallAction 10 0x100 0x200)); vm_compute; reflexivity|].
  eapply rtc_l; [eapply (step_call _ _ (CallKill 5 10)); vm_compute; reflexivity|].
  eapply rtc_l; [eapply step_turn; vm_compute; reflexivity|]. apply rtc_refl.
Qed.
Lemma signal_calls_exact_witness :
  st_inv handled ∧ (∃ b s', handle_turn handled = Ok (b, s')) ∧ ∀ e, run_call CallReturn handled ≠ Err e.
Proof.
  destruct (signal_calls_exact boot handled boot_booted boot_handled) as (H1 & p & t & [Hp Ht] & (b & H3) & H4 & _).
  split; [exact H1|]. split; [exists b; eexists; exact H3|]. intros e He.
  destruct (proj1 (H4 CallReturn e) He) as [_ Hh]. vm_compute in Hp. injection Hp as <-.
  vm_compute in Ht. injection Ht as <-. discriminate Hh.
Defined.
(** A second one, after the return, does fail. *)
Lemma second_return_panics :
  match run_call CallReturn handled with
  | Ok (_, s') => run_call CallReturn s' = Err Panicked
  | Err _ => False
  end.
Proof. vm_compute. reflexivity. Qed.

Lemma signal_roundtrip_witness :
  ∃ s1 p1 t', check_pending_signals (st 1024 t0) = Ok ((), s1) ∧ running s1 p1 t' ∧ sepc (trap_cx t') = 0x1000.
Proof.
  destruct (signal_roundtrip (st 1024 t0) (mkProc 1024 [Some t0; Some t1]) t0 10 (mkAction 0x1000 0))
    as (s1 & p1 & t' & H1 & H2 & H3 & _).
  - split; reflexivity.
  - apply sp0_wf.
  - unfold MAX_SIG. lia.
  - reflexivity.
  - reflexivity.
  - intros m Hm. assert (m ∈ seqZ 0 10) as Hin by (apply elem_of_seqZ; lia). clear Hm; revert m Hin.
    apply (Forall_forall (λ m, deliverable _ t0 m = false)). vm_compute. repeat constructor.
  - reflexivity.
  - discriminate.
  - reflexivity.
  - exists s1, p1, t'. split; [exact H1|]. split; [exact H2|exact H3].
Defined.

Definition t_frozen : thread := on_sigp (set_frozen true) t0.
Lemma cont_resumes_witness :
  ∃ s' p' t', current_handle_signals [] (st SIGCONT t_frozen) = Ok (true, s') ∧ running s' p' t' ∧ all_thawed p'.
Proof.
  apply (cont_resumes (st SIGCONT t_frozen) (mkProc SIGCONT [Some t_frozen; Some t1]) t_frozen []).
  - split; reflexivity.
  - exact sp0_wf.
  - reflexivity.
  - reflexivity.
  - intros m Hm Hd. exfalso. assert (m ∈ seqZ 0 18) as Hin by (apply elem_of_seqZ; lia). revert m Hin Hm Hd.
    apply (Forall_forall (λ m, 0 ≤ m < 18 → deliverable _ t_frozen m = true → False)). vm_compute. repeat (constructor; [done|]). constructor.
Defined.

(** A pending signal without a handler hides the higher-numbered ones: a stopped
    process with SIGHUP pending stays stopped although SIGCONT and SIGKILL are
    pending too, however often it is scheduled. *)
Lemma unhandled_signal_hides_others n :
  current_handle_signals (replicate n (λ s, s)) (st (Z.lor 2 (Z.lor SIGKILL SIGCONT)) t_frozen)
    = Ok (false, st (Z.lor 2 (Z.lor SIGKILL SIGCONT)) t_frozen).
Proof.
  assert (handle_turn (st (Z.lor 2 (Z.lor SIGKILL SIGCONT)) t_frozen) = Ok (false, st (Z.lor 2 (Z.lor SIGKILL SIGCONT)) t_frozen))
    as Hturn by (vm_compute; reflexivity).
  induction n as [|n IH]; simpl; rewrite (M_bind_Ok _ _ _ _ _ Hturn); [done|exact IH].
Qed.

(** [sigreturn] outside a handler panics, so does the second return of two
    nested handlers: the first delivery's context is overwritten. *)
Lemma sigreturn_outside_handler_panics : sys_sigreturn (st 0 t0) = Err Panicked.
Proof. reflexivity. Qed.
Definition sp2 : SignalProcessor := set_actions (<[12%nat := mkAction 0x2000 0]> (signal_actions sp0)) sp0.
Lemma nested_handlers_panic :
  (check_pending_signals ≫= λ _, sys_kill 5 12 ≫= λ _, check_pending_signals ≫= λ _,
   sys_sigreturn ≫= λ _, sys_sigreturn) (st 1024 (mkThread sp2 cx0)) = Err Panicked.
Proof. vm_compute. reflexivity. Qed.

(** A signal number out of range is not refused: its low five bits are used. *)
Lemma kill_wraps_signal_number : sys_kill 5 (32 + 9) (st 0 t0) = Ok (0, st SIGKILL t0).
Proof. vm_compute. reflexivity. Qed.

(** Given the same pointer twice, [sigaction] installs the action already there. *)
Lemma sigaction_same_pointer :
  match sys_sigaction 10 0x100 0x100 (st 0 t0) with
  | Ok (_, s') => procs s' = procs (st 0 t0)
  | Err _ => False
  end.
Proof. vm_compute. reflexivity. Qed.
End SignalDemo.
