(* ===== verification/UPCell.v ===== *)
(** * Cells of the single processor (os/src/sync/up.rs)

    [UPIntrFreeCell] is a [RefCell] whose borrows keep supervisor interrupts
    off: the first borrow saves the interrupt bit, the last drop restores it.
    A cell is named by an integer; [borrowed] are the cells with a live
    [UPIntrRefMut]. *)
From S2P Require Import Prelude.

Record IntrMaskingInfo := mkIMI { nested_level : Z; sie_before_masking : bool }.
Definition imi_new : IntrMaskingInfo := mkIMI 0 false.

(** The processor: the interrupt-enable bit of [sstatus], the masking info and
    the [RefCell]s that are borrowed. *)
Record ust := mkU { sie : bool; info : IntrMaskingInfo; borrowed : gset Z }.

Definition enter (s : ust) : ust :=
  let before := if nested_level (info s) =? 0 then sie s else sie_before_masking (info s) in
  mkU false (mkIMI (u64 (nested_level (info s) + 1)) before) (borrowed s).
Definition exit (s : ust) : ust :=
  let level := u64 (nested_level (info s) - 1) in
  mkU (if (level =? 0) && sie_before_masking (info s) then true else sie s)
      (mkIMI level (sie_before_masking (info s))) (borrowed s).

(** [try_borrow_mut().expect(..)] after entering *)
Definition exclusive_access (c : Z) : M ust () := λ s,
  let s := enter s in
  if bool_decide (c ∈ borrowed s) then Err Panicked
  else Ok ((), mkU (sie s) (info s) ({[c]} ∪ borrowed s)).
Definition drop_ref (c : Z) (s : ust) : ust :=
  exit (mkU (sie s) (info s) (borrowed s ∖ {[c]})).
Definition exclusive_session {A} (c : Z) (f : M ust A) : M ust A :=
  exclusive_access c ≫= λ _, f ≫= λ a, (λ s, Ok (a, drop_ref c s)) : M ust A.

(** ** The kernel's use of cells

    Code borrows a cell that is free, drops a borrow it has, and writes the
    interrupt bit only when it holds no borrow (the trap handlers). *)
Inductive ustep (s s' : ust) : Prop :=
| st_borrow c : exclusive_access c s = Ok ((), s') → Z.of_nat (size (borrowed s)) < U64_MAX → ustep s s'
| st_drop c : c ∈ borrowed s → s' = drop_ref c s → ustep s s'
| st_sie b : borrowed s = ∅ → s' = mkU b (info s) ∅ → ustep s s'.

Record u_inv (s : ust) : Prop := {
  ui_level : nested_level (info s) = Z.of_nat (size (borrowed s));
  ui_bound : Z.of_nat (size (borrowed s)) ≤ U64_MAX;
  ui_masked : borrowed s ≠ ∅ → sie s = false;
}.

Lemma size_0_empty (X : gset Z) : Z.of_nat (size X) = 0 → X = ∅.
Proof. intros H. apply leibniz_equiv, size_empty_inv. lia. Qed.
Lemma size_add (X : gset Z) c : c ∉ X → Z.of_nat (size ({[c]} ∪ X)) = Z.of_nat (size X) + 1.
Proof. intros H. rewrite size_union by set_solver. rewrite size_singleton. lia. Qed.
Lemma size_remove (X : gset Z) c : c ∈ X → Z.of_nat (size (X ∖ {[c]})) = Z.of_nat (size X) - 1.
Proof.
  intros H. rewrite size_difference by set_solver. rewrite size_singleton.
  assert (size X ≠ 0%nat); [|lia]. intros H0%size_empty_inv. set_solver.
Qed.

(** A borrow that succeeds, and a drop. *)
Lemma exclusive_access_spec c s :
  u_inv s → Z.of_nat (size (borrowed s)) < U64_MAX →
  exclusive_access c s =
    if decide (c ∈ borrowed s) then Err Panicked
    else Ok ((), mkU false (mkIMI (Z.of_nat (size (borrowed s)) + 1)
                                 (if bool_decide (borrowed s = ∅) then sie s else sie_before_masking (info s)))
                     ({[c]} ∪ borrowed s)).
Proof.
  intros [Hl Hb Hm] Hlt. unfold exclusive_access, enter. simpl. rewrite Hl, u64_id by (unfold is_u64, U64_MAX in *; lia).
  destruct (decide (c ∈ borrowed s)); [by rewrite bool_decide_eq_true_2|]. rewrite bool_decide_eq_false_2 by done.
  repeat f_equal.
  destruct (Z.eqb_spec (Z.of_nat (size (borrowed s))) 0) as [Hz|Hz].
  - apply size_0_empty in Hz. by rewrite bool_decide_eq_true_2.
  - rewrite bool_decide_eq_false_2; [done|]. intros He. rewrite He, size_empty in Hz. done.
Qed.
Lemma drop_ref_spec c s :
  u_inv s → c ∈ borrowed s →
  drop_ref c s = mkU (if bool_decide (borrowed s ∖ {[c]} = ∅) then sie_before_masking (info s) else false)
    (mkIMI (Z.of_nat (size (borrowed s ∖ {[c]}))) (sie_before_masking (info s))) (borrowed s ∖ {[c]}).
Proof.
  intros [Hl Hb Hm] Hc. unfold drop_ref, exit. simpl. pose proof (size_remove _ _ Hc) as Hr.
  rewrite Hl, u64_id by (unfold is_u64, U64_MAX in *; lia). rewrite <- Hr.
  rewrite Hm by set_solver. repeat f_equal.
  destruct (Z.eqb_spec (Z.of_nat (size (borrowed s ∖ {[c]}))) 0) as [H0|H0]; simpl.
  - apply size_0_empty in H0. rewrite bool_decide_eq_true_2 by done. by destruct (sie_before_masking _).
  - rewrite bool_decide_eq_false_2; [done|]. intros He. rewrite He, size_empty in H0. done.
Qed.

Lemma u_inv_step s s' : u_inv s → ustep s s' → u_inv s'.
Proof.
  intros Hi [c H Hlt|c Hc ->|b He ->].
  - rewrite exclusive_access_spec in H by done. case_decide as Hc; [done|]. injection H as <-.
    split; simpl; [by rewrite size_add|rewrite size_add by done; lia|done].
  - rewrite drop_ref_spec by done. destruct Hi as [Hl Hb Hm]. split; simpl; [done|rewrite size_remove by done; lia|].
    intros Hne. by rewrite bool_decide_eq_false_2.
  - destruct Hi as [Hl Hb Hm]. split; simpl; [by rewrite Hl, He|done|done].
Qed.

(** With respect to the state [s0] before the first borrow. *)
Definition session_inv (s0 s : ust) : Prop :=
  u_inv s ∧ (borrowed s = ∅ → sie s = sie s0) ∧ (borrowed s ≠ ∅ → sie_before_masking (info s) = sie s0).
Inductive bstep (s s' : ust) : Prop :=
| bs_borrow c : exclusive_access c s = Ok ((), s') → Z.of_nat (size (borrowed s)) < U64_MAX → bstep s s'
| bs_drop c : c ∈ borrowed s → s' = drop_ref c s → bstep s s'.

Lemma session_step s0 s s' : session_inv s0 s → bstep s s' → session_inv s0 s'.
Proof.
  intros (Hi & He & Hn) Hst. split; [eapply u_inv_step; [done|]; destruct Hst; [by eapply st_borrow|by eapply st_drop]|].
  destruct Hst as [c H Hlt|c Hc ->].
  - rewrite exclusive_access_spec in H by done. case_decide as Hc; [done|]. injection H as <-. simpl.
    split; [set_solver|]. intros _. case_bool_decide; auto.
  - rewrite drop_ref_spec by done. simpl. split.
    + intros H0. rewrite bool_decide_eq_true_2 by done. apply Hn. set_solver.
    + intros _. apply Hn. set_solver.
Qed.

(** C35 Cells and interrupts.  Interrupts are off as long as any cell is
    borrowed: when one can be taken, an interrupt handler can borrow every cell
    and leaves interrupts on when it drops it.  And a run of borrows and drops, in
    any order, that ends with no borrow leaves the interrupt bit as it was
    before the first one. *)
Theorem interrupts_find_cells_free s0 s :
  u_inv s0 → rtc ustep s0 s →
  (sie s = true → ∀ c, ∃ s', exclusive_access c s = Ok ((), s') ∧ sie s' = false ∧
     sie (drop_ref c s') = true ∧ borrowed (drop_ref c s') = borrowed s) ∧
  (∀ s1, borrowed s = ∅ → rtc bstep s s1 → borrowed s1 = ∅ → sie s1 = sie s).
Proof.
  intros H0 Hr. assert (u_inv s) as Hi by (eapply (rtc_invariant ustep u_inv s0 s); [exact u_inv_step|done|done]).
  split.
  - intros Hs c. assert (borrowed s = ∅) as He.
    { destruct (decide (borrowed s = ∅)) as [|Hne]; [done|]. pose proof (ui_masked _ Hi Hne). congruence. }
    assert (Z.of_nat (size (borrowed s)) < U64_MAX) as Hlt by (by rewrite He, size_empty).
    pose proof (exclusive_access_spec c s Hi Hlt) as Ha. rewrite decide_False in Ha by set_solver.
    eexists. split; [exact Ha|]. split; [done|].
    rewrite (drop_ref_spec c); [|by eapply u_inv_step, st_borrow|set_solver].
    cbn [sie borrowed info sie_before_masking].
    assert (({[c]} ∪ borrowed s) ∖ {[c]} = ∅) as Hd by set_solver.
    by rewrite Hd, He, !bool_decide_eq_true_2.
  - intros s1 He Hb He1. assert (session_inv s s1) as (_ & H1 & _); [|by apply H1].
    eapply (rtc_invariant bstep (session_inv s) s s1); [intros; by eapply session_step| |done].
    split; [done|]. by split.
Qed.

Lemma interrupts_find_cells_free_witness :
  ∃ s', exclusive_access 3 (mkU true imi_new ∅) = Ok ((), s') ∧ sie s' = false ∧ sie (drop_ref 3 s') = true.
Proof.
  destruct (interrupts_find_cells_free (mkU false imi_new ∅) (mkU true imi_new ∅)) as [H _].
  - split; [reflexivity|discriminate|done].
  - apply rtc_once, (st_sie _ _ true); reflexivity.
  - destruct (H eq_refl 3) as (s' & H1 & H2 & H3 & _). exists s'. split; [exact H1|]. split; [exact H2|exact H3].
Defined.

(** Borrowing a cell twice panics. *)
Lemma double_borrow_panics : (exclusive_access 3 ≫= λ _, exclusive_access 3) (mkU true imi_new ∅) = Err Panicked.
Proof. vm_compute. reflexivity. Qed.
