(* ===== verification/UserMem.v ===== *)
(** * Bytes of user memory as the kernel reads and writes them
      (os/src/mm/page_table.rs: UserBuffer, translated_refmut; os/src/mm/address.rs: get_mut)

    A user buffer is a list of slices of physical pages; a reference obtained
    from a user pointer is a physical address.  Lemmas on single bytes, shared
    by the file and the process system calls. *)
From S2P Require Import Prelude Bytes Address FrameAllocator PageTable MemorySet AddressSpace.

(** [slice[..bs.len()].copy_from_slice(bs)] *)
Definition write_slice (sl : uslice) (bs : list Z) : M kmem () := λ s,
  let '(ppn, a, b) := sl in
  match mem s !! ppn with
  | Some pg =>
      if Z.of_nat (length bs) <=? b - a
      then Ok ((), mkMem (fa s) (<[ppn := splice (Z.to_nat a) bs pg]> (mem s)))
      else Err Panicked
  | None => Err Panicked
  end.
Definition read_slice (sl : uslice) : M kmem (list Z) := λ s,
  let '(ppn, a, b) := sl in
  match mem s !! ppn with
  | Some pg => Ok (slice (Z.to_nat a) (Z.to_nat (b - a)) pg, s)
  | None => Err Panicked
  end.

(** A reference to user memory is a physical address: the bytes of a value
    follow it in physical memory, also past the end of the page. *)
Fixpoint phys_put (pa : Z) (bs : list Z) : M kmem () :=
  match bs with
  | [] => mret ()
  | b :: rest => write_slice (floor pa, page_offset pa, PAGE_SIZE) [b] ≫= λ _, phys_put (pa + 1) rest
  end.
Fixpoint phys_get (n : nat) (pa : Z) : M kmem (list Z) :=
  match n with
  | O => mret []
  | S n =>
      read_slice (floor pa, page_offset pa, page_offset pa + 1) ≫= λ b,
      phys_get n (pa + 1) ≫= λ rest, mret (b ++ rest)
  end.

(** [*translated_refmut(token, ptr) = v] and [*translate_ref(token, ptr)] for a
    value of [n] bytes. *)
Definition write_user (n : nat) (tok ptr v : Z) : M kmem () :=
  translated_ref tok ptr ≫= λ pa, phys_put pa (le_enc n v).
Definition read_user (n : nat) (tok ptr : Z) : M kmem Z :=
  translated_ref tok ptr ≫= λ pa, phys_get n pa ≫= λ bs, mret (le_dec bs).

(** The copy of a structure to the pieces of a user buffer: piece [i], of length
    [len], is copied from the offset [i * len]; [beyond] are the bytes that
    follow the structure in kernel memory. *)
Fixpoint copy_struct (src : list Z) (beyond : Z → Z) (i : Z) (bufs : list uslice) : M kmem () :=
  match bufs with
  | [] => mret ()
  | (p, a, b) :: rest =>
      let len := b - a in
      let byte k := default (beyond k) (src !! Z.to_nat k) in
      write_slice (p, a, b) (byte <$> seqZ (i * len) len) ≫= λ _, copy_struct src beyond (i + 1) rest
  end.

(** The byte at a physical location. *)
Definition byte_at (m : gmap Z page) (l : Z * Z) : option Z := m !! l.1 ≫= λ pg : page, pg !! Z.to_nat l.2.

Definition slice_ok (m : gmap Z page) (sl : uslice) : Prop :=
  let '(ppn, a, b) := sl in 0 ≤ a < b ∧ b ≤ PAGE_SIZE ∧ ∃ pg, m !! ppn = Some pg ∧ page_ok pg.

Lemma length_slice_locs p a b : length (slice_locs (p, a, b)) = Z.to_nat (b - a).
Proof. simpl. by rewrite length_fmap, length_seqZ. Qed.
Lemma slice_locs_lookup p a b i : (i < Z.to_nat (b - a))%nat → slice_locs (p, a, b) !! i = Some (p, a + Z.of_nat i).
Proof. intros Hi. simpl. rewrite list_lookup_fmap, lookup_seqZ_lt by lia. done. Qed.
Lemma buffer_locs_cons sl v : buffer_locs (sl :: v) = slice_locs sl ++ buffer_locs v.
Proof. done. Qed.

(** Writing a prefix of a slice. *)
Lemma write_slice_spec p a b bs s :
  slice_ok (mem s) (p, a, b) → Forall is_byte bs → Z.of_nat (length bs) ≤ b - a →
  ∃ m', write_slice (p, a, b) bs s = Ok ((), mkMem (fa s) m') ∧
    (∀ i, (i < length bs)%nat → byte_at m' (p, a + Z.of_nat i) = bs !! i) ∧
    (∀ l, 0 ≤ l.2 → l ∉ take (length bs) (slice_locs (p, a, b)) → byte_at m' l = byte_at (mem s) l) ∧
    (∀ k, k ≠ p → m' !! k = mem s !! k) ∧
    (∀ k pg, mem s !! k = Some pg → page_ok pg → ∃ pg', m' !! k = Some pg' ∧ page_ok pg').
Proof.
  intros (Ha & Hb & pg & Hpg & [Hl Hbytes]) Hbs Hlen. unfold write_slice. rewrite Hpg, (proj2 (Z.leb_le _ _)) by lia.
  eexists. split; [done|].
  assert (Z.to_nat a + length bs ≤ length pg)%nat as Hfit by (rewrite Hl; unfold PAGE_SIZE in *; lia).
  split_and!.
  - intros i Hi. unfold byte_at. simpl. rewrite lookup_insert_eq. simpl.
    rewrite lookup_splice_in by lia. f_equal. lia.
  - intros [q o] Ho Hn. unfold byte_at. simpl in *. destruct (decide (q = p)) as [->|]; [|by rewrite lookup_insert_ne].
    rewrite lookup_insert_eq, Hpg. simpl. apply lookup_splice_out; [lia|].
    destruct (decide (a ≤ o < a + Z.of_nat (length bs))) as [Hin|]; [|lia]. exfalso. apply Hn.
    apply list_elem_of_lookup. exists (Z.to_nat (o - a)). rewrite lookup_take_lt by lia.
    change ((λ o0, (p, o0)) <$> seqZ a (b - a)) with (slice_locs (p, a, b)). rewrite slice_locs_lookup by lia. f_equal. f_equal. lia.
  - intros k Hk. by apply lookup_insert_ne.
  - intros k pg' Hk Hok. destruct (decide (k = p)) as [->|]; [|rewrite lookup_insert_ne by done; eauto].
    rewrite lookup_insert_eq. eexists. split; [done|]. rewrite Hpg in Hk. injection Hk as <-.
    split; [by rewrite length_splice by done|]. by apply Forall_splice.
Qed.

(** ** A user buffer *)
Definition user_byte (ms : MemorySet) (s : kmem) (va : Z) : option Z :=
  phys_loc (mem s) (root_ppn (page_table ms)) va ≫= byte_at (mem s).
(** Every page of [ptr, ptr + len) belongs to an area of the space. *)
Definition in_areas (ms : MemorySet) (ptr len : Z) : Prop :=
  0 ≤ ptr ∧ 0 ≤ len ∧ ptr + len < 2 ^ 39 ∧
  ∀ va, ptr ≤ va < ptr + len → ∃ a, a ∈ areas ms ∧ floor va ∈ pages_of a.

Lemma owned_loc l0 ms s va a :
  space_ok l0 ms s → a ∈ areas ms → floor va ∈ pages_of a →
  ∃ f pg, data_frames a !! floor va = Some f ∧ phys_loc (mem s) (root_ppn (page_table ms)) va = Some (f, page_offset va) ∧
    f ∉ frames (page_table ms) ∧ mem s !! f = Some pg ∧ page_ok pg ∧ is_allocated l0 (fa s) f.
Proof.
  intros Hsp Ha Hv. destruct (sp_page _ _ _ Hsp a _ Ha Hv) as (f & pg & Hd & Hal & Hn & Hpg & Hok & Hm).
  exists f, pg. split_and!; try done. unfold phys_loc. rewrite Hm. simpl. rewrite leaf_entry_ppn; [done| |].
  - apply (sp_area _ _ _ Hsp a Ha).
  - eapply is_allocated_range; [apply (sp_pt _ _ _ Hsp)|done].
Qed.

Lemma phys_loc_inj l0 ms s ptr len va wa l :
  space_ok l0 ms s → in_areas ms ptr len → ptr ≤ va < ptr + len → ptr ≤ wa < ptr + len →
  phys_loc (mem s) (root_ppn (page_table ms)) va = Some l → phys_loc (mem s) (root_ppn (page_table ms)) wa = Some l → va = wa.
Proof.
  intros Hsp (_ & _ & _ & Hin) Hva Hwa Hlv Hlw.
  destruct (Hin va Hva) as (a & Ha & Hpa). destruct (Hin wa Hwa) as (b & Hb & Hpb).
  destruct (owned_loc l0 ms s va a Hsp Ha Hpa) as (f & _ & Hdf & Hpf & _).
  destruct (owned_loc l0 ms s wa b Hsp Hb Hpb) as (g & _ & Hdg & Hpg & _).
  rewrite Hpf in Hlv. rewrite Hpg in Hlw. simplify_eq.
  assert (floor va = floor wa) by (by eapply (sp_inj _ _ _ Hsp a b)).
  pose proof (floor_split va). pose proof (floor_split wa). congruence.
Qed.

(** The locations of a user buffer. *)
Record user_slices (l0 : Z) (ms : MemorySet) (s : kmem) (ptr len : Z) (v : list uslice) : Prop := {
  us_ok : Forall (slice_ok (mem s)) v;
  us_nodup : NoDup (buffer_locs v);
  us_len : length (buffer_locs v) = Z.to_nat len;
  us_loc : ∀ i l, buffer_locs v !! i = Some l ↔ (i < Z.to_nat len)%nat ∧ phys_loc (mem s) (root_ppn (page_table ms)) (ptr + Z.of_nat i) = Some l;
  us_frames : ∀ l, l ∈ buffer_locs v → 0 ≤ l.2 ∧ l.1 ∉ frames (page_table ms);
}.

Lemma translated_user_buffer l0 ms s ptr len fuel :
  space_ok l0 ms s → in_areas ms ptr len → len / 4096 + 3 ≤ Z.of_nat fuel →
  ∃ v, translated_byte_buffer fuel (ms_token ms) ptr len s = Ok (v, s) ∧ user_slices l0 ms s ptr len v.
Proof.
  intros Hsp Hin Hfuel. pose proof Hin as (Hp & Hl & Hend & Hmap).
  destruct (translated_byte_buffer_spec l0 (page_table ms) s ptr len fuel) as (v & Hv & Hlocs & Hne);
    [apply Hsp|done|done|done| |done|].
  { intros va Hva. destruct (Hmap va Hva) as (a & Ha & Hpa).
    destruct (owned_loc l0 ms s va a Hsp Ha Hpa) as (f & _ & _ & Hpf & _). unfold phys_loc in Hpf.
    destruct (mapping _ _ _); [by eexists|done]. }
  exists v. split; [exact Hv|].
  assert (length (buffer_locs v) = Z.to_nat len) as Hlen.
  { apply (f_equal length) in Hlocs. by rewrite !length_fmap, length_seqZ in Hlocs. }
  assert (∀ i l, buffer_locs v !! i = Some l ↔ (i < Z.to_nat len)%nat ∧ phys_loc (mem s) (root_ppn (page_table ms)) (ptr + Z.of_nat i) = Some l) as Hloc.
  { intros i l. assert ((Some <$> buffer_locs v) !! i = (phys_loc (mem s) (root_ppn (page_table ms)) <$> seqZ ptr len) !! i) as Hi by (by rewrite Hlocs).
    rewrite !list_lookup_fmap in Hi. destruct (decide (i < Z.to_nat len)%nat) as [Hlt|Hge].
    - rewrite lookup_seqZ_lt in Hi by lia. simpl in Hi. destruct (buffer_locs v !! i) as [l'|] eqn:He.
      + simpl in Hi. injection Hi as Hi. rewrite <- Hi. naive_solver.
      + apply lookup_ge_None in He. lia.
    - rewrite lookup_ge_None_2 by lia. naive_solver. }
  assert (∀ i l, buffer_locs v !! i = Some l → 0 ≤ l.2 < PAGE_SIZE ∧ l.1 ∉ frames (page_table ms) ∧
            ∃ pg, mem s !! l.1 = Some pg ∧ page_ok pg) as Hpg.
  { intros i l [Hi Hl']%Hloc. destruct (Hmap (ptr + Z.of_nat i)) as (a & Ha & Hpa); [lia|].
    destruct (owned_loc l0 ms s _ a Hsp Ha Hpa) as (f & pg & _ & Hpf & Hfn & Hpg & Hok & _).
    rewrite Hpf in Hl'. injection Hl' as <-. simpl. split; [|eauto]. rewrite page_offset_mod. apply Z.mod_pos_bound. done. }
  split; [|apply NoDup_alt|done|done|].
  - apply Forall_forall. intros [[p a] b] Hsl. pose proof (proj1 (Forall_forall _ _) Hne _ Hsl) as Hab. simpl in Hab.
    apply list_elem_of_split in Hsl as (v1 & v2 & ->).
    assert (∀ o, (o < Z.to_nat (b - a))%nat → ∃ i, buffer_locs (v1 ++ (p, a, b) :: v2) !! i = Some (p, a + Z.of_nat o)) as Hat.
    { intros o Ho. exists (length (buffer_locs v1) + o)%nat. unfold buffer_locs. rewrite fmap_app, concat_app, fmap_cons.
      rewrite lookup_app_r by lia. rewrite Nat.add_sub'.
      change (concat (slice_locs (p, a, b) :: (slice_locs <$> v2))) with (slice_locs (p, a, b) ++ buffer_locs v2).
      rewrite lookup_app_l by (rewrite length_slice_locs; lia). by apply slice_locs_lookup. }
    destruct (Hat 0%nat) as [i0 H0]; [lia|]. destruct (Hat (Z.to_nat (b - a - 1))) as [i1 H1]; [lia|].
    apply Hpg in H0 as (? & _ & pg & ? & ?). apply Hpg in H1 as (? & _ & _). simpl in *.
    split; [lia|]. split; [lia|]. eauto.
  - intros i j l [Hi Hli]%Hloc [Hj Hlj]%Hloc.
    assert (ptr + Z.of_nat i = ptr + Z.of_nat j) by (eapply (phys_loc_inj l0 ms s ptr len); [done|done|lia|lia|done|done]). lia.
  - intros l [i Hi]%list_elem_of_lookup. destruct (Hpg i l Hi) as (? & ? & _). split; [lia|done].
Qed.

(** ** Memory that differs from [m] only in the bytes [bs] at the first locations of [locs] *)
Record bytes_put (m m' : gmap Z page) (locs : list (Z * Z)) (bs : list Z) : Prop := {
  bp_in : ∀ i l, locs !! i = Some l → (i < length bs)%nat → byte_at m' l = bs !! i;
  bp_out : ∀ l, 0 ≤ l.2 → l ∉ take (length bs) locs → byte_at m' l = byte_at m l;
  bp_page : ∀ k, (∀ l, l ∈ locs → l.1 ≠ k) → m' !! k = m !! k;
  bp_ok : ∀ k pg, m !! k = Some pg → page_ok pg → ∃ pg', m' !! k = Some pg' ∧ page_ok pg';
}.

Lemma slice_ok_put m m' locs bs sl : bytes_put m m' locs bs → slice_ok m sl → slice_ok m' sl.
Proof. destruct sl as [[p a] b]. intros [_ _ _ Hm] (Ha & Hb & pg & Hpg & Hok). split; [done|]. split; [done|]. by eapply Hm. Qed.

Lemma bytes_put_nil m locs : bytes_put m m locs [].
Proof. split; [simpl; lia|done|done|eauto]. Qed.

(** The rest of the locations does not matter. *)
Lemma bytes_put_more m m' l1 l2 bs : bytes_put m m' l1 bs → (length bs ≤ length l1)%nat → bytes_put m m' (l1 ++ l2) bs.
Proof.
  intros [I O P K] Hl. split; [| | |done].
  - intros i l Hi Hlt. apply (I i); [|done]. by rewrite lookup_app_l in Hi by lia.
  - intros l Hl0. rewrite take_app_le by done. by apply O.
  - intros k Hk. apply P. intros l Hin. apply Hk, elem_of_app. by left.
Qed.

Lemma bytes_put_app m m1 m2 l1 l2 b1 b2 :
  bytes_put m m1 l1 b1 → bytes_put m1 m2 l2 b2 → length b1 = length l1 → NoDup (l1 ++ l2) → Forall (λ l, 0 ≤ l.2) l1 →
  bytes_put m m2 (l1 ++ l2) (b1 ++ b2).
Proof.
  intros [I1 O1 P1 K1] [I2 O2 P2 K2] Hl (Hn1 & Hd & Hn2)%NoDup_app Hpos. split.
  - intros i l Hi Hlt. rewrite length_app in Hlt. apply lookup_app_Some in Hi as [Hi|[Hi Hi2]].
    + apply lookup_lt_Some in Hi as Hil. rewrite lookup_app_l by lia. rewrite <- (I1 i l) by (done || lia).
      apply O2; [by eapply (Forall_lookup_1 _ _ _ _ Hpos)|]. intros (j & Hj & _)%elem_of_take.
      apply (Hd l); by eapply list_elem_of_lookup_2.
    + rewrite lookup_app_r by lia. rewrite Hl. apply I2; [done|lia].
  - intros l Hl0 Hn. rewrite length_app, Hl, take_app_add in Hn. apply not_elem_of_app in Hn as [Hna Hnb].
    rewrite O2 by done. apply O1; [done|]. by rewrite Hl, take_ge by lia.
  - intros k Hk. rewrite P2 by (intros l Hin; apply Hk, elem_of_app; by right). apply P1. intros l Hin. apply Hk, elem_of_app. by left.
  - intros k pg Hpg Hok. destruct (K1 k pg Hpg Hok) as (pg1 & Hpg1 & Hok1). by eapply K2.
Qed.

Lemma bytes_put_skip m m1 m2 l1 l2 bs :
  bytes_put m m1 l1 bs → bytes_put m1 m2 l2 [] → (length bs ≤ length l1)%nat → Forall (λ l, 0 ≤ l.2) l1 →
  bytes_put m m2 (l1 ++ l2) bs.
Proof.
  intros [I1 O1 P1 K1] [_ O2 P2 K2] Hl Hpos. split.
  - intros i l Hi Hlt. rewrite lookup_app_l in Hi by lia. rewrite O2; [by apply I1|by eapply (Forall_lookup_1 _ _ _ _ Hpos)|].
    simpl. apply not_elem_of_nil.
  - intros l Hl0. rewrite take_app_le by done. intros Hn. rewrite O2; [by apply O1|done|]. simpl. apply not_elem_of_nil.
  - intros k Hk. rewrite P2 by (intros l Hin; apply Hk, elem_of_app; by right). apply P1. intros l Hin. apply Hk, elem_of_app. by left.
  - intros k pg Hpg Hok. destruct (K1 k pg Hpg Hok) as (pg1 & Hpg1 & Hok1). by eapply K2.
Qed.

Lemma write_slice_put p a b bs s :
  slice_ok (mem s) (p, a, b) → Forall is_byte bs → Z.of_nat (length bs) ≤ b - a →
  ∃ m', write_slice (p, a, b) bs s = Ok ((), mkMem (fa s) m') ∧ bytes_put (mem s) m' (slice_locs (p, a, b)) bs.
Proof.
  intros Hok Hbs Hlen. destruct (write_slice_spec p a b bs s Hok Hbs Hlen) as (m' & Hr & Hin & Hout & Hpg & Hk).
  exists m'. split; [done|]. split; [|done| |done].
  - intros i l Hi Hlt. rewrite slice_locs_lookup in Hi by lia. injection Hi as <-. by apply Hin.
  - intros k Hne. apply Hpg. intros ->. destruct Hok as (Hab & _ & _). eapply (Hne (p, a)); [|done].
    apply list_elem_of_lookup. exists 0%nat. rewrite slice_locs_lookup by lia. f_equal. f_equal. lia.
Qed.

(** Writing user bytes keeps the space, its page table and the other user bytes. *)
Lemma bytes_put_space l0 ms s ptr len v m' bs :
  space_ok l0 ms s → user_slices l0 ms s ptr len v → bytes_put (mem s) m' (buffer_locs v) bs →
  let s' := mkMem (fa s) m' in
  space_ok l0 ms s' ∧ (∀ w, 0 ≤ w < 2 ^ 27 → pt_map s' ms w = pt_map s ms w).
Proof.
  intros Hsp [_ _ _ _ Hfr] [_ _ Hp Hk]. apply space_ok_contents; [done| |done].
  intros k Hin. apply Hp. intros l Hl <-. by destruct (Hfr l Hl).
Qed.

Lemma bytes_put_user l0 ms s ptr len v m' bs :
  space_ok l0 ms s → in_areas ms ptr len → user_slices l0 ms s ptr len v → bytes_put (mem s) m' (buffer_locs v) bs →
  Z.of_nat (length bs) ≤ len →
  let s' := mkMem (fa s) m' in
  (∀ i, (i < length bs)%nat → user_byte ms s' (ptr + Z.of_nat i) = bs !! i) ∧
  (∀ va a, a ∈ areas ms → floor va ∈ pages_of a → ¬ (ptr ≤ va < ptr + Z.of_nat (length bs)) → user_byte ms s' va = user_byte ms s va).
Proof.
  intros Hsp Hin Hus Hput Hlen s'. destruct (bytes_put_space l0 ms s ptr len v m' bs Hsp Hus Hput) as [Hsp' Hm].
  pose proof Hus as [_ Hnd Hl Hloc Hfr]. pose proof Hput as [I O _ _].
  assert (∀ va a, a ∈ areas ms → floor va ∈ pages_of a → phys_loc m' (root_ppn (page_table ms)) va = phys_loc (mem s) (root_ppn (page_table ms)) va) as Hpl.
  { intros va a Ha Hva. unfold phys_loc. f_equal. apply Hm. by eapply pages_of_range; [apply (sp_area _ _ _ Hsp)|]. }
  split.
  - intros i Hi. destruct Hin as (_ & _ & _ & Hin). destruct (Hin (ptr + Z.of_nat i)) as (a & Ha & Hva); [lia|].
    destruct (owned_loc l0 ms s _ a Hsp Ha Hva) as (f & pg & _ & Hpf & _).
    unfold user_byte. simpl. rewrite (Hpl _ a) by done. rewrite Hpf. simpl. apply (I i); [|done].
    apply Hloc. split; [lia|done].
  - intros va a Ha Hva Hout. destruct (owned_loc l0 ms s _ a Hsp Ha Hva) as (f & pg & Hd & Hpf & _).
    unfold user_byte. simpl. rewrite (Hpl _ a) by done. rewrite Hpf. simpl. apply O.
    + simpl. rewrite page_offset_mod. by apply Z.mod_pos_bound.
    + intros (i & Hi & Hlt)%elem_of_take. apply Hloc in Hi as [Hil Hi].
      destruct Hin as (_ & _ & _ & Hin). destruct (Hin (ptr + Z.of_nat i)) as (b & Hb & Hvb); [lia|].
      destruct (owned_loc l0 ms s _ b Hsp Hb Hvb) as (g & pg' & Hdg & Hpg & _). rewrite Hi in Hpg. injection Hpg as <- Ho.
      assert (floor va = floor (ptr + Z.of_nat i)) by (by eapply (sp_inj _ _ _ Hsp a b)).
      pose proof (floor_split va). pose proof (floor_split (ptr + Z.of_nat i)). apply Hout. lia.
Qed.

(** Reading slices gives the bytes at their locations. *)
Lemma read_slice_spec p a b s :
  slice_ok (mem s) (p, a, b) →
  ∃ bs, read_slice (p, a, b) s = Ok (bs, s) ∧ length bs = Z.to_nat (b - a) ∧ bs ≠ [] ∧ Forall is_byte bs ∧
    byte_at (mem s) <$> slice_locs (p, a, b) = Some <$> bs.
Proof.
  intros (Ha & Hb & pg & Hpg & [Hl Hbytes]). unfold read_slice. rewrite Hpg. eexists. split; [done|].
  assert (Z.to_nat a + Z.to_nat (b - a) ≤ length pg)%nat as Hfit by (rewrite Hl; unfold PAGE_SIZE in *; lia).
  assert (length (slice (Z.to_nat a) (Z.to_nat (b - a)) pg) = Z.to_nat (b - a)) as Hlen by (by apply length_slice).
  split_and!; [done| |by apply Forall_slice|].
  - intros He. rewrite He in Hlen. simpl in Hlen. lia.
  - apply list_eq_same_length with (Z.to_nat (b - a)).
    + by rewrite length_fmap, Hlen.
    + by rewrite length_fmap, length_slice_locs.
    + intros i x y Hi. rewrite !list_lookup_fmap, slice_locs_lookup, lookup_slice by done. simpl.
      unfold byte_at. simpl. rewrite Hpg. simpl. replace (Z.to_nat (a + Z.of_nat i)) with (Z.to_nat a + i)%nat by lia.
      destruct (pg !! (Z.to_nat a + i)%nat) eqn:He; simpl; [naive_solver|]. apply lookup_ge_None in He. lia.
Qed.

Lemma user_bytes_read l0 ms s ptr len v bs :
  user_slices l0 ms s ptr len v → byte_at (mem s) <$> buffer_locs v = Some <$> bs →
  length bs = Z.to_nat len ∧ ∀ i, (i < Z.to_nat len)%nat → user_byte ms s (ptr + Z.of_nat i) = bs !! i.
Proof.
  intros [_ _ Hl Hloc _] Hb. assert (length bs = Z.to_nat len) as Hlen.
  { apply (f_equal length) in Hb. by rewrite !length_fmap, Hl in Hb. }
  split; [done|]. intros i Hi. destruct (lookup_lt_is_Some_2 (buffer_locs v) i) as [l Hli]; [lia|].
  pose proof (proj1 (Hloc i l) Hli) as [_ Hp]. unfold user_byte. rewrite Hp. simpl.
  apply (f_equal (.!! i)) in Hb. rewrite !list_lookup_fmap, Hli in Hb. simpl in Hb.
  destruct (bs !! i) eqn:He; simpl in Hb; [congruence|]. apply lookup_ge_None in He. lia.
Qed.

(** ** References to user memory *)
Lemma slice_locs_split p a b c : a ≤ b ≤ c → slice_locs (p, a, c) = slice_locs (p, a, b) ++ slice_locs (p, b, c).
Proof.
  intros H. simpl. replace (c - a) with ((b - a) + (c - b)) by lia. rewrite seqZ_app by lia. rewrite fmap_app.
  do 3 f_equal. lia.
Qed.
Lemma NoDup_slice_locs sl : NoDup (slice_locs sl).
Proof. destruct sl as [[p a] b]. simpl. apply NoDup_fmap; [by intros ?? [= ->]|apply NoDup_seqZ]. Qed.
Lemma phys_addr_split f o : 0 ≤ o < PAGE_SIZE → floor (f * PAGE_SIZE + o) = f ∧ page_offset (f * PAGE_SIZE + o) = o.
Proof. intros H. rewrite page_offset_mod. unfold floor, PAGE_SIZE in *. split; dlia. Qed.

(** A value stored inside a page. *)
Lemma phys_put_spec f o bs s :
  slice_ok (mem s) (f, o, o + Z.of_nat (length bs)) → Forall is_byte bs →
  ∃ m', phys_put (f * PAGE_SIZE + o) bs s = Ok ((), mkMem (fa s) m') ∧
    bytes_put (mem s) m' (slice_locs (f, o, o + Z.of_nat (length bs))) bs.
Proof.
  revert o s. induction bs as [|b bs IH]; intros o s Hok Hb.
  { destruct Hok as (? & _). simpl in *. lia. }
  apply Forall_cons in Hb as [Hb Hbs]. destruct Hok as (Ho & He & pg & Hpg & Hpok).
  destruct (phys_addr_split f o) as [Hf Hof]; [lia|]. cbn [phys_put]. rewrite Hf, Hof. rewrite length_cons in *.
  destruct (write_slice_put f o PAGE_SIZE [b] s) as (m1 & Hr & _); [|by apply Forall_singleton|simpl; lia|].
  { split; [lia|]. split; [lia|]. eauto. }
  assert (bytes_put (mem s) m1 (slice_locs (f, o, o + 1)) [b]) as Hp1.
  { destruct (write_slice_put f o (o + 1) [b] s) as (m1' & Hr' & Hp); [|by apply Forall_singleton|simpl; lia|].
    - split; [lia|]. split; [lia|]. eauto.
    - unfold write_slice in Hr, Hr'. rewrite Hpg in Hr, Hr'. simpl in Hr, Hr'.
      rewrite (proj2 (Z.leb_le _ _)) in Hr by lia. rewrite (proj2 (Z.leb_le _ _)) in Hr' by lia. congruence. }
  rewrite (M_bind_Ok _ _ _ _ _ Hr). rewrite <- Z.add_assoc. destruct bs as [|b' bs].
  { exists m1. split; [done|]. simpl. replace (o + Z.of_nat 1) with (o + 1) by lia. done. }
  destruct (IH (o + 1) (mkMem (fa s) m1)) as (m2 & Hr2 & Hp2); [|done|].
  { eapply slice_ok_put; [exact Hp1|]. split; [simpl in *; lia|]. split; [simpl in *; lia|]. eauto. }
  exists m2. split; [exact Hr2|].
  rewrite (slice_locs_split f o (o + 1)) by (simpl; lia).
  replace (o + Z.of_nat (S (length (b' :: bs)))) with (o + 1 + Z.of_nat (length (b' :: bs))) by lia.
  apply (bytes_put_app _ m1 _ _ _ [b]); [done|done| | |].
  - rewrite length_slice_locs. simpl. lia.
  - rewrite <- slice_locs_split by (simpl; lia). apply NoDup_slice_locs.
  - apply Forall_forall. intros l. simpl. rewrite list_elem_of_fmap. intros (x & -> & Hx%elem_of_seqZ). simpl. lia.
Qed.
Lemma phys_get_spec f o n s :
  slice_ok (mem s) (f, o, o + Z.of_nat n) →
  ∃ bs, phys_get n (f * PAGE_SIZE + o) s = Ok (bs, s) ∧ length bs = n ∧
    byte_at (mem s) <$> slice_locs (f, o, o + Z.of_nat n) = Some <$> bs.
Proof.
  revert o. induction n as [|n IH]; intros o Hok; [destruct Hok as (? & _); lia|].
  destruct Hok as (Ho & He & pg & Hpg & Hpok). destruct (phys_addr_split f o) as [Hf Hof]; [lia|].
  cbn [phys_get]. rewrite Hf, Hof.
  destruct (read_slice_spec f o (o + 1) s) as (b & Hr & Hlen & _ & _ & Hb).
  { split; [lia|]. split; [lia|]. eauto. }
  rewrite (M_bind_Ok _ _ _ _ _ Hr). rewrite <- Z.add_assoc. destruct n as [|n].
  { exists b. cbn [phys_get]. rewrite (M_bind_Ok _ _ s [] s eq_refl), app_nil_r. split; [done|]. split; [lia|].
    by replace (o + Z.of_nat 1) with (o + 1) by lia. }
  destruct (IH (o + 1)) as (bs & Hr2 & Hl2 & Hb2).
  { split; [lia|]. split; [lia|]. eauto. }
  exists (b ++ bs). rewrite (M_bind_Ok _ _ _ _ _ Hr2). split; [done|]. rewrite length_app. split; [lia|].
  rewrite (slice_locs_split f o (o + 1)) by lia. rewrite !fmap_app, Hb, <- Hb2. by replace (o + Z.of_nat (S (S n))) with (o + 1 + Z.of_nat (S n)) by lia.
Qed.

(** A user value that does not cross a page. *)
Definition in_page (ptr len : Z) : Prop := 0 < len ∧ page_offset ptr + len ≤ PAGE_SIZE.

Lemma user_ref l0 ms s ptr len :
  space_ok l0 ms s → in_areas ms ptr len → in_page ptr len →
  ∃ f, translated_ref (ms_token ms) ptr s = Ok (f * PAGE_SIZE + page_offset ptr, s) ∧
    user_slices l0 ms s ptr len [(f, page_offset ptr, page_offset ptr + len)].
Proof.
  intros Hsp Hin [Hl Hpo]. pose proof Hin as (Hp & _ & Hend & Hmap).
  destruct (Hmap ptr) as (a & Ha & Hpa); [lia|].
  destruct (owned_loc l0 ms s ptr a Hsp Ha Hpa) as (f & pg & Hd & Hpl & Hnf & Hpg & Hok & Hal).
  pose proof (sp_pt _ _ _ Hsp) as [Hfa Hwf _].
  assert (root_ppn (from_token (ms_token ms)) = root_ppn (page_table ms)) as Hroot.
  { apply token_roundtrip. by destruct (ptwf_page _ _ _ Hwf _ (ptwf_root _ _ _ Hwf)). }
  assert (0 ≤ page_offset ptr < PAGE_SIZE) as Hpo' by (rewrite page_offset_mod; by apply Z.mod_pos_bound).
  assert (0 ≤ f < 2 ^ 44) as Hf by (eapply is_allocated_range; [apply (sp_pt _ _ _ Hsp)|done]).
  exists f. split.
  - unfold translated_ref, translate_va. rewrite virt_addr_id by lia. unfold phys_loc in Hpl.
    destruct (mapping (mem s) (root_ppn (page_table ms)) (floor ptr)) as [e|] eqn:He; [|done]. simpl in Hpl. injection Hpl as Hpe.
    rewrite <- Hroot in Hwf, He. unfold mbind, M_bind.
    rewrite (translate_mapping (frames (page_table ms)) _ s _ e); [|done|unfold floor, PAGE_SIZE; dlia|done].
    simpl. rewrite Hpe, addr_of_page_eq by lia. rewrite u64_id by (unfold is_u64, PAGE_SIZE in *; lia).
    unfold phys_addr. rewrite (land_mask _ 56) by lia. rewrite Z.mod_small by (unfold PAGE_SIZE in *; lia). done.
  - assert (∀ i, 0 ≤ i < len → floor (ptr + i) = floor ptr ∧ page_offset (ptr + i) = page_offset ptr + i) as Hfl.
    { intros i Hi. rewrite !page_offset_mod in *. unfold floor, PAGE_SIZE in *. split; dlia. }
    assert (buffer_locs [(f, page_offset ptr, page_offset ptr + len)] = slice_locs (f, page_offset ptr, page_offset ptr + len)) as Hb.
    { by rewrite buffer_locs_cons, app_nil_r. }
    split; rewrite ?Hb.
    + repeat constructor; try lia. eauto.
    + apply NoDup_slice_locs.
    + rewrite length_slice_locs. f_equal. lia.
    + intros i l. destruct (decide (i < Z.to_nat len)%nat) as [Hi|Hi].
      * rewrite slice_locs_lookup by lia. unfold phys_loc in *. destruct (Hfl (Z.of_nat i)) as [-> ->]; [lia|].
        destruct (mapping _ _ _) as [e|]; [|done]. simpl in *. injection Hpl as ->. naive_solver.
      * rewrite lookup_ge_None_2 by (rewrite length_slice_locs; lia). naive_solver.
    + intros l. simpl. rewrite list_elem_of_fmap. intros (x & -> & Hx%elem_of_seqZ). simpl. split; [lia|done].
Qed.

(** [*ptr = v] and [*ptr] for a value of [n] bytes. *)
Lemma write_user_spec l0 ms s n ptr v :
  space_ok l0 ms s → in_areas ms ptr (Z.of_nat n) → in_page ptr (Z.of_nat n) →
  ∃ s', write_user n (ms_token ms) ptr v s = Ok ((), s') ∧ fa s' = fa s ∧ space_ok l0 ms s' ∧
    (∀ i, (i < n)%nat → user_byte ms s' (ptr + Z.of_nat i) = le_enc n v !! i) ∧
    (∀ va a, a ∈ areas ms → floor va ∈ pages_of a → ¬ (ptr ≤ va < ptr + Z.of_nat n) → user_byte ms s' va = user_byte ms s va).
Proof.
  intros Hsp Hin Hpage. destruct (user_ref l0 ms s ptr (Z.of_nat n) Hsp Hin Hpage) as (f & Hr & Hus).
  destruct (phys_put_spec f (page_offset ptr) (le_enc n v) s) as (m' & Hput & Hbp); rewrite ?length_le_enc in *;
    [pose proof (us_ok _ _ _ _ _ _ Hus) as Hok; by apply Forall_cons in Hok as [? _]|apply le_enc_bytes|].
  exists (mkMem (fa s) m'). unfold write_user. rewrite (M_bind_Ok _ _ _ _ _ Hr). split; [done|]. split; [done|].
  assert (bytes_put (mem s) m' (buffer_locs [(f, page_offset ptr, page_offset ptr + Z.of_nat n)]) (le_enc n v)) as Hbp'
    by (by rewrite buffer_locs_cons, app_nil_r).
  split; [by eapply bytes_put_space|].
  pose proof (bytes_put_user l0 ms s ptr (Z.of_nat n) _ m' (le_enc n v) Hsp Hin Hus Hbp') as Hu. rewrite length_le_enc in Hu. apply Hu. lia.
Qed.
Lemma read_user_spec l0 ms s n ptr v :
  space_ok l0 ms s → in_areas ms ptr (Z.of_nat n) → in_page ptr (Z.of_nat n) → 0 ≤ v < 256 ^ Z.of_nat n →
  (∀ i, (i < n)%nat → user_byte ms s (ptr + Z.of_nat i) = le_enc n v !! i) →
  read_user n (ms_token ms) ptr s = Ok (v, s).
Proof.
  intros Hsp Hin Hpage Hv Hb. destruct (user_ref l0 ms s ptr (Z.of_nat n) Hsp Hin Hpage) as (f & Hr & Hus).
  destruct (phys_get_spec f (page_offset ptr) n s) as (bs & Hg & Hl & Hbs);
    [pose proof (us_ok _ _ _ _ _ _ Hus) as Hok; by apply Forall_cons in Hok as [? _]|].
  unfold read_user. rewrite (M_bind_Ok _ _ _ _ _ Hr), (M_bind_Ok _ _ _ _ _ Hg).
  assert (bs = le_enc n v) as ->; [|by rewrite le_dec_enc].
  destruct (user_bytes_read l0 ms s ptr (Z.of_nat n) _ bs Hus) as [_ Hbs']; [by rewrite buffer_locs_cons, app_nil_r|].
  apply list_eq. intros i. destruct (decide (i < n)%nat) as [Hi|Hi].
  - rewrite <- Hb by done. symmetry. apply Hbs'. lia.
  - rewrite !lookup_ge_None_2; [done|rewrite length_le_enc; lia|lia].
Qed.

(** A user buffer inside one page is one slice. *)
Lemma one_page_buffer l0 ms s ptr len fuel :
  space_ok l0 ms s → in_areas ms ptr len → in_page ptr len →
  ∃ f, translated_byte_buffer (2 + fuel) (ms_token ms) ptr len s = Ok ([(f, page_offset ptr, page_offset ptr + len)], s) ∧
    user_slices l0 ms s ptr len [(f, page_offset ptr, page_offset ptr + len)].
Proof.
  intros Hsp Hin Hpage. destruct (user_ref l0 ms s ptr len Hsp Hin Hpage) as (f & _ & Hus). exists f. split; [|done].
  destruct Hpage as [Hl Hpo]. pose proof Hin as (Hp & _ & Hend & _).
  pose proof (sp_pt _ _ _ Hsp) as [_ Hwf _].
  assert (root_ppn (from_token (ms_token ms)) = root_ppn (page_table ms)) as Hroot.
  { apply token_roundtrip. by destruct (ptwf_page _ _ _ Hwf _ (ptwf_root _ _ _ Hwf)). }
  assert (∃ e, mapping (mem s) (root_ppn (page_table ms)) (floor ptr) = Some e ∧ pte_ppn e = f) as (e & He & Hef).
  { pose proof (us_loc _ _ _ _ _ _ Hus 0%nat (f, page_offset ptr)) as [Hloc _].
    destruct Hloc as [_ Hloc].
    - rewrite buffer_locs_cons, lookup_app_l by (rewrite length_slice_locs; lia). rewrite slice_locs_lookup by lia. do 2 f_equal. lia.
    - unfold phys_loc in Hloc. rewrite Z.add_0_r in Hloc. destruct (mapping _ _ _) as [e|]; [|done]. simpl in Hloc. injection Hloc. eauto. }
  assert (0 ≤ floor ptr < 2 ^ 27) as Hfl by (unfold floor, PAGE_SIZE; dlia).
  unfold translated_byte_buffer. rewrite u64_id by (unfold is_u64; lia).
  change (2 + fuel)%nat with (S (S fuel)). cbn [translated_byte_buffer_loop].
  rewrite (proj2 (Z.ltb_lt ptr (ptr + len))) by lia. rewrite !virt_addr_id by lia. unfold mbind, M_bind.
  rewrite (translate_mapping (frames (page_table ms)) _ s _ e) by (rewrite ?Hroot; done). cbn [lift unwrap].
  assert (step (floor ptr) = floor ptr + 1) as -> by (apply u64_id; unfold is_u64; lia).
  rewrite addr_of_page_eq, Hef by lia.
  assert (Z.min ((floor ptr + 1) * PAGE_SIZE) (ptr + len) = ptr + len) as ->.
  { pose proof (floor_split ptr). unfold PAGE_SIZE in *. lia. }
  rewrite Z.ltb_irrefl.
  assert ((if page_offset (ptr + len) =? 0 then (f, page_offset ptr, PAGE_SIZE) else (f, page_offset ptr, page_offset (ptr + len)))
    = (f, page_offset ptr, page_offset ptr + len)) as ->.
  { rewrite !page_offset_mod in *. unfold PAGE_SIZE in *. case_match eqn:E; [apply Z.eqb_eq in E|apply Z.eqb_neq in E]; f_equal; dlia. }
  cbn [fst snd]. by rewrite (proj2 (Z.leb_le _ _)) by lia.
Qed.
