(* ===== verification/Net.v ===== *)
(** * Network sockets (os/src/net: port_table.rs, socket.rs, tcp.rs, udp.rs,
      mod.rs; os/src/syscall/net.rs)

    The packets and their encodings belong to the lose-net-stack package and are
    the class [NetLib]; the frames the device will receive are a list.  The file
    models the two tables, the interrupt handler, reads and writes of sockets,
    and connect, listen and accept.  Payloads reach the socket of their address
    in order, and a connection that is asked for is accepted. *)
From S2P Require Import Prelude Bytes Address FrameAllocator PageTable UserMem.

(** ** Packets *)
Record TCPPacket := mkTCP {
  t_source_ip : Z; t_source_mac : Z; t_source_port : Z; t_dest_ip : Z; t_dest_mac : Z; t_dest_port : Z;
  t_data_len : Z; t_seq : Z; t_ack : Z; t_flags : Z; t_win : Z; t_urg : Z; t_data : list Z;
}.
Record UDPPacket := mkUDP {
  u_source_ip : Z; u_source_mac : Z; u_source_port : Z; u_dest_ip : Z; u_dest_mac : Z; u_dest_port : Z;
  u_data_len : Z; u_data : list Z;
}.
(** An ARP request is the frame that answers it, if there is one. *)
Inductive Packet := PARP (reply : option (list Z)) | PUDP (p : UDPPacket) | PTCP (p : TCPPacket) | POther.

(** What is used of lose-net-stack. *)
Class NetLib := {
  analysis : list Z → Packet;
  tcp_ack : TCPPacket → TCPPacket;
  tcp_build_data : TCPPacket → list Z;
  udp_build_data : UDPPacket → list Z;
  FLAG_S : Z;
  FLAG_A : Z;
  FLAG_F : Z;
  stack_ip : Z;
  stack_mac : Z;
}.
Definition set_flags (fl : Z) (p : TCPPacket) : TCPPacket :=
  mkTCP (t_source_ip p) (t_source_mac p) (t_source_port p) (t_dest_ip p) (t_dest_mac p) (t_dest_port p)
    (t_data_len p) (t_seq p) (t_ack p) fl (t_win p) (t_urg p) (t_data p).
Definition BROADCAST_MAC : Z := 0xffffffffffff.

(** ** Tables *)
Record Port := mkPort { port : Z; receivable : bool; schedule : option Z }.
Record socket := mkSock { raddr : Z; lport : Z; rport : Z; buffers : list (list Z); sq : Z; ak : Z }.

(** The files of the network. *)
Inductive nfile :=
| FTCP (target sport dport seq ack : Z) (sock_idx : nat)
| FUDP (target sport dport : Z) (sock_idx : nat)
| FPort (idx : nat)
| FOther.

(** User memory, the two tables, the frames to come and those sent, the
    descriptors of each process, the process of each thread, and the register
    [a0] each thread will return with. *)
Record nstate := mkN {
  nmem : kmem;
  listen_table : list (option Port);
  socket_table : list (option socket);
  rx : list (list Z);
  tx : list (list Z);
  fds : gmap Z (list (option nfile));
  owner : gmap Z Z;
  x10 : gmap Z Z;
}.
Definition set_nmem k s := mkN k (listen_table s) (socket_table s) (rx s) (tx s) (fds s) (owner s) (x10 s).
Definition set_listen l s := mkN (nmem s) l (socket_table s) (rx s) (tx s) (fds s) (owner s) (x10 s).
Definition set_socks l s := mkN (nmem s) (listen_table s) l (rx s) (tx s) (fds s) (owner s) (x10 s).
Definition set_rx l s := mkN (nmem s) (listen_table s) (socket_table s) l (tx s) (fds s) (owner s) (x10 s).
Definition set_tx l s := mkN (nmem s) (listen_table s) (socket_table s) (rx s) l (fds s) (owner s) (x10 s).
Definition set_nfds t s := mkN (nmem s) (listen_table s) (socket_table s) (rx s) (tx s) t (owner s) (x10 s).
Definition set_x10 r s := mkN (nmem s) (listen_table s) (socket_table s) (rx s) (tx s) (fds s) (owner s) r.

Definition n_gets {A} (f : nstate → A) : M nstate A := λ s, Ok (f s, s).
Definition n_modify (f : nstate → nstate) : M nstate () := λ s, Ok ((), f s).
Definition n_mem {A} (c : M kmem A) : M nstate A := λ s,
  match c (nmem s) with Ok (a, k) => Ok (a, set_nmem k s) | Err e => Err e end.

(** The first free slot of a table, or one more. *)
Definition place_in {A} (x : A) (l : list (option A)) : nat * list (option A) :=
  match list_find (λ o, ¬ is_Some o) l with
  | Some (pos, _) => (pos, <[pos := Some x]> l)
  | None => (length l, l ++ [Some x])
  end.
(** A slot that is in use; an index past the end panics. *)
Definition slot {A} (l : list (option A)) (idx : nat) : outcome (option A) := unwrap (l !! idx).

(** *** port_table.rs *)
Definition listen (p : Z) : M nstate nat := λ s,
  let '(pos, l) := place_in (mkPort p true None) (listen_table s) in Ok (pos, set_listen l s).
Definition accept (listen_idx : nat) (task : Z) : M nstate () :=
  n_gets listen_table ≫= λ l, lift (slot l listen_idx) ≫= λ o, lift (unwrap o) ≫= λ p,
  n_modify (set_listen (<[listen_idx := Some (mkPort (port p) true (Some task))]> l)).
Definition port_acceptable (listen_idx : nat) : M nstate bool :=
  n_gets listen_table ≫= λ l, lift (slot l listen_idx) ≫= λ o,
  mret (match o with Some p => receivable p | None => false end).
Definition port_fd_drop (idx : nat) : M nstate () :=
  n_gets listen_table ≫= λ l, lift (slot l idx) ≫= λ _, n_modify (set_listen (<[idx := None]> l)).

(** *** socket.rs *)
Definition get_sa_by_index (idx : nat) : M nstate (option (Z * Z)) :=
  n_gets socket_table ≫= λ l, lift (slot l idx) ≫= λ o, mret ((λ y, (sq y, ak y)) <$> o).
Definition set_sa_by_index (idx : nat) (seq ack : Z) : M nstate () :=
  n_gets socket_table ≫= λ l, lift (slot l idx) ≫= λ o, lift (unwrap o) ≫= λ y,
  n_modify (set_socks (<[idx := Some (mkSock (raddr y) (lport y) (rport y) (buffers y) seq ack)]> l)).
Definition has_addr (ra lp rp : Z) (o : option socket) : Prop :=
  match o with Some y => raddr y = ra ∧ lport y = lp ∧ rport y = rp | None => False end.
#[global] Instance has_addr_dec ra lp rp o : Decision (has_addr ra lp rp o).
Proof. destruct o; simpl; apply _. Defined.
Definition get_socket (ra lp rp : Z) : M nstate (option nat) :=
  n_gets (λ s, fst <$> list_find (has_addr ra lp rp) (socket_table s)).
Definition place_socket (y : socket) : M nstate nat := λ s,
  let '(pos, l) := place_in y (socket_table s) in Ok (pos, set_socks l s).
Definition add_socket (ra lp rp : Z) : M nstate (option nat) :=
  get_socket ra lp rp ≫= λ o : option nat,
  match o with
  | Some _ => mret None
  | None => place_socket (mkSock ra lp rp [] 0 0) ≫= λ pos, mret (Some pos)
  end.
Definition remove_socket (idx : nat) : M nstate () :=
  n_gets socket_table ≫= λ l, lift (slot l idx) ≫= λ _, n_modify (set_socks (<[idx := None]> l)).
Definition push_data (idx : nat) (data : list Z) : M nstate () :=
  n_gets socket_table ≫= λ l, lift (slot l idx) ≫= λ o, lift (unwrap o) ≫= λ y,
  n_modify (set_socks (<[idx := Some (mkSock (raddr y) (lport y) (rport y) (buffers y ++ [data]) (sq y) (ak y))]> l)).
Definition pop_data (idx : nat) : M nstate (option (list Z)) :=
  n_gets socket_table ≫= λ l, lift (slot l idx) ≫= λ o, lift (unwrap o) ≫= λ y,
  match buffers y with
  | [] => mret None
  | data :: rest =>
      n_modify (set_socks (<[idx := Some (mkSock (raddr y) (lport y) (rport y) rest (sq y) (ak y))]> l)) ≫= λ _, mret (Some data)
  end.

Section net.
Context {NL : NetLib}.

(** *** tcp.rs, udp.rs: opening *)
Definition tcp_new (target sport dport seq ack : Z) : M nstate nfile :=
  add_socket target sport dport ≫= λ o, lift (unwrap o) ≫= λ idx, mret (FTCP target sport dport seq ack idx).
Definition udp_new (target sport dport : Z) : M nstate nfile :=
  add_socket target sport dport ≫= λ o, lift (unwrap o) ≫= λ idx, mret (FUDP target sport dport idx).
(** [Drop] *)
Definition drop_nfile (f : nfile) : M nstate () :=
  match f with
  | FTCP _ _ _ _ _ idx | FUDP _ _ _ idx => remove_socket idx
  | FPort idx => port_fd_drop idx
  | FOther => mret ()
  end.

(** Installing a file at the lowest free descriptor of a process. *)
Definition n_install (pid : Z) (f : nfile) : M nstate nat :=
  n_gets fds ≫= λ t, lift (unwrap (t !! pid)) ≫= λ table,
  let '(fd, table') := place_in f table in
  n_modify (set_nfds (<[pid := table']> t)) ≫= λ _, mret fd.

(** *** Accepting *)
Definition accept_connection (p : TCPPacket) (task : Z) : M nstate () :=
  n_gets owner ≫= λ ow, lift (unwrap (ow !! task)) ≫= λ pid,
  tcp_new (t_source_ip p) (t_dest_port p) (t_source_port p) (t_seq p) (t_ack p) ≫= λ f,
  n_install pid f ≫= λ fd,
  n_modify (λ s, set_x10 (<[task := Z.of_nat fd]> (x10 s)) s).

Definition wants (p : Z) (o : option Port) : Prop :=
  match o with Some v => port v = p ∧ receivable v = true | None => False end.
#[local] Instance wants_dec p o : Decision (wants p o).
Proof. destruct o; simpl; apply _. Defined.
Definition check_accept (p : Z) (packet : TCPPacket) : M nstate (option ()) :=
  n_gets listen_table ≫= λ l,
  match list_find (wants p) l with
  | Some (i, Some v) =>
      match schedule v with
      | Some task =>
          n_modify (set_listen (<[i := Some (mkPort (port v) false None)]> l)) ≫= λ _,
          accept_connection packet task ≫= λ _, mret (Some ())
      | None => mret None
      end
  | _ => mret None
  end.

(** *** The interrupt handler *)
Definition transmit (data : list Z) : M nstate () := n_modify (λ s, set_tx (tx s ++ [data]) s).
(** [receive] waits for the next frame.  A frame of [rx] is what the driver's
    [recv] leaves in the 1024-byte buffer of the handler, [recv_buf[..len]]. *)
Definition receive : M nstate (list Z) :=
  n_gets rx ≫= λ l,
  match l with
  | [] => lift (Err Diverged)
  | frame :: rest => n_modify (set_rx rest) ≫= λ _, mret frame
  end.

Definition deliver (ra lp rp : Z) (data : list Z) (sa : option (Z * Z)) : M nstate () :=
  get_socket ra lp rp ≫= λ o : option nat,
  match o with
  | Some idx =>
      push_data idx data ≫= λ _,
      match sa with Some (seq, ack) => set_sa_by_index idx seq ack | None => mret () end
  | None => mret ()
  end.
Definition handle_tcp (p : TCPPacket) : M nstate () :=
  let target := t_source_ip p in
  let lp := t_dest_port p in
  let rp := t_source_port p in
  if flags_contain (t_flags p) FLAG_S then
    check_accept lp p ≫= λ o,
    match o with
    | Some _ => transmit (tcp_build_data (set_flags (Z.lor FLAG_S FLAG_A) (tcp_ack p)))
    | None => mret ()
    end
  else if flags_contain (t_flags p) FLAG_F then
    let reply := tcp_ack p in
    transmit (tcp_build_data reply) ≫= λ _,
    let end_packet := tcp_ack reply in
    transmit (tcp_build_data (set_flags (Z.lor (t_flags end_packet) FLAG_F) end_packet)) ≫= λ _,
    deliver target lp rp (t_data p) (Some (t_seq p, t_ack p))
  else if flags_contain (t_flags p) FLAG_A && (t_data_len p =? 0) then mret ()
  else deliver target lp rp (t_data p) (Some (t_seq p, t_ack p)).
Definition handle_packet (p : Packet) : M nstate () :=
  match p with
  | PARP reply => lift (unwrap reply) ≫= λ data, transmit data
  | PUDP p => deliver (u_source_ip p) (u_dest_port p) (u_source_port p) (u_data p) None
  | PTCP p => handle_tcp p
  | POther => mret ()
  end.
Definition net_interrupt_handler : M nstate () := receive ≫= λ frame, handle_packet (analysis frame).

(** *** Reading and writing *)
Fixpoint copy_out (data : list Z) (copied : nat) (bufs : list uslice) : M kmem nat :=
  match bufs with
  | [] => mret copied
  | (p, a, b) :: rest =>
      let to_copy := (Z.to_nat (b - a) `min` (length data - copied))%nat in
      write_slice (p, a, b) (slice copied to_copy data) ≫= λ _,
      let copied := (copied + to_copy)%nat in
      if (copied =? length data)%nat then mret copied else copy_out data copied rest
  end.
(** Each turn of the loop takes a payload or waits for a frame. *)
Fixpoint socket_read (fuel : nat) (idx : nat) (bufs : list uslice) : M nstate nat :=
  match fuel with
  | O => lift (Err Diverged)
  | S fuel' =>
      pop_data idx ≫= λ o,
      match o with
      | Some data => n_mem (copy_out data 0 bufs)
      | None => net_interrupt_handler ≫= λ _, socket_read fuel' idx bufs
      end
  end.
Fixpoint gather (bufs : list uslice) : M kmem (list Z) :=
  match bufs with
  | [] => mret []
  | sl :: rest => read_slice sl ≫= λ b, gather rest ≫= λ bs, mret (b ++ bs)
  end.
Definition tcp_write (target sport dport : Z) (idx : nat) (bufs : list uslice) : M nstate Z :=
  n_mem (gather bufs) ≫= λ data,
  let total := Z.of_nat (length data) in
  get_sa_by_index idx ≫= λ o,
  let '(ack, seq) := default (0, 0) o in
  transmit (tcp_build_data (mkTCP stack_ip stack_mac sport target BROADCAST_MAC dport total seq ack FLAG_A 65535 0 data)) ≫= λ _,
  mret total.
Definition udp_write (target sport dport : Z) (bufs : list uslice) : M nstate Z :=
  n_mem (gather bufs) ≫= λ data,
  let total := Z.of_nat (length data) in
  transmit (udp_build_data (mkUDP stack_ip stack_mac sport target BROADCAST_MAC dport total data)) ≫= λ _, mret total.

(** *** System calls *)
Definition sys_connect (pid ra lp rp : Z) : M nstate Z :=
  udp_new ra lp rp ≫= λ f, n_install pid f ≫= λ fd, mret (Z.of_nat fd).
Definition sys_listen (pid p : Z) : M nstate Z :=
  listen p ≫= λ port_idx, n_install pid (FPort port_idx) ≫= λ _, mret (Z.of_nat port_idx).
Fixpoint accept_loop (fuel : nat) (port_idx : nat) : M nstate () :=
  match fuel with
  | O => lift (Err Diverged)
  | S fuel' =>
      net_interrupt_handler ≫= λ _, port_acceptable port_idx ≫= λ b : bool,
      if b then accept_loop fuel' port_idx else mret ()
  end.
Definition sys_accept (fuel : nat) (task : Z) (port_idx : nat) : M nstate Z :=
  accept port_idx task ≫= λ _, accept_loop fuel port_idx ≫= λ _,
  n_gets (λ s, x10 s !! task) ≫= λ o, lift (unwrap o).
End net.

(** ** Tables *)
Section tables.
Context {A : Type}.
Implicit Types (l : list (option A)) (x : A).

Lemma place_in_spec x l pos l' :
  place_in x l = (pos, l') →
  l' !! pos = Some (Some x) ∧ (∀ y, l !! pos ≠ Some (Some y)) ∧
  (∀ i y, i ≠ pos → (l' !! i = Some (Some y) ↔ l !! i = Some (Some y))) ∧ (∀ i, (i < pos)%nat → ∃ y, l !! i = Some (Some y)) ∧
  (∀ i o, i ≠ pos → l !! i = Some o → l' !! i = Some o).
Proof.
  unfold place_in. destruct (list_find _ l) as [[p o]|] eqn:Hf; intros [= <- <-].
  - apply list_find_Some in Hf as (Hp & Hn & Hlow). apply lookup_lt_Some in Hp as Hlt. split_and!.
    + by apply list_lookup_insert_eq.
    + intros y Hy. rewrite Hp in Hy. injection Hy as ->. by destruct Hn.
    + intros i y Hi. by rewrite list_lookup_insert_ne.
    + intros i Hi. destruct (lookup_lt_is_Some_2 l i) as [[y|] Hy]; [lia|by exists y|]. exfalso. apply (Hlow i None Hy Hi). by intros [].
    + intros i o' Hi Hio. by rewrite list_lookup_insert_ne.
  - apply list_find_None in Hf. split_and!.
    + rewrite lookup_app_r, Nat.sub_diag by done. done.
    + intros y Hy%lookup_lt_Some. lia.
    + intros i y Hi. destruct (decide (i < length l)%nat); [by rewrite lookup_app_l|].
      split; intros Hy%lookup_lt_Some; [rewrite length_app in Hy; simpl in Hy; lia|lia].
    + intros i Hi. destruct (lookup_lt_is_Some_2 l i) as [[y|] Hy]; [done|by exists y|].
      exfalso. apply (Forall_lookup_1 _ _ _ _ Hf Hy). by intros [].
    + intros i o Hi Hio. apply lookup_lt_Some in Hio as Hlt. by rewrite lookup_app_l.
Qed.
End tables.

Definition sock_key (y : socket) : Z * Z * Z := (raddr y, lport y, rport y).
(** No two sockets have one address. *)
Definition socks_unique (l : list (option socket)) : Prop :=
  ∀ i j y z, l !! i = Some (Some y) → l !! j = Some (Some z) → sock_key y = sock_key z → i = j.

Lemma has_addr_key ra lp rp y : has_addr ra lp rp (Some y) ↔ sock_key y = (ra, lp, rp).
Proof. unfold sock_key. simpl. split; [by intros (-> & -> & ->)|by intros [= -> -> ->]]. Qed.

(** What a payload does to a socket, and to the table. *)
Definition pushed (data : list Z) (sa : option (Z * Z)) (y : socket) : socket :=
  mkSock (raddr y) (lport y) (rport y) (buffers y ++ [data]) (default (sq y) (fst <$> sa)) (default (ak y) (snd <$> sa)).
Definition deliver_to (k : Z * Z * Z) (data : list Z) (sa : option (Z * Z)) (o : option socket) : option socket :=
  (λ y, if decide (sock_key y = k) then pushed data sa y else y) <$> o.

Lemma deliver_to_other k data sa (l : list (option socket)) (idx : nat) :
  (∀ i y, l !! i = Some (Some y) → sock_key y = k → i = idx) →
  deliver_to k data sa <$> l = <[idx := deliver_to k data sa (default None (l !! idx))]> l.
Proof.
  intros Hk. apply list_eq. intros i. rewrite list_lookup_fmap. destruct (decide (i = idx)) as [->|Hne].
  - destruct (l !! idx) as [o|] eqn:Hi; simpl.
    + apply lookup_lt_Some in Hi. by rewrite list_lookup_insert_eq.
    + rewrite list_insert_ge; [done|by apply lookup_ge_None_1].
  - rewrite list_lookup_insert_ne by done. destruct (l !! i) as [[y|]|] eqn:Hi; simpl; [|done..].
    rewrite decide_False; [done|]. intros Hy. by destruct (Hne (Hk i y Hi Hy)).
Qed.

Lemma deliver_run {NL : NetLib} ra lp rp data sa s :
  socks_unique (socket_table s) →
  deliver ra lp rp data sa s = Ok ((), set_socks (deliver_to (ra, lp, rp) data sa <$> socket_table s) s).
Proof.
  intros Hu. unfold deliver, get_socket. rewrite (M_bind_Ok _ _ _ _ _ eq_refl).
  destruct (list_find _ (socket_table s)) as [[idx o]|] eqn:Hf; cbn [fmap option_fmap option_map fst].
  - apply list_find_Some in Hf as (Hidx & Ha & _). destruct o as [y|]; [|done]. apply has_addr_key in Ha.
    rewrite (deliver_to_other _ _ _ _ idx).
    2: { intros i z Hi Hz. apply (Hu i idx z y); [done|done|congruence]. }
    rewrite Hidx. change (default None (Some (Some y))) with (Some y).
    assert (deliver_to (ra, lp, rp) data sa (Some y) = Some (pushed data sa y)) as -> by (simpl; by rewrite decide_True).
    unfold push_data. rewrite (M_bind_Ok _ _ s () (set_socks (<[idx := Some (pushed data None y)]> (socket_table s)) s)).
    2: { rewrite (M_bind_Ok _ _ _ _ _ eq_refl). unfold slot. rewrite Hidx. done. }
    destruct sa as [[seq ack]|]; [|done]. unfold set_sa_by_index. rewrite (M_bind_Ok _ _ _ _ _ eq_refl). unfold slot.
    cbn [socket_table set_socks]. apply lookup_lt_Some in Hidx. rewrite list_lookup_insert_eq by done.
    rewrite !(M_bind_Ok _ _ _ _ _ eq_refl). unfold n_modify. by rewrite list_insert_insert_eq.
  - apply list_find_None in Hf. assert (deliver_to (ra, lp, rp) data sa <$> socket_table s = socket_table s) as ->; [|by destruct s].
    rewrite <- (list_fmap_id (socket_table s)) at 2. apply list_fmap_ext. intros i [y|] Hi; [|done]. simpl.
    rewrite decide_False; [done|]. intros Hy. apply (Forall_lookup_1 _ _ _ _ Hf Hi). by apply has_addr_key.
Qed.

Lemma deliver_to_key k data sa o y : deliver_to k data sa o = Some y → ∃ z, o = Some z ∧ sock_key z = sock_key y.
Proof. destruct o as [z|]; simpl; [|done]. intros [= <-]. exists z. split; [done|]. by destruct (decide _). Qed.

Lemma deliver_unique k data sa l : socks_unique l → socks_unique (deliver_to k data sa <$> l).
Proof.
  intros Hu i j y z. rewrite !list_lookup_fmap. intros (o & Hi & Ho)%fmap_Some (o' & Hj & Ho')%fmap_Some Hk.
  symmetry in Ho, Ho'. apply deliver_to_key in Ho as (y' & -> & Hy). apply deliver_to_key in Ho' as (z' & -> & Hz).
  apply (Hu i j y' z'); [done|done|congruence].
Qed.

(** A new socket takes a free slot and an address of its own. *)
Lemma add_socket_inv ra lp rp s o s' :
  add_socket ra lp rp s = Ok (o, s') → socks_unique (socket_table s) →
  match o with
  | None => s' = s
  | Some pos => ∃ l, s' = set_socks l s ∧ socks_unique l ∧ l !! pos = Some (Some (mkSock ra lp rp [] 0 0)) ∧
      ∀ i y, socket_table s !! i = Some (Some y) → l !! i = Some (Some y)
  end.
Proof.
  unfold add_socket, get_socket. rewrite (M_bind_Ok _ _ _ _ _ eq_refl).
  destruct (list_find _ (socket_table s)) as [[idx o']|] eqn:Hf; cbn [fmap option_fmap option_map fst]; [by intros [= <- <-]|].
  unfold place_socket, mbind, M_bind. destruct (place_in _ (socket_table s)) as [pos l] eqn:Hp. intros [= <- <-] Hu.
  destruct (place_in_spec _ _ _ _ Hp) as (Hpos & Hfree & Hoth & _). apply list_find_None in Hf. exists l.
  assert (∀ i y, socket_table s !! i = Some (Some y) → l !! i = Some (Some y)) as Hkeep.
  { intros i y Hi. apply Hoth; [|done]. intros ->. by destruct (Hfree y). }
  split_and!; [done| |done|done].
  assert (∀ i y, l !! i = Some (Some y) → sock_key y = (ra, lp, rp) → i = pos) as Honly.
  { intros i y Hi Hk. destruct (decide (i = pos)) as [|Hne]; [done|]. apply Hoth in Hi; [|done].
    exfalso. apply (Forall_lookup_1 _ _ _ _ Hf Hi). by apply has_addr_key. }
  intros i j y z Hi Hj Hk. destruct (decide (i = pos)) as [->|Hni].
  { rewrite Hpos in Hi. injection Hi as <-. symmetry. by apply (Honly j z). }
  destruct (decide (j = pos)) as [->|Hnj].
  { rewrite Hpos in Hj. injection Hj as <-. by apply (Honly i y). }
  apply Hoth in Hi; [|done]. apply Hoth in Hj; [|done]. by eapply Hu.
Qed.

(** ** Delivery in order *)
Section delivery.
Context {NL : NetLib}.

(** The address and payload a frame carries to a socket. *)
Definition payload (frame : list Z) : option (Z * Z * Z * list Z) :=
  match analysis frame with
  | PUDP p => Some ((u_source_ip p, u_dest_port p, u_source_port p), u_data p)
  | PTCP p =>
      if flags_contain (t_flags p) FLAG_S then None
      else if negb (flags_contain (t_flags p) FLAG_F) && flags_contain (t_flags p) FLAG_A && (t_data_len p =? 0) then None
      else Some ((t_source_ip p, t_dest_port p, t_source_port p), t_data p)
  | _ => None
  end.
Definition payload_for (k : Z * Z * Z) (frame : list Z) : list (list Z) :=
  match payload frame with Some (k', data) => if decide (k' = k) then [data] else [] | None => [] end.

(** What a step may do to the sockets: keep those that are there. *)
Record keeps (s s' : nstate) : Prop := {
  kp_unique : socks_unique (socket_table s) → socks_unique (socket_table s');
  kp_live : socks_unique (socket_table s) → ∀ i y, socket_table s !! i = Some (Some y) → socket_table s' !! i = Some (Some y);
  kp_rx : rx s' = rx s;
}.
Lemma keeps_refl s : keeps s s.
Proof. by split. Qed.
Lemma keeps_trans s1 s2 s3 : keeps s1 s2 → keeps s2 s3 → keeps s1 s3.
Proof. intros [A1 B1 C1] [A2 B2 C2]. split; [auto|auto|congruence]. Qed.
Lemma keeps_same s s' : socket_table s' = socket_table s → rx s' = rx s → keeps s s'.
Proof. intros H1 H2. split; rewrite ?H1; done. Qed.

Lemma add_socket_keeps ra lp rp s o s' : add_socket ra lp rp s = Ok (o, s') → keeps s s'.
Proof.
  intros H. assert (rx s' = rx s) as Hrx.
  { unfold add_socket, get_socket in H. rewrite (M_bind_Ok _ _ _ _ _ eq_refl) in H.
    destruct (list_find _ _) as [[? ?]|]; cbn in H; [by injection H as <- <-|].
    unfold place_socket, mbind, M_bind in H. destruct (place_in _ _). by injection H as <- <-. }
  split; [..|done]; intros Hu; pose proof (add_socket_inv _ _ _ _ _ _ H Hu) as Hi;
    destruct o as [pos|]; [|by subst s'| |by subst s']; destruct Hi as (l & -> & Hul & _ & Hkeep); done.
Qed.

Lemma n_install_inv pid f s fd s' :
  n_install pid f s = Ok (fd, s') → ∃ t, s' = set_nfds t s.
Proof.
  unfold n_install. intros H. apply bind_inv in H as (t & s1 & [= <- <-] & H).
  apply bind_inv in H as (tb & s1 & [H1 ->]%lift_inv & H). destruct (place_in f tb) as [x y].
  apply bind_inv in H as ([] & s2 & [= <-] & H). injection H as <- <-. eauto.
Qed.

Lemma tcp_new_inv a b c d e s f s' : tcp_new a b c d e s = Ok (f, s') → keeps s s'.
Proof.
  unfold tcp_new. intros H. apply bind_inv in H as (o & s1 & Ha & H).
  apply bind_inv in H as (i & s2 & [_ ->]%lift_inv & H). injection H as _ <-. by eapply add_socket_keeps.
Qed.

Lemma check_accept_keeps p pkt s o s' : check_accept p pkt s = Ok (o, s') → keeps s s'.
Proof.
  unfold check_accept. rewrite (M_bind_Ok _ _ _ _ _ eq_refl). destruct (list_find _ _) as [[i [v|]]|];
    [|by intros [= <- <-]; apply keeps_refl..].
  destruct (schedule v) as [task|]; [|intros [= <- <-]; apply keeps_refl].
  rewrite (M_bind_Ok _ _ _ _ _ eq_refl). intros H. apply bind_inv in H as ([] & s1 & H & [= <- <-]).
  unfold accept_connection in H. apply bind_inv in H as (ow & s2 & [= <- <-] & H).
  apply bind_inv in H as (pid & s2 & [_ ->]%lift_inv & H). apply bind_inv in H as (f & s3 & Hnew & H).
  apply bind_inv in H as (fd & s4 & [t ->]%n_install_inv & [= <-]).
  apply tcp_new_inv in Hnew. eapply keeps_trans; [|eapply keeps_trans; [exact Hnew|]]; by apply keeps_same.
Qed.

(** A frame is taken from the device, and its payload queued at its socket. *)
Lemma handler_delivers s s' :
  net_interrupt_handler s = Ok ((), s') → socks_unique (socket_table s) →
  ∃ frame, rx s = frame :: rx s' ∧ socks_unique (socket_table s') ∧
    ∀ i y, socket_table s !! i = Some (Some y) →
      ∃ y', socket_table s' !! i = Some (Some y') ∧ sock_key y' = sock_key y ∧
        buffers y' = buffers y ++ payload_for (sock_key y) frame.
Proof.
  intros H Hu. unfold net_interrupt_handler, receive in H. apply bind_inv in H as (frame & s1 & Hrx & H).
  apply bind_inv in Hrx as (l & s2 & [= <- <-] & Hrx). destruct (rx s) as [|fr rest] eqn:Er; [done|]. injection Hrx as <- <-.
  exists fr. set (s1 := set_rx rest s) in *.
  assert (∀ s2, keeps s1 s2 → s' = s2 → payload fr = None → fr :: rest = fr :: rx s' ∧ socks_unique (socket_table s') ∧
    ∀ i y, socket_table s !! i = Some (Some y) → ∃ y', socket_table s' !! i = Some (Some y') ∧ sock_key y' = sock_key y ∧
      buffers y' = buffers y ++ payload_for (sock_key y) fr) as Hnone.
  { intros s2 [K1 K2 K3] -> Hp. rewrite K3. split_and!; [done|by apply K1|]. intros i y Hi. exists y. split; [by apply K2|].
    unfold payload_for. by rewrite Hp, app_nil_r. }
  assert (∀ k data sa, socket_table s' = deliver_to k data sa <$> socket_table s1 → rx s' = rx s1 → payload fr = Some (k, data) →
    fr :: rest = fr :: rx s' ∧ socks_unique (socket_table s') ∧
    ∀ i y, socket_table s !! i = Some (Some y) → ∃ y', socket_table s' !! i = Some (Some y') ∧ sock_key y' = sock_key y ∧
      buffers y' = buffers y ++ payload_for (sock_key y) fr) as Hdel.
  { intros k data sa -> -> Hp. split_and!; [done|by apply deliver_unique|]. intros i y Hi.
    exists (if decide (sock_key y = k) then pushed data sa y else y). rewrite list_lookup_fmap.
    change (socket_table s1) with (socket_table s). rewrite Hi. simpl. split; [done|]. unfold payload_for. rewrite Hp.
    destruct (decide (sock_key y = k)) as [<-|Hne]; [by rewrite decide_True|]. rewrite (decide_False (P := k = sock_key y)) by congruence.
    by rewrite app_nil_r. }
  destruct (analysis fr) as [reply|p|p|] eqn:Ea; cbn [handle_packet] in H.
  - apply bind_inv in H as (data & s2 & [_ ->]%lift_inv & [= <-]). eapply Hnone; [|done|]; [by apply keeps_same|].
    unfold payload. by rewrite Ea.
  - rewrite deliver_run in H by done. injection H as <-. eapply Hdel; [done|done|]. unfold payload. by rewrite Ea.
  - unfold handle_tcp in H. destruct (flags_contain (t_flags p) FLAG_S) eqn:ES.
    { apply bind_inv in H as (o & s2 & Hc%check_accept_keeps & H). eapply (Hnone s'); [|done|unfold payload; by rewrite Ea, ES].
      eapply keeps_trans; [exact Hc|]. destruct o; injection H as <-; by apply keeps_same. }
    destruct (flags_contain (t_flags p) FLAG_F) eqn:EF.
    { do 2 rewrite (M_bind_Ok _ _ _ _ _ eq_refl) in H. rewrite deliver_run in H by done. injection H as <-.
      eapply Hdel; [done|done|]. unfold payload. by rewrite Ea, ES, EF. }
    destruct (flags_contain (t_flags p) FLAG_A && (t_data_len p =? 0)) eqn:EA.
    { injection H as <-. eapply Hnone; [|done|]; [apply keeps_refl|]. unfold payload. rewrite Ea, ES, EF. cbn [negb andb]. by rewrite EA. }
    rewrite deliver_run in H by done. injection H as <-. eapply Hdel; [done|done|]. unfold payload. rewrite Ea, ES, EF. cbn [negb andb]. by rewrite EA.
  - injection H as <-. eapply Hnone; [|done|]; [apply keeps_refl|]. unfold payload. by rewrite Ea.
Qed.

(** Everything that reaches the sockets. *)
Inductive nact :=
| AFrame
| ARead (idx : nat)
| AConnect (pid ra lp rp : Z)
| AListen (pid p : Z)
| AAccept (idx : nat) (task : Z)
| ADrop (f : nfile).
Definition run_act (a : nact) : M nstate (option (list Z)) :=
  match a with
  | AFrame => net_interrupt_handler ≫= λ _, mret None
  | ARead idx => pop_data idx
  | AConnect pid ra lp rp => sys_connect pid ra lp rp ≫= λ _, mret None
  | AListen pid p => sys_listen pid p ≫= λ _, mret None
  | AAccept idx task => accept idx task ≫= λ _, mret None
  | ADrop f => drop_nfile f ≫= λ _, mret None
  end.
(** A run, with the payloads that were read from each socket. *)
Fixpoint run_acts (acts : list nact) : M nstate (list (nat * list Z)) :=
  match acts with
  | [] => mret []
  | a :: rest =>
      run_act a ≫= λ o, run_acts rest ≫= λ log,
      mret (match a, o with ARead idx, Some data => (idx, data) :: log | _, _ => log end)
  end.
Definition reads (idx : nat) (log : list (nat * list Z)) : list (list Z) := snd <$> filter (λ e, e.1 = idx) log.
Definition drops (idx : nat) (a : nact) : Prop :=
  match a with ADrop (FTCP _ _ _ _ _ i) | ADrop (FUDP _ _ _ i) => i = idx | _ => False end.

Lemma pop_inv i s o s' :
  pop_data i s = Ok (o, s') → ∃ y, socket_table s !! i = Some (Some y) ∧
    match buffers y with
    | [] => o = None ∧ s' = s
    | data :: more => o = Some data ∧
        s' = set_socks (<[i := Some (mkSock (raddr y) (lport y) (rport y) more (sq y) (ak y))]> (socket_table s)) s
    end.
Proof.
  unfold pop_data. rewrite (M_bind_Ok _ _ _ _ _ eq_refl). intros H. apply bind_inv in H as (x & s1 & [Hx ->]%lift_inv & H).
  apply bind_inv in H as (y & s1 & [Hy ->]%lift_inv & H). unfold slot in Hx. destruct (socket_table s !! i) as [z|] eqn:Hi; [|done].
  injection Hx as <-. destruct z as [y'|]; [|done]. injection Hy as ->. exists y. split; [done|].
  destruct (buffers y); by injection H as <- <-.
Qed.

Lemma insert_unique l i y z :
  socks_unique l → l !! i = Some (Some y) → sock_key z = sock_key y → socks_unique (<[i := Some z]> l).
Proof.
  intros Hu Hi Hk. assert (∀ j w, <[i := Some z]> l !! j = Some (Some w) → ∃ w', l !! j = Some (Some w') ∧ sock_key w' = sock_key w) as Hold.
  { intros j w. destruct (decide (j = i)) as [->|]; [|rewrite list_lookup_insert_ne by done; eauto].
    apply lookup_lt_Some in Hi as Hlt. rewrite list_lookup_insert_eq by done. intros [= <-]. eauto. }
  intros j k w w' (v & Hv & Kv)%Hold (v' & Hv' & Kv')%Hold Hkk. apply (Hu j k v v'); [done|done|congruence].
Qed.

Lemma remove_inv i s s' :
  remove_socket i s = Ok ((), s') → s' = set_socks (<[i := None]> (socket_table s)) s.
Proof.
  unfold remove_socket. rewrite (M_bind_Ok _ _ _ _ _ eq_refl). intros H. apply bind_inv in H as (x & s1 & [_ ->]%lift_inv & H).
  by injection H as <-.
Qed.

(** One action, seen from a socket it does not drop. *)
Lemma act_delivers a s o s' idx y :
  run_act a s = Ok (o, s') → socks_unique (socket_table s) → socket_table s !! idx = Some (Some y) → ¬ drops idx a →
  ∃ frames y', rx s = frames ++ rx s' ∧ socks_unique (socket_table s') ∧ socket_table s' !! idx = Some (Some y') ∧
    sock_key y' = sock_key y ∧
    buffers y ++ (frames ≫= payload_for (sock_key y)) =
      (match a, o with ARead i, Some data => if decide (i = idx) then [data] else [] | _, _ => [] end) ++ buffers y'.
Proof.
  intros H Hu Hy Hd. assert (∀ s2, keeps s s2 → s' = s2 → (∀ i, a ≠ ARead i) → ∃ frames y', rx s = frames ++ rx s' ∧
    socks_unique (socket_table s') ∧ socket_table s' !! idx = Some (Some y') ∧ sock_key y' = sock_key y ∧
    buffers y ++ (frames ≫= payload_for (sock_key y)) =
      (match a, o with ARead i, Some data => if decide (i = idx) then [data] else [] | _, _ => [] end) ++ buffers y') as Hkeep.
  { intros s2 [K1 K2 K3] -> Ha. exists [], y. rewrite K3. split_and!; [done|by apply K1|by apply K2|done|]. rewrite app_nil_r.
    destruct a, o; try done. by destruct (Ha idx0). }
  destruct a as [|i|pid ra lp rp|pid p|i task|f]; cbn [run_act] in H.
  - apply bind_inv in H as ([] & s1 & H & [= <- <-]). destruct (handler_delivers _ _ H Hu) as (frame & Hrx & Hu' & Hl).
    destruct (Hl idx y Hy) as (y' & Hy' & Hk & Hb). exists [frame], y'. split_and!; try done. simpl. by rewrite app_nil_r, Hb.
  - apply pop_inv in H as (z & Hz & H). exists []. destruct (buffers z) as [|data more] eqn:Eb; destruct H as [-> ->].
    { exists y. split_and!; try done. by rewrite app_nil_r. }
    cbn [socket_table set_socks rx]. destruct (decide (i = idx)) as [->|Hne].
    + rewrite Hy in Hz. injection Hz as <-. apply lookup_lt_Some in Hy as Hlt. eexists. rewrite list_lookup_insert_eq by done.
      split_and!; [done|by eapply insert_unique|done|done|]. simpl. by rewrite app_nil_r, Eb.
    + exists y. rewrite list_lookup_insert_ne by done. split_and!; [done|by eapply insert_unique|done|done|]. by rewrite app_nil_r.
  - apply bind_inv in H as (r & s1 & H & [= <- <-]). unfold sys_connect, udp_new in H.
    apply bind_inv in H as (f & s2 & H1 & H). apply bind_inv in H as (fd & s3 & [t ->]%n_install_inv & [= _ <-]).
    apply bind_inv in H1 as (x & s4 & H1%add_socket_keeps & H2). apply bind_inv in H2 as (y0 & s5 & [_ ->]%lift_inv & [= _ <-]).
    eapply Hkeep; [|done|done]. eapply keeps_trans; [exact H1|]. by apply keeps_same.
  - apply bind_inv in H as (r & s1 & H & [= <- <-]). unfold sys_listen in H. apply bind_inv in H as (x & s2 & H1 & H).
    apply bind_inv in H as (fd & s3 & [t ->]%n_install_inv & [= _ <-]). unfold listen in H1. destruct (place_in _ _) as [pos l].
    injection H1 as _ <-. eapply Hkeep; [|done|done]. by apply keeps_same.
  - apply bind_inv in H as ([] & s1 & H & [= <- <-]). unfold accept in H. apply bind_inv in H as (l & s2 & [= <- <-] & H).
    apply bind_inv in H as (x & s2 & [_ ->]%lift_inv & H). apply bind_inv in H as (z & s2 & [_ ->]%lift_inv & [= <-]).
    eapply Hkeep; [|done|done]. by apply keeps_same.
  - apply bind_inv in H as ([] & s1 & H & [= <- <-]).
    assert (∀ i, i ≠ idx → s1 = set_socks (<[i := None]> (socket_table s)) s → ∃ frames y', rx s = frames ++ rx s1 ∧
      socks_unique (socket_table s1) ∧ socket_table s1 !! idx = Some (Some y') ∧ sock_key y' = sock_key y ∧
      buffers y ++ (frames ≫= payload_for (sock_key y)) = [] ++ buffers y') as Hrm.
    { intros i Hi ->. exists [], y. cbn [socket_table set_socks rx]. rewrite list_lookup_insert_ne, app_nil_r by done.
      split_and!; try done. intros j k w w' Hw Hw'. apply list_lookup_insert_Some in Hw as [(_ & [=] & _)|[_ Hw]].
      apply list_lookup_insert_Some in Hw' as [(_ & [=] & _)|[_ Hw']]. by eapply Hu. }
    destruct f as [? ? ? ? ? i|? ? ? i|i|]; cbn [drop_nfile] in H; simpl in Hd.
    + apply remove_inv in H. by apply (Hrm i).
    + apply remove_inv in H. by apply (Hrm i).
    + unfold port_fd_drop in H. apply bind_inv in H as (l & s2 & [= <- <-] & H).
      apply bind_inv in H as (x & s2 & [_ ->]%lift_inv & [= <-]). eapply Hkeep; [|done|done]. by apply keeps_same.
    + injection H as <-. eapply Hkeep; [|done|done]. apply keeps_refl.
Qed.

Lemma run_acts_deliver acts s log s' idx y :
  run_acts acts s = Ok (log, s') → socks_unique (socket_table s) → socket_table s !! idx = Some (Some y) →
  Forall (λ a, ¬ drops idx a) acts →
  ∃ frames y', rx s = frames ++ rx s' ∧ socket_table s' !! idx = Some (Some y') ∧ sock_key y' = sock_key y ∧
    buffers y ++ (frames ≫= payload_for (sock_key y)) = reads idx log ++ buffers y'.
Proof.
  revert s log y. induction acts as [|a acts IH]; intros s log y H Hu Hy Hd.
  { injection H as <- <-. exists [], y. split_and!; try done. by rewrite app_nil_r. }
  apply Forall_cons in Hd as [Ha Hd]. cbn [run_acts] in H. apply bind_inv in H as (o & s1 & H1 & H).
  apply bind_inv in H as (log1 & s2 & H2 & [= <- <-]).
  destruct (act_delivers a s o s1 idx y H1 Hu Hy Ha) as (fr1 & y1 & Hrx1 & Hu1 & Hy1 & Hk1 & Hb1).
  destruct (IH s1 log1 y1 H2 Hu1 Hy1 Hd) as (fr2 & y2 & Hrx2 & Hy2 & Hk2 & Hb2).
  exists (fr1 ++ fr2), y2. split_and!; [by rewrite Hrx1, Hrx2, app_assoc|done|congruence|].
  rewrite bind_app, app_assoc, Hb1, <- app_assoc. rewrite Hk1 in Hb2. rewrite Hb2, app_assoc. f_equal.
  destruct a as [|i| | | |]; try done. destruct o as [data|]; [|done]. unfold reads.
  destruct (decide (i = idx)) as [->|Hne]; [by rewrite filter_cons_True|by rewrite filter_cons_False].
Qed.
End delivery.

(** C17 Delivery in order.  Whatever happens to the tables in between (other sockets
    opened, read and closed, ports listened on, connections accepted), the
    payloads read from an open socket, followed by those still queued, are
    exactly those that were queued at first followed by the payloads of the
    frames received for its address, in order, none lost and none repeated. *)
Theorem datagrams_in_order {NL : NetLib} acts s log s' idx y :
  run_acts acts s = Ok (log, s') → socks_unique (socket_table s) → socket_table s !! idx = Some (Some y) →
  Forall (λ a, ¬ drops idx a) acts →
  ∃ frames y', rx s = frames ++ rx s' ∧ socket_table s' !! idx = Some (Some y') ∧ sock_key y' = sock_key y ∧
    buffers y ++ (frames ≫= payload_for (sock_key y)) = reads idx log ++ buffers y'.
Proof. apply run_acts_deliver. Qed.

(** ** Reads and accepts come to an end *)
Section progress.
Context {NL : NetLib}.

(** A frame that asks for no connection. *)
Definition quiet (frame : list Z) : Prop :=
  match analysis frame with
  | PARP reply => is_Some reply
  | PTCP p => flags_contain (t_flags p) FLAG_S = false
  | _ => True
  end.

(** What such a frame leaves alone. *)
Record quiet_step (s s' : nstate) : Prop := {
  qs_mem : nmem s' = nmem s;
  qs_listen : listen_table s' = listen_table s;
  qs_fds : fds s' = fds s;
  qs_owner : owner s' = owner s;
  qs_keys : ∀ i, (fmap sock_key <$> socket_table s' !! i) = (fmap sock_key <$> socket_table s !! i);
  qs_tx : ∃ out, tx s' = tx s ++ out;
}.
Lemma quiet_step_refl s : quiet_step s s.
Proof. split; try done. exists []. by rewrite app_nil_r. Qed.
Lemma quiet_step_trans s1 s2 s3 : quiet_step s1 s2 → quiet_step s2 s3 → quiet_step s1 s3.
Proof.
  intros [A1 B1 C1 D1 E1 [o1 F1]] [A2 B2 C2 D2 E2 [o2 F2]]. split; try congruence.
  exists (o1 ++ o2). by rewrite F2, F1, app_assoc.
Qed.

Lemma deliver_keys k data sa (l : list (option socket)) (i : nat) :
  (fmap sock_key <$> (deliver_to k data sa <$> l) !! i) = (fmap (M := option) sock_key <$> l !! i).
Proof. rewrite list_lookup_fmap. destruct (l !! i) as [[y|]|]; simpl; [|done..]. by destruct (decide _). Qed.

Lemma handler_quiet s frame rest :
  rx s = frame :: rest → quiet frame → socks_unique (socket_table s) →
  ∃ s', net_interrupt_handler s = Ok ((), s') ∧ rx s' = rest ∧ quiet_step s s'.
Proof.
  intros Hrx Hq Hu. unfold net_interrupt_handler, receive. set (s1 := set_rx rest s).
  rewrite (M_bind_Ok _ _ s frame s1) by (rewrite (M_bind_Ok _ _ _ _ _ eq_refl), Hrx; done).
  assert (∀ ra lp rp data sa out s2, s2 = set_tx (tx s ++ out) s1 → ∃ s', deliver ra lp rp data sa s2 = Ok ((), s') ∧ rx s' = rest ∧ quiet_step s s') as Hdel.
  { intros ra lp rp data sa out s2 ->. eexists. rewrite deliver_run by done. split; [done|]. split; [done|].
    split; try done; [intros i; apply deliver_keys|by exists out]. }
  unfold quiet in Hq. destruct (analysis frame) as [reply|p|p|]; cbn [handle_packet].
  - destruct Hq as [data ->]. eexists. split; [done|]. split; [done|]. split; try done. by exists [data].
  - apply (Hdel _ _ _ _ _ []). unfold s1. by rewrite app_nil_r; destruct s.
  - unfold handle_tcp. rewrite Hq. destruct (flags_contain (t_flags p) FLAG_F).
    + do 2 rewrite (M_bind_Ok _ _ _ _ _ eq_refl). eapply (Hdel _ _ _ _ _ [_; _]). unfold n_modify, set_tx, s1. simpl. by rewrite <- app_assoc.
    + destruct (_ && _).
      * exists s1. split; [done|]. split; [done|]. split; try done. exists []. by rewrite app_nil_r.
      * apply (Hdel _ _ _ _ _ []). unfold s1. by rewrite app_nil_r; destruct s.
  - exists s1. split; [done|]. split; [done|]. split; try done. exists []. by rewrite app_nil_r.
Qed.

(** A connection request for a port nobody listens on is dropped. *)
Definition passes (l : list (option Port)) (frame : list Z) : Prop :=
  quiet frame ∨ ∃ pk, analysis frame = PTCP pk ∧ flags_contain (t_flags pk) FLAG_S = true ∧
    ∀ j w, l !! j = Some (Some w) → port w ≠ t_dest_port pk.
Lemma handler_passes s frame rest :
  rx s = frame :: rest → passes (listen_table s) frame → socks_unique (socket_table s) →
  ∃ s', net_interrupt_handler s = Ok ((), s') ∧ rx s' = rest ∧ quiet_step s s'.
Proof.
  intros Hrx [Hq|(pk & Ha & Hs & Hl)] Hu; [by apply (handler_quiet s frame)|].
  unfold net_interrupt_handler, receive. set (s1 := set_rx rest s).
  rewrite (M_bind_Ok _ _ s frame s1) by (rewrite (M_bind_Ok _ _ _ _ _ eq_refl), Hrx; done).
  rewrite Ha. cbn [handle_packet]. unfold handle_tcp. rewrite Hs. exists s1. split; [|split; [done|]].
  - unfold check_accept. rewrite (M_bind_Ok _ _ s1 None s1); [done|]. rewrite (M_bind_Ok _ _ _ _ _ eq_refl).
    destruct (list_find (wants (t_dest_port pk)) (listen_table s1)) as [[i [v|]]|] eqn:Hf; [|done..].
    apply list_find_Some in Hf as (Hi & [Hw _] & _). by destruct (Hl i v Hi).
  - split; try done. exists []. by rewrite app_nil_r.
Qed.

(** *** Reading *)
Lemma copy_out_spec data c bufs k :
  Forall (slice_ok (mem k)) bufs → NoDup (buffer_locs bufs) → Forall is_byte data → (c ≤ length data)%nat →
  let n := ((length data - c) `min` length (buffer_locs bufs))%nat in
  ∃ m', copy_out data c bufs k = Ok ((c + n)%nat, mkMem (fa k) m') ∧ bytes_put (mem k) m' (buffer_locs bufs) (slice c n data).
Proof.
  revert c k. induction bufs as [|[[p a] b] bufs IH]; intros c k Hok Hnd Hby Hc n.
  { exists (mem k). assert (n = 0%nat) as -> by (unfold n; simpl; lia). rewrite Nat.add_0_r. split; [by destruct k|apply bytes_put_nil]. }
  apply Forall_cons in Hok as [Hsl Hok]. rewrite buffer_locs_cons in *. pose proof Hnd as (_ & _ & Hnd2)%NoDup_app.
  set (w := Z.to_nat (b - a)). assert (length (slice_locs (p, a, b)) = w) as Hw by apply length_slice_locs.
  set (tc := (w `min` (length data - c))%nat). pose proof Hsl as ([Ha Hb] & _ & _).
  assert (length (slice c tc data) = tc) as Hlen by (unfold slice; rewrite length_take, length_drop; lia).
  destruct (write_slice_put p a b (slice c tc data) k Hsl) as (m1 & Hr1 & P1); [by apply Forall_slice|rewrite Hlen; unfold tc; lia|].
  cbn [copy_out]. fold w tc. rewrite (M_bind_Ok _ _ _ _ _ Hr1).
  assert (n = (length data - c) `min` (w + length (buffer_locs bufs)))%nat as Hn by (unfold n; by rewrite buffer_locs_cons, length_app, Hw).
  destruct (Nat.eqb_spec (c + tc) (length data)) as [He|He].
  - exists m1. assert (n = tc) as -> by lia. split; [done|]. apply bytes_put_more; [done|]. rewrite Hlen, Hw. unfold tc. lia.
  - assert (tc = w) as Htc by lia.
    destruct (IH (c + tc)%nat (mkMem (fa k) m1)) as (m2 & Hr2 & P2); [|done|done|lia|].
    { eapply Forall_impl; [exact Hok|]. intros sl. by apply (slice_ok_put _ _ _ _ _ P1). }
    rewrite Hr2. exists m2. cbn [fa mem] in *. split; [do 2 f_equal; lia|].
    replace n with (tc + (length data - (c + tc)) `min` length (buffer_locs bufs))%nat by lia. rewrite slice_app.
    apply (bytes_put_app _ m1); [done|done|rewrite Hlen, Hw; lia|done|].
    apply Forall_forall. intros l. simpl. rewrite list_elem_of_fmap. intros (o & -> & [Ho _]%elem_of_seqZ). simpl. lia.
Qed.

Lemma pop_run idx s y :
  socket_table s !! idx = Some (Some y) →
  pop_data idx s = match buffers y with
    | [] => Ok (None, s)
    | data :: more => Ok (Some data,
        set_socks (<[idx := Some (mkSock (raddr y) (lport y) (rport y) more (sq y) (ak y))]> (socket_table s)) s)
    end.
Proof.
  intros Hy. unfold pop_data. rewrite (M_bind_Ok _ _ _ _ _ eq_refl). unfold slot. rewrite Hy.
  rewrite !(M_bind_Ok _ _ _ _ _ eq_refl). by destruct (buffers y).
Qed.

(** Waiting for the frame that has the payload. *)
Lemma socket_read_waits idx bufs frames s y rest frame data fuel :
  socks_unique (socket_table s) → socket_table s !! idx = Some (Some y) → buffers y = [] →
  rx s = frames ++ frame :: rest → Forall (λ f, quiet f ∧ payload_for (sock_key y) f = []) frames →
  quiet frame → payload_for (sock_key y) frame = [data] →
  ∃ s1 y1, quiet_step s s1 ∧ rx s1 = rest ∧ socket_table s1 !! idx = Some (Some y1) ∧ buffers y1 = [data] ∧ sock_key y1 = sock_key y ∧
    socket_read (S (length frames) + fuel) idx bufs s = socket_read fuel idx bufs s1.
Proof.
  revert s y. induction frames as [|f frames IH]; intros s y Hu Hy Hb Hrx Hfr Hq Hp.
  all: assert (pop_data idx s = Ok (None, s)) as Hpop by (by rewrite (pop_run idx s y Hy), Hb).
  - destruct (handler_quiet s frame rest Hrx Hq Hu) as (s1 & Hr & Hrx1 & Hqs).
    destruct (handler_delivers _ _ Hr Hu) as (fr & Hfr' & _ & Hl). rewrite Hrx in Hfr'. injection Hfr' as <- _.
    destruct (Hl idx y Hy) as (y1 & Hy1 & Hk & Hb1). exists s1, y1. rewrite Hb, Hp in Hb1. split_and!; try done.
    cbn [length Nat.add socket_read]. by rewrite (M_bind_Ok _ _ _ _ _ Hpop), (M_bind_Ok _ _ _ _ _ Hr).
  - apply Forall_cons in Hfr as [[Hqf Hpf] Hfr]. simpl in Hrx.
    destruct (handler_quiet s f _ Hrx Hqf Hu) as (s1 & Hr & Hrx1 & Hqs).
    destruct (handler_delivers _ _ Hr Hu) as (fr & Hfr' & Hu1 & Hl). rewrite Hrx in Hfr'. injection Hfr' as <- _.
    destruct (Hl idx y Hy) as (y1 & Hy1 & Hk & Hb1). rewrite Hpf, Hb in Hb1.
    destruct (IH s1 y1) as (s2 & y2 & Q2 & H2 & H3 & H4 & H5 & H6); [done|done|done|done|by rewrite Hk|done|by rewrite Hk|].
    exists s2, y2. split_and!; [by eapply quiet_step_trans|done|done|done|congruence|].
    change (S (length (f :: frames)) + fuel)%nat with (S (S (length frames) + fuel)). cbn [socket_read].
    rewrite (M_bind_Ok _ _ _ _ _ Hpop), (M_bind_Ok _ _ _ _ _ Hr). exact H6.
Qed.

(** *** Accepting *)

(** Thread [task] of process [pid] can wait on entry [i] of the table. *)
Record can_accept (s : nstate) (i : nat) (task pid p : Z) (table : list (option nfile)) : Prop := {
  ca_port : ∃ v, listen_table s !! i = Some (Some v) ∧ port v = p;
  ca_first : ∀ j w, (j < i)%nat → listen_table s !! j = Some (Some w) → port w = p → receivable w = false;
  ca_owner : owner s !! task = Some pid;
  ca_fds : fds s !! pid = Some table;
}.
(** A request for a connection to port [p], from an address without a socket. *)
Definition asks (s : nstate) (p : Z) (frame : list Z) (pk : TCPPacket) : Prop :=
  analysis frame = PTCP pk ∧ flags_contain (t_flags pk) FLAG_S = true ∧ t_dest_port pk = p ∧
  ∀ i y, socket_table s !! i = Some (Some y) → sock_key y ≠ (t_source_ip pk, p, t_source_port pk).
(** What the caller has then: a connected file at its lowest free descriptor. *)
Definition connected (s s' : nstate) (i : nat) (pid : Z) (table : list (option nfile)) (pk : TCPPacket) (fd : nat) : Prop :=
  ∃ idx, let f := FTCP (t_source_ip pk) (t_dest_port pk) (t_source_port pk) (t_seq pk) (t_ack pk) idx in
    place_in f table = (fd, default [] (fds s' !! pid)) ∧ is_Some (fds s' !! pid) ∧
    socket_table s' !! idx = Some (Some (mkSock (t_source_ip pk) (t_dest_port pk) (t_source_port pk) [] 0 0)) ∧
    listen_table s' !! i = Some (Some (mkPort (t_dest_port pk) false None)) ∧
    ∃ out, tx s' = tx s ++ out ++ [tcp_build_data (set_flags (Z.lor FLAG_S FLAG_A) (tcp_ack pk))].

Lemma add_socket_run ra lp rp s :
  (∀ i y, socket_table s !! i = Some (Some y) → sock_key y ≠ (ra, lp, rp)) →
  ∃ pos l, add_socket ra lp rp s = Ok (Some pos, set_socks l s) ∧ l !! pos = Some (Some (mkSock ra lp rp [] 0 0)).
Proof.
  intros Hno. unfold add_socket, get_socket. rewrite (M_bind_Ok _ _ _ _ _ eq_refl).
  assert (list_find (has_addr ra lp rp) (socket_table s) = None) as ->.
  { apply list_find_None, Forall_lookup_2. intros i [y|] Hi; [|by intros []]. rewrite has_addr_key. by apply (Hno i). }
  cbn [fmap option_fmap option_map]. destruct (place_in (mkSock ra lp rp [] 0 0) (socket_table s)) as [pos l] eqn:Hp.
  exists pos, l. unfold place_socket, mbind, M_bind. rewrite Hp. split; [done|]. by apply place_in_spec in Hp as [? _].
Qed.

Lemma accept_frame s i task pid p table v frame pk rest :
  listen_table s !! i = Some (Some v) → port v = p → receivable v = true → schedule v = Some task →
  (∀ j w, (j < i)%nat → listen_table s !! j = Some (Some w) → port w = p → receivable w = false) →
  owner s !! task = Some pid → fds s !! pid = Some table → asks s p frame pk → rx s = frame :: rest →
  ∃ fd s', net_interrupt_handler s = Ok ((), s') ∧ rx s' = rest ∧ x10 s' !! task = Some (Z.of_nat fd) ∧
    connected s s' i pid table pk fd.
Proof.
  intros Hv Hp Hrec Hsch Hlow How Hfds (Ha & HS & Hport & Hno) Hrx.
  unfold net_interrupt_handler, receive. set (s1 := set_rx rest s).
  rewrite (M_bind_Ok _ _ s frame s1) by (rewrite (M_bind_Ok _ _ _ _ _ eq_refl), Hrx; done).
  rewrite Ha. cbn [handle_packet]. unfold handle_tcp. rewrite HS, Hport.
  unfold check_accept. set (s2 := set_listen (<[i := Some (mkPort p false None)]> (listen_table s)) s1).
  destruct (add_socket_run (t_source_ip pk) p (t_source_port pk) s2 Hno) as (idx & l & Hadd & Hsock).
  set (f := FTCP (t_source_ip pk) p (t_source_port pk) (t_seq pk) (t_ack pk) idx).
  destruct (place_in f table) as [fd table'] eqn:Hpl.
  set (s3 := set_nfds (<[pid := table']> (fds s)) (set_socks l s2)).
  set (s4 := set_x10 (<[task := Z.of_nat fd]> (x10 s)) s3).
  assert (accept_connection pk task s2 = Ok ((), s4)) as Hacc.
  { unfold accept_connection. rewrite (M_bind_Ok _ _ _ _ _ eq_refl). change (owner s2) with (owner s). rewrite How.
    rewrite (M_bind_Ok _ _ _ _ _ eq_refl). unfold tcp_new. rewrite Hport.
    rewrite (M_bind_Ok _ _ s2 f (set_socks l s2)) by (rewrite (M_bind_Ok _ _ _ _ _ Hadd); done).
    rewrite (M_bind_Ok _ _ _ fd s3); [done|]. unfold n_install. rewrite (M_bind_Ok _ _ _ _ _ eq_refl).
    change (fds (set_socks l s2)) with (fds s). rewrite Hfds, (M_bind_Ok _ _ _ _ _ eq_refl), Hpl. done. }
  rewrite (M_bind_Ok _ _ s1 (Some ()) s4).
  - eexists fd, _. split; [done|]. split; [done|]. split; [apply lookup_insert_eq|].
    exists idx. cbn [fds set_tx set_x10 s4 s3 set_nfds socket_table set_socks listen_table s2 set_listen tx]. rewrite Hport, lookup_insert_eq.
    split_and!; [done|eauto|done|by apply list_lookup_insert_eq; eapply lookup_lt_Some|by exists []].
  - rewrite (M_bind_Ok _ _ _ _ _ eq_refl). change (listen_table s1) with (listen_table s).
    assert (list_find (wants p) (listen_table s) = Some (i, Some v)) as ->.
    { apply list_find_Some. split; [done|]. split; [done|]. intros j [w|] Hj Hlt; [|by intros []]. intros [Hw Hr].
      by rewrite (Hlow j w Hlt Hj Hw) in Hr. }
    rewrite Hsch, Hp. rewrite (M_bind_Ok _ _ s1 () s2) by done. by rewrite (M_bind_Ok _ _ _ _ _ Hacc).
Qed.

Lemma accept_loop_ends frames s i task pid p table v frame pk rest fuel :
  listen_table s !! i = Some (Some v) → port v = p → receivable v = true → schedule v = Some task →
  (∀ j w, (j < i)%nat → listen_table s !! j = Some (Some w) → port w = p → receivable w = false) →
  owner s !! task = Some pid → fds s !! pid = Some table → asks s p frame pk → socks_unique (socket_table s) →
  rx s = frames ++ frame :: rest → Forall (passes (listen_table s)) frames → (length frames < fuel)%nat →
  ∃ fd s', accept_loop fuel i s = Ok ((), s') ∧ rx s' = rest ∧ x10 s' !! task = Some (Z.of_nat fd) ∧ connected s s' i pid table pk fd.
Proof.
  revert s fuel. induction frames as [|f frames IH]; intros s fuel Hv Hp Hrec Hsch Hlow How Hfds Hasks Hu Hrx Hq Hf.
  all: destruct fuel as [|fuel]; [simpl in Hf; lia|]; cbn [accept_loop].
  - destruct (accept_frame s i task pid p table v frame pk rest) as (fd & s' & Hr & Hrx' & Hx & Hc); try done.
    exists fd, s'. rewrite (M_bind_Ok _ _ _ _ _ Hr). split_and!; [|done|done|done].
    destruct Hc as (idx & _ & _ & _ & Hl & _). unfold port_acceptable. rewrite (M_bind_Ok _ _ s' false s'); [done|].
    rewrite (M_bind_Ok _ _ _ _ _ eq_refl). unfold slot. by rewrite Hl.
  - apply Forall_cons in Hq as [Hqf Hq]. destruct (handler_passes s f _ Hrx Hqf Hu) as (s1 & Hr & Hrx1 & [Q1 Q2 Q3 Q4 Q5 [out Q6]]).
    destruct (handler_delivers _ _ Hr Hu) as (_ & _ & Hu1 & _). rewrite (M_bind_Ok _ _ _ _ _ Hr).
    rewrite (M_bind_Ok _ _ s1 true s1).
    2: { unfold port_acceptable. rewrite (M_bind_Ok _ _ _ _ _ eq_refl). unfold slot. rewrite Q2, Hv.
         rewrite (M_bind_Ok _ _ _ _ _ eq_refl). by rewrite Hrec. }
    destruct (IH s1 fuel) as (fd & s' & Hl & Hrx' & Hx & idx & C1 & C2 & C3 & C4 & out' & C5);
      rewrite ?Q2, ?Q3, ?Q4; try done; [|simpl in Hf; lia|].
    + destruct Hasks as (A1 & A2 & A3 & A4). split_and!; try done. intros j y Hj Hk. specialize (Q5 j). rewrite Hj in Q5.
      destruct (socket_table s !! j) as [[z|]|] eqn:Hz; simplify_eq/=. apply (A4 j z Hz). unfold sock_key in *. congruence.
    + exists fd, s'. split_and!; [done..|]. exists idx. split_and!; try done. exists (out ++ out'). by rewrite C5, Q6, <- !app_assoc.
Qed.
End progress.

(** A read ends.  When a payload for an open socket with an empty queue is among
    the frames to come, after frames for others, [read] waits for it and
    returns: the bytes of the payload, up to the length of the buffer, are in
    user memory in order, and nothing else of memory changes. *)
Theorem socket_read_returns {NL : NetLib} idx bufs frames s y rest frame data fuel :
  socks_unique (socket_table s) → socket_table s !! idx = Some (Some y) → buffers y = [] →
  rx s = frames ++ frame :: rest → Forall (λ f, quiet f ∧ payload_for (sock_key y) f = []) frames →
  quiet frame → payload_for (sock_key y) frame = [data] → Forall is_byte data →
  Forall (slice_ok (mem (nmem s))) bufs → NoDup (buffer_locs bufs) → (S (length frames) < fuel)%nat →
  let n := (length data `min` length (buffer_locs bufs))%nat in
  ∃ s' m', socket_read fuel idx bufs s = Ok (n, s') ∧ rx s' = rest ∧ nmem s' = mkMem (fa (nmem s)) m' ∧
    bytes_put (mem (nmem s)) m' (buffer_locs bufs) (take n data).
Proof.
  intros Hu Hy Hb Hrx Hfr Hq Hp Hby Hok Hnd Hf n.
  replace fuel with (S (length frames) + S (fuel - S (S (length frames))))%nat by lia.
  destruct (socket_read_waits idx bufs frames s y rest frame data (S (fuel - S (S (length frames)))) Hu Hy Hb Hrx Hfr Hq Hp)
    as (s1 & y1 & Q & Hrx1 & Hy1 & Hb1 & _ & ->).
  cbn [socket_read]. pose proof (pop_run idx s1 y1 Hy1) as Hpop. rewrite Hb1 in Hpop.
  rewrite (M_bind_Ok _ _ _ _ _ Hpop). unfold n_mem. cbn [nmem set_socks]. rewrite (qs_mem _ _ Q).
  destruct (copy_out_spec data 0 bufs (nmem s)) as (m' & Hc & Hput); [done|done|done|lia|]. rewrite Nat.sub_0_r in Hc, Hput.
  rewrite Hc. eexists _, m'. split; [done|]. split; [done|]. split; [done|exact Hput].
Qed.


(** ** A small stack: frames are written out as lists of numbers *)
Module NetDemo.

Definition demo_analysis (f : list Z) : Packet :=
  match f with
  | 1 :: src :: dp :: sp :: data => PUDP (mkUDP src 0 sp 10 0 dp (Z.of_nat (length data)) data)
  | 2 :: src :: dp :: sp :: seq :: ack :: fl :: data => PTCP (mkTCP src 0 sp 10 0 dp (Z.of_nat (length data)) seq ack fl 0 0 data)
  | _ => POther
  end.
#[local] Instance demo_lib : NetLib := {
  analysis := demo_analysis;
  tcp_ack p := mkTCP (t_dest_ip p) 0 (t_dest_port p) (t_source_ip p) 0 (t_source_port p) 0 (t_ack p) (u32 (t_seq p + 1)) 16 0 0 [];
  tcp_build_data p := [2; t_source_ip p; t_dest_port p; t_source_port p; t_seq p; t_ack p; t_flags p] ++ t_data p;
  udp_build_data p := [1; u_source_ip p; u_dest_port p; u_source_port p] ++ u_data p;
  FLAG_S := 2; FLAG_A := 16; FLAG_F := 1; stack_ip := 10; stack_mac := 0;
}.

Definition udp1 : list Z := [1; 7; 80; 99; 11; 12; 13; 14].
Definition udp2 : list Z := [1; 7; 80; 99; 21].
Definition other : list Z := [1; 8; 80; 99; 31].
Definition syn : list Z := [2; 7; 80; 99; 5; 0; 2].
Definition ram : kmem := mkMem (mkFA 5 105 []) {[200 := zero_page]}.
Definition conn : socket := mkSock 7 80 99 [] 0 0.
Definition open_sock (frames : list (list Z)) : nstate :=
  mkN ram [] [Some conn] frames [] {[1 := [Some FOther; None]]} {[3 := 1]} ∅.
Definition listening (frames : list (list Z)) : nstate :=
  mkN ram [Some (mkPort 80 true None)] [] frames [] {[1 := [Some FOther; None]]} {[3 := 1]} ∅.

Lemma one_unique frames : socks_unique (socket_table (open_sock frames)).
Proof. intros [|i] [|j] y z Hi Hj _; done. Qed.

Lemma datagrams_in_order_witness :
  ∃ frames y', [udp1; other; udp2; udp1] = frames ++ [udp1] ∧ buffers y' = [[21]] ∧
    [] ++ (frames ≫= payload_for (7, 80, 99)) = [[11; 12; 13; 14]] ++ buffers y'.
Proof.
  set (acts := [AFrame; AFrame; AConnect 1 8 80 99; ARead 0; AFrame; ARead 1; ADrop (FUDP 8 80 99 1)]).
  set (s := open_sock [udp1; other; udp2; udp1]).
  destruct (run_acts acts s) as [[log s']|] eqn:Hrun; [|vm_compute in Hrun; discriminate Hrun].
  destruct (datagrams_in_order acts s log s' 0 conn Hrun (one_unique _) eq_refl) as (frames & y' & H1 & H2 & H3 & H4).
  - repeat apply Forall_cons_2; [..|apply Forall_nil_2]; simpl; auto.
  - exists frames, y'. vm_compute in Hrun. injection Hrun as <- <-. injection H2 as <-. split; [exact H1|]. split; [reflexivity|exact H4].
Defined.

Lemma ram_slice : slice_ok (mem ram) (200, 4092, 4096).
Proof.
  split; [lia|]. split; [unfold PAGE_SIZE; lia|]. exists zero_page. split; [reflexivity|].
  apply zero_page_ok.
Qed.

Lemma socket_read_returns_witness :
  ∃ s' m', socket_read 4 0 [(200, 4092, 4096)] (open_sock [other; udp1; udp2]) = Ok (4%nat, s') ∧ rx s' = [udp2] ∧
    nmem s' = mkMem (fa ram) m' ∧ bytes_put (mem ram) m' (buffer_locs [(200, 4092, 4096)]) [11; 12; 13; 14].
Proof.
  apply (socket_read_returns 0 [(200, 4092, 4096)] [other] (open_sock [other; udp1; udp2]) conn [udp2] udp1 [11; 12; 13; 14] 4).
  - apply one_unique.
  - reflexivity.
  - reflexivity.
  - reflexivity.
  - repeat constructor.
  - exact I.
  - reflexivity.
  - repeat constructor; lia.
  - apply Forall_singleton, ram_slice.
  - apply (bool_decide_unpack _). vm_compute. exact I.
  - simpl. lia.
Defined.

(** A request for port 81, which nobody listens on. *)
Definition closed : list Z := [2; 7; 81; 99; 5; 0; 2].

(** A request that is sent again while another thread waits on the port asks
    for a socket that exists, and panics the kernel. *)
Lemma repeated_request_panics :
  (sys_accept 2 3 0 ≫= λ _, sys_accept 2 3 0) (listening [syn; syn]) = Err Panicked.
Proof. vm_compute. reflexivity. Qed.

(** So does a second [connect] to the same address. *)
Lemma connect_twice_panics : (sys_connect 1 9 1 2 ≫= λ _, sys_connect 1 9 1 2) (listening []) = Err Panicked.
Proof. vm_compute. reflexivity. Qed.

(** With two listeners on a port, the first one hides the other: no request
    reaches the thread that waits on the second. *)
Lemma second_listener_starves :
  (sys_listen 1 80 ≫= λ i, sys_accept 4 3 (Z.to_nat i)) (listening [syn; syn; syn]) = Err Diverged.
Proof. vm_compute. reflexivity. Qed.

(** A read with a short buffer loses the rest of the payload. *)
Lemma short_read_loses_bytes :
  match (socket_read 3 0 [(200, 0, 2)] ≫= λ n, pop_data 0 ≫= λ o, mret (n, o)) (open_sock [udp1]) with
  | Ok (r, _) => r = (2%nat, None)
  | Err _ => False
  end.
Proof. vm_compute. reflexivity. Qed.
End NetDemo.
