(* ===== verification/Plic.v ===== *)
(** * The interrupt controller (os/src/drivers/plic.rs; device_init and irq_handler
      of os/src/boards/qemu.rs)

    The driver computes the address of each register of the controller and
    reads and writes it.  The registers it configures are a store of words; the
    claim register, whose reads have an effect in the device, is an argument of
    [irq_handler].  After [device_init] the kernel receives exactly the
    interrupts it has a handler for. *)
From S2P Require Import Prelude.

Definition VIRT_PLIC : Z := 0x0C000000.
Definition PLIC_SIZE : Z := 0x210000.

Inductive IntrTargetPriority := Machine | Supervisor.
#[global] Instance target_eq_dec : EqDecision IntrTargetPriority.
Proof. solve_decision. Defined.
Definition as_number (p : IntrTargetPriority) : Z := match p with Machine => 0 | Supervisor => 1 end.
Definition supported_number : Z := 2.

(** ** Addresses *)
Section plic.
Context (base_addr : Z).

Definition priority_ptr (intr_source_id : Z) : outcome Z :=
  _ ← assert ((0 <? intr_source_id) && (intr_source_id <=? 132)); Ok (u64 (base_addr + intr_source_id * 4)).
Definition hart_id_with_priority (hart_id : Z) (p : IntrTargetPriority) : Z := hart_id * supported_number + as_number p.
Definition enable_ptr (hart_id : Z) (p : IntrTargetPriority) (intr_source_id : Z) : Z * Z :=
  let id := hart_id_with_priority hart_id p in
  let '(reg_id, reg_shift) := (intr_source_id / 32, intr_source_id mod 32) in
  (u64 (base_addr + 0x2000 + 0x80 * id + 0x4 * reg_id), reg_shift).
Definition threshold_ptr_of_hart_with_priority (hart_id : Z) (p : IntrTargetPriority) : Z :=
  let id := hart_id_with_priority hart_id p in u64 (base_addr + 0x200000 + 0x1000 * id).
Definition claim_comp_ptr_of_hart_with_priority (hart_id : Z) (p : IntrTargetPriority) : Z :=
  let id := hart_id_with_priority hart_id p in u64 (base_addr + 0x200004 + 0x1000 * id).

(** ** Registers: words that read as zero until they are written *)
Abbreviation mmio := (gmap Z Z).
Definition word (m : mmio) (a : Z) : Z := default 0 (m !! a).
Definition read_volatile (a : Z) : M mmio Z := λ m, Ok (word m a, m).
Definition write_volatile (a v : Z) : M mmio () := λ m, Ok ((), <[a := u32 v]> m).

Definition set_priority (intr_source_id priority : Z) : M mmio () :=
  lift (assert (priority <? 8)) ≫= λ _, lift (priority_ptr intr_source_id) ≫= λ a, write_volatile a priority.
Definition get_priority (intr_source_id : Z) : M mmio Z :=
  lift (priority_ptr intr_source_id) ≫= λ a, read_volatile a ≫= λ v, mret (Z.land v 7).
Definition enable (hart_id : Z) (p : IntrTargetPriority) (intr_source_id : Z) : M mmio () :=
  let '(reg_ptr, shift) := enable_ptr hart_id p intr_source_id in
  read_volatile reg_ptr ≫= λ v, write_volatile reg_ptr (Z.lor v (Z.shiftl 1 shift)).
Definition disable (hart_id : Z) (p : IntrTargetPriority) (intr_source_id : Z) : M mmio () :=
  let '(reg_ptr, shift) := enable_ptr hart_id p intr_source_id in
  read_volatile reg_ptr ≫= λ v, write_volatile reg_ptr (Z.land v (Z.lxor (2 ^ 32 - 1) (Z.shiftl 1 shift))).
Definition set_threshold (hart_id : Z) (p : IntrTargetPriority) (threshold : Z) : M mmio () :=
  lift (assert (threshold <? 8)) ≫= λ _, write_volatile (threshold_ptr_of_hart_with_priority hart_id p) threshold.
Definition get_threshold (hart_id : Z) (p : IntrTargetPriority) : M mmio Z :=
  read_volatile (threshold_ptr_of_hart_with_priority hart_id p) ≫= λ v, mret (Z.land v 7).
End plic.

(** ** The board *)
Definition KEYBOARD_IRQ : Z := 5.
Definition BLOCK_IRQ : Z := 8.
Definition UART_IRQ : Z := 10.
Definition hart0 : Z := 0.

Fixpoint init_sources (srcs : list Z) : M (gmap Z Z) () :=
  match srcs with
  | [] => mret ()
  | intr_src_id :: rest =>
      enable VIRT_PLIC hart0 Supervisor intr_src_id ≫= λ _,
      set_priority VIRT_PLIC intr_src_id 1 ≫= λ _,
      init_sources rest
  end.
Definition device_init : M (gmap Z Z) () :=
  set_threshold VIRT_PLIC hart0 Supervisor 0 ≫= λ _,
  set_threshold VIRT_PLIC hart0 Machine 1 ≫= λ _,
  init_sources [KEYBOARD_IRQ; BLOCK_IRQ; UART_IRQ].

(** [claim] and [complete] access the claim register of the device; the three
    handlers are the devices'. *)
Section irq.
Context {S : Type} (claim : Z → M S Z) (complete : Z → Z → M S ()).
Context (keyboard_handle_irq block_handle_irq uart_handle_irq : M S ()).
Definition irq_handler : M S () :=
  let a := claim_comp_ptr_of_hart_with_priority VIRT_PLIC hart0 Supervisor in
  claim a ≫= λ intr_src_id,
  (if intr_src_id =? KEYBOARD_IRQ then keyboard_handle_irq
   else if intr_src_id =? BLOCK_IRQ then block_handle_irq
   else if intr_src_id =? UART_IRQ then uart_handle_irq
   else panic) ≫= λ _,
  complete a intr_src_id.
End irq.

(** ** Every register has a word of its own inside the device *)
Inductive plic_reg :=
| Priority (id : Z)
| Enable (hart : Z) (p : IntrTargetPriority) (word : Z)
| Threshold (hart : Z) (p : IntrTargetPriority)
| Claim (hart : Z) (p : IntrTargetPriority).
(** The sources 1 to 132, and eight harts: those the mapped window has room for. *)
Definition reg_ok (r : plic_reg) : Prop :=
  match r with
  | Priority id => 0 < id ≤ 132
  | Enable h _ w => 0 ≤ h < 8 ∧ 0 ≤ w ≤ 132 / 32
  | Threshold h _ | Claim h _ => 0 ≤ h < 8
  end.
Definition reg_addr (base : Z) (r : plic_reg) : outcome Z :=
  match r with
  | Priority id => priority_ptr base id
  | Enable h p w => Ok (enable_ptr base h p (32 * w)).1
  | Threshold h p => Ok (threshold_ptr_of_hart_with_priority base h p)
  | Claim h p => Ok (claim_comp_ptr_of_hart_with_priority base h p)
  end.
(** The offset of a register, as the manual of the device gives it. *)
Definition reg_offset (r : plic_reg) : Z :=
  match r with
  | Priority id => 4 * id
  | Enable h p w => 0x2000 + 0x80 * (2 * h + as_number p) + 4 * w
  | Threshold h p => 0x200000 + 0x1000 * (2 * h + as_number p)
  | Claim h p => 0x200004 + 0x1000 * (2 * h + as_number p)
  end.
Lemma as_number_range p : 0 ≤ as_number p ≤ 1.
Proof. destruct p; simpl; lia. Qed.
Lemma as_number_inj p q h k : 2 * h + as_number p = 2 * k + as_number q → p = q ∧ h = k.
Proof. destruct p, q; simpl; intros; split; done || lia. Qed.
Lemma reg_offset_range r : reg_ok r → 4 ≤ reg_offset r ∧ reg_offset r + 4 ≤ PLIC_SIZE ∧ reg_offset r mod 4 = 0.
Proof. destruct r as [id|h p w|h p|h p]; simpl; try pose proof (as_number_range p); unfold PLIC_SIZE; intros; split_and!; dlia. Qed.
Lemma reg_offset_inj r r' : reg_ok r → reg_ok r' → reg_offset r = reg_offset r' → r = r'.
Proof.
  destruct r as [id|h p w|h p|h p], r' as [id'|h' p' w'|h' p'|h' p']; simpl; try pose proof (as_number_range p);
    try pose proof (as_number_range p'); intros Hr Hr' He; try (exfalso; dlia).
  - f_equal. lia.
  - assert (2 * h + as_number p = 2 * h' + as_number p') as Hid by dlia. apply as_number_inj in Hid as [-> ->]. f_equal. lia.
  - assert (2 * h + as_number p = 2 * h' + as_number p') as Hid by lia. by apply as_number_inj in Hid as [-> ->].
  - assert (2 * h + as_number p = 2 * h' + as_number p') as Hid by lia. by apply as_number_inj in Hid as [-> ->].
Qed.
Lemma reg_addr_offset base r : 0 ≤ base → base + PLIC_SIZE < 2 ^ 64 → reg_ok r → reg_addr base r = Ok (base + reg_offset r).
Proof.
  intros Hb He Hr. pose proof (reg_offset_range r Hr) as (H1 & H2 & _).
  destruct r as [id|h p w|h p|h p]; cbn [reg_addr reg_offset reg_ok] in *;
    unfold priority_ptr, enable_ptr, threshold_ptr_of_hart_with_priority, claim_comp_ptr_of_hart_with_priority,
      hart_id_with_priority, supported_number; cbn [fst].
  - rewrite (proj2 (Z.ltb_lt 0 id)), (proj2 (Z.leb_le id 132)) by lia. cbn [andb assert mbind outcome_bind].
    rewrite u64_id by (unfold is_u64; lia). f_equal. lia.
  - rewrite u64_id; [f_equal; dlia|unfold is_u64; dlia].
  - rewrite u64_id; [f_equal; lia|unfold is_u64; lia].
  - rewrite u64_id; [f_equal; lia|unfold is_u64; lia].
Qed.

(** The registers of the controller.  For eight harts and sources 1 to 132 the
    addresses the driver computes are the documented ones: aligned words inside
    the window that is mapped for the device, and no two registers share one. *)
Theorem plic_registers_disjoint base r :
  0 ≤ base → base mod 4 = 0 → base + PLIC_SIZE < 2 ^ 64 → reg_ok r →
  reg_addr base r = Ok (base + reg_offset r) ∧ base ≤ base + reg_offset r ∧ base + reg_offset r + 4 ≤ base + PLIC_SIZE ∧
  (base + reg_offset r) mod 4 = 0 ∧
  ∀ r', reg_ok r' → reg_addr base r' = reg_addr base r → r' = r.
Proof.
  intros Hb Hal He Hr. pose proof (reg_offset_range r Hr) as (H1 & H2 & H3). rewrite reg_addr_offset by done.
  split_and!; [done|lia|lia|dlia|]. intros r' Hr' Ha. rewrite reg_addr_offset in Ha by done. injection Ha as Ha.
  apply reg_offset_inj; [done|done|lia].
Qed.

(** ** What the configuration means *)

(** Source [id] is enabled for a target, and above its threshold. *)
Definition enabled (m : gmap Z Z) (hart : Z) (p : IntrTargetPriority) (id : Z) : bool :=
  let '(a, k) := enable_ptr VIRT_PLIC hart p id in Z.testbit (word m a) k.
Definition prio (m : gmap Z Z) (id : Z) : Z := match priority_ptr VIRT_PLIC id with Ok a => word m a | Err _ => 0 end.
Definition delivers (m : gmap Z Z) (hart : Z) (p : IntrTargetPriority) (id : Z) : Prop :=
  enabled m hart p id = true ∧ word m (threshold_ptr_of_hart_with_priority VIRT_PLIC hart p) < prio m id.

Lemma word_insert m a v b : word (<[a := v]> m) b = if decide (b = a) then v else word m b.
Proof. unfold word. destruct (decide (b = a)) as [->|]; [by rewrite lookup_insert_eq|by rewrite lookup_insert_ne]. Qed.

(** [enable] sets one bit of one register. *)
Lemma enable_exact m hart p id hart' p' id' :
  0 ≤ hart < 8 → 0 < id ≤ 132 → 0 ≤ hart' < 8 → 0 < id' ≤ 132 → (∀ a, is_u32 (word m a)) →
  ∃ m', enable VIRT_PLIC hart p id m = Ok ((), m') ∧ (∀ a, is_u32 (word m' a)) ∧
    enabled m' hart' p' id' = enabled m hart' p' id' || bool_decide (hart' = hart ∧ p' = p ∧ id' = id).
Proof.
  intros Hh Hid Hh' Hid' Hm. unfold enable. destruct (enable_ptr VIRT_PLIC hart p id) as [a k] eqn:Ha.
  assert (0 ≤ k < 32) as Hk by (injection Ha as _ <-; apply Z.mod_pos_bound; lia).
  unfold mbind, M_bind, read_volatile, write_volatile. eexists. split; [done|].
  assert (is_u32 (Z.lor (word m a) (Z.shiftl 1 k))) as Hu.
  { unfold is_u32. split; [apply Z.lor_nonneg; split; [apply Hm|rewrite Z.shiftl_1_l; lia]|].
    apply lt_pow2_bits; [lia|apply Z.lor_nonneg; split; [apply Hm|rewrite Z.shiftl_1_l; lia]|].
    intros n Hn. rewrite Z.lor_spec, (bits_above (word m a) 32), Z.shiftl_1_l, Z.pow2_bits_eqb; [|lia|apply Hm|done].
    apply Z.eqb_neq. lia. }
  rewrite u32_id by done. split; [intros b; rewrite word_insert; by destruct (decide (b = a))|].
  unfold enabled. destruct (enable_ptr VIRT_PLIC hart' p' id') as [a' k'] eqn:Ha'.
  assert (0 ≤ k' < 32) as Hk' by (injection Ha' as _ <-; apply Z.mod_pos_bound; lia).
  rewrite word_insert. assert (a' = a ∧ k' = k ↔ hart' = hart ∧ p' = p ∧ id' = id) as Hiff.
  { split; [|intros (-> & -> & ->); rewrite Ha in Ha'; by injection Ha']. intros [-> ->].
    assert (reg_addr VIRT_PLIC (Enable hart p (id / 32)) = reg_addr VIRT_PLIC (Enable hart' p' (id' / 32))) as Heq.
    { simpl. injection Ha as Ha1 Ha2. injection Ha' as Ha1' Ha2'. unfold hart_id_with_priority in *.
      rewrite <- Ha1 in Ha1'. f_equal. revert Ha1'.
      replace (32 * (id / 32) / 32) with (id / 32) by dlia. replace (32 * (id' / 32) / 32) with (id' / 32) by dlia. done. }
    rewrite !reg_addr_offset in Heq by (done || (simpl; dlia)). injection Heq as Heq.
    assert (Enable hart p (id / 32) = Enable hart' p' (id' / 32)) as Hre by (apply reg_offset_inj; [simpl; dlia|simpl; dlia|simpl; lia]).
    injection Hre as -> -> Hw. injection Ha as _ Ha2. injection Ha' as _ Ha2'. split_and!; [done|done|]. dlia. }
  destruct (decide (a' = a)) as [->|Hne].
  - rewrite Z.lor_spec, Z.shiftl_1_l, Z.pow2_bits_eqb by lia. f_equal.
    destruct (Z.eqb_spec k k') as [->|Hkk]; symmetry; [apply bool_decide_eq_true; by apply Hiff|].
    apply bool_decide_eq_false. intros H%Hiff. lia.
  - rewrite bool_decide_eq_false_2; [by rewrite orb_false_r|]. intros [H _]%Hiff. done.
Qed.

(** The handler comes to its end on a claim of [id] when the devices' handlers do. *)
Definition serves (id : Z) : Prop :=
  irq_handler (S := ()) (λ _, mret id) (λ _ _, mret ()) (mret ()) (mret ()) (mret ()) () = Ok ((), ()).

(** Interrupts after start-up.  From a controller that has just been reset,
    [device_init] lets exactly those sources through to the kernel for which
    [irq_handler] has a case, so that no interrupt meets its panic; machine mode
    gets none. *)
Theorem device_init_delivers id :
  0 < id ≤ 132 →
  ∃ m, device_init ∅ = Ok ((), m) ∧ (delivers m hart0 Supervisor id ↔ serves id) ∧ ¬ delivers m hart0 Machine id.
Proof.
  intros Hid. set (m := match device_init ∅ with Ok (_, m) => m | Err _ => ∅ end). exists m.
  split; [vm_compute; reflexivity|].
  assert (forallb (λ i, bool_decide (enabled m hart0 Supervisor i = (i =? 5) || (i =? 8) || (i =? 10) ∧
    enabled m hart0 Machine i = false ∧ prio m i = (if (i =? 5) || (i =? 8) || (i =? 10) then 1 else 0))) (seqZ 1 132) = true) as Hall
    by (vm_compute; reflexivity).
  rewrite forallb_forall in Hall. specialize (Hall id). rewrite <- list_elem_of_In, elem_of_seqZ in Hall.
  specialize (Hall ltac:(lia)). apply bool_decide_eq_true in Hall as (H1 & H2 & H3).
  assert (word m (threshold_ptr_of_hart_with_priority VIRT_PLIC hart0 Supervisor) = 0) as Ht by (vm_compute; reflexivity).
  split.
  - unfold delivers, serves, irq_handler. rewrite H1, H3, Ht. unfold KEYBOARD_IRQ, BLOCK_IRQ, UART_IRQ, mbind, M_bind, mret, M_ret.
    destruct (id =? 5), (id =? 8), (id =? 10); simpl; (split; [done|split; [done|lia]]) || (split; [intros [??]; done|done]).
  - intros [He _]. congruence.
Qed.

(** A claim that finds no pending interrupt gives 0, for which there is no case. *)
Lemma spurious_claim_panics :
  irq_handler (S := ()) (λ _, mret 0) (λ _ _, mret ()) (mret ()) (mret ()) (mret ()) () = Err Panicked.
Proof. reflexivity. Qed.

Module PlicDemo.
Lemma plic_registers_disjoint_witness :
  reg_addr VIRT_PLIC (Enable 0 Supervisor 0) = Ok (VIRT_PLIC + 0x2080) ∧ VIRT_PLIC + 0x2080 + 4 ≤ VIRT_PLIC + PLIC_SIZE.
Proof.
  destruct (plic_registers_disjoint VIRT_PLIC (Enable 0 Supervisor 0)) as (H1 & _ & H2 & _).
  - discriminate.
  - reflexivity.
  - reflexivity.
  - split; split; try discriminate; reflexivity.
  - split; [exact H1|exact H2].
Defined.
Lemma device_init_delivers_witness : ∃ m, device_init ∅ = Ok ((), m) ∧ (delivers m hart0 Supervisor 10 ↔ serves 10).
Proof.
  destruct (device_init_delivers 10) as (m & H1 & H2 & _); [split; [reflexivity|discriminate]|].
  exists m. split; [exact H1|exact H2].
Defined.
End PlicDemo.
