(* ===== verification/Devices.v ===== *)
(** * Input, block and console devices (os/src/drivers/chardev/ns16550a.rs,
      os/src/drivers/input/mod.rs, os/src/drivers/block/virtio_blk.rs,
      os/src/fs/stdio.rs, os/src/syscall/input.rs)

    An interrupt moves what a device has received to a buffer in the kernel and
    wakes a waiting thread; readers take from the buffer or wait.  The
    registers of the serial port and the virtio-drivers package are classes of
    operations with the behaviour they are documented to have.  Input reaches
    the readers in the order it arrived. *)
From S2P Require Import Prelude Bytes Address FrameAllocator PageTable UserMem.

(** ** A buffered input device *)

(** [pending]: what the device has received and not handed over yet; [ack] is
    done at the start of an interrupt. *)
Class Source (D A : Type) := {
  ack : M D ();
  next : M D (option A);
  pending : D → list A;
}.
Class SourceLaws (D A : Type) `{Source D A} := {
  ack_keeps : ∀ d, ∃ d', ack d = Ok ((), d') ∧ pending d' = pending d;
  next_law : ∀ d, ∃ d', next d = Ok (head (pending d), d') ∧ pending d' = tail (pending d);
}.

(** The device, the buffer, the queue of the condition variable, and the threads
    that were made ready. *)
Record bdev (D A : Type) := mkB { raw : D; buffer : list A; wait_queue : list Z; woken : list Z }.
Arguments mkB {D A}.
Arguments raw {D A}.
Arguments buffer {D A}.
Arguments wait_queue {D A}.
Arguments woken {D A}.

Section buffered.
Context {D A : Type} `{!Source D A}.
Abbreviation bst := (bdev D A) (only parsing).

(** [Condvar::signal] and [Condvar::wait_no_sched] *)
Definition signal (b : bst) : bst :=
  match wait_queue b with
  | [] => b
  | t :: q => mkB (raw b) (buffer b) q (woken b ++ [t])
  end.
Definition wait_no_sched (t : Z) (b : bst) : bst := mkB (raw b) (buffer b) (wait_queue b ++ [t]) (woken b).

(** [while let Some(ch) = ..] *)
Fixpoint drain (fuel : nat) (count : nat) (buf : list A) : M D (nat * list A) :=
  match fuel with
  | O => lift (Err Diverged)
  | S fuel' =>
      next ≫= λ o : option A,
      match o with
      | Some ch => drain fuel' (S count) (buf ++ [ch])
      | None => mret (count, buf)
      end
  end.
Definition handle_irq (fuel : nat) : M bst () := λ b,
  '(_, d) ← ack (raw b);
  '(count, buf, d) ← drain fuel 0 (buffer b) d;
  let b := mkB d buf (wait_queue b) (woken b) in
  Ok ((), if (0 <? count)%nat then signal b else b).
(** One turn of the loop of [read]: an item, or the thread waits. *)
Definition read_turn (t : Z) : M bst (option A) := λ b,
  match buffer b with
  | ch :: rest => Ok (Some ch, mkB (raw b) rest (wait_queue b) (woken b))
  | [] => Ok (None, wait_no_sched t b)
  end.
Definition is_empty : M bst bool := λ b, Ok (match buffer b with [] => true | _ => false end, b).

(** ** What happens to a device: input arrives, an interrupt is taken, a thread takes a turn *)
Inductive event := Arrives (l : list A) (f : D → D) | Interrupt | Turn (t : Z).
(** What arrives is added to what is pending. *)
Definition event_ok (e : event) : Prop := match e with Arrives l f => ∀ d, pending (f d) = pending d ++ l | _ => True end.
Definition fuel_for (b : bst) : nat := S (length (pending (raw b))).
Definition do_event (e : event) (b : bst) : outcome (list (Z * A) * bst) :=
  match e with
  | Arrives _ f => Ok ([], mkB (f (raw b)) (buffer b) (wait_queue b) (woken b))
  | Interrupt => '((), b') ← handle_irq (fuel_for b) b; Ok ([], b')
  | Turn t => '(o, b') ← read_turn t b; Ok (match o with Some ch => [(t, ch)] | None => [] end, b')
  end.
Fixpoint do_events (es : list event) (b : bst) : outcome (list (Z * A) * bst) :=
  match es with
  | [] => Ok ([], b)
  | e :: rest => '(l, b1) ← do_event e b; '(l', b2) ← do_events rest b1; Ok (l ++ l', b2)
  end.
Definition arrived (es : list event) : list A := es ≫= λ e, match e with Arrives l _ => l | _ => [] end.

Context `{!SourceLaws D A}.
Lemma drain_spec fuel count buf d :
  (length (pending d) < fuel)%nat →
  ∃ d', drain fuel count buf d = Ok ((count + length (pending d))%nat, buf ++ pending d, d') ∧ pending d' = [].
Proof.
  revert count buf d. induction fuel as [|fuel IH]; intros count buf d Hf; [lia|]. cbn [drain].
  destruct (next_law d) as (d1 & Hn & Hp). rewrite (M_bind_Ok _ _ _ _ _ Hn).
  destruct (pending d) as [|a l] eqn:Hd; simpl in *.
  - exists d1. rewrite Nat.add_0_r, app_nil_r. done.
  - destruct (IH (S count) (buf ++ [a]) d1) as (d' & Hr & Hd'); [rewrite Hp; lia|]. exists d'. rewrite Hr, Hp, <- app_assoc.
    by replace (S count + length l)%nat with (count + S (length l))%nat by lia.
Qed.
Lemma handle_irq_spec fuel b :
  (length (pending (raw b)) < fuel)%nat →
  ∃ d, handle_irq fuel b = Ok ((), let b' := mkB d (buffer b ++ pending (raw b)) (wait_queue b) (woken b) in
    if decide (pending (raw b) = []) then b' else signal b') ∧ pending d = [].
Proof.
  intros Hf. destruct (ack_keeps (raw b)) as (d1 & Ha & Hp1). rewrite <- Hp1 in *.
  destruct (drain_spec fuel 0 (buffer b) d1 Hf) as (d & Hr & Hd). exists d. unfold handle_irq. rewrite Ha. cbn [mbind outcome_bind].
  rewrite Hr. cbn [mbind outcome_bind]. split; [|done]. do 2 f_equal. destruct (pending d1); [by rewrite decide_True|by rewrite decide_False].
Qed.
Lemma signal_parts b : raw (signal b) = raw b ∧ buffer (signal b) = buffer b.
Proof. unfold signal. by destruct (wait_queue b). Qed.

Lemma do_event_order e b :
  event_ok e → ∃ l b', do_event e b = Ok (l, b') ∧
    l.*2 ++ buffer b' ++ pending (raw b') = buffer b ++ pending (raw b) ++ match e with Arrives l _ => l | _ => [] end.
Proof.
  destruct e as [l f| |t]; cbn [do_event event_ok]; intros He.
  - eexists _, _. split; [done|]. simpl. by rewrite He.
  - destruct (handle_irq_spec (fuel_for b) b) as (d & -> & Hd); [unfold fuel_for; lia|]. eexists _, _. split; [done|]. simpl.
    rewrite app_nil_r. destruct (decide _); simpl.
    + by rewrite Hd, app_nil_r.
    + destruct (signal_parts (mkB d (buffer b ++ pending (raw b)) (wait_queue b) (woken b))) as [-> ->]. simpl. by rewrite Hd, app_nil_r.
  - unfold read_turn. destruct (buffer b) as [|ch rest] eqn:Hb; eexists _, _; (split; [done|]); simpl; rewrite ?Hb, app_nil_r; done.
Qed.
Lemma do_events_order es b :
  Forall event_ok es → ∃ l b', do_events es b = Ok (l, b') ∧ l.*2 ++ buffer b' ++ pending (raw b') = buffer b ++ pending (raw b) ++ arrived es.
Proof.
  intros Hes. revert b. induction Hes as [|e es He Hes IH]; intros b; [exists [], b; by rewrite app_nil_r|].
  destruct (do_event_order e b He) as (l & b1 & H1 & E1). destruct (IH b1) as (l' & b2 & H2 & E2). exists (l ++ l'), b2.
  cbn [do_events]. rewrite H1. cbn [mbind outcome_bind]. rewrite H2. cbn [mbind outcome_bind]. split; [done|].
  rewrite fmap_app, <- app_assoc, E2. change (arrived (e :: es)) with (match e with Arrives l _ => l | _ => [] end ++ arrived es).
  rewrite !app_assoc, <- (app_assoc l.*2), E1. by rewrite <- !app_assoc.
Qed.
End buffered.

(** C39 Input in order.  Whatever threads read a device, and however their turns, the
    interrupts and the input interleave, nothing panics and nothing is lost,
    repeated or reordered: the items handed to readers, those in the
    buffer and those still in the device are the input, in its order. *)
Theorem input_in_order {D A : Type} `{!Source D A, !SourceLaws D A} (es : list event) (b : bdev D A) :
  Forall event_ok es → buffer b = [] → pending (raw b) = [] →
  ∃ l b', do_events es b = Ok (l, b') ∧ l.*2 ++ buffer b' ++ pending (raw b') = arrived es.
Proof.
  intros Hes Hb Hp. destruct (do_events_order es b Hes) as (l & b' & Hr & He). exists l, b'. split; [done|]. by rewrite Hb, Hp in He.
Qed.

(** A thread that waits for input gets it: the interrupt for new input takes the
    first waiting thread off the queue, and its next turn returns the
    first item. *)
Theorem reader_is_served {D A : Type} `{!Source D A, !SourceLaws D A} (b : bdev D A) t q a l :
  wait_queue b = t :: q → buffer b = [] → pending (raw b) = a :: l →
  ∃ b1 b2, handle_irq (fuel_for b) b = Ok ((), b1) ∧ wait_queue b1 = q ∧ woken b1 = woken b ++ [t] ∧
    read_turn t b1 = Ok (Some a, b2) ∧ buffer b2 = l ∧ wait_queue b2 = q.
Proof.
  intros Hq Hb Hp. destruct (handle_irq_spec (fuel_for b) b) as (d & Hr & _); [unfold fuel_for; lia|].
  rewrite Hp, Hb, decide_False in Hr by done. unfold signal in Hr. cbn [wait_queue raw buffer woken] in Hr. rewrite Hq in Hr.
  eexists _, _. split; [exact Hr|]. done.
Qed.

(** ** The serial port *)
Definition RX_AVAILABLE : Z := Z.shiftl 1 0.
Definition DATA_AVAILABLE : Z := Z.shiftl 1 0.
Definition THR_EMPTY : Z := Z.shiftl 1 5.
Definition DATA_TERMINAL_READY : Z := Z.shiftl 1 0.
Definition REQUEST_TO_SEND : Z := Z.shiftl 1 1.
Definition AUX_OUTPUT2 : Z := Z.shiftl 1 3.

(** The registers; [rx] are the bytes in its receive queue. *)
Class Uart (D : Type) := {
  rbr_read : M D Z;
  lsr_read : M D Z;
  thr_write : Z → M D ();
  mcr_write : Z → M D ();
  ier_write : Z → M D ();
  rx : D → list Z;
}.
Class UartLaws (D : Type) `{Uart D} := {
  lsr_law : ∀ d, ∃ v d', lsr_read d = Ok (v, d') ∧ rx d' = rx d ∧ Z.testbit v 0 = match rx d with [] => false | _ => true end;
  rbr_law : ∀ d b l, rx d = b :: l → ∃ d', rbr_read d = Ok (b, d') ∧ rx d' = l;
}.

Section uart.
Context {D : Type} `{!Uart D}.
Definition ns16550a_init : M D () :=
  mcr_write (Z.lor (Z.lor DATA_TERMINAL_READY REQUEST_TO_SEND) AUX_OUTPUT2) ≫= λ _, ier_write RX_AVAILABLE.
Definition ns16550a_read : M D (option Z) :=
  lsr_read ≫= λ v, if flags_contain v DATA_AVAILABLE then rbr_read ≫= λ b, mret (Some b) else mret None.
Fixpoint ns16550a_write (fuel : nat) (ch : Z) : M D () :=
  match fuel with
  | O => lift (Err Diverged)
  | S fuel' => lsr_read ≫= λ v, if flags_contain v THR_EMPTY then thr_write ch else ns16550a_write fuel' ch
  end.
#[global] Instance uart_source : Source D Z := { ack := mret (); next := ns16550a_read; pending := rx }.

#[global] Instance uart_source_laws `{!UartLaws D} : SourceLaws D Z.
Proof.
  split; [by intros d; exists d|]. intros d. destruct (lsr_law d) as (v & d1 & Hl & Hrx & Hv).
  cbn [next pending uart_source]. unfold ns16550a_read. rewrite (M_bind_Ok _ _ _ _ _ Hl).
  change DATA_AVAILABLE with (2 ^ 0). rewrite flags_contain_bit, Hv by lia. destruct (rx d) as [|b l] eqn:Hd.
  - exists d1. by rewrite Hrx.
  - destruct (rbr_law d1 b l) as (d2 & Hr & Hl2); [by rewrite Hrx|]. exists d2. by rewrite (M_bind_Ok _ _ _ _ _ Hr).
Qed.
End uart.

(** ** The keyboard *)
Record InputEvent := mkEv { event_type : Z; code : Z; value : Z }.
Class Input (D : Type) := {
  ack_interrupt : M D ();
  pop_pending_event : M D (option InputEvent);
  events : D → list InputEvent;
}.
Class InputLaws (D : Type) `{Input D} := {
  ack_law : ∀ d, ∃ d', ack_interrupt d = Ok ((), d') ∧ events d' = events d;
  pop_law : ∀ d, ∃ d', pop_pending_event d = Ok (head (events d), d') ∧ events d' = tail (events d);
}.
Definition encode_event (e : InputEvent) : Z :=
  Z.lor (Z.lor (Z.shiftl (event_type e) 48) (Z.shiftl (code e) 32)) (value e).
Definition input_ok (e : InputEvent) : Prop := 0 ≤ event_type e < 2 ^ 16 ∧ 0 ≤ code e < 2 ^ 16 ∧ is_u32 (value e).

(** A program that reads an event can take it apart. *)
Lemma encode_event_value e : input_ok e → encode_event e = event_type e * 2 ^ 48 + code e * 2 ^ 32 + value e.
Proof.
  intros (Ht & Hc & Hv). unfold is_u32 in Hv. unfold encode_event.
  assert (Z.lor (Z.shiftl (event_type e) 48) (Z.shiftl (code e) 32) = Z.shiftl (event_type e * 2 ^ 16 + code e) 32) as ->.
  { rewrite (Z.shiftl_mul_pow2 (code e)) by lia. rewrite lor_shiftl_add by lia. rewrite Z.shiftl_mul_pow2 by lia. lia. }
  rewrite lor_shiftl_add by lia. lia.
Qed.
Lemma encode_event_fields e :
  input_ok e → let v := encode_event e in
  is_u64 v ∧ v / 2 ^ 48 = event_type e ∧ (v / 2 ^ 32) mod 2 ^ 16 = code e ∧ v mod 2 ^ 32 = value e.
Proof. intros He v. subst v. rewrite encode_event_value by done. destruct He as (Ht & Hc & Hv). unfold is_u32, is_u64 in *. split_and!; dlia. Qed.

Section keyboard.
Context {D : Type} `{!Input D}.
Definition next_event : M D (option Z) := pop_pending_event ≫= λ o, mret (encode_event <$> o).
#[local] Instance input_source : Source D Z :=
  { ack := ack_interrupt; next := next_event; pending d := encode_event <$> events d }.
#[local] Instance input_source_laws `{!InputLaws D} : SourceLaws D Z.
Proof.
  split; intros d; cbn [ack next pending input_source].
  - destruct (ack_law d) as (d' & Ha & He). exists d'. by rewrite He.
  - destruct (pop_law d) as (d' & Hp & He). exists d'. unfold next_event. rewrite (M_bind_Ok _ _ _ _ _ Hp), He. by destruct (events d).
Qed.
Definition kb_handle_irq (fuel : nat) : M (bdev D Z) () := handle_irq fuel.
Definition sys_event_get (t : Z) : M (bdev D Z) (option Z) :=
  is_empty ≫= λ empty : bool,
  if negb empty then read_turn t ≫= λ o, mret (as_isize <$> o) else mret (Some 0).

(** The interrupt queues all events; [event_get] takes the first or returns 0,
    and never makes the caller wait. *)
Lemma kb_irq_queues `{!InputLaws D} fuel (b : bdev D Z) :
  (length (events (raw b)) < fuel)%nat →
  ∃ b', kb_handle_irq fuel b = Ok ((), b') ∧ buffer b' = buffer b ++ (encode_event <$> events (raw b)) ∧ events (raw b') = [].
Proof.
  intros Hf. destruct (handle_irq_spec fuel b) as (d & Hr & Hd); [cbn; by rewrite length_fmap|]. cbn [pending input_source] in *.
  eexists. split; [exact Hr|]. apply fmap_nil_inv in Hd. case_match; simpl; [done|].
  destruct (signal_parts (mkB d (buffer b ++ (encode_event <$> events (raw b))) (wait_queue b) (woken b))) as [-> ->]. done.
Qed.
Lemma event_get_spec t (b : bdev D Z) :
  sys_event_get t b = Ok (match buffer b with [] => Some 0 | v :: _ => Some (as_isize v) end,
    mkB (raw b) (tail (buffer b)) (wait_queue b) (woken b)).
Proof. unfold sys_event_get, is_empty, read_turn, mbind, M_bind. by destruct b as [d [|v l] q w]. Qed.
End keyboard.
Definition sys_key_pressed {D} : M (bdev D Z) Z := is_empty ≫= λ empty : bool, mret (if negb empty then 1 else 0).

(** ** The block device, with interrupts *)

(** The virtio queue: a request is submitted and gets a token; [used] are the
    tokens of the requests the device has completed. *)
Class Blk (D : Type) := {
  read_block_nb : Z → M D (option Z);
  write_block_nb : Z → list Z → M D (option Z);
  read_block_sync : Z → M D (option (list Z));
  write_block_sync : Z → list Z → M D (option ());
  pop_used : M D (option Z);
  used : D → list Z;
}.
Class BlkLaws (D : Type) `{Blk D} := {
  pop_used_law : ∀ d, ∃ d', pop_used d = Ok (head (used d), d') ∧ used d' = tail (used d);
}.
(** One condition variable per token, as the queue of its waiting threads. *)
Record blkdev (D : Type) := mkBlk { b_raw : D; condvars : gmap Z (list Z); b_woken : list Z }.
Arguments mkBlk {D}.
Arguments b_raw {D}.
Arguments condvars {D}.
Arguments b_woken {D}.

(** A request in flight, or the result of one the driver waited for. *)
Inductive request (A : Type) := Waits (token : Z) | Done (a : A).
Arguments Waits {A}.
Arguments Done {A}.

Section blk.
Context {D : Type} `{!Blk D}.
Definition blk_new (d : D) (channels : nat) : blkdev D := mkBlk d (list_to_map ((λ i, (i, [])) <$> seqZ 0 (Z.of_nat channels))) [].
Definition blk_wait (t token : Z) : M (blkdev D) () := λ b,
  q ← unwrap (condvars b !! token); Ok ((), mkBlk (b_raw b) (<[token := q ++ [t]]> (condvars b)) (b_woken b)).
Definition blk_raw {A} (c : M D A) : M (blkdev D) A := λ b,
  '(a, d) ← c (b_raw b); Ok (a, mkBlk d (condvars b) (b_woken b)).
(** [read_block] and [write_block] up to [schedule]: the thread waits for its
    token, or, before the scheduler runs ([nb] false), the driver spins. *)
Definition read_block_start (nb : bool) (t block_id : Z) : M (blkdev D) (request (list Z)) :=
  if nb then blk_raw (read_block_nb block_id) ≫= λ o, lift (unwrap o) ≫= λ token, blk_wait t token ≫= λ _, mret (Waits token)
  else blk_raw (read_block_sync block_id) ≫= λ o, lift (unwrap o) ≫= λ buf, mret (Done buf).
Definition write_block_start (nb : bool) (t block_id : Z) (buf : list Z) : M (blkdev D) (request ()) :=
  if nb then blk_raw (write_block_nb block_id buf) ≫= λ o, lift (unwrap o) ≫= λ token, blk_wait t token ≫= λ _, mret (Waits token)
  else blk_raw (write_block_sync block_id buf) ≫= λ o, lift (unwrap o) ≫= λ _, mret (Done ()).
(** What follows [schedule] *)
Definition block_finish (status_ok : bool) : M (blkdev D) () := lift (assert status_ok).

Definition blk_signal (token : Z) : M (blkdev D) () := λ b,
  q ← unwrap (condvars b !! token);
  Ok ((), match q with
          | [] => b
          | t :: q' => mkBlk (b_raw b) (<[token := q']> (condvars b)) (b_woken b ++ [t])
          end).
Fixpoint blk_handle_irq (fuel : nat) : M (blkdev D) () :=
  match fuel with
  | O => lift (Err Diverged)
  | S fuel' =>
      blk_raw pop_used ≫= λ o : option Z,
      match o with
      | Some token => blk_signal token ≫= λ _, blk_handle_irq fuel'
      | None => mret ()
      end
  end.

(** A request whose token is free leaves its thread alone in the queue of that
    token: what [completion_wakes] needs of every request in flight. *)
Lemma read_block_waits t block_id tk d (b : blkdev D) :
  read_block_nb block_id (b_raw b) = Ok (Some tk, d) → condvars b !! tk = Some [] →
  read_block_start true t block_id b = Ok (Waits tk, mkBlk d (<[tk := [t]]> (condvars b)) (b_woken b)).
Proof.
  intros Hr Hq. unfold read_block_start, blk_raw, blk_wait, lift, mbind, M_bind, mret, M_ret. rewrite Hr. cbn. by rewrite Hq.
Qed.
Lemma write_block_waits t block_id buf tk d (b : blkdev D) :
  write_block_nb block_id buf (b_raw b) = Ok (Some tk, d) → condvars b !! tk = Some [] →
  write_block_start true t block_id buf b = Ok (Waits tk, mkBlk d (<[tk := [t]]> (condvars b)) (b_woken b)).
Proof.
  intros Hr Hq. unfold write_block_start, blk_raw, blk_wait, lift, mbind, M_bind, mret, M_ret. rewrite Hr. cbn. by rewrite Hq.
Qed.
End blk.

(** The interrupt of the block device wakes exactly the threads whose requests
    are complete, in the order of completion; a thread whose request is still in
    flight stays in its queue. *)
Theorem completion_wakes {D : Type} `{!Blk D, !BlkLaws D} (b : blkdev D) (waiter : Z → Z) fuel :
  NoDup (used (b_raw b)) → (∀ tk, tk ∈ used (b_raw b) → condvars b !! tk = Some [waiter tk]) →
  (length (used (b_raw b)) < fuel)%nat →
  ∃ b', blk_handle_irq fuel b = Ok ((), b') ∧ b_woken b' = b_woken b ++ (waiter <$> used (b_raw b)) ∧ used (b_raw b') = [] ∧
    (∀ tk, tk ∈ used (b_raw b) → condvars b' !! tk = Some []) ∧
    (∀ tk, tk ∉ used (b_raw b) → condvars b' !! tk = condvars b !! tk).
Proof.
  revert b. induction fuel as [|fuel IH]; intros b Hnd Hw Hf; [lia|]. cbn [blk_handle_irq].
  destruct (pop_used_law (b_raw b)) as (d & Hp & Hu).
  rewrite (M_bind_Ok _ _ b (head (used (b_raw b))) (mkBlk d (condvars b) (b_woken b))) by (unfold blk_raw; by rewrite Hp).
  destruct (used (b_raw b)) as [|tk l] eqn:Hul; cbn [head tail] in *.
  { eexists. split; [done|]. rewrite fmap_nil, app_nil_r. split_and!; [done|done|set_solver|done]. }
  apply NoDup_cons in Hnd as [Htk Hnd]. set (b1 := mkBlk d (<[tk := []]> (condvars b)) (b_woken b ++ [waiter tk])).
  rewrite (M_bind_Ok _ _ _ () b1) by (unfold blk_signal; cbn [condvars]; by rewrite (Hw tk) by set_solver).
  destruct (IH b1) as (b' & Hr & Hwk & Hus & Hin & Hout); cbn [b_raw condvars b_woken b1]; rewrite ?Hu; [done| |simpl in Hf; lia|].
  { intros k Hk. rewrite lookup_insert_ne by (intros ->; done). apply Hw. set_solver. }
  cbn [b_raw b_woken condvars b1] in *. rewrite Hu in *. exists b'. split_and!; [done| |done| |].
  - by rewrite Hwk, <- app_assoc.
  - intros k Hk. destruct (decide (k ∈ l)) as [|Hkl]; [by apply Hin|]. rewrite Hout by done.
    assert (k = tk) as -> by set_solver. by rewrite lookup_insert_eq.
  - intros k Hk. rewrite Hout by set_solver. rewrite lookup_insert_ne by set_solver. done.
Qed.

(** ** Standard input and output *)
Section stdio.
Context {D : Type}.
(** A read of standard input, a turn at a time: one byte to the first slice. *)
Definition stdin_read (t : Z) (bufs : list uslice) : M (bdev D Z * kmem) (option Z) := λ '(b, k),
  _ ← assert (user_buffer_len bufs =? 1);
  '(o, b') ← read_turn t b;
  match o with
  | None => Ok (None, (b', k))
  | Some ch =>
      sl ← unwrap (head bufs);
      '(_, k') ← write_slice sl [ch] k;
      Ok (Some 1, (b', k'))
  end.
End stdio.
(** The characters that are printed; each slice has to be valid UTF-8 by itself. *)
Fixpoint print_slices (bufs : list uslice) : M kmem (list Z) :=
  match bufs with
  | [] => mret []
  | sl :: rest =>
      read_slice sl ≫= λ bs, lift (assert (utf8_ok bs)) ≫= λ _,
      print_slices rest ≫= λ out, mret (bs ++ out)
  end.
Definition stdout_write (bufs : list uslice) : M kmem (Z * list Z) :=
  print_slices bufs ≫= λ out, mret (user_buffer_len bufs, out).

(** What a program writes is printed, byte for byte. *)
Lemma print_slices_spec bufs s :
  Forall (slice_ok (mem s)) bufs → (∀ p a b bs, (p, a, b) ∈ bufs → read_slice (p, a, b) s = Ok (bs, s) → utf8_ok bs = true) →
  ∃ out, print_slices bufs s = Ok (out, s) ∧ byte_at (mem s) <$> buffer_locs bufs = Some <$> out.
Proof.
  intros Hok Hutf. induction Hok as [|[[p a] b] bufs Hsl Hok IH]; [by exists []|].
  destruct (read_slice_spec p a b s Hsl) as (bs & Hr & _ & _ & _ & Hbs). destruct IH as (out & Ho & Hb).
  { intros q c e x Hin. apply Hutf. set_solver. }
  exists (bs ++ out). cbn [print_slices]. rewrite (M_bind_Ok _ _ _ _ _ Hr).
  rewrite (Hutf p a b bs) by (set_solver || done). rewrite (M_bind_Ok _ _ s () s eq_refl), (M_bind_Ok _ _ _ _ _ Ho).
  split; [done|]. rewrite buffer_locs_cons, !fmap_app, Hbs, Hb. done.
Qed.

(** ** A serial port and a disk *)
Module DeviceDemo.
Record port := mkPort { fifo : list Z; sent : list Z }.
#[local] Instance port_uart : Uart port := {
  rbr_read d := match fifo d with b :: l => Ok (b, mkPort l (sent d)) | [] => Ok (0, d) end;
  lsr_read d := Ok (match fifo d with [] => 0x60 | _ => 0x61 end, d);
  thr_write b d := Ok ((), mkPort (fifo d) (sent d ++ [b]));
  mcr_write _ := mret ();
  ier_write _ := mret ();
  rx := fifo;
}.
#[local] Instance port_laws : UartLaws port.
Proof.
  split.
  - intros d. eexists _, d. split; [done|]. split; [done|]. cbn. by destruct (fifo d).
  - intros d b l Hd. eexists. cbn in *. by rewrite Hd.
Qed.
Definition types (l : list Z) : event (D := port) := Arrives l (λ d, mkPort (fifo d ++ l) (sent d)).
Definition quiet_port : bdev port Z := mkB (mkPort [] []) [] [] [].

(** Thread 1 waits, "hi" is typed, both threads read. *)
Definition typing : list (event (D := port)) := [Turn 1; types [104; 105]; Interrupt; Turn 1; Turn 2].
Lemma input_in_order_witness :
  ∃ l b', do_events typing quiet_port = Ok (l, b') ∧ l.*2 ++ buffer b' ++ fifo (raw b') = [104; 105].
Proof.
  destruct (input_in_order typing quiet_port) as (l & b' & H1 & H2).
  - repeat constructor.
  - reflexivity.
  - reflexivity.
  - exists l, b'. split; [exact H1|exact H2].
Defined.
Example typing_runs :
  match do_events typing quiet_port with Ok (l, b) => (l, wait_queue b, woken b) = ([(1, 104); (2, 105)], [], [1]) | Err _ => False end.
Proof. reflexivity. Qed.

Lemma reader_is_served_witness :
  ∃ b1 b2, handle_irq 3 (mkB (mkPort [104; 105] []) [] [1] []) = Ok ((), b1) ∧ read_turn 1 b1 = Ok (Some 104, b2).
Proof.
  destruct (reader_is_served (mkB (mkPort [104; 105] []) [] [1] []) 1 [] 104 [105]) as (b1 & b2 & H1 & _ & _ & H2 & _).
  - reflexivity.
  - reflexivity.
  - reflexivity.
  - exists b1, b2. split; [exact H1|exact H2].
Defined.

(** An interrupt wakes one thread, however much input it brings: of two waiting
    readers the second goes on waiting beside a byte it could have. *)
Lemma second_reader_starves :
  match do_events [Turn 1; Turn 2; types [104; 105]; Interrupt; Turn 1] quiet_port with
  | Ok (l, b) => (l, buffer b, wait_queue b) = ([(1, 104)], [105], [2])
  | Err _ => False
  end.
Proof. reflexivity. Qed.

Record disk := mkDisk { done_reqs : list Z }.
#[local] Instance disk_blk : Blk disk := {
  read_block_nb _ d := Ok (Some 0, d);
  write_block_nb _ _ d := Ok (Some 3, d);
  read_block_sync _ d := Ok (Some [0], d);
  write_block_sync _ _ d := Ok (Some (), d);
  pop_used d := Ok (head (done_reqs d), mkDisk (tail (done_reqs d)));
  used := done_reqs;
}.
#[local] Instance disk_blk_laws : BlkLaws disk.
Proof. split. intros d. by exists (mkDisk (tail (done_reqs d))). Qed.
Lemma completion_wakes_witness :
  ∃ b', blk_handle_irq 5 (mkBlk (mkDisk [3; 0]) {[0 := [10]; 1 := [11]; 3 := [13]]} []) = Ok ((), b') ∧
    b_woken b' = [13; 10] ∧ condvars b' !! 1 = Some [11].
Proof.
  destruct (completion_wakes (mkBlk (mkDisk [3; 0]) {[0 := [10]; 1 := [11]; 3 := [13]]} []) (λ tk, 10 + tk) 5) as (b' & H1 & H2 & _ & _ & H3).
  - apply (bool_decide_unpack _). vm_compute. exact I.
  - intros tk Htk. cbn in Htk. apply elem_of_cons in Htk as [->|Htk]; [reflexivity|].
    apply elem_of_cons in Htk as [->|Htk]; [reflexivity|]. by apply elem_of_nil in Htk.
  - cbn. lia.
  - exists b'. split; [exact H1|]. split; [exact H2|]. rewrite H3; [reflexivity|].
    apply (bool_decide_unpack _). vm_compute. exact I.
Defined.

(** A read of standard input of any length but one stops the kernel. *)
Lemma stdin_two_bytes_panics k : stdin_read 1 [(5, 0, 2)] (quiet_port, k) = Err Panicked.
Proof. reflexivity. Qed.

(** So does a write in which a character crosses a page. *)
Definition euro : kmem := mkMem (mkFA 0 10 []) {[1 := replicate 4094 32 ++ [226; 130]; 2 := 172 :: replicate 4095 32]}.
Lemma stdout_splits_characters :
  utf8_ok [226; 130; 172] = true ∧ stdout_write [(1, 4094, 4096); (2, 0, 1)] euro = Err Panicked.
Proof. split; vm_compute; reflexivity. Qed.
End DeviceDemo.
