(* ===== verification/Abi.v ===== *)
(** * System calls between user programs and the kernel
      (user/src/syscall.rs, user/src/lib.rs; os/src/syscall/mod.rs; get_time of
      os/src/syscall/process.rs and os/src/timer.rs)

    The user library packs the arguments of a call into registers [a0..a2] and
    its number into [a7]; the kernel's dispatch unpacks them at the types its
    handlers take.  The handlers are in the other files: here a call with its
    arguments is a value of [call], and [KernelCalls] what the kernel does with
    it.  The kernel receives the call that the program made. *)
From S2P Require Import Prelude Bytes Address FrameAllocator PageTable MemorySet AddressSpace UserMem.

(** ** Casts between integer types *)
Definition as_usize (z : Z) : Z := u64 z.
Definition as_u32 (z : Z) : Z := u32 z.
Definition as_u16 (z : Z) : Z := z mod 2 ^ 16.
Definition as_i32 (z : Z) : Z := if u32 z <? 2 ^ 31 then u32 z else u32 z - 2 ^ 32.
Definition is_isize (z : Z) : Prop := - 2 ^ 63 ≤ z < 2 ^ 63.
Definition is_i32 (z : Z) : Prop := - 2 ^ 31 ≤ z < 2 ^ 31.
Definition is_u16 (z : Z) : Prop := 0 ≤ z < 2 ^ 16.

(** ** Call numbers *)
Definition SYSCALL_GETCWD : Z := 17.
Definition SYSCALL_DUP : Z := 24.
Definition SYSCALL_CONNECT : Z := 29.
Definition SYSCALL_LISTEN : Z := 30.
Definition SYSCALL_ACCEPT : Z := 31.
Definition SYSCALL_MKDIRAT : Z := 34.
Definition SYSCALL_UNLINKAT : Z := 35.
Definition SYSCALL_LINKAT : Z := 37.
Definition SYSCALL_CHDIR : Z := 49.
Definition SYSCALL_OPENAT : Z := 56.
Definition SYSCALL_CLOSE : Z := 57.
Definition SYSCALL_PIPE : Z := 59.
Definition SYSCALL_GETDENTS : Z := 61.
Definition SYSCALL_READ : Z := 63.
Definition SYSCALL_WRITE : Z := 64.
Definition SYSCALL_FSTAT : Z := 80.
Definition SYSCALL_EXIT : Z := 93.
Definition SYSCALL_SLEEP : Z := 101.
Definition SYSCALL_YIELD : Z := 124.
Definition SYSCALL_KILL : Z := 129.
Definition SYSCALL_SIGACTION : Z := 134.
Definition SYSCALL_SIGPROCMASK : Z := 135.
Definition SYSCALL_SIGRETURN : Z := 139.
Definition SYSCALL_GET_TIME : Z := 169.
Definition SYSCALL_GETPID : Z := 172.
Definition SYSCALL_MUNMAP : Z := 215.
Definition SYSCALL_FORK : Z := 220.
Definition SYSCALL_EXEC : Z := 221.
Definition SYSCALL_MMAP : Z := 222.
Definition SYSCALL_WAITPID : Z := 260.
Definition SYSCALL_THREAD_CREATE : Z := 1000.
Definition SYSCALL_GETTID : Z := 1001.
Definition SYSCALL_WAITTID : Z := 1002.
Definition SYSCALL_MUTEX_CREATE : Z := 1010.
Definition SYSCALL_MUTEX_LOCK : Z := 1011.
Definition SYSCALL_MUTEX_UNLOCK : Z := 1012.
Definition SYSCALL_SEMAPHORE_CREATE : Z := 1020.
Definition SYSCALL_SEMAPHORE_UP : Z := 1021.
Definition SYSCALL_SEMAPHORE_DOWN : Z := 1022.
Definition SYSCALL_CONDVAR_CREATE : Z := 1030.
Definition SYSCALL_CONDVAR_SIGNAL : Z := 1031.
Definition SYSCALL_CONDVAR_WAIT : Z := 1032.
Definition SYSCALL_EVENT_GET : Z := 3000.
Definition SYSCALL_KEY_PRESSED : Z := 3001.

(** ** Calls at the types of the kernel's handlers *)
Inductive call :=
| Getcwd (buf len : Z) | Dup (fd : Z)
| Connect (raddr lport rport : Z) | Listen (port : Z) | Accept (port_index : Z)
| Mkdirat (fd path : Z) | Unlinkat (fd path : Z) | Linkat (fd oldpath newpath : Z)
| Chdir (path : Z) | Openat (fd path flags : Z) | Close (fd : Z) | MakePipe (pipe : Z)
| Getdents (fd ents len : Z) | Read (fd buf len : Z) | Write (fd buf len : Z) | Fstat (fd st : Z)
| Exit (code : Z) | Sleep (ms : Z) | Yield | Kill (pid signum : Z)
| Sigaction (signum action old_action : Z) | Sigprocmask (mask : Z) | Sigreturn
| GetTime (ts : Z) | Getpid
| Munmap (start len : Z) | Fork | Exec (path args : Z) | Mmap (start len prot flags fd offset : Z)
| Waitpid (pid exit_code_ptr : Z)
| ThreadCreate (entry arg : Z) | Gettid | Waittid (tid : Z)
| MutexCreate (blocking : bool) | MutexLock (id : Z) | MutexUnlock (id : Z)
| SemaphoreCreate (res_count : Z) | SemaphoreUp (id : Z) | SemaphoreDown (id : Z)
| CondvarCreate | CondvarSignal (id : Z) | CondvarWait (id mutex : Z)
| EventGet | KeyPressed.

(** What the kernel does with a call, the address space of the current process
    and physical memory. *)
Class KernelCalls (S : Type) := {
  k_call : call → M S Z;
  k_space : S → MemorySet;
  k_kmem : S → kmem;
  k_set_kmem : kmem → S → S;
  k_set_id : ∀ s, k_set_kmem (k_kmem s) s = s;
}.
Definition k_mem {S A} `{KernelCalls S} (c : M kmem A) : M S A := λ s,
  match c (k_kmem s) with Ok (a, k) => Ok (a, k_set_kmem k s) | Err e => Err e end.

(** ** Dispatch *)

(** The pieces of the user's array, copied to [ret]: piece [i], of length
    [len], goes to the offset [i * len].  A copy past the end of [ret] writes to
    the kernel's stack, which is taken for a fault. *)
Fixpoint unpack_loop (ret : list Z) (i : Z) (vs : list uslice) : M kmem (list Z) :=
  match vs with
  | [] => mret ret
  | (p, a, b) :: rest =>
      let len := b - a in
      read_slice (p, a, b) ≫= λ slice,
      lift (assert (i * len + len <=? Z.of_nat (length ret))) ≫= λ _,
      unpack_loop (splice (Z.to_nat (i * len)) slice ret) (i + 1) rest
  end.
Definition unpack_args (N : nat) (token args_ptr : Z) : M kmem (list Z) :=
  let total := Z.of_nat N * 8 in
  translated_byte_buffer 4 token args_ptr total ≫= λ vs,
  unpack_loop (replicate (N * 8) 0) 0 vs ≫= λ ret, mret (words_dec 8 N ret).

Section dispatch.
Context {S : Type} `{!KernelCalls S}.

Definition syscall (id : Z) (args : Z * Z * Z) : M S Z :=
  let '(a0, a1, a2) := args in
  if id =? SYSCALL_GETCWD then k_call (Getcwd a0 a1)
  else if id =? SYSCALL_DUP then k_call (Dup a0)
  else if id =? SYSCALL_CONNECT then k_call (Connect (as_u32 a0) (as_u16 a1) (as_u16 a2))
  else if id =? SYSCALL_LISTEN then k_call (Listen (as_u16 a0))
  else if id =? SYSCALL_ACCEPT then k_call (Accept a0)
  else if id =? SYSCALL_MKDIRAT then k_call (Mkdirat (as_isize a0) a1)
  else if id =? SYSCALL_UNLINKAT then k_call (Unlinkat (as_isize a0) a1)
  else if id =? SYSCALL_LINKAT then k_call (Linkat (as_isize a0) a1 a2)
  else if id =? SYSCALL_CHDIR then k_call (Chdir a0)
  else if id =? SYSCALL_OPENAT then k_call (Openat (as_isize a0) a1 (as_u32 a2))
  else if id =? SYSCALL_CLOSE then k_call (Close a0)
  else if id =? SYSCALL_PIPE then k_call (MakePipe a0)
  else if id =? SYSCALL_GETDENTS then k_call (Getdents a0 a1 a2)
  else if id =? SYSCALL_READ then k_call (Read a0 a1 a2)
  else if id =? SYSCALL_WRITE then k_call (Write a0 a1 a2)
  else if id =? SYSCALL_FSTAT then k_call (Fstat a0 a1)
  else if id =? SYSCALL_EXIT then k_call (Exit (as_i32 a0))
  else if id =? SYSCALL_SLEEP then k_call (Sleep a0)
  else if id =? SYSCALL_YIELD then k_call Yield
  else if id =? SYSCALL_KILL then k_call (Kill a0 (as_i32 a1))
  else if id =? SYSCALL_SIGACTION then k_call (Sigaction (as_i32 a0) a1 a2)
  else if id =? SYSCALL_SIGPROCMASK then k_call (Sigprocmask (as_u32 a0))
  else if id =? SYSCALL_SIGRETURN then k_call Sigreturn
  else if id =? SYSCALL_GET_TIME then k_call (GetTime a0)
  else if id =? SYSCALL_GETPID then k_call Getpid
  else if id =? SYSCALL_MUNMAP then k_call (Munmap a0 a1)
  else if id =? SYSCALL_FORK then k_call Fork
  else if id =? SYSCALL_EXEC then k_call (Exec a0 a1)
  else if id =? SYSCALL_MMAP then
    (λ s, k_mem (unpack_args 4 (ms_token (k_space s)) a2) s) ≫= λ ret,
    match ret with
    | [prot; flags; fd; offset] => k_call (Mmap a0 a1 prot flags fd offset)
    | _ => panic
    end
  else if id =? SYSCALL_WAITPID then k_call (Waitpid (as_isize a0) a1)
  else if id =? SYSCALL_THREAD_CREATE then k_call (ThreadCreate a0 a1)
  else if id =? SYSCALL_GETTID then k_call Gettid
  else if id =? SYSCALL_WAITTID then k_call (Waittid a0)
  else if id =? SYSCALL_MUTEX_CREATE then k_call (MutexCreate (a0 =? 1))
  else if id =? SYSCALL_MUTEX_LOCK then k_call (MutexLock a0)
  else if id =? SYSCALL_MUTEX_UNLOCK then k_call (MutexUnlock a0)
  else if id =? SYSCALL_SEMAPHORE_CREATE then k_call (SemaphoreCreate a0)
  else if id =? SYSCALL_SEMAPHORE_UP then k_call (SemaphoreUp a0)
  else if id =? SYSCALL_SEMAPHORE_DOWN then k_call (SemaphoreDown a0)
  else if id =? SYSCALL_CONDVAR_CREATE then k_call CondvarCreate
  else if id =? SYSCALL_CONDVAR_SIGNAL then k_call (CondvarSignal a0)
  else if id =? SYSCALL_CONDVAR_WAIT then k_call (CondvarWait a0 a1)
  else if id =? SYSCALL_EVENT_GET then k_call EventGet
  else if id =? SYSCALL_KEY_PRESSED then k_call KeyPressed
  else panic.
End dispatch.

(** ** The user library *)

(** The registers of an [ecall]: the number in [a7], the arguments in [a0..a2].
    Strings, slices and references are passed as the address of their first byte,
    slices with their length. *)
Record regs := mkRegs { r_id : Z; r_args : Z * Z * Z }.
Definition syscall0 (id : Z) : regs := mkRegs id (0, 0, 0).
Definition syscall1 (id a0 : Z) : regs := mkRegs id (a0, 0, 0).
Definition syscall2 (id a0 a1 : Z) : regs := mkRegs id (a0, a1, 0).
Definition syscall3 (id a0 a1 a2 : Z) : regs := mkRegs id (a0, a1, a2).

Module User.
Definition sys_openat (fd path flags : Z) : regs := syscall3 SYSCALL_OPENAT (as_usize fd) path (as_usize flags).
Definition sys_close (fd : Z) : regs := syscall1 SYSCALL_CLOSE fd.
Definition sys_read (fd buf len : Z) : regs := syscall3 SYSCALL_READ fd buf len.
Definition sys_write (fd buf len : Z) : regs := syscall3 SYSCALL_WRITE fd buf len.
Definition sys_exit (exit_code : Z) : regs := syscall1 SYSCALL_EXIT (as_usize exit_code).
Definition sys_yield : regs := syscall0 SYSCALL_YIELD.
Definition sys_get_time (ts : Z) : regs := syscall1 SYSCALL_GET_TIME ts.
(** [packed_args] is the address of the array with the other four arguments. *)
Definition packed_array (prot flags fd offset : Z) : list Z := [prot; flags; fd; offset].
Definition sys_mmap (start len packed_args : Z) : regs := syscall3 SYSCALL_MMAP start len packed_args.
Definition sys_munmap (start len : Z) : regs := syscall2 SYSCALL_MUNMAP start len.
Definition sys_getpid : regs := syscall0 SYSCALL_GETPID.
Definition sys_fork : regs := syscall0 SYSCALL_FORK.
Definition sys_exec (prog args : Z) : regs := syscall2 SYSCALL_EXEC prog args.
Definition sys_waitpid (pid xstatus : Z) : regs := syscall2 SYSCALL_WAITPID (as_usize pid) xstatus.
Definition sys_getcwd (path len : Z) : regs := syscall2 SYSCALL_GETCWD path len.
Definition sys_mkdirat (fd path : Z) : regs := syscall2 SYSCALL_MKDIRAT (as_usize fd) path.
Definition sys_chdir (path : Z) : regs := syscall1 SYSCALL_CHDIR path.
Definition sys_unlinkat (fd path : Z) : regs := syscall2 SYSCALL_UNLINKAT (as_usize fd) path.
Definition sys_linkat (fd oldpath newpath : Z) : regs := syscall3 SYSCALL_LINKAT (as_usize fd) oldpath newpath.
Definition sys_fstat (fd stat : Z) : regs := syscall2 SYSCALL_FSTAT fd stat.
Definition sys_pipe (pipe : Z) : regs := syscall1 SYSCALL_PIPE pipe.
Definition sys_dup (fd : Z) : regs := syscall1 SYSCALL_DUP fd.
Definition sys_kill (pid signum : Z) : regs := syscall2 SYSCALL_KILL pid (as_usize signum).
Definition sys_sigaction (signum action old_action : Z) : regs :=
  syscall3 SYSCALL_SIGACTION (as_usize signum) action old_action.
Definition sys_sigprocmask (mask : Z) : regs := syscall1 SYSCALL_SIGPROCMASK (as_usize mask).
Definition sys_sigreturn : regs := syscall0 SYSCALL_SIGRETURN.
Definition sys_getdents (fd entries len : Z) : regs := syscall3 SYSCALL_GETDENTS fd entries len.
Definition sys_thread_create (entry arg : Z) : regs := syscall2 SYSCALL_THREAD_CREATE entry arg.
Definition sys_gettid : regs := syscall0 SYSCALL_GETTID.
Definition sys_waittid (tid : Z) : regs := syscall1 SYSCALL_WAITTID tid.
Definition sys_sleep (ms : Z) : regs := syscall1 SYSCALL_SLEEP ms.
Definition sys_mutex_create (blocking : bool) : regs :=
  let arg := if blocking then 1 else 0 in syscall1 SYSCALL_MUTEX_CREATE arg.
Definition sys_mutex_lock (mutex_id : Z) : regs := syscall1 SYSCALL_MUTEX_LOCK mutex_id.
Definition sys_mutex_unlock (mutex_id : Z) : regs := syscall1 SYSCALL_MUTEX_UNLOCK mutex_id.
Definition sys_semaphore_create (res_count : Z) : regs := syscall1 SYSCALL_SEMAPHORE_CREATE res_count.
Definition sys_semaphore_up (sem_id : Z) : regs := syscall1 SYSCALL_SEMAPHORE_UP sem_id.
Definition sys_semaphore_down (sem_id : Z) : regs := syscall1 SYSCALL_SEMAPHORE_DOWN sem_id.
Definition sys_condvar_create : regs := syscall0 SYSCALL_CONDVAR_CREATE.
Definition sys_condvar_signal (condvar_id : Z) : regs := syscall1 SYSCALL_CONDVAR_SIGNAL condvar_id.
Definition sys_condvar_wait (condvar_id mutex_id : Z) : regs := syscall2 SYSCALL_CONDVAR_WAIT condvar_id mutex_id.
Definition sys_connect (dest sport dport : Z) : regs :=
  syscall3 SYSCALL_CONNECT (as_usize dest) (as_usize sport) (as_usize dport).
Definition sys_listen (sport : Z) : regs := syscall1 SYSCALL_LISTEN (as_usize sport).
Definition sys_accept (socket_fd : Z) : regs := syscall1 SYSCALL_ACCEPT socket_fd.
End User.

(** The registers with which a program makes a call; [packed] is where [mmap]
    keeps its array.  The calls for the keyboard have no function in the library. *)
Definition encode (packed : Z) (c : call) : option regs :=
  match c with
  | Getcwd buf len => Some (User.sys_getcwd buf len)
  | Dup fd => Some (User.sys_dup fd)
  | Connect ra lp rp => Some (User.sys_connect ra lp rp)
  | Listen p => Some (User.sys_listen p)
  | Accept i => Some (User.sys_accept i)
  | Mkdirat fd path => Some (User.sys_mkdirat fd path)
  | Unlinkat fd path => Some (User.sys_unlinkat fd path)
  | Linkat fd o n => Some (User.sys_linkat fd o n)
  | Chdir path => Some (User.sys_chdir path)
  | Openat fd path flags => Some (User.sys_openat fd path flags)
  | Close fd => Some (User.sys_close fd)
  | MakePipe p => Some (User.sys_pipe p)
  | Getdents fd e len => Some (User.sys_getdents fd e len)
  | Read fd buf len => Some (User.sys_read fd buf len)
  | Write fd buf len => Some (User.sys_write fd buf len)
  | Fstat fd st => Some (User.sys_fstat fd st)
  | Exit code => Some (User.sys_exit code)
  | Sleep ms => Some (User.sys_sleep ms)
  | Yield => Some User.sys_yield
  | Kill pid n => Some (User.sys_kill pid n)
  | Sigaction n a o => Some (User.sys_sigaction n a o)
  | Sigprocmask mask => Some (User.sys_sigprocmask mask)
  | Sigreturn => Some User.sys_sigreturn
  | GetTime ts => Some (User.sys_get_time ts)
  | Getpid => Some User.sys_getpid
  | Munmap start len => Some (User.sys_munmap start len)
  | Fork => Some User.sys_fork
  | Exec path args => Some (User.sys_exec path args)
  | Mmap start len _ _ _ _ => Some (User.sys_mmap start len packed)
  | Waitpid pid p => Some (User.sys_waitpid pid p)
  | ThreadCreate entry arg => Some (User.sys_thread_create entry arg)
  | Gettid => Some User.sys_gettid
  | Waittid tid => Some (User.sys_waittid tid)
  | MutexCreate b => Some (User.sys_mutex_create b)
  | MutexLock id => Some (User.sys_mutex_lock id)
  | MutexUnlock id => Some (User.sys_mutex_unlock id)
  | SemaphoreCreate n => Some (User.sys_semaphore_create n)
  | SemaphoreUp id => Some (User.sys_semaphore_up id)
  | SemaphoreDown id => Some (User.sys_semaphore_down id)
  | CondvarCreate => Some User.sys_condvar_create
  | CondvarSignal id => Some (User.sys_condvar_signal id)
  | CondvarWait id m => Some (User.sys_condvar_wait id m)
  | EventGet | KeyPressed => None
  end.

(** The arguments are values of the types the library's functions take; those
    that are neither cast by the library nor by the kernel may be any. *)
Definition call_typed (c : call) : Prop :=
  match c with
  | Connect ra lp rp => is_u32 ra ∧ is_u16 lp ∧ is_u16 rp
  | Listen p => is_u16 p
  | Mkdirat fd _ | Unlinkat fd _ | Linkat fd _ _ | Waitpid fd _ => is_isize fd
  | Openat fd _ flags => is_isize fd ∧ is_u32 flags
  | Exit code => is_i32 code
  | Kill _ n | Sigaction n _ _ => is_i32 n
  | Sigprocmask mask => is_u32 mask
  | Mmap _ _ prot flags fd offset => is_u64 prot ∧ is_u64 flags ∧ is_u64 fd ∧ is_u64 offset
  | _ => True
  end.

(** ** Casts *)
Lemma as_isize_usize z : is_isize z → as_isize (as_usize z) = z.
Proof. unfold is_isize, as_isize, as_usize, u64. intros H. rewrite Zmod_mod. case_match eqn:E; [apply Z.ltb_lt in E|apply Z.ltb_ge in E]; dlia. Qed.
Lemma as_usize_isize z : is_u64 z → as_usize (as_isize z) = z.
Proof. unfold is_u64, as_isize, as_usize, u64. intros H. rewrite (Z.mod_small z) by lia. case_match; dlia. Qed.
Lemma as_i32_usize z : is_i32 z → as_i32 (as_usize z) = z.
Proof. unfold is_i32, as_i32, as_usize, u32, u64. intros H. case_match eqn:E; [apply Z.ltb_lt in E|apply Z.ltb_ge in E]; dlia. Qed.
Lemma as_u32_usize z : is_u32 z → as_u32 (as_usize z) = z.
Proof. unfold is_u32, as_u32, as_usize, u32, u64. intros H. dlia. Qed.
Lemma as_u16_usize z : is_u16 z → as_u16 (as_usize z) = z.
Proof. unfold is_u16, as_u16, as_usize, u64. intros H. dlia. Qed.
#[export] Hint Rewrite as_isize_usize as_i32_usize as_u32_usize as_u16_usize using done : rcore.

(** ** The packed arguments *)
Lemma unpack_args_spec l0 ms s ptr (ws : list Z) :
  space_ok l0 ms s → in_areas ms ptr (Z.of_nat (length ws) * 8) → in_page ptr (Z.of_nat (length ws) * 8) →
  Forall is_u64 ws → (∀ i, (i < length ws * 8)%nat → user_byte ms s (ptr + Z.of_nat i) = words_enc 8 ws !! i) →
  unpack_args (length ws) (ms_token ms) ptr s = Ok (ws, s).
Proof.
  intros Hsp Hin Hpage Hws Hb. set (n := length ws) in *.
  destruct (one_page_buffer l0 ms s ptr (Z.of_nat n * 8) 2 Hsp Hin Hpage) as (f & Hr & Hus).
  change (2 + 2)%nat with 4%nat in Hr. unfold unpack_args. rewrite (M_bind_Ok _ _ _ _ _ Hr). cbn [unpack_loop].
  destruct (read_slice_spec f (page_offset ptr) (page_offset ptr + Z.of_nat n * 8) s) as (bs & Hrd & Hlen & _ & _ & Hbs).
  { pose proof (us_ok _ _ _ _ _ _ Hus) as Hok. by apply Forall_cons in Hok as [? _]. }
  destruct (user_bytes_read l0 ms s ptr _ _ bs Hus) as [Hl Hbs']; [by rewrite buffer_locs_cons, app_nil_r|].
  assert (bs = words_enc 8 ws) as ->.
  { apply list_eq. intros i. destruct (decide (i < n * 8)%nat) as [Hi|Hi].
    - rewrite <- Hb by done. symmetry. apply Hbs'. lia.
    - rewrite !lookup_ge_None_2; [done|rewrite length_words_enc; lia|lia]. }
  unfold mbind, M_bind in *. rewrite Hrd. cbn [lift assert]. rewrite length_replicate.
  replace (page_offset ptr + Z.of_nat n * 8 - page_offset ptr) with (Z.of_nat n * 8) by lia.
  rewrite (proj2 (Z.leb_le _ _)) by lia. cbn [lift assert mret M_ret]. unfold splice. rewrite Z.mul_0_l. simpl Z.to_nat.
  rewrite take_0, drop_ge, app_nil_r by (rewrite length_replicate, length_words_enc; lia). cbn [app].
  unfold mret, M_ret. do 2 f_equal. rewrite <- (app_nil_r (words_enc 8 ws)). by apply words_dec_enc.
Qed.

(** What the program has prepared for a call: [mmap]'s array is in its memory, on
    one page. *)
Definition prepared {S : Type} `{!KernelCalls S} (s : S) (packed : Z) (c : call) : Prop :=
  match c with
  | Mmap _ _ prot flags fd offset =>
      (∃ l0, space_ok l0 (k_space s) (k_kmem s)) ∧ in_areas (k_space s) packed 32 ∧ in_page packed 32 ∧
      ∀ i, (i < 32)%nat →
        user_byte (k_space s) (k_kmem s) (packed + Z.of_nat i) = words_enc 8 (User.packed_array prot flags fd offset) !! i
  | _ => True
  end.

Lemma dispatch_encode {S : Type} `{!KernelCalls S} (s : S) packed c r :
  call_typed c → prepared s packed c → encode packed c = Some r →
  syscall (r_id r) (r_args r) s = k_call c s.
Proof.
  intros Ht Hp He. destruct c; simpl in Ht, He; simplify_eq; cbn [r_id r_args]; unfold syscall;
    cbn -[as_usize as_isize as_i32 as_u32 as_u16 unpack_args Z.pow]; destruct_and?;
    rewrite ?as_isize_usize, ?as_i32_usize, ?as_u32_usize, ?as_u16_usize by done; try done.
  - destruct Hp as ([l0 Hsp] & Hin & Hpage & Hb).
    pose proof (unpack_args_spec l0 _ _ packed (User.packed_array prot flags fd offset) Hsp Hin Hpage) as Hu.
    unfold mbind, M_bind, k_mem. change (length (User.packed_array prot flags fd offset)) with 4%nat in Hu.
    rewrite Hu; [by rewrite k_set_id|unfold User.packed_array; by rewrite !Forall_cons, Forall_nil|done].
  - by destruct blocking.
Qed.

(** The kernel carries out exactly the call the user library was asked for: its
    dispatch recovers, from the registers the library fills, the same call with
    the same arguments, negative ones and those passed in memory included. *)
Theorem syscall_delivered {S : Type} `{!KernelCalls S} (s : S) packed c r :
  call_typed c → prepared s packed c → encode packed c = Some r →
  syscall (r_id r) (r_args r) s = k_call c s.
Proof. apply dispatch_encode. Qed.

(** A number that is no call stops the kernel. *)
Lemma unknown_call_panics {S : Type} `{!KernelCalls S} (s : S) args : syscall 18 args s = Err Panicked.
Proof. by destruct args as [[??]?]. Qed.

(** ** The clock *)
Definition CLOCK_FREQ : Z := 12500000.
Definition MS_PER_SEC : Z := 1000.
Definition US_PER_SEC : Z := 1000000.
Definition TICKS_PER_SEC : Z := 100.
Definition get_time_ms (time : Z) : Z := time / (CLOCK_FREQ / MS_PER_SEC).
Definition get_time_us (time : Z) : Z := time / (CLOCK_FREQ / US_PER_SEC).
(** The time the next timer interrupt is asked for. *)
Definition set_next_trigger (time : Z) : Z := u64 (time + CLOCK_FREQ / TICKS_PER_SEC).

Record TimeVal := mkTV { sec : Z; usec : Z }.
Definition timeval_enc (ts : TimeVal) : list Z := le_enc 8 (sec ts) ++ le_enc 8 (usec ts).
Definition k_sys_get_time (beyond : Z → Z) (time tok ts : Z) : M kmem Z :=
  let us := get_time_us time in
  translated_byte_buffer 4 tok ts 16 ≫= λ dst_vs,
  let v := mkTV (us / 1000000) (us mod 1000000) in
  copy_struct (timeval_enc v) beyond 0 dst_vs ≫= λ _, mret 0.

(** The library's [get_time], from the result of the call and the two words it left. *)
Definition get_time (ret : Z) (ts : TimeVal) : Z :=
  if ret =? 0 then as_isize (u64 (u64 (Z.land (sec ts) 0xffff * 1000) + usec ts / 1000)) else -1.

Lemma copy_struct_one src beyond f a s :
  slice_ok (mem s) (f, a, a + Z.of_nat (length src)) →
  copy_struct src beyond 0 [(f, a, a + Z.of_nat (length src))] s =
    (write_slice (f, a, a + Z.of_nat (length src)) src ≫= λ _, mret ()) s.
Proof.
  intros Hok. cbn [copy_struct]. rewrite Z.mul_0_l. replace (a + Z.of_nat (length src) - a) with (Z.of_nat (length src)) by lia.
  assert ((λ k, default (beyond k) (src !! Z.to_nat k)) <$> seqZ 0 (Z.of_nat (length src)) = src) as ->; [|done].
  apply list_eq. intros i. rewrite list_lookup_fmap. destruct (decide (i < length src)%nat) as [Hi|Hi].
  - rewrite lookup_seqZ_lt by lia. cbn [fmap option_fmap option_map]. rewrite Z.add_0_l, Nat2Z.id.
    by destruct (lookup_lt_is_Some_2 src i Hi) as [x ->].
  - by rewrite lookup_seqZ_ge, lookup_ge_None_2 by lia.
Qed.

(** The milliseconds a program reads, from the clock to its own [get_time]: the
    kernel's microseconds over 1000, modulo 65536 seconds. *)
Theorem get_time_reads_clock l0 ms s beyond time ts :
  space_ok l0 ms s → in_areas ms ts 16 → in_page ts 16 → is_u64 time →
  ∃ s', k_sys_get_time beyond time (ms_token ms) ts s = Ok (0, s') ∧ space_ok l0 ms s' ∧
    ∀ x y, is_u64 x → is_u64 y →
      (∀ i, (i < 16)%nat → user_byte ms s' (ts + Z.of_nat i) = timeval_enc (mkTV x y) !! i) →
      get_time 0 (mkTV x y) = (get_time_us time / 1000) mod 65536000.
Proof.
  intros Hsp Hin Hpage Ht. set (us := get_time_us time). set (v := mkTV (us / 1000000) (us mod 1000000)).
  assert (0 ≤ us < 2 ^ 63) as Hus by (subst us; unfold is_u64, get_time_us, CLOCK_FREQ, US_PER_SEC in *; dlia).
  destruct (one_page_buffer l0 ms s ts 16 2 Hsp Hin Hpage) as (f & Hr & Hsl). change (2 + 2)%nat with 4%nat in Hr.
  assert (length (timeval_enc v) = 16%nat) as Hlen by (unfold timeval_enc; by rewrite length_app, !length_le_enc).
  assert (slice_ok (mem s) (f, page_offset ts, page_offset ts + 16)) as Hok
    by (pose proof (us_ok _ _ _ _ _ _ Hsl) as Hok; by apply Forall_cons in Hok as [? _]).
  destruct (write_slice_put f (page_offset ts) (page_offset ts + 16) (timeval_enc v) s Hok) as (m' & Hw & Hput);
    [apply Forall_app_2; apply le_enc_bytes|rewrite Hlen; lia|].
  pose proof (copy_struct_one (timeval_enc v) beyond f (page_offset ts) s) as Hc. rewrite Hlen in Hc.
  change (Z.of_nat 16) with 16 in Hc. specialize (Hc Hok). rewrite (M_bind_Ok _ _ _ _ _ Hw) in Hc.
  assert (bytes_put (mem s) m' (buffer_locs [(f, page_offset ts, page_offset ts + 16)]) (timeval_enc v)) as Hput'
    by (by rewrite buffer_locs_cons, app_nil_r).
  exists (mkMem (fa s) m'). unfold k_sys_get_time. rewrite (M_bind_Ok _ _ _ _ _ Hr).
  fold us. cbv zeta. fold v. rewrite (M_bind_Ok _ _ _ _ _ Hc). split; [done|]. split; [by eapply bytes_put_space|].
  intros x y Hx Hy Hxy.
  destruct (bytes_put_user l0 ms s ts 16 _ m' (timeval_enc v) Hsp Hin Hsl Hput') as [Hb _]; [rewrite Hlen; lia|].
  assert (timeval_enc (mkTV x y) = timeval_enc v) as He.
  { apply list_eq. intros i. destruct (decide (i < 16)%nat) as [Hi|Hi].
    - rewrite <- Hxy by done. apply Hb. lia.
    - rewrite !lookup_ge_None_2; [done|lia|unfold timeval_enc; rewrite length_app, !length_le_enc; lia]. }
  unfold timeval_enc in He. apply app_inj_1 in He as [He1 He2]; [|by rewrite !length_le_enc]. unfold v in He1, He2. cbn [sec usec] in He1, He2.
  apply (f_equal le_dec) in He1, He2. unfold is_u64 in *.
  rewrite !le_dec_enc in He1 by (simpl; lia || dlia). rewrite !le_dec_enc in He2 by (simpl; lia || dlia). subst x y.
  unfold get_time. rewrite Z.eqb_refl. cbn [sec usec]. rewrite (land_mask _ 16) by lia.
  unfold as_isize, u64. rewrite !Z.mod_small by dlia. rewrite (proj2 (Z.ltb_lt _ _)) by dlia. dlia.
Qed.

(** The microsecond clock divides by 12 where the clock has 12.5 ticks: after one
    second of the millisecond clock it has advanced by 1041666. *)
Lemma microseconds_run_fast : get_time_ms CLOCK_FREQ = 1000 ∧ get_time_us CLOCK_FREQ = 1041666.
Proof. done. Qed.

(** ** A program that maps memory *)
Module AbiDemo.
Import SpaceDemo.
(** A kernel that records the calls it is asked for. *)
Record dstate := mkD { d_mem : kmem; d_log : list call }.
#[local] Instance demo_calls : KernelCalls dstate := {
  k_call c s := Ok (0, mkD (d_mem s) (d_log s ++ [c]));
  k_space _ := one.1;
  k_kmem := d_mem;
  k_set_kmem k s := mkD k (d_log s);
  k_set_id s := match s with mkD _ _ => eq_refl end;
}.
Fixpoint put_words (ptr : Z) (ws : list Z) : M kmem () :=
  match ws with
  | [] => mret ()
  | w :: rest => write_user 8 (ms_token one.1) ptr w ≫= λ _, put_words (ptr + 8) rest
  end.
Definition with_words (ptr : Z) (ws : list Z) : kmem := (run (put_words ptr ws) one.2 ()).2.

Lemma demo_area ptr len : 0x1000 ≤ ptr → 0 ≤ len → ptr + len ≤ 0x3000 → in_areas one.1 ptr len.
Proof.
  intros Hp Hl He. split; [lia|]. split; [lia|]. split; [lia|]. intros va Hva. exists the_area.
  split; [apply list_elem_of_lookup; exists 0%nat; vm_compute; reflexivity|].
  unfold pages_of, range_pages. change (vpn_range the_area) with (mkRange 1 3). simpl.
  unfold floor, PAGE_SIZE. apply elem_of_seqZ. dlia.
Qed.
Lemma put_words_ok ws ptr s :
  space_ok 5 one.1 s → 0x1000 ≤ ptr → ptr mod 8 = 0 → ptr + Z.of_nat (length ws) * 8 ≤ 0x3000 →
  ∃ s', put_words ptr ws s = Ok ((), s') ∧ space_ok 5 one.1 s'.
Proof.
  revert ptr s. induction ws as [|w ws IH]; intros ptr s Hsp Hlo Hal He; [by exists s|]. rewrite length_cons in He.
  destruct (write_user_spec 5 one.1 s 8 ptr w Hsp) as (s1 & Hr & _ & Hsp1 & _).
  { apply demo_area; lia. }
  { split; [lia|]. rewrite page_offset_mod. unfold PAGE_SIZE. dlia. }
  cbn [put_words]. rewrite (M_bind_Ok _ _ _ _ _ Hr). apply IH; [done|lia|dlia|lia].
Qed.

Definition d0 : dstate := mkD (with_words 0x1100 [3; 0; 5; 4096]) [].
Lemma syscall_delivered_witness :
  syscall SYSCALL_MMAP (0x10000000, 8192, 0x1100) d0 = Ok (0, mkD (d_mem d0) [Mmap 0x10000000 8192 3 0 5 4096]) ∧
  syscall SYSCALL_OPENAT (2 ^ 64 - 100, 0x1200, 0x200) d0 = Ok (0, mkD (d_mem d0) [Openat (-100) 0x1200 0x200]).
Proof.
  split.
  - change (syscall (r_id (User.sys_mmap 0x10000000 8192 0x1100)) (r_args (User.sys_mmap 0x10000000 8192 0x1100)) d0
      = k_call (Mmap 0x10000000 8192 3 0 5 4096) d0).
    apply (syscall_delivered d0 0x1100 (Mmap 0x10000000 8192 3 0 5 4096) (User.sys_mmap 0x10000000 8192 0x1100)); [|split_and!|reflexivity].
    + unfold call_typed, is_u64. lia.
    + exists 5. destruct (put_words_ok [3; 0; 5; 4096] 0x1100 one.2) as (s' & Hr & Hsp); [apply one_ok|lia|reflexivity|simpl; lia|].
      unfold d0, with_words, run. rewrite Hr. exact Hsp.
    + apply demo_area; lia.
    + vm_compute. split; [reflexivity|discriminate].
    + intros i Hi.
      assert (forallb (λ i, bool_decide (user_byte one.1 (d_mem d0) (0x1100 + Z.of_nat i)
        = words_enc 8 (User.packed_array 3 0 5 4096) !! i)) (seq 0 32) = true) as Hb by (vm_compute; reflexivity).
      rewrite forallb_forall in Hb. specialize (Hb i ltac:(apply in_seq; lia)). by apply bool_decide_eq_true in Hb.
  - change (syscall (r_id (User.sys_openat (-100) 0x1200 0x200)) (r_args (User.sys_openat (-100) 0x1200 0x200)) d0
      = k_call (Openat (-100) 0x1200 0x200) d0).
    apply (syscall_delivered d0 0 (Openat (-100) 0x1200 0x200) (User.sys_openat (-100) 0x1200 0x200)); [|exact I|reflexivity].
    split; [unfold is_isize; lia|unfold is_u32; lia].
Defined.

(** The arguments of [mmap] arrive shuffled when their array crosses a page. *)
Lemma packed_across_pages :
  match unpack_args 4 (ms_token one.1) 0x1fe8 (with_words 0x1fe8 [1; 2; 3; 4]) with
  | Ok (ws, _) => ws = [1; 4; 3; 0]
  | Err _ => False
  end.
Proof. vm_compute. reflexivity. Qed.

Lemma Ok_inj {A S} (a : A) (s s' : S) : Ok (a, s) = Ok (a, s') → s = s'.
Proof. congruence. Qed.
Lemma get_time_reads_clock_witness :
  ∃ s', k_sys_get_time id 24691356 (ms_token one.1) 0x1100 one.2 = Ok (0, s') ∧ get_time 0 (mkTV 2 57613) = 2057.
Proof.
  destruct (get_time_reads_clock 5 one.1 one.2 id 24691356 0x1100) as (s' & H1 & _ & H2).
  - apply one_ok.
  - apply demo_area; lia.
  - vm_compute. split; [reflexivity|discriminate].
  - unfold is_u64. lia.
  - exists s'. split; [exact H1|]. apply (H2 2 57613); [unfold is_u64; lia..|].
    assert (k_sys_get_time id 24691356 (ms_token one.1) 0x1100 one.2 =
      Ok (0, (run (k_sys_get_time id 24691356 (ms_token one.1) 0x1100) one.2 0).2)) as H3 by (vm_compute; reflexivity).
    rewrite H1 in H3. apply Ok_inj in H3 as ->. intros i Hi.
    assert (forallb (λ i, bool_decide (user_byte one.1 (run (k_sys_get_time id 24691356 (ms_token one.1) 0x1100) one.2 0).2 (0x1100 + Z.of_nat i)
      = timeval_enc (mkTV 2 57613) !! i)) (seq 0 16) = true) as Hb by (vm_compute; reflexivity).
    rewrite forallb_forall in Hb. specialize (Hb i ltac:(apply in_seq; lia)). by apply bool_decide_eq_true in Hb.
Defined.
End AbiDemo.
