(* ===== verification/Trap.v ===== *)
(** * Traps (os/src/trap/mod.rs, trap.S)

    A trap saves the user's registers in the trap context, [trap_handler]
    dispatches on its cause, delivers signals, and [trap_return] restores the
    registers.  What the handler calls is in other files and is the class
    [TrapOps].  The program sees a system call as an instruction that changes
    one register, and a signal handler's return as if nothing had happened. *)
From S2P Require Import Prelude Bytes Address FrameAllocator PageTable MemorySet Signal Abi.

(** ** The registers of the hart *)
Record hart := mkHart { stvec : Z; sscratch : Z; sie : bool }.
(** User registers and program counter. *)
Record uregs := mkU { u_x : list Z; u_status : Z; u_pc : Z }.

(** *** trap.S: [__alltraps] stores every register but x0 and x4 (tp) in the
    context; [__restore] loads the same ones, x0 being zero and x4 left as it is. *)
Definition saved : list nat := [1; 3]%nat ++ seq 5 27 ++ [2%nat].
Fixpoint store_regs (ns : list nat) (x slots : list Z) : list Z :=
  match ns with
  | [] => slots
  | n :: rest => store_regs rest x (match x !! n with Some v => <[n := v]> slots | None => slots end)
  end.
Definition alltraps (u : uregs) (cx : TrapContext) : TrapContext :=
  mkTrap (store_regs saved (u_x u) (tc_x cx)) (u_status u) (u_pc u) (kernel_satp cx) (kernel_sp cx) (tc_trap_handler cx).
(** [x] are the registers when [__restore] starts. *)
Definition restore (cx : TrapContext) (x : list Z) : uregs := mkU (store_regs saved (tc_x cx) x) (sstatus cx) (sepc cx).

(** *** trap/mod.rs *)
Inductive cause :=
| UserEnvCall
| StoreFault | LoadFault | InstructionFault | InstructionPageFault | StorePageFault | LoadPageFault
| IllegalInstruction
| SupervisorTimer | SupervisorExternal
| OtherTrap.

Class TrapOps (S : Type) := {
  t_cx : M S TrapContext;                        (* current_trap_cx, read *)
  t_set_cx : TrapContext → M S ();               (* current_trap_cx, written *)
  t_cx_user_va : M S Z;
  t_user_token : M S Z;
  t_syscall : Z → Z * Z * Z → M S Z;
  t_handle_page_fault : Z → M S bool;
  t_add_signal : Z → M S ();
  t_set_next_trigger : M S ();
  t_check_timer : M S ();
  t_suspend : M S ();
  t_irq_handler : M S ();
  t_handle_signals : M S ();
  t_signals_error : M S (option Z);
  t_exit : Z → M S ();                           (* does not come back *)
}.

Section handler.
Context {S : Type} `{!TrapOps S}.
(** The addresses of [__alltraps_k] in the trampoline and of [trap_from_kernel]. *)
Context (alltraps_k_va trap_from_kernel_va : Z).

Definition on_hart (f : hart → hart) : M (hart * S) () := λ '(h, s), Ok ((), (f h, s)).
Definition on_os {A} (c : M S A) : M (hart * S) A := λ '(h, s),
  match c s with Ok (a, s') => Ok (a, (h, s')) | Err e => Err e end.

Definition set_kernel_trap_entry : M (hart * S) () := on_hart (λ h, mkHart alltraps_k_va trap_from_kernel_va (sie h)).
Definition set_user_trap_entry : M (hart * S) () := on_hart (λ h, mkHart TRAMPOLINE (sscratch h) (sie h)).
Definition enable_supervisor_interrupt : M (hart * S) () := on_hart (λ h, mkHart (stvec h) (sscratch h) true).
Definition disable_supervisor_interrupt : M (hart * S) () := on_hart (λ h, mkHart (stvec h) (sscratch h) false).

(** How a trap ends: in [__restore] with its two arguments, or with the thread gone. *)
Inductive trap_end := Returns (trap_cx_ptr user_satp : Z) | Gone.

Definition trap_return : M (hart * S) trap_end :=
  disable_supervisor_interrupt ≫= λ _,
  set_user_trap_entry ≫= λ _,
  on_os t_cx_user_va ≫= λ trap_cx_ptr,
  on_os t_user_token ≫= λ user_satp,
  mret (Returns trap_cx_ptr user_satp).

Definition handle_ecall : M (hart * S) () :=
  on_os t_cx ≫= λ cx,
  let cx := set_sepc (u64 (sepc cx + 4)) cx in
  on_os (t_set_cx cx) ≫= λ _,
  enable_supervisor_interrupt ≫= λ _,
  match tc_x cx !! 17%nat, tc_x cx !! 10%nat, tc_x cx !! 11%nat, tc_x cx !! 12%nat with
  | Some id, Some a0, Some a1, Some a2 =>
      on_os (t_syscall id (a0, a1, a2)) ≫= λ ret,
      on_os t_cx ≫= λ cx, on_os (t_set_cx (set_x 10 (as_usize ret) cx))
  | _, _, _, _ => panic
  end.
Definition handle_timer : M (hart * S) () := on_os t_set_next_trigger ≫= λ _, on_os t_check_timer.

Definition trap_handler (c : cause) (stval : Z) : M (hart * S) trap_end :=
  set_kernel_trap_entry ≫= λ _,
  match c with
  | UserEnvCall => handle_ecall
  | StoreFault | LoadFault | InstructionFault | InstructionPageFault | StorePageFault | LoadPageFault =>
      on_os (t_handle_page_fault stval) ≫= λ served : bool,
      if served then mret () else on_os (t_add_signal SIGSEGV)
  | IllegalInstruction => on_os (t_add_signal SIGILL)
  | SupervisorTimer => handle_timer ≫= λ _, on_os t_suspend
  | SupervisorExternal => on_os t_irq_handler
  | OtherTrap => panic
  end ≫= λ _,
  on_os t_handle_signals ≫= λ _,
  on_os t_signals_error ≫= λ e : option Z,
  match e with
  | Some errno => on_os (t_exit errno) ≫= λ _, mret Gone
  | None => trap_return
  end.

Definition trap_from_kernel (c : cause) : M (hart * S) () :=
  match c with
  | SupervisorExternal => on_os t_irq_handler
  | SupervisorTimer => handle_timer
  | _ => panic
  end.
End handler.

(** ** Saving and restoring *)
Lemma store_regs_lookup ns x slots i :
  length x = length slots → store_regs ns x slots !! i = if decide (i ∈ ns) then x !! i else slots !! i.
Proof.
  revert slots. induction ns as [|n ns IH]; intros slots Hl; [done|]. cbn [store_regs].
  assert (length x = length (match x !! n with Some v => <[n := v]> slots | None => slots end)) as Hl'
    by (destruct (x !! n); by rewrite ?length_insert).
  rewrite IH by done. destruct (decide (i ∈ ns)) as [Hin|Hin]; [by rewrite decide_True by set_solver|].
  destruct (decide (i = n)) as [->|Hne]; [rewrite decide_True by set_solver|rewrite decide_False by set_solver].
  - destruct (x !! n) as [v|] eqn:Hx.
    + apply list_lookup_insert_eq. apply lookup_lt_Some in Hx. lia.
    + apply lookup_ge_None in Hx. apply lookup_ge_None. lia.
  - destruct (x !! n); [by rewrite list_lookup_insert_ne|done].
Qed.
Lemma length_store_regs ns x slots : length (store_regs ns x slots) = length slots.
Proof. revert slots. induction ns as [|n ns IH]; intros slots; [done|]. cbn [store_regs]. rewrite IH. destruct (x !! n); by rewrite ?length_insert. Qed.
Lemma saved_iff i : i ∈ saved ↔ (i < 32)%nat ∧ i ≠ 0%nat ∧ i ≠ 4%nat.
Proof. unfold saved. rewrite !elem_of_app, elem_of_seq, !elem_of_cons, !elem_of_nil. lia. Qed.
#[local] Opaque saved.

(** The kernel keeps x0 and does not use tp. *)
Definition keeps_tp (u : uregs) (x : list Z) : Prop :=
  length x = 32%nat ∧ x !! 0%nat = u_x u !! 0%nat ∧ x !! 4%nat = u_x u !! 4%nat.
Definition uregs_ok (u : uregs) : Prop := length (u_x u) = 32%nat.

(** What a program finds after a trap: the context, whatever the kernel did to it. *)
Lemma restore_alltraps u cx x i v pc :
  uregs_ok u → length (tc_x cx) = 32%nat → keeps_tp u x → i ∈ saved →
  restore (set_x i v (set_sepc pc (alltraps u cx))) x = mkU (<[i := v]> (u_x u)) (u_status u) pc.
Proof.
  intros Hu Hcx (Hx & H0 & H4) Hi. unfold restore, set_x, set_sepc, alltraps. cbn [tc_x sstatus sepc]. f_equal. apply list_eq. intros j.
  assert (length (store_regs saved (u_x u) (tc_x cx)) = 32%nat) as Hl by (by rewrite length_store_regs).
  rewrite store_regs_lookup by (rewrite length_insert; lia). unfold uregs_ok in Hu.
  destruct (proj1 (saved_iff i) Hi) as [Hlt _].
  destruct (decide (j ∈ saved)) as [Hj|Hj].
  - destruct (decide (j = i)) as [->|Hne]; [by rewrite !list_lookup_insert_eq by lia|].
    rewrite !list_lookup_insert_ne by done. rewrite store_regs_lookup by lia. by rewrite decide_True.
  - assert (j ≠ i) as Hne by congruence. rewrite list_lookup_insert_ne by done.
    destruct (decide (j < 32)%nat) as [Hjl|Hjl].
    { rewrite saved_iff in Hj. assert (j = 0%nat ∨ j = 4%nat) as [->| ->] by lia; done. }
    rewrite !lookup_ge_None_2 by lia. done.
Qed.
Lemma restore_unchanged u cx x :
  uregs_ok u → length (tc_x cx) = 32%nat → keeps_tp u x → restore (alltraps u cx) x = u.
Proof.
  intros Hu Hcx Hk. destruct (lookup_lt_is_Some_2 (u_x u) 1) as [v Hv]; [unfold uregs_ok in Hu; lia|].
  pose proof (restore_alltraps u cx x 1 v (u_pc u) Hu Hcx Hk) as H. rewrite list_insert_id in H by done.
  transitivity (mkU (u_x u) (u_status u) (u_pc u)); [|by destruct u]. rewrite <- H by (apply saved_iff; lia). f_equal.
  unfold set_x, set_sepc, alltraps. cbn [tc_x sstatus sepc kernel_satp kernel_sp tc_trap_handler]. f_equal.
  symmetry. apply list_insert_id. rewrite (store_regs_lookup saved) by (unfold uregs_ok in Hu; lia).
  rewrite decide_True by (apply saved_iff; lia). done.
Qed.

(** ** System calls *)
Class TrapLaws (S : Type) `{TrapOps S} := {
  t_cx_reads : ∀ s cx s', t_cx s = Ok (cx, s') → s' = s;
  t_set_get : ∀ s cx0 cx, t_cx s = Ok (cx0, s) → ∃ s', t_set_cx cx s = Ok ((), s') ∧ t_cx s' = Ok (cx, s');
  t_return_args : ∀ s cx, t_cx s = Ok (cx, s) → ∃ p tok, t_cx_user_va s = Ok (p, s) ∧ t_user_token s = Ok (tok, s);
}.

Section calls.
Context {S : Type} `{!TrapOps S, !TrapLaws S}.
Context (k_va k_handler : Z).
Implicit Types (s : S) (h : hart).

Lemma on_os_Ok {A} (c : M S A) h s a s' : c s = Ok (a, s') → on_os c (h, s) = Ok (a, (h, s')).
Proof. intros H. unfold on_os. by rewrite H. Qed.

(** No signal is pending that would change anything. *)
Definition quiet s : Prop := t_handle_signals s = Ok ((), s) ∧ t_signals_error s = Ok (None, s).

Lemma trap_return_run h s p tok :
  t_cx_user_va s = Ok (p, s) → t_user_token s = Ok (tok, s) →
  trap_return (h, s) = Ok (Returns p tok, (mkHart TRAMPOLINE (sscratch h) false, s)).
Proof.
  intros Hp Ht. unfold trap_return.
  rewrite (M_bind_Ok _ _ (h, s) _ _ eq_refl), (M_bind_Ok _ _ (_, s) _ _ eq_refl).
  by rewrite (M_bind_Ok _ _ _ _ _ (on_os_Ok _ _ _ _ _ Hp)), (M_bind_Ok _ _ _ _ _ (on_os_Ok _ _ _ _ _ Ht)).
Qed.

Lemma handle_ecall_run h s cx id a0 a1 a2 s1 ret s2 cx2 :
  let cx1 := set_sepc (u64 (sepc cx + 4)) cx in
  t_cx s = Ok (cx, s) → t_set_cx cx1 s = Ok ((), s1) →
  tc_x cx !! 17%nat = Some id → tc_x cx !! 10%nat = Some a0 → tc_x cx !! 11%nat = Some a1 → tc_x cx !! 12%nat = Some a2 →
  t_syscall id (a0, a1, a2) s1 = Ok (ret, s2) → t_cx s2 = Ok (cx2, s2) →
  ∃ s3, t_set_cx (set_x 10 (as_usize ret) cx2) s2 = Ok ((), s3) ∧ t_cx s3 = Ok (set_x 10 (as_usize ret) cx2, s3) ∧
    handle_ecall (h, s) = Ok ((), (mkHart (stvec h) (sscratch h) true, s3)).
Proof.
  intros cx1 Hcx Hset H17 H10 H11 H12 Hcall Hcx2.
  destruct (t_set_get s2 cx2 (set_x 10 (as_usize ret) cx2) Hcx2) as (s3 & Hs3 & Hg3). exists s3. split_and!; [done|done|].
  unfold handle_ecall. rewrite (M_bind_Ok _ _ _ _ _ (on_os_Ok _ _ _ _ _ Hcx)). cbv zeta. fold cx1.
  rewrite (M_bind_Ok _ _ _ _ _ (on_os_Ok _ _ _ _ _ Hset)), (M_bind_Ok _ _ (h, s1) _ _ eq_refl).
  change (tc_x cx1) with (tc_x cx). rewrite H17, H10, H11, H12.
  rewrite (M_bind_Ok _ _ _ _ _ (on_os_Ok _ _ _ _ _ Hcall)), (M_bind_Ok _ _ _ _ _ (on_os_Ok _ _ _ _ _ Hcx2)).
  by apply on_os_Ok.
Qed.

Lemma trap_ecall_run h s stval h3 s3 p tok :
  handle_ecall (mkHart k_va k_handler (sie h), s) = Ok ((), (h3, s3)) → quiet s3 →
  t_cx_user_va s3 = Ok (p, s3) → t_user_token s3 = Ok (tok, s3) →
  trap_handler k_va k_handler UserEnvCall stval (h, s) = Ok (Returns p tok, (mkHart TRAMPOLINE (sscratch h3) false, s3)).
Proof.
  intros He [Hq1 Hq2] Hp Htok. unfold trap_handler.
  rewrite (M_bind_Ok _ _ (h, s) _ _ eq_refl), (M_bind_Ok _ _ _ _ _ He).
  rewrite (M_bind_Ok _ _ _ _ _ (on_os_Ok _ _ _ _ _ Hq1)), (M_bind_Ok _ _ _ _ _ (on_os_Ok _ _ _ _ _ Hq2)).
  by apply trap_return_run.
Qed.
End calls.

(** What the registers hold when the library makes a call. *)
Definition holds (u : uregs) (r : regs) : Prop :=
  u_x u !! 17%nat = Some (r_id r) ∧ u_x u !! 10%nat = Some (r_args r).1.1 ∧
  u_x u !! 11%nat = Some (r_args r).1.2 ∧ u_x u !! 12%nat = Some (r_args r).2.

(** C11 A system call as the program sees it.  The [ecall] the library makes for a
    call runs exactly that call in the kernel, and the program goes on at the next
    instruction with its result in [a0] and every other register as it was; the
    trap vector is the user one again and interrupts are off on the way back. *)
Theorem syscall_transparent {S : Type} `{!KernelCalls S, !TrapOps S, !TrapLaws S} k_va k_handler h (s s1 s2 : S) stval
    u cx0 x packed c r ret :
  let cx := alltraps u cx0 in
  let cx1 := set_sepc (u64 (u_pc u + 4)) cx in
  (∀ id args, t_syscall id args = syscall id args) →
  uregs_ok u → length (tc_x cx0) = 32%nat → keeps_tp u x →
  encode packed c = Some r → holds u r → call_typed c → prepared s1 packed c →
  t_cx s = Ok (cx, s) → t_set_cx cx1 s = Ok ((), s1) → k_call c s1 = Ok (ret, s2) → t_cx s2 = Ok (cx1, s2) →
  (∀ s3, t_set_cx (set_x 10 (as_usize ret) cx1) s2 = Ok ((), s3) → quiet s3) → is_isize ret →
  ∃ s3 cx3 p tok, trap_handler k_va k_handler UserEnvCall stval (h, s) = Ok (Returns p tok, (mkHart TRAMPOLINE k_handler false, s3)) ∧
    t_cx s3 = Ok (cx3, s3) ∧
    restore cx3 x = mkU (<[10%nat := as_usize ret]> (u_x u)) (u_status u) (u64 (u_pc u + 4)) ∧
    as_isize (as_usize ret) = ret.
Proof.
  intros cx cx1 Hsys Hu Hl0 Hx Henc (H17 & H10 & H11 & H12) Htyped Hprep Hcx Hset Hcall Hcx2 Hq Hret.
  assert (∀ i, i ∈ saved → tc_x cx !! i = u_x u !! i) as Hreg.
  { intros i Hi. unfold cx, alltraps. cbn [tc_x]. rewrite store_regs_lookup by (unfold uregs_ok in Hu; lia). by rewrite decide_True. }
  rewrite <- Hreg in H17, H10, H11, H12 by (apply saved_iff; lia).
  assert (t_syscall (r_id r) ((r_args r).1.1, (r_args r).1.2, (r_args r).2) s1 = Ok (ret, s2)) as Hdisp.
  { rewrite Hsys, <- Hcall, <- (dispatch_encode s1 packed c r Htyped Hprep Henc). by destruct (r_args r) as [[??]?]. }
  destruct (handle_ecall_run (mkHart k_va k_handler (sie h)) s cx _ _ _ _ s1 ret s2 cx1 Hcx Hset H17 H10 H11 H12 Hdisp Hcx2)
    as (s3 & Hs3 & Hg3 & Hrun).
  destruct (t_return_args s3 _ Hg3) as (p & tok & Hp & Htok).
  pose proof (trap_ecall_run k_va k_handler h s stval _ s3 p tok Hrun (Hq s3 Hs3) Hp Htok) as Ht.
  exists s3, (set_x 10 (as_usize ret) cx1), p, tok. split_and!; [done|done| |by apply as_isize_usize].
  apply restore_alltraps; [done|done|done|]. apply saved_iff. lia.
Qed.

(** ** Traps and signals

    The signal state of Signal.v with the rest of the kernel as variables:
    [dispatch] the system calls, [page_fault], what the rest of the system does
    while a stopped thread is suspended, the timer and the devices. *)
Section signals.
Context (cx_va satp : Z) (dispatch : Z → Z * Z * Z → M sst Z) (page_fault : Z → M sst bool).
Context (others : list (sst → sst)) (trigger timer suspend irq : M sst ()) (exit : Z → M sst ()).

Definition sig_cx : M sst TrapContext := current_task ≫= λ t, mret (trap_cx t).
Definition sig_set_cx (cx : TrapContext) : M sst () := current_task ≫= λ t, set_task (mkThread (sigp t) cx).
Definition sig_handle : M sst () :=
  current_handle_signals others ≫= λ done : bool, if done then mret () else lift (Err Diverged).
#[local] Instance signal_ops : TrapOps sst := {
  t_cx := sig_cx;
  t_set_cx := sig_set_cx;
  t_cx_user_va := mret cx_va;
  t_user_token := mret satp;
  t_syscall := dispatch;
  t_handle_page_fault := page_fault;
  t_add_signal := current_add_signal;
  t_set_next_trigger := trigger;
  t_check_timer := timer;
  t_suspend := suspend;
  t_irq_handler := irq;
  t_handle_signals := sig_handle;
  t_signals_error := check_signals_error_of_current;
  t_exit := exit;
}.

Definition put_cx (p : proc) (t : thread) (s : sst) : sst := put_proc (put_thread t p (cur_tid s)) s.
Lemma put_cx_running s p t t' : running s p t → running (put_cx p t' s) (put_thread t' p (cur_tid s)) t'.
Proof.
  intros Hr. apply (running_put s p t); [done|]. simpl. apply list_lookup_insert_eq.
  destruct Hr as [_ Ht]. by eapply lookup_lt_Some.
Qed.
Lemma sig_cx_run s p t : running s p t → sig_cx s = Ok (trap_cx t, s).
Proof. intros Hr. unfold sig_cx. by rewrite (M_bind_Ok _ _ _ _ _ (current_task_run s p t Hr)). Qed.
Lemma set_task_run s p t t' : running s p t → set_task t' s = Ok ((), put_cx p t' s).
Proof. intros [Hp _]. unfold set_task. by rewrite Hp. Qed.
Lemma sig_set_cx_run s p t cx : running s p t → sig_set_cx cx s = Ok ((), put_cx p (mkThread (sigp t) cx) s).
Proof.
  intros Hr. unfold sig_set_cx. rewrite (M_bind_Ok _ _ _ _ _ (current_task_run s p t Hr)). by eapply set_task_run.
Qed.
Lemma put_cx_twice s p t t1 t2 :
  running s p t → put_cx (put_thread t1 p (cur_tid s)) t2 (put_cx p t1 s) = put_cx p t2 s.
Proof.
  intros _. unfold put_cx, put_proc, put_thread. simpl. f_equal. rewrite insert_insert_eq. do 2 f_equal. by rewrite list_insert_insert_eq.
Qed.

#[local] Instance signal_laws : TrapLaws sst.
Proof.
  split.
  - intros s cx s' H. apply bind_inv in H as (t & s1 & Ht & [= _ <-]). unfold current_task in Ht. repeat case_match; naive_solver.
  - intros s cx0 cx H. apply bind_inv in H as (t & s1 & Ht & [= _ ->]). unfold current_task in Ht.
    destruct (procs s !! cur_pid s) as [p|] eqn:Hp; [|done]. simpl in Ht.
    destruct (tasks p !! cur_tid s) as [[t'|]|] eqn:Ht'; simpl in Ht; [|done..].
    injection Ht as ->. assert (running s p t) as Hr by done. exists (put_cx p (mkThread (sigp t) cx) s).
    split; [by apply sig_set_cx_run|]. by erewrite sig_cx_run by (by eapply put_cx_running).
  - intros s cx _. by exists cx_va, satp.
Qed.

(** No signal is deliverable and the thread is not stopped. *)
Lemma handle_quiet s p t :
  running s p t → sp_wf (sigp t) → (∀ n, 0 ≤ n ≤ MAX_SIG → deliverable p t n = false) →
  frozen (sigp t) = false ∨ killed (sigp t) = true → sig_handle s = Ok ((), s).
Proof.
  intros Hr Hwf Hd Hf. unfold sig_handle.
  assert (handle_turn s = Ok (true, s)) as Ht.
  { unfold handle_turn, check_pending_signals. rewrite <- (app_nil_r (seqZ 0 (MAX_SIG + 1))).
    rewrite (M_bind_Ok _ _ s () s).
    - rewrite (M_bind_Ok _ _ _ _ _ (current_task_run s p t Hr)). destruct Hf as [-> | ->]; [done|]. by rewrite orb_true_r.
    - rewrite (check_pending_skip s p t); [done|done|done|]. apply Forall_forall. intros n Hn. apply elem_of_seqZ in Hn.
      split; [lia|]. apply Hd. lia. }
  assert (current_handle_signals others s = Ok (true, s)) as Hc.
  { destruct others; cbn [current_handle_signals]; by rewrite (M_bind_Ok _ _ _ _ _ Ht). }
  by rewrite (M_bind_Ok _ _ _ _ _ Hc).
Qed.

Definition no_signals (p : proc) : Prop := signals p = 0.
Lemma no_signals_quiet s p t :
  running s p t → sp_wf (sigp t) → no_signals p → frozen (sigp t) = false → quiet s.
Proof.
  intros Hr Hwf Hns Hf. split.
  - apply (handle_quiet s p t); [done|done| |by left]. intros n _. unfold deliverable. by rewrite Hns, Z.testbit_0_l.
  - cbn. unfold check_signals_error_of_current, current_process. destruct Hr as [Hp _].
    unfold mbind, M_bind. rewrite Hp. by rewrite Hns.
Qed.

(** C13 Returning from a signal handler.  The [sigreturn] trap puts the program back
    where the signal interrupted it: all its registers, [a0] and the program
    counter included, are those it was interrupted with, although the trap
    handler stores a result in [a0]. *)
Theorem sigreturn_resumes k_va k_handler h s p t stval u cx0 x a1 a2 a0 a0' :
  (∀ args s, dispatch SYSCALL_SIGRETURN args s = sys_sigreturn s) →
  running s p t → sp_wf (sigp t) → no_signals p → frozen (sigp t) = false →
  uregs_ok u → length (tc_x cx0) = 32%nat → keeps_tp u x → u_x u !! 10%nat = Some a0 → is_u64 a0 →
  trap_cx_backup (sigp t) = Some (alltraps u cx0) →
  tc_x (trap_cx t) !! 17%nat = Some SYSCALL_SIGRETURN → tc_x (trap_cx t) !! 10%nat = Some a0' →
  tc_x (trap_cx t) !! 11%nat = Some a1 → tc_x (trap_cx t) !! 12%nat = Some a2 →
  ∃ s' p' t', trap_handler k_va k_handler UserEnvCall stval (h, s) =
      Ok (Returns cx_va satp, (mkHart TRAMPOLINE k_handler false, s')) ∧
    running s' p' t' ∧ restore (trap_cx t') x = u ∧ sigp t' = set_handling None None (sigp t).
Proof.
  intros Hdis Hr Hwf Hns Hfz Hu Hl0 Hx H10 Ha0 Hbk G17 G10 G11 G12. set (bk := alltraps u cx0) in *.
  set (cx1 := set_sepc (u64 (sepc (trap_cx t) + 4)) (trap_cx t)). set (s1 := put_cx p (mkThread (sigp t) cx1) s).
  set (t2 := mkThread (set_handling None None (sigp t)) bk). set (s2 := put_cx p t2 s).
  assert (running s1 (put_thread (mkThread (sigp t) cx1) p (cur_tid s)) (mkThread (sigp t) cx1)) as Hr1 by (by eapply put_cx_running).
  assert (running s2 (put_thread t2 p (cur_tid s)) t2) as Hr2 by (by eapply put_cx_running).
  assert (tc_x bk !! 10%nat = Some a0) as Hb10.
  { unfold bk, alltraps. cbn [tc_x]. rewrite (store_regs_lookup saved) by (unfold uregs_ok in Hu; lia).
    by rewrite decide_True by (apply saved_iff; lia). }
  assert (sys_sigreturn s1 = Ok (a0, s2)) as Hret.
  { unfold sys_sigreturn. rewrite (M_bind_Ok _ _ _ _ _ (current_task_run _ _ _ Hr1)). cbn [sigp]. rewrite Hbk.
    rewrite (M_bind_Ok _ _ s1 bk s1 eq_refl). rewrite Hb10. rewrite (M_bind_Ok _ _ s1 a0 s1 eq_refl).
    rewrite (M_bind_Ok _ _ _ _ _ (set_task_run _ _ _ _ Hr1)). unfold s1, s2.
    change (cur_tid s) with (cur_tid (put_cx p (mkThread (sigp t) cx1) s)) at 1. by rewrite (put_cx_twice s p t). }
  destruct (handle_ecall_run (mkHart k_va k_handler (sie h)) s (trap_cx t) SYSCALL_SIGRETURN a0' a1 a2 s1 a0 s2 bk)
    as (s3 & Hs3 & Hg3 & Hrun); [by eapply sig_cx_run|by eapply sig_set_cx_run|done|done|done|done|etrans; [apply Hdis|exact Hret]|exact (sig_cx_run _ _ _ Hr2)|].
  assert (set_x 10 (as_usize a0) bk = bk) as Hsame.
  { unfold set_x. destruct bk as [bx b1 b2 b3 b4 b5]. cbn in *. f_equal. apply list_insert_id. unfold as_usize. by rewrite u64_id. }
  rewrite Hsame in *. cbn in Hs3. rewrite (sig_set_cx_run _ _ _ _ Hr2) in Hs3. injection Hs3 as <-.
  set (t3 := mkThread (sigp t2) bk). pose proof (put_cx_running _ _ _ t3 Hr2) as Hr3.
  eexists _, _, t3. split_and!; [|exact Hr3|by apply restore_unchanged|done].
  apply (trap_ecall_run k_va k_handler h s stval _ _ cx_va satp Hrun); [|done|done].
  eapply no_signals_quiet; [exact Hr3|split; [apply Hwf|done]|exact Hns|exact Hfz].
Qed.

Definition is_fault (c : cause) : bool :=
  match c with
  | StoreFault | LoadFault | InstructionFault | InstructionPageFault | StorePageFault | LoadPageFault => true
  | _ => false
  end.

(** A signal that is pending without a handler stays pending. *)
Lemma handle_default s p t n a :
  running s p t → sp_wf (sigp t) → 0 ≤ n ≤ MAX_SIG → signals p = 2 ^ n → is_kernel_signal (2 ^ n) = false →
  signal_actions (sigp t) !! Z.to_nat n = Some a → handler a = 0 →
  frozen (sigp t) = false ∨ killed (sigp t) = true → sig_handle s = Ok ((), s).
Proof.
  intros Hr Hwf Hn Hsig Hk Ha Hh Hf. unfold MAX_SIG in Hn.
  assert (check_pending_signals s = Ok ((), s)) as Hc.
  { unfold check_pending_signals, MAX_SIG. replace (31 + 1) with (n + (1 + (31 - n))) by lia. rewrite !seqZ_app by lia.
    rewrite (check_pending_skip s p t); [|done|done|].
    2: { apply Forall_forall. intros k Hkn. apply elem_of_seqZ in Hkn. split; [lia|]. unfold deliverable.
         rewrite Hsig, Z.pow2_bits_eqb by lia. by rewrite (proj2 (Z.eqb_neq n k)) by lia. }
    change (seqZ (0 + n) 1) with [0 + n]. rewrite Z.add_0_l. cbn [app]. rewrite (check_pending_step s p t) by (done || lia).
    destruct (deliverable p t n).
    - unfold deliver_one. rewrite Hk. rewrite (user_run s p t n a) by (done || unfold MAX_SIG; lia). by rewrite Hh.
    - rewrite <- (app_nil_r (seqZ _ _)). rewrite (check_pending_skip s p t); [done|done|done|].
      apply Forall_forall. intros k Hkn. apply elem_of_seqZ in Hkn. split; [lia|]. unfold deliverable.
      rewrite Hsig, Z.pow2_bits_eqb by lia. by rewrite (proj2 (Z.eqb_neq n k)) by lia. }
  assert (handle_turn s = Ok (true, s)) as Ht.
  { unfold handle_turn. rewrite (M_bind_Ok _ _ _ _ _ Hc), (M_bind_Ok _ _ _ _ _ (current_task_run s p t Hr)).
    destruct Hf as [-> | ->]; [done|]. by rewrite orb_true_r. }
  unfold sig_handle. rewrite (M_bind_Ok _ _ s true s); [done|].
  destruct others; cbn [current_handle_signals]; by rewrite (M_bind_Ok _ _ _ _ _ Ht).
Qed.

(** C38 A bad access ends the process.  A fault that demand paging does not serve, in a
    program without a handler for it, makes the kernel end the process with
    code -11; the machine does not panic and the thread does not return to the
    instruction. *)
Theorem bad_access_exits k_va k_handler h s p t stval c a s' :
  is_fault c = true → page_fault stval s = Ok (false, s) →
  running s p t → sp_wf (sigp t) → no_signals p → frozen (sigp t) = false →
  signal_actions (sigp t) !! 11%nat = Some a → handler a = 0 →
  exit (-11) (put_proc (mkProc SIGSEGV (tasks p)) s) = Ok ((), s') →
  trap_handler k_va k_handler c stval (h, s) = Ok (Gone, (mkHart k_va k_handler (sie h), s')).
Proof.
  intros Hc Hpf Hr Hwf Hns Hfz Ha Hh Hex. set (s1 := put_proc (mkProc SIGSEGV (tasks p)) s) in *.
  assert (running s1 (mkProc SIGSEGV (tasks p)) t) as Hr1 by (eapply running_put; [exact Hr|apply Hr]).
  assert (current_add_signal SIGSEGV s = Ok ((), s1)) as Hadd.
  { unfold current_add_signal, current_process, mbind, M_bind. destruct Hr as [-> _]. unfold set_process. by rewrite Hns. }
  assert (sig_handle s1 = Ok ((), s1)) as Hh1.
  { apply (handle_default s1 (mkProc SIGSEGV (tasks p)) t 11 a); try done. by left. }
  assert (check_signals_error_of_current s1 = Ok (Some (-11), s1)) as He.
  { unfold check_signals_error_of_current, current_process, mbind, M_bind. destruct Hr1 as [-> _]. done. }
  unfold trap_handler. rewrite (M_bind_Ok _ _ (h, s) () (mkHart k_va k_handler (sie h), s) eq_refl).
  rewrite (M_bind_Ok _ _ _ () (mkHart k_va k_handler (sie h), s1)).
  2: { pose proof (on_os_Ok (page_fault stval) (mkHart k_va k_handler (sie h)) s false s Hpf) as Hp.
       pose proof (on_os_Ok (current_add_signal SIGSEGV) (mkHart k_va k_handler (sie h)) s () s1 Hadd) as Hq.
       destruct c; try done; by rewrite (M_bind_Ok _ _ _ _ _ Hp). }
  rewrite (M_bind_Ok _ _ _ _ _ (on_os_Ok _ _ _ _ _ Hh1)), (M_bind_Ok _ _ _ _ _ (on_os_Ok _ _ _ _ _ He)).
  by rewrite (M_bind_Ok _ _ _ _ _ (on_os_Ok _ _ _ _ _ Hex)).
Qed.
End signals.

(** ** A process with one handler *)
Module TrapDemo.
Import SignalDemo.
(** The signal calls, dispatched; the other calls and memory play no part. *)
#[local] Instance demo_calls : KernelCalls sst := {
  k_call c := match c with
              | Kill pid n => sys_kill pid n
              | Sigprocmask m => sys_sigprocmask m
              | Sigaction n a o => sys_sigaction n a o
              | Sigreturn => sys_sigreturn
              | _ => mret (-1)
              end;
  k_space _ := mkMS (mkPT 0 []) [];
  k_kmem _ := mkMem (mkFA 0 0 []) ∅;
  k_set_kmem _ s := s;
  k_set_id s := eq_refl;
}.
Definition gone : Z → M sst () := λ _, mret ().
#[local] Instance demo_ops : TrapOps sst :=
  signal_ops 0x3f000 0x80001 (@syscall sst _) (λ _, mret false) [] (mret ()) (mret ()) (mret ()) (mret ()) gone.
#[local] Instance demo_laws : TrapLaws sst := signal_laws 0x3f000 0x80001 _ _ _ _ _ _ _ _.

(** The program's registers, [a7] and [a0] holding a call. *)
Definition user (id a0 : Z) : uregs := mkU (<[17%nat := id]> (<[10%nat := a0]> (<[11%nat := 0]> (<[12%nat := 0]> (seqZ 0 32))))) 32 0x10400.
Definition asks (id a0 : Z) : sst := st 0 (mkThread sp0 (alltraps (user id a0) cx0)).
Definition step1 : sst := match sig_set_cx (set_sepc 0x10404 (alltraps (user 135 1024) cx0)) (asks 135 1024) with Ok (_, s) => s | Err _ => asks 0 0 end.
Definition step2 : sst := match sys_sigprocmask 1024 step1 with Ok (_, s) => s | Err _ => step1 end.

Lemma demo_user id a0 : uregs_ok (user id a0) ∧ length (tc_x cx0) = 32%nat ∧ keeps_tp (user id a0) (seqZ 0 32).
Proof. split; [unfold uregs_ok, user; cbn [u_x]; by rewrite !length_insert, length_seqZ|]. by split. Qed.

Lemma syscall_transparent_witness :
  ∃ s3 cx3 p tok, trap_handler 0x1000 0x2000 UserEnvCall 0 (mkHart TRAMPOLINE 0 false, asks 135 1024) =
      Ok (Returns p tok, (mkHart TRAMPOLINE 0x2000 false, s3)) ∧ t_cx s3 = Ok (cx3, s3) ∧
    restore cx3 (seqZ 0 32) = mkU (<[10%nat := 0]> (u_x (user 135 1024))) 32 0x10404.
Proof.
  destruct (demo_user 135 1024) as (H1 & H2 & H3).
  destruct (syscall_transparent 0x1000 0x2000 (mkHart TRAMPOLINE 0 false) (asks 135 1024) step1 step2 0 (user 135 1024) cx0 (seqZ 0 32)
    0 (Sigprocmask 1024) (User.sys_sigprocmask 1024) 0) as (s3 & cx3 & p & tok & R1 & R2 & R3 & _).
  - reflexivity.
  - exact H1.
  - exact H2.
  - exact H3.
  - reflexivity.
  - split_and!; reflexivity.
  - split; [discriminate|reflexivity].
  - exact I.
  - vm_compute. reflexivity.
  - vm_compute. reflexivity.
  - vm_compute. reflexivity.
  - vm_compute. reflexivity.
  - intros s3 Hs3. vm_compute in Hs3. injection Hs3 as <-. split; vm_compute; reflexivity.
  - split; [discriminate|reflexivity].
  - exists s3, cx3, p, tok. split; [exact R1|]. split; [exact R2|exact R3].
Defined.

(** A handler that returns. *)
Definition interrupted : SignalProcessor := set_handling (Some 10) (Some (alltraps (user 7 8) cx0)) sp0.
Definition in_handler : sst := st 0 (mkThread interrupted (alltraps (user SYSCALL_SIGRETURN 99) cx0)).
Lemma sigreturn_resumes_witness :
  ∃ s' p' t', trap_handler 0x1000 0x2000 UserEnvCall 0 (mkHart TRAMPOLINE 0 false, in_handler) =
      Ok (Returns 0x3f000 0x80001, (mkHart TRAMPOLINE 0x2000 false, s')) ∧
    running s' p' t' ∧ restore (trap_cx t') (seqZ 0 32) = user 7 8.
Proof.
  destruct (demo_user 7 8) as (H1 & H2 & H3).
  destruct (sigreturn_resumes 0x3f000 0x80001 (@syscall sst _) (λ _, mret false) [] (mret ()) (mret ()) (mret ()) (mret ()) gone
    0x1000 0x2000 (mkHart TRAMPOLINE 0 false) in_handler (mkProc 0 [Some (mkThread interrupted (alltraps (user SYSCALL_SIGRETURN 99) cx0)); Some t1])
    (mkThread interrupted (alltraps (user SYSCALL_SIGRETURN 99) cx0)) 0 (user 7 8) cx0 (seqZ 0 32) 0 0 8 99) as (s' & p' & t' & R1 & R2 & R3 & _).
  - intros [[??]?] s. reflexivity.
  - split; reflexivity.
  - split; [reflexivity|]. intros n Hn. injection Hn as <-. split; discriminate.
  - reflexivity.
  - reflexivity.
  - exact H1.
  - exact H2.
  - exact H3.
  - reflexivity.
  - split; [discriminate|reflexivity].
  - reflexivity.
  - reflexivity.
  - reflexivity.
  - reflexivity.
  - reflexivity.
  - exists s', p', t'. split; [exact R1|]. split; [exact R2|exact R3].
Defined.

Lemma bad_access_exits_witness :
  ∃ s', trap_handler 0x1000 0x2000 LoadPageFault 0xdead (mkHart TRAMPOLINE 0 false, asks 7 8) = Ok (Gone, (mkHart 0x1000 0x2000 false, s')).
Proof.
  eexists. apply (bad_access_exits 0x3f000 0x80001 (@syscall sst _) (λ _, mret false) [] (mret ()) (mret ()) (mret ()) (mret ()) gone
    0x1000 0x2000 (mkHart TRAMPOLINE 0 false) (asks 7 8) (mkProc 0 [Some (mkThread sp0 (alltraps (user 7 8) cx0)); Some t1])
    (mkThread sp0 (alltraps (user 7 8) cx0)) 0xdead LoadPageFault default_action).
  - reflexivity.
  - reflexivity.
  - split; reflexivity.
  - split; [reflexivity|discriminate].
  - reflexivity.
  - reflexivity.
  - reflexivity.
  - reflexivity.
  - reflexivity.
Defined.
End TrapDemo.
