(* ===== verification/Asm.v ===== *)
(** * The assembly of the kernel (os/src/task/switch.S, os/src/trap/trap.S)

    The instructions of the context switch and of the trap entries and exits on
    the registers and the memory of the hart.  [__switch] stores the registers a
    function must keep in one context and loads them from another.  [__alltraps]
    and [__restore] implement what Trap.v says of them; [__alltraps_k] and
    [__restore_k] bracket an interrupt taken in the kernel. *)
From S2P Require Import Prelude Signal Trap.

(** ** The machine *)
Inductive csr := SSTATUS | SEPC | SATP | SSCRATCH.
Inductive instr :=
| Sd (rs : nat) (off : Z) (rb : nat)
| Ld (rd : nat) (off : Z) (rb : nat)
| Addi (rd rs : nat) (imm : Z)
| Mv (rd rs : nat)
| Csrr (rd : nat) (c : csr)
| Csrw (c : csr) (rs : nat)
| Csrrw (rd : nat) (c : csr) (rs : nat)
| SfenceVma.

(** Registers x0 to x31, the control registers, and the doublewords of memory
    by their physical address.  No routine writes x0. *)
Record mach := mkM { xs : list Z; c_status : Z; c_epc : Z; c_satp : Z; c_scratch : Z; ram : gmap Z Z }.
Definition with_xs (x : list Z) (s : mach) : mach := mkM x (c_status s) (c_epc s) (c_satp s) (c_scratch s) (ram s).
Definition with_ram (m : gmap Z Z) (s : mach) : mach := mkM (xs s) (c_status s) (c_epc s) (c_satp s) (c_scratch s) m.
Definition set_reg (r : nat) (v : Z) (s : mach) : mach := with_xs (<[r := v]> (xs s)) s.
Definition csr_get (c : csr) (s : mach) : Z :=
  match c with SSTATUS => c_status s | SEPC => c_epc s | SATP => c_satp s | SSCRATCH => c_scratch s end.
Definition csr_set (c : csr) (v : Z) (s : mach) : mach :=
  match c with
  | SSTATUS => mkM (xs s) v (c_epc s) (c_satp s) (c_scratch s) (ram s)
  | SEPC => mkM (xs s) (c_status s) v (c_satp s) (c_scratch s) (ram s)
  | SATP => mkM (xs s) (c_status s) (c_epc s) v (c_scratch s) (ram s)
  | SSCRATCH => mkM (xs s) (c_status s) (c_epc s) (c_satp s) v (ram s)
  end.

Abbreviation RA := 1%nat.
Abbreviation SP := 2%nat.
Abbreviation T0 := 5%nat.
Abbreviation T1 := 6%nat.
Abbreviation T2 := 7%nat.
Abbreviation A0 := 10%nat.
Abbreviation A1 := 11%nat.

(** ** switch.S *)
(** The number of register [s]n. *)
Definition sreg (n : nat) : nat := if (n <? 2)%nat then (8 + n)%nat else (16 + n)%nat.
Definition SAVE_SN (n : nat) : instr := Sd (sreg n) ((Z.of_nat n + 2) * 8) A0.
Definition LOAD_SN (n : nat) : instr := Ld (sreg n) ((Z.of_nat n + 2) * 8) A1.
(** Up to [ret], which continues at [ra]. *)
Definition __switch : list instr :=
  [Sd SP 8 A0; Sd RA 0 A0] ++ (SAVE_SN <$> seq 0 12) ++
  [Ld RA 0 A1] ++ (LOAD_SN <$> seq 0 12) ++ [Ld SP 8 A1].

(** ** trap.S *)
Definition SAVE_GP (n : nat) : instr := Sd n (Z.of_nat n * 8) SP.
Definition LOAD_GP (n : nat) : instr := Ld n (Z.of_nat n * 8) SP.
(** Up to [jr t1]. *)
Definition __alltraps : list instr :=
  [Csrrw SP SSCRATCH SP; SAVE_GP 1; SAVE_GP 3] ++ (SAVE_GP <$> seq 5 27) ++
  [Csrr T0 SSTATUS; Csrr T1 SEPC; Sd T0 (32 * 8) SP; Sd T1 (33 * 8) SP; Csrr T2 SSCRATCH; Sd T2 (2 * 8) SP;
   Ld T0 (34 * 8) SP; Ld T1 (36 * 8) SP; Ld SP (35 * 8) SP; Csrw SATP T0; SfenceVma].
(** Up to [sret], which continues at [sepc]. *)
Definition __restore : list instr :=
  [Csrw SATP A1; SfenceVma; Csrw SSCRATCH A0; Mv SP A0;
   Ld T0 (32 * 8) SP; Ld T1 (33 * 8) SP; Csrw SSTATUS T0; Csrw SEPC T1; LOAD_GP 1; LOAD_GP 3] ++
  (LOAD_GP <$> seq 5 27) ++ [LOAD_GP 2].
(** Up to [jalr t2]. *)
Definition __alltraps_k : list instr :=
  [Addi SP SP (-34 * 8); SAVE_GP 1; SAVE_GP 3] ++ (SAVE_GP <$> seq 5 27) ++
  [Csrr T0 SSTATUS; Csrr T1 SEPC; Sd T0 (32 * 8) SP; Sd T1 (33 * 8) SP; Mv A0 SP; Csrr T2 SSCRATCH].
Definition __restore_k : list instr :=
  [Ld T0 (32 * 8) SP; Ld T1 (33 * 8) SP; Csrw SSTATUS T0; Csrw SEPC T1; LOAD_GP 1; LOAD_GP 3] ++
  (LOAD_GP <$> seq 5 27) ++ [Addi SP SP (34 * 8)].

(** ** task/context.rs *)
Record TaskContext := mkTC { tx_ra : Z; tx_sp : Z; tx_s : list Z }.
Definition zero_init : TaskContext := mkTC 0 0 (replicate 12 0).
(** [trap_return_va] is the address of [trap_return]. *)
Definition goto_trap_return (trap_return_va kstack_ptr : Z) : TaskContext := mkTC trap_return_va kstack_ptr (replicate 12 0).
(** What a context holds of the registers of a flow. *)
Definition callee (x : list Z) : TaskContext := mkTC (x !!! RA) (x !!! SP) ((λ n, x !!! sreg n) <$> seq 0 12).

Section asm.
(** The translation of virtual addresses under a value of [satp]. *)
Context (tr : Z → Z → Z).

Definition addr (s : mach) (rb : nat) (off : Z) : Z := tr (c_satp s) (u64 (xs s !!! rb + off)).
Definition exec1 (i : instr) (s : mach) : mach :=
  match i with
  | Sd r off b => with_ram (<[addr s b off := xs s !!! r]> (ram s)) s
  | Ld r off b => set_reg r (ram s !!! addr s b off) s
  | Addi rd rs imm => set_reg rd (u64 (xs s !!! rs + imm)) s
  | Mv rd rs => set_reg rd (xs s !!! rs) s
  | Csrr rd c => set_reg rd (csr_get c s) s
  | Csrw c rs => csr_set c (xs s !!! rs) s
  | Csrrw rd c rs => set_reg rd (csr_get c s) (csr_set c (xs s !!! rs) s)
  | SfenceVma => s
  end.
Definition exec (l : list instr) (s : mach) : mach := foldl (λ s i, exec1 i s) s l.

(** The words at an address, and a task context there. *)
Definition word (satp p : Z) (i : nat) : Z := tr satp (u64 (p + Z.of_nat i * 8)).
Definition cx_at (m : gmap Z Z) (w : nat → Z) : TaskContext :=
  mkTC (m !!! w 0%nat) (m !!! w 1%nat) ((λ n, m !!! w (n + 2)%nat) <$> seq 0 12).
Definition trap_cx_at (m : gmap Z Z) (w : nat → Z) : TrapContext :=
  mkTrap ((λ i, m !!! w i) <$> seq 0 32) (m !!! w 32%nat) (m !!! w 33%nat) (m !!! w 34%nat) (m !!! w 35%nat) (m !!! w 36%nat).

(** ** Blocks of stores and of loads *)
Definition stores (l : list (nat * nat)) (b : nat) : list instr := (λ '(r, i), Sd r (Z.of_nat i * 8) b) <$> l.
Definition loads (l : list (nat * nat)) (b : nat) : list instr := (λ '(r, i), Ld r (Z.of_nat i * 8) b) <$> l.
Definition poke (w : nat → Z) (l : list (nat * Z)) (m : gmap Z Z) : gmap Z Z := foldl (λ m '(i, v), <[w i := v]> m) m l.
Definition fill (l : list (nat * Z)) (x : list Z) : list Z := foldl (λ x '(r, v), <[r := v]> x) x l.

Lemma exec_app l l' s : exec (l ++ l') s = exec l' (exec l s).
Proof. unfold exec. by rewrite foldl_app. Qed.
Lemma exec_stores l b s :
  exec (stores l b) s = with_ram (poke (word (c_satp s) (xs s !!! b)) ((λ '(r, i), (i, xs s !!! r)) <$> l) (ram s)) s.
Proof. revert s. induction l as [|[r i] l IH]; intros s; [by destruct s|]. unfold exec. cbn. etransitivity; [apply IH|done]. Qed.
Lemma exec_loads l b s : b ∉ l.*1 →
  exec (loads l b) s = with_xs (fill ((λ '(r, i), (r, ram s !!! word (c_satp s) (xs s !!! b) i)) <$> l) (xs s)) s.
Proof.
  revert s. induction l as [|[r i] l IH]; intros s Hb; [by destruct s|]. cbn in Hb. apply not_elem_of_cons in Hb as [Hr Hb].
  transitivity (exec (loads l b) (set_reg r (ram s !!! word (c_satp s) (xs s !!! b) i) s)); [done|].
  rewrite IH by done. unfold set_reg, with_xs. cbn. by rewrite (list_lookup_total_insert_ne _ r b) by done.
Qed.

Lemma poke_app w l l' m : poke w (l ++ l') m = poke w l' (poke w l m).
Proof. unfold poke. by rewrite foldl_app. Qed.
Lemma poke_other w l m a : (∀ i, i ∈ l.*1 → w i ≠ a) → poke w l m !!! a = m !!! a.
Proof.
  revert m. induction l as [|[i v] l IH]; intros m Ha; [done|]. change (poke w l (<[w i := v]> m) !!! a = m !!! a). rewrite IH by (intros j Hj; apply Ha; by right).
  apply lookup_total_insert_ne. apply Ha. by left.
Qed.
(** Words [0..n) that are different places. *)
Definition places (n : nat) (w : nat → Z) : Prop := ∀ i j, (i < n)%nat → (j < n)%nat → w i = w j → i = j.
Lemma poke_at n w l m i v : places n w → NoDup l.*1 → Forall (λ p, p.1 < n)%nat l → (i, v) ∈ l → poke w l m !!! w i = v.
Proof.
  intros Hw. revert m. induction l as [|[j u] l IH]; intros m Hnd Hlt Hin; [by apply elem_of_nil in Hin|].
  cbn in Hnd. apply NoDup_cons in Hnd as [Hj Hnd]. apply Forall_cons in Hlt as [Hjn Hlt]. cbn in Hjn.
  change (poke w l (<[w j := u]> m) !!! w i = v). apply elem_of_cons in Hin as [[= -> ->]|Hin]; [|by apply IH]. rewrite poke_other; [apply lookup_total_insert_eq|].
  intros k Hk He. apply list_elem_of_fmap in Hk as ([k' v] & -> & Hk). rewrite Forall_forall in Hlt. specialize (Hlt _ Hk). cbn in *.
  apply Hw in He; [|done|done]. subst. apply Hj, list_elem_of_fmap. by exists (j, v).
Qed.
Lemma length_fill l x : length (fill l x) = length x.
Proof. revert x. induction l as [|[r v] l IH]; intros x; [done|]. change (length (fill l (<[r := v]> x)) = length x). rewrite IH. apply length_insert. Qed.
Lemma fill_other l x r : r ∉ l.*1 → fill l x !! r = x !! r.
Proof.
  revert x. induction l as [|[i v] l IH]; intros x Hr; [done|]. change (fill l (<[i := v]> x) !! r = x !! r). cbn in Hr. apply not_elem_of_cons in Hr as [Hi Hr].
  rewrite IH by done. by apply list_lookup_insert_ne.
Qed.
Lemma fill_at l x r v : NoDup l.*1 → (r < length x)%nat → (r, v) ∈ l → fill l x !! r = Some v.
Proof.
  revert x. induction l as [|[i u] l IH]; intros x Hnd Hlt Hin; [by apply elem_of_nil in Hin|].
  change (fill l (<[i := u]> x) !! r = Some v). cbn in Hnd. apply NoDup_cons in Hnd as [Hi Hnd]. apply elem_of_cons in Hin as [[= -> ->]|Hin].
  - rewrite fill_other by done. by apply list_lookup_insert_eq.
  - apply IH; [done|by rewrite length_insert|done].
Qed.

Lemma fill_at_total l x r v : NoDup l.*1 → (r < length x)%nat → (r, v) ∈ l → fill l x !!! r = v.
Proof. intros H1 H2 H3. apply list_lookup_total_correct. by apply fill_at. Qed.
Lemma fill_other_total l x r : r ∉ l.*1 → fill l x !!! r = x !!! r.
Proof. intros Hr. rewrite !list_lookup_total_alt. by rewrite fill_other. Qed.

(** ** The context switch *)
Definition cx_slots : list (nat * nat) := [(SP, 1); (RA, 0)]%nat ++ ((λ n, (sreg n, n + 2)%nat) <$> seq 0 12).
Definition cx_slots' : list (nat * nat) := (RA, 0%nat) :: ((λ n, (sreg n, n + 2)%nat) <$> seq 0 12) ++ [(SP, 1%nat)].
Lemma switch_blocks : __switch = stores cx_slots A0 ++ loads cx_slots' A1.
Proof. vm_compute. reflexivity. Qed.

Lemma cx_slots_small : Forall (λ p, p.2 < 14)%nat cx_slots ∧ Forall (λ p, p.1 < 32)%nat cx_slots'.
Proof. split; apply (bool_decide_unpack _); vm_compute; exact I. Qed.
Lemma poked_small (x : list Z) j : j ∈ ((λ '(r, i), (i, x !!! r)) <$> cx_slots).*1 → (j < 14)%nat.
Proof.
  rewrite <- list_fmap_compose. intros ([r i] & -> & Hj)%list_elem_of_fmap. cbn. exact (proj1 (Forall_forall _ _) (proj1 cx_slots_small) _ Hj).
Qed.

Lemma cx_poked m w (x : list Z) : places 14 w → cx_at (poke w ((λ '(r, i), (i, x !!! r)) <$> cx_slots) m) w = callee x.
Proof.
  intros Hw. assert (∀ r i, (r, i) ∈ cx_slots → poke w ((λ '(r, i), (i, x !!! r)) <$> cx_slots) m !!! w i = x !!! r) as Hp.
  { intros r i Hin. apply (poke_at 14); [done| | |].
    - apply (bool_decide_unpack _). vm_compute. exact I.
    - apply Forall_forall. intros p Hin'. apply (poked_small x). by apply list_elem_of_fmap_2.
    - apply list_elem_of_fmap. by exists (r, i). }
  unfold cx_at, callee. f_equal.
  - apply Hp. right. by left.
  - apply Hp. by left.
  - apply list_fmap_ext. intros k n Hn. apply Hp. apply elem_of_app. right. apply list_elem_of_fmap. exists n. split; [done|]. by eapply list_elem_of_lookup_2.
Qed.
Lemma callee_filled x m w : length x = 32%nat → callee (fill ((λ '(r, i), (r, m !!! w i)) <$> cx_slots') x) = cx_at m w.
Proof.
  intros Hx. assert (∀ r i, (r, i) ∈ cx_slots' → fill ((λ '(r, i), (r, m !!! w i)) <$> cx_slots') x !!! r = m !!! w i) as Hf.
  { intros r i Hin. apply fill_at_total.
    - apply (bool_decide_unpack _). vm_compute. exact I.
    - rewrite Hx. exact (proj1 (Forall_forall _ _) (proj2 cx_slots_small) _ Hin).
    - apply list_elem_of_fmap. by exists (r, i). }
  unfold cx_at, callee. f_equal.
  - apply Hf. by left.
  - apply Hf. right. apply elem_of_app. right. by left.
  - apply list_fmap_ext. intros k n Hn. apply Hf. right. apply elem_of_app. left. apply list_elem_of_fmap. exists n. split; [done|]. by eapply list_elem_of_lookup_2.
Qed.

Lemma cx_at_ext m m' w : (∀ i, (i < 14)%nat → m' !!! w i = m !!! w i) → cx_at m' w = cx_at m w.
Proof.
  intros H. unfold cx_at. f_equal; [apply H; lia..|]. apply list_fmap_ext. intros k n Hn%list_elem_of_lookup_2. apply elem_of_seq in Hn. apply H. lia.
Qed.

(** [__switch] with its two arguments: the registers of the caller are in the
    first context, those of the second are in the registers; nothing else of
    memory changes. *)
Record switched (s s' : mach) (w w' : nat → Z) : Prop := {
  sw_saved : cx_at (ram s') w = callee (xs s);
  sw_loaded : callee (xs s') = cx_at (ram s) w';
  sw_frame : ∀ a, (∀ i, (i < 14)%nat → w i ≠ a) → ram s' !!! a = ram s !!! a;
  sw_regs : length (xs s') = 32%nat ∧ c_satp s' = c_satp s;
}.
Lemma switch_spec s : length (xs s) = 32%nat →
  let w := word (c_satp s) (xs s !!! A0) in let w' := word (c_satp s) (xs s !!! A1) in
  places 14 w → (∀ i j, (i < 14)%nat → (j < 14)%nat → w i ≠ w' j) → switched s (exec __switch s) w w'.
Proof.
  intros Hx w w' Hw Hd. rewrite switch_blocks, exec_app, exec_stores, exec_loads by (apply (bool_decide_unpack _); vm_compute; exact I).
  cbn [with_ram with_xs ram xs c_satp]. fold w w'. split; cbn [with_ram with_xs ram xs c_satp].
  - by apply cx_poked.
  - rewrite callee_filled by done. apply cx_at_ext. intros i Hi. apply poke_other. intros j Hj. apply Hd; [|done]. by eapply poked_small.
  - intros a Ha. apply poke_other. intros j Hj. apply Ha. by eapply poked_small.
  - split; [by rewrite length_fill|done].
Qed.

(** ** Entering the kernel from a program *)
Definition gp : list nat := [1; 3]%nat ++ seq 5 27.
Lemma alltraps_blocks : __alltraps =
  [Csrrw SP SSCRATCH SP] ++ stores ((λ r, (r, r)) <$> gp) SP ++ [Csrr T0 SSTATUS; Csrr T1 SEPC] ++
  stores [(T0, 32); (T1, 33)]%nat SP ++ [Csrr T2 SSCRATCH] ++ stores [(T2, 2%nat)] SP ++
  loads [(T0, 34); (T1, 36)]%nat SP ++ [Ld SP (35 * 8) SP; Csrw SATP T0; SfenceVma].
Proof. vm_compute. reflexivity. Qed.
(** What is stored, by word of the context. *)
Definition saved_words (x : list Z) (status epc : Z) : list (nat * Z) :=
  ((λ r, (r, x !!! r)) <$> gp) ++ [(32%nat, status); (33%nat, epc); (2%nat, x !!! SP)].
Lemma gp_not r : r ∈ gp → r ≠ 2%nat ∧ r ≠ 4%nat ∧ r ≠ 0%nat ∧ (r < 32)%nat.
Proof. unfold gp. rewrite elem_of_app, elem_of_seq, !elem_of_cons, elem_of_nil. lia. Qed.
Lemma saved_words_keys x st ep : NoDup (saved_words x st ep).*1 ∧ Forall (λ p, p.1 < 34)%nat (saved_words x st ep).
Proof.
  assert ((saved_words x st ep).*1 = gp ++ [32; 33; 2]%nat) as Hk by done. split.
  - rewrite Hk. apply (bool_decide_unpack _). vm_compute. exact I.
  - apply Forall_forall. intros p Hp. assert (Forall (λ i, i < 34)%nat (gp ++ [32; 33; 2]%nat)) as H by (apply (bool_decide_unpack _); vm_compute; exact I).
    rewrite Forall_forall in H. apply H. rewrite <- Hk. by apply list_elem_of_fmap_2.
Qed.

(** The context after a trap is the one Trap.v computes. *)
Lemma trap_cx_poked (x : list Z) m w st ep : length x = 32%nat → places 37 w →
  trap_cx_at (poke w (saved_words x st ep) m) w = alltraps (mkU x st ep) (trap_cx_at m w).
Proof.
  intros Hx Hw. destruct (saved_words_keys x st ep) as [Hnd Hlt].
  assert (Forall (λ p, p.1 < 37)%nat (saved_words x st ep)) as Hlt' by (eapply Forall_impl; [exact Hlt|]; cbn; lia).
  assert (∀ i v, (i, v) ∈ saved_words x st ep → poke w (saved_words x st ep) m !!! w i = v) as Hin by (intros i v; by apply (poke_at 37)).
  assert (∀ i, (i < 37)%nat → i ∉ (saved_words x st ep).*1 → poke w (saved_words x st ep) m !!! w i = m !!! w i) as Hout.
  { intros i Hi Hn. apply poke_other. intros j Hj He. apply Hw in He; [by subst| |done].
    apply list_elem_of_fmap in Hj as (p & -> & Hp). rewrite Forall_forall in Hlt'. by apply Hlt'. }
  unfold alltraps, trap_cx_at. cbn [u_x u_status u_pc tc_x kernel_satp kernel_sp tc_trap_handler]. f_equal.
  - apply list_eq. intros i. rewrite store_regs_lookup by (rewrite length_fmap, length_seq; lia). rewrite !list_lookup_fmap.
    destruct (decide (i < 32)%nat) as [Hi|Hi]; [|rewrite !lookup_ge_None_2 by (rewrite ?length_seq; lia); by case_decide].
    rewrite !lookup_seq_lt by done. cbn [fmap option_fmap option_map Nat.add]. case_decide as Hs; apply saved_iff in Hs || rewrite saved_iff in Hs.
    + rewrite (Hin i (x !!! i)); [by rewrite list_lookup_lookup_total_lt by lia|]. unfold saved_words. apply elem_of_app.
      destruct (decide (i = 2)%nat) as [->|Hne]; [right; right; right; by left|left].
      apply list_elem_of_fmap. exists i. split; [done|]. unfold gp. rewrite elem_of_app, elem_of_seq, !elem_of_cons, elem_of_nil. lia.
    + f_equal. apply Hout; [lia|]. change ((saved_words x st ep).*1) with (gp ++ [32; 33; 2]%nat).
      intros [Hg%gp_not|Hg]%elem_of_app; [lia|]. rewrite !elem_of_cons, elem_of_nil in Hg. lia.
  - apply Hin. apply elem_of_app. right. by left.
  - apply Hin. apply elem_of_app. right. right. by left.
  - apply Hout; [lia|]. apply (bool_decide_unpack _). vm_compute. exact I.
  - apply Hout; [lia|]. apply (bool_decide_unpack _). vm_compute. exact I.
  - apply Hout; [lia|]. apply (bool_decide_unpack _). vm_compute. exact I.
Qed.

Lemma exec_cons i l s : exec (i :: l) s = exec l (exec1 i s).
Proof. done. Qed.
Lemma exec_nil s : exec [] s = s.
Proof. done. Qed.
Ltac machine := unfold exec1, addr, set_reg, with_xs, with_ram; cbn [csr_set csr_get xs c_status c_epc c_satp c_scratch ram].
(** The register numbers are below 32. *)
Ltac regs := repeat first
  [ rewrite list_lookup_total_insert_eq by (rewrite ?length_insert, ?length_fill; lia)
  | rewrite list_lookup_total_insert_ne by lia ].

Lemma alltraps_saves s : length (xs s) = 32%nat →
  let x := <[T2 := xs s !!! SP]> (<[T1 := c_epc s]> (<[T0 := c_status s]> (<[SP := c_scratch s]> (xs s)))) in
  exec __alltraps s = exec (loads [(T0, 34); (T1, 36)]%nat SP ++ [Ld SP (35 * 8) SP; Csrw SATP T0; SfenceVma])
    (mkM x (c_status s) (c_epc s) (c_satp s) (xs s !!! SP)
       (poke (word (c_satp s) (c_scratch s)) (saved_words (xs s) (c_status s) (c_epc s)) (ram s))).
Proof.
  intros Hx x. rewrite alltraps_blocks, exec_app. set (s1 := exec [Csrrw SP SSCRATCH SP] s).
  assert (s1 = mkM (<[SP := c_scratch s]> (xs s)) (c_status s) (c_epc s) (c_satp s) (xs s !!! SP) (ram s)) as -> by done.
  set (w := word (c_satp s) (c_scratch s)).
  rewrite exec_app, exec_stores. machine. regs. fold w. rewrite exec_app, !exec_cons, exec_nil. machine.
  rewrite exec_app, exec_stores. machine. regs. fold w. rewrite exec_app, !exec_cons, exec_nil. machine.
  rewrite exec_app, exec_stores. machine. regs. fold w x. f_equal. unfold with_ram. machine. f_equal.
  rewrite <- !poke_app. unfold saved_words. f_equal. rewrite <- ?app_assoc. f_equal.
  - rewrite <- list_fmap_compose. apply list_fmap_ext. intros k r Hr%list_elem_of_lookup_2. cbn. f_equal.
    destruct (gp_not r Hr) as [H2 _]. by regs.
  - cbn. unfold x. by regs.
Qed.

Lemma alltraps_spec s : length (xs s) = 32%nat →
  let w := word (c_satp s) (c_scratch s) in let cx := trap_cx_at (ram s) w in let s' := exec __alltraps s in
  places 37 w →
  ram s' = poke w (saved_words (xs s) (c_status s) (c_epc s)) (ram s) ∧
  xs s' !!! SP = kernel_sp cx ∧ xs s' !!! T1 = tc_trap_handler cx ∧ c_satp s' = kernel_satp cx ∧ length (xs s') = 32%nat.
Proof.
  intros Hx w cx s' Hw. unfold s'. rewrite alltraps_saves by done. cbv zeta. fold w.
  set (m := poke w _ _). pose proof (trap_cx_poked (xs s) (ram s) w (c_status s) (c_epc s) Hx Hw) as Hcx.
  assert (m !!! w 34%nat = kernel_satp cx ∧ m !!! w 35%nat = kernel_sp cx ∧ m !!! w 36%nat = tc_trap_handler cx) as (H34 & H35 & H36).
  { split_and!; [change (m !!! w 34%nat) with (kernel_satp (trap_cx_at m w))|change (m !!! w 35%nat) with (kernel_sp (trap_cx_at m w))|
      change (m !!! w 36%nat) with (tc_trap_handler (trap_cx_at m w))]; unfold m; by rewrite Hcx. }
  rewrite exec_app, exec_loads by (apply (bool_decide_unpack _); vm_compute; exact I). machine. regs. fold w.
  cbn [fmap list_fmap fill foldl]. rewrite !exec_cons, exec_nil. machine. regs.
  change (tr (c_satp s) (u64 (c_scratch s + 35 * 8))) with (w 35%nat).
  split_and!; [reflexivity|exact H35|exact H36|exact H34|]. by rewrite !length_insert.
Qed.

(** ** Going back to the program *)
Lemma restore_blocks : __restore =
  [Csrw SATP A1; SfenceVma; Csrw SSCRATCH A0; Mv SP A0] ++ loads [(T0, 32); (T1, 33)]%nat SP ++
  [Csrw SSTATUS T0; Csrw SEPC T1] ++ loads ((λ r, (r, r)) <$> gp) SP ++ [Ld SP (2 * 8) SP].
Proof. vm_compute. reflexivity. Qed.
Lemma gp_keys : NoDup gp ∧ SP ∉ gp.
Proof. split; apply (bool_decide_unpack _); vm_compute; exact I. Qed.

(** Loading the general registers from the words of a context. *)
Lemma gp_filled (x : list Z) (v : nat → Z) i : length x = 32%nat →
  fill ((λ r, (r, v r)) <$> gp) x !! i = if decide (i ∈ gp) then Some (v i) else x !! i.
Proof.
  intros Hx. assert (((λ r, (r, v r)) <$> gp).*1 = gp) as Hk by (rewrite <- list_fmap_compose; apply list_fmap_id).
  case_decide as Hi.
  - apply fill_at; [rewrite Hk; apply gp_keys|destruct (gp_not i Hi); lia|]. apply list_elem_of_fmap. by exists i.
  - apply fill_other. by rewrite Hk.
Qed.
Lemma gp_pairs (f : nat → Z) : (λ '(r, i), (r, f i)) <$> ((λ r : nat, (r, r)) <$> gp) = (λ r, (r, f r)) <$> gp.
Proof. by rewrite <- list_fmap_compose. Qed.

Lemma restore_spec s : length (xs s) = 32%nat →
  let w := word (xs s !!! A1) (xs s !!! A0) in let s' := exec __restore s in
  mkU (xs s') (c_status s') (c_epc s') = restore (trap_cx_at (ram s) w) (xs s) ∧
  c_satp s' = xs s !!! A1 ∧ c_scratch s' = xs s !!! A0 ∧ ram s' = ram s.
Proof.
  intros Hx w s'. unfold s'. rewrite restore_blocks, exec_app, !exec_cons, exec_nil. machine.
  rewrite exec_app, exec_loads by (apply (bool_decide_unpack _); vm_compute; exact I). machine. regs. fold w.
  cbn [fmap list_fmap fill foldl]. rewrite exec_app, !exec_cons, exec_nil. machine. regs.
  rewrite exec_app, exec_loads by (apply (bool_decide_unpack _); vm_compute; exact I). machine. regs. fold w.
  rewrite gp_pairs, exec_cons, exec_nil. machine. rewrite fill_other_total by (apply (bool_decide_unpack _); vm_compute; exact I). regs.
  change (tr (xs s !!! A1) (u64 (xs s !!! A0 + 2 * 8))) with (w 2%nat). split; [|done].
  unfold restore, trap_cx_at. cbn [tc_x sstatus sepc]. f_equal. apply list_eq. intros i.
  rewrite store_regs_lookup by (rewrite length_fmap, length_seq; lia). rewrite list_lookup_fmap.
  destruct (decide (i = 2)%nat) as [->|H2].
  - rewrite list_lookup_insert_eq by (rewrite length_fill, !length_insert; lia). by rewrite decide_True by (apply saved_iff; lia).
  - rewrite list_lookup_insert_ne by done. rewrite gp_filled by (rewrite !length_insert; lia).
    destruct (decide (i ∈ gp)) as [Hg|Hg]; [destruct (gp_not i Hg) as (? & ? & ? & ?)|].
    + rewrite decide_True by (apply saved_iff; lia). by rewrite lookup_seq_lt by lia.
    + assert (i ∉ saved) as Hs.
      { rewrite saved_iff. intros (? & ? & ?). apply Hg. unfold gp. rewrite elem_of_app, elem_of_seq, !elem_of_cons, elem_of_nil. lia. }
      rewrite decide_False by done. assert (i ≠ 5 ∧ i ≠ 6)%nat as [? ?] by (rewrite saved_iff in Hs; lia).
      by rewrite !list_lookup_insert_ne by lia.
Qed.

(** ** Interrupts taken in the kernel *)
Lemma alltraps_k_blocks : __alltraps_k =
  [Addi SP SP (-34 * 8)] ++ stores ((λ r, (r, r)) <$> gp) SP ++ [Csrr T0 SSTATUS; Csrr T1 SEPC] ++
  stores [(T0, 32); (T1, 33)]%nat SP ++ [Mv A0 SP; Csrr T2 SSCRATCH].
Proof. vm_compute. reflexivity. Qed.
Lemma restore_k_blocks : __restore_k =
  loads [(T0, 32); (T1, 33)]%nat SP ++ [Csrw SSTATUS T0; Csrw SEPC T1] ++ loads ((λ r, (r, r)) <$> gp) SP ++ [Addi SP SP (34 * 8)].
Proof. vm_compute. reflexivity. Qed.

(** The frame below the stack pointer. *)
Definition frame (s : mach) : nat → Z := word (c_satp s) (u64 (xs s !!! SP + -34 * 8)).
Definition frame_words (s : mach) : list (nat * Z) := ((λ r, (r, xs s !!! r)) <$> gp) ++ [(32%nat, c_status s); (33%nat, c_epc s)].
Lemma alltraps_k_spec s : length (xs s) = 32%nat →
  let s' := exec __alltraps_k s in
  ram s' = poke (frame s) (frame_words s) (ram s) ∧ xs s' !!! SP = u64 (xs s !!! SP + -34 * 8) ∧
  xs s' !!! A0 = xs s' !!! SP ∧ xs s' !!! T2 = c_scratch s ∧ c_satp s' = c_satp s.
Proof.
  intros Hx s'. unfold s'. rewrite alltraps_k_blocks, exec_app, !exec_cons, exec_nil. machine.
  rewrite exec_app, exec_stores. machine. regs. fold (frame s). rewrite exec_app, !exec_cons, exec_nil. machine.
  rewrite exec_app, exec_stores. machine. regs. fold (frame s). rewrite !exec_cons, exec_nil. machine. regs.
  split_and!; [|done..]. rewrite <- poke_app. unfold frame_words. f_equal. f_equal; [|cbn; by regs].
  rewrite <- list_fmap_compose. apply list_fmap_ext. intros k r Hr%list_elem_of_lookup_2. cbn. f_equal.
  destruct (gp_not r Hr) as [H2 _]. by regs.
Qed.

(** What the Rust code between entry and exit keeps: the stack pointer, tp, the
    address space, and the words of the frame. *)
Record handler_keeps (s s' : mach) (w : nat → Z) : Prop := {
  hk_len : length (xs s') = 32%nat;
  hk_fixed : xs s' !!! 0%nat = xs s !!! 0%nat ∧ xs s' !!! 4%nat = xs s !!! 4%nat ∧ xs s' !!! SP = xs s !!! SP;
  hk_satp : c_satp s' = c_satp s;
  hk_frame : ∀ i, (i < 34)%nat → ram s' !!! w i = ram s !!! w i;
}.
Lemma alltraps_k_fixed s : length (xs s) = 32%nat →
  xs (exec __alltraps_k s) !!! 0%nat = xs s !!! 0%nat ∧ xs (exec __alltraps_k s) !!! 4%nat = xs s !!! 4%nat.
Proof.
  intros Hx. rewrite alltraps_k_blocks, exec_app, !exec_cons, exec_nil. machine. rewrite exec_app, exec_stores. machine.
  rewrite exec_app, !exec_cons, exec_nil. machine. rewrite exec_app, exec_stores. machine. rewrite !exec_cons, exec_nil. machine. by regs.
Qed.

(** An interrupt in the kernel leaves every register as it was, whatever the
    handler does with them. *)
Lemma kernel_trap_transparent s s2 :
  length (xs s) = 32%nat → is_u64 (xs s !!! SP) → places 34 (frame s) →
  handler_keeps (exec __alltraps_k s) s2 (frame s) →
  let s3 := exec __restore_k s2 in
  xs s3 = xs s ∧ c_status s3 = c_status s ∧ c_epc s3 = c_epc s ∧ c_satp s3 = c_satp s ∧ ram s3 = ram s2.
Proof.
  intros Hx Hsp Hw [Hl (H0 & H4 & H2) Hsat Hfr] s3. unfold s3.
  destruct (alltraps_k_spec s Hx) as (Hram & Hspk & _ & _ & Hsatk). destruct (alltraps_k_fixed s Hx) as [F0 F4].
  rewrite F0 in H0. rewrite F4 in H4. rewrite Hspk in H2. rewrite Hsatk in Hsat.
  assert (∀ i v, (i, v) ∈ frame_words s → ram s2 !!! frame s i = v) as Hv.
  { assert ((frame_words s).*1 = gp ++ [32; 33]%nat) as Hk by done.
    assert (NoDup (gp ++ [32; 33]%nat) ∧ Forall (λ i, i < 34)%nat (gp ++ [32; 33]%nat)) as [Hnd Hlt] by (split; apply (bool_decide_unpack _); vm_compute; exact I).
    rewrite <- Hk in Hnd, Hlt. rewrite Forall_fmap in Hlt. intros i v Hin. rewrite Hfr, Hram; [by apply (poke_at 34)|].
    rewrite Forall_forall in Hlt. exact (Hlt _ Hin). }
  rewrite restore_k_blocks, exec_app, exec_loads by (apply (bool_decide_unpack _); vm_compute; exact I). machine. rewrite H2, Hsat. fold (frame s).
  cbn [fmap list_fmap fill foldl]. rewrite exec_app, !exec_cons, exec_nil. machine. regs.
  rewrite exec_app, exec_loads by (apply (bool_decide_unpack _); vm_compute; exact I). machine. regs. rewrite H2. fold (frame s).
  rewrite gp_pairs, exec_cons, exec_nil. machine. rewrite fill_other_total by (apply (bool_decide_unpack _); vm_compute; exact I). regs. rewrite H2.
  split_and!; [|apply Hv, elem_of_app; right; by left|apply Hv, elem_of_app; right; right; by left|done|done].
  apply list_eq. intros i. destruct (decide (i = SP)) as [->|Hi].
  - rewrite list_lookup_insert_eq by (rewrite length_fill, !length_insert; lia). rewrite list_lookup_lookup_total_lt by lia. f_equal.
    unfold is_u64 in Hsp. unfold u64. rewrite Z.add_mod_idemp_l by lia. replace (xs s !!! SP + -34 * 8 + 34 * 8) with (xs s !!! SP) by lia.
    by apply Z.mod_small.
  - rewrite list_lookup_insert_ne by done. rewrite gp_filled by (rewrite !length_insert; lia). case_decide as Hg.
    + destruct (gp_not i Hg) as (_ & _ & _ & Hlt). rewrite (list_lookup_lookup_total_lt (xs s)) by lia. f_equal. apply Hv, elem_of_app. left.
      apply list_elem_of_fmap. by exists i.
    + assert (i = 0 ∨ i = 4 ∨ 32 ≤ i)%nat as Hc.
      { destruct (decide (i = 0 ∨ i = 4 ∨ 32 ≤ i)%nat) as [|Hn]; [done|]. destruct Hg. unfold gp. rewrite elem_of_app, elem_of_seq, !elem_of_cons, elem_of_nil. lia. }
      rewrite !list_lookup_insert_ne by lia. destruct Hc as [->|[->|Hge]]; [rewrite !list_lookup_lookup_total_lt by lia; by f_equal..|].
      by rewrite !lookup_ge_None_2 by lia.
Qed.

(** ** Both halves of a trap *)
Definition as_user (s : mach) : uregs := mkU (xs s) (c_status s) (c_epc s).
Lemma entry_frame s a : length (xs s) = 32%nat → places 37 (word (c_satp s) (c_scratch s)) →
  (∀ i, (i < 34)%nat → word (c_satp s) (c_scratch s) i ≠ a) → ram (exec __alltraps s) !!! a = ram s !!! a.
Proof.
  intros Hx Hw Ha. destruct (alltraps_spec s Hx Hw) as (-> & _). apply poke_other. intros i Hi. apply Ha.
  destruct (saved_words_keys (xs s) (c_status s) (c_epc s)) as [_ Hlt]. rewrite Forall_forall in Hlt.
  apply list_elem_of_fmap in Hi as (p & -> & Hp). by apply Hlt.
Qed.
End asm.

(** C7 The instructions of trap.S implement [alltraps] and [restore]: entered from a
    program whose trap context [sscratch] points at, [__alltraps] leaves in the
    context what [alltraps] says (all registers but x0 and tp) and arrives at the handler, on the kernel's stack
    and in the kernel's address space, with no other memory changed; and
    [__restore], called with the address of the context and the program's address
    space, gives the program the registers [restore] says, ready for the next
    trap. *)
Theorem user_trap_refines (tr : Z → Z → Z) s :
  length (xs s) = 32%nat → places 37 (word tr (c_satp s) (c_scratch s)) →
  let w := word tr (c_satp s) (c_scratch s) in let s1 := exec tr __alltraps s in let cx := trap_cx_at (ram s) w in
  (trap_cx_at (ram s1) w = alltraps (as_user s) cx ∧ xs s1 !!! SP = kernel_sp cx ∧ xs s1 !!! T1 = tc_trap_handler cx ∧
   c_satp s1 = kernel_satp cx ∧ ∀ a, (∀ i, (i < 34)%nat → w i ≠ a) → ram s1 !!! a = ram s !!! a) ∧
  ∀ s2, length (xs s2) = 32%nat → xs s2 !!! A0 = c_scratch s → xs s2 !!! A1 = c_satp s →
    let s3 := exec tr __restore s2 in
    as_user s3 = restore (trap_cx_at (ram s2) w) (xs s2) ∧
    c_satp s3 = c_satp s ∧ c_scratch s3 = c_scratch s ∧ ram s3 = ram s2.
Proof.
  intros Hx Hw w s1 cx. destruct (alltraps_spec tr s Hx Hw) as (Hram & Hsp & Ht1 & Hsat & _). split.
  - split_and!; [|done..|intros a; by apply entry_frame]. unfold s1. rewrite Hram. by apply trap_cx_poked.
  - intros s2 Hx2 H0 H1 s3. destruct (restore_spec tr s2 Hx2) as (Hu & Hs & Hc & Hm). rewrite H0 in *. rewrite H1 in *. by split_and!.
Qed.

Module TrapAsmDemo.
Definition flat (satp va : Z) : Z := va.
Definition TRAP_CX : Z := 2 ^ 64 - 2 * 4096.
(** A program at an [ecall], its context above its stack. *)
Definition kernel_part : gmap Z Z := {[TRAP_CX + 34 * 8 := 0x8000000000080abc; TRAP_CX + 35 * 8 := 0xffffffffffffd000; TRAP_CX + 36 * 8 := 0x80203000]}.
Definition prog : mach := mkM (0 :: seqZ 101 31) 32 0x10400 77 TRAP_CX kernel_part.
Definition inside : mach := exec flat __alltraps prog.
(** The kernel, about to return: a0 and a1 as [__restore] wants them. *)
Definition leaving : mach := mkM (<[10%nat := TRAP_CX]> (<[11%nat := 77]> (replicate 32 0))) 0 0 (c_satp inside) 0 (ram inside).
Lemma prog_places : places 37 (word flat 77 TRAP_CX).
Proof.
  intros i j Hi Hj. unfold word, flat, TRAP_CX, u64. rewrite !Z.mod_small by lia. lia.
Qed.
Lemma user_trap_refines_witness :
  (xs inside !!! 2%nat = 0xffffffffffffd000 ∧ xs inside !!! 6%nat = 0x80203000) ∧
  as_user (exec flat __restore leaving) = restore (trap_cx_at (ram leaving) (word flat 77 TRAP_CX)) (xs leaving).
Proof.
  destruct (user_trap_refines flat prog eq_refl prog_places) as ((_ & Hsp & Ht & _) & Hr).
  split; [split; [transitivity (kernel_sp (trap_cx_at (ram prog) (word flat 77 TRAP_CX)))|transitivity (tc_trap_handler (trap_cx_at (ram prog) (word flat 77 TRAP_CX)))]; [exact Hsp|reflexivity|exact Ht|reflexivity]|].
  apply (Hr leaving); reflexivity.
Defined.
(** Every register but x0 and tp comes back. *)
Example round_trip : xs (exec flat __restore leaving) = <[4%nat := 0]> (xs prog).
Proof. vm_compute. reflexivity. Qed.
End TrapAsmDemo.
