(* ===== verification/Flows.v ===== *)
(** * Control flows of the kernel (os/src/task/processor.rs, task/mod.rs, context.rs)

    Each thread has a flow of control in the kernel, and so has the processor
    when no thread runs ([run_tasks], the idle flow).  [fstep] runs the scheduler
    of Sched.v on the registers and memory of Asm.v: where a thread gives the
    processor away, [schedule] switches to the idle flow, and where [run_tasks]
    finds a thread it switches to that one.  Between two switches a flow may do
    anything to the registers and to memory but write the contexts of others. *)
From S2P Require Import Prelude Sched SchedSafe Threads Asm.

(** ** What the steps of the scheduler do to the set of threads *)
Definition same_live (k k' : kst) : Prop := ∀ x, is_Some (status k' !! x) ↔ is_Some (status k !! x).
Lemma same_live_refl k : same_live k k.
Proof. done. Qed.
Lemma same_live_put k k' t st : is_Some (status k !! t) → status k' = <[t := st]> (status k) → same_live k k'.
Proof. intros Ht Hs x. rewrite Hs. by apply live_insert. Qed.
Definition stays_or_leaves (k k' : kst) : Prop :=
  same_live k k' ∧ (current k' = current k ∨ ∃ t, current k = Some t ∧ current k' = None).
Lemma stays k k' : same_live k k' → current k' = current k → stays_or_leaves k k'.
Proof. by split; [|left]. Qed.
Lemma leaves k k' t : same_live k k' → current k = Some t → current k' = None → stays_or_leaves k k'.
Proof. intros ? ? ?. split; [done|right; by exists t]. Qed.

Lemma waiter_live k t q : placed k → t ∈ queue_of k q → is_Some (status k !! t).
Proof. intros Hp Hq. exists Blocked. apply (pl_waiting _ Hp), waiting_in_queue. by exists q. Qed.
Lemma running_live k t : placed k → current k = Some t → is_Some (status k !! t).
Proof. intros Hp Hc. exists Running. by apply (pl_current _ Hp). Qed.

Lemma lock_kind k t m k' : is_Some (status k !! t) → current k = Some t → mutex_lock m k = Ok k' → stays_or_leaves k k'.
Proof.
  intros Hlive Hc. unfold mutex_lock, spin_lock, blocking_lock, suspend_current_and_run_next, block_current_and_run_next, take_current_task, current_task.
  destruct (mutex_list k !! m) as [[[l|l q]|]|]; [| |done..]; destruct l; cbn [current set_mutexes]; rewrite ?Hc; cbn; intros [= <-];
    ((by apply stays) || (eapply leaves; [|done|done]; eapply same_live_put; [exact Hlive|done])).
Qed.
Section kinds.
Context (k : kst) (t : Z) (Hp : placed k) (Hc : current k = Some t).
Lemma unlock_kind m k' : mutex_unlock m k = Ok k' → same_live k k' ∧ current k' = current k.
Proof.
  unfold mutex_unlock, spin_unlock, blocking_unlock. destruct (mutex_list k !! m) as [[[l|l q]|]|] eqn:Hm; [by intros [= <-]| |done..].
  destruct l; [|done]. destruct q as [|w q]; cbn; intros [= <-]; [done|split; [|done]].
  eapply same_live_put; [|done]. apply (waiter_live k w (QM m) Hp). cbn. rewrite Hm. by left.
Qed.
Lemma up_kind i k' : semaphore_up i k = Ok k' → stays_or_leaves k k'.
Proof.
  unfold semaphore_up. destruct (semaphore_list k !! i) as [[[n q]|]|] eqn:Hi; [|done..]. destruct q as [|w q]; intros [= <-]; [by apply stays|].
  apply stays; [|done]. eapply same_live_put; [|done]. apply (waiter_live k w (QS i) Hp). cbn. rewrite Hi. by left.
Qed.
Lemma down_kind i k' : semaphore_down i k = Ok k' → stays_or_leaves k k'.
Proof.
  unfold semaphore_down, block_current_and_run_next, take_current_task, current_task.
  destruct (semaphore_list k !! i) as [[[n q]|]|] eqn:Hi; [|done..]. case_match; [|intros [= <-]; by apply stays].
  rewrite Hc. cbn. rewrite Hc. intros [= <-]. eapply leaves; [|done|done]. eapply same_live_put; [by apply (running_live k t)|done].
Qed.
Lemma signal_kind c k' : condvar_signal c k = Ok k' → stays_or_leaves k k'.
Proof.
  unfold condvar_signal. destruct (condvar_list k !! c) as [[[q]|]|] eqn:Hi; [|done..]. destruct q as [|w q]; intros [= <-]; [by apply stays|].
  apply stays; [|done]. eapply same_live_put; [|done]. apply (waiter_live k w (QC c) Hp). cbn. rewrite Hi. by left.
Qed.
Lemma wait_kind c m k' : condvar_wait c m k = Ok k' → stays_or_leaves k k'.
Proof.
  unfold condvar_wait. destruct (mutex_unlock m k) as [k1|] eqn:Hu; [|done]. destruct (unlock_kind m k1 Hu) as [Hl Hc1]. cbn.
  destruct (condvar_list k1 !! c) as [[[q]|]|]; [|done..]. unfold block_current_and_run_next, take_current_task, current_task. rewrite Hc1, Hc. cbn. rewrite Hc1, Hc.
  intros [= <-]. eapply leaves; [|done|done]. intros x. cbn. rewrite live_insert; [apply Hl|]. apply Hl. by apply (running_live k t).
Qed.
Lemma sleep_kind now ms k' : sys_sleep now ms k = Ok k' → stays_or_leaves k k'.
Proof. intros Hs. destruct (sleep_effect k t now ms k' Hp Hc Hs) as (Hm & Hc' & _). eapply leaves; [exact (mv_live _ _ _ Hm)|done|done]. Qed.
Lemma yield_kind c k' : suspend_current_and_run_next c k = Ok k' → stays_or_leaves k k'.
Proof. intros Hs. destruct (suspend_effect k t c k' Hp Hc Hs) as (Hm & Hc' & _). eapply leaves; [exact (mv_live _ _ _ Hm)|done|done]. Qed.
End kinds.

Lemma lstep_kinds k cs k' cs' : inv k cs → lstep None (k, cs) (k', cs') →
  (∃ t, status k !! t = None ∧ (∀ m, (t, m) ∉ cs) ∧ k' = spawn t k ∧ cs' = cs) ∨
  (∃ t, current k = Some t ∧ exit_current k = Ok k' ∧ cs' = cs) ∨ stays_or_leaves k k'.
Proof.
  intros Hi Hs. pose proof (in_placed _ _ Hi) as Hp. inversion Hs; subst; clear Hs.
  - right; right. by eapply yield_kind.
  - right. left. by eexists.
  - left. by eexists.
  - right; right. eapply lock_kind; [by apply (running_live k t)|done|done].
  - right; right. apply stays; by eapply unlock_kind.
  - right; right. by eapply up_kind.
  - right; right. by eapply down_kind.
  - right; right. by eapply signal_kind.
  - right; right. by eapply wait_kind.
  - right; right. by eapply sleep_kind.
  - right; right. apply stays; [intros x; by apply (timer_effect k cs' now Hi)|]. by apply (check_timer_inv k cs' now Hi).
  - right; right. apply stays; [|]; unfold sys_mutex_create; by case_match.
  - right; right. apply stays; [|]; unfold sys_semaphore_create; by case_match.
  - right; right. apply stays; [|]; unfold sys_condvar_create; by case_match.
Qed.

Lemma dispatch_kind k cs t k1 k2 : inv k cs → run_task k = Some (t, k1) → resume t k1 = Ok k2 →
  is_Some (status k !! t) ∧ same_live k k2 ∧ (current k2 = Some t ∨ current k2 = None).
Proof.
  intros Hi Hr Hres. unfold run_task, fetch_task in Hr. destruct (ready_queue k) as [|t' q] eqn:Hq; [done|]. injection Hr as -> <-.
  assert (is_Some (status k !! t)) as Ht by (exists Ready; apply (pl_ready _ (in_placed _ _ Hi)); rewrite Hq; by left).
  set (k1 := set_current _ _) in *. assert (same_live k k1) as H1 by (by eapply same_live_put).
  split; [done|]. assert (stays_or_leaves k1 k2) as [H2 Hc].
  { unfold resume in Hres. destruct (conts k1 !! t) as [[|m|m|m]|];
      try (injection Hres as <-; by apply stays); (eapply lock_kind; [by apply H1|done|done]). }
  split; [intros x; rewrite (H2 x); apply H1|]. destruct Hc as [->|(? & _ & ->)]; [by left|by right].
Qed.

(** ** Events of the flows: [None] is the idle flow *)
Inductive event :=
| Made (f : option Z) (c : TaskContext)   (* the context of a new thread is written *)
| Gave (f : option Z) (c : TaskContext)   (* the flow calls [__switch] with these registers *)
| Got (f : option Z) (c : TaskContext)    (* the flow continues with these registers *)
| Gone (f : option Z).                    (* the thread has exited *)
Definition about (e : event) : option Z := match e with Made f _ | Gave f _ | Got f _ | Gone f => f end.
Definition last_about (evs : list event) (f : option Z) : option event := last (filter (λ e, about e = f) evs).
(** The last thing that happened to [f] is that it was left with registers [c]. *)
Definition waiting (evs : list event) (f : option Z) (c : TaskContext) : Prop :=
  last_about evs f = Some (Gave f c) ∨ last_about evs f = Some (Made f c).
(** Whenever a flow continues, it is with the registers it was left with. *)
Definition resumed (evs : list event) : Prop := ∀ pre f c post, evs = pre ++ Got f c :: post → waiting pre f c.

Lemma last_about_snoc evs e f : last_about (evs ++ [e]) f = if decide (about e = f) then Some e else last_about evs f.
Proof.
  unfold last_about. rewrite filter_app. destruct (decide (about e = f)) as [E|E].
  - rewrite filter_cons_True, filter_nil by done. apply last_snoc.
  - rewrite filter_cons_False, filter_nil by done. by rewrite app_nil_r.
Qed.
Lemma waiting_other evs e f c : about e ≠ f → waiting evs f c → waiting (evs ++ [e]) f c.
Proof. intros Hne. unfold waiting. by rewrite last_about_snoc, decide_False by done. Qed.
Lemma resumed_snoc evs e : resumed evs → (∀ f c, e = Got f c → waiting evs f c) → resumed (evs ++ [e]).
Proof.
  intros Hr He pre f c post Heq. destruct (decide (post = [])) as [->|Hne].
  - apply app_inj_tail in Heq as [-> ->]. by apply He.
  - destruct (exists_last Hne) as (post' & e' & ->).
    change (Got f c :: post' ++ [e']) with ((Got f c :: post') ++ [e']) in Heq.
    rewrite app_assoc in Heq. apply app_inj_tail in Heq as [-> _]. by eapply Hr.
Qed.

Section flows.
(** The kernel's address space, the context of the idle flow in [PROCESSOR], the
    address of [trap_return]. *)
Context (tr : Z → Z → Z) (KSATP IDLE TRAP_RETURN : Z).
Abbreviation W := (word tr KSATP).

(** [schedule] and the switch of [run_tasks]: a call of [__switch]. *)
Definition switch_to (p q : Z) (h : mach) : mach := exec tr __switch (with_xs (<[A1 := q]> (<[A0 := p]> (xs h))) h).
Definition schedule (switched_task_cx_ptr : Z) (h : mach) : mach := switch_to switched_task_cx_ptr IDLE h.
(** [TaskControlBlock::new] stores the first context of a thread. *)
Definition put_cx (p : Z) (c : TaskContext) (h : mach) : mach :=
  with_ram (poke (W p) (zip (seq 0 14) (tx_ra c :: tx_sp c :: tx_s c)) (ram h)) h.

(** The scheduler, its ghost owners, the hart, the contexts of the threads. *)
Record flows := mkF { fk : kst; fcs : gset (Z * nat); fh : mach; fcx : gmap Z Z }.
Definition flow_ptr (cx : gmap Z Z) (f : option Z) : option Z := match f with None => Some IDLE | Some t => cx !! t end.
Definition apart (p q : Z) : Prop := ∀ i j, (i < 14)%nat → (j < 14)%nat → W p i ≠ W q j.
(** Memory for a context that no other uses: a new control block, or the stack. *)
Definition fresh (cx : gmap Z Z) (p : Z) : Prop := places 14 (W p) ∧ ∀ f q, flow_ptr cx f = Some q → apart p q.
Record work (cx : gmap Z Z) (h h' : mach) : Prop := {
  wk_len : length (xs h') = 32%nat;
  wk_satp : c_satp h' = KSATP;
  wk_keeps : ∀ f p i, flow_ptr cx f = Some p → (i < 14)%nat → ram h' !!! W p i = ram h !!! W p i;
}.

Inductive fstep : list event → flows → flows → Prop :=
| f_stay k cs k' cs' h h' cx :
    lstep None (k, cs) (k', cs') → same_live k k' → current k' = current k → work cx h h' →
    fstep [] (mkF k cs h cx) (mkF k' cs' h' cx)
| f_leave k cs k' cs' t p h h1 h' cx :
    lstep None (k, cs) (k', cs') → same_live k k' → current k = Some t → current k' = None → cx !! t = Some p →
    work cx h h1 → h' = schedule p h1 →
    fstep [Gave (Some t) (callee (xs h1)); Got None (callee (xs h'))] (mkF k cs h cx) (mkF k' cs' h' cx)
| f_spawn k cs t p kstack_top h cx :
    (∀ m, (t, m) ∉ cs) → status k !! t = None → cx !! t = None → fresh cx p →
    fstep [Made (Some t) (goto_trap_return TRAP_RETURN kstack_top)] (mkF k cs h cx)
      (mkF (spawn t k) cs (put_cx p (goto_trap_return TRAP_RETURN kstack_top) h) (<[t := p]> cx))
(** [_unused] is a place on the stack of the thread. *)
| f_exit k cs k' t unused h h1 h' cx :
    current k = Some t → exit_current k = Ok k' → fresh cx unused → work cx h h1 → h' = schedule unused h1 →
    fstep [Gone (Some t); Got None (callee (xs h'))] (mkF k cs h cx) (mkF k' cs h' (delete t cx))
| f_run k cs t k1 k2 p h h1 h' cx :
    current k = None → run_task k = Some (t, k1) → resume t k1 = Ok k2 → current k2 = Some t → cx !! t = Some p →
    work cx h h1 → h' = switch_to IDLE p h1 →
    fstep [Gave None (callee (xs h1)); Got (Some t) (callee (xs h'))] (mkF k cs h cx)
      (mkF k2 (completed t k1 k2 ∪ cs) h' cx)
(** A thread that finds its lock taken again gives the processor back at once. *)
| f_run_back k cs t k1 k2 p h h1 h2 h3 h' cx :
    current k = None → run_task k = Some (t, k1) → resume t k1 = Ok k2 → current k2 = None → cx !! t = Some p →
    work cx h h1 → h2 = switch_to IDLE p h1 → work cx h2 h3 → h' = schedule p h3 →
    fstep [Gave None (callee (xs h1)); Got (Some t) (callee (xs h2)); Gave (Some t) (callee (xs h3)); Got None (callee (xs h'))]
      (mkF k cs h cx) (mkF k2 (completed t k1 k2 ∪ cs) h' cx).

Inductive trace (w : flows) : list event → flows → Prop :=
| t_start : trace w [] w
| t_step evs e w1 w2 : trace w evs w1 → fstep e w1 w2 → trace w (evs ++ e) w2.

(** ** One switch *)
Definition laid_out (cx : gmap Z Z) : Prop :=
  (∀ f p, flow_ptr cx f = Some p → places 14 (W p)) ∧
  (∀ f g p q, flow_ptr cx f = Some p → flow_ptr cx g = Some q → f ≠ g → apart p q).
(** Every flow but [run] is left, and its context holds its registers. *)
Definition contexts (evs : list event) (cx : gmap Z Z) (m : gmap Z Z) (run : option Z) : Prop :=
  ∀ f p, flow_ptr cx f = Some p → f ≠ run → waiting evs f (cx_at m (W p)).

Lemma callee_args x p q : length x = 32%nat → callee (<[A1 := q]> (<[A0 := p]> x)) = callee x.
Proof.
  intros Hx. unfold callee. f_equal; [by rewrite !list_lookup_total_insert_ne..|].
  apply list_fmap_ext. intros k n Hn%list_elem_of_lookup_2. apply elem_of_seq in Hn. unfold sreg.
  by destruct (Nat.ltb_spec n 2); rewrite !list_lookup_total_insert_ne by lia.
Qed.
Lemma switch_to_spec p q h : length (xs h) = 32%nat → c_satp h = KSATP → places 14 (W p) → apart p q →
  let h' := switch_to p q h in
  cx_at (ram h') (W p) = callee (xs h) ∧ callee (xs h') = cx_at (ram h) (W q) ∧
  (∀ a, (∀ i, (i < 14)%nat → W p i ≠ a) → ram h' !!! a = ram h !!! a) ∧ length (xs h') = 32%nat ∧ c_satp h' = KSATP.
Proof.
  intros Hx Hs Hp Ha h'. unfold h', switch_to. set (h0 := with_xs _ h).
  assert (length (xs h0) = 32%nat ∧ c_satp h0 = KSATP ∧ xs h0 !!! A0 = p ∧ xs h0 !!! A1 = q ∧ ram h0 = ram h) as (H1 & H2 & H3 & H4 & H5).
  { unfold h0, with_xs. cbn [xs c_satp ram]. split_and!; [by rewrite !length_insert|done| | |done].
    - rewrite list_lookup_total_insert_ne by lia. apply list_lookup_total_insert_eq. lia.
    - apply list_lookup_total_insert_eq. rewrite length_insert. lia. }
  pose proof (switch_spec tr h0 H1) as Hsw. cbv zeta in Hsw. rewrite H2, H3, H4 in Hsw. destruct (Hsw Hp Ha) as [S1 S2 S3 [S4 S5]].
  rewrite H5 in *. split_and!; [|done|done|done|congruence]. rewrite S1. unfold h0, with_xs. cbn [xs]. by apply callee_args.
Qed.

Lemma contexts_work evs cx run h h' : work cx h h' → contexts evs cx (ram h) run → contexts evs cx (ram h') run.
Proof.
  intros Hw Hc f p Hf Hne. rewrite (cx_at_ext (ram h)); [by apply Hc|]. intros i Hi. by apply (wk_keeps _ _ _ Hw f).
Qed.

(** From flow [f] to flow [g]. *)
Lemma contexts_switch evs cx h f g p q :
  laid_out cx → length (xs h) = 32%nat → c_satp h = KSATP → flow_ptr cx f = Some p → flow_ptr cx g = Some q → f ≠ g →
  contexts evs cx (ram h) f → resumed evs →
  let h' := switch_to p q h in let evs' := evs ++ [Gave f (callee (xs h)); Got g (callee (xs h'))] in
  contexts evs' cx (ram h') g ∧ resumed evs' ∧ length (xs h') = 32%nat ∧ c_satp h' = KSATP.
Proof.
  intros [Hpl Hap] Hx Hs Hf Hg Hne Hc Hr h' evs'.
  destruct (switch_to_spec p q h Hx Hs (Hpl f p Hf) (Hap f g p q Hf Hg Hne)) as (S1 & S2 & S3 & S4 & S5). fold h' in S1, S2, S3, S4, S5. clearbody h'.
  change evs' with (evs ++ ([Gave f (callee (xs h))] ++ [Got g (callee (xs h'))])) in *. rewrite app_assoc in *.
  split_and!; [|apply resumed_snoc; [apply resumed_snoc; [done|intros ? ? [=]]|]|done|done].
  - intros i r Hi Hig. apply waiting_other; [cbn; congruence|]. destruct (decide (i = f)) as [->|Hif].
    + assert (r = p) as -> by congruence. left. rewrite last_about_snoc, decide_True by done. by rewrite S1.
    + apply waiting_other; [cbn; congruence|]. rewrite (cx_at_ext (ram h)); [by apply Hc|].
      intros j Hj. apply S3. intros l Hl. by apply (Hap f i p r).
  - intros ? ? [= <- <-]. rewrite S2. apply waiting_other; [cbn; congruence|]. by apply Hc.
Qed.

(** A thread exits: its registers are stored where nobody looks. *)
Lemma contexts_exit evs cx h t unused :
  laid_out cx → length (xs h) = 32%nat → c_satp h = KSATP → fresh cx unused →
  contexts evs cx (ram h) (Some t) → resumed evs →
  let h' := schedule unused h in let evs' := evs ++ [Gone (Some t); Got None (callee (xs h'))] in
  contexts evs' (delete t cx) (ram h') None ∧ resumed evs' ∧ length (xs h') = 32%nat ∧ c_satp h' = KSATP.
Proof.
  intros [Hpl Hap] Hx Hs [Hp Hfr] Hc Hr h' evs'.
  destruct (switch_to_spec unused IDLE h Hx Hs Hp (Hfr None IDLE eq_refl)) as (S1 & S2 & S3 & S4 & S5). fold (schedule unused h) h' in S1, S2, S3, S4, S5. clearbody h'.
  change evs' with (evs ++ ([Gone (Some t)] ++ [Got None (callee (xs h'))])) in *. rewrite app_assoc in *.
  split_and!; [|apply resumed_snoc; [apply resumed_snoc; [done|intros ? ? [=]]|]|done|done].
  - intros [i|] r Hi Hig; [|done]. cbn in Hi. apply lookup_delete_Some in Hi as [Hne Hi]. do 2 (apply waiting_other; [cbn; congruence|]).
    rewrite (cx_at_ext (ram h)); [by apply Hc; [|congruence]|]. intros j Hj. apply S3. intros l Hl. by apply (Hfr (Some i)).
  - intros ? ? [= <- <-]. rewrite S2. apply waiting_other; [done|]. by apply Hc.
Qed.

(** A new thread. *)
Lemma put_cx_spec p c h : places 14 (W p) → length (tx_s c) = 12%nat →
  cx_at (ram (put_cx p c h)) (W p) = c ∧ ∀ a, (∀ i, (i < 14)%nat → W p i ≠ a) → ram (put_cx p c h) !!! a = ram h !!! a.
Proof.
  intros Hp Hl. set (ws := tx_ra c :: tx_sp c :: tx_s c). assert (length ws = 14%nat) as Hws by (cbn; lia).
  assert ((zip (seq 0 14) ws).*1 = seq 0 14) as Hk by (apply fst_zip; rewrite length_seq; lia).
  assert (∀ i v, ws !! i = Some v → ram (put_cx p c h) !!! W p i = v) as Hat.
  { intros i v Hv. change (poke (W p) (zip (seq 0 14) ws) (ram h) !!! W p i = v). apply (poke_at 14); [done|rewrite Hk; apply NoDup_seq| |].
    - apply Forall_forall. intros [j u] Hj. assert (j ∈ (zip (seq 0 14) ws).*1) as Hin by (by apply (list_elem_of_fmap_2 fst _ (j, u))).
      rewrite Hk in Hin. apply elem_of_seq in Hin. cbn. lia.
    - apply list_elem_of_lookup. exists i. apply lookup_zip_with_Some. exists i, v. split_and!; [done| |done].
      apply lookup_seq. apply lookup_lt_Some in Hv. lia. }
  split.
  - destruct c as [ra sp l]. unfold cx_at. f_equal; [by apply Hat..|]. apply list_eq. intros i. rewrite list_lookup_fmap.
    destruct (decide (i < 12)%nat) as [Hi|Hi]; [|rewrite !lookup_ge_None_2 by (rewrite ?length_seq; cbn in Hl; lia); done].
    rewrite lookup_seq_lt by done. destruct (lookup_lt_is_Some_2 l i) as [v Hv]; [cbn in Hl; lia|]. rewrite Hv. cbn [fmap option_fmap option_map]. f_equal.
    apply Hat. unfold ws. cbn [tx_s tx_ra tx_sp]. by replace (0 + i + 2)%nat with (S (S i)) by lia.
  - intros a Ha. change (poke (W p) (zip (seq 0 14) ws) (ram h) !!! a = ram h !!! a). apply poke_other. intros i Hi. rewrite Hk in Hi. apply elem_of_seq in Hi. apply Ha. lia.
Qed.
Lemma laid_out_insert cx t p : laid_out cx → cx !! t = None → fresh cx p → laid_out (<[t := p]> cx).
Proof.
  intros [Hpl Hap] Hn [Hp Hfr]. assert (∀ f q, flow_ptr (<[t := p]> cx) f = Some q → (f = Some t ∧ q = p) ∨ (f ≠ Some t ∧ flow_ptr cx f = Some q)) as Hc.
  { intros [x|] q Hq; [|by right]. cbn in Hq. apply lookup_insert_Some in Hq as [[-> ->]|[Hne Hq]]; [by left|right]. split; [congruence|done]. }
  assert (∀ q r, apart q r → apart r q) as Hsym by (intros q r Hqr i j Hi Hj He; by apply (Hqr j i Hj Hi)).
  split.
  - intros f q [[-> ->]|[_ Hq]]%Hc; [done|by eapply Hpl].
  - intros f g q r [[-> ->]|[Hf Hq]]%Hc [[-> ->]|[Hg Hr]]%Hc Hne; [done|by eapply Hfr|apply Hsym; by eapply Hfr|by apply (Hap f g)].
Qed.
Lemma contexts_spawn evs cx h run t p c :
  laid_out cx → cx !! t = None → fresh cx p → length (tx_s c) = 12%nat → contexts evs cx (ram h) run →
  contexts (evs ++ [Made (Some t) c]) (<[t := p]> cx) (ram (put_cx p c h)) run.
Proof.
  intros Hlay Hn [Hp Hfr] Hl Hc f q Hf Hne. destruct (put_cx_spec p c h Hp Hl) as [H1 H2]. destruct (decide (f = Some t)) as [->|Hft].
  - cbn in Hf. rewrite lookup_insert_eq in Hf. injection Hf as <-. right. by rewrite last_about_snoc, decide_True, H1 by done.
  - assert (flow_ptr cx f = Some q) as Hf' by (destruct f; [|done]; cbn in *; by rewrite lookup_insert_ne in Hf by congruence).
    apply waiting_other; [cbn; congruence|]. rewrite (cx_at_ext (ram h)); [by apply Hc|]. intros j Hj. apply H2. intros i Hi. by apply (Hfr f).
Qed.
Lemma laid_out_delete cx t : laid_out cx → laid_out (delete t cx).
Proof.
  intros [Hpl Hap]. assert (∀ f q, flow_ptr (delete t cx) f = Some q → flow_ptr cx f = Some q) as Hc.
  { intros [x|] q Hq; [|done]. cbn in Hq. by apply lookup_delete_Some in Hq as [_ Hq]. }
  split; [intros f p Hf%Hc; by eapply Hpl|intros f g p q Hf%Hc Hg%Hc; by apply Hap].
Qed.

(** ** Every reachable state *)
Record finv (evs : list event) (w : flows) : Prop := {
  fi_inv : inv (fk w) (fcs w);
  fi_hart : length (xs (fh w)) = 32%nat ∧ c_satp (fh w) = KSATP;
  fi_dom : ∀ t, is_Some (fcx w !! t) ↔ is_Some (status (fk w) !! t);
  fi_lay : laid_out (fcx w);
  fi_cx : contexts evs (fcx w) (ram (fh w)) (current (fk w));
  fi_res : resumed evs;
}.

Lemma flow_inv_step evs e w w' : finv evs w → fstep e w w' → finv (evs ++ e) w'.
Proof.
  intros [Hi [Hx Hs] Hd Hl Hc Hr] Hst.
  destruct Hst as [k cs k' cs' h h' cx Hls Hlive Hcur Hw|k cs k' cs' t p h h1 h' cx Hls Hlive Hcur Hcur' Hp Hw ->|
    k cs t p ktop h cx Hcs Hnew Hcx Hfr|k cs k' t unused h h1 h' cx Hcur Hex Hfr Hw ->|
    k cs t k1 k2 p h h1 h' cx Hcur Hrun Hres Hcur' Hp Hw ->|k cs t k1 k2 p h h1 h2 h3 h' cx Hcur Hrun Hres Hcur' Hp Hw -> Hw' ->]; cbn [fk fcs fh fcx] in *.
  - rewrite app_nil_r. split; cbn [fk fcs fh fcx]; [eapply inv_step; [done|by exists None]|split; apply Hw|intros t; by rewrite Hd, (Hlive t)|done| |done].
    rewrite Hcur. by eapply contexts_work.
  - rewrite Hcur in Hc. pose proof (contexts_work _ _ _ _ _ Hw Hc) as Hc1.
    destruct (contexts_switch evs cx h1 (Some t) None p IDLE) as (C1 & C2 & C3 & C4); [done|apply Hw|apply Hw|done..|].
    split; cbn [fk fcs fh fcx]; [eapply inv_step; [done|by exists None]|done|intros x; by rewrite Hd, (Hlive x)|done|by rewrite Hcur'|done].
  - split; cbn [fk fcs fh fcx].
    + by apply inv_spawn.
    + done.
    + intros x. cbn. rewrite !lookup_insert_is_Some'. by rewrite Hd.
    + by apply laid_out_insert.
    + by apply contexts_spawn.
    + apply resumed_snoc; [done|intros ? ? [=]].
  - rewrite Hcur in Hc. pose proof (contexts_work _ _ _ _ _ Hw Hc) as Hc1.
    destruct (contexts_exit evs cx h1 t unused) as (C1 & C2 & C3 & C4); [done|apply Hw|apply Hw|done..|].
    pose proof (inv_exit k cs t k' Hi Hcur Hex) as Hi'. unfold exit_current, take_current_task in Hex. rewrite Hcur in Hex. injection Hex as <-.
    split; cbn [fk fcs fh fcx]; [done|done| |by apply laid_out_delete|done|done].
    intros x. cbn. destruct (decide (x = t)) as [->|Hne]; [by rewrite !lookup_delete_eq|]. by rewrite !lookup_delete_ne by done.
  - destruct (dispatch_kind k cs t k1 k2 Hi Hrun Hres) as (_ & Hlive & _).
    rewrite Hcur in Hc. pose proof (contexts_work _ _ _ _ _ Hw Hc) as Hc1.
    destruct (contexts_switch evs cx h1 None (Some t) IDLE p) as (C1 & C2 & C3 & C4); [done|apply Hw|apply Hw|done..|].
    split; cbn [fk fcs fh fcx]; [eapply inv_step; [done|exists (Some t); by apply st_dispatch]|done|intros x; by rewrite Hd, (Hlive x)|done|by rewrite Hcur'|done].
  - destruct (dispatch_kind k cs t k1 k2 Hi Hrun Hres) as (_ & Hlive & _).
    rewrite Hcur in Hc. pose proof (contexts_work _ _ _ _ _ Hw Hc) as Hc1.
    destruct (contexts_switch evs cx h1 None (Some t) IDLE p) as (C1 & C2 & C3 & C4); [done|apply Hw|apply Hw|done..|].
    pose proof (contexts_work _ _ _ _ _ Hw' C1) as Hc2.
    destruct (contexts_switch _ cx h3 (Some t) None p IDLE Hl (wk_len _ _ _ Hw') (wk_satp _ _ _ Hw') Hp eq_refl ltac:(done) Hc2 C2) as (D1 & D2 & D3 & D4).
    rewrite <- app_assoc in D1, D2. cbn [app] in D1, D2.
    split; cbn [fk fcs fh fcx]; [eapply inv_step; [done|exists (Some t); by apply st_dispatch]|done|intros x; by rewrite Hd, (Hlive x)|done|by rewrite Hcur'|done].
Qed.

(** The steps of the scheduler are all steps of the flows, as long as there is
    memory for a context. *)
Lemma step_followed evs w l k' cs' : finv evs w → (∃ p, fresh (fcx w) p) → lstep l (fk w, fcs w) (k', cs') →
  ∃ e h' cx', fstep e w (mkF k' cs' h' cx').
Proof.
  intros [Hi [Hx Hs] Hd Hl Hc Hr] [p Hp] Hst. destruct w as [k cs h cx]. cbn [fk fcs fh fcx] in *.
  assert (work cx h h) as Hw by done. assert (∀ t, is_Some (status k !! t) → is_Some (cx !! t)) as Hcx by (intros t; by rewrite Hd).
  destruct l as [t|].
  - inversion Hst as [s cs0 t0 k1 k2 Hcur Hrun Hres| | | | | | | | | | | | | |]; subst. destruct (dispatch_kind k cs t k1 k' Hi Hrun Hres) as (Ht & _ & Hcur').
    destruct (Hcx t Ht) as [q Hq]. assert (work cx (switch_to IDLE q h) (switch_to IDLE q h)) as Hw2.
    { destruct Hl as [Hpl Hap]. destruct (switch_to_spec IDLE q h Hx Hs (Hpl None IDLE eq_refl) (Hap None (Some t) IDLE q eq_refl Hq ltac:(done))) as (_ & _ & _ & ? & ?). done. }
    destruct Hcur' as [Hc'|Hc']; [by eexists _, _, _; eapply f_run|by eexists _, _, _; eapply f_run_back].
  - destruct (lstep_kinds k cs k' cs' Hi Hst) as [(t & Hn & Hcs & -> & ->)|[(t & Hcur & Hex & ->)|[Hlive Hk]]].
    + assert (cx !! t = None) as Hn' by (apply eq_None_not_Some; intros H%Hd; rewrite Hn in H; by destruct H).
      eexists [Made (Some t) (goto_trap_return TRAP_RETURN 0)], _, _. by apply (f_spawn k cs t p 0).
    + by eexists _, _, _; eapply f_exit.
    + destruct Hk as [Hk|(t & Hcur & Hk)]; [by eexists _, _, _; eapply f_stay|].
      destruct (Hcx t (running_live k t (in_placed _ _ Hi) Hcur)) as [q Hq]. by eexists _, _, _; eapply f_leave.
Qed.

Context (h0 : mach) (Hidle : places 14 (W IDLE)) (Hlen : length (xs h0) = 32%nat) (Hsatp : c_satp h0 = KSATP).
(** The kernel when it enters [run_tasks]. *)
Definition flows_start : flows := mkF boot ∅ h0 ∅.
Lemma start_finv : finv [] flows_start.
Proof.
  split; cbn.
  - apply inv_boot.
  - done.
  - intros t. by rewrite !lookup_empty.
  - split; [intros [t|] p; cbn; [done|by intros [= <-]]|]. intros [t|] [t'|] p q; cbn; done.
  - intros [t|] p; cbn; done.
  - by intros [|] ? ? ? ?.
Qed.
Lemma trace_finv evs w : trace flows_start evs w → finv evs w.
Proof. induction 1 as [|evs e w1 w2 _ IH Hs]; [apply start_finv|by eapply flow_inv_step]. Qed.
End flows.

(** C24 The context switch, on every run of the scheduler: a flow that continues has
    the return address, the stack pointer and the registers s0 to s11 it had when
    it gave the processor away, or those written for it when it was made, whatever
    the others did in between; the contexts in memory are those of the flows that
    wait; and every step the scheduler can take is taken so. *)
Theorem flows_resume tr KSATP IDLE TRAP_RETURN h0 evs w :
  places 14 (word tr KSATP IDLE) → length (xs h0) = 32%nat → c_satp h0 = KSATP →
  trace tr KSATP IDLE TRAP_RETURN (flows_start h0) evs w →
  resumed evs ∧
  (∀ f p, flow_ptr IDLE (fcx w) f = Some p → f ≠ current (fk w) → waiting evs f (cx_at (ram (fh w)) (word tr KSATP p))) ∧
  (∀ l k' cs', (∃ p, fresh tr KSATP IDLE (fcx w) p) → lstep l (fk w, fcs w) (k', cs') →
     ∃ e h' cx', fstep tr KSATP IDLE TRAP_RETURN e w (mkF k' cs' h' cx')).
Proof.
  intros H1 H2 H3 Ht. pose proof (trace_finv tr KSATP IDLE TRAP_RETURN h0 H1 H2 H3 evs w Ht) as Hf.
  split; [apply Hf|]. split; [apply Hf|]. intros l k' cs' Hp Hs. by eapply step_followed.
Qed.

Module FlowDemo.
Definition flat (satp va : Z) : Z := va.
Definition idle : Z := 4096.
Definition cx1 : Z := 8192.
Definition h0 : mach := mkM (seqZ 0 32) 0 0 9 0 ∅.
Definition made : TaskContext := goto_trap_return 77 5000.
Definition h1 : mach := put_cx flat 9 cx1 made h0.
Definition h2 : mach := switch_to flat idle cx1 h1.
(** The thread works, then yields. *)
Definition h3 : mach := with_xs (seqZ 500 32) h2.
Definition h4 : mach := schedule flat idle cx1 h3.
Definition h5 : mach := with_xs (seqZ 900 32) h4.
Definition h6 : mach := switch_to flat idle cx1 h5.
Definition k1 : kst := spawn 1 boot.
Definition k2 : kst := match run_task k1 with Some (_, k) => k | None => k1 end.
Definition k3 : kst := match suspend_current_and_run_next CReturn k2 with Ok k => k | Err _ => k2 end.
Definition k4 : kst := match run_task k3 with Some (_, k) => k | None => k3 end.
Definition evs : list event :=
  ((([] ++ [Made (Some 1) made]) ++ [Gave None (callee (xs h1)); Got (Some 1) (callee (xs h2))]) ++
   [Gave (Some 1) (callee (xs h3)); Got None (callee (xs h4))]) ++ [Gave None (callee (xs h5)); Got (Some 1) (callee (xs h6))].
Lemma far p q : 0 ≤ p → p + 112 ≤ q → q < 2 ^ 32 → ∀ i j, (i < 14)%nat → (j < 14)%nat → word flat 9 p i ≠ word flat 9 q j.
Proof. intros Hp Hpq Hq i j Hi Hj. unfold word, flat, u64. rewrite !Z.mod_small by lia. lia. Qed.
Lemma near p : 0 ≤ p < 2 ^ 32 → places 14 (word flat 9 p).
Proof. intros Hp i j Hi Hj. unfold word, flat, u64. rewrite !Z.mod_small by lia. lia. Qed.
Lemma works cx h x : length x = 32%nat → c_satp h = 9 → work flat 9 idle cx h (with_xs x h).
Proof. by split. Qed.
Lemma cx1_fresh : fresh flat 9 idle ∅ cx1.
Proof.
  split; [apply near; unfold cx1; lia|]. intros [t|] q Hq; [done|]. injection Hq as <-. intros i j Hi Hj He. symmetry in He. revert He.
  by apply far; [unfold idle, cx1; lia..|].
Qed.
Definition c2 : gset (Z * nat) := completed 1 k2 k2 ∪ ∅.
Definition c4 : gset (Z * nat) := completed 1 k4 k4 ∪ c2.
Definition cx : gmap Z Z := <[1 := cx1]> ∅.
Lemma demo_trace : trace flat 9 idle 77 (flows_start h0) evs (mkF k4 c4 h6 cx).
Proof.
  assert (same_live k2 k3) as Hl by (intros x; cbn; apply (live_insert (status k2) 1 Ready); by eexists).
  apply (t_step _ _ _ _ _ _ _ (mkF k3 c2 h4 cx)); [apply (t_step _ _ _ _ _ _ _ (mkF k2 c2 h2 cx)); [apply (t_step _ _ _ _ _ _ _ (mkF k1 ∅ h1 cx));
    [apply (t_step _ _ _ _ _ _ _ (flows_start h0)); [apply t_start|]|]|]|].
  - by apply (f_spawn flat 9 idle 77 boot ∅ 1 cx1 5000 h0 ∅); [set_solver|..|apply cx1_fresh].
  - apply (f_run flat 9 idle 77 k1 ∅ 1 k2 k2 cx1 h1 h1 h2 cx); [done..|by apply (works _ h1 (xs h1))|done].
  - apply (f_leave flat 9 idle 77 k2 c2 k3 c2 1 cx1 h2 h3 h4 cx); [by eapply st_yield|done..|by apply (works _ h2 (seqZ 500 32))|done].
  - apply (f_run flat 9 idle 77 k3 c2 1 k4 k4 cx1 h4 h5 h6 cx); [done..|by apply (works _ h4 (seqZ 900 32))|done].
Qed.
Lemma flows_resume_witness : resumed evs ∧ callee (xs h6) = callee (xs h3).
Proof.
  destruct (flows_resume flat 9 idle 77 h0 evs _ (near idle ltac:(unfold idle; lia)) eq_refl eq_refl demo_trace) as (Hr & _).
  split; [exact Hr|vm_compute; reflexivity].
Defined.
End FlowDemo.
