(* ===== verification/OpenFiles.v ===== *)
(** * Open files and descriptors (os/src/fs/inode.rs: OSInode; os/src/fs/stdio.rs;
      os/src/task/process.rs: alloc_fd and the descriptor copy of fork;
      os/src/syscall/fs.rs: read, write, close, dup, pipe)

    A descriptor refers to a shared [Arc<dyn File>]: the objects live in a store
    and a descriptor table holds their names, so that [dup] shares an object and
    [fork] makes new ones for files on disk.  What the inode layer promises
    (Vfs.v) is the class [InodeLaws]. *)
From S2P Require Import Prelude Bytes Address FrameAllocator PageTable MemorySet AddressSpace UserMem.

(** [Inode::read_at] and [Inode::write_at] of the file system behind the
    descriptors. *)
Class Inodes (S : Type) := {
  inode_read_at : Z → Z → nat → M S (list Z);
  inode_write_at : Z → Z → list Z → M S Z;
}.
(** What they promise: the regular files are byte strings, named by inode
    numbers.  [room s ino e]: file [ino] can grow to [e] bytes. *)
Class InodeLaws (S : Type) `{Inodes S} := {
  files_rel : S → gmap Z (list Z) → Prop;
  room : S → Z → Z → Prop;
  files_bytes : ∀ s fm ino c, files_rel s fm → fm !! ino = Some c → Forall is_byte c;
  read_at_law : ∀ s fm ino c off n, files_rel s fm → fm !! ino = Some c → 0 ≤ off → off + Z.of_nat n < 2 ^ 64 →
    inode_read_at ino off n s = Ok (slice (Z.to_nat off) n c, s);
  write_at_law : ∀ s fm ino c off bs, files_rel s fm → fm !! ino = Some c → 0 ≤ off → bs ≠ [] → Forall is_byte bs →
    room s ino (off + Z.of_nat (length bs)) →
    ∃ s' gap, inode_write_at ino off bs s = Ok (Z.of_nat (length bs), s') ∧
      length gap = (Z.to_nat off - length c)%nat ∧
      files_rel s' (<[ino := overwrite (Z.to_nat off) gap bs c]> fm) ∧
      (∀ e, 0 ≤ e → room s ino e → room s' ino e);
  room_mono : ∀ s ino e e', room s ino e → 0 ≤ e' ≤ e → room s ino e';
}.

Inductive File :=
| OSInode (readable writable : bool) (offset ino : Z)
| Stdin
| Stdout
| PipeEnd (readable writable : bool) (buffer : Z)
| Socket (readable writable : bool) (index : Z).
Definition file_readable (f : File) : bool :=
  match f with OSInode r _ _ _ => r | Stdin => true | Stdout => false | PipeEnd r _ _ => r | Socket r _ _ => r end.
Definition file_writable (f : File) : bool :=
  match f with OSInode _ w _ _ => w | Stdin => false | Stdout => true | PipeEnd _ w _ => w | Socket _ w _ => w end.

Definition osinode_new (readable writable : bool) (ino : Z) : File := OSInode readable writable 0 ino.
(** [OSInode::copy]: a new object with the offset of the old one. *)
Definition osinode_copy (f : File) : File := f.

(** [alloc_fd]: the first free slot, or one more. *)
Definition alloc_fd (t : list (option Z)) : nat * list (option Z) :=
  match list_find (λ o, o = None) t with
  | Some (i, _) => (i, t)
  | None => (length t, t ++ [None])
  end.

Section files.
Context {S : Type} `{!Inodes S}.

(** Physical memory, inodes, the store of file objects; the address space, the
    descriptor table and the current directory of the running process. *)
Record fstate := mkF {
  fmem : kmem;
  inodes : S;
  objs : gmap Z File;
  next_obj : Z;
  fspace : MemorySet;
  fd_table : list (option Z);
  cwd : Z;
}.
Definition set_mem (k : kmem) (s : fstate) : fstate := mkF k (inodes s) (objs s) (next_obj s) (fspace s) (fd_table s) (cwd s).
Definition set_inodes (i : S) (s : fstate) : fstate := mkF (fmem s) i (objs s) (next_obj s) (fspace s) (fd_table s) (cwd s).
Definition set_objs (o : gmap Z File) (s : fstate) : fstate := mkF (fmem s) (inodes s) o (next_obj s) (fspace s) (fd_table s) (cwd s).
Definition set_fds (t : list (option Z)) (s : fstate) : fstate := mkF (fmem s) (inodes s) (objs s) (next_obj s) (fspace s) t (cwd s).
Definition set_cwd (d : Z) (s : fstate) : fstate := mkF (fmem s) (inodes s) (objs s) (next_obj s) (fspace s) (fd_table s) d.
Definition new_obj (f : File) : M fstate Z := λ s,
  Ok (next_obj s, mkF (fmem s) (inodes s) (<[next_obj s := f]> (objs s)) (next_obj s + 1) (fspace s) (fd_table s) (cwd s)).

Definition f_mem {A} (c : M kmem A) : M fstate A := λ s,
  match c (fmem s) with Ok (a, k) => Ok (a, set_mem k s) | Err e => Err e end.
Definition f_inodes {A} (c : M S A) : M fstate A := λ s,
  match c (inodes s) with Ok (a, i) => Ok (a, set_inodes i s) | Err e => Err e end.
Definition f_gets {A} (f : fstate → A) : M fstate A := λ s, Ok (f s, s).
Definition f_modify (f : fstate → fstate) : M fstate () := λ s, Ok ((), f s).

(** [OSInode::read] and [write], on the object [o]: (offset, total). *)
Fixpoint osinode_read_loop (ino : Z) (bufs : list uslice) (offset total : Z) : M fstate (Z * Z) :=
  match bufs with
  | [] => mret (offset, total)
  | (ppn, a, b) :: rest =>
      f_inodes (inode_read_at ino offset (Z.to_nat (b - a))) ≫= λ bs : list Z,
      f_mem (write_slice (ppn, a, b) bs) ≫= λ _,
      let len := Z.of_nat (length bs) in
      if len =? 0 then mret (offset, total)
      else osinode_read_loop ino rest (offset + len) (total + len)
  end.
Fixpoint osinode_write_loop (ino : Z) (bufs : list uslice) (offset total : Z) : M fstate (Z * Z) :=
  match bufs with
  | [] => mret (offset, total)
  | (ppn, a, b) :: rest =>
      f_mem (read_slice (ppn, a, b)) ≫= λ bs,
      f_inodes (inode_write_at ino offset bs) ≫= λ len,
      lift (assert (len =? Z.of_nat (length bs))) ≫= λ _,
      osinode_write_loop ino rest (offset + len) (total + len)
  end.
Definition osinode_read (o : Z) (r w : bool) (offset ino : Z) (bufs : list uslice) : M fstate Z :=
  osinode_read_loop ino bufs offset 0 ≫= λ '(offset', total),
  f_modify (λ s, set_objs (<[o := OSInode r w offset' ino]> (objs s)) s) ≫= λ _, mret total.
Definition osinode_write (o : Z) (r w : bool) (offset ino : Z) (bufs : list uslice) : M fstate Z :=
  osinode_write_loop ino bufs offset 0 ≫= λ '(offset', total),
  f_modify (λ s, set_objs (<[o := OSInode r w offset' ino]> (objs s)) s) ≫= λ _, mret total.

(** What [read] and [write] return: a number, or the call on a console, a pipe
    or a socket that is made with the translated buffer. *)
Inductive io := Done (n : Z) | CallFile (o : Z) (f : File) (bufs : list uslice).

Definition sys_rw (fuel : nat) (allowed : File → bool)
    (op : Z → bool → bool → Z → Z → list uslice → M fstate Z) (fd buf len : Z) : M fstate io :=
  f_gets fd_table ≫= λ t, f_gets objs ≫= λ os, f_gets (λ s, ms_token (fspace s)) ≫= λ token,
  match t !! Z.to_nat fd with
  | Some (Some o) =>
      lift (unwrap (os !! o)) ≫= λ file,
      if negb (allowed file) then mret (Done (-1))
      else
        f_mem (translated_byte_buffer fuel token buf len) ≫= λ bufs,
        match file with
        | OSInode r w offset ino => op o r w offset ino bufs ≫= λ n, mret (Done n)
        | _ => mret (CallFile o file bufs)
        end
  | _ => mret (Done (-1))
  end.
Definition sys_read (fuel : nat) : Z → Z → Z → M fstate io := sys_rw fuel file_readable osinode_read.
Definition sys_write (fuel : nat) : Z → Z → Z → M fstate io := sys_rw fuel file_writable osinode_write.

(** Install an object at a new descriptor. *)
Definition install (o : Z) : M fstate nat := λ s,
  let '(fd, t) := alloc_fd (fd_table s) in Ok (fd, set_fds (<[fd := Some o]> t) s).

Definition sys_close (fd : Z) : M fstate Z := λ s,
  match fd_table s !! Z.to_nat fd with
  | Some (Some _) => Ok (0, set_fds (<[Z.to_nat fd := None]> (fd_table s)) s)
  | _ => Ok (-1, s)
  end.
Definition sys_dup (fd : Z) : M fstate Z := λ s,
  match fd_table s !! Z.to_nat fd with
  | Some (Some o) => (install o ≫= λ n, mret (Z.of_nat n)) s
  | _ => Ok (-1, s)
  end.
(** [buffer] is the ring buffer [make_pipe] creates. *)
Definition install_pipe (buffer : Z) : M fstate (nat * nat) :=
  new_obj (PipeEnd true false buffer) ≫= λ r, new_obj (PipeEnd false true buffer) ≫= λ w,
  install r ≫= λ read_fd, install w ≫= λ write_fd, mret (read_fd, write_fd).
Definition sys_pipe (buffer pipe : Z) : M fstate Z :=
  f_gets (λ s, ms_token (fspace s)) ≫= λ token,
  install_pipe buffer ≫= λ '(read_fd, write_fd),
  f_mem (write_user 8 token pipe (Z.of_nat read_fd)) ≫= λ _,
  f_mem (write_user 8 token (u64 (pipe + 8)) (Z.of_nat write_fd)) ≫= λ _, mret 0.

(** The descriptor table a forked process gets. *)
Fixpoint fork_fd_table (t : list (option Z)) : M fstate (list (option Z)) :=
  match t with
  | [] => mret []
  | Some o :: rest =>
      f_gets (λ s, objs s !! o) ≫= λ f, lift (unwrap f) ≫= λ file,
      (match file with OSInode _ _ _ _ => new_obj (osinode_copy file) | _ => mret o end) ≫= λ o',
      fork_fd_table rest ≫= λ t', mret (Some o' :: t')
  | None :: rest => fork_fd_table rest ≫= λ t', mret (None :: t')
  end.
End files.

Section specs.
Context {S : Type} `{!Inodes S, !InodeLaws S}.
Implicit Types s : @fstate S.

Lemma f_mem_Ok {A} (c : M kmem A) s a k : c (fmem s) = Ok (a, k) → f_mem c s = Ok (a, set_mem k s).
Proof. intros H. unfold f_mem. by rewrite H. Qed.
Lemma f_inodes_Ok {A} (c : M S A) s a i : c (inodes s) = Ok (a, i) → f_inodes c s = Ok (a, set_inodes i s).
Proof. intros H. unfold f_inodes. by rewrite H. Qed.
Lemma set_mem_id s : set_mem (fmem s) s = s.
Proof. by destruct s. Qed.
Lemma set_inodes_id s : set_inodes (inodes s) s = s.
Proof. by destruct s. Qed.

(** ** Reading *)

(** How many bytes a read of [len] bytes at [off] gives. *)
Definition avail (c : list Z) (off : Z) (len : nat) : nat := (length c - Z.to_nat off) `min` len.

Lemma length_slice_avail (c : list Z) off n : length (slice (Z.to_nat off) n c) = avail c off n.
Proof. unfold slice, avail. rewrite length_take, length_drop. lia. Qed.

Lemma slice_locs_pos m p a b : slice_ok m (p, a, b) → Forall (λ l, 0 ≤ l.2) (slice_locs (p, a, b)).
Proof.
  intros ([Ha _] & _). apply Forall_forall. intros l. simpl. rewrite list_elem_of_fmap.
  intros (o & -> & [Ho _]%elem_of_seqZ). simpl. lia.
Qed.

Lemma osinode_read_loop_spec fm ino c bufs off tot s :
  files_rel (inodes s) fm → fm !! ino = Some c → 0 ≤ off → off + Z.of_nat (length (buffer_locs bufs)) < 2 ^ 64 →
  Forall (slice_ok (mem (fmem s))) bufs → NoDup (buffer_locs bufs) →
  let n := avail c off (length (buffer_locs bufs)) in
  ∃ m', osinode_read_loop ino bufs off tot s =
      Ok ((off + Z.of_nat n, tot + Z.of_nat n), set_mem (mkMem (fa (fmem s)) m') s) ∧
    bytes_put (mem (fmem s)) m' (buffer_locs bufs) (slice (Z.to_nat off) n c).
Proof.
  intros Hino Hc. revert off tot s Hino. induction bufs as [|[[p a] b] bufs IH]; intros off tot s Hino Hoff Hend Hok Hnd n.
  { exists (mem (fmem s)). assert (n = 0%nat) as -> by (unfold n, avail; simpl; lia).
    split; [simpl; by rewrite !Z.add_0_r; destruct s as [[] ? ? ? ? ? ?]|]. apply bytes_put_nil. }
  apply Forall_cons in Hok as [Hsl Hok]. rewrite buffer_locs_cons in *.
  pose proof Hnd as (_ & _ & Hnd2)%NoDup_app.
  set (w := Z.to_nat (b - a)). set (bs := slice (Z.to_nat off) w c).
  assert (length (slice_locs (p, a, b)) = w) as Hw by apply length_slice_locs.
  assert (length bs = avail c off w) as Hbs by apply length_slice_avail.
  pose proof Hsl as (Hab & _ & _).
  destruct (write_slice_put p a b bs (fmem s)) as (m1 & Hr1 & Hp1); [done|by eapply Forall_slice, files_bytes| |].
  { unfold avail in Hbs. lia. }
  cbn [osinode_read_loop]. rewrite (M_bind_Ok _ _ _ _ _ (f_inodes_Ok _ s _ _ (read_at_law _ _ ino c off w Hino Hc Hoff ltac:(rewrite length_app, Hw in Hend; lia)))), set_inodes_id.
  fold bs. rewrite (M_bind_Ok _ _ _ _ _ (f_mem_Ok _ s _ _ Hr1)).
  destruct (Z.eqb_spec (Z.of_nat (length bs)) 0) as [H0|H0].
  - (* at the end of the file *)
    assert (n = 0%nat) as Hn by (unfold n, avail in *; lia).
    assert (bs = []) as Hbn by (apply nil_length_inv; lia). rewrite Hbn in *.
    exists m1. rewrite Hn, !Z.add_0_r. split; [done|].
    change (slice (Z.to_nat off) 0 c) with (@nil Z). apply bytes_put_more; [done|simpl; lia].
  - destruct (IH (off + Z.of_nat (length bs)) (tot + Z.of_nat (length bs)) (set_mem (mkMem (fa (fmem s)) m1) s))
      as (m2 & Hr2 & Hp2); [done|lia|rewrite length_app in Hend; unfold avail in Hbs; lia| |done|].
    { eapply Forall_impl; [exact Hok|]. intros sl. by apply (slice_ok_put _ _ _ _ _ Hp1). }
    cbn [fmem inodes set_mem fa mem] in *. rewrite Hr2. exists m2. split.
    + do 2 f_equal. unfold n. rewrite buffer_locs_cons, length_app, Hw. unfold avail in *. f_equal; lia.
    + destruct (decide (length bs = w)) as [Hfull|Hpart].
      * replace n with (length bs + avail c (off + Z.of_nat (length bs)) (length (buffer_locs bufs)))%nat
          by (unfold n; rewrite buffer_locs_cons, length_app, Hw; unfold avail in *; lia).
        rewrite slice_app. apply (bytes_put_app _ m1).
        -- rewrite Hfull. exact Hp1.
        -- replace (Z.to_nat off + length bs)%nat with (Z.to_nat (off + Z.of_nat (length bs))) by lia. exact Hp2.
        -- rewrite Hfull, Hw. rewrite length_slice_avail. lia.
        -- done.
        -- by eapply slice_locs_pos.
      * assert (avail c (off + Z.of_nat (length bs)) (length (buffer_locs bufs)) = 0%nat) as Hz by (unfold avail in *; lia).
        replace n with (length bs) by (unfold n; rewrite buffer_locs_cons, length_app, Hw; unfold avail in *; lia).
        rewrite Hz in Hp2. eapply bytes_put_skip; [|exact Hp2| |by eapply slice_locs_pos].
        -- assert (slice (Z.to_nat off) (length bs) c = bs) as ->; [|exact Hp1].
           unfold bs, slice in *. rewrite length_take in *. by rewrite !take_ge by (rewrite ?length_take, ?length_drop in *; lia).
        -- rewrite length_slice_avail, Hw. unfold avail in *. lia.
Qed.

(** The calls up to the translated buffer. *)
Lemma sys_rw_run fuel allowed op l0 s fd buf len o r w off ino :
  space_ok l0 (fspace s) (fmem s) → in_areas (fspace s) buf len → len / 4096 + 3 ≤ Z.of_nat fuel →
  fd_table s !! Z.to_nat fd = Some (Some o) → objs s !! o = Some (OSInode r w off ino) →
  allowed (OSInode r w off ino) = true →
  ∃ bufs, user_slices l0 (fspace s) (fmem s) buf len bufs ∧
    sys_rw fuel allowed op fd buf len s = (op o r w off ino bufs ≫= λ n, mret (Done n)) s.
Proof.
  intros Hsp Hin Hfuel Hfd Ho Hal.
  destruct (translated_user_buffer l0 (fspace s) (fmem s) buf len fuel Hsp Hin Hfuel) as (bufs & Hb & Hus).
  exists bufs. split; [done|]. unfold sys_rw. rewrite !(M_bind_Ok _ _ _ _ _ eq_refl), Hfd, Ho.
  rewrite (M_bind_Ok _ _ _ _ _ eq_refl), Hal. cbn [negb].
  by rewrite (M_bind_Ok _ _ _ _ _ (f_mem_Ok _ s _ _ Hb)), set_mem_id.
Qed.

(** A descriptor that is not open, or not for this direction, is refused. *)
Lemma sys_rw_refused fuel allowed op fd buf len s :
  match fd_table s !! Z.to_nat fd with
  | Some (Some o) => ∃ f, objs s !! o = Some f ∧ allowed f = false
  | _ => True
  end → sys_rw fuel allowed op fd buf len s = Ok (Done (-1), s).
Proof.
  intros H. unfold sys_rw. rewrite !(M_bind_Ok _ _ _ _ _ eq_refl).
  destruct (fd_table s !! Z.to_nat fd) as [[o|]|]; [|done|done]. destruct H as (f & Hf & Ha).
  rewrite Hf, (M_bind_Ok _ _ _ _ _ eq_refl). by rewrite Ha.
Qed.

(** C31 Reading a file.  [read] on a descriptor of a readable file copies the bytes
    at the file's offset, as many as fit and as there are, to the user's buffer,
    moves the offset past them and returns their number; the rest of user
    memory, the files, and the address space stay as they were.  A descriptor
    that is not open for reading is refused with -1. *)
Theorem sys_read_correct fuel l0 s fm fd buf len :
  space_ok l0 (fspace s) (fmem s) → in_areas (fspace s) buf len → files_rel (inodes s) fm → len / 4096 + 3 ≤ Z.of_nat fuel →
  match fd_table s !! Z.to_nat fd ≫= λ o, o ≫= λ o, (λ f, (o, f)) <$> objs s !! o with
  | Some (o, OSInode true w off ino) =>
      ∀ c, fm !! ino = Some c → 0 ≤ off → off + len < 2 ^ 64 →
      let n := avail c off (Z.to_nat len) in
      ∃ s', sys_read fuel fd buf len s = Ok (Done (Z.of_nat n), s') ∧
        objs s' = <[o := OSInode true w (off + Z.of_nat n) ino]> (objs s) ∧
        inodes s' = inodes s ∧ fspace s' = fspace s ∧ fd_table s' = fd_table s ∧ space_ok l0 (fspace s') (fmem s') ∧
        (∀ i, (i < n)%nat → user_byte (fspace s') (fmem s') (buf + Z.of_nat i) = c !! (Z.to_nat off + i)%nat) ∧
        (∀ va a, a ∈ areas (fspace s) → floor va ∈ pages_of a → ¬ (buf ≤ va < buf + Z.of_nat n) →
           user_byte (fspace s') (fmem s') va = user_byte (fspace s) (fmem s) va)
  | Some (_, OSInode false _ _ _) | Some (_, Stdout) => sys_read fuel fd buf len s = Ok (Done (-1), s)
  | Some _ => True
  | None => (∀ o, fd_table s !! Z.to_nat fd = Some (Some o) → is_Some (objs s !! o)) → sys_read fuel fd buf len s = Ok (Done (-1), s)
  end.
Proof.
  intros Hsp Hin Hino Hfuel. destruct (fd_table s !! Z.to_nat fd) as [[o|]|] eqn:Hfd; simpl.
  2,3: intros _; apply sys_rw_refused; by rewrite Hfd.
  destruct (objs s !! o) as [f|] eqn:Ho; simpl; [|intros Hs; destruct (Hs o eq_refl) as [? ?]; congruence].
  destruct f as [[] w off ino| | | |]; try done; [|by apply sys_rw_refused; rewrite Hfd; eauto..].
  intros c Hc Hoff Hend. pose proof Hin as (_ & Hl0 & _ & _).
  destruct (sys_rw_run fuel file_readable osinode_read l0 s fd buf len o true w off ino) as (bufs & Hus & Hrun); try done.
  unfold sys_read. rewrite Hrun. unfold osinode_read. pose proof Hus as [Hok Hnd Hlen _ _].
  destruct (osinode_read_loop_spec fm ino c bufs off 0 s Hino Hc Hoff) as (m' & Hr & Hput); [rewrite Hlen; lia|done|done|].
  rewrite Hlen in Hr, Hput. set (n := avail c off (Z.to_nat len)) in *.
  assert (length (slice (Z.to_nat off) n c) = n) as Hn by (rewrite length_slice_avail; unfold n, avail; lia).
  destruct (bytes_put_space l0 (fspace s) (fmem s) buf len bufs m' _ Hsp Hus Hput) as [Hsp' _].
  destruct (bytes_put_user l0 (fspace s) (fmem s) buf len bufs m' _ Hsp Hin Hus Hput) as [Hu1 Hu2].
  { rewrite Hn. unfold n, avail. destruct Hin. lia. }
  rewrite Hn in Hu1, Hu2.
  eexists. split; [unfold mbind, M_bind; rewrite Hr; reflexivity|]. cbn -[user_byte].
  split_and!; try done. intros i Hi. rewrite Hu1 by done. by apply lookup_slice.
Qed.

(** ** Writing *)
Definition wrote (off : nat) (bs c c' : list Z) : Prop :=
  if decide (bs = []) then c' = c
  else ∃ gap, length gap = (off - length c)%nat ∧ c' = overwrite off gap bs c.

Lemma overwrite_app off gap (b1 b2 c : list Z) :
  length gap = (off - length c)%nat →
  overwrite (off + length b1) [] b2 (overwrite off gap b1 c) = overwrite off gap (b1 ++ b2) c.
Proof.
  intros Hg. unfold overwrite. assert (length (take off c ++ gap) = off) as Hp by (rewrite length_app, length_take; lia).
  rewrite !(app_assoc (take off c) gap). set (pre := take off c ++ gap) in *. rewrite length_app, app_nil_l.
  rewrite (app_assoc pre b1 (drop _ c)). rewrite take_app_length' by (rewrite length_app; lia).
  rewrite drop_app_ge by (rewrite length_app; lia). rewrite length_app, Hp, drop_drop.
  rewrite <- !app_assoc. do 4 f_equal. lia.
Qed.

Lemma wrote_bytes_app off b1 b2 c c1 c2 :
  b1 ≠ [] → wrote off b1 c c1 → wrote (off + length b1) b2 c1 c2 → wrote off (b1 ++ b2) c c2.
Proof.
  intros Hne. unfold wrote. rewrite (decide_False (P := b1 = [])) by done. intros (gap & Hg & ->).
  rewrite (decide_False (P := b1 ++ b2 = [])) by (by intros [-> _]%app_eq_nil). case_decide as Hb2.
  - intros ->. exists gap. subst b2. by rewrite app_nil_r.
  - intros (g2 & Hg2 & ->). exists gap. split; [done|].
    assert (g2 = []) as ->; [|by apply overwrite_app].
    apply nil_length_inv. rewrite Hg2. unfold overwrite. rewrite !length_app, length_take, length_drop. lia.
Qed.

Lemma osinode_write_loop_spec ino bufs off tot s fm c :
  files_rel (inodes s) fm → fm !! ino = Some c → 0 ≤ off → Forall (slice_ok (mem (fmem s))) bufs →
  room (inodes s) ino (off + Z.of_nat (length (buffer_locs bufs))) →
  ∃ i' bs c', osinode_write_loop ino bufs off tot s =
      Ok ((off + Z.of_nat (length bs), tot + Z.of_nat (length bs)), set_inodes i' s) ∧
    byte_at (mem (fmem s)) <$> buffer_locs bufs = Some <$> bs ∧
    wrote (Z.to_nat off) bs c c' ∧ files_rel i' (<[ino := c']> fm).
Proof.
  revert off tot s fm c. induction bufs as [|[[p a] b] bufs IH]; intros off tot s fm c Hino Hc Hoff Hok Hroom.
  { exists (inodes s), [], c. split_and!; try done; [simpl; rewrite !Z.add_0_r; by destruct s|by rewrite insert_id]. }
  apply Forall_cons in Hok as [Hsl Hok]. rewrite buffer_locs_cons, length_app, length_slice_locs in Hroom.
  destruct (read_slice_spec p a b (fmem s) Hsl) as (b1 & Hr1 & Hl1 & Hne & Hb1 & Hm1). rewrite <- Hl1 in Hroom.
  destruct (write_at_law (inodes s) fm ino c off b1) as (i1 & gap & Hw & Hg & Hrel1 & Hroom1); [done|done|done|done|done| |].
  { eapply room_mono; [exact Hroom|]. lia. }
  cbn [osinode_write_loop]. rewrite (M_bind_Ok _ _ _ _ _ (f_mem_Ok _ s _ _ Hr1)), set_mem_id.
  rewrite (M_bind_Ok _ _ _ _ _ (f_inodes_Ok _ s _ _ Hw)), Z.eqb_refl, (M_bind_Ok _ _ _ _ _ eq_refl).
  destruct (IH (off + Z.of_nat (length b1)) (tot + Z.of_nat (length b1)) (set_inodes i1 s) _ _ Hrel1 (lookup_insert_eq _ _ _))
    as (i2 & b2 & c2 & Hr2 & Hm2 & Hw2 & Hrel2); [lia|done| |].
  { apply Hroom1; [lia|]. eapply room_mono; [exact Hroom|]. lia. }
  exists i2, (b1 ++ b2), c2. rewrite Hr2. split_and!; [| | |by rewrite insert_insert_eq in Hrel2].
  - rewrite length_app, Nat2Z.inj_add, !Z.add_assoc. done.
  - rewrite buffer_locs_cons, !fmap_app, Hm1. f_equal. exact Hm2.
  - eapply wrote_bytes_app; [done| |].
    + unfold wrote. rewrite decide_False by done. exists gap. split; [exact Hg|done].
    + replace (Z.to_nat off + length b1)%nat with (Z.to_nat (off + Z.of_nat (length b1))) by lia. exact Hw2.
Qed.

(** C32 Writing a file.  [write] on a descriptor of a writable file puts exactly the
    bytes of the user's buffer into the file at its offset, extending it when
    they pass its end, moves the offset past them and returns their number;
    other files and user memory stay as they were. *)
Theorem sys_write_correct fuel l0 s fm fd buf len o r off ino c :
  space_ok l0 (fspace s) (fmem s) → in_areas (fspace s) buf len → files_rel (inodes s) fm → fm !! ino = Some c →
  len / 4096 + 3 ≤ Z.of_nat fuel →
  fd_table s !! Z.to_nat fd = Some (Some o) → objs s !! o = Some (OSInode r true off ino) → 0 ≤ off →
  room (inodes s) ino (off + len) →
  ∃ bs i' c', sys_write fuel fd buf len s =
      Ok (Done len, set_objs (<[o := OSInode r true (off + len) ino]> (objs s)) (set_inodes i' s)) ∧
    length bs = Z.to_nat len ∧
    (∀ i, (i < Z.to_nat len)%nat → user_byte (fspace s) (fmem s) (buf + Z.of_nat i) = bs !! i) ∧
    wrote (Z.to_nat off) bs c c' ∧ files_rel i' (<[ino := c']> fm).
Proof.
  intros Hsp Hin Hino Hc Hfuel Hfd Ho Hoff Hroom. pose proof Hin as (_ & Hl0 & _ & _).
  destruct (sys_rw_run fuel file_writable osinode_write l0 s fd buf len o r true off ino) as (bufs & Hus & Hrun); try done.
  unfold sys_write. rewrite Hrun. unfold osinode_write. pose proof Hus as [Hok Hnd Hlen _ _].
  destruct (osinode_write_loop_spec ino bufs off 0 s fm c Hino Hc Hoff Hok) as (i' & bs & c' & Hr & Hm & Hw & Hrel).
  { rewrite Hlen. by rewrite Z2Nat.id by done. }
  destruct (user_bytes_read _ _ _ _ _ _ _ Hus Hm) as [Hbl Hub].
  replace (Z.of_nat (length bs)) with len in Hr by lia. rewrite Z.add_0_l in Hr.
  exists bs, i', c'. split_and!; try done. unfold mbind, M_bind. by rewrite Hr.
Qed.

(** ** Descriptors as a partial map *)
Definition descriptor (t : list (option Z)) (fd : nat) : option Z := t !! fd ≫= id.
Definition fd_rel (s : (@fstate S)) (d : gmap nat Z) : Prop := ∀ fd, descriptor (fd_table s) fd = d !! fd.

Inductive fdop := FOpen (f : File) | FClose (fd : nat) | FDup (fd : nat).
Definition fd_run (op : fdop) : M (@fstate S) Z :=
  match op with
  | FOpen f => new_obj f ≫= λ o, install o ≫= λ n, mret (Z.of_nat n)
  | FClose fd => sys_close (Z.of_nat fd)
  | FDup fd => sys_dup (Z.of_nat fd)
  end.

(** What the calls promise: the lowest descriptor that is free. *)
Definition least_free (d : gmap nat Z) (n : nat) : Prop := d !! n = None ∧ ∀ m, (m < n)%nat → is_Some (d !! m).
Inductive fd_spec (next : Z) (d : gmap nat Z) : fdop → Z → gmap nat Z → Prop :=
| spec_open f n : least_free d n → fd_spec next d (FOpen f) (Z.of_nat n) (<[n := next]> d)
| spec_close fd o : d !! fd = Some o → fd_spec next d (FClose fd) 0 (delete fd d)
| spec_close_bad fd : d !! fd = None → fd_spec next d (FClose fd) (-1) d
| spec_dup fd o n : d !! fd = Some o → least_free d n → fd_spec next d (FDup fd) (Z.of_nat n) (<[n := o]> d)
| spec_dup_bad fd : d !! fd = None → fd_spec next d (FDup fd) (-1) d.

Lemma descriptor_None t fd : (∃ o, descriptor t fd = Some o) ↔ ∃ o, t !! fd = Some (Some o).
Proof. unfold descriptor. destruct (t !! fd) as [[o|]|]; naive_solver. Qed.

Lemma install_spec o s d :
  fd_rel s d → ∃ n t, install o s = Ok (n, set_fds t s) ∧ least_free d n ∧ fd_rel (set_fds t s) (<[n := o]> d).
Proof.
  intros Hrel. unfold install, alloc_fd. destruct (list_find _ (fd_table s)) as [[i x]|] eqn:Hf.
  - apply list_find_Some in Hf as (Hi & -> & Hlow). apply lookup_lt_Some in Hi as Hlt.
    eexists i, _. split; [done|]. split; [split|].
    + rewrite <- Hrel. unfold descriptor. by rewrite Hi.
    + intros m Hm. rewrite <- Hrel. unfold descriptor. destruct (lookup_lt_is_Some_2 (fd_table s) m) as [y Hy]; [lia|].
      rewrite Hy. simpl. destruct y; [by eexists|]. by destruct (Hlow m None Hy).
    + intros fd. unfold descriptor. simpl. destruct (decide (fd = i)) as [->|].
      * by rewrite list_lookup_insert_eq, lookup_insert_eq.
      * rewrite list_lookup_insert_ne, lookup_insert_ne by done. apply Hrel.
  - apply list_find_None in Hf. eexists (length (fd_table s)), _. split; [done|]. split; [split|].
    + rewrite <- Hrel. unfold descriptor. by rewrite lookup_ge_None_2.
    + intros m Hm. rewrite <- Hrel. unfold descriptor. destruct (lookup_lt_is_Some_2 (fd_table s) m) as [y Hy]; [lia|].
      rewrite Hy. simpl. destruct y; [by eexists|]. by destruct (Forall_lookup_1 _ _ _ _ Hf Hy).
    + intros fd. unfold descriptor. simpl. rewrite insert_app_r_alt, Nat.sub_diag by done. simpl.
      destruct (decide (fd = length (fd_table s))) as [->|].
      * by rewrite lookup_app_r, Nat.sub_diag, lookup_insert_eq by done.
      * rewrite lookup_insert_ne by done. rewrite <- Hrel. unfold descriptor.
        destruct (decide (fd < length (fd_table s))%nat); [by rewrite lookup_app_l|].
        rewrite !lookup_ge_None_2; [done|lia|rewrite length_app; simpl; lia].
Qed.

Lemma fd_step op s d :
  fd_rel s d → ∃ r s' d', fd_run op s = Ok (r, s') ∧ fd_spec (next_obj s) d op r d' ∧ fd_rel s' d'.
Proof.
  intros Hrel. destruct op as [f|fd|fd]; simpl.
  - set (s1 := mkF (fmem s) (inodes s) (<[next_obj s := f]> (objs s)) (next_obj s + 1) (fspace s) (fd_table s) (cwd s)).
    destruct (install_spec (next_obj s) s1 d) as (n & t & Hr & Hl & Hrel'); [exact Hrel|].
    eexists _, _, _. split; [|split; [by apply spec_open|exact Hrel']].
    rewrite (M_bind_Ok _ _ s (next_obj s) s1 eq_refl). by rewrite (M_bind_Ok _ _ _ _ _ Hr).
  - unfold sys_close. rewrite Nat2Z.id. specialize (Hrel fd) as Hfd. unfold descriptor in Hfd.
    destruct (fd_table s !! fd) as [[o|]|] eqn:Ht; simpl in Hfd.
    + eexists _, _, _. split; [done|]. split; [by eapply spec_close|]. intros k. unfold descriptor. simpl.
      apply lookup_lt_Some in Ht. destruct (decide (k = fd)) as [->|].
      * by rewrite list_lookup_insert_eq, lookup_delete_eq.
      * rewrite list_lookup_insert_ne, lookup_delete_ne by done. apply Hrel.
    + eexists _, s, d. split; [done|]. split; [by apply spec_close_bad|done].
    + eexists _, s, d. split; [done|]. split; [by apply spec_close_bad|done].
  - unfold sys_dup. rewrite Nat2Z.id. specialize (Hrel fd) as Hfd. unfold descriptor in Hfd.
    destruct (fd_table s !! fd) as [[o|]|] eqn:Ht; simpl in Hfd.
    + destruct (install_spec o s d Hrel) as (n & t & Hr & Hl & Hrel').
      eexists _, _, _. split; [by rewrite (M_bind_Ok _ _ _ _ _ Hr)|]. split; [by eapply spec_dup|done].
    + eexists _, s, d. split; [done|]. split; [by apply spec_dup_bad|done].
    + eexists _, s, d. split; [done|]. split; [by apply spec_dup_bad|done].
Qed.

(** A run of descriptor calls and the same run of the specification. *)
Inductive fd_both : list fdop → list Z → (@fstate S) → gmap nat Z → (@fstate S) → gmap nat Z → Prop :=
| fb_nil s d : fd_both [] [] s d s d
| fb_cons op r ops rs s d s1 d1 s' d' :
    fd_run op s = Ok (r, s1) → fd_spec (next_obj s) d op r d1 → fd_both ops rs s1 d1 s' d' →
    fd_both (op :: ops) (r :: rs) s d s' d'.

(** C33 Descriptors.  Opening, duplicating and closing implement a partial map
    from descriptors to open files in which a new descriptor is always the
    lowest free one: every run of calls returns what the specification
    returns, -1 for a descriptor that is not open, and leaves related states. *)
Theorem descriptors_refine ops s d :
  fd_rel s d → ∃ rs s' d', fd_both ops rs s d s' d' ∧ fd_rel s' d'.
Proof.
  revert s d. induction ops as [|op ops IH]; intros s d Hrel; [eexists [], s, d; by split; [constructor|]|].
  destruct (fd_step op s d Hrel) as (r & s1 & d1 & Hr & Hsp & Hrel1).
  destruct (IH s1 d1 Hrel1) as (rs & s' & d' & Hb & Hrel'). exists (r :: rs), s', d'. split; [by econstructor|done].
Qed.

(** The descriptors of a forked process: the same ones are open; files on disk
    get objects of their own that start with the parent's offset, other files
    are shared; the parent's objects do not change. *)
Definition child_file (s s' : (@fstate S)) (o o' : Z) : Prop :=
  objs s' !! o' = objs s !! o ∧
  match objs s !! o with Some (OSInode _ _ _ _) => next_obj s ≤ o' | _ => o' = o end.
Lemma fork_fds_spec t s :
  (∀ o f, objs s !! o = Some f → o < next_obj s) → (∀ i o, t !! i = Some (Some o) → is_Some (objs s !! o)) →
  ∃ t' s', fork_fd_table t s = Ok (t', s') ∧ length t' = length t ∧ next_obj s ≤ next_obj s' ∧
    (∀ o f, objs s !! o = Some f → objs s' !! o = Some f) ∧ (∀ o f, objs s' !! o = Some f → o < next_obj s') ∧
    (fd_table s' = fd_table s ∧ inodes s' = inodes s ∧ cwd s' = cwd s) ∧
    ∀ i, match t !! i, t' !! i with
         | Some (Some o), Some (Some o') => child_file s s' o o'
         | x, y => x = y
         end.
Proof.
  revert s. induction t as [|[o|] t IH]; intros s Hn Ht.
  - exists [], s. by split_and!.
  - destruct (Ht 0%nat o eq_refl) as [f Hf]. pose proof (Hn o f Hf) as Hlt.
    set (s1 := match f with OSInode _ _ _ _ => mkF (fmem s) (inodes s) (<[next_obj s := f]> (objs s)) (next_obj s + 1) (fspace s) (fd_table s) (cwd s) | _ => s end).
    set (o1 := match f with OSInode _ _ _ _ => next_obj s | _ => o end).
    assert (next_obj s ≤ next_obj s1 ∧ (fd_table s1 = fd_table s ∧ inodes s1 = inodes s ∧ cwd s1 = cwd s) ∧ (∀ o f, objs s !! o = Some f → objs s1 !! o = Some f) ∧
            (∀ o f, objs s1 !! o = Some f → o < next_obj s1) ∧ objs s1 !! o1 = Some f) as (H1 & H2 & H3 & H4 & H5).
    { unfold s1, o1. destruct f; split_and!; try done; simpl; [lia| | |by rewrite lookup_insert_eq].
      - intros k g Hk. rewrite lookup_insert_ne; [done|]. pose proof (Hn k g Hk). lia.
      - intros k g Hk. destruct (decide (k = next_obj s)) as [->|]; [lia|]. rewrite lookup_insert_ne in Hk by done.
        pose proof (Hn k g Hk). lia. }
    destruct (IH s1) as (t' & s' & Hr & Hl & Hnx & Hk & Hk' & Hfd & Hsame); [done| |].
    { intros i x Hi. destruct (Ht (Datatypes.S i) x Hi) as [g Hg]. exists g. by apply H3. }
    exists (Some o1 :: t'), s'. split_and!; [|simpl; lia|lia|auto|done|intuition congruence..|].
    + cbn [fork_fd_table]. rewrite (M_bind_Ok _ _ _ _ _ eq_refl), Hf, (M_bind_Ok _ _ _ _ _ eq_refl).
      rewrite (M_bind_Ok _ _ s o1 s1) by (unfold s1, o1; by destruct f). by rewrite (M_bind_Ok _ _ _ _ _ Hr).
    + intros [|i]; simpl.
      * split; [rewrite Hf; by apply Hk|]. rewrite Hf. unfold o1. by destruct f.
      * specialize (Hsame i). destruct (t !! i) as [[x|]|] eqn:Hx; [|done|done].
        destruct (t' !! i) as [[y|]|]; [|done|done].
        destruct (Ht (Datatypes.S i) x Hx) as [g Hg]. destruct Hsame as [Ha Hb]. rewrite (H3 _ _ Hg) in Ha, Hb.
        split; [congruence|]. rewrite Hg. destruct g; try done. lia.
  - destruct (IH s Hn) as (t' & s' & Hr & Hl & Hnx & Hk & Hk' & Hfd & Hsame); [intros i o Hi; by apply (Ht (Datatypes.S i))|].
    exists (None :: t'), s'. split_and!; try apply Hfd; try done;
      [cbn [fork_fd_table]; by rewrite (M_bind_Ok _ _ _ _ _ Hr)|simpl; lia|].
    intros [|i]; [done|]. apply Hsame.
Qed.
End specs.

(** ** Files held in memory: an instance of the interface *)
#[global] Instance mem_inodes : Inodes (gmap Z (list Z)) := {
  inode_read_at ino off n := λ s, Ok (slice (Z.to_nat off) n (default [] (s !! ino)), s);
  inode_write_at ino off bs := λ s,
    let c := default [] (s !! ino) in
    Ok (Z.of_nat (length bs), <[ino := overwrite (Z.to_nat off) (replicate (Z.to_nat off - length c) 0) bs c]> s);
}.
#[global] Program Instance mem_inode_laws : InodeLaws (gmap Z (list Z)) := {
  files_rel s fm := fm = s ∧ ∀ ino c, s !! ino = Some c → Forall is_byte c;
  room _ _ _ := True;
}.
Next Obligation. intros s fm ino c [-> Hs] Hc. by eapply Hs. Qed.
Next Obligation. intros s fm ino c off n [-> Hs] Hc _ _. simpl. by rewrite Hc. Qed.
Next Obligation.
  intros s fm ino c off bs [-> Hs] Hc Hoff Hne Hb _. eexists _, (replicate (Z.to_nat off - length c) 0). simpl. rewrite Hc.
  split; [done|]. split; [by rewrite length_replicate|]. split; [|done]. split; [done|].
  intros i x [[<- <-]|[_ Hx]]%lookup_insert_Some; [|by eapply Hs]. specialize (Hs ino c Hc). unfold overwrite.
  repeat apply Forall_app_2; [by apply Forall_take|apply Forall_replicate; unfold is_byte; lia|done|by apply Forall_drop].
Qed.
Next Obligation. done. Qed.

(** ** A process with a two-page area, one file of six bytes open at descriptor 3 *)
Module FilesDemo.
Import SpaceDemo.
Definition f0 : fstate (S := gmap Z (list Z)) :=
  mkF one.2 {[7 := [1; 2; 3; 4; 5; 6]]} {[0 := Stdin; 1 := Stdout; 2 := OSInode true true 0 7]} 3 one.1
    [Some 0; Some 1; Some 1; Some 2] 0.

Lemma f0_inodes : files_rel (inodes f0) (inodes f0).
Proof.
  split; [done|]. intros ino c Hc. change (inodes f0) with ({[7 := [1; 2; 3; 4; 5; 6]]} : gmap Z (list Z)) in Hc.
  apply lookup_singleton_Some in Hc as [<- <-]. repeat constructor; unfold is_byte; lia.
Qed.
Lemma f0_buffer : in_areas (fspace f0) 0x1ffe 4.
Proof.
  split; [lia|]. split; [lia|]. split; [lia|]. intros va Hva. exists the_area.
  split; [apply list_elem_of_lookup; exists 0%nat; vm_compute; reflexivity|].
  unfold pages_of, range_pages. change (vpn_range the_area) with (mkRange 1 3). simpl.
  unfold floor, PAGE_SIZE. apply elem_of_seqZ. dlia.
Qed.

Lemma sys_read_correct_witness :
  ∃ s', sys_read 4 3 0x1ffe 4 f0 = Ok (Done 4, s') ∧ user_byte (fspace s') (fmem s') 0x2001 = Some 4.
Proof.
  pose proof (sys_read_correct 4 5 f0 (inodes f0) 3 0x1ffe 4 (proj1 one_ok) f0_buffer f0_inodes) as H.
  destruct (H ltac:(vm_compute; discriminate) [1; 2; 3; 4; 5; 6]) as (s' & H1 & _ & _ & _ & _ & _ & H2 & _).
  - reflexivity.
  - lia.
  - lia.
  - exists s'. split; [exact H1|]. exact (H2 3%nat (le_n 4)).
Defined.

Lemma sys_write_correct_witness :
  ∃ bs i' c', sys_write 4 3 0x1ffe 4 f0 =
      Ok (Done 4, set_objs (<[2 := OSInode true true 4 7]> (objs f0)) (set_inodes i' f0)) ∧
    wrote 0 bs [1; 2; 3; 4; 5; 6] c' ∧ files_rel i' (<[7 := c']> (inodes f0)).
Proof.
  destruct (sys_write_correct 4 5 f0 (inodes f0) 3 0x1ffe 4 2 true 0 7 [1; 2; 3; 4; 5; 6])
    as (bs & i' & c' & H1 & _ & _ & H2 & H3).
  - apply one_ok.
  - apply f0_buffer.
  - apply f0_inodes.
  - reflexivity.
  - vm_compute. discriminate.
  - reflexivity.
  - reflexivity.
  - lia.
  - exact I.
  - exists bs, i', c'. split; [exact H1|split; [exact H2|exact H3]].
Defined.

Lemma descriptors_refine_witness :
  ∃ rs s' d', fd_both [FClose 2; FDup 3; FOpen Stdin] rs f0 {[0%nat := 0; 1%nat := 1; 2%nat := 1; 3%nat := 2]} s' d' ∧ fd_rel s' d'.
Proof.
  apply (descriptors_refine [FClose 2; FDup 3; FOpen Stdin] f0 {[0%nat := 0; 1%nat := 1; 2%nat := 1; 3%nat := 2]}).
  intros fd. do 4 (destruct fd as [|fd]; [reflexivity|]). symmetry. rewrite !lookup_insert_ne by lia. by rewrite lookup_singleton_ne by lia.
Defined.

(** [dup] shares the offset, [fork] does not: after the parent reads two bytes
    through descriptor 3, its duplicate continues at byte 2, while the child's
    descriptor, copied before, still reads from the start. *)
Definition after_fork : M fstate (Z * option File * option File) :=
  sys_dup 3 ≫= λ d, fork_fd_table [Some 2] ≫= λ t, sys_read 4 3 0x1000 2 ≫= λ _,
  f_gets (λ s, let look (o : option Z) := match o with Some o => objs s !! o | None => None end in
               (d, look (descriptor (fd_table s) 4), look (descriptor t 0))).
Lemma dup_shares_fork_copies :
  match after_fork f0 with
  | Ok (r, _) => r = (4, Some (OSInode true true 2 7), Some (OSInode true true 0 7))
  | Err _ => False
  end.
Proof. vm_compute. reflexivity. Qed.
End FilesDemo.
