(* ===== verification/DiskFiles.v ===== *)
(** * Files on the disk behind descriptors (os/src/fs/inode.rs over easy-fs)

    The file system of FsTree.v keeps the promises of [InodeLaws]: reads and
    writes of open files reach the bytes of the files on the disk. *)
From S2P Require Import Prelude Bytes BlockCache DiskLogic Bitmap Layout InodeMap InodeGrow Efs Vfs FsData FsOps FsTree.
From S2P Require Import OpenFiles.

Section disk.
Context (fs : EasyFileSystem) (nd ni : Z).

(** [Inode::read_at] and [Inode::write_at], run on the disk. *)
#[local] Instance disk_inodes : Inodes Disk := {
  inode_read_at ino off n := run_disk (Vfs.read_at (inode_at fs ino) off (Z.of_nat n));
  inode_write_at ino off bs := run_disk (Vfs.write_at fs (inode_at fs ino) off bs);
}.

(** The size the inode on the disk says. *)
Definition disk_size (m : bmap) (ino : Z) : Z :=
  match m !! i_block_id (inode_at fs ino) with
  | Some b => di_size (inode_dec (bytes_at (block_offset (inode_at fs ino)) INODE_SIZE b))
  | None => 0
  end.

(** The regular files of the tree. *)
Definition disk_files (s : Disk) (fm : gmap Z (list Z)) : Prop :=
  held s = ∅ ∧ ∃ lay tr, fs_rel fs nd ni (blocks s) lay tr ∧
    ∀ ino c, fm !! ino = Some c ↔ ∃ k, tr !! ino = Some (mkNode (FileData c) k).

Lemma run_wp {A} (p : prog A) s Q :
  held s = ∅ → wp p ∅ (blocks s) Q → ∃ a m', run_disk p s = Ok (a, mkDisk m' ∅) ∧ Q a m'.
Proof. destruct s as [m h]. simpl. intros ->. done. Qed.

Lemma rel_disk_size m lay tr ino c k :
  fs_rel fs nd ni m lay tr → tr !! ino = Some (mkNode (FileData c) k) →
  disk_size m ino = Z.of_nat (length c) ∧ Z.of_nat (length c) ≤ 2 ^ 32 - 512.
Proof.
  intros Hr Hn. destruct (rel_get fs nd ni m lay tr ino _ Hr Hn) as (l & Hl & Hat & _).
  pose proof Hat as [[(b & Hb & Hdec) _ _] _ _ _ _ _]. unfold disk_size. rewrite Hb, Hdec.
  pose proof (rel_file_size _ _ _ _ _ _ _ _ _ _ Hr Hl Hn) as Hs. split; [done|]. rewrite <- Hs. apply Hat.
Qed.

Lemma growth_trans a b e : 0 ≤ a ≤ b → b ≤ 2 ^ 32 - 512 → 0 ≤ e ≤ 2 ^ 32 - 512 → (growth b e + growth a b ≤ growth a e ∨ growth b e = 0)%nat.
Proof.
  intros Hab Hb He. unfold growth. destruct (decide (b ≤ e)) as [Hbe|Hbe].
  - left. pose proof (tot_mono _ _ (nblocks_mono a b ltac:(lia) ltac:(lia))). pose proof (tot_mono _ _ (nblocks_mono b e ltac:(lia) ltac:(lia))). lia.
  - right. pose proof (tot_mono _ _ (nblocks_mono e b ltac:(lia) ltac:(lia))). lia.
Qed.

Lemma tree_write_files (fm : gmap Z (list Z)) (tr : gmap Z fnode) ino c k off gap bs :
  (∀ i x, fm !! i = Some x ↔ ∃ k, tr !! i = Some (mkNode (FileData x) k)) →
  tr !! ino = Some (mkNode (FileData c) k) →
  ∀ i x, <[ino := overwrite off gap bs c]> fm !! i = Some x ↔
    ∃ k, t_write ino off gap bs tr !! i = Some (mkNode (FileData x) k).
Proof.
  intros Hfm Hn i x. unfold t_write. rewrite (alter_alt_Some _ _ _ _ Hn).
  destruct (decide (ino = i)) as [<-|Hne]; [|by rewrite !lookup_insert_ne].
  rewrite !lookup_insert_eq. cbn. split; [intros [= <-]; by exists k|by intros [k' [= <- _]]].
Qed.

#[local] Program Instance disk_inode_laws : InodeLaws Disk := {
  files_rel := disk_files;
  room s ino e := FsOps.room fs nd (blocks s) (disk_size (blocks s) ino) e;
}.
Next Obligation.
  intros s fm ino c (Hh & lay & tr & Hr & Hfm) Hc. apply Hfm in Hc as [k Hn].
  destruct (rel_get fs nd ni _ lay tr ino _ Hr Hn) as (l & Hl & Hat & _ & _ & <-).
  apply Forall_take, content_is_bytes, Hr.
Qed.
Next Obligation.
  intros s fm ino c off n (Hh & lay & tr & Hr & Hfm) Hc Hoff Hend. apply Hfm in Hc as [k Hn].
  pose proof (read_spec fs nd ni _ lay tr ino c k (Z.to_nat off) n Hr Hn) as Hwp. rewrite Z2Nat.id in Hwp by done.
  destruct (run_wp _ s _ Hh (Hwp Hend)) as (v & m' & Hrun & -> & ->).
  etransitivity; [exact Hrun|]. do 2 f_equal.
  destruct s as [m h]. simpl in *. by rewrite Hh.
Qed.
Next Obligation.
  intros s fm ino c off bs (Hh & lay & tr & Hr & Hfm) Hc Hoff Hne Hby Hroom. pose proof (proj1 (Hfm _ _) Hc) as [k Hn].
  destruct (rel_disk_size _ _ _ _ _ _ Hr Hn) as [Hs Hcl]. rewrite Hs in Hroom. pose proof Hroom as (Hend & _ & _).
  pose proof (write_spec fs nd ni _ lay tr ino c k (Z.to_nat off) bs Hr Hn Hby) as Hwp.
  rewrite Nat2Z.inj_add, Z2Nat.id in Hwp by done.
  destruct (run_wp _ s _ Hh (Hwp ltac:(destruct bs; [done|simpl; lia]) Hroom))
    as (n & m' & Hrun & -> & gap & lay' & Hg & Hr' & Hcnt & _).
  exists (mkDisk m' ∅), gap. split; [exact Hrun|]. split; [done|]. split.
  - split; [done|]. exists lay', (t_write ino (Z.to_nat off) gap bs tr). split; [done|]. by eapply tree_write_files.
  - intros e He (H1 & H2 & H3). rewrite Hs in H3.
    set (c' := overwrite (Z.to_nat off) gap bs c).
    assert (t_write ino (Z.to_nat off) gap bs tr !! ino = Some (mkNode (FileData c') k)) as Hn'
      by (unfold t_write; by rewrite lookup_alter_eq, Hn).
    cbn [blocks]. rewrite (proj1 (rel_disk_size _ _ _ _ _ _ Hr' Hn')). split_and!; [done|done|].
    assert (length c' = length c `max` (Z.to_nat off + length bs))%nat as Hl'
      by (unfold c', overwrite; rewrite !length_app, length_take, length_drop; lia).
    rewrite Hl'. set (b := Z.of_nat (length c `max` (Z.to_nat off + length bs))) in *.
    destruct (growth_trans (Z.of_nat (length c)) b e ltac:(lia) ltac:(lia) ltac:(lia)); lia.
Qed.
Next Obligation.
  intros s ino e e' (H1 & H2 & H3) He. pose proof (nblocks_mono e' e ltac:(lia) ltac:(lia)) as Hb.
  pose proof (tot_mono _ _ Hb). split_and!; [lia|lia|]. unfold growth in *. lia.
Qed.
End disk.
