(* ===== verification/Paths.v ===== *)
(** * Files by path (os/src/fs/inode.rs: OpenFlags, open_file_at, unlink_file_at,
      find_file, read_all, name_of_inode, name_for_inode)

    The kernel's functions from paths to inodes, over the virtual file system
    layer; what they do to the tree of files; and the way back, from a
    directory to its absolute path. *)
From S2P Require Import Prelude Bytes BlockCache DiskLogic Bitmap Layout Efs Vfs FsData FsDir FsOps FsTree FsSpec.
From S2P Require Import OpenFiles.

Definition WRONLY : Z := 1.
Definition RDRW : Z := 2.
Definition CREATE : Z := 512.
Definition TRUNC : Z := 1024.
(** [OpenFlags::from_bits_truncate] *)
Definition from_bits_truncate (flags : Z) : Z := Z.land flags (Z.lor (Z.lor WRONLY RDRW) (Z.lor CREATE TRUNC)).
Definition read_write (flags : Z) : bool * bool :=
  if flags =? 0 then (true, false)
  else if flags_contain flags WRONLY then (false, true)
  else (true, true).

(** [str::rsplit_once('/')] *)
Fixpoint rsplit_once (s : list Z) : option (list Z * list Z) :=
  match s with
  | [] => None
  | c :: rest =>
      match rsplit_once rest with
      | Some (a, b) => Some (c :: a, b)
      | None => if c =? 47 then Some ([], rest) else None
      end
  end.
Definition split_parent (name : list Z) : list Z * list Z :=
  match rsplit_once name with Some v => v | None => ([46], name) end.

(** The path of the root is ["/"]. *)
Definition or_root (s : list Z) : list Z := match s with [] => [47] | _ => s end.

Section paths.
Context (fs : EasyFileSystem).

Definition truncate (flags : Z) (inode : Inode) : prog () :=
  if flags_contain flags TRUNC then Vfs.clear fs inode else mret ().

Definition open_file_at (base : Inode) (name : list Z) (flags : Z) : prog (option OpenFiles.File) :=
  let '(readable, writable) := read_write flags in
  let '(path, fname) := split_parent name in
  if flags_contain flags CREATE then
    find fs base path ≫= λ parent,
    match parent with
    | Some parent =>
        find fs parent fname ≫= λ o,
        match o with
        | Some inode => truncate flags inode ≫= λ _, mret (Some (osinode_new readable writable (inode_id inode)))
        | None =>
            create_file fs parent fname ≫= λ o : option Inode,
            mret ((λ inode, osinode_new readable writable (inode_id inode)) <$> o)
        end
    | None => mret None
    end
  else
    find fs base name ≫= λ o,
    match o with
    | Some inode => truncate flags inode ≫= λ _, mret (Some (osinode_new readable writable (inode_id inode)))
    | None => mret None
    end.

Definition ROOT_INODE : Inode := root_inode fs.
Definition open_file (name : list Z) (flags : Z) : prog (option OpenFiles.File) := open_file_at ROOT_INODE name flags.

Definition unlink_file_at (base : Inode) (name : list Z) : prog bool :=
  let '(path, fname) := split_parent name in
  find fs base path ≫= λ parent,
  match parent with
  | Some parent => unlink fs parent fname
  | None => mret false
  end.

Definition starts_with_slash (path : list Z) : bool := match path with c :: _ => c =? 47 | [] => false end.
(** The inode of the [OSInode] the code returns. *)
Definition find_file (path : list Z) : prog (option Inode) :=
  liftp (assert (starts_with_slash path)) ≫= λ _, find fs ROOT_INODE path.

(** [OSInode::read_all] from offset 0 *)
Definition read_all (inode : Inode) : prog (list Z) :=
  get_size inode ≫= λ size, Vfs.read_at inode 0 size ≫= λ v,
  liftp (assert (size =? Z.of_nat (length v))) ≫= λ _, mret v.

Definition name_of_inode (inode parent : Inode) : prog (list Z) :=
  read_dirent parent (inode_id inode) ≫= λ o,
  liftp (unwrap o) ≫= λ d, liftp (name d).

(** The recursion climbs [".."] until the root. *)
Fixpoint name_for_inode_inner (fuel : nat) (inode : Inode) : prog (list Z) :=
  match fuel with
  | O => Fail Diverged
  | S fuel' =>
      if inode_id inode =? inode_id ROOT_INODE then mret []
      else
        find fs inode [46; 46] ≫= λ o, liftp (unwrap o) ≫= λ parent,
        name_of_inode inode parent ≫= λ name,
        name_for_inode_inner fuel' parent ≫= λ ancestor_name,
        mret (ancestor_name ++ [47] ++ name)
  end.
Definition name_for_inode (fuel : nat) (inode : Inode) : prog (list Z) :=
  name_for_inode_inner fuel inode ≫= λ s,
  mret (or_root s).
End paths.

(** ** Paths *)
Lemma rsplit_once_None s : rsplit_once s = None ↔ 47 ∉ s.
Proof.
  induction s as [|c s IH]; simpl; [set_solver|]. destruct (rsplit_once s) as [[a b]|].
  - split; [done|]. intros H. destruct IH as [_ IH]. discriminate IH. set_solver.
  - destruct (Z.eqb_spec c 47) as [->|]; [set_solver|]. rewrite not_elem_of_cons. naive_solver.
Qed.

Lemma rsplit_once_Some s a b : rsplit_once s = Some (a, b) → s = a ++ 47 :: b ∧ 47 ∉ b.
Proof.
  revert a b. induction s as [|c s IH]; intros a b; simpl; [done|].
  destruct (rsplit_once s) as [[a' b']|] eqn:Hs.
  - intros [= <- <-]. destruct (IH a' b' eq_refl) as [-> Hb]. done.
  - apply rsplit_once_None in Hs. destruct (Z.eqb_spec c 47) as [->|]; [|done]. by intros [= <- <-].
Qed.

(** The last component never holds a separator. *)
Lemma split_parent_name s : 47 ∉ (split_parent s).2.
Proof.
  unfold split_parent. destruct (rsplit_once s) as [[a b]|] eqn:Hs; simpl.
  - by apply rsplit_once_Some in Hs as [_ Hb].
  - by apply rsplit_once_None.
Qed.

Lemma split_path_loop_app a b cur :
  split_path_loop (a ++ 47 :: b) cur = split_path_loop a cur ++ split_path_loop b [].
Proof.
  revert cur. induction a as [|c a IH]; intros cur; simpl; [done|]. destruct (c =? 47); [|apply IH]. simpl. by rewrite IH.
Qed.

Lemma split_path_app a b : split_path (a ++ 47 :: b) = split_path a ++ split_path b.
Proof. unfold split_path. by rewrite split_path_loop_app, filter_app. Qed.


(** Path resolution in the tree of files. *)
Definition resolve_path (tr : gmap Z fnode) (base : Z) (path : list Z) : option Z :=
  resolve (view_of tr) base (split_path path).

Lemma resolve_app view b p q : resolve view b (p ++ q) = resolve view b p ≫= λ c, resolve view c q.
Proof.
  revert b. induction p as [|nm p IH]; intros b; simpl; [done|].
  destruct (view !! b) as [[ents|]|]; [|done|done]. destruct (lookup_name ents nm); [apply IH|done].
Qed.

(** Resolving one component. *)
Lemma resolve_name tr p nm :
  47 ∉ nm → nm ≠ [] → resolve_path tr p nm = dir_of tr p ≫= λ ents, lookup_name ents nm.
Proof.
  intros Hns Hne. unfold resolve_path. rewrite split_path_one by done. rewrite filter_cons, decide_True by done.
  cbn [filter list_filter resolve]. unfold view_of, dir_of. rewrite lookup_fmap.
  destruct (tr !! p) as [[[bs|ents] k]|]; cbn; [done| |done]. by destruct (lookup_name ents nm).
Qed.

Section specs.
Context (fs : EasyFileSystem) (nd ni : Z).
Implicit Types (m : bmap) (tr : gmap Z fnode).

Lemma find_spec m lay tr b path :
  fs_rel fs nd ni m lay tr → is_Some (tr !! b) →
  wp (find fs (inode_at fs b) path) ∅ m (λ r m',
    r = inode_at fs <$> resolve_path tr b path ∧ m' = m ∧ ∀ c, resolve_path tr b path = Some c → is_Some (tr !! c)).
Proof.
  intros Hr Hb. eapply wp_mono.
  { eapply find_loop_spec; [by eapply rel_view|]. unfold view_of. by rewrite lookup_fmap, fmap_is_Some. }
  intros r m' [-> ->]. split; [done|]. split; [done|]. unfold resolve_path. generalize (split_path path) as names. intros names.
  revert b Hb. induction names as [|nm names IH]; intros b Hb c; simpl; [by intros [= <-]|].
  unfold view_of. rewrite lookup_fmap. destruct (tr !! b) as [n|] eqn:Hn; [|done]. cbn. unfold kind_of at 1.
  destruct (n_data n) as [bs|ents] eqn:Hk; [done|]. destruct (lookup_name ents nm) as [d|] eqn:Hd; [|done].
  apply IH. destruct (lookup_name_in _ _ _ Hd) as [x Hx].
  pose proof (fr_closed _ _ _ _ _ _ Hr b n Hn) as Hcl. rewrite Hk in Hcl. by eapply Hcl.
Qed.

(** What opening does to the tree and returns. *)
Definition open_spec (tr : gmap Z fnode) (b : Z) (name : list Z) (flags : Z) (r : option OpenFiles.File) (tr' : gmap Z fnode) : Prop :=
  let '(readable, writable) := read_write flags in
  let '(path, fname) := split_parent name in
  let opened i := r = Some (osinode_new readable writable i) ∧
    tr' = (if flags_contain flags TRUNC then t_clear i tr else tr) in
  if flags_contain flags CREATE then
    match resolve_path tr b path with
    | Some p =>
        match resolve_path tr p fname with
        | Some i => opened i
        | None => ∃ c, tr !! c = None ∧ r = Some (osinode_new readable writable c) ∧ tr' = t_create Layout.File p fname c tr
        end
    | None => r = None ∧ tr' = tr
    end
  else
    match resolve_path tr b name with
    | Some i => opened i
    | None => r = None ∧ tr' = tr
    end.

(** What creating needs: the parent is a directory, with room for the name. *)
Definition open_ok (m : bmap) (tr : gmap Z fnode) (b : Z) (name : list Z) (flags : Z) : Prop :=
  flags_contain flags CREATE = true →
  ∀ p, resolve_path tr b (split_parent name).1 = Some p → resolve_path tr p (split_parent name).2 = None →
  name_ok (split_parent name).2 ∧ ∃ ents, dir_of tr p = Some ents ∧ create_room fs nd ni m ents Layout.File.

Lemma truncate_spec m lay tr i flags :
  fs_rel fs nd ni m lay tr → is_Some (tr !! i) →
  wp (truncate fs flags (inode_at fs i)) ∅ m (λ _ m', ∃ lay',
    fs_rel fs nd ni m' lay' (if flags_contain flags TRUNC then t_clear i tr else tr)).
Proof.
  intros Hr [n Hn]. unfold truncate. destruct (flags_contain flags TRUNC); [|apply wp_ret; eauto].
  eapply wp_mono; [by eapply rel_clear|]. intros [] m' (lay' & Hr'). exists lay'. unfold t_clear.
  by rewrite (alter_alt_Some _ _ _ _ Hn).
Qed.

(** Opening the file that was found. *)
Lemma open_found_spec m lay tr i flags r w :
  fs_rel fs nd ni m lay tr → is_Some (tr !! i) →
  wp (truncate fs flags (inode_at fs i) ≫= λ _, mret (Some (osinode_new r w (inode_id (inode_at fs i))))) ∅ m
    (λ o m', ∃ lay' tr', (o = Some (osinode_new r w i) ∧ tr' = (if flags_contain flags TRUNC then t_clear i tr else tr)) ∧
      fs_rel fs nd ni m' lay' tr').
Proof.
  intros Hr Hi. apply wp_bind. eapply wp_mono; [by eapply truncate_spec|]. intros [] m' (lay' & Hr').
  apply wp_ret. eexists _, _. split; [|exact Hr']. done.
Qed.

Lemma open_file_at_spec m lay tr b name flags :
  fs_rel fs nd ni m lay tr → is_Some (tr !! b) → open_ok m tr b name flags →
  wp (open_file_at fs (inode_at fs b) name flags) ∅ m (λ r m', ∃ lay' tr',
    open_spec tr b name flags r tr' ∧ fs_rel fs nd ni m' lay' tr').
Proof.
  intros Hr Hb Hok. unfold open_file_at, open_spec, open_ok in *. destruct (read_write flags) as [rd wr].
  pose proof (split_parent_name name) as Hns. destruct (split_parent name) as [path fname]. cbn [fst snd] in *.
  destruct (flags_contain flags CREATE); apply wp_bind.
  2: { eapply wp_mono; [by eapply find_spec|]. intros r m' (-> & -> & Hin).
       destruct (resolve_path tr b name) as [i|] eqn:Hi; cbn [fmap option_fmap option_map]; [|apply wp_ret; eauto].
       eapply open_found_spec; [done|by apply Hin]. }
  eapply wp_mono; [by eapply find_spec|]. intros r m' (-> & -> & Hin).
  destruct (resolve_path tr b path) as [p|] eqn:Hp; cbn [fmap option_fmap option_map]; [|apply wp_ret; eauto].
  apply wp_bind. eapply wp_mono; [eapply find_spec; [done|by apply Hin]|]. intros r m' (-> & -> & Hin2).
  destruct (resolve_path tr p fname) as [i|] eqn:Hi; cbn [fmap option_fmap option_map].
  { eapply open_found_spec; [done|by apply Hin2]. }
  destruct (Hok eq_refl p eq_refl Hi) as (Hnm & ents & Hd & Hroom).
  assert (fname ≠ []) as Hne by (intros ->; by cbn in Hi).
  assert (lookup_name ents fname = None) as Hl by (rewrite resolve_name, Hd in Hi by done; done).
  unfold create_file. apply wp_bind. eapply wp_mono.
  { apply (create_inode_spec fs nd ni m lay tr p ents fname Layout.File Hr Hd Hnm). by intros _. }
  intros r m'. rewrite Hl.
  intros (c & lay' & Hc & -> & Hr'). apply wp_ret. exists lay', (t_create Layout.File p fname c tr).
  split; [by exists c|done].
Qed.

(** Without [CREATE] and [TRUNC] the disk stays as it is. *)
Lemma open_file_at_readonly m lay tr b name :
  fs_rel fs nd ni m lay tr → is_Some (tr !! b) →
  wp (open_file_at fs (inode_at fs b) name 0) ∅ m (λ _ m', m' = m).
Proof.
  intros Hr Hb. unfold open_file_at. destruct (split_parent name) as [path fname]. cbn [read_write flags_contain].
  change (flags_contain 0 CREATE) with false. cbv iota. apply wp_bind. eapply wp_mono; [by eapply find_spec|].
  intros r m' (-> & -> & _). destruct (resolve_path tr b name); cbn [fmap option_fmap option_map]; by apply wp_ret.
Qed.

Lemma unlink_file_at_spec m lay tr b name :
  fs_rel fs nd ni m lay tr → is_Some (tr !! b) →
  wp (unlink_file_at fs (inode_at fs b) name) ∅ m (λ r m', ∃ lay',
    match resolve_path tr b (split_parent name).1 with
    | Some p => r = (t_unlink p (split_parent name).2 tr).1 ∧ fs_rel fs nd ni m' lay' (t_unlink p (split_parent name).2 tr).2
    | None => r = false ∧ fs_rel fs nd ni m' lay' tr
    end).
Proof.
  intros Hr Hb. unfold unlink_file_at. destruct (split_parent name) as [path fname]. cbn [fst snd].
  apply wp_bind. eapply wp_mono; [by eapply find_spec|]. intros r m' (-> & -> & Hin).
  destruct (resolve_path tr b path) as [p|] eqn:Hp; cbn [fmap option_fmap option_map]; [|apply wp_ret; eauto].
  eapply wp_mono; [eapply unlink_spec; [done|by apply Hin]|]. intros r m' (-> & lay' & Hr'). eauto.
Qed.
End specs.

(** ** From a directory to its path *)

(** The name a directory gives to an inode number: that of its first entry. *)
Definition entry_of (ents : list (list Z * Z)) (ino : Z) : option (list Z) :=
  match list_find (λ e, e.2 = ino) ents with Some (_, e) => Some e.1 | None => None end.

(** [located tr d names]: climbing [".."] from [d] reaches the root by parents
    that name their children, one component of [names] per step. *)
Inductive located (tr : gmap Z fnode) : Z → list (list Z) → Prop :=
| loc_root ents : dir_of tr 0 = Some ents → located tr 0 []
| loc_child d p names ents pents nm :
    d ≠ 0 → dir_of tr d = Some ents → lookup_name ents [46; 46] = Some p →
    dir_of tr p = Some pents → entry_of pents d = Some nm → lookup_name pents nm = Some d →
    nm ≠ [] → 47 ∉ nm → located tr p names → located tr d (names ++ [nm]).

(** The absolute path of the components. *)
Definition join_path (names : list (list Z)) : list Z := concat (cons 47 <$> names).

Section names.
Context (fs : EasyFileSystem) (nd ni : Z).
Implicit Types (m : bmap) (tr : gmap Z fnode).

Lemma name_of_inode_spec m lay tr d p pents nm :
  fs_rel fs nd ni m lay tr → dir_of tr p = Some pents → entry_of pents d = Some nm →
  wp (name_of_inode (inode_at fs d) (inode_at fs p)) ∅ m (λ r m', r = nm ∧ m' = m).
Proof.
  intros Hr [k Hp]%dir_of_Some He. destruct (rel_get fs nd ni m lay tr p _ Hr Hp) as (l & Hl & Hat & _ & Hdir & Hents).
  pose proof Hat as [[(b & Hb & Hdec) Ho _] _ _ _ _ _]. pose proof (fr_wf _ _ _ _ _ _ Hr) as Hf.
  pose proof (dir_at_open fs nd m _ _ _ _ pents Hf Hat Hdir Hents) as Hopen.
  destruct (dir_at_size fs nd m _ _ _ _ pents Hf Hat Hdir Hents) as [_ Hcnt].
  unfold name_of_inode, read_dirent, read_disk_inode. apply wp_bind.
  eapply wp_read; [split_and!; [exact Hb|set_solver|by apply Nat.ltb_lt]|apply Ho|done|apply Ho|].
  rewrite Hdec. unfold get_dirent. rewrite Hdir, Hcnt, Nat2Z.id. cbn [assert liftp mbind prog_bind]. apply wp_bind.
  eapply wp_mono.
  { apply (get_dirent_loop_spec _ _ _ _ _ _ Hopen _ (λ e, e.2 =? d) (length pents) 0); [|lia]. by intros de n ino _ ->. }
  intros r m' [Hfind ->]. rewrite drop_0 in Hfind.
  rewrite (list_find_ext _ (λ e, e.2 = d)) in Hfind by (intros e; by rewrite Z.eqb_eq).
  unfold entry_of in He. destruct (list_find (λ e, e.2 = d) pents) as [[j [nm' c]]|]; [|done]. injection He as <-.
  destruct Hfind as (de & -> & Hn & _). apply wp_ret. cbn [unwrap liftp mbind prog_bind]. rewrite Hn. by apply wp_ret.
Qed.

Lemma located_dir tr d names : located tr d names → ∃ ents, dir_of tr d = Some ents.
Proof. destruct 1; eauto. Qed.

Lemma name_for_inode_inner_spec m lay tr d names fuel :
  fs_rel fs nd ni m lay tr → located tr d names → (length names < fuel)%nat →
  wp (name_for_inode_inner fs fuel (inode_at fs d)) ∅ m (λ s m', s = join_path names ∧ m' = m).
Proof.
  intros Hr Hloc. revert fuel. induction Hloc as [ents Hd|d p names ents pents nm Hne Hd Hdd Hp He Hnm Hn0 Hns Hloc IH];
    intros [|fuel] Hf; try (simpl in Hf; lia); cbn [name_for_inode_inner].
  { change (inode_id (inode_at fs 0) =? inode_id (ROOT_INODE fs)) with true. by apply wp_ret. }
  change (inode_id (inode_at fs d) =? inode_id (ROOT_INODE fs)) with (d =? 0).
  rewrite (proj2 (Z.eqb_neq d 0)) by done. pose proof Hd as [k Hdk]%dir_of_Some.
  apply wp_bind. eapply wp_mono; [eapply find_spec; [done|eauto]|].
  assert (resolve_path tr d [46; 46] = Some p) as -> by (rewrite resolve_name, Hd by (done || set_solver); done).
  intros r m' (-> & -> & _). cbn [fmap option_fmap option_map unwrap liftp mbind prog_bind].
  apply wp_bind. eapply wp_mono; [by eapply name_of_inode_spec|]. intros r m' [-> ->].
  apply wp_bind. eapply wp_mono; [apply IH; rewrite length_app in Hf; simpl in Hf; lia|]. intros r m' [-> ->].
  apply wp_ret. split; [|done]. unfold join_path. rewrite fmap_app, concat_app. simpl. by rewrite app_nil_r.
Qed.

(** The path leads back. *)
Lemma located_resolves tr d names :
  located tr d names → resolve_path tr 0 (or_root (join_path names)) = Some d.
Proof.
  assert (∀ ns, Forall (λ nm, nm ≠ [] ∧ 47 ∉ nm) ns → split_path (join_path ns) = ns) as Hsplit.
  { induction ns as [|nm ns IH] using rev_ind; intros H; [done|]. apply Forall_app in H as [Hns Hnm].
    apply Forall_singleton in Hnm as [Hne Hno]. unfold join_path. rewrite fmap_app, concat_app. simpl. rewrite app_nil_r.
    rewrite split_path_app. fold (join_path ns). rewrite IH by done. f_equal.
    rewrite split_path_one by done. by rewrite filter_cons, decide_True. }
  intros Hloc. assert (Forall (λ nm, nm ≠ [] ∧ 47 ∉ nm) names ∧ resolve (view_of tr) 0 names = Some d) as [Hok Hres].
  { induction Hloc as [ents Hd|d p names ents pents nm Hne Hd Hdd Hp He Hnm Hn0 Hns Hloc [IH1 IH2]]; [done|].
    split; [apply Forall_app_2; [done|by repeat constructor]|]. rewrite resolve_app, IH2. cbn [mbind option_bind].
    pose proof (resolve_name tr p nm Hns Hn0) as Hrn. unfold resolve_path in Hrn.
    rewrite split_path_one, filter_cons, decide_True, Hp in Hrn by done. by rewrite <- Hnm. }
  unfold resolve_path. destruct (join_path names) as [|c s] eqn:Hj.
  - assert (names = []) as -> by (destruct names; [done|discriminate]). done.
  - change (or_root (c :: s)) with (c :: s). rewrite <- Hj, Hsplit by done. done.
Qed.

(** A directory that is created can be located from there. *)
Lemma located_create m lay tr d names ents nm c :
  fs_rel fs nd ni m lay tr → located tr d names → dir_of tr d = Some ents → tr !! c = None →
  lookup_name ents nm = None → nm ≠ [] → 47 ∉ nm → c ≠ 0 →
  located (t_create Directory d nm c tr) c (names ++ [nm]).
Proof.
  intros Hr Hloc Hd Hc Hl Hn0 Hns Hc0. pose proof Hd as [k Hdk]%dir_of_Some.
  assert (∀ x, is_Some (tr !! x) → c ≠ x) as Hfresh by (intros x [n Hx] ->; congruence).
  assert (∀ x e, dir_of tr x = Some e → ∃ e', dir_of (t_create Directory d nm c tr) x = Some (e ++ e') ∧
    ∀ a i, (a, i) ∈ e' → (a, i) = (nm, c) ∧ x = d) as Hgrow.
  { intros x e [kx Hx]%dir_of_Some. unfold dir_of, t_create, t_add. rewrite lookup_insert_ne by (apply Hfresh; eauto).
    destruct (decide (d = x)) as [<-|Hne].
    - rewrite lookup_alter_eq, Hx. cbn. exists [(nm, c)]. split; [done|]. by intros a i ->%list_elem_of_singleton.
    - rewrite lookup_alter_ne, Hx by done. exists []. split; [by rewrite app_nil_r|]. intros a i Hin. by apply elem_of_nil in Hin. }
  assert (∀ e e' x y, lookup_name e x = Some y → lookup_name (e ++ e') x = Some y) as Hlk.
  { intros e e' x y. unfold lookup_name. destruct (list_find _ e) as [[i z]|] eqn:Hf; [|done].
    by rewrite (list_find_app_l _ _ _ _ _ Hf). }
  assert (∀ e e' x y, entry_of e x = Some y → entry_of (e ++ e') x = Some y) as Hen.
  { intros e e' x y. unfold entry_of. destruct (list_find _ e) as [[i z]|] eqn:Hf; [|done].
    by rewrite (list_find_app_l _ _ _ _ _ Hf). }
  assert (∀ x ns, located tr x ns → located (t_create Directory d nm c tr) x ns) as Hmono.
  { induction 1 as [e He|x p ns e pe a Hx0 He Hdd Hp Hea Hla Ha0 Has _ IH].
    - destruct (Hgrow 0 e He) as (e' & He' & _). by eapply loc_root.
    - destruct (Hgrow x e He) as (e' & He' & _). destruct (Hgrow p pe Hp) as (pe' & Hpe' & _).
      by eapply loc_child; eauto. }
  eapply (loc_child _ c d names [([46], c); ([46; 46], d)] (ents ++ [(nm, c)])); try done.
  - unfold dir_of, t_create. by rewrite lookup_insert_eq.
  - unfold dir_of, t_create, t_add. rewrite lookup_insert_ne by (apply Hfresh; eauto). by rewrite lookup_alter_eq, Hdk.
  - unfold entry_of. rewrite list_find_app_r.
    + simpl. by rewrite decide_True.
    + apply list_find_None, Forall_forall. intros [a i] Hin Hi. simpl in Hi. subst i. pose proof (fr_closed _ _ _ _ _ _ Hr d _ Hdk a c Hin) as [n Hn].
      congruence.
  - unfold lookup_name in *. destruct (list_find _ ents) as [[i z]|] eqn:Hf; [done|].
    rewrite list_find_app_r by done. simpl. by rewrite decide_True.
  - by apply Hmono.
Qed.
End names.

(** Opening a file by path.  On a file system that represents the tree [tr],
    [open_file_at] resolves the path from the base directory; with [CREATE] it
    resolves the parent and makes the last component when it is missing, with
    [TRUNC] the file it found is emptied; the object returned has the access the
    flags ask for and starts at offset 0, and the tree changes accordingly. *)
Theorem open_file_at_correct fs nd ni m lay tr b name flags :
  fs_rel fs nd ni m lay tr → is_Some (tr !! b) → open_ok fs nd ni m tr b name flags →
  wp (open_file_at fs (inode_at fs b) name flags) ∅ m (λ r m', ∃ lay' tr',
    open_spec tr b name flags r tr' ∧ fs_rel fs nd ni m' lay' tr').
Proof. apply open_file_at_spec. Qed.

(** C15 The path of a directory leads to it.  For a directory that the tree locates
    below the root, [name_for_inode] ends and gives an absolute path, and
    resolving that path from the root gives the directory back. *)
Theorem name_for_inode_roundtrip fs nd ni m lay tr d names fuel :
  fs_rel fs nd ni m lay tr → located tr d names → (length names < fuel)%nat →
  wp (name_for_inode fs fuel (inode_at fs d) ≫= λ path, find_file fs path) ∅ m
    (λ r m', r = Some (inode_at fs d) ∧ m' = m).
Proof.
  intros Hr Hloc Hf. apply wp_bind. unfold name_for_inode. apply wp_bind.
  eapply wp_mono; [by eapply name_for_inode_inner_spec|]. intros s m' [-> ->]. apply wp_ret.
  pose proof (located_resolves tr d names Hloc) as Hres. unfold find_file.
  assert (starts_with_slash (or_root (join_path names)) = true) as ->
    by (destruct names; done).
  cbn [assert liftp mbind prog_bind]. assert (is_Some (tr !! 0)) as H0.
  { clear -Hloc. induction Hloc as [ents [k Hd]%dir_of_Some|]; eauto. }
  eapply wp_mono; [by eapply (find_spec fs nd ni)|]. intros r m' (-> & -> & _). by rewrite Hres.
Qed.

(** ** A file system with one subdirectory, ["hi"] *)
Module PathDemo.
Import FsSpec.FsDemo.

Definition hi : list Z := [104; 105].
Definition sub_run : outcome (option Inode * Disk) :=
  run_disk (create_dir small_fs (inode_at small_fs 0) hi) (mkDisk disk ∅).
Definition sub_disk : bmap := match sub_run with Ok (_, s) => blocks s | Err _ => ∅ end.
Definition sub_tree : gmap Z fnode := t_create Directory 0 hi 1 tr.

Lemma sub_inode : match sub_run with Ok (o, _) => inode_id <$> o | Err _ => None end = Some 1.
Proof. vm_compute. reflexivity. Qed.

Lemma sub_rel : ∃ lay', fs_rel small_fs 30 8 sub_disk lay' sub_tree.
Proof.
  destruct (create_inode_spec small_fs 30 8 disk lay tr 0 [] hi Directory small_rel eq_refl small_name)
    as (o & m' & Hrun & c & lay' & Hc & -> & Hr); [intros _; apply small_room|].
  pose proof sub_inode as Hi. unfold sub_run, create_dir in Hi. rewrite Hrun in Hi. injection Hi as ->.
  exists lay'. unfold sub_disk, sub_run, create_dir. rewrite Hrun. exact Hr.
Qed.

Lemma hi_located : located sub_tree 1 [hi].
Proof.
  apply (located_create small_fs 30 8 disk lay tr 0 [] [] hi 1 small_rel); try reflexivity; try discriminate.
  - by eapply loc_root.
  - apply (bool_decide_unpack _). vm_compute. exact I.
Qed.

Lemma open_file_at_correct_witness :
  wp (open_file_at small_fs (inode_at small_fs 0) (47 :: hi) (CREATE + RDRW)) ∅ disk (λ r m', ∃ lay' tr',
    open_spec tr 0 (47 :: hi) (CREATE + RDRW) r tr' ∧ fs_rel small_fs 30 8 m' lay' tr').
Proof.
  apply (open_file_at_correct small_fs 30 8 disk lay tr 0 (47 :: hi) (CREATE + RDRW) small_rel).
  - by eexists.
  - intros _ p Hp _. injection Hp as <-. split; [apply small_name|]. exists []. split; [reflexivity|apply small_room].
Defined.

Lemma name_for_inode_roundtrip_witness :
  wp (name_for_inode small_fs 2 (inode_at small_fs 1) ≫= λ path, find_file small_fs path) ∅ sub_disk
    (λ r m', r = Some (inode_at small_fs 1) ∧ m' = sub_disk).
Proof.
  destruct sub_rel as [lay' Hr].
  apply (name_for_inode_roundtrip small_fs 30 8 sub_disk lay' sub_tree 1 [hi] 2 Hr).
  - apply hi_located.
  - simpl. lia.
Defined.

(** Opening ["hi/x"] with [CREATE] when ["hi"] is a regular file meets the
    assertion of [create_inode] that its parent is a directory. *)
Definition file_then_below : prog () :=
  open_file_at small_fs (inode_at small_fs 0) (47 :: hi) (CREATE + RDRW) ≫= λ _,
  open_file_at small_fs (inode_at small_fs 0) (47 :: hi ++ [47; 120]) (CREATE + RDRW) ≫= λ _, mret ().
Lemma create_below_file_panics : run_disk file_then_below (mkDisk disk ∅) = Err Panicked.
Proof. vm_compute. reflexivity. Qed.

(** A name longer than 27 bytes meets the assertion of [DirEntry::new]. *)
Lemma create_long_name_panics :
  run_disk (open_file_at small_fs (inode_at small_fs 0) (47 :: replicate 28 120) (CREATE + RDRW)) (mkDisk disk ∅) = Err Panicked.
Proof. vm_compute. reflexivity. Qed.

(** Opening a directory with [TRUNC] empties it: ["."] and [".."] are gone. *)
Lemma truncate_empties_directory :
  match run_disk (open_file_at small_fs (inode_at small_fs 0) (47 :: hi) TRUNC ≫= λ _,
                  ls small_fs (inode_at small_fs 1)) (mkDisk sub_disk ∅) with
  | Ok (l, _) => l = []
  | Err _ => False
  end.
Proof. vm_compute. reflexivity. Qed.
End PathDemo.
