(* ===== verification/Image.v ===== *)
(** * The file-system image (easy-fs-fuse/src/main.rs: easy_fs_pack)

    The host tool that makes the disk the kernel boots from: it formats a device
    of 32 MiB and copies every built program into the root directory.  The
    theorem at the end follows the bytes of a program from the host, through the
    tool and its block cache, to the device, and back through the block cache of
    the kernel that opens the image. *)
From S2P Require Import Prelude Bytes BlockCache DiskLogic Bitmap Layout InodeMap InodeGrow InodeData Efs Vfs FsData FsDir FsOps FsTree FsSpec.
From S2P Require Import Paths.

(** [str::rfind('.')] *)
Fixpoint rfind (c : Z) (s : list Z) : option nat :=
  match s with
  | [] => None
  | x :: rest =>
      match rfind c rest with
      | Some i => Some (S i)
      | None => if x =? c then Some 0%nat else None
      end
  end.
(** The name of a program: that of its source file without the extension. *)
Definition app_name (fname : list Z) : list Z :=
  match rfind 46 fname with Some dot => take dot fname | None => fname end.

(** What the host has under the target directory. *)
Inductive hostfile := Missing | Unreadable | Content (all_data : list Z).

Section tool.
(** The entries of the source directory ([None]: not a name in Unicode), and the
    files of the target directory. *)
Context (read_dir : list (option (list Z))) (host : list Z → hostfile).

Fixpoint pack_apps (efs : EasyFileSystem) (root_inode : Inode) (apps : list (list Z)) (size_total : Z) : prog (option Z) :=
  match apps with
  | [] => mret (Some size_total)
  | app :: rest =>
      match host app with
      | Missing => pack_apps efs root_inode rest size_total
      | Unreadable => mret None
      | Content all_data =>
          create_file efs root_inode app ≫= λ o,
          liftp (unwrap o) ≫= λ inode,
          Vfs.write_at efs inode 0 all_data ≫= λ _,
          pack_apps efs root_inode rest (size_total + Z.of_nat (length all_data))
      end
  end.

Definition IMAGE_BLOCKS : Z := 32 * 2048.
(** [None] is an error of the host's file system; the other result is the size
    that is printed. *)
Definition easy_fs_pack : prog (option Z) :=
  create IMAGE_BLOCKS 1 ≫= λ efs,
  let root_inode := root_inode efs in
  match mapM (fmap app_name) read_dir with
  | None => mret None
  | Some apps => pack_apps efs root_inode apps 0
  end.
(** [main]: an error is a panic. *)
Definition image_main : prog Z := easy_fs_pack ≫= λ r, liftp (unwrap r).

(** The programs that were built, in the order of the source directory. *)
Definition built (apps : list (list Z)) : list (list Z * list Z) :=
  omap (λ app, match host app with Content d => Some (app, d) | _ => None end) apps.
End tool.

(** The kernel reads a program: [ROOT_INODE] opens the device, the name is looked
    up there, the file is read. *)
Definition boot_read (nm : list Z) : prog (list Z) :=
  open ≫= λ efs, find efs (ROOT_INODE efs) nm ≫= λ o, liftp (unwrap o) ≫= λ inode, read_all inode.

(** ** What the tool leaves on the disk *)

(** The root directory and the files, numbered in the order they were copied. *)
Definition dots : list (list Z * Z) := [([46], 0); ([46; 46], 0)].
Definition root_entries (files : list (list Z * list Z)) : list (list Z * Z) :=
  dots ++ imap (λ i f, (f.1, 1 + Z.of_nat i)) files.
Definition file_nodes (files : list (list Z * list Z)) : gmap Z fnode :=
  map_seqZ 1 ((λ f, mkNode (FileData f.2) 1) <$> files).
Definition packed_tree (files : list (list Z * list Z)) : gmap Z fnode :=
  <[0 := mkNode (DirData (root_entries files)) 1]> (file_nodes files).

(** The blocks they take: of the directory, and of each file. *)
Definition dir_blocks (n : nat) : nat := tot (nblocks (Z.of_nat (32 * (2 + n)))).
Definition file_cost (f : list Z * list Z) : nat := tot (nblocks (Z.of_nat (length f.2))).
Definition image_blocks (files : list (list Z * list Z)) : nat := dir_blocks (length files) + sum_list_with file_cost files.

(** A program that can be packed: its name fits an entry, has no separator and
    is none of ["."] and [".."]; it is not empty and not larger than an inode can
    hold. *)
Record app_ok (f : list Z * list Z) : Prop := {
  ao_name : name_ok f.1;
  ao_path : f.1 ≠ [] ∧ 47 ∉ f.1;
  ao_dots : f.1 ≠ [46] ∧ f.1 ≠ [46; 46];
  ao_bytes : Forall is_byte f.2;
  ao_size : (0 < length f.2)%nat ∧ Z.of_nat (length f.2) ≤ 2 ^ 32 - 512 ∧ (nblocks (Z.of_nat (length f.2)) ≤ max_blocks)%nat;
}.

Lemma length_root_entries files : length (root_entries files) = (2 + length files)%nat.
Proof. unfold root_entries. by rewrite length_app, length_imap. Qed.
Lemma root_entries_snoc files f : root_entries (files ++ [f]) = root_entries files ++ [(f.1, 1 + Z.of_nat (length files))].
Proof.
  unfold root_entries. rewrite imap_app, <- app_assoc. do 2 f_equal. cbn [imap]. unfold compose.
  by rewrite Nat.add_0_r.
Qed.
Lemma file_nodes_snoc files f :
  file_nodes (files ++ [f]) = <[1 + Z.of_nat (length files) := mkNode (FileData f.2) 1]> (file_nodes files).
Proof.
  unfold file_nodes. rewrite fmap_app, map_seqZ_app, length_fmap. cbn [fmap list_fmap].
  rewrite map_seqZ_singleton, insert_union_singleton_r; [done|]. apply lookup_map_seqZ_None. rewrite length_fmap. lia.
Qed.
Lemma image_blocks_snoc files f :
  image_blocks (files ++ [f]) = (dir_blocks (S (length files)) + sum_list_with file_cost files + file_cost f)%nat.
Proof.
  unfold image_blocks. rewrite length_app, sum_list_with_app, Nat.add_comm. cbn [length sum_list_with].
  replace (length files + 1)%nat with (S (length files)) by lia. lia.
Qed.
Lemma dir_blocks_mono n k : (n ≤ k)%nat → (k ≤ 2 ^ 20)%nat → (dir_blocks n ≤ dir_blocks k)%nat.
Proof. intros Hnk Hk. unfold dir_blocks. apply tot_mono, nblocks_mono; lia. Qed.

(** Copying one more program, on the tree. *)
Lemma packed_tree_snoc files f c gap :
  c = 1 + Z.of_nat (length files) → length gap = 0%nat →
  t_write c 0 gap f.2 (t_create File 0 f.1 c (packed_tree files)) = packed_tree (files ++ [f]).
Proof.
  intros -> Hgap%length_zero_iff_nil. subst gap. set (c := 1 + Z.of_nat (length files)). assert (c ≠ 0) as Hc by lia.
  unfold t_write, t_create, t_add, packed_tree. rewrite alter_insert_eq, alter_insert_eq. cbn [n_data new_data set_data].
  unfold overwrite. rewrite take_nil, drop_nil, app_nil_r. cbn [app].
  rewrite root_entries_snoc, file_nodes_snoc. by rewrite insert_insert_ne.
Qed.

Lemma root_entries_fresh files nm :
  nm ≠ [46] → nm ≠ [46; 46] → nm ∉ files.*1 → lookup_name (root_entries files) nm = None.
Proof.
  intros H1 H2 Hn. unfold lookup_name. destruct (list_find _ _) as [[i e]|] eqn:Hf; [exfalso|done].
  apply list_find_Some in Hf as (Hi & <- & _). unfold root_entries in Hi.
  apply list_elem_of_lookup_2, elem_of_app in Hi as [Hi|Hi].
  - unfold dots in Hi. rewrite !elem_of_cons, elem_of_nil in Hi. destruct Hi as [->|[->|[]]]; done.
  - apply elem_of_lookup_imap_1 in Hi as (j & f & -> & Hj). apply Hn, list_elem_of_fmap. exists f. split; [done|]. by eapply list_elem_of_lookup_2.
Qed.
Lemma root_entries_lookup files i f :
  f.1 ≠ [46] → f.1 ≠ [46; 46] → NoDup files.*1 → files !! i = Some f → lookup_name (root_entries files) f.1 = Some (1 + Z.of_nat i).
Proof.
  intros H1 H2 Hnd Hi. unfold lookup_name.
  assert (list_find (λ e, e.1 = f.1) (root_entries files) = Some ((2 + i)%nat, (f.1, 1 + Z.of_nat i))) as ->; [|done].
  apply list_find_Some. split_and!; [|done|].
  - unfold root_entries. rewrite lookup_app_r by (cbn; lia). cbn [length dots]. replace (2 + i - 2)%nat with i by lia.
    by rewrite list_lookup_imap, Hi.
  - intros j e Hj Hlt. unfold root_entries in Hj. apply lookup_app_Some in Hj as [Hj|[Hge Hj]].
    + unfold dots in Hj. apply list_elem_of_lookup_2 in Hj. rewrite !elem_of_cons, elem_of_nil in Hj. destruct Hj as [->|[->|[]]]; cbn; congruence.
    + rewrite list_lookup_imap in Hj. cbn [length dots] in *. destruct (files !! (j - 2)%nat) as [g|] eqn:Hg; [|done]. injection Hj as <-. cbn.
      intros He. assert ((j - 2)%nat = i); [|lia]. eapply (NoDup_lookup files.*1); [done| |]; rewrite list_lookup_fmap, ?Hg, ?Hi; cbn; by rewrite ?He.
Qed.

(** ** The loop *)
Section pack.
#[local] Abbreviation efs := (layout IMAGE_BLOCKS 1).2.
#[local] Abbreviation nd := (data_area_blocks (layout IMAGE_BLOCKS 1).1).
#[local] Abbreviation ni := (1 * BLOCK_BITS).
Context (m0 : bmap).

(** The device holds the files, and nothing else; block 0 is that of [m0]. *)
Record packed (m : bmap) (files : list (list Z * list Z)) : Prop := {
  pk_rel : ∃ lay, fs_rel efs nd ni m lay (packed_tree files);
  pk_free : (Z.to_nat nd ≤ nfree m efs nd + image_blocks files)%nat;
  pk_inodes : ∀ j, 0 ≤ j < ni → bm_bit m (inode_bitmap efs) j = (j <? 1 + Z.of_nat (length files));
  pk_super : m !! 0 = m0 !! 0;
}.

Lemma packed_room m files f :
  packed m files → app_ok f → f.1 ∉ files.*1 → (length files < 4095)%nat → (image_blocks (files ++ [f]) ≤ Z.to_nat nd)%nat →
  create_room efs nd ni m (root_entries files) File.
Proof.
  intros [Hr Hfree Hin _] Hf Hn Hlen Hcap. unfold create_room, room. rewrite length_root_entries. rewrite image_blocks_snoc in Hcap.
  assert (growth (Z.of_nat (32 * (2 + length files))) (Z.of_nat (32 * S (2 + length files))) ≤ nfree m efs nd)%nat as Hg.
  { unfold image_blocks in *. unfold growth. fold (dir_blocks (length files)). change (S (2 + length files)) with (2 + S (length files))%nat.
    fold (dir_blocks (S (length files))). lia. }
  split_and!; [lia| |done|rewrite Nat.add_0_r; done|].
  - pose proof (nblocks_mono (Z.of_nat (32 * S (2 + length files))) (32 * 4097) ltac:(lia) ltac:(lia)) as Hm.
    etransitivity; [exact Hm|]. apply Nat.leb_le. reflexivity.
  - exists (1 + Z.of_nat (length files)). unfold BLOCK_BITS, BLOCK_SZ in *. split; [lia|]. rewrite Hin by lia. apply Z.ltb_irrefl.
Qed.

Lemma pack_one {A} m files f (k : prog A) Q :
  packed m files → app_ok f → f.1 ∉ files.*1 → (length files < 4095)%nat → (image_blocks (files ++ [f]) ≤ Z.to_nat nd)%nat →
  (∀ m', packed m' (files ++ [f]) → wp k ∅ m' Q) →
  wp (create_file efs (root_inode efs) f.1 ≫= λ o, liftp (unwrap o) ≫= λ inode, Vfs.write_at efs inode 0 f.2 ≫= λ _, k) ∅ m Q.
Proof.
  intros Hp Hf Hn Hlen Hcap Hk. pose proof (packed_room m files f Hp Hf Hn Hlen Hcap) as Hroom.
  destruct Hp as [[lay Hr] Hfree Hin Hsup]. destruct Hf as [Hnm _ [Hd1 Hd2] Hby (Hne & Hmax & Hblk)].
  apply wp_bind. eapply wp_mono.
  { apply (create_inode_full efs nd ni m lay _ 0 (root_entries files) f.1 File Hr); [|done|done].
    apply dir_of_Some. exists 1. unfold packed_tree. by rewrite lookup_insert_eq. }
  intros o m1. rewrite root_entries_fresh by done. intros (c & lay1 & Hc & -> & Hr1 & [Hcr Hleast Hbits Hcost Hlow]).
  specialize (Hcost eq_refl). rewrite length_root_entries in Hcost. unfold growth in Hcost.
  fold (dir_blocks (length files)) in Hcost. change (S (2 + length files)) with (2 + S (length files))%nat in Hcost.
  fold (dir_blocks (S (length files))) in Hcost.
  pose proof (dir_blocks_mono (length files) (S (length files)) ltac:(lia) ltac:(lia)) as Hdm.
  rewrite image_blocks_snoc in Hcap. unfold image_blocks in Hfree.
  assert (c = 1 + Z.of_nat (length files)) as Hceq.
  { assert (bm_bit m1 (inode_bitmap efs) c = true) as Hb by (rewrite Hbits, Z.eqb_refl by done; done).
    destruct (Z.lt_trichotomy c (1 + Z.of_nat (length files))) as [Hlt|[->|Hgt]]; [|done|].
    - unfold packed_tree in Hc. apply lookup_insert_None in Hc as [Hc Hc0].
      apply lookup_map_seqZ_None in Hc. rewrite length_fmap in Hc. lia.
    - specialize (Hleast (1 + Z.of_nat (length files)) ltac:(lia)). unfold BLOCK_BITS, BLOCK_SZ in *.
      rewrite Hin, Z.ltb_irrefl in Hleast by lia. done. }
  cbn [unwrap liftp mbind prog_bind]. apply wp_bind. eapply wp_mono.
  { apply (write_spec efs nd ni m1 lay1 _ c [] 1 0 f.2 Hr1); [unfold t_create; by rewrite lookup_insert_eq|done|done|].
    unfold room, growth. cbn [length]. rewrite Nat.add_0_l. split_and!; [done|done|]. fold (file_cost f). lia. }
  intros n m2 (-> & gap & lay2 & Hgap & Hr2 & Hcnt & Hlow2). apply Hk. rewrite (packed_tree_snoc files f c gap Hceq Hgap) in Hr2. split.
  - by exists lay2.
  - unfold image_blocks. rewrite length_app, sum_list_with_app, Nat.add_1_r. cbn [sum_list_with].
    unfold growth in Hcnt. cbn [length] in Hcnt. rewrite Nat.add_0_l, Nat.max_0_l in Hcnt. fold (file_cost f) in Hcnt.
    change (nblocks (Z.of_nat 0)) with 0%nat in Hcnt. lia.
  - intros j Hj. rewrite (low_ibits efs ni m1) by (done || apply Hr1). rewrite Hbits, Hin, length_app by done. cbn [length].
    subst c. destruct (Z.eqb_spec j (1 + Z.of_nat (length files))) as [->|Hne']; [symmetry; apply Z.ltb_lt; lia|].
    destruct (Z.ltb_spec j (1 + Z.of_nat (length files))); symmetry; [apply Z.ltb_lt|apply Z.ltb_ge]; lia.
  - rewrite Hlow2, Hlow; [done| | |]; vm_compute; [done|by intros [H _]|done].
Qed.

Definition image_size (files : list (list Z * list Z)) : Z := Z.of_nat (sum_list_with (λ f, length f.2) files).
(** What can be packed: distinct names, and room for the files. *)
Record image_ok (files : list (list Z * list Z)) : Prop := {
  io_apps : Forall app_ok files;
  io_names : NoDup files.*1;
  io_count : (length files ≤ 4095)%nat;
  io_blocks : (image_blocks files ≤ Z.to_nat nd)%nat;
}.

Lemma image_ok_prefix files rest : image_ok (files ++ rest) → image_ok files.
Proof.
  intros [Ha Hn Hc Hb]. rewrite Forall_app in Ha. rewrite fmap_app, NoDup_app in Hn. rewrite length_app in Hc. split; [apply Ha|apply Hn|lia|].
  etransitivity; [|exact Hb]. unfold image_blocks. rewrite sum_list_with_app.
  pose proof (dir_blocks_mono (length files) (length (files ++ rest))) as Hm. rewrite length_app in *. specialize (Hm ltac:(lia) ltac:(lia)). lia.
Qed.

Lemma pack_apps_spec host apps files size m :
  packed m files → image_ok (files ++ built host apps) → (∀ a, a ∈ apps → host a ≠ Unreadable) →
  wp (pack_apps host efs (root_inode efs) apps size) ∅ m
    (λ r m', r = Some (size + image_size (built host apps)) ∧ packed m' (files ++ built host apps)).
Proof.
  revert files size m. induction apps as [|a apps IH]; intros files size m Hp Hok Hh; cbn [pack_apps].
  { apply wp_ret. unfold built. cbn. rewrite app_nil_r, Z.add_0_r. done. }
  assert (∀ x, x ∈ apps → host x ≠ Unreadable) as Hh' by (intros x Hx; apply Hh; by right).
  pose proof (Hh a ltac:(by left)) as Ha.
  assert (built host (a :: apps) = match host a with Content d => (a, d) :: built host apps | _ => built host apps end) as Hb
    by (unfold built; cbn; by destruct (host a)).
  rewrite Hb in *. destruct (host a) as [| |d] eqn:Hd; [by apply IH|done|]. clear Hb.
  set (rest := built host apps) in *. replace (files ++ (a, d) :: rest) with ((files ++ [(a, d)]) ++ rest) in * by (by rewrite <- app_assoc).
  pose proof (image_ok_prefix _ _ Hok) as [Hap Hnd Hcnt Hblk]. rewrite length_app in Hcnt. cbn [length] in Hcnt.
  apply Forall_app in Hap as [_ Hap]. rewrite Forall_singleton in Hap. rewrite fmap_app in Hnd. apply NoDup_app in Hnd as (_ & Hnew & _).
  apply (pack_one m files (a, d)); [exact Hp|exact Hap|intros Hin; eapply Hnew; [exact Hin|by left]|lia|done|].
  intros m' Hp'. eapply wp_mono; [by apply IH|]. intros r m'' [-> Hp'']. split; [|done]. f_equal. unfold image_size. cbn [sum_list_with snd]. lia.
Qed.

Lemma get_size_spec fs n k m lay tr ino c l :
  fs_rel fs n k m lay tr → tr !! ino = Some (mkNode (FileData c) l) →
  wp (get_size (inode_at fs ino)) ∅ m (λ v m', v = Z.of_nat (length c) ∧ m' = m).
Proof.
  intros Hr Hn. destruct (rel_get fs n k m lay tr ino _ Hr Hn) as (la & Hl & Hat & _).
  pose proof Hat as [[(b & Hb & Hdec) Ho _] _ _ _ _ _]. unfold get_size, read_disk_inode.
  eapply wp_read; [split_and!; [exact Hb|set_solver|by apply Nat.ltb_lt]|apply Ho|done|apply Ho|].
  rewrite Hdec. apply wp_ret. split; [|done]. by eapply rel_file_size.
Qed.

(** The kernel finds the file under its name and reads its bytes. *)
Lemma boot_read_spec m files f :
  packed m files → image_ok files → f ∈ files → wp open ∅ m (λ fs m', fs = efs ∧ m' = m) →
  wp (boot_read f.1) ∅ m (λ v m', v = f.2 ∧ m' = m).
Proof.
  intros [[lay Hr] _ _ _] [Hap Hnd _ _] [i Hi]%list_elem_of_lookup_1 Hop. unfold boot_read. apply wp_bind.
  eapply wp_mono; [exact Hop|]. intros fs m1 [-> ->]. apply wp_bind. eapply wp_mono.
  { eapply find_loop_spec; [by eapply rel_view|]. unfold view_of, packed_tree. rewrite lookup_fmap, lookup_insert_eq. eauto. }
  intros o m1 [-> ->]. pose proof (Forall_lookup_1 _ _ _ _ Hap Hi) as [_ [Hne Hsep] [Hd1 Hd2] _ (_ & Hmax & _)].
  rewrite split_path_name by done. cbn [resolve]. unfold view_of, packed_tree at 1. rewrite lookup_fmap, lookup_insert_eq. cbn [fmap option_fmap option_map kind_of n_data].
  rewrite (root_entries_lookup files i f Hd1 Hd2 Hnd Hi). cbn [fmap option_fmap option_map unwrap liftp mbind prog_bind].
  assert (packed_tree files !! (1 + Z.of_nat i) = Some (mkNode (FileData f.2) 1)) as Hnode.
  { unfold packed_tree, file_nodes. rewrite lookup_insert_ne by lia. rewrite <- lookup_map_seqZ_Some_inv, list_lookup_fmap, Hi. done. }
  unfold read_all. apply wp_bind. eapply wp_mono; [by eapply get_size_spec|].
  intros size m1 [-> ->]. apply wp_bind. eapply wp_mono.
  { apply (read_spec efs nd ni m lay _ _ _ _ 0 (length f.2) Hr Hnode). lia. }
  intros v m1 [-> ->]. rewrite slice_all, Z.eqb_refl. apply wp_ret. done.
Qed.
End pack.

(** ** Through the block cache *)
Section durable.
Context `{BlockDeviceLaws D}.

(** The cache holds nothing that the device does not. *)
Definition clean (s : CacheState D) (a : Disk) : Prop := cache_rel s a ∧ dev_blocks (dev s) = blocks a.
Definition ends_synced {A} (p : prog A) : Prop := ∀ s a v a',
  cache_rel s a → run_disk p a = Ok (v, a') → ∃ s', run_cache p s = Ok (v, s') ∧ clean s' a'.
Definition keeps_clean {A} (p : prog A) : Prop := ∀ s a v a',
  clean s a → run_disk p a = Ok (v, a') → ∃ s', run_cache p s = Ok (v, s') ∧ clean s' a'.

Lemma ends_keeps {A} (p : prog A) : ends_synced p → keeps_clean p.
Proof. intros Hp s a v a' [Hc _]. by apply Hp. Qed.
Lemma clean_ret {A} (v : A) : keeps_clean (mret v).
Proof. intros s a v' a' Hc [= <- <-]. by exists s. Qed.
Lemma clean_liftp {A} (o : outcome A) : keeps_clean (liftp o).
Proof. destruct o; [apply clean_ret|done]. Qed.
Lemma ends_sync {A} (v : A) : ends_synced (sync_all ≫= λ _, mret v).
Proof.
  intros s a v' a' Hc. cbn. case_decide as Hh; [|done]. intros [= <- <-].
  destruct (sync_all_sim s a Hc Hh) as (s' & Hs & Hc' & Hd). exists s'.
  split; [by rewrite (M_bind_Ok _ _ _ _ _ Hs)|]. split; [done|]. by apply map_eq.
Qed.
Lemma ends_bind {A B} (p : prog A) (f : A → prog B) : (∀ x, ends_synced (f x)) → ends_synced (p ≫= f).
Proof.
  intros Hf s a v a' Hc. rewrite run_disk_bind. intros (x & a1 & Hp & Hr)%bind_inv.
  destruct (run_cache_sim p s a x a1 Hc Hp) as (s1 & Hs & Hc1). destruct (Hf x s1 a1 v a' Hc1 Hr) as (s' & Hs' & Hcl).
  exists s'. by rewrite run_cache_bind, (M_bind_Ok _ _ _ _ _ Hs).
Qed.
Lemma clean_bind {A B} (p : prog A) (f : A → prog B) : keeps_clean p → (∀ x, keeps_clean (f x)) → keeps_clean (p ≫= f).
Proof.
  intros Hp Hf s a v a' Hc. rewrite run_disk_bind. intros (x & a1 & Hr1 & Hr)%bind_inv.
  destruct (Hp s a x a1 Hc Hr1) as (s1 & Hs & Hc1). destruct (Hf x s1 a1 v a' Hc1 Hr) as (s' & Hs' & Hcl).
  exists s'. by rewrite run_cache_bind, (M_bind_Ok _ _ _ _ _ Hs).
Qed.

Lemma create_synced total ib : keeps_clean (create total ib).
Proof.
  apply ends_keeps. unfold create. destruct (layout total ib) as [sb efs]. do 4 (apply ends_bind; intros ?).
  destruct (get_disk_inode_pos efs 0). repeat (apply ends_sync || (apply ends_bind; intros ?)).
Qed.
Lemma pack_apps_synced host efs root apps size : keeps_clean (pack_apps host efs root apps size).
Proof.
  revert size. induction apps as [|a apps IH]; intros size; cbn [pack_apps]; [apply clean_ret|].
  destruct (host a) as [| |d]; [apply IH|apply clean_ret|].
  intros s x v x' Hc. rewrite run_disk_bind. intros (o & x1 & Hp & Hr)%bind_inv.
  destruct (run_cache_sim _ s x o x1 (proj1 Hc) Hp) as (s1 & Hs & Hc1). rewrite run_cache_bind, (M_bind_Ok _ _ _ _ _ Hs).
  destruct o as [inode|]; [|done]. cbn [unwrap liftp mbind prog_bind] in *. rewrite run_disk_bind in Hr. apply bind_inv in Hr as (n & x2 & Hw & Hr).
  assert (ends_synced (Vfs.write_at efs inode 0 d)) as Hsy by (apply ends_bind; intros ?; apply ends_sync).
  destruct (Hsy s1 x1 n x2 Hc1 Hw) as (s2 & Hs2 & Hc2). rewrite run_cache_bind, (M_bind_Ok _ _ _ _ _ Hs2). by eapply IH.
Qed.
Lemma image_synced read_dir host : keeps_clean (image_main read_dir host).
Proof.
  apply clean_bind; [|intros; apply clean_liftp]. apply clean_bind; [apply create_synced|]. intros efs.
  destruct (mapM _ read_dir); [apply pack_apps_synced|apply clean_ret].
Qed.
End durable.

(** C9 The image round trip.  Given a device of 32 MiB and built programs that
    fit, the tool succeeds and prints their total size; a kernel that later
    opens the device with an empty cache finds each program under the name of
    its source file without the extension, and reads exactly its bytes. *)
Theorem image_roundtrip `{BlockDeviceLaws D} (d : D) read_dir host apps :
  disk_ok (dev_blocks d) → (∀ id, 0 ≤ id < IMAGE_BLOCKS → is_Some (dev_blocks d !! id)) →
  mapM (fmap app_name) read_dir = Some apps → (∀ a, a ∈ apps → host a ≠ Unreadable) → image_ok (built host apps) →
  ∃ s, run_cache (image_main read_dir host) (mkCS d []) = Ok (image_size (built host apps), s) ∧
    ∀ nm data, (nm, data) ∈ built host apps → ∃ s', run_cache (boot_read nm) (mkCS (dev s) []) = Ok (data, s').
Proof.
  intros Hd Hp Happs Hh Hok.
  assert (wp (image_main read_dir host) ∅ (dev_blocks d) (λ v m, v = image_size (built host apps) ∧
    ∃ m0, packed m0 m (built host apps) ∧ wp open ∅ m (λ fs m', fs = (layout IMAGE_BLOCKS 1).2 ∧ m' = m)))
    as (v & m & Hrun & -> & m0 & Hpk & Hopen).
  { unfold image_main, easy_fs_pack. do 2 apply wp_bind.
    eapply wp_mono; [apply format_spec; [lia|unfold IMAGE_BLOCKS; lia|done|done]|]. intros fs m0 [-> [Hr Hfree Hin Hop]]. rewrite Happs.
    eapply wp_mono.
    { apply (pack_apps_spec m0 host apps [] 0 m0); [|done|done]. split; [exact Hr| | |done].
      - change (image_blocks []) with 1%nat. lia.
      - intros j Hj. rewrite Hin by done. change (1 + Z.of_nat (length [])) with 1. destruct (Z.eqb_spec j 0), (Z.ltb_spec j 1); done || lia. }
    intros r m [-> Hpk]. apply wp_ret. split; [done|]. exists m0. split; [done|]. apply Hop, Hpk. }
  destruct (image_synced read_dir host (mkCS d []) _ _ _ (conj (cache_rel_init d) eq_refl) Hrun) as (s & Hs & Hc & Hdev).
  exists s. split; [exact Hs|]. intros nm data Hin.
  destruct (boot_read_spec m0 m _ (nm, data) Hpk Hok Hin Hopen) as (v & m' & Hr & -> & ->). cbn in Hdev. rewrite <- Hdev in Hr.
  destruct (run_cache_sim _ _ _ _ _ (cache_rel_init (dev s)) Hr) as (s' & Hs' & _). eauto.
Qed.

(** ** An image with two programs *)
Module ImageDemo.

(** "ls.rs", "a.rs" and "draft"; "draft" was not built. *)
Definition ls_name : list Z := [108; 115].
Definition a_name : list Z := [97].
Definition source : list (option (list Z)) := Some <$> [[108; 115; 46; 114; 115]; [97; 46; 114; 115]; [100; 114]].
Definition target (nm : list Z) : hostfile :=
  if decide (nm = ls_name) then Content (replicate 700 7) else if decide (nm = a_name) then Content [127; 69] else Missing.

(** A device of zeros. *)
Definition blank : BlockFile := mkFile (replicate (Z.to_nat (32 * 2048 * 512)) 0).
Lemma blank_size : file_nblocks (BlockCache.file_bytes blank) = IMAGE_BLOCKS.
Proof. unfold file_nblocks, blank. cbn [BlockCache.file_bytes]. rewrite length_replicate, Z2Nat.id by done. reflexivity. Qed.
Lemma blank_present id : 0 ≤ id < IMAGE_BLOCKS → is_Some (dev_blocks blank !! id).
Proof.
  intros Hid. change (dev_blocks blank) with (file_blocks (BlockCache.file_bytes blank)). rewrite lookup_file_blocks, decide_True; [eauto|].
  by rewrite blank_size.
Qed.
Lemma file_disk_ok f : Forall is_byte f → disk_ok (file_blocks f).
Proof.
  intros Hf id b. rewrite lookup_file_blocks. case_decide as Hid; [|done]. intros [= <-].
  destruct (file_block_inside _ _ Hid) as [_ Hin]. split.
  - unfold block_ok. change (Z.to_nat BLOCK_SZ) with 512%nat. by apply length_slice.
  - unfold slice. by apply Forall_take, Forall_drop.
Qed.
Lemma blank_ok : disk_ok (dev_blocks blank).
Proof. apply (file_disk_ok (BlockCache.file_bytes blank)), Forall_replicate. unfold is_byte. lia. Qed.
Lemma small_app nm data :
  Forall (λ c, 0 < c < 128) nm → utf8_ok nm = true → (length nm ≤ 27)%nat → nm ≠ [] ∧ 47 ∉ nm ∧ nm ≠ [46] ∧ nm ≠ [46; 46] →
  Forall (λ c, 0 ≤ c < 256) data → (0 < length data)%nat ∧ (length data ≤ 1000)%nat ∧ (nblocks (Z.of_nat (length data)) ≤ max_blocks)%nat →
  app_ok (nm, data).
Proof.
  intros Hnm Hu Hl (Hne & Hsep & Hd1 & Hd2) Hd (Hpos & Hmax & Hb).
  split; cbn [fst snd]; [split; [eapply Forall_impl; [exact Hnm|unfold is_byte; intros; cbn in *; lia]|eapply Forall_impl; [exact Hnm|intros; cbn in *; lia]|done|done]|done|done|done|].
  split_and!; [done|lia|done].
Qed.
Lemma two_apps : image_ok (built target [ls_name; a_name; [100; 114]]).
Proof.
  change (built target _) with [(ls_name, replicate 700 7); (a_name, [127; 69])]. split.
  - rewrite Forall_cons, Forall_singleton. split; apply small_app; try done; try (apply (bool_decide_unpack _); vm_compute; exact I).
  - apply (bool_decide_unpack _). vm_compute. exact I.
  - cbn. lia.
  - apply Nat.leb_le. vm_compute. reflexivity.
Qed.
Lemma image_roundtrip_witness :
  ∃ s, run_cache (image_main source target) (mkCS blank []) = Ok (702, s) ∧
    ∃ s', run_cache (boot_read a_name) (mkCS (dev s) []) = Ok ([127; 69], s').
Proof.
  destruct (image_roundtrip blank source target [ls_name; a_name; [100; 114]]) as (s & Hs & Hr).
  - apply blank_ok.
  - apply blank_present.
  - reflexivity.
  - intros a Ha. unfold target. repeat case_decide; discriminate.
  - apply two_apps.
  - exists s. split; [exact Hs|]. apply Hr. right. left.
Defined.

(** Two sources that differ only in the extension stop the tool: the second
    [create] finds the name in use. *)
Lemma app_name_clash : app_name [97; 46; 114; 115] = app_name [97; 46; 99].
Proof. reflexivity. Qed.
(** A source whose name starts with a dot has the empty name, which is the target
    directory itself. *)
Lemma app_name_hidden : app_name [46; 103; 105; 116] = [].
Proof. reflexivity. Qed.
End ImageDemo.

(** A second file of the same name stops the tool. *)
Lemma same_name_panics host m m0 files nm data rest size :
  packed m0 m files → nm ∈ files.*1 → Forall app_ok files → NoDup files.*1 → host nm = Content data →
  run_disk (pack_apps host (layout IMAGE_BLOCKS 1).2 (root_inode (layout IMAGE_BLOCKS 1).2) (nm :: rest) size) (mkDisk m ∅) = Err Panicked.
Proof.
  intros [[lay Hr] _ _ _] Hin Hap Hnd Hh. cbn [pack_apps]. rewrite Hh, run_disk_bind.
  apply list_elem_of_fmap in Hin as (f & -> & [i Hi]%list_elem_of_lookup_1).
  pose proof (Forall_lookup_1 _ _ _ _ Hap Hi) as [Hnm _ [Hd1 Hd2] _ _].
  pose proof (root_entries_lookup files i f Hd1 Hd2 Hnd Hi) as Hl.
  destruct (create_inode_spec _ _ _ m lay _ 0 (root_entries files) f.1 File Hr) as (r & m' & Hrun & Hpost).
  - apply dir_of_Some. exists 1. unfold packed_tree. by rewrite lookup_insert_eq.
  - done.
  - by rewrite Hl.
  - rewrite Hl in Hpost. destruct Hpost as [-> ->]. unfold create_file. by rewrite (M_bind_Ok _ _ _ _ _ Hrun).
Qed.
