(* ===== verification/PathCalls.v ===== *)
(** * System calls on paths (os/src/syscall/fs.rs: base_inode, openat, getcwd,
      mkdirat, chdir, unlinkat, linkat, fstat, getdents)

    The calls read a path from user memory, choose the directory it starts at,
    and use the functions of Paths.v on the disk.  [sfuel] bounds the pages of a
    string, [pfuel] the depth of the current directory. *)
From S2P Require Import Prelude Bytes Address FrameAllocator PageTable MemorySet AddressSpace UserMem.
From S2P Require Import BlockCache DiskLogic Bitmap Layout Efs Vfs FsData FsDir FsOps FsTree OpenFiles DiskFiles Paths.

Definition AT_FDCWD : Z := -100.

(** [fd_table.get(fd as usize)]: a negative number is beyond any table. *)
Definition fd_get (t : list (option Z)) (fd : Z) : option Z := if fd <? 0 then None else t !! Z.to_nat fd ≫= id.

(** ** Structures written to user memory *)
Definition STAT_DIR : Z := 0x4000.
Definition STAT_FILE : Z := 0x8000.
Definition STAT_SZ : Z := 80.
Record Stat := mkStat { st_ino : Z; st_mode : Z; st_nlink : Z; st_size : Z }.
Definition stat_enc (st : Stat) : list Z :=
  le_enc 8 0 ++ le_enc 8 (st_ino st) ++ le_enc 4 (st_mode st) ++ le_enc 4 (st_nlink st) ++ le_enc 8 (st_size st) ++
  replicate 48 0.

(** [getcwd] slices the source with bounds checks. *)
Fixpoint copy_cwd (src : list Z) (i : Z) (bufs : list uslice) : M kmem () :=
  match bufs with
  | [] => mret ()
  | (p, a, b) :: rest =>
      let dst_len := Z.min (b - a) (Z.of_nat (length src)) in
      let s := i * dst_len in
      lift (assert (s + dst_len <=? Z.of_nat (length src))) ≫= λ _,
      write_slice (p, a, b) (slice (Z.to_nat s) (Z.to_nat dst_len) src) ≫= λ _, copy_cwd src (i + 1) rest
  end.

Definition DIRENT_LEN : Z := 32.
Definition FT_UNKNOWN : Z := 0.
Definition FT_DIR : Z := 1.
Definition FT_REG : Z := 2.
(** [Dirent]: the type, 27 bytes of name, the next offset.  A longer name
    panics in [copy_from_slice]. *)
Definition dirent_enc (ftype : Z) (ename : list Z) (next_offset : Z) : outcome (list Z) :=
  _ ← assert (length ename <=? 27)%nat;
  Ok (ftype :: ename ++ replicate (27 - length ename) 0 ++ le_enc 4 next_offset).

(** [*translated_refmut(token, ptr) = v] for the bytes of a structure, and the
    field at the offset [off] of [*translate_ref(token, ptr)]. *)
Definition write_struct (tok ptr : Z) (bs : list Z) : M kmem () := translated_ref tok ptr ≫= λ pa, phys_put pa bs.
Definition read_field (n : nat) (off tok ptr : Z) : M kmem Z :=
  translated_ref tok ptr ≫= λ pa, phys_get n (pa + off) ≫= λ bs, mret (le_dec bs).

Section calls.
Context (fs : EasyFileSystem) (sfuel pfuel : nat).
#[local] Existing Instance disk_inodes.
Abbreviation st := (fstate (S := Disk)) (only parsing).

Definition d_run {A} (p : prog A) : M st A := f_inodes (run_disk p).
Definition user_token : M st Z := f_gets (λ s, ms_token (fspace s)).
Definition user_str (ptr : Z) : M st (list Z) := user_token ≫= λ token, f_mem (translated_str sfuel token ptr).

Definition base_inode (fd : Z) (abs_path : list Z) (open_read open_write : bool) : M st (Z + Inode) :=
  if starts_with_slash abs_path then mret (inr (ROOT_INODE fs))
  else if fd =? AT_FDCWD then
    f_gets cwd ≫= λ c,
    d_run (name_for_inode fs pfuel (inode_at fs c)) ≫= λ path,
    d_run (find_file fs path) ≫= λ o : option Inode,
    match o with
    | Some v => d_run (vfs_is_dir v) ≫= λ d : bool, mret (if d then inr (inode_at fs c) else inl (-1))
    | None => mret (inl (-1))
    end
  else
    f_gets fd_table ≫= λ t, f_gets objs ≫= λ os,
    match fd_get t fd with
    | Some o =>
        lift (unwrap (os !! o)) ≫= λ file,
        match file with
        | OSInode r w _ ino =>
            d_run (vfs_is_dir (inode_at fs ino)) ≫= λ d : bool,
            mret (if d && negb ((open_read && negb r) || (open_write && negb w)) then inr (inode_at fs ino) else inl (-1))
        | _ => mret (inl (-1))
        end
    | None => mret (inl (-1))
    end.

(** [bail_exit!] *)
Definition bail {A} (r : Z + A) (k : A → M st Z) : M st Z :=
  match r with inl e => mret e | inr a => k a end.

(** [openat] once it has the path *)
Definition openat_path (fd : Z) (path : list Z) (flags : Z) : M st Z :=
  let open_flags := from_bits_truncate flags in
  let '(or, ow) := read_write open_flags in
  base_inode fd path or ow ≫= λ r, bail r (λ base,
  d_run (open_file_at fs base path open_flags) ≫= λ o : option OpenFiles.File,
  match o with
  | Some file => new_obj file ≫= λ o, install o ≫= λ fd, mret (Z.of_nat fd)
  | None => mret (-1)
  end).
Definition sys_openat (fd path flags : Z) : M st Z := user_str path ≫= λ path, openat_path fd path flags.

Definition sys_getcwd (ptr len : Z) : M st Z :=
  user_token ≫= λ token, f_gets cwd ≫= λ c,
  d_run (name_for_inode fs pfuel (inode_at fs c)) ≫= λ name,
  if len <? Z.of_nat (length name) + 1 then mret (-1)
  else
    f_mem (translated_byte_buffer sfuel token ptr len) ≫= λ dst_vs,
    f_mem (copy_cwd name 0 dst_vs) ≫= λ _, mret 0.

Fixpoint mkdir_loop (base : Inode) (names : list (list Z)) : prog Z :=
  match names with
  | [] => mret 0
  | nm :: rest =>
      create_dir fs base nm ≫= λ o,
      match o with
      | Some created => mkdir_loop created rest
      | None =>
          find fs base nm ≫= λ o, liftp (unwrap o) ≫= λ existed,
          vfs_is_dir existed ≫= λ d : bool,
          if d then mkdir_loop existed rest else mret (-1)
      end
  end.
Definition sys_mkdirat (fd path : Z) : M st Z :=
  user_str path ≫= λ path,
  base_inode fd path true true ≫= λ r, bail r (λ base, d_run (mkdir_loop base (split_path path))).

Definition chdir_path (path : list Z) : M st Z :=
  base_inode AT_FDCWD path true true ≫= λ r, bail r (λ base,
  d_run (find fs base path) ≫= λ o : option Inode,
  match o with
  | Some d =>
      d_run (vfs_is_dir d) ≫= λ b : bool,
      if b then f_modify (set_cwd (inode_id d)) ≫= λ _, mret 0 else mret (-1)
  | None => mret (-1)
  end).
Definition sys_chdir (path : Z) : M st Z := user_str path ≫= chdir_path.

Definition sys_unlinkat (fd path : Z) : M st Z :=
  if negb (fd =? AT_FDCWD) then mret (-1)
  else
    user_str path ≫= λ path,
    base_inode AT_FDCWD path true true ≫= λ r, bail r (λ base,
    d_run (unlink_file_at fs base path) ≫= λ b : bool, mret (if b then 0 else -1)).

Definition sys_linkat (fd oldpath newpath : Z) : M st Z :=
  if negb (fd =? AT_FDCWD) then mret (-1)
  else
    user_str oldpath ≫= λ oldpath, user_str newpath ≫= λ newpath,
    base_inode AT_FDCWD oldpath true true ≫= λ r, bail r (λ oldbase,
    base_inode AT_FDCWD newpath true true ≫= λ r, bail r (λ newbase,
    d_run (find fs oldbase oldpath) ≫= λ o : option Inode, bail (match o with Some i => inr i | None => inl (-1) end) (λ old_inode,
    let '(path, fname) := split_parent newpath in
    d_run (find fs newbase path) ≫= λ o : option Inode, bail (match o with Some i => inr i | None => inl (-1) end) (λ parent,
    d_run (link fs parent fname old_inode) ≫= λ o : option Inode, mret (match o with Some _ => 0 | None => -1 end))))).

(** The inode behind a descriptor of a file on disk. *)
Definition fd_inode (fd : Z) : M st (option Inode) :=
  f_gets fd_table ≫= λ t, f_gets objs ≫= λ os,
  match fd_get t fd with
  | Some o =>
      lift (unwrap (os !! o)) ≫= λ file,
      mret (match file with OSInode _ _ _ ino => Some (inode_at fs ino) | _ => None end)
  | None => mret None
  end.

Definition inode_stat (inode : Inode) : prog Stat :=
  vfs_is_dir inode ≫= λ d : bool,
  (if d then mret STAT_DIR else vfs_is_file inode ≫= λ f : bool, mret (if f then STAT_FILE else 0)) ≫= λ mode,
  get_size inode ≫= λ size, vfs_nlink inode ≫= λ nlink,
  mret (mkStat (inode_id inode) mode nlink size).

Definition sys_fstat (beyond : Z → Z) (fd ptr : Z) : M st Z :=
  fd_inode fd ≫= λ o,
  match o with
  | Some inode =>
      d_run (inode_stat inode) ≫= λ stat, user_token ≫= λ token,
      f_mem (translated_byte_buffer sfuel token ptr STAT_SZ) ≫= λ dst_vs,
      f_mem (copy_struct (stat_enc stat) beyond 0 dst_vs) ≫= λ _, mret 0
  | None => mret (-1)
  end.

Fixpoint write_dirents (token ptr cursor i : Z) (l : list (list Z * Inode)) : M st () :=
  match l with
  | [] => mret ()
  | (ename, inode) :: rest =>
      d_run (vfs_is_dir inode) ≫= λ d : bool,
      (if d then mret FT_DIR
       else d_run (vfs_is_file inode) ≫= λ f : bool, mret (if f then FT_REG else FT_UNKNOWN)) ≫= λ ftype,
      lift (dirent_enc ftype ename (u32 (cursor + i + 1))) ≫= λ bs,
      f_mem (write_struct token (u64 (ptr + i * DIRENT_LEN)) bs) ≫= λ _,
      write_dirents token ptr cursor (i + 1) rest
  end.
Definition sys_getdents (fd ptr len : Z) : M st Z :=
  user_token ≫= λ token, fd_inode fd ≫= λ o,
  match o with
  | Some file =>
      d_run (vfs_is_dir file) ≫= λ d : bool,
      if negb d then mret (-1)
      else
        f_mem (read_field 4 28 token (u64 (ptr + (len - 1) * DIRENT_LEN))) ≫= λ cursor,
        d_run (dirents fs file cursor) ≫= λ l,
        let nread := Z.min len (Z.of_nat (length l)) in
        write_dirents token ptr cursor 0 (take (Z.to_nat nread) l) ≫= λ _, mret nread
  | None => mret (-1)
  end.
End calls.

(** ** The calls act on the tree of files *)
Section specs.
Context (fs : EasyFileSystem) (nd ni : Z) (sfuel pfuel : nat).
Abbreviation st := (fstate (S := Disk)) (only parsing).
Implicit Types (s : st) (tr : gmap Z fnode).

(** A NUL-terminated ASCII string in the memory of the process. *)
Record user_string (s : st) (ptr : Z) (str : list Z) : Prop := {
  ut_table : ∃ l0, pt_inv l0 (page_table (fspace s)) (fmem s);
  ut_pages : ∀ p pg, mem (fmem s) !! p = Some pg → length pg = Z.to_nat PAGE_SIZE;
  ut_ascii : Forall (λ b, b < 128) str;
  ut_range : 0 ≤ ptr ∧ ptr + Z.of_nat (length str) < 2 ^ 39 - PAGE_SIZE;
  ut_bytes : cstr_at (mem (fmem s)) (root_ppn (page_table (fspace s))) ptr str;
}.

(** The disk of the process's file system represents [tr], and its current
    directory can be located. *)
Record on_tree (s : st) (tr : gmap Z fnode) (names : list (list Z)) : Prop := {
  ot_held : held (inodes s) = ∅;
  ot_rel : ∃ lay, fs_rel fs nd ni (blocks (inodes s)) lay tr;
  ot_cwd : located tr (cwd s) names;
  ot_fuel : (length names < pfuel)%nat;
}.

(** Where a path starts. *)
Definition base_of (s : st) (path : list Z) : Z := if starts_with_slash path then 0 else cwd s.

Lemma user_str_run s ptr str :
  user_string s ptr str → (length str < sfuel)%nat → user_str sfuel ptr s = Ok (str, s).
Proof.
  intros [[l0 Hpt] Hpg Hasc [Hp Hend] Hstr] Hf. unfold user_str, user_token.
  rewrite (M_bind_Ok _ _ _ _ _ eq_refl).
  rewrite (f_mem_Ok _ s str (fmem s)); [by rewrite set_mem_id|]. by eapply translated_str_spec.
Qed.

Lemma d_run_wp {A} (p : prog A) s Q :
  held (inodes s) = ∅ → wp p ∅ (blocks (inodes s)) Q →
  ∃ a m', d_run p s = Ok (a, set_inodes (mkDisk m' ∅) s) ∧ Q a m'.
Proof.
  intros Hh Hwp. destruct (run_wp p (inodes s) Q Hh Hwp) as (a & m' & Hr & HQ). exists a, m'. split; [|done].
  by apply f_inodes_Ok.
Qed.

(** A program that leaves the disk alone. *)
Lemma d_run_read {A} (p : prog A) s (P : A → Prop) :
  held (inodes s) = ∅ → wp p ∅ (blocks (inodes s)) (λ a m', P a ∧ m' = blocks (inodes s)) →
  ∃ a, d_run p s = Ok (a, s) ∧ P a.
Proof.
  intros Hh Hwp. destruct (d_run_wp p s _ Hh Hwp) as (a & m' & Hr & HP & ->). exists a. split; [|done].
  rewrite Hr. destruct s as [? [m h] ? ? ? ? ?]. simpl in *. by rewrite Hh.
Qed.

Lemma located_root tr d names : located tr d names → is_Some (tr !! 0).
Proof. induction 1 as [ents [k Hd]%dir_of_Some|]; eauto. Qed.

Lemma is_dir_run s lay tr d :
  held (inodes s) = ∅ → fs_rel fs nd ni (blocks (inodes s)) lay tr → is_Some (tr !! d) →
  d_run (vfs_is_dir (inode_at fs d)) s = Ok (match dir_of tr d with Some _ => true | None => false end, s).
Proof.
  intros Hh Hr [n Hn]. destruct (rel_get fs nd ni _ lay tr d n Hr Hn) as (l & Hl & Hat & _ & Hk).
  pose proof Hat as [[(b & Hb & Hdec) Ho _] _ _ _ _ _].
  destruct (d_run_read (vfs_is_dir (inode_at fs d)) s (λ r, r = match dir_of tr d with Some _ => true | None => false end) Hh)
    as (r & Hrun & ->); [|done].
  eapply wp_read; [split_and!; [exact Hb|set_solver|by apply Nat.ltb_lt]|apply Ho|done|apply Ho|].
  rewrite Hdec. apply wp_ret. split; [|done]. unfold dir_of. rewrite Hn. destruct n as [[bs|ents] k]; cbn in Hk; [|apply Hk].
  destruct (is_dir (l_di l)) eqn:Hd; [|done]. apply dir_not_file in Hd. destruct Hk. congruence.
Qed.

(** The directory a path starts at, absolute or relative. *)
Lemma base_inode_run s tr names path r w :
  on_tree s tr names → base_inode fs pfuel AT_FDCWD path r w s = Ok (inr (inode_at fs (base_of s path)), s).
Proof.
  intros [Hh [lay Hr] Hloc Hf]. unfold base_inode, base_of. destruct (starts_with_slash path); [done|].
  change (AT_FDCWD =? AT_FDCWD) with true. cbv iota. rewrite (M_bind_Ok _ _ s (cwd s) s eq_refl).
  destruct (d_run_read (name_for_inode fs pfuel (inode_at fs (cwd s))) s (λ p, p = or_root (join_path names)) Hh)
    as (p & Hp & ->).
  { unfold name_for_inode. apply wp_bind. eapply wp_mono; [by eapply name_for_inode_inner_spec|].
    intros x m' [-> ->]. by apply wp_ret. }
  rewrite (M_bind_Ok _ _ _ _ _ Hp).
  destruct (d_run_read (find_file fs (or_root (join_path names))) s (λ o, o = Some (inode_at fs (cwd s))) Hh) as (o & Ho & ->).
  { unfold find_file. assert (starts_with_slash (or_root (join_path names)) = true) as -> by (destruct names; done).
    cbn [assert liftp mbind prog_bind].
    eapply wp_mono; [eapply (find_spec fs nd ni); [exact Hr|by eapply located_root]|].
    intros o m' (-> & -> & _). by rewrite (located_resolves tr _ names Hloc). }
  rewrite (M_bind_Ok _ _ _ _ _ Ho). destruct (located_dir _ _ _ Hloc) as [ents Hd].
  rewrite (M_bind_Ok _ _ _ _ _ (is_dir_run s lay tr (cwd s) Hh Hr ltac:(apply dir_of_Some in Hd as [k ?]; eauto))), Hd. done.
Qed.

Lemma base_present s tr names path : on_tree s tr names → is_Some (tr !! base_of s path).
Proof.
  intros [_ _ Hloc _]. unfold base_of. destruct (starts_with_slash path); [by eapply located_root|].
  destruct (located_dir _ _ _ Hloc) as [ents [k Hd]%dir_of_Some]. eauto.
Qed.

(** [chdir] goes where the path leads, if that is a directory. *)
Lemma chdir_spec s tr names ptr path :
  on_tree s tr names → user_string s ptr path → (length path < sfuel)%nat →
  sys_chdir fs sfuel pfuel ptr s =
    match resolve_path tr (base_of s path) path with
    | Some d => match dir_of tr d with Some _ => Ok (0, set_cwd d s) | None => Ok (-1, s) end
    | None => Ok (-1, s)
    end.
Proof.
  intros Hot Hus Hf. unfold sys_chdir. rewrite (M_bind_Ok _ _ _ _ _ (user_str_run s ptr path Hus Hf)). unfold chdir_path.
  rewrite (M_bind_Ok _ _ _ _ _ (base_inode_run s tr names path true true Hot)). cbn [bail].
  pose proof Hot as [Hh [lay Hr] _ _].
  destruct (d_run_read (find fs (inode_at fs (base_of s path)) path) s
    (λ o, o = inode_at fs <$> resolve_path tr (base_of s path) path ∧
      ∀ c, resolve_path tr (base_of s path) path = Some c → is_Some (tr !! c)) Hh) as (o & Ho & -> & Hin).
  { eapply wp_mono; [eapply (find_spec fs nd ni); [exact Hr|by eapply base_present]|]. by intros o m' (-> & -> & Hin). }
  rewrite (M_bind_Ok _ _ _ _ _ Ho). destruct (resolve_path tr (base_of s path) path) as [d|]; cbn [fmap option_fmap option_map]; [|done].
  rewrite (M_bind_Ok _ _ _ _ _ (is_dir_run s lay tr d Hh Hr (Hin d eq_refl))). by destruct (dir_of tr d).
Qed.

(** [unlinkat] removes the name the path ends in. *)
Lemma unlinkat_spec s tr names ptr path :
  on_tree s tr names → user_string s ptr path → (length path < sfuel)%nat →
  ∃ b tr' lay' m', sys_unlinkat fs sfuel pfuel AT_FDCWD ptr s = Ok (if b : bool then 0 else -1, set_inodes (mkDisk m' ∅) s) ∧
    fs_rel fs nd ni m' lay' tr' ∧
    (b, tr') = match resolve_path tr (base_of s path) (split_parent path).1 with
               | Some p => t_unlink p (split_parent path).2 tr
               | None => (false, tr)
               end.
Proof.
  intros Hot Hus Hf. unfold sys_unlinkat. change (negb (AT_FDCWD =? AT_FDCWD)) with false. cbv iota.
  rewrite (M_bind_Ok _ _ _ _ _ (user_str_run s ptr path Hus Hf)).
  rewrite (M_bind_Ok _ _ _ _ _ (base_inode_run s tr names path true true Hot)). cbn [bail].
  pose proof Hot as [Hh [lay Hr] _ _].
  destruct (d_run_wp (unlink_file_at fs (inode_at fs (base_of s path)) path) s _ Hh
    (unlink_file_at_spec fs nd ni _ lay tr _ path Hr (base_present s tr names path Hot))) as (b & m' & Hrun & lay' & Hb).
  rewrite (M_bind_Ok _ _ _ _ _ Hrun). destruct (resolve_path tr (base_of s path) (split_parent path).1) as [p|].
  - destruct Hb as [-> Hr']. eexists _, _, lay', m'. split; [done|]. split; [done|]. by destruct (t_unlink p _ tr).
  - destruct Hb as [-> Hr']. by exists false, tr, lay', m'.
Qed.

Lemma openat_path_spec s tr names path flags d :
  on_tree s tr names → open_ok fs nd ni (blocks (inodes s)) tr (base_of s path) path (from_bits_truncate flags) → fd_rel s d →
  ∃ r tr' lay' m', open_spec tr (base_of s path) path (from_bits_truncate flags) r tr' ∧ fs_rel fs nd ni m' lay' tr' ∧
    (from_bits_truncate flags = 0 → m' = blocks (inodes s)) ∧
    match r with
    | Some f => ∃ n t, least_free d n ∧ openat_path fs pfuel AT_FDCWD path flags s =
        Ok (Z.of_nat n, mkF (fmem s) (mkDisk m' ∅) (<[next_obj s := f]> (objs s)) (next_obj s + 1) (fspace s) t (cwd s)) ∧
        ∀ fd, descriptor t fd = <[n := next_obj s]> d !! fd
    | None => openat_path fs pfuel AT_FDCWD path flags s = Ok (-1, set_inodes (mkDisk m' ∅) s)
    end.
Proof.
  intros Hot Hok Hfd. unfold openat_path. destruct (read_write (from_bits_truncate flags)) as [rd wr] eqn:Hrw.
  rewrite (M_bind_Ok _ _ _ _ _ (base_inode_run s tr names path rd wr Hot)). cbn [bail].
  pose proof Hot as [Hh [lay Hr] _ _].
  pose proof (open_file_at_spec fs nd ni _ lay tr _ path _ Hr (base_present s tr names path Hot) Hok) as Hwp.
  assert (wp (open_file_at fs (inode_at fs (base_of s path)) path (from_bits_truncate flags)) ∅ (blocks (inodes s))
    (λ _ m', from_bits_truncate flags = 0 → m' = blocks (inodes s))) as Hro.
  { destruct (decide (from_bits_truncate flags = 0)) as [E|E]; [|by eapply wp_mono; [exact Hwp|]; intros].
    rewrite E. eapply wp_mono; [eapply open_file_at_readonly; [exact Hr|by eapply base_present]|]. done. }
  destruct (d_run_wp _ s _ Hh (wp_and _ _ _ _ _ Hwp Hro)) as (r & m' & Hrun & (lay' & tr' & Hsp & Hr') & Hsame).
  exists r, tr', lay', m'. split; [done|]. split; [done|]. split; [exact Hsame|]. rewrite (M_bind_Ok _ _ _ _ _ Hrun).
  destruct r as [f|]; [|done].
  set (s1 := mkF (fmem s) (mkDisk m' ∅) (<[next_obj s := f]> (objs s)) (next_obj s + 1) (fspace s) (fd_table s) (cwd s)).
  assert (new_obj f (set_inodes (mkDisk m' ∅) s) = Ok (next_obj s, s1)) as Hnew by done.
  rewrite (M_bind_Ok _ _ _ _ _ Hnew).
  destruct (install_spec (next_obj s) s1 d Hfd) as (n & t & Hin & Hlf & Hrel). exists n, t.
  split; [done|]. rewrite (M_bind_Ok _ _ _ _ _ Hin). split; [done|]. exact Hrel.
Qed.
End specs.

(** C10 Opening a file by path.  With the path in user memory, absolute or relative
    to the current directory, [openat] opens (or creates, or empties) the file
    that the tree of files has there, puts a new object at the lowest free
    descriptor, and returns it; when there is no such file it returns -1.  User
    memory and the other descriptors stay as they were. *)
Theorem openat_correct fs nd ni sfuel pfuel s tr names ptr path flags d :
  on_tree fs nd ni pfuel s tr names → user_string s ptr path → (length path < sfuel)%nat →
  open_ok fs nd ni (blocks (inodes s)) tr (base_of s path) path (from_bits_truncate flags) → fd_rel s d →
  ∃ r tr' lay' m', open_spec tr (base_of s path) path (from_bits_truncate flags) r tr' ∧ fs_rel fs nd ni m' lay' tr' ∧
    match r with
    | Some f => ∃ n t, least_free d n ∧ sys_openat fs sfuel pfuel AT_FDCWD ptr flags s =
        Ok (Z.of_nat n, mkF (fmem s) (mkDisk m' ∅) (<[next_obj s := f]> (objs s)) (next_obj s + 1) (fspace s) t (cwd s)) ∧
        ∀ fd, descriptor t fd = <[n := next_obj s]> d !! fd
    | None => sys_openat fs sfuel pfuel AT_FDCWD ptr flags s = Ok (-1, set_inodes (mkDisk m' ∅) s)
    end.
Proof.
  intros Hot Hus Hf Hok Hfd. unfold sys_openat. rewrite (M_bind_Ok _ _ _ _ _ (user_str_run sfuel s ptr path Hus Hf)).
  destruct (openat_path_spec fs nd ni pfuel s tr names path flags d Hot Hok Hfd) as (r & tr' & lay' & m' & H1 & H2 & _ & H3).
  by exists r, tr', lay', m'.
Qed.

(** ** A process whose memory holds ["abc"] across a page boundary *)
Module CallDemo.
Import FsSpec.FsDemo PathDemo.

Definition abc : list Z := [97; 98; 99].
Definition proc_on (b : bmap) (c : Z) : fstate (S := Disk) :=
  mkF Demo.st (mkDisk b ∅) {[0 := Stdin; 1 := OSInode true false 0 0]} 2 (mkMS Demo.pt []) [Some 0; None; Some 1] c.

Lemma abc_string b c : user_string (proc_on b c) 4094 abc.
Proof.
  split.
  - exists 5. apply Demo.demo_inv.
  - apply Demo.demo_pages.
  - repeat constructor; lia.
  - unfold PAGE_SIZE. simpl. lia.
  - split; [repeat constructor; lia|].
    intros i Hi. simpl in Hi. do 4 (destruct i as [|i]; [vm_compute; reflexivity|]). lia.
Qed.

Lemma abc_name : name_ok abc.
Proof. split; [by repeat constructor|by repeat constructor|reflexivity|simpl; lia]. Qed.

Lemma hi_on_tree : on_tree small_fs 30 8 2 (proc_on sub_disk 1) sub_tree [hi].
Proof. split; [done|exact sub_rel|exact hi_located|apply Nat.ltb_lt; reflexivity]. Qed.

Lemma hi_room : create_room small_fs 30 8 sub_disk [([46], 1); ([46; 46], 0)] Layout.File.
Proof.
  split_and!.
  - split_and!; [simpl; lia|apply Nat.leb_le; reflexivity|apply Nat.leb_le; vm_compute; reflexivity].
  - apply Nat.leb_le. vm_compute. reflexivity.
  - exists 2. split; [lia|vm_compute; reflexivity].
Qed.

Lemma proc_fds b c : fd_rel (proc_on b c) {[0%nat := 0; 2%nat := 1]}.
Proof.
  intros fd. do 3 (destruct fd as [|fd]; [reflexivity|]). symmetry. rewrite lookup_insert_ne by lia.
  by rewrite lookup_singleton_ne by lia.
Qed.

(** ["abc"] relative to ["/hi"]: the file is made there, at descriptor 1. *)
Lemma openat_correct_witness :
  ∃ r tr', open_spec sub_tree 1 abc (CREATE + RDRW) r tr' ∧
    match r with
    | Some f => ∃ n t m', least_free {[0%nat := 0; 2%nat := 1]} n ∧
        sys_openat small_fs 4 2 AT_FDCWD 4094 (CREATE + RDRW) (proc_on sub_disk 1) =
        Ok (Z.of_nat n, mkF Demo.st (mkDisk m' ∅) (<[2 := f]> (objs (proc_on sub_disk 1))) 3 (mkMS Demo.pt []) t 1)
    | None => True
    end.
Proof.
  destruct (openat_correct small_fs 30 8 4 2 (proc_on sub_disk 1) sub_tree [hi] 4094 abc (CREATE + RDRW) {[0%nat := 0; 2%nat := 1]})
    as (r & tr' & lay' & m' & Hsp & _ & Hr).
  - apply hi_on_tree.
  - apply abc_string.
  - simpl. lia.
  - intros _ p Hp _. assert (resolve_path sub_tree 1 [46] = Some 1) as Hd by (vm_compute; reflexivity).
    change (resolve_path sub_tree 1 [46] = Some p) in Hp. rewrite Hd in Hp. injection Hp as <-.
    split; [apply abc_name|]. exists [([46], 1); ([46; 46], 0)]. split; [vm_compute; reflexivity|apply hi_room].
  - apply proc_fds.
  - exists r, tr'. split; [exact Hsp|]. destruct r as [f|]; [|exact I].
    destruct Hr as (n & t & Hl & Hrun & _). exists n, t, m'. split; [exact Hl|exact Hrun].
Defined.
Example openat_runs :
  match sys_openat small_fs 4 2 AT_FDCWD 4094 (CREATE + RDRW) (proc_on sub_disk 1) with
  | Ok (r, s) => r = 1 ∧ objs s !! 2 = Some (OSInode true true 0 2)
  | Err _ => False
  end.
Proof. vm_compute. done. Qed.

(** [getcwd] into a buffer that crosses a page: the offset of the second piece
    is taken as a multiple of its own length, here past the end of ["/hi"]. *)
Lemma getcwd_across_pages_panics : sys_getcwd small_fs 4 2 4094 4 (proc_on sub_disk 1) = Err Panicked.
Proof. vm_compute. reflexivity. Qed.

(** Within a page it writes the path without the terminating NUL it makes room for. *)
Lemma getcwd_without_nul :
  match sys_getcwd small_fs 4 2 4090 5 (proc_on sub_disk 1) with
  | Ok (r, s) => r = 0 ∧ (λ pg : page, slice 4090 5 pg) <$> (mem (fmem s) !! 200) = Some [47; 104; 105; 0; 97]
  | Err _ => False
  end.
Proof. vm_compute. done. Qed.

(** [fstat] into a structure that crosses a page: the bytes after the boundary
    are not those of the structure (the size is read from what follows it in
    kernel memory). *)
Lemma fstat_across_pages :
  match sys_fstat small_fs 4 (λ _, 255) 2 4088 (proc_on disk 0) with
  | Ok (r, s) => r = 0 ∧ (λ pg : page, slice 0 16 pg) <$> (mem (fmem s) !! 201) ≠
      Some (slice 8 16 (stat_enc (mkStat 0 STAT_DIR 1 0)))
  | Err _ => False
  end.
Proof. vm_compute. split; [done|congruence]. Qed.
End CallDemo.
