(* ===== verification/Shell.v ===== *)
(** * The shell: reading and parsing a line (user/src/bin/user_shell.rs:
      ProcessArguments, Completer, the line editor of main, clear_console_ch)

    A string is its list of characters; the editor pushes one character per
    byte it reads, so characters are below 256.  Command lines round-trip
    through the parser, and what the terminal shows is the line that is read. *)
From S2P Require Import Prelude Bytes.

Definition BS : Z := 0x08.
Definition HT : Z := 0x09.
Definition LF : Z := 0x0a.
Definition CR : Z := 0x0d.
Definition DL : Z := 0x7f.
Definition PROMPT : list Z := [62; 62; 32].

(** ** Strings of the standard library *)

(** [char::is_ascii_whitespace] and, for characters below 256, [char::is_whitespace] *)
Definition is_ascii_whitespace (c : Z) : bool := (c =? 9) || (c =? 10) || (c =? 12) || (c =? 13) || (c =? 32).
Definition is_whitespace (c : Z) : bool := ((9 <=? c) && (c <=? 13)) || (c =? 32) || (c =? 133) || (c =? 160).

(** [str::split] by a character *)
Fixpoint split (p : Z → bool) (s : list Z) : list (list Z) :=
  match s with
  | [] => [[]]
  | c :: rest =>
      if p c then [] :: split p rest
      else match split p rest with w :: ws => (c :: w) :: ws | [] => [[c]] end
  end.
Definition nonempty (w : list Z) : bool := match w with [] => false | _ => true end.
Definition split_ascii_whitespace (s : list Z) : list (list Z) := filter (λ w, nonempty w) (split is_ascii_whitespace s).
(** [str::split_once] *)
Fixpoint split_once (p : Z → bool) (s : list Z) : option (list Z * list Z) :=
  match s with
  | [] => None
  | c :: rest => if p c then Some ([], rest) else match split_once p rest with Some (a, b) => Some (c :: a, b) | None => None end
  end.
Fixpoint trim_start (p : Z → bool) (s : list Z) : list Z :=
  match s with [] => [] | c :: rest => if p c then trim_start p rest else s end.
Definition trim_end (p : Z → bool) (s : list Z) : list Z := reverse (trim_start p (reverse s)).
Definition trim (s : list Z) : list Z := trim_end is_whitespace (trim_start is_whitespace s).
Fixpoint starts_with (s pre : list Z) : bool :=
  match pre, s with
  | [], _ => true
  | p :: pre, c :: s => (c =? p) && starts_with s pre
  | _ :: _, [] => false
  end.
(** [str::len] counts bytes *)
Definition str_len (s : list Z) : nat := sum_list ((λ c, if c <? 128 then 1%nat else 2%nat) <$> s).

(** ** Commands *)
Record ProcessArguments := mkPA {
  input : list Z;
  output : list Z;
  args : list (list Z);
  args_addr : list (option nat);
}.

(** [s.push('\0')] *)
Definition with_nul (arg : list Z) : list Z := arg ++ [0].

(** A redirection: the word after the first [sym] names the file. *)
Definition take_redirect (sym : list Z) (args : list (list Z)) : outcome (list Z * list (list Z)) :=
  match list_find (λ arg, arg = sym) args with
  | Some (idx, _) => file ← unwrap (args !! S idx); Ok (file, take idx args ++ drop (S (S idx)) args)
  | None => Ok ([], args)
  end.

(** The addresses passed to [exec]: one per argument, then a null pointer. *)
Definition addresses (args : list (list Z)) : list (option nat) := (Some <$> seq 0 (length args)) ++ [None].

Definition process_arguments_new (cmd : list Z) : outcome ProcessArguments :=
  let args := with_nul <$> split_ascii_whitespace cmd in
  '(input, args) ← take_redirect [60; 0] args;
  '(output, args) ← take_redirect [62; 0] args;
  Ok (mkPA input output args (addresses args)).

Fixpoint parse_all (cmds : list (list Z)) : outcome (list ProcessArguments) :=
  match cmds with
  | [] => Ok []
  | cmd :: rest => pa ← process_arguments_new cmd; pas ← parse_all rest; Ok (pa :: pas)
  end.
Definition parse_pipeline (input : list Z) : outcome (list ProcessArguments) := parse_all (split (λ c, c =? 124) input).

(** The check of the pipe chain: position [i] of [n]. *)
Definition position_ok (n i : nat) (pa : ProcessArguments) : bool :=
  if (i =? 0)%nat then negb (nonempty (output pa))
  else if (i =? n - 1)%nat then negb (nonempty (input pa))
  else negb (nonempty (input pa)) && negb (nonempty (output pa)).
Definition chain_valid (pas : list ProcessArguments) : bool :=
  (length pas =? 1)%nat || forallb (λ '(i, pa), position_ok (length pas) i pa) (imap pair pas).

(** ** The line editor *)

(** [Completer]: candidates in the order of the set. *)
Definition hint_for (can : list (list Z)) (s : list Z) : list (list Z) := filter (λ v, starts_with v s) can.

(** [clear_console_ch] *)
Fixpoint clear_console_ch (n : nat) : list Z :=
  match n with O => [] | S n => [BS; 32; BS] ++ clear_console_ch n end.

(** The loop over the hints: where it is, and the lengths it started from. *)
Record completion := mkComp { hints : list (list Z); hint_no : nat; par_len : nat; line_end : nat }.
Definition hint_rest (k : completion) : list Z := drop (par_len k) (nth (hint_no k) (hints k) []).
Definition next_hint (k : completion) : completion :=
  mkComp (hints k) (Nat.modulo (S (hint_no k)) (length (hints k))) (par_len k) (line_end k).

Record editor := mkEd { line : list Z; completing : option completion }.

(** What a key does: what is printed, the editor, the line when it is entered. *)
Abbreviation key_result := (list Z * editor * option (list Z))%type (only parsing).

(** A tab starts the completion of the last word. *)
Definition key_tab (can : list (list Z)) (l : list Z) : key_result :=
  match last (split_ascii_whitespace l) with
  | None => ([], mkEd l None, None)
  | Some par_input =>
      match hint_for can par_input with
      | [] => ([], mkEd l None, None)
      | hs =>
          let k := mkComp hs 0 (length par_input) (length l) in
          (hint_rest k, mkEd (l ++ hint_rest k) (Some k), None)
      end
  end.
Definition key_erase (l : list Z) : key_result :=
  match l with
  | [] => ([], mkEd l None, None)
  | _ => (clear_console_ch 1, mkEd (removelast l) None, None)
  end.
(** One character outside the completion loop *)
Definition key_normal (can : list (list Z)) (c : Z) (l : list Z) : key_result :=
  if c =? HT then key_tab can l
  else if (c =? LF) || (c =? CR) then ([LF], mkEd l None, Some l)
  else if (c =? BS) || (c =? DL) then key_erase l
  else ([c], mkEd (l ++ [c]) None, None).
Definition key (can : list (list Z)) (c : Z) (e : editor) : key_result :=
  match completing e with
  | Some k =>
      if c =? HT then
        let k' := next_hint k in
        (clear_console_ch (str_len (hint_rest k)) ++ hint_rest k', mkEd (take (line_end k) (line e) ++ hint_rest k') (Some k'), None)
      else key_normal can c (line e)
  | None => key_normal can c (line e)
  end.

Fixpoint type_keys (can : list (list Z)) (keys : list Z) (e : editor) : list Z * editor :=
  match keys with
  | [] => ([], e)
  | c :: rest =>
      let '(out, e', _) := key can c e in
      let '(out', e'') := type_keys can rest e' in (out ++ out', e'')
  end.

(** ** Splitting *)
Lemma split_cons p s : ∃ w ws, split p s = w :: ws.
Proof. destruct s as [|c s]; simpl; [eauto|]. destruct (p c); [eauto|]. destruct (split p s); eauto. Qed.
Lemma split_app p a c b : p c = true → split p (a ++ c :: b) = split p a ++ split p b.
Proof.
  intros Hc. induction a as [|x a IH]; simpl; [by rewrite Hc|].
  destruct (p x); [by rewrite IH|]. rewrite IH. by destruct (split_cons p a) as (w & ws & ->).
Qed.
Lemma split_word p w : Forall (λ c, p c = false) w → split p w = [w].
Proof. induction 1 as [|c w Hc _ IH]; simpl; [done|]. by rewrite Hc, IH. Qed.
Lemma split_blank p g s :
  Forall (λ c, p c = true) g → filter (λ w, nonempty w) (split p (g ++ s)) = filter (λ w, nonempty w) (split p s).
Proof. induction 1 as [|c g Hc _ IH]; cbn [app split]; [done|]. rewrite Hc, filter_cons_False; [done|by intros []]. Qed.

(** ** Command lines as text *)
Definition blank (g : list Z) : Prop := Forall (λ c, is_ascii_whitespace c = true) g.
Definition word (w : list Z) : Prop := w ≠ [] ∧ Forall (λ c, is_ascii_whitespace c = false ∧ c ≠ 124) w.

(** A line with these words, separated by white space. *)
Inductive spaced : list (list Z) → list Z → Prop :=
| sp_nil g : blank g → spaced [] g
| sp_last g w g' : blank g → word w → blank g' → spaced [w] (g ++ w ++ g')
| sp_cons g w c ws s : blank g → word w → is_ascii_whitespace c = true → spaced ws s → spaced (w :: ws) (g ++ w ++ c :: s).

Lemma word_split w : word w → split is_ascii_whitespace w = [w].
Proof. intros [_ Hw]. apply split_word. eapply Forall_impl; [exact Hw|]. by intros c []. Qed.
Lemma word_nonempty w : word w → nonempty w = true.
Proof. intros [Hne _]. by destruct w. Qed.

Lemma blank_words g : blank g → split_ascii_whitespace g = [].
Proof.
  intros Hg. unfold split_ascii_whitespace. rewrite <- (app_nil_r g), split_blank by done. done.
Qed.

Lemma word_then w s : word w → filter (λ w, nonempty w) ([w] ++ s) = w :: filter (λ w, nonempty w) s.
Proof. intros Hw. rewrite filter_app, filter_cons_True by (by rewrite word_nonempty). done. Qed.

Lemma spaced_words ws s : spaced ws s → split_ascii_whitespace s = ws.
Proof.
  induction 1 as [g Hg|g w g' Hg Hw Hg'|g w c ws s Hg Hw Hc _ IH]; [by apply blank_words|..];
    unfold split_ascii_whitespace; rewrite split_blank by done.
  - destruct g' as [|c g']; [by rewrite app_nil_r, (word_split w Hw), <- (app_nil_r [w]), word_then|].
    apply Forall_cons in Hg' as [Hc Hg']. rewrite split_app, (word_split w Hw), word_then by done.
    f_equal. by apply blank_words.
  - rewrite split_app, (word_split w Hw), word_then by done. by f_equal.
Qed.

Lemma spaced_no_bar ws s : spaced ws s → Forall (λ c, (c =? 124) = false) s.
Proof.
  assert (∀ g, blank g → Forall (λ c, (c =? 124) = false) g) as Hb.
  { intros g Hg. eapply Forall_impl; [exact Hg|]. intros c Hc. simpl in Hc. apply Z.eqb_neq. by intros ->. }
  assert (∀ w, word w → Forall (λ c, (c =? 124) = false) w) as Hw.
  { intros w [_ H]. eapply Forall_impl; [exact H|]. intros c [_ ?]. by apply Z.eqb_neq. }
  induction 1 as [g Hg|g w g' Hg Hwd Hg'|g w c ws s Hg Hwd Hc _ IH]; [auto|by rewrite !Forall_app; auto|].
  rewrite !Forall_app, Forall_cons. split_and!; auto. apply Z.eqb_neq. by intros ->.
Qed.

(** A command: its words, and the files it reads from and writes to ([[]]: none). *)
Record command := mkCmd { c_words : list (list Z); c_in : list Z; c_out : list Z }.
Definition plain (w : list Z) : Prop := w ≠ [60] ∧ w ≠ [62].
Definition command_ok (c : command) : Prop :=
  Forall plain (c_words c) ∧ plain (c_in c) ∧ plain (c_out c).
Definition redirect (sym : Z) (f : list Z) : list (list Z) := if nonempty f then [[sym]; f] else [].
Definition tokens (c : command) : list (list Z) := c_words c ++ redirect 60 (c_in c) ++ redirect 62 (c_out c).
Definition nul_if (f : list Z) : list Z := if nonempty f then with_nul f else [].
Definition pa_of (c : command) : ProcessArguments :=
  mkPA (nul_if (c_in c)) (nul_if (c_out c)) (with_nul <$> c_words c) (addresses (with_nul <$> c_words c)).

Lemma with_nul_inj a b : with_nul a = with_nul b → a = b.
Proof. apply app_inj_2. done. Qed.

(** One redirection, anywhere after the words that come first. *)
Lemma take_redirect_spec sym pre f post :
  Forall (λ w, w ≠ [sym]) (pre ++ (if nonempty f then [] else post)) →
  take_redirect [sym; 0] (with_nul <$> (pre ++ redirect sym f ++ post)) =
    Ok (nul_if f, with_nul <$> (pre ++ post)).
Proof.
  intros Hpre. assert (∀ l, Forall (λ w, w ≠ [sym]) l → list_find (λ arg, arg = [sym; 0]) (with_nul <$> l) = None) as Hnone.
  { intros l Hl. apply list_find_None, Forall_fmap. eapply Forall_impl; [exact Hl|].
    intros w Hw H. apply Hw. change [sym; 0] with (with_nul [sym]) in H. by apply with_nul_inj. }
  unfold take_redirect, redirect, nul_if. destruct (nonempty f); simpl.
  - rewrite app_nil_r in Hpre. rewrite !fmap_app. simpl.
    rewrite (list_find_app_r (λ arg, arg = [sym; 0])) by (by apply Hnone). simpl.
    rewrite decide_True by done. cbn [fmap option_fmap option_map prod_map fst snd].
    rewrite length_fmap, Nat.add_0_l. rewrite lookup_app_r by (rewrite length_fmap; lia).
    rewrite length_fmap, Nat.sub_succ_l, Nat.sub_diag by lia. simpl. do 2 f_equal.
    rewrite take_app_length' by (by rewrite length_fmap). rewrite drop_app_ge by (rewrite length_fmap; lia).
    rewrite length_fmap. replace (S (S (length pre)) - length pre)%nat with 2%nat by lia. done.
  - rewrite Hnone by done. done.
Qed.

Lemma parse_command c s : command_ok c → spaced (tokens c) s → process_arguments_new s = Ok (pa_of c).
Proof.
  intros (Hw & Hi & Ho) Hs. unfold process_arguments_new. rewrite (spaced_words _ _ Hs). unfold tokens.
  rewrite take_redirect_spec.
  2: { apply Forall_app. split; [eapply Forall_impl; [exact Hw|]; by intros w []|].
       destruct (nonempty (c_in c)); [done|]. unfold redirect. destruct (nonempty (c_out c)); [|done].
       repeat constructor; [done|apply Ho]. }
  cbn [mbind outcome_bind]. rewrite <- (app_nil_r (redirect 62 (c_out c))), take_redirect_spec; [by rewrite app_nil_r|].
  destruct (nonempty (c_out c)); rewrite app_nil_r; (eapply Forall_impl; [exact Hw|]; by intros w []).
Qed.

(** Lines joined by bars. *)
Fixpoint join_bar (l : list (list Z)) : list Z :=
  match l with [] => [] | [s] => s | s :: rest => s ++ 124 :: join_bar rest end.
Lemma split_join_bar l :
  l ≠ [] → Forall (Forall (λ c, (c =? 124) = false)) l → split (λ c, c =? 124) (join_bar l) = l.
Proof.
  intros Hne Hl. induction l as [|s l IH]; [done|]. apply Forall_cons in Hl as [Hs Hl].
  destruct l as [|s' l]; [by apply split_word|]. change (join_bar (s :: s' :: l)) with (s ++ 124 :: join_bar (s' :: l)).
  rewrite split_app by done. rewrite IH by done. by rewrite (split_word _ s Hs).
Qed.

(** C36 A command line is parsed to the commands it was written from: for any
    commands, any white space between their words, and redirections after them,
    the words, the files and the addresses for [exec] come back. *)
Theorem parse_pipeline_roundtrip cmds lines :
  cmds ≠ [] → Forall2 (λ c s, command_ok c ∧ spaced (tokens c) s) cmds lines →
  parse_pipeline (join_bar lines) = Ok (pa_of <$> cmds).
Proof.
  intros Hne Hl. unfold parse_pipeline. rewrite split_join_bar.
  - clear Hne. induction Hl as [|c s cmds lines [Hc Hs] _ IH]; [done|]. simpl. by rewrite (parse_command c s Hc Hs), IH.
  - by destruct Hl.
  - clear Hne. induction Hl as [|c s cmds lines [_ Hs] _ IH]; constructor; [by eapply spaced_no_bar|done].
Qed.

(** The check accepts exactly the chains in which only the first command reads
    from a file and only the last one writes to a file, and single commands. *)
Lemma chain_valid_spec pas :
  chain_valid pas = true ↔
    length pas = 1%nat ∨
    ∀ i pa, pas !! i = Some pa → (output pa ≠ [] → i ≠ 0%nat ∧ i = (length pas - 1)%nat) ∧ (input pa ≠ [] → i = 0%nat).
Proof.
  unfold chain_valid. rewrite orb_true_iff, Nat.eqb_eq, forallb_forall.
  assert (∀ l : list Z, negb (nonempty l) = true ↔ l = []) as Hn by (by intros []).
  split; (intros [H|H]; [by left|right]).
  - intros i pa Hi. assert (In (i, pa) (imap pair pas)) as Hin.
    { apply list_elem_of_In, list_elem_of_lookup. exists i. by rewrite list_lookup_imap, Hi. }
    apply H in Hin. unfold position_ok in Hin. destruct (Nat.eqb_spec i 0) as [->|Hi0]; [apply Hn in Hin; by rewrite Hin|].
    destruct (Nat.eqb_spec i (length pas - 1)) as [Hl|Hl]; [apply Hn in Hin; by rewrite Hin|].
    apply andb_true_iff in Hin as [H1%Hn H2%Hn]. by rewrite H1, H2.
  - intros [i pa] Hin. apply list_elem_of_In, list_elem_of_lookup in Hin as [j Hj]. rewrite list_lookup_imap in Hj.
    destruct (pas !! j) as [x|] eqn:Hx; simpl in Hj; [|done]. injection Hj as <- <-. destruct (H j x Hx) as [Ho Hi].
    unfold position_ok. destruct (Nat.eqb_spec j 0) as [->|Hj0].
    + apply Hn. destruct (decide (output x = [])) as [|Hne]; [done|]. destruct (Ho Hne). lia.
    + assert (input x = []) as Hix by (destruct (decide (input x = [])) as [|Hne]; [done|]; by apply Hi in Hne).
      destruct (Nat.eqb_spec j (length pas - 1)) as [|Hl]; [by apply Hn|].
      apply andb_true_iff. split; apply Hn; [done|]. destruct (decide (output x = [])) as [|Hne]; [done|]. destruct (Ho Hne). lia.
Qed.

(** ** The terminal

    One row of cells and a cursor: a backspace moves left, any other character
    is written over the cell. *)
Record term := mkTerm { cells : list Z; cursor : nat }.
Definition term_put (t : term) (c : Z) : term :=
  if c =? BS then mkTerm (cells t) (cursor t - 1)
  else mkTerm (take (cursor t) (cells t) ++ [c] ++ drop (S (cursor t)) (cells t)) (S (cursor t)).
Definition term_print (t : term) (out : list Z) : term := foldl term_put t out.

(** The row reads [txt], with blanks after the cursor. *)
Definition shows (t : term) (txt : list Z) : Prop := (∃ k, cells t = txt ++ replicate k 32) ∧ cursor t = length txt.

Definition printable (c : Z) : Prop := 32 ≤ c < 127.

Lemma shows_put t txt c : shows t txt → c ≠ BS → shows (term_put t c) (txt ++ [c]).
Proof.
  intros [[k Hk] Hc] Hne. unfold term_put. rewrite (proj2 (Z.eqb_neq c BS)) by done. split; simpl.
  - exists (k - 1)%nat. rewrite Hk, Hc, take_app_length, drop_app_ge by lia.
    replace (S (length txt) - length txt)%nat with 1%nat by lia. by rewrite drop_replicate, <- app_assoc.
  - rewrite Hc, length_app. simpl. lia.
Qed.

Lemma shows_print t txt out : shows t txt → Forall printable out → shows (term_print t out) (txt ++ out).
Proof.
  intros Ht Hout. revert t txt Ht. induction Hout as [|c out Hc _ IH]; intros t txt Ht; simpl; [by rewrite app_nil_r|].
  rewrite (cons_middle c txt out), app_assoc. apply IH, shows_put; [done|]. unfold printable, BS in *. lia.
Qed.

(** [clear_console_ch] takes the last characters off the row. *)
Lemma shows_clear t txt w : shows t (txt ++ w) → shows (term_print t (clear_console_ch (length w))) txt.
Proof.
  revert t txt. induction w as [|c w IH] using rev_ind; intros t txt; [by rewrite app_nil_r|].
  rewrite length_app, Nat.add_comm, app_assoc. intros [[k Hk] Hc]. simpl. apply IH.
  rewrite length_app in Hc. simpl in Hc. split; simpl.
  - exists (S k). rewrite Hk, Hc, Nat.add_sub. rewrite <- app_assoc. rewrite take_app_length, drop_app_ge by lia.
    replace (S (length (txt ++ w)) - length (txt ++ w))%nat with 1%nat by lia. done.
  - rewrite Hc. lia.
Qed.

Lemma term_print_app t a b : term_print t (a ++ b) = term_print (term_print t a) b.
Proof. apply foldl_app. Qed.

Lemma str_len_ascii s : Forall printable s → str_len s = length s.
Proof.
  unfold str_len. induction 1 as [|c s Hc _ IH]; [done|]. unfold printable in Hc. rewrite fmap_cons. cbn [sum_list length].
  rewrite (proj2 (Z.ltb_lt c 128)), IH by lia. done.
Qed.

(** The editor: in the completion loop the line ends in the rest of a hint. *)
Record editor_ok (can : list (list Z)) (e : editor) : Prop := {
  eo_line : Forall printable (line e);
  eo_comp : ∀ k, completing e = Some k →
    (∃ base, line e = base ++ hint_rest k ∧ length base = line_end k) ∧ Forall (λ h, h ∈ can) (hints k);
}.

Lemma hint_rest_printable can k :
  Forall (Forall printable) can → Forall (λ h, h ∈ can) (hints k) → Forall printable (hint_rest k).
Proof.
  intros Hcan Hh. unfold hint_rest. apply Forall_drop. destruct (nth_in_or_default (hint_no k) (hints k) []) as [Hin|Hd]; [|by rewrite Hd].
  apply list_elem_of_In in Hin. rewrite Forall_forall in Hh, Hcan. by apply Hcan, Hh.
Qed.

(** Keys that edit the line. *)
Definition edit_key (c : Z) : Prop := printable c ∨ c = BS ∨ c = DL ∨ c = HT.

Definition key_ok (can : list (list Z)) (t : term) (r : key_result) : Prop :=
  let '(out, e', _) := r in editor_ok can e' ∧ shows (term_print t out) (PROMPT ++ line e').

Lemma key_normal_ok can c l t :
  Forall (Forall printable) can → edit_key c → Forall printable l → shows t (PROMPT ++ l) → key_ok can t (key_normal can c l).
Proof.
  intros Hcan Hc Hl Ht. unfold key_normal, key_tab, key_erase. destruct (Z.eqb_spec c HT) as [->|HnHT].
  - destruct (last _) as [par|]; [|by split]. destruct (hint_for can par) as [|h hs] eqn:Hh; [by split|].
    set (k := mkComp (h :: hs) 0 (length par) (length l)).
    assert (Forall (λ h, h ∈ can) (hints k)) as Hin.
    { apply Forall_forall. intros x. change (hints k) with (h :: hs). rewrite <- Hh. unfold hint_for.
      by rewrite list_elem_of_filter; intros []. }
    pose proof (hint_rest_printable can k Hcan Hin) as Hr. split.
    + split; simpl; [by apply Forall_app|]. intros ? [= <-]. split; [by exists l|done].
    + cbn [line]. rewrite app_assoc. by apply shows_print.
  - destruct Hc as [Hp|Hc]; [|assert ((c =? LF) || (c =? CR) = false ∧ (c =? BS) || (c =? DL) = true) as [-> ->]].
    + unfold printable in Hp. rewrite !(proj2 (Z.eqb_neq c _)) by (unfold LF, CR, BS, DL; lia). simpl. split.
      * split; simpl; [|done]. apply Forall_app. split; [done|]. by apply Forall_singleton.
      * apply (shows_put t (PROMPT ++ l) c Ht). unfold BS. lia.
    + by destruct Hc as [->|[->| ->]].
    + destruct l as [|x l' _] using rev_ind; [by split|].
      destruct (l' ++ [x]) as [|y ys] eqn:E; [by destruct l'|]. rewrite <- E in *. clear E. rewrite removelast_last. split.
      * split; simpl; [|done]. by apply Forall_app in Hl as [Hl _].
      * apply (shows_clear t (PROMPT ++ l') [x]). by rewrite <- app_assoc.
Qed.

Lemma key_edits can c e t :
  Forall (Forall printable) can → edit_key c → editor_ok can e → shows t (PROMPT ++ line e) → key_ok can t (key can c e).
Proof.
  intros Hcan Hc [Hl Hk] Ht. unfold key. destruct (completing e) as [k|] eqn:He; [|by apply key_normal_ok].
  destruct (Z.eqb_spec c HT) as [->|_]; [|by apply key_normal_ok].
  destruct (Hk k eq_refl) as [(base & Hb & Hlen) Hin]. set (k' := next_hint k).
  pose proof (hint_rest_printable can k Hcan Hin) as Hr. pose proof (hint_rest_printable can k' Hcan Hin) as Hr'.
  rewrite Hb in *. rewrite <- Hlen, take_app_length. apply Forall_app in Hl as [Hbase _]. split.
  - split; simpl; [by apply Forall_app|]. intros ? [= <-]. split; [by exists base|done].
  - rewrite term_print_app, (str_len_ascii _ Hr). cbn [line]. rewrite app_assoc. apply shows_print; [|done].
    apply shows_clear. by rewrite <- app_assoc.
Qed.

Lemma type_keys_ok can keys e t out e' :
  Forall (Forall printable) can → Forall edit_key keys → editor_ok can e → shows t (PROMPT ++ line e) →
  type_keys can keys e = (out, e') → editor_ok can e' ∧ shows (term_print t out) (PROMPT ++ line e').
Proof.
  intros Hcan Hkeys. revert e t out e'. induction Hkeys as [|c keys Hc _ IH]; intros e t out e' He Ht; simpl; [by intros [= <- <-]|].
  pose proof (key_edits can c e t Hcan Hc He Ht) as Hk. destruct (key can c e) as [[o1 e1] ent]. destruct Hk as [He1 Ht1].
  destruct (type_keys can keys e1) as [o2 e2] eqn:Hr. intros [= <- <-]. rewrite term_print_app. by eapply IH.
Qed.

(** What you see is what you type.  After any keys, backspaces and completions,
    the terminal row is the prompt followed by the line the shell holds, blanks
    after it, and the cursor is at the end of the line. *)
Theorem screen_shows_line can keys out e :
  Forall (Forall printable) can → Forall edit_key keys → type_keys can keys (mkEd [] None) = (out, e) →
  shows (term_print (mkTerm [] 0) (PROMPT ++ out)) (PROMPT ++ line e).
Proof.
  intros Hcan Hkeys Hrun. rewrite term_print_app. eapply type_keys_ok; [done|done| |..|done].
  - split; [constructor|done].
  - split; [by exists 0%nat|done].
Qed.

(** ** Examples *)
Module ShellDemo.

Ltac solve_word := split; [discriminate|repeat constructor; discriminate].

(** ["cat <  a| wc x > b"] *)
Definition cmds : list command := [mkCmd [[99; 97; 116]] [97] []; mkCmd [[119; 99]; [120]] [] [98]].
Definition lines : list (list Z) := [[99; 97; 116; 32; 60; 32; 32; 97]; [32; 119; 99; 32; 120; 32; 62; 32; 98]].

Lemma cmds_written : Forall2 (λ c s, command_ok c ∧ spaced (tokens c) s) cmds lines.
Proof.
  repeat constructor; try discriminate.
  - apply (sp_cons [] [99; 97; 116] 32); [constructor|solve_word|reflexivity|].
    apply (sp_cons [] [60] 32); [constructor|solve_word|reflexivity|].
    apply (sp_last [32] [97] []); [repeat constructor|solve_word|constructor].
  - apply (sp_cons [32] [119; 99] 32); [repeat constructor|solve_word|reflexivity|].
    apply (sp_cons [] [120] 32); [constructor|solve_word|reflexivity|].
    apply (sp_cons [] [62] 32); [constructor|solve_word|reflexivity|].
    apply (sp_last [] [98] []); [constructor|solve_word|constructor].
Qed.

Lemma parse_pipeline_roundtrip_witness :
  parse_pipeline (join_bar lines) = Ok (pa_of <$> cmds) ∧ chain_valid (pa_of <$> cmds) = true.
Proof. split; [apply (parse_pipeline_roundtrip cmds lines); [discriminate|apply cmds_written]|reflexivity]. Defined.

(** ["l"], two tabs over the candidates ["list"] and ["ls"], a backspace *)
Definition can : list (list Z) := [[108; 105; 115; 116]; [108; 115]].
Definition typed : list Z * editor := type_keys can [108; HT; HT; BS; 120] (mkEd [] None).

Lemma screen_shows_line_witness :
  shows (term_print (mkTerm [] 0) (PROMPT ++ typed.1)) (PROMPT ++ line typed.2) ∧ line typed.2 = [108; 120].
Proof.
  split; [|reflexivity]. apply (screen_shows_line can [108; HT; HT; BS; 120] typed.1 typed.2).
  - repeat constructor; lia.
  - repeat apply Forall_cons_2; [..|apply Forall_nil_2]; unfold edit_key, printable, BS, DL, HT; lia.
  - reflexivity.
Defined.

(** A redirection without a file name indexes past the end of the words. *)
Lemma redirect_without_file_panics : process_arguments_new [99; 97; 116; 32; 60] = Err Panicked.
Proof. reflexivity. Qed.

(** After a space, a tab completes the word before the space, and puts the rest
    of the candidate after the space: ["l "] becomes ["l ist"]. *)
Lemma tab_after_space : line (type_keys can [108; 32; HT] (mkEd [] None)).2 = [108; 32; 105; 115; 116].
Proof. reflexivity. Qed.
End ShellDemo.
