(* ===== verification/Pipeline.v ===== *)
(** * The shell: running a line (user/src/bin/user_shell.rs: exec_builtin, the
      execution of a pipe chain in main)

    The shell makes a pipe between neighbours, forks a child per command,
    rewires descriptors 0 and 1 in the child, and closes every pipe end it does
    not need.  A fork is the copy of the descriptor table (OpenFiles.v); a child
    changes only its own table, and is followed up to its [exec].  The calls by
    path are the class [UserCalls]; PathCalls.v gives its instance. *)
From S2P Require Import Prelude Bytes FrameAllocator PageTable MemorySet AddressSpace BlockCache DiskLogic Efs Vfs FsTree.
From S2P Require Import FsData FsSpec OpenFiles DiskFiles Paths PathCalls Shell.

(** The user library's [open], [chdir] and [getcwd] (user/src/lib.rs). *)
Class UserCalls (T : Type) := {
  u_open : list Z → Z → M (@fstate T) Z;
  u_chdir : list Z → M (@fstate T) Z;
  u_getcwd : Z → M (@fstate T) (Z * list Z);
}.

(** How a child ends its part: it calls [exec], returns, or panics. *)
Inductive childres := Execs (args : list (list Z)) | Exits (code : Z) | ChildPanics.
Record child := mkChild { c_res : childres; c_fds : list (option Z) }.

Inductive message := UNKNOWN_BUILTIN | WRONG_NUM_ARGS | ErrorCd | ErrorPwd.
Inductive line_result := LEmpty | LBuiltin (printed : list Z) | LMessage (m : message) | LInvalid | LRan (cs : list child).

Definition RDONLY : Z := 0.
Definition OUT_FLAGS : Z := Z.lor WRONLY (Z.lor CREATE TRUNC).

Section run.
Context {T : Type} `{!UserCalls T}.
Abbreviation st := (@fstate T) (only parsing).

(** [close(target); assert_eq!(dup(fd), target)] *)
Definition dup_onto (target fd : Z) (k : M st childres) : M st childres :=
  sys_close target ≫= λ _, sys_dup fd ≫= λ n, if n =? target then k else mret ChildPanics.

(** Redirection to a file *)
Definition redirect_to (target flags : Z) (file : list Z) (k : M st childres) : M st childres :=
  if nonempty file then
    u_open file flags ≫= λ fd,
    if fd =? -1 then mret (Exits (-4))
    else dup_onto target fd (sys_close fd ≫= λ _, k)
  else k.

Fixpoint close_pipes (pipes_fd : list (nat * nat)) : M st () :=
  match pipes_fd with
  | [] => mret ()
  | (r, w) :: rest => sys_close (Z.of_nat r) ≫= λ _, sys_close (Z.of_nat w) ≫= λ _, close_pipes rest
  end.

(** Child [i] of [n], up to its [exec] *)
Definition pipe_in (i : nat) (pipes_fd : list (nat * nat)) (k : M st childres) : M st childres :=
  if (0 <? i)%nat then
    match pipes_fd !! (i - 1)%nat with
    | Some (read_end, _) => dup_onto 0 (Z.of_nat read_end) k
    | None => mret ChildPanics
    end
  else k.
Definition pipe_out (n i : nat) (pipes_fd : list (nat * nat)) (k : M st childres) : M st childres :=
  if (i <? n - 1)%nat then
    match pipes_fd !! i with
    | Some (_, write_end) => dup_onto 1 (Z.of_nat write_end) k
    | None => mret ChildPanics
    end
  else k.
Definition run_child (n i : nat) (pa : ProcessArguments) (pipes_fd : list (nat * nat)) : M st childres :=
  redirect_to 0 RDONLY (input pa) (
  redirect_to 1 OUT_FLAGS (output pa) (
  pipe_in i pipes_fd (
  pipe_out n i pipes_fd (
  close_pipes pipes_fd ≫= λ _, mret (match args pa with [] => ChildPanics | _ => Execs (args pa) end))))).

(** [fork], and what the child does in its copy of the table *)
Definition fork_child (n i : nat) (pa : ProcessArguments) (pipes_fd : list (nat * nat)) : M st child := λ s,
  '(t, s1) ← fork_fd_table (fd_table s) s;
  '(r, s2) ← run_child n i pa pipes_fd (set_fds t s1);
  Ok (mkChild r (fd_table s2), set_fds (fd_table s) s2).
Fixpoint fork_all (n i : nat) (pas : list ProcessArguments) (pipes_fd : list (nat * nat)) : M st (list child) :=
  match pas with
  | [] => mret []
  | pa :: rest => fork_child n i pa pipes_fd ≫= λ c, fork_all n (i + 1) rest pipes_fd ≫= λ cs, mret (c :: cs)
  end.

(** The ring buffer of a new pipe is named after its read end. *)
Fixpoint make_pipes (k : nat) : M st (list (nat * nat)) :=
  match k with
  | O => mret []
  | S k => f_gets next_obj ≫= λ b, install_pipe b ≫= λ p, make_pipes k ≫= λ ps, mret (p :: ps)
  end.
Definition run_pipeline (pas : list ProcessArguments) : M st (list child) :=
  make_pipes (length pas - 1) ≫= λ pipes_fd,
  fork_all (length pas) 0 pas pipes_fd ≫= λ children,
  close_pipes pipes_fd ≫= λ _, mret children.

Definition exec_builtin (cmd : list Z) (args : list (list Z)) : M st (message + list Z) :=
  let cmd := trim_end (λ c, c =? 0) cmd in
  if bool_decide (cmd = [99; 100]) then
    match args with
    | [] => u_chdir [47; 0] ≫= λ r, mret (if r =? -1 then inl ErrorCd else inr [])
    | [path] => u_chdir path ≫= λ r, mret (if r =? -1 then inl ErrorCd else inr [])
    | _ => mret (inl WRONG_NUM_ARGS)
    end
  else if bool_decide (cmd = [112; 119; 100]) then
    u_getcwd 256 ≫= λ '(r, path),
    if r =? -1 then mret (inl ErrorPwd)
    else lift (assert (utf8_ok path)) ≫= λ _, mret (inr path)
  else mret (inl UNKNOWN_BUILTIN).

(** A line that was entered *)
Definition handle_line (l : list Z) : M st line_result :=
  let input := trim l in
  if negb (nonempty input) then mret LEmpty
  else
    let '(cmd, args_str) := default (input, []) (split_once is_ascii_whitespace input) in
    exec_builtin cmd (with_nul <$> split_ascii_whitespace args_str) ≫= λ r,
    match r with
    | inr printed => mret (LBuiltin printed)
    | inl UNKNOWN_BUILTIN =>
        lift (parse_pipeline input) ≫= λ pas,
        if chain_valid pas then run_pipeline pas ≫= λ cs, mret (LRan cs) else mret LInvalid
    | inl m => mret (LMessage m)
    end.
End run.

(** What [open] promises: -1, or a new object of the asked access at the lowest
    free descriptor; without [CREATE] and [TRUNC] no file changes.
    [open_ready]: the file system can do this call. *)
Definition opened (f : File) (flags : Z) : Prop :=
  let '(r, w) := read_write (from_bits_truncate flags) in ∃ ino, f = osinode_new r w ino.
Class UserLaws (T : Type) `{UserCalls T} := {
  open_ready : T → Z → list Z → Z → Prop;
  open_law : ∀ (s : @fstate T) d path flags, fd_rel s d → open_ready (inodes s) (cwd s) path flags →
    ∃ i, (flags = RDONLY → i = inodes s) ∧
    (u_open path flags s = Ok (-1, set_inodes i s) ∨
     ∃ n t f, least_free d n ∧ opened f flags ∧
       u_open path flags s =
         Ok (Z.of_nat n, mkF (fmem s) i (<[next_obj s := f]> (objs s)) (next_obj s + 1) (fspace s) t (cwd s)) ∧
       ∀ fd, descriptor t fd = <[n := next_obj s]> d !! fd);
}.

Section specs.
Context {T : Type} `{!UserCalls T, !UserLaws T}.
Implicit Types (s : @fstate T) (d : gmap nat Z).

(** ** Single calls *)
Lemma set_fds_id s : set_fds (fd_table s) s = s.
Proof. by destruct s. Qed.
Lemma least_free_unique d n m : least_free d n → least_free d m → n = m.
Proof.
  intros [Hn Hln] [Hm Hlm]. destruct (Nat.lt_trichotomy n m) as [Hlt|[|Hlt]]; [|done|].
  - destruct (Hlm n Hlt) as [x Hx]. congruence.
  - destruct (Hln m Hlt) as [x Hx]. congruence.
Qed.

Lemma close_run s d fd :
  fd_rel s d → ∃ r t, sys_close (Z.of_nat fd) s = Ok (r, set_fds t s) ∧ fd_rel (set_fds t s) (delete fd d).
Proof.
  intros Hrel. unfold sys_close. rewrite Nat2Z.id. pose proof (Hrel fd) as Hfd. unfold descriptor in Hfd.
  destruct (fd_table s !! fd) as [[o|]|] eqn:Ht; simpl in Hfd;
    [|by exists (-1), (fd_table s); rewrite set_fds_id, delete_id..].
  eexists _, _. split; [done|]. intros k. unfold descriptor. simpl. apply lookup_lt_Some in Ht.
  destruct (decide (k = fd)) as [->|].
  - by rewrite list_lookup_insert_eq, lookup_delete_eq.
  - rewrite list_lookup_insert_ne, lookup_delete_ne by done. apply Hrel.
Qed.

Lemma dup_run s d fd o n :
  fd_rel s d → d !! fd = Some o → least_free d n →
  ∃ t, sys_dup (Z.of_nat fd) s = Ok (Z.of_nat n, set_fds t s) ∧ fd_rel (set_fds t s) (<[n := o]> d).
Proof.
  intros Hrel Hfd Hl. unfold sys_dup. rewrite Nat2Z.id. rewrite <- Hrel in Hfd. unfold descriptor in Hfd.
  destruct (fd_table s !! fd) as [[o'|]|]; simpl in Hfd; try done. injection Hfd as ->.
  destruct (install_spec o s d Hrel) as (n' & t & Hr & Hl' & Hrel').
  rewrite (least_free_unique d n n' Hl Hl'). exists t. by rewrite (M_bind_Ok _ _ _ _ _ Hr).
Qed.

(** The standard descriptors: 0, or 1 while 0 is open. *)
Definition std (d : gmap nat Z) (target : nat) : Prop := target = 0%nat ∨ target = 1%nat ∧ is_Some (d !! 0%nat).
Lemma std_least_free d target : std d target → least_free (delete target d) target.
Proof.
  intros [->|[-> H0]]; (split; [apply lookup_delete_eq|]); intros m Hm; [lia|].
  assert (m = 0%nat) as -> by lia. by rewrite lookup_delete_ne.
Qed.

Lemma dup_onto_run target fd o (k : M (@fstate T) childres) s d :
  fd_rel s d → d !! fd = Some o → fd ≠ target → std d target →
  ∃ t, dup_onto (Z.of_nat target) (Z.of_nat fd) k s = k (set_fds t s) ∧ fd_rel (set_fds t s) (<[target := o]> d).
Proof.
  intros Hrel Hfd Hne Hstd. destruct (close_run s d target Hrel) as (r & t1 & Hc & Hrel1).
  destruct (dup_run (set_fds t1 s) (delete target d) fd o target Hrel1) as (t2 & Hd & Hrel2);
    [by rewrite lookup_delete_ne|by apply std_least_free|].
  exists t2. unfold dup_onto. rewrite (M_bind_Ok _ _ _ _ _ Hc), (M_bind_Ok _ _ _ _ _ Hd), Z.eqb_refl.
  split; [done|]. by rewrite insert_delete_eq in Hrel2.
Qed.

(** The descriptors of pipes. *)
Definition ends (pipes : list (nat * nat)) : list nat := pipes ≫= λ '(r, w), [r; w].
Lemma close_pipes_run pipes s d :
  fd_rel s d → ∃ t d', close_pipes pipes s = Ok ((), set_fds t s) ∧ fd_rel (set_fds t s) d' ∧
    ∀ fd, d' !! fd = if decide (fd ∈ ends pipes) then None else d !! fd.
Proof.
  revert s d. induction pipes as [|[r w] pipes IH]; intros s d Hrel.
  { exists (fd_table s), d. rewrite set_fds_id. split_and!; [done|done|]. intros fd. by rewrite decide_False by set_solver. }
  destruct (close_run s d r Hrel) as (x & t1 & H1 & R1). destruct (close_run _ _ w R1) as (y & t2 & H2 & R2).
  destruct (IH _ _ R2) as (t & d' & H3 & R3 & Hd). exists t, d'. cbn [close_pipes].
  rewrite (M_bind_Ok _ _ _ _ _ H1), (M_bind_Ok _ _ _ _ _ H2). split_and!; [exact H3|exact R3|].
  intros fd. rewrite Hd. change (ends ((r, w) :: pipes)) with (r :: w :: ends pipes).
  destruct (decide (fd ∈ ends pipes)); [by rewrite decide_True by set_solver|].
  destruct (decide (fd = w)) as [->|]; [by rewrite lookup_delete_eq, decide_True by set_solver|].
  rewrite lookup_delete_ne by done. destruct (decide (fd = r)) as [->|]; [by rewrite lookup_delete_eq, decide_True by set_solver|].
  by rewrite lookup_delete_ne, decide_False by set_solver.
Qed.

(** ** The store of files only grows *)
Record grows (s s' : @fstate T) : Prop := {
  gr_objs : ∀ o f, objs s !! o = Some f → objs s' !! o = Some f;
  gr_next : next_obj s ≤ next_obj s';
  gr_cwd : cwd s' = cwd s;
}.
Definition fresh_objs s : Prop := ∀ o f, objs s !! o = Some f → o < next_obj s.
Lemma grows_refl s : grows s s.
Proof. by split. Qed.
Lemma grows_trans s1 s2 s3 : grows s1 s2 → grows s2 s3 → grows s1 s3.
Proof. intros [A1 B1 C1] [A2 B2 C2]. split; [auto|lia|congruence]. Qed.
Lemma grows_fds t s s' : grows s s' → grows s (set_fds t s').
Proof. intros [A B C]. by split. Qed.
Lemma grows_insert s s' f :
  fresh_objs s → objs s' = <[next_obj s := f]> (objs s) → next_obj s' = next_obj s + 1 → cwd s' = cwd s →
  grows s s' ∧ fresh_objs s'.
Proof.
  intros Hf Ho Hn Hc. split; [split; [|lia|done]|].
  - intros o g Hg. rewrite Ho, lookup_insert_ne; [done|]. pose proof (Hf o g Hg). lia.
  - intros o g. rewrite Ho, Hn. intros [[<- _]|[_ Hg]]%lookup_insert_Some; [lia|]. pose proof (Hf o g Hg). lia.
Qed.

(** ** A child *)
Lemma redirect_to_spec (target : nat) flags file (k : M (@fstate T) childres) s d (Q : childres → @fstate T → Prop) :
  fd_rel s d → fresh_objs s → std d target → is_Some (d !! target) →
  (file ≠ [] → open_ready (inodes s) (cwd s) file flags) →
  (file ≠ [] → ∀ i, (flags = RDONLY → i = inodes s) → Q (Exits (-4)) (set_inodes i s)) →
  (∀ s' o, fd_rel s' (<[target := o]> d) → fresh_objs s' → grows s s' →
    (file = [] ∨ flags = RDONLY → inodes s' = inodes s) →
    (if nonempty file then ∃ f, objs s' !! o = Some f ∧ opened f flags else d !! target = Some o) →
    ∃ r sf, k s' = Ok (r, sf) ∧ Q r sf) →
  ∃ r sf, redirect_to (Z.of_nat target) flags file k s = Ok (r, sf) ∧ Q r sf.
Proof.
  intros Hrel Hfr Hstd [o0 Ho0] Hready Hfail Hk. unfold redirect_to. destruct (nonempty file) eqn:Hne.
  2: { apply (Hk s o0); [by rewrite insert_id|done|apply grows_refl|done|done]. }
  assert (file ≠ []) as Hf by (by intros ->).
  destruct (open_law s d file flags Hrel (Hready Hf)) as (i & Hi & [Hop|(n & t & f & Hl & Hopened & Hop & Hd)]);
    rewrite (M_bind_Ok _ _ _ _ _ Hop); [eauto|].
  rewrite (proj2 (Z.eqb_neq (Z.of_nat n) (-1))) by lia.
  match type of Hop with _ = Ok (_, ?x) => set (s1 := x) in * end.
  destruct (grows_insert s s1 f Hfr eq_refl eq_refl eq_refl) as [Hg1 Hf1]. destruct Hl as [Hn _].
  assert (n ≠ target) as Hnt by congruence. assert (std (<[n := next_obj s]> d) target) as Hstd'.
  { destruct Hstd as [->|[-> H0]]; [by left|]. right. split; [done|]. rewrite lookup_insert_is_Some'. by right. }
  destruct (dup_onto_run target n (next_obj s) (sys_close (Z.of_nat n) ≫= λ _, k) s1 (<[n := next_obj s]> d)) as (t2 & Hr2 & R2);
    [exact Hd|by rewrite lookup_insert_eq|done|done|].
  rewrite Hr2. destruct (close_run _ _ n R2) as (r & t3 & Hr3 & R3). rewrite (M_bind_Ok _ _ _ _ _ Hr3).
  rewrite delete_insert_ne, delete_insert_id in R3 by done.
  apply (Hk _ (next_obj s)); [exact R3|exact Hf1|by do 2 apply grows_fds| |].
  - intros [|Hro]; [done|]. by apply Hi.
  - exists f. split; [apply lookup_insert_eq|done].
Qed.

(** Pipe ends at descriptors above the standard ones; [bufs] names the buffers. *)
Definition pipes_open (O : gmap Z File) (d : gmap nat Z) (pipes : list (nat * nat)) (bufs : list Z) : Prop :=
  length bufs = length pipes ∧
  ∀ j r w, pipes !! j = Some (r, w) → (2 ≤ r ∧ 2 ≤ w)%nat ∧ ∃ b ro wo, bufs !! j = Some b ∧
    d !! r = Some ro ∧ d !! w = Some wo ∧ O !! ro = Some (PipeEnd true false b) ∧ O !! wo = Some (PipeEnd false true b).
Lemma pipes_open_insert O d pipes bufs target o :
  (target < 2)%nat → pipes_open O d pipes bufs → pipes_open O (<[target := o]> d) pipes bufs.
Proof.
  intros Ht [Hl Hp]. split; [done|]. intros j r w Hj. destruct (Hp j r w Hj) as ([Hr Hw] & H). by rewrite !lookup_insert_ne by lia.
Qed.
Lemma pipes_open_grows s s' d pipes bufs : grows s s' → pipes_open (objs s) d pipes bufs → pipes_open (objs s') d pipes bufs.
Proof.
  intros Hg [Hl Hp]. split; [done|]. intros j r w Hj. destruct (Hp j r w Hj) as (H2 & b & ro & wo & H3 & H4 & H5 & H6 & H7).
  split; [done|]. exists b, ro, wo. split_and!; try done; by apply (gr_objs _ _ Hg).
Qed.

Lemma pipe_in_run i pipes bufs (k : M (@fstate T) childres) s d :
  fd_rel s d → pipes_open (objs s) d pipes bufs → (i ≤ length pipes)%nat → is_Some (d !! 0%nat) →
  ∃ t o, pipe_in i pipes k s = k (set_fds t s) ∧ fd_rel (set_fds t s) (<[0%nat := o]> d) ∧
    (if (0 <? i)%nat then ∃ b, bufs !! (i - 1)%nat = Some b ∧ objs s !! o = Some (PipeEnd true false b) else d !! 0%nat = Some o).
Proof.
  intros Hrel [_ Hp] Hi [o0 H0]. unfold pipe_in. destruct (Nat.ltb_spec 0 i) as [Hpos|Hz].
  - destruct (lookup_lt_is_Some_2 pipes (i - 1)) as [[r w] Hj]; [lia|]. rewrite Hj.
    destruct (Hp _ _ _ Hj) as ([Hr _] & b & ro & wo & Hb & Hro & _ & Hfile & _).
    destruct (dup_onto_run 0 r ro k s d Hrel Hro ltac:(lia) (or_introl eq_refl)) as (t & Hrun & R). exists t, ro. eauto 10.
  - exists (fd_table s), o0. rewrite set_fds_id, insert_id by done. done.
Qed.
Lemma pipe_out_run n i pipes bufs (k : M (@fstate T) childres) s d :
  fd_rel s d → pipes_open (objs s) d pipes bufs → length pipes = (n - 1)%nat → is_Some (d !! 0%nat) → is_Some (d !! 1%nat) →
  ∃ t o, pipe_out n i pipes k s = k (set_fds t s) ∧ fd_rel (set_fds t s) (<[1%nat := o]> d) ∧
    (if (i <? n - 1)%nat then ∃ b, bufs !! i = Some b ∧ objs s !! o = Some (PipeEnd false true b) else d !! 1%nat = Some o).
Proof.
  intros Hrel [_ Hp] Hlen H0 [o1 H1]. unfold pipe_out. destruct (Nat.ltb_spec i (n - 1)) as [Hlt|Hz].
  - destruct (lookup_lt_is_Some_2 pipes i) as [[r w] Hj]; [lia|]. rewrite Hj.
    destruct (Hp _ _ _ Hj) as ([_ Hw] & b & ro & wo & Hb & _ & Hwo & _ & Hfile).
    destruct (dup_onto_run 1 w wo k s d Hrel Hwo ltac:(lia) (or_intror (conj eq_refl H0))) as (t & Hrun & R). exists t, wo. eauto 10.
  - exists (fd_table s), o1. rewrite set_fds_id, insert_id by done. done.
Qed.

(** The descriptors of child [i] of [n] when it calls [exec]: 0 and 1 are the
    pipes to its neighbours, the files it was redirected to, or those of its
    parent; every other descriptor is the parent's, and no pipe end is left. *)
Record child_fds (O : gmap Z File) (n i : nat) (pa : ProcessArguments) (pipes : list (nat * nat)) (bufs : list Z)
    (d : gmap nat Z) (t : list (option Z)) : Prop := {
  cf_in : ∃ o, descriptor t 0 = Some o ∧
    if (0 <? i)%nat then ∃ b, bufs !! (i - 1)%nat = Some b ∧ O !! o = Some (PipeEnd true false b)
    else if nonempty (input pa) then ∃ f, O !! o = Some f ∧ opened f RDONLY else d !! 0%nat = Some o;
  cf_out : ∃ o, descriptor t 1 = Some o ∧
    if (i <? n - 1)%nat then ∃ b, bufs !! i = Some b ∧ O !! o = Some (PipeEnd false true b)
    else if nonempty (output pa) then ∃ f, O !! o = Some f ∧ opened f OUT_FLAGS else d !! 1%nat = Some o;
  cf_other : ∀ fd, (2 ≤ fd)%nat → descriptor t fd = if decide (fd ∈ ends pipes) then None else d !! fd;
}.

(** A child gets there, unless a file it is redirected to cannot be opened. *)
Definition child_done (O : gmap Z File) n i pa pipes bufs d (r : childres) (t : list (option Z)) : Prop :=
  match r with
  | Execs a => a = args pa ∧ child_fds O n i pa pipes bufs d t
  | Exits c => c = -4 ∧ (input pa ≠ [] ∨ output pa ≠ [])
  | ChildPanics => False
  end.

(** The calls to [open] can be done. *)
Definition files_ready (i : T) (c : Z) (pa : ProcessArguments) : Prop :=
  (input pa ≠ [] → open_ready i c (input pa) RDONLY) ∧ (output pa ≠ [] → open_ready i c (output pa) OUT_FLAGS).

Lemma pipes_end_ge2 O d pipes bufs fd : pipes_open O d pipes bufs → fd ∈ ends pipes → (2 ≤ fd)%nat.
Proof.
  intros [_ Hp]. unfold ends. rewrite list_elem_of_bind. intros ([r w] & Hin & [j Hj]%list_elem_of_lookup).
  destruct (Hp _ _ _ Hj) as [[? ?] _]. set_unfold in Hin. by destruct Hin as [->|[->|[]]].
Qed.

Lemma run_child_spec n i pa pipes bufs s d :
  fd_rel s d → fresh_objs s → is_Some (d !! 0%nat) → is_Some (d !! 1%nat) →
  pipes_open (objs s) d pipes bufs → length pipes = (n - 1)%nat → (i < n)%nat → args pa ≠ [] →
  files_ready (inodes s) (cwd s) pa →
  ∃ r s', run_child n i pa pipes s = Ok (r, s') ∧ grows s s' ∧ fresh_objs s' ∧
    (output pa = [] → inodes s' = inodes s) ∧ child_done (objs s') n i pa pipes bufs d r (fd_table s').
Proof.
  intros Hrel Hfr H0 H1 Hp Hlen Hi Hargs [Hrin Hrout]. unfold run_child.
  apply (redirect_to_spec 0 _ _ _ s d (λ r s', grows s s' ∧ fresh_objs s' ∧ (output pa = [] → inodes s' = inodes s) ∧
    child_done (objs s') n i pa pipes bufs d r (fd_table s'))); [done|done|by left|done|done|..].
  { intros Hne j Hj. split_and!; [by split|done|intros _; by apply Hj|split; [done|by left]]. }
  intros s1 o0 R1 F1 G1 I1 Hin. assert (inodes s1 = inodes s) as HI by (apply I1; by right).
  apply (redirect_to_spec 1 _ _ _ s1 (<[0%nat := o0]> d)); [done|done| |by rewrite lookup_insert_ne| |..].
  { right. split; [done|]. by rewrite lookup_insert_eq. }
  { intros Hne. rewrite HI, (gr_cwd _ _ G1). by apply Hrout. }
  { intros Hne j _. split_and!; [destruct G1; by split|done|done|split; [done|by right]]. }
  intros s2 o1 R2 F2 G2 I2 Hout. rewrite lookup_insert_ne in Hout by done.
  pose proof (grows_trans _ _ _ G1 G2) as G.
  assert (pipes_open (objs s2) (<[1%nat := o1]> (<[0%nat := o0]> d)) pipes bufs) as Hp2.
  { do 2 (apply pipes_open_insert; [lia|]). by eapply pipes_open_grows. }
  destruct (pipe_in_run i pipes bufs (pipe_out n i pipes (close_pipes pipes ≫= λ _,
      mret match args pa with [] => ChildPanics | _ => Execs (args pa) end)) s2 _ R2 Hp2) as (t3 & p0 & Hr3 & R3 & Hp0);
    [lia|by rewrite lookup_insert_ne, lookup_insert_eq|].
  rewrite Hr3. destruct (pipe_out_run n i pipes bufs (close_pipes pipes ≫= λ _,
      mret match args pa with [] => ChildPanics | _ => Execs (args pa) end) _ _ R3) as (t4 & p1 & Hr4 & R4 & Hp1);
    [by apply pipes_open_insert; [lia|]|done|by rewrite lookup_insert_eq|by rewrite lookup_insert_ne, lookup_insert_eq|].
  rewrite Hr4. destruct (close_pipes_run pipes _ _ R4) as (t5 & d5 & Hr5 & R5 & Hd5).
  rewrite (M_bind_Ok _ _ _ _ _ Hr5). eexists _, _. split; [done|].
  split_and!; [by do 3 apply grows_fds|done|intros Ho; cbn; rewrite <- HI; apply I2; by left|].
  destruct (args pa) as [|a l] eqn:Ha; [done|]. unfold child_done. split; [done|].
  assert (∀ fd, fd ∈ ends pipes → (2 ≤ fd)%nat) as Hge by (intros fd; by eapply pipes_end_ge2).
  pose proof (λ fd, R5 fd) as R. cbn [fd_table objs set_fds] in *. rewrite lookup_insert_ne, lookup_insert_eq in Hp0 by done.
  rewrite lookup_insert_ne, lookup_insert_eq in Hp1 by done. split.
  - exists p0. rewrite R, Hd5, decide_False by (intros Hx%Hge; lia).
    rewrite lookup_insert_ne, lookup_insert_eq by done. split; [done|]. destruct (0 <? i)%nat; [done|].
    injection Hp0 as <-. destruct (nonempty (input pa)); [|done]. destruct Hin as (f & Hf & Hop). exists f. split; [|done]. by apply (gr_objs _ _ G2).
  - exists p1. rewrite R, Hd5, decide_False by (intros Hx%Hge; lia). rewrite lookup_insert_eq. split; [done|].
    destruct (i <? n - 1)%nat; [done|]. injection Hp1 as <-. done.
  - intros fd Hfd. rewrite R, Hd5. destruct (decide (fd ∈ ends pipes)); [done|]. by rewrite !lookup_insert_ne by lia.
Qed.

(** ** Fork *)
Lemma table_map (t : list (option Z)) : ∃ d : gmap nat Z, ∀ fd, descriptor t fd = d !! fd.
Proof. exists (omap id (map_seq 0 t)). intros fd. by rewrite lookup_omap, lookup_map_seq_0. Qed.

Definition all_open (s : @fstate T) (d : gmap nat Z) : Prop := ∀ fd o, d !! fd = Some o → is_Some (objs s !! o).
(** The same descriptors are open, on files that are the same. *)
Definition inherits (O O' : gmap Z File) (d d' : gmap nat Z) : Prop :=
  ∀ fd, match d !! fd, d' !! fd with Some o, Some o' => O' !! o' = O !! o | None, None => True | _, _ => False end.

Lemma fork_spec s d pipes bufs :
  fd_rel s d → fresh_objs s → all_open s d → pipes_open (objs s) d pipes bufs →
  ∃ t s1 d1, fork_fd_table (fd_table s) s = Ok (t, s1) ∧ fd_rel (set_fds t s1) d1 ∧ grows s s1 ∧ fresh_objs s1 ∧
    inodes s1 = inodes s ∧ inherits (objs s) (objs s1) d d1 ∧ pipes_open (objs s1) d1 pipes bufs.
Proof.
  intros Hrel Hfr Hop [Hl Hp]. destruct (fork_fds_spec (fd_table s) s Hfr) as (t & s1 & Hr & _ & Hn & Hm & Hf1 & (_ & Hi & Hc) & Hsame).
  { intros i o Hio. apply (Hop i). rewrite <- Hrel. unfold descriptor. by rewrite Hio. }
  destruct (table_map t) as [d1 Hd1]. exists t, s1, d1.
  assert (∀ fd, match d !! fd, d1 !! fd with Some o, Some o' => child_file s s1 o o' | None, None => True | _, _ => False end) as Hch.
  { intros fd. rewrite <- Hrel, <- Hd1. unfold descriptor. specialize (Hsame fd).
    destruct (fd_table s !! fd) as [[o|]|], (t !! fd) as [[o'|]|]; simpl; done || (by destruct Hsame) || exact Hsame. }
  split_and!; [done|exact Hd1|by split|done|done| |].
  - intros fd. specialize (Hch fd). destruct (d !! fd), (d1 !! fd); [apply Hch|done..].
  - split; [done|]. intros j r w Hj. destruct (Hp j r w Hj) as (H2 & b & ro & wo & Hb & Hro & Hwo & Hfr' & Hfw).
    split; [done|]. exists b, ro, wo. pose proof (Hch r) as Cr. pose proof (Hch w) as Cw. rewrite Hro in Cr. rewrite Hwo in Cw.
    destruct (d1 !! r) as [ro'|]; [|done]. destruct (d1 !! w) as [wo'|]; [|done]. unfold child_file in Cr, Cw.
    rewrite Hfr' in Cr. rewrite Hfw in Cw. destruct Cr as [Cr ->], Cw as [Cw ->]. done.
Qed.

(** What is known of a child, relative to the descriptors of the shell. *)
Definition child_of (O O' : gmap Z File) n i pa pipes bufs (d : gmap nat Z) (c : child) : Prop :=
  ∃ d1, inherits O O' d d1 ∧ child_done O' n i pa pipes bufs d1 (c_res c) (c_fds c).

Lemma child_done_grows s s' n i pa pipes bufs d r t :
  grows s s' → child_done (objs s) n i pa pipes bufs d r t → child_done (objs s') n i pa pipes bufs d r t.
Proof.
  intros Hg. destruct r as [a|c|]; [|done..]. intros [-> [(o & Ho & Hin) (o' & Ho' & Hout) Hoth]]. split; [done|]. split; [| |done].
  - exists o. split; [done|]. destruct (0 <? i)%nat; [|destruct (nonempty (input pa)); [|done]];
      destruct Hin as (x & H1 & H2); exists x; split; try done; by apply (gr_objs _ _ Hg).
  - exists o'. split; [done|]. destruct (i <? n - 1)%nat; [|destruct (nonempty (output pa)); [|done]];
      destruct Hout as (x & H1 & H2); exists x; split; try done; by apply (gr_objs _ _ Hg).
Qed.
Lemma inherits_grows O s s' d d1 :
  (∀ fd o, d !! fd = Some o → is_Some (O !! o)) → grows s s' → inherits O (objs s) d d1 → inherits O (objs s') d d1.
Proof.
  intros Ho Hg Hin fd. specialize (Hin fd). specialize (Ho fd). destruct (d !! fd) as [o|], (d1 !! fd) as [o'|]; try done.
  destruct (Ho o eq_refl) as [f Hf]. rewrite Hf in *. by apply (gr_objs _ _ Hg).
Qed.

Lemma fork_child_spec n i pa pipes bufs s d :
  fd_rel s d → fresh_objs s → all_open s d → is_Some (d !! 0%nat) → is_Some (d !! 1%nat) →
  pipes_open (objs s) d pipes bufs → length pipes = (n - 1)%nat → (i < n)%nat → args pa ≠ [] →
  files_ready (inodes s) (cwd s) pa →
  ∃ c s', fork_child n i pa pipes s = Ok (c, s') ∧ fd_table s' = fd_table s ∧ grows s s' ∧ fresh_objs s' ∧
    (output pa = [] → inodes s' = inodes s) ∧ child_of (objs s) (objs s') n i pa pipes bufs d c.
Proof.
  intros Hrel Hfr Hop H0 H1 Hp Hlen Hi Hargs Hready.
  destruct (fork_spec s d pipes bufs Hrel Hfr Hop Hp) as (t & s1 & d1 & Hfork & R1 & G1 & F1 & I1 & Hinh & Hp1).
  assert (∀ fd, is_Some (d !! fd) → is_Some (d1 !! fd)) as Hsome.
  { intros fd [o Ho]. specialize (Hinh fd). rewrite Ho in Hinh. destruct (d1 !! fd); [eauto|done]. }
  destruct (run_child_spec n i pa pipes bufs (set_fds t s1) d1) as (r & s2 & Hrun & G2 & F2 & I2 & Hdone);
    [done|done|by apply Hsome|by apply Hsome|done|done|done|done|by cbn; rewrite I1, (gr_cwd _ _ G1)|].
  exists (mkChild r (fd_table s2)), (set_fds (fd_table s) s2). assert (grows s s2) as G.
  { eapply grows_trans; [exact G1|]. destruct G2. by split. }
  split_and!; [|done|by apply grows_fds|done|intros Ho; cbn; rewrite (I2 Ho); exact I1|].
  - unfold fork_child. rewrite Hfork. cbn [mbind outcome_bind]. by rewrite Hrun.
  - exists d1. split; [|done]. apply (inherits_grows _ (set_fds t s1) s2); [exact Hop|exact G2|exact Hinh].
Qed.

Lemma fork_all_spec n pipes bufs d pas i s :
  fd_rel s d → fresh_objs s → all_open s d → is_Some (d !! 0%nat) → is_Some (d !! 1%nat) →
  pipes_open (objs s) d pipes bufs → length pipes = (n - 1)%nat → (i + length pas = n)%nat →
  Forall (λ pa, args pa ≠ [] ∧ files_ready (inodes s) (cwd s) pa) pas →
  (∀ j pa, pas !! j = Some pa → output pa ≠ [] → S j = length pas) →
  ∃ cs s', fork_all n i pas pipes s = Ok (cs, s') ∧ fd_table s' = fd_table s ∧ grows s s' ∧ fresh_objs s' ∧
    length cs = length pas ∧
    ∀ j pa c, pas !! j = Some pa → cs !! j = Some c → child_of (objs s) (objs s') n (i + j) pa pipes bufs d c.
Proof.
  revert i s. induction pas as [|pa pas IH]; intros i s Hrel Hfr Hop H0 H1 Hp Hlen Hn Hall Hout.
  { exists [], s. split_and!; [done|done|apply grows_refl|done|done|by intros ? ? ? ?]. }
  apply Forall_cons in Hall as [[Hargs Hready] Hall]. simpl in Hn.
  destruct (fork_child_spec n i pa pipes bufs s d) as (c & s1 & Hr1 & T1 & G1 & F1 & I1 & Hc); try done; [lia|].
  assert (pas ≠ [] → inodes s1 = inodes s) as HI.
  { intros Hne. apply I1. destruct (decide (output pa = [])) as [|Ho]; [done|]. pose proof (Hout 0%nat pa eq_refl Ho) as Hx.
    destruct pas; [done|simpl in Hx; lia]. }
  destruct (IH (i + 1)%nat s1) as (cs & s2 & Hr2 & T2 & G2 & F2 & Hl2 & Hcs).
  - intros fd. rewrite T1. apply Hrel.
  - done.
  - intros fd o Ho. destruct (Hop fd o Ho) as [f Hf]. exists f. by apply (gr_objs _ _ G1).
  - done.
  - done.
  - by eapply pipes_open_grows.
  - done.
  - lia.
  - destruct pas as [|pa' pas]; [constructor|]. by rewrite HI, (gr_cwd _ _ G1).
  - intros j x Hj Hx. pose proof (Hout (S j) x Hj Hx) as Hy. simpl in Hy. lia.
  - exists (c :: cs), s2. cbn [fork_all]. rewrite (M_bind_Ok _ _ _ _ _ Hr1), (M_bind_Ok _ _ _ _ _ Hr2).
    split_and!; [done|congruence|by eapply grows_trans|done|simpl; lia|].
    intros [|j] x y Hx Hy.
    + injection Hx as <-. injection Hy as <-. rewrite Nat.add_0_r. destruct Hc as (d1 & Hin & Hd). exists d1.
      split; [by eapply inherits_grows|by eapply child_done_grows].
    + replace (i + S j)%nat with (i + 1 + j)%nat by lia. destruct (Hcs j x y Hx Hy) as (d1 & Hin & Hd). exists d1. split; [|done].
      intros fd. specialize (Hin fd). specialize (Hop fd). destruct (d !! fd) as [o|], (d1 !! fd) as [o'|]; try done.
      destruct (Hop o eq_refl) as [f Hf]. rewrite Hin, Hf. by apply (gr_objs _ _ G1).
Qed.

(** ** Pipes *)
Lemma install_pipe_spec b s d :
  fd_rel s d → fresh_objs s → all_open s d → is_Some (d !! 0%nat) → is_Some (d !! 1%nat) →
  ∃ r w s' d', install_pipe b s = Ok ((r, w), s') ∧ d' = <[w := next_obj s + 1]> (<[r := next_obj s]> d) ∧ fd_rel s' d' ∧
    grows s s' ∧ fresh_objs s' ∧ all_open s' d' ∧ inodes s' = inodes s ∧ next_obj s' = next_obj s + 2 ∧
    d !! r = None ∧ d !! w = None ∧ pipes_open (objs s') d' [(r, w)] [b].
Proof.
  intros Hrel Hfr Hop H0 H1. set (o := next_obj s).
  set (sA := mkF (fmem s) (inodes s) (<[o := PipeEnd true false b]> (objs s)) (o + 1) (fspace s) (fd_table s) (cwd s)).
  set (s2 := mkF (fmem s) (inodes s) (<[o + 1 := PipeEnd false true b]> (<[o := PipeEnd true false b]> (objs s))) (o + 1 + 1)
    (fspace s) (fd_table s) (cwd s)).
  destruct (install_spec o s2 d Hrel) as (r & t1 & Hr1 & [Lr _] & R1).
  destruct (install_spec (o + 1) (set_fds t1 s2) (<[r := o]> d) R1) as (w & t2 & Hr2 & [Lw _] & R2).
  apply lookup_insert_None in Lw as [Lw Hrw].
  assert (∀ fd, d !! fd = None → (2 ≤ fd)%nat) as Hge.
  { intros [|[|fd]] Hfd; [destruct H0; congruence|destruct H1; congruence|lia]. }
  assert (grows s s2 ∧ fresh_objs s2) as [G F].
  { split; [split; [|simpl; lia|done]|].
    - intros x f Hx. pose proof (Hfr x f Hx). simpl. by rewrite !lookup_insert_ne by lia.
    - intros x f. simpl. intros [[<- _]|[_ [[<- _]|[_ Hx]]%lookup_insert_Some]]%lookup_insert_Some; [lia..|].
      pose proof (Hfr x f Hx). lia. }
  eexists r, w, (set_fds t2 s2), _. split_and!; [|done|exact R2|by apply grows_fds|done| |done|simpl; lia|done|done|].
  - unfold install_pipe. rewrite (M_bind_Ok _ _ s o sA) by done. rewrite (M_bind_Ok _ _ sA (o + 1) s2) by done.
    rewrite (M_bind_Ok _ _ _ _ _ Hr1). by rewrite (M_bind_Ok _ _ _ _ _ Hr2).
  - intros fd x. simpl. intros [[_ <-]|[_ [[_ <-]|[_ Hx]]%lookup_insert_Some]]%lookup_insert_Some.
    + rewrite lookup_insert_eq. eauto.
    + rewrite lookup_insert_ne, lookup_insert_eq by lia. eauto.
    + destruct (Hop fd x Hx) as [f Hf]. exists f. by apply (gr_objs _ _ G).
  - split; [done|]. intros [|j] r' w' Hj; [|done]. injection Hj as <- <-. split; [split; by apply Hge|].
    exists b, o, (o + 1). split_and!; [done|..]; simpl.
    + by rewrite lookup_insert_ne, lookup_insert_eq by done.
    + by rewrite lookup_insert_eq.
    + by rewrite lookup_insert_ne, lookup_insert_eq by lia.
    + by rewrite lookup_insert_eq.
Qed.

Lemma make_pipes_spec k s d :
  fd_rel s d → fresh_objs s → all_open s d → is_Some (d !! 0%nat) → is_Some (d !! 1%nat) →
  ∃ pipes bufs s' d', make_pipes k s = Ok (pipes, s') ∧ length pipes = k ∧ fd_rel s' d' ∧ grows s s' ∧ fresh_objs s' ∧
    all_open s' d' ∧ inodes s' = inodes s ∧ pipes_open (objs s') d' pipes bufs ∧
    NoDup bufs ∧ Forall (λ b, next_obj s ≤ b) bufs ∧
    ∀ fd, if decide (fd ∈ ends pipes) then d !! fd = None else d' !! fd = d !! fd.
Proof.
  revert s d. induction k as [|k IH]; intros s d Hrel Hfr Hop H0 H1.
  { exists [], [], s, d. split_and!; try done. constructor. }
  destruct (install_pipe_spec (next_obj s) s d Hrel Hfr Hop H0 H1)
    as (r & w & s1 & d1 & Hr1 & Hd1 & R1 & G1 & F1 & O1 & I1 & N1 & Lr & Lw & P1).
  assert (∀ fd, is_Some (d !! fd) → d1 !! fd = d !! fd) as Hkeep.
  { intros fd [o Ho]. subst d1. rewrite !lookup_insert_ne; [done|..]; by intros ->; congruence. }
  destruct (IH s1 d1) as (pipes & bufs & s2 & d2 & Hr2 & Hl2 & R2 & G2 & F2 & O2 & I2 & [PL P2] & ND & Hge & Hfd);
    [done|done|done|by rewrite Hkeep|by rewrite Hkeep|].
  exists ((r, w) :: pipes), (next_obj s :: bufs), s2, d2.
  assert (r ∉ ends pipes ∧ w ∉ ends pipes) as [Hr Hw].
  { split; intros Hin; [specialize (Hfd r)|specialize (Hfd w)]; rewrite decide_True in Hfd by done; subst d1.
    - destruct (decide (r = w)) as [->|]; [by rewrite lookup_insert_eq in Hfd|].
      by rewrite lookup_insert_ne, lookup_insert_eq in Hfd by done.
    - by rewrite lookup_insert_eq in Hfd. }
  split_and!; [|simpl; lia|done|by eapply grows_trans|done|done|congruence| |..].
  - cbn [make_pipes]. rewrite (M_bind_Ok _ _ _ _ _ eq_refl), (M_bind_Ok _ _ _ _ _ Hr1), (M_bind_Ok _ _ _ _ _ Hr2). done.
  - split; [simpl; lia|]. intros [|j] r' w' Hj; [|by apply (P2 j)]. injection Hj as <- <-.
    destruct P1 as [_ P1]. destruct (P1 0%nat r w eq_refl) as (Hg & b & ro & wo & Hb & Hro & Hwo & Hf1 & Hf2).
    split; [done|]. exists b, ro, wo. split_and!; [done|..|by apply (gr_objs _ _ G2)|by apply (gr_objs _ _ G2)].
    + rewrite <- Hro. specialize (Hfd r). by rewrite decide_False in Hfd by done.
    + rewrite <- Hwo. specialize (Hfd w). by rewrite decide_False in Hfd by done.
  - apply NoDup_cons. split; [|done]. rewrite Forall_forall in Hge. intros Hin%Hge. lia.
  - constructor; [lia|]. eapply Forall_impl; [exact Hge|]. simpl. lia.
  - intros fd. specialize (Hfd fd). change (ends ((r, w) :: pipes)) with (r :: w :: ends pipes).
    destruct (decide (fd = r)) as [->|Hnr]; [by rewrite decide_True by set_solver|].
    destruct (decide (fd = w)) as [->|Hnw]; [by rewrite decide_True by set_solver|].
    assert (d1 !! fd = d !! fd) as Hsame by (subst d1; by rewrite !lookup_insert_ne).
    destruct (decide (fd ∈ ends pipes)); [rewrite decide_True by set_solver|rewrite decide_False by set_solver]; congruence.
Qed.

(** The ends that were closed do not matter. *)
Lemma child_of_shell O O1 O' n i pa pipes bufs d d0 c :
  is_Some (d0 !! 0%nat) → is_Some (d0 !! 1%nat) → (∀ fd o, d0 !! fd = Some o → O1 !! o = O !! o) →
  (∀ fd, if decide (fd ∈ ends pipes) then d0 !! fd = None else d !! fd = d0 !! fd) →
  child_of O1 O' n i pa pipes bufs d c → child_of O O' n i pa [] bufs d0 c.
Proof.
  intros [x0 H0] [x1 H1] HO Hd (d1 & Hin & Hdone).
  set (d2 := filter (λ '(fd, _), fd ∉ ends pipes) d1). exists d2.
  assert (∀ fd, d2 !! fd = if decide (fd ∈ ends pipes) then None else d1 !! fd) as Hd2.
  { intros fd. unfold d2. destruct (decide (fd ∈ ends pipes)) as [He|He].
    - apply map_lookup_filter_None. right. intros x _. simpl. tauto.
    - destruct (d1 !! fd) as [x|] eqn:Hx; [by apply map_lookup_filter_Some|apply map_lookup_filter_None; by left]. }
  assert (0%nat ∉ ends pipes ∧ 1%nat ∉ ends pipes) as [E0 E1].
  { split; intros He; [specialize (Hd 0%nat)|specialize (Hd 1%nat)]; rewrite decide_True in Hd by done; congruence. }
  split.
  - intros fd. rewrite Hd2. specialize (Hd fd). specialize (Hin fd). specialize (HO fd).
    destruct (decide (fd ∈ ends pipes)); [by rewrite Hd|]. rewrite Hd in Hin.
    destruct (d0 !! fd) as [o|], (d1 !! fd) as [o'|]; try done. by rewrite <- HO.
  - destruct (c_res c) as [a|e|]; [|done..]. destruct Hdone as [-> [Hi Ho Hoth]]. split; [done|]. split.
    + by rewrite Hd2, decide_False.
    + by rewrite Hd2, decide_False.
    + intros fd Hfd. rewrite (Hoth fd Hfd), Hd2. by rewrite (decide_False (P := fd ∈ ends [])) by set_solver.
Qed.
End specs.

(** C16 Pipelines are wired correctly.  For a valid chain of commands the shell
    makes one pipe between neighbours and starts every command with descriptor 0
    on the pipe from the one before, or its input file, or the shell's own
    input, descriptor 1 likewise, and no other pipe end open (so that readers
    see the end of their input), unless a file cannot be opened, when that child
    exits; afterwards the shell has the descriptors it had before. *)
Theorem pipeline_wired {T : Type} `{!UserCalls T, !UserLaws T} pas (s : @fstate T) (d : gmap nat Z) :
  fd_rel s d → fresh_objs s → all_open s d → is_Some (d !! 0%nat) → is_Some (d !! 1%nat) →
  pas ≠ [] → chain_valid pas = true → Forall (λ pa, args pa ≠ [] ∧ files_ready (inodes s) (cwd s) pa) pas →
  ∃ cs bufs s', run_pipeline pas s = Ok (cs, s') ∧ fd_rel s' d ∧ NoDup bufs ∧ length bufs = (length pas - 1)%nat ∧
    length cs = length pas ∧
    ∀ i pa c, pas !! i = Some pa → cs !! i = Some c → child_of (objs s) (objs s') (length pas) i pa [] bufs d c.
Proof.
  intros Hrel Hfr Hop H0 H1 Hne Hvalid Hall. unfold run_pipeline.
  destruct (make_pipes_spec (length pas - 1) s d Hrel Hfr Hop H0 H1)
    as (pipes & bufs & s1 & d1 & Hr1 & Hl1 & R1 & G1 & F1 & O1 & I1 & P1 & ND & _ & Hfd).
  assert (∀ fd, is_Some (d !! fd) → d1 !! fd = d !! fd) as Hkeep.
  { intros fd [o Ho]. specialize (Hfd fd). destruct (decide (fd ∈ ends pipes)); [congruence|done]. }
  destruct (fork_all_spec (length pas) pipes bufs d1 pas 0 s1) as (cs & s2 & Hr2 & T2 & G2 & F2 & Hl2 & Hcs);
    [done|done|done|by rewrite Hkeep|by rewrite Hkeep|done|done|done|by rewrite I1, (gr_cwd _ _ G1)|..].
  { intros j pa Hj Ho. apply chain_valid_spec in Hvalid as [Hone|Hv].
    - apply lookup_lt_Some in Hj. lia.
    - apply lookup_lt_Some in Hj as Hlt. destruct (Hv j pa Hj) as [Hx _]. destruct (Hx Ho). lia. }
  assert (fd_rel s2 d1) as R2 by (intros fd; rewrite T2; apply R1).
  destruct (close_pipes_run pipes s2 d1 R2) as (t & d3 & Hr3 & R3 & Hd3).
  exists cs, bufs, (set_fds t s2). rewrite (M_bind_Ok _ _ _ _ _ Hr1), (M_bind_Ok _ _ _ _ _ Hr2), (M_bind_Ok _ _ _ _ _ Hr3).
  split_and!; [done| |done|destruct P1; lia|done|].
  - intros fd. rewrite R3, Hd3. specialize (Hfd fd). by destruct (decide (fd ∈ ends pipes)).
  - intros i pa c Hi Hc. apply (child_of_shell _ (objs s1) _ _ _ _ pipes _ d1); [done|done| |done|by apply Hcs].
    intros fd o Ho. destruct (Hop fd o Ho) as [f Hf]. rewrite Hf. by apply (gr_objs _ _ G1).
Qed.

(** ** The calls on the disk of the file system *)

(** A string as the bytes the kernel reads, up to its NUL. *)
Definition utf8_enc (c : Z) : list Z := if c <? 128 then [c] else [Z.lor 192 (Z.shiftr c 6); Z.lor 128 (Z.land c 63)].
Definition user_bytes (s : list Z) : list Z := before_nul (s ≫= utf8_enc).

Section disk.
Context (fs : EasyFileSystem) (nd ni : Z) (pfuel : nat).

(** [getcwd] with a cleared buffer that does not cross a page *)
Definition getcwd_buffer (len : Z) : M (@fstate Disk) (Z * list Z) :=
  f_gets cwd ≫= λ c, d_run (name_for_inode fs pfuel (inode_at fs c)) ≫= λ name,
  mret (if len <? Z.of_nat (length name) + 1 then (-1, replicate (Z.to_nat len) 0)
        else (0, name ++ replicate (Z.to_nat len - length name) 0)).
#[local] Instance disk_calls : UserCalls Disk := {
  u_open path flags := openat_path fs pfuel AT_FDCWD (user_bytes path) flags;
  u_chdir path := chdir_path fs pfuel (user_bytes path);
  u_getcwd := getcwd_buffer;
}.

(** The disk represents a tree in which the current directory can be located,
    with room for the name if it is to be made. *)
Definition disk_ready (i : Disk) (c : Z) (path : list Z) (flags : Z) : Prop :=
  held i = ∅ ∧ ∃ tr names lay, fs_rel fs nd ni (blocks i) lay tr ∧ located tr c names ∧ (length names < pfuel)%nat ∧
    open_ok fs nd ni (blocks i) tr (if starts_with_slash (user_bytes path) then 0 else c) (user_bytes path) (from_bits_truncate flags).

#[local] Program Instance disk_laws : UserLaws Disk := { open_ready := disk_ready }.
Next Obligation.
  intros s d path flags Hfd (Hh & tr & names & lay & Hr & Hloc & Hf & Hok).
  destruct (openat_path_spec fs nd ni pfuel s tr names (user_bytes path) flags d) as (r & tr' & lay' & m' & Hsp & _ & Hro & Hres);
    [split; eauto|done|done|].
  exists (mkDisk m' ∅). split.
  { intros ->. rewrite (Hro eq_refl). destruct (inodes s) as [m h]. simpl in *. by rewrite Hh. }
  destruct r as [f|]; [right|by left]. destruct Hres as (n & t & Hl & Hrun & Hd). exists n, t, f. split_and!; [done| |done|done].
  unfold open_spec, opened in *. destruct (read_write _) as [rd wr]. destruct (split_parent _) as [p fn].
  repeat match goal with
  | H : context [match ?x with _ => _ end] |- _ => destruct x
  end; naive_solver.
Qed.
End disk.

(** ** ["cat < /hi | sort | wc > abc"] in the directory ["/hi"] *)
Module PipelineDemo.
Import FsSpec.FsDemo PathDemo CallDemo.

#[local] Existing Instance disk_calls.
#[local] Existing Instance disk_laws.

Definition pas : list ProcessArguments :=
  pa_of <$> [mkCmd [[99; 97; 116]] (47 :: hi) []; mkCmd [[115; 111; 114; 116]] [] []; mkCmd [[119; 99]] [] abc].
Definition shell : @fstate Disk :=
  mkF Demo.st (mkDisk sub_disk ∅) {[0 := Stdin; 1 := Stdout]} 2 (mkMS Demo.pt []) [Some 0; Some 1; Some 1] 1.
Definition shell_fds : gmap nat Z := {[0%nat := 0; 1%nat := 1; 2%nat := 1]}.

Lemma shell_rel : fd_rel shell shell_fds.
Proof.
  intros fd. do 3 (destruct fd as [|fd]; [reflexivity|]). symmetry. unfold shell_fds. rewrite !lookup_insert_ne by lia. by rewrite lookup_singleton_ne by lia.
Qed.
Lemma shell_objs : fresh_objs shell ∧ all_open shell shell_fds.
Proof.
  assert (map_Forall (λ o _, o < 2) (objs shell)) as H1 by (apply (bool_decide_unpack _); vm_compute; exact I).
  assert (map_Forall (λ _ o, is_Some (objs shell !! o)) shell_fds) as H2 by (apply (bool_decide_unpack _); vm_compute; exact I).
  split; [exact H1|exact H2].
Qed.

Lemma shell_ready path flags :
  (flags_contain (from_bits_truncate flags) CREATE = true → user_bytes path = abc) →
  open_ready (UserLaws := disk_laws small_fs 30 8 2) (inodes shell) 1 path flags.
Proof.
  intros Habc. split; [done|]. destruct sub_rel as [lay' Hr]. exists sub_tree, [hi], lay'.
  split_and!; [exact Hr|exact hi_located|apply Nat.ltb_lt; reflexivity|].
  intros Hc p Hp _. rewrite (Habc Hc) in *. assert (resolve_path sub_tree 1 [46] = Some 1) as Hd by (vm_compute; reflexivity).
  change (resolve_path sub_tree 1 [46] = Some p) in Hp. rewrite Hd in Hp. injection Hp as <-.
  split; [apply abc_name|]. exists [([46], 1); ([46; 46], 0)]. split; [vm_compute; reflexivity|apply hi_room].
Qed.

Lemma pipeline_wired_witness :
  ∃ cs (bufs : list Z) s', run_pipeline (UserCalls0 := disk_calls small_fs 2) pas shell = Ok (cs, s') ∧ fd_rel s' shell_fds ∧
    NoDup bufs ∧ length bufs = 2%nat ∧ length cs = 3%nat.
Proof.
  destruct (pipeline_wired (UserCalls0 := disk_calls small_fs 2) (UserLaws0 := disk_laws small_fs 30 8 2) pas shell shell_fds)
    as (cs & bufs & s' & H1 & H2 & H3 & H4 & H5 & _).
  - apply shell_rel.
  - apply shell_objs.
  - apply shell_objs.
  - by eexists.
  - by eexists.
  - discriminate.
  - reflexivity.
  - repeat apply Forall_cons_2; [..|apply Forall_nil_2]; (split; [discriminate|]); split; intros Hne;
      try (by destruct Hne); apply shell_ready; intros Hc; [vm_compute in Hc; discriminate Hc|reflexivity].
  - exists cs, bufs, s'. auto.
Defined.

(** The run: each child's table, and the files behind descriptors 0 and 1. *)
Example pipeline_runs :
  match run_pipeline (UserCalls0 := disk_calls small_fs 2) pas shell with
  | Ok (cs, s) =>
      (λ c, (λ fd, descriptor (c_fds c) fd ≫= λ o, objs s !! o) <$> [0; 1; 3; 4]%nat) <$> cs =
      [[Some (OSInode true false 0 1); Some (PipeEnd false true 2); None; None];
       [Some (PipeEnd true false 2); Some (PipeEnd false true 4); None; None];
       [Some (PipeEnd true false 4); Some (OSInode false true 0 2); None; None]]
  | Err _ => False
  end.
Proof. vm_compute. reflexivity. Qed.

(** An empty command in a chain: the child indexes its missing first argument. *)
Example empty_command_panics :
  match handle_line (UserCalls0 := disk_calls small_fs 2) [124] shell with
  | Ok (LRan cs, _) => c_res <$> cs = [ChildPanics; ChildPanics]
  | _ => False
  end.
Proof. vm_compute. reflexivity. Qed.
End PipelineDemo.
