(* ===== verification/Process.v ===== *)
(** * Processes and threads (os/src/task/process.rs, task/task.rs, task/mod.rs:
      exit, task/manager.rs: PID2PCB, syscall/process.rs, syscall/thread.rs)

    The kernel's table of process control blocks and threads, with the memory
    they own.  A process is named by its pid (unique among live control blocks,
    since the handle of a pid is dropped with its block), a thread by a number
    of its own.  [Arc] references are counted where the code counts them. *)
From S2P Require Import Prelude Bytes Address FrameAllocator PageTable MemorySet AddressSpace IdAlloc UserMem Mmap Signal OpenFiles.

Record tcb := mkTcb {
  t_pid : Z;
  t_kstack : Z;
  t_res : option TaskUserRes;
  t_trap_ppn : Z;
  t_exit : option Z;
  t_sig : SignalProcessor;
}.
Record pcb := mkPcb {
  p_zombie : bool;
  p_space : MemorySet;
  p_parent : option Z;
  p_children : list Z;
  p_exit : Z;
  p_fds : list (option Z);
  p_mutexes : list (option Z);
  p_semaphores : list (option Z);
  p_condvars : list (option Z);
  p_signals : Z;
  p_tasks : list (option Z);
  p_tids : RecycleAllocator;
  p_mapped : list MMapReserve;
  p_va : Z;
  p_fms : list FileMapping;
  p_cwd : Z;
}.

(** [ks]: the kernel's space, its stack slots and physical memory.  [refs]:
    processes an [Arc] of which is held on the kernel stack of a suspended
    thread.  [held]: threads a wait queue, a timer or the processor refers to. *)
Record os := mkOs {
  ks : KState;
  pids : RecycleAllocator;
  procs : gmap Z pcb;
  tcbs : gmap Z tcb;
  next_tcb : Z;
  pid2pcb : gset Z;
  ready : list Z;
  refs : list Z;
  held : gset Z;
  fobjs : gmap Z File;
  next_fobj : Z;
  disk : gmap Z (list Z);
}.
Definition set_ks k s := mkOs k (pids s) (procs s) (tcbs s) (next_tcb s) (pid2pcb s) (ready s) (refs s) (held s) (fobjs s) (next_fobj s) (disk s).
Definition set_pids a s := mkOs (ks s) a (procs s) (tcbs s) (next_tcb s) (pid2pcb s) (ready s) (refs s) (held s) (fobjs s) (next_fobj s) (disk s).
Definition set_procs a s := mkOs (ks s) (pids s) a (tcbs s) (next_tcb s) (pid2pcb s) (ready s) (refs s) (held s) (fobjs s) (next_fobj s) (disk s).
Definition set_tcbs a n s := mkOs (ks s) (pids s) (procs s) a n (pid2pcb s) (ready s) (refs s) (held s) (fobjs s) (next_fobj s) (disk s).
Definition set_pid2pcb a s := mkOs (ks s) (pids s) (procs s) (tcbs s) (next_tcb s) a (ready s) (refs s) (held s) (fobjs s) (next_fobj s) (disk s).
Definition set_ready a s := mkOs (ks s) (pids s) (procs s) (tcbs s) (next_tcb s) (pid2pcb s) a (refs s) (held s) (fobjs s) (next_fobj s) (disk s).
Definition set_fobjs a n s := mkOs (ks s) (pids s) (procs s) (tcbs s) (next_tcb s) (pid2pcb s) (ready s) (refs s) (held s) a n (disk s).
Definition set_disk a s := mkOs (ks s) (pids s) (procs s) (tcbs s) (next_tcb s) (pid2pcb s) (ready s) (refs s) (held s) (fobjs s) (next_fobj s) a.

Definition with_space m p := mkPcb (p_zombie p) m (p_parent p) (p_children p) (p_exit p) (p_fds p) (p_mutexes p) (p_semaphores p) (p_condvars p) (p_signals p) (p_tasks p) (p_tids p) (p_mapped p) (p_va p) (p_fms p) (p_cwd p).
Definition with_tids a p := mkPcb (p_zombie p) (p_space p) (p_parent p) (p_children p) (p_exit p) (p_fds p) (p_mutexes p) (p_semaphores p) (p_condvars p) (p_signals p) (p_tasks p) a (p_mapped p) (p_va p) (p_fms p) (p_cwd p).
Definition with_tasks a p := mkPcb (p_zombie p) (p_space p) (p_parent p) (p_children p) (p_exit p) (p_fds p) (p_mutexes p) (p_semaphores p) (p_condvars p) (p_signals p) a (p_tids p) (p_mapped p) (p_va p) (p_fms p) (p_cwd p).
Definition with_parent a p := mkPcb (p_zombie p) (p_space p) a (p_children p) (p_exit p) (p_fds p) (p_mutexes p) (p_semaphores p) (p_condvars p) (p_signals p) (p_tasks p) (p_tids p) (p_mapped p) (p_va p) (p_fms p) (p_cwd p).
Definition with_children a p := mkPcb (p_zombie p) (p_space p) (p_parent p) a (p_exit p) (p_fds p) (p_mutexes p) (p_semaphores p) (p_condvars p) (p_signals p) (p_tasks p) (p_tids p) (p_mapped p) (p_va p) (p_fms p) (p_cwd p).
Definition with_exit code p := mkPcb true (p_space p) (p_parent p) (p_children p) code (p_fds p) (p_mutexes p) (p_semaphores p) (p_condvars p) (p_signals p) (p_tasks p) (p_tids p) (p_mapped p) (p_va p) (p_fms p) (p_cwd p).
Definition with_fds a p := mkPcb (p_zombie p) (p_space p) (p_parent p) (p_children p) (p_exit p) a (p_mutexes p) (p_semaphores p) (p_condvars p) (p_signals p) (p_tasks p) (p_tids p) (p_mapped p) (p_va p) (p_fms p) (p_cwd p).

(** Computations on parts of the state. *)
Definition o_gets {A} (f : os → A) : M os A := λ s, Ok (f s, s).
Definition o_modify (f : os → os) : M os () := λ s, Ok ((), f s).
Definition o_ks {A} (c : M KState A) : M os A := λ s,
  match c (ks s) with Ok (a, k) => Ok (a, set_ks k s) | Err e => Err e end.
Definition o_mem {A} (c : M kmem A) : M os A := λ s,
  match c (kmem_of (ks s)) with
  | Ok (a, k) => Ok (a, set_ks (mkKS (kstack_allocator (ks s)) (kernel_space (ks s)) k) s)
  | Err e => Err e
  end.
Definition get_proc (pid : Z) : M os pcb := λ s, match procs s !! pid with Some p => Ok (p, s) | None => Err Panicked end.
Definition get_tcb (t : Z) : M os tcb := λ s, match tcbs s !! t with Some x => Ok (x, s) | None => Err Panicked end.
Definition upd_proc (pid : Z) (f : pcb → pcb) : M os () :=
  get_proc pid ≫= λ p, o_modify (λ s, set_procs (<[pid := f p]> (procs s)) s).
Definition upd_tcb (t : Z) (x : tcb) : M os () := o_modify (λ s, set_tcbs (<[t := x]> (tcbs s)) (next_tcb s) s).
(** A computation on the address space of a process. *)
Definition on_space (pid : Z) (c : MemorySet → M kmem MemorySet) : M os () :=
  get_proc pid ≫= λ p, o_mem (c (p_space p)) ≫= λ ms, upd_proc pid (with_space ms).

Definition pid_alloc : M os Z := λ s, let '(id, a) := ra_alloc (pids s) in Ok (id, set_pids a s).
Definition pid_drop (pid : Z) : M os () := λ s,
  match ra_dealloc (pids s) pid with Ok a => Ok ((), set_pids a s) | Err e => Err e end.
Definition insert_into_pid2process (pid : Z) : M os () := o_modify (λ s, set_pid2pcb ({[pid]} ∪ pid2pcb s) s).
Definition remove_from_pid2process (pid : Z) : M os () := λ s,
  if bool_decide (pid ∈ pid2pcb s) then Ok ((), set_pid2pcb (pid2pcb s ∖ {[pid]}) s) else Err Panicked.
Definition add_ready (t : Z) : M os () := o_modify (λ s, set_ready (ready s ++ [t]) s).

(** ** Trap contexts in memory *)
Definition trap_words (c : TrapContext) : list Z :=
  tc_x c ++ [sstatus c; sepc c; kernel_satp c; kernel_sp c; tc_trap_handler c].
Definition write_trap_cx (ppn : Z) (c : TrapContext) : M kmem () := copy_to ppn (words_enc 8 (trap_words c)).
(** One word of the context: [x[i]] is word [i], [kernel_sp] is word 35. *)
Definition set_trap_word (ppn : Z) (i : nat) (v : Z) : M kmem () := λ s,
  match mem s !! ppn with
  | Some pg => Ok ((), mkMem (fa s) (<[ppn := set_le 8 pg i v]> (mem s)))
  | None => Err Panicked
  end.
Definition KERNEL_SP_WORD : nat := 35.

(** ** Creating threads *)
Definition tcb_new (pid base : Z) (allow_user_res : bool) : M os Z :=
  get_proc pid ≫= λ p,
  o_mem (task_user_res_new (p_tids p) (p_space p) base allow_user_res) ≫= λ '(r, tids, ms),
  upd_proc pid (λ p, with_tids tids (with_space ms p)) ≫= λ _,
  o_mem (trap_cx_ppn r ms) ≫= λ ppn,
  o_ks kstack_alloc ≫= λ k,
  o_gets next_tcb ≫= λ t,
  o_modify (λ s, set_tcbs (<[t := mkTcb pid k (Some r) ppn None signal_processor_new]> (tcbs s)) (t + 1) s) ≫= λ _, mret t.

Definition push_task (pid t : Z) : M os () := upd_proc pid (λ p, with_tasks (p_tasks p ++ [Some t]) p).
Definition get_task (pid : Z) (i : nat) : M os Z :=
  get_proc pid ≫= λ p, lift (unwrap (p_tasks p !! i)) ≫= λ o, lift (unwrap o).
Definition res_of (t : Z) : M os TaskUserRes := get_tcb t ≫= λ x, lift (unwrap (t_res x)).

Section machine.
(** What comes from outside: the ELF reader, the address of the trampoline code
    and of the trap handler, the value of [sstatus]. *)
Context (elf_new : list Z → option Elf) (strampoline handler status : Z).

Definition kernel_token : M os Z := o_gets (λ s, ms_token (kernel_space (ks s))).

Definition process_new (elf_data : list Z) : M os Z :=
  o_mem (from_elf elf_new strampoline elf_data) ≫= λ '(ms, ustack_base, entry),
  pid_alloc ≫= λ pid,
  o_gets next_fobj ≫= λ fo,
  (* stdin, stdout, stderr *)
  o_modify (λ s, set_fobjs (<[fo + 2 := Stdout]> (<[fo + 1 := Stdout]> (<[fo := Stdin]> (fobjs s)))) (fo + 3) s) ≫= λ _,
  o_modify (λ s, set_procs (<[pid := mkPcb false ms None [] 0 [Some fo; Some (fo + 1); Some (fo + 2)] [] [] [] 0 [] ra_new []
                                     (va_allocator_new MMAP_AREA_BASE) [] 0]> (procs s)) s) ≫= λ _,
  tcb_new pid ustack_base true ≫= λ t,
  get_tcb t ≫= λ x, res_of t ≫= λ r, kernel_token ≫= λ satp,
  o_mem (write_trap_cx (t_trap_ppn x) (app_init_context status entry (ustack_top r) satp (get_top (t_kstack x)) handler)) ≫= λ _,
  push_task pid t ≫= λ _, insert_into_pid2process pid ≫= λ _, add_ready t ≫= λ _, mret pid.

(** The new table of descriptors: files on disk are copied, others shared. *)
Fixpoint copy_fds (t : list (option Z)) : M os (list (option Z)) :=
  match t with
  | [] => mret []
  | Some o :: rest =>
      o_gets (λ s, fobjs s !! o) ≫= λ f, lift (unwrap f) ≫= λ file,
      (match file with
       | OSInode _ _ _ _ =>
           o_gets next_fobj ≫= λ n, o_modify (λ s, set_fobjs (<[n := osinode_copy file]> (fobjs s)) (n + 1) s) ≫= λ _, mret n
       | _ => mret o
       end) ≫= λ o', copy_fds rest ≫= λ t', mret (Some o' :: t')
  | None :: rest => copy_fds rest ≫= λ t', mret (None :: t')
  end.

Definition fork (pid : Z) : M os Z :=
  get_proc pid ≫= λ parent,
  lift (assert (length (p_tasks parent) =? 1)%nat) ≫= λ _,
  o_mem (from_existed_user strampoline (p_space parent)) ≫= λ ms,
  pid_alloc ≫= λ child,
  copy_fds (p_fds parent) ≫= λ fds,
  o_mem (copy_file_mappings (p_fms parent) ms) ≫= λ '(ms, fms),
  o_modify (λ s, set_procs (<[child := mkPcb false ms (Some pid) [] 0 fds [] [] [] 0 [] ra_new
                                       (p_mapped parent) (p_va parent) fms (p_cwd parent)]> (procs s)) s) ≫= λ _,
  upd_proc pid (λ p, with_children (p_children p ++ [child]) p) ≫= λ _,
  get_task pid 0 ≫= λ t0, res_of t0 ≫= λ r0,
  tcb_new child (ustack_base r0) false ≫= λ t,
  push_task child t ≫= λ _,
  get_tcb t ≫= λ x,
  o_mem (set_trap_word (t_trap_ppn x) KERNEL_SP_WORD (get_top (t_kstack x))) ≫= λ _,
  insert_into_pid2process child ≫= λ _, add_ready t ≫= λ _, mret child.

Definition sys_fork (pid : Z) : M os Z :=
  fork pid ≫= λ child,
  get_task child 0 ≫= λ t, get_tcb t ≫= λ x,
  o_mem (set_trap_word (t_trap_ppn x) 10 0) ≫= λ _, mret child.

(** ** exec *)
(** Dropping a [MemorySet]: the page table's frames, then those of the areas. *)
Definition drop_space (ms : MemorySet) : M kmem () :=
  drop_frames (frames (page_table ms)) ≫= λ _, drop_areas (areas ms).

Fixpoint write_bytes (tok p : Z) (bs : list Z) : M kmem () :=
  match bs with
  | [] => mret ()
  | b :: rest => write_user 1 tok p b ≫= λ _, write_bytes tok (u64 (p + 1)) rest
  end.
(** The argument strings below the pointer array, each with a final NUL. *)
Fixpoint push_args (tok argv_base : Z) (args : list (list Z)) (i : Z) (user_sp : Z) : M kmem Z :=
  match args with
  | [] => mret user_sp
  | a :: rest =>
      let user_sp := u64 (user_sp - (Z.of_nat (length a) + 1)) in
      write_user 8 tok (u64 (argv_base + i * 8)) user_sp ≫= λ _,
      write_bytes tok user_sp (a ++ [0]) ≫= λ _,
      push_args tok argv_base rest (i + 1) user_sp
  end.

(** The argument vector below [top]: the pointer array with a final null, then the strings. *)
Definition push_argv (tok top : Z) (args : list (list Z)) : M kmem (Z * Z) :=
  let argc := Z.of_nat (length args) in
  let argv_base := u64 (top - (argc + 1) * 8) in
  write_user 8 tok (u64 (argv_base + argc * 8)) 0 ≫= λ _,
  push_args tok argv_base args 0 argv_base ≫= λ user_sp, mret (argv_base, user_sp).

Definition exec (pid : Z) (elf_data : list Z) (args : list (list Z)) : M os () :=
  get_proc pid ≫= λ p,
  lift (assert (length (p_tasks p) =? 1)%nat) ≫= λ _,
  o_mem (from_elf elf_new strampoline elf_data) ≫= λ '(ms, base, entry),
  let new_token := ms_token ms in
  upd_proc pid (with_space ms) ≫= λ _, o_mem (drop_space (p_space p)) ≫= λ _,
  get_task pid 0 ≫= λ t, get_tcb t ≫= λ x, res_of t ≫= λ r,
  let r := mkRes (tid r) base in
  on_space pid (alloc_user_res r) ≫= λ _,
  get_proc pid ≫= λ p,
  o_mem (trap_cx_ppn r (p_space p)) ≫= λ ppn,
  upd_tcb t (mkTcb (t_pid x) (t_kstack x) (Some r) ppn (t_exit x) (t_sig x)) ≫= λ _,
  let argc := Z.of_nat (length args) in
  o_mem (push_argv new_token (ustack_top r) args) ≫= λ '(argv_base, user_sp),
  let user_sp := user_sp - user_sp mod 8 in
  kernel_token ≫= λ satp,
  o_mem (write_trap_cx ppn
    (set_x 11 argv_base (set_x 10 argc (app_init_context status entry user_sp satp (get_top (t_kstack x)) handler)))).

(** The argument pointers up to the null one, each string read from user memory. *)
Fixpoint read_args (fuel sfuel : nat) (tok args : Z) : M kmem (list (list Z)) :=
  match fuel with
  | O => λ _, Err Diverged
  | S fuel' =>
      read_user 8 tok args ≫= λ ptr,
      if ptr =? 0 then mret []
      else
        translated_str sfuel tok ptr ≫= λ a,
        read_args fuel' sfuel tok (u64 (args + 8)) ≫= λ rest, mret (a :: rest)
  end.
(** [program]: the contents of the file at a path, if there is one. *)
Definition sys_exec (program : gmap Z (list Z) → list Z → option (list Z)) (fuel sfuel : nat) (pid path args : Z) : M os Z :=
  get_proc pid ≫= λ p,
  let token := ms_token (p_space p) in
  o_mem (translated_str sfuel token path) ≫= λ path,
  o_mem (read_args fuel sfuel token args) ≫= λ args_vec,
  o_gets (λ s, program (disk s) path) ≫= λ elf,
  match elf with
  | Some elf_data => exec pid elf_data args_vec ≫= λ _, mret (Z.of_nat (length args_vec))
  | None => mret (-1)
  end.

(** ** Threads *)
Definition pad_tasks (l : list (option Z)) (n : nat) : list (option Z) := l ++ replicate (n - length l) None.
(** Replacing an entry drops the [Arc] that was there. *)
Definition drop_tcb (t : Z) : M os () :=
  o_gets ready ≫= λ rq, o_gets held ≫= λ hd,
  if bool_decide (t ∈ rq) || bool_decide (t ∈ hd) then mret ()
  else
    get_tcb t ≫= λ x,
    o_ks (kstack_drop (t_kstack x)) ≫= λ _,
    o_modify (λ s, set_tcbs (delete t (tcbs s)) (next_tcb s) s).

Definition sys_thread_create (pid cur entry arg : Z) : M os Z :=
  res_of cur ≫= λ r0,
  tcb_new pid (ustack_base r0) true ≫= λ t,
  add_ready t ≫= λ _,
  get_tcb t ≫= λ x, res_of t ≫= λ r,
  get_proc pid ≫= λ p,
  let n := Z.to_nat (tid r) in
  let tasks := pad_tasks (p_tasks p) (n + 1) in
  upd_proc pid (with_tasks (<[n := Some t]> tasks)) ≫= λ _,
  (match tasks !! n with Some (Some old) => drop_tcb old | _ => mret () end) ≫= λ _,
  kernel_token ≫= λ satp,
  o_mem (write_trap_cx (t_trap_ppn x)
    (set_x 10 arg (app_init_context status entry (ustack_top r) satp (get_top (t_kstack x)) handler))) ≫= λ _,
  mret (tid r).

Definition sys_waittid (pid cur : Z) (n : Z) : M os Z :=
  res_of cur ≫= λ r, get_proc pid ≫= λ p,
  if tid r =? n then mret (-1)
  else match p_tasks p !! Z.to_nat n with
       | Some (Some t) =>
           get_tcb t ≫= λ x,
           match t_exit x with
           | Some code =>
               upd_proc pid (with_tasks (<[Z.to_nat n := None]> (p_tasks p))) ≫= λ _, drop_tcb t ≫= λ _,
               lift (ra_dealloc (p_tids p) n) ≫= λ tids,
               upd_proc pid (with_tids tids) ≫= λ _, mret code
           | None => mret (-2)
           end
       | _ => mret (-1)
       end.

(** ** Exit and wait *)
Definition INITPROC : Z := 0.
Definition IDLE_PID : Z := 0.

Fixpoint reparent (cs : list Z) : M os () :=
  match cs with
  | [] => mret ()
  | c :: rest =>
      upd_proc c (with_parent (Some INITPROC)) ≫= λ _,
      upd_proc INITPROC (λ p, with_children (p_children p ++ [c]) p) ≫= λ _,
      reparent rest
  end.
(** Take the user resources of the threads, to be dropped afterwards. *)
Fixpoint take_res (ts : list (option Z)) : M os (list TaskUserRes) :=
  match ts with
  | [] => mret []
  | Some t :: rest =>
      get_tcb t ≫= λ x,
      upd_tcb t (mkTcb (t_pid x) (t_kstack x) None (t_trap_ppn x) (t_exit x) (t_sig x)) ≫= λ _,
      take_res rest ≫= λ l, mret (match t_res x with Some r => r :: l | None => l end)
  | None :: rest => take_res rest
  end.
Fixpoint drop_res (pid : Z) (l : list TaskUserRes) : M os () :=
  match l with
  | [] => mret ()
  | r :: rest => on_space pid (dealloc_user_res r) ≫= λ _, drop_res pid rest
  end.
Fixpoint drop_tcbs (ts : list (option Z)) : M os () :=
  match ts with
  | [] => mret ()
  | Some t :: rest => drop_tcb t ≫= λ _, drop_tcbs rest
  | None :: rest => drop_tcbs rest
  end.
(** [mapping.sync()] for each mapping, through the operations of Mmap.v. *)
Fixpoint sync_mappings (fms : list FileMapping) : M os () :=
  match fms with
  | [] => mret ()
  | fm :: rest =>
      (λ s, match fm_sync fm (mkMst (kmem_of (ks s)) (disk s) (mkMS (mkPT 0 []) []) [] 0 [] []) with
            | Ok (_, m) => Ok ((), set_disk (files m) (set_ks (mkKS (kstack_allocator (ks s)) (kernel_space (ks s)) (km m)) s))
            | Err e => Err e
            end) ≫= λ _, sync_mappings rest
  end.

(** What [exit] leaves: the next thread runs, or the machine is powered off. *)
Inductive after_exit := Switch | PowerOff (failure : bool).

Definition exit_process (pid exit_code : Z) : M os () :=
  remove_from_pid2process pid ≫= λ _,
  upd_proc pid (with_exit exit_code) ≫= λ _,
  get_proc pid ≫= λ p,
  reparent (p_children p) ≫= λ _,
  take_res (p_tasks p) ≫= λ rs,
  drop_res pid rs ≫= λ _,
  upd_proc pid (with_children []) ≫= λ _,
  on_space pid recycle_data_pages ≫= λ _,
  upd_proc pid (with_fds []) ≫= λ _,
  sync_mappings (p_fms p) ≫= λ _,
  (* popped from the end *)
  upd_proc pid (λ p, with_tasks (take 1 (p_tasks p)) p) ≫= λ _,
  drop_tcbs (rev (drop 1 (p_tasks p))).

Definition exit_current_and_run_next (cur exit_code : Z) : M os after_exit :=
  get_tcb cur ≫= λ x, lift (unwrap (t_res x)) ≫= λ r,
  let pid := t_pid x in
  (* dropping the resources frees the user stack and the trap context *)
  upd_tcb cur (mkTcb pid (t_kstack x) None (t_trap_ppn x) (Some exit_code) (t_sig x)) ≫= λ _,
  on_space pid (dealloc_user_res r) ≫= λ _,
  if tid r =? 0 then
    if pid =? IDLE_PID then mret (PowerOff (negb (exit_code =? 0)))
    else exit_process pid exit_code ≫= λ _, mret Switch
  else mret Switch.

(** [Arc::strong_count] of a control block: parents' lists, PID2PCB and kernel stacks. *)
Definition count (x : Z) (l : list Z) : nat := length (filter (λ y, y = x) l).
Definition strong_count (s : os) (pid : Z) : nat :=
  (count pid (concat ((λ x, p_children x.2) <$> map_to_list (procs s)))
   + (if bool_decide (pid ∈ pid2pcb s) then 1 else 0) + count pid (refs s))%nat.

(** Dropping the last reference to a control block. *)
Definition drop_process (pid : Z) : M os () :=
  get_proc pid ≫= λ p,
  pid_drop pid ≫= λ _,
  o_mem (drop_space (p_space p)) ≫= λ _,
  drop_tcbs (p_tasks p) ≫= λ _,
  o_mem (drop_frames (concat (fm_frames <$> p_fms p))) ≫= λ _,
  o_modify (λ s, set_procs (delete pid (procs s)) s).

Definition sys_waitpid (cur pid exit_code_ptr : Z) : M os Z :=
  get_proc cur ≫= λ inner,
  match list_find (λ c, pid = -1 ∨ c = u64 pid) (p_children inner) with
  | None => mret (-1)
  | Some (idx, c) =>
      get_proc c ≫= λ p,
      if negb (p_zombie p) then mret (-2)
      else
        upd_proc cur (with_children (delete idx (p_children inner))) ≫= λ _,
        o_gets (λ s, strong_count s c) ≫= λ n,
        (* the list's reference is the local one now *)
        lift (assert (n =? 0)%nat) ≫= λ _,
        o_mem (write_user 4 (ms_token (p_space inner)) exit_code_ptr (u32 (p_exit p))) ≫= λ _,
        drop_process c ≫= λ _, mret c
  end.
End machine.
