(* ===== verification/ProcTree.v ===== *)
(** * The process tree: parents, children, zombies

    The operations of Process.v, whatever they do to memory, act on the table of
    processes as the transitions of an abstract tree; the tree's invariant says
    that every process but the first is the child of exactly one running
    process, so that an exited process is collected exactly once. *)
From S2P Require Import Prelude FrameAllocator MemorySet AddressSpace IdAlloc UserMem Mmap Process.

Record node := mkNode { n_zombie : bool; n_parent : option Z; n_children : list Z; n_code : Z }.
Definition node_of (p : pcb) : node := mkNode (p_zombie p) (p_parent p) (p_children p) (p_exit p).
Record tree := mkTree { nodes : gmap Z node; registered : gset Z; ids : RecycleAllocator; stacks : list Z }.
Definition tree_of (s : os) : tree := mkTree (node_of <$> procs s) (pid2pcb s) (pids s) (refs s).

(** ** Transitions of the tree *)
Definition add_child (c : Z) (n : node) : node := mkNode (n_zombie n) (n_parent n) (n_children n ++ [c]) (n_code n).
Definition set_parent (q : option Z) (n : node) : node := mkNode (n_zombie n) q (n_children n) (n_code n).
Definition set_children (l : list Z) (n : node) : node := mkNode (n_zombie n) (n_parent n) l (n_code n).
Definition set_dead (code : Z) (n : node) : node := mkNode true (n_parent n) (n_children n) code.

Definition t_fork (pid : Z) (t : tree) : option (Z * tree) :=
  let '(child, ids') := ra_alloc (ids t) in
  let ns := <[child := mkNode false (Some pid) [] 0]> (nodes t) in
  (λ n, (child, mkTree (<[pid := add_child child n]> ns) ({[child]} ∪ registered t) ids' (stacks t))) <$> ns !! pid.
Fixpoint t_reparent (cs : list Z) (ns : gmap Z node) : option (gmap Z node) :=
  match cs with
  | [] => Some ns
  | c :: rest =>
      n ← ns !! c; let ns := <[c := set_parent (Some INITPROC) n]> ns in
      i ← ns !! INITPROC; t_reparent rest (<[INITPROC := add_child c i]> ns)
  end.
Definition t_exit_process (pid code : Z) (t : tree) : option tree :=
  n ← nodes t !! pid;
  ns ← t_reparent (n_children n) (<[pid := set_dead code n]> (nodes t));
  n' ← ns !! pid;
  Some (mkTree (<[pid := set_children [] n']> ns) (registered t ∖ {[pid]}) (ids t) (stacks t)).
Definition t_collect (cur : Z) (idx : nat) (c : Z) (t : tree) : option tree :=
  n ← nodes t !! cur;
  match ra_dealloc (ids t) c with
  | Ok ids' => Some (mkTree (delete c (<[cur := set_children (delete idx (n_children n)) n]> (nodes t))) (registered t) ids' (stacks t))
  | Err _ => None
  end.

(** ** Computations that leave the tree alone *)
Definition keeps_tree {A} (c : M os A) : Prop := ∀ s a s', c s = Ok (a, s') → tree_of s' = tree_of s.

Lemma kt_bind {A B} (m : M os A) (f : A → M os B) : keeps_tree m → (∀ a, keeps_tree (f a)) → keeps_tree (m ≫= f).
Proof. intros Hm Hf s b s'' (a & s' & H1 & H2)%bind_inv. rewrite (Hf _ _ _ _ H2). by eapply Hm. Qed.
Lemma kt_ret {A} (a : A) : keeps_tree (mret a).
Proof. by intros s b s' [= <- <-]. Qed.
Lemma kt_lift {A} (o : outcome A) : keeps_tree (lift o).
Proof. by intros s a s' [_ ->]%lift_inv. Qed.
Lemma kt_gets {A} (f : os → A) : keeps_tree (o_gets f).
Proof. by intros s b s' [= <- <-]. Qed.
Lemma kt_mem {A} (c : M kmem A) : keeps_tree (o_mem c).
Proof. intros s a s'. unfold o_mem. destruct (c _) as [[? ?]|]; [intros [= <- <-]|]; done. Qed.
Lemma kt_ks {A} (c : M KState A) : keeps_tree (o_ks c).
Proof. intros s a s'. unfold o_ks. destruct (c _) as [[? ?]|]; [intros [= <- <-]|]; done. Qed.
Lemma kt_modify f : (∀ s, tree_of (f s) = tree_of s) → keeps_tree (o_modify f).
Proof. intros Hf s b s' [= <- <-]. apply Hf. Qed.
Lemma kt_get_proc pid : keeps_tree (get_proc pid).
Proof. intros s p s'. unfold get_proc. case_match; [intros [= <- <-]|]; done. Qed.
Lemma kt_get_tcb t : keeps_tree (get_tcb t).
Proof. intros s p s'. unfold get_tcb. case_match; [intros [= <- <-]|]; done. Qed.

Lemma get_proc_inv pid s p s' : get_proc pid s = Ok (p, s') → procs s !! pid = Some p ∧ s' = s.
Proof. unfold get_proc. case_match; [intros [= <- <-]|]; done. Qed.
Lemma upd_proc_run pid f s p : procs s !! pid = Some p → upd_proc pid f s = Ok ((), set_procs (<[pid := f p]> (procs s)) s).
Proof. intros Hp. unfold upd_proc, mbind, M_bind, get_proc. by rewrite Hp. Qed.
Lemma upd_proc_inv pid f s s' :
  upd_proc pid f s = Ok ((), s') → ∃ p, procs s !! pid = Some p ∧ s' = set_procs (<[pid := f p]> (procs s)) s.
Proof. intros (p & s1 & [Hp ->]%get_proc_inv & [= <-])%bind_inv. eauto. Qed.
(** Updating a control block updates its node. *)
Lemma upd_proc_tree pid f g s s' :
  upd_proc pid f s = Ok ((), s') → (∀ p, node_of (f p) = g (node_of p)) →
  ∃ n, nodes (tree_of s) !! pid = Some n ∧
    tree_of s' = mkTree (<[pid := g n]> (nodes (tree_of s))) (registered (tree_of s)) (ids (tree_of s)) (stacks (tree_of s)).
Proof.
  intros (p & Hp & ->)%upd_proc_inv Hg. exists (node_of p). unfold tree_of. simpl.
  rewrite lookup_fmap, Hp. split; [done|]. f_equal. by rewrite fmap_insert, Hg.
Qed.
Lemma kt_upd_proc pid f : (∀ p, node_of (f p) = node_of p) → keeps_tree (upd_proc pid f).
Proof.
  intros Hf s [] s' H. destruct (upd_proc_tree pid f id s s' H Hf) as (n & Hn & ->).
  change (id n) with n. by rewrite insert_id by exact Hn.
Qed.

Create HintDb tree.
#[export] Hint Resolve kt_bind kt_ret kt_lift kt_gets kt_mem kt_ks kt_get_proc kt_get_tcb : tree.
#[export] Hint Extern 1 (keeps_tree (o_modify _)) => apply kt_modify; done : tree.
#[export] Hint Extern 1 (keeps_tree (upd_proc _ _)) => apply kt_upd_proc; done : tree.
Ltac kt := repeat first [progress intros | case_match | progress eauto 2 with tree | apply kt_bind].

Lemma kt_on_space pid c : keeps_tree (on_space pid c).
Proof. unfold on_space. kt. Qed.
Lemma kt_upd_tcb t x : keeps_tree (upd_tcb t x).
Proof. unfold upd_tcb. kt. Qed.
Lemma kt_res_of t : keeps_tree (res_of t).
Proof. unfold res_of. kt. Qed.
Lemma kt_get_task pid i : keeps_tree (get_task pid i).
Proof. unfold get_task. kt. Qed.
Lemma kt_tcb_new pid base b : keeps_tree (tcb_new pid base b).
Proof. unfold tcb_new. kt. Qed.
Lemma kt_push_task pid t : keeps_tree (push_task pid t).
Proof. unfold push_task. kt. Qed.
Lemma kt_add_ready t : keeps_tree (add_ready t).
Proof. unfold add_ready. kt. Qed.
#[export] Hint Resolve kt_on_space kt_upd_tcb kt_res_of kt_get_task kt_tcb_new kt_push_task kt_add_ready : tree.
Lemma kt_drop_tcb t : keeps_tree (drop_tcb t).
Proof. unfold drop_tcb. kt. Qed.
#[export] Hint Resolve kt_drop_tcb : tree.
Lemma kt_copy_fds t : keeps_tree (copy_fds t).
Proof. induction t as [|[o|] t IH]; simpl; kt. Qed.
Lemma kt_take_res ts : keeps_tree (take_res ts).
Proof. induction ts as [|[t|] ts IH]; simpl; kt. Qed.
Lemma kt_drop_res pid l : keeps_tree (drop_res pid l).
Proof. induction l as [|r l IH]; simpl; kt. Qed.
Lemma kt_drop_tcbs ts : keeps_tree (drop_tcbs ts).
Proof. induction ts as [|[t|] ts IH]; simpl; kt. Qed.
Lemma kt_sync_mappings fms : keeps_tree (sync_mappings fms).
Proof.
  induction fms as [|fm fms IH]; simpl; [kt|]. apply kt_bind; [|kt].
  intros s a s'. destruct (fm_sync _ _) as [[? ?]|]; [intros [= <- <-]|]; done.
Qed.
#[export] Hint Resolve kt_copy_fds kt_take_res kt_drop_res kt_drop_tcbs kt_sync_mappings : tree.

(** ** The kernel's operations are transitions of the tree *)

(** From a state with tree [t], a run of [c] that returns ends in [Q]. *)
Definition tp {A} (c : M os A) (t : tree) (Q : A → tree → Prop) : Prop :=
  ∀ s a s', tree_of s = t → c s = Ok (a, s') → Q a (tree_of s').

Lemma tp_keep {A B} (m : M os A) (f : A → M os B) t Q : keeps_tree m → (∀ a, tp (f a) t Q) → tp (m ≫= f) t Q.
Proof. intros Hm Hf s b s'' <- (a & s' & H1 & H2)%bind_inv. eapply Hf; [|done]. by eapply Hm. Qed.
Lemma tp_bind {A B} (m : M os A) (f : A → M os B) t Q : tp m t (λ a t', tp (f a) t' Q) → tp (m ≫= f) t Q.
Proof. intros Hm s b s'' Ht (a & s' & H1 & H2)%bind_inv. by eapply (Hm s a s'). Qed.
Lemma tp_last {A} (c : M os A) t Q : keeps_tree c → (∀ a, Q a t) → tp c t Q.
Proof. intros Hk HQ s a s' <- H. by rewrite (Hk _ _ _ H). Qed.
Lemma tp_ret {A} (a : A) t (Q : A → tree → Prop) : Q a t → tp (mret a) t Q.
Proof. intros HQ s b s' <- [= <- <-]. done. Qed.
Lemma tp_upd_proc pid f g t Q :
  (∀ p, node_of (f p) = g (node_of p)) →
  (∀ n, nodes t !! pid = Some n → Q () (mkTree (<[pid := g n]> (nodes t)) (registered t) (ids t) (stacks t))) →
  tp (upd_proc pid f) t Q.
Proof. intros Hg HQ s [] s' <- H. destruct (upd_proc_tree pid f g s s' H Hg) as (n & Hn & ->). by apply HQ. Qed.
Lemma tp_pid_alloc t (Q : Z → tree → Prop) :
  (∀ c a, ra_alloc (ids t) = (c, a) → Q c (mkTree (nodes t) (registered t) a (stacks t))) → tp pid_alloc t Q.
Proof.
  intros HQ s c s' <- H. unfold pid_alloc in H. destruct (ra_alloc (pids s)) as [c' a] eqn:Ha. injection H as <- <-. by apply HQ.
Qed.
Lemma tp_new_proc c p t (Q : () → tree → Prop) :
  Q () (mkTree (<[c := node_of p]> (nodes t)) (registered t) (ids t) (stacks t)) →
  tp (o_modify (λ s, set_procs (<[c := p]> (procs s)) s)) t Q.
Proof. intros HQ s [] s' <- [= <-]. unfold tree_of. simpl. by rewrite fmap_insert. Qed.
Lemma tp_register c t (Q : () → tree → Prop) :
  Q () (mkTree (nodes t) ({[c]} ∪ registered t) (ids t) (stacks t)) → tp (insert_into_pid2process c) t Q.
Proof. intros HQ s [] s' <- [= <-]. done. Qed.
Lemma tp_unregister c t (Q : () → tree → Prop) :
  (c ∈ registered t → Q () (mkTree (nodes t) (registered t ∖ {[c]}) (ids t) (stacks t))) → tp (remove_from_pid2process c) t Q.
Proof. intros HQ s [] s' <- H. unfold remove_from_pid2process in H. case_bool_decide; [|done]. injection H as <-. by apply HQ. Qed.
Lemma tp_get_proc pid t (Q : pcb → tree → Prop) :
  (∀ p, nodes t !! pid = Some (node_of p) → Q p t) → tp (get_proc pid) t Q.
Proof. intros HQ s p s' <- [Hp ->]%get_proc_inv. apply HQ. simpl. by rewrite lookup_fmap, Hp. Qed.
Lemma tp_pid_drop c t (Q : () → tree → Prop) :
  (∀ a, ra_dealloc (ids t) c = Ok a → Q () (mkTree (nodes t) (registered t) a (stacks t))) → tp (pid_drop c) t Q.
Proof. intros HQ s [] s' <- H. unfold pid_drop in H. destruct (ra_dealloc (pids s) c) as [a|] eqn:Ha; [|done]. injection H as <-. by apply HQ. Qed.
Lemma tp_del_proc c t (Q : () → tree → Prop) :
  Q () (mkTree (delete c (nodes t)) (registered t) (ids t) (stacks t)) →
  tp (o_modify (λ s, set_procs (delete c (procs s)) s)) t Q.
Proof. intros HQ s [] s' <- [= <-]. unfold tree_of. simpl. by rewrite fmap_delete. Qed.

Ltac skip := apply tp_keep; [by kt|intros ?].

Section refine.
Context (elf_new : list Z → option Elf) (strampoline handler status : Z).

Lemma fork_tree pid t : tp (fork strampoline pid) t (λ c t', t_fork pid t = Some (c, t')).
Proof.
  unfold fork. do 3 skip. apply tp_bind, tp_pid_alloc. intros c a' Ha. skip. apply tp_keep; [by kt|intros [ms fms]].
  apply tp_bind, tp_new_proc, tp_bind. eapply (tp_upd_proc _ _ (add_child c)); [done|]. intros n Hn.
  do 6 skip. apply tp_bind, tp_register. skip. apply tp_ret.
  simpl in Hn. unfold t_fork. rewrite Ha. unfold node_of in *. simpl in *. by rewrite Hn.
Qed.

Lemma sys_fork_tree pid t : tp (sys_fork strampoline pid) t (λ c t', t_fork pid t = Some (c, t')).
Proof.
  unfold sys_fork. apply tp_bind. intros s c s' <- H. apply (fork_tree pid _ s c s' eq_refl) in H. rewrite H.
  do 3 skip. by apply tp_ret.
Qed.

Lemma reparent_tree cs t (Q : () → tree → Prop) :
  (∀ ns, t_reparent cs (nodes t) = Some ns → Q () (mkTree ns (registered t) (ids t) (stacks t))) → tp (reparent cs) t Q.
Proof.
  revert t. induction cs as [|c cs IH]; intros t HQ; simpl; [apply tp_ret; destruct t; by apply HQ|].
  apply tp_bind. eapply (tp_upd_proc _ _ (set_parent (Some INITPROC))); [done|]. intros n Hn.
  apply tp_bind. eapply (tp_upd_proc _ _ (add_child c)); [done|]. intros i Hi. apply IH. intros ns Hns. simpl in *.
  apply HQ. by rewrite Hn; simpl; rewrite Hi.
Qed.

Lemma exit_tree pid code t :
  tp (exit_process pid code) t (λ _ t', pid ∈ registered t ∧ t_exit_process pid code t = Some t').
Proof.
  unfold exit_process. apply tp_bind, tp_unregister. intros Hreg.
  apply tp_bind. eapply (tp_upd_proc _ _ (set_dead code)); [done|]. intros n Hn. simpl.
  apply tp_bind, tp_get_proc. intros p Hp. simpl in Hp. rewrite lookup_insert_eq in Hp. injection Hp as _ _ Hch _.
  apply tp_bind, reparent_tree. intros ns Hns. simpl in *. do 2 skip.
  apply tp_bind. eapply (tp_upd_proc _ _ (set_children [])); [done|]. intros n' Hn'. simpl in *.
  skip. apply tp_bind. apply (tp_upd_proc _ _ id); [done|]. intros n'' Hn''. simpl in Hn''. rewrite lookup_insert_eq in Hn''. injection Hn'' as <-.
  simpl. rewrite insert_insert_eq. skip.
  apply tp_bind. apply (tp_upd_proc _ _ id); [done|]. intros n'' Hn''. simpl in Hn''. rewrite lookup_insert_eq in Hn''. injection Hn'' as <-.
  simpl. rewrite insert_insert_eq. apply tp_last; [by kt|]. intros _. split; [done|].
  unfold t_exit_process. rewrite Hn. simpl. rewrite Hch, Hns. simpl. by rewrite Hn'.
Qed.

(** Exit of a thread: nothing for the tree, or the exit of its process. *)
Lemma exit_current_tree cur code t :
  tp (exit_current_and_run_next cur code) t (λ r t',
    t' = t ∨ ∃ pid, pid ≠ IDLE_PID ∧ pid ∈ registered t ∧ t_exit_process pid code t = Some t').
Proof.
  unfold exit_current_and_run_next. apply tp_keep; [by kt|intros x]. do 3 skip. case_match; [|apply tp_ret; by left].
  case_match; [apply tp_ret; by left|]. apply tp_bind. intros s [] s' <- Hr. apply tp_ret. right.
  exists (t_pid x). destruct (exit_tree (t_pid x) code _ s () s' eq_refl Hr) as [? ?].
  split; [by apply Z.eqb_neq|done].
Qed.

(** Waiting: refused, too early, or the child is collected. *)
Lemma drop_process_tree c t :
  tp (drop_process c) t (λ _ t', ∃ a, ra_dealloc (ids t) c = Ok a ∧ t' = mkTree (delete c (nodes t)) (registered t) a (stacks t)).
Proof.
  unfold drop_process. skip. apply tp_bind, tp_pid_drop. intros a' Ha. do 3 skip. apply tp_del_proc. eauto.
Qed.
Lemma waitpid_tree cur pid ptr t :
  tp (sys_waitpid cur pid ptr) t (λ r t', t' = t ∧ (r = -1 ∨ r = -2) ∨
    ∃ n idx m, nodes t !! cur = Some n ∧ list_find (λ c, pid = -1 ∨ c = u64 pid) (n_children n) = Some (idx, r) ∧
      nodes t !! r = Some m ∧ n_zombie m = true ∧ t_collect cur idx r t = Some t').
Proof.
  unfold sys_waitpid. apply tp_bind, tp_get_proc. intros p Hp.
  destruct (list_find _ _) as [[idx c]|] eqn:Hf; [|apply tp_ret; auto].
  apply tp_bind, tp_get_proc. intros q Hq. destruct (p_zombie q) eqn:Hz; simpl; [|apply tp_ret; auto].
  apply tp_bind. eapply (tp_upd_proc _ _ (set_children (delete idx (p_children p)))); [done|]. intros n Hn.
  rewrite Hp in Hn. injection Hn as <-. do 3 skip.
  apply tp_bind. intros s [] s' Ht Hr. destruct (drop_process_tree c _ s () s' Ht Hr) as (a' & Ha & ->). apply tp_ret. right.
  exists (node_of p), idx, (node_of q). split_and!; try done.
  unfold t_collect. rewrite Hp. simpl in *. by rewrite Ha.
Qed.
End refine.

(** ** The invariant *)
Record tree_ok (t : tree) : Prop := {
  ok_init : ∃ n, nodes t !! INITPROC = Some n ∧ n_zombie n = false;
  ok_ids : ra_inv (ids t, dom (nodes t));
  ok_reg : ∀ p, p ∈ registered t ↔ ∃ n, nodes t !! p = Some n ∧ n_zombie n = false;
  ok_child : ∀ p n c, nodes t !! p = Some n → c ∈ n_children n →
    c ≠ INITPROC ∧ ∃ m, nodes t !! c = Some m ∧ n_parent m = Some p;
  ok_nodup : ∀ p n, nodes t !! p = Some n → NoDup (n_children n);
  ok_parent : ∀ c m, nodes t !! c = Some m → c ≠ INITPROC →
    ∃ p n, n_parent m = Some p ∧ nodes t !! p = Some n ∧ c ∈ n_children n;
  ok_zombie : ∀ p n, nodes t !! p = Some n → n_zombie n = true → n_children n = [];
}.

(** A child has one parent. *)
Lemma one_parent t p q n m c :
  tree_ok t → nodes t !! p = Some n → nodes t !! q = Some m → c ∈ n_children n → c ∈ n_children m → p = q.
Proof.
  intros Ht Hp Hq Hc Hc'. destruct (ok_child _ Ht p n c Hp Hc) as (_ & x & Hx & Hxp).
  destruct (ok_child _ Ht q m c Hq Hc') as (_ & y & Hy & Hyp). congruence.
Qed.

(** *** Fork *)
Section fork_ok.
Context (t : tree) (pid c : Z) (n : node) (a' : RecycleAllocator).
Context (Ht : tree_ok t) (Hn : nodes t !! pid = Some n) (Hz : n_zombie n = false).
Context (Hfresh : c ∉ dom (nodes t)) (Hids : ra_inv (a', {[c]} ∪ dom (nodes t))).
Let new : node := mkNode false (Some pid) [] 0.
Let ns : gmap Z node := <[pid := add_child c n]> (<[c := new]> (nodes t)).

Lemma fork_old q m : nodes t !! q = Some m → q ≠ c.
Proof. intros Hq ->. apply Hfresh, elem_of_dom. eauto. Qed.
Lemma fork_lookup q :
  ns !! q = if decide (q = pid) then Some (add_child c n) else if decide (q = c) then Some new else nodes t !! q.
Proof.
  unfold ns. destruct (decide (q = pid)) as [->|]; [apply lookup_insert_eq|]. rewrite lookup_insert_ne by done.
  destruct (decide (q = c)) as [->|]; [apply lookup_insert_eq|]. by rewrite lookup_insert_ne.
Qed.
Lemma fork_keeps q m :
  nodes t !! q = Some m → ∃ m', ns !! q = Some m' ∧ n_zombie m' = n_zombie m ∧ n_parent m' = n_parent m ∧
    ∀ x, x ∈ n_children m → x ∈ n_children m'.
Proof.
  intros Hq. rewrite fork_lookup. destruct (decide (q = pid)) as [->|].
  - rewrite Hn in Hq. injection Hq as <-. eexists. split; [done|]. split_and!; [done|done|]. intros x Hx. apply elem_of_app. by left.
  - rewrite decide_False by (by eapply fork_old). eauto.
Qed.
(** A node after the fork: the parent, the child or an old one. *)
Lemma fork_cases q m : ns !! q = Some m →
  (q = pid ∧ m = add_child c n) ∨ (q = c ∧ c ≠ pid ∧ m = new) ∨ (q ≠ pid ∧ nodes t !! q = Some m).
Proof.
  rewrite fork_lookup. destruct (decide (q = pid)) as [->|]; [naive_solver|].
  destruct (decide (q = c)) as [->|]; naive_solver.
Qed.
Lemma fork_old_child p m x : nodes t !! p = Some m → x ∈ n_children m →
  x ≠ INITPROC ∧ ∃ y, ns !! x = Some y ∧ n_parent y = Some p.
Proof.
  intros Hp Hx. destruct (ok_child _ Ht _ _ _ Hp Hx) as (Hx0 & y & Hy & Hyp). split; [done|].
  destruct (fork_keeps _ _ Hy) as (y' & Hy' & _ & Hyp' & _). exists y'. split; [done|congruence].
Qed.
Lemma fork_old_parent x m : nodes t !! x = Some m → x ≠ INITPROC →
  ∃ p q, n_parent m = Some p ∧ ns !! p = Some q ∧ x ∈ n_children q.
Proof.
  intros Hx Hx0. destruct (ok_parent _ Ht _ _ Hx Hx0) as (p & q & Hp & Hq & Hin).
  destruct (fork_keeps _ _ Hq) as (q' & Hq' & _ & _ & Hc). exists p, q'. auto.
Qed.

Lemma fork_ok : tree_ok (mkTree ns ({[c]} ∪ registered t) a' (stacks t)).
Proof.
  assert (c ≠ pid) as Hne by (apply not_eq_sym, (fork_old _ _ Hn)).
  destruct (ok_init _ Ht) as (n0 & H0 & Hz0).
  split; simpl.
  - destruct (fork_keeps _ _ H0) as (m' & Hm' & Hzm & _). exists m'. split; [done|congruence].
  - replace (dom ns) with ({[c]} ∪ dom (nodes t)); [done|]. unfold ns. rewrite !dom_insert_L.
    assert (pid ∈ dom (nodes t)) by (apply elem_of_dom; eauto). set_solver.
  - intros p. rewrite elem_of_union, elem_of_singleton, (ok_reg _ Ht), fork_lookup.
    destruct (decide (p = pid)) as [->|]; [naive_solver|]. destruct (decide (p = c)) as [->|]; [|naive_solver].
    split; [eauto|by left].
  - intros p m x [[-> ->]|[(-> & _ & ->)|[_ Hp]]]%fork_cases Hx.
    + simpl in Hx. apply elem_of_app in Hx as [Hx|Hx%list_elem_of_singleton]; [by eapply fork_old_child|subst x].
      split; [apply not_eq_sym, (fork_old _ _ H0)|]. exists new. rewrite fork_lookup, decide_False, decide_True by done. done.
    + by apply elem_of_nil in Hx.
    + by eapply fork_old_child.
  - intros p m [[-> ->]|[(-> & _ & ->)|[_ Hp]]]%fork_cases; [|constructor|by eapply (ok_nodup _ Ht)].
    simpl. apply NoDup_app. split_and!; [by eapply (ok_nodup _ Ht)| |apply NoDup_singleton].
    intros x Hx Hxc%list_elem_of_singleton. destruct (ok_child _ Ht _ _ _ Hn Hx) as (_ & y & Hy & _). by apply (fork_old _ _ Hy).
  - intros x m [[-> ->]|[(-> & _ & ->)|[_ Hx]]]%fork_cases Hx0.
    + exact (fork_old_parent pid n Hn Hx0).
    + exists pid, (add_child c n). split_and!; [done|rewrite fork_lookup; by rewrite decide_True|].
      simpl. apply elem_of_app. right. by apply list_elem_of_singleton.
    + by eapply fork_old_parent.
  - intros p m [[-> ->]|[(-> & _ & ->)|[_ Hp]]]%fork_cases Hzm; [simpl in Hzm; congruence|done|by eapply (ok_zombie _ Ht)].
Qed.
End fork_ok.

Lemma t_fork_ok pid t c t' :
  tree_ok t → pid ∈ registered t → t_fork pid t = Some (c, t') → ra_current (ids t') < 2 ^ 64 - 1 →
  tree_ok t' ∧ c ∉ dom (nodes t).
Proof.
  intros Ht Hreg Hf Hb. apply (ok_reg _ Ht) in Hreg as (n & Hn & Hz). unfold t_fork in Hf.
  destruct (ra_alloc (ids t)) as [c' a'] eqn:Ha.
  destruct (<[c' := mkNode false (Some pid) [] 0]> (nodes t) !! pid) as [n'|] eqn:Hn'; simpl in Hf; [|done]. injection Hf as <- <-.
  destruct (ra_alloc_spec _ _ _ _ (ok_ids _ Ht) Ha Hb) as [Hfresh Hids].
  rewrite lookup_insert_ne, Hn in Hn' by (intros ->; apply Hfresh, elem_of_dom; eauto). injection Hn' as <-.
  split; [by apply fork_ok|done].
Qed.

(** *** Exit *)
Lemma reparent_lookup cs ns ns' :
  t_reparent cs ns = Some ns' → NoDup cs → INITPROC ∉ cs →
  ∀ q, ns' !! q = (λ m, if decide (q = INITPROC) then set_children (n_children m ++ cs) m
                        else if decide (q ∈ cs) then set_parent (Some INITPROC) m else m) <$> ns !! q.
Proof.
  revert ns. induction cs as [|c cs IH]; intros ns Hr Hnd H0 q.
  { injection Hr as <-. destruct (ns !! q) as [m|]; simpl; [|done]. f_equal. case_decide; [|done].
    unfold set_children. rewrite app_nil_r. by destruct m. }
  simpl in Hr. destruct (ns !! c) as [n|] eqn:Hc; simpl in Hr; [|done].
  apply NoDup_cons in Hnd as [Hcn Hnd]. apply not_elem_of_cons in H0 as [H0c H0].
  rewrite lookup_insert_ne in Hr by done. destruct (ns !! INITPROC) as [i|] eqn:Hi; simpl in Hr; [|done].
  rewrite (IH _ Hr Hnd H0 q). destruct (decide (q = INITPROC)) as [->|Hq].
  - rewrite lookup_insert_eq, Hi. simpl. f_equal. unfold set_children, add_child. simpl. by rewrite <- app_assoc.
  - rewrite lookup_insert_ne by done. destruct (decide (q = c)) as [->|Hqc].
    + rewrite lookup_insert_eq, Hc. simpl. rewrite (decide_False (P := c ∈ cs)) by done. by rewrite decide_True by left.
    + rewrite lookup_insert_ne by done. destruct (ns !! q); simpl; [|done]. f_equal.
      destruct (decide (q ∈ cs)); [by rewrite decide_True by (by right)|]. by rewrite decide_False by (by apply not_elem_of_cons).
Qed.
Lemma reparent_dom cs ns ns' : t_reparent cs ns = Some ns' → dom ns' = dom ns.
Proof.
  revert ns. induction cs as [|c cs IH]; intros ns Hr; [by injection Hr as <-|]. simpl in Hr.
  destruct (ns !! c) as [n|] eqn:Hc; simpl in Hr; [|done].
  destruct (<[c := _]> ns !! INITPROC) as [i|] eqn:Hi; simpl in Hr; [|done]. rewrite (IH _ Hr).
  apply elem_of_dom_2 in Hi, Hc. rewrite dom_insert_L in *. set_solver.
Qed.

Section exit_ok.
Context (t : tree) (pid code : Z) (n n' : node) (ns : gmap Z node).
Context (Ht : tree_ok t) (Hpid : pid ≠ INITPROC) (Hn : nodes t !! pid = Some n) (Hz : n_zombie n = false).
Context (Hre : t_reparent (n_children n) (<[pid := set_dead code n]> (nodes t)) = Some ns) (Hn' : ns !! pid = Some n').
Let fin : gmap Z node := <[pid := set_children [] n']> ns.

Lemma exit_no_init : INITPROC ∉ n_children n.
Proof. intros Hin. by destruct (ok_child _ Ht _ _ _ Hn Hin). Qed.

(** A node after the exit of [pid]. *)
Definition exit_node (q : Z) (m : node) : node :=
  if decide (q = INITPROC) then set_children (n_children m ++ n_children n) m
  else let m := if decide (q ∈ n_children n) then set_parent (Some INITPROC) m else m in
       if decide (q = pid) then set_children [] (set_dead code m) else m.
Lemma exit_lookup q : fin !! q = exit_node q <$> nodes t !! q.
Proof.
  pose proof (reparent_lookup _ _ _ Hre (ok_nodup _ Ht _ _ Hn) exit_no_init) as Hl. unfold fin, exit_node.
  destruct (decide (q = pid)) as [->|Hq].
  - rewrite lookup_insert_eq, Hn. simpl. pose proof Hn' as Hn2. rewrite Hl, lookup_insert_eq in Hn2. simpl in Hn2.
    destruct (decide (pid = INITPROC)); [done|]. injection Hn2 as <-. by destruct (decide (pid ∈ n_children n)).
  - rewrite lookup_insert_ne by done. rewrite Hl, lookup_insert_ne by done.
    destruct (nodes t !! q); simpl; [|done]. destruct (decide (q = INITPROC)); done.
Qed.
Lemma exit_back q m : fin !! q = Some m → ∃ m0, nodes t !! q = Some m0 ∧ m = exit_node q m0.
Proof. rewrite exit_lookup. destruct (nodes t !! q); simpl; naive_solver. Qed.
Lemma exit_children_in q m0 x : nodes t !! q = Some m0 → x ∈ n_children (exit_node q m0) →
  (q = INITPROC ∧ x ∈ n_children n) ∨ (q ≠ pid ∧ x ∈ n_children m0).
Proof.
  intros Hq. unfold exit_node. destruct (decide (q = INITPROC)) as [->|].
  - simpl. rewrite elem_of_app. intros [?|?]; [right|by left]. split; [by apply not_eq_sym|done].
  - intros Hx. right. destruct (decide (q ∈ n_children n)), (decide (q = pid)); simpl in Hx; try done; by apply elem_of_nil in Hx.
Qed.
Lemma exit_parent q m0 : n_parent (exit_node q m0) = if decide (q ≠ INITPROC ∧ q ∈ n_children n) then Some INITPROC else n_parent m0.
Proof.
  unfold exit_node. destruct (decide (q = INITPROC)), (decide (q ∈ n_children n)), (decide (q = pid)),
    (decide (q ≠ INITPROC ∧ q ∈ n_children n)); simpl; tauto.
Qed.
Lemma exit_zombie q m0 : nodes t !! q = Some m0 → n_zombie (exit_node q m0) = bool_decide (q = pid) || n_zombie m0.
Proof.
  intros Hq. unfold exit_node. destruct (decide (q = INITPROC)) as [->|]; [by rewrite bool_decide_eq_false_2|].
  destruct (decide (q = pid)) as [->|]; destruct (decide (_ ∈ n_children n)); simpl.
  1,2: by rewrite bool_decide_eq_true_2. all: by rewrite bool_decide_eq_false_2.
Qed.

Lemma exit_ok : tree_ok (mkTree fin (registered t ∖ {[pid]}) (ids t) (stacks t)).
Proof.
  destruct (ok_init _ Ht) as (i & Hi & Hiz).
  assert (∀ q, q ∈ n_children n → ∃ m, nodes t !! q = Some m ∧ n_parent m = Some pid) as Hcs
    by (intros q Hq; by apply (ok_child _ Ht _ _ _ Hn)).
  split; simpl.
  - exists (exit_node INITPROC i). rewrite exit_lookup, Hi. split; [done|]. by rewrite exit_zombie, Hiz, bool_decide_eq_false_2.
  - unfold fin. rewrite dom_insert_L, (reparent_dom _ _ _ Hre), dom_insert_L.
    replace ({[pid]} ∪ ({[pid]} ∪ dom (nodes t))) with (dom (nodes t)); [apply (ok_ids _ Ht)|].
    apply elem_of_dom_2 in Hn. set_solver.
  - intros p. rewrite elem_of_difference, elem_of_singleton, (ok_reg _ Ht), exit_lookup. split.
    + intros [(m & Hm & Hmz) Hne]. exists (exit_node p m). rewrite Hm. split; [done|].
      by rewrite exit_zombie, Hmz, bool_decide_eq_false_2.
    + intros (m & Hm & Hmz). destruct (nodes t !! p) as [m0|] eqn:Hp; simpl in Hm; [|done]. injection Hm as <-.
      rewrite exit_zombie in Hmz by done. apply orb_false_iff in Hmz as [?%bool_decide_eq_false ?]. eauto.
  - intros p m x (m0 & Hp & ->)%exit_back Hx. destruct (exit_children_in _ _ _ Hp Hx) as [[-> Hin]|[Hne Hin]].
    + destruct (Hcs x Hin) as (y & Hy & _). assert (x ≠ INITPROC) by (intros ->; by apply exit_no_init). split; [done|].
      exists (exit_node x y). rewrite exit_lookup, Hy, exit_parent, decide_True by done. done.
    + destruct (ok_child _ Ht _ _ _ Hp Hin) as (Hx0 & y & Hy & Hyp). split; [done|].
      exists (exit_node x y). rewrite exit_lookup, Hy, exit_parent, decide_False; [done|].
      intros [_ Hxc]. apply Hne. by eapply (one_parent t p pid m0 n x).
  - intros p m (m0 & Hp & ->)%exit_back. unfold exit_node. destruct (decide (p = INITPROC)) as [->|].
    + simpl. apply NoDup_app. split_and!; [by eapply (ok_nodup _ Ht)| |by eapply (ok_nodup _ Ht)].
      intros x Hx Hxc. apply Hpid. by eapply (one_parent t pid INITPROC n m0 x).
    + destruct (decide (p ∈ n_children n)), (decide (p = pid)); simpl; (constructor || by eapply (ok_nodup _ Ht)).
  - intros x m (m0 & Hx & ->)%exit_back Hx0. rewrite exit_parent. case_decide as Hin.
    + exists INITPROC, (exit_node INITPROC i). split_and!; [done|by rewrite exit_lookup, Hi|].
      unfold exit_node. rewrite decide_True by done. simpl. apply elem_of_app. by right; destruct Hin.
    + destruct (ok_parent _ Ht _ _ Hx Hx0) as (p & q & Hp & Hq & Hc). exists p, (exit_node p q).
      split_and!; [done|by rewrite exit_lookup, Hq|].
      assert (p ≠ pid) as Hpp. { intros ->. rewrite Hn in Hq. injection Hq as <-. by apply Hin. }
      unfold exit_node. destruct (decide (p = INITPROC)); [simpl; apply elem_of_app; by left|].
      rewrite (decide_False (P := p = pid)) by done. by destruct (decide (p ∈ n_children n)).
  - intros p m (m0 & Hp & ->)%exit_back Hzm. rewrite exit_zombie in Hzm by done. unfold exit_node.
    destruct (decide (p = INITPROC)) as [->|].
    + rewrite Hi in Hp. injection Hp as <-. rewrite Hiz, bool_decide_eq_false_2 in Hzm by done. done.
    + destruct (decide (p = pid)) as [->|]; [done|]. rewrite bool_decide_eq_false_2 in Hzm by done.
      destruct (decide (p ∈ n_children n)); simpl; by eapply (ok_zombie _ Ht).
Qed.
End exit_ok.

Lemma t_exit_ok pid code t t' :
  tree_ok t → pid ≠ INITPROC → pid ∈ registered t → t_exit_process pid code t = Some t' → tree_ok t'.
Proof.
  intros Ht Hpid Hreg He. apply (ok_reg _ Ht) in Hreg as (n & Hn & Hz). unfold t_exit_process in He. rewrite Hn in He. simpl in He.
  destruct (t_reparent _ _) as [ns|] eqn:Hre; simpl in He; [|done].
  destruct (ns !! pid) as [n'|] eqn:Hn'; simpl in He; [|done]. injection He as <-. by eapply exit_ok.
Qed.

(** *** Collecting a zombie *)
Lemma elem_of_delete_nodup (l : list Z) i c x : NoDup l → l !! i = Some c → x ∈ delete i l ↔ x ∈ l ∧ x ≠ c.
Proof.
  intros Hnd Hi. rewrite (delete_take_drop l i). pose proof (take_drop_middle l i c Hi) as Hl.
  set (l1 := take i l) in *. set (l2 := drop (S i) l) in *. clearbody l1 l2. subst l.
  apply NoDup_app in Hnd as (_ & Hd & Hn2). apply NoDup_cons in Hn2 as [Hn2 _].
  rewrite !elem_of_app, elem_of_cons. split; [|tauto].
  intros [H|H]; (split; [tauto|]); intros ->; [|done]. by apply (Hd c); [|left].
Qed.

Section collect_ok.
Context (t : tree) (cur c : Z) (idx : nat) (n m : node) (a' : RecycleAllocator).
Context (Ht : tree_ok t) (Hn : nodes t !! cur = Some n) (Hz : n_zombie n = false) (Hidx : n_children n !! idx = Some c).
Context (Hm : nodes t !! c = Some m) (Hmz : n_zombie m = true) (Ha : ra_dealloc (ids t) c = Ok a').
Let fin : gmap Z node := delete c (<[cur := set_children (delete idx (n_children n)) n]> (nodes t)).

Lemma collect_facts : c ≠ INITPROC ∧ c ≠ cur ∧ ∀ x, x ∈ delete idx (n_children n) ↔ x ∈ n_children n ∧ x ≠ c.
Proof.
  assert (c ∈ n_children n) as Hin by (by eapply list_elem_of_lookup_2).
  destruct (ok_child _ Ht _ _ _ Hn Hin) as (Hc0 & _). split_and!; [done| |].
  - intros E. rewrite E in Hm. rewrite Hn in Hm. injection Hm as E2. congruence.
  - intros x. apply elem_of_delete_nodup; [by eapply (ok_nodup _ Ht)|done].
Qed.
Lemma collect_back q x : fin !! q = Some x → q ≠ c ∧
  (q = cur ∧ x = set_children (delete idx (n_children n)) n ∨ q ≠ cur ∧ nodes t !! q = Some x).
Proof.
  unfold fin. intros [Hq Hl]%lookup_delete_Some. split; [done|]. destruct (decide (q = cur)) as [->|].
  - rewrite lookup_insert_eq in Hl. naive_solver.
  - rewrite lookup_insert_ne in Hl by done. naive_solver.
Qed.
Lemma collect_keeps q x : nodes t !! q = Some x → q ≠ c → ∃ x', fin !! q = Some x' ∧ n_zombie x' = n_zombie x ∧ n_parent x' = n_parent x ∧
  ∀ y, y ∈ n_children x → y ≠ c → y ∈ n_children x'.
Proof.
  intros Hq Hne. unfold fin. rewrite lookup_delete_ne by done. destruct (decide (q = cur)) as [->|].
  - rewrite lookup_insert_eq. rewrite Hn in Hq. injection Hq as <-. eexists. split; [done|]. split_and!; try done.
    intros y Hy Hyc. simpl. by apply collect_facts.
  - rewrite lookup_insert_ne by done. eauto.
Qed.
Lemma collect_child p x y : fin !! p = Some x → y ∈ n_children x → y ≠ c ∧ ∃ x0, nodes t !! p = Some x0 ∧ y ∈ n_children x0.
Proof.
  intros [_ [[-> ->]|[Hp Hx]]]%collect_back Hy.
  - simpl in Hy. apply collect_facts in Hy as [Hy Hyc]. eauto.
  - split; [|eauto]. intros ->. apply Hp. eapply (one_parent t p cur x n c); try done. by eapply list_elem_of_lookup_2.
Qed.

Lemma collect_ok : tree_ok (mkTree fin (registered t) a' (stacks t)).
Proof.
  destruct collect_facts as (Hc0 & Hne & Hdel). destruct (ok_init _ Ht) as (i & Hi & Hiz). split; simpl.
  - destruct (collect_keeps _ _ Hi) as (x' & Hx' & Hxz & _); [done|]. exists x'. split; [done|congruence].
  - assert (c ∈ dom (nodes t)) as Hcd by (apply elem_of_dom; eauto).
    destruct (ra_dealloc_live _ _ c (ok_ids _ Ht) Hcd) as (a2 & Ha2 & Hi2). rewrite Ha in Ha2. injection Ha2 as <-.
    unfold fin. rewrite dom_delete_L, dom_insert_L. apply elem_of_dom_2 in Hn.
    replace (({[cur]} ∪ dom (nodes t)) ∖ {[c]}) with (dom (nodes t) ∖ {[c]}) by set_solver. done.
  - intros p. rewrite (ok_reg _ Ht). split.
    + intros (x & Hx & Hxz). assert (p ≠ c) as Hpc by (intros ->; congruence).
      destruct (collect_keeps _ _ Hx Hpc) as (x' & Hx' & Hxz' & _). exists x'. split; [done|congruence].
    + intros (x & [_ [[-> ->]|[_ Hx]]]%collect_back & Hxz); eauto.
  - intros p x y Hp Hy. destruct (collect_child _ _ _ Hp Hy) as (Hyc & x0 & Hx0 & Hy0).
    destruct (ok_child _ Ht _ _ _ Hx0 Hy0) as (Hy1 & z & Hz1 & Hzp). split; [done|].
    destruct (collect_keeps _ _ Hz1 Hyc) as (z' & Hz' & _ & Hzp' & _). exists z'. split; [done|congruence].
  - intros p x [_ [[-> ->]|[_ Hx]]]%collect_back; [|by eapply (ok_nodup _ Ht)].
    simpl. eapply sublist_NoDup; [exact (ok_nodup _ Ht _ _ Hn)|apply sublist_delete].
  - intros y z [Hyc Hy]%collect_back Hy0.
    assert (∃ z0, nodes t !! y = Some z0 ∧ n_parent z = n_parent z0) as (z0 & Hz0 & ->) by (destruct Hy as [[-> ->]|[_ Hy]]; eauto).
    destruct (ok_parent _ Ht _ _ Hz0 Hy0) as (p & q & Hp & Hq & Hin).
    assert (p ≠ c) as Hpc. { intros ->. rewrite Hm in Hq. injection Hq as <-. rewrite (ok_zombie _ Ht _ _ Hm Hmz) in Hin. by apply elem_of_nil in Hin. }
    destruct (collect_keeps _ _ Hq Hpc) as (q' & Hq' & _ & _ & Hch). exists p, q'. auto.
  - intros p x [_ [[-> ->]|[_ Hx]]]%collect_back Hxz; [simpl in Hxz; congruence|by eapply (ok_zombie _ Ht)].
Qed.
End collect_ok.

Lemma t_collect_ok cur idx c t t' n m :
  tree_ok t → nodes t !! cur = Some n → n_zombie n = false → n_children n !! idx = Some c →
  nodes t !! c = Some m → n_zombie m = true → t_collect cur idx c t = Some t' → tree_ok t'.
Proof.
  intros Ht Hn Hz Hidx Hm Hmz Hc. unfold t_collect in Hc. rewrite Hn in Hc. simpl in Hc.
  destruct (ra_dealloc (ids t) c) as [a'|] eqn:Ha; [|done]. injection Hc as <-. by eapply collect_ok.
Qed.

(** ** The reachable states of the kernel *)
Section reachable.
Context (elf_new : list Z → option Elf) (strampoline handler status : Z).

(** A step of the system as far as processes go: the calls of a running process,
    or anything that leaves the table of processes alone (Signal.v, Sched.v,
    Mmap.v, OpenFiles.v, user mode). *)
Inductive kstep (s s' : os) : Prop :=
| k_fork pid c : pid ∈ pid2pcb s → sys_fork strampoline pid s = Ok (c, s') → ra_current (pids s') < 2 ^ 64 - 1 → kstep s s'
| k_exec program fuel sfuel pid path args r :
    sys_exec elf_new strampoline handler status program fuel sfuel pid path args s = Ok (r, s') → kstep s s'
| k_thread pid cur entry arg r : sys_thread_create handler status pid cur entry arg s = Ok (r, s') → kstep s s'
| k_waittid pid cur n r : sys_waittid pid cur n s = Ok (r, s') → kstep s s'
| k_exit cur code r : exit_current_and_run_next cur code s = Ok (r, s') → kstep s s'
| k_waitpid cur pid ptr r : cur ∈ pid2pcb s → sys_waitpid cur pid ptr s = Ok (r, s') → kstep s s'
| k_other : nodes (tree_of s') = nodes (tree_of s) → pid2pcb s' = pid2pcb s → pids s' = pids s → kstep s s'.

Lemma kt_exec program fuel sfuel pid path args :
  keeps_tree (sys_exec elf_new strampoline handler status program fuel sfuel pid path args).
Proof. unfold sys_exec, exec, kernel_token. kt. Qed.
Lemma kt_thread pid cur entry arg : keeps_tree (sys_thread_create handler status pid cur entry arg).
Proof. unfold sys_thread_create, kernel_token. kt. Qed.
Lemma kt_waittid pid cur n : keeps_tree (sys_waittid pid cur n).
Proof. unfold sys_waittid. kt. Qed.

Lemma kstep_ok s s' : tree_ok (tree_of s) → kstep s s' → tree_ok (tree_of s').
Proof.
  intros Ht [pid c Hreg H Hb|program fuel sfuel pid path args r H|pid cur entry arg r H|pid cur n r H|cur code r H|cur pid ptr r Hreg H|H1 H2 H3].
  - apply (sys_fork_tree strampoline pid _ s c s' eq_refl) in H. by destruct (t_fork_ok pid (tree_of s) c (tree_of s') Ht Hreg H Hb).
  - by rewrite (kt_exec _ _ _ _ _ _ _ _ _ H).
  - by rewrite (kt_thread _ _ _ _ _ _ _ H).
  - by rewrite (kt_waittid _ _ _ _ _ _ H).
  - apply (exit_current_tree cur code _ s r s' eq_refl) in H as [->|(pid & Hne & Hreg & He)]; [done|].
    by eapply t_exit_ok.
  - apply (waitpid_tree cur pid ptr _ s r s' eq_refl) in H as [[-> _]|(n & idx & m & Hn & Hf & Hm & Hmz & Hc)]; [done|].
    apply (ok_reg _ Ht) in Hreg as (n' & Hn' & Hz). rewrite Hn in Hn'. injection Hn' as <-.
    apply list_find_Some in Hf as (Hidx & _ & _). exact (t_collect_ok cur idx r _ _ n m Ht Hn Hz Hidx Hm Hmz Hc).
  - destruct Ht as [O1 O2 O3 O4 O5 O6 O7]. unfold tree_of in H1. simpl in *. split; simpl; rewrite ?H1, ?H2, ?H3; done.
Qed.

(** No other process lists [c]: its reference count, the local reference aside,
    is what kernel stacks hold. *)
Lemma count_zero x l : x ∉ l → count x l = 0%nat.
Proof.
  intros Hx. unfold count.
  induction l as [|y l IH]; [done|]. apply not_elem_of_cons in Hx as [Hy Hx].
  rewrite filter_cons, decide_False by congruence. by apply IH.
Qed.
Lemma strong_count_collected s cur idx c n m :
  tree_ok (tree_of s) → procs s !! cur = Some n → p_children n !! idx = Some c → procs s !! c = Some m → p_zombie m = true →
  strong_count (set_procs (<[cur := with_children (delete idx (p_children n)) n]> (procs s)) s) c = count c (refs s).
Proof.
  intros Ht Hn Hidx Hm Hz. unfold strong_count. simpl.
  assert (nodes (tree_of s) !! cur = Some (node_of n)) as Hn' by (simpl; by rewrite lookup_fmap, Hn).
  assert (c ∈ p_children n) as Hin by (by eapply list_elem_of_lookup_2).
  rewrite bool_decide_eq_false_2.
  2:{ intros (x & Hx & Hxz)%(ok_reg _ Ht). simpl in Hx. rewrite lookup_fmap, Hm in Hx. injection Hx as <-. simpl in Hxz. congruence. }
  rewrite count_zero; [lia|]. intros (l & Hl & Hc)%list_elem_of_In%in_concat. apply list_elem_of_In in Hl, Hc.
  apply list_elem_of_fmap in Hl as ([p x] & -> & Hp%elem_of_map_to_list). simpl in Hc.
  destruct (decide (p = cur)) as [->|Hne].
  - rewrite lookup_insert_eq in Hp. injection Hp as <-. simpl in Hc.
    apply (elem_of_delete_nodup (p_children n) idx c) in Hc as [_ ?]; [done|by apply (ok_nodup _ Ht _ _ Hn')|done].
  - rewrite lookup_insert_ne in Hp by done. apply Hne.
    eapply (one_parent (tree_of s) p cur (node_of x) (node_of n) c); try done. simpl. by rewrite lookup_fmap, Hp.
Qed.

(** The first process makes a tree. *)
Lemma boot_tree elf t :
  nodes t = ∅ → registered t = ∅ → ids t = ra_new → tp (process_new elf_new strampoline handler status elf) t (λ pid t', pid = INITPROC ∧ tree_ok t').
Proof.
  intros H1 H2 H3. unfold process_new, kernel_token. apply tp_keep; [by kt|intros [[ms base] entry]].
  apply tp_bind, tp_pid_alloc. intros c a' Ha. rewrite H3 in Ha. injection Ha as <- <-. do 2 skip.
  apply tp_bind, tp_new_proc. do 6 skip. apply tp_bind, tp_register. skip. apply tp_ret. split; [done|].
  rewrite H1, H2. unfold node_of. simpl. set (root := mkNode false None [] 0).
  assert (∀ q m, (<[0 := root]> ∅ : gmap Z node) !! q = Some m → q = 0 ∧ m = root) as Hl.
  { intros q m Hq. destruct (decide (q = 0)) as [->|]; [rewrite lookup_insert_eq in Hq; naive_solver|].
    by rewrite lookup_insert_ne, lookup_empty in Hq. }
  split; simpl.
  - exists root. by rewrite lookup_insert_eq.
  - rewrite dom_insert_L, dom_empty_L, union_empty_r_L. change (u64 (0 + 1)) with 1. split; simpl; [lia|constructor| |set_solver].
    intros i. rewrite elem_of_singleton. set_solver by lia.
  - intros p. rewrite union_empty_r_L, elem_of_singleton. split.
    + intros ->. exists root. by rewrite lookup_insert_eq.
    + intros (m & [-> _]%Hl & _). done.
  - intros p n c [_ ->]%Hl Hc. by apply elem_of_nil in Hc.
  - intros p n [_ ->]%Hl. constructor.
  - intros c m [-> _]%Hl. done.
  - intros p n [_ ->]%Hl. done.
Qed.

(** C34 The process tree.  From the first process on, whatever processes fork, exit
    and wait, execute and create threads: every process but the first is the
    child of exactly one process, and that one has not exited; an exited process
    has no children; and the pid registry holds the processes that have not
    exited. *)
Theorem process_tree_sound elf boot init s0 s :
  procs boot = ∅ → pid2pcb boot = ∅ → pids boot = ra_new →
  process_new elf_new strampoline handler status elf boot = Ok (init, s0) → rtc kstep s0 s →
  init = INITPROC ∧
  (∀ c m, procs s !! c = Some m → c ≠ INITPROC →
     ∃ p n, procs s !! p = Some n ∧ c ∈ p_children n ∧ p_zombie n = false ∧ p_parent m = Some p ∧
       ∀ p' n', procs s !! p' = Some n' → c ∈ p_children n' → p' = p) ∧
  (∀ p n, procs s !! p = Some n → NoDup (p_children n) ∧ (p_zombie n = true → p_children n = []) ∧
     (p ∈ pid2pcb s ↔ p_zombie n = false)).
Proof.
  intros B1 B2 B3 Hb Hr.
  destruct (boot_tree elf (tree_of boot)) with (s := boot) (a := init) (s' := s0) as [-> H0]; try done.
  { simpl. by rewrite B1, fmap_empty. }
  assert (tree_ok (tree_of s)) as Ht by (eapply (rtc_invariant kstep (λ s, tree_ok (tree_of s))); [exact kstep_ok|exact H0|exact Hr]).
  assert (∀ p n, procs s !! p = Some n → nodes (tree_of s) !! p = Some (node_of n)) as Hn by (intros p n Hp; simpl; by rewrite lookup_fmap, Hp).
  assert (∀ p x, nodes (tree_of s) !! p = Some x → ∃ n, procs s !! p = Some n ∧ x = node_of n) as Hback.
  { intros p x. simpl. rewrite lookup_fmap. destruct (procs s !! p); simpl; naive_solver. }
  split; [done|]. split.
  - intros c m Hc Hc0. destruct (ok_parent _ Ht c _ (Hn _ _ Hc) Hc0) as (p & x & Hp & Hx & Hin).
    destruct (Hback _ _ Hx) as (n & Hpn & ->). exists p, n. split_and!; try done.
    + destruct (p_zombie n) eqn:Hz; [|done]. pose proof (ok_zombie _ Ht _ _ Hx Hz) as E. rewrite E in Hin. by apply elem_of_nil in Hin.
    + intros p' n' Hp' Hin'. exact (one_parent (tree_of s) p' p (node_of n') (node_of n) c Ht (Hn _ _ Hp') (Hn _ _ Hpn) Hin' Hin).
  - intros p n Hp. apply Hn in Hp as Hp'. split; [apply (ok_nodup _ Ht _ _ Hp')|]. split; [apply (ok_zombie _ Ht _ _ Hp')|].
    rewrite (ok_reg _ Ht p). split; [intros (x & Hx & Hz)|eauto]. rewrite Hp' in Hx. by injection Hx as <-.
Qed.

Lemma waitpid_run s cur pid ptr n :
  tree_ok (tree_of s) → procs s !! cur = Some n →
  (∀ idx c, list_find (λ c, pid = -1 ∨ c = u64 pid) (p_children n) = Some (idx, c) → c ∉ refs s) →
  match list_find (λ c, pid = -1 ∨ c = u64 pid) (p_children n) with
  | None => sys_waitpid cur pid ptr s = Ok (-1, s)
  | Some (idx, c) =>
      ∃ m, procs s !! c = Some m ∧ p_parent m = Some cur ∧
      sys_waitpid cur pid ptr s =
        if p_zombie m
        then (o_mem (write_user 4 (ms_token (p_space n)) ptr (u32 (p_exit m))) ≫= λ _, drop_process c ≫= λ _, mret c)
               (set_procs (<[cur := with_children (delete idx (p_children n)) n]> (procs s)) s)
        else Ok (-2, s)
  end.
Proof.
  intros Ht Hn Hrefs. unfold sys_waitpid.
  rewrite (M_bind_Ok _ _ s n s) by (unfold get_proc; by rewrite Hn).
  destruct (list_find _ _) as [[idx c]|] eqn:Hf; [|done]. specialize (Hrefs idx c eq_refl).
  apply list_find_Some in Hf as (Hidx & _ & _).
  assert (nodes (tree_of s) !! cur = Some (node_of n)) as Hn' by (simpl; by rewrite lookup_fmap, Hn).
  destruct (ok_child _ Ht _ _ c Hn') as (_ & x & Hx & Hxp); [by eapply list_elem_of_lookup_2|].
  simpl in Hx. rewrite lookup_fmap in Hx. destruct (procs s !! c) as [m|] eqn:Hm; [|done]. injection Hx as <-.
  exists m. split; [done|]. split; [done|].
  rewrite (M_bind_Ok _ _ s m s) by (unfold get_proc; by rewrite Hm). destruct (p_zombie m) eqn:Hz; [|done]. cbn [negb]. cbv beta iota.
  rewrite (M_bind_Ok _ _ _ _ _ (upd_proc_run cur (with_children (delete idx (p_children n))) s n Hn)).
  rewrite (M_bind_Ok _ _ _ _ _ eq_refl). rewrite (strong_count_collected s cur idx c n m) by done.
  rewrite count_zero by done. by rewrite (M_bind_Ok _ _ _ _ _ eq_refl).
Qed.

(** Waiting for a child.  In a reachable state [waitpid] returns -1 when no child
    matches and -2 when the first matching child still runs, changing nothing;
    when it has exited, its reference count is the last one (no kernel stack
    holding another), and the call stores its exit code and drops it. *)
Theorem waitpid_correct s cur pid ptr n :
  tree_ok (tree_of s) → procs s !! cur = Some n → refs s = [] →
  match list_find (λ c, pid = -1 ∨ c = u64 pid) (p_children n) with
  | None => sys_waitpid cur pid ptr s = Ok (-1, s)
  | Some (idx, c) =>
      ∃ m, procs s !! c = Some m ∧ p_parent m = Some cur ∧
      sys_waitpid cur pid ptr s =
        if p_zombie m
        then (o_mem (write_user 4 (ms_token (p_space n)) ptr (u32 (p_exit m))) ≫= λ _, drop_process c ≫= λ _, mret c)
               (set_procs (<[cur := with_children (delete idx (p_children n)) n]> (procs s)) s)
        else Ok (-2, s)
  end.
Proof. intros Ht Hn Hr. apply waitpid_run; [done|done|]. intros idx c _. rewrite Hr. apply not_elem_of_nil. Qed.
End reachable.

(** ** A machine that boots one program, forks and waits *)
Module ProcDemo.
Import SpaceDemo.
(** A program of one page at 0x10000. *)
Definition elf (_ : list Z) : option Elf :=
  Some (mkElf [0x7f; 0x45; 0x4c; 0x46] [mkPH true 0x10000 4 0 4 true false true] 0x10000).
Definition boot_os : os := mkOs (mkKS ra_new bare.1 bare.2) ra_new ∅ ∅ 0 ∅ [] [] ∅ ∅ 0 ∅.
Definition tramp : Z := 0x80200000.
Definition orun {A} (c : M os A) (s : os) : os := match c s with Ok (_, s') => s' | Err _ => s end.
Definition up : os := orun (process_new elf tramp 0 0 [0; 0; 0; 19]) boot_os.
Definition forked : os := orun (sys_fork tramp 0) up.
Definition exited : os := orun (exit_current_and_run_next 1 42) forked.
Definition waited : os := orun (sys_waitpid 0 (-1) 0x10000) exited.

Definition summary (s : os) : list (Z * (bool * list Z * Z)) :=
  map_to_list ((λ p, (p_zombie p, p_children p, p_exit p)) <$> procs s).
Example boot_fork_exit_wait :
  (summary up, summary forked, summary exited, summary waited, ready forked, pid2pcb exited) =
  ([(0, (false, [], 0))],
   [(1, (false, [], 0)); (0, (false, [1], 0))],
   [(1, (true, [], 42)); (0, (false, [1], 0))],
   [(0, (false, [], 0))], [0; 1], {[0]}).
Proof. vm_compute. reflexivity. Qed.

Definition succeeds {A} (c : M os A) (s : os) : bool := match c s with Ok _ => true | Err _ => false end.
Lemma orun_Ok {A} (c : M os A) s : succeeds c s = true → ∃ a, c s = Ok (a, orun c s).
Proof. unfold succeeds, orun. destruct (c s) as [[a s']|]; [eauto|done]. Qed.

Lemma proc_demo_steps : rtc (kstep elf tramp 0 0) up exited.
Proof.
  destruct (orun_Ok (sys_fork tramp 0) up) as [c Hf]; [vm_compute; reflexivity|].
  destruct (orun_Ok (exit_current_and_run_next 1 42) forked) as [r He]; [vm_compute; reflexivity|].
  eapply rtc_l; [eapply (k_fork _ _ _ _ _ _ 0 c); [apply (bool_decide_unpack _); vm_compute; exact I|exact Hf|vm_compute; reflexivity]|].
  apply rtc_once. by eapply (k_exit _ _ _ _ _ _ 1 42 r).
Qed.

Lemma present s c : bool_decide (is_Some (procs s !! c)) = true → ∃ m, procs s !! c = Some m.
Proof. by intros [m Hm]%bool_decide_eq_true; exists m. Qed.

Lemma process_tree_sound_witness :
  ∃ p n, procs exited !! p = Some n ∧ 1 ∈ p_children n ∧ p_zombie n = false.
Proof.
  destruct (orun_Ok (process_new elf tramp 0 0 [0; 0; 0; 19]) boot_os) as [i Hb]; [vm_compute; reflexivity|].
  destruct (present exited 1) as [m Hm]; [vm_compute; reflexivity|].
  destruct (process_tree_sound elf tramp 0 0 [0; 0; 0; 19] boot_os i up exited) as (_ & H & _).
  - reflexivity.
  - reflexivity.
  - reflexivity.
  - exact Hb.
  - exact proc_demo_steps.
  - destruct (H 1 m Hm) as (p & n & H1 & H2 & H3 & _); [discriminate|]. exists p, n. split; [exact H1|]. split; [exact H2|exact H3].
Defined.

Lemma exited_ok : tree_ok (tree_of exited).
Proof.
  destruct (orun_Ok (process_new elf tramp 0 0 [0; 0; 0; 19]) boot_os) as [i Hb]; [vm_compute; reflexivity|].
  destruct (boot_tree elf tramp 0 0 [0; 0; 0; 19] (tree_of boot_os) eq_refl eq_refl eq_refl _ _ _ eq_refl Hb) as [_ H0].
  eapply (rtc_invariant _ (λ s, tree_ok (tree_of s))); [apply kstep_ok|exact H0|exact proc_demo_steps].
Qed.

Lemma waitpid_correct_witness :
  ∃ n m, procs exited !! 0 = Some n ∧ procs exited !! 1 = Some m ∧
    sys_waitpid 0 (-1) 0x10000 exited =
      if p_zombie m
      then (o_mem (write_user 4 (ms_token (p_space n)) 0x10000 (u32 (p_exit m))) ≫= λ _, drop_process 1 ≫= λ _, mret 1)
             (set_procs (<[0 := with_children (delete 0%nat (p_children n)) n]> (procs exited)) exited)
      else Ok (-2, exited).
Proof.
  destruct (present exited 0) as [n Hn]; [vm_compute; reflexivity|].
  assert (p_children n = [1]) as Hc.
  { assert (p_children <$> procs exited !! 0 = Some [1]) as H by (vm_compute; reflexivity). rewrite Hn in H. by injection H. }
  pose proof (waitpid_correct exited 0 (-1) 0x10000 n exited_ok Hn) as H. rewrite Hc in H. simpl in H.
  destruct H as (m & Hm & _ & Hw); [vm_compute; reflexivity|]. exists n, m. rewrite Hc. split; [exact Hn|]. split; [exact Hm|exact Hw].
Defined.
End ProcDemo.
