(* ===== verification/Fork.v ===== *)
(** * Fork (os/src/task/process.rs: fork, syscall/process.rs: sys_fork)

    The memory of all processes at once, and what the call [fork] of
    Process.v makes of it: the address space of AddressSpace.v, the file
    mappings of Mmap.v, the kernel stacks of IdAlloc.v and the tables of
    processes, threads and descriptors together. *)
From stdpp Require Import sorting.
From S2P Require Import Prelude Bytes Address FrameAllocator PageTable MemorySet AddressSpace IdAlloc Mmap Signal OpenFiles Process ProcTree.

(** ** The file pages of a process *)
Definition RWXU : Z := Z.lor (Z.lor MP_R MP_W) (Z.lor MP_X MP_U).
Definition file_perm (e : Z) : Z := Z.land (pte_flags e) RWXU.

(** A mapped file beside the space [ms]: its frames are allocated and each
    loaded page is mapped where the mapping says. *)
Record fm_ok (l0 : Z) (ms : MemorySet) (s : kmem) (fm : FileMapping) : Prop := {
  fo_table : root_ppn (fm_pt fm) = root_ppn (page_table ms);
  fo_frame : ∀ k, k ∈ fm_frames fm → is_allocated l0 (fa s) k;
  fo_page : ∀ off v f, fm_map fm !! off = Some (v, f) → 0 ≤ v < 2 ^ 27 ∧ f ∈ fm_frames fm ∧
    (∃ pg, mem s !! f = Some pg ∧ page_ok pg) ∧ ∃ e, pt_map s ms v = Some e ∧ pte_ppn e = f;
}.

(** The file page at [off], mapped at [v] to [f], has its copy among the frames
    [frs] and the pages [mp] of a mapping of [ms]. *)
Definition file_page_copied (l0 : Z) (us : MemorySet) (s0 : kmem) (ms : MemorySet) (s : kmem)
    (frs : list Z) (mp : gmap Z (Z * Z)) (off v f : Z) : Prop :=
  ∃ e f' pg, pt_map s0 us v = Some e ∧ mp !! off = Some (v, f') ∧ f' ∈ frs ∧
    pt_map s ms v = Some (leaf_entry (file_perm e) f') ∧
    mem s0 !! f = Some pg ∧ page_ok pg ∧ mem s !! f' = Some pg ∧
    ¬ is_allocated l0 (fa s0) f' ∧ is_allocated l0 (fa s) f' ∧ f' ∉ frames (page_table ms).

Lemma file_page_copied_extends l0 us s0 ms s frs mp ms' s' frs' mp' off v f :
  extends l0 (page_table ms) s (page_table ms') s' → pt_map s' ms' v = pt_map s ms v →
  (∀ q, q ∈ frs → q ∈ frs') → mp' !! off = mp !! off →
  file_page_copied l0 us s0 ms s frs mp off v f → file_page_copied l0 us s0 ms' s' frs' mp' off v f.
Proof.
  intros He Hm Hfr Hmp (e & f' & pg & H1 & H2 & H3 & H4 & H5 & H6 & H7 & H8 & H9 & H10). exists e, f', pg.
  split_and!; [done|by rewrite Hmp|by apply Hfr|by rewrite Hm|done|done| |done|by apply He|].
  - by rewrite (ext_mem _ _ _ _ _ He).
  - by intros [?|?]%(ext_fresh _ _ _ _ _ He).
Qed.

Lemma file_perm_ok e : perm_ok (file_perm e) ∧ Z.land (file_perm e) 255 = file_perm e.
Proof.
  assert (0 ≤ file_perm e < 2 ^ 8) as H.
  { unfold file_perm. change RWXU with 30. split; [apply Z.land_nonneg; lia|].
    apply (Z.le_lt_trans _ 30); [|lia]. rewrite Z.land_comm.
    destruct (Z.eq_dec (Z.land 30 (pte_flags e)) 0) as [->|Hn]; [lia|].
    apply Z.ldiff_le; [lia|]. apply Z.bits_inj'. intros n Hn'. rewrite Z.ldiff_spec, Z.land_spec, Z.bits_0.
    destruct (Z.testbit 30 n), (Z.testbit (pte_flags e) n); done. }
  split; [exact H|]. change 255 with (Z.ones 8). rewrite Z.land_ones by lia. by rewrite Z.mod_small.
Qed.

Section copy_file.
Context (l0 : Z) (us : MemorySet) (s0 : kmem) (fm : FileMapping).
Context (Hus : space_ok l0 us s0) (Hfm : fm_ok l0 us s0 fm).

(** One page: a fresh frame, mapped with the permissions of the parent, filled. *)
Lemma copy_entry_step k off v f es ms s frs mp :
  child_ok l0 s0 ms s → fm_map fm !! off = Some (v, f) → pt_map s ms v = None → nfree (3 + k) (fa s) →
  ∃ f' ms' s', copy_entries fm ((off, (v, f)) :: es) ms frs mp s =
      copy_entries fm es ms' (frs ++ [f']) (<[off := (v, f')]> mp) s' ∧
    child_ok l0 s0 ms' s' ∧ extends l0 (page_table ms) s (page_table ms') s' ∧ areas ms' = areas ms ∧ nfree k (fa s') ∧
    ¬ is_allocated l0 (fa s) f' ∧ file_page_copied l0 us s0 ms' s' [f'] {[off := (v, f')]} off v f ∧
    (∀ w, 0 ≤ w < 2 ^ 27 → w ≠ v → pt_map s' ms' w = pt_map s ms w).
Proof.
  intros Hch Hoff Hnone Hnf.
  destruct (fo_page _ _ _ _ Hfm off v f Hoff) as (Hv & Hf & (pg & Hpg & Hok) & e & He & Hpe).
  destruct (file_perm_ok e) as [Hperm Hp255].
  destruct (alloc_and_map l0 k (page_table ms) v (file_perm e) s) as
    (f' & a' & pt' & s' & Hal & Hmap & Hfa & Hall & Hinv & Hext & Hnf' & Hm & Hna & Hal' & Hnt & Hz);
    [apply Hch|done|done|done|done|]. simpl in Hal, Hmap.
  set (s1 := mkMem a' _) in *. pose proof (fo_frame _ _ _ _ Hfm f Hf) as Hfal.
  assert (∀ n, is_allocated l0 (fa s0) n → mem s1 !! n = mem s0 !! n ∧ is_allocated l0 (fa s1) n) as Hold.
  { intros n Hn. pose proof (ch_alloc _ _ _ _ Hch n Hn) as Hn'. split; [|apply Hall; by right]. simpl.
    rewrite lookup_insert_ne by (intros ->; done). by apply (ch_mem _ _ _ _ Hch). }
  destruct (table_frame l0 (page_table us) s0 s1) as [Hu1 Hum]; [apply Hus|done|..];
    [intros n Hn; apply Hold; by apply Hus..|].
  assert (translate (fm_pt fm) v s1 = Ok (Some e, s1)) as Htr.
  { eapply translate_mapping; [|done|]; rewrite (fo_table _ _ _ _ Hfm); [apply Hu1|]. by rewrite Hum. }
  assert (is_allocated l0 (fa s) f) as Hfs by (by apply (ch_alloc _ _ _ _ Hch)).
  assert (f ∉ frames (page_table ms)) as Hfn by (by intros ?%(ch_frames _ _ _ _ Hch)).
  assert (mem s' !! f = Some pg) as Hrd by (rewrite (ext_mem _ _ _ _ _ Hext), (ch_mem _ _ _ _ Hch) by done; done).
  set (s2 := mkMem (fa s') (<[f' := pg]> (mem s'))). set (ms' := mkMS pt' (areas ms)).
  assert (space_ok l0 ms' s') as Hsp.
  { apply (space_ok_extends l0 ms s); [apply Hch|done|done|]. intros a w Ha Hw.
    pose proof (ch_space _ _ _ _ Hch) as Hs. rewrite Hm by (by eapply pages_of_range; [apply (sp_area _ _ _ Hs)|]).
    rewrite decide_False; [done|]. intros ->.
    destruct (sp_page _ _ _ Hs a v Ha Hw) as (g & pg' & _ & _ & _ & _ & _ & M). congruence. }
  destruct (space_ok_contents l0 ms' s' (<[f' := pg]> (mem s'))) as [Hsp2 Hmm]; [done|..].
  { intros n Hn. apply lookup_insert_ne. by intros ->. }
  { intros n pg' Hn Hok'. destruct (decide (n = f')) as [->|]; [exists pg|exists pg'];
      by rewrite ?lookup_insert_eq, ?lookup_insert_ne. }
  assert (extends l0 (page_table ms) s (page_table ms') s2) as Hext2.
  { destruct Hext as [R A F N O]. split; [done..|]. intros q Hq Hqn. simpl.
    rewrite lookup_insert_ne by (intros ->; done). by apply O. }
  exists f', ms', s2. split_and!; [| |done|done|done|done| |].
  - cbn [copy_entries]. rewrite (M_bind_Ok _ _ _ _ _ Hal), (M_bind_Ok _ _ _ f' s1 eq_refl).
    rewrite (M_bind_Ok _ _ _ _ _ Htr), (M_bind_Ok _ _ _ e s1 eq_refl). cbv zeta.
    fold RWXU. change (Z.land (pte_flags e) RWXU) with (file_perm e).
    rewrite (M_bind_Ok _ _ s1 ms' s') by (unfold ms_map; rewrite Hp255; by rewrite (M_bind_Ok _ _ _ _ _ Hmap)).
    rewrite (M_bind_Ok _ _ s' pg s') by (unfold read_page; by rewrite Hrd).
    rewrite (M_bind_Ok _ _ s' () s2); [done|]. eapply copy_to_page; [done|].
    destruct Hok as [-> _]. symmetry. apply zero_page_ok.
  - eapply child_ok_extends; [done|done|done|]. intros a Ha. by left.
  - exists e, f', pg. split_and!; try done.
    + apply lookup_insert_eq.
    + by left.
    + unfold s2. cbn [mem]. rewrite Hmm by done. simpl. by rewrite (ext_root _ _ _ _ _ Hext), Hm, decide_True by done.
    + apply lookup_insert_eq.
    + by intros ?%(ch_alloc _ _ _ _ Hch).
  - intros w Hw Hne. cbn [mem]. rewrite Hmm by done. simpl. by rewrite (ext_root _ _ _ _ _ Hext), Hm, decide_False by done.
Qed.

Lemma copy_entries_spec k es ms s frs mp :
  child_ok l0 s0 ms s → (∀ off v f, (off, (v, f)) ∈ es → fm_map fm !! off = Some (v, f)) →
  NoDup es.*1 → NoDup es.*2.*1 → (∀ v, v ∈ es.*2.*1 → pt_map s ms v = None) → nfree (3 * length es + k) (fa s) →
  ∃ ms' s' frs' mp', copy_entries fm es ms frs mp s = Ok ((ms', frs ++ frs', mp'), s') ∧
    child_ok l0 s0 ms' s' ∧ extends l0 (page_table ms) s (page_table ms') s' ∧ areas ms' = areas ms ∧ nfree k (fa s') ∧
    (∀ q, q ∈ frs' → ¬ is_allocated l0 (fa s) q ∧ is_allocated l0 (fa s') q) ∧
    (∀ off v f, (off, (v, f)) ∈ es → file_page_copied l0 us s0 ms' s' frs' mp' off v f) ∧
    (∀ off, off ∉ es.*1 → mp' !! off = mp !! off) ∧
    (∀ w, 0 ≤ w < 2 ^ 27 → w ∉ es.*2.*1 → pt_map s' ms' w = pt_map s ms w).
Proof.
  revert ms s frs mp. induction es as [|[off [v f]] es IH]; intros ms s frs mp Hch Hes Hn1 Hn2 Hnone Hnf.
  { exists ms, s, [], mp. rewrite app_nil_r. split_and!; [done|done|apply extends_refl|done|done|set_solver..|done|done]. }
  apply NoDup_cons in Hn1 as [Ho1 Hn1], Hn2 as [Ho2 Hn2]. simpl in Ho1, Ho2.
  assert (fm_map fm !! off = Some (v, f)) as Hoff by (apply Hes; by left).
  destruct (fo_page _ _ _ _ Hfm off v f Hoff) as (Hv & _).
  assert (∀ o w g, (o, (w, g)) ∈ es → w ∈ es.*2.*1) as Hin2.
  { intros o w g Hin. apply list_elem_of_fmap. exists (w, g). split; [done|]. apply list_elem_of_fmap. by exists (o, (w, g)). }
  assert (∀ w, w ∈ es.*2.*1 → w ≠ v ∧ 0 ≤ w < 2 ^ 27) as Hw.
  { intros w Hin. split; [by intros ->|]. apply list_elem_of_fmap in Hin as ([w' g] & -> & Hin).
    apply list_elem_of_fmap in Hin as ([o [w'' g']] & [= -> ->] & Hin).
    apply (fo_page _ _ _ _ Hfm o w'' g'). apply Hes. by right. }
  destruct (copy_entry_step (3 * length es + k) off v f es ms s frs mp) as
    (f' & ms1 & s1 & Hr1 & Hch1 & He1 & Ha1 & Hnf1 & Hna & Hcp1 & Hm1); [done|done| | |].
  { apply Hnone. by left. }
  { eapply nfree_mono; [|done]. simpl. lia. }
  destruct (IH ms1 s1 (frs ++ [f']) (<[off := (v, f')]> mp)) as
    (ms' & s' & frs' & mp' & Hr & Hch' & He & Ha & Hnf' & Hq & Hcp & Hmp & Hm); [done| |done|done| |done|].
  { intros o w g Hin. apply Hes. by right. }
  { intros w Hin. destruct (Hw w Hin). rewrite Hm1 by done. apply Hnone. by right. }
  pose proof Hcp1 as (_ & f2 & _ & _ & Hf2 & _ & _ & _ & _ & _ & _ & Hal1 & _).
  rewrite lookup_singleton_eq in Hf2. injection Hf2 as <-.
  exists ms', s', (f' :: frs'), mp'. split_and!; [|done|by eapply extends_trans|congruence|done|..].
  - by rewrite Hr1, Hr, <- app_assoc.
  - intros q [->|Hin]%elem_of_cons; [split; [done|by apply He]|]. destruct (Hq q Hin) as [Hq1 Hq2]. split; [|done].
    intros Hs. apply Hq1. by apply He1.
  - intros o w g [[= -> -> ->]|Hin]%elem_of_cons.
    + eapply (file_page_copied_extends _ _ _ ms1 s1 [f'] {[off := (v, f')]}); [done|by apply Hm| |..|done].
      * intros q ->%list_elem_of_singleton. by left.
      * by rewrite Hmp, lookup_insert_eq, lookup_singleton_eq.
    + eapply (file_page_copied_extends _ _ _ ms' s' frs' mp'); [apply extends_refl|done| |done|by apply Hcp]. by right.
  - intros o [Hne Ho]%not_elem_of_cons. rewrite Hmp by done. by apply lookup_insert_ne.
  - intros w Hr' [Hne Hw']%not_elem_of_cons. by rewrite Hm, Hm1.
Qed.
End copy_file.

Definition file_vpns (fms : list FileMapping) : list Z := (fms ≫= fm_entries).*2.*1.

Lemma fm_entries_perm fm : fm_entries fm ≡ₚ map_to_list (fm_map fm).
Proof. apply merge_sort_Permutation. Qed.
Lemma elem_of_fm_entries fm off x : (off, x) ∈ fm_entries fm ↔ fm_map fm !! off = Some x.
Proof. rewrite fm_entries_perm. apply elem_of_map_to_list. Qed.
Lemma NoDup_fm_entries fm : NoDup (fm_entries fm).*1.
Proof. rewrite fm_entries_perm. apply NoDup_fst_map_to_list. Qed.
Lemma file_vpns_cons fm fms : file_vpns (fm :: fms) = (fm_entries fm).*2.*1 ++ file_vpns fms.
Proof. unfold file_vpns. by rewrite bind_cons, !fmap_app. Qed.

(** [fm'] is the mapping of the child [ms] made from [fm]. *)
Record fm_copied (l0 : Z) (us : MemorySet) (s0 : kmem) (ms : MemorySet) (s : kmem) (fm fm' : FileMapping) : Prop := {
  fc_file : fm_file fm' = fm_file fm;
  fc_ranges : fm_ranges fm' = fm_ranges fm;
  fc_table : root_ppn (fm_pt fm') = root_ppn (page_table ms);
  fc_page : ∀ off v f, fm_map fm !! off = Some (v, f) →
    file_page_copied l0 us s0 ms s (fm_frames fm') (fm_map fm') off v f;
  fc_only : ∀ off, fm_map fm !! off = None → fm_map fm' !! off = None;
  fc_fresh : ∀ k, k ∈ fm_frames fm' → ¬ is_allocated l0 (fa s0) k ∧ is_allocated l0 (fa s) k;
}.

Lemma fm_copied_extends l0 us s0 ms s ms' s' fm fm' :
  extends l0 (page_table ms) s (page_table ms') s' →
  (∀ off v f, fm_map fm !! off = Some (v, f) → pt_map s' ms' v = pt_map s ms v) →
  fm_copied l0 us s0 ms s fm fm' → fm_copied l0 us s0 ms' s' fm fm'.
Proof.
  intros He Hm [F R T P O K]. split; [done|done| | |done|].
  - by rewrite T, (ext_root _ _ _ _ _ He).
  - intros off v f Hoff. eapply file_page_copied_extends; [done|by eapply Hm|done|done|by apply P].
  - intros k Hk. destruct (K k Hk). split; [done|by apply He].
Qed.

Lemma fm_copied_ok l0 us s0 ms s fm fm' :
  fa_wf l0 (fa s) → fm_ok l0 us s0 fm → fm_copied l0 us s0 ms s fm fm' → fm_ok l0 ms s fm'.
Proof.
  intros Hfa Hfm [F R T P O K]. split; [done|intros k Hk; by apply K|].
  intros off v f Hoff. destruct (fm_map fm !! off) as [[v0 f0]|] eqn:H0; [|by rewrite O in Hoff].
  destruct (P off v0 f0 H0) as (e & f' & pg & H1 & H2 & H3 & H4 & H5 & H6 & H7 & H8 & H9 & H10).
  rewrite H2 in Hoff. injection Hoff as <- <-. destruct (fo_page _ _ _ _ Hfm _ _ _ H0) as (Hv & _).
  split_and!; [lia|lia|done|eauto|]. eexists. split; [done|].
  apply leaf_entry_ppn; [apply file_perm_ok|by eapply is_allocated_range].
Qed.

Section copy_files.
Context (l0 : Z) (us : MemorySet) (s0 : kmem) (Hus : space_ok l0 us s0).

Lemma copy_to_user_spec k fm ms s :
  child_ok l0 s0 ms s → fm_ok l0 us s0 fm → NoDup (fm_entries fm).*2.*1 →
  (∀ v, v ∈ (fm_entries fm).*2.*1 → pt_map s ms v = None) → nfree (3 * length (fm_entries fm) + k) (fa s) →
  ∃ ms' s' fm', copy_to_user fm ms s = Ok ((ms', fm'), s') ∧ fm_copied l0 us s0 ms' s' fm fm' ∧
    child_ok l0 s0 ms' s' ∧ extends l0 (page_table ms) s (page_table ms') s' ∧ areas ms' = areas ms ∧ nfree k (fa s') ∧
    (∀ q, q ∈ fm_frames fm' → ¬ is_allocated l0 (fa s) q) ∧
    (∀ w, 0 ≤ w < 2 ^ 27 → w ∉ (fm_entries fm).*2.*1 → pt_map s' ms' w = pt_map s ms w).
Proof.
  intros Hch Hfm Hnd Hnone Hnf.
  destruct (copy_entries_spec l0 us s0 fm Hus Hfm k (fm_entries fm) ms s [] ∅) as
    (ms' & s' & frs & mp & Hr & Hch' & He & Ha & Hnf' & Hq & Hcp & Hmp & Hm);
    [done|by intros; apply elem_of_fm_entries|apply NoDup_fm_entries|done|done|done|]. simpl in Hr.
  set (fm' := mkFM (fm_file fm) (fm_ranges fm) frs mp (from_token (ms_token ms'))).
  exists ms', s', fm'. split_and!; [| |done|done|done|done| |done].
  - unfold copy_to_user. by rewrite (M_bind_Ok _ _ _ _ _ Hr).
  - pose proof (sp_pt _ _ _ (ch_space _ _ _ _ Hch')) as Hpt. split; [done|done| | | |].
    + apply token_roundtrip. apply (ptwf_page _ _ _ (inv_tree _ _ _ Hpt)), (ptwf_root _ _ _ (inv_tree _ _ _ Hpt)).
    + intros off v f Hoff. by apply Hcp, elem_of_fm_entries.
    + intros off Hoff. simpl. rewrite Hmp; [done|]. intros ([o x] & -> & Hin)%list_elem_of_fmap.
      apply elem_of_fm_entries in Hin. simpl in Hoff. congruence.
    + intros q Hin. destruct (Hq q Hin) as [Hq1 Hq2]. split; [|done]. by intros ?%(ch_alloc _ _ _ _ Hch).
  - intros q Hin. by apply Hq.
Qed.

Lemma copy_file_mappings_spec k fms ms s :
  child_ok l0 s0 ms s → Forall (fm_ok l0 us s0) fms → NoDup (file_vpns fms) →
  (∀ v, v ∈ file_vpns fms → pt_map s ms v = None) → nfree (3 * length (file_vpns fms) + k) (fa s) →
  ∃ ms' s' fms', copy_file_mappings fms ms s = Ok ((ms', fms'), s') ∧ Forall2 (fm_copied l0 us s0 ms' s') fms fms' ∧
    child_ok l0 s0 ms' s' ∧ extends l0 (page_table ms) s (page_table ms') s' ∧ areas ms' = areas ms ∧ nfree k (fa s') ∧
    (∀ fm' q, fm' ∈ fms' → q ∈ fm_frames fm' → ¬ is_allocated l0 (fa s) q) ∧
    (∀ w, 0 ≤ w < 2 ^ 27 → w ∉ file_vpns fms → pt_map s' ms' w = pt_map s ms w).
Proof.
  revert ms s. induction fms as [|fm fms IH]; intros ms s Hch Hok Hnd Hnone Hnf.
  { exists ms, s, []. split_and!; [done|constructor|done|apply extends_refl|done|done|set_solver|done]. }
  apply Forall_cons in Hok as [Hfm Hok]. rewrite file_vpns_cons in Hnd, Hnone, Hnf. rewrite file_vpns_cons.
  apply NoDup_app in Hnd as (Hnd1 & Hsep & Hnd2). rewrite length_app, !length_fmap in Hnf.
  destruct (copy_to_user_spec (3 * length (file_vpns fms) + k) fm ms s) as
    (ms1 & s1 & fm1 & Hr1 & Hc1 & Hch1 & He1 & Ha1 & Hnf1 & Hq1 & Hm1); [done|done|done| | |].
  { intros v Hv. apply Hnone, elem_of_app. by left. }
  { eapply nfree_mono; [|done]. lia. }
  assert (∀ v, v ∈ file_vpns fms → 0 ≤ v < 2 ^ 27) as Hrange.
  { intros v ([v' f] & -> & Hin)%list_elem_of_fmap. apply list_elem_of_fmap in Hin as ([o [v'' f'']] & [= -> ->] & Hin).
    apply list_elem_of_bind in Hin as (fm2 & Hin & Hfm2). rewrite Forall_forall in Hok.
    by apply (fo_page _ _ _ _ (Hok fm2 Hfm2) o v'' f''), elem_of_fm_entries. }
  destruct (IH ms1 s1) as (ms' & s' & fms' & Hr & Hc & Hch' & He & Ha & Hnf' & Hq & Hm); [done|done|done| |done|].
  { intros v Hv. rewrite Hm1; [apply Hnone, elem_of_app; by right|by apply Hrange|]. intros ?%Hsep. done. }
  exists ms', s', (fm1 :: fms'). split_and!; [| |done|by eapply extends_trans|congruence|done|..].
  - cbn [copy_file_mappings]. rewrite (M_bind_Ok _ _ _ _ _ Hr1). by rewrite (M_bind_Ok _ _ _ _ _ Hr).
  - constructor; [|done]. eapply fm_copied_extends; [done| |done]. intros off v f Hoff.
    apply Hm; [by apply (fo_page _ _ _ _ Hfm off v f)|]. apply Hsep. apply list_elem_of_fmap. exists (v, f).
    split; [done|]. apply list_elem_of_fmap. exists (off, (v, f)). split; [done|]. by apply elem_of_fm_entries.
  - intros fm' q [->|Hin]%elem_of_cons Hf; [by apply Hq1|]. intros Hal. apply (Hq fm' q Hin Hf). by apply He1.
  - intros w Hw [Hw1 Hw2]%not_elem_of_app. by rewrite Hm, Hm1.
Qed.
End copy_files.

Lemma fm_vpns_perm fm : (fm_entries fm).*2.*1 ≡ₚ (map_to_list (fst <$> fm_map fm)).*2.
Proof.
  rewrite fm_entries_perm, map_to_list_fmap, <- !list_fmap_compose. apply Permutation_refl'.
  by apply list_fmap_ext.
Qed.

Lemma file_vpns_copied l0 us s0 ms s fms fms' :
  Forall2 (fm_copied l0 us s0 ms s) fms fms' → file_vpns fms' ≡ₚ file_vpns fms.
Proof.
  induction 1 as [|fm fm' fms fms' Hc _ IH]; [done|]. rewrite !file_vpns_cons, IH, !fm_vpns_perm.
  replace (fst <$> fm_map fm') with (fst <$> fm_map fm); [done|]. apply map_eq. intros off. rewrite !lookup_fmap.
  destruct (fm_map fm !! off) as [[v f]|] eqn:Ho.
  - destruct (fc_page _ _ _ _ _ _ _ Hc off v f Ho) as (e & f' & pg & _ & -> & _). done.
  - by rewrite (fc_only _ _ _ _ _ _ _ Hc off Ho).
Qed.

(** ** The memory of the machine *)
Definition proc_owns (p : pcb) (k : Z) : Prop :=
  space_owns (p_space p) k ∨ ∃ fm, fm ∈ p_fms p ∧ k ∈ fm_frames fm.

Record proc_ok (l0 : Z) (s : kmem) (p : pcb) : Prop := {
  po_space : space_ok l0 (p_space p) s;
  po_files : Forall (fm_ok l0 (p_space p) s) (p_fms p);
  po_vpns : NoDup (file_vpns (p_fms p));
  po_apart : ∀ v, v ∈ file_vpns (p_fms p) → v ≠ TRAMPOLINE_VPN ∧ ∀ a, a ∈ areas (p_space p) → v ∉ pages_of a;
  po_tramp : ∀ a, a ∈ areas (p_space p) → TRAMPOLINE_VPN ∉ pages_of a;
}.

(** The kernel and every process have a well-formed space, and no frame
    belongs to two of them. *)
Record machine_ok (l0 : Z) (s : os) : Prop := {
  mo_kernel : space_ok l0 (framed_part (kernel_space (ks s))) (kmem_of (ks s));
  mo_proc : ∀ q p, procs s !! q = Some p → proc_ok l0 (kmem_of (ks s)) p;
  mo_apart : ∀ q q' p p' k, procs s !! q = Some p → procs s !! q' = Some p' → proc_owns p k → proc_owns p' k → q = q';
  mo_kernel_apart : ∀ q p k, procs s !! q = Some p → proc_owns p k → ¬ space_owns (framed_part (kernel_space (ks s))) k;
}.

Lemma proc_owns_allocated l0 s p k : proc_ok l0 s p → proc_owns p k → is_allocated l0 (fa s) k.
Proof.
  intros Hp [Hk|(fm & Hfm & Hk)]; [by eapply space_owns_allocated; [apply Hp|]|].
  pose proof (po_files _ _ _ Hp) as Hf. rewrite Forall_forall in Hf. by apply (fo_frame _ _ _ _ (Hf fm Hfm)).
Qed.

(** A process depends only on the frames it owns. *)
Lemma proc_ok_frame l0 s s' p :
  proc_ok l0 s p → fa_wf l0 (fa s') →
  (∀ k, proc_owns p k → is_allocated l0 (fa s') k ∧ mem s' !! k = mem s !! k) → proc_ok l0 s' p.
Proof.
  intros [Sp F V A T] Hfa Hk. destruct (space_ok_frame l0 (p_space p) s s' Sp Hfa) as [Sp' Hm]; [intros k Hs; apply Hk; by left|].
  split; [done| |done|done|done]. rewrite Forall_forall in F |- *. intros fm Hfm. destruct (F fm Hfm) as [T1 K P].
  assert (∀ k, k ∈ fm_frames fm → is_allocated l0 (fa s') k ∧ mem s' !! k = mem s !! k) as Hfk
    by (intros k Hin; apply Hk; right; eauto).
  split; [done|intros k Hin; by apply Hfk|]. intros off v f Hoff. destruct (P off v f Hoff) as (Hv & Hf & Hpg & He).
  rewrite (proj2 (Hfk f Hf)), Hm by done. done.
Qed.

(** ** Kernel stacks *)
Definition kstack_pages (id : Z) : SimpleRange := mkRange (2 ^ 27 - 3 - 3 * id) (2 ^ 27 - 1 - 3 * id).
Definition KERNEL_RW : Z := Z.lor MP_R MP_W.

Lemma kstack_va id : 0 ≤ id → (id + 1) * 12288 ≤ 2 ^ 38 - 4096 →
  virt_addr (kernel_stack_position id).1 = range_l (kstack_pages id) * PAGE_SIZE ∧
  virt_addr (kernel_stack_position id).2 = range_r (kstack_pages id) * PAGE_SIZE ∧
  0 ≤ range_l (kstack_pages id) ∧ range_r (kstack_pages id) < 2 ^ 27.
Proof.
  intros Hi Hb. rewrite kernel_stack_eq by done. cbn [fst snd kstack_pages range_l range_r].
  replace (2 ^ 64 - 4096 - id * 12288 - 8192) with ((2 ^ 52 - 3 - 3 * id) * PAGE_SIZE) by (unfold PAGE_SIZE; lia).
  replace (2 ^ 64 - 4096 - id * 12288) with ((2 ^ 52 - 1 - 3 * id) * PAGE_SIZE) by (unfold PAGE_SIZE; lia).
  rewrite !virt_addr_page. split_and!; try lia; f_equal; dlia.
Qed.

Lemma kstack_alloc_spec l0 k ra ms s id ra' :
  space_ok l0 (framed_part ms) s → ra_alloc ra = (id, ra') → 0 ≤ id → (id + 1) * 12288 ≤ 2 ^ 38 - 4096 →
  (∀ v, v ∈ range_pages (kstack_pages id) → pt_map s ms v = None) → nfree (6 + k) (fa s) →
  ∃ ms' s', kstack_alloc (mkKS ra ms s) = Ok (id, mkKS ra' ms' s') ∧ space_ok l0 (framed_part ms') s' ∧
    area_added l0 (framed_part ms) s (kstack_pages id) KERNEL_RW (framed_part ms') s' ∧ nfree k (fa s').
Proof.
  intros Hsp Hra Hi Hb Hfree Hnf. destruct (kstack_va id Hi Hb) as (H1 & H2 & H3 & H4).
  assert (mkRange (range_l (kstack_pages id)) (range_r (kstack_pages id)) = kstack_pages id) as Heta by done.
  destruct (insert_pages l0 k (framed_part ms) s (range_l (kstack_pages id)) (range_r (kstack_pages id)) KERNEL_RW) as
    (ms1 & s' & Hr1 & Hsp' & Haa & Hnf'); [done|done|simpl; lia|done|done| |].
  { eapply nfree_mono; [|done]. rewrite Heta. unfold range_pages, get_start, get_end. rewrite length_seqZ. simpl. lia. }
  destruct (insert_framed_part _ _ _ _ _ _ _ _ Hr1 Hsp') as (ms' & Hr & <-).
  exists ms', s'. rewrite Heta in Haa. split; [|done].
  unfold kstack_alloc. cbn [kstack_allocator kernel_space kmem_of]. rewrite Hra.
  destruct (kernel_stack_position id) as [b t]. cbn [fst snd] in H1, H2. rewrite H1, H2.
  change (Z.lor MP_R MP_W) with KERNEL_RW. by rewrite Hr.
Qed.

(** ** Descriptors *)
(** A file on disk gets an object of its own at the same offset; pipes,
    consoles and sockets are shared. *)
Definition fd_copied (objs objs' : gmap Z File) (n : Z) (a b : option Z) : Prop :=
  match a, b with
  | None, None => True
  | Some o, Some o' => ∃ f, objs !! o = Some f ∧ objs' !! o' = Some f ∧
      match f with OSInode _ _ _ _ => n ≤ o' | _ => o' = o end
  | _, _ => False
  end.
Record fds_copied (objs objs' : gmap Z File) (n n' : Z) (t t' : list (option Z)) : Prop := {
  fdc_each : Forall2 (fd_copied objs objs' n) t t';
  fdc_own : ∀ i j o, t' !! i = Some (Some o) → t' !! j = Some (Some o) → n ≤ o → i = j;
  fdc_old : ∀ o, o < n → objs' !! o = objs !! o;
  fdc_new : ∀ o, is_Some (objs' !! o) → o < n';
}.

Lemma copy_fds_run t s :
  (∀ o, is_Some (fobjs s !! o) → o < next_fobj s) → (∀ o, Some o ∈ t → is_Some (fobjs s !! o)) →
  ∃ t' objs' n', copy_fds t s = Ok (t', set_fobjs objs' n' s) ∧ next_fobj s ≤ n' ∧
    fds_copied (fobjs s) objs' (next_fobj s) n' t t'.
Proof.
  revert s. induction t as [|[o|] t IH]; intros s Hold Ht.
  - exists [], (fobjs s), (next_fobj s). split; [by destruct s|]. split; [lia|]. by split.
  - destruct (Ht o) as [f Hf]; [by left|].
    set (n := next_fobj s).
    set (o' := match f with OSInode _ _ _ _ => n | _ => o end).
    set (s1 := match f with OSInode _ _ _ _ => set_fobjs (<[n := f]> (fobjs s)) (n + 1) s | _ => s end).
    assert (n ≤ next_fobj s1 ∧ fobjs s1 !! o' = Some f ∧ (∀ x, x < n → fobjs s1 !! x = fobjs s !! x) ∧
            (∀ x, is_Some (fobjs s1 !! x) → x < next_fobj s1) ∧ o' < next_fobj s1 ∧
            ∀ ob m, set_fobjs ob m s1 = set_fobjs ob m s) as (Hn1 & Ho' & Hs1 & Hlt & Hol & Hset).
    { pose proof (Hold o ltac:(eauto)) as Ho. subst s1 o'. destruct f; simpl; split_and!; try done; try lia;
        try (intros x Hx; rewrite lookup_insert_ne by lia; done); try apply lookup_insert_eq.
      intros x. destruct (decide (x = n)) as [->|]; [lia|]. rewrite lookup_insert_ne by done. intros ?%Hold. lia. }
    destruct (IH s1 Hlt) as (t' & objs' & n' & Hr & Hn & [E W O N]).
    { intros x Hx. rewrite Hs1; [|apply Hold]; apply Ht; by right. }
    rewrite Forall2_same_length_lookup in E. destruct E as [El E].
    assert (∀ i a x, t !! i = Some (Some a) → t' !! i = Some (Some x) →
      ∃ g, fobjs s !! a = Some g ∧ objs' !! x = Some g ∧ match g with OSInode _ _ _ _ => next_fobj s1 ≤ x | _ => x = a ∧ x < n end) as Hcase.
    { intros i a x Hi Hx. destruct (E i _ _ Hi Hx) as (g & G1 & G2 & G3).
      assert (a < n) as Ha by (apply Hold, Ht; right; by eapply list_elem_of_lookup_2).
      exists g. rewrite <- (Hs1 a Ha). split; [done|]. split; [done|]. destruct g; [done|subst x; done..]. }
    assert (Forall2 (fd_copied (fobjs s) objs' n) t t') as Hfar_each.
    { apply Forall2_same_length_lookup. split; [done|]. intros i a b Hi Hb. pose proof (E i a b Hi Hb) as Hab.
      destruct a as [a|], b as [b|]; [|done..]. destruct (Hcase i a b Hi Hb) as (g & G1 & G2 & G3).
      exists g. split; [done|]. split; [done|]. destruct g; [lia|by apply G3..]. }
    assert (∀ i x, t' !! i = Some (Some x) → x < n ∨ next_fobj s1 ≤ x) as Hfar.
    { intros i x Hx. destruct (lookup_lt_is_Some_2 t i) as [a Ha]; [rewrite El; by eapply lookup_lt_Some|].
      pose proof (E i a _ Ha Hx) as Hab. destruct a as [a|]; [|done].
      destruct (Hcase i a x Ha Hx) as (g & _ & _ & G3). destruct g; [by right|left; apply G3..]. }
    exists (Some o' :: t'), objs', n'. split; [|split; [lia|split]].
    + cbn [copy_fds]. rewrite (M_bind_Ok _ _ s (Some f) s) by (unfold o_gets; by rewrite Hf).
      rewrite (M_bind_Ok _ _ s f s eq_refl), (M_bind_Ok _ _ s o' s1) by (by destruct f).
      rewrite (M_bind_Ok _ _ _ _ _ Hr). unfold mret, M_ret. by rewrite Hset.
    + constructor.
      * exists f. split; [done|]. split; [by rewrite O|]. subst o'. by destruct f.
      * done.
    + intros [|i] [|j] x Hi Hj Hx; simpl in Hi, Hj; [done|..].
      * injection Hi as <-. destruct (Hfar j o' Hj); lia.
      * injection Hj as <-. destruct (Hfar i o' Hi); lia.
      * f_equal. apply (W i j x Hi Hj). destruct (Hfar i x Hi); [lia|done].
    + intros x Hx. by rewrite O, Hs1 by lia.
    + done.
  - destruct (IH s Hold) as (t' & objs' & n' & Hr & Hn & [E W O N]); [intros o Ho; apply Ht; by right|].
    exists (None :: t'), objs', n'. split; [cbn [copy_fds]; by rewrite (M_bind_Ok _ _ _ _ _ Hr)|]. split; [done|].
    split; [by constructor| |done|done]. intros [|i] [|j] x Hi Hj Hx; simpl in Hi, Hj; [done..|]. f_equal. by apply (W i j x).
Qed.

(** ** The call, step by step *)
Definition with_kmem (k : kmem) (s : os) : os := set_ks (mkKS (kstack_allocator (ks s)) (kernel_space (ks s)) k) s.

Lemma o_mem_run {A} (c : M kmem A) s a k : c (kmem_of (ks s)) = Ok (a, k) → o_mem c s = Ok (a, with_kmem k s).
Proof. intros H. unfold o_mem. by rewrite H. Qed.
Lemma get_proc_run pid s p : procs s !! pid = Some p → get_proc pid s = Ok (p, s).
Proof. intros H. unfold get_proc. by rewrite H. Qed.
Lemma get_tcb_run t s x : tcbs s !! t = Some x → get_tcb t s = Ok (x, s).
Proof. intros H. unfold get_tcb. by rewrite H. Qed.
Lemma get_task_run pid i s p t : procs s !! pid = Some p → p_tasks p !! i = Some (Some t) → get_task pid i s = Ok (t, s).
Proof. intros Hp Ht. unfold get_task. rewrite (M_bind_Ok _ _ _ _ _ (get_proc_run _ _ _ Hp)). by rewrite Ht. Qed.
Lemma res_of_run t s x r : tcbs s !! t = Some x → t_res x = Some r → res_of t s = Ok (r, s).
Proof. intros Ht Hr. unfold res_of. rewrite (M_bind_Ok _ _ _ _ _ (get_tcb_run _ _ _ Ht)). by rewrite Hr. Qed.
Lemma set_trap_word_run ppn i v s pg :
  mem s !! ppn = Some pg → set_trap_word ppn i v s = Ok ((), mkMem (fa s) (<[ppn := set_le 8 pg i v]> (mem s))).
Proof. intros H. unfold set_trap_word. by rewrite H. Qed.

(** What [TaskControlBlock::new] does for the main thread of a forked process. *)
Lemma tcb_new_run c base s cp fc kid ra' kms m3 :
  procs s !! c = Some cp → p_tids cp = ra_new → trap_cx_ppn (mkRes 0 base) (p_space cp) (kmem_of (ks s)) = Ok (fc, kmem_of (ks s)) →
  kstack_alloc (ks s) = Ok (kid, mkKS ra' kms m3) →
  tcb_new c base false s = Ok (next_tcb s,
    set_tcbs (<[next_tcb s := mkTcb c kid (Some (mkRes 0 base)) fc None signal_processor_new]> (tcbs s)) (next_tcb s + 1)
      (set_ks (mkKS ra' kms m3) (set_procs (<[c := with_tids (mkRA 1 []) (with_space (p_space cp) cp)]> (procs s)) s))).
Proof.
  intros Hc Htid Hcx Hks. unfold tcb_new. rewrite (M_bind_Ok _ _ _ _ _ (get_proc_run _ _ _ Hc)), Htid.
  assert (with_kmem (kmem_of (ks s)) s = s) as Heta by (by destruct s as [[]]).
  rewrite (M_bind_Ok _ _ s (mkRes 0 base, mkRA 1 [], p_space cp) s)
    by (rewrite <- Heta at 2; by apply o_mem_run).
  rewrite (M_bind_Ok _ _ _ _ _ (upd_proc_run c _ s cp Hc)).
  set (s1 := set_procs _ s). assert (with_kmem (kmem_of (ks s1)) s1 = s1) as Heta1 by (by destruct s as [[]]).
  rewrite (M_bind_Ok _ _ s1 fc s1) by (rewrite <- Heta1 at 2; by apply o_mem_run).
  rewrite (M_bind_Ok _ _ s1 kid (set_ks (mkKS ra' kms m3) s1)) by (unfold o_ks; simpl; by rewrite Hks).
  reflexivity.
Qed.

Definition forked_pcb (p : pcb) (pid t : Z) (ms : MemorySet) (fds : list (option Z)) (fms : list FileMapping) : pcb :=
  mkPcb false ms (Some pid) [] 0 fds [] [] [] 0 [Some t] (mkRA 1 []) (p_mapped p) (p_va p) fms (p_cwd p).

(** The state the call leaves, from what its parts computed. *)
Definition forked_os (s : os) (pid : Z) (p : pcb) (base : Z) (child : Z) (pids' : RecycleAllocator)
    (ms : MemorySet) (fds : list (option Z)) (objs' : gmap Z File) (n' : Z) (fms : list FileMapping)
    (kid : Z) (ra' : RecycleAllocator) (kms : MemorySet) (m : kmem) (fc : Z) (pg : page) : os :=
  mkOs (mkKS ra' kms (mkMem (fa m) (<[fc := set_le 8 (set_le 8 pg KERNEL_SP_WORD (get_top kid)) 10 0]> (mem m)))) pids'
    (<[child := forked_pcb p pid (next_tcb s) ms fds fms]> (<[pid := with_children (p_children p ++ [child]) p]> (procs s)))
    (<[next_tcb s := mkTcb child kid (Some (mkRes 0 base)) fc None signal_processor_new]> (tcbs s)) (next_tcb s + 1)
    ({[child]} ∪ pid2pcb s) (ready s ++ [next_tcb s]) (refs s) (held s) objs' n' (disk s).

Section run.
Context (strampoline : Z) (s : os) (pid : Z) (p : pcb) (t0 : Z) (x0 : tcb) (r0 : TaskUserRes).
Context (Hp : procs s !! pid = Some p) (Ht : p_tasks p = [Some t0]) (Hx : tcbs s !! t0 = Some x0) (Hr0 : t_res x0 = Some r0).
Context (ms1 ms2 kms : MemorySet) (m1 m2 m3 : kmem) (child : Z) (pids' ra' : RecycleAllocator).
Context (fds : list (option Z)) (objs' : gmap Z File) (n' : Z) (fms : list FileMapping) (kid fc : Z) (pg : page).
Context (Hcopy : from_existed_user strampoline (p_space p) (kmem_of (ks s)) = Ok (ms1, m1)).
Context (Hpid : ra_alloc (pids s) = (child, pids')) (Hne : child ≠ pid).
Context (Hfds : copy_fds (p_fds p) (set_pids pids' (with_kmem m1 s)) = Ok (fds, set_fobjs objs' n' (set_pids pids' (with_kmem m1 s)))).
Context (Hfms : copy_file_mappings (p_fms p) ms1 m1 = Ok ((ms2, fms), m2)).
Context (Hcx : trap_cx_ppn (mkRes 0 (ustack_base r0)) ms2 m2 = Ok (fc, m2)).
Context (Hks : kstack_alloc (mkKS (kstack_allocator (ks s)) (kernel_space (ks s)) m2) = Ok (kid, mkKS ra' kms m3)).
Context (Hpg : mem m3 !! fc = Some pg).

Lemma sys_fork_run :
  sys_fork strampoline pid s =
  Ok (child, forked_os s pid p (ustack_base r0) child pids' ms2 fds objs' n' fms kid ra' kms m3 fc pg).
Proof.
  unfold sys_fork.
  set (s3 := set_fobjs objs' n' (set_pids pids' (with_kmem m1 s))). set (s4 := with_kmem m2 s3).
  set (c1 := mkPcb false ms2 (Some pid) [] 0 fds [] [] [] 0 [] ra_new (p_mapped p) (p_va p) fms (p_cwd p)).
  set (p' := with_children (p_children p ++ [child]) p).
  set (s5 := set_procs (<[child := c1]> (procs s)) s4).
  set (s6 := set_procs (<[pid := p']> (<[child := c1]> (procs s))) s4).
  assert (procs s5 !! pid = Some p) as Hp5 by (simpl; by rewrite lookup_insert_ne).
  assert (procs s6 !! pid = Some p') as Hp6 by apply lookup_insert_eq.
  assert (procs s6 !! child = Some c1) as Hc6 by (simpl; by rewrite lookup_insert_ne, lookup_insert_eq).
  pose proof (tcb_new_run child (ustack_base r0) s6 c1 fc kid ra' kms m3 Hc6 eq_refl Hcx Hks) as Htcb.
  set (s7 := set_tcbs _ _ _) in Htcb. set (t := next_tcb s) in *.
  set (tc := mkTcb child kid (Some (mkRes 0 (ustack_base r0))) fc None signal_processor_new) in *.
  assert (procs s7 !! child = Some (with_tids (mkRA 1 []) c1)) as Hc7 by apply lookup_insert_eq.
  set (c8 := with_tasks [Some t] (with_tids (mkRA 1 []) c1)).
  set (s8 := set_procs (<[child := c8]> (procs s7)) s7).
  assert (tcbs s8 !! t = Some tc) as Ht8 by apply lookup_insert_eq.
  set (m4 := mkMem (fa m3) (<[fc := set_le 8 pg KERNEL_SP_WORD (get_top kid)]> (mem m3))).
  set (s9 := set_ready (ready s ++ [t]) (set_pid2pcb ({[child]} ∪ pid2pcb s) (with_kmem m4 s8))).
  assert (fork strampoline pid s = Ok (child, s9)) as Hfork.
  { unfold fork. rewrite (M_bind_Ok _ _ _ _ _ (get_proc_run _ _ _ Hp)), Ht, (M_bind_Ok _ _ s () s eq_refl).
    rewrite (M_bind_Ok _ _ _ _ _ (o_mem_run _ _ _ _ Hcopy)).
    rewrite (M_bind_Ok _ _ _ child (set_pids pids' (with_kmem m1 s))) by (unfold pid_alloc; simpl; by rewrite Hpid).
    rewrite (M_bind_Ok _ _ _ _ _ Hfds). fold s3.
    rewrite (M_bind_Ok _ _ s3 (ms2, fms) s4) by (by apply o_mem_run).
    rewrite (M_bind_Ok _ _ s4 () s5 eq_refl), (M_bind_Ok _ _ _ _ _ (upd_proc_run pid _ s5 p Hp5)). fold p'.
    change (set_procs _ s5) with s6.
    rewrite (M_bind_Ok _ _ s6 t0 s6) by (eapply get_task_run; [done|simpl; by rewrite Ht]).
    rewrite (M_bind_Ok _ _ s6 r0 s6) by (by eapply res_of_run).
    rewrite (M_bind_Ok _ _ _ _ _ Htcb), (M_bind_Ok _ _ s7 () s8) by (unfold push_task; by rewrite (upd_proc_run child _ s7 _ Hc7)).
    rewrite (M_bind_Ok _ _ _ _ _ (get_tcb_run _ _ _ Ht8)).
    rewrite (M_bind_Ok _ _ s8 () (with_kmem m4 s8)) by (by apply o_mem_run, set_trap_word_run).
    reflexivity. }
  rewrite (M_bind_Ok _ _ _ _ _ Hfork).
  rewrite (M_bind_Ok _ _ s9 t s9) by (apply (get_task_run child 0 s9 c8); [apply lookup_insert_eq|done]).
  rewrite (M_bind_Ok _ _ s9 tc s9) by (by apply get_tcb_run).
  set (m5 := mkMem (fa m4) (<[fc := set_le 8 (set_le 8 pg KERNEL_SP_WORD (get_top kid)) 10 0]> (mem m4))).
  rewrite (M_bind_Ok _ _ s9 () (with_kmem m5 s9)) by (by apply o_mem_run, set_trap_word_run, lookup_insert_eq).
  assert (procs s8 = <[child := c8]> (<[pid := p']> (procs s))) as Hprocs.
  { simpl. by rewrite insert_insert_eq, (insert_insert_ne (procs s) pid child), insert_insert_eq by done. }
  assert (m5 = mkMem (fa m3) (<[fc := set_le 8 (set_le 8 pg KERNEL_SP_WORD (get_top kid)) 10 0]> (mem m3))) as Hm5
    by (unfold m5; simpl; by rewrite insert_insert_eq).
  unfold mret, M_ret. f_equal. f_equal. unfold forked_os. rewrite <- Hm5. change (forked_pcb _ _ _ _ _ _) with c8.
  fold p'. by rewrite <- Hprocs.
Qed.
End run.

(** ** The memory after the call *)
Definition CX_VPN : Z := 2 ^ 27 - 2.

(** Memory states of the call: [m0] before, [m2] after the copies, [m3] with the
    kernel stack of the child, [m4] with the context of the child written at [fc]. *)
Section child_memory.
Context (l0 : Z) (us ms kms0 kms : MemorySet) (fms0 fms : list FileMapping) (m0 m1 m2 m3 : kmem).
Context (rg : SimpleRange) (fc : Z) (pg pgc : page) (ac : MapArea).
Context (Hch : child_ok l0 m0 ms m2) (Hcf : Forall2 (fm_copied l0 us m0 ms m2) fms0 fms).
Context (Hk0 : space_ok l0 kms0 m0) (Hk : space_ok l0 kms m3) (Haa : area_added l0 kms0 m2 rg KERNEL_RW kms m3).
Context (Hac : ac ∈ areas ms) (Hfc : data_frames ac !! CX_VPN = Some fc).
Context (Hm1 : is_allocated l0 (fa m1) fc) (Hfresh1 : ∀ fm k, fm ∈ fms → k ∈ fm_frames fm → ¬ is_allocated l0 (fa m1) k).
Context (Hpg : mem m2 !! fc = Some pg) (Hpgok : page_ok pg) (Hpgc : page_ok pgc).
Context (Hrange : ∀ fm off v f, fm ∈ fms0 → fm_map fm !! off = Some (v, f) → 0 ≤ v < 2 ^ 27).

Definition child_owns (k : Z) : Prop := space_owns ms k ∨ ∃ fm, fm ∈ fms ∧ k ∈ fm_frames fm.
Definition m4 : kmem := mkMem (fa m3) (<[fc := pgc]> (mem m3)).

Lemma child_owns_fresh k : child_owns k → ¬ is_allocated l0 (fa m0) k ∧ is_allocated l0 (fa m2) k.
Proof.
  intros [Hs|(fm & Hfm & Hk')].
  - split; [|by eapply space_owns_allocated; [apply Hch|]].
    destruct Hs as [Hf|(a & v & Ha & Hv)]; [by apply (ch_frames _ _ _ _ Hch)|by eapply (ch_data _ _ _ _ Hch)].
  - apply list_elem_of_lookup in Hfm as [i Hi]. destruct (Forall2_lookup_r _ _ _ _ _ Hcf Hi) as (fm0 & _ & Hc).
    by apply (fc_fresh _ _ _ _ _ _ _ Hc).
Qed.

Lemma kernel_frame k : k ∈ frames (page_table kms0) → is_allocated l0 (fa m0) k.
Proof. apply Hk0. Qed.

Lemma fc_owned : child_owns fc.
Proof. left. right. eauto. Qed.

Lemma kms_apart k : space_owns kms k → space_owns kms0 k ∨ ¬ is_allocated l0 (fa m2) k.
Proof.
  intros [Hf|(a & v & Ha & Hv)].
  - apply (ext_fresh _ _ _ _ _ (aa_keeps _ _ _ _ _ _ _ Haa)) in Hf as [?|?]; [left; by left|by right].
  - destruct (aa_areas _ _ _ _ _ _ _ Haa) as (a' & Har & _ & _ & Hn). rewrite Har in Ha.
    apply elem_of_app in Ha as [Ha| ->%list_elem_of_singleton]; [left; right; eauto|right; by eapply Hn].
Qed.

Lemma fc_not_kernel k : space_owns kms k → k ≠ fc.
Proof.
  intros Hs ->. destruct (child_owns_fresh fc fc_owned) as [N A].
  apply kms_apart in Hs as [Hs|Hn]; [|done]. apply N. by eapply space_owns_allocated.
Qed.

(** Frames outside the kernel's table keep their contents from [m2] on. *)
Lemma m4_keeps k : is_allocated l0 (fa m2) k → k ∉ frames (page_table kms0) →
  is_allocated l0 (fa m4) k ∧ mem m3 !! k = mem m2 !! k ∧ (k ≠ fc → mem m4 !! k = mem m2 !! k).
Proof.
  intros Ha Hn. destruct (aa_keeps _ _ _ _ _ _ _ Haa) as [_ A _ _ O]. split; [by apply A|]. split; [by apply O|].
  intros Hne. simpl. rewrite lookup_insert_ne by done. by apply O.
Qed.

Lemma child_keeps k : child_owns k →
  is_allocated l0 (fa m4) k ∧ mem m3 !! k = mem m2 !! k ∧ (k ≠ fc → mem m4 !! k = mem m2 !! k).
Proof. intros Hc. destruct (child_owns_fresh k Hc) as [N A]. apply m4_keeps; [done|]. by intros ?%kernel_frame. Qed.

Lemma old_keeps k : is_allocated l0 (fa m0) k → k ∉ frames (page_table kms0) →
  is_allocated l0 (fa m4) k ∧ mem m4 !! k = mem m0 !! k.
Proof.
  intros Ha Hn. destruct (m4_keeps k) as (A & _ & M); [by apply (ch_alloc _ _ _ _ Hch)|done|]. split; [done|].
  rewrite M; [by apply (ch_mem _ _ _ _ Hch)|]. intros ->. by destruct (child_owns_fresh fc fc_owned).
Qed.

Lemma kernel_after : space_ok l0 kms m4 ∧ ∀ v, 0 ≤ v < 2 ^ 27 → pt_map m4 kms v = pt_map m3 kms v.
Proof.
  apply space_ok_frame; [done|apply Hk|]. intros k Hs. split; [exact (space_owns_allocated _ _ _ _ Hk Hs)|].
  simpl. apply lookup_insert_ne. intros <-. by apply (fc_not_kernel fc).
Qed.

Lemma fc_not_table : fc ∉ frames (page_table ms).
Proof.
  pose proof (ch_space _ _ _ _ Hch) as Hs.
  destruct (sp_page _ _ _ Hs ac CX_VPN Hac) as (f & pg' & D & _ & N & _); [apply (ao_dom _ (sp_area _ _ _ Hs ac Hac)); eauto|].
  congruence.
Qed.

Lemma child_after : space_ok l0 ms m4 ∧ ∀ v, 0 ≤ v < 2 ^ 27 → pt_map m4 ms v = pt_map m2 ms v.
Proof.
  assert (fa_wf l0 (fa m3)) as Hfa by apply Hk.
  destruct (space_ok_frame l0 ms m2 m3 (ch_space _ _ _ _ Hch) Hfa) as [S3 E3].
  { intros k Hs. destruct (child_keeps k) as (A & M & _); [by left|done]. }
  destruct (space_ok_contents l0 ms m3 (<[fc := pgc]> (mem m3)) S3) as [S4 E4].
  { intros k Hin. apply lookup_insert_ne. intros <-. by apply fc_not_table. }
  { intros k pg' Hk' Hok. destruct (decide (k = fc)) as [->|]; [exists pgc|exists pg'];
      by rewrite ?lookup_insert_eq, ?lookup_insert_ne. }
  split; [done|]. intros v Hv. by rewrite <- E3, <- E4.
Qed.

Lemma page_copied_after v a : a ∈ areas ms → v ∈ pages_of a → v ≠ CX_VPN →
  page_copied l0 us m0 ms m2 v → page_copied l0 us m0 ms m4 v.
Proof.
  intros Ha Hv Hne (perm & f & f' & pg' & H0 & H1 & H2 & H3 & H4 & H5 & H6 & H7). pose proof (ch_space _ _ _ _ Hch) as Hs.
  destruct (sp_page _ _ _ Hs a v Ha Hv) as (g & pg2 & D & A & _ & _ & _ & M).
  pose proof (sp_area _ _ _ Hs a Ha) as Hao. pose proof (inv_fa _ _ _ (sp_pt _ _ _ Hs)) as Hfa.
  assert (f' = g) as <-.
  { rewrite H2 in M. injection M as M. apply (f_equal pte_ppn) in M.
    rewrite !leaf_entry_ppn in M; [done|apply Hao|by eapply is_allocated_range|done|by eapply is_allocated_range]. }
  assert (f' ≠ fc) as Hfne by (intros ->; by apply Hne, (sp_inj _ _ _ Hs a ac v CX_VPN fc)).
  destruct (child_keeps f') as (A' & _ & M'); [left; right; eauto|].
  exists perm, f, f', pg'. split_and!; try done; [|by rewrite M'].
  rewrite (proj2 child_after); [done|]. by eapply pages_of_range.
Qed.

Lemma files_after : Forall2 (fm_copied l0 us m0 ms m4) fms0 fms.
Proof.
  apply Forall2_same_length_lookup. split; [by eapply Forall2_length|]. intros i fm0 fm H0 Hi.
  destruct (Forall2_lookup_lr _ _ _ _ _ _ Hcf H0 Hi) as [F R T P O K].
  assert (fm ∈ fms) as Hfm by (by eapply list_elem_of_lookup_2).
  assert (∀ k, k ∈ fm_frames fm → is_allocated l0 (fa m4) k ∧ mem m4 !! k = mem m2 !! k) as Hkeep.
  { intros k Hin. destruct (child_keeps k) as (A & _ & M); [right; eauto|]. split; [done|]. apply M.
    intros ->. by eapply Hfresh1. }
  split; [done|done|done| |done|].
  - intros off v f Hoff. destruct (P off v f Hoff) as (e & f' & pg' & Q1 & Q2 & Q3 & Q4 & Q5 & Q6 & Q7 & Q8 & Q9 & Q10).
    destruct (Hkeep f' Q3) as [A M]. exists e, f', pg'. split_and!; try done; [|by rewrite M].
    rewrite (proj2 child_after); [done|]. eapply (Hrange fm0 off v f); [|done]. by eapply list_elem_of_lookup_2.
  - intros k Hin. destruct (K k Hin). split; [done|by apply Hkeep].
Qed.
End child_memory.

(** ** Fork *)
(** What the call needs: a process with one thread, whose trap context is in
    its space; a free pid; a slot for a kernel stack; frames for the copies. *)
Record can_fork (l0 strampoline : Z) (s : os) (pid : Z) (p : pcb) (r0 : TaskUserRes) : Prop := {
  cf_proc : procs s !! pid = Some p;
  cf_task : ∃ t0 x0, p_tasks p = [Some t0] ∧ tcbs s !! t0 = Some x0 ∧ t_res x0 = Some r0;
  cf_cx : ∃ a, a ∈ areas (p_space p) ∧ CX_VPN ∈ pages_of a;
  cf_tramp : ∃ ppn, page_of_addr (phys_addr strampoline) = Ok ppn ∧ 0 ≤ ppn < 2 ^ 44;
  cf_fds : ∀ o, Some o ∈ p_fds p → is_Some (fobjs s !! o);
  cf_objs : ∀ o, is_Some (fobjs s !! o) → o < next_fobj s;
  cf_pid : procs s !! (ra_alloc (pids s)).1 = None;
  cf_stack : let id := (ra_alloc (kstack_allocator (ks s))).1 in
    0 ≤ id ∧ (id + 1) * 12288 ≤ 2 ^ 38 - 4096 ∧
    ∀ v, v ∈ range_pages (kstack_pages id) → pt_map (kmem_of (ks s)) (kernel_space (ks s)) v = None;
  cf_frames : nfree (3 + 3 * total_pages (areas (p_space p)) + (3 * length (file_vpns (p_fms p)) + 6)) (fa (kmem_of (ks s)));
}.

(** The saved registers of the child: those of the parent, but 0 in a0 and the
    child's own kernel stack. *)
Definition context_copied (us : MemorySet) (m0 : kmem) (ms : MemorySet) (m : kmem) (tc : tcb) : Prop :=
  ∃ perm f pg pg', pt_map m0 us CX_VPN = Some (leaf_entry perm f) ∧ mem m0 !! f = Some pg ∧
    pt_map m ms CX_VPN = Some (leaf_entry perm (t_trap_ppn tc)) ∧ mem m !! t_trap_ppn tc = Some pg' ∧
    ∀ i, (i < 512)%nat → get_le 8 pg' i =
      if decide (i = 10%nat) then 0 else if decide (i = KERNEL_SP_WORD) then get_top (t_kstack tc) else get_le 8 pg i.

Record forked (l0 : Z) (s : os) (pid : Z) (p : pcb) (r0 : TaskUserRes) (child : Z) (s' : os) (cp : pcb) (tc : tcb) : Prop := {
  fk_child : child = (ra_alloc (pids s)).1;
  fk_procs : procs s' = <[child := cp]> (<[pid := with_children (p_children p ++ [child]) p]> (procs s));
  fk_thread : tcbs s' = <[next_tcb s := tc]> (tcbs s) ∧ t_pid tc = child ∧ t_res tc = Some (mkRes 0 (ustack_base r0)) ∧
    t_exit tc = None ∧ t_sig tc = signal_processor_new ∧ ready s' = ready s ++ [next_tcb s] ∧ pid2pcb s' = {[child]} ∪ pid2pcb s;
  fk_pcb : p_zombie cp = false ∧ p_parent cp = Some pid ∧ p_children cp = [] ∧ p_tasks cp = [Some (next_tcb s)] ∧
    p_cwd cp = p_cwd p ∧ p_mapped cp = p_mapped p ∧ p_va cp = p_va p ∧ p_signals cp = 0;
  fk_fds : fds_copied (fobjs s) (fobjs s') (next_fobj s) (next_fobj s') (p_fds p) (p_fds cp);
  fk_areas : area_shape <$> areas (p_space cp) = area_shape <$> areas (p_space p);
  fk_pages : ∀ a v, a ∈ areas (p_space p) → v ∈ pages_of a → v ≠ CX_VPN →
    page_copied l0 (p_space p) (kmem_of (ks s)) (p_space cp) (kmem_of (ks s')) v;
  fk_context : context_copied (p_space p) (kmem_of (ks s)) (p_space cp) (kmem_of (ks s')) tc;
  fk_files : Forall2 (fm_copied l0 (p_space p) (kmem_of (ks s)) (p_space cp) (kmem_of (ks s'))) (p_fms p) (p_fms cp);
  fk_only : ∀ v, 0 ≤ v < 2 ^ 27 → v ≠ TRAMPOLINE_VPN → (∀ a, a ∈ areas (p_space p) → v ∉ pages_of a) →
    v ∉ file_vpns (p_fms p) → pt_map (kmem_of (ks s')) (p_space cp) v = None;
  fk_old : ∀ q pq k, procs s !! q = Some pq → proc_owns pq k →
    mem (kmem_of (ks s')) !! k = mem (kmem_of (ks s)) !! k;
  fk_stack : ∀ v, v ∈ range_pages (kstack_pages (t_kstack tc)) → ∃ f,
    pt_map (kmem_of (ks s')) (kernel_space (ks s')) v = Some (leaf_entry KERNEL_RW f) ∧
    mem (kmem_of (ks s')) !! f = Some zero_page;
}.

Lemma area_shape_in (l l' : list MapArea) a : area_shape <$> l' = area_shape <$> l → a ∈ l →
  ∃ a', a' ∈ l' ∧ pages_of a' = pages_of a.
Proof.
  intros Hs Ha. assert (area_shape a ∈ area_shape <$> l') as Hin by (rewrite Hs; apply list_elem_of_fmap; eauto).
  apply list_elem_of_fmap in Hin as (a' & Hsh & Ha'). exists a'. split; [done|]. unfold pages_of. by injection Hsh as ->.
Qed.

(** The context page with its two words written. *)
Lemma context_words pg top i : page_ok pg → 0 ≤ top < 2 ^ 64 → (i < 512)%nat →
  page_ok (set_le 8 (set_le 8 pg KERNEL_SP_WORD top) 10 0) ∧
  get_le 8 (set_le 8 (set_le 8 pg KERNEL_SP_WORD top) 10 0) i =
    if decide (i = 10%nat) then 0 else if decide (i = KERNEL_SP_WORD) then top else get_le 8 pg i.
Proof.
  intros [Hl Hb] Ht Hi. change (Z.to_nat PAGE_SIZE) with 4096%nat in Hl.
  assert (length (set_le 8 pg KERNEL_SP_WORD top) = 4096%nat) as Hl1 by (rewrite length_set_le; unfold KERNEL_SP_WORD; lia).
  split.
  - split; [rewrite length_set_le; [done|lia]|]. by do 2 apply set_le_bytes.
  - case_decide as H10; [subst; apply get_set_le_same; lia|]. rewrite get_set_le_ne by lia.
    case_decide as H35; [subst; apply get_set_le_same; unfold KERNEL_SP_WORD; lia|].
    apply get_set_le_ne; unfold KERNEL_SP_WORD in *; lia.
Qed.

Lemma get_top_range id : 0 ≤ get_top id < 2 ^ 64.
Proof. unfold get_top, kernel_stack_position. cbn [snd]. apply u64_range. Qed.

Record copies (l0 strampoline : Z) (m0 : kmem) (p : pcb) (base : Z) (ms1 ms2 : MemorySet) (m1 m2 : kmem)
    (fms : list FileMapping) (ac : MapArea) (fc : Z) (pg : page) : Prop := {
  cs_space : from_existed_user strampoline (p_space p) m0 = Ok (ms1, m1);
  cs_files : copy_file_mappings (p_fms p) ms1 m1 = Ok ((ms2, fms), m2);
  cs_cx : trap_cx_ppn (mkRes 0 base) ms2 m2 = Ok (fc, m2);
  cs_child : child_ok l0 m0 ms2 m2;
  cs_copied : Forall2 (fm_copied l0 (p_space p) m0 ms2 m2) (p_fms p) fms;
  cs_shape : area_shape <$> areas ms2 = area_shape <$> areas (p_space p);
  cs_pages : ∀ a v, a ∈ areas (p_space p) → v ∈ pages_of a → page_copied l0 (p_space p) m0 ms2 m2 v;
  cs_only : ∀ v, 0 ≤ v < 2 ^ 27 → v ≠ TRAMPOLINE_VPN → (∀ a, a ∈ areas (p_space p) → v ∉ pages_of a) →
    v ∉ file_vpns (p_fms p) → pt_map m2 ms2 v = None;
  cs_free : nfree 6 (fa m2);
  cs_area : ac ∈ areas ms2 ∧ data_frames ac !! CX_VPN = Some fc ∧ is_allocated l0 (fa m1) fc;
  cs_fresh : ∀ fm k, fm ∈ fms → k ∈ fm_frames fm → ¬ is_allocated l0 (fa m1) k;
  cs_context : ∃ perm f, pt_map m0 (p_space p) CX_VPN = Some (leaf_entry perm f) ∧ mem m0 !! f = Some pg ∧
    pt_map m2 ms2 CX_VPN = Some (leaf_entry perm fc) ∧ mem m2 !! fc = Some pg ∧ page_ok pg;
}.

Lemma cx_page_of_main base : cx_page (mkRes 0 base) = CX_VPN.
Proof. unfold cx_page, CX_VPN. simpl. lia. Qed.

Lemma trap_cx_ppn_main l0 base ms s a f :
  space_ok l0 ms s → a ∈ areas ms → pt_map s ms CX_VPN = Some (leaf_entry (map_perm a) f) → is_allocated l0 (fa s) f →
  trap_cx_ppn (mkRes 0 base) ms s = Ok (f, s).
Proof.
  intros Hs Ha Hm Hal. unfold trap_cx_ppn. assert (0 ≤ CX_VPN < 2 ^ 27) as Hv by (unfold CX_VPN; lia).
  rewrite (proj1 (cx_va (mkRes 0 base) ltac:(simpl; lia) ltac:(by vm_compute))), cx_page_of_main, page_aligned.
  rewrite (M_bind_Ok _ _ s _ s eq_refl).
  rewrite (M_bind_Ok _ _ _ _ _ (translate_mapping _ _ _ _ _ (inv_tree _ _ _ (sp_pt _ _ _ Hs)) Hv Hm)).
  rewrite (M_bind_Ok _ _ s _ s eq_refl). unfold mret, M_ret. rewrite leaf_entry_ppn; [done|by apply (sp_area _ _ _ Hs)|].
  by eapply is_allocated_range; [apply Hs|].
Qed.

Lemma fork_copies l0 strampoline s pid p r0 :
  machine_ok l0 s → can_fork l0 strampoline s pid p r0 →
  ∃ ms1 ms2 m1 m2 fms ac fc pg,
    copies l0 strampoline (kmem_of (ks s)) p (ustack_base r0) ms1 ms2 m1 m2 fms ac fc pg.
Proof.
  intros Hmo [Hp _ (a & Ha & Hcx) (ppn & Hst & Hppn) _ _ _ _ Hnf]. set (m0 := kmem_of (ks s)) in *.
  destruct (mo_proc _ _ Hmo pid p Hp) as [Sp F V A T].
  destruct (from_existed_user_spec l0 (p_space p) m0 (3 * length (file_vpns (p_fms p)) + 6) strampoline ppn) as
    (ms1 & m1 & Hr1 & Hsp1 & Hsh & Hcp & _ & Hnone & Hch1 & Hnf1); [done..|].
  destruct (copy_file_mappings_spec l0 (p_space p) m0 Sp 6 (p_fms p) ms1 m1) as
    (ms2 & m2 & fms & Hr2 & Hfc & Hch2 & He & Har & Hnf2 & Hfr & Hm); [done|done|done| |done|].
  { intros v Hv. destruct (A v Hv) as [H1 H2]. apply Hnone; [|done|done].
    apply list_elem_of_fmap in Hv as ([v' f] & -> & Hin). apply list_elem_of_fmap in Hin as ([o [v'' f'']] & [= -> ->] & Hin).
    apply list_elem_of_bind in Hin as (fm & Hin & Hfm). rewrite Forall_forall in F.
    by apply (fo_page _ _ _ _ (F fm Hfm) o v'' f''), elem_of_fm_entries. }
  assert (∀ b v, b ∈ areas (p_space p) → v ∈ pages_of b → page_copied l0 (p_space p) m0 ms2 m2 v) as Hcp2.
  { intros b v Hb Hv. eapply page_copied_extends; [done| |by eapply Hcp]. apply Hm.
    - eapply pages_of_range; [by apply (sp_area _ _ _ Sp)|done].
    - intros Hin. by apply (proj2 (A v Hin) b Hb). }
  destruct (area_shape_in (areas (p_space p)) (areas ms1) a) as (ac & Hac & Hpac); [done|done|].
  destruct (sp_page _ _ _ Hsp1 ac CX_VPN Hac) as (fc & pg1 & D & A1 & _); [by rewrite Hpac|].
  assert (ac ∈ areas ms2) as Hac2 by (by rewrite Har). pose proof (ch_space _ _ _ _ Hch2) as Hsp2.
  destruct (sp_page _ _ _ Hsp2 ac CX_VPN Hac2) as (fc' & pg & D' & A2 & _ & Hpg & Hok & M2); [by rewrite Hpac|].
  assert (fc' = fc) as -> by congruence.
  destruct (Hcp2 a CX_VPN Ha Hcx) as (perm & f & f' & pg' & P0 & P1 & P2 & P3 & P4 & _ & P6 & _).
  assert (f' = fc) as ->.
  { pose proof (inv_fa _ _ _ (sp_pt _ _ _ Hsp2)) as Hfa. pose proof P2 as P2'. rewrite M2 in P2'. injection P2' as M. apply (f_equal pte_ppn) in M.
    rewrite !leaf_entry_ppn in M; [done|done|by eapply is_allocated_range|by apply (sp_area _ _ _ Hsp2)|by eapply is_allocated_range]. }
  exists ms1, ms2, m1, m2, fms, ac, fc, pg. split; try done.
  - eapply trap_cx_ppn_main; [done|exact Hac2|done|done].
  - by rewrite Har.
  - intros v Hv Ht Hn Hf. rewrite Hm by done. by apply Hnone.
  - exists perm, f. split_and!; try done. congruence.
Qed.

Section fork_ok.
Context (l0 strampoline : Z) (s : os) (pid : Z) (p : pcb) (r0 : TaskUserRes).
Context (Hmo : machine_ok l0 s) (Hcan : can_fork l0 strampoline s pid p r0).
Context (ms1 ms2 kms : MemorySet) (m1 m2 m3 : kmem) (fms : list FileMapping) (ac : MapArea) (fc : Z) (pg : page).
Context (Hcs : copies l0 strampoline (kmem_of (ks s)) p (ustack_base r0) ms1 ms2 m1 m2 fms ac fc pg).
Context (kid : Z) (rg : SimpleRange) (Hk : space_ok l0 (framed_part kms) m3) (Haa : area_added l0 (framed_part (kernel_space (ks s))) m2 rg KERNEL_RW (framed_part kms) m3).
Let m0 := kmem_of (ks s).
Let pgc := set_le 8 (set_le 8 pg KERNEL_SP_WORD (get_top kid)) 10 0.
Let mf := m4 m3 fc pgc.

Lemma fork_pg_ok : page_ok pg ∧ page_ok pgc.
Proof.
  destruct (cs_context _ _ _ _ _ _ _ _ _ _ _ _ _ Hcs) as (perm & f & _ & _ & _ & _ & Hok). split; [done|].
  apply (context_words pg (get_top kid) 0); [done|apply get_top_range|lia].
Qed.

Lemma fork_file_range fm off v f : fm ∈ p_fms p → fm_map fm !! off = Some (v, f) → 0 ≤ v < 2 ^ 27.
Proof.
  intros Hfm Hoff. pose proof (po_files _ _ _ (mo_proc _ _ Hmo pid p (cf_proc _ _ _ _ _ _ Hcan))) as F.
  rewrite Forall_forall in F. by apply (fo_page _ _ _ _ (F fm Hfm) off v f).
Qed.

Lemma fork_kernel : space_ok l0 (framed_part kms) mf ∧ ∀ v, 0 ≤ v < 2 ^ 27 → pt_map mf kms v = pt_map m3 kms v.
Proof.
  change (space_ok l0 (framed_part kms) mf ∧ ∀ v, 0 ≤ v < 2 ^ 27 → pt_map mf (framed_part kms) v = pt_map m3 (framed_part kms) v).
  destruct Hcs, cs_area0 as (? & ? & ?). eapply (kernel_after l0); [done|done|apply Hmo|done|done|done|done].
Qed.

Lemma fork_child_space : space_ok l0 ms2 mf ∧ ∀ v, 0 ≤ v < 2 ^ 27 → pt_map mf ms2 v = pt_map m2 ms2 v.
Proof.
  destruct fork_pg_ok as [? ?]. destruct Hcs, cs_area0 as (? & ? & ?).
  eapply (child_after l0); [done|done|apply Hmo|done|done|done|done|done].
Qed.

Ltac fork_facts :=
  destruct fork_pg_ok as [? ?]; pose proof (cs_pages _ _ _ _ _ _ _ _ _ _ _ _ _ Hcs);
  destruct Hcs as [? ? ? ? ? ? ? ? ? (? & ? & ?) ? ?]; pose proof (mo_kernel _ _ Hmo).

Lemma fork_owned k : child_owns ms2 fms k → ¬ is_allocated l0 (fa m0) k ∧ is_allocated l0 (fa m2) k.
Proof. fork_facts. by eapply (child_owns_fresh l0). Qed.

Lemma fork_keeps_old k : is_allocated l0 (fa m0) k → ¬ space_owns (framed_part (kernel_space (ks s))) k →
  is_allocated l0 (fa mf) k ∧ mem mf !! k = mem m0 !! k.
Proof. intros Ha Hn. fork_facts. eapply (old_keeps l0); [done..|]. intros Hin. apply Hn. by left. Qed.

Lemma fork_kernel_frames k : space_owns (framed_part kms) k → space_owns (framed_part (kernel_space (ks s))) k ∨ ¬ is_allocated l0 (fa m2) k.
Proof. fork_facts. by eapply (kms_apart l0). Qed.

Lemma fork_files : Forall2 (fm_copied l0 (p_space p) m0 ms2 mf) (p_fms p) fms.
Proof. fork_facts. eapply (files_after l0); [done..|apply fork_file_range]. Qed.

Lemma fork_page a v : a ∈ areas (p_space p) → v ∈ pages_of a → v ≠ CX_VPN → page_copied l0 (p_space p) m0 ms2 mf v.
Proof.
  intros Ha Hv Hne. destruct (area_shape_in _ (areas ms2) a (cs_shape _ _ _ _ _ _ _ _ _ _ _ _ _ Hcs) Ha) as (a' & Ha' & Hpa).
  fork_facts. eapply (page_copied_after l0) with (a := a'); [done..|by rewrite Hpa|done|eauto].
Qed.

Lemma fork_context : context_copied (p_space p) m0 ms2 mf (mkTcb 0 kid None fc None signal_processor_new).
Proof.
  destruct (cs_context _ _ _ _ _ _ _ _ _ _ _ _ _ Hcs) as (perm & f & M0 & P0 & M2 & P2 & Hok).
  exists perm, f, pg, pgc. split_and!; [done|done| |apply lookup_insert_eq|].
  - simpl. by rewrite (proj2 fork_child_space) by (unfold CX_VPN; lia).
  - intros i Hi. apply context_words; [done|apply get_top_range|done].
Qed.

Lemma fork_written : mem m3 !! fc = Some pg.
Proof.
  destruct (cs_context _ _ _ _ _ _ _ _ _ _ _ _ _ Hcs) as (perm & f & _ & _ & _ & P2 & _).
  destruct (cs_area _ _ _ _ _ _ _ _ _ _ _ _ _ Hcs) as (Hac & Hfc & _).
  destruct (fork_owned fc) as [N A]; [left; right; eauto|].
  rewrite (ext_mem _ _ _ _ _ (aa_keeps _ _ _ _ _ _ _ Haa)); [done|done|]. intros Hin. apply N. by apply (mo_kernel _ _ Hmo).
Qed.

Lemma fork_stack v : 0 ≤ v < 2 ^ 27 → v ∈ range_pages rg → ∃ f, pt_map mf kms v = Some (leaf_entry KERNEL_RW f) ∧ mem mf !! f = Some zero_page.
Proof.
  intros Hr Hv. destruct (aa_pages _ _ _ _ _ _ _ Haa v Hv) as (f & M & Z' & N & _). exists f.
  rewrite (proj2 fork_kernel) by done. split; [done|]. simpl. rewrite lookup_insert_ne; [done|]. intros <-.
  destruct (cs_area _ _ _ _ _ _ _ _ _ _ _ _ _ Hcs) as (Hac & Hfc & _). destruct (fork_owned fc); [left; right; eauto|done].
Qed.

(** The process made is well formed and owns only frames that were free. *)
Lemma fork_child_ok t fds : proc_ok l0 mf (forked_pcb p pid t ms2 fds fms).
Proof.
  pose proof (mo_proc _ _ Hmo pid p (cf_proc _ _ _ _ _ _ Hcan)) as [Sp F V A T].
  pose proof (cs_shape _ _ _ _ _ _ _ _ _ _ _ _ _ Hcs) as Hsh. destruct fork_child_space as [Sp' _].
  pose proof (file_vpns_copied _ _ _ _ _ _ _ fork_files) as Hv.
  assert (∀ a, a ∈ areas ms2 → ∃ a', a' ∈ areas (p_space p) ∧ pages_of a' = pages_of a) as Hback
    by (intros a; by apply area_shape_in).
  split; simpl; [done| |by rewrite Hv| |].
  - pose proof fork_files as Hf. rewrite Forall_forall in F |- *. intros fm [i Hi]%list_elem_of_lookup.
    destruct (Forall2_lookup_r _ _ _ _ _ Hf Hi) as (fm0 & H0 & Hc).
    eapply fm_copied_ok; [apply Sp'|apply F; by eapply list_elem_of_lookup_2|done].
  - intros v Hin. rewrite Hv in Hin. destruct (A v Hin) as [A1 A2]. split; [done|]. intros a Ha.
    destruct (Hback a Ha) as (a' & Ha' & <-). by apply A2.
  - intros a Ha. destruct (Hback a Ha) as (a' & Ha' & <-). by apply T.
Qed.
End fork_ok.

(** No frame has two owners after the call either. *)
Lemma fork_machine_ok l0 strampoline s pid p r0 ms1 ms2 kms m1 m2 m3 fms ac fc pg kid rg child pids' fds objs' n' ra' :
  machine_ok l0 s → can_fork l0 strampoline s pid p r0 →
  copies l0 strampoline (kmem_of (ks s)) p (ustack_base r0) ms1 ms2 m1 m2 fms ac fc pg →
  space_ok l0 (framed_part kms) m3 → area_added l0 (framed_part (kernel_space (ks s))) m2 rg KERNEL_RW (framed_part kms) m3 →
  procs s !! child = None →
  machine_ok l0 (forked_os s pid p (ustack_base r0) child pids' ms2 fds objs' n' fms kid ra' kms m3 fc pg).
Proof.
  intros Hmo Hcan Hcs Hk Haa Hnew. set (s' := forked_os _ _ _ _ _ _ _ _ _ _ _ _ _ _ _ _ _).
  set (cp := forked_pcb p pid (next_tcb s) ms2 fds fms).
  pose proof (cf_proc _ _ _ _ _ _ Hcan) as Hp.
  assert (∀ q x, procs s' !! q = Some x → (q = child ∧ x = cp) ∨
    (q ≠ child ∧ ∃ x0, procs s !! q = Some x0 ∧ ∀ k, proc_owns x k ↔ proc_owns x0 k)) as Hcases.
  { intros q x. simpl. rewrite !lookup_insert. repeat case_decide; intros Hx; try (injection Hx as <-); subst; eauto 6. }
  assert (∀ q x0 k, procs s !! q = Some x0 → proc_owns x0 k → is_allocated l0 (fa (kmem_of (ks s))) k) as Hold
    by (intros; by eapply proc_owns_allocated; [by eapply (mo_proc _ _ Hmo)|]).
  assert (∀ k, proc_owns cp k → ¬ is_allocated l0 (fa (kmem_of (ks s))) k ∧ is_allocated l0 (fa m2) k) as Hfresh
    by (intros k; by eapply (fork_owned l0)).
  split.
  - by eapply (fork_kernel l0).
  - intros q x Hx. simpl in Hx. rewrite !lookup_insert in Hx.
    destruct (decide (child = q)) as [<-|Hcq].
    { injection Hx as <-. by eapply (fork_child_ok l0). }
    assert (∃ x0, procs s !! q = Some x0 ∧ proc_ok l0 (kmem_of (ks s')) x0 ∧ p_space x = p_space x0 ∧ p_fms x = p_fms x0)
      as (x0 & _ & [] & E1 & E2); [|by split; rewrite ?E1, ?E2].
    assert (∀ x0, procs s !! q = Some x0 → proc_ok l0 (kmem_of (ks s')) x0) as Hkeep.
    { intros x0 H0. eapply proc_ok_frame; [by eapply (mo_proc _ _ Hmo)|apply Hk|]. intros k Hkk.
      eapply (fork_keeps_old l0); [done..|by eapply Hold|by eapply (mo_kernel_apart _ _ Hmo)]. }
    case_decide as Hpq; [subst q; injection Hx as <-; exists p|exists x]; auto.
  - intros q q' x x' k Hx Hx' Hkx Hkx'.
    destruct (Hcases q x Hx) as [[-> ->]|(N & x0 & H0 & E)], (Hcases q' x' Hx') as [[-> ->]|(N' & x0' & H0' & E')]; [done|..].
    + destruct (Hfresh k Hkx) as [F _]. destruct F. eapply Hold; [done|by apply E'].
    + destruct (Hfresh k Hkx') as [F _]. destruct F. eapply Hold; [done|by apply E].
    + eapply (mo_apart _ _ Hmo); [done|done|by apply E|by apply E'].
  - intros q x k Hx Hkx Hker. simpl in Hker.
    assert (space_owns (framed_part (kernel_space (ks s))) k ∨ ¬ is_allocated l0 (fa m2) k) as Hker' by (by eapply (fork_kernel_frames l0)).
    destruct (Hcases q x Hx) as [[-> ->]|(N & x0 & H0 & E)].
    + destruct (Hfresh k Hkx) as [F1 F2]. destruct Hker' as [Ho|]; [|done]. apply F1. eapply space_owns_allocated; [apply Hmo|done].
    + apply E in Hkx. destruct Hker' as [Ho|Hn]; [by eapply (mo_kernel_apart _ _ Hmo)|]. apply Hn.
      apply (ch_alloc _ _ _ _ (cs_child _ _ _ _ _ _ _ _ _ _ _ _ _ Hcs)). by eapply Hold.
Qed.

(** C20 Fork.  On a machine whose processes and kernel own disjoint frames, the
    call [fork] of a process with one thread returns a new pid.  The child has a
    copy of every page of its parent, with the same permissions, in frames that
    were free, and of every page of a mapped file; its saved registers are those
    of the parent but for 0 in a0 and the top of a kernel stack of its own,
    mapped to cleared frames in the kernel; its files on disk are open at the
    same offsets by objects of its own, pipes and consoles are shared.  Signals
    are not inherited: none is pending for the child and its thread has the
    initial mask and actions.  The child is the last of the ready threads and of its parent's children.  No frame of
    any process has changed, and the frames of all processes and of the kernel
    are still disjoint. *)
Theorem sys_fork_correct l0 strampoline s pid p r0 :
  machine_ok l0 s → can_fork l0 strampoline s pid p r0 →
  ∃ child s' cp tc, sys_fork strampoline pid s = Ok (child, s') ∧ machine_ok l0 s' ∧
    forked l0 s pid p r0 child s' cp tc.
Proof.
  intros Hmo Hcan. pose proof Hcan as [Hp (t0 & x0 & Ht & Hx & Hr0) _ _ Hfd Hob Hpid (Hid0 & Hid1 & Hst) _].
  destruct (fork_copies l0 strampoline s pid p r0 Hmo Hcan) as (ms1 & ms2 & m1 & m2 & fms & ac & fc & pg & Hcs).
  pose proof (cs_child _ _ _ _ _ _ _ _ _ _ _ _ _ Hcs) as Hch.
  destruct (ra_alloc (pids s)) as [child pids'] eqn:Hra. destruct (ra_alloc (kstack_allocator (ks s))) as [kid ra'] eqn:Hka.
  simpl in Hpid, Hid0, Hid1, Hst.
  destruct (space_ok_frame l0 (framed_part (kernel_space (ks s))) (kmem_of (ks s)) m2 (mo_kernel _ _ Hmo)) as [Hk2 Em2]; [apply Hch|..].
  { intros k Hs. pose proof (space_owns_allocated _ _ _ _ (mo_kernel _ _ Hmo) Hs). split; [by apply (ch_alloc _ _ _ _ Hch)|by apply (ch_mem _ _ _ _ Hch)]. }
  destruct (kstack_alloc_spec l0 0 (kstack_allocator (ks s)) (kernel_space (ks s)) m2 kid ra') as
    (kms & m3 & Hks & Hk3 & Haa & _); [done|done|done|done| |apply Hcs|].
  { intros v Hv. rewrite Em2; [by apply Hst|]. apply elem_of_seqZ in Hv. simpl in Hv. lia. }
  destruct (copy_fds_run (p_fds p) (set_pids pids' (with_kmem m1 s))) as (fds & objs' & n' & Hfds & _ & Hcopied); [done|done|].
  set (tc := mkTcb child kid (Some (mkRes 0 (ustack_base r0))) fc None signal_processor_new).
  exists child, (forked_os s pid p (ustack_base r0) child pids' ms2 fds objs' n' fms kid ra' kms m3 fc pg),
    (forked_pcb p pid (next_tcb s) ms2 fds fms), tc.
  split_and!.
  - eapply sys_fork_run; try done; [by apply Hcs|by intros ->; congruence|by apply Hcs|by apply Hcs|by eapply (fork_written l0)].
  - by eapply fork_machine_ok.
  - split; try done; simpl.
    + by rewrite Hra.
    + by apply (cs_shape _ _ _ _ _ _ _ _ _ _ _ _ _ Hcs).
    + intros a v Ha Hv Hne. by eapply (fork_page l0).
    + by eapply (fork_context l0).
    + by eapply (fork_files l0).
    + intros v Hv Htr Hn Hf. rewrite (proj2 (fork_child_space l0 strampoline s p r0 Hmo ms1 ms2 kms m1 m2 m3 fms ac fc pg Hcs kid _ Hk3 Haa)) by done.
      by apply (cs_only _ _ _ _ _ _ _ _ _ _ _ _ _ Hcs).
    + intros q pq k Hq Ho. eapply (fork_keeps_old l0); [done..| |by eapply (mo_kernel_apart _ _ Hmo)].
      eapply proc_owns_allocated; [by eapply (mo_proc _ _ Hmo)|done].
    + intros v Hv. eapply (fork_stack l0); [done..| |done]. apply elem_of_seqZ in Hv. simpl in Hv. lia.
Qed.

(** ** A machine with one process *)
Module ForkDemo.
Import SpaceDemo.
Definition area_at (l r perm : Z) : MapArea := mkArea (mkRange l r) ∅ Framed perm.
Definition u0 : MemorySet * kmem := run new_bare bare.2 dummy.
Definition u1 : MemorySet * kmem := run (ms_push u0.1 (area_at 1 3 rw_u) None) u0.2 dummy.
Definition u2 : MemorySet * kmem := run (ms_push u1.1 (area_at CX_VPN (CX_VPN + 1) KERNEL_RW) None) u1.2 dummy.
Definition demo_pcb : pcb :=
  mkPcb false u2.1 None [] 0 [Some 0; Some 1; None] [] [] [] 0 [Some 0] (mkRA 1 []) [] 0 [] 7.
Definition demo : os :=
  mkOs (mkKS ra_new bare.1 u2.2) (mkRA 1 []) {[0 := demo_pcb]} {[0 := mkTcb 0 0 (Some (mkRes 0 0x4000)) 0 None signal_processor_new]} 1
    {[0]} [] [] ∅ {[0 := Stdin; 1 := OSInode true true 12 3]} 2 ∅.

(** The frames of the kernel are not touched while the process is built. *)
Lemma keeps_bare pt s pt' s' : space_ok 5 bare.1 s → fa_wf 5 (fa s') →
  (∀ k, k ∈ frames pt → ¬ space_owns bare.1 k) → extends 5 pt s pt' s' →
  space_ok 5 bare.1 s' ∧ ∀ k, k ∈ frames pt' → ¬ space_owns bare.1 k.
Proof.
  intros Hb Hfa Hn He. split.
  - eapply space_ok_frame; [done|done|]. intros k Hk. pose proof (space_owns_allocated _ _ _ _ Hb Hk).
    split; [by apply He|]. apply He; [done|]. by intros ?%Hn.
  - intros k [Hf|Hf]%(ext_fresh _ _ _ _ _ He) Hk; [by eapply Hn|]. by eapply Hf, space_owns_allocated.
Qed.

Lemma u0_ok : space_ok 5 u0.1 u0.2 ∧ nfree 98 (fa u0.2) ∧ (∀ v, pt_map u0.2 u0.1 v = None) ∧
  space_ok 5 bare.1 u0.2 ∧ ∀ k, space_owns u0.1 k → ¬ space_owns bare.1 k.
Proof.
  destruct bare_ok as (Hsp & _ & Hnf).
  destruct (pt_new_correct 5 98 bare.2) as (pt & s & Hnew & Hinv & Hnf0 & Hempty & He); [apply Hsp|done|].
  destruct (keeps_bare (mkPT (root_ppn pt) []) bare.2 pt s) as [Hb Hn]; [done|apply Hinv|by intros ? ?%elem_of_nil|done|].
  unfold u0, run, new_bare. rewrite (M_bind_Ok _ _ _ _ _ Hnew). simpl. split_and!; [|done|done|done|].
  - split; simpl; [done|by intros ? ?%elem_of_nil|by intros ? ? ?%elem_of_nil|by intros ? ? ? ? ? ?%elem_of_nil|done].
  - intros k [Hk|(a & v & Ha%elem_of_nil & _)]; [by apply Hn|done].
Qed.

Lemma push_ok k ms s l r perm :
  space_ok 5 ms s → space_ok 5 bare.1 s → (∀ k, space_owns ms k → ¬ space_owns bare.1 k) →
  perm_ok perm → 0 ≤ l → r ≤ 2 ^ 27 → (∀ v, v ∈ range_pages (mkRange l r) → pt_map s ms v = None) →
  nfree (3 * length (range_pages (mkRange l r)) + k) (fa s) →
  let u := run (ms_push ms (area_at l r perm) None) s dummy in
  space_ok 5 u.1 u.2 ∧ nfree k (fa u.2) ∧ space_ok 5 bare.1 u.2 ∧ (∀ k, space_owns u.1 k → ¬ space_owns bare.1 k) ∧
  ∀ v, 0 ≤ v < 2 ^ 27 → v ∉ range_pages (mkRange l r) → pt_map u.2 u.1 v = pt_map s ms v.
Proof.
  intros Hsp Hb Hn Hp Hl Hu Hnone Hnf.
  destruct (ms_push_framed 5 k ms s (mkRange l r) perm) as (ms1 & s1 & Hr1 & Hsp1 & Haa & Hnf1); [done..|].
  unfold area_at, run. rewrite Hr1. simpl.
  destruct (keeps_bare _ _ _ _ Hb (inv_fa _ _ _ (sp_pt _ _ _ Hsp1)) ltac:(intros q Hq; apply Hn; by left) (aa_keeps _ _ _ _ _ _ _ Haa)) as [Hb1 Hf1].
  split_and!; [done|done|done| |by apply Haa]. intros q [Hq|(a & v & Ha & Hv)]; [by apply Hf1|].
  destruct (aa_areas _ _ _ _ _ _ _ Haa) as (a' & Har & _ & _ & Hfr). rewrite Har in Ha.
  apply elem_of_app in Ha as [Ha| ->%list_elem_of_singleton]; [apply Hn; right; eauto|].
  intros Hq. eapply Hfr; [done|by eapply space_owns_allocated].
Qed.

Lemma u2_ok : space_ok 5 u2.1 u2.2 ∧ nfree 89 (fa u2.2) ∧ space_ok 5 bare.1 u2.2 ∧ ∀ k, space_owns u2.1 k → ¬ space_owns bare.1 k.
Proof.
  destruct u0_ok as (S0 & N0 & E0 & B0 & D0).
  destruct (push_ok 92 u0.1 u0.2 1 3 rw_u) as (S1 & N1 & B1 & D1 & E1);
    [exact S0|exact B0|exact D0|split; [discriminate|reflexivity]|lia|lia|intros v _; apply E0|exact N0|].
  destruct (push_ok 89 u1.1 u1.2 CX_VPN (CX_VPN + 1) KERNEL_RW) as (S2 & N2 & B2 & D2 & _);
    [exact S1|exact B1|exact D1|split; [discriminate|reflexivity]|unfold CX_VPN; lia|unfold CX_VPN; lia| |exact N1|by split_and!].
  intros v Hv. apply elem_of_seqZ in Hv. simpl in Hv. unfold CX_VPN in Hv.
  unfold u1. rewrite E1; [apply E0|lia|]. intros Hin. apply elem_of_seqZ in Hin. simpl in Hin. lia.
Qed.

Lemma demo_ok : machine_ok 5 demo.
Proof.
  destruct u2_ok as (S2 & _ & B2 & D2).
  assert (∀ q p, procs demo !! q = Some p → q = 0 ∧ p = demo_pcb) as Hone by (unfold demo; cbn [procs]; intros q p [<- <-]%lookup_singleton_Some; done).
  assert (∀ k, proc_owns demo_pcb k → space_owns u2.1 k) as Hown by (intros k [?|(fm & Hfm & _)]; [done|by apply elem_of_nil in Hfm]).
  split; [done|..].
  - intros q p [-> ->]%Hone. split; [done|constructor|constructor|by intros ? ?%elem_of_nil|].
    apply Forall_forall, (bool_decide_unpack _). vm_compute. exact I.
  - intros q q' p p' k [-> ->]%Hone [-> ->]%Hone _ _. done.
  - intros q p k [-> ->]%Hone Hk. by apply D2, Hown.
Qed.

Lemma sys_fork_correct_witness :
  machine_ok 5 demo ∧ ∃ child s' cp tc, sys_fork 0x80200000 0 demo = Ok (child, s') ∧
    forked 5 demo 0 demo_pcb (mkRes 0 0x4000) child s' cp tc.
Proof.
  split; [exact demo_ok|].
  destruct (sys_fork_correct 5 0x80200000 demo 0 demo_pcb (mkRes 0 0x4000) demo_ok) as (child & s' & cp & tc & Hr & _ & Hf).
  - split.
    + reflexivity.
    + eexists 0, _. split; [reflexivity|]. split; reflexivity.
    + exists (default (area_at 0 0 0) (areas u2.1 !! 1%nat)). split.
      * apply list_elem_of_lookup. exists 1%nat. vm_compute. reflexivity.
      * apply (bool_decide_unpack _). vm_compute. exact I.
    + exists 0x80200. split; [vm_compute; reflexivity|lia].
    + assert (Forall (λ x, ∀ o, x = Some o → bool_decide (is_Some (fobjs demo !! o)) = true) (p_fds demo_pcb)) as H
        by (repeat constructor; intros x Hx; try discriminate; injection Hx as <-; reflexivity).
      rewrite Forall_forall in H. intros o Ho. exact (bool_decide_eq_true_1 _ (H (Some o) Ho o eq_refl)).
    + unfold demo. cbn [fobjs next_fobj]. intros o [f Hf]. apply lookup_insert_Some in Hf as [[<- _]|[_ Hf]]; [reflexivity|].
      apply lookup_singleton_Some in Hf as [<- _]. reflexivity.
    + reflexivity.
    + split; [vm_compute; discriminate|]. split; [vm_compute; discriminate|].
      apply Forall_forall. apply (bool_decide_unpack _). vm_compute. exact I.
    + eapply nfree_mono; [|apply u2_ok]. apply Nat.leb_le. vm_compute. reflexivity.
  - exists child, s', cp, tc. split; [exact Hr|exact Hf].
Defined.

(** The child as the machine leaves it: a0, the offset of its open file, its pages. *)
Example fork_demo_runs :
  match sys_fork 0x80200000 0 demo with
  | Ok (child, s') =>
      match procs s' !! child, tcbs s' !! 1 with
      | Some cp, Some tc =>
          Some (child, p_fds cp, fobjs s' !! 2, (λ pg, get_le 8 pg 10) <$> mem (kmem_of (ks s')) !! t_trap_ppn tc,
                length (areas (p_space cp)), p_children <$> procs s' !! 0)
      | _, _ => None
      end
  | Err _ => None
  end = Some (1, [Some 0; Some 2; None], Some (OSInode true true 12 3), Some 0, 2%nat, Some [1]).
Proof. vm_compute. reflexivity. Qed.
End ForkDemo.
