(* ===== verification/Argv.v ===== *)
(** * The arguments of a program, from [exec] to [main]
      (os/src/task/process.rs: exec; os/src/syscall/process.rs: sys_exec;
      user/src/lib.rs: _start)

    The kernel reads the argument vector of the caller, writes it to the stack
    of the new program, and the program's start-up code turns it into a list of
    strings.  Both vectors have the layout [argv_at]. *)
From S2P Require Import Prelude Bytes Address FrameAllocator PageTable MemorySet AddressSpace UserMem.
From S2P Require Import IdAlloc Mmap Signal Process.

Lemma u64_addr a : 0 ≤ a < 2 ^ 39 → u64 a = a.
Proof. intros H. apply u64_id. unfold is_u64. lia. Qed.

(** ** The start-up code *)
Section start.
(** The byte a program finds at an address; [None] is a page fault that is not
    served, and ends the program. *)
Context (load : Z → option Z).

Definition load_word (a : Z) : option Z := le_dec <$> mapM (λ i, load (u64 (a + i))) (seqZ 0 8).
(** [(0..).find(..)]: the distance of the first NUL *)
Fixpoint find_nul (fuel : nat) (str_start i : Z) : outcome Z :=
  match fuel with
  | O => Err Diverged
  | S fuel' => b ← unwrap (load (u64 (str_start + i))); if b =? 0 then Ok i else find_nul fuel' str_start (i + 1)
  end.
Fixpoint start_loop (fuel : nat) (argv : Z) (idxs : list Z) : outcome (list (list Z)) :=
  match idxs with
  | [] => Ok []
  | i :: rest =>
      str_start ← unwrap (load_word (u64 (argv + i * 8)));
      len ← find_nul fuel str_start 0;
      bytes ← unwrap (mapM (λ k, load (u64 (str_start + k))) (seqZ 0 len));
      _ ← assert (utf8_ok bytes);
      v ← start_loop fuel argv rest;
      Ok (bytes :: v)
  end.
Definition start_args (fuel : nat) (argc argv : Z) : outcome (list (list Z)) := start_loop fuel argv (seqZ 0 argc).

(** ** The layout of an argument vector *)
Definition word_at (a v : Z) : Prop := ∀ k, (k < 8)%nat → load (a + Z.of_nat k) = le_enc 8 v !! k.
Definition str_at (p : Z) (str : list Z) : Prop :=
  Forall (λ b, b ≠ 0) str ∧ ∀ i, (i ≤ length str)%nat → load (p + Z.of_nat i) = (str ++ [0]) !! i.
Definition slot_at (base : Z) (i : nat) (arg : list Z) : Prop :=
  ∃ p, 0 < p ∧ p + Z.of_nat (length arg) < 2 ^ 39 - PAGE_SIZE ∧ word_at (base + Z.of_nat i * 8) p ∧ str_at p arg.
Record argv_at (base : Z) (args : list (list Z)) : Prop := {
  av_range : 0 ≤ base ∧ base + (Z.of_nat (length args) + 1) * 8 ≤ 2 ^ 39 - PAGE_SIZE;
  av_slots : ∀ i arg, args !! i = Some arg → slot_at base i arg;
  av_null : word_at (base + Z.of_nat (length args) * 8) 0;
}.

Lemma mapM_load (f : Z → option Z) n (l : list Z) :
  length l = n → (∀ i, (i < n)%nat → f (Z.of_nat i) = l !! i) → mapM f (seqZ 0 (Z.of_nat n)) = Some l.
Proof.
  intros Hl Hf. apply mapM_Some. apply Forall2_same_length_lookup_2; [rewrite length_seqZ; lia|].
  intros i x y Hx Hy. apply lookup_seqZ in Hx as [-> Hi]. rewrite Z.add_0_l, Hf by lia. done.
Qed.
Lemma load_word_at a v : 0 ≤ a → a + 8 ≤ 2 ^ 39 → is_u64 v → word_at a v → load_word a = Some v.
Proof.
  intros Ha Hend Hv Hw. unfold load_word. rewrite (mapM_load _ 8 (le_enc 8 v)).
  - cbn [fmap option_fmap option_map]. by rewrite le_dec_enc.
  - by rewrite length_le_enc.
  - intros i Hi. rewrite u64_addr by lia. by apply Hw.
Qed.
Lemma find_nul_at p str i fuel :
  0 ≤ p → p + Z.of_nat (length str) < 2 ^ 39 → str_at p str → (i ≤ length str)%nat → (length str < i + fuel)%nat →
  find_nul fuel p (Z.of_nat i) = Ok (Z.of_nat (length str)).
Proof.
  intros Hp Hend [Hnz Hb] . revert i. induction fuel as [|fuel IH]; intros i Hi Hf; [lia|]. cbn [find_nul].
  rewrite u64_addr by lia. rewrite Hb by done. destruct (decide (i = length str)) as [->|Hne].
  - rewrite lookup_app_r, Nat.sub_diag by done. done.
  - rewrite lookup_app_l by lia. destruct (lookup_lt_is_Some_2 str i) as [b Hbi]; [lia|]. rewrite Hbi. cbn [unwrap mbind outcome_bind].
    rewrite (proj2 (Z.eqb_neq b 0)) by (by eapply (Forall_lookup_1 _ _ _ _ Hnz)).
    replace (Z.of_nat i + 1) with (Z.of_nat (S i)) by lia. apply IH; lia.
Qed.

(** The start-up code finds the strings of the vector. *)
Lemma start_loop_at fuel base args i rest :
  args = take i args ++ rest → (i ≤ length args)%nat →
  argv_at base args → Forall (λ a, utf8_ok a = true ∧ (length a < fuel)%nat) args →
  start_loop fuel base (seqZ (Z.of_nat i) (Z.of_nat (length rest))) = Ok rest.
Proof.
  intros Heq Hi [[Hb Hend] Hs _] Hall. revert i Heq Hi. induction rest as [|a rest IH]; intros i Heq Hi; [done|].
  assert (args !! i = Some a) as Ha.
  { rewrite Heq, lookup_app_r; rewrite length_take; [|lia]. by replace (i - i `min` length args)%nat with 0%nat by lia. }
  destruct (Hs i a Ha) as (p & Hp & Hpe & Hw & Hstr). destruct (Forall_lookup_1 _ _ _ _ Hall Ha) as [Hutf Hf].
  apply lookup_lt_Some in Ha as Hlt. unfold PAGE_SIZE in *.
  rewrite seqZ_cons by (simpl; lia). cbn [start_loop]. rewrite u64_addr by lia.
  rewrite (load_word_at _ p); [|lia|lia|unfold is_u64; lia|done]. cbn [unwrap mbind outcome_bind].
  pose proof (find_nul_at p a 0 fuel ltac:(lia) ltac:(lia) Hstr ltac:(lia) ltac:(lia)) as Hfn.
  change (Z.of_nat 0) with 0 in Hfn. rewrite Hfn. cbn [unwrap mbind outcome_bind].
  rewrite (mapM_load _ (length a) a); [|done|].
  2: { intros k Hk. rewrite u64_addr by lia. destruct Hstr as [_ Hby]. rewrite Hby by lia. by rewrite lookup_app_l. }
  cbn [unwrap mbind outcome_bind]. rewrite Hutf. cbn [assert mbind outcome_bind].
  replace (Z.succ (Z.of_nat i)) with (Z.of_nat (S i)) by lia.
  replace (Z.pred (Z.of_nat (length (a :: rest)))) with (Z.of_nat (length rest)) by (simpl; lia).
  rewrite (IH (S i)); [done| |lia]. rewrite (take_S_r _ _ a) by done. by rewrite <- app_assoc.
Qed.
Lemma start_args_at fuel base args :
  argv_at base args → Forall (λ a, utf8_ok a = true ∧ (length a < fuel)%nat) args →
  start_args fuel (Z.of_nat (length args)) base = Ok args.
Proof. intros Hav Hall. by apply (start_loop_at fuel base args 0 args); [|lia|..]. Qed.
End start.

(** ** The kernel reads the caller's vector *)
Section kernel.
Context (l0 : Z) (ms : MemorySet).
Implicit Types (s : kmem) (args : list (list Z)).

Lemma in_areas_sub ptr len p n : in_areas ms ptr len → ptr ≤ p → 0 ≤ n → p + n ≤ ptr + len → in_areas ms p n.
Proof. intros (H0 & H1 & H2 & H3) Hp Hn He. split_and!; try lia. intros va Hva. apply H3. lia. Qed.
Lemma in_page_aligned p : p mod 8 = 0 → in_page p 8.
Proof. intros H. split; [lia|]. rewrite page_offset_mod. unfold PAGE_SIZE. dlia. Qed.

Lemma read_args_spec s base args fuel sfuel :
  space_ok l0 ms s → (∀ p pg, mem s !! p = Some pg → length pg = Z.to_nat PAGE_SIZE) →
  argv_at (user_byte ms s) base args → in_areas ms base ((Z.of_nat (length args) + 1) * 8) → base mod 8 = 0 →
  Forall (λ a, Forall (λ b, b < 128) a ∧ (length a < sfuel)%nat) args → (length args < fuel)%nat →
  read_args fuel sfuel (ms_token ms) base s = Ok (args, s).
Proof.
  intros Hsp Hpg. revert base fuel. induction args as [|a args IH]; intros base fuel [[Hb Hend] Hs Hn] Hin Hal Hall Hf;
    (destruct fuel as [|fuel]; [lia|]); cbn [read_args]; rewrite ?length_cons in *.
  - simpl in Hn. rewrite Z.add_0_r in Hn.
    rewrite (M_bind_Ok _ _ _ _ _ (read_user_spec l0 ms s 8 base 0 Hsp Hin (in_page_aligned base Hal) ltac:(lia) Hn)). done.
  - destruct (Hs 0%nat a eq_refl) as (p & Hp & Hpe & Hw & Hstr). simpl in Hw. rewrite Z.add_0_r in Hw.
    apply Forall_cons in Hall as [[Hasc Hlen] Hall]. unfold PAGE_SIZE in *.
    assert (in_areas ms base 8) as Hin8 by (eapply in_areas_sub; [exact Hin|lia..]).
    rewrite (M_bind_Ok _ _ _ _ _ (read_user_spec l0 ms s 8 base p Hsp Hin8 (in_page_aligned base Hal) ltac:(lia) Hw)).
    rewrite (proj2 (Z.eqb_neq p 0)) by lia.
    assert (translated_str sfuel (ms_token ms) p s = Ok (a, s)) as Hr.
    { eapply translated_str_spec; [apply (sp_pt _ _ _ Hsp)|exact Hpg|done|lia|unfold PAGE_SIZE; lia| |done].
      destruct Hstr as [Hnz Hby]. split; [done|]. intros k Hk. rewrite <- (Hby k Hk). unfold vbyte, user_byte, byte_at.
      by destruct (phys_loc _ _ _) as [[??]|]. }
    rewrite (M_bind_Ok _ _ _ _ _ Hr). rewrite (u64_addr (base + 8)) by lia. rewrite (M_bind_Ok _ _ s args s); [done|].
    apply IH; [|eapply in_areas_sub; [exact Hin|lia..]|dlia|done|lia].
    split; [unfold PAGE_SIZE; lia| |by replace (base + 8 + Z.of_nat (length args) * 8) with (base + Z.of_nat (S (length args)) * 8) by lia].
    intros i arg Hi. destruct (Hs (S i) arg Hi) as (q & Hq & Hqe & Hwq & Hsq). exists q. split_and!; try done.
    by replace (base + 8 + Z.of_nat i * 8) with (base + Z.of_nat (S i) * 8) by lia.
Qed.

(** ** The kernel writes the new program's vector *)

(** Only user bytes in [[a, b)] have changed. *)
Definition only_changes s s' (a b : Z) : Prop :=
  ∀ va ar, ar ∈ areas ms → floor va ∈ pages_of ar → ¬ (a ≤ va < b) → user_byte ms s' va = user_byte ms s va.

Lemma write_bytes_spec bs s p :
  space_ok l0 ms s → Forall is_byte bs → in_areas ms p (Z.of_nat (length bs)) →
  ∃ s', write_bytes (ms_token ms) p bs s = Ok ((), s') ∧ space_ok l0 ms s' ∧ fa s' = fa s ∧
    (∀ i, (i < length bs)%nat → user_byte ms s' (p + Z.of_nat i) = bs !! i) ∧
    only_changes s s' p (p + Z.of_nat (length bs)).
Proof.
  revert s p. induction bs as [|b bs IH]; intros s p Hsp Hb Hin.
  { exists s. split_and!; try done. intros i Hi. simpl in Hi. lia. }
  apply Forall_cons in Hb as [Hb Hbs]. rewrite length_cons in Hin. cbn [write_bytes]. pose proof Hin as (Hp0 & _ & Hpe & _).
  destruct (write_user_spec l0 ms s 1 p b Hsp) as (s1 & Hr & Hf1 & Hsp1 & Hin1 & Hout1).
  { eapply in_areas_sub; [exact Hin|lia..]. }
  { split; [lia|]. rewrite page_offset_mod. unfold PAGE_SIZE. dlia. }
  rewrite (M_bind_Ok _ _ _ _ _ Hr). rewrite u64_addr by lia.
  destruct (IH s1 (p + 1) Hsp1 Hbs) as (s2 & Hr2 & Hsp2 & Hf2 & Hin2 & Hout2); [eapply in_areas_sub; [exact Hin|lia..]|].
  exists s2. split_and!; [done|done|congruence| |].
  - intros [|i] Hi.
    + rewrite Z.add_0_r. destruct Hin as (_ & _ & _ & Hin). destruct (Hin p) as (ar & Har & Hpa); [lia|].
      rewrite (Hout2 p ar) by (done || lia). specialize (Hin1 0%nat ltac:(lia)). rewrite Z.add_0_r in Hin1. rewrite Hin1. simpl.
      unfold is_byte in Hb. by rewrite Z.mod_small.
    + simpl. rewrite <- Hin2 by (simpl in Hi; lia). f_equal. lia.
  - intros va ar Har Hva Hn. rewrite length_cons in Hn. rewrite (Hout2 va ar), (Hout1 va ar) by (done || lia). done.
Qed.

Definition strings_size args : Z := Z.of_nat (sum_list_with (λ a, S (length a)) args).

Definition clean_args args : Prop := Forall (λ a, Forall is_byte a ∧ Forall (λ b, b ≠ 0) a) args.
(** Bytes outside the strings and the slots are kept. *)
Definition args_frame s s' (lo sp base : Z) (i n : nat) : Prop :=
  ∀ va ar, ar ∈ areas ms → floor va ∈ pages_of ar → ¬ (lo ≤ va < sp) →
    ¬ (base + Z.of_nat i * 8 ≤ va < base + Z.of_nat (i + n) * 8) → user_byte ms s' va = user_byte ms s va.

(** A slot whose string is between [lo] and [hi]. *)
Definition slot_between s (base : Z) (i : nat) (a : list Z) (lo hi : Z) : Prop :=
  ∃ p, lo ≤ p ∧ p + Z.of_nat (length a) < hi ∧
    word_at (user_byte ms s) (base + Z.of_nat i * 8) p ∧ str_at (user_byte ms s) p a.

(** One argument. *)
Lemma push_arg_spec a s base i sp :
  let p := sp - Z.of_nat (S (length a)) in
  space_ok l0 ms s → Forall is_byte a → Forall (λ b, b ≠ 0) a → base mod 8 = 0 → sp ≤ base →
  in_areas ms p (base + Z.of_nat (i + 1) * 8 - p) →
  ∃ s', (write_user 8 (ms_token ms) (base + Z.of_nat i * 8) p ≫= λ _, write_bytes (ms_token ms) p (a ++ [0])) s = Ok ((), s') ∧
    space_ok l0 ms s' ∧ fa s' = fa s ∧ slot_between s' base i a p sp ∧ args_frame s s' p sp base i 1.
Proof.
  intros p Hsp Hby Hnz Hal Hle Hin.
  destruct (write_user_spec l0 ms s 8 (base + Z.of_nat i * 8) p Hsp) as (s1 & Hr1 & Hf1 & Hsp1 & Hin1 & Hout1).
  { eapply in_areas_sub; [exact Hin|lia..]. }
  { apply in_page_aligned. dlia. }
  destruct (write_bytes_spec (a ++ [0]) s1 p Hsp1) as (s2 & Hr2 & Hsp2 & Hf2 & Hin2 & Hout2).
  { apply Forall_app_2; [done|]. apply Forall_singleton. unfold is_byte. lia. }
  { rewrite length_app. eapply in_areas_sub; [exact Hin|simpl; lia..]. }
  rewrite length_app in Hin2, Hout2. simpl in Hin2, Hout2.
  exists s2. rewrite (M_bind_Ok _ _ _ _ _ Hr1). split_and!; [done|done|congruence| |].
  - exists p. split_and!; [lia|lia| |split; [done|]].
    + intros k Hk. rewrite <- Hin1 by done. pose proof Hin as (_ & _ & _ & Har).
      destruct (Har (base + Z.of_nat i * 8 + Z.of_nat k)) as (ar & ? & ?); [lia|]. apply (Hout2 _ ar); [done|done|lia].
    + intros k Hk. apply Hin2. lia.
  - intros va ar Har Hva Hn1 Hn2. rewrite (Hout2 va ar), (Hout1 va ar) by (done || lia). done.
Qed.

Lemma slot_kept s s' base i a lo hi lo' j n :
  slot_between s base i a lo hi → args_frame s s' lo' lo base j n → (i < j)%nat → hi ≤ base →
  in_areas ms lo (base + Z.of_nat j * 8 - lo) → slot_between s' base i a lo hi.
Proof.
  intros (p & Hlo & Hhi & Hw & Hnz & Hs) Hfr Hij Hle (_ & _ & _ & Har). exists p. split_and!; [done|done| |split; [done|]].
  - intros k Hk. rewrite <- Hw by done. destruct (Har (base + Z.of_nat i * 8 + Z.of_nat k)) as (ar & ? & ?); [lia|].
    apply (Hfr _ ar); [done|done|lia|lia].
  - intros k Hk. rewrite <- Hs by done. destruct (Har (p + Z.of_nat k)) as (ar & ? & ?); [lia|].
    apply (Hfr _ ar); [done|done|lia|lia].
Qed.

Lemma push_args_spec args s base i sp :
  let lo := sp - strings_size args in
  space_ok l0 ms s → clean_args args → base mod 8 = 0 → sp ≤ base →
  in_areas ms lo (base + Z.of_nat (i + length args) * 8 - lo) →
  ∃ s', push_args (ms_token ms) base args (Z.of_nat i) sp s = Ok (lo, s') ∧ space_ok l0 ms s' ∧ fa s' = fa s ∧
    (∀ j a, args !! j = Some a → slot_between s' base (i + j) a lo sp) ∧ args_frame s s' lo sp base i (length args).
Proof.
  revert s i sp. induction args as [|a args IH]; intros s i sp lo Hsp Hcl Hal Hle Hin.
  { exists s. subst lo. unfold strings_size. simpl. rewrite Z.sub_0_r. split_and!; done. }
  apply Forall_cons in Hcl as [[Hby Hnz] Hcl]. set (p := sp - Z.of_nat (S (length a))).
  assert (lo = p - strings_size args) as Hlo by (subst lo p; unfold strings_size; simpl; lia).
  assert (0 ≤ strings_size args) by (unfold strings_size; lia). rewrite length_cons in Hin. pose proof Hin as (H0 & _ & H39 & _).
  destruct (push_arg_spec a s base i sp Hsp Hby Hnz Hal Hle) as (s1 & Hr1 & Hsp1 & Hf1 & Hslot & Hfr1).
  { eapply in_areas_sub; [exact Hin|fold p; lia..]. }
  fold p in Hr1, Hslot, Hfr1.
  destruct (IH s1 (S i) p Hsp1 Hcl Hal) as (s2 & Hr2 & Hsp2 & Hf2 & Hslots & Hfr2); [lia| |].
  { rewrite <- Hlo. replace (S i + length args)%nat with (i + S (length args))%nat by lia. exact Hin. }
  rewrite <- Hlo in *. exists s2. split_and!; [|done|congruence| |].
  - cbn [push_args]. rewrite !u64_addr by lia. replace (sp - (Z.of_nat (length a) + 1)) with p by lia.
    unfold mbind, M_bind in *. destruct (write_user _ _ _ _ s) as [[[] s0]|]; [|done].
    rewrite Hr1. replace (Z.of_nat i + 1) with (Z.of_nat (S i)) by lia. exact Hr2.
  - intros [|j] b Hj.
    + injection Hj as ->. rewrite Nat.add_0_r. assert (slot_between s2 base i b p sp) as (q & ? & Hq).
      { eapply slot_kept; [exact Hslot|exact Hfr2|lia|lia|]. eapply in_areas_sub; [exact Hin|lia..]. }
      exists q. split; [lia|exact Hq].
    + destruct (Hslots j b Hj) as (q & Hq1 & Hq2 & Hq). exists q. split; [done|]. split; [lia|].
      by replace (i + S j)%nat with (S i + j)%nat by lia.
  - intros va ar Har Hva Hn1 Hn2. rewrite length_cons in Hn2. rewrite (Hfr2 va ar), (Hfr1 va ar) by (done || lia). done.
Qed.

Lemma push_argv_spec args s top :
  let base := top - (Z.of_nat (length args) + 1) * 8 in
  let lo := base - strings_size args in
  space_ok l0 ms s → clean_args args → top mod 8 = 0 → 0 < lo → top ≤ 2 ^ 39 - PAGE_SIZE → in_areas ms lo (top - lo) →
  ∃ s', push_argv (ms_token ms) top args s = Ok ((base, lo), s') ∧ space_ok l0 ms s' ∧ fa s' = fa s ∧
    argv_at (user_byte ms s') base args ∧ only_changes s s' lo top.
Proof.
  intros base lo Hsp Hcl Hal Hlo Htop Hin. unfold PAGE_SIZE in Htop. set (n := length args) in *.
  assert (0 ≤ strings_size args) as Hsz by (unfold strings_size; lia). unfold push_argv. fold n.
  assert (base mod 8 = 0) as Hb8 by (subst base; dlia). rewrite !u64_addr by lia. fold base.
  destruct (write_user_spec l0 ms s 8 (base + Z.of_nat n * 8) 0 Hsp) as (s1 & Hr1 & Hf1 & Hsp1 & Hin1 & Hout1).
  { eapply in_areas_sub; [exact Hin|lia..]. }
  { apply in_page_aligned. dlia. }
  destruct (push_args_spec args s1 base 0 base Hsp1 Hcl Hb8) as (s2 & Hr2 & Hsp2 & Hf2 & Hslots & Hfr); [lia| |].
  { fold lo. eapply in_areas_sub; [exact Hin|lia..]. }
  fold lo in Hr2, Hslots, Hfr. change (Z.of_nat 0) with 0 in Hr2.
  exists s2. rewrite (M_bind_Ok _ _ _ _ _ Hr1), (M_bind_Ok _ _ _ _ _ Hr2). split_and!; [done|done|congruence| |].
  - split; fold n.
    + unfold PAGE_SIZE. lia.
    + intros i a Ha. destruct (Hslots i a Ha) as (p & Hp & Hpe & Hw & Hs). exists p. unfold PAGE_SIZE. split; [lia|]. split; [lia|done].
    + intros k Hk. rewrite <- Hin1 by done. destruct Hin as (_ & _ & _ & Har).
      destruct (Har (base + Z.of_nat n * 8 + Z.of_nat k)) as (ar & ? & ?); [lia|]. apply (Hfr _ ar); [done|done|lia|lia].
  - intros va ar Har Hva Hn. rewrite (Hfr va ar), (Hout1 va ar) by (done || lia). done.
Qed.
End kernel.

(** C12 What a program is run with.  [exec] writes any arguments that fit on the
    stack, and the new program's start-up code reads exactly them from
    the stack; the kernel writes nothing but the part of the stack between the
    stack pointer it hands over and the top. *)
Theorem exec_passes_arguments l0 ms s top args fuel :
  let base := top - (Z.of_nat (length args) + 1) * 8 in
  let sp := base - strings_size args in
  space_ok l0 ms s → clean_args args → Forall (λ a, utf8_ok a = true ∧ (length a < fuel)%nat) args →
  top mod 8 = 0 → 0 < sp → top ≤ 2 ^ 39 - PAGE_SIZE → in_areas ms sp (top - sp) →
  ∃ s', push_argv (ms_token ms) top args s = Ok ((base, sp), s') ∧ space_ok l0 ms s' ∧
    start_args (user_byte ms s') fuel (Z.of_nat (length args)) base = Ok args ∧ only_changes ms s s' sp top.
Proof.
  intros base sp Hsp Hcl Hutf Hal Hlo Htop Hin.
  destruct (push_argv_spec l0 ms args s top Hsp Hcl Hal Hlo Htop Hin) as (s' & Hr & Hsp' & _ & Hav & Hfr).
  exists s'. split_and!; [done|done| |done]. by apply start_args_at.
Qed.

(** The arguments of the caller, in the layout that [exec] itself writes, are what
    the kernel collects: a program that passes its own vector on to [exec] passes on
    the same arguments. *)
Lemma exec_collects_arguments l0 ms s top args fuel sfuel :
  let base := top - (Z.of_nat (length args) + 1) * 8 in
  let sp := base - strings_size args in
  space_ok l0 ms s → clean_args args →
  Forall (λ a, Forall (λ b, b < 128) a ∧ (length a < sfuel)%nat) args → (length args < fuel)%nat →
  top mod 8 = 0 → 0 < sp → top ≤ 2 ^ 39 - PAGE_SIZE → in_areas ms sp (top - sp) →
  ∃ s', push_argv (ms_token ms) top args s = Ok ((base, sp), s') ∧
    ((∀ p pg, mem s' !! p = Some pg → length pg = Z.to_nat PAGE_SIZE) →
     read_args fuel sfuel (ms_token ms) base s' = Ok (args, s')).
Proof.
  intros base sp Hsp Hcl Hasc Hf Hal Hlo Htop Hin.
  destruct (push_argv_spec l0 ms args s top Hsp Hcl Hal Hlo Htop Hin) as (s' & Hr & Hsp' & _ & Hav & _).
  exists s'. split; [done|]. intros Hpg'. assert (0 ≤ strings_size args) by (unfold strings_size; lia).
  apply (read_args_spec l0); [done|done|done| |subst base; dlia|done|done]. eapply in_areas_sub; [exact Hin|lia..].
Qed.

Module ArgvDemo.
Import SpaceDemo.
Definition ls_l : list (list Z) := [[108; 115]; [45; 108]].

Lemma demo_stack : in_areas one.1 (0x3000 - 24 - 6) 30.
Proof.
  split; [lia|]. split; [lia|]. split; [lia|]. intros va Hva. exists the_area.
  split; [apply list_elem_of_lookup; exists 0%nat; vm_compute; reflexivity|].
  unfold pages_of, range_pages. change (vpn_range the_area) with (mkRange 1 3). simpl.
  unfold floor, PAGE_SIZE. apply elem_of_seqZ. dlia.
Qed.
Lemma exec_passes_arguments_witness :
  ∃ s', push_argv (ms_token one.1) 0x3000 ls_l one.2 = Ok ((0x2fe8, 0x2fe2), s') ∧
    start_args (user_byte one.1 s') 10 2 0x2fe8 = Ok ls_l.
Proof.
  destruct (exec_passes_arguments 5 one.1 one.2 0x3000 ls_l 10) as (s' & H1 & _ & H2 & _).
  - apply one_ok.
  - repeat constructor; unfold is_byte; lia.
  - repeat constructor; vm_compute; try reflexivity; lia.
  - reflexivity.
  - reflexivity.
  - vm_compute. discriminate.
  - exact demo_stack.
  - exists s'. split; [exact H1|exact H2].
Defined.
End ArgvDemo.
