(* ===== verification/Reap.v ===== *)
(** * Collecting an exited process (os/src/syscall/process.rs: sys_waitpid, and
      the [Drop] implementations it runs)

    What the last reference to an exited process frees: its pid, the frames of
    its page table and of its mapped files, and the kernel stack of its thread.
    The memory of every other process is as it was, but for the exit code the
    caller asked for. *)
From S2P Require Import Prelude Bytes Address FrameAllocator PageTable MemorySet AddressSpace IdAlloc UserMem Mmap Process ProcTree Fork.

(** ** Frames *)
Lemma released_trans l0 s1 s2 s3 P Q :
  released l0 s1 s2 P → released l0 s2 s3 Q → released l0 s1 s3 (λ k, P k ∨ Q k).
Proof. intros [_ H1] [Hw H2]. split; [done|]. intros k. rewrite H2, H1. tauto. Qed.
Lemma released_mono l0 s s' P Q : (∀ k, P k ↔ Q k) → released l0 s s' P → released l0 s s' Q.
Proof. intros H [Hw Ha]. split; [done|]. intros k. by rewrite Ha, H. Qed.

Lemma drop_frames_spec l0 fs s :
  fa_wf l0 (fa s) → NoDup fs → (∀ k, k ∈ fs → is_allocated l0 (fa s) k) →
  ∃ s', drop_frames fs s = Ok ((), s') ∧ mem s' = mem s ∧ released l0 s s' (λ k, k ∈ fs).
Proof.
  intros Hw Hnd. revert s Hw. induction Hnd as [|f fs Hf Hnd IH]; intros s Hw Hal.
  { exists s. split_and!; [done|done|]. split; [done|]. intros k. rewrite elem_of_nil. tauto. }
  destruct (dealloc_allocated l0 (fa s) Hw f) as (a' & Hd & Hw' & Ha' & _); [apply Hal; by left|].
  destruct (IH (mkMem a' (mem s)) Hw') as (s' & Hr & Hm & Hwf & Hall).
  { intros k Hk. apply Ha'. split; [apply Hal; by right|]. by intros ->. }
  exists s'. split_and!; [|done|].
  - cbn [drop_frames]. rewrite (M_bind_Ok _ _ s () (mkMem a' (mem s))); [done|]. unfold frame_dealloc. by rewrite Hd.
  - split; [done|]. intros k. rewrite Hall. cbn [fa]. rewrite Ha', elem_of_cons. tauto.
Qed.

(** Writing to user memory touches the frames of the areas only. *)
Lemma write_user_frame l0 ms s n ptr v :
  space_ok l0 ms s → in_areas ms ptr (Z.of_nat n) → in_page ptr (Z.of_nat n) →
  ∃ s', write_user n (ms_token ms) ptr v s = Ok ((), s') ∧
    (∀ k, (∀ a w, a ∈ areas ms → data_frames a !! w ≠ Some k) → mem s' !! k = mem s !! k) ∧
    (∀ k pg, mem s !! k = Some pg → page_ok pg → ∃ pg', mem s' !! k = Some pg' ∧ page_ok pg') ∧
    (∀ w, 0 ≤ w < 2 ^ 27 → pt_map s' ms w = pt_map s ms w).
Proof.
  intros Hsp Hin Hpage. destruct (user_ref l0 ms s ptr (Z.of_nat n) Hsp Hin Hpage) as (f & Hr & Hus).
  destruct (phys_put_spec f (page_offset ptr) (le_enc n v) s) as (m' & Hput & Hbp); rewrite ?length_le_enc in *;
    [pose proof (us_ok _ _ _ _ _ _ Hus) as Hok; by apply Forall_cons in Hok as [? _]|apply le_enc_bytes|].
  exists (mkMem (fa s) m'). unfold write_user. rewrite (M_bind_Ok _ _ _ _ _ Hr). split; [done|].
  assert (bytes_put (mem s) m' (buffer_locs [(f, page_offset ptr, page_offset ptr + Z.of_nat n)]) (le_enc n v)) as Hbp'
    by (by rewrite buffer_locs_cons, app_nil_r).
  split_and!; [|by apply Hbp'|by eapply bytes_put_space]. intros k Hk. apply Hbp'. intros l Hl <-.
  apply list_elem_of_lookup in Hl as [i Hl]. apply (us_loc _ _ _ _ _ _ Hus) in Hl as [Hi Hl].
  destruct Hin as (_ & _ & _ & Hin). destruct (Hin (ptr + Z.of_nat i)) as (a & Ha & Hpa); [lia|].
  destruct (owned_loc l0 ms s _ a Hsp Ha Hpa) as (g & _ & Hd & Hg & _). rewrite Hl in Hg. injection Hg as ->. by eapply Hk.
Qed.

(** ** The kernel stack of a thread *)
Section kstack.
Context (l0 : Z) (ra : RecycleAllocator) (ms : MemorySet) (s : kmem) (id : Z) (idx : nat) (a : MapArea).
Context (Hsp : space_ok l0 (framed_part ms) s) (Hid : 0 ≤ id) (Hb : (id + 1) * 12288 ≤ 2 ^ 38 - 4096).
Context (Hf : list_find (λ b, get_start (vpn_range b) = range_l (kstack_pages id)) (areas ms) = Some (idx, a)).
Context (Ht : map_type a = Framed).

Lemma kstack_drop_spec :
  ∃ ms' s', kstack_drop id (mkKS ra ms s) = Ok ((), mkKS ra ms' s') ∧ space_ok l0 (framed_part ms') s' ∧
    released l0 s s' (λ k, ∃ v, data_frames a !! v = Some k) ∧
    (∀ k, k ∉ frames (page_table ms) → mem s' !! k = mem s !! k) ∧
    (∀ k, space_owns (framed_part ms') k → space_owns (framed_part ms) k) ∧
    (∀ k v, data_frames a !! v = Some k → space_owns (framed_part ms) k).
Proof.
  destruct (kstack_va id Hid Hb) as (Hva & _). pose proof Hf as (Hidx & Hst & Hfirst)%list_find_Some.
  pose proof (take_drop_middle _ _ _ Hidx) as Hsplit. set (pre := take idx (areas ms)) in *. set (post := drop (S idx) (areas ms)) in *.
  set (P := λ b, map_type b = Framed). set (fr := filter P pre).
  assert (areas (framed_part ms) = fr ++ a :: filter P post) as Har.
  { simpl. rewrite <- Hsplit, filter_app, filter_cons. by rewrite decide_True by done. }
  assert (∀ b, b ∈ pre → get_start (vpn_range b) ≠ range_l (kstack_pages id)) as Hpre.
  { intros b (j & Hj)%list_elem_of_lookup. apply lookup_take_Some in Hj as [Hj ?]. by eapply Hfirst. }
  destruct (remove_area_spec l0 (framed_part ms) s (range_l (kstack_pages id)) (length fr) a Hsp) as (s' & Hr & Hsp' & Hrel & _ & Hmem).
  { by rewrite Har, list_lookup_middle. }
  { done. }
  { intros j b Hj Hs. destruct (decide (length fr ≤ j)%nat) as [|Hlt]; [done|exfalso].
    rewrite Har, lookup_app_l in Hj by lia. apply list_elem_of_lookup_2, list_elem_of_filter in Hj as [_ Hj]. by eapply Hpre. }
  assert (remove_area_with_start_vpn ms (range_l (kstack_pages id)) s = Ok (mkMS (page_table ms) (delete idx (areas ms)), s')) as Hrun.
  { unfold remove_area_with_start_vpn in Hr |- *. rewrite Hf. cbn [framed_part page_table] in Hr.
    assert (list_find (λ b, get_start (vpn_range b) = range_l (kstack_pages id)) (areas (framed_part ms)) = Some (length fr, a)) as E.
    { apply list_find_Some. split_and!; [by rewrite Har, list_lookup_middle|done|]. intros j b Hj Hlt.
      rewrite Har, lookup_app_l in Hj by lia. apply list_elem_of_lookup_2, list_elem_of_filter in Hj as [_ Hj]. by apply Hpre. }
    rewrite E in Hr. apply bind_inv in Hr as (a1 & s1 & H1 & Hr). rewrite (M_bind_Ok _ _ _ _ _ H1).
    apply bind_inv in Hr as ([] & s2 & H2 & Hr). rewrite (M_bind_Ok _ _ _ _ _ H2). by injection Hr as <-. }
  exists (mkMS (page_table ms) (delete idx (areas ms))), s'.
  assert (framed_part (mkMS (page_table ms) (delete idx (areas ms))) = mkMS (page_table ms) (delete (length fr) (areas (framed_part ms)))) as Heq.
  { rewrite Har, delete_middle. unfold framed_part. simpl. f_equal.
    rewrite delete_take_drop. apply filter_app. }
  split_and!; [| |done|done| |].
  - unfold kstack_drop. destruct (kernel_stack_position id) as [b t]. cbn [fst] in Hva. rewrite Hva, page_aligned.
    cbn [kernel_space kmem_of kstack_allocator]. by rewrite Hrun.
  - rewrite Heq. exact Hsp'.
  - rewrite Heq. intros k [Hk|(b & v & Hbin & Hv)]; [by left|right]. exists b, v. split; [|done].
    simpl in Hbin. by eapply list_elem_of_delete_inv.
  - intros k v Hv. right. exists a, v. split; [|done]. rewrite Har. apply elem_of_app. right. by left.
Qed.
End kstack.

(** ** What is freed, and what is kept *)
Lemma user_byte_frame l0 ms s s' va a :
  space_ok l0 ms s → (∀ w, 0 ≤ w < 2 ^ 27 → pt_map s' ms w = pt_map s ms w) →
  (∀ k, space_owns ms k → mem s' !! k = mem s !! k) → a ∈ areas ms → floor va ∈ pages_of a →
  user_byte ms s' va = user_byte ms s va.
Proof.
  intros Hsp Hm Hk Ha Hv. destruct (owned_loc l0 ms s va a Hsp Ha Hv) as (f & pg & Hd & Hl & _).
  assert (phys_loc (mem s') (root_ppn (page_table ms)) va = Some (f, page_offset va)) as Hl'.
  { rewrite <- Hl. unfold phys_loc. f_equal. apply Hm. by eapply pages_of_range; [apply (sp_area _ _ _ Hsp)|]. }
  unfold user_byte. rewrite Hl, Hl'. simpl. unfold byte_at. cbn [fst snd]. rewrite (Hk f); [done|right; eauto].
Qed.

Record reapable (l0 : Z) (s : os) (ptr : Z) (n m : pcb) : Prop := {
  rp_machine : machine_ok l0 s;
  rp_ptr : in_areas (p_space n) ptr 4 ∧ in_page ptr 4;
  rp_areas : areas (p_space m) = [];
  rp_once : NoDup (frames (page_table (p_space m)) ++ concat (fm_frames <$> p_fms m));
  rp_thread : ∃ t x idx a, p_tasks m = [Some t] ∧ tcbs s !! t = Some x ∧ (t ∉ ready s) ∧ (t ∉ held s) ∧
    0 ≤ t_kstack x ∧ (t_kstack x + 1) * 12288 ≤ 2 ^ 38 - 4096 ∧
    list_find (λ b, get_start (vpn_range b) = range_l (kstack_pages (t_kstack x))) (areas (kernel_space (ks s))) = Some (idx, a) ∧
    map_type a = Framed;
}.

Lemma child_frames m k :
  areas (p_space m) = [] →
  proc_owns m k ↔ k ∈ frames (page_table (p_space m)) ++ concat (fm_frames <$> p_fms m).
Proof.
  intros Ha. unfold proc_owns, space_owns. rewrite Ha, elem_of_app. split.
  - intros [[Hk|(a & v & Hin%elem_of_nil & _)]|(fm & Hfm & Hk)]; [by left|done|right].
    apply list_elem_of_In, in_concat. exists (fm_frames fm). rewrite <- !list_elem_of_In, list_elem_of_fmap. eauto.
  - intros [Hk|(l & Hl & Hk)%list_elem_of_In%in_concat]; [left; by left|right].
    apply list_elem_of_In in Hl, Hk. apply list_elem_of_fmap in Hl as (fm & -> & Hfm). eauto.
Qed.

(** The physical memory through the steps: the exit code, the page table, the
    kernel stack, the pages of mapped files. *)
Record memory_reaped (l0 : Z) (k0 k1 k4 : kmem) (kms kms' : MemorySet) (m : pcb) : Prop := {
  mr_wf : fa_wf l0 (fa k4);
  mr_kernel : space_ok l0 (framed_part kms') k4;
  mr_fewer : ∀ k, space_owns (framed_part kms') k → space_owns (framed_part kms) k;
  mr_kept : ∀ k, is_allocated l0 (fa k0) k → ¬ proc_owns m k → ¬ space_owns (framed_part kms) k → is_allocated l0 (fa k4) k;
  mr_freed : ∀ k, proc_owns m k → ¬ is_allocated l0 (fa k4) k;
  mr_mem : ∀ k, ¬ space_owns (framed_part kms) k → mem k4 !! k = mem k1 !! k;
}.

Section memory.
Context (l0 : Z) (s : os) (cur c ptr : Z) (n m : pcb) (t : Z) (x : tcb) (idx : nat) (a : MapArea).
Context (Hmo : machine_ok l0 s) (Hn : procs s !! cur = Some n) (Hm : procs s !! c = Some m) (Hne : cur ≠ c).
Context (Hptr : in_areas (p_space n) ptr 4 ∧ in_page ptr 4) (Har : areas (p_space m) = []).
Context (Honce : NoDup (frames (page_table (p_space m)) ++ concat (fm_frames <$> p_fms m))).
Context (Hid : 0 ≤ t_kstack x) (Hb : (t_kstack x + 1) * 12288 ≤ 2 ^ 38 - 4096).
Context (Hf : list_find (λ b, get_start (vpn_range b) = range_l (kstack_pages (t_kstack x))) (areas (kernel_space (ks s))) = Some (idx, a)).
Context (Hfr : map_type a = Framed).
Let k0 := kmem_of (ks s).
Let kms := kernel_space (ks s).

Lemma child_allocated k : k ∈ frames (page_table (p_space m)) ++ concat (fm_frames <$> p_fms m) → is_allocated l0 (fa k0) k.
Proof. intros Hk. apply (child_frames m k Har) in Hk. eapply proc_owns_allocated; [by eapply (mo_proc _ _ Hmo)|done]. Qed.

(** After the exit code is written. *)
Lemma reap_write v :
  ∃ k1, write_user 4 (ms_token (p_space n)) ptr v k0 = Ok ((), k1) ∧ fa k1 = fa k0 ∧ proc_ok l0 k1 n ∧
    (∀ k, ¬ proc_owns n k → mem k1 !! k = mem k0 !! k) ∧
    (∀ i, (i < 4)%nat → user_byte (p_space n) k1 (ptr + Z.of_nat i) = le_enc 4 v !! i) ∧
    (∀ va b, b ∈ areas (p_space n) → floor va ∈ pages_of b → ¬ (ptr ≤ va < ptr + 4) → user_byte (p_space n) k1 va = user_byte (p_space n) k0 va).
Proof.
  destruct Hptr as [Hin Hpg]. pose proof (mo_proc _ _ Hmo _ _ Hn) as [Sp F V A T].
  destruct (write_user_spec l0 (p_space n) k0 4 ptr v Sp Hin Hpg) as (k1 & Hr & Hfa & Sp1 & Hw & Ho).
  destruct (write_user_frame l0 (p_space n) k0 4 ptr v Sp Hin Hpg) as (k1' & Hr' & Hmem & Hok & Hpt).
  rewrite Hr in Hr'. injection Hr' as <-. exists k1. split_and!; [done|done| |..].
  - split; [done| |done|done|done]. rewrite Forall_forall in F |- *. intros fm Hfm. destruct (F fm Hfm) as [F1 F2 F3].
    split; [done|by rewrite Hfa|]. intros off w f Hoff. destruct (F3 off w f Hoff) as (Hw' & Hff & (pg & P1 & P2) & He).
    split_and!; [apply Hw'|apply Hw'|done|by eapply Hok|by rewrite Hpt].
  - intros k Hk. apply Hmem. intros b w Hbin Hd. apply Hk. left. right. eauto.
  - done.
  - done.
Qed.

Lemma kernel_not_caller k : space_owns (framed_part kms) k → ¬ proc_owns n k.
Proof. intros Hk Ho. exact (mo_kernel_apart _ _ Hmo cur n k Hn Ho Hk). Qed.
Lemma kernel_not_child k : space_owns (framed_part kms) k → ¬ proc_owns m k.
Proof. intros Hk Ho. exact (mo_kernel_apart _ _ Hmo c m k Hm Ho Hk). Qed.

Lemma reap_frees k1 :
  fa k1 = fa k0 → (∀ k, ¬ proc_owns n k → mem k1 !! k = mem k0 !! k) →
  ∃ k2 kms' k3 k4, drop_space (p_space m) k1 = Ok ((), k2) ∧
    kstack_drop (t_kstack x) (mkKS (kstack_allocator (ks s)) kms k2) = Ok ((), mkKS (kstack_allocator (ks s)) kms' k3) ∧
    drop_frames (concat (fm_frames <$> p_fms m)) k3 = Ok ((), k4) ∧ memory_reaped l0 k0 k1 k4 kms kms' m.
Proof.
  intros Hfa Hmem. pose proof Honce as (Hnd1 & Hsep & Hnd2)%NoDup_app.
  assert (fa_wf l0 (fa k0)) as Hwf0 by apply (inv_fa _ _ _ (sp_pt _ _ _ (mo_kernel _ _ Hmo))).
  destruct (drop_frames_spec l0 (frames (page_table (p_space m))) k1) as (k2 & Hd2 & Hm2 & Hw2 & Hr2); [by rewrite Hfa|done| |].
  { intros k Hk. rewrite Hfa. apply child_allocated, elem_of_app. by left. }
  destruct (space_ok_frame l0 (framed_part kms) k0 k2) as [Hk2 _]; [apply Hmo|done|..].
  { intros k Hk. split; [|by rewrite Hm2; apply Hmem, kernel_not_caller]. apply Hr2. rewrite Hfa.
    split; [by eapply space_owns_allocated; [apply Hmo|]|]. intros Hin. eapply kernel_not_child; [done|].
    apply (child_frames m k Har), elem_of_app. by left. }
  destruct (kstack_drop_spec l0 (kstack_allocator (ks s)) kms k2 (t_kstack x) idx a) as
    (kms' & k3 & Hd3 & Hk3 & [Hw3 Hr3] & Hm3 & Hsub & Hstk); [done..|].
  destruct (drop_frames_spec l0 (concat (fm_frames <$> p_fms m)) k3) as (k4 & Hd4 & Hm4 & Hw4 & Hr4); [done|done| |].
  { intros k Hk. apply Hr3. assert (k ∈ frames (page_table (p_space m)) ++ concat (fm_frames <$> p_fms m)) as Hin by (apply elem_of_app; by right).
    split; [apply Hr2; rewrite Hfa; split; [by apply child_allocated|]; intros ?; by eapply Hsep|].
    intros (v & Hv). eapply kernel_not_child; [by eapply Hstk|]. by apply (child_frames m k Har). }
  exists k2, kms', k3, k4. split_and!; [unfold drop_space; rewrite (M_bind_Ok _ _ _ _ _ Hd2); by rewrite Har|done|done|].
  split; [done| |done|..].
  - eapply space_ok_frame; [done|done|]. intros k Hk. split; [|by rewrite Hm4]. apply Hr4.
    split; [by eapply space_owns_allocated|]. intros Hin. eapply kernel_not_child; [by apply Hsub|].
    apply (child_frames m k Har), elem_of_app. by right.
  - intros k Hal Hnc Hnk. rewrite (child_frames m k Har), elem_of_app in Hnc. apply Hr4. split; [|tauto]. apply Hr3.
    split; [apply Hr2; rewrite Hfa; tauto|]. intros (v & Hv). by eapply Hnk, Hstk.
  - intros k Hk Hal. apply (child_frames m k Har), elem_of_app in Hk as [Hk|Hk].
    + apply Hr4 in Hal as [[[? ?]%Hr2 _]%Hr3 _]. done.
    + by apply Hr4 in Hal as [_ ?].
  - intros k Hk. rewrite Hm4, Hm3, Hm2; [done|]. intros Hin. apply Hk. by left.
Qed.
End memory.

(** ** The tail of [waitpid]: the exit code is stored and the child is dropped *)
Definition collect (cur : Z) (n m : pcb) (c ptr : Z) (s : os) : outcome (Z * os) :=
  (o_mem (write_user 4 (ms_token (p_space n)) ptr (u32 (p_exit m))) ≫= λ _, drop_process c ≫= λ _, mret c)
    (set_procs (<[cur := with_children (delete 0%nat (p_children n)) n]> (procs s)) s).

(** The child [c] is gone, and its pid, frames and kernel stack are free; the
    caller finds its exit code, all else of the caller's memory and the memory
    of the other processes is as it was. *)
Record collected (l0 : Z) (s : os) (cur c ptr : Z) (n m : pcb) (s' : os) : Prop := {
  cd_procs : procs s' = delete c (<[cur := with_children (delete 0%nat (p_children n)) n]> (procs s));
  cd_pid : ra_dealloc (pids s) c = Ok (pids s');
  cd_code i : (i < 4)%nat → user_byte (p_space n) (kmem_of (ks s')) (ptr + Z.of_nat i) = le_enc 4 (u32 (p_exit m)) !! i;
  cd_rest va b : b ∈ areas (p_space n) → floor va ∈ pages_of b → ¬ (ptr ≤ va < ptr + 4) →
    user_byte (p_space n) (kmem_of (ks s')) va = user_byte (p_space n) (kmem_of (ks s)) va;
  cd_others q p k : procs s !! q = Some p → q ≠ cur → q ≠ c → proc_owns p k →
    mem (kmem_of (ks s')) !! k = mem (kmem_of (ks s)) !! k;
  cd_freed k : proc_owns m k → ¬ is_allocated l0 (fa (kmem_of (ks s'))) k;
  cd_machine : machine_ok l0 s';
}.

Section collecting.
Context (l0 : Z) (s : os) (cur c ptr : Z) (n m : pcb).
Context (Hmo : machine_ok l0 s) (Hn : procs s !! cur = Some n) (Hm : procs s !! c = Some m) (Hne : cur ≠ c).
Context (k1 k4 : kmem) (kms' : MemorySet).
Context (Hr : memory_reaped l0 (kmem_of (ks s)) k1 k4 (kernel_space (ks s)) kms' m).
Context (Hn1 : proc_ok l0 k1 n) (Hmem : ∀ k, ¬ proc_owns n k → mem k1 !! k = mem (kmem_of (ks s)) !! k).

Lemma other_kept q p k : procs s !! q = Some p → q ≠ c → proc_owns p k →
  is_allocated l0 (fa k4) k ∧ mem k4 !! k = mem k1 !! k.
Proof.
  intros Hq Hqc Hk. assert (¬ space_owns (framed_part (kernel_space (ks s))) k) as Hnk by (by eapply (mo_kernel_apart _ _ Hmo)).
  split; [|by apply Hr]. apply (mr_kept _ _ _ _ _ _ _ Hr); [eapply proc_owns_allocated; [by eapply (mo_proc _ _ Hmo)|done]| |done].
  intros Hkm. apply Hqc. exact (mo_apart _ _ Hmo q c p m k Hq Hm Hk Hkm).
Qed.
Lemma other_unwritten q p k : procs s !! q = Some p → q ≠ cur → proc_owns p k → mem k1 !! k = mem (kmem_of (ks s)) !! k.
Proof. intros Hq Hqn Hk. apply Hmem. intros Hkn. apply Hqn. exact (mo_apart _ _ Hmo q cur p n k Hq Hn Hk Hkn). Qed.

Lemma collected_machine s' l :
  ks s' = mkKS (kstack_allocator (ks s)) kms' k4 → procs s' = delete c (<[cur := with_children l n]> (procs s)) →
  machine_ok l0 s'.
Proof.
  intros Hks Hps.
  assert (∀ q p, procs s' !! q = Some p → q ≠ c ∧ ∃ p0, procs s !! q = Some p0 ∧ p_space p = p_space p0 ∧ p_fms p = p_fms p0) as Hcases.
  { intros q p. rewrite Hps. intros [Hqc [[<- <-]|[_ Hq]]%lookup_insert_Some]%lookup_delete_Some; (split; [done|]); eauto. }
  assert (∀ p p0 k, p_space p = p_space p0 → p_fms p = p_fms p0 → proc_owns p k → proc_owns p0 k) as Hsame
    by (intros p p0 k E1 E2; unfold proc_owns; by rewrite E1, E2).
  split; rewrite ?Hks; cbn [kernel_space kmem_of].
  - apply Hr.
  - intros q p Hq. destruct (Hcases q p Hq) as (Hqc & p0 & Hq0 & E1 & E2).
    assert (proc_ok l0 k4 p0) as [? ? ? ? ?]; [|split; rewrite ?E1, ?E2; done].
    destruct (decide (q = cur)) as [->|Hqn].
    + rewrite Hn in Hq0. injection Hq0 as <-. eapply proc_ok_frame; [done|apply Hr|]. intros k Hk. exact (other_kept cur n k Hn Hqc Hk).
    + eapply proc_ok_frame; [by eapply (mo_proc _ _ Hmo)|apply Hr|]. intros k Hk.
      destruct (other_kept q p0 k Hq0 Hqc Hk) as [? ->]. split; [done|]. exact (other_unwritten q p0 k Hq0 Hqn Hk).
  - intros q q' p p' k Hq Hq' Hk Hk'. destruct (Hcases q p Hq) as (_ & p0 & Hq0 & E1 & E2).
    destruct (Hcases q' p' Hq') as (_ & p0' & Hq0' & E1' & E2'). eapply (mo_apart _ _ Hmo); [done|done|by eapply Hsame|by eapply Hsame].
  - intros q p k Hq Hk Hker. destruct (Hcases q p Hq) as (_ & p0 & Hq0 & E1 & E2).
    eapply (mo_kernel_apart _ _ Hmo); [done|by eapply Hsame|by apply Hr].
Qed.
End collecting.

Lemma drop_process_run s c m t x pids' k2 kms' k3 k4 :
  procs s !! c = Some m → ra_dealloc (pids s) c = Ok pids' → p_tasks m = [Some t] → tcbs s !! t = Some x →
  t ∉ ready s → t ∉ held s → drop_space (p_space m) (kmem_of (ks s)) = Ok ((), k2) →
  kstack_drop (t_kstack x) (mkKS (kstack_allocator (ks s)) (kernel_space (ks s)) k2) = Ok ((), mkKS (kstack_allocator (ks s)) kms' k3) →
  drop_frames (concat (fm_frames <$> p_fms m)) k3 = Ok ((), k4) →
  ∃ s', drop_process c s = Ok ((), s') ∧ procs s' = delete c (procs s) ∧ pids s' = pids' ∧ ks s' = mkKS (kstack_allocator (ks s)) kms' k4.
Proof.
  intros Hm Hp Ht Hx Hrd Hhd H2 H3 H4. unfold drop_process.
  rewrite (M_bind_Ok _ _ s m s) by (unfold get_proc; by rewrite Hm).
  rewrite (M_bind_Ok _ _ s () (set_pids pids' s)) by (unfold pid_drop; by rewrite Hp).
  erewrite M_bind_Ok by (unfold o_mem; simpl; by rewrite H2). rewrite Ht.
  erewrite M_bind_Ok.
  2:{ cbn [drop_tcbs]. erewrite M_bind_Ok; [done|]. unfold drop_tcb. rewrite !(M_bind_Ok _ _ _ _ _ eq_refl). simpl ready. simpl held.
      rewrite !bool_decide_eq_false_2 by done. cbn [orb]. cbv iota.
      erewrite M_bind_Ok by (unfold get_tcb; simpl; by rewrite Hx). erewrite M_bind_Ok by (unfold o_ks; simpl; by rewrite H3). done. }
  erewrite M_bind_Ok by (unfold o_mem; simpl; by rewrite H4). eexists. split; [done|]. done.
Qed.

(** Collecting succeeds. *)
Lemma collect_run l0 s cur c ptr n m :
  tree_ok (tree_of s) → procs s !! cur = Some n → procs s !! c = Some m → p_zombie m = true → p_zombie n = false →
  reapable l0 s ptr n m → ∃ s', collect cur n m c ptr s = Ok (c, s') ∧ collected l0 s cur c ptr n m s'.
Proof.
  intros Htr Hn Hm Hz Hzn [Hmo Hptr Har Honce (t & x & idx & a & Ht & Hx & Hrd & Hhd & Hid & Hb & Hf & Hfr)].
  assert (cur ≠ c) as Hne by (intros ->; congruence).
  destruct (reap_write l0 s cur ptr n Hmo Hn Hptr (u32 (p_exit m))) as (k1 & Hw & Hfa & Hn1 & Hmem & Hcode & Hrest).
  destruct (reap_frees l0 s cur c ptr n m x idx a Hmo Hn Hm Hptr Har Honce Hid Hb Hf Hfr k1 Hfa Hmem) as (k2 & kms' & k3 & k4 & H2 & H3 & H4 & Hr).
  destruct (ra_dealloc_live (pids s) (dom (nodes (tree_of s))) c (ok_ids _ Htr)) as (pids' & Hp & _).
  { apply elem_of_dom. simpl. rewrite lookup_fmap, Hm. by eexists. }
  unfold collect. set (s1 := set_procs _ s).
  erewrite M_bind_Ok by (unfold o_mem; simpl; by rewrite Hw). set (s2 := set_ks _ s1).
  destruct (drop_process_run s2 c m t x pids' k2 kms' k3 k4) as (s' & Hd & Hps & Hpi & Hks); try done.
  { simpl. by rewrite lookup_insert_ne. }
  rewrite (M_bind_Ok _ _ _ _ _ Hd). exists s'. split; [done|]. simpl in Hps, Hks.
  assert (∀ k, proc_owns n k → is_allocated l0 (fa k4) k ∧ mem k4 !! k = mem k1 !! k) as Hk4 by (intros k; by eapply (other_kept l0 s c m Hmo Hm k1 k4 kms')).
  assert (∀ va b, b ∈ areas (p_space n) → floor va ∈ pages_of b → user_byte (p_space n) k4 va = user_byte (p_space n) k1 va) as Hub.
  { intros va b. eapply user_byte_frame; [apply Hn1| |intros k Hk; apply Hk4; by left].
    eapply space_ok_frame; [apply Hn1|apply Hr|]. intros k Hk. apply Hk4. by left. }
  split; rewrite ?Hks; cbn [kmem_of].
  - done.
  - by rewrite Hpi.
  - intros i Hi. destruct Hptr as [(_ & _ & _ & Hin) _]. destruct (Hin (ptr + Z.of_nat i)) as (b & Hbin & Hfl); [lia|].
    rewrite (Hub _ b) by done. by apply Hcode.
  - intros va b Hbin Hfl Hva. rewrite (Hub _ b) by done. by eapply Hrest.
  - intros q p k Hq Hqn Hqc Hk. destruct (other_kept l0 s c m Hmo Hm k1 k4 kms' Hr q p k) as [_ ->]; [done..|].
    by eapply (other_unwritten l0 s cur n Hmo Hn k1 Hmem q p).
  - apply Hr.
  - by eapply (collected_machine l0 s cur c n m Hmo Hn Hm Hne k1 k4 kms').
Qed.
