(* ===== verification/UserLib.v ===== *)
(** * The user library (user/src/lib.rs)

    The functions programs call: most pass their arguments to a system call of
    Abi.v; [wait], [waitpid] and [waittid] poll until there is a result.  The
    last part runs [wait] on the process calls of Process.v. *)
From S2P Require Import Prelude Bytes Address FrameAllocator PageTable MemorySet AddressSpace UserMem Abi.
From S2P Require Import IdAlloc Mmap Signal Process ProcTree Fork Reap.

Module Lib.
Definition AT_FDCWD : Z := -100.
Definition RDONLY : Z := 0.
Definition WRONLY : Z := Z.shiftl 1 0.
Definition RDRW : Z := Z.shiftl 1 1.
Definition CREATE : Z := Z.shiftl 1 9.
Definition TRUNC : Z := Z.shiftl 1 10.
Definition open (path flags : Z) : regs := User.sys_openat AT_FDCWD path flags.
Definition openat (fd path flags : Z) : regs := User.sys_openat (as_isize fd) path flags.
Definition close (fd : Z) : regs := User.sys_close fd.
Definition read (fd buf len : Z) : regs := User.sys_read fd buf len.
Definition write (fd buf len : Z) : regs := User.sys_write fd buf len.
Definition exit (exit_code : Z) : regs := User.sys_exit exit_code.
Definition yield_ : regs := User.sys_yield.
Definition sleep (ms : Z) : regs := User.sys_sleep ms.
Definition MAP_ANON : Z := 0.
Definition MAP_FILE : Z := Z.shiftl 1 0.
Definition MAP_FIXED : Z := Z.shiftl 1 1.
Definition mmap (start len prot flags fd offset packed : Z) : list Z * regs :=
  (User.packed_array prot (as_usize flags) fd offset, User.sys_mmap start len packed).
Definition munmap (start len : Z) : regs := User.sys_munmap start len.
Definition getpid : regs := User.sys_getpid.
Definition fork : regs := User.sys_fork.
Definition exec (prog args : Z) : regs := User.sys_exec prog args.
Definition waitpid_n (pid exit_code : Z) : regs := User.sys_waitpid (as_isize pid) exit_code.
Definition getcwd (path len : Z) : regs := User.sys_getcwd path len.
Definition mkdir (path : Z) : regs := User.sys_mkdirat AT_FDCWD path.
Definition mkdirat (fd path : Z) : regs := User.sys_mkdirat (as_isize fd) path.
Definition chdir (path : Z) : regs := User.sys_chdir path.
Definition unlink (path : Z) : regs := User.sys_unlinkat AT_FDCWD path.
Definition link (oldpath newpath : Z) : regs := User.sys_linkat AT_FDCWD oldpath newpath.
Definition fstat (fd stat : Z) : regs := User.sys_fstat fd stat.
Definition pipe (pipe_fd : Z) : regs := User.sys_pipe pipe_fd.
Definition dup (fd : Z) : regs := User.sys_dup fd.
Definition kill (pid signum : Z) : regs := User.sys_kill pid signum.
(** A missing action is the null pointer. *)
Definition sigaction (signum : Z) (action old_action : option Z) : regs :=
  User.sys_sigaction signum (default 0 action) (default 0 old_action).
Definition sigprocmask (mask : Z) : regs := User.sys_sigprocmask mask.
Definition sigreturn : regs := User.sys_sigreturn.
Definition getdents (fd entries len : Z) : regs := User.sys_getdents fd entries len.
Definition thread_create (entry arg : Z) : regs := User.sys_thread_create entry arg.
Definition gettid : regs := User.sys_gettid.
Definition mutex_create : regs := User.sys_mutex_create false.
Definition mutex_blocking_create : regs := User.sys_mutex_create true.
Definition mutex_lock (mutex_id : Z) : regs := User.sys_mutex_lock mutex_id.
Definition mutex_unlock (mutex_id : Z) : regs := User.sys_mutex_unlock mutex_id.
Definition semaphore_create (res_count : Z) : regs := User.sys_semaphore_create res_count.
Definition semaphore_acquire (sem_id : Z) : regs := User.sys_semaphore_down sem_id.
Definition semaphore_release (sem_id : Z) : regs := User.sys_semaphore_up sem_id.
Definition condvar_create : regs := User.sys_condvar_create.
Definition condvar_wait (condvar_id mutex_id : Z) : regs := User.sys_condvar_wait condvar_id mutex_id.
Definition condvar_signal (condvar_id : Z) : regs := User.sys_condvar_signal condvar_id.

(** [Dirent::name] *)
Definition NAME_LENGTH_LIMIT : Z := 27.
Definition dirent_name (name : list Z) : outcome (list Z) :=
  let bytes := before_nul name in _ ← assert (utf8_ok bytes); Ok bytes.

(** *** Polling *)
Section polling.
Context {T : Type} (ecall : regs → M T Z).

Fixpoint wait (fuel : nat) (exit_code : Z) : M T Z :=
  match fuel with
  | O => lift (Err Diverged)
  | S fuel' =>
      ecall (User.sys_waitpid (-1) exit_code) ≫= λ n,
      if n =? -2 then ecall User.sys_yield ≫= λ _, wait fuel' exit_code else mret n
  end.
Fixpoint waitpid (fuel : nat) (pid exit_code : Z) : M T Z :=
  match fuel with
  | O => lift (Err Diverged)
  | S fuel' =>
      ecall (User.sys_waitpid (as_isize pid) exit_code) ≫= λ n,
      if n =? -2 then ecall User.sys_yield ≫= λ _, waitpid fuel' pid exit_code else mret n
  end.
Fixpoint waittid (fuel : nat) (tid : Z) : M T Z :=
  match fuel with
  | O => lift (Err Diverged)
  | S fuel' =>
      ecall (User.sys_waittid tid) ≫= λ exit_code,
      if exit_code =? -2 then ecall yield_ ≫= λ _, waittid fuel' tid else mret exit_code
  end.
End polling.
End Lib.

(** ** Waiting for a child *)
Section waiting.
Context `{KC : !KernelCalls os}.
(** The calling process, and what the other processes do while it yields. *)
Context (cur : Z) (others : os → os).
Hypothesis waitpid_call : ∀ pid ptr s, k_call (Waitpid pid ptr) s = sys_waitpid cur pid ptr s.
Hypothesis yield_call : ∀ s, k_call Yield s = Ok (0, others s).

Definition ecall (r : regs) : M os Z := syscall (r_id r) (r_args r).
Lemma ecall_waitpid pid ptr s : is_isize pid → ecall (User.sys_waitpid pid ptr) s = sys_waitpid cur pid ptr s.
Proof. intros Hp. unfold ecall. by rewrite (dispatch_encode s 0 (Waitpid pid ptr)). Qed.
Lemma ecall_yield s : ecall User.sys_yield s = Ok (0, others s).
Proof. unfold ecall. by rewrite (dispatch_encode s 0 Yield). Qed.

(** In [s], [c] is the first child of the caller, no kernel stack holds a
    reference to it, and it has exited or not. *)
Record first_child (s : os) (c : Z) (exited : bool) : Prop := {
  fc_tree : tree_ok (tree_of s);
  fc_refs : c ∉ refs s;
  fc_child : ∃ n l, procs s !! cur = Some n ∧ p_children n = c :: l;
  fc_state : ∃ m, procs s !! c = Some m ∧ p_zombie m = exited;
}.
Lemma first_child_waitpid s c ptr n z :
  first_child s c z → procs s !! cur = Some n →
  ∃ m, procs s !! c = Some m ∧ p_zombie m = z ∧ p_zombie n = false ∧
    sys_waitpid cur (-1) ptr s = if z then collect cur n m c ptr s else Ok (-2, s).
Proof.
  intros [Ht Hr (n' & l & Hn & Hl) (m & Hm & Hz)] Hn'. rewrite Hn' in Hn. injection Hn as <-.
  pose proof (waitpid_run s cur (-1) ptr n Ht Hn') as H. rewrite Hl in H. cbn [list_find] in H.
  rewrite decide_True in H by (by left). destruct H as (m' & Hm' & _ & Hw); [by intros idx c' [= _ <-]|].
  rewrite Hm in Hm'. injection Hm' as <-. exists m. split_and!; [done|done| |by rewrite Hw, Hz, <- Hl].
  destruct (p_zombie n) eqn:Hzn; [|done].
  assert (n_children (node_of n) = []) as Hc by (apply (ok_zombie _ Ht cur); [simpl; by rewrite lookup_fmap, Hn'|done]).
  simpl in Hc. by rewrite Hl in Hc.
Qed.
Lemma first_child_running s c ptr : first_child s c false → sys_waitpid cur (-1) ptr s = Ok (-2, s).
Proof.
  intros Hf. destruct (fc_child _ _ _ Hf) as (n & l & Hn & _). by destruct (first_child_waitpid s c ptr n false Hf Hn) as (m & _ & _ & _ & ->).
Qed.

(** C14 [wait] as a program uses it.  While its first child [c] runs, it yields,
    once per turn; in the first turn after that child has exited it returns the
    child's pid.  By then the child is gone from the process table and from the
    caller's children, its pid and the frames of its page table and mapped files
    are free, the four bytes at the pointer hold its exit code, the rest of the
    caller's memory and all memory of other processes is as it was, and no frame
    has two owners.  The pointer is one the caller can write; the child has its
    main thread left, which nothing refers to, and no kernel stack holds a
    reference to it. *)
Theorem wait_until_exit l0 k fuel s c ptr n m :
  (∀ i, (i < k)%nat → first_child (Nat.iter i others s) c false) →
  let s1 := Nat.iter k others s in
  first_child s1 c true → procs s1 !! cur = Some n → procs s1 !! c = Some m → reapable l0 s1 ptr n m → (k < fuel)%nat →
  ∃ s2, Lib.wait ecall fuel ptr s = Ok (c, s2) ∧ collected l0 s1 cur c ptr n m s2.
Proof.
  revert s fuel. induction k as [|k IH]; intros s fuel Hrun s1 Hex Hn Hm Hre Hf; (destruct fuel as [|fuel]; [lia|]); cbn [Lib.wait].
  - subst s1. simpl in *. destruct (first_child_waitpid s c ptr n true Hex Hn) as (m' & Hm' & Hz & Hzn & Hw).
    rewrite Hm in Hm'. injection Hm' as <-.
    destruct (collect_run l0 s cur c ptr n m) as (s2 & Hc & Hcd); [apply Hex|done..|].
    exists s2. split; [|done]. rewrite Hc, <- ecall_waitpid in Hw by (unfold is_isize; lia). rewrite (M_bind_Ok _ _ _ _ _ Hw).
    assert (0 ≤ c) as H0.
    { apply (ri_split _ (ok_ids _ (fc_tree _ _ _ Hex))). right. simpl. apply elem_of_dom. rewrite lookup_fmap, Hm. eauto. }
    by rewrite (proj2 (Z.eqb_neq c (-2))) by lia.
  - assert (sys_waitpid cur (-1) ptr s = Ok (-2, s)) as Hw by (apply (first_child_running s c), (Hrun 0%nat); lia).
    rewrite <- ecall_waitpid in Hw by (unfold is_isize; lia).
    rewrite (M_bind_Ok _ _ _ _ _ Hw). change (-2 =? -2) with true. cbv iota.
    rewrite (M_bind_Ok _ _ _ _ _ (ecall_yield s)). subst s1.
    assert (∀ i, Nat.iter i others (others s) = Nat.iter (S i) others s) as Hit by (intros i; by rewrite Nat.iter_succ_r).
    rewrite <- Hit in *. apply IH; try done; [|lia]. intros i Hi. rewrite Hit. apply Hrun. lia.
Qed.

(** An exited child behind a running one is not collected: [wait] takes the first
    child of the list, so it spins while that one runs. *)
Lemma wait_stuck_behind fuel s c ptr :
  (∀ i, first_child (Nat.iter i others s) c false) → Lib.wait ecall fuel ptr s = Err Diverged.
Proof.
  revert s. induction fuel as [|fuel IH]; intros s Hrun; [done|]. cbn [Lib.wait].
  pose proof (first_child_running s c ptr (Hrun 0%nat)) as Hw. rewrite <- ecall_waitpid in Hw by (unfold is_isize; lia).
  rewrite (M_bind_Ok _ _ _ _ _ Hw). change (-2 =? -2) with true. cbv iota. rewrite (M_bind_Ok _ _ _ _ _ (ecall_yield s)).
  apply IH. intros i. rewrite <- Nat.iter_succ_r. apply (Hrun (S i)).
Qed.
End waiting.

(** ** A parent and its child *)
Module WaitDemo.
Import ProcDemo SpaceDemo.
Definition child_exits (s : os) : os := orun (exit_current_and_run_next 1 42) s.
#[local] Instance demo_calls : KernelCalls os := {
  k_call c s := match c with
                | Waitpid pid ptr => sys_waitpid 0 pid ptr s
                | Yield => Ok (0, child_exits s)
                | _ => Ok (-1, s)
                end;
  k_space _ := one.1;
  k_kmem _ := one.2;
  k_set_kmem _ s := s;
  k_set_id s := eq_refl;
}.

Lemma forked_ok : tree_ok (tree_of forked).
Proof.
  destruct (orun_Ok (process_new elf tramp 0 0 [0; 0; 0; 19]) boot_os) as [i Hb]; [vm_compute; reflexivity|].
  destruct (boot_tree elf tramp 0 0 [0; 0; 0; 19] (tree_of boot_os) eq_refl eq_refl eq_refl _ _ _ eq_refl Hb) as [_ H0].
  destruct (orun_Ok (sys_fork tramp 0) up) as [c Hf]; [vm_compute; reflexivity|].
  apply (kstep_ok elf tramp 0 0 up forked H0).
  eapply (k_fork _ _ _ _ _ _ 0 c); [apply (bool_decide_unpack _); vm_compute; exact I|exact Hf|vm_compute; reflexivity].
Qed.
Lemma first_child_of s z :
  tree_ok (tree_of s) → refs s = [] → p_children <$> procs s !! 0 = Some [1] → p_zombie <$> procs s !! 1 = Some z → first_child 0 s 1 z.
Proof.
  intros Ht Hr Hc Hz. split; [done|rewrite Hr; apply not_elem_of_nil| |].
  - destruct (procs s !! 0) as [n|]; [|done]. exists n, []. split; [done|]. by injection Hc.
  - destruct (procs s !! 1) as [m|]; [|done]. exists m. split; [done|]. by injection Hz.
Qed.

(** A machine on which process 0 waits for its child 1: the parent has the pages
    of ForkDemo, the child a page table, its thread the first kernel stack. *)
Import ForkDemo.
Definition child_space : MemorySet * kmem := run new_bare u2.2 dummy.
Definition with_stack : KState :=
  match kstack_alloc (mkKS ra_new bare.1 child_space.2) with Ok (_, k) => k | Err _ => mkKS ra_new bare.1 child_space.2 end.
Definition parent : pcb := mkPcb false u2.1 None [1] 0 [] [] [] [] 0 [Some 0] (mkRA 1 []) [] 0 [] 7.
Definition child (exited : bool) : pcb :=
  mkPcb exited child_space.1 (Some 0) [] (if exited then 42 else 0) [] [] [] [] 0 [Some 1] (mkRA 1 []) [] 0 [] 7.
Definition family (exited : bool) : os :=
  mkOs with_stack (mkRA 2 []) {[0 := parent; 1 := child exited]}
    {[0 := mkTcb 0 1 (Some (mkRes 0 0x4000)) 0 None signal_processor_new;
      1 := mkTcb 1 0 None 0 (if exited then Some 42 else None) signal_processor_new]}
    2 (if exited then {[0]} else {[0; 1]}) [] [] ∅ ∅ 0 ∅.

Lemma keep_frames ms pt s pt' s' : space_ok 5 ms s → fa_wf 5 (fa s') → extends 5 pt s pt' s' →
  (∀ k, k ∈ frames pt → ¬ space_owns ms k) → space_ok 5 ms s'.
Proof.
  intros Hs Hfa He Hn. eapply space_ok_frame; [done|done|]. intros k Hk.
  pose proof (space_owns_allocated _ _ _ _ Hs Hk). split; [by apply He|]. apply He; [done|]. by intros ?%Hn.
Qed.

(** How a page table and a kernel stack are added to a machine. *)
Record family_mem (us kms cs : MemorySet) (m : kmem) : Prop := {
  fm_user : space_ok 5 us m;
  fm_kernel : space_ok 5 (framed_part kms) m;
  fm_child : space_ok 5 cs m;
  fm_user_child : ∀ k, space_owns cs k → ¬ space_owns us k;
  fm_apart : ∀ k, space_owns (framed_part kms) k → ¬ space_owns us k ∧ ¬ space_owns cs k;
}.
Lemma family_memory us bs cs m0 m3 k4 :
  space_ok 5 us m0 → space_ok 5 bs m0 → (∀ k, space_owns us k → ¬ space_owns bs k) → nfree 89 (fa m0) →
  framed_part bs = bs → new_bare m0 = Ok (cs, m3) →
  (∀ v, v ∈ range_pages (kstack_pages 0) → pt_map m3 bs v = None) →
  kstack_alloc (mkKS ra_new bs m3) = Ok (0, k4) → family_mem us (kernel_space k4) cs (kmem_of k4).
Proof.
  intros S0 B0 D0 N0 Hb Hnb Hfree Hka.
  destruct (pt_new_correct 5 88 m0) as (pt & s3 & Hnew & Hinv & Hnf & _ & He); [apply S0|done|].
  unfold new_bare in Hnb. rewrite (M_bind_Ok _ _ _ _ _ Hnew) in Hnb. injection Hnb as <- <-.
  assert (∀ k, k ∈ frames pt → ¬ is_allocated 5 (fa m0) k) as Hfr
    by (intros k Hk; destruct (ext_fresh _ _ _ _ _ He k Hk) as [H|H]; [by apply elem_of_nil in H|exact H]).
  assert (space_ok 5 us s3) as S3 by (eapply keep_frames; [exact S0|apply Hinv|exact He|by intros k H%elem_of_nil]).
  assert (space_ok 5 bs s3) as B3 by (eapply keep_frames; [exact B0|apply Hinv|exact He|by intros k H%elem_of_nil]).
  assert (space_ok 5 (mkMS pt []) s3) as C3
    by (split; simpl; [done|by intros ? ?%elem_of_nil|by intros ? ? ?%elem_of_nil|by intros ? ? ? ? ? ?%elem_of_nil|done]).
  assert (∀ k, space_owns (mkMS pt []) k → ¬ is_allocated 5 (fa m0) k) as Hown
    by (intros k [?|(a & v & ?%elem_of_nil & _)]; [by apply Hfr|done]).
  assert (ra_alloc ra_new = (0, mkRA 1 [])) as Hra by (vm_compute; reflexivity).
  assert ((0 + 1) * 12288 ≤ 2 ^ 38 - 4096) as Hle by (vm_compute; discriminate).
  assert (nfree (6 + 0) (fa s3)) as Hn by (eapply nfree_mono; [|exact Hnf]; lia).
  destruct (kstack_alloc_spec 5 0 ra_new bs s3 0 (mkRA 1 [])) as (ms' & s4 & Hka' & Hk4 & Haa & _); [by rewrite Hb|done|done|done|done|done|].
  rewrite Hka in Hka'. injection Hka' as ->. cbn [kernel_space kmem_of]. rewrite Hb in Haa.
  assert (fa_wf 5 (fa s4)) as Hw4 by apply Hk4.
  pose proof (aa_keeps _ _ _ _ _ _ _ Haa) as He4.
  assert (∀ k, space_owns (framed_part ms') k → space_owns bs k ∨ ¬ is_allocated 5 (fa s3) k) as Hk.
  { intros k [Hk|(a & v & Ha & Hv)]; [destruct (ext_fresh _ _ _ _ _ He4 k Hk); [left; by left|by right]|].
    destruct (aa_areas _ _ _ _ _ _ _ Haa) as (a' & Har & _ & _ & Hfresh). rewrite Har in Ha.
    apply elem_of_app in Ha as [Ha| ->%list_elem_of_singleton]; [left; right; eauto|right; by eapply Hfresh]. }
  split.
  - eapply keep_frames; [exact S3|done|exact He4|]. intros k Hin Hu. eapply D0; [done|by left].
  - done.
  - eapply keep_frames; [exact C3|done|exact He4|]. intros k Hin Hu. apply (Hown k Hu). apply (space_owns_allocated 5 bs m0 k B0). by left.
  - intros k Hc Hu. apply (Hown k Hc). exact (space_owns_allocated 5 us m0 k S0 Hu).
  - intros k [Hk'|Hk']%Hk; split.
    + intros Hu. by eapply D0.
    + intros Hc. apply (Hown k Hc). exact (space_owns_allocated 5 bs m0 k B0 Hk').
    + intros Hu. apply Hk'. exact (space_owns_allocated 5 us s3 k S3 Hu).
    + intros Hc. apply Hk'. exact (space_owns_allocated 5 (mkMS pt []) s3 k C3 Hc).
Qed.

Lemma family_mem_ok : family_mem u2.1 (kernel_space with_stack) child_space.1 (kmem_of with_stack).
Proof.
  destruct u2_ok as (S2 & N2 & B2 & D2).
  apply (family_memory u2.1 bare.1 child_space.1 u2.2 child_space.2 with_stack S2 B2 D2 N2); [vm_compute; reflexivity..| |vm_compute; reflexivity].
  assert (Forall (λ v, bool_decide (pt_map child_space.2 bare.1 v = None) = true) (range_pages (kstack_pages 0))) as H
    by (apply (bool_decide_unpack _); vm_compute; exact I).
  rewrite Forall_forall in H. intros v Hv. exact (bool_decide_eq_true_1 _ (H v Hv)).
Qed.

Lemma owns_space p k : p_fms p = [] → proc_owns p k → space_owns (p_space p) k.
Proof. intros E [H|(fm & Hfm & _)]; [exact H|]. rewrite E in Hfm. by apply elem_of_nil in Hfm. Qed.
Lemma two_ok s p0 p1 :
  procs s = {[0 := p0; 1 := p1]} → p_fms p0 = [] → p_fms p1 = [] →
  Forall (λ a, TRAMPOLINE_VPN ∉ pages_of a) (areas (p_space p0)) → areas (p_space p1) = [] →
  family_mem (p_space p0) (kernel_space (ks s)) (p_space p1) (kmem_of (ks s)) → machine_ok 5 s.
Proof.
  intros Hps F0 F1 Ht Ha [M1 M2 M3 M4 M5].
  assert (∀ q p, procs s !! q = Some p → q = 0 ∧ p = p0 ∨ q = 1 ∧ p = p1) as Hc.
  { intros q p. rewrite Hps. intros [[<- <-]|[_ [<- <-]%lookup_singleton_Some]]%lookup_insert_Some; auto. }
  split; [done|..].
  - intros q p [[-> ->]|[-> ->]]%Hc; (split; [done|rewrite ?F0, ?F1; constructor|rewrite ?F0, ?F1; constructor|rewrite ?F0, ?F1; by intros ? ?%elem_of_nil|]).
    + by apply Forall_forall.
    + rewrite Ha. by intros ? ?%elem_of_nil.
  - intros q q' p p' k [[-> ->]|[-> ->]]%Hc [[-> ->]|[-> ->]]%Hc; try done; intros H1%owns_space H2%owns_space; try done;
      exfalso; by eapply M4.
  - intros q p k [[-> ->]|[-> ->]]%Hc H%owns_space Hk; try done; by destruct (M5 k Hk).
Qed.
Lemma family_reapable : reapable 5 (family true) 0x1000 parent (child true).
Proof.
  split.
  - eapply (two_ok _ parent (child true)); [reflexivity..| |vm_compute; reflexivity|exact family_mem_ok].
    apply (bool_decide_unpack _). vm_compute. exact I.
  - split; [|split; [reflexivity|vm_compute; discriminate]].
    split; [discriminate|]. split; [discriminate|]. split; [reflexivity|]. intros va Hva.
    exists (default (area_at 0 0 0) (areas u2.1 !! 0%nat)). split.
    + apply list_elem_of_lookup. exists 0%nat. vm_compute. reflexivity.
    + assert (va ∈ seqZ 0x1000 4) as Hin by (apply elem_of_seqZ; lia). clear Hva. revert va Hin.
      apply (Forall_forall (λ va, floor va ∈ pages_of (default (area_at 0 0 0) (areas u2.1 !! 0%nat)))).
      apply (bool_decide_unpack _). vm_compute. exact I.
  - vm_compute. reflexivity.
  - apply (bool_decide_unpack _). vm_compute. exact I.
  - exists 1, (mkTcb 1 0 None 0 (Some 42) signal_processor_new). eexists _, _.
    split; [reflexivity|]. split; [reflexivity|]. split; [apply (bool_decide_unpack _); vm_compute; exact I|].
    split; [apply (bool_decide_unpack _); vm_compute; exact I|]. split; [discriminate|]. split; [discriminate|].
    split; [vm_compute; reflexivity|reflexivity].
Qed.

#[local] Instance family_calls : KernelCalls os := {
  k_call c s := match c with
                | Waitpid pid ptr => sys_waitpid 0 pid ptr s
                | Yield => Ok (0, family true)
                | _ => Ok (-1, s)
                end;
  k_space _ := one.1;
  k_kmem _ := one.2;
  k_set_kmem _ s := s;
  k_set_id s := eq_refl;
}.
Lemma family_trees : tree_of (family false) = tree_of forked ∧ tree_of (family true) = tree_of exited.
Proof. split; vm_compute; reflexivity. Qed.

Lemma wait_until_exit_witness :
  ∃ s2, Lib.wait (ecall (KC := family_calls)) 5 0x1000 (family false) = Ok (1, s2) ∧
    collected 5 (family true) 0 1 0x1000 parent (child true) s2.
Proof.
  apply (wait_until_exit (KC := family_calls) 0 (λ _, family true) (λ _ _ _, eq_refl) (λ _, eq_refl) 5 1 5 (family false) 1 0x1000).
  - intros i Hi. assert (i = 0%nat) as -> by lia.
    change (first_child 0 (family false) 1 false). apply first_child_of; [rewrite (proj1 family_trees); apply forked_ok|reflexivity..].
  - change (first_child 0 (family true) 1 true). apply first_child_of; [rewrite (proj2 family_trees); apply exited_ok|reflexivity..].
  - reflexivity.
  - reflexivity.
  - apply family_reapable.
  - lia.
Defined.

(** The whole run: one yield, then the pid of the child. *)
Example wait_runs : match Lib.wait (ecall (KC := demo_calls)) 5 0x10000 forked with Ok (r, s) => (r, summary s) | Err _ => (0, []) end = (1, [(0, (false, [], 0))]).
Proof. vm_compute. reflexivity. Qed.

(** A thread that exits with code -2 is taken for one that still runs: the loop of
    [waittid] asks again, for a thread that is gone by then. *)
Definition two_threads : os := orun (sys_thread_create 0 0 0 0 0x10000 0) up.
Definition thread_gone : os := orun (exit_current_and_run_next 1 (-2)) two_threads.
Definition thread_call (r : regs) : M os Z := if r_id r =? SYSCALL_WAITTID then sys_waittid 0 0 (r_args r).1.1 else mret 0.
Lemma waittid_loses_code :
  match sys_waittid 0 0 1 thread_gone, Lib.waittid thread_call 3 1 thread_gone with
  | Ok (r, _), Ok (r', _) => (r, r') = (-2, -1)
  | _, _ => False
  end.
Proof. vm_compute. reflexivity. Qed.
End WaitDemo.
